(* ===== verification/_CoqProject ===== *)
-Q . S2P
Prelude.v
Values.v
Engine.v
WolfCrypt.v
KeyPolicy.v
Der.v
KeyFormat.v
StoreIface.v
StorePath.v
StorePosix.v
StorePosixSpec.v
Library.v
KeyStore.v
Samples.v
KeyStoreRules.v
Operation.v
KeyAgreement.v
Kdf.v
KdfStream.v
KdfInv.v
KdfSpec.v
KdfProps.v
Mac.v
MacSpec.v
Hash.v
HashSpec.v
Xof.v
XofSpec.v
WolfCipher.v
Cipher.v
CipherRules.v
CipherPadding.v
CipherOps.v
CipherSpec.v
CipherProps.v
CipherOneShot.v
Ccm.v
CcmSpec.v
WolfAead.v
Aead.v
AeadOneShot.v
AeadRules.v
AeadFinal.v
AeadOps.v
AeadSpec.v
AeadProps.v
AeadOneShotSpec.v
CryptoSamples.v
ImportRules.v
KeyStoreSpec.v
KeyStoreCalls.v
KeyStoreInv.v
KeyReaders.v
AsymValues.v
WolfSign.v
WolfPkc.v
SignIface.v
Sign.v
SignRules.v
SignSpec.v
Rsa.v
RsaSpec.v
Ecc.v
Edwards.v
MlDsa.v
LmsXmss.v
Kem.v
KeyGen.v
SignBackends.v
KeyWrap.v
KeyWrapSpec.v
KemSpec.v
PublicKeys.v
KeyStoreExamples.v
CryptoExamples.v
CipherExamples.v
AeadExamples.v
KeyWrapExamples.v
SignExamples.v
PublicKeyExamples.v
