(* ===== verification/Prelude.v ===== *)
(** * wolfPSA: the key store and the multi-part operations, verified

    wolfPSA implements the PSA Crypto API on top of wolfCrypt.  This library
    models what is the repository's own logic: key management (which key data is
    accepted, where keys live, who may use, export or copy them, what survives a
    failure), the operations that keep state between calls (key derivation,
    MACs, hashes, extendable output, ciphers, authenticated encryption), key
    wrapping, and signatures, asymmetric encryption, key encapsulation and the
    generation and export of asymmetric keys down to the calls of the primitives.  Cryptographic primitives are wolfCrypt's and are parameters here.

    ** The parts and the files

    - [Prelude] (this file): bytes, little- and big-endian integers, C integer
      conversions, the state monad [M] with its predicate transformer [wp], bit
      fields, and the hint database [wpsa].
    - [Values]: status codes, key types, algorithms, lifetimes, usage flags and
      [psa_key_attributes_t] ([wolfpsa/psa/crypto_values.h], [crypto_struct.h],
      [crypto_sizes.h], [crypto-pqc.h]).
    - [Engine]: the build configuration ([Config]), wolfCrypt's return codes and
      their translation ([src/psa_engine.c], [src/psa_size.h]).
    - [KeyPolicy]: policies, their intersection when a key is copied, and the
      checks of the MAC, AEAD and signature operations
      ([src/psa_key_storage.c], [src/psa_mac.c], [src/psa_aead.c],
      [src/psa_asymmetric_api.c]).
    - [Der]: the DER encoder of RSA public keys ([src/psa_key_storage.c]).
    - [KeyFormat]: size inference, the per-type import checks, curve tables, the
      record format ([src/psa_key_storage.c], [src/psa_asymmetric.c]).
    - [StoreIface]: the interface of [wolfpsa/psa_store.h]: the class [StoreOps]
      of operations and the class [StoreLaws] of what the key store relies on.
    - [StorePath], [StorePosix], [StorePosixSpec]: the file backend
      [src/psa_store_posix.c], and the instance [posix_laws].
    - [Library]: the globals, the mutex, initialisation and cleanup, random
      output ([src/psa_crypto.c], [src/psa_lock.h], [src/psa_random.c],
      [src/psa_key_storage.c]).
    - [KeyStore]: every entry point of [src/psa_key_storage.c], against
      [StoreOps].
    - [KeyStoreRules], [ImportRules], [KeyStoreCalls]: a [wp] rule per routine.
    - [KeyStoreSpec], [KeyStoreInv]: what the entry points promise, the invariant
      and the refinement.
    - [Samples], [KeyStoreExamples]: a concrete environment, the theorems applied
      to it, and runs that show deviations.
    - [WolfCrypt]: the primitives of wolfCrypt as classes ([WolfCryptHash],
      [WolfCryptKdf], ...) and, as further classes, the laws the theorems use.
    - [Operation]: what the operations share: the state [opstate] of a call (the
      library, the context behind [operation->opaque], the return codes of
      wolfCrypt still to come), buffers that may be NULL, and their rules; then
      computations that fail only when a call of wolfCrypt does, and random bytes
      drawn by an operation.
    - [KeyAgreement]: ECDH, X25519 and X448 ([src/psa_asymmetric_api.c],
      [src/psa_montgomery.c]).
    - [Kdf]: [src/psa_key_derivation.c], and [psa_key_agreement].  [KdfStream]: the
      stream that an operation derives, and that the backends compute it.
      [KdfInv]: the invariant of the context.  [KdfSpec]: the abstract machine
      [kdf_step] and the refinement.  [KdfProps]: what follows from it.
    - [Mac], [MacSpec]: [src/psa_mac.c].
    - [Hash], [HashSpec]: [src/psa_hash_engine.c].
    - [Xof], [XofSpec]: [src/psa_xof.c].
    - [WolfCipher]: wolfCrypt's AES, DES3 and ChaCha20 contexts and their laws.
      [Cipher]: [src/psa_cipher.c].  [CipherRules]: its invariant, and a [wp] rule
      per branch of the update; [CipherPadding]: PKCS#7; [CipherOps]: a rule per
      entry point; [CipherSpec]: the state machine [cipher_step] and the
      refinement; [CipherProps]: multi-part operations and output sizes;
      [CipherOneShot]: one-shot encryption and decryption.
    - [Ccm]: the streaming CCM of [src/psa_aead.c] over the AES block; [CcmSpec]:
      the CCM of SP 800-38C, and that the stream computes it.
    - [WolfAead]: wolfCrypt's GCM, CCM, ChaCha20-Poly1305, XChaCha20-Poly1305 and
      Ascon, and their laws.  [Aead]: the operation of [src/psa_aead.c] and
      [src/psa_chacha20_poly1305.c]; [AeadOneShot]: the one-shot calls.
      [AeadRules]: the reference ([aead_seal], [aead_open]) and the invariant of a
      context; [AeadFinal]: the finals; [AeadOps]: a [wp] rule per entry point;
      [AeadSpec]: the state machine [aead_step] and the refinement; [AeadProps]:
      multi-part operations; [AeadOneShotSpec]: one-shot calls.
    - [KeyReaders]: how an operation reads the key store: the steps that leave
      every key as it is, and a rule for each entry point that only reads.
    - [AsymValues]: the asymmetric algorithms ([wolfpsa/psa/crypto_values.h],
      [crypto_sizes.h]), the tables of [src/psa_asymmetric.c] and the support
      checks of it and of [src/psa_pq.c], with their agreement: a valid size
      has a supported type and a curve.  [WolfSign], [WolfPkc]: how a
      backend calls wolfCrypt ([wc_result], [wc_code], [bwp]), and RSA, ECC,
      EdDSA, ML-DSA, LMS and XMSS as classes with their laws.
    - [SignIface]: the class [SignBackend] of the per-type backends that the API
      calls, and the class [SignBackendOk] of what it relies on.  [Sign]: the
      signature and encryption calls of [src/psa_asymmetric_api.c].  [SignRules]:
      a [wp] rule per worker.  [SignSpec]: what the calls promise, over any such
      backend.
    - [Rsa], [RsaSpec] ([src/psa_rsa.c]), [Ecc] ([src/psa_ecc.c]), [Edwards]
      ([src/psa_ed25519_ed448.c]), [MlDsa] ([src/psa_mldsa.c]), [LmsXmss]
      ([src/psa_lms_xmss.c]): the backends, and the law of each.  [SignBackends]:
      they are an instance of [SignBackend] that meets [SignBackendOk], and
      [SignSpec] for that instance, scheme by scheme.
    - [Kem], [KemSpec]: [src/psa_kem.c] over [src/psa_mlkem.c].
    - [KeyGen]: key generation and public export of [src/psa_rsa.c],
      [src/psa_ecc.c], [src/psa_ed25519_ed448.c], [src/psa_montgomery.c],
      [src/psa_mldsa.c] and [src/psa_mlkem.c]: an instance of the class [KeyBackend]
      of the key store.  [PublicKeys]: that instance meets [KeyBackendOk], and what
      an exported public key is good for.
    - [KeyWrap], [KeyWrapSpec]: [src/psa_key_wrap.c] with the export sizes of
      [wolfpsa/psa/crypto_sizes.h].
    - [CryptoSamples], [CryptoExamples], [CipherExamples], [AeadExamples],
      [KeyWrapExamples], [SignExamples], [PublicKeyExamples]: primitives that meet the laws, and the
      theorems on the operations applied to them.

    The operations call the key store through [wolfpsa_get_key_data] and
    [psa_import_key] (a key as input, a derived key as output) and nothing else;
    key derivation calls [KeyAgreement] for a shared secret.

    ** How the model reads

    A C function is a definition of the same name.  A function that changes
    state is a computation of [M S A]: [S] is [kstate] for the library (its
    globals, the state of the record store, the mutex) and [posix_state] for the
    file backend (a directory of names over inodes).  Output parameters come back
    with the status; a pointer that may be NULL is an [option] or a [bool].  A
    long function ([psa_import_key], [psa_export_public_key]) is cut into one
    definition per stage, in the order of the code.  A fixed-width integer is a
    [Z]; a conversion that can lose bits is written out ([to_int], [to_u16]).
    Sizes are those of an LP64 machine; the byte order is [host_big_endian].

    Anything that can fail at run time takes its outcome from the state:
    [malloc_outcomes], [mutex_rets], [wolfcrypt_init_rets], [io_faults], and in
    an operation [op_rets].  The theorems hold for every such list; those that
    promise a success assume that the lists are exhausted ([good_environment],
    [healthy], [smooth]).

    An operation object is one pointer to a context: [op_ctx] is [None] while it
    is NULL, and a call works on one object.  [psa_hash_clone] works on two: it is
    over a [hash_heap], where every object has its pointer and the contexts are
    blocks of memory, so that two objects could share one.  A context of wolfCrypt
    is abstract; what it has absorbed is said by a predicate of its class of laws,
    and for hashes that predicate names the address of the context: only wolfCrypt's
    copy functions may move it, but for the two hashes without pointers.

    ** What is proved

    - [KeyStoreInv]: every sequence of calls is a run of an abstract partial map
      from identifiers to keys, whatever fails underneath, as long as persistent
      keys are created outside the vendor range and imported records fit an [int]
      (the code relies on both and checks neither); along it the mutex is
      never misused and is free between calls, volatile identifiers are distinct
      and below the counter, and every stored key passed the import checks.  What
      an operation loads is well formed under any identifiers.  A copy never gains
      rights: each policy check that admits a use of the copy admits it of the
      source, but for two gains that [no_wider] names.
    - [KeyStoreSpec], [KeyStoreCalls]: import then lookup, import errors, when an
      import succeeds, destruction, export, usage checks, RSA public export.
    - [StorePosixSpec]: a save is atomic at every point between system calls, those
      inside open, write and close included ([disk_log] keeps the disk that each
      call leaves); the file backend meets the store contract.
    - [StorePath]: a path that passes is private, and no descriptor leaks.
    - [KeyFormat]: the import checks accept exactly well-formed keys
      ([well_formed_key]); curve tables; record round trip.
    - [KeyPolicy]: what the intersection of two policies admits, both admit
      ([narrows]), check by check; where that fails, and where the checks disagree.
    - [Der]: the encoder against a strict reader; the documented size suffices.
    - [KdfSpec], [KdfProps]: every sequence of calls is a run of an abstract
      machine; outputs are consecutive parts of one stream, from the cache or
      recomputed; capacity, error state, who may derive a key; the backends'
      loops against a reference stream; where the counter of one backend wraps.
    - [MacSpec]: the MAC of the whole input, signing and verifying, one shot and
      multi-part; an operation does not know its direction.
    - [HashSpec]: digests, verification; calls on several objects and their clones
      are a run of a table of what each has absorbed.
    - [XofSpec]: every sequence of calls is a run of a state machine; outputs are
      consecutive parts of the SHAKE stream; growth of the input buffer.
    - [CipherSpec], [CipherProps], [CipherOneShot]: every sequence of calls is a
      run of a state machine; the pieces of a multi-part operation make the cipher
      of the whole input, however it is cut; the documented buffer sizes suffice;
      decryption undoes encryption.  [CipherPadding]: the branch-free padding
      check is exact.
    - [CcmSpec]: the streaming CCM is CCM, for every cut of the text; its counter
      counts.  [AeadSpec], [AeadProps]: every sequence of calls is a run of a state
      machine; multi-part encryption gives the reference cipher text and tag, and
      decryption succeeds on the right tag only.  [AeadOneShotSpec]: the same of the
      one-shot calls, for every algorithm; decryption undoes encryption.
    - [SignSpec], [SignBackends]: only a key pair whose policy permits the call and the
      algorithm signs, and what it gives is a valid signature of the caller's data
      and context; a verification succeeds only on a valid one, of the scheme that
      the key calls for, and accepts it when nothing fails; signing and
      verifying, encrypting and decrypting fit together.
    - [KeyWrapSpec]: who may take a key out under a wrapping key and who may bring
      one in, with the exact answers; unwrapping undoes wrapping; the export sizes
      suffice.
    - [KemSpec]: who may encapsulate and decapsulate, and that both sides get a key
      of the same data.
    - [PublicKeys]: a public key that was exported, carried elsewhere and imported
      again verifies what the pair signs and encapsulates what the pair opens.

    ** Fuel and bounds

    The walks of [StorePath] have the code's own bound [WOLFPSA_STORE_MAX_DEPTH]
    as fuel, and running out is the code's error.  The loops of [Der] get as much
    fuel as a [size_t] has bytes.  The block loops of [Kdf] get one unit more than
    the output has blocks or bytes and answer [None] when it is used up, which
    the theorems exclude as long as the 32-bit counters suffice ([counters_ok]).
    The growth loop of [Xof] doubles, so 32 rounds reach every [word32]; its
    output loop needs four rounds, and the inner one a round per
    [UINT32_MAX / 2] bytes ([serves_all], [wp_xof_direct]).

    ** Not modelled

    The Zephyr store, the Windows arms of the file store, the calls that are
    not supported ([src/psa_api_stub.c]), attestation and the TF-PSA names,
    zeroing of freed memory, what a failed call leaves in an output buffer, overlap
    of AEAD buffers, debug traces, and concurrent calls: the mutex discipline is
    proved per call.  Memory that is freed, and pointers, are represented for hash
    contexts only.  The order in which a disk takes the calls it was given is not
    represented, nor is an operation pointer that is NULL, which every entry point
    refuses first. *)

From stdpp Require Import base decidable list list_numbers gmap strings.
From Stdlib Require Import ZArith Lia.
From Stdlib Require Import Strings.Byte.

#[local] Open Scope Z_scope.

(** * Bytes *)

#[global] Instance byte_eq_decision : EqDecision byte := Byte.byte_eq_dec.

(** The value of an [uint8_t]. *)
Definition b2z (b : byte) : Z := Z.of_N (Byte.to_N b).

(** The C conversion [(uint8_t)z]: reduction modulo 256. *)
Definition z2b (z : Z) : byte :=
  match Byte.of_N (Z.to_N (z mod 256)) with
  | Some b => b
  | None => x00
  end.

Lemma b2z_range b : 0 <= b2z b < 256.
Proof. unfold b2z. pose proof (Byte.to_N_bounded b). lia. Qed.

Lemma b2z_z2b z : b2z (z2b z) = z mod 256.
Proof.
  unfold b2z, z2b. pose proof (Z.mod_pos_bound z 256 ltac:(lia)) as Hb.
  destruct (Byte.of_N (Z.to_N (z mod 256))) as [b|] eqn:E.
  - apply Byte.to_of_N in E. rewrite E. lia.
  - apply Byte.of_N_None_iff in E. lia.
Qed.

Lemma z2b_b2z b : z2b (b2z b) = b.
Proof.
  unfold z2b. rewrite Z.mod_small by apply b2z_range.
  unfold b2z. rewrite N2Z.id, Byte.of_to_N. reflexivity.
Qed.

Lemma b2z_inj a b : b2z a = b2z b -> a = b.
Proof. intros H. rewrite <- (z2b_b2z a), <- (z2b_b2z b). by rewrite H. Qed.

Lemma z2b_mod z : z2b (z mod 256) = z2b z.
Proof. unfold z2b. by rewrite Z.mod_mod by lia. Qed.

(** ** Fixed-width integers in memory *)

(** [n] bytes of [z], least significant first. *)
Fixpoint le_bytes (n : nat) (z : Z) : list byte :=
  match n with
  | O => []
  | S n' => z2b z :: le_bytes n' (z / 256)
  end.

Fixpoint le_val (bs : list byte) : Z :=
  match bs with
  | [] => 0
  | b :: bs' => b2z b + 256 * le_val bs'
  end.

(** [n] bytes of [z], most significant first. *)
Definition be_bytes (n : nat) (z : Z) : list byte := rev (le_bytes n z).
Definition be_val (bs : list byte) : Z := le_val (rev bs).

Lemma length_le_bytes n z : length (le_bytes n z) = n.
Proof. revert z; induction n; intros; simpl; auto. Qed.

Lemma length_be_bytes n z : length (be_bytes n z) = n.
Proof. unfold be_bytes. by rewrite length_rev, length_le_bytes. Qed.

Lemma pow256_succ n : 256 ^ Z.of_nat (S n) = 256 * 256 ^ Z.of_nat n.
Proof. rewrite Nat2Z.inj_succ, Z.pow_succ_r by lia. lia. Qed.

Lemma pow256_pos n : 0 < 256 ^ Z.of_nat n.
Proof. apply Z.pow_pos_nonneg; lia. Qed.

Lemma le_val_le_bytes n z : le_val (le_bytes n z) = z mod 256 ^ Z.of_nat n.
Proof.
  revert z; induction n as [|n IH]; intros z.
  - simpl. by rewrite Z.mod_1_r.
  - simpl le_bytes. simpl le_val. rewrite IH, b2z_z2b, pow256_succ.
    pose proof (pow256_pos n). rewrite Z.rem_mul_r by lia. lia.
Qed.

Lemma le_val_range bs : 0 <= le_val bs < 256 ^ Z.of_nat (length bs).
Proof.
  induction bs as [|b bs IH]; simpl le_val; simpl length.
  - simpl. lia.
  - rewrite pow256_succ. pose proof (b2z_range b). lia.
Qed.

Lemma le_bytes_le_val bs : le_bytes (length bs) (le_val bs) = bs.
Proof.
  induction bs as [|b bs IH]; [done|].
  simpl. pose proof (b2z_range b).
  replace ((b2z b + 256 * le_val bs) / 256) with (le_val bs)
    by (apply Z.div_unique with (b2z b); lia).
  rewrite IH. f_equal. rewrite <- z2b_mod.
  replace ((b2z b + 256 * le_val bs) mod 256) with (b2z b)
    by (apply Z.mod_unique with (le_val bs); lia).
  apply z2b_b2z.
Qed.

Lemma be_val_be_bytes n z : be_val (be_bytes n z) = z mod 256 ^ Z.of_nat n.
Proof. unfold be_val, be_bytes. by rewrite rev_involutive, le_val_le_bytes. Qed.

Lemma be_val_range bs : 0 <= be_val bs < 256 ^ Z.of_nat (length bs).
Proof. unfold be_val. pose proof (le_val_range (rev bs)) as H. by rewrite length_rev in H. Qed.

Lemma be_bytes_be_val bs : be_bytes (length bs) (be_val bs) = bs.
Proof.
  unfold be_val, be_bytes. rewrite <- (length_rev bs), le_bytes_le_val.
  apply rev_involutive.
Qed.

Lemma le_val_app xs ys : le_val (xs ++ ys) = le_val xs + 256 ^ Z.of_nat (length xs) * le_val ys.
Proof.
  induction xs as [|x xs IH].
  - simpl length. change (Z.of_nat 0) with 0. simpl app. simpl le_val at 2. lia.
  - simpl app. simpl le_val. simpl length. rewrite IH, pow256_succ. lia.
Qed.

Lemma be_val_app xs ys : be_val (xs ++ ys) = be_val xs * 256 ^ Z.of_nat (length ys) + be_val ys.
Proof. unfold be_val. rewrite rev_app_distr, le_val_app, length_rev. lia. Qed.

Lemma be_val_cons x xs : be_val (x :: xs) = b2z x * 256 ^ Z.of_nat (length xs) + be_val xs.
Proof.
  change (x :: xs) with ([x] ++ xs). rewrite be_val_app. f_equal.
  unfold be_val. simpl. lia.
Qed.

(** * State-passing computations

    A C function that reads and writes file-scope state is a computation of
    [M S A]: it takes the state and returns its result with the new state. *)

Definition M (S A : Type) : Type := S -> A * S.

#[global] Instance M_ret S : MRet (M S) := fun A a s => (a, s).
#[global] Instance M_bind S : MBind (M S) :=
  fun A B f m s => let '(a, s') := m s in f a s'.

Definition mget {S} : M S S := fun s => (s, s).
Definition mput {S} (s : S) : M S unit := fun _ => (tt, s).
Definition mgets {S A} (f : S -> A) : M S A := fun s => (f s, s).
Definition mmodify {S} (f : S -> S) : M S unit := fun s => (tt, f s).

Lemma bind_run {S A B} (m : M S A) (f : A -> M S B) s :
  mbind f m s = f (m s).1 (m s).2.
Proof. unfold mbind, M_bind. by destruct (m s). Qed.

Lemma ret_run {S A} (a : A) (s : S) : (mret a : M S A) s = (a, s).
Proof. done. Qed.

Lemma bind_assoc {S A B C} (m : M S A) (f : A -> M S B) (g : B -> M S C) s :
  mbind g (mbind f m) s = mbind (fun a => mbind g (f a)) m s.
Proof. unfold mbind, M_bind. by destruct (m s). Qed.

(** A property of the state that a computation keeps. *)
Definition keeps {S A} (P : S -> Prop) (m : M S A) : Prop :=
  forall s, P s -> P (m s).2.

Lemma keeps_ret {S A} (P : S -> Prop) (a : A) : keeps P (mret a).
Proof. by intros s Hs. Qed.

Lemma keeps_bind {S A B} (P : S -> Prop) (m : M S A) (f : A -> M S B) :
  keeps P m -> (forall a, keeps P (f a)) -> keeps P (mbind f m).
Proof. intros Hm Hf s Hs. rewrite bind_run. apply Hf, Hm, Hs. Qed.

Lemma keeps_gets {S A} (P : S -> Prop) (f : S -> A) : keeps P (mgets f).
Proof. by intros s Hs. Qed.

Lemma keeps_if {S A} (P : S -> Prop) (b : bool) (m1 m2 : M S A) :
  keeps P m1 -> keeps P m2 -> keeps P (if b then m1 else m2).
Proof. by destruct b. Qed.

(** The hint database of the development. *)
Create HintDb wpsa.
#[export] Hint Resolve keeps_ret keeps_bind keeps_gets keeps_if : wpsa.
#[export] Hint Resolve b2z_range : wpsa.

(** Run a computation: unfold the monad and expose its steps. *)
Ltac mrun :=
  repeat (progress (unfold mbind, mret, M_bind, M_ret, mget, mput, mgets, mmodify in *;
                    cbn beta iota zeta delta [fst snd] in *)).

(** Split every remaining [match]/[if] of a hypothesis or of the goal. *)
Ltac msplit := repeat (case_match; simplify_eq/=; try done).

(** * Outcomes of the environment

    An operating-system or allocator call that may fail takes its outcome from
    a list held in the state; an exhausted list means that every further call
    succeeds. *)
Definition next_outcome (l : list bool) : bool * list bool :=
  match l with
  | [] => (true, [])
  | b :: l' => (b, l')
  end.

(** [SIZE_MAX], [INT_MAX], [UINT32_MAX] and [UINT16_MAX] of an LP64 build. *)
Definition SIZE_MAX : Z := 2 ^ 64 - 1.
Definition INT_MAX : Z := 2 ^ 31 - 1.
Definition UINT32_MAX : Z := 2 ^ 32 - 1.
Definition UINT16_MAX : Z := 2 ^ 16 - 1.

(** Length of a byte buffer as a [size_t]. *)
Definition zlen {A} (l : list A) : Z := Z.of_nat (length l).

Lemma zlen_nonneg {A} (l : list A) : 0 <= zlen l.
Proof. unfold zlen. lia. Qed.

Lemma zlen_app {A} (l k : list A) : zlen (l ++ k) = zlen l + zlen k.
Proof. unfold zlen. rewrite length_app. lia. Qed.

Lemma zlen_nil {A} : zlen (@nil A) = 0.
Proof. done. Qed.

Lemma zlen_0_nil {A} (l : list A) : zlen l = 0 -> l = [].
Proof. unfold zlen. destruct l; simpl; [done | lia]. Qed.

Lemma zlen_take {A} (l : list A) n :
  0 <= n -> zlen (take (Z.to_nat n) l) = Z.min n (zlen l).
Proof. intros. unfold zlen. rewrite length_take. lia. Qed.

(** [n] bytes of a buffer from [offset]. *)
Definition slice (buf : list byte) (offset n : Z) : list byte :=
  take (Z.to_nat n) (drop (Z.to_nat offset) buf).

Lemma slice_0 l n : slice l 0 n = take (Z.to_nat n) l.
Proof. unfold slice. simpl. by rewrite drop_0. Qed.

Lemma zlen_slice l m n : 0 <= m -> 0 <= n -> m + n <= zlen l -> zlen (slice l m n) = n.
Proof. intros. unfold slice, zlen in *. rewrite length_take, length_drop. lia. Qed.

Lemma slice_take (l : list byte) k m n :
  0 <= m -> 0 <= n -> m + n <= k -> slice (take (Z.to_nat k) l) m n = slice l m n.
Proof. intros. unfold slice. rewrite skipn_firstn_comm, take_take. f_equal. lia. Qed.

Lemma slice_app (l : list byte) m a b :
  0 <= m -> 0 <= a -> 0 <= b -> slice l m (a + b) = slice l m a ++ slice l (m + a) b.
Proof.
  intros. unfold slice. rewrite (Z2Nat.inj_add a b), (Z2Nat.inj_add m a) by done.
  rewrite <- drop_drop. symmetry. apply take_take_drop.
Qed.

Lemma slice_slice (l : list byte) m n a b :
  0 <= m -> 0 <= a -> 0 <= b -> a + b <= n -> slice (slice l m n) a b = slice l (m + a) b.
Proof.
  intros. unfold slice. rewrite skipn_firstn_comm, take_take, drop_drop. f_equal; [lia|f_equal; lia].
Qed.

Lemma slice_snoc (l k : list byte) m n :
  0 <= m -> m <= zlen l -> zlen k = n -> slice (l ++ k) m (zlen l - m + n) = drop (Z.to_nat m) l ++ k.
Proof.
  intros Hm Hl Hk. unfold slice, zlen in *. rewrite drop_app_le by lia.
  apply take_ge. rewrite length_app, length_drop. lia.
Qed.

Definition zsum (ns : list Z) : Z := foldr Z.add 0 ns.

Lemma zsum_nonneg ns : Forall (fun n => 0 <= n) ns -> 0 <= zsum ns.
Proof. induction 1; simpl; lia. Qed.

(** Bit tests against a constant mask. *)
Lemma land_ones_mod z n : 0 <= n -> Z.land z (Z.ones n) = z mod 2 ^ n.
Proof. intros. by apply Z.land_ones. Qed.

Lemma land_idem_mask a m : Z.land (Z.land a m) m = Z.land a m.
Proof. by rewrite <- Z.land_assoc, Z.land_diag. Qed.

(** A bit field of [n] bits at offset [lo]. *)
Definition field_mask (lo n : Z) : Z := Z.shiftl (Z.ones n) lo.

Lemma field_mask_testbit lo n i :
  0 <= lo -> 0 <= n -> 0 <= i ->
  Z.testbit (field_mask lo n) i = (lo <=? i) && (i <? lo + n).
Proof.
  intros. unfold field_mask. rewrite Z.shiftl_spec by lia.
  destruct (Z.leb_spec lo i); simpl.
  - rewrite Z.testbit_ones_nonneg by lia. lia.
  - apply Z.testbit_neg_r. lia.
Qed.

Lemma field_small_testbit v n i : 0 <= v < 2 ^ n -> n <= i -> Z.testbit v i = false.
Proof.
  intros Hv Hi. destruct (decide (v = 0)) as [->|]; [apply Z.testbit_0_l|].
  apply Z.bits_above_log2; [lia|].
  apply Z.log2_lt_pow2; [lia|]. apply Z.lt_le_trans with (2 ^ n); [lia|].
  apply Z.pow_le_mono_r; lia.
Qed.

Lemma field_land_small v n : 0 <= n -> 0 <= v < 2 ^ n -> Z.land v (Z.ones n) = v.
Proof. intros. rewrite Z.land_ones by lia. by apply Z.mod_small. Qed.

(** Ranges as bit masks, and their closure under the bit operations. *)
Lemma range_land_iff n z : 0 <= n -> 0 <= z < 2 ^ n <-> Z.land z (Z.ones n) = z.
Proof.
  intros Hn. rewrite Z.land_ones by lia. split.
  - intros. by apply Z.mod_small.
  - intros <-. apply Z.mod_pos_bound. lia.
Qed.

Lemma range_land n a b : 0 <= n -> 0 <= a < 2 ^ n -> 0 <= Z.land a b < 2 ^ n.
Proof.
  intros Hn. rewrite !range_land_iff by done. intros Ha.
  by rewrite (Z.land_comm a b), <- Z.land_assoc, Ha.
Qed.

Lemma range_lor n a b :
  0 <= n -> 0 <= a < 2 ^ n -> 0 <= b < 2 ^ n -> 0 <= Z.lor a b < 2 ^ n.
Proof.
  intros Hn. rewrite !range_land_iff by done. intros Ha Hb. by rewrite Z.land_lor_distr_l, Ha, Hb.
Qed.

(** An [or] over a list is zero when every part is. *)
Lemma fold_lor_zero {A} (f : A -> Z) (l : list A) acc :
  fold_left (fun a i => Z.lor a (f i)) l acc = 0 <-> acc = 0 /\ Forall (fun i => f i = 0) l.
Proof.
  revert acc. induction l as [|x l IH]; intros acc; simpl.
  - split; [by intros ->; split; [|constructor]|by intros [-> _]].
  - rewrite IH, Z.lor_eq_0_iff, Forall_cons. tauto.
Qed.

(** Compare two integers bit by bit, the masks being bit fields. *)
Ltac zbits_push :=
  repeat first
    [ rewrite Z.land_spec | rewrite Z.lor_spec
    | rewrite Z.lnot_spec by lia | rewrite Z.shiftl_spec by lia
    | rewrite Z.shiftr_spec by lia
    | rewrite field_mask_testbit by lia | rewrite Z.bits_0 ].

Ltac zbits :=
  apply Z.bits_inj'; let i := fresh "i" in let Hi := fresh "Hi" in
  intros i Hi; zbits_push;
  repeat match goal with
         | |- context [?a <=? ?b] => destruct (Z.leb_spec a b)
         | |- context [?a <? ?b] => destruct (Z.ltb_spec a b)
         end; try lia; simpl; rewrite ?andb_false_r, ?andb_true_r, ?orb_false_r; try done.

(** ** C conversions *)

(** [(int)z] for a value computed in a wider type. *)
Definition to_int (z : Z) : Z := (z + 2 ^ 31) mod 2 ^ 32 - 2 ^ 31.

Lemma to_int_small z : - 2 ^ 31 <= z <= INT_MAX -> to_int z = z.
Proof. unfold to_int, INT_MAX. intros. rewrite Z.mod_small by lia. lia. Qed.

Lemma to_int_wrap z : INT_MAX < z < 3 * 2 ^ 31 -> to_int z = z - 2 ^ 32.
Proof.
  unfold to_int, INT_MAX. intros.
  replace ((z + 2 ^ 31) mod 2 ^ 32) with (z + 2 ^ 31 - 2 ^ 32);
    [lia | apply Z.mod_unique with 1; lia].
Qed.

(** [(uint16_t)z] and [(uint32_t)z]. *)
Definition to_u16 (z : Z) : Z := z mod 2 ^ 16.
Definition to_u32 (z : Z) : Z := z mod 2 ^ 32.

Lemma to_u16_small z : 0 <= z <= UINT16_MAX -> to_u16 z = z.
Proof. unfold to_u16, UINT16_MAX. intros. by rewrite Z.mod_small by lia. Qed.

Lemma to_u16_range z : 0 <= to_u16 z < 2 ^ 16.
Proof. unfold to_u16. apply Z.mod_pos_bound. lia. Qed.

Lemma to_u32_small z : 0 <= z <= UINT32_MAX -> to_u32 z = z.
Proof. unfold to_u32, UINT32_MAX. intros. by rewrite Z.mod_small by lia. Qed.

(** A buffer of any length. *)
Lemma exists_zlen (z : Z) : 0 <= z -> exists l : list byte, zlen l = z.
Proof.
  intros. exists (replicate (Z.to_nat z) x00).
  unfold zlen. rewrite length_replicate. lia.
Qed.


(** * Exhaustive checks over a fixed number of bits *)

Fixpoint all_bits (k : nat) (z : Z) (f : Z -> bool) : bool :=
  match k with
  | O => f z
  | S k' => all_bits k' (2 * z) f && all_bits k' (2 * z + 1) f
  end.

Lemma all_bits_spec k z f :
  all_bits k z f = true ->
  forall x, z * 2 ^ Z.of_nat k <= x < (z + 1) * 2 ^ Z.of_nat k -> f x = true.
Proof.
  revert z; induction k as [|k IH]; intros z Hf x Hx.
  - simpl in *. by replace x with z by lia.
  - simpl in Hf. apply andb_prop in Hf as [Hl Hr].
    rewrite Nat2Z.inj_succ, Z.pow_succ_r in Hx by lia.
    destruct (decide (x < (2 * z + 1) * 2 ^ Z.of_nat k)).
    + apply (IH _ Hl). lia.
    + apply (IH _ Hr). lia.
Qed.

(** A boolean fact about every [k]-bit value, by computation. *)
Lemma all_bits_below k f :
  all_bits k 0 f = true -> forall x, 0 <= x < 2 ^ Z.of_nat k -> f x = true.
Proof. intros Hf x Hx. apply (all_bits_spec k 0 f Hf). lia. Qed.

(** * Weakest preconditions of state-passing computations *)

Definition wp {S A} (m : M S A) (Q : A -> S -> Prop) (s : S) : Prop := Q (m s).1 (m s).2.

Lemma wp_ret {S A} (a : A) (Q : A -> S -> Prop) s : Q a s -> wp (mret a) Q s.
Proof. done. Qed.

Lemma wp_bind {S A B} (m : M S A) (f : A -> M S B) Q s :
  wp m (fun a s' => wp (f a) Q s') s -> wp (mbind f m) Q s.
Proof. unfold wp. by rewrite bind_run. Qed.

Lemma wp_bind_inv {S A B} (m : M S A) (f : A -> M S B) Q s :
  wp (mbind f m) Q s -> wp m (fun a s' => wp (f a) Q s') s.
Proof. unfold wp. by rewrite bind_run. Qed.

Lemma wp_mono {S A} (m : M S A) (Q Q' : A -> S -> Prop) s :
  wp m Q s -> (forall a s', Q a s' -> Q' a s') -> wp m Q' s.
Proof. unfold wp. auto. Qed.

Lemma wp_any {S A} (m : M S A) (Q : A -> S -> Prop) s : (forall a s', Q a s') -> wp m Q s.
Proof. unfold wp. auto. Qed.

Lemma wp_gets {S A} (f : S -> A) Q s : Q (f s) s -> wp (mgets f) Q s.
Proof. done. Qed.

Lemma wp_modify {S} (f : S -> S) Q s : Q tt (f s) -> wp (mmodify f) Q s.
Proof. done. Qed.

Lemma wp_get {S} (Q : S -> S -> Prop) s : Q s s -> wp mget Q s.
Proof. done. Qed.

Lemma wp_put {S} (s' : S) (Q : unit -> S -> Prop) s : Q tt s' -> wp (mput s') Q s.
Proof. done. Qed.

Lemma wp_run {S A} (m : M S A) Q s a s' : m s = (a, s') -> wp m Q s -> Q a s'.
Proof. unfold wp. by intros ->. Qed.

(** A run whose result is known. *)
Lemma run_result {S A} (m : M S A) s a : (m s).1 = a -> m s = (a, (m s).2).
Proof. by intros <-; destruct (m s). Qed.

#[export] Hint Resolve wp_ret : wpsa.

(** Open the structure of a computation: sequencing and returns. *)
Ltac wp_seq :=
  repeat (lazymatch goal with
          | |- wp (mbind _ _) _ _ => apply wp_bind
          | |- wp (mret _) _ _ => apply wp_ret
          | |- wp (mgets _) _ _ => apply wp_gets
          | |- wp (mmodify _) _ _ => apply wp_modify
          | |- wp mget _ _ => apply wp_get
          | |- wp (mput _) _ _ => apply wp_put
          end; cbv beta).
