(* ===== verification/Values.v ===== *)
(** The values of the PSA API: status codes, key types, algorithms, lifetimes,
    usage flags, and key attributes, as the headers under [wolfpsa/psa/] define
    them ([crypto_types.h], [crypto_values.h], [crypto-pqc.h], [crypto_sizes.h],
    [crypto_struct.h]).  Unsigned integer types are [Z] with their range in
    [wf_attributes]; the C complement [~m] is [Z.lnot m], which agrees with the
    C operator under the [&] in which every use of it stands. *)

From stdpp Require Import base decidable list.
From Stdlib Require Import ZArith Lia.
From S2P Require Import Prelude.

#[local] Open Scope Z_scope.

(** * Status codes *)

Inductive psa_status_t : Set :=
| PSA_SUCCESS
| PSA_ERROR_GENERIC_ERROR
| PSA_ERROR_NOT_PERMITTED
| PSA_ERROR_NOT_SUPPORTED
| PSA_ERROR_INVALID_ARGUMENT
| PSA_ERROR_INVALID_HANDLE
| PSA_ERROR_BAD_STATE
| PSA_ERROR_BUFFER_TOO_SMALL
| PSA_ERROR_ALREADY_EXISTS
| PSA_ERROR_DOES_NOT_EXIST
| PSA_ERROR_INSUFFICIENT_MEMORY
| PSA_ERROR_INSUFFICIENT_STORAGE
| PSA_ERROR_INSUFFICIENT_DATA
| PSA_ERROR_SERVICE_FAILURE
| PSA_ERROR_COMMUNICATION_FAILURE
| PSA_ERROR_STORAGE_FAILURE
| PSA_ERROR_HARDWARE_FAILURE
| PSA_ERROR_INSUFFICIENT_ENTROPY
| PSA_ERROR_INVALID_SIGNATURE
| PSA_ERROR_INVALID_PADDING
| PSA_ERROR_CORRUPTION_DETECTED
| PSA_ERROR_DATA_CORRUPT
| PSA_ERROR_DATA_INVALID
| PSA_OPERATION_INCOMPLETE.

#[global] Instance psa_status_eq_dec : EqDecision psa_status_t.
Proof. solve_decision. Defined.

(** The [int32_t] of each status. *)
Definition psa_status_value (s : psa_status_t) : Z :=
  match s with
  | PSA_SUCCESS => 0
  | PSA_ERROR_GENERIC_ERROR => -132
  | PSA_ERROR_NOT_PERMITTED => -133
  | PSA_ERROR_NOT_SUPPORTED => -134
  | PSA_ERROR_INVALID_ARGUMENT => -135
  | PSA_ERROR_INVALID_HANDLE => -136
  | PSA_ERROR_BAD_STATE => -137
  | PSA_ERROR_BUFFER_TOO_SMALL => -138
  | PSA_ERROR_ALREADY_EXISTS => -139
  | PSA_ERROR_DOES_NOT_EXIST => -140
  | PSA_ERROR_INSUFFICIENT_MEMORY => -141
  | PSA_ERROR_INSUFFICIENT_STORAGE => -142
  | PSA_ERROR_INSUFFICIENT_DATA => -143
  | PSA_ERROR_SERVICE_FAILURE => -144
  | PSA_ERROR_COMMUNICATION_FAILURE => -145
  | PSA_ERROR_STORAGE_FAILURE => -146
  | PSA_ERROR_HARDWARE_FAILURE => -147
  | PSA_ERROR_INSUFFICIENT_ENTROPY => -148
  | PSA_ERROR_INVALID_SIGNATURE => -149
  | PSA_ERROR_INVALID_PADDING => -150
  | PSA_ERROR_CORRUPTION_DETECTED => -151
  | PSA_ERROR_DATA_CORRUPT => -152
  | PSA_ERROR_DATA_INVALID => -153
  | PSA_OPERATION_INCOMPLETE => -248
  end.

Lemma psa_status_value_inj s t : psa_status_value s = psa_status_value t -> s = t.
Proof. destruct s, t; simpl; intros H; first [reflexivity | discriminate H]. Qed.

(** * Key types *)

Definition PSA_KEY_TYPE_NONE : Z := 0x0000.
Definition PSA_KEY_TYPE_CATEGORY_MASK : Z := 0x7000.
Definition PSA_KEY_TYPE_CATEGORY_RAW : Z := 0x1000.
Definition PSA_KEY_TYPE_CATEGORY_SYMMETRIC : Z := 0x2000.
Definition PSA_KEY_TYPE_CATEGORY_PUBLIC_KEY : Z := 0x4000.
Definition PSA_KEY_TYPE_CATEGORY_KEY_PAIR : Z := 0x7000.
Definition PSA_KEY_TYPE_CATEGORY_FLAG_PAIR : Z := 0x3000.

Definition PSA_KEY_TYPE_IS_UNSTRUCTURED (type : Z) : bool :=
  (Z.land type PSA_KEY_TYPE_CATEGORY_MASK =? PSA_KEY_TYPE_CATEGORY_RAW) ||
  (Z.land type PSA_KEY_TYPE_CATEGORY_MASK =? PSA_KEY_TYPE_CATEGORY_SYMMETRIC).

Definition PSA_KEY_TYPE_IS_PUBLIC_KEY (type : Z) : bool :=
  Z.land type PSA_KEY_TYPE_CATEGORY_MASK =? PSA_KEY_TYPE_CATEGORY_PUBLIC_KEY.

Definition PSA_KEY_TYPE_IS_KEY_PAIR (type : Z) : bool :=
  Z.land type PSA_KEY_TYPE_CATEGORY_MASK =? PSA_KEY_TYPE_CATEGORY_KEY_PAIR.

Definition PSA_KEY_TYPE_PUBLIC_KEY_OF_KEY_PAIR (type : Z) : Z :=
  Z.land type (Z.lnot PSA_KEY_TYPE_CATEGORY_FLAG_PAIR).

Definition PSA_KEY_TYPE_RAW_DATA : Z := 0x1001.
Definition PSA_KEY_TYPE_HMAC : Z := 0x1100.
Definition PSA_KEY_TYPE_DERIVE : Z := 0x1200.
Definition PSA_KEY_TYPE_PASSWORD : Z := 0x1203.
Definition PSA_KEY_TYPE_PASSWORD_HASH : Z := 0x1205.
Definition PSA_KEY_TYPE_PEPPER : Z := 0x1206.
Definition PSA_KEY_TYPE_AES : Z := 0x2400.
Definition PSA_KEY_TYPE_DES : Z := 0x2301.
Definition PSA_KEY_TYPE_CHACHA20 : Z := 0x2004.
Definition PSA_KEY_TYPE_XCHACHA20 : Z := 0x2007.
Definition PSA_KEY_TYPE_ASCON : Z := 0x2008.
Definition PSA_KEY_TYPE_RSA_PUBLIC_KEY : Z := 0x4001.
Definition PSA_KEY_TYPE_RSA_KEY_PAIR : Z := 0x7001.

Definition PSA_KEY_TYPE_IS_RSA (type : Z) : bool :=
  PSA_KEY_TYPE_PUBLIC_KEY_OF_KEY_PAIR type =? PSA_KEY_TYPE_RSA_PUBLIC_KEY.

Definition PSA_KEY_TYPE_ECC_PUBLIC_KEY_BASE : Z := 0x4100.
Definition PSA_KEY_TYPE_ECC_KEY_PAIR_BASE : Z := 0x7100.
Definition PSA_KEY_TYPE_ECC_CURVE_MASK : Z := 0x00ff.

Definition PSA_KEY_TYPE_ECC_KEY_PAIR (curve : Z) : Z :=
  Z.lor PSA_KEY_TYPE_ECC_KEY_PAIR_BASE curve.
Definition PSA_KEY_TYPE_ECC_PUBLIC_KEY (curve : Z) : Z :=
  Z.lor PSA_KEY_TYPE_ECC_PUBLIC_KEY_BASE curve.

Definition PSA_KEY_TYPE_IS_ECC (type : Z) : bool :=
  Z.land (PSA_KEY_TYPE_PUBLIC_KEY_OF_KEY_PAIR type) (Z.lnot PSA_KEY_TYPE_ECC_CURVE_MASK)
  =? PSA_KEY_TYPE_ECC_PUBLIC_KEY_BASE.
Definition PSA_KEY_TYPE_IS_ECC_KEY_PAIR (type : Z) : bool :=
  Z.land type (Z.lnot PSA_KEY_TYPE_ECC_CURVE_MASK) =? PSA_KEY_TYPE_ECC_KEY_PAIR_BASE.
Definition PSA_KEY_TYPE_IS_ECC_PUBLIC_KEY (type : Z) : bool :=
  Z.land type (Z.lnot PSA_KEY_TYPE_ECC_CURVE_MASK) =? PSA_KEY_TYPE_ECC_PUBLIC_KEY_BASE.

Definition PSA_KEY_TYPE_IS_SPAKE2P (type : Z) : bool :=
  (Z.land type 0xff00 =? 0x7200) || (Z.land type 0xff00 =? 0x5200).

Definition PSA_KEY_TYPE_HAS_ECC_FAMILY (type : Z) : bool :=
  PSA_KEY_TYPE_IS_ECC type || PSA_KEY_TYPE_IS_SPAKE2P type.

Definition PSA_KEY_TYPE_ECC_GET_FAMILY (type : Z) : Z :=
  if PSA_KEY_TYPE_HAS_ECC_FAMILY type
  then Z.land type PSA_KEY_TYPE_ECC_CURVE_MASK else 0.

Definition PSA_ECC_FAMILY_SECP_K1 : Z := 0x17.
Definition PSA_ECC_FAMILY_SECP_R1 : Z := 0x12.
Definition PSA_ECC_FAMILY_BRAINPOOL_P_R1 : Z := 0x30.
Definition PSA_ECC_FAMILY_MONTGOMERY : Z := 0x41.
Definition PSA_ECC_FAMILY_TWISTED_EDWARDS : Z := 0x42.

Definition PSA_KEY_TYPE_DH_PUBLIC_KEY_BASE : Z := 0x4200.
Definition PSA_KEY_TYPE_DH_KEY_PAIR_BASE : Z := 0x7200.
Definition PSA_KEY_TYPE_DH_GROUP_MASK : Z := 0x00ff.
Definition PSA_KEY_TYPE_IS_DH (type : Z) : bool :=
  Z.land (PSA_KEY_TYPE_PUBLIC_KEY_OF_KEY_PAIR type) (Z.lnot PSA_KEY_TYPE_DH_GROUP_MASK)
  =? PSA_KEY_TYPE_DH_PUBLIC_KEY_BASE.
Definition PSA_KEY_TYPE_IS_DH_KEY_PAIR (type : Z) : bool :=
  Z.land type (Z.lnot PSA_KEY_TYPE_DH_GROUP_MASK) =? PSA_KEY_TYPE_DH_KEY_PAIR_BASE.

Definition PSA_GET_KEY_TYPE_BLOCK_SIZE_EXPONENT (type : Z) : Z :=
  Z.land (Z.shiftr type 8) 7.
Definition PSA_BLOCK_CIPHER_BLOCK_LENGTH (type : Z) : Z :=
  if Z.land type PSA_KEY_TYPE_CATEGORY_MASK =? PSA_KEY_TYPE_CATEGORY_SYMMETRIC
  then Z.shiftl 1 (PSA_GET_KEY_TYPE_BLOCK_SIZE_EXPONENT type) else 0.

(** ** Post-quantum key types ([crypto-pqc.h]) *)

Definition PSA_KEY_TYPE_ML_KEM_KEY_PAIR : Z := 0x7004.
Definition PSA_KEY_TYPE_ML_KEM_PUBLIC_KEY : Z := 0x4004.
Definition PSA_KEY_TYPE_IS_ML_KEM (type : Z) : bool :=
  PSA_KEY_TYPE_PUBLIC_KEY_OF_KEY_PAIR type =? 0x4004.
Definition PSA_KEY_TYPE_ML_DSA_KEY_PAIR : Z := 0x7002.
Definition PSA_KEY_TYPE_ML_DSA_PUBLIC_KEY : Z := 0x4002.
Definition PSA_KEY_TYPE_IS_ML_DSA (type : Z) : bool :=
  PSA_KEY_TYPE_PUBLIC_KEY_OF_KEY_PAIR type =? 0x4002.
Definition PSA_KEY_TYPE_LMS_PUBLIC_KEY : Z := 0x4007.
Definition PSA_KEY_TYPE_HSS_PUBLIC_KEY : Z := 0x4008.
Definition PSA_KEY_TYPE_XMSS_PUBLIC_KEY : Z := 0x400B.
Definition PSA_KEY_TYPE_XMSS_MT_PUBLIC_KEY : Z := 0x400D.

(** * Algorithms *)

Definition PSA_ALG_CATEGORY_MASK : Z := 0x7f000000.
Definition PSA_ALG_CATEGORY_HASH : Z := 0x02000000.
Definition PSA_ALG_CATEGORY_MAC : Z := 0x03000000.
Definition PSA_ALG_CATEGORY_AEAD : Z := 0x05000000.
Definition PSA_ALG_CATEGORY_SIGN : Z := 0x06000000.
Definition PSA_ALG_CATEGORY_KEY_DERIVATION : Z := 0x08000000.
Definition PSA_ALG_CATEGORY_KEY_AGREEMENT : Z := 0x09000000.

Definition PSA_ALG_IS_HASH (alg : Z) : bool :=
  Z.land alg PSA_ALG_CATEGORY_MASK =? PSA_ALG_CATEGORY_HASH.
Definition PSA_ALG_IS_MAC (alg : Z) : bool :=
  Z.land alg PSA_ALG_CATEGORY_MASK =? PSA_ALG_CATEGORY_MAC.
Definition PSA_ALG_IS_AEAD (alg : Z) : bool :=
  Z.land alg PSA_ALG_CATEGORY_MASK =? PSA_ALG_CATEGORY_AEAD.
Definition PSA_ALG_IS_SIGN (alg : Z) : bool :=
  Z.land alg PSA_ALG_CATEGORY_MASK =? PSA_ALG_CATEGORY_SIGN.
Definition PSA_ALG_IS_KEY_AGREEMENT (alg : Z) : bool :=
  Z.land alg PSA_ALG_CATEGORY_MASK =? PSA_ALG_CATEGORY_KEY_AGREEMENT.
Definition PSA_ALG_IS_KEY_DERIVATION (alg : Z) : bool :=
  Z.land alg PSA_ALG_CATEGORY_MASK =? PSA_ALG_CATEGORY_KEY_DERIVATION.

Definition PSA_ALG_NONE : Z := 0.
Definition PSA_ALG_HASH_MASK : Z := 0x000000ff.
Definition PSA_ALG_MD5 : Z := 0x02000003.
Definition PSA_ALG_RIPEMD160 : Z := 0x02000004.
Definition PSA_ALG_SHA_1 : Z := 0x02000005.
Definition PSA_ALG_SHA_224 : Z := 0x02000008.
Definition PSA_ALG_SHA_256 : Z := 0x02000009.
Definition PSA_ALG_SHA_384 : Z := 0x0200000a.
Definition PSA_ALG_SHA_512 : Z := 0x0200000b.
Definition PSA_ALG_SHA_512_224 : Z := 0x0200000c.
Definition PSA_ALG_SHA_512_256 : Z := 0x0200000d.
Definition PSA_ALG_SHA3_224 : Z := 0x02000010.
Definition PSA_ALG_SHA3_256 : Z := 0x02000011.
Definition PSA_ALG_SHA3_384 : Z := 0x02000012.
Definition PSA_ALG_SHA3_512 : Z := 0x02000013.
Definition PSA_ALG_SHAKE256_512 : Z := 0x02000015.
Definition PSA_ALG_ASCON_HASH256 : Z := 0x02000019.
Definition PSA_ALG_ANY_HASH : Z := 0x020000ff.

(** ** MAC *)

Definition PSA_ALG_MAC_SUBCATEGORY_MASK : Z := 0x00c00000.
Definition PSA_ALG_HMAC_BASE : Z := 0x03800000.
Definition PSA_ALG_HMAC (hash_alg : Z) : Z :=
  Z.lor PSA_ALG_HMAC_BASE (Z.land hash_alg PSA_ALG_HASH_MASK).
Definition PSA_ALG_HMAC_GET_HASH (hmac_alg : Z) : Z :=
  Z.lor PSA_ALG_CATEGORY_HASH (Z.land hmac_alg PSA_ALG_HASH_MASK).
Definition PSA_ALG_IS_HMAC (alg : Z) : bool :=
  Z.land alg (Z.lor PSA_ALG_CATEGORY_MASK PSA_ALG_MAC_SUBCATEGORY_MASK)
  =? PSA_ALG_HMAC_BASE.

Definition PSA_ALG_MAC_TRUNCATION_MASK : Z := 0x003f0000.
Definition PSA_MAC_TRUNCATION_OFFSET : Z := 16.
Definition PSA_ALG_MAC_AT_LEAST_THIS_LENGTH_FLAG : Z := 0x00008000.
Definition PSA_ALG_TRUNCATED_MAC (mac_alg mac_length : Z) : Z :=
  Z.lor (Z.land mac_alg (Z.lnot (Z.lor PSA_ALG_MAC_TRUNCATION_MASK
                                       PSA_ALG_MAC_AT_LEAST_THIS_LENGTH_FLAG)))
        (Z.land (Z.shiftl mac_length PSA_MAC_TRUNCATION_OFFSET)
                PSA_ALG_MAC_TRUNCATION_MASK).
Definition PSA_ALG_FULL_LENGTH_MAC (mac_alg : Z) : Z :=
  Z.land mac_alg (Z.lnot (Z.lor PSA_ALG_MAC_TRUNCATION_MASK
                                PSA_ALG_MAC_AT_LEAST_THIS_LENGTH_FLAG)).
Definition PSA_MAC_TRUNCATED_LENGTH (mac_alg : Z) : Z :=
  Z.shiftr (Z.land mac_alg PSA_ALG_MAC_TRUNCATION_MASK) PSA_MAC_TRUNCATION_OFFSET.
Definition PSA_ALG_AT_LEAST_THIS_LENGTH_MAC (mac_alg min_mac_length : Z) : Z :=
  Z.lor (PSA_ALG_TRUNCATED_MAC mac_alg min_mac_length)
        PSA_ALG_MAC_AT_LEAST_THIS_LENGTH_FLAG.
Definition PSA_ALG_CIPHER_MAC_BASE : Z := 0x03c00000.
Definition PSA_ALG_CMAC : Z := 0x03c00200.
Definition PSA_ALG_IS_BLOCK_CIPHER_MAC (alg : Z) : bool :=
  Z.land alg (Z.lor PSA_ALG_CATEGORY_MASK PSA_ALG_MAC_SUBCATEGORY_MASK)
  =? PSA_ALG_CIPHER_MAC_BASE.

(** ** AEAD *)

Definition PSA_ALG_CCM : Z := 0x05500100.
Definition PSA_ALG_GCM : Z := 0x05500200.
Definition PSA_ALG_CCM_STAR_NO_TAG : Z := 0x04c01300.
Definition PSA_ALG_CHACHA20_POLY1305 : Z := 0x05100500.
Definition PSA_ALG_AEAD_TAG_LENGTH_MASK : Z := 0x003f0000.
Definition PSA_AEAD_TAG_LENGTH_OFFSET : Z := 16.
Definition PSA_ALG_AEAD_AT_LEAST_THIS_LENGTH_FLAG : Z := 0x00008000.
Definition PSA_ALG_AEAD_WITH_SHORTENED_TAG (aead_alg tag_length : Z) : Z :=
  Z.lor (Z.land aead_alg (Z.lnot (Z.lor PSA_ALG_AEAD_TAG_LENGTH_MASK
                                        PSA_ALG_AEAD_AT_LEAST_THIS_LENGTH_FLAG)))
        (Z.land (Z.shiftl tag_length PSA_AEAD_TAG_LENGTH_OFFSET)
                PSA_ALG_AEAD_TAG_LENGTH_MASK).
Definition PSA_ALG_AEAD_GET_TAG_LENGTH (aead_alg : Z) : Z :=
  Z.shiftr (Z.land aead_alg PSA_ALG_AEAD_TAG_LENGTH_MASK) PSA_AEAD_TAG_LENGTH_OFFSET.
Definition PSA_ALG_AEAD_WITH_AT_LEAST_THIS_LENGTH_TAG (aead_alg min_tag_length : Z) : Z :=
  Z.lor (PSA_ALG_AEAD_WITH_SHORTENED_TAG aead_alg min_tag_length)
        PSA_ALG_AEAD_AT_LEAST_THIS_LENGTH_FLAG.

(** ** Signature *)

Definition PSA_ALG_RSA_PKCS1V15_SIGN_BASE : Z := 0x06000200.
Definition PSA_ALG_RSA_PKCS1V15_SIGN_RAW : Z := PSA_ALG_RSA_PKCS1V15_SIGN_BASE.
Definition PSA_ALG_ECDSA_BASE : Z := 0x06000600.
Definition PSA_ALG_ECDSA (hash_alg : Z) : Z :=
  Z.lor PSA_ALG_ECDSA_BASE (Z.land hash_alg PSA_ALG_HASH_MASK).
Definition PSA_ALG_ECDSA_ANY : Z := PSA_ALG_ECDSA_BASE.
Definition PSA_ALG_PURE_EDDSA : Z := 0x06000800.
Definition PSA_ALG_EDDSA_CTX : Z := 0x06000A00.
Definition PSA_ALG_IS_SIGN_HASH (alg : Z) : bool :=
  PSA_ALG_IS_SIGN alg &&
  negb (alg =? PSA_ALG_PURE_EDDSA) && negb (alg =? PSA_ALG_EDDSA_CTX).
Definition PSA_ALG_IS_HASH_AND_SIGN (alg : Z) : bool :=
  PSA_ALG_IS_SIGN_HASH alg && negb (Z.land alg PSA_ALG_HASH_MASK =? 0).
Definition PSA_ALG_SIGN_GET_HASH (alg : Z) : Z :=
  if PSA_ALG_IS_HASH_AND_SIGN alg
  then Z.lor (Z.land alg PSA_ALG_HASH_MASK) PSA_ALG_CATEGORY_HASH else 0.
Definition PSA_ALG_GET_HASH (alg : Z) : Z :=
  if Z.land alg 0x000000ff =? 0 then PSA_ALG_NONE
  else Z.lor 0x02000000 (Z.land alg 0x000000ff).

(** ** Key derivation and key agreement *)

Definition PSA_ALG_HKDF_BASE : Z := 0x08000100.
Definition PSA_ALG_IS_HKDF (alg : Z) : bool :=
  Z.land alg (Z.lnot PSA_ALG_HASH_MASK) =? PSA_ALG_HKDF_BASE.
Definition PSA_ALG_HKDF_GET_HASH (hkdf_alg : Z) : Z :=
  Z.lor PSA_ALG_CATEGORY_HASH (Z.land hkdf_alg PSA_ALG_HASH_MASK).
Definition PSA_ALG_HKDF_EXTRACT_BASE : Z := 0x08000400.
Definition PSA_ALG_IS_HKDF_EXTRACT (alg : Z) : bool :=
  Z.land alg (Z.lnot PSA_ALG_HASH_MASK) =? PSA_ALG_HKDF_EXTRACT_BASE.
Definition PSA_ALG_HKDF_EXPAND_BASE : Z := 0x08000500.
Definition PSA_ALG_IS_HKDF_EXPAND (alg : Z) : bool :=
  Z.land alg (Z.lnot PSA_ALG_HASH_MASK) =? PSA_ALG_HKDF_EXPAND_BASE.
Definition PSA_ALG_IS_ANY_HKDF (alg : Z) : bool :=
  (Z.land alg (Z.lnot PSA_ALG_HASH_MASK) =? PSA_ALG_HKDF_BASE) ||
  (Z.land alg (Z.lnot PSA_ALG_HASH_MASK) =? PSA_ALG_HKDF_EXTRACT_BASE) ||
  (Z.land alg (Z.lnot PSA_ALG_HASH_MASK) =? PSA_ALG_HKDF_EXPAND_BASE).
Definition PSA_ALG_TLS12_PRF_BASE : Z := 0x08000200.
Definition PSA_ALG_IS_TLS12_PRF (alg : Z) : bool :=
  Z.land alg (Z.lnot PSA_ALG_HASH_MASK) =? PSA_ALG_TLS12_PRF_BASE.
Definition PSA_ALG_TLS12_PRF_GET_HASH (hkdf_alg : Z) : Z :=
  Z.lor PSA_ALG_CATEGORY_HASH (Z.land hkdf_alg PSA_ALG_HASH_MASK).
Definition PSA_ALG_TLS12_PSK_TO_MS_BASE : Z := 0x08000300.
Definition PSA_ALG_IS_TLS12_PSK_TO_MS (alg : Z) : bool :=
  Z.land alg (Z.lnot PSA_ALG_HASH_MASK) =? PSA_ALG_TLS12_PSK_TO_MS_BASE.
Definition PSA_ALG_TLS12_PSK_TO_MS_GET_HASH (hkdf_alg : Z) : Z :=
  Z.lor PSA_ALG_CATEGORY_HASH (Z.land hkdf_alg PSA_ALG_HASH_MASK).
Definition PSA_ALG_PBKDF2_HMAC_BASE : Z := 0x08800100.
Definition PSA_ALG_IS_PBKDF2_HMAC (alg : Z) : bool :=
  Z.land alg (Z.lnot PSA_ALG_HASH_MASK) =? PSA_ALG_PBKDF2_HMAC_BASE.
Definition PSA_ALG_PBKDF2_HMAC_GET_HASH (pbkdf2_alg : Z) : Z :=
  Z.lor PSA_ALG_CATEGORY_HASH (Z.land pbkdf2_alg PSA_ALG_HASH_MASK).
Definition PSA_ALG_PBKDF2_AES_CMAC_PRF_128 : Z := 0x08800200.
Definition PSA_ALG_IS_PBKDF2 (kdf_alg : Z) : bool :=
  PSA_ALG_IS_PBKDF2_HMAC kdf_alg || (kdf_alg =? PSA_ALG_PBKDF2_AES_CMAC_PRF_128).
Definition PSA_ALG_SP800_108_COUNTER_CMAC : Z := 0x08000800.
Definition PSA_ALG_IS_SP800_108_COUNTER_HMAC (alg : Z) : bool :=
  Z.land alg (Z.lnot 0x000000ff) =? 0x08000700.
Definition PSA_ALG_KEY_DERIVATION_MASK : Z := 0xfe00ffff.
Definition PSA_ALG_KEY_AGREEMENT_MASK : Z := 0xffff0000.
Definition PSA_ALG_KEY_AGREEMENT (ka_alg kdf_alg : Z) : Z := Z.lor ka_alg kdf_alg.
Definition PSA_ALG_KEY_AGREEMENT_GET_KDF (alg : Z) : Z :=
  Z.lor (Z.land alg PSA_ALG_KEY_DERIVATION_MASK) PSA_ALG_CATEGORY_KEY_DERIVATION.
Definition PSA_ALG_KEY_AGREEMENT_GET_BASE (alg : Z) : Z :=
  Z.lor (Z.land alg PSA_ALG_KEY_AGREEMENT_MASK) PSA_ALG_CATEGORY_KEY_AGREEMENT.
Definition PSA_ALG_IS_KEY_DERIVATION_OR_AGREEMENT (alg : Z) : bool :=
  PSA_ALG_IS_KEY_DERIVATION alg || PSA_ALG_IS_KEY_AGREEMENT alg.
Definition PSA_ALG_ECDH : Z := 0x09020000.
Definition PSA_ALG_IS_RAW_KEY_AGREEMENT (alg : Z) : bool :=
  PSA_ALG_IS_KEY_AGREEMENT alg &&
  (PSA_ALG_KEY_AGREEMENT_GET_KDF alg =? PSA_ALG_CATEGORY_KEY_DERIVATION).

(** ** Extendable output *)

Definition PSA_ALG_SHAKE128 : Z := 0x0D000100.
Definition PSA_ALG_SHAKE256 : Z := 0x0D000200.
Definition PSA_ALG_ASCON_XOF128 : Z := 0x0D000300.
Definition PSA_ALG_ASCON_CXOF128 : Z := 0x0D008300.
Definition PSA_ALG_IS_XOF (alg : Z) : bool := Z.land alg 0x7f000000 =? 0x0D000000.
Definition PSA_ALG_XOF_HAS_CONTEXT (alg : Z) : bool := negb (Z.land alg 0x00008000 =? 0).

(** ** PAKE *)

Definition PSA_ALG_JPAKE_BASE : Z := 0x0A000700.
Definition PSA_ALG_JPAKE (hash_alg : Z) : Z :=
  Z.lor PSA_ALG_JPAKE_BASE (Z.land hash_alg 0x0000ffff).
Definition PSA_ALG_IS_JPAKE (alg : Z) : bool :=
  Z.land alg 0xffff0000 =? PSA_ALG_JPAKE_BASE.
Definition PSA_ALG_SPAKE2P_HMAC_BASE : Z := 0x0A000800.
Definition PSA_ALG_SPAKE2P_HMAC (hash_alg : Z) : Z :=
  Z.lor PSA_ALG_SPAKE2P_HMAC_BASE (Z.land hash_alg 0x0000ffff).
Definition PSA_ALG_IS_SPAKE2P_HMAC (alg : Z) : bool :=
  Z.land alg 0xffff0000 =? PSA_ALG_SPAKE2P_HMAC_BASE.

(** * Lifetimes, identifiers, usage flags, derivation steps *)

Definition PSA_KEY_LIFETIME_VOLATILE : Z := 0.
Definition PSA_KEY_LIFETIME_PERSISTENT : Z := 1.
Definition PSA_KEY_PERSISTENCE_VOLATILE : Z := 0.
Definition PSA_KEY_LIFETIME_GET_PERSISTENCE (lifetime : Z) : Z :=
  Z.land lifetime 0x000000ff.
Definition PSA_KEY_LIFETIME_GET_LOCATION (lifetime : Z) : Z := Z.shiftr lifetime 8.
Definition PSA_KEY_LIFETIME_IS_VOLATILE (lifetime : Z) : bool :=
  PSA_KEY_LIFETIME_GET_PERSISTENCE lifetime =? PSA_KEY_PERSISTENCE_VOLATILE.
Definition PSA_KEY_LIFETIME_FROM_PERSISTENCE_AND_LOCATION (persistence location : Z) : Z :=
  Z.lor (Z.shiftl location 8) persistence.
Definition PSA_KEY_LOCATION_LOCAL_STORAGE : Z := 0.

Definition PSA_KEY_ID_NULL : Z := 0.
Definition PSA_KEY_ID_VENDOR_MIN : Z := 0x40000000.
Definition PSA_KEY_ID_VENDOR_MAX : Z := 0x7fffffff.

Definition PSA_KEY_USAGE_EXPORT : Z := 0x00000001.
Definition PSA_KEY_USAGE_COPY : Z := 0x00000002.
Definition PSA_KEY_USAGE_ENCRYPT : Z := 0x00000100.
Definition PSA_KEY_USAGE_DECRYPT : Z := 0x00000200.
Definition PSA_KEY_USAGE_SIGN_MESSAGE : Z := 0x00000400.
Definition PSA_KEY_USAGE_VERIFY_MESSAGE : Z := 0x00000800.
Definition PSA_KEY_USAGE_SIGN_HASH : Z := 0x00001000.
Definition PSA_KEY_USAGE_VERIFY_HASH : Z := 0x00002000.
Definition PSA_KEY_USAGE_DERIVE : Z := 0x00004000.
Definition PSA_KEY_USAGE_VERIFY_DERIVATION : Z := 0x00008000.
Definition PSA_KEY_USAGE_WRAP : Z := 0x00010000.
Definition PSA_KEY_USAGE_UNWRAP : Z := 0x00020000.

Definition PSA_KEY_DERIVATION_INPUT_SECRET : Z := 0x0101.
Definition PSA_KEY_DERIVATION_INPUT_PASSWORD : Z := 0x0102.
Definition PSA_KEY_DERIVATION_INPUT_OTHER_SECRET : Z := 0x0103.
Definition PSA_KEY_DERIVATION_INPUT_LABEL : Z := 0x0201.
Definition PSA_KEY_DERIVATION_INPUT_SALT : Z := 0x0202.
Definition PSA_KEY_DERIVATION_INPUT_INFO : Z := 0x0203.
Definition PSA_KEY_DERIVATION_INPUT_SEED : Z := 0x0204.
Definition PSA_KEY_DERIVATION_INPUT_COST : Z := 0x0205.
Definition PSA_KEY_DERIVATION_INPUT_CONTEXT : Z := 0x0206.

(** * Sizes ([crypto_sizes.h], [crypto.h]) *)

Definition PSA_MAX_KEY_BITS : Z := 0xfff8.
Definition PSA_KEY_BITS_TOO_LARGE : Z := 0xffff.
Definition PSA_VENDOR_RSA_MAX_KEY_BITS : Z := 4096.
Definition PSA_TLS12_PSK_TO_MS_PSK_MAX_SIZE : Z := 128.
Definition PSA_KEY_DERIVATION_UNLIMITED_CAPACITY : Z := SIZE_MAX.
Definition PSA_BITS_TO_BYTES (bits : Z) : Z := (bits + 7) / 8.

Definition PSA_HASH_LENGTH (alg : Z) : Z :=
  let h := PSA_ALG_HMAC_GET_HASH alg in
  if h =? PSA_ALG_MD5 then 16
  else if h =? PSA_ALG_RIPEMD160 then 20
  else if h =? PSA_ALG_SHA_1 then 20
  else if h =? PSA_ALG_SHA_224 then 28
  else if h =? PSA_ALG_SHA_256 then 32
  else if h =? PSA_ALG_SHA_384 then 48
  else if h =? PSA_ALG_SHA_512 then 64
  else if h =? PSA_ALG_SHA_512_224 then 28
  else if h =? PSA_ALG_SHA_512_256 then 32
  else if h =? PSA_ALG_SHA3_224 then 28
  else if h =? PSA_ALG_SHA3_256 then 32
  else if h =? PSA_ALG_SHA3_384 then 48
  else if h =? PSA_ALG_SHA3_512 then 64
  else if h =? PSA_ALG_ASCON_HASH256 then 32
  else 0.

Definition PSA_MAC_LENGTH (key_type key_bits alg : Z) : Z :=
  if negb (Z.land alg PSA_ALG_MAC_TRUNCATION_MASK =? 0) then PSA_MAC_TRUNCATED_LENGTH alg
  else if PSA_ALG_IS_HMAC alg then PSA_HASH_LENGTH (PSA_ALG_HMAC_GET_HASH alg)
  else if PSA_ALG_IS_BLOCK_CIPHER_MAC alg then PSA_BLOCK_CIPHER_BLOCK_LENGTH key_type
  else 0.

Definition PSA_KEY_EXPORT_ASN1_INTEGER_MAX_SIZE (bits : Z) : Z := bits / 8 + 5.
Definition PSA_KEY_EXPORT_RSA_PUBLIC_KEY_MAX_SIZE (key_bits : Z) : Z :=
  PSA_KEY_EXPORT_ASN1_INTEGER_MAX_SIZE key_bits + 11.
Definition PSA_KEY_EXPORT_RSA_KEY_PAIR_MAX_SIZE (key_bits : Z) : Z :=
  9 * PSA_KEY_EXPORT_ASN1_INTEGER_MAX_SIZE (key_bits / 2 + 1) + 14.
Definition PSA_KEY_EXPORT_ECC_PUBLIC_KEY_MAX_SIZE (key_bits : Z) : Z :=
  2 * PSA_BITS_TO_BYTES key_bits + 1.
Definition PSA_KEY_EXPORT_ECC_KEY_PAIR_MAX_SIZE (key_bits : Z) : Z :=
  if key_bits =? 448 then 57 else PSA_BITS_TO_BYTES key_bits.
Definition PSA_RAW_KEY_AGREEMENT_OUTPUT_SIZE (key_type key_bits : Z) : Z :=
  if PSA_KEY_TYPE_IS_ECC_KEY_PAIR key_type || PSA_KEY_TYPE_IS_DH_KEY_PAIR key_type
  then PSA_BITS_TO_BYTES key_bits else 0.

(** * Key attributes ([crypto_struct.h]) *)

Record psa_key_policy_t : Set := mkPolicy { usage : Z; alg : Z; alg2 : Z }.

Record psa_key_attributes_t : Set := mkAttributes {
  attr_type : Z;
  attr_bits : Z;
  attr_lifetime : Z;
  attr_policy : psa_key_policy_t;
  attr_id : Z }.

#[global] Instance psa_key_policy_eq_dec : EqDecision psa_key_policy_t.
Proof. solve_decision. Defined.
#[global] Instance psa_key_attributes_eq_dec : EqDecision psa_key_attributes_t.
Proof. solve_decision. Defined.

Definition PSA_KEY_POLICY_INIT : psa_key_policy_t := mkPolicy 0 0 0.
Definition PSA_KEY_ATTRIBUTES_INIT : psa_key_attributes_t :=
  mkAttributes PSA_KEY_TYPE_NONE 0 PSA_KEY_LIFETIME_VOLATILE PSA_KEY_POLICY_INIT
               PSA_KEY_ID_NULL.

Definition set_type (a : psa_key_attributes_t) (t : Z) : psa_key_attributes_t :=
  mkAttributes t (attr_bits a) (attr_lifetime a) (attr_policy a) (attr_id a).
Definition set_bits (a : psa_key_attributes_t) (b : Z) : psa_key_attributes_t :=
  mkAttributes (attr_type a) b (attr_lifetime a) (attr_policy a) (attr_id a).
Definition set_lifetime (a : psa_key_attributes_t) (l : Z) : psa_key_attributes_t :=
  mkAttributes (attr_type a) (attr_bits a) l (attr_policy a) (attr_id a).
Definition set_policy (a : psa_key_attributes_t) (p : psa_key_policy_t) : psa_key_attributes_t :=
  mkAttributes (attr_type a) (attr_bits a) (attr_lifetime a) p (attr_id a).
Definition set_id (a : psa_key_attributes_t) (i : Z) : psa_key_attributes_t :=
  mkAttributes (attr_type a) (attr_bits a) (attr_lifetime a) (attr_policy a) i.

Definition psa_set_key_id (a : psa_key_attributes_t) (key : Z) : psa_key_attributes_t :=
  let lifetime := attr_lifetime a in
  let a1 := set_id a key in
  if PSA_KEY_LIFETIME_IS_VOLATILE lifetime
  then set_lifetime a1 (PSA_KEY_LIFETIME_FROM_PERSISTENCE_AND_LOCATION
                          PSA_KEY_LIFETIME_PERSISTENT
                          (PSA_KEY_LIFETIME_GET_LOCATION lifetime))
  else a1.

Definition psa_set_key_lifetime (a : psa_key_attributes_t) (lifetime : Z)
  : psa_key_attributes_t :=
  let a1 := set_lifetime a lifetime in
  if PSA_KEY_LIFETIME_IS_VOLATILE lifetime then set_id a1 PSA_KEY_ID_NULL else a1.

Definition psa_extend_key_usage_flags (flags : Z) : Z :=
  let f1 := if negb (Z.land flags PSA_KEY_USAGE_SIGN_HASH =? 0)
            then Z.lor flags PSA_KEY_USAGE_SIGN_MESSAGE else flags in
  if negb (Z.land f1 PSA_KEY_USAGE_VERIFY_HASH =? 0)
  then Z.lor f1 PSA_KEY_USAGE_VERIFY_MESSAGE else f1.

Definition psa_set_key_usage_flags (a : psa_key_attributes_t) (flags : Z)
  : psa_key_attributes_t :=
  set_policy a (mkPolicy (psa_extend_key_usage_flags flags)
                         (alg (attr_policy a)) (alg2 (attr_policy a))).

Definition psa_get_key_usage_flags (a : psa_key_attributes_t) : Z := usage (attr_policy a).
Definition psa_get_key_algorithm (a : psa_key_attributes_t) : Z := alg (attr_policy a).
Definition psa_get_key_enrollment_algorithm (a : psa_key_attributes_t) : Z :=
  alg2 (attr_policy a).

Definition psa_set_key_bits (a : psa_key_attributes_t) (bits : Z) : psa_key_attributes_t :=
  if PSA_MAX_KEY_BITS <? bits then set_bits a PSA_KEY_BITS_TOO_LARGE else set_bits a bits.

(** The fields hold values of their C types. *)
Record wf_attributes (a : psa_key_attributes_t) : Prop := {
  wf_type : 0 <= attr_type a < 2 ^ 16;
  wf_bits : 0 <= attr_bits a < 2 ^ 16;
  wf_lifetime : 0 <= attr_lifetime a < 2 ^ 32;
  wf_usage : 0 <= usage (attr_policy a) < 2 ^ 32;
  wf_alg : 0 <= alg (attr_policy a) < 2 ^ 32;
  wf_alg2 : 0 <= alg2 (attr_policy a) < 2 ^ 32;
  wf_id : 0 <= attr_id a < 2 ^ 32 }.
