(* ===== verification/Engine.v ===== *)
(** The engine layer: the build configuration, the return codes of wolfCrypt
    and their translation to PSA status codes ([src/psa_engine.c],
    [src/psa_size.h], and the two local translations of
    [src/psa_key_storage.c]). *)

From stdpp Require Import base decidable list.
From Stdlib Require Import ZArith Lia.
From S2P Require Import Prelude.
From S2P Require Import Values.

#[local] Open Scope Z_scope.

(** * Build configuration

    The preprocessor symbols the modelled code tests, and the byte order of the
    machine, which the persistent key format inherits through [memcpy].  Symbols
    that the code only tests together are one field: [WOLFSSL_CMAC_AES] is
    [WOLFSSL_CMAC] without [NO_AES], [ECC_BLINDING_RNG] is
    [ECC_TIMING_RESISTANT] without [WC_NO_RNG], and
    [HAVE_CURVE25519_SHARED_SECRET], [HAVE_CURVE448_SHARED_SECRET] include the
    curve itself and its key import, and [PSA_WANT_512_BIT_HASH] is
    [PSA_WANT_ALG_SHA_512] or [PSA_WANT_ALG_SHA3_512], and so on. *)
Class Config : Set := mkConfig {
  NO_RSA : bool;
  HAVE_ECC : bool;
  HAVE_ECC_KEY_IMPORT_EXPORT : bool;
  HAVE_ECC192 : bool;
  HAVE_ECC224 : bool;
  HAVE_ECC256 : bool;
  HAVE_ECC384 : bool;
  HAVE_ECC521 : bool;
  HAVE_ECC_KOBLITZ : bool;
  HAVE_ECC_BRAINPOOL : bool;
  HAVE_CURVE25519 : bool;
  HAVE_CURVE448 : bool;
  HAVE_ED25519 : bool;
  HAVE_ED448 : bool;
  HAVE_CURVE25519_IMPORT_EXPORT : bool;
  HAVE_CURVE448_IMPORT_EXPORT : bool;
  WOLFSSL_HAVE_MLDSA : bool;
  WOLFSSL_HAVE_MLKEM : bool;
  WOLFPSA_ENROLLMENT_ALG : bool;
  WOLFPSA_THREAD_SAFE : bool;
  HAVE_HKDF : bool;
  WOLFSSL_HAVE_PRF : bool;
  HAVE_PBKDF2 : bool;
  NO_HMAC : bool;
  WOLFSSL_CMAC_AES : bool;
  WOLFSSL_CMAC : bool;
  HAVE_ECC_DHE : bool;
  ECC_BLINDING_RNG : bool;
  HAVE_CURVE25519_SHARED_SECRET : bool;
  WOLFSSL_CURVE25519_BLINDING : bool;
  HAVE_CURVE448_SHARED_SECRET : bool;
  WOLFSSL_MD5 : bool;
  WOLFSSL_RIPEMD : bool;
  NO_SHA : bool;
  NO_SHA256 : bool;
  WOLFSSL_SHA224 : bool;
  WOLFSSL_SHA384 : bool;
  WOLFSSL_SHA512 : bool;
  WOLFSSL_NOSHA512_224 : bool;
  WOLFSSL_NOSHA512_256 : bool;
  WOLFSSL_SHA3 : bool;
  WOLFSSL_NOSHA3_224 : bool;
  WOLFSSL_NOSHA3_256 : bool;
  WOLFSSL_NOSHA3_384 : bool;
  WOLFSSL_NOSHA3_512 : bool;
  WOLFSSL_SHAKE128 : bool;
  WOLFSSL_SHAKE256 : bool;
  HAVE_ASCON : bool;
  WOLF_CRYPTO_CB : bool;
  HAVE_AES_KEYWRAP : bool;
  NO_DES3 : bool;
  WOLFSSL_DES_ECB : bool;
  HAVE_AES_ECB : bool;
  WOLFSSL_AES_COUNTER : bool;
  WOLFSSL_AES_CFB : bool;
  WOLFSSL_AES_OFB : bool;
  HAVE_CHACHA : bool;
  HAVE_POLY1305 : bool;
  HAVE_XCHACHA : bool;
  HAVE_AESGCM : bool;
  WOLFSSL_AESGCM_STREAM : bool;
  HAVE_AESCCM : bool;
  WOLFSSL_AES_DIRECT : bool;
  PSA_WANT_512_BIT_HASH : bool;
  PSA_WANT_384_BIT_HASH : bool;
  PSA_WANT_256_BIT_HASH : bool;
  PSA_WANT_224_BIT_HASH : bool;
  WOLFSSL_HAVE_LMS : bool;
  WOLFSSL_HAVE_XMSS : bool;
  WOLF_CRYPTO_CB_ONLY_ECC : bool;
  WOLFSSL_ECDSA_DETERMINISTIC_K : bool;
  WC_RSA_PSS : bool;
  WOLFSSL_PSS_SALT_LEN_DISCOVER : bool;
  WOLFSSL_RSA_OAEP : bool;
  WC_RSA_BLINDING : bool;
  WOLFSSL_KEY_GEN : bool;
  host_big_endian : bool }.

(** Every feature on, little-endian: the configuration of the witnesses. *)
Definition full_config : Config :=
  {| NO_RSA := false; HAVE_ECC := true; HAVE_ECC_KEY_IMPORT_EXPORT := true;
     HAVE_ECC192 := true; HAVE_ECC224 := true; HAVE_ECC256 := true; HAVE_ECC384 := true;
     HAVE_ECC521 := true; HAVE_ECC_KOBLITZ := true;
     HAVE_ECC_BRAINPOOL := true; HAVE_CURVE25519 := true; HAVE_CURVE448 := true;
     HAVE_ED25519 := true; HAVE_ED448 := true; HAVE_CURVE25519_IMPORT_EXPORT := true;
     HAVE_CURVE448_IMPORT_EXPORT := true; WOLFSSL_HAVE_MLDSA := true;
     WOLFSSL_HAVE_MLKEM := true; WOLFPSA_ENROLLMENT_ALG := true;
     WOLFPSA_THREAD_SAFE := true; HAVE_HKDF := true; WOLFSSL_HAVE_PRF := true;
     HAVE_PBKDF2 := true; NO_HMAC := false; WOLFSSL_CMAC_AES := true;
     WOLFSSL_CMAC := true;
     HAVE_ECC_DHE := true; ECC_BLINDING_RNG := true; HAVE_CURVE25519_SHARED_SECRET := true;
     WOLFSSL_CURVE25519_BLINDING := true; HAVE_CURVE448_SHARED_SECRET := true;
     WOLFSSL_MD5 := true; WOLFSSL_RIPEMD := true; NO_SHA := false; NO_SHA256 := false;
     WOLFSSL_SHA224 := true; WOLFSSL_SHA384 := true; WOLFSSL_SHA512 := true;
     WOLFSSL_NOSHA512_224 := false; WOLFSSL_NOSHA512_256 := false; WOLFSSL_SHA3 := true;
     WOLFSSL_NOSHA3_224 := false; WOLFSSL_NOSHA3_256 := false;
     WOLFSSL_NOSHA3_384 := false; WOLFSSL_NOSHA3_512 := false;
     WOLFSSL_SHAKE128 := true; WOLFSSL_SHAKE256 := true; HAVE_ASCON := true;
     WOLF_CRYPTO_CB := true; HAVE_AES_KEYWRAP := true; NO_DES3 := false;
     WOLFSSL_DES_ECB := true; HAVE_AES_ECB := true; WOLFSSL_AES_COUNTER := true;
     WOLFSSL_AES_CFB := true; WOLFSSL_AES_OFB := true; HAVE_CHACHA := true;
     HAVE_POLY1305 := true; HAVE_XCHACHA := true; HAVE_AESGCM := true;
     WOLFSSL_AESGCM_STREAM := true; HAVE_AESCCM := true; WOLFSSL_AES_DIRECT := true;
     PSA_WANT_512_BIT_HASH := true;
     PSA_WANT_384_BIT_HASH := true; PSA_WANT_256_BIT_HASH := true;
     PSA_WANT_224_BIT_HASH := true;
     WOLFSSL_HAVE_LMS := true; WOLFSSL_HAVE_XMSS := true;
     WOLF_CRYPTO_CB_ONLY_ECC := false; WOLFSSL_ECDSA_DETERMINISTIC_K := true;
     WC_RSA_PSS := true; WOLFSSL_PSS_SALT_LEN_DISCOVER := true;
     WOLFSSL_RSA_OAEP := true; WC_RSA_BLINDING := true; WOLFSSL_KEY_GEN := true;
     host_big_endian := false |}.

(** [PSA_HASH_MAX_SIZE] of [crypto_sizes.h]. *)
Definition PSA_HASH_MAX_SIZE {C : Config} : Z :=
  if PSA_WANT_512_BIT_HASH then 64
  else if PSA_WANT_384_BIT_HASH then 48
  else if PSA_WANT_256_BIT_HASH then 32
  else if PSA_WANT_224_BIT_HASH then 28
  else 20.
Definition PSA_MAC_MAX_SIZE {C : Config} : Z := PSA_HASH_MAX_SIZE.

(** * wolfCrypt return codes

    wolfCrypt's error codes are constants of its headers: parameters here.  What
    the code relies on is that they are negative and, where a [switch] lists
    them, distinct. *)
Class WolfCryptErr : Set := mkWolfCryptErr {
  MEMORY_E : Z;
  BUFFER_E : Z;
  RSA_BUFFER_E : Z;
  BAD_FUNC_ARG : Z;
  NOT_COMPILED_IN : Z;
  BAD_STATE_E : Z;
  RNG_FAILURE_E : Z;
  WC_HW_E : Z;
  ECC_BAD_ARG_E : Z;
  ECC_CURVE_OID_E : Z;
  ECC_PRIV_KEY_E : Z;
  ECC_OUT_OF_RANGE_E : Z;
  ECC_PRIVATEONLY_E : Z;
  SIG_VERIFY_E : Z;
  AES_GCM_AUTH_E : Z;
  AES_CCM_AUTH_E : Z;
  AES_EAX_AUTH_E : Z;
  AES_SIV_AUTH_E : Z;
  MAC_CMP_FAILED_E : Z;
  BAD_PADDING_E : Z;
  RSA_PAD_E : Z }.

Definition wc_codes {E : WolfCryptErr} : list Z :=
  [MEMORY_E; BUFFER_E; RSA_BUFFER_E; BAD_FUNC_ARG; NOT_COMPILED_IN; BAD_STATE_E;
   RNG_FAILURE_E; WC_HW_E; ECC_BAD_ARG_E; ECC_CURVE_OID_E; ECC_PRIV_KEY_E;
   ECC_OUT_OF_RANGE_E; ECC_PRIVATEONLY_E; SIG_VERIFY_E; AES_GCM_AUTH_E;
   AES_CCM_AUTH_E; AES_EAX_AUTH_E; AES_SIV_AUTH_E; MAC_CMP_FAILED_E;
   BAD_PADDING_E; RSA_PAD_E].

(** [MEMORY_E] is outside the range of the store's own codes. *)
Class WolfCryptErrOk (E : WolfCryptErr) : Prop := {
  wc_codes_distinct : NoDup wc_codes;
  wc_codes_negative : Forall (fun c => c < -5) wc_codes }.

(** One assignment of the codes that meets the requirements. *)
Definition sample_codes : WolfCryptErr :=
  mkWolfCryptErr (-125) (-132) (-131) (-173) (-174) (-192) (-199) (-248) (-170)
                 (-171) (-216) (-217) (-214) (-229) (-180) (-181) (-306) (-307)
                 (-313) (-175) (-201).

#[global] Instance sample_codes_ok : WolfCryptErrOk sample_codes.
Proof.
  split.
  - apply (bool_decide_unpack _). vm_compute. exact I.
  - apply (bool_decide_unpack _). vm_compute. exact I.
Qed.

Section Status.
Context {E : WolfCryptErr}.

(** [wc_error_to_psa_status] of [psa_engine.c]. *)
Definition wc_error_to_psa_status (ret : Z) : psa_status_t :=
if ret =? 0 then PSA_SUCCESS
else if ret =? NOT_COMPILED_IN then PSA_ERROR_NOT_SUPPORTED
else if ret =? BAD_FUNC_ARG then PSA_ERROR_INVALID_ARGUMENT
else if (ret =? ECC_BAD_ARG_E) || (ret =? ECC_CURVE_OID_E) || (ret =? ECC_PRIV_KEY_E)
        || (ret =? ECC_OUT_OF_RANGE_E) || (ret =? ECC_PRIVATEONLY_E)
then PSA_ERROR_INVALID_ARGUMENT
else if (ret =? BUFFER_E) || (ret =? RSA_BUFFER_E) then PSA_ERROR_BUFFER_TOO_SMALL
else if ret =? MEMORY_E then PSA_ERROR_INSUFFICIENT_MEMORY
else if ret =? WC_HW_E then PSA_ERROR_HARDWARE_FAILURE
else if ret =? SIG_VERIFY_E then PSA_ERROR_INVALID_SIGNATURE
else if (ret =? AES_GCM_AUTH_E) || (ret =? AES_CCM_AUTH_E) || (ret =? AES_EAX_AUTH_E)
        || (ret =? AES_SIV_AUTH_E) || (ret =? MAC_CMP_FAILED_E)
then PSA_ERROR_INVALID_SIGNATURE
else if ret =? RNG_FAILURE_E then PSA_ERROR_INSUFFICIENT_ENTROPY
else if (ret =? BAD_PADDING_E) || (ret =? RSA_PAD_E) then PSA_ERROR_INVALID_PADDING
else if ret =? BAD_STATE_E then PSA_ERROR_BAD_STATE
else PSA_ERROR_GENERIC_ERROR.

(** The local translation of [psa_key_storage.c] for RSA. *)
Definition psa_wc_error_to_psa_status (ret : Z) : psa_status_t :=
if ret =? 0 then PSA_SUCCESS
else if ret =? BAD_FUNC_ARG then PSA_ERROR_INVALID_ARGUMENT
else if (ret =? BUFFER_E) || (ret =? RSA_BUFFER_E) then PSA_ERROR_BUFFER_TOO_SMALL
else if ret =? MEMORY_E then PSA_ERROR_INSUFFICIENT_MEMORY
else if ret =? NOT_COMPILED_IN then PSA_ERROR_NOT_SUPPORTED
else if ret =? BAD_STATE_E then PSA_ERROR_BAD_STATE
else PSA_ERROR_GENERIC_ERROR.

(** [wolfpsa_store_open_status]: a failing store call. *)
Definition wolfpsa_store_open_status (ret : Z) : psa_status_t :=
if ret =? MEMORY_E then PSA_ERROR_INSUFFICIENT_MEMORY else PSA_ERROR_STORAGE_FAILURE.

(** [wolfpsa_key_data_status]: key data that wolfCrypt did not accept. *)
Definition wolfpsa_key_data_status (ret : Z) : psa_status_t :=
if (ret =? MEMORY_E) || (ret =? RNG_FAILURE_E) || (ret =? WC_HW_E)
then wc_error_to_psa_status ret
else PSA_ERROR_INVALID_ARGUMENT.

(** [wolfpsa_check_word32_length] of [psa_size.h]. *)
Definition wolfpsa_check_word32_length (length : Z) : psa_status_t :=
if UINT32_MAX <? length then PSA_ERROR_INVALID_ARGUMENT else PSA_SUCCESS.

Definition fits_word32 (length : Z) : bool :=
bool_decide (wolfpsa_check_word32_length length = PSA_SUCCESS).

Lemma fits_word32_spec l : fits_word32 l = true <-> l <= UINT32_MAX.
Proof.
unfold fits_word32, wolfpsa_check_word32_length. rewrite bool_decide_eq_true.
destruct (UINT32_MAX <? l) eqn:H; split; intros; try done; lia.
Qed.

(** A failing wolfCrypt call never becomes [PSA_SUCCESS]. *)
Lemma wc_error_success ret : wc_error_to_psa_status ret = PSA_SUCCESS <-> ret = 0.
Proof.
unfold wc_error_to_psa_status. split; [|by intros ->].
repeat case_match; try done. intros _. lia.
Qed.

Lemma psa_wc_error_success ret : psa_wc_error_to_psa_status ret = PSA_SUCCESS <-> ret = 0.
Proof.
unfold psa_wc_error_to_psa_status. split; [|by intros ->].
repeat case_match; try done. intros _. lia.
Qed.

Lemma store_open_status_fails ret : wolfpsa_store_open_status ret <> PSA_SUCCESS.
Proof. unfold wolfpsa_store_open_status. by case_match. Qed.

Lemma memory_e_negative {EOK : WolfCryptErrOk E} : MEMORY_E < -5.
Proof.
pose proof wc_codes_negative as Hn. unfold wc_codes in Hn.
by apply Forall_cons in Hn as [Hm _].
Qed.

Lemma key_data_status_fails ret :
ret <> 0 -> wolfpsa_key_data_status ret <> PSA_SUCCESS.
Proof.
intros Hr. unfold wolfpsa_key_data_status. case_match; [|done].
by rewrite wc_error_success.
Qed.
End Status.

#[export] Hint Resolve store_open_status_fails key_data_status_fails : wpsa.
