(* ===== verification/WolfCrypt.v ===== *)
(** wolfCrypt's primitives, as parameters with the laws the code relies on.

    Each class lists the calls of one family; contexts are abstract types, so
    that an operation is what it does to them.  Return codes are not part of
    these functions: a call that can fail is preceded by [wc_call] of
    [Operation], and the functions here give the result of a call that
    succeeded.  The [...Ok] classes state documented behaviour: a digest of
    parts is the digest of their concatenation, a key derivation of [n] bytes is
    a prefix of a longer one, outputs have the length asked for. *)

From stdpp Require Import base decidable list.
From Stdlib Require Import ZArith Lia.
From Stdlib Require Import Strings.Byte.
From S2P Require Import Prelude.
From S2P Require Import Values.

#[local] Open Scope Z_scope.

(** * Hashes *)

(** The enumerators of [enum wc_HashType] that the code names. *)
Inductive wc_HashType : Set :=
| WC_HASH_TYPE_NONE
| WC_HASH_TYPE_MD5
| WC_HASH_TYPE_SHA
| WC_HASH_TYPE_SHA224
| WC_HASH_TYPE_SHA256
| WC_HASH_TYPE_SHA384
| WC_HASH_TYPE_SHA512
| WC_HASH_TYPE_SHA512_224
| WC_HASH_TYPE_SHA512_256
| WC_HASH_TYPE_SHA3_224
| WC_HASH_TYPE_SHA3_256
| WC_HASH_TYPE_SHA3_384
| WC_HASH_TYPE_SHA3_512
| WC_HASH_TYPE_SHAKE128
| WC_HASH_TYPE_SHAKE256.

#[global] Instance wc_HashType_eq_dec : EqDecision wc_HashType.
Proof. solve_decision. Defined.

(** [wc_HashGetDigestSize] is not positive for a hash that is not compiled in. *)
Class WolfCryptDigest : Type := {
  WC_MAX_DIGEST_SIZE : Z;
  wc_HashGetDigestSize : wc_HashType -> Z }.

(** The hash contexts that [psa_hash_engine.c] keeps in a union; the algorithm
    selects the member ([wc_InitSha256_ex], [wc_Sha256Update], [wc_Sha256Copy],
    and so on).  [wc_hash] is the contents of a context in memory.  A context may
    hold pointers, to itself or to buffers of its own, so that contents belong to
    the address at which the context was initialised or to which it was copied.
    The digest sizes are constants of wolfCrypt's headers. *)
Class WolfCryptHash : Type := {
  wc_hash : Type;
  (** algorithm, address *)
  wc_hash_init : Z -> nat -> wc_hash;
  wc_hash_update : Z -> wc_hash -> list byte -> wc_hash;
  (** algorithm, source, address of the target *)
  wc_hash_copy : Z -> wc_hash -> nat -> wc_hash;
  wc_hash_final : Z -> wc_hash -> list byte;
  WC_MD5_DIGEST_SIZE : Z;
  RIPEMD_DIGEST_SIZE : Z;
  WC_SHA_DIGEST_SIZE : Z;
  WC_SHA224_DIGEST_SIZE : Z;
  WC_SHA256_DIGEST_SIZE : Z;
  WC_SHA384_DIGEST_SIZE : Z;
  WC_SHA512_DIGEST_SIZE : Z;
  WC_SHA512_224_DIGEST_SIZE : Z;
  WC_SHA512_256_DIGEST_SIZE : Z;
  WC_SHA3_224_DIGEST_SIZE : Z;
  WC_SHA3_256_DIGEST_SIZE : Z;
  WC_SHA3_384_DIGEST_SIZE : Z;
  WC_SHA3_512_DIGEST_SIZE : Z;
  ASCON_HASH256_SZ : Z }.

(** [hashes alg p h m]: the contents [h] are those of a context at the address [p]
    that has absorbed the message [m].  Contents that are moved to another address
    byte by byte are a context there for RIPEMD-160 and Ascon-Hash256 only, whose
    structures hold numbers and no pointer. *)
Class WolfCryptHashOk (W : WolfCryptHash) : Type := {
  digest : Z -> list byte -> list byte;
  hashes : Z -> nat -> wc_hash -> list byte -> Prop;
  hash_init_spec alg p : hashes alg p (wc_hash_init alg p) [];
  hash_update_spec alg p h m d : hashes alg p h m -> hashes alg p (wc_hash_update alg h d) (m ++ d);
  hash_copy_spec alg p q h m : hashes alg p h m -> hashes alg q (wc_hash_copy alg h q) m;
  hash_move_spec alg p q h m :
    alg = PSA_ALG_RIPEMD160 \/ alg = PSA_ALG_ASCON_HASH256 -> hashes alg p h m -> hashes alg q h m;
  hash_final_spec alg p h m : hashes alg p h m -> wc_hash_final alg h = digest alg m }.

(** * MACs *)

Class WolfCryptHmac : Type := {
  Hmac : Type;
  wc_HmacSetKey : wc_HashType -> list byte -> Hmac;
  wc_HmacUpdate : Hmac -> list byte -> Hmac;
  wc_HmacFinal : Hmac -> list byte }.

Class WolfCryptHmacOk (D : WolfCryptDigest) (W : WolfCryptHmac) : Type := {
  hmac : wc_HashType -> list byte -> list byte -> list byte;
  hmac_spec h key parts :
    wc_HmacFinal (fold_left wc_HmacUpdate parts (wc_HmacSetKey h key)) = hmac h key (concat parts);
  hmac_length h key msg :
    0 < wc_HashGetDigestSize h -> zlen (hmac h key msg) = wc_HashGetDigestSize h }.

(** AES-CMAC; [wc_CmacFinal] gives at most as many bytes as it is asked for. *)
Class WolfCryptCmac : Type := {
  Cmac : Type;
  wc_InitCmac_ex : list byte -> Cmac;
  wc_CmacUpdate : Cmac -> list byte -> Cmac;
  wc_CmacFinal : Cmac -> Z -> list byte }.

Definition WC_AES_BLOCK_SIZE : Z := 16.

Class WolfCryptCmacOk (W : WolfCryptCmac) : Type := {
  cmac : list byte -> list byte -> list byte;
  cmac_spec key parts size :
    4 <= size <= WC_AES_BLOCK_SIZE ->
    wc_CmacFinal (fold_left wc_CmacUpdate parts (wc_InitCmac_ex key)) size
    = take (Z.to_nat size) (cmac key (concat parts));
  cmac_length key msg : zlen (cmac key msg) = WC_AES_BLOCK_SIZE }.

(** * Key derivation *)

(** The MAC identifiers of [wc_PRF_TLS] that the code names. *)
Inductive mac_algorithm : Set := no_mac | sha256_mac | sha384_mac | sha512_mac.

#[global] Instance mac_algorithm_eq_dec : EqDecision mac_algorithm.
Proof. solve_decision. Defined.

(** Lengths are the last arguments; [wc_PBKDF2_ex] takes the iteration count
    before it. *)
Class WolfCryptKdf : Type := {
  wc_HKDF_Extract_ex : wc_HashType -> list byte -> list byte -> list byte;
  wc_HKDF_Expand_ex : wc_HashType -> list byte -> list byte -> Z -> list byte;
  wc_PRF_TLS : mac_algorithm -> list byte -> list byte -> list byte -> Z -> list byte;
  wc_PBKDF2_ex : wc_HashType -> list byte -> list byte -> Z -> Z -> list byte }.

(** [f n] is the first [n] bytes of one stream. *)
Definition streaming (f : Z -> list byte) : Prop :=
  (forall n, 0 <= n -> zlen (f n) = n) /\
  (forall m n, 0 <= m <= n -> f m = take (Z.to_nat m) (f n)).

Class WolfCryptKdfOk (D : WolfCryptDigest) (W : WolfCryptKdf) : Prop := {
  max_digest_size : WC_MAX_DIGEST_SIZE <= 64;
  digest_size_max h : wc_HashGetDigestSize h <= WC_MAX_DIGEST_SIZE;
  extract_length h salt ikm :
    0 < wc_HashGetDigestSize h -> zlen (wc_HKDF_Extract_ex h salt ikm) = wc_HashGetDigestSize h;
  expand_streaming h prk info : streaming (wc_HKDF_Expand_ex h prk info);
  prf_streaming m secret label seed : streaming (wc_PRF_TLS m secret label seed);
  pbkdf2_streaming h password salt cost : streaming (wc_PBKDF2_ex h password salt cost) }.

(** * Extendable output *)

(** [wc_Shake]: [Absorb] takes the whole input once, [SqueezeBlocks] gives whole
    blocks; the algorithm selects SHAKE128 or SHAKE256. *)
Class WolfCryptShake : Type := {
  wc_Shake : Type;
  wc_InitShake : Z -> wc_Shake;
  wc_Shake_Absorb : Z -> wc_Shake -> list byte -> wc_Shake;
  wc_Shake_SqueezeBlocks : Z -> wc_Shake -> Z -> list byte * wc_Shake }.

(** [shake alg msg n] is the first [n] bytes of the output on [msg]; a context
    that has absorbed [msg] and given [k] blocks goes on from there. *)
Class WolfCryptShakeOk (W : WolfCryptShake) (rate : Z -> Z) : Type := {
  shake : Z -> list byte -> Z -> list byte;
  squeezed : Z -> wc_Shake -> list byte -> Z -> Prop;
  shake_streaming alg msg : streaming (shake alg msg);
  shake_absorb_spec alg msg : squeezed alg (wc_Shake_Absorb alg (wc_InitShake alg) msg) msg 0;
  shake_squeeze_spec alg s msg k n :
    squeezed alg s msg k -> 0 <= k -> 0 <= n ->
    let '(out, s') := wc_Shake_SqueezeBlocks alg s n in
    squeezed alg s' msg (k + n) /\
    shake alg msg (rate alg * (k + n)) = shake alg msg (rate alg * k) ++ out }.

(** * Diffie-Hellman *)

(** The shared secret of a private key and a peer's public key. *)
Class WolfCryptDh : Type := {
  wc_curve25519_shared_secret_ex : list byte -> list byte -> list byte;
  wc_curve448_shared_secret_ex : list byte -> list byte -> list byte;
  (** curve, private key, peer's point *)
  wc_ecc_shared_secret : Z -> list byte -> list byte -> list byte }.

(** * Streams *)

Lemma streaming_length f n : streaming f -> 0 <= n -> zlen (f n) = n.
Proof. intros [H _]. apply H. Qed.

Lemma streaming_prefix f m n : streaming f -> 0 <= m <= n -> f m = take (Z.to_nat m) (f n).
Proof. intros [_ H]. apply H. Qed.

(** Prefixes of one list are a stream as far as it goes. *)
Lemma take_take_prefix (l : list byte) m n :
  0 <= m <= n -> take (Z.to_nat m) l = take (Z.to_nat m) (take (Z.to_nat n) l).
Proof. intros. rewrite take_take. f_equal. lia. Qed.

(** A part of a stream does not depend on how far it was computed. *)
Lemma streaming_slice f m n k :
  streaming f -> 0 <= m -> 0 <= n -> m + n <= k -> slice (f k) m n = slice (f (m + n)) m n.
Proof.
  intros Hf Hm Hn Hk. rewrite (streaming_prefix f (m + n) k) by (done || lia).
  by rewrite slice_take by lia.
Qed.

(** Two parts in a row. *)
Lemma streaming_app f m a b :
  streaming f -> 0 <= m -> 0 <= a -> 0 <= b ->
  slice (f (m + (a + b))) m (a + b) = slice (f (m + a)) m a ++ slice (f (m + a + b)) (m + a) b.
Proof.
  intros Hf Hm Ha Hb. rewrite slice_app by done. f_equal; [by apply streaming_slice; (done || lia)|].
  by rewrite Z.add_assoc.
Qed.

(** What a computation adds to a prefix. *)
Lemma streaming_extend f m n out :
  streaming f -> 0 <= m -> 0 <= n -> f (m + n) = f m ++ out -> out = slice (f (m + n)) m n.
Proof.
  intros Hf Hm Hn Heq. pose proof (streaming_length f m Hf Hm) as Hlm.
  pose proof (streaming_length f (m + n) Hf ltac:(lia)) as Hlmn. rewrite Heq, zlen_app in Hlmn.
  rewrite Heq. unfold slice, zlen in *. rewrite drop_app_length' by lia. symmetry. apply take_ge. lia.
Qed.
