(* ===== verification/KeyPolicy.v ===== *)
(** Key policies ([src/psa_key_storage.c]): the usage flags, the algorithm a
    policy permits, and the intersection of two policies that
    [psa_copy_key] stores in the copy; and the checks that enforce a policy
    when a key is used for a MAC ([src/psa_mac.c]), a signature
    ([src/psa_asymmetric_api.c]) or an AEAD ([src/psa_aead.c]).

    [narrows x r] relates a policy to what the intersection makes of it
    ([alg_intersect_narrows]); for each check, a lemma says that what it admits
    under [r] it admits under [x], where that holds, and examples exhibit where it
    does not. *)

From stdpp Require Import base decidable list.
From Stdlib Require Import ZArith Lia.
From S2P Require Import Prelude.
From S2P Require Import Values.

#[local] Open Scope Z_scope.

(** * Usage flags *)

Definition wolfpsa_usage_mask : Z :=
  fold_left Z.lor
    [PSA_KEY_USAGE_COPY; PSA_KEY_USAGE_ENCRYPT; PSA_KEY_USAGE_DECRYPT;
     PSA_KEY_USAGE_SIGN_MESSAGE; PSA_KEY_USAGE_VERIFY_MESSAGE;
     PSA_KEY_USAGE_SIGN_HASH; PSA_KEY_USAGE_VERIFY_HASH; PSA_KEY_USAGE_DERIVE;
     PSA_KEY_USAGE_VERIFY_DERIVATION; PSA_KEY_USAGE_WRAP; PSA_KEY_USAGE_UNWRAP]
    PSA_KEY_USAGE_EXPORT.

Definition wolfpsa_usage_flags_valid (usage : Z) : bool :=
  Z.land usage (Z.lnot wolfpsa_usage_mask) =? 0.

(** * Length wildcards *)

Definition wolfpsa_tag_len_permitted (concrete_len min_len : Z) : bool :=
  if min_len =? 0 then concrete_len =? 0
  else (concrete_len =? 0) || (min_len <=? concrete_len).

Definition wolfpsa_tag_len_restrict (len_a len_b : Z) : Z :=
  if (len_a =? 0) || (len_b =? 0) then 0
  else if len_b <? len_a then len_a else len_b.

(** * Intersection of policies

    The result of the C function: [None] when it returns 0, otherwise the
    algorithm it stores. *)

Definition wolfpsa_alg_intersect (src_alg dst_alg : Z) : option Z :=
  if src_alg =? dst_alg then Some src_alg
  else if (Z.land src_alg (Z.lnot PSA_ALG_HASH_MASK) =? Z.land dst_alg (Z.lnot PSA_ALG_HASH_MASK))
          && PSA_ALG_IS_SIGN_HASH src_alg && PSA_ALG_IS_SIGN_HASH dst_alg then
    let src_hash := PSA_ALG_GET_HASH src_alg in
    let dst_hash := PSA_ALG_GET_HASH dst_alg in
    if xorb (src_hash =? PSA_ALG_ANY_HASH) (dst_hash =? PSA_ALG_ANY_HASH) then
      let concrete_hash := if src_hash =? PSA_ALG_ANY_HASH then dst_hash else src_hash in
      let ok := if negb (concrete_hash =? PSA_ALG_NONE) then true
                else Z.land src_alg (Z.lnot PSA_ALG_HASH_MASK)
                     =? PSA_ALG_RSA_PKCS1V15_SIGN_BASE in
      if ok then Some (if src_hash =? PSA_ALG_ANY_HASH then dst_alg else src_alg) else None
    else None
  else if PSA_ALG_IS_MAC src_alg && PSA_ALG_IS_MAC dst_alg
          && (PSA_ALG_FULL_LENGTH_MAC src_alg =? PSA_ALG_FULL_LENGTH_MAC dst_alg) then
    let src_len := PSA_MAC_TRUNCATED_LENGTH src_alg in
    let dst_len := PSA_MAC_TRUNCATED_LENGTH dst_alg in
    let src_wild := negb (Z.land src_alg PSA_ALG_MAC_AT_LEAST_THIS_LENGTH_FLAG =? 0) in
    let dst_wild := negb (Z.land dst_alg PSA_ALG_MAC_AT_LEAST_THIS_LENGTH_FLAG =? 0) in
    if src_wild && dst_wild then
      Some (PSA_ALG_AT_LEAST_THIS_LENGTH_MAC src_alg (wolfpsa_tag_len_restrict src_len dst_len))
    else if src_wild then
      if wolfpsa_tag_len_permitted dst_len src_len then Some dst_alg else None
    else if dst_wild then
      if wolfpsa_tag_len_permitted src_len dst_len then Some src_alg else None
    else None
  else if PSA_ALG_IS_AEAD src_alg && PSA_ALG_IS_AEAD dst_alg
          && (PSA_ALG_AEAD_WITH_SHORTENED_TAG src_alg 0
              =? PSA_ALG_AEAD_WITH_SHORTENED_TAG dst_alg 0) then
    let src_len := PSA_ALG_AEAD_GET_TAG_LENGTH src_alg in
    let dst_len := PSA_ALG_AEAD_GET_TAG_LENGTH dst_alg in
    let src_wild := negb (Z.land src_alg PSA_ALG_AEAD_AT_LEAST_THIS_LENGTH_FLAG =? 0) in
    let dst_wild := negb (Z.land dst_alg PSA_ALG_AEAD_AT_LEAST_THIS_LENGTH_FLAG =? 0) in
    if src_wild && dst_wild then
      Some (PSA_ALG_AEAD_WITH_AT_LEAST_THIS_LENGTH_TAG src_alg
              (wolfpsa_tag_len_restrict src_len dst_len))
    else if src_wild then
      if wolfpsa_tag_len_permitted dst_len src_len then Some dst_alg else None
    else if dst_wild then
      if wolfpsa_tag_len_permitted src_len dst_len then Some src_alg else None
    else None
  else None.

(** As [wolfpsa_alg_intersect], but [alg2] unset on either side is dropped. *)
Definition wolfpsa_alg2_intersect (src_alg dst_alg : Z) : option Z :=
  if (src_alg =? PSA_ALG_NONE) || (dst_alg =? PSA_ALG_NONE) then Some PSA_ALG_NONE
  else wolfpsa_alg_intersect src_alg dst_alg.

Lemma len_put_range s n :
  0 <= s < 2 ^ 32 ->
  0 <= PSA_ALG_AT_LEAST_THIS_LENGTH_MAC s n < 2 ^ 32 /\
  0 <= PSA_ALG_AEAD_WITH_AT_LEAST_THIS_LENGTH_TAG s n < 2 ^ 32.
Proof.
  intros Hs. unfold PSA_ALG_AT_LEAST_THIS_LENGTH_MAC, PSA_ALG_TRUNCATED_MAC,
    PSA_ALG_AEAD_WITH_AT_LEAST_THIS_LENGTH_TAG, PSA_ALG_AEAD_WITH_SHORTENED_TAG.
  split; (apply range_lor; [done|apply range_lor; [done|by apply range_land|]|done]);
    rewrite Z.land_comm; by apply range_land.
Qed.

Lemma alg_intersect_range s d r :
  0 <= s < 2 ^ 32 -> 0 <= d < 2 ^ 32 -> wolfpsa_alg_intersect s d = Some r -> 0 <= r < 2 ^ 32.
Proof.
  intros Hs Hd. unfold wolfpsa_alg_intersect. intros H. repeat case_match; simplify_eq; try done;
    by apply len_put_range.
Qed.

Lemma alg2_intersect_range s d r :
  0 <= s < 2 ^ 32 -> 0 <= d < 2 ^ 32 -> wolfpsa_alg2_intersect s d = Some r -> 0 <= r < 2 ^ 32.
Proof.
  intros Hs Hd. unfold wolfpsa_alg2_intersect. destruct (_ || _); [by intros [= <-]|].
  by apply alg_intersect_range.
Qed.

(** * Permission *)

Definition wolfpsa_policy_alg_permits (key_alg alg : Z) : bool :=
  if key_alg =? PSA_ALG_NONE then false
  else if key_alg =? alg then true
  else PSA_ALG_IS_SIGN_HASH alg &&
       (PSA_ALG_SIGN_GET_HASH key_alg =? PSA_ALG_ANY_HASH) &&
       negb (PSA_ALG_SIGN_GET_HASH alg =? PSA_ALG_ANY_HASH) &&
       (Z.land key_alg (Z.lnot PSA_ALG_HASH_MASK) =? Z.land alg (Z.lnot PSA_ALG_HASH_MASK)).

Definition wolfpsa_key_permits_alg (attributes : psa_key_attributes_t) (alg : Z) : bool :=
  wolfpsa_policy_alg_permits (psa_get_key_algorithm attributes) alg ||
  wolfpsa_policy_alg_permits (psa_get_key_enrollment_algorithm attributes) alg.

(** [wolfpsa_mac_alg_permitted] of [psa_mac.c]. *)
Definition wolfpsa_mac_alg_permitted (attributes : psa_key_attributes_t)
    (key_alg alg : Z) : bool :=
  if (key_alg =? PSA_ALG_NONE)
     || negb (PSA_ALG_FULL_LENGTH_MAC key_alg =? PSA_ALG_FULL_LENGTH_MAC alg)
  then false
  else
    let req_length := PSA_MAC_LENGTH (attr_type attributes) (attr_bits attributes) alg in
    let min_length :=
      if PSA_MAC_TRUNCATED_LENGTH key_alg =? 0
      then PSA_MAC_LENGTH (attr_type attributes) (attr_bits attributes)
                          (PSA_ALG_FULL_LENGTH_MAC key_alg)
      else PSA_MAC_TRUNCATED_LENGTH key_alg in
    if negb (Z.land key_alg PSA_ALG_MAC_AT_LEAST_THIS_LENGTH_FLAG =? 0)
    then min_length <=? req_length
    else req_length =? min_length.

Definition PSA_ALG_ECDSA_DETERMINISTIC_FLAG : Z := 0x00000100.
Definition PSA_ALG_IS_ECDSA (alg : Z) : bool :=
  Z.land (Z.land alg (Z.lnot PSA_ALG_HASH_MASK)) (Z.lnot PSA_ALG_ECDSA_DETERMINISTIC_FLAG)
  =? PSA_ALG_ECDSA_BASE.
Definition PSA_ALG_IS_HASH_ML_DSA (alg : Z) : bool :=
  Z.land alg (Z.lnot 0x000001ff) =? 0x06004600.

(** [wolfpsa_sign_alg_permitted] of [psa_asymmetric_api.c]. *)
Definition wolfpsa_sign_alg_permitted (key_alg alg requested_usage : Z) : bool :=
  if key_alg =? alg then true
  else if PSA_ALG_IS_SIGN_HASH alg &&
          (PSA_ALG_SIGN_GET_HASH key_alg =? PSA_ALG_ANY_HASH) &&
          negb (PSA_ALG_SIGN_GET_HASH alg =? PSA_ALG_ANY_HASH) &&
          (Z.land key_alg (Z.lnot PSA_ALG_HASH_MASK) =? Z.land alg (Z.lnot PSA_ALG_HASH_MASK))
  then true
  else if negb (Z.land requested_usage (Z.lor PSA_KEY_USAGE_VERIFY_HASH
                                              PSA_KEY_USAGE_VERIFY_MESSAGE) =? 0) then
    (PSA_ALG_IS_ECDSA alg && PSA_ALG_IS_ECDSA key_alg &&
     (PSA_ALG_GET_HASH alg =? PSA_ALG_GET_HASH key_alg) &&
     negb (PSA_ALG_GET_HASH alg =? PSA_ALG_NONE)) ||
    (PSA_ALG_IS_HASH_ML_DSA alg && PSA_ALG_IS_HASH_ML_DSA key_alg &&
     negb (PSA_ALG_GET_HASH alg =? PSA_ALG_ANY_HASH) &&
     ((PSA_ALG_GET_HASH key_alg =? PSA_ALG_ANY_HASH) ||
      (PSA_ALG_GET_HASH key_alg =? PSA_ALG_GET_HASH alg)))
  else false.

Definition PSA_ALG_XCHACHA20_POLY1305 : Z := 0x05100600.
Definition PSA_ALG_ASCON_AEAD128 : Z := 0x05100700.
Definition PSA_ALG_AEAD_WITH_DEFAULT_LENGTH_TAG (aead_alg : Z) : Z :=
  let same ref := PSA_ALG_AEAD_WITH_SHORTENED_TAG aead_alg 0
                  =? PSA_ALG_AEAD_WITH_SHORTENED_TAG ref 0 in
  if same PSA_ALG_CCM then PSA_ALG_CCM
  else if same PSA_ALG_GCM then PSA_ALG_GCM
  else if same PSA_ALG_CHACHA20_POLY1305 then PSA_ALG_CHACHA20_POLY1305
  else if same PSA_ALG_XCHACHA20_POLY1305 then PSA_ALG_XCHACHA20_POLY1305
  else if same PSA_ALG_ASCON_AEAD128 then PSA_ALG_ASCON_AEAD128
  else 0.

(** [wolfpsa_aead_alg_permitted] of [psa_aead.c]. *)
Definition wolfpsa_aead_alg_permitted (key_alg alg : Z) : bool :=
  let key_tag_len := PSA_ALG_AEAD_GET_TAG_LENGTH key_alg in
  let req_tag_len := PSA_ALG_AEAD_GET_TAG_LENGTH alg in
  if (key_tag_len =? 0) || negb (PSA_ALG_AEAD_WITH_DEFAULT_LENGTH_TAG key_alg
                                 =? PSA_ALG_AEAD_WITH_DEFAULT_LENGTH_TAG alg)
  then false
  else if negb (Z.land key_alg PSA_ALG_AEAD_AT_LEAST_THIS_LENGTH_FLAG =? 0)
  then key_tag_len <=? req_tag_len
  else req_tag_len =? key_tag_len.

(** * The length field

    MAC and AEAD algorithms carry the same length field and the same wildcard
    flag; the lemmas are stated once, on the field. *)

Definition len_field (alg : Z) : Z := Z.shiftr (Z.land alg (field_mask 16 6)) 16.
Definition len_base (alg : Z) : Z :=
  Z.land alg (Z.lnot (Z.lor (field_mask 16 6) (field_mask 15 1))).
Definition len_wild (alg : Z) : bool := negb (Z.land alg (field_mask 15 1) =? 0).
Definition len_put (alg n : Z) : Z :=
  Z.lor (len_base alg) (Z.land (Z.shiftl n 16) (field_mask 16 6)).
Definition len_put_wild (alg n : Z) : Z := Z.lor (len_put alg n) (field_mask 15 1).

Lemma len_field_range alg : 0 <= len_field alg < 64.
Proof.
  unfold len_field. rewrite Z.shiftr_land.
  replace (Z.shiftr (field_mask 16 6) 16) with (Z.ones 6) by reflexivity.
  rewrite Z.land_ones by lia. apply Z.mod_pos_bound. lia.
Qed.

Lemma len_put_0 alg : len_put alg 0 = len_base alg.
Proof. unfold len_put. rewrite Z.shiftl_0_l, Z.land_0_l. apply Z.lor_0_r. Qed.

Lemma len_field_put_wild alg n : 0 <= n < 64 -> len_field (len_put_wild alg n) = n.
Proof.
  intros Hn. unfold len_field, len_put_wild, len_put, len_base. zbits.
  - rewrite ?andb_true_r, ?andb_false_r, ?orb_false_r. simpl. f_equal. lia.
  - rewrite (field_small_testbit n 6) by lia.
    rewrite ?andb_false_r. done.
Qed.

Lemma len_base_put_wild alg n : len_base (len_put_wild alg n) = len_base alg.
Proof. unfold len_put_wild, len_put, len_base. zbits. Qed.

Lemma len_wild_put_wild alg n : len_wild (len_put_wild alg n) = true.
Proof.
  unfold len_wild. apply negb_true_iff, Z.eqb_neq. intros H.
  assert (Ht : Z.testbit (Z.land (len_put_wild alg n) (field_mask 15 1)) 15 = false)
    by (rewrite H; apply Z.bits_0).
  revert Ht. unfold len_put_wild. zbits_push. simpl. by rewrite orb_true_r.
Qed.

(** The length-field branch of the intersection, for a pair of algorithms of
    one base family. *)
Definition len_intersect (s d : Z) : option Z :=
  if len_wild s && len_wild d then
    Some (len_put_wild s (wolfpsa_tag_len_restrict (len_field s) (len_field d)))
  else if len_wild s then
    if wolfpsa_tag_len_permitted (len_field d) (len_field s) then Some d else None
  else if len_wild d then
    if wolfpsa_tag_len_permitted (len_field s) (len_field d) then Some s else None
  else None.

Lemma alg_intersect_mac s d :
  PSA_ALG_IS_MAC s = true ->
  wolfpsa_alg_intersect s d =
    if s =? d then Some s
    else if PSA_ALG_IS_MAC d && (len_base s =? len_base d) then len_intersect s d
    else None.
Proof.
  intros Hs. unfold wolfpsa_alg_intersect.
  assert (PSA_ALG_IS_SIGN_HASH s = false) as ->.
  { unfold PSA_ALG_IS_SIGN_HASH, PSA_ALG_IS_SIGN, PSA_ALG_IS_MAC in *.
    apply Z.eqb_eq in Hs. by rewrite Hs. }
  assert (PSA_ALG_IS_AEAD s = false) as ->.
  { unfold PSA_ALG_IS_AEAD, PSA_ALG_IS_MAC in *. apply Z.eqb_eq in Hs. by rewrite Hs. }
  rewrite Hs, andb_false_r. reflexivity.
Qed.

Lemma alg_intersect_aead s d :
  PSA_ALG_IS_AEAD s = true ->
  wolfpsa_alg_intersect s d =
    if s =? d then Some s
    else if PSA_ALG_IS_AEAD d && (len_base s =? len_base d) then len_intersect s d
    else None.
Proof.
  intros Hs. unfold wolfpsa_alg_intersect.
  assert (PSA_ALG_IS_SIGN_HASH s = false) as ->.
  { unfold PSA_ALG_IS_SIGN_HASH, PSA_ALG_IS_SIGN, PSA_ALG_IS_AEAD in *.
    apply Z.eqb_eq in Hs. by rewrite Hs. }
  assert (PSA_ALG_IS_MAC s = false) as ->.
  { unfold PSA_ALG_IS_MAC, PSA_ALG_IS_AEAD in *. apply Z.eqb_eq in Hs. by rewrite Hs. }
  rewrite Hs, andb_false_r. unfold PSA_ALG_AEAD_WITH_SHORTENED_TAG.
  rewrite Z.shiftl_0_l, Z.land_0_l, !Z.lor_0_r. reflexivity.
Qed.

Lemma tag_len_restrict_range a b :
  0 <= a < 64 -> 0 <= b < 64 -> 0 <= wolfpsa_tag_len_restrict a b < 64.
Proof. unfold wolfpsa_tag_len_restrict. intros. repeat case_match; lia. Qed.

Lemma len_intersect_base s d r :
  len_base s = len_base d -> len_intersect s d = Some r -> len_base r = len_base s.
Proof.
  unfold len_intersect. intros Hb H. repeat case_match; simplify_eq; try done.
  apply len_base_put_wild.
Qed.

(** The enforcement check of a length policy: a minimum length [full] stands
    for the full length when the field is zero. *)
Definition len_permits (full key req : Z) : bool :=
  let m := if len_field key =? 0 then full else len_field key in
  if len_wild key then m <=? req else req =? m.

Lemma len_intersect_sound full s d r req :
  len_intersect s d = Some r -> len_permits full r req = true ->
  (len_field s <= full -> len_permits full s req = true) /\
  (len_field d <= full -> len_permits full d req = true).
Proof.
  unfold len_intersect. intros H Hp.
  pose proof (len_field_range s). pose proof (len_field_range d).
  destruct (len_wild s) eqn:Ws, (len_wild d) eqn:Wd; simpl in H; simplify_eq.
  - revert Hp. unfold len_permits.
    rewrite len_wild_put_wild, len_field_put_wild by (by apply tag_len_restrict_range).
    rewrite Ws, Wd. unfold wolfpsa_tag_len_restrict. repeat case_match; lia.
  - destruct (wolfpsa_tag_len_permitted _ _) eqn:Hperm in H; simplify_eq.
    split; [|done]. revert Hp Hperm. unfold wolfpsa_tag_len_permitted, len_permits.
    rewrite Ws, Wd. repeat case_match; lia.
  - destruct (wolfpsa_tag_len_permitted _ _) eqn:Hperm in H; simplify_eq.
    split; [done|]. revert Hp Hperm. unfold wolfpsa_tag_len_permitted, len_permits.
    rewrite Ws, Wd. repeat case_match; lia.
Qed.

Definition mac_full (attributes : psa_key_attributes_t) (alg : Z) : Z :=
  PSA_MAC_LENGTH (attr_type attributes) (attr_bits attributes) (PSA_ALG_FULL_LENGTH_MAC alg).

Lemma mac_permitted_unfold at_ k a :
  wolfpsa_mac_alg_permitted at_ k a =
    negb (k =? PSA_ALG_NONE) && (len_base k =? len_base a) &&
    len_permits (mac_full at_ k) k (PSA_MAC_LENGTH (attr_type at_) (attr_bits at_) a).
Proof.
  unfold wolfpsa_mac_alg_permitted.
  change (PSA_ALG_FULL_LENGTH_MAC k) with (len_base k).
  change (PSA_ALG_FULL_LENGTH_MAC a) with (len_base a).
  destruct (k =? PSA_ALG_NONE); [done|]. by destruct (len_base k =? len_base a).
Qed.

Lemma is_mac_nonzero k : PSA_ALG_IS_MAC k = true -> k <> PSA_ALG_NONE.
Proof. by intros H ->. Qed.

(** A minimum length above the full length of the MAC makes the full-length MAC a
    gain of the copy. *)
Example mac_copy_widens_above_full :
  let at_ := mkAttributes PSA_KEY_TYPE_HMAC 256 0 PSA_KEY_POLICY_INIT 0 in
  let full := PSA_ALG_HMAC PSA_ALG_SHA_256 in
  let s := PSA_ALG_AT_LEAST_THIS_LENGTH_MAC full 40 in
  wolfpsa_alg_intersect s full = Some full /\
  wolfpsa_mac_alg_permitted at_ full full = true /\
  wolfpsa_mac_alg_permitted at_ s full = false.
Proof. by vm_compute. Qed.

Lemma default_tag_base k a :
  len_base k = len_base a ->
  PSA_ALG_AEAD_WITH_DEFAULT_LENGTH_TAG k = PSA_ALG_AEAD_WITH_DEFAULT_LENGTH_TAG a.
Proof.
  intros H. unfold PSA_ALG_AEAD_WITH_DEFAULT_LENGTH_TAG, PSA_ALG_AEAD_WITH_SHORTENED_TAG.
  change (Z.land k _) with (len_base k). change (Z.land a _) with (len_base a).
  by rewrite H.
Qed.

(** The AEAD check takes a zero field as "never". *)
Lemma aead_permitted_unfold k a :
  wolfpsa_aead_alg_permitted k a =
    negb (len_field k =? 0) &&
    (PSA_ALG_AEAD_WITH_DEFAULT_LENGTH_TAG k =? PSA_ALG_AEAD_WITH_DEFAULT_LENGTH_TAG a) &&
    len_permits 64 k (len_field a).
Proof.
  unfold wolfpsa_aead_alg_permitted, len_permits.
  change (PSA_ALG_AEAD_GET_TAG_LENGTH k) with (len_field k).
  change (PSA_ALG_AEAD_GET_TAG_LENGTH a) with (len_field a).
  change (negb (Z.land k PSA_ALG_AEAD_AT_LEAST_THIS_LENGTH_FLAG =? 0)) with (len_wild k).
  destruct (len_field k =? 0); [done|]. simpl.
  by destruct (PSA_ALG_AEAD_WITH_DEFAULT_LENGTH_TAG k =? _).
Qed.

Lemma len_intersect_nonzero s d r :
  len_intersect s d = Some r -> len_field r <> 0 -> len_field s <> 0 /\ len_field d <> 0.
Proof.
  unfold len_intersect. intros H Hr.
  pose proof (len_field_range s). pose proof (len_field_range d).
  repeat case_match; simplify_eq.
  - rewrite len_field_put_wild in Hr by (by apply tag_len_restrict_range).
    revert Hr. unfold wolfpsa_tag_len_restrict. repeat case_match; lia.
  - split; [|done]. unfold wolfpsa_tag_len_permitted in *. repeat case_match; lia.
  - split; [done|]. unfold wolfpsa_tag_len_permitted in *. repeat case_match; lia.
Qed.

(** * Signature policies *)

Lemma sign_get_hash_eq x :
  PSA_ALG_IS_SIGN_HASH x = true -> PSA_ALG_SIGN_GET_HASH x = PSA_ALG_GET_HASH x.
Proof.
  intros H. unfold PSA_ALG_SIGN_GET_HASH, PSA_ALG_IS_HASH_AND_SIGN, PSA_ALG_GET_HASH.
  rewrite H. change 0x000000ff with PSA_ALG_HASH_MASK. simpl.
  destruct (Z.land x PSA_ALG_HASH_MASK =? 0); [done|]. simpl. apply Z.lor_comm.
Qed.

(** The hash branch: one side is the wildcard of the other. *)
Lemma alg_intersect_sign s d r :
  PSA_ALG_IS_SIGN_HASH s = true -> s <> d ->
  wolfpsa_alg_intersect s d = Some r ->
  exists w, PSA_ALG_IS_SIGN_HASH r = true /\ PSA_ALG_IS_SIGN_HASH w = true /\
    Z.land w (Z.lnot PSA_ALG_HASH_MASK) = Z.land r (Z.lnot PSA_ALG_HASH_MASK) /\
    PSA_ALG_GET_HASH w = PSA_ALG_ANY_HASH /\ PSA_ALG_GET_HASH r <> PSA_ALG_ANY_HASH /\
    ((s = w /\ d = r) \/ (s = r /\ d = w)).
Proof.
  intros Hs Hne H. unfold wolfpsa_alg_intersect in H.
  rewrite (proj2 (Z.eqb_neq _ _) Hne) in H.
  assert (PSA_ALG_IS_MAC s = false /\ PSA_ALG_IS_AEAD s = false) as [Hm Ha].
  { unfold PSA_ALG_IS_SIGN_HASH, PSA_ALG_IS_SIGN, PSA_ALG_IS_MAC, PSA_ALG_IS_AEAD in *.
    rewrite !andb_true_iff in Hs. destruct Hs as [[Hs _] _]. apply Z.eqb_eq in Hs.
    by rewrite Hs. }
  rewrite Hs, Hm, Ha, andb_true_r in H. cbn [andb] in H.
  destruct (_ && _) eqn:Hc in H; [|done]. apply andb_true_iff in Hc as [Hb Hd].
  apply Z.eqb_eq in Hb. cbv zeta in H.
  destruct (Z.eqb_spec (PSA_ALG_GET_HASH s) PSA_ALG_ANY_HASH) as [Es|Es],
           (Z.eqb_spec (PSA_ALG_GET_HASH d) PSA_ALG_ANY_HASH) as [Ed|Ed];
    cbn [xorb] in H; try done.
  - exists s. repeat case_match; simplify_eq; eauto 10.
  - exists d. repeat case_match; simplify_eq; eauto 10.
Qed.

Lemma wildcard_permits w r u :
  PSA_ALG_IS_SIGN_HASH r = true -> PSA_ALG_IS_SIGN_HASH w = true ->
  Z.land w (Z.lnot PSA_ALG_HASH_MASK) = Z.land r (Z.lnot PSA_ALG_HASH_MASK) ->
  PSA_ALG_GET_HASH w = PSA_ALG_ANY_HASH -> PSA_ALG_GET_HASH r <> PSA_ALG_ANY_HASH ->
  wolfpsa_sign_alg_permitted w r u = true.
Proof.
  intros Hr Hw Hb Hwa Hra. unfold wolfpsa_sign_alg_permitted.
  rewrite !sign_get_hash_eq, Hr, Hwa, Hb, Z.eqb_refl by done.
  rewrite (proj2 (Z.eqb_neq _ _) Hra), Z.eqb_refl. by destruct (w =? r).
Qed.

Lemma concrete_permits_only_itself r a u :
  PSA_ALG_IS_SIGN_HASH r = true -> PSA_ALG_GET_HASH r <> PSA_ALG_ANY_HASH ->
  Z.land u (Z.lor PSA_KEY_USAGE_VERIFY_HASH PSA_KEY_USAGE_VERIFY_MESSAGE) = 0 ->
  wolfpsa_sign_alg_permitted r a u = true -> a = r.
Proof.
  intros Hr Hra Hu. unfold wolfpsa_sign_alg_permitted.
  rewrite Hu. cbn [negb Z.eqb]. rewrite (sign_get_hash_eq r) by done.
  rewrite (proj2 (Z.eqb_neq _ _) Hra), andb_false_r. cbn [andb].
  destruct (Z.eqb_spec r a); done.
Qed.

(** * No wider policy

    [narrows x r]: [r] is [x], or [x] with a hash named where [x] has the
    wildcard, or [x] with a tighter length field. *)

Inductive narrows (x r : Z) : Prop :=
| narrows_same : r = x -> narrows x r
| narrows_hash :
    PSA_ALG_IS_SIGN_HASH x = true -> PSA_ALG_IS_SIGN_HASH r = true ->
    Z.land x (Z.lnot PSA_ALG_HASH_MASK) = Z.land r (Z.lnot PSA_ALG_HASH_MASK) ->
    PSA_ALG_GET_HASH x = PSA_ALG_ANY_HASH -> PSA_ALG_GET_HASH r <> PSA_ALG_ANY_HASH ->
    narrows x r
| narrows_length :
    (PSA_ALG_IS_MAC r = true \/ PSA_ALG_IS_AEAD r = true) -> x <> PSA_ALG_NONE ->
    len_base r = len_base x -> (len_field r <> 0 -> len_field x <> 0) ->
    (forall full req, len_permits full r req = true -> len_field x <= full ->
      len_permits full x req = true) ->
    narrows x r.

(** The category survives the erasure of the length field. *)
Lemma category_len_base x :
  Z.land (len_base x) PSA_ALG_CATEGORY_MASK = Z.land x PSA_ALG_CATEGORY_MASK.
Proof. unfold len_base. rewrite <- Z.land_assoc. reflexivity. Qed.

Lemma is_mac_base x y : len_base x = len_base y -> PSA_ALG_IS_MAC x = PSA_ALG_IS_MAC y.
Proof. intros H. unfold PSA_ALG_IS_MAC. by rewrite <- (category_len_base x), <- (category_len_base y), H. Qed.

Lemma is_aead_base x y : len_base x = len_base y -> PSA_ALG_IS_AEAD x = PSA_ALG_IS_AEAD y.
Proof. intros H. unfold PSA_ALG_IS_AEAD. by rewrite <- (category_len_base x), <- (category_len_base y), H. Qed.

Lemma length_narrows s d r :
  (PSA_ALG_IS_MAC s = true \/ PSA_ALG_IS_AEAD s = true) -> s <> PSA_ALG_NONE -> d <> PSA_ALG_NONE ->
  len_base s = len_base d -> len_intersect s d = Some r -> narrows s r /\ narrows d r.
Proof.
  intros Hcat Hs Hd Hb Hint. pose proof (len_intersect_base _ _ _ Hb Hint) as Hbr.
  assert (PSA_ALG_IS_MAC r = true \/ PSA_ALG_IS_AEAD r = true)
    by (by rewrite (is_mac_base r s), (is_aead_base r s)).
  pose proof (len_intersect_nonzero _ _ _ Hint) as Hnz.
  split; apply narrows_length; try done; try congruence; try tauto;
    intros full req Hp; by apply (len_intersect_sound full s d r req Hint Hp).
Qed.

(** The intersection narrows both policies. *)
Lemma alg_intersect_narrows s d r :
  wolfpsa_alg_intersect s d = Some r -> narrows s r /\ narrows d r.
Proof.
  intros H. destruct (decide (s = d)) as [->|Hne].
  { unfold wolfpsa_alg_intersect in H. rewrite Z.eqb_refl in H. simplify_eq.
    split; by apply narrows_same. }
  destruct (PSA_ALG_IS_SIGN_HASH s) eqn:Hs.
  { destruct (alg_intersect_sign s d r Hs Hne H) as (w & Hrs & Hw & Hb & Hwa & Hra & Hcase).
    pose proof (narrows_hash w r Hw Hrs Hb Hwa Hra). pose proof (narrows_same r r eq_refl).
    by destruct Hcase as [[-> ->]|[-> ->]]. }
  destruct (PSA_ALG_IS_MAC s) eqn:Hm.
  { rewrite alg_intersect_mac, (proj2 (Z.eqb_neq _ _) Hne) in H by done.
    destruct (PSA_ALG_IS_MAC d) eqn:Hd; [|done]. simpl in H.
    destruct (Z.eqb_spec (len_base s) (len_base d)); [|done].
    apply length_narrows; try done; [by left|by intros ->..]. }
  destruct (PSA_ALG_IS_AEAD s) eqn:Ha.
  { rewrite alg_intersect_aead, (proj2 (Z.eqb_neq _ _) Hne) in H by done.
    destruct (PSA_ALG_IS_AEAD d) eqn:Hd; [|done]. simpl in H.
    destruct (Z.eqb_spec (len_base s) (len_base d)); [|done].
    apply length_narrows; try done; [by right|by intros ->..]. }
  unfold wolfpsa_alg_intersect in H.
  by rewrite (proj2 (Z.eqb_neq _ _) Hne), Hs, Hm, Ha, andb_false_r in H.
Qed.

Lemma alg2_intersect_narrows s d r :
  wolfpsa_alg2_intersect s d = Some r -> r = PSA_ALG_NONE \/ (narrows s r /\ narrows d r).
Proof.
  unfold wolfpsa_alg2_intersect. destruct (_ || _); [by left; simplify_eq|].
  intros H. right. by apply alg_intersect_narrows.
Qed.

Lemma narrows_none x r : narrows x r -> r <> PSA_ALG_NONE -> x <> PSA_ALG_NONE.
Proof. by intros [->|H _ _ _ _|_ H _ _ _] Hr ->. Qed.

(** ** Each check admits under the narrower policy what it admits under the wider *)

(** A MAC: the shortest length that the policy names must not exceed the MAC. *)
Definition mac_minimum_fits (at_ : psa_key_attributes_t) (k : Z) : Prop :=
  PSA_ALG_IS_MAC k = true -> PSA_MAC_TRUNCATED_LENGTH k <= mac_full at_ k.

Lemma narrows_mac at_ x r a :
  PSA_ALG_IS_MAC a = true -> mac_minimum_fits at_ x -> narrows x r ->
  wolfpsa_mac_alg_permitted at_ r a = true -> wolfpsa_mac_alg_permitted at_ x a = true.
Proof.
  intros Ha Hfit Hn. rewrite !mac_permitted_unfold, !andb_true_iff, !negb_true_iff, !Z.eqb_eq, !Z.eqb_neq.
  intros [[Hr Hba] Hp]. rewrite <- (is_mac_base r a Hba) in Ha.
  destruct Hn as [->|_ Hsr _ _ _|_ Hx Hb _ Hlen]; [done| |].
  - exfalso. unfold PSA_ALG_IS_SIGN_HASH, PSA_ALG_IS_SIGN, PSA_ALG_IS_MAC in *.
    rewrite !andb_true_iff in Hsr. destruct Hsr as [[Hc _] _]. apply Z.eqb_eq in Hc, Ha.
    by rewrite Hc in Ha.
  - assert (mac_full at_ x = mac_full at_ r) as Hf.
    { unfold mac_full. change (PSA_ALG_FULL_LENGTH_MAC x) with (len_base x).
      change (PSA_ALG_FULL_LENGTH_MAC r) with (len_base r). by rewrite Hb. }
    split_and!; [done|congruence|]. rewrite Hf. apply Hlen; [done|]. rewrite <- Hf. apply Hfit.
    by rewrite <- (is_mac_base r x Hb).
Qed.

Lemma default_tag_aead x : PSA_ALG_IS_AEAD x = false -> PSA_ALG_AEAD_WITH_DEFAULT_LENGTH_TAG x = 0.
Proof.
  intros H. assert (Hne : forall ref, PSA_ALG_IS_AEAD ref = true ->
    (PSA_ALG_AEAD_WITH_SHORTENED_TAG x 0 =? PSA_ALG_AEAD_WITH_SHORTENED_TAG ref 0) = false).
  { intros ref Hr. apply Z.eqb_neq. unfold PSA_ALG_AEAD_WITH_SHORTENED_TAG.
    rewrite Z.shiftl_0_l, Z.land_0_l, !Z.lor_0_r. intros Hb.
    rewrite <- (is_aead_base x ref Hb) in Hr. congruence. }
  unfold PSA_ALG_AEAD_WITH_DEFAULT_LENGTH_TAG. by rewrite !Hne by reflexivity.
Qed.

(** The hash is no part of the length field. *)
Lemma len_field_same_base x r :
  Z.land x (Z.lnot PSA_ALG_HASH_MASK) = Z.land r (Z.lnot PSA_ALG_HASH_MASK) ->
  len_field x = len_field r /\ len_wild x = len_wild r.
Proof.
  intros H. split.
  - unfold len_field. change (field_mask 16 6) with (Z.land (Z.lnot PSA_ALG_HASH_MASK) (field_mask 16 6)).
    by rewrite !Z.land_assoc, H.
  - unfold len_wild. change (field_mask 15 1) with (Z.land (Z.lnot PSA_ALG_HASH_MASK) (field_mask 15 1)).
    by rewrite !Z.land_assoc, H.
Qed.

Lemma sign_hash_not_aead x : PSA_ALG_IS_SIGN_HASH x = true -> PSA_ALG_IS_AEAD x = false.
Proof.
  unfold PSA_ALG_IS_SIGN_HASH, PSA_ALG_IS_SIGN, PSA_ALG_IS_AEAD. rewrite !andb_true_iff.
  intros [[Hc _] _]. apply Z.eqb_eq in Hc. by rewrite Hc.
Qed.

Lemma narrows_aead x r a :
  narrows x r -> wolfpsa_aead_alg_permitted r a = true -> wolfpsa_aead_alg_permitted x a = true.
Proof.
  rewrite !aead_permitted_unfold, !andb_true_iff, !negb_true_iff, !Z.eqb_eq, !Z.eqb_neq.
  intros Hn [[Hnz Hd] Hp]. destruct Hn as [->|Hx Hr Hb _ _|_ _ Hb Hz Hlen]; [done| |].
  - destruct (len_field_same_base x r Hb) as [Hf Hw]. unfold len_permits in *.
    rewrite Hf, Hw, <- Hd, !default_tag_aead by (by apply sign_hash_not_aead). done.
  - pose proof (len_field_range x). split_and!; [by apply Hz| |apply Hlen; [done|lia]].
    by rewrite <- Hd, (default_tag_base x r).
Qed.

(** Every other algorithm: the policy must name it, or its family with any hash. *)
Lemma narrows_named x r a :
  PSA_ALG_IS_MAC a = false -> PSA_ALG_IS_AEAD a = false -> narrows x r ->
  wolfpsa_policy_alg_permits r a = true -> wolfpsa_policy_alg_permits x a = true.
Proof.
  intros Hm Ha Hn Hp. destruct Hn as [->|Hx Hr Hb Hxa Hra|Hcat _ _ _ _]; [done| |];
    revert Hp; unfold wolfpsa_policy_alg_permits at 1;
    (destruct (r =? PSA_ALG_NONE); [done|]); destruct (Z.eqb_spec r a) as [<-|_].
  - intros _. unfold wolfpsa_policy_alg_permits.
    destruct (Z.eqb_spec x PSA_ALG_NONE) as [->|_]; [done|].
    rewrite !sign_get_hash_eq, Hr, Hxa, Hb, Z.eqb_refl by done.
    rewrite (proj2 (Z.eqb_neq _ _) Hra), Z.eqb_refl. by destruct (x =? r).
  - by rewrite (sign_get_hash_eq r), (proj2 (Z.eqb_neq _ _) Hra), andb_false_r by done.
  - destruct Hcat; congruence.
  - assert (PSA_ALG_SIGN_GET_HASH r = 0) as ->; [|by rewrite andb_false_r].
    unfold PSA_ALG_SIGN_GET_HASH, PSA_ALG_IS_HASH_AND_SIGN, PSA_ALG_IS_SIGN_HASH, PSA_ALG_IS_SIGN,
      PSA_ALG_IS_MAC, PSA_ALG_IS_AEAD in *. by destruct Hcat as [Hc|Hc]; apply Z.eqb_eq in Hc; rewrite Hc.
Qed.

(** A signature: what else verifies under the narrower policy is the ECDSA
    algorithm that differs from an admitted one in the determinism bit. *)
Definition ecdsa_twin (a a' : Z) : Prop :=
  PSA_ALG_IS_ECDSA a = true /\
  Z.land a (Z.lnot PSA_ALG_ECDSA_DETERMINISTIC_FLAG) = Z.land a' (Z.lnot PSA_ALG_ECDSA_DETERMINISTIC_FLAG).

Lemma ecdsa_same_hash a r :
  PSA_ALG_IS_ECDSA a = true -> PSA_ALG_IS_ECDSA r = true -> PSA_ALG_GET_HASH a = PSA_ALG_GET_HASH r ->
  ecdsa_twin a r.
Proof.
  intros Ha Hr Hh. split; [done|]. unfold PSA_ALG_IS_ECDSA in *. apply Z.eqb_eq in Ha, Hr.
  assert (Hlow : Z.land a PSA_ALG_HASH_MASK = Z.land r PSA_ALG_HASH_MASK).
  { assert (Hget : forall x, Z.land (PSA_ALG_GET_HASH x) 0xff = Z.land x PSA_ALG_HASH_MASK).
    { intros x. unfold PSA_ALG_GET_HASH. change PSA_ALG_HASH_MASK with 0xff.
      destruct (Z.eqb_spec (Z.land x 0xff) 0) as [->|_]; [done|].
      rewrite Z.land_lor_distr_l, <- Z.land_assoc. by rewrite Z.lor_0_l. }
    by rewrite <- (Hget a), <- (Hget r), Hh. }
  assert (Hsplit : forall x, Z.land x (Z.lnot PSA_ALG_ECDSA_DETERMINISTIC_FLAG) =
    Z.lor (Z.land (Z.land x (Z.lnot PSA_ALG_HASH_MASK)) (Z.lnot PSA_ALG_ECDSA_DETERMINISTIC_FLAG))
          (Z.land x PSA_ALG_HASH_MASK)).
  { intros x. rewrite <- Z.land_assoc, <- Z.land_lor_distr_r. f_equal. }
  by rewrite (Hsplit a), (Hsplit r), Ha, Hr, Hlow.
Qed.

Lemma hash_ml_dsa_base x r :
  Z.land x (Z.lnot PSA_ALG_HASH_MASK) = Z.land r (Z.lnot PSA_ALG_HASH_MASK) ->
  PSA_ALG_IS_HASH_ML_DSA x = PSA_ALG_IS_HASH_ML_DSA r.
Proof.
  intros H. unfold PSA_ALG_IS_HASH_ML_DSA.
  change (Z.lnot 0x000001ff) with (Z.land (Z.lnot PSA_ALG_HASH_MASK) (Z.lnot 0x000001ff)).
  by rewrite !Z.land_assoc, H.
Qed.

Definition verify_usage (u : Z) : bool :=
  negb (Z.land u (Z.lor PSA_KEY_USAGE_VERIFY_HASH PSA_KEY_USAGE_VERIFY_MESSAGE) =? 0).

Lemma narrows_sign x r a u :
  PSA_ALG_IS_MAC a = false -> PSA_ALG_IS_AEAD a = false -> narrows x r ->
  wolfpsa_sign_alg_permitted r a u = true ->
  wolfpsa_sign_alg_permitted x a u = true \/
  verify_usage u = true /\
  (exists a', ecdsa_twin a a' /\ wolfpsa_sign_alg_permitted x a' u = true).
Proof.
  intros Hm Ha Hn Hp. destruct Hn as [->|Hx Hr Hb Hxa Hra|Hcat _ _ _ _]; [by left| |].
  - pose proof (wildcard_permits x r u Hr Hx Hb Hxa Hra) as Hxr. revert Hp.
    unfold wolfpsa_sign_alg_permitted at 1. destruct (Z.eqb_spec r a) as [<-|_]; [by left|].
    rewrite (sign_get_hash_eq r), (proj2 (Z.eqb_neq _ _) Hra), andb_false_r by done. cbn [andb].
    change (negb (Z.land u _ =? 0)) with (verify_usage u).
    destruct (verify_usage u) eqn:Hu; [|done]. rewrite orb_true_iff, !andb_true_iff.
    intros [[[[Hea Her] Hh] _]|[[[Hma Hmr] Hna] _]].
    + right. split; [done|]. exists r. split; [|done]. apply ecdsa_same_hash; try done. by apply Z.eqb_eq.
    + left. unfold wolfpsa_sign_alg_permitted. change (negb (Z.land u _ =? 0)) with (verify_usage u).
      rewrite Hu, Hma, Hna, (hash_ml_dsa_base x r Hb), Hmr, Hxa, Z.eqb_refl.
      repeat case_match; try done. by rewrite orb_true_r.
  - exfalso. assert (Hsr : PSA_ALG_IS_SIGN r = false).
    { unfold PSA_ALG_IS_SIGN, PSA_ALG_IS_MAC, PSA_ALG_IS_AEAD in *.
      by destruct Hcat as [Hc|Hc]; apply Z.eqb_eq in Hc; rewrite Hc. }
    revert Hp. unfold wolfpsa_sign_alg_permitted. destruct (Z.eqb_spec r a) as [<-|_].
    { destruct Hcat; congruence. }
    assert (PSA_ALG_SIGN_GET_HASH r = 0) as ->
      by (unfold PSA_ALG_SIGN_GET_HASH, PSA_ALG_IS_HASH_AND_SIGN, PSA_ALG_IS_SIGN_HASH; by rewrite Hsr).
    rewrite andb_false_r. cbn [andb].
    assert (PSA_ALG_IS_ECDSA r = false /\ PSA_ALG_IS_HASH_ML_DSA r = false) as [-> ->];
      [|rewrite !andb_false_r; by case_match].
    split; apply Z.eqb_neq; intros Heq; unfold PSA_ALG_IS_SIGN in Hsr; apply Z.eqb_neq in Hsr;
      apply Hsr; change PSA_ALG_CATEGORY_SIGN with (Z.land 0x06004600 PSA_ALG_CATEGORY_MASK).
    + change (Z.land 0x06004600 PSA_ALG_CATEGORY_MASK) with (Z.land PSA_ALG_ECDSA_BASE PSA_ALG_CATEGORY_MASK).
      rewrite <- Heq, <- !Z.land_assoc. reflexivity.
    + rewrite <- Heq, <- !Z.land_assoc. reflexivity.
Qed.

(** The predicates for the PAKE algorithms never hold, not even of the
    algorithms their own constructors build: the mask drops the bits that tell
    the bases apart. *)
Theorem pake_predicates_never_hold alg :
  PSA_ALG_IS_JPAKE alg = false /\ PSA_ALG_IS_SPAKE2P_HMAC alg = false.
Proof.
  unfold PSA_ALG_IS_JPAKE, PSA_ALG_IS_SPAKE2P_HMAC.
  split; apply Z.eqb_neq; intros Heq.
  - assert (Hb : Z.testbit (Z.land alg 0xffff0000) 8 = true) by (by rewrite Heq).
    by rewrite Z.land_spec, andb_false_r in Hb.
  - assert (Hb : Z.testbit (Z.land alg 0xffff0000) 11 = true) by (by rewrite Heq).
    by rewrite Z.land_spec, andb_false_r in Hb.
Qed.

(** For a verification usage it fails: the wildcard policy of randomized ECDSA
    refuses the deterministic algorithm, and the copy narrowed to one hash
    accepts it. *)
Theorem ecdsa_verify_copy_widens :
  let s := PSA_ALG_ECDSA PSA_ALG_ANY_HASH in
  let d := PSA_ALG_ECDSA PSA_ALG_SHA_256 in
  let a := Z.lor d PSA_ALG_ECDSA_DETERMINISTIC_FLAG in
  wolfpsa_alg_intersect s d = Some d /\
  wolfpsa_sign_alg_permitted s a PSA_KEY_USAGE_VERIFY_HASH = false /\
  wolfpsa_sign_alg_permitted d a PSA_KEY_USAGE_VERIFY_HASH = true.
Proof. by vm_compute. Qed.

(** The check of [psa_check_key_usage] refuses a MAC that the MAC operations
    accept: it does not know the minimum-length wildcard. *)
Theorem check_usage_ignores_mac_wildcard :
  let wild := PSA_ALG_AT_LEAST_THIS_LENGTH_MAC (PSA_ALG_HMAC PSA_ALG_SHA_256) 16 in
  let at_ := mkAttributes PSA_KEY_TYPE_HMAC 256 0 (mkPolicy 0 wild 0) 0 in
  let full := PSA_ALG_HMAC PSA_ALG_SHA_256 in
  wolfpsa_mac_alg_permitted at_ (psa_get_key_algorithm at_) full = true /\
  wolfpsa_key_permits_alg at_ full = false.
Proof. by vm_compute. Qed.
