(* ===== verification/Der.v ===== *)
(** The DER encoders of [src/psa_key_storage.c]: lengths, unsigned INTEGERs and
    the RSAPublicKey SEQUENCE that [psa_export_public_key] writes.  A C function
    that writes at [out] and returns the number of bytes is a function to the
    list of bytes it writes together with the number it returns.

    The specification is a strict DER reader; the theorems are that it reads
    back what the encoders write, that the size functions announce the exact
    size, and that the documented maximum size is enough. *)

From stdpp Require Import base decidable list.
From Stdlib Require Import ZArith Lia.
From Stdlib Require Import Strings.Byte.
From S2P Require Import Prelude.
From S2P Require Import Values.

#[local] Open Scope Z_scope.

(** * Encoders *)

(** [while (len > 0) { size++; len >>= 8; }]: eight rounds empty a [size_t]. *)
Fixpoint der_len_loop (fuel : nat) (len size : Z) : Z :=
  match fuel with
  | O => size
  | S f => if 0 <? len then der_len_loop f (Z.shiftr len 8) (size + 1) else size
  end.

Definition psa_der_len_size (len : Z) : Z :=
  if len <? 128 then 1 else der_len_loop 8 len 1.

(** The second loop of [psa_der_write_len]: [out[i] = len & 0xFF; len >>= 8; i--]. *)
Fixpoint der_write_loop (i : nat) (len : Z) (acc : list byte) : list byte :=
  match i with
  | O => acc
  | S i' => der_write_loop i' (Z.shiftr len 8) (z2b (Z.land len 0xff) :: acc)
  end.

Definition psa_der_write_len (len : Z) : list byte * Z :=
  if len <? 128 then ([z2b len], 1)
  else
    let i := der_len_loop 8 len 0 in
    let out0 := z2b (Z.lor 0x80 i) in
    (out0 :: der_write_loop (Z.to_nat i) len [], b2z out0 - 0x80 + 1).

(** [while (offset < len && val[offset] == 0x00) offset++]: what is left. *)
Fixpoint der_skip_zeros (val : list byte) : list byte :=
  match val with
  | b :: val' => if b2z b =? 0 then der_skip_zeros val' else val
  | [] => []
  end.

Definition der_add_zero (val : list byte) : Z :=
  match val with
  | b :: _ => if negb (Z.land (b2z b) 0x80 =? 0) then 1 else 0
  | [] => 0
  end.

Definition psa_der_int_size (val : list byte) : Z :=
  match der_skip_zeros val with
  | [] => 3
  | v => let value_len := zlen v in
         1 + psa_der_len_size (value_len + der_add_zero v) + value_len + der_add_zero v
  end.

Definition psa_der_write_int (val : list byte) : list byte * Z :=
  match der_skip_zeros val with
  | [] => ([x02; x01; x00], 3)
  | v =>
      let value_len := zlen v in
      let '(lb, len_bytes) := psa_der_write_len (value_len + der_add_zero v) in
      if der_add_zero v =? 1
      then (x02 :: lb ++ x00 :: v, 1 + len_bytes + 1 + value_len)
      else (x02 :: lb ++ v, 1 + len_bytes + value_len)
  end.

(** The RSA key-pair arm of [psa_export_public_key], after the modulus [n] and
    the exponent [e] have been extracted: [None] is [PSA_ERROR_BUFFER_TOO_SMALL],
    otherwise the bytes written and [*data_length]. *)
Definition rsa_write_public_key (n e : list byte) (data_size : Z)
  : option (list byte * Z) :=
  let n_int_size := psa_der_int_size n in
  let e_int_size := psa_der_int_size e in
  let seq_len := n_int_size + e_int_size in
  let total_len := 1 + psa_der_len_size seq_len + seq_len in
  if data_size <? total_len then None
  else Some (x30 :: (psa_der_write_len seq_len).1
                 ++ (psa_der_write_int n).1 ++ (psa_der_write_int e).1, total_len).

(** * Specification: a strict DER reader *)

(** A definite length in its minimal form. *)
Definition der_read_len (bs : list byte) : option (Z * list byte) :=
  match bs with
  | [] => None
  | b :: bs' =>
      if b2z b <? 128 then Some (b2z b, bs')
      else
        let k := Z.to_nat (b2z b - 128) in
        if (length bs' <? k)%nat || (k =? 0)%nat then None
        else
          let len := be_val (take k bs') in
          if (len <? 128) || (len <? 256 ^ (Z.of_nat k - 1)) then None
          else Some (len, drop k bs')
  end.

(** A non-negative INTEGER in its minimal form. *)
Definition der_read_uint (bs : list byte) : option (Z * list byte) :=
  match bs with
  | x02 :: bs' =>
      match der_read_len bs' with
      | Some (len, rest) =>
          let k := Z.to_nat len in
          if (length rest <? k)%nat then None
          else
            let c := take k rest in
            match c with
            | [] => None
            | [b] => if b2z b <? 128 then Some (be_val c, drop k rest) else None
            | b :: b' :: _ =>
                if (b2z b <? 128) && negb ((b2z b =? 0) && (b2z b' <? 128))
                then Some (be_val c, drop k rest) else None
            end
      | None => None
      end
  | _ => None
  end.

(** RSAPublicKey ::= SEQUENCE { modulus INTEGER, publicExponent INTEGER } *)
Definition der_read_rsa_public_key (bs : list byte) : option (Z * Z) :=
  match bs with
  | x30 :: bs' =>
      match der_read_len bs' with
      | Some (len, body) =>
          if negb (zlen body =? len) then None
          else match der_read_uint body with
               | Some (n, body') =>
                   match der_read_uint body' with
                   | Some (e, []) => Some (n, e)
                   | _ => None
                   end
               | None => None
               end
      | None => None
      end
  | _ => None
  end.

(** * Lengths *)

Lemma der_len_loop_add f len size : der_len_loop f len size = size + der_len_loop f len 0.
Proof.
  revert len size; induction f as [|f IH]; intros len size; simpl; [lia|].
  case_match; [|lia]. rewrite (IH _ (size + 1)), (IH _ 1). lia.
Qed.

(** The loop counts the base-256 digits of [len]; the fuel is enough. *)
Lemma der_len_loop_digits f len :
  0 < len < 256 ^ Z.of_nat f ->
  exists k, der_len_loop f len 0 = Z.of_nat k /\ (1 <= k <= f)%nat /\
            256 ^ (Z.of_nat k - 1) <= len < 256 ^ Z.of_nat k.
Proof.
  revert len; induction f as [|f IH]; intros len Hlen; [simpl in Hlen; lia|].
  simpl. rewrite (proj2 (Z.ltb_lt 0 len)) by lia. rewrite der_len_loop_add.
  rewrite Z.shiftr_div_pow2 by lia. change (2 ^ 8) with 256.
  rewrite pow256_succ in Hlen.
  destruct (decide (len < 256)) as [Hs|Hs].
  - exists 1%nat. rewrite Z.div_small by lia. split; [destruct f; reflexivity|].
    change (256 ^ (Z.of_nat 1 - 1)) with 1. change (256 ^ Z.of_nat 1) with 256. lia.
  - destruct (IH (len / 256)) as (k & Hk & Hkf & Hlo & Hhi).
    { split; [apply Z.div_str_pos; lia | apply Z.div_lt_upper_bound; lia]. }
    exists (S k). rewrite Hk, pow256_succ. split; [lia|]. split; [lia|].
    replace (Z.of_nat (S k) - 1) with (Z.of_nat k) by lia.
    replace (Z.of_nat k) with (Z.succ (Z.of_nat k - 1)) at 1 by lia.
    rewrite Z.pow_succ_r by lia.
    pose proof (Z.mul_div_le len 256 ltac:(lia)).
    pose proof (Z.mul_succ_div_gt len 256 ltac:(lia)). nia.
Qed.

Lemma der_write_loop_be i len acc : der_write_loop i len acc = be_bytes i len ++ acc.
Proof.
  revert len acc; induction i as [|i IH]; intros len acc; [done|].
  simpl. rewrite IH, Z.shiftr_div_pow2 by lia. change (2 ^ 8) with 256.
  unfold be_bytes. simpl. rewrite <- app_assoc. do 2 f_equal. simpl. f_equal.
  change 0xff with (Z.ones 8). rewrite Z.land_ones by lia. apply z2b_mod.
Qed.

(** The shape of a long-form length. *)
Lemma der_write_len_long len :
  128 <= len <= SIZE_MAX ->
  exists k, (1 <= k <= 8)%nat /\ 256 ^ (Z.of_nat k - 1) <= len < 256 ^ Z.of_nat k /\
    psa_der_write_len len = (z2b (128 + Z.of_nat k) :: be_bytes k len, Z.of_nat k + 1) /\
    psa_der_len_size len = Z.of_nat k + 1.
Proof.
  unfold SIZE_MAX. intros Hlen. destruct (der_len_loop_digits 8 len) as (k & Hk & Hkf & Hb).
  { change (256 ^ Z.of_nat 8) with (2 ^ 64). lia. }
  exists k. split; [lia|]. split; [done|].
  unfold psa_der_write_len, psa_der_len_size.
  rewrite (proj2 (Z.ltb_ge len 128)) by lia.
  rewrite (der_len_loop_add 8 len 1), Hk, Nat2Z.id, der_write_loop_be, app_nil_r.
  assert (Hor : Z.lor 0x80 (Z.of_nat k) = 128 + Z.of_nat k).
  { clear -Hkf. do 9 (destruct k as [|k]; [first [lia | reflexivity]|]).
    exfalso. lia. }
  rewrite Hor, b2z_z2b, Z.mod_small by lia. split; [f_equal; lia | lia].
Qed.

Lemma der_write_len_short len :
  0 <= len < 128 -> psa_der_write_len len = ([z2b len], 1) /\ psa_der_len_size len = 1.
Proof.
  intros. unfold psa_der_write_len, psa_der_len_size.
  by rewrite (proj2 (Z.ltb_lt len 128)) by lia.
Qed.

(** The value returned, the bytes written and the announced size agree. *)
Lemma der_write_len_size len :
  0 <= len <= SIZE_MAX ->
  (psa_der_write_len len).2 = psa_der_len_size len /\
  zlen (psa_der_write_len len).1 = psa_der_len_size len /\
  1 <= psa_der_len_size len <= 9.
Proof.
  intros Hlen. destruct (decide (len < 128)).
  - destruct (der_write_len_short len) as [-> ->]; [lia|]. done.
  - destruct (der_write_len_long len) as (k & Hk & _ & -> & ->); [lia|].
    unfold zlen. simpl. rewrite length_be_bytes. lia.
Qed.

Lemma der_read_write_len len rest :
  0 <= len <= SIZE_MAX ->
  der_read_len ((psa_der_write_len len).1 ++ rest) = Some (len, rest).
Proof.
  intros Hlen. destruct (decide (len < 128)) as [Hs|Hs].
  - destruct (der_write_len_short len) as [-> _]; [lia|]. simpl.
    rewrite b2z_z2b, Z.mod_small by lia. by rewrite (proj2 (Z.ltb_lt len 128)) by lia.
  - destruct (der_write_len_long len) as (k & Hk & Hb & -> & _); [lia|]. simpl.
    rewrite b2z_z2b, Z.mod_small by lia.
    rewrite (proj2 (Z.ltb_ge (128 + Z.of_nat k) 128)) by lia.
    replace (Z.to_nat (128 + Z.of_nat k - 128)) with k by lia.
    rewrite take_app_length', drop_app_length' by (by rewrite length_be_bytes).
    rewrite length_app, length_be_bytes, be_val_be_bytes, Z.mod_small by lia.
    destruct (Nat.ltb_spec (k + length rest) k); [lia|].
    destruct (Nat.eqb_spec k 0); [lia|]. simpl.
    rewrite (proj2 (Z.ltb_ge len 128)), (proj2 (Z.ltb_ge len (256 ^ (Z.of_nat k - 1)))) by lia.
    done.
Qed.
#[export] Hint Resolve der_read_write_len : wpsa.

(** * Integers *)

(** What is left after the leading zeros: nothing, or a non-zero first byte. *)
Lemma der_skip_zeros_spec val :
  be_val (der_skip_zeros val) = be_val val /\
  (length (der_skip_zeros val) <= length val)%nat /\
  match der_skip_zeros val with [] => True | b :: _ => 0 < b2z b end.
Proof.
  induction val as [|b val IH]; [done|]. simpl.
  pose proof (b2z_range b). destruct (Z.eqb_spec (b2z b) 0) as [E|E].
  - destruct IH as (Hv & Hl & Hh). rewrite Hv, be_val_cons, E. split; [lia|].
    split; [lia|done].
  - split; [done|]. simpl. lia.
Qed.

Lemma high_bit b : negb (Z.land (b2z b) 0x80 =? 0) = (128 <=? b2z b).
Proof. by destruct b. Qed.

Lemma der_add_zero_range v : 0 <= der_add_zero v <= 1.
Proof. unfold der_add_zero. repeat case_match; lia. Qed.

(** The contents octets that [psa_der_write_int] emits. *)
Definition der_int_contents (val : list byte) : list byte :=
  match der_skip_zeros val with
  | [] => [x00]
  | v => if der_add_zero v =? 1 then x00 :: v else v
  end.

Lemma der_int_contents_length val :
  zlen (der_int_contents val) =
    match der_skip_zeros val with [] => 1 | v => zlen v + der_add_zero v end.
Proof.
  unfold der_int_contents. destruct (der_skip_zeros val) as [|b v] eqn:E; [done|].
  pose proof (der_add_zero_range (b :: v)).
  destruct (Z.eqb_spec (der_add_zero (b :: v)) 1) as [->|]; unfold zlen; simpl length; lia.
Qed.

Lemma der_write_int_unfold val :
  zlen val < INT_MAX ->
  psa_der_write_int val =
    (x02 :: (psa_der_write_len (zlen (der_int_contents val))).1 ++ der_int_contents val,
     psa_der_int_size val) /\
  psa_der_int_size val =
    1 + psa_der_len_size (zlen (der_int_contents val)) + zlen (der_int_contents val).
Proof.
  intros Hlen. destruct (der_skip_zeros_spec val) as (_ & Hle & _).
  pose proof (der_int_contents_length val) as Hc.
  unfold psa_der_write_int, psa_der_int_size.
  destruct (der_skip_zeros val) as [|b v] eqn:E.
  { rewrite Hc. unfold der_int_contents. by rewrite E. }
  rewrite Hc. pose proof (der_add_zero_range (b :: v)) as Ha.
  assert (Hr : 0 <= zlen (b :: v) + der_add_zero (b :: v) <= SIZE_MAX)
    by (unfold zlen, INT_MAX, SIZE_MAX in *; simpl length in *; lia).
  destruct (der_write_len_size _ Hr) as (Hret & _ & _).
  destruct (psa_der_write_len _) as [lb n] eqn:Ew. cbn [fst snd] in Hret |- *.
  unfold der_int_contents. rewrite E.
  assert (Hz : zlen (x00 :: b :: v) = zlen (b :: v) + 1) by (unfold zlen; simpl length; lia).
  destruct (Z.eqb_spec (der_add_zero (b :: v)) 1) as [E1|E1].
  - rewrite E1 in *. rewrite <- Hret. split; [f_equal; lia | lia].
  - replace (der_add_zero (b :: v)) with 0 in * by lia. rewrite <- Hret.
    split; [f_equal; lia | lia].
Qed.

Lemma der_write_int_size val :
  zlen val < INT_MAX ->
  (psa_der_write_int val).2 = psa_der_int_size val /\
  zlen (psa_der_write_int val).1 = psa_der_int_size val /\
  3 <= psa_der_int_size val <= zlen val + 11.
Proof.
  intros Hlen. destruct (der_write_int_unfold val Hlen) as [-> Hs]. simpl fst. simpl snd.
  pose proof (der_int_contents_length val) as Hc.
  destruct (der_skip_zeros_spec val) as (_ & Hle & _).
  assert (1 <= zlen (der_int_contents val) <= zlen val + 1).
  { rewrite Hc. destruct (der_skip_zeros val) as [|b v]; unfold zlen in *; simpl length in *;
      [lia|]. pose proof (der_add_zero_range (b :: v)). lia. }
  destruct (der_write_len_size (zlen (der_int_contents val))) as (_ & Hz & Hb);
    [unfold INT_MAX, SIZE_MAX in *; lia|].
  split; [done|]. split; [|lia].
  rewrite Hs. unfold zlen in *. simpl length. rewrite length_app. lia.
Qed.

(** The contents are a minimal two's-complement encoding of the value. *)
Lemma der_int_contents_minimal val :
  be_val (der_int_contents val) = be_val val /\
  match der_int_contents val with
  | [] => False
  | [b] => b2z b < 128
  | b :: b' :: _ => b2z b < 128 /\ (b2z b = 0 -> 128 <= b2z b')
  end.
Proof.
  destruct (der_skip_zeros_spec val) as (Hv & _ & Hh). unfold der_int_contents.
  destruct (der_skip_zeros val) as [|b v] eqn:E; [done|].
  unfold der_add_zero. rewrite high_bit. pose proof (b2z_range b).
  destruct (Z.leb_spec 128 (b2z b)); simpl Z.eqb; cbv iota.
  - rewrite be_val_cons, Hv. change (b2z x00) with 0. split; [lia|]. lia.
  - split; [done|]. destruct v; [lia|]. split; [lia|]. lia.
Qed.

Lemma der_read_write_int val rest :
  zlen val < INT_MAX ->
  der_read_uint ((psa_der_write_int val).1 ++ rest) = Some (be_val val, rest).
Proof.
  intros Hlen. destruct (der_write_int_unfold val Hlen) as [-> _]. simpl.
  destruct (der_write_int_size val Hlen) as (_ & _ & _).
  destruct (der_int_contents_minimal val) as [Hv Hm].
  assert (0 <= zlen (der_int_contents val) <= SIZE_MAX).
  { pose proof (der_int_contents_length val) as Hc.
    destruct (der_skip_zeros_spec val) as (_ & Hle & _). rewrite Hc.
    destruct (der_skip_zeros val) as [|b v]; unfold zlen, INT_MAX, SIZE_MAX in *;
      simpl length in *; [lia|]. pose proof (der_add_zero_range (b :: v)). lia. }
  rewrite <- app_assoc, der_read_write_len by done.
  unfold zlen. rewrite Nat2Z.id, length_app.
  rewrite take_app_length', drop_app_length' by done.
  destruct (Nat.ltb_spec (length (der_int_contents val) + length rest)
                         (length (der_int_contents val))); [lia|].
  rewrite <- Hv. destruct (der_int_contents val) as [|b [|b' c]]; [done| |].
  - by rewrite (proj2 (Z.ltb_lt (b2z b) 128)) by lia.
  - destruct Hm as [Hb Hz]. rewrite (proj2 (Z.ltb_lt (b2z b) 128)) by lia.
    pose proof (b2z_range b). destruct (Z.eqb_spec (b2z b) 0) as [E|]; simpl; [|done].
    rewrite (proj2 (Z.ltb_ge (b2z b') 128)) by auto. done.
Qed.

(** * The whole key *)

Lemma rsa_write_public_key_some n e data_size :
  (psa_der_write_len (psa_der_int_size n + psa_der_int_size e)).2 =
    psa_der_len_size (psa_der_int_size n + psa_der_int_size e) ->
  forall out len, rsa_write_public_key n e data_size = Some (out, len) ->
  len <= data_size /\
  len = 1 + psa_der_len_size (psa_der_int_size n + psa_der_int_size e)
          + (psa_der_int_size n + psa_der_int_size e) /\
  out = x30 :: (psa_der_write_len (psa_der_int_size n + psa_der_int_size e)).1
            ++ (psa_der_write_int n).1 ++ (psa_der_write_int e).1.
Proof. intros _ out len. unfold rsa_write_public_key. case_match; intros; simplify_eq; lia || auto with lia. Qed.

(** The two INTEGERs together are well inside [size_t]. *)
Lemma rsa_seq_len_range n e :
  zlen n < INT_MAX -> zlen e < INT_MAX ->
  0 <= psa_der_int_size n + psa_der_int_size e <= SIZE_MAX.
Proof.
  intros Hn He. destruct (der_write_int_size n Hn) as (_ & _ & ?).
  destruct (der_write_int_size e He) as (_ & _ & ?). unfold INT_MAX, SIZE_MAX in *. lia.
Qed.

(** The encoding read back. *)
Lemma rsa_write_read n e data_size out len :
  zlen n < INT_MAX -> zlen e < INT_MAX ->
  rsa_write_public_key n e data_size = Some (out, len) ->
  der_read_rsa_public_key out = Some (be_val n, be_val e) /\
  len = zlen out /\ len <= data_size.
Proof.
  intros Hn He Hw. pose proof (rsa_seq_len_range n e Hn He) as Hr.
  destruct (der_write_len_size _ Hr) as (Hret & Hlen & _).
  destruct (rsa_write_public_key_some n e data_size Hret _ _ Hw) as (Hle & -> & ->).
  destruct (der_write_int_size n Hn) as (_ & Hn1 & _).
  destruct (der_write_int_size e He) as (_ & He1 & _).
  assert (Hb : zlen ((psa_der_write_int n).1 ++ (psa_der_write_int e).1)
               = psa_der_int_size n + psa_der_int_size e) by (rewrite zlen_app; lia).
  split; [|split; [|done]].
  - simpl. rewrite der_read_write_len by done. rewrite Hb, Z.eqb_refl. simpl.
    rewrite der_read_write_int by done.
    rewrite <- (app_nil_r (psa_der_write_int e).1), der_read_write_int by done. done.
  - change (x30 :: ?l) with ([x30] ++ l).
    rewrite (zlen_app [x30]), zlen_app, Hb, Hlen. change (zlen [x30]) with 1. lia.
Qed.

(** The public key that [psa_export_public_key] encodes is a well-formed
    RSAPublicKey: the strict reader gives back exactly the modulus and the
    exponent, and [*data_length] is the number of bytes written, within the
    caller's buffer. *)
Theorem rsa_public_key_roundtrip n e data_size out len :
  zlen n < INT_MAX -> zlen e < INT_MAX ->
  rsa_write_public_key n e data_size = Some (out, len) ->
  der_read_rsa_public_key out = Some (be_val n, be_val e) /\
  len = zlen out /\ len <= data_size.
Proof. apply rsa_write_read. Qed.

Lemma rsa_public_key_roundtrip_witness :
  exists out len,
    rsa_write_public_key [x00; xc5; x01] [x01; x00; x01] 64 = Some (out, len) /\
    der_read_rsa_public_key out = Some (0xc501, 65537).
Proof.
  eexists _, _. split; [vm_compute; reflexivity|].
  refine (proj1 (rsa_public_key_roundtrip [x00; xc5; x01] [x01; x00; x01] 64 _ _ _ _ _));
    vm_compute; reflexivity.
Defined.

Lemma der_len_size_two len : 0 <= len <= UINT16_MAX -> psa_der_len_size len <= 3.
Proof.
  unfold UINT16_MAX. intros. destruct (decide (len < 128)).
  - destruct (der_write_len_short len) as [_ ->]; lia.
  - destruct (der_write_len_long len) as (k & Hk & Hb & _ & ->); [unfold SIZE_MAX; lia|].
    destruct (decide (k <= 2)%nat); [lia|]. exfalso.
    assert (256 ^ 2 <= 256 ^ (Z.of_nat k - 1)) by (apply Z.pow_le_mono_r; lia). lia.
Qed.

(** A [bits]-bit value needs at most [bits / 8 + 1] contents octets. *)
Lemma der_int_contents_bits val bits :
  0 <= bits -> be_val val < 2 ^ bits -> zlen (der_int_contents val) <= bits / 8 + 1.
Proof.
  intros Hb Hv. destruct (der_skip_zeros_spec val) as (Hvv & _ & Hh).
  rewrite der_int_contents_length. rewrite <- Hvv in Hv.
  destruct (der_skip_zeros val) as [|b v]; [pose proof (Z.div_pos bits 8); lia|].
  rewrite be_val_cons in Hv. pose proof (be_val_range v).
  assert (E256 : 256 ^ Z.of_nat (length v) = 2 ^ (8 * Z.of_nat (length v)))
    by (rewrite Z.pow_mul_r by lia; done).
  unfold zlen. simpl length. unfold der_add_zero. rewrite high_bit.
  destruct (Z.leb_spec 128 (b2z b)).
  - assert (2 ^ (8 * Z.of_nat (length v) + 7) < 2 ^ bits).
    { rewrite Z.pow_add_r by lia. rewrite <- E256. change (2 ^ 7) with 128. nia. }
    assert (8 * Z.of_nat (length v) + 7 < bits) by (apply (Z.pow_lt_mono_r_iff 2); lia).
    pose proof (Z.div_mod bits 8). pose proof (Z.mod_pos_bound bits 8). lia.
  - assert (2 ^ (8 * Z.of_nat (length v)) < 2 ^ bits) by (rewrite <- E256; nia).
    assert (8 * Z.of_nat (length v) < bits) by (apply (Z.pow_lt_mono_r_iff 2); lia).
    pose proof (Z.div_mod bits 8). pose proof (Z.mod_pos_bound bits 8). lia.
Qed.

(** [PSA_KEY_EXPORT_RSA_PUBLIC_KEY_MAX_SIZE] is enough: for a modulus of at
    most [bits] bits and an exponent of at most 32 bits, a buffer of the
    documented size never gives [PSA_ERROR_BUFFER_TOO_SMALL]. *)
Theorem rsa_public_key_max_size bits n e data_size :
  0 <= bits <= PSA_MAX_KEY_BITS ->
  zlen n < INT_MAX -> zlen e < INT_MAX ->
  be_val n < 2 ^ bits -> be_val e < 2 ^ 32 ->
  PSA_KEY_EXPORT_RSA_PUBLIC_KEY_MAX_SIZE bits <= data_size ->
  rsa_write_public_key n e data_size <> None.
Proof.
  unfold PSA_MAX_KEY_BITS, PSA_KEY_EXPORT_RSA_PUBLIC_KEY_MAX_SIZE,
    PSA_KEY_EXPORT_ASN1_INTEGER_MAX_SIZE, rsa_write_public_key.
  intros Hbits Hn He Hvn Hve Hsize.
  pose proof (der_int_contents_bits n bits ltac:(lia) Hvn) as Hcn.
  pose proof (der_int_contents_bits e 32 ltac:(lia) Hve) as Hce. change (32 / 8) with 4 in Hce.
  destruct (der_write_int_unfold n Hn) as [_ ->].
  destruct (der_write_int_unfold e He) as [_ ->].
  assert (bits / 8 <= 8191) by (apply Z.div_le_upper_bound; lia).
  pose proof (zlen_nonneg (der_int_contents n)). pose proof (zlen_nonneg (der_int_contents e)).
  pose proof (der_len_size_two (zlen (der_int_contents n))) as Hln.
  destruct (der_write_len_short (zlen (der_int_contents e))) as [_ ->]; [lia|].
  destruct (der_write_len_size (zlen (der_int_contents n))) as (_ & _ & ?);
    [unfold SIZE_MAX; lia|].
  unfold UINT16_MAX in *.
  set (seq := 1 + psa_der_len_size (zlen (der_int_contents n)) + _ + _).
  pose proof (der_len_size_two seq) as Hls. unfold UINT16_MAX in Hls.
  rewrite (proj2 (Z.ltb_ge data_size _)) by lia. done.
Qed.

Lemma rsa_public_key_max_size_witness :
  rsa_write_public_key [xff; xff; xff] [x01; x00; x01]
    (PSA_KEY_EXPORT_RSA_PUBLIC_KEY_MAX_SIZE 24) <> None.
Proof. apply (rsa_public_key_max_size 24);
    solve [ reflexivity | split; discriminate | discriminate ].
Defined.
