(* ===== verification/KeyFormat.v ===== *)
(** The key formats of [src/psa_key_storage.c]: curve sizes, inference and
    validation of key sizes, the per-type checks of [psa_import_key], and the
    attribute header of a persistent record.

    wolfCrypt's key decoders are parameters ([WolfCryptKeys]).  The theorems:
    the two curve tables are inverse, the record header round-trips, and what
    the import checks accept is a well-formed key of its type. *)

From stdpp Require Import base decidable list.
From Stdlib Require Import ZArith Lia.
From Stdlib Require Import Strings.Byte.
From S2P Require Import Prelude.
From S2P Require Import Values.
From S2P Require Import Engine.

#[local] Open Scope Z_scope.

(** * wolfCrypt's key decoders *)

Class WolfCryptKeys : Type := {
  mp_int : Type;
  mp_count_bits : mp_int -> Z;
  mp_isodd : mp_int -> bool;
  mp_cmp_d : mp_int -> Z -> comparison;
  RSA_MIN_SIZE : Z;
  wc_InitRsaKey : Z;
  (** return code, index after the key, modulus and exponent *)
  wc_RsaPublicKeyDecode : list byte -> Z * (Z * (mp_int * mp_int));
  wc_RsaPrivateKeyDecode : list byte -> Z * (Z * (mp_int * mp_int));
  ECC_CURVE_INVALID : Z;
  ECC_SECP192R1 : Z; ECC_SECP224R1 : Z; ECC_SECP256R1 : Z; ECC_SECP384R1 : Z;
  ECC_SECP521R1 : Z; ECC_SECP192K1 : Z; ECC_SECP224K1 : Z; ECC_SECP256K1 : Z;
  ECC_BRAINPOOLP256R1 : Z; ECC_BRAINPOOLP384R1 : Z; ECC_BRAINPOOLP512R1 : Z;
  ECC_X25519 : Z; ECC_X448 : Z;
  wc_ecc_init_ex : Z;
  wc_ecc_import_private_key_ex : list byte -> Z -> Z;
  wc_ecc_import_x963_ex : list byte -> Z -> Z }.

(** * Curves *)

Definition wolfpsa_ecc_bits_from_length (family length_bytes : Z) : Z :=
  if family =? PSA_ECC_FAMILY_SECP_R1 then
    if length_bytes =? 24 then 192 else if length_bytes =? 28 then 224
    else if length_bytes =? 32 then 256 else if length_bytes =? 48 then 384
    else if length_bytes =? 66 then 521 else 0
  else if family =? PSA_ECC_FAMILY_SECP_K1 then
    if length_bytes =? 24 then 192 else if length_bytes =? 28 then 224
    else if length_bytes =? 32 then 256 else 0
  else if family =? PSA_ECC_FAMILY_BRAINPOOL_P_R1 then
    if length_bytes =? 32 then 256 else if length_bytes =? 48 then 384
    else if length_bytes =? 64 then 512 else 0
  else if family =? PSA_ECC_FAMILY_MONTGOMERY then
    if length_bytes =? 32 then 255 else if length_bytes =? 56 then 448 else 0
  else if family =? PSA_ECC_FAMILY_TWISTED_EDWARDS then
    if length_bytes =? 32 then 255 else if length_bytes =? 57 then 448 else 0
  else 0.

Definition wolfpsa_ecc_length_from_bits (family bits : Z) : Z :=
  if family =? PSA_ECC_FAMILY_SECP_R1 then
    if bits =? 192 then 24 else if bits =? 224 then 28
    else if bits =? 256 then 32 else if bits =? 384 then 48
    else if bits =? 521 then 66 else 0
  else if family =? PSA_ECC_FAMILY_SECP_K1 then
    if bits =? 192 then 24 else if bits =? 224 then 28
    else if bits =? 256 then 32 else 0
  else if family =? PSA_ECC_FAMILY_BRAINPOOL_P_R1 then
    if bits =? 256 then 32 else if bits =? 384 then 48
    else if bits =? 512 then 64 else 0
  else if family =? PSA_ECC_FAMILY_MONTGOMERY then
    if bits =? 255 then 32 else if bits =? 448 then 56 else 0
  else if family =? PSA_ECC_FAMILY_TWISTED_EDWARDS then
    if bits =? 255 then 32 else if bits =? 448 then 57 else 0
  else 0.

Definition wolfpsa_validate_stored_key_data_length (key_data_length : Z) : psa_status_t :=
  if (key_data_length =? 0) || (INT_MAX <? key_data_length)
  then PSA_ERROR_DATA_INVALID else PSA_SUCCESS.

(** Family with raw public keys (no [0x04] prefix). *)
Definition raw_point_family (family : Z) : bool :=
  (family =? PSA_ECC_FAMILY_MONTGOMERY) || (family =? PSA_ECC_FAMILY_TWISTED_EDWARDS).

Section Checks.
Context {C : Config} {E : WolfCryptErr} {K : WolfCryptKeys}.

Definition wc_psa_get_ecc_curve_id (type bits : Z) : Z :=
let curve := PSA_KEY_TYPE_ECC_GET_FAMILY type in
if curve =? PSA_ECC_FAMILY_SECP_R1 then
  if bits =? 192 then if HAVE_ECC192 then ECC_SECP192R1 else ECC_CURVE_INVALID
  else if bits =? 224 then if HAVE_ECC224 then ECC_SECP224R1 else ECC_CURVE_INVALID
  else if bits =? 256 then ECC_SECP256R1
  else if bits =? 384 then ECC_SECP384R1
  else if bits =? 521 then ECC_SECP521R1
  else ECC_CURVE_INVALID
else if curve =? PSA_ECC_FAMILY_SECP_K1 then
  if bits =? 192
  then if HAVE_ECC192 && HAVE_ECC_KOBLITZ then ECC_SECP192K1 else ECC_CURVE_INVALID
  else if bits =? 224
  then if HAVE_ECC224 && HAVE_ECC_KOBLITZ then ECC_SECP224K1 else ECC_CURVE_INVALID
  else if bits =? 256
  then if HAVE_ECC_KOBLITZ then ECC_SECP256K1 else ECC_CURVE_INVALID
  else ECC_CURVE_INVALID
else if curve =? PSA_ECC_FAMILY_BRAINPOOL_P_R1 then
  if HAVE_ECC_BRAINPOOL then
    if bits =? 256 then ECC_BRAINPOOLP256R1
    else if bits =? 384 then ECC_BRAINPOOLP384R1
    else if bits =? 512 then ECC_BRAINPOOLP512R1
    else ECC_CURVE_INVALID
  else ECC_CURVE_INVALID
else if curve =? PSA_ECC_FAMILY_MONTGOMERY then
  if bits =? 255 then if HAVE_CURVE25519 then ECC_X25519 else ECC_CURVE_INVALID
  else if bits =? 448 then if HAVE_CURVE448 then ECC_X448 else ECC_CURVE_INVALID
  else ECC_CURVE_INVALID
else ECC_CURVE_INVALID.

(** * Key data checks *)

(** [inl status] is an error, [inr bits] is [PSA_SUCCESS] with [*bits]. *)
Definition wolfpsa_rsa_key_bits (type : Z) (data : list byte) : psa_status_t + Z :=
if negb (wc_InitRsaKey =? 0) then inl (wc_error_to_psa_status wc_InitRsaKey)
else
  let '(ret, (idx, (n, e))) :=
    if type =? PSA_KEY_TYPE_RSA_PUBLIC_KEY
    then wc_RsaPublicKeyDecode data else wc_RsaPrivateKeyDecode data in
  if negb (ret =? 0) then inl (wolfpsa_key_data_status ret)
  else
    let n_bits := mp_count_bits n in
    let e_valid := mp_isodd e && match mp_cmp_d e 3 with Lt => false | _ => true end in
    if negb (idx =? to_u32 (zlen data)) || (n_bits <=? 0) || negb e_valid
    then inl PSA_ERROR_INVALID_ARGUMENT
    else if negb (n_bits mod 8 =? 0) || (n_bits <? RSA_MIN_SIZE)
            || (PSA_VENDOR_RSA_MAX_KEY_BITS <? n_bits)
    then inl PSA_ERROR_NOT_SUPPORTED
    else inr (to_u16 n_bits).

Definition wolfpsa_ecc_check_key (attr : psa_key_attributes_t) (data : list byte)
: psa_status_t :=
let curve_id := wc_psa_get_ecc_curve_id (attr_type attr) (attr_bits attr) in
if curve_id =? ECC_CURVE_INVALID then PSA_SUCCESS
else if negb (wc_ecc_init_ex =? 0) then wc_error_to_psa_status wc_ecc_init_ex
else
  let ret := if PSA_KEY_TYPE_IS_ECC_KEY_PAIR (attr_type attr)
             then wc_ecc_import_private_key_ex data curve_id
             else wc_ecc_import_x963_ex data curve_id in
  if ret =? 0 then PSA_SUCCESS else wolfpsa_key_data_status ret.
End Checks.

Definition is_byte_string_type (type : Z) : bool :=
  (type =? PSA_KEY_TYPE_HMAC) || (type =? PSA_KEY_TYPE_RAW_DATA) ||
  (type =? PSA_KEY_TYPE_DERIVE) || (type =? PSA_KEY_TYPE_PASSWORD) ||
  (type =? PSA_KEY_TYPE_PASSWORD_HASH) || (type =? PSA_KEY_TYPE_PEPPER).

(** ** Public-key-only and post-quantum sizes: [bits] to length, 0 for none *)

Definition mldsa_public_length (bits : Z) : Z :=
  if bits =? 128 then 1312 else if bits =? 192 then 1952
  else if bits =? 256 then 2592 else 0.
Definition mlkem_public_length (bits : Z) : Z :=
  if bits =? 512 then 800 else if bits =? 768 then 1184
  else if bits =? 1024 then 1568 else 0.
Definition lms_public_length (bits : Z) : Z :=
  if bits =? 192 then 48 else if bits =? 256 then 56 else 0.
Definition hss_public_length (bits : Z) : Z :=
  if bits =? 192 then 52 else if bits =? 256 then 60 else 0.
Definition xmss_public_length (bits : Z) : Z :=
  if bits =? 192 then 52 else if bits =? 256 then 68 else 0.

(** [wolfpsa_infer_key_bits], its arms in order. *)

Definition infer_byte_string_bits (len : Z) : psa_status_t + Z :=
  if (len =? 0) || (PSA_MAX_KEY_BITS <? len * 8) then inl PSA_ERROR_INVALID_ARGUMENT
  else inr (to_u16 (len * 8)).

Definition infer_ecc_bits (type len : Z) : psa_status_t + Z :=
  let family := PSA_KEY_TYPE_ECC_GET_FAMILY type in
  let inferred :=
    if PSA_KEY_TYPE_IS_ECC_PUBLIC_KEY type then
      if raw_point_family family then inr (wolfpsa_ecc_bits_from_length family len)
      else if (len <? 2) || negb (Z.land (len - 1) 1 =? 0)
      then inl PSA_ERROR_INVALID_ARGUMENT
      else inr (wolfpsa_ecc_bits_from_length family ((len - 1) / 2))
    else inr (wolfpsa_ecc_bits_from_length family len) in
  match inferred with
  | inl e => inl e
  | inr bits => if bits =? 0 then inl PSA_ERROR_INVALID_ARGUMENT else inr bits
  end.

Definition infer_public_bits (type len : Z) : psa_status_t + Z :=
  if PSA_KEY_TYPE_IS_ML_DSA type then
    if type =? PSA_KEY_TYPE_ML_DSA_PUBLIC_KEY then
      if len =? 1312 then inr 128 else if len =? 1952 then inr 192
      else if len =? 2592 then inr 256 else inl PSA_ERROR_INVALID_ARGUMENT
    else inl PSA_ERROR_INVALID_ARGUMENT
  else if PSA_KEY_TYPE_IS_ML_KEM type then
    if type =? PSA_KEY_TYPE_ML_KEM_PUBLIC_KEY then
      if len =? 800 then inr 512 else if len =? 1184 then inr 768
      else if len =? 1568 then inr 1024 else inl PSA_ERROR_INVALID_ARGUMENT
    else inl PSA_ERROR_INVALID_ARGUMENT
  else if type =? PSA_KEY_TYPE_LMS_PUBLIC_KEY then
    if len =? 48 then inr 192 else if len =? 56 then inr 256
    else inl PSA_ERROR_INVALID_ARGUMENT
  else if type =? PSA_KEY_TYPE_HSS_PUBLIC_KEY then
    if len =? 52 then inr 192 else if len =? 60 then inr 256
    else inl PSA_ERROR_INVALID_ARGUMENT
  else if (type =? PSA_KEY_TYPE_XMSS_PUBLIC_KEY) || (type =? PSA_KEY_TYPE_XMSS_MT_PUBLIC_KEY)
  then
    if len =? 52 then inr 192 else if len =? 68 then inr 256
    else inl PSA_ERROR_INVALID_ARGUMENT
  else inl PSA_ERROR_INVALID_ARGUMENT.

Definition wolfpsa_infer_key_bits (attr : psa_key_attributes_t) (len : Z)
  : psa_status_t + psa_key_attributes_t :=
  let type := attr_type attr in
  if negb (attr_bits attr =? 0) then inr attr
  else
    let bits :=
      if (type =? PSA_KEY_TYPE_AES) || (type =? PSA_KEY_TYPE_DES) ||
         (type =? PSA_KEY_TYPE_CHACHA20) || (type =? PSA_KEY_TYPE_XCHACHA20) ||
         is_byte_string_type type
      then infer_byte_string_bits len
      else if PSA_KEY_TYPE_IS_ECC type then infer_ecc_bits type len
      else if PSA_KEY_TYPE_IS_DH type then inr (to_u16 (len * 8))
      else infer_public_bits type len in
    match bits with
    | inl e => inl e
    | inr b => inr (set_bits attr b)
    end.

(** * The per-type checks of [psa_import_key] *)

Definition guard_arg (ok : bool) (k : psa_status_t) : psa_status_t :=
  if ok then k else PSA_ERROR_INVALID_ARGUMENT.

Definition import_check_chacha (attr : psa_key_attributes_t) (len : Z) : psa_status_t :=
  if (attr_type attr =? PSA_KEY_TYPE_CHACHA20) || (attr_type attr =? PSA_KEY_TYPE_XCHACHA20)
  then guard_arg (attr_bits attr =? 256) (guard_arg (len =? 32) PSA_SUCCESS)
  else PSA_SUCCESS.

Definition import_check_aes (attr : psa_key_attributes_t) (len : Z) : psa_status_t :=
  let bits := attr_bits attr in
  guard_arg ((bits =? 128) || (bits =? 192) || (bits =? 256))
    (guard_arg ((len =? 16) || (len =? 24) || (len =? 32))
      (guard_arg (bits =? to_u16 (len * 8)) PSA_SUCCESS)).

Definition import_check_des (attr : psa_key_attributes_t) (len : Z) : psa_status_t :=
  if len =? 16 then PSA_ERROR_NOT_SUPPORTED
  else guard_arg (len =? 24) (guard_arg (attr_bits attr =? to_u16 (len * 8)) PSA_SUCCESS).

Definition import_check_byte_string (attr : psa_key_attributes_t) (len : Z) : psa_status_t :=
  guard_arg (negb (PSA_MAX_KEY_BITS <? len * 8) && (attr_bits attr =? to_u16 (len * 8)))
            PSA_SUCCESS.

(** A [switch] that gives the expected length (0: the [default] arm). *)
Definition import_check_expected (expected len : Z) : psa_status_t :=
  guard_arg (negb (expected =? 0)) (guard_arg (len =? expected) PSA_SUCCESS).

Definition import_check_mldsa (attr : psa_key_attributes_t) (len : Z) : psa_status_t :=
  let bits := attr_bits attr in
  if attr_type attr =? PSA_KEY_TYPE_ML_DSA_KEY_PAIR
  then guard_arg ((bits =? 128) || (bits =? 192) || (bits =? 256))
         (guard_arg (len =? 32) PSA_SUCCESS)
  else import_check_expected (mldsa_public_length bits) len.

Definition import_check_mlkem (attr : psa_key_attributes_t) (len : Z) : psa_status_t :=
  let bits := attr_bits attr in
  if attr_type attr =? PSA_KEY_TYPE_ML_KEM_KEY_PAIR
  then guard_arg ((bits =? 512) || (bits =? 768) || (bits =? 1024))
         (guard_arg (len =? 64) PSA_SUCCESS)
  else import_check_expected (mlkem_public_length bits) len.

(** The coordinate length that the data implies; [None] is a malformed point. *)
Definition import_ecc_coord_len (type : Z) (data : list byte) : option Z :=
  let family := PSA_KEY_TYPE_ECC_GET_FAMILY type in
  let len := zlen data in
  if PSA_KEY_TYPE_IS_ECC_PUBLIC_KEY type then
    if raw_point_family family then Some len
    else if (len <? 3) || (len mod 2 =? 0) then None
    else if negb (bool_decide (head data = Some x04)) then None
    else Some ((len - 1) / 2)
  else Some len.

Section ImportChecks.
Context {C : Config} {E : WolfCryptErr} {K : WolfCryptKeys}.

Definition import_check_ecc (attr : psa_key_attributes_t) (data : list byte) : psa_status_t :=
let family := PSA_KEY_TYPE_ECC_GET_FAMILY (attr_type attr) in
match import_ecc_coord_len (attr_type attr) data with
| None => PSA_ERROR_INVALID_ARGUMENT
| Some coord_len =>
    let expected_len := wolfpsa_ecc_length_from_bits family (attr_bits attr) in
    if expected_len =? 0 then PSA_ERROR_NOT_SUPPORTED
    else if negb (coord_len =? expected_len) then PSA_ERROR_INVALID_ARGUMENT
    else if HAVE_ECC && negb (raw_point_family family)
    then wolfpsa_ecc_check_key attr data
    else PSA_SUCCESS
end.

(** The [if]/[else if] chain over key types. *)
Definition import_check_data (attr : psa_key_attributes_t) (data : list byte) : psa_status_t :=
let type := attr_type attr in
let len := zlen data in
match import_check_chacha attr len with
| PSA_SUCCESS =>
    if type =? PSA_KEY_TYPE_AES then import_check_aes attr len
    else if type =? PSA_KEY_TYPE_DES then import_check_des attr len
    else if is_byte_string_type type then import_check_byte_string attr len
    else if PSA_KEY_TYPE_IS_ML_DSA type then import_check_mldsa attr len
    else if PSA_KEY_TYPE_IS_ML_KEM type then import_check_mlkem attr len
    else if type =? PSA_KEY_TYPE_LMS_PUBLIC_KEY
    then import_check_expected (lms_public_length (attr_bits attr)) len
    else if type =? PSA_KEY_TYPE_HSS_PUBLIC_KEY
    then import_check_expected (hss_public_length (attr_bits attr)) len
    else if (type =? PSA_KEY_TYPE_XMSS_PUBLIC_KEY) || (type =? PSA_KEY_TYPE_XMSS_MT_PUBLIC_KEY)
    then import_check_expected (xmss_public_length (attr_bits attr)) len
    else if PSA_KEY_TYPE_IS_ECC_PUBLIC_KEY type || PSA_KEY_TYPE_IS_ECC_KEY_PAIR type
    then import_check_ecc attr data
    else PSA_SUCCESS
| e => e
end.

(** The size of an RSA key comes from its data, that of other keys from the
  attributes or, when they do not give it, from the data. *)
Definition import_key_bits (attr : psa_key_attributes_t) (data : list byte)
: psa_status_t + psa_key_attributes_t :=
let rsa :=
  if negb NO_RSA && PSA_KEY_TYPE_IS_RSA (attr_type attr) then
    match wolfpsa_rsa_key_bits (attr_type attr) data with
    | inl e => inl e
    | inr rsa_bits =>
        if negb (attr_bits attr =? 0) && negb (attr_bits attr =? rsa_bits)
        then inl PSA_ERROR_INVALID_ARGUMENT
        else inr (set_bits attr rsa_bits)
    end
  else inr attr in
match rsa with
| inl e => inl e
| inr attr1 =>
    if attr_bits attr1 =? 0 then wolfpsa_infer_key_bits attr1 (zlen data) else inr attr1
end.
End ImportChecks.

(** * The record header *)

Section Header.
Context {C : Config}.

Definition host_bytes (n : nat) (z : Z) : list byte :=
if host_big_endian then be_bytes n z else le_bytes n z.
Definition host_val (bs : list byte) : Z :=
if host_big_endian then be_val bs else le_val bs.

(** [sizeof] of type, bits, usage, algorithm and lifetime; of [size_t]. *)
Definition attr_length : Z := 16.
Definition sizeof_size_t : Z := 8.

Definition psa_key_attributes_serialize (a : psa_key_attributes_t) (buffer_size : Z)
: psa_status_t + list byte :=
if buffer_size <? attr_length then inl PSA_ERROR_BUFFER_TOO_SMALL
else inr (host_bytes 2 (attr_type a) ++ host_bytes 2 (attr_bits a)
            ++ host_bytes 4 (usage (attr_policy a))
            ++ host_bytes 4 (alg (attr_policy a))
            ++ host_bytes 4 (attr_lifetime a)).

(** [attributes] is updated in place: its [id] field is left as it was. *)
Definition psa_key_attributes_deserialize (buffer : list byte) (a : psa_key_attributes_t)
: psa_status_t + psa_key_attributes_t :=
if zlen buffer <? attr_length then inl PSA_ERROR_INVALID_ARGUMENT
else
  inr (mkAttributes (host_val (take 2 buffer))
                    (host_val (take 2 (drop 2 buffer)))
                    (host_val (take 4 (drop 12 buffer)))
                    (mkPolicy (host_val (take 4 (drop 4 buffer)))
                              (host_val (take 4 (drop 8 buffer)))
                              PSA_ALG_NONE)
                    (attr_id a)).

(** The buffer [psa_import_key] builds: header, length, data. *)
Definition serialize_record (a : psa_key_attributes_t) (data : list byte) (buffer_size : Z)
: psa_status_t + list byte :=
match psa_key_attributes_serialize a buffer_size with
| inl e => inl e
| inr h => inr (h ++ host_bytes 8 (zlen data) ++ data)
end.

Lemma length_host_bytes n z : length (host_bytes n z) = n.
Proof. unfold host_bytes. case_match; [apply length_be_bytes | apply length_le_bytes]. Qed.

Lemma host_val_bytes n z : 0 <= z < 256 ^ Z.of_nat n -> host_val (host_bytes n z) = z.
Proof.
intros. unfold host_val, host_bytes. case_match.
- rewrite be_val_be_bytes. by apply Z.mod_small.
- rewrite le_val_le_bytes. by apply Z.mod_small.
Qed.

Lemma host_val_range bs : 0 <= host_val bs < 256 ^ Z.of_nat (length bs).
Proof. unfold host_val. case_match; [apply be_val_range | apply le_val_range]. Qed.
End Header.

(** * Specification: well-formed keys *)

(** The classes of key types the import rules tell apart. *)
Inductive key_class_t : Set :=
| CkAes | CkDes | CkChacha | CkBytes | CkMlDsa | CkMlKem | CkLms | CkHss | CkXmss
| CkEcc | CkRsa | CkDh | CkOther.

#[global] Instance key_class_eq_dec : EqDecision key_class_t.
Proof. solve_decision. Defined.

Definition class_predicates : list (key_class_t * (Z -> bool)) :=
  [ (CkAes, Z.eqb PSA_KEY_TYPE_AES); (CkDes, Z.eqb PSA_KEY_TYPE_DES);
    (CkChacha, fun t => (t =? PSA_KEY_TYPE_CHACHA20) || (t =? PSA_KEY_TYPE_XCHACHA20));
    (CkBytes, is_byte_string_type);
    (CkMlDsa, PSA_KEY_TYPE_IS_ML_DSA); (CkMlKem, PSA_KEY_TYPE_IS_ML_KEM);
    (CkLms, Z.eqb PSA_KEY_TYPE_LMS_PUBLIC_KEY); (CkHss, Z.eqb PSA_KEY_TYPE_HSS_PUBLIC_KEY);
    (CkXmss, fun t => (t =? PSA_KEY_TYPE_XMSS_PUBLIC_KEY) || (t =? PSA_KEY_TYPE_XMSS_MT_PUBLIC_KEY));
    (CkEcc, fun t => PSA_KEY_TYPE_IS_ECC_PUBLIC_KEY t || PSA_KEY_TYPE_IS_ECC_KEY_PAIR t);
    (CkRsa, PSA_KEY_TYPE_IS_RSA); (CkDh, PSA_KEY_TYPE_IS_DH) ].

Definition key_class (type : Z) : key_class_t :=
  match List.find (fun p => p.2 type) class_predicates with
  | Some p => p.1
  | None => CkOther
  end.

(** The predicates exclude one another on every 16-bit type. *)
Lemma key_class_exclusive t c p :
  0 <= t < 2 ^ 16 -> In (c, p) class_predicates -> p t = bool_decide (key_class t = c).
Proof.
  intros Ht Hin.
  assert (Hall : forallb (fun q => Bool.eqb (q.2 t) (bool_decide (key_class t = q.1)))
                   class_predicates = true).
  { revert t Ht. apply (all_bits_below 16). vm_compute. reflexivity. }
  rewrite forallb_forall in Hall. specialize (Hall _ Hin). by apply Bool.eqb_prop in Hall.
Qed.

(** The curves of the tables, and the size of a coordinate: the bytes of the
    field, but Ed448 points carry one more byte (RFC 8032). *)
Definition supported_curves : list (Z * Z) :=
  [ (PSA_ECC_FAMILY_SECP_R1, 192); (PSA_ECC_FAMILY_SECP_R1, 224);
    (PSA_ECC_FAMILY_SECP_R1, 256); (PSA_ECC_FAMILY_SECP_R1, 384);
    (PSA_ECC_FAMILY_SECP_R1, 521); (PSA_ECC_FAMILY_SECP_K1, 192);
    (PSA_ECC_FAMILY_SECP_K1, 224); (PSA_ECC_FAMILY_SECP_K1, 256);
    (PSA_ECC_FAMILY_BRAINPOOL_P_R1, 256); (PSA_ECC_FAMILY_BRAINPOOL_P_R1, 384);
    (PSA_ECC_FAMILY_BRAINPOOL_P_R1, 512); (PSA_ECC_FAMILY_MONTGOMERY, 255);
    (PSA_ECC_FAMILY_MONTGOMERY, 448); (PSA_ECC_FAMILY_TWISTED_EDWARDS, 255);
    (PSA_ECC_FAMILY_TWISTED_EDWARDS, 448) ].

Definition coordinate_bytes (family bits : Z) : Z :=
  PSA_BITS_TO_BYTES bits +
  (if (family =? PSA_ECC_FAMILY_TWISTED_EDWARDS) && (bits =? 448) then 1 else 0).

Lemma ecc_length_spec family bits len :
  len <> 0 ->
  wolfpsa_ecc_length_from_bits family bits = len <->
  (family, bits) ∈ supported_curves /\ len = coordinate_bytes family bits.
Proof.
  intros Hlen. split.
  - unfold wolfpsa_ecc_length_from_bits. intros <-.
    repeat case_match; try done;
      repeat match goal with H : (_ =? _) = true |- _ => apply Z.eqb_eq in H; subst end;
      (split; [apply (bool_decide_unpack _); vm_compute; exact I | reflexivity]).
  - intros [Hin ->]. unfold supported_curves in Hin.
    repeat (apply elem_of_cons in Hin as [Hin|Hin]; [simplify_eq; reflexivity|]).
    by apply elem_of_nil in Hin.
Qed.

Section WellFormed.
Context {C : Config} {E : WolfCryptErr} {K : WolfCryptKeys}.

(** An RSA key whose data decodes to a modulus of [bits] bits. *)
Definition rsa_key_of_bits (type : Z) (data : list byte) (bits : Z) : Prop :=
wc_InitRsaKey = 0 /\
exists n e,
  (if type =? PSA_KEY_TYPE_RSA_PUBLIC_KEY
   then wc_RsaPublicKeyDecode data else wc_RsaPrivateKeyDecode data)
    = (0, (zlen data, (n, e))) /\
  mp_count_bits n = bits /\ mp_isodd e = true /\ mp_cmp_d e 3 <> Lt /\
  0 < bits <= PSA_VENDOR_RSA_MAX_KEY_BITS /\ RSA_MIN_SIZE <= bits /\ bits mod 8 = 0.

(** The data is a private scalar or a public point of the curve. *)
Definition ecc_data_shape (type bits : Z) (data : list byte) : Prop :=
let family := PSA_KEY_TYPE_ECC_GET_FAMILY type in
(family, bits) ∈ supported_curves /\
let n := coordinate_bytes family bits in
if PSA_KEY_TYPE_IS_ECC_PUBLIC_KEY type && negb (raw_point_family family)
then exists x y, data = x04 :: x ++ y /\ zlen x = n /\ zlen y = n
else zlen data = n.

Definition well_formed_key (a : psa_key_attributes_t) (data : list byte) : Prop :=
let type := attr_type a in
let bits := attr_bits a in
let len := zlen data in
match key_class type with
| CkAes => bits = 8 * len /\ (bits = 128 \/ bits = 192 \/ bits = 256)
| CkDes => bits = 192 /\ len = 24
| CkChacha => bits = 256 /\ len = 32
| CkBytes => bits = 8 * len /\ bits <= PSA_MAX_KEY_BITS
| CkMlDsa =>
    if type =? PSA_KEY_TYPE_ML_DSA_KEY_PAIR
    then len = 32 /\ (bits = 128 \/ bits = 192 \/ bits = 256)
    else (bits, len) ∈ [(128, 1312); (192, 1952); (256, 2592)]
| CkMlKem =>
    if type =? PSA_KEY_TYPE_ML_KEM_KEY_PAIR
    then len = 64 /\ (bits = 512 \/ bits = 768 \/ bits = 1024)
    else (bits, len) ∈ [(512, 800); (768, 1184); (1024, 1568)]
| CkLms => (bits, len) ∈ [(192, 48); (256, 56)]
| CkHss => (bits, len) ∈ [(192, 52); (256, 60)]
| CkXmss => (bits, len) ∈ [(192, 52); (256, 68)]
| CkEcc =>
    ecc_data_shape type bits data /\
    (HAVE_ECC = true -> raw_point_family (PSA_KEY_TYPE_ECC_GET_FAMILY type) = false ->
     wolfpsa_ecc_check_key a data = PSA_SUCCESS)
| CkRsa => NO_RSA = false -> rsa_key_of_bits type data bits
| CkDh | CkOther => True
end.

(** ** The checks class by class *)

Lemma guard_arg_success ok k : guard_arg ok k = PSA_SUCCESS <-> ok = true /\ k = PSA_SUCCESS.
Proof. unfold guard_arg. destruct ok; split; intuition congruence. Qed.

Lemma check_expected_success expected len :
import_check_expected expected len = PSA_SUCCESS <-> expected <> 0 /\ len = expected.
Proof. unfold import_check_expected. rewrite !guard_arg_success. split; intros; lia || intuition lia. Qed.

(** The chain of [import_check_data] follows the class. *)
Lemma import_check_data_class a data :
0 <= attr_type a < 2 ^ 16 ->
import_check_data a data =
  let len := zlen data in
  match key_class (attr_type a) with
  | CkAes => import_check_aes a len
  | CkDes => import_check_des a len
  | CkChacha => import_check_chacha a len
  | CkBytes => import_check_byte_string a len
  | CkMlDsa => import_check_mldsa a len
  | CkMlKem => import_check_mlkem a len
  | CkLms => import_check_expected (lms_public_length (attr_bits a)) len
  | CkHss => import_check_expected (hss_public_length (attr_bits a)) len
  | CkXmss => import_check_expected (xmss_public_length (attr_bits a)) len
  | CkEcc => import_check_ecc a data
  | CkRsa | CkDh | CkOther => PSA_SUCCESS
  end.
Proof.
intros Ht. unfold import_check_data.
pose proof (fun c p => key_class_exclusive (attr_type a) c p Ht) as Hx.
rewrite (Z.eqb_sym (attr_type a) PSA_KEY_TYPE_AES), (Z.eqb_sym (attr_type a) PSA_KEY_TYPE_DES),
  (Z.eqb_sym (attr_type a) PSA_KEY_TYPE_LMS_PUBLIC_KEY),
  (Z.eqb_sym (attr_type a) PSA_KEY_TYPE_HSS_PUBLIC_KEY).
rewrite (Hx CkAes (Z.eqb PSA_KEY_TYPE_AES)), (Hx CkDes (Z.eqb PSA_KEY_TYPE_DES)),
  (Hx CkBytes is_byte_string_type), (Hx CkMlDsa PSA_KEY_TYPE_IS_ML_DSA),
  (Hx CkMlKem PSA_KEY_TYPE_IS_ML_KEM), (Hx CkLms (Z.eqb PSA_KEY_TYPE_LMS_PUBLIC_KEY)),
  (Hx CkHss (Z.eqb PSA_KEY_TYPE_HSS_PUBLIC_KEY)) by (simpl; tauto).
pose proof (Hx CkXmss _ ltac:(simpl; tauto)) as Hxm. simpl in Hxm. rewrite Hxm.
pose proof (Hx CkEcc _ ltac:(simpl; tauto)) as He. simpl in He. rewrite He.
pose proof (Hx CkChacha _ ltac:(simpl; tauto)) as Hc. simpl in Hc.
unfold import_check_chacha. rewrite Hc.
destruct (key_class (attr_type a)); simpl; try done.
by destruct (guard_arg _ _).
Qed.

Lemma sec1_coord_len data n :
0 < n ->
(if (zlen data <? 3) || (zlen data mod 2 =? 0) then None
 else if negb (bool_decide (head data = Some x04)) then None
 else Some ((zlen data - 1) / 2)) = Some n <->
exists x y, data = x04 :: x ++ y /\ zlen x = n /\ zlen y = n.
Proof.
intros Hn. split.
- destruct data as [|b rest]; [done|]. simpl head.
  destruct ((zlen (b :: rest) <? 3) || _) eqn:Hl; [done|].
  case_bool_decide as Hb; simpl; [|done]. intros [= Hd]. injection Hb as ->.
  assert (zlen (x04 :: rest) = zlen rest + 1) by (unfold zlen; simpl length; lia).
  assert (zlen rest = 2 * n).
  { pose proof (Z.div_mod (zlen rest + 1) 2 ltac:(lia)).
    pose proof (Z.mod_pos_bound (zlen rest + 1) 2 ltac:(lia)).
    pose proof (Z.div_mod (zlen rest) 2 ltac:(lia)).
    pose proof (Z.mod_pos_bound (zlen rest) 2 ltac:(lia)).
    replace (zlen (x04 :: rest) - 1) with (zlen rest) in Hd by lia.
    rewrite H in Hl. lia. }
  exists (take (Z.to_nat n) rest), (drop (Z.to_nat n) rest).
  rewrite take_drop. split; [done|].
  unfold zlen in *. rewrite length_take, length_drop. lia.
- intros (x & y & -> & Hx & Hy). simpl head.
  assert (Hz : zlen (x04 :: x ++ y) = 2 * n + 1)
    by (change (x04 :: x ++ y) with ([x04] ++ x ++ y); rewrite !zlen_app;
        change (zlen [x04]) with 1; lia).
  rewrite Hz. rewrite (bool_decide_eq_true_2 (Some x04 = Some x04)) by done.
  replace ((2 * n + 1) mod 2) with 1 by (apply Z.mod_unique with n; lia).
  replace ((2 * n + 1 - 1) / 2) with n by (apply Z.div_unique with 0; lia).
  destruct (Z.ltb_spec (2 * n + 1) 3); [lia|]. done.
Qed.

Lemma supported_curve_positive family bits :
(family, bits) ∈ supported_curves -> 0 < coordinate_bytes family bits.
Proof.
intros Hin. unfold supported_curves in Hin.
repeat (apply elem_of_cons in Hin as [Hin|Hin]; [simplify_eq; reflexivity|]).
by apply elem_of_nil in Hin.
Qed.

Lemma import_ecc_coord_len_spec type data n :
0 < n ->
import_ecc_coord_len type data = Some n <->
if PSA_KEY_TYPE_IS_ECC_PUBLIC_KEY type
   && negb (raw_point_family (PSA_KEY_TYPE_ECC_GET_FAMILY type))
then exists x y, data = x04 :: x ++ y /\ zlen x = n /\ zlen y = n
else zlen data = n.
Proof.
intros Hn. unfold import_ecc_coord_len.
destruct (PSA_KEY_TYPE_IS_ECC_PUBLIC_KEY type); simpl; [|split; congruence].
destruct (raw_point_family _); simpl; [split; congruence|].
by apply sec1_coord_len.
Qed.

Lemma import_check_ecc_success a data :
import_check_ecc a data = PSA_SUCCESS <->
ecc_data_shape (attr_type a) (attr_bits a) data /\
(HAVE_ECC = true ->
 raw_point_family (PSA_KEY_TYPE_ECC_GET_FAMILY (attr_type a)) = false ->
 wolfpsa_ecc_check_key a data = PSA_SUCCESS).
Proof.
unfold import_check_ecc, ecc_data_shape. cbv zeta.
set (family := PSA_KEY_TYPE_ECC_GET_FAMILY (attr_type a)).
pose proof (ecc_length_spec family (attr_bits a)) as Hs. split.
- destruct (import_ecc_coord_len _ _) as [c|] eqn:Hc; [|done].
  destruct (Z.eqb_spec (wolfpsa_ecc_length_from_bits family (attr_bits a)) 0); [done|].
  destruct (Z.eqb_spec c (wolfpsa_ecc_length_from_bits family (attr_bits a))) as [->|]; [|done].
  destruct (proj1 (Hs _ n) eq_refl) as [Hin Hl]. intros Hk. split; [split; [done|]|].
  + apply import_ecc_coord_len_spec; [by apply supported_curve_positive|].
    by rewrite <- Hl.
  + intros Hecc Hraw. fold family in Hraw. by rewrite Hecc, Hraw in Hk.
- intros [[Hin Hd] Hk]. pose proof (supported_curve_positive _ _ Hin) as Hpos.
  apply import_ecc_coord_len_spec in Hd; [|done]. rewrite Hd.
  rewrite (proj2 (Hs (coordinate_bytes family (attr_bits a)) ltac:(lia))) by done.
  rewrite Z.eqb_refl. destruct (Z.eqb_spec (coordinate_bytes family (attr_bits a)) 0); [lia|].
  simpl. destruct HAVE_ECC, (raw_point_family family) eqn:Hraw; simpl; auto.
Qed.

(** ** RSA *)

Lemma rsa_key_bits_spec type data bits :
zlen data <= INT_MAX ->
wolfpsa_rsa_key_bits type data = inr bits <-> rsa_key_of_bits type data bits.
Proof.
intros Hlen. unfold wolfpsa_rsa_key_bits, rsa_key_of_bits.
pose proof (zlen_nonneg data). unfold INT_MAX in Hlen.
rewrite (to_u32_small (zlen data)) by (unfold UINT32_MAX; lia).
set (r := if type =? _ then _ else _). destruct r as [ret [idx [n e]]]. split.
- destruct (Z.eqb_spec wc_InitRsaKey 0); [|done]. simpl.
  destruct (Z.eqb_spec ret 0); [|done]. simpl.
  destruct (negb (idx =? zlen data) || _ || _) eqn:H1; [done|].
  destruct (negb (mp_count_bits n mod 8 =? 0) || _ || _) eqn:H2; [done|].
  intros [= <-]. split; [done|]. exists n, e. unfold PSA_VENDOR_RSA_MAX_KEY_BITS in *.
  rewrite to_u16_small by (unfold UINT16_MAX; lia).
  apply orb_false_iff in H1 as [H1 He]. apply negb_false_iff in He.
  apply andb_prop in He as [Ho Hc].
  split; [repeat f_equal; lia|]. split; [done|]. split; [done|].
  split; [by destruct (mp_cmp_d e 3)|]. lia.
- intros [Hinit (n' & e' & [= -> -> -> ->] & <- & Ho & Hc & Hb & Hmin & Hmod)].
  rewrite Hinit. simpl. rewrite Z.eqb_refl, Ho. unfold PSA_VENDOR_RSA_MAX_KEY_BITS in *.
  rewrite Hmod. destruct (mp_cmp_d e' 3); try done; simpl;
    rewrite (proj2 (Z.leb_gt _ 0)), (proj2 (Z.ltb_ge _ RSA_MIN_SIZE)),
      (proj2 (Z.ltb_ge 4096 _)) by lia; simpl; rewrite to_u16_small;
    unfold UINT16_MAX; try done; lia.
Qed.

(** ** The whole check *)

Lemma table_success bits len (table : list (Z * Z)) (f : Z -> Z) :
(forall b l, (b, l) ∈ table <-> l <> 0 /\ f b = l) ->
import_check_expected (f bits) len = PSA_SUCCESS <-> (bits, len) ∈ table.
Proof. intros Ht. rewrite check_expected_success, Ht. intuition lia. Qed.

Ltac solve_table :=
intros b l; rewrite ?elem_of_cons, elem_of_nil;
unfold mldsa_public_length, mlkem_public_length, lms_public_length,
  hss_public_length, xmss_public_length;
split; [intuition simplify_eq; done || lia
       |repeat case_match; intuition (try lia; try (f_equal; lia));
        repeat match goal with H : (_ =? _) = true |- _ => apply Z.eqb_eq in H; subst end;
        intuition (try lia)].

Lemma mldsa_table bits len :
import_check_expected (mldsa_public_length bits) len = PSA_SUCCESS <->
(bits, len) ∈ [(128, 1312); (192, 1952); (256, 2592)].
Proof. apply table_success. solve_table. Qed.
Lemma mlkem_table bits len :
import_check_expected (mlkem_public_length bits) len = PSA_SUCCESS <->
(bits, len) ∈ [(512, 800); (768, 1184); (1024, 1568)].
Proof. apply table_success. solve_table. Qed.
Lemma lms_table bits len :
import_check_expected (lms_public_length bits) len = PSA_SUCCESS <->
(bits, len) ∈ [(192, 48); (256, 56)].
Proof. apply table_success. solve_table. Qed.
Lemma hss_table bits len :
import_check_expected (hss_public_length bits) len = PSA_SUCCESS <->
(bits, len) ∈ [(192, 52); (256, 60)].
Proof. apply table_success. solve_table. Qed.
Lemma xmss_table bits len :
import_check_expected (xmss_public_length bits) len = PSA_SUCCESS <->
(bits, len) ∈ [(192, 52); (256, 68)].
Proof. apply table_success. solve_table. Qed.

Lemma byte_string_success a len :
0 <= len -> import_check_byte_string a len = PSA_SUCCESS <->
attr_bits a = 8 * len /\ attr_bits a <= PSA_MAX_KEY_BITS.
Proof.
intros Hl. unfold import_check_byte_string, PSA_MAX_KEY_BITS. rewrite guard_arg_success.
destruct (Z.ltb_spec 65528 (len * 8)); simpl.
- split; intros; intuition (try discriminate; lia).
- rewrite to_u16_small by (unfold UINT16_MAX; lia). intuition lia.
Qed.

(** Outside RSA, the chain accepts exactly the well-formed keys. *)
Lemma import_check_data_spec a data :
0 <= attr_type a < 2 ^ 16 -> key_class (attr_type a) <> CkRsa ->
import_check_data a data = PSA_SUCCESS <-> well_formed_key a data.
Proof.
intros Ht Hrsa. rewrite import_check_data_class by done.
pose proof (zlen_nonneg data). unfold well_formed_key. cbv zeta.
destruct (key_class (attr_type a)) eqn:Hk; try done.
- unfold import_check_aes. rewrite !guard_arg_success. split.
  + intros (? & ? & Hb & _). rewrite to_u16_small in Hb by (unfold UINT16_MAX; lia). lia.
  + intros [? ?]. rewrite to_u16_small by (unfold UINT16_MAX; lia). split_and!; done || lia.
- unfold import_check_des. destruct (Z.eqb_spec (zlen data) 16); [split; [done|lia]|].
  rewrite !guard_arg_success. split.
  + intros (? & Hb & _). rewrite to_u16_small in Hb by (unfold UINT16_MAX; lia). lia.
  + intros [? ?]. rewrite to_u16_small by (unfold UINT16_MAX; lia). split_and!; done || lia.
- unfold import_check_chacha.
  pose proof (key_class_exclusive (attr_type a) CkChacha _ Ht ltac:(simpl; tauto)) as Hc.
  cbv beta in Hc. rewrite Hc, bool_decide_eq_true_2, !guard_arg_success by done.
  split; intros; split_and!; done || lia.
- by apply byte_string_success.
- unfold import_check_mldsa. case_match; [|apply mldsa_table].
  rewrite !guard_arg_success. split; intros; split_and!; done || lia.
- unfold import_check_mlkem. case_match; [|apply mlkem_table].
  rewrite !guard_arg_success. split; intros; split_and!; done || lia.
- apply lms_table.
- apply hss_table.
- apply xmss_table.
- apply import_check_ecc_success.
Qed.

(** What [import_key_bits] does to the attributes. *)
Lemma import_key_bits_attr attr data a' :
import_key_bits attr data = inr a' ->
(exists b, a' = set_bits attr b) /\ (attr_bits attr <> 0 -> a' = attr).
Proof.
unfold import_key_bits. intros Hb.
destruct (negb NO_RSA && PSA_KEY_TYPE_IS_RSA (attr_type attr)).
- destruct (wolfpsa_rsa_key_bits (attr_type attr) data) as [|bits]; [done|].
  destruct (negb (attr_bits attr =? 0) && negb (attr_bits attr =? bits)) eqn:Hm; [done|].
  simpl in Hb. destruct (Z.eqb_spec bits 0) as [->|].
  + unfold wolfpsa_infer_key_bits in Hb. simpl in Hb. split; [|lia].
    repeat (case_match; simplify_eq/=); eauto.
  + injection Hb as <-. split; [eauto|]. intros ?.
    replace bits with (attr_bits attr) by lia. by destruct attr.
- destruct (Z.eqb_spec (attr_bits attr) 0) as [H0|].
  + unfold wolfpsa_infer_key_bits in Hb. rewrite H0 in Hb. simpl in Hb. split; [|lia].
    repeat (case_match; simplify_eq/=); eauto.
  + injection Hb as <-. split; [exists (attr_bits attr); by destruct attr | done].
Qed.

Lemma infer_key_bits_range a len a' :
0 <= attr_bits a < 2 ^ 16 -> wolfpsa_infer_key_bits a len = inr a' ->
0 <= attr_bits a' < 2 ^ 16.
Proof.
unfold wolfpsa_infer_key_bits, infer_byte_string_bits, infer_ecc_bits, infer_public_bits,
  wolfpsa_ecc_bits_from_length.
pose proof (to_u16_range (len * 8)) as Hr.
intros Ha Hi. destruct (attr_bits a =? 0); simpl in Hi; [|by simplify_eq].
repeat (case_match; simplify_eq/=); lia.
Qed.

Lemma import_key_bits_range a data a' :
0 <= attr_bits a < 2 ^ 16 -> import_key_bits a data = inr a' -> 0 <= attr_bits a' < 2 ^ 16.
Proof.
intros Ha Hb. unfold import_key_bits in Hb.
destruct (negb NO_RSA && PSA_KEY_TYPE_IS_RSA (attr_type a)).
- destruct (wolfpsa_rsa_key_bits (attr_type a) data) as [|bits] eqn:Hr; [done|].
  destruct (negb (attr_bits a =? 0) && _); [done|]. simpl in Hb.
  assert (0 <= bits < 2 ^ 16).
  { unfold wolfpsa_rsa_key_bits in Hr.
    repeat (case_match; simplify_eq/=); apply to_u16_range. }
  destruct (bits =? 0); [|by simplify_eq].
  by apply (infer_key_bits_range (set_bits a bits) (zlen data)).
- destruct (attr_bits a =? 0); [by apply (infer_key_bits_range a (zlen data))|by simplify_eq].
Qed.

Lemma import_key_bits_rsa attr data a' :
0 <= attr_type attr < 2 ^ 16 -> key_class (attr_type attr) = CkRsa -> NO_RSA = false ->
zlen data <= INT_MAX ->
import_key_bits attr data = inr a' ->
rsa_key_of_bits (attr_type attr) data (attr_bits a').
Proof.
intros Ht Hk Hrsa Hlen.
pose proof (key_class_exclusive (attr_type attr) CkRsa _ Ht ltac:(simpl; tauto)) as Hr.
unfold import_key_bits. rewrite Hr, bool_decide_eq_true_2, Hrsa by done. simpl.
destruct (wolfpsa_rsa_key_bits (attr_type attr) data) as [|bits] eqn:Hb; [done|].
destruct (negb (attr_bits attr =? 0) && _); [done|].
apply rsa_key_bits_spec in Hb; [|done].
assert (0 < bits) by (destruct Hb as (_ & ? & ? & ?); intuition).
simpl. destruct (Z.eqb_spec bits 0); [lia|]. intros Ha. by injection Ha as <-.
Qed.

(** What the checks accept, for the other proofs. *)
Lemma import_accepts_wf attr data a' :
0 <= attr_type attr < 2 ^ 16 -> zlen data <= INT_MAX ->
import_key_bits attr data = inr a' ->
import_check_data a' data = PSA_SUCCESS ->
well_formed_key a' data /\
a' = set_bits attr (attr_bits a') /\
(attr_bits attr <> 0 -> a' = attr).
Proof.
intros Ht Hlen Hb Hc. destruct (import_key_bits_attr _ _ _ Hb) as [[b ->] Hsame].
split; [|done].
destruct (decide (key_class (attr_type attr) = CkRsa)) as [Hk|Hk].
- unfold well_formed_key. simpl. rewrite Hk. intros Hrsa.
  by apply (import_key_bits_rsa attr data (set_bits attr b)).
- by apply import_check_data_spec.
Qed.

(** C36: what the checks of [psa_import_key] accept is a well-formed key of its
  type: the attributes given are kept, the size is the one given or, when it
  was 0, the one the data has. *)
Theorem import_accepts_sound attr data a' :
0 <= attr_type attr < 2 ^ 16 -> zlen data <= INT_MAX ->
import_key_bits attr data = inr a' ->
import_check_data a' data = PSA_SUCCESS ->
well_formed_key a' data /\
a' = set_bits attr (attr_bits a') /\
(attr_bits attr <> 0 -> a' = attr).
Proof. apply import_accepts_wf. Qed.

(** The checks reject no well-formed key whose size is given. *)
Theorem import_accepts_complete a data :
0 <= attr_type a < 2 ^ 16 -> 0 < attr_bits a < 2 ^ 16 -> zlen data <= INT_MAX ->
(key_class (attr_type a) = CkRsa -> NO_RSA = false) ->
well_formed_key a data ->
import_key_bits a data = inr a /\ import_check_data a data = PSA_SUCCESS.
Proof.
intros Ht Hbits Hlen Hno Hw. split.
- pose proof (key_class_exclusive (attr_type a) CkRsa _ Ht ltac:(simpl; tauto)) as Hr.
  unfold import_key_bits. rewrite Hr. case_bool_decide as Hk.
  + unfold well_formed_key in Hw. rewrite Hk in Hw. specialize (Hw (Hno Hk)).
    apply rsa_key_bits_spec in Hw; [|done]. rewrite (Hno Hk), Hw. simpl.
    destruct (Z.eqb_spec (attr_bits a) 0); [lia|]. rewrite Z.eqb_refl. simpl.
    destruct (Z.eqb_spec (attr_bits a) 0); [lia|]. by destruct a.
  + rewrite andb_false_r. destruct (Z.eqb_spec (attr_bits a) 0); [lia|]. done.
- destruct (decide (key_class (attr_type a) = CkRsa)) as [Hk|Hk].
  + rewrite import_check_data_class by done. by rewrite Hk.
  + by apply import_check_data_spec.
Qed.
End WellFormed.

(** A wolfCrypt whose decoders accept everything, for the witnesses. *)
Definition sample_keys : WolfCryptKeys :=
  {| mp_int := Z; mp_count_bits := fun _ => 2048; mp_isodd := Z.odd; mp_cmp_d := Z.compare;
     RSA_MIN_SIZE := 1024; wc_InitRsaKey := 0;
     wc_RsaPublicKeyDecode := fun d => (0, (zlen d, (0, 65537)));
     wc_RsaPrivateKeyDecode := fun d => (0, (zlen d, (0, 65537)));
     ECC_CURVE_INVALID := -1; ECC_SECP192R1 := 0; ECC_SECP224R1 := 5; ECC_SECP256R1 := 7;
     ECC_SECP384R1 := 15; ECC_SECP521R1 := 16; ECC_SECP192K1 := 19; ECC_SECP224K1 := 20;
     ECC_SECP256K1 := 21; ECC_BRAINPOOLP256R1 := 25; ECC_BRAINPOOLP384R1 := 27;
     ECC_BRAINPOOLP512R1 := 28; ECC_X25519 := 29; ECC_X448 := 30;
     wc_ecc_init_ex := 0;
     wc_ecc_import_private_key_ex := fun _ _ => 0;
     wc_ecc_import_x963_ex := fun _ _ => 0 |}.

Definition sample_aes_attr : psa_key_attributes_t :=
  mkAttributes PSA_KEY_TYPE_AES 0 PSA_KEY_LIFETIME_VOLATILE
    (mkPolicy PSA_KEY_USAGE_EXPORT 0x05500200 0) 0.
Definition sample_aes_data : list byte := replicate 16 x2b.

Lemma import_accepts_sound_witness :
  well_formed_key (C := full_config) (E := sample_codes) (K := sample_keys)
    (set_bits sample_aes_attr 128) sample_aes_data.
Proof.
  apply (import_accepts_sound (C := full_config) (E := sample_codes) (K := sample_keys)
           sample_aes_attr); vm_compute; first [reflexivity | split; congruence | congruence].
Defined.

Lemma import_accepts_complete_witness :
  import_check_data (C := full_config) (E := sample_codes) (K := sample_keys)
    (set_bits sample_aes_attr 128) sample_aes_data = PSA_SUCCESS.
Proof.
  apply (import_accepts_complete (C := full_config) (E := sample_codes) (K := sample_keys)
           (set_bits sample_aes_attr 128) sample_aes_data);
    vm_compute; first [split; [congruence | reflexivity] | congruence | auto].
Defined.

(** The two curve tables are inverse to each other. *)
Theorem ecc_tables_inverse family bits len :
  bits <> 0 -> len <> 0 ->
  wolfpsa_ecc_length_from_bits family bits = len <->
  wolfpsa_ecc_bits_from_length family len = bits.
Proof.
  unfold wolfpsa_ecc_length_from_bits, wolfpsa_ecc_bits_from_length. intros Hb Hl.
  split; intros <-; repeat case_match; try done;
    repeat match goal with H : (_ =? _) = true |- _ => apply Z.eqb_eq in H; subst end; done.
Qed.

Lemma ecc_tables_inverse_witness :
  wolfpsa_ecc_bits_from_length PSA_ECC_FAMILY_SECP_R1 66 = 521.
Proof. by apply (ecc_tables_inverse PSA_ECC_FAMILY_SECP_R1 521 66). Defined.

(** * The record header round-trips *)

Section HeaderRoundTrip.
Context {C : Config}.

Lemma length_attr_header a size h :
psa_key_attributes_serialize a size = inr h -> zlen h = attr_length.
Proof.
unfold psa_key_attributes_serialize. case_match; [done|]. intros [= <-].
unfold zlen. rewrite !length_app, !length_host_bytes. done.
Qed.

(** Fields of a header, one after the other. *)
Lemma take_host_bytes n z rest : take n (host_bytes n z ++ rest) = host_bytes n z.
Proof. apply take_app_length'. by rewrite length_host_bytes. Qed.
Lemma drop_host_bytes n z rest : drop n (host_bytes n z ++ rest) = rest.
Proof. apply drop_app_length'. by rewrite length_host_bytes. Qed.
Lemma drop_add_host_bytes n k z rest : drop (n + k) (host_bytes n z ++ rest) = drop k rest.
Proof. by rewrite <- drop_drop, drop_host_bytes. Qed.

Lemma deserialize_serialize a a0 size h :
wf_attributes a ->
psa_key_attributes_serialize a size = inr h ->
psa_key_attributes_deserialize h a0 =
  inr (mkAttributes (attr_type a) (attr_bits a) (attr_lifetime a)
         (mkPolicy (usage (attr_policy a)) (alg (attr_policy a)) PSA_ALG_NONE) (attr_id a0)).
Proof.
intros [] Hh. pose proof (length_attr_header _ _ _ Hh) as Hl.
unfold psa_key_attributes_deserialize. rewrite Hl. simpl.
unfold psa_key_attributes_serialize in Hh. case_match; [done|]. injection Hh as <-.
change 12%nat with (2 + (2 + (4 + (4 + 0))))%nat.
change 8%nat with (2 + (2 + (4 + 0)))%nat.
rewrite <- (app_nil_r (host_bytes 4 (attr_lifetime a))).
change (drop 4) with (@drop byte (2 + (2 + 0))).
rewrite !take_host_bytes.
rewrite !drop_host_bytes, !drop_add_host_bytes, !drop_0, !take_host_bytes.
rewrite !host_val_bytes; [done|..]; simpl; lia.
Qed.

(** What a reader finds: the first 24 bytes, then the data. *)
Definition record_header (buf : list byte) : list byte := take 24 buf.

(** The parts of a serialized record, for the other proofs. *)
Lemma record_parts a a0 data size buf :
wf_attributes a -> zlen data <= SIZE_MAX ->
serialize_record a data size = inr buf ->
psa_key_attributes_deserialize (take 16 (record_header buf)) a0 =
  inr (mkAttributes (attr_type a) (attr_bits a) (attr_lifetime a)
         (mkPolicy (usage (attr_policy a)) (alg (attr_policy a)) PSA_ALG_NONE)
         (attr_id a0)) /\
host_val (drop 16 (record_header buf)) = zlen data /\
drop 24 buf = data /\
zlen buf = attr_length + sizeof_size_t + zlen data.
Proof.
unfold SIZE_MAX, record_header. intros Hwf Hlen. unfold serialize_record.
destruct (psa_key_attributes_serialize a size) as [|h] eqn:Hh; [done|].
intros [= <-]. pose proof (length_attr_header _ _ _ Hh) as Hl.
assert (Hn : length h = 16%nat) by (unfold zlen, attr_length in Hl; lia).
assert (Ht : take 24 (h ++ host_bytes 8 (zlen data) ++ data) = h ++ host_bytes 8 (zlen data)).
{ rewrite app_assoc. apply take_app_length'. by rewrite length_app, length_host_bytes, Hn. }
rewrite Ht, (take_app_length' h _ 16), (drop_app_length' h _ 16) by done.
split; [by eapply deserialize_serialize|]. split; [|split].
- apply host_val_bytes. pose proof (zlen_nonneg data).
  change (256 ^ Z.of_nat 8) with (2 ^ 64). lia.
- rewrite app_assoc. apply drop_app_length'. by rewrite length_app, length_host_bytes, Hn.
- rewrite !zlen_app, Hl. unfold zlen at 1. rewrite length_host_bytes.
  unfold attr_length, sizeof_size_t. lia.
Qed.

(** A record holds what was imported: the reader gets the attributes back,
  but for the enrollment algorithm (always NONE) and the identifier (the
  reader's own), the exact length and the exact data. *)
Theorem record_roundtrip a a0 data size buf :
wf_attributes a -> zlen data <= SIZE_MAX ->
serialize_record a data size = inr buf ->
psa_key_attributes_deserialize (take 16 (record_header buf)) a0 =
  inr (mkAttributes (attr_type a) (attr_bits a) (attr_lifetime a)
         (mkPolicy (usage (attr_policy a)) (alg (attr_policy a)) PSA_ALG_NONE)
         (attr_id a0)) /\
host_val (drop 16 (record_header buf)) = zlen data /\
drop 24 buf = data /\
zlen buf = attr_length + sizeof_size_t + zlen data.
Proof. apply record_parts. Qed.
End HeaderRoundTrip.

Lemma record_roundtrip_witness :
  exists buf,
    serialize_record (C := full_config) sample_aes_attr sample_aes_data 40 = inr buf /\
    drop 24 buf = sample_aes_data.
Proof.
  eexists. split; [vm_compute; reflexivity|].
  refine (proj1 (proj2 (proj2 (record_roundtrip (C := full_config) sample_aes_attr
            PSA_KEY_ATTRIBUTES_INIT sample_aes_data 40 _ _ _ _))));
    [split; vm_compute; split; congruence | vm_compute; congruence | vm_compute; reflexivity].
Defined.
