(* ===== verification/StoreIface.v ===== *)
(** The record-store interface of [wolfpsa/psa_store.h]: the operations a
    backend provides and the contract [src/psa_key_storage.c] relies on.

    [StoreOps] holds the operations; a context is a value that the read and
    write operations return updated.  [StoreLaws] is the contract, stated over
    the committed records of the backend; the client's theorems are proved
    against it and a backend's theorems discharge it. *)

From stdpp Require Import base decidable list gmap.
From Stdlib Require Import ZArith Lia.
From Stdlib Require Import Strings.Byte.
From S2P Require Import Prelude.

#[local] Open Scope Z_scope.

Definition WOLFPSA_STORE_KEY : Z := 0.
Definition WOLFPSA_STORE_OK : Z := 0.
Definition WOLFPSA_STORE_NOT_AVAILABLE : Z := -4.
Definition WOLFPSA_STORE_IO_ERROR : Z := -5.

Class StoreOps : Type := {
  store_state : Type;
  store_ctx : Type;
  (** type, id1, id2 (unsigned long), read, variableSz; [inr] is 0 with [*store], [inl] another code *)
  wolfPSA_Store_OpenSz : Z -> N -> N -> bool -> Z -> M store_state (Z + store_ctx);
  (** the bytes read come with the return code *)
  wolfPSA_Store_Read : store_ctx -> Z -> M store_state (Z * list byte * store_ctx);
  (** buffer and [len], which the caller computes *)
  wolfPSA_Store_Write : store_ctx -> list byte -> Z -> M store_state (Z * store_ctx);
  wolfPSA_Store_Close : store_ctx -> M store_state Z;
  wolfPSA_Store_Remove : Z -> N -> N -> M store_state Z }.

(** [wolfPSA_Store_Open]: no size hint. *)
Definition wolfPSA_Store_Open {O : StoreOps} (type : Z) (id1 id2 : N) (read : bool)
  : M store_state (Z + store_ctx) :=
  wolfPSA_Store_OpenSz type id1 id2 read 0.

(** The range of the [unsigned long] identifiers. *)
Definition ulong (id : N) : Prop := (id < 2 ^ 64)%N.

(** The contract.  [records] are the committed records by key identifier;
    [reading] and [writing] describe an open context: the bytes left to read,
    the bytes written so far; [spoiled] is a write context on which a write
    failed; [healthy] means that no operation is going to fail. *)
Class StoreLaws (O : StoreOps) : Type := {
  records : store_state -> gmap N (list byte);
  reading : store_state -> store_ctx -> list byte -> Prop;
  writing : store_state -> store_ctx -> N -> list byte -> Prop;
  spoiled : store_state -> store_ctx -> Prop;
  healthy : store_state -> Prop;

  open_read_law id sz s :
    let r := wolfPSA_Store_OpenSz WOLFPSA_STORE_KEY id 0%N true sz s in
    records r.2 = records s /\
    match r.1 with
    | inr h => exists bs, records s !! id = Some bs /\ reading r.2 h bs
    | inl ret => ret < 0 /\ (ret = WOLFPSA_STORE_NOT_AVAILABLE -> records s !! id = None)
    end;
  read_law h n bs s :
    reading s h bs -> 0 <= n ->
    let r := wolfPSA_Store_Read h n s in
    records r.2 = records s /\
    exists k, (k <= length bs)%nat /\ r.1.1 = (Z.of_nat k, take k bs) /\ Z.of_nat k <= n /\
              reading r.2 r.1.2 (drop k bs);
  close_read_law h bs s :
    reading s h bs -> records (wolfPSA_Store_Close h s).2 = records s;

  open_write_law id sz s :
    let r := wolfPSA_Store_OpenSz WOLFPSA_STORE_KEY id 0%N false sz s in
    records r.2 = records s /\
    match r.1 with
    | inr h => writing r.2 h id []
    | inl ret => ret < 0
    end;
  write_law h id bs buf s :
    writing s h id bs ->
    let r := wolfPSA_Store_Write h buf (zlen buf) s in
    records r.2 = records s /\
    ((r.1.1 = zlen buf /\ writing r.2 r.1.2 id (bs ++ buf)) \/
     (r.1.1 < zlen buf /\ spoiled r.2 r.1.2));
  close_write_law h id bs s :
    writing s h id bs ->
    let r := wolfPSA_Store_Close h s in
    (r.1 = WOLFPSA_STORE_OK /\ records r.2 = <[id := bs]> (records s)) \/
    (r.1 < 0 /\ records r.2 = records s);
  close_spoiled_law h s :
    spoiled s h ->
    let r := wolfPSA_Store_Close h s in r.1 < 0 /\ records r.2 = records s;

  remove_law id s :
    let r := wolfPSA_Store_Remove WOLFPSA_STORE_KEY id 0%N s in
    (r.1 = WOLFPSA_STORE_OK /\ records s !! id <> None /\ records r.2 = delete id (records s)) \/
    (r.1 < 0 /\ records r.2 = records s /\
     (r.1 = WOLFPSA_STORE_NOT_AVAILABLE -> records s !! id = None));

  healthy_open_read id sz s :
    healthy s ->
    let r := wolfPSA_Store_OpenSz WOLFPSA_STORE_KEY id 0%N true sz s in
    healthy r.2 /\
    (ulong id ->
     match records s !! id with
     | Some _ => is_Some (maybe inr r.1)
     | None => r.1 = inl WOLFPSA_STORE_NOT_AVAILABLE
     end);
  healthy_read h n bs s :
    healthy s -> reading s h bs -> 0 <= n ->
    let r := wolfPSA_Store_Read h n s in
    healthy r.2 /\ r.1.1.1 = Z.min n (zlen bs);
  healthy_open_write id sz s :
    healthy s ->
    let r := wolfPSA_Store_OpenSz WOLFPSA_STORE_KEY id 0%N false sz s in
    healthy r.2 /\ (ulong id -> is_Some (maybe inr r.1));
  healthy_write h id bs buf s :
    healthy s -> writing s h id bs ->
    let r := wolfPSA_Store_Write h buf (zlen buf) s in
    healthy r.2 /\ r.1.1 = zlen buf;
  healthy_close_write h id bs s :
    healthy s -> writing s h id bs ->
    let r := wolfPSA_Store_Close h s in healthy r.2 /\ r.1 = WOLFPSA_STORE_OK;
  healthy_close_read h bs s :
    healthy s -> reading s h bs -> healthy (wolfPSA_Store_Close h s).2;
  healthy_remove id s :
    healthy s ->
    let r := wolfPSA_Store_Remove WOLFPSA_STORE_KEY id 0%N s in
    healthy r.2 /\
    (ulong id ->
     match records s !! id with
     | Some _ => r.1 = WOLFPSA_STORE_OK
     | None => r.1 = WOLFPSA_STORE_NOT_AVAILABLE
     end) }.
