(* ===== verification/StorePath.v ===== *)
(** The privacy check of the store directory in [src/psa_store_posix.c]: the
    leaf check, the walk along the path as written, and the walk over the real
    ancestors.

    The directory system calls are parameters ([DirSyscalls]): they answer on a
    file-system state that does not change during a check.  A step that opens or
    closes a descriptor counts it, so that leaks are visible.  Both walks are
    bounded by [WOLFPSA_STORE_MAX_DEPTH], as in the code, which is the fuel. *)

From stdpp Require Import base decidable list strings.
From Stdlib Require Import ZArith Lia.
From Stdlib Require Import Strings.Ascii.
From S2P Require Import Prelude.
From S2P Require Import StoreIface.

#[local] Open Scope Z_scope.

(** * System calls *)

Record stat_t : Set := mkStat {
  st_mode : Z; st_uid : Z; st_ino : Z; st_dev : Z }.

(** [None] is a failing call.  Descriptors are values: what the kernel object
    is, not a table index. *)
Class DirSyscalls : Type := {
  dir_state : Type;
  dir_fd : Type;
  geteuid : Z;
  lstat : dir_state -> string -> option stat_t;
  open_dir : dir_state -> string -> option dir_fd;
  openat_dir : dir_state -> dir_fd -> string -> option dir_fd;
  fstat : dir_state -> dir_fd -> option stat_t }.

Definition S_IFMT : Z := 0xf000.
Definition S_ISDIR (mode : Z) : bool := Z.land mode S_IFMT =? 0x4000.
Definition S_ISLNK (mode : Z) : bool := Z.land mode S_IFMT =? 0xa000.
Definition S_ISVTX : Z := 0x200.
(** Octal 0022: writable by group or others. *)
Definition S_IWGRP_IWOTH : Z := 0x12.

Inductive path_result : Set :=
| WOLFPSA_STORE_PATH_OK
| WOLFPSA_STORE_PATH_REJECTED
| WOLFPSA_STORE_PATH_UNKNOWN.

Definition WOLFPSA_STORE_MAX_COMPONENT : Z := 256.
Definition WOLFPSA_STORE_MAX_DEPTH : nat := 256.

(** * Path strings *)

Fixpoint skip_slashes (p : string) : string :=
  match p with
  | String c p' => if Ascii.eqb c "/" then skip_slashes p' else p
  | EmptyString => EmptyString
  end.

(** The characters up to the next slash, and the rest from that slash on. *)
Fixpoint split_component (p : string) : string * string :=
  match p with
  | EmptyString => (EmptyString, EmptyString)
  | String c p' =>
      if Ascii.eqb c "/" then (EmptyString, p)
      else let '(comp, rest) := split_component p' in (String c comp, rest)
  end.

Definition is_absolute (p : string) : bool :=
  match p with String c _ => Ascii.eqb c "/" | EmptyString => false end.

Definition is_dot (comp : string) : bool :=
  String.eqb comp "." || String.eqb comp "..".

Section Checks.
Context {D : DirSyscalls}.
Variable fs : dir_state.

(** The state of a check is the number of descriptors it holds. *)
Definition opened {A} (r : option A) : M Z (option A) := fun n =>
(r, match r with Some _ => n + 1 | None => n end).
Definition close_fd : M Z unit := fun n => (tt, n - 1).

Definition owner_ok (st : stat_t) : bool := (st_uid st =? geteuid) || (st_uid st =? 0).

Definition wolfPSA_StoreCheckLeaf (dirPath : string) : path_result :=
match lstat fs dirPath with
| None => WOLFPSA_STORE_PATH_UNKNOWN
| Some st =>
    if negb (S_ISDIR (st_mode st)) then WOLFPSA_STORE_PATH_REJECTED
    else if S_ISLNK (st_mode st) then WOLFPSA_STORE_PATH_REJECTED
    else if (negb (st_uid st =? geteuid) && negb (st_uid st =? 0))
            || negb (Z.land (st_mode st) S_IWGRP_IWOTH =? 0)
    then WOLFPSA_STORE_PATH_REJECTED
    else WOLFPSA_STORE_PATH_OK
end.

Definition wolfPSA_StoreCheckDirFd (fd : dir_fd) : path_result :=
match fstat fs fd with
| None => WOLFPSA_STORE_PATH_UNKNOWN
| Some st =>
    if negb (S_ISDIR (st_mode st)) then WOLFPSA_STORE_PATH_REJECTED
    else if negb (st_uid st =? geteuid) && negb (st_uid st =? 0)
    then WOLFPSA_STORE_PATH_REJECTED
    else
      let sticky := negb (Z.land (st_mode st) S_ISVTX =? 0) in
      if negb (Z.land (st_mode st) S_IWGRP_IWOTH =? 0) && negb sticky
      then WOLFPSA_STORE_PATH_REJECTED
      else WOLFPSA_STORE_PATH_OK
end.

(** The loop of [wolfPSA_StoreCheckLexical]: [inr fd] is [*leafFd]. *)
Fixpoint lexical_loop (fuel : nat) (p : string) (fd : dir_fd)
: M Z (path_result + dir_fd) :=
match fuel with
| O => close_fd;; mret (inl WOLFPSA_STORE_PATH_UNKNOWN)
| S fuel' =>
    match skip_slashes p with
    | EmptyString => mret (inr fd)
    | String _ _ as p1 =>
        let '(comp, p2) := split_component p1 in
        if WOLFPSA_STORE_MAX_COMPONENT <=? Z.of_nat (String.length comp)
        then close_fd;; mret (inl WOLFPSA_STORE_PATH_UNKNOWN)
        else
          let ret := if is_dot comp then WOLFPSA_STORE_PATH_OK
                     else wolfPSA_StoreCheckDirFd fd in
          match ret with
          | WOLFPSA_STORE_PATH_OK =>
              next ← opened (openat_dir fs fd comp);
              close_fd;;
              match next with
              | None => mret (inl WOLFPSA_STORE_PATH_UNKNOWN)
              | Some next => lexical_loop fuel' p2 next
              end
          | e => close_fd;; mret (inl e)
          end
    end
end.

Definition wolfPSA_StoreCheckLexical (dirPath : string) : M Z (path_result + dir_fd) :=
fd ← opened (open_dir fs (if is_absolute dirPath then "/" else "."));
match fd with
| None => mret (inl WOLFPSA_STORE_PATH_UNKNOWN)
| Some fd => lexical_loop WOLFPSA_STORE_MAX_DEPTH dirPath fd
end.

(** The loop of [wolfPSA_StoreCheckAncestors]. *)
Fixpoint ancestors_loop (fuel : nat) (fd : dir_fd) (st : stat_t) : M Z path_result :=
match fuel with
| O => close_fd;; mret WOLFPSA_STORE_PATH_UNKNOWN
| S fuel' =>
    parent ← opened (openat_dir fs fd "..");
    close_fd;;
    match parent with
    | None => mret WOLFPSA_STORE_PATH_UNKNOWN
    | Some parent =>
        match fstat fs parent with
        | None => close_fd;; mret WOLFPSA_STORE_PATH_UNKNOWN
        | Some parent_st =>
            if (st_ino parent_st =? st_ino st) && (st_dev parent_st =? st_dev st)
            then close_fd;; mret WOLFPSA_STORE_PATH_OK
            else
              match wolfPSA_StoreCheckDirFd parent with
              | WOLFPSA_STORE_PATH_OK => ancestors_loop fuel' parent parent_st
              | e => close_fd;; mret e
              end
        end
    end
end.

Definition wolfPSA_StoreCheckAncestors (fd : dir_fd) : M Z path_result :=
match fstat fs fd with
| None => close_fd;; mret WOLFPSA_STORE_PATH_UNKNOWN
| Some st => ancestors_loop WOLFPSA_STORE_MAX_DEPTH fd st
end.

Definition wolfPSA_StoreCheckPath (dirPath : string) : M Z path_result :=
match wolfPSA_StoreCheckLeaf dirPath with
| WOLFPSA_STORE_PATH_OK =>
    r ← wolfPSA_StoreCheckLexical dirPath;
    match r with
    | inl e => mret e
    | inr leafFd => wolfPSA_StoreCheckAncestors leafFd
    end
| e => mret e
end.

(** The result alone: the check holds no descriptor before or after. *)
Definition check_path (dirPath : string) : path_result :=
(wolfPSA_StoreCheckPath dirPath 0).1.

Definition wolfPSA_StoreValidatePath (dirPath : string) : Z :=
match check_path dirPath with
| WOLFPSA_STORE_PATH_OK => 0
| _ => WOLFPSA_STORE_IO_ERROR
end.

(** * Specification *)

(** A directory only its trusted owner can rearrange. *)
Definition trusted (fd : dir_fd) : Prop :=
exists st, fstat fs fd = Some st /\ S_ISDIR (st_mode st) = true /\
  (st_uid st = geteuid \/ st_uid st = 0) /\
  (Z.land (st_mode st) S_IWGRP_IWOTH = 0 \/ Z.land (st_mode st) S_ISVTX <> 0).

(** The leaf: nobody else may write it, sticky or not. *)
Definition private_leaf (dirPath : string) : Prop :=
exists st, lstat fs dirPath = Some st /\ S_ISDIR (st_mode st) = true /\
  (st_uid st = geteuid \/ st_uid st = 0) /\
  Z.land (st_mode st) S_IWGRP_IWOTH = 0.

(** [walk d cs leaf]: following the components [cs] from [d] leads to [leaf],
  and every directory in which a name is looked up is trusted. *)
Inductive walk : dir_fd -> list string -> dir_fd -> Prop :=
| walk_end d : walk d [] d
| walk_step d c d' cs leaf :
  (is_dot c = false -> trusted d) ->
  openat_dir fs d c = Some d' ->
  walk d' cs leaf ->
  walk d (c :: cs) leaf.

(** [climb d]: every directory above [d], up to one that is its own parent, is
  trusted. *)
Inductive climb : dir_fd -> stat_t -> Prop :=
| climb_root d st parent pst :
  openat_dir fs d ".." = Some parent -> fstat fs parent = Some pst ->
  st_ino pst = st_ino st -> st_dev pst = st_dev st -> climb d st
| climb_step d st parent pst :
  openat_dir fs d ".." = Some parent -> fstat fs parent = Some pst ->
  (st_ino pst <> st_ino st \/ st_dev pst <> st_dev st) ->
  trusted parent -> climb parent pst -> climb d st.

(** The components of a path. *)
Fixpoint components (fuel : nat) (p : string) : list string :=
match fuel with
| O => []
| S fuel' =>
    match skip_slashes p with
    | EmptyString => []
    | String _ _ as p1 =>
        let '(comp, p2) := split_component p1 in comp :: components fuel' p2
    end
end.

Lemma check_dir_fd_trusted fd : wolfPSA_StoreCheckDirFd fd = WOLFPSA_STORE_PATH_OK <-> trusted fd.
Proof.
unfold wolfPSA_StoreCheckDirFd, trusted. destruct (fstat fs fd) as [st|].
2:{ split; [done|]. by intros (? & ? & _). }
destruct (S_ISDIR (st_mode st)) eqn:Hd; simpl.
2:{ split; [done|]. intros (? & [= <-] & Hd' & _). congruence. }
split.
- intros H. exists st. split; [done|]. split; [done|].
  repeat case_match; simplify_eq; lia.
- intros (? & [= <-] & _ & Ho & Hw).
  repeat case_match; simplify_eq; try done; lia.
Qed.

Lemma check_leaf_private p : wolfPSA_StoreCheckLeaf p = WOLFPSA_STORE_PATH_OK <-> private_leaf p.
Proof.
unfold wolfPSA_StoreCheckLeaf, private_leaf. destruct (lstat fs p) as [st|].
2:{ split; [done|]. by intros (? & ? & _). }
destruct (S_ISDIR (st_mode st)) eqn:Hd; simpl.
2:{ split; [done|]. intros (? & [= <-] & Hd' & _). congruence. }
assert (Hl : S_ISLNK (st_mode st) = false) by (unfold S_ISDIR, S_ISLNK in *; lia).
rewrite Hl. split.
- intros H. exists st. split; [done|]. split; [done|].
  repeat case_match; simplify_eq; lia.
- intros (? & [= <-] & _ & Ho & Hw).
  repeat case_match; simplify_eq; try done; lia.
Qed.

(** * The walks *)

(** One turn of the lexical walk. *)
Lemma lexical_loop_step fuel p fd n :
lexical_loop (S fuel) p fd n =
  match skip_slashes p with
  | EmptyString => (inr fd, n)
  | String _ _ as p1 =>
      let '(comp, p2) := split_component p1 in
      if WOLFPSA_STORE_MAX_COMPONENT <=? Z.of_nat (String.length comp)
      then (inl WOLFPSA_STORE_PATH_UNKNOWN, n - 1)
      else match (if is_dot comp then WOLFPSA_STORE_PATH_OK
                  else wolfPSA_StoreCheckDirFd fd) with
           | WOLFPSA_STORE_PATH_OK =>
               match openat_dir fs fd comp with
               | None => (inl WOLFPSA_STORE_PATH_UNKNOWN, n - 1)
               | Some next => lexical_loop fuel p2 next n
               end
           | e => (inl e, n - 1)
           end
  end.
Proof.
simpl. destruct (skip_slashes p) as [|c p1]; [done|].
destruct (if Ascii.eqb c "/" then _ else _) as [comp p2].
destruct (WOLFPSA_STORE_MAX_COMPONENT <=? _); [done|].
destruct (if is_dot comp then _ else _); try done.
unfold mbind, M_bind, opened, close_fd.
destruct (openat_dir fs fd comp); [|done]. by replace (n + 1 - 1) with n by lia.
Qed.

Lemma lexical_loop_sound fuel p fd n :
match lexical_loop fuel p fd n with
| (inr leaf, n') => n' = n /\ walk fd (components fuel p) leaf
| (inl e, n') => n' = n - 1 /\ e <> WOLFPSA_STORE_PATH_OK
end.
Proof.
revert p fd; induction fuel as [|fuel IH]; intros p fd; [done|].
rewrite lexical_loop_step. simpl. destruct (skip_slashes p) as [|c p1]; [by repeat constructor|].
change (if Ascii.eqb c "/" then _ else _) with (split_component (String c p1)).
destruct (split_component (String c p1)) as [comp p2].
destruct (WOLFPSA_STORE_MAX_COMPONENT <=? _); [done|].
destruct (if is_dot comp then _ else _) eqn:Hr; [|done..].
destruct (openat_dir fs fd comp) as [next|] eqn:Ho; [|done].
specialize (IH p2 next). destruct (lexical_loop fuel p2 next n) as [[e|leaf] n']; [done|].
destruct IH as [-> Hw]. split; [done|]. econstructor; [|done|done].
intros Hd. rewrite Hd in Hr. by apply check_dir_fd_trusted.
Qed.

Lemma components_step fuel p :
components (S fuel) p =
  match skip_slashes p with
  | EmptyString => []
  | String _ _ as p1 =>
      let '(comp, p2) := split_component p1 in comp :: components fuel p2
  end.
Proof. done. Qed.

Lemma lexical_loop_complete fuel p fd leaf n :
(length (components fuel p) < fuel)%nat ->
Forall (fun c => Z.of_nat (String.length c) < WOLFPSA_STORE_MAX_COMPONENT) (components fuel p) ->
walk fd (components fuel p) leaf ->
lexical_loop fuel p fd n = (inr leaf, n).
Proof.
revert p fd; induction fuel as [|fuel IH]; intros p fd; [simpl; lia|].
rewrite lexical_loop_step, components_step.
destruct (skip_slashes p) as [|c p1]; [intros _ _ Hw; by inversion Hw|].
destruct (split_component (String c p1)) as [comp p2].
intros Hl Hf Hw. inversion Hw as [|? ? d' ? ? Ht Ho Hw']; subst.
apply Forall_cons in Hf as [Hc Hf]. simpl in Hl.
rewrite (proj2 (Z.leb_gt _ _)) by done.
assert (Hr : (if is_dot comp then WOLFPSA_STORE_PATH_OK
              else wolfPSA_StoreCheckDirFd fd) = WOLFPSA_STORE_PATH_OK).
{ destruct (is_dot comp); [done|]. apply check_dir_fd_trusted. auto. }
rewrite Hr, Ho. apply IH; [lia|done|done].
Qed.

Lemma ancestors_loop_sound fuel fd st n :
(ancestors_loop fuel fd st n).2 = n - 1 /\
((ancestors_loop fuel fd st n).1 = WOLFPSA_STORE_PATH_OK -> climb fd st).
Proof.
revert fd st n; induction fuel as [|fuel IH]; intros fd st n; [done|].
simpl. unfold mbind, M_bind, opened, close_fd, mret, M_ret.
destruct (openat_dir fs fd "..") as [parent|] eqn:Ho; [|done].
destruct (fstat fs parent) as [pst|] eqn:Hs; [|simpl; split; [lia|done]].
destruct ((st_ino pst =? st_ino st) && (st_dev pst =? st_dev st)) eqn:Heq.
{ simpl. split; [lia|]. intros _. eapply climb_root; [done|done|lia|lia]. }
destruct (wolfPSA_StoreCheckDirFd parent) eqn:Hc; [|simpl; split; [lia|done]..].
destruct (IH parent pst (n + 1 - 1)) as [Hn Hclimb]. split; [lia|].
intros Hok. eapply climb_step; [done|done|lia|by apply check_dir_fd_trusted|auto].
Qed.

(** A store path that passes the check is private: the directory itself is
  owned by this user or root and nobody else can write it; every directory
  in which a component of the path is looked up, and every real ancestor of
  the directory, is one whose entries only its trusted owner can rearrange. *)
Theorem check_path_private dirPath :
check_path dirPath = WOLFPSA_STORE_PATH_OK ->
private_leaf dirPath /\
exists start leaf st,
  open_dir fs (if is_absolute dirPath then "/" else ".") = Some start /\
  walk start (components WOLFPSA_STORE_MAX_DEPTH dirPath) leaf /\
  fstat fs leaf = Some st /\ climb leaf st.
Proof.
unfold check_path, wolfPSA_StoreCheckPath.
destruct (wolfPSA_StoreCheckLeaf dirPath) eqn:Hl; [|done..].
apply check_leaf_private in Hl. intros Hok. split; [done|].
rewrite bind_run in Hok. unfold wolfPSA_StoreCheckLexical in Hok.
rewrite bind_run in Hok. unfold opened in Hok.
destruct (open_dir fs _) as [start|]; [|done]. cbn [fst snd] in Hok.
pose proof (lexical_loop_sound WOLFPSA_STORE_MAX_DEPTH dirPath start (0 + 1)) as Hs.
destruct (lexical_loop _ _ _ _) as [[e|leaf] n']; [by destruct Hs as [_ ?]|].
destruct Hs as [-> Hw]. cbn [fst snd] in Hok. unfold wolfPSA_StoreCheckAncestors in Hok.
destruct (fstat fs leaf) as [st|] eqn:Hst; [|done].
exists start, leaf, st. split_and!; [done|done|done|].
by eapply ancestors_loop_sound.
Qed.

(** Whatever its answer, the check closes every descriptor it opened. *)
Theorem check_path_no_leak dirPath n : (wolfPSA_StoreCheckPath dirPath n).2 = n.
Proof.
unfold wolfPSA_StoreCheckPath. destruct (wolfPSA_StoreCheckLeaf dirPath); [|done..].
rewrite bind_run. unfold wolfPSA_StoreCheckLexical. rewrite bind_run. unfold opened.
destruct (open_dir fs _) as [start|]; [|done]. cbn [fst snd].
pose proof (lexical_loop_sound WOLFPSA_STORE_MAX_DEPTH dirPath start (n + 1)) as Hs.
destruct (lexical_loop _ _ _ _) as [[e|leaf] n']; destruct Hs as [-> Hs]; cbn [fst snd].
- unfold mret, M_ret. simpl. lia.
- unfold wolfPSA_StoreCheckAncestors. destruct (fstat fs leaf) as [st|].
  + destruct (ancestors_loop_sound WOLFPSA_STORE_MAX_DEPTH leaf st (n + 1)) as [-> _]. lia.
  + rewrite bind_run. unfold close_fd, mret, M_ret. simpl. lia.
Qed.
End Checks.

(** ** A small file system for the witness: [/], [/var] and [/var/keys] *)

Definition sample_dirs : DirSyscalls :=
  {| dir_state := unit; dir_fd := Z; geteuid := 1000;
     lstat := fun _ p => if String.eqb p "/var/keys" then Some (mkStat 0x41c0 1000 3 1) else None;
     open_dir := fun _ p => if String.eqb p "/" then Some 1 else None;
     openat_dir := fun _ d c =>
       if String.eqb c ".." then Some (Z.max 1 (d - 1))
       else if (d =? 1) && String.eqb c "var" then Some 2
       else if (d =? 2) && String.eqb c "keys" then Some 3 else None;
     fstat := fun _ d => Some (mkStat (if d =? 3 then 0x41c0 else 0x41ed)
                                      (if d =? 3 then 1000 else 0) d 1) |}.

Lemma check_path_private_witness :
  check_path (D := sample_dirs) tt "/var/keys" = WOLFPSA_STORE_PATH_OK /\
  private_leaf (D := sample_dirs) tt "/var/keys".
Proof.
  split; [vm_compute; reflexivity|].
  apply (check_path_private (D := sample_dirs) tt "/var/keys"). vm_compute. reflexivity.
Defined.
