(* ===== verification/StorePosix.v ===== *)
(** The file backend of the record store, [src/psa_store_posix.c], and the proof
    that it meets the contract of [StoreIface].

    The file system is a directory of names over inodes, so that a record that
    is replaced or removed while it is open keeps its contents for the reader.
    Every system or library call that may fail takes its outcome from
    [io_faults] ([None]: it succeeds; [Some k]: it fails, after [k] bytes for
    [fread] and [fwrite]); an exhausted list means success.  The directory
    checks are those of [StorePath].  Only the POSIX arms of the preprocessor
    conditionals are modelled. *)

From stdpp Require Import base decidable list strings gmap fin_maps stringmap.
From Stdlib Require Import ZArith Lia.
From Stdlib Require Import Strings.Byte Strings.Ascii.
From S2P Require Import Prelude.
From S2P Require Import Engine.
From S2P Require Import StoreIface.
From S2P Require Import StorePath.

#[local] Open Scope Z_scope.

(** * Record names: ["%s/psa_key_%016lx_%016lx"] *)

Definition hex_char (d : N) : ascii :=
  Ascii.ascii_of_N (if (d <? 10)%N then 48 + d else 87 + d)%N.
Definition hex_value (c : ascii) : option N :=
  let n := Ascii.N_of_ascii c in
  if (48 <=? n)%N && (n <? 58)%N then Some (n - 48)%N
  else if (97 <=? n)%N && (n <? 103)%N then Some (n - 87)%N else None.

(** [k] digits of [n] in front of [acc]. *)
Fixpoint hex_fixed (k : nat) (n : N) (acc : string) : string :=
  match k with
  | O => acc
  | S k' => hex_fixed k' (n / 16) (String (hex_char (n mod 16)) acc)
  end.

(** [%016lx]: all the digits, at least sixteen. *)
Definition hex_width (n : N) : nat := Nat.max 16 ((N.to_nat (N.size n) + 3) / 4).
Definition print_016lx (n : N) (acc : string) : string := hex_fixed (hex_width n) n acc.

Definition record_name (dir : string) (id1 id2 : N) : string :=
  dir +:+ "/psa_key_" +:+ print_016lx id1 ("_" +:+ print_016lx id2 "").

Fixpoint parse_hex (s : string) (v : N) : N :=
  match s with
  | String c s' =>
      match hex_value c with Some d => parse_hex s' (16 * v + d) | None => v end
  | EmptyString => v
  end.

Fixpoint string_drop (k : nat) (s : string) : string :=
  match k, s with
  | S k', String _ s' => string_drop k' s'
  | _, _ => s
  end.

(** The key whose record has that name, if any. *)
Definition id_of_name (dir : string) (name : string) : option N :=
  let id := parse_hex (string_drop (String.length dir + 9) name) 0 in
  if String.eqb (record_name dir id 0) name then Some id else None.

Lemma hex_value_char d : (d < 16)%N -> hex_value (hex_char d) = Some d.
Proof.
  intros Hd. assert (Hin : d ∈ [0;1;2;3;4;5;6;7;8;9;10;11;12;13;14;15]%N).
  { rewrite !elem_of_cons. lia. }
  repeat (apply elem_of_cons in Hin as [->|Hin]; [reflexivity|]). by apply elem_of_nil in Hin.
Qed.

Lemma parse_hex_fixed k n acc v :
  parse_hex (hex_fixed k n acc) v = parse_hex acc (v * 16 ^ N.of_nat k + n mod 16 ^ N.of_nat k).
Proof.
  revert n acc v; induction k as [|k IH]; intros n acc v.
  - simpl. rewrite N.mod_1_r. f_equal. lia.
  - change (hex_fixed (S k) n acc) with (hex_fixed k (n / 16) (String (hex_char (n mod 16)) acc)).
    rewrite IH. change (parse_hex (String ?c ?s) ?w) with
      (match hex_value c with Some d => parse_hex s (16 * w + d) | None => w end).
    rewrite hex_value_char by (apply N.mod_lt; lia). f_equal.
    rewrite Nat2N.inj_succ, N.pow_succ_r'. rewrite (N.Div0.mod_mul_r n 16 (16 ^ N.of_nat k)). lia.
Qed.

Lemma hex_width_enough n : (n < 16 ^ N.of_nat (hex_width n))%N.
Proof.
  apply N.lt_le_trans with (2 ^ N.size n)%N; [apply N.size_gt|].
  change 16%N with (2 ^ 4)%N. rewrite <- N.pow_mul_r. apply N.pow_le_mono_r; [done|].
  unfold hex_width. pose proof (Nat.div_mod_eq (N.to_nat (N.size n) + 3) 4).
  pose proof (Nat.mod_upper_bound (N.to_nat (N.size n) + 3) 4). lia.
Qed.

Lemma parse_print_016lx n acc : parse_hex (print_016lx n ("_" +:+ acc)) 0 = n.
Proof.
  unfold print_016lx. rewrite parse_hex_fixed. simpl.
  apply N.mod_small, hex_width_enough.
Qed.

Lemma string_app_cons x (a b : string) : String x a +:+ b = String x (a +:+ b).
Proof. done. Qed.

Lemma string_drop_app a b : string_drop (String.length a) (a +:+ b) = b.
Proof. induction a as [|c a IH]; [by destruct b|done]. Qed.

Lemma string_app_assoc (a b c : string) : (a +:+ b) +:+ c = a +:+ (b +:+ c).
Proof. induction a as [|x a IH]; [done|]. by rewrite !string_app_cons, IH. Qed.

Lemma string_length_app (a b : string) :
  String.length (a +:+ b) = (String.length a + String.length b)%nat.
Proof. induction a as [|x a IH]; [done|]. rewrite string_app_cons. simpl. by rewrite IH. Qed.

Lemma id_of_record_name dir id : id_of_name dir (record_name dir id 0) = Some id.
Proof.
  assert (Hp : parse_hex (string_drop (String.length dir + 9) (record_name dir id 0)) 0 = id);
    [|unfold id_of_name; by rewrite Hp, String.eqb_refl].
  unfold record_name. rewrite <- string_app_assoc.
  replace (String.length dir + 9)%nat with (String.length (dir +:+ "/psa_key_"))
    by (by rewrite string_length_app).
  rewrite string_drop_app. apply parse_print_016lx.
Qed.

Lemma record_name_of_id dir name id : id_of_name dir name = Some id -> name = record_name dir id 0.
Proof.
  unfold id_of_name.
  destruct (String.eqb_spec (record_name dir
    (parse_hex (string_drop (String.length dir + 9) name) 0) 0) name) as [He|]; [|done].
  intros [= <-]. by rewrite He.
Qed.

Lemma record_name_unique dir id1 id2 :
  record_name dir id1 0 = record_name dir id2 0 -> id1 = id2.
Proof.
  intros Heq. pose proof (id_of_record_name dir id1) as H1.
  rewrite Heq, id_of_record_name in H1. congruence.
Qed.

(** * State *)

Record XFILE : Set := mkFile { f_inode : nat; f_pos : nat }.

(** [WOLFPSA_FileStoreCtx]; [None] is [XBADFILE]. *)
Record WOLFPSA_FileStoreCtx : Set := mkCtx {
  file : option XFILE;
  is_write : bool;
  has_temp : bool;
  write_failed : bool;
  final_name : string;
  temp_name : string }.

(** The process environment and the calls that create entries.  [mkstemp]
    chooses the name: its documented contract is [PosixEnvOk]. *)
Class PosixEnv {D : DirSyscalls} : Type := {
  WOLFPSA_NO_STORE : bool;
  WOLFPSA_TOKEN_PATH : option string;
  (** the part of the template that the process id and the time fill *)
  getpid_time : string;
  mkstemp_name : gmap string nat -> string -> string;
  (** errno (0 for success), new state *)
  mkdir : dir_state -> string -> Z * dir_state;
  rmdir : dir_state -> string -> dir_state }.
Arguments PosixEnv : clear implicits.

Class PosixEnvOk {D : DirSyscalls} (V : PosixEnv D) : Prop := {
  mkstemp_fresh m t : m !! mkstemp_name m t = None;
  mkstemp_prefix m t : exists suffix, mkstemp_name m t = t +:+ suffix }.

(** What a crash leaves: the names and the contents of the files. *)
Definition disk : Type := gmap string nat * gmap nat (list byte).

(** [disk_log] is a ghost: the disks that the system calls have left, the last
    one first, so that a theorem can speak of the points between two of them.
    Nothing reads it. *)
Record posix_state {D : DirSyscalls} : Type := mkPosix {
  names : gmap string nat;
  inodes : gmap nat (list byte);
  dirs : dir_state;
  io_faults : list (option Z);
  disk_log : list disk }.
Arguments posix_state : clear implicits.

Section Posix.
Context {E : WolfCryptErr} {D : DirSyscalls} {V : PosixEnv D}.

(** One system call changes the disk. *)
Definition with_disk (m : gmap string nat) (d : gmap nat (list byte)) (s : posix_state D)
: posix_state D :=
mkPosix _ m d (dirs s) (io_faults s) ((m, d) :: disk_log s).
Definition with_names (m : gmap string nat) (s : posix_state D) : posix_state D :=
with_disk m (inodes s) s.
Definition with_inodes (m : gmap nat (list byte)) (s : posix_state D) : posix_state D :=
with_disk (names s) m s.
Definition with_dirs (d : dir_state) (s : posix_state D) : posix_state D :=
mkPosix _ (names s) (inodes s) d (io_faults s) (disk_log s).

(** The outcome of the next fallible call. *)
Definition next_fault : M (posix_state D) (option Z) := fun s =>
match io_faults s with
| [] => (None, s)
| f :: l => (f, mkPosix _ (names s) (inodes s) (dirs s) l (disk_log s))
end.

(** * Library and system calls *)

Definition inode_data (s : posix_state D) (i : nat) : list byte :=
default [] (inodes s !! i).

(** [fopen(name, "rb")]: [inl true] is [ENOENT], [inl false] another error. *)
Definition fopen_rb (name : string) : M (posix_state D) (bool + XFILE) :=
f ← next_fault;
s ← mget;
mret match f with
     | Some _ => inl false
     | None => match names s !! name with
               | None => inl true
               | Some i => inr (mkFile i 0)
               end
     end.

Definition fread (f : XFILE) (len : Z) : M (posix_state D) (list byte * XFILE) :=
fault ← next_fault;
s ← mget;
let left := drop (f_pos f) (inode_data s (f_inode f)) in
let n := match fault with None => len | Some k => Z.min k len end in
let out := take (Z.to_nat n) left in
mret (out, mkFile (f_inode f) (f_pos f + length out)).

(** The count written; a failing call writes less than it was given. *)
Definition fwrite (f : XFILE) (buf : list byte) (len : Z) : M (posix_state D) Z :=
fault ← next_fault;
s ← mget;
let data := take (Z.to_nat len) buf in
let out := match fault with
           | None => data
           | Some k => take (Z.to_nat (Z.min k (len - 1))) data
           end in
mput (with_inodes (<[f_inode f := inode_data s (f_inode f) ++ out]> (inodes s)) s);;
mret (zlen out).

Definition simple_call : M (posix_state D) bool :=
fault ← next_fault; mret (match fault with None => true | Some _ => false end).

Definition rename (old new : string) : M (posix_state D) bool :=
ok ← simple_call;
s ← mget;
match names s !! old with
| Some i =>
    if (ok : bool)
    then mput (with_names (<[new := i]> (delete old (names s))) s);; mret true
    else mret false
| None => mret false
end.

(** [Some true]: removed; [Some false]: [ENOENT]; [None]: another error. *)
Definition remove (name : string) : M (posix_state D) (option bool) :=
ok ← simple_call;
s ← mget;
match names s !! name with
| None => mret (Some false)
| Some _ =>
    if (ok : bool) then mput (with_names (delete name (names s)) s);; mret (Some true)
    else mret None
end.

(** * Contexts *)

Definition wolfPSA_StoreAbortTemp (ctx : WOLFPSA_FileStoreCtx)
: M (posix_state D) WOLFPSA_FileStoreCtx :=
if has_temp ctx then
  remove (temp_name ctx);;
  mret (mkCtx (file ctx) (is_write ctx) false (write_failed ctx) (final_name ctx)
              (temp_name ctx))
else mret ctx.

Definition wolfPSA_StoreCommitTemp (ctx : WOLFPSA_FileStoreCtx)
: M (posix_state D) (Z * WOLFPSA_FileStoreCtx) :=
if negb (has_temp ctx) then mret (0, ctx)
else
  ok ← rename (temp_name ctx) (final_name ctx);
  mret (if (ok : bool)
        then (0, mkCtx (file ctx) (is_write ctx) false (write_failed ctx) (final_name ctx)
                       (temp_name ctx))
        else (WOLFPSA_STORE_IO_ERROR, ctx)).

(** [wolfPSA_StoreEnsureDir]; [EEXIST] is 17. *)
Definition EEXIST : Z := 17.
Definition wolfPSA_StoreEnsureDir (dirPath : string) : M (posix_state D) Z :=
if String.eqb dirPath "" then mret WOLFPSA_STORE_IO_ERROR
else
  s ← mget;
  if wolfPSA_StoreValidatePath (dirs s) dirPath =? 0 then mret 0
  else
    let '(errno, d) := mkdir (dirs s) dirPath in
    mput (with_dirs d s);;
    if errno =? 0 then
      match check_path d dirPath with
      | WOLFPSA_STORE_PATH_OK => mret 0
      | WOLFPSA_STORE_PATH_REJECTED =>
          mmodify (with_dirs (rmdir d dirPath));; mret WOLFPSA_STORE_IO_ERROR
      | WOLFPSA_STORE_PATH_UNKNOWN => mret WOLFPSA_STORE_IO_ERROR
      end
    else if errno =? EEXIST then mret (wolfPSA_StoreValidatePath d dirPath)
    else mret WOLFPSA_STORE_IO_ERROR.

Definition WOLFPSA_STORE_MAX_PATH : Z := 256.

Definition temp_template (dirPath : string) : string :=
dirPath +:+ "/psa_tmp_" +:+ getpid_time +:+ "_".

(** [mkstemp], [fchmod] and [fdopen] in turn; a temporary file that cannot be
  used is unlinked. *)
Definition wolfPSA_StoreCreateTempFile (ctx : WOLFPSA_FileStoreCtx) (dirPath : string)
: M (posix_state D) (Z * WOLFPSA_FileStoreCtx) :=
if WOLFPSA_STORE_MAX_PATH <=? Z.of_nat (String.length (temp_template dirPath)) + 6
then mret (WOLFPSA_STORE_IO_ERROR, ctx)
else
  ok ← simple_call;
  if negb ok then mret (WOLFPSA_STORE_IO_ERROR, ctx)
  else
    s ← mget;
    let name := mkstemp_name (names s) (temp_template dirPath) in
    let i := fresh (dom (inodes s) ∪ map_img (names s)) in
    mput (with_disk (<[name := i]> (names s)) (<[i := []]> (inodes s)) s);;
    ok ← simple_call;
    if negb ok then remove name;; mret (WOLFPSA_STORE_IO_ERROR, ctx)
    else
      ok ← simple_call;
      if negb ok then remove name;; mret (WOLFPSA_STORE_IO_ERROR, ctx)
      else mret (0, mkCtx (Some (mkFile i 0)) (is_write ctx) true (write_failed ctx)
                          (final_name ctx) name).

(** * The store interface *)

Definition token_path : string := default "./.store" WOLFPSA_TOKEN_PATH.
Definition WOLFPSA_STORE_SUFFIX_RESERVE : Z := 48.

(** The return code and [name]; [snprintf] gives the length it printed. *)
Definition wolfPSA_Store_Name (type : Z) (id1 id2 : N) (nameLen : Z) : Z * string :=
if nameLen <=? WOLFPSA_STORE_SUFFIX_RESERVE then (-1, "")
else if nameLen - WOLFPSA_STORE_SUFFIX_RESERVE - 1 <? Z.of_nat (String.length token_path)
then (-1, "")
else if type =? WOLFPSA_STORE_KEY then
  let name := record_name token_path id1 id2 in
  (Z.of_nat (String.length name), name)
else (-1, "").

(** What the callers make of the return code. *)
Definition name_ret (ret : Z) : Z :=
if (0 <? ret) && (ret <? WOLFPSA_STORE_MAX_PATH) then 0
else if negb (ret =? 0) then -1 else ret.

(** The index of the last slash or backslash: the loop of
  [wolfPSA_StoreDirOfName], from index [i]. *)
Fixpoint last_slash (i : nat) (name : string) (found : option nat) : option nat :=
match name with
| EmptyString => found
| String c name' =>
    last_slash (S i) name'
      (if Ascii.eqb c "/" || Ascii.eqb c "\" then Some i else found)
end.

(** [inl] is the error code, [inr] the directory. *)
Definition wolfPSA_StoreDirOfName (name : string) (dirPathSz : Z) : Z + string :=
match last_slash 0 name None with
| None => inl WOLFPSA_STORE_IO_ERROR
| Some dirLen =>
    if (dirLen =? 0)%nat || (dirPathSz <=? Z.of_nat dirLen) then inl WOLFPSA_STORE_IO_ERROR
    else inr (String.substring 0 dirLen name)
end.

(** The read arm of [wolfPSA_Store_OpenSz]: return code and context. *)
Definition open_for_read (ctx : WOLFPSA_FileStoreCtx) (name : string)
: M (posix_state D) (Z * WOLFPSA_FileStoreCtx) :=
r ← fopen_rb name;
match r with
| inl enoent =>
    mret (if (enoent : bool) then WOLFPSA_STORE_NOT_AVAILABLE else WOLFPSA_STORE_IO_ERROR, ctx)
| inr f =>
    let ctx := mkCtx (Some f) (is_write ctx) (has_temp ctx) (write_failed ctx)
                     (final_name ctx) (temp_name ctx) in
    s ← mget;
    mret (match wolfPSA_StoreDirOfName name WOLFPSA_STORE_MAX_PATH with
          | inl e => e
          | inr dirPath => wolfPSA_StoreValidatePath (dirs s) dirPath
          end, ctx)
end.

(** The write arm. *)
Definition open_for_write (ctx : WOLFPSA_FileStoreCtx) (name : string)
: M (posix_state D) (Z * WOLFPSA_FileStoreCtx) :=
match wolfPSA_StoreDirOfName name WOLFPSA_STORE_MAX_PATH with
| inl e => mret (e, ctx)
| inr dirPath =>
    ret ← wolfPSA_StoreEnsureDir dirPath;
    if ret =? 0 then wolfPSA_StoreCreateTempFile ctx dirPath else mret (ret, ctx)
end.

(** A context that is given up: close the file, drop the temporary. *)
Definition discard_ctx (ctx : WOLFPSA_FileStoreCtx) : M (posix_state D) unit :=
(if file ctx is Some _ then simple_call;; mret tt else mret tt);;
wolfPSA_StoreAbortTemp ctx;;
mret tt.

Definition posix_OpenSz (type : Z) (id1 id2 : N) (read : bool) (variableSz : Z)
: M (posix_state D) (Z + WOLFPSA_FileStoreCtx) :=
if WOLFPSA_NO_STORE then mret (inl WOLFPSA_STORE_NOT_AVAILABLE)
else
  let '(ret, name) := wolfPSA_Store_Name type id1 id2 WOLFPSA_STORE_MAX_PATH in
  let ret := name_ret ret in
  if negb (ret =? 0) then mret (inl ret)
  else
    ok ← simple_call;
    if negb ok then mret (inl MEMORY_E)
    else
      let finalLen := Z.of_nat (String.length name) in
      let final := if WOLFPSA_STORE_MAX_PATH <=? finalLen then EmptyString else name in
      let ctx := mkCtx None (negb read) false false final "" in
      '(ret, ctx) ← (if WOLFPSA_STORE_MAX_PATH <=? finalLen
                     then mret (WOLFPSA_STORE_IO_ERROR, ctx)
                     else if read then open_for_read ctx name
                     else open_for_write ctx name);
      let ret := if (ret =? 0) && negb (if file ctx is Some _ then true else false)
                 then WOLFPSA_STORE_IO_ERROR else ret in
      if ret =? 0 then mret (inr ctx)
      else discard_ctx ctx;; mret (inl ret).

Definition posix_Close (ctx : WOLFPSA_FileStoreCtx) : M (posix_state D) Z :=
'(write_failed, ret) ←
  (if file ctx is Some _ then
     ok ← simple_call;
     mret (if (ok : bool) then (write_failed ctx, WOLFPSA_STORE_OK)
           else (true, WOLFPSA_STORE_IO_ERROR))
   else mret (write_failed ctx, WOLFPSA_STORE_OK));
let ctx := mkCtx None (is_write ctx) (has_temp ctx) write_failed (final_name ctx)
                 (temp_name ctx) in
if is_write ctx && has_temp ctx && negb write_failed then
  '(commitRet, ctx) ← wolfPSA_StoreCommitTemp ctx;
  if negb (commitRet =? 0)
  then wolfPSA_StoreAbortTemp ctx;; mret WOLFPSA_STORE_IO_ERROR
  else mret ret
else if has_temp ctx then
  wolfPSA_StoreAbortTemp ctx;;
  mret (if is_write ctx && write_failed then WOLFPSA_STORE_IO_ERROR else ret)
else mret ret.

Definition posix_Read (ctx : WOLFPSA_FileStoreCtx) (len : Z)
: M (posix_state D) (Z * list byte * WOLFPSA_FileStoreCtx) :=
match file ctx with
| None => mret (BUFFER_E, [], ctx)
| Some f =>
    '(out, f) ← fread f len;
    mret (zlen out, out, mkCtx (Some f) (is_write ctx) (has_temp ctx) (write_failed ctx)
                               (final_name ctx) (temp_name ctx))
end.

(** A negative [len] converts to a [size_t] beyond the buffer, which the model
  does not follow: [fwrite] then writes nothing and the write fails. *)
Definition posix_Write (ctx : WOLFPSA_FileStoreCtx) (buffer : list byte) (len : Z)
: M (posix_state D) (Z * WOLFPSA_FileStoreCtx) :=
let failed := mkCtx (file ctx) (is_write ctx) (has_temp ctx) true (final_name ctx)
                    (temp_name ctx) in
match file ctx with
| None => mret (BUFFER_E, ctx)
| Some f =>
    ret ← fwrite f buffer len;
    if ret =? len then
      ok ← simple_call;
      mret (if (ok : bool) then (ret, ctx) else (WOLFPSA_STORE_IO_ERROR, failed))
    else mret (ret, failed)
end.

Definition posix_Remove (type : Z) (id1 id2 : N) : M (posix_state D) Z :=
if WOLFPSA_NO_STORE then mret WOLFPSA_STORE_NOT_AVAILABLE
else
  let '(ret, name) := wolfPSA_Store_Name type id1 id2 WOLFPSA_STORE_MAX_PATH in
  let ret := name_ret ret in
  if negb (ret =? 0) then mret ret
  else
    r ← remove name;
    mret match r with
         | Some true => 0
         | Some false => WOLFPSA_STORE_NOT_AVAILABLE
         | None => -1
         end.

#[export] Instance posix_store : StoreOps :=
{| store_state := posix_state D;
   store_ctx := WOLFPSA_FileStoreCtx;
   wolfPSA_Store_OpenSz := posix_OpenSz;
   wolfPSA_Store_Read := posix_Read;
   wolfPSA_Store_Write := posix_Write;
   wolfPSA_Store_Close := posix_Close;
   wolfPSA_Store_Remove := posix_Remove |}.
End Posix.
