(* ===== verification/StorePosixSpec.v ===== *)
(** The file backend meets the store contract: [posix_laws], an instance of
    [StoreLaws] for [posix_store], and what it means for crash points: of all
    the disks that the system calls of a save leave, only the one after the
    [rename] of a complete temporary file has another record. *)

From stdpp Require Import base decidable list strings gmap fin_maps.
From Stdlib Require Import ZArith Lia.
From Stdlib Require Import Strings.Byte Strings.Ascii.
From S2P Require Import Prelude.
From S2P Require Import Engine.
From S2P Require Import StoreIface.
From S2P Require Import StorePath.
From S2P Require Import StorePosix.

#[local] Open Scope Z_scope.

Section Spec.
Context {E : WolfCryptErr} {EOK : WolfCryptErrOk E}.
Context {D : DirSyscalls} {V : PosixEnv D} {VOK : PosixEnvOk V}.

Implicit Types s : posix_state D.

(** The committed records of a disk: the files named as records of this store. *)
Definition disk_records (d : disk) : gmap N (list byte) :=
if WOLFPSA_NO_STORE then ∅
else list_to_map (omap (fun '(name, i) =>
       id ← id_of_name token_path name; Some (id, default [] (d.2 !! i)))
       (map_to_list d.1)).

Definition disk_of s : disk := (names s, inodes s).
Definition posix_records s : gmap N (list byte) := disk_records (disk_of s).

Lemma posix_records_lookup s id :
posix_records s !! id =
  if WOLFPSA_NO_STORE then None
  else inode_data s <$> names s !! record_name token_path id 0.
Proof.
unfold posix_records, disk_records. destruct WOLFPSA_NO_STORE; [apply lookup_empty|].
set (l := omap _ _).
assert (Hin : forall k bs, (k, bs) ∈ l <->
          exists i, names s !! record_name token_path k 0 = Some i /\ bs = inode_data s i).
{ intros k bs. unfold l. rewrite list_elem_of_omap. split.
  - intros ([name i] & Hn & Hsome). apply elem_of_map_to_list in Hn.
    destruct (id_of_name token_path name) as [k'|] eqn:Hid; [|done].
    simpl in Hsome. injection Hsome as -> <-. apply record_name_of_id in Hid as ->. eauto.
  - intros (i & Hi & ->). exists (record_name token_path k 0, i).
    rewrite elem_of_map_to_list, id_of_record_name. done. }
assert (Huniq : forall k bs bs', (k, bs) ∈ l -> (k, bs') ∈ l -> bs = bs').
{ intros k bs bs' (i & Hi & ->)%Hin (i' & Hi' & ->)%Hin. congruence. }
destruct (names s !! record_name token_path id 0) as [i|] eqn:Hi; simpl.
- apply elem_of_list_to_map_1'; [|apply Hin; eauto].
  intros y Hy. apply (Huniq id); [apply Hin; eauto|done].
- apply not_elem_of_list_to_map_1. intros ([k bs] & -> & Hkb)%list_elem_of_fmap.
  apply Hin in Hkb as (i & Hk & _). simpl in Hi. congruence.
Qed.

(** Same records when the named files and their contents are the same. *)
Lemma posix_records_ext s s' :
(forall id, inode_data s' <$> names s' !! record_name token_path id 0 =
            inode_data s <$> names s !! record_name token_path id 0) ->
posix_records s' = posix_records s.
Proof.
intros H. apply map_eq. intros id. rewrite !posix_records_lookup. by rewrite H.
Qed.

Lemma posix_records_same s s' :
names s' = names s -> inodes s' = inodes s -> posix_records s' = posix_records s.
Proof. intros Hn Hi. apply posix_records_ext. intros id. unfold inode_data. by rewrite Hn, Hi. Qed.

Lemma no_record_name name id :
id_of_name token_path name = None -> record_name token_path id 0 <> name.
Proof. intros Hn <-. by rewrite id_of_record_name in Hn. Qed.

(** ** Library calls *)

Lemma next_fault_frame s :
names (next_fault s).2 = names s /\ inodes (next_fault s).2 = inodes s /\
dirs (next_fault s).2 = dirs s /\
(io_faults s = [] -> (next_fault s).1 = None /\ io_faults (next_fault s).2 = []).
Proof. unfold next_fault. destruct (io_faults s) as [|f l] eqn:Hf; split_and!; try done; by rewrite Hf. Qed.

Lemma wp_next_fault (Q : option Z -> posix_state D -> Prop) s :
(forall f s', names s' = names s -> inodes s' = inodes s -> dirs s' = dirs s ->
   (io_faults s = [] -> f = None /\ io_faults s' = []) -> Q f s') ->
wp next_fault Q s.
Proof. intros HQ. pose proof (next_fault_frame s) as (? & ? & ? & ?). by apply HQ. Qed.

Lemma wp_simple_call (Q : bool -> posix_state D -> Prop) s :
(forall b s', names s' = names s -> inodes s' = inodes s -> dirs s' = dirs s ->
   (io_faults s = [] -> b = true /\ io_faults s' = []) -> Q b s') ->
wp simple_call Q s.
Proof.
intros HQ. unfold simple_call. wp_seq. apply wp_next_fault. intros f s' Hn Hi Hd Hf. wp_seq.
apply HQ; [done..|]. intros H. destruct (Hf H) as [-> ?]. done.
Qed.

Lemma wp_remove name (Q : option bool -> posix_state D -> Prop) s :
(forall r s', inodes s' = inodes s -> dirs s' = dirs s ->
   match r with
   | Some true => names s !! name <> None /\ names s' = delete name (names s)
   | Some false => names s !! name = None /\ names s' = names s
   | None => names s !! name <> None /\ names s' = names s /\ io_faults s <> []
   end ->
   (io_faults s = [] -> io_faults s' = []) -> Q r s') ->
wp (remove name) Q s.
Proof.
intros HQ. unfold remove. wp_seq. apply wp_simple_call. intros b s1 Hn Hi Hd Hf. wp_seq.
rewrite Hn. destruct (names s !! name) as [i|] eqn:Hl.
- destruct b; wp_seq; apply HQ; try done.
  + intros Hb. by destruct (Hf Hb).
  + split_and!; [done|done|]. intros Hb. by destruct (Hf Hb).
  + intros Hb. by destruct (Hf Hb).
- wp_seq. apply HQ; try done. intros Hb. by destruct (Hf Hb).
Qed.

(** Dropping a temporary file never touches a record. *)
Lemma wp_abort_temp ctx (Q : WOLFPSA_FileStoreCtx -> posix_state D -> Prop) s :
id_of_name token_path (temp_name ctx) = None \/ has_temp ctx = false ->
(forall ctx' s', posix_records s' = posix_records s -> dirs s' = dirs s ->
   (io_faults s = [] -> io_faults s' = []) -> Q ctx' s') ->
wp (wolfPSA_StoreAbortTemp ctx) Q s.
Proof.
intros Ht HQ. unfold wolfPSA_StoreAbortTemp. destruct (has_temp ctx) eqn:Hh.
2:{ wp_seq. by apply HQ. }
destruct Ht as [Ht|]; [|done]. wp_seq. apply wp_remove. intros r s' Hi Hd Hr Hf. wp_seq.
apply HQ; [|done|done]. apply posix_records_ext. intros id.
assert (Hn : names s' !! record_name token_path id 0 = names s !! record_name token_path id 0).
{ pose proof (no_record_name _ id Ht).
  destruct r as [[]|]; [|by destruct Hr as [_ ->]|by destruct Hr as (_ & -> & _)].
  destruct Hr as [_ ->]. by rewrite lookup_delete_ne. }
rewrite Hn. unfold inode_data. by rewrite Hi.
Qed.

(** * Predicates of the contract *)

Definition posix_reading s (ctx : WOLFPSA_FileStoreCtx) (bs : list byte) : Prop :=
exists f, file ctx = Some f /\ is_write ctx = false /\ has_temp ctx = false /\
  bs = drop (f_pos f) (inode_data s (f_inode f)).

Record posix_writing s (ctx : WOLFPSA_FileStoreCtx) (id : N) (bs : list byte) : Prop := {
pw_store : WOLFPSA_NO_STORE = false;
pw_write : is_write ctx = true;
pw_temp : has_temp ctx = true;
pw_ok : write_failed ctx = false;
pw_final : final_name ctx = record_name token_path id 0;
pw_name : id_of_name token_path (temp_name ctx) = None;
pw_file : exists f, file ctx = Some f /\ names s !! temp_name ctx = Some (f_inode f) /\
  inode_data s (f_inode f) = bs /\
  (forall name, names s !! name = Some (f_inode f) -> name = temp_name ctx) }.

Definition posix_spoiled s (ctx : WOLFPSA_FileStoreCtx) : Prop :=
is_write ctx = true /\ has_temp ctx = true /\ write_failed ctx = true /\
id_of_name token_path (temp_name ctx) = None.

Record posix_healthy s : Prop := {
ph_store : WOLFPSA_NO_STORE = false;
ph_faults : io_faults s = [];
ph_token : token_path <> EmptyString;
ph_len : Z.of_nat (String.length token_path) <= 207;
ph_template : Z.of_nat (String.length (temp_template token_path)) + 6 < WOLFPSA_STORE_MAX_PATH;
ph_path : check_path (dirs s) token_path = WOLFPSA_STORE_PATH_OK }.

Lemma posix_healthy_step s s' :
posix_healthy s -> dirs s' = dirs s -> (io_faults s = [] -> io_faults s' = []) ->
posix_healthy s'.
Proof. intros [] Hd Hf. split; auto. by rewrite Hd. Qed.

(** * Names and directories *)

Fixpoint no_slash (s : string) : bool :=
match s with
| EmptyString => true
| String c s' => negb (Ascii.eqb c "/" || Ascii.eqb c "\") && no_slash s'
end.

Lemma no_slash_hex k n acc : no_slash acc = true -> no_slash (hex_fixed k n acc) = true.
Proof.
revert n acc; induction k as [|k IH]; intros n acc Hacc; [done|].
simpl. apply IH. simpl. rewrite Hacc, andb_true_r.
pose proof (N.mod_lt n 16 ltac:(lia)). set (d := (n mod 16)%N) in *.
assert (Hin : d ∈ [0;1;2;3;4;5;6;7;8;9;10;11;12;13;14;15]%N) by (rewrite !elem_of_cons; lia).
clearbody d. repeat (apply elem_of_cons in Hin as [->|Hin]; [reflexivity|]).
by apply elem_of_nil in Hin.
Qed.

Lemma last_slash_app i a b f :
last_slash i (a +:+ b) f = last_slash (i + String.length a) b (last_slash i a f).
Proof.
revert i f; induction a as [|c a IH]; intros i f.
- simpl. by rewrite Nat.add_0_r.
- rewrite string_app_cons. simpl. rewrite IH. f_equal. lia.
Qed.

Lemma last_slash_none i b f : no_slash b = true -> last_slash i b f = f.
Proof.
revert i f; induction b as [|c b IH]; intros i f; [done|]. simpl.
destruct (_ || _); simpl; [done|]. intros. by apply IH.
Qed.

Lemma substring_app a b : String.substring 0 (String.length a) (a +:+ b) = a.
Proof. induction a as [|c a IH]; [by destruct b|]. rewrite string_app_cons. simpl. by rewrite IH. Qed.

Lemma dir_of_record_name id :
Z.of_nat (String.length token_path) < WOLFPSA_STORE_MAX_PATH ->
wolfPSA_StoreDirOfName (record_name token_path id 0) WOLFPSA_STORE_MAX_PATH =
  if String.eqb token_path "" then inl WOLFPSA_STORE_IO_ERROR else inr token_path.
Proof.
intros Hlen. unfold wolfPSA_StoreDirOfName, record_name.
rewrite last_slash_app. change ("/psa_key_" +:+ ?x) with (String "/" ("psa_key_" +:+ x)).
set (rest := "psa_key_" +:+ _). set (f0 := last_slash 0 token_path None).
change (last_slash ?i (String "/" ?r) ?f) with (last_slash (S i) r (Some i)).
rewrite last_slash_none.
2:{ unfold rest, print_016lx. change ("psa_key_" +:+ ?x) with
      (String "p" (String "s" (String "a" (String "_" (String "k" (String "e" (String "y"
        (String "_" x)))))))). simpl. apply no_slash_hex. reflexivity. }
simpl. destruct (Nat.eqb_spec (String.length token_path) 0) as [H0|].
{ by destruct token_path. }
destruct (String.eqb_spec token_path "") as [He|]; [by rewrite He in *|].
rewrite (proj2 (Z.leb_gt _ _)) by done. simpl. by rewrite substring_app.
Qed.

Lemma string_length_hex k n acc : String.length (hex_fixed k n acc) = (k + String.length acc)%nat.
Proof.
revert n acc; induction k as [|k IH]; intros n acc; [done|].
simpl. rewrite IH. simpl. lia.
Qed.

Lemma hex_width_ulong id : ulong id -> hex_width id = 16%nat.
Proof.
unfold ulong, hex_width. intros Hid.
assert (N.size id <= 64)%N.
{ destruct (decide (id = 0%N)) as [->|Hz]; [done|].
  rewrite N.size_log2 by done. apply N.le_succ_l. apply N.log2_lt_pow2; lia. }
assert ((N.to_nat (N.size id) + 3) / 4 <= 16)%nat; [|lia].
apply Nat.lt_succ_r. apply Nat.Div0.div_lt_upper_bound. lia.
Qed.

Lemma store_name_cases id ret name :
wolfPSA_Store_Name WOLFPSA_STORE_KEY id 0 WOLFPSA_STORE_MAX_PATH = (ret, name) ->
name_ret ret = -1 \/
(name_ret ret = 0 /\ name = record_name token_path id 0 /\
 Z.of_nat (String.length name) < WOLFPSA_STORE_MAX_PATH /\
 Z.of_nat (String.length token_path) <= 207).
Proof.
unfold wolfPSA_Store_Name. simpl. change (WOLFPSA_STORE_MAX_PATH - WOLFPSA_STORE_SUFFIX_RESERVE - 1) with 207.
destruct (Z.ltb_spec 207 (Z.of_nat (String.length token_path))); [intros [= <- <-]; by left|].
intros [= <- <-]. unfold name_ret, WOLFPSA_STORE_MAX_PATH.
destruct (Z.ltb_spec 0 (Z.of_nat (String.length (record_name token_path id 0)))) as [|Hz].
- destruct (Z.ltb_spec (Z.of_nat (String.length (record_name token_path id 0))) 256); simpl.
  + right. done.
  + left. by rewrite (proj2 (Z.eqb_neq _ 0)) by lia.
- exfalso. unfold record_name in Hz. rewrite !string_length_app in Hz. simpl in Hz. lia.
Qed.

Lemma store_name_ok id ret name :
Z.of_nat (String.length token_path) <= 207 -> ulong id ->
wolfPSA_Store_Name WOLFPSA_STORE_KEY id 0 WOLFPSA_STORE_MAX_PATH = (ret, name) ->
name_ret ret = 0.
Proof.
intros Hlen Hid. unfold wolfPSA_Store_Name. simpl.
change (WOLFPSA_STORE_MAX_PATH - WOLFPSA_STORE_SUFFIX_RESERVE - 1) with 207.
rewrite (proj2 (Z.ltb_ge 207 _)) by done. intros [= <- <-].
unfold record_name, print_016lx. rewrite (hex_width_ulong id Hid).
rewrite !string_length_app, string_length_hex, string_length_app, string_length_hex.
unfold name_ret, WOLFPSA_STORE_MAX_PATH. simpl String.length.
change (hex_width 0) with 16%nat.
rewrite (proj2 (Z.ltb_lt 0 _)), (proj2 (Z.ltb_lt _ 256)) by lia. done.
Qed.

(** * The read side *)

Lemma validate_path_cases d p :
wolfPSA_StoreValidatePath d p = 0 /\ check_path d p = WOLFPSA_STORE_PATH_OK \/
wolfPSA_StoreValidatePath d p = WOLFPSA_STORE_IO_ERROR /\ check_path d p <> WOLFPSA_STORE_PATH_OK.
Proof. unfold wolfPSA_StoreValidatePath. destruct (check_path d p); auto. Qed.

Lemma wp_discard_ctx ctx (Q : unit -> posix_state D -> Prop) s :
id_of_name token_path (temp_name ctx) = None \/ has_temp ctx = false ->
(forall s', posix_records s' = posix_records s -> dirs s' = dirs s ->
   (io_faults s = [] -> io_faults s' = []) -> Q tt s') ->
wp (discard_ctx ctx) Q s.
Proof.
intros Ht HQ. unfold discard_ctx. wp_seq. destruct (file ctx) as [f|]; wp_seq.
- apply wp_simple_call. intros b s1 Hn Hi Hd Hf. wp_seq. apply wp_abort_temp; [done|].
  intros _ s2 Hr2 Hd2 Hf2. wp_seq. apply HQ; [|congruence|].
  + rewrite Hr2. by apply posix_records_same.
  + intros H. apply Hf2. by destruct (Hf H).
- apply wp_abort_temp; [done|]. intros _ s2 Hr2 Hd2 Hf2. wp_seq. by apply HQ.
Qed.

Lemma wp_open_read id sz (Q : Z + WOLFPSA_FileStoreCtx -> posix_state D -> Prop) s :
(forall r s', posix_records s' = posix_records s -> dirs s' = dirs s ->
   (io_faults s = [] -> io_faults s' = []) ->
   match r with
   | inr h => exists bs, posix_records s !! id = Some bs /\ posix_reading s' h bs
   | inl ret => ret < 0 /\ (ret = WOLFPSA_STORE_NOT_AVAILABLE -> posix_records s !! id = None)
   end ->
   (posix_healthy s -> ulong id ->
    match posix_records s !! id with
    | Some _ => is_Some (maybe inr r)
    | None => r = inl WOLFPSA_STORE_NOT_AVAILABLE
    end) -> Q r s') ->
wp (posix_OpenSz WOLFPSA_STORE_KEY id 0 true sz) Q s.
Proof.
intros HQ. rewrite posix_records_lookup in HQ. unfold posix_OpenSz.
destruct WOLFPSA_NO_STORE eqn:Hno.
{ by wp_seq; apply HQ. }
destruct (wolfPSA_Store_Name _ _ _ _) as [ret name] eqn:Hname.
destruct (store_name_cases id ret name Hname) as [Hret|(Hret & -> & Hlen & Htok)]; rewrite Hret.
{ simpl. wp_seq. apply HQ; try done. intros Hh Hid.
  rewrite (store_name_ok id ret name (ph_len _ Hh) Hid Hname) in Hret. done. }
simpl. wp_seq. apply wp_simple_call. intros b s1 Hn1 Hi1 Hd1 Hf1.
assert (Hr1 : posix_records s1 = posix_records s) by (by apply posix_records_same).
assert (Hf1' : io_faults s = [] -> io_faults s1 = []) by (intros Hx; by destruct (Hf1 Hx)).
pose proof memory_e_negative. destruct b; simpl.
2:{ wp_seq. apply HQ; [done..| |].
    - split; unfold WOLFPSA_STORE_NOT_AVAILABLE; lia.
    - intros Hh. by destruct (Hf1 (ph_faults _ Hh)). }
rewrite (proj2 (Z.leb_gt WOLFPSA_STORE_MAX_PATH _)) by done.
wp_seq. unfold open_for_read, fopen_rb. wp_seq. apply wp_next_fault.
intros f s2 Hn2 Hi2 Hd2 Hf2. wp_seq.
assert (Hr2 : posix_records s2 = posix_records s) by (rewrite <- Hr1; by apply posix_records_same).
assert (Hf2' : io_faults s = [] -> io_faults s2 = []) by (intros Hx; by destruct (Hf2 (Hf1' Hx))).
assert (Hnames : names s2 = names s) by congruence.
assert (Hdata : forall i, inode_data s2 i = inode_data s i) by (intros; unfold inode_data; congruence).
destruct f as [k|]; [|rewrite Hnames; destruct (names s !! record_name token_path id 0) as [i|] eqn:Hi].
- wp_seq. simpl. wp_seq. apply wp_discard_ctx; [by right|]. intros s3 Hr3 Hd3 Hf3. wp_seq.
  apply HQ; [congruence|congruence|auto|done|].
  intros Hh. by destruct (Hf2 (Hf1' (ph_faults _ Hh))).
- wp_seq. rewrite dir_of_record_name by (unfold WOLFPSA_STORE_MAX_PATH; lia).
  destruct (String.eqb_spec token_path "") as [Hempty|Hne].
  { simpl. wp_seq. apply wp_discard_ctx; [by right|]. intros s3 Hr3 Hd3 Hf3.
    wp_seq. apply HQ; [congruence|congruence|auto|done|]. intros Hh. by destruct (ph_token _ Hh). }
  destruct (validate_path_cases (dirs s2) token_path) as [[Hv Hc]|[Hv Hc]]; rewrite Hv; simpl.
  + wp_seq. apply HQ; [done|congruence|done| |by intros; eexists].
    exists (inode_data s i). split; [done|]. exists (mkFile i 0). simpl. by rewrite Hdata.
  + wp_seq. apply wp_discard_ctx; [by right|]. intros s3 Hr3 Hd3 Hf3.
    wp_seq. apply HQ; [congruence|congruence|auto|done|]. intros Hh. exfalso. apply Hc.
    rewrite Hd2, Hd1. by apply ph_path.
- wp_seq. simpl. wp_seq. apply wp_discard_ctx; [by right|]. intros s3 Hr3 Hd3 Hf3. wp_seq.
  apply HQ; [congruence|congruence|auto|done|done].
Qed.

Lemma wp_posix_read h n bs (Q : Z * list byte * WOLFPSA_FileStoreCtx -> posix_state D -> Prop) s :
posix_reading s h bs -> 0 <= n ->
(forall k h' s', posix_records s' = posix_records s -> dirs s' = dirs s ->
   (io_faults s = [] -> io_faults s' = []) ->
   (k <= length bs)%nat -> Z.of_nat k <= n -> posix_reading s' h' (drop k bs) ->
   (io_faults s = [] -> Z.of_nat k = Z.min n (zlen bs)) ->
   Q (Z.of_nat k, take k bs, h') s') ->
wp (posix_Read h n) Q s.
Proof.
intros (f & Hfile & Hw & Ht & ->) Hn HQ. unfold posix_Read. rewrite Hfile.
unfold fread. wp_seq. apply wp_next_fault. intros fault s1 Hn1 Hi1 Hd1 Hf1. wp_seq.
assert (Hdata : inode_data s1 (f_inode f) = inode_data s (f_inode f))
  by (unfold inode_data; congruence).
rewrite Hdata in *. set (bs := drop (f_pos f) (inode_data s (f_inode f))) in *.
set (m := match fault with None => n | Some k => Z.min k n end).
assert (Htake : take (Z.to_nat m) bs = take (Nat.min (Z.to_nat m) (length bs)) bs).
{ destruct (Nat.min_spec (Z.to_nat m) (length bs)) as [[_ ->]|[? ->]]; [done|].
  by rewrite (take_ge bs (length bs)), take_ge by done. }
rewrite Htake. set (k := Nat.min (Z.to_nat m) (length bs)).
assert (Hlen : zlen (take k bs) = Z.of_nat k)
  by (unfold zlen; rewrite length_take; unfold k; lia).
assert (Hln : length (take k bs) = k) by (unfold zlen in Hlen; lia).
rewrite Hlen, Hln. apply HQ.
- by apply posix_records_same.
- done.
- intros Hx. by destruct (Hf1 Hx).
- unfold k. lia.
- unfold k, m. destruct fault; lia.
- exists (mkFile (f_inode f) (f_pos f + k)). simpl. split_and!; [done|done|done|].
  rewrite Hdata. unfold bs. by rewrite drop_drop.
- intros Hx. destruct (Hf1 Hx) as [-> _]. unfold k, m, zlen. lia.
Qed.

Lemma wp_posix_close_read h bs (Q : Z -> posix_state D -> Prop) s :
posix_reading s h bs ->
(forall r s', posix_records s' = posix_records s -> dirs s' = dirs s ->
   (io_faults s = [] -> io_faults s' = []) -> Q r s') ->
wp (posix_Close h) Q s.
Proof.
intros (f & Hfile & Hw & Ht & _) HQ. unfold posix_Close. rewrite Hfile. wp_seq.
apply wp_simple_call. intros b s1 Hn1 Hi1 Hd1 Hf1. wp_seq.
assert (HQ1 : forall r, Q r s1).
{ intros r. apply HQ; [by apply posix_records_same|done|]. intros Hx. by destruct (Hf1 Hx). }
destruct b; cbv beta zeta; cbn [is_write has_temp write_failed]; rewrite Hw, Ht; simpl; by wp_seq.
Qed.

(** * The write side *)

Lemma wp_ensure_dir dirPath (Q : Z -> posix_state D -> Prop) s :
(forall ret s', names s' = names s -> inodes s' = inodes s -> io_faults s' = io_faults s ->
   (ret = 0 \/ ret < 0) ->
   (dirPath <> EmptyString -> check_path (dirs s) dirPath = WOLFPSA_STORE_PATH_OK ->
    ret = 0 /\ dirs s' = dirs s) -> Q ret s') ->
wp (wolfPSA_StoreEnsureDir dirPath) Q s.
Proof.
intros HQ. unfold wolfPSA_StoreEnsureDir.
destruct (String.eqb_spec dirPath "") as [->|Hne]; [wp_seq; apply HQ; [done..|by right|by intros []]|].
wp_seq. destruct (validate_path_cases (dirs s) dirPath) as [[Hv Hc]|[Hv Hc]]; rewrite Hv; simpl.
{ wp_seq. apply HQ; auto. }
destruct (mkdir (dirs s) dirPath) as [errno d]. wp_seq.
destruct (errno =? 0); [destruct (check_path d dirPath)|destruct (errno =? EEXIST)]; wp_seq;
  (apply HQ; [done..| |by intros _ ?]); auto; try (by right).
destruct (validate_path_cases d dirPath) as [[-> _]|[-> _]]; [by left|by right].
Qed.

Lemma temp_name_no_record t name :
(exists suffix, name = temp_template t +:+ suffix) -> t = token_path ->
id_of_name token_path name = None.
Proof.
intros [suffix ->] ->. destruct (id_of_name _ _) as [id|] eqn:Hid; [|done].
apply record_name_of_id in Hid. exfalso. revert Hid. unfold temp_template, record_name.
rewrite string_app_assoc. generalize token_path. intros t. induction t as [|c t IH]; [done|].
rewrite !string_app_cons. intros [= Heq]. by apply IH.
Qed.

Lemma fresh_inode s (i := fresh (dom (inodes s) ∪ map_img (names s) : gset nat)) :
inodes s !! i = None /\ forall name, names s !! name <> Some i.
Proof.
pose proof (is_fresh (dom (inodes s) ∪ map_img (names s) : gset nat)) as Hf. fold i in Hf.
apply not_elem_of_union in Hf as [Hd Hi]. split; [by apply not_elem_of_dom|].
intros name Hname. apply Hi. by apply elem_of_map_img_2 with name.
Qed.

(** A step that adds a temporary file over a fresh inode keeps the records. *)
Lemma records_add_temp s name i data :
id_of_name token_path name = None ->
inodes s !! i = None -> (forall n, names s !! n <> Some i) ->
posix_records (with_disk (<[name := i]> (names s)) (<[i := data]> (inodes s)) s)
  = posix_records s.
Proof.
intros Hname Hi Hn. apply posix_records_ext. intros id. simpl.
rewrite lookup_insert_ne by (intros Heq; by apply (no_record_name name id)).
destruct (names s !! record_name token_path id 0) as [j|] eqn:Hj; [|done]. simpl. f_equal.
unfold inode_data. simpl. rewrite lookup_insert_ne; [done|]. intros ->. by destruct (Hn _ Hj).
Qed.

Lemma wp_create_temp ctx (Q : Z * WOLFPSA_FileStoreCtx -> posix_state D -> Prop) s :
has_temp ctx = false -> file ctx = None ->
(forall ret ctx' s', posix_records s' = posix_records s -> dirs s' = dirs s ->
   (io_faults s = [] -> io_faults s' = []) ->
   (ret = 0 /\ is_write ctx' = is_write ctx /\ has_temp ctx' = true /\
    write_failed ctx' = write_failed ctx /\ final_name ctx' = final_name ctx /\
    id_of_name token_path (temp_name ctx') = None /\
    exists f, file ctx' = Some f /\ names s' !! temp_name ctx' = Some (f_inode f) /\
      inode_data s' (f_inode f) = [] /\
      (forall name, names s' !! name = Some (f_inode f) -> name = temp_name ctx')) \/
   (ret < 0 /\ ctx' = ctx /\ ~ posix_healthy s) -> Q (ret, ctx') s') ->
wp (wolfPSA_StoreCreateTempFile ctx token_path) Q s.
Proof.
intros Hnt Hnf HQ. unfold wolfPSA_StoreCreateTempFile.
destruct (Z.leb_spec WOLFPSA_STORE_MAX_PATH
            (Z.of_nat (String.length (temp_template token_path)) + 6)) as [Hlong|Hshort].
{ wp_seq. apply HQ; [done..|]. right. split_and!; [done|done|]. intros Hh.
  pose proof (ph_template _ Hh). lia. }
wp_seq. apply wp_simple_call. intros b s1 Hn1 Hi1 Hd1 Hf1.
assert (Hr1 : posix_records s1 = posix_records s) by (by apply posix_records_same).
assert (Hf1' : io_faults s = [] -> io_faults s1 = []) by (intros Hx; by destruct (Hf1 Hx)).
destruct b; simpl.
2:{ wp_seq. apply HQ; [done..|]. right. split_and!; [done|done|]. intros Hh.
    by destruct (Hf1 (ph_faults _ Hh)). }
wp_seq. pose proof (fresh_inode s1) as [Hfi Hfn].
set (i := fresh (dom (inodes s1) ∪ map_img (names s1))) in *.
set (name := mkstemp_name (names s1) (temp_template token_path)).
assert (Hname : id_of_name token_path name = None)
  by (by eapply temp_name_no_record; [apply mkstemp_prefix|]).
pose proof (mkstemp_fresh (names s1) (temp_template token_path)) as Hfresh. fold name in Hfresh.
pose proof (records_add_temp s1 name i [] Hname Hfi Hfn) as Hradd.
set (s1' := with_disk _ _ _) in *.
assert (Hfail : forall s2, names s2 = names s1' -> inodes s2 = inodes s1' -> dirs s2 = dirs s1' ->
          (io_faults s1' = [] -> io_faults s2 = []) -> ~ posix_healthy s ->
          wp (remove name;; mret (WOLFPSA_STORE_IO_ERROR, ctx)) Q s2).
{ intros s2 Hn2 Hi2 Hd2 Hf2 Hbad. wp_seq. apply wp_remove. intros r s3 Hi3 Hd3 Hr3 Hf3. wp_seq.
  apply HQ; [|by rewrite Hd3, Hd2|by intros Hx; apply Hf3, Hf2, Hf1'|by right].
  rewrite <- Hr1, <- Hradd. apply posix_records_ext. intros id.
  pose proof (no_record_name name id Hname).
  assert (Hlk : names s3 !! record_name token_path id 0 = names s1' !! record_name token_path id 0).
  { destruct r as [[]|]; [destruct Hr3 as [_ ->]|destruct Hr3 as [_ ->]|destruct Hr3 as (_ & -> & _)];
      rewrite ?lookup_delete_ne by done; by rewrite Hn2. }
  rewrite Hlk. unfold inode_data. by rewrite Hi3, Hi2. }
apply wp_simple_call. intros b2 s2 Hn2 Hi2 Hd2 Hf2. destruct b2; simpl.
2:{ apply Hfail; [done..| |]; [intros Hx; by destruct (Hf2 Hx)|].
    intros Hh. by destruct (Hf2 (Hf1' (ph_faults _ Hh))). }
assert (Hf2' : io_faults s = [] -> io_faults s2 = []) by (intros Hx; by destruct (Hf2 (Hf1' Hx))).
wp_seq. apply wp_simple_call. intros b3 s3 Hn3 Hi3 Hd3 Hf3. destruct b3; simpl.
2:{ apply Hfail; [congruence..| |].
    - intros Hx. destruct (Hf2 Hx) as [_ Hx2]. by destruct (Hf3 Hx2).
    - intros Hh. by destruct (Hf3 (Hf2' (ph_faults _ Hh))). }
assert (Hn13 : names s3 = <[name := i]> (names s1)) by (by rewrite Hn3, Hn2).
assert (Hi13 : inodes s3 = <[i := []]> (inodes s1)) by (by rewrite Hi3, Hi2).
wp_seq. apply HQ.
- rewrite <- Hr1, <- Hradd. apply posix_records_same; congruence.
- by rewrite Hd3, Hd2.
- intros Hx. by destruct (Hf3 (Hf2' Hx)).
- left. split_and!; try done. exists (mkFile i 0). simpl. split_and!; [done|..].
  + by rewrite Hn13, lookup_insert_eq.
  + unfold inode_data. by rewrite Hi13, lookup_insert_eq.
  + intros name' Hn'. rewrite Hn13 in Hn'. destruct (decide (name' = name)) as [|Hne]; [done|].
    rewrite lookup_insert_ne in Hn' by done. by destruct (Hfn _ Hn').
Qed.

Lemma wp_open_write id sz (Q : Z + WOLFPSA_FileStoreCtx -> posix_state D -> Prop) s :
(forall r s', posix_records s' = posix_records s ->
   (posix_healthy s -> posix_healthy s') ->
   match r with
   | inr h => posix_writing s' h id []
   | inl ret => ret < 0
   end ->
   (posix_healthy s -> ulong id -> is_Some (maybe inr r)) -> Q r s') ->
wp (posix_OpenSz WOLFPSA_STORE_KEY id 0 false sz) Q s.
Proof.
intros HQ. unfold posix_OpenSz. destruct WOLFPSA_NO_STORE eqn:Hno.
{ wp_seq. apply HQ; try done. intros Hh. pose proof (ph_store _ Hh). congruence. }
destruct (wolfPSA_Store_Name _ _ _ _) as [ret name] eqn:Hname.
destruct (store_name_cases id ret name Hname) as [Hret|(Hret & -> & Hlen & Htok)]; rewrite Hret.
{ simpl. wp_seq. apply HQ; try done. intros Hh Hid.
  rewrite (store_name_ok id ret name (ph_len _ Hh) Hid Hname) in Hret. done. }
simpl. wp_seq. apply wp_simple_call. intros b s1 Hn1 Hi1 Hd1 Hf1.
assert (Hr1 : posix_records s1 = posix_records s) by (by apply posix_records_same).
assert (Hf1' : io_faults s = [] -> io_faults s1 = []) by (intros Hx; by destruct (Hf1 Hx)).
assert (Hh1 : posix_healthy s -> posix_healthy s1) by (intros Hh; by eapply posix_healthy_step).
pose proof memory_e_negative. destruct b; simpl.
2:{ wp_seq. apply HQ; [done|done|lia|]. intros Hh. by destruct (Hf1 (ph_faults _ Hh)). }
rewrite (proj2 (Z.leb_gt WOLFPSA_STORE_MAX_PATH _)) by done. wp_seq.
unfold open_for_write. rewrite dir_of_record_name by (unfold WOLFPSA_STORE_MAX_PATH; lia).
destruct (String.eqb_spec token_path "") as [Hempty|Hne].
{ wp_seq. simpl. wp_seq. apply wp_discard_ctx; [by right|]. intros s3 Hr3 Hd3 Hf3. wp_seq.
  apply HQ; [congruence| |done|]; intros Hh; by destruct (ph_token _ Hh). }
wp_seq. apply wp_ensure_dir. intros ret2 s2 Hn2 Hi2 Hf2 Hret2 Hok2.
assert (Hr2 : posix_records s2 = posix_records s) by (rewrite <- Hr1; by apply posix_records_same).
assert (Hh2 : posix_healthy s -> ret2 = 0 /\ posix_healthy s2).
{ intros Hh. specialize (Hh1 Hh). destruct (Hok2 Hne (ph_path _ Hh1)) as [-> Hd2].
  split; [done|]. by apply (posix_healthy_step s1); [| |rewrite Hf2]. }
destruct (Z.eqb_spec ret2 0) as [->|Hret2'].
2:{ wp_seq. simpl. rewrite (proj2 (Z.eqb_neq ret2 0)) by done. simpl.
    rewrite (proj2 (Z.eqb_neq ret2 0)) by done. wp_seq.
    apply wp_discard_ctx; [by right|]. intros s3 Hr3 Hd3 Hf3. wp_seq.
    apply HQ; [congruence| |lia|]; intros Hh; by destruct (Hh2 Hh). }
apply wp_create_temp; [done|done|]. intros ret3 ctx' s3 Hr3 Hd3 Hf3 Hcase.
assert (Hh3 : posix_healthy s -> posix_healthy s3).
{ intros Hh. destruct (Hh2 Hh). by apply (posix_healthy_step s2). }
destruct Hcase as [(-> & Hw & Ht & Hwf & Hfin & Htn & f & Hfile & Hrest)|(Hneg & -> & Hbad)].
- wp_seq. rewrite Hfile. simpl. wp_seq. apply HQ; [congruence|done| |by intros; eexists].
  split; simpl in *; try done. by exists f.
- wp_seq. simpl. rewrite (proj2 (Z.eqb_neq ret3 0)) by lia. simpl.
  rewrite (proj2 (Z.eqb_neq ret3 0)) by lia. wp_seq.
  apply wp_discard_ctx; [by right|]. intros s4 Hr4 Hd4 Hf4. wp_seq.
  apply HQ; [congruence| |done|].
  + intros Hh. apply (posix_healthy_step s3); auto.
  + intros Hh. by destruct Hbad; apply Hh2.
Qed.

(** Writing to the temporary file changes no record. *)
Lemma records_write_temp s i data temp :
id_of_name token_path temp = None ->
(forall name, names s !! name = Some i -> name = temp) ->
posix_records (with_inodes (<[i := data]> (inodes s)) s) = posix_records s.
Proof.
intros Ht Huniq. apply posix_records_ext. intros id. simpl.
destruct (names s !! record_name token_path id 0) as [j|] eqn:Hj; [|done]. simpl. f_equal.
unfold inode_data. simpl. rewrite lookup_insert_ne; [done|].
intros ->. by apply (no_record_name temp id Ht), Huniq.
Qed.

Lemma wp_posix_write h id bs buf
  (Q : Z * WOLFPSA_FileStoreCtx -> posix_state D -> Prop) s :
posix_writing s h id bs ->
(forall ret h' s', posix_records s' = posix_records s ->
   (posix_healthy s -> posix_healthy s' /\ ret = zlen buf) ->
   (ret = zlen buf /\ posix_writing s' h' id (bs ++ buf)) \/
   (ret < zlen buf /\ posix_spoiled s' h') -> Q (ret, h') s') ->
wp (posix_Write h buf (zlen buf)) Q s.
Proof.
intros [Hno Hw Ht Hok Hfin Hname (f & Hfile & Htn & Hdata & Huniq)] HQ.
unfold posix_Write. rewrite Hfile. wp_seq. unfold fwrite. wp_seq. apply wp_next_fault.
intros fault s1 Hn1 Hi1 Hd1 Hf1. wp_seq.
assert (Hr1 : posix_records s1 = posix_records s) by (by apply posix_records_same).
assert (Hdata1 : inode_data s1 (f_inode f) = bs) by (unfold inode_data in *; congruence).
assert (Htk : take (Z.to_nat (zlen buf)) buf = buf)
  by (unfold zlen; rewrite Nat2Z.id; by apply take_ge).
rewrite Hdata1, !Htk.
set (out := match fault with None => buf | Some k => _ end).
assert (Hr2 : forall d, posix_records (with_inodes (<[f_inode f := d]> (inodes s1)) s1)
                        = posix_records s).
{ intros d. rewrite <- Hr1. apply (records_write_temp _ _ _ (temp_name h)); [done|].
  intros name. rewrite Hn1. apply Huniq. }
assert (Hwriting : forall s2, names s2 = names s ->
          inodes s2 = <[f_inode f := bs ++ buf]> (inodes s1) -> posix_writing s2 h id (bs ++ buf)).
{ intros s2 Hn2 Hi2. split; try done. exists f. rewrite Hn2. split_and!; [done|done| |done].
  unfold inode_data. by rewrite Hi2, lookup_insert_eq. }
assert (Hhealthy : posix_healthy s -> out = buf /\ io_faults s1 = []).
{ intros Hh. destruct (Hf1 (ph_faults _ Hh)) as [Hnone ?]. unfold out. by rewrite Hnone. }
set (s2 := with_inodes _ s1). destruct (Z.eqb_spec (zlen out) (zlen buf)) as [Hall|Hshort].
- assert (Hout : out = buf).
  { unfold out in *. destruct fault; [|done]. apply take_ge. unfold zlen in Hall.
    rewrite length_take in Hall. lia. }
  wp_seq. apply wp_simple_call. intros b s3 Hn3 Hi3 Hd3 Hf3. wp_seq.
  assert (Hr3 : posix_records s3 = posix_records s)
    by (rewrite <- (Hr2 (bs ++ out)); by apply posix_records_same).
  assert (Hh3 : posix_healthy s -> posix_healthy s3 /\ b = true).
  { intros Hh. destruct (Hhealthy Hh) as [_ Hf]. destruct (Hf3 Hf) as [-> ?]. split; [|done].
    apply (posix_healthy_step s); [done|by rewrite Hd3|done]. }
  destruct b.
  + apply HQ; [done|intros Hh; by destruct (Hh3 Hh)|]. left. split; [done|].
    apply Hwriting; [by rewrite Hn3|]. rewrite Hi3, <- Hout. done.
  + apply HQ; [done|intros Hh; by destruct (Hh3 Hh)|]. right. split.
    * pose proof (zlen_nonneg buf). unfold WOLFPSA_STORE_IO_ERROR. lia.
    * done.
- wp_seq. apply HQ; [by apply Hr2| |].
  + intros Hh. destruct (Hhealthy Hh) as [Hout _]. by rewrite Hout in Hshort.
  + right. split; [|done]. unfold out in *. destruct fault; [|done].
    unfold zlen in *. rewrite length_take in *. lia.
Qed.

Lemma wp_rename old new (Q : bool -> posix_state D -> Prop) s :
(forall b s', inodes s' = inodes s -> dirs s' = dirs s ->
   (io_faults s = [] -> io_faults s' = []) ->
   match b with
   | true => exists i, names s !! old = Some i /\ names s' = <[new := i]> (delete old (names s))
   | false => names s' = names s /\ (io_faults s = [] -> names s !! old = None)
   end -> Q b s') ->
wp (rename old new) Q s.
Proof.
intros HQ. unfold rename. wp_seq. apply wp_simple_call. intros b s1 Hn1 Hi1 Hd1 Hf1. wp_seq.
rewrite Hn1. assert (Hf1' : io_faults s = [] -> io_faults s1 = [])
  by (intros Hx; by destruct (Hf1 Hx)).
destruct (names s !! old) as [i|] eqn:Hold; [destruct b|]; wp_seq; apply HQ; try done.
- by exists i.
- split; [done|]. intros Hx. by destruct (Hf1 Hx).
Qed.

Lemma wp_posix_close_write h id bs (Q : Z -> posix_state D -> Prop) s :
posix_writing s h id bs ->
(forall ret s', (posix_healthy s -> posix_healthy s' /\ ret = 0) ->
   (ret = 0 /\ posix_records s' = <[id := bs]> (posix_records s)) \/
   (ret < 0 /\ posix_records s' = posix_records s) -> Q ret s') ->
wp (posix_Close h) Q s.
Proof.
intros [Hno Hw Ht Hok Hfin Hname (f & Hfile & Htn & Hdata & Huniq)] HQ.
unfold posix_Close. rewrite Hfile. wp_seq. apply wp_simple_call.
intros b s1 Hn1 Hi1 Hd1 Hf1. wp_seq.
assert (Hr1 : posix_records s1 = posix_records s) by (by apply posix_records_same).
destruct b; cbv beta zeta iota; cbn [is_write has_temp write_failed]; rewrite Hw, Ht, ?Hok; simpl.
- wp_seq. unfold wolfPSA_StoreCommitTemp. simpl. rewrite ?Hfin.
  wp_seq. apply wp_rename. intros ok s2 Hi2 Hd2 Hf2 Hcase. wp_seq.
  destruct ok; simpl; wp_seq.
  + destruct Hcase as (i & Hold & Hn2). rewrite Hn1, Htn in Hold. injection Hold as <-.
    apply HQ.
    * intros Hh. split; [|done]. apply (posix_healthy_step s); [done|congruence|].
      intros Hx. apply Hf2. by destruct (Hf1 Hx).
    * left. split; [done|]. apply map_eq. intros k. rewrite posix_records_lookup, Hno, Hn2.
      destruct (decide (k = id)) as [->|Hne].
      -- rewrite !lookup_insert_eq. simpl. f_equal. unfold inode_data in *. congruence.
      -- rewrite !lookup_insert_ne by (done || intros Heq; by apply Hne, (record_name_unique token_path)).
         rewrite lookup_delete_ne by (intros Heq; by apply (no_record_name _ k Hname)).
         rewrite posix_records_lookup, Hno, Hn1. unfold inode_data. by rewrite Hi2, Hi1.
  + destruct Hcase as [Hn2 Hnone]. wp_seq. apply wp_abort_temp; [by left|].
    intros _ s3 Hr3 Hd3 Hf3. wp_seq. apply HQ.
    * intros Hh. destruct (Hf1 (ph_faults _ Hh)) as [_ Hx]. specialize (Hnone Hx).
      rewrite Hn1, Htn in Hnone. done.
    * right. split; [done|]. rewrite Hr3. rewrite <- Hr1. by apply posix_records_same.
- wp_seq. apply wp_abort_temp; [by left|]. intros _ s3 Hr3 Hd3 Hf3. wp_seq. apply HQ.
  + intros Hh. by destruct (Hf1 (ph_faults _ Hh)).
  + right. split; [done|]. congruence.
Qed.

Lemma wp_posix_close_spoiled h (Q : Z -> posix_state D -> Prop) s :
posix_spoiled s h ->
(forall ret s', ret < 0 -> posix_records s' = posix_records s -> Q ret s') ->
wp (posix_Close h) Q s.
Proof.
intros (Hw & Ht & Hwf & Hname) HQ. unfold posix_Close. wp_seq.
assert (Hrest : forall r s1, posix_records s1 = posix_records s ->
  wp (let ctx := mkCtx None (is_write h) (has_temp h) true (final_name h) (temp_name h) in
      if is_write ctx && has_temp ctx && negb true then
        '(commitRet, ctx) ← wolfPSA_StoreCommitTemp ctx;
        if negb (commitRet =? 0)
        then wolfPSA_StoreAbortTemp ctx;; mret WOLFPSA_STORE_IO_ERROR
        else mret r
      else if has_temp ctx then
        wolfPSA_StoreAbortTemp ctx;;
        mret (if is_write ctx && true then WOLFPSA_STORE_IO_ERROR else r)
      else mret r) Q s1).
{ intros r s1 Hr1. simpl. rewrite Hw, Ht. simpl. wp_seq. apply wp_abort_temp; [by left|].
  intros _ s2 Hr2 Hd2 Hf2. wp_seq. apply HQ; [done|congruence]. }
destruct (file h) as [f|]; wp_seq.
- apply wp_simple_call. intros b s1 Hn1 Hi1 Hd1 Hf1. wp_seq.
  assert (posix_records s1 = posix_records s) by (by apply posix_records_same).
  destruct b; rewrite ?Hwf; by apply Hrest.
- rewrite Hwf. by apply Hrest.
Qed.

Lemma wp_posix_remove id (Q : Z -> posix_state D -> Prop) s :
(forall ret s',
   (ret = 0 /\ posix_records s !! id <> None /\
    posix_records s' = delete id (posix_records s)) \/
   (ret < 0 /\ posix_records s' = posix_records s /\
    (ret = WOLFPSA_STORE_NOT_AVAILABLE -> posix_records s !! id = None)) ->
   (posix_healthy s -> posix_healthy s' /\
    (ulong id -> match posix_records s !! id with
                 | Some _ => ret = 0 | None => ret = WOLFPSA_STORE_NOT_AVAILABLE end)) ->
   Q ret s') ->
wp (posix_Remove WOLFPSA_STORE_KEY id 0) Q s.
Proof.
intros HQ. rewrite posix_records_lookup in HQ. unfold posix_Remove.
destruct WOLFPSA_NO_STORE eqn:Hno; [wp_seq; apply HQ; [by right|done]|].
destruct (wolfPSA_Store_Name _ _ _ _) as [ret name] eqn:Hname.
destruct (store_name_cases id ret name Hname) as [Hret|(Hret & -> & Hlen & Htok)]; rewrite Hret.
{ simpl. wp_seq. apply HQ; [by right|]. intros Hh. split; [done|]. intros Hid.
  rewrite (store_name_ok id ret name (ph_len _ Hh) Hid Hname) in Hret. done. }
simpl. wp_seq. apply wp_remove. intros r s1 Hi1 Hd1 Hr1 Hf1. wp_seq.
assert (Hh1 : posix_healthy s -> posix_healthy s1) by (intros Hh; by apply (posix_healthy_step s)).
destruct r as [[]|].
- destruct Hr1 as [Hsome Hn1]. apply HQ.
  + left. split; [done|]. split; [by destruct (names s !! _)|]. apply map_eq. intros k.
    rewrite posix_records_lookup, Hno, Hn1. destruct (decide (k = id)) as [->|Hne].
    * by rewrite !lookup_delete_eq.
    * rewrite !lookup_delete_ne by (done || intros Heq; by apply Hne, (record_name_unique token_path)).
      rewrite posix_records_lookup, Hno. unfold inode_data. by rewrite Hi1.
  + intros Hh. split; [auto|]. intros _. by destruct (names s !! _).
- destruct Hr1 as [Hnone Hn1]. rewrite Hnone in *. apply HQ.
  + right. split; [done|]. split; [by apply posix_records_same|done].
  + intros Hh. split; [auto|done].
- destruct Hr1 as (Hsome & Hn1 & Hbad). apply HQ.
  + right. split; [done|]. split; [by apply posix_records_same|done].
  + intros Hh. by destruct Hbad; apply ph_faults.
Qed.

(** * The instance *)

#[export] Program Instance posix_laws : StoreLaws posix_store :=
{| records := posix_records; reading := posix_reading; writing := posix_writing;
   spoiled := posix_spoiled; healthy := posix_healthy |}.
Next Obligation.
intros id sz s. apply (wp_open_read id sz (fun r s' => posix_records s' = posix_records s /\
  match r with
  | inr h => exists bs, posix_records s !! id = Some bs /\ posix_reading s' h bs
  | inl ret => ret < 0 /\ (ret = WOLFPSA_STORE_NOT_AVAILABLE -> posix_records s !! id = None)
  end)).
intros r s' Hr Hd Hf Hcase _. done.
Qed.
Next Obligation.
intros h n bs s Hrd Hn.
apply (wp_posix_read h n bs (fun r s' => posix_records s' = posix_records s /\
         exists k, (k <= length bs)%nat /\ r.1 = (Z.of_nat k, take k bs) /\ Z.of_nat k <= n /\
                   posix_reading s' r.2 (drop k bs))); [done..|].
intros k h' s' Hr Hd Hf Hk Hkn Hrd' _. split; [done|]. by exists k.
Qed.
Next Obligation.
intros h bs s Hrd.
by apply (wp_posix_close_read h bs (fun _ s' => posix_records s' = posix_records s)).
Qed.
Next Obligation.
intros id sz s. apply (wp_open_write id sz (fun r s' => posix_records s' = posix_records s /\
  match r with inr h => posix_writing s' h id [] | inl ret => ret < 0 end)).
intros r s' Hr Hh Hcase _. done.
Qed.
Next Obligation.
intros h id bs buf s Hw.
apply (wp_posix_write h id bs buf (fun r s' => posix_records s' = posix_records s /\
         ((r.1 = zlen buf /\ posix_writing s' r.2 id (bs ++ buf)) \/
          (r.1 < zlen buf /\ posix_spoiled s' r.2)))); [done|].
intros ret h' s' Hr _ Hcase. done.
Qed.
Next Obligation.
intros h id bs s Hw.
apply (wp_posix_close_write h id bs (fun r s' =>
         (r = 0 /\ posix_records s' = <[id := bs]> (posix_records s)) \/
         (r < 0 /\ posix_records s' = posix_records s))); auto.
Qed.
Next Obligation.
intros h s Hs.
by apply (wp_posix_close_spoiled h (fun r s' => r < 0 /\ posix_records s' = posix_records s)).
Qed.
Next Obligation.
intros id s.
apply (wp_posix_remove id (fun r s' =>
   (r = 0 /\ posix_records s !! id <> None /\ posix_records s' = delete id (posix_records s)) \/
   (r < 0 /\ posix_records s' = posix_records s /\
    (r = WOLFPSA_STORE_NOT_AVAILABLE -> posix_records s !! id = None)))).
auto.
Qed.
Next Obligation.
intros id sz s Hh. apply (wp_open_read id sz (fun r s' => posix_healthy s' /\
  (ulong id -> match posix_records s !! id with
               | Some _ => is_Some (maybe inr r)
               | None => r = inl WOLFPSA_STORE_NOT_AVAILABLE
               end))).
intros r s' Hr Hd Hf _ Hcase. split; [by apply (posix_healthy_step s)|by apply Hcase].
Qed.
Next Obligation.
intros h n bs s Hh Hrd Hn.
apply (wp_posix_read h n bs (fun r s' => posix_healthy s' /\ r.1.1 = Z.min n (zlen bs)));
  [done..|].
intros k h' s' Hr Hd Hf Hk Hkn Hrd' Hmin. split; [by apply (posix_healthy_step s)|].
by apply Hmin, ph_faults.
Qed.
Next Obligation.
intros id sz s Hh. apply (wp_open_write id sz (fun r s' => posix_healthy s' /\
  (ulong id -> is_Some (maybe inr r)))).
intros r s' Hr Hh' _ Hcase. split; [by apply Hh'|by apply Hcase].
Qed.
Next Obligation.
intros h id bs buf s Hh Hw.
apply (wp_posix_write h id bs buf (fun r s' => posix_healthy s' /\ r.1 = zlen buf)); [done|].
intros ret h' s' Hr Hcase _. by destruct (Hcase Hh).
Qed.
Next Obligation.
intros h id bs s Hh Hw.
apply (wp_posix_close_write h id bs (fun r s' => posix_healthy s' /\ r = 0)); [done|].
intros ret s' Hcase _. by destruct (Hcase Hh).
Qed.
Next Obligation.
intros h bs s Hh Hrd.
apply (wp_posix_close_read h bs (fun _ s' => posix_healthy s')); [done|].
intros r s' Hr Hd Hf. by apply (posix_healthy_step s).
Qed.
Next Obligation.
intros id s Hh.
apply (wp_posix_remove id (fun r s' => posix_healthy s' /\
   (ulong id -> match posix_records s !! id with
                | Some _ => r = 0 | None => r = WOLFPSA_STORE_NOT_AVAILABLE end))).
auto.
Qed.

(** * Between two system calls

    [quietly P m]: the result of [m] satisfies [P], and every disk that [m]
    leaves on its way, not only the last one, has the records it began with. *)

Record disk_settled s s' : Prop := {
st_records : posix_records s' = posix_records s;
st_past : exists past, disk_log s' = past ++ disk_log s /\
  Forall (fun d => disk_records d = posix_records s) past }.

Lemma disk_settled_frame s s' :
names s' = names s -> inodes s' = inodes s -> disk_log s' = disk_log s -> disk_settled s s'.
Proof. intros Hn Hi Hl. split; [by apply posix_records_same|by exists []]. Qed.

Lemma disk_settled_trans s s1 s2 : disk_settled s s1 -> disk_settled s1 s2 -> disk_settled s s2.
Proof.
intros [Hr1 (p1 & Hl1 & Hp1)] [Hr2 (p2 & Hl2 & Hp2)]. split; [congruence|]. exists (p2 ++ p1).
rewrite Hl2, Hl1. split; [by rewrite <- app_assoc|]. apply Forall_app. split; [by rewrite <- Hr1|done].
Qed.

Lemma disk_settled_step m d s : disk_records (m, d) = posix_records s -> disk_settled s (with_disk m d s).
Proof. intros H. split; [done|]. exists [(m, d)]. split; [done|]. by constructor. Qed.

Definition quietly {A} (P : A -> Prop) (m : M (posix_state D) A) : Prop :=
forall s, wp m (fun a s' => P a /\ disk_settled s s') s.

Lemma quietly_ret {A} (P : A -> Prop) (a : A) : P a -> quietly P (mret a).
Proof. intros Ha s. split; [done|by apply disk_settled_frame]. Qed.

Lemma quietly_bind {A B} (P : A -> Prop) (Q : B -> Prop) (m : M (posix_state D) A)
  (k : A -> M (posix_state D) B) :
quietly P m -> (forall a, P a -> quietly Q (k a)) -> quietly Q (m ≫= k).
Proof.
intros Hm Hk s. apply wp_bind. destruct (Hm s) as [Ha Hs]. destruct (Hk _ Ha (m s).2) as [Hb Hs'].
split; [done|]. by apply (disk_settled_trans _ (m s).2).
Qed.

Lemma quietly_mono {A} (P Q : A -> Prop) (m : M (posix_state D) A) :
quietly P m -> (forall a, P a -> Q a) -> quietly Q m.
Proof. intros Hm HPQ s. destruct (Hm s) as [??]. split; [by apply HPQ|done]. Qed.

(** From a state that is reached quietly. *)
Lemma quietly_from {A} (P : A -> Prop) (m : M (posix_state D) A) s s1 :
quietly P m -> disk_settled s s1 -> wp m (fun a s' => P a /\ disk_settled s s') s1.
Proof. intros Hm Hs. destruct (Hm s1) as [??]. split; [done|]. by apply (disk_settled_trans _ s1). Qed.

Lemma quietly_simple_call : quietly (fun _ => True) simple_call.
Proof.
intros s. unfold simple_call, next_fault. wp_seq. unfold wp. simpl. split; [done|].
apply disk_settled_frame; by destruct (io_faults s).
Qed.

Lemma quietly_remove name : id_of_name token_path name = None -> quietly (fun _ => True) (remove name).
Proof.
intros Ht s. unfold remove. wp_seq. unfold wp at 1. destruct (quietly_simple_call s) as [_ Hs].
destruct (simple_call s) as [b s1]. simpl in Hs. simpl fst. simpl snd. wp_seq.
destruct (names s1 !! name) as [i|]; [destruct b|]; wp_seq; [|done..]. split; [done|].
apply (disk_settled_trans _ s1); [done|]. apply disk_settled_step.
change (posix_records (with_names (delete name (names s1)) s1) = posix_records s1).
apply posix_records_ext. intros id. simpl.
by rewrite lookup_delete_ne by (intros Heq; by apply (no_record_name name id)).
Qed.

(** A context whose temporary file, if any, is not named as a record. *)
Definition temp_apart (ctx : WOLFPSA_FileStoreCtx) : Prop :=
id_of_name token_path (temp_name ctx) = None.

Lemma quietly_abort ctx : temp_apart ctx -> quietly (fun _ => True) (wolfPSA_StoreAbortTemp ctx).
Proof.
intros Ht. unfold wolfPSA_StoreAbortTemp. destruct (has_temp ctx); [|by apply quietly_ret].
apply quietly_bind with (fun _ => True); [by apply quietly_remove|]. intros. by apply quietly_ret.
Qed.

Lemma quietly_discard ctx : temp_apart ctx -> quietly (fun _ => True) (discard_ctx ctx).
Proof.
intros Ht. unfold discard_ctx. apply quietly_bind with (fun _ => True).
- destruct (file ctx); [|by apply quietly_ret]. eapply quietly_bind; [apply quietly_simple_call|].
  intros. by apply quietly_ret.
- intros _ _. eapply quietly_bind; [by apply quietly_abort|]. intros. by apply quietly_ret.
Qed.

Lemma quietly_ensure_dir dirPath : quietly (fun _ => True) (wolfPSA_StoreEnsureDir dirPath).
Proof.
intros s. assert (Hs : forall d, disk_settled s (with_dirs d s)) by (intros; by apply disk_settled_frame).
assert (Hs0 : disk_settled s s) by (by apply disk_settled_frame).
unfold wolfPSA_StoreEnsureDir. destruct (String.eqb dirPath ""); wp_seq; [done|].
destruct (wolfPSA_StoreValidatePath (dirs s) dirPath =? 0); wp_seq; [done|].
destruct (mkdir (dirs s) dirPath) as [errno d]. wp_seq.
destruct (errno =? 0); [destruct (check_path d dirPath)|destruct (errno =? EEXIST)]; wp_seq;
  (split; [done|apply Hs]).
Qed.

Lemma quietly_create_temp ctx :
temp_apart ctx -> quietly (fun r => temp_apart r.2) (wolfPSA_StoreCreateTempFile ctx token_path).
Proof.
intros Ht. unfold wolfPSA_StoreCreateTempFile. destruct (_ <=? _); [by apply quietly_ret|].
eapply quietly_bind; [apply quietly_simple_call|]. intros b _. destruct b; [|by apply quietly_ret].
cbn [negb].
intros s. apply wp_bind, wp_get, wp_bind, wp_put. pose proof (fresh_inode s) as [Hfi Hfn].
set (i := fresh (dom (inodes s) ∪ map_img (names s))) in *.
set (name := mkstemp_name (names s) (temp_template token_path)).
assert (Hname : id_of_name token_path name = None)
  by (by eapply temp_name_no_record; [apply mkstemp_prefix|]).
pose proof (records_add_temp s name i [] Hname Hfi Hfn) as Hradd.
apply quietly_from; [|by apply disk_settled_step].
assert (Hdrop : quietly (fun r : Z * WOLFPSA_FileStoreCtx => temp_apart r.2)
                  (remove name;; mret (WOLFPSA_STORE_IO_ERROR, ctx))).
{ eapply quietly_bind; [by apply quietly_remove|]. intros. by apply quietly_ret. }
eapply quietly_bind; [apply quietly_simple_call|]. intros b _. destruct b; [|done]. cbn [negb].
eapply quietly_bind; [apply quietly_simple_call|]. intros b _. destruct b; [|done]. cbn [negb].
by apply quietly_ret.
Qed.

Lemma no_temp_apart : id_of_name token_path "" = None.
Proof.
destruct (id_of_name token_path "") as [id|] eqn:Hid; [|done]. apply record_name_of_id in Hid.
unfold record_name in Hid. by destruct token_path.
Qed.

Lemma quietly_open id sz :
quietly (fun _ => True) (posix_OpenSz WOLFPSA_STORE_KEY id 0 false sz).
Proof.
unfold posix_OpenSz. destruct WOLFPSA_NO_STORE; [by apply quietly_ret|].
destruct (wolfPSA_Store_Name _ _ _ _) as [ret name] eqn:Hname.
destruct (store_name_cases id ret name Hname) as [Hret|(Hret & -> & Hlen & Htok)]; rewrite Hret;
  [by apply quietly_ret|].
simpl. eapply quietly_bind; [apply quietly_simple_call|]. intros b _. destruct b; [|by apply quietly_ret].
simpl. rewrite (proj2 (Z.leb_gt WOLFPSA_STORE_MAX_PATH _)) by done.
eapply quietly_bind with (fun r => temp_apart r.2).
- unfold open_for_write. rewrite dir_of_record_name by (unfold WOLFPSA_STORE_MAX_PATH; lia).
  destruct (String.eqb token_path ""); [apply quietly_ret; apply no_temp_apart|].
  eapply quietly_bind; [apply quietly_ensure_dir|]. intros r _. destruct (r =? 0).
  + apply quietly_create_temp, no_temp_apart.
  + apply quietly_ret, no_temp_apart.
- intros [r ctx] Hctx. destruct (_ =? 0); [by apply quietly_ret|].
  eapply quietly_bind; [by apply quietly_discard|]. intros. by apply quietly_ret.
Qed.

Lemma write_quietly h id bs buf s :
posix_writing s h id bs -> disk_settled s (posix_Write h buf (zlen buf) s).2.
Proof.
intros [Hno Hw Ht Hok Hfin Hname (f & Hfile & Htn & Hdata & Huniq)].
enough (Hwp : wp (posix_Write h buf (zlen buf)) (fun _ s' => True /\ disk_settled s s') s) by (by destruct Hwp).
unfold posix_Write. rewrite Hfile. wp_seq. unfold fwrite. wp_seq.
unfold wp at 1. set (s1 := (next_fault s).2). set (fault := (next_fault s).1).
assert (Hs1 : names s1 = names s /\ inodes s1 = inodes s /\ disk_log s1 = disk_log s)
  by (unfold s1, next_fault; by destruct (io_faults s)).
destruct Hs1 as (Hn1 & Hi1 & Hl1). wp_seq. set (out := match fault with None => _ | Some k => _ end).
set (s2 := with_inodes _ s1).
assert (Hs2 : disk_settled s s2).
{ apply (disk_settled_trans _ s1); [by apply disk_settled_frame|]. apply disk_settled_step.
  apply (records_write_temp s1 _ _ (temp_name h)); [done|]. intros name. rewrite Hn1. apply Huniq. }
apply quietly_from; [|done]. destruct (_ =? _); [|by apply quietly_ret].
eapply quietly_bind; [apply quietly_simple_call|]. intros. by apply quietly_ret.
Qed.

Lemma close_spoiled_quietly h s : posix_spoiled s h -> disk_settled s (posix_Close h s).2.
Proof.
intros (Hw & Ht & Hwf & Hname).
enough (Hwp : wp (posix_Close h) (fun _ s' => True /\ disk_settled s s') s) by (by destruct Hwp).
apply quietly_from; [|by apply disk_settled_frame]. unfold posix_Close.
apply quietly_bind with (fun r => r.1 = true).
- destruct (file h); [|by apply quietly_ret]. eapply quietly_bind; [apply quietly_simple_call|].
  intros b _. apply quietly_ret. by destruct b.
- intros [wf r] [= ->]. simpl. rewrite Hw, Ht. simpl.
  eapply quietly_bind; [by apply quietly_abort|]. intros. by apply quietly_ret.
Qed.

(** Closing what was written: either nothing happens to the records, or the last
  system call of all is the rename that brings the new record. *)
Lemma close_write_quietly h id bs s :
posix_writing s h id bs ->
(posix_Close h s).1 < 0 /\ disk_settled s (posix_Close h s).2 \/
(posix_Close h s).1 = 0 /\
(exists s1, disk_settled s s1 /\ disk_log (posix_Close h s).2 = disk_of (posix_Close h s).2 :: disk_log s1).
Proof.
intros [Hno Hw Ht Hok Hfin Hname (f & Hfile & _)].
enough (Hwp : wp (posix_Close h) (fun r s' => r < 0 /\ disk_settled s s' \/
  r = 0 /\ (exists s1, disk_settled s s1 /\ disk_log s' = disk_of s' :: disk_log s1)) s) by done.
unfold posix_Close. rewrite Hfile. wp_seq. unfold wp at 1.
destruct (quietly_simple_call s) as [_ Hs1]. destruct (simple_call s) as [b s1].
simpl in Hs1. simpl fst. simpl snd. wp_seq.
assert (Habort : forall s3 w wf (ret : Z), ret < 0 -> disk_settled s s3 ->
  wp (wolfPSA_StoreAbortTemp (mkCtx None w true wf (final_name h) (temp_name h));; mret ret)
     (fun r s' => r < 0 /\ disk_settled s s' \/
        r = 0 /\ (exists s1, disk_settled s s1 /\ disk_log s' = disk_of s' :: disk_log s1)) s3).
{ intros s3 w wf ret Hneg Hs3. eapply wp_mono.
  - apply (quietly_from (fun r => r < 0) _ s); [|exact Hs3].
    eapply quietly_bind; [by apply quietly_abort|]. intros. by apply quietly_ret.
  - intros ?? [??]. by left. }
destruct b; cbv beta zeta iota; cbn [is_write has_temp write_failed]; rewrite Hw, Ht, ?Hok;
  [|by apply Habort].
wp_seq. unfold wolfPSA_StoreCommitTemp. simpl. wp_seq. unfold rename. wp_seq. unfold wp at 1.
destruct (quietly_simple_call s1) as [_ Hs2]. destruct (simple_call s1) as [b s2]. simpl in Hs2.
simpl fst. simpl snd. wp_seq. assert (Hs : disk_settled s s2) by (by apply (disk_settled_trans _ s1)).
destruct (names s2 !! temp_name h) as [i|]; [destruct b|]; wp_seq; simpl; [|by apply Habort..].
wp_seq. right. split; [done|by exists s2].
Qed.

(** * Saving a record: every point at which the process may stop *)

(** Where a save is: a write context with the bytes written so far, a context
  on which a write failed, closed with its return code, or never opened. *)
Inductive save_phase : Set :=
| Opened (h : WOLFPSA_FileStoreCtx) (bs : list byte)
| Failed (h : WOLFPSA_FileStoreCtx)
| Closed (ret : Z) (bs : list byte)
| NotOpened (ret : Z).

(** The calls of a save of [id] that starts in [s0]. *)
Inductive save_run (id : N) (s0 : posix_state D) : save_phase -> posix_state D -> Prop :=
| save_open sz h s :
  posix_OpenSz WOLFPSA_STORE_KEY id 0 false sz s0 = (inr h, s) -> save_run id s0 (Opened h []) s
| save_open_error sz ret s :
  posix_OpenSz WOLFPSA_STORE_KEY id 0 false sz s0 = (inl ret, s) -> save_run id s0 (NotOpened ret) s
| save_write h bs buf ret h' s s' :
  save_run id s0 (Opened h bs) s -> posix_Write h buf (zlen buf) s = ((ret, h'), s') ->
  save_run id s0 (if ret =? zlen buf then Opened h' (bs ++ buf) else Failed h') s'
| save_close h bs ret s s' :
  save_run id s0 (Opened h bs) s -> posix_Close h s = (ret, s') ->
  save_run id s0 (Closed ret bs) s'
| save_close_failed h ret s s' :
  save_run id s0 (Failed h) s -> posix_Close h s = (ret, s') ->
  save_run id s0 (Closed ret []) s'.

Definition save_inv (id : N) (s0 : posix_state D) (p : save_phase) (s : posix_state D) : Prop :=
match p with
| Opened h bs => posix_records s = posix_records s0 /\ posix_writing s h id bs
| Failed h => posix_records s = posix_records s0 /\ posix_spoiled s h
| Closed ret bs =>
    (ret = WOLFPSA_STORE_OK /\ posix_records s = <[id := bs]> (posix_records s0)) \/
    (ret < 0 /\ posix_records s = posix_records s0)
| NotOpened ret => ret < 0 /\ posix_records s = posix_records s0
end.

Lemma save_run_inv id s0 p s : save_run id s0 p s -> save_inv id s0 p s.
Proof.
induction 1 as [sz h s Ho|sz ret s Ho|h bs buf ret h' s s' _ [Hr Hw] Hwr
               |h bs ret s s' _ [Hr Hw] Hcl|h ret s s' _ [Hr Hsp] Hcl]; simpl.
- pose proof (open_write_law (StoreLaws := posix_laws) id sz s0) as [Hr Hw].
  simpl in *. by rewrite Ho in *.
- pose proof (open_write_law (StoreLaws := posix_laws) id sz s0) as [Hr Hw].
  simpl in *. by rewrite Ho in *.
- pose proof (write_law (StoreLaws := posix_laws) h id bs buf s Hw) as [Hr' Hcase].
  simpl in *. rewrite Hwr in *. simpl in *.
  destruct Hcase as [[-> Hw']|[Hlt Hsp]].
  + rewrite Z.eqb_refl. split; [congruence|done].
  + destruct (Z.eqb_spec ret (zlen buf)); [lia|]. split; [congruence|done].
- pose proof (close_write_law (StoreLaws := posix_laws) h id bs s Hw) as Hcase.
  simpl in *. rewrite Hcl in *. simpl in *. by rewrite Hr in *.
- pose proof (close_spoiled_law (StoreLaws := posix_laws) h s Hsp) as [Hneg Hr'].
  simpl in *. rewrite Hcl in *. simpl in *. right. split; [done|congruence].
Qed.

(** The disks that were left since [s0], the last one first. *)
Definition passed s0 s (past : list disk) : Prop := disk_log s = past ++ disk_log s0.

Lemma save_run_past id s0 p s :
save_run id s0 p s ->
exists past, passed s0 s past /\
  ((Forall (fun d => disk_records d = posix_records s0) past /\ forall bs, p <> Closed 0 bs) \/
   (exists bs before, p = Closed 0 bs /\ past = disk_of s :: before /\
      Forall (fun d => disk_records d = posix_records s0) before)).
Proof.
assert (Hall : forall p s, save_run id s0 p s ->
  (disk_settled s0 s /\ forall bs, p <> Closed 0 bs) \/
  (exists bs s1, p = Closed 0 bs /\ disk_settled s0 s1 /\ disk_log s = disk_of s :: disk_log s1)).
{ induction 1 as [sz h s1 Ho|sz ret s1 Ho|h bs buf ret h' s1 s2 Hrun IH Hwr
                 |h bs ret s1 s2 Hrun IH Hcl|h ret s1 s2 Hrun IH Hcl].
  - left. split; [|done]. destruct (quietly_open id sz s0) as [_ Hs]. by rewrite Ho in Hs.
  - left. split; [|done]. destruct (quietly_open id sz s0) as [_ Hs]. by rewrite Ho in Hs.
  - destruct IH as [[IH _]|(? & ? & ? & _)]; [left|done].
    pose proof (save_run_inv _ _ _ _ Hrun) as [_ Hw].
    pose proof (write_quietly h id bs buf s1 Hw) as Hs. rewrite Hwr in Hs.
    split; [by apply (disk_settled_trans _ s1)|by destruct (ret =? zlen buf)].
  - destruct IH as [[IH _]|(? & ? & ? & _)]; [|done].
    pose proof (save_run_inv _ _ _ _ Hrun) as [_ Hw].
    pose proof (close_write_quietly h id bs s1 Hw) as Hs. rewrite Hcl in Hs. simpl in Hs.
    destruct Hs as [[Hneg Hs]|(-> & s3 & Hs & Hl)]; [left|right].
    + split; [by apply (disk_settled_trans _ s1)|]. intros ? [= -> _]. lia.
    + exists bs, s3. split_and!; [done|by apply (disk_settled_trans _ s1)|done].
  - destruct IH as [[IH _]|(? & ? & ? & _)]; [left|done].
    pose proof (save_run_inv _ _ _ _ Hrun) as [_ Hw].
    pose proof (close_spoiled_quietly h s1 Hw) as Hs.
    pose proof (close_spoiled_law (StoreLaws := posix_laws) h s1 Hw) as [Hneg _].
    simpl in *. rewrite Hcl in *. simpl in *.
    split; [by apply (disk_settled_trans _ s1)|]. intros ? [= -> _]. lia. }
intros Hrun. destruct (Hall p s Hrun) as [[[_ (past & Hl & Hf)] Hne]|(bs & s1 & -> & [_ (past & Hp & Hf)] & Hl)].
- exists past. auto.
- exists (disk_of s :: past). unfold passed. rewrite Hl, Hp. split; [done|right]. by exists bs, past.
Qed.

(** C33: saving a record is atomic, whatever system call fails. Every disk that a
  system call of the save leaves, inside open, write and close as between them,
  holds exactly the former records, except the last one of a close that returns
  0: there the former records hold with this one replaced by all the bytes
  written. That disk is left by the last system call, the rename, and a save that
  does not end so has changed no record. The process may stop after any call; the
  order in which the medium itself takes the calls is not modelled. *)
Theorem posix_save_atomic id s0 p s :
save_run id s0 p s ->
exists past, passed s0 s past /\
match p with
| Closed 0 bs =>
    posix_records s = <[id := bs]> (posix_records s0) /\
    (exists before, past = disk_of s :: before /\
       Forall (fun d => disk_records d = posix_records s0) before)
| Closed ret _ | NotOpened ret =>
    ret < 0 /\ posix_records s = posix_records s0 /\
    Forall (fun d => disk_records d = posix_records s0) past
| Opened _ _ | Failed _ =>
    posix_records s = posix_records s0 /\
    Forall (fun d => disk_records d = posix_records s0) past
end.
Proof.
intros Hrun. destruct (save_run_past id s0 p s Hrun) as (past & Hp & Hpast). exists past.
split; [done|]. pose proof (save_run_inv id s0 p s Hrun) as Hinv.
destruct Hpast as [[Hold Hne]|(bs & before & -> & -> & Hb)].
- destruct p as [h bs|h|ret bs|ret]; simpl in Hinv; try tauto. unfold WOLFPSA_STORE_OK in Hinv.
  destruct ret as [|q|q]; [by destruct (Hne bs)|..]; destruct Hinv as [[? _]|[??]]; done || lia.
- simpl in Hinv. unfold WOLFPSA_STORE_OK in Hinv. destruct Hinv as [[_ Hr]|[? _]]; [|lia].
  split; [done|by exists before].
Qed.

(** Different identifiers have different file names. *)
Theorem record_name_injective dir id1 id2 :
record_name dir id1 0 = record_name dir id2 0 <-> id1 = id2.
Proof. split; [apply record_name_unique|by intros ->]. Qed.
End Spec.
