(* ===== verification/Library.v ===== *)
(** The library state and its initialisation: the globals of
    [src/psa_key_storage.c], [src/psa_crypto.c] and the mutex of
    [src/psa_lock.h], the init and cleanup entry points, and
    [psa_generate_random] of [src/psa_random.c].

    Calls that may fail at run time take their outcome from lists in the state
    ([malloc_outcomes], [mutex_rets], [wolfcrypt_init_rets]); an exhausted list
    means success.  The mutex records misuse: [lock_fault] is set by locking it
    while it is held or before it exists, and by unlocking it when it is free. *)

From stdpp Require Import base decidable list.
From Stdlib Require Import ZArith Lia.
From Stdlib Require Import Strings.Byte.
From S2P Require Import Prelude.
From S2P Require Import Values.
From S2P Require Import Engine.
From S2P Require Import StoreIface.

#[local] Open Scope Z_scope.

(** * State *)

(** [wolfpsa_volatile_key_node]; [data_length] is the length of the list. *)
Record volatile_key_node : Set := mkNode {
  node_id : Z;
  node_attributes : psa_key_attributes_t;
  node_data : list byte }.

Record kstate {O : StoreOps} : Type := mkState {
  g_psa_crypto_initialized : bool;
  g_key_storage_initialized : bool;
  g_wolfpsa_lock_ready : bool;
  g_next_key_id : Z;
  g_volatile_keys : list volatile_key_node;
  key_store : store_state;
  lock_held : bool;
  lock_fault : bool;
  malloc_outcomes : list bool;
  mutex_rets : list Z;
  wolfcrypt_init_rets : list Z;
  rng_draws : nat }.
Arguments kstate : clear implicits.

(** wolfCrypt's random generator: the [n]-th use of it. *)
Class WolfCryptRng : Type := {
  wc_InitRng_ex : nat -> Z;
  wc_RNG_GenerateBlock : nat -> Z -> Z * list byte }.

Class WolfCryptRngOk (R : WolfCryptRng) : Prop := {
  rng_block_length n size out :
    wc_RNG_GenerateBlock n size = (0, out) -> zlen out = size }.

Section Setters.
Context {O : StoreOps}.

Definition with_crypto_init (b : bool) (s : kstate O) : kstate O :=
mkState _ b (g_key_storage_initialized s) (g_wolfpsa_lock_ready s) (g_next_key_id s)
  (g_volatile_keys s) (key_store s) (lock_held s) (lock_fault s) (malloc_outcomes s)
  (mutex_rets s) (wolfcrypt_init_rets s) (rng_draws s).
Definition with_storage_init (b : bool) (s : kstate O) : kstate O :=
mkState _ (g_psa_crypto_initialized s) b (g_wolfpsa_lock_ready s) (g_next_key_id s)
  (g_volatile_keys s) (key_store s) (lock_held s) (lock_fault s) (malloc_outcomes s)
  (mutex_rets s) (wolfcrypt_init_rets s) (rng_draws s).
Definition with_next_key_id (i : Z) (s : kstate O) : kstate O :=
mkState _ (g_psa_crypto_initialized s) (g_key_storage_initialized s)
  (g_wolfpsa_lock_ready s) i
  (g_volatile_keys s) (key_store s) (lock_held s) (lock_fault s) (malloc_outcomes s)
  (mutex_rets s) (wolfcrypt_init_rets s) (rng_draws s).
Definition with_volatile_keys (l : list volatile_key_node) (s : kstate O) : kstate O :=
mkState _ (g_psa_crypto_initialized s) (g_key_storage_initialized s)
  (g_wolfpsa_lock_ready s) (g_next_key_id s)
  l (key_store s) (lock_held s) (lock_fault s) (malloc_outcomes s)
  (mutex_rets s) (wolfcrypt_init_rets s) (rng_draws s).
Definition with_key_store (st : store_state) (s : kstate O) : kstate O :=
mkState _ (g_psa_crypto_initialized s) (g_key_storage_initialized s)
  (g_wolfpsa_lock_ready s) (g_next_key_id s)
  (g_volatile_keys s) st (lock_held s) (lock_fault s) (malloc_outcomes s)
  (mutex_rets s) (wolfcrypt_init_rets s) (rng_draws s).
Definition with_lock (held fault : bool) (s : kstate O) : kstate O :=
mkState _ (g_psa_crypto_initialized s) (g_key_storage_initialized s)
  (g_wolfpsa_lock_ready s) (g_next_key_id s)
  (g_volatile_keys s) (key_store s) held fault (malloc_outcomes s)
  (mutex_rets s) (wolfcrypt_init_rets s) (rng_draws s).
Definition with_malloc (l : list bool) (s : kstate O) : kstate O :=
mkState _ (g_psa_crypto_initialized s) (g_key_storage_initialized s)
  (g_wolfpsa_lock_ready s) (g_next_key_id s)
  (g_volatile_keys s) (key_store s) (lock_held s) (lock_fault s) l
  (mutex_rets s) (wolfcrypt_init_rets s) (rng_draws s).
Definition with_mutex (ready : bool) (l : list Z) (s : kstate O) : kstate O :=
mkState _ (g_psa_crypto_initialized s) (g_key_storage_initialized s)
  ready (g_next_key_id s)
  (g_volatile_keys s) (key_store s) (lock_held s) (lock_fault s) (malloc_outcomes s)
  l (wolfcrypt_init_rets s) (rng_draws s).
Definition with_wolfcrypt_rets (l : list Z) (s : kstate O) : kstate O :=
mkState _ (g_psa_crypto_initialized s) (g_key_storage_initialized s)
  (g_wolfpsa_lock_ready s) (g_next_key_id s)
  (g_volatile_keys s) (key_store s) (lock_held s) (lock_fault s) (malloc_outcomes s)
  (mutex_rets s) l (rng_draws s).
Definition with_rng_draws (n : nat) (s : kstate O) : kstate O :=
mkState _ (g_psa_crypto_initialized s) (g_key_storage_initialized s)
  (g_wolfpsa_lock_ready s) (g_next_key_id s)
  (g_volatile_keys s) (key_store s) (lock_held s) (lock_fault s) (malloc_outcomes s)
  (mutex_rets s) (wolfcrypt_init_rets s) n.

(** The state before any call. *)
Definition initial_state (st : store_state) : kstate O :=
mkState _ false false false PSA_KEY_ID_VENDOR_MIN [] st false false [] [] [] 0.
End Setters.

Section Operations.
Context {C : Config} {E : WolfCryptErr} {R : WolfCryptRng} {O : StoreOps}.

(** * Environment calls *)

Definition XMALLOC (size : Z) : M (kstate O) bool := fun s =>
let '(ok, l) := next_outcome (malloc_outcomes s) in (ok, with_malloc l s).

Definition next_ret (l : list Z) : Z * list Z :=
match l with [] => (0, []) | r :: l' => (r, l') end.

Definition wolfCrypt_Init : M (kstate O) Z := fun s =>
let '(r, l) := next_ret (wolfcrypt_init_rets s) in (r, with_wolfcrypt_rets l s).

(** A store call acts on the store component. *)
Definition store_op {A} (m : M store_state A) : M (kstate O) A := fun s =>
let '(a, st) := m (key_store s) in (a, with_key_store st s).

(** * The global mutex *)

Definition wolfpsa_lock_ensure_init : M (kstate O) Z := fun s =>
if g_wolfpsa_lock_ready s then (0, s)
else
  let '(ret, l) := next_ret (mutex_rets s) in
  (ret, with_mutex (ret =? 0) l s).

Definition WOLFPSA_LOCK_INIT : M (kstate O) Z :=
if WOLFPSA_THREAD_SAFE then wolfpsa_lock_ensure_init else mret 0.

Definition WOLFPSA_LOCK : M (kstate O) unit := fun s =>
if WOLFPSA_THREAD_SAFE
then (tt, with_lock true (lock_fault s || lock_held s || negb (g_wolfpsa_lock_ready s)) s)
else (tt, s).

Definition WOLFPSA_UNLOCK : M (kstate O) unit := fun s =>
if WOLFPSA_THREAD_SAFE
then (tt, with_lock false (lock_fault s || negb (lock_held s)) s)
else (tt, s).

(** * [psa_crypto.c] *)

Definition wolfPSA_CryptoIsInitialized : M (kstate O) bool :=
r ← WOLFPSA_LOCK_INIT;
if negb (r =? 0) then mret false
else
  WOLFPSA_LOCK;;
  initialized ← mgets g_psa_crypto_initialized;
  WOLFPSA_UNLOCK;;
  mret initialized.

Definition psa_crypto_init : M (kstate O) psa_status_t :=
r ← WOLFPSA_LOCK_INIT;
if negb (r =? 0) then mret PSA_ERROR_GENERIC_ERROR
else
  WOLFPSA_LOCK;;
  initialized ← mgets g_psa_crypto_initialized;
  status ← (if (initialized : bool) then mret PSA_SUCCESS
            else
              ret ← wolfCrypt_Init;
              if negb (ret =? 0) then mret (wc_error_to_psa_status ret)
              else mmodify (with_crypto_init true);; mret PSA_SUCCESS);
  WOLFPSA_UNLOCK;;
  mret status.

(** * Storage init and cleanup ([psa_key_storage.c]) *)

Definition psa_key_storage_init : M (kstate O) psa_status_t :=
r ← WOLFPSA_LOCK_INIT;
if negb (r =? 0) then mret PSA_ERROR_GENERIC_ERROR
else
  WOLFPSA_LOCK;;
  mmodify (with_storage_init true);;
  WOLFPSA_UNLOCK;;
  mret PSA_SUCCESS.

Definition psa_key_storage_cleanup : M (kstate O) unit :=
r ← WOLFPSA_LOCK_INIT;
if negb (r =? 0) then mret tt
else
  WOLFPSA_LOCK;;
  mmodify (with_volatile_keys []);;
  mmodify (with_storage_init false);;
  WOLFPSA_UNLOCK.

(** [wolfCrypt_Cleanup] touches no state of this library. *)
Definition wolfPSA_CryptoCleanup : M (kstate O) unit :=
r ← WOLFPSA_LOCK_INIT;
if negb (r =? 0) then mret tt
else
  WOLFPSA_LOCK;;
  mmodify (with_crypto_init false);;
  WOLFPSA_UNLOCK;;
  psa_key_storage_cleanup.

Definition psa_key_storage_check_init : M (kstate O) psa_status_t :=
initialized ← wolfPSA_CryptoIsInitialized;
if negb initialized then mret PSA_ERROR_BAD_STATE
else psa_key_storage_init.

(** The test hooks for the counter. *)
Definition wolfpsa_test_get_next_key_id : M (kstate O) Z :=
r ← WOLFPSA_LOCK_INIT;
if negb (r =? 0) then mret 0
else
  WOLFPSA_LOCK;;
  id ← mgets g_next_key_id;
  WOLFPSA_UNLOCK;;
  mret id.

Definition wolfpsa_test_set_next_key_id (key_id : Z) : M (kstate O) unit :=
r ← WOLFPSA_LOCK_INIT;
if negb (r =? 0) then mret tt
else
  WOLFPSA_LOCK;;
  mmodify (with_next_key_id key_id);;
  WOLFPSA_UNLOCK.

(** * [psa_generate_random] ([psa_random.c]) *)

Definition rng_draw : M (kstate O) nat := fun s =>
(rng_draws s, with_rng_draws (S (rng_draws s)) s).

(** [output] says whether the pointer is not NULL. *)
Definition psa_generate_random (output : bool) (output_size : Z)
: M (kstate O) (psa_status_t * list byte) :=
initialized ← wolfPSA_CryptoIsInitialized;
if negb initialized then mret (PSA_ERROR_BAD_STATE, [])
else if negb output && (0 <? output_size) then mret (PSA_ERROR_INVALID_ARGUMENT, [])
else if UINT32_MAX <? output_size then mret (PSA_ERROR_INVALID_ARGUMENT, [])
else if output_size =? 0 then mret (PSA_SUCCESS, [])
else
  n ← rng_draw;
  if negb (wc_InitRng_ex n =? 0) then mret (wc_error_to_psa_status (wc_InitRng_ex n), [])
  else
    let '(ret, out) := wc_RNG_GenerateBlock n output_size in
    if negb (ret =? 0) then mret (wc_error_to_psa_status ret, out)
    else mret (PSA_SUCCESS, out).
End Operations.
