(* ===== verification/KeyStore.v ===== *)
(** The key store of [src/psa_key_storage.c]: the volatile key list, import,
    generation, lookup, export, copy, destruction and usage checks.

    A pointer argument that may be NULL is an [option] (or a [bool] when only
    its presence matters); output parameters are returned with the status.  The
    sequences that several entry points repeat (open a record and read its
    header, then its data) are one definition each.  Key material is returned
    as a list, [None] being the NULL pointer. *)

From stdpp Require Import base decidable list gmap.
From Stdlib Require Import ZArith Lia.
From Stdlib Require Import Strings.Byte.
From S2P Require Import Prelude.
From S2P Require Import Values.
From S2P Require Import Engine.
From S2P Require Import KeyPolicy.
From S2P Require Import Der.
From S2P Require Import KeyFormat.
From S2P Require Import StoreIface.
From S2P Require Import Library.

#[local] Open Scope Z_scope.

(** * The asymmetric and post-quantum backends

    What [psa_key_storage.c] calls in [psa_rsa.c], [psa_ecc.c],
    [psa_ed25519_ed448.c], [psa_montgomery.c], [psa_mldsa.c], [psa_mlkem.c], and
    wolfCrypt's RSA key object.  A generator takes the index of its draw from
    the random generator, the key type, the size and the private buffer size,
    and gives the private key.  A post-quantum key is a seed: [mldsa_seed_status]
    is the answer of [mldsa_key_init] and [mldsa_expand_seed] on it, and
    [mlkem_seed_status] that of wolfCrypt's expansion. *)
Class KeyBackend : Type := {
  psa_asymmetric_generate_key_rsa : nat -> Z -> Z -> Z -> psa_status_t * list byte;
  psa_asymmetric_generate_key_ecc : nat -> Z -> Z -> Z -> psa_status_t * list byte;
  psa_asymmetric_generate_key_ed25519 : nat -> Z -> Z -> Z -> psa_status_t * list byte;
  psa_asymmetric_generate_key_ed448 : nat -> Z -> Z -> Z -> psa_status_t * list byte;
  psa_asymmetric_generate_key_x25519 : nat -> Z -> Z -> Z -> psa_status_t * list byte;
  psa_asymmetric_generate_key_x448 : nat -> Z -> Z -> Z -> psa_status_t * list byte;
  mldsa_level : Z -> Z;
  mldsa_seed_status : Z -> list byte -> psa_status_t;
  mlkem_set : Z -> Z;
  mlkem_seed_status : Z -> list byte -> psa_status_t;
  (** type, bits, key, whether the output pointer is not NULL, output size *)
  psa_asymmetric_export_public_key_ecc : Z -> Z -> list byte -> bool -> Z -> psa_status_t * list byte;
  psa_asymmetric_export_public_key_ed25519 : Z -> Z -> list byte -> bool -> Z -> psa_status_t * list byte;
  psa_asymmetric_export_public_key_ed448 : Z -> Z -> list byte -> bool -> Z -> psa_status_t * list byte;
  psa_asymmetric_export_public_key_x25519 : Z -> Z -> list byte -> bool -> Z -> psa_status_t * list byte;
  psa_asymmetric_export_public_key_x448 : Z -> Z -> list byte -> bool -> Z -> psa_status_t * list byte;
  wolfpsa_mldsa_export_public : Z -> list byte -> bool -> Z -> psa_status_t * list byte;
  wolfpsa_mlkem_export_public : Z -> list byte -> bool -> Z -> psa_status_t * list byte;
  (** [wc_NewRsaKey]: NULL ([inl]) with [*ret], or a key object *)
  wc_NewRsaKey : Z + unit;
  wc_RsaPrivateKeyDecode_ret : list byte -> Z;
  wc_RsaEncryptSize : list byte -> Z;
  (** [n] and [e] as big-endian bytes *)
  wc_RsaFlattenPublicKey : list byte -> Z * (list byte * list byte) }.

Definition WOLFPSA_MLDSA_SEED_SIZE : Z := 32.
Definition WOLFPSA_MLKEM_SEED_SIZE : Z := 64.

Section KeyStore.
Context {C : Config} {E : WolfCryptErr} {K : WolfCryptKeys} {R : WolfCryptRng}.
Context {O : StoreOps} {B : KeyBackend}.

(** * The volatile key list *)

Definition sizeof_node : Z := 56.

Fixpoint find_node (key_id : Z) (l : list volatile_key_node) : option volatile_key_node :=
match l with
| [] => None
| cur :: next => if node_id cur =? key_id then Some cur else find_node key_id next
end.

Definition wolfpsa_volatile_find (key_id : Z) : M (kstate O) (option volatile_key_node) :=
mgets (fun s => find_node key_id (g_volatile_keys s)).

Definition wolfpsa_volatile_store (key_id : Z) (attributes : psa_key_attributes_t)
  (data : list byte) : M (kstate O) psa_status_t :=
WOLFPSA_LOCK;;
st ← (if zlen data =? 0 then mret PSA_ERROR_INVALID_ARGUMENT
      else
        found ← wolfpsa_volatile_find key_id;
        match found with
        | Some _ => mret PSA_ERROR_ALREADY_EXISTS
        | None =>
            node ← XMALLOC sizeof_node;
            if negb node then mret PSA_ERROR_INSUFFICIENT_MEMORY
            else
              data_ok ← XMALLOC (zlen data);
              if negb data_ok then mret PSA_ERROR_INSUFFICIENT_MEMORY
              else
                mmodify (fun s =>
                  with_volatile_keys (mkNode key_id attributes data :: g_volatile_keys s) s);;
                mret PSA_SUCCESS
        end);
WOLFPSA_UNLOCK;;
mret st.

(** The list without the first node of that id; whether there was one. *)
Fixpoint remove_node (key_id : Z) (l : list volatile_key_node)
: option (list volatile_key_node) :=
match l with
| [] => None
| cur :: next =>
    if node_id cur =? key_id then Some next
    else option_map (cons cur) (remove_node key_id next)
end.

Definition wolfpsa_volatile_remove (key_id : Z) : M (kstate O) psa_status_t :=
WOLFPSA_LOCK;;
keys ← mgets g_volatile_keys;
st ← match remove_node key_id keys with
     | Some l => mmodify (with_volatile_keys l);; mret PSA_SUCCESS
     | None => mret PSA_ERROR_INVALID_HANDLE
     end;
WOLFPSA_UNLOCK;;
mret st.

(** [attributes]: the object pointed to before, then after, the call. *)
Definition wolfpsa_volatile_get (key_id : Z) (attributes : option psa_key_attributes_t)
: M (kstate O) (psa_status_t * option psa_key_attributes_t * option (list byte)) :=
WOLFPSA_LOCK;;
node ← wolfpsa_volatile_find key_id;
r ← match node with
    | None => mret (PSA_ERROR_INVALID_HANDLE, attributes, None)
    | Some n =>
        let attributes' := option_map (fun _ => node_attributes n) attributes in
        if zlen (node_data n) =? 0 then mret (PSA_ERROR_DATA_INVALID, attributes', None)
        else
          ok ← XMALLOC (zlen (node_data n));
          if negb ok then mret (PSA_ERROR_INSUFFICIENT_MEMORY, attributes', None)
          else mret (PSA_SUCCESS, attributes', Some (node_data n))
    end;
WOLFPSA_UNLOCK;;
mret r.

Definition wolfpsa_volatile_get_attributes (key_id : Z)
: M (kstate O) (psa_status_t + psa_key_attributes_t) :=
WOLFPSA_LOCK;;
node ← wolfpsa_volatile_find key_id;
WOLFPSA_UNLOCK;;
mret match node with
     | None => inl PSA_ERROR_INVALID_HANDLE
     | Some n => inr (node_attributes n)
     end.

(** * Reading a persistent record *)

Definition header_size : Z := attr_length + sizeof_size_t.

(** Open the record of [key_id] and read its header. *)
Definition open_record (key_id : Z) : M (kstate O) (psa_status_t + store_ctx * list byte) :=
r ← store_op (wolfPSA_Store_Open WOLFPSA_STORE_KEY (Z.to_N key_id) 0%N true);
match r with
| inl ret =>
    mret (inl (if ret =? WOLFPSA_STORE_NOT_AVAILABLE then PSA_ERROR_INVALID_HANDLE
               else wolfpsa_store_open_status ret))
| inr store =>
    '(ret, header, store) ← store_op (wolfPSA_Store_Read store header_size);
    if negb (ret =? header_size)
    then store_op (wolfPSA_Store_Close store);; mret (inl PSA_ERROR_STORAGE_FAILURE)
    else mret (inr (store, header))
end.

Definition header_attributes (header : list byte) (a : psa_key_attributes_t)
: psa_status_t + psa_key_attributes_t :=
psa_key_attributes_deserialize (take 16 header) a.
Definition header_data_length (header : list byte) : Z := host_val (drop 16 header).

(** Validate the stored length, allocate, read the data and close. *)
Definition read_record_data (store : store_ctx) (key_data_length : Z)
: M (kstate O) (psa_status_t + list byte) :=
match wolfpsa_validate_stored_key_data_length key_data_length with
| PSA_SUCCESS =>
    ok ← XMALLOC key_data_length;
    if negb ok
    then store_op (wolfPSA_Store_Close store);; mret (inl PSA_ERROR_INSUFFICIENT_MEMORY)
    else
      '(ret, key_data, store) ← store_op (wolfPSA_Store_Read store (to_int key_data_length));
      store_op (wolfPSA_Store_Close store);;
      if negb (ret =? to_int key_data_length)
      then mret (inl PSA_ERROR_STORAGE_FAILURE)
      else mret (inr key_data)
| e => store_op (wolfPSA_Store_Close store);; mret (inl e)
end.

Definition wolfpsa_get_key_data (key_id : Z) (attributes : option psa_key_attributes_t)
: M (kstate O) (psa_status_t * option psa_key_attributes_t * option (list byte)) :=
status ← psa_key_storage_check_init;
match status with
| PSA_SUCCESS =>
    '(status, attributes, key_data) ← wolfpsa_volatile_get key_id attributes;
    match status with
    | PSA_SUCCESS => mret (PSA_SUCCESS, attributes, key_data)
    | PSA_ERROR_INVALID_HANDLE =>
        r ← open_record key_id;
        match r with
        | inl e => mret (e, attributes, None)
        | inr (store, header) =>
            let parsed := match attributes with
                          | None => inr None
                          | Some a => match header_attributes header a with
                                      | inl e => inl e
                                      | inr a' => inr (Some a')
                                      end
                          end in
            match parsed with
            | inl e => store_op (wolfPSA_Store_Close store);; mret (e, attributes, None)
            | inr attributes' =>
                d ← read_record_data store (header_data_length header);
                mret match d with
                     | inl e => (e, attributes', None)
                     | inr key_data => (PSA_SUCCESS, attributes', Some key_data)
                     end
            end
        end
    | e => mret (e, attributes, None)
    end
| e => mret (e, attributes, None)
end.

(** * [psa_import_key] *)

(** The checks on the attributes, before the key data is looked at. *)
Definition import_check_params (attr : psa_key_attributes_t) (data_length : Z)
: psa_status_t :=
if data_length =? 0 then PSA_ERROR_INVALID_ARGUMENT
else if INT_MAX <? data_length then PSA_ERROR_INVALID_ARGUMENT
else if negb (PSA_KEY_LIFETIME_GET_LOCATION (attr_lifetime attr)
              =? PSA_KEY_LOCATION_LOCAL_STORAGE) then PSA_ERROR_NOT_SUPPORTED
else
  let alg2_ok :=
    if WOLFPSA_ENROLLMENT_ALG then PSA_KEY_LIFETIME_IS_VOLATILE (attr_lifetime attr)
    else false in
  if negb (alg2 (attr_policy attr) =? PSA_ALG_NONE) && negb alg2_ok
  then PSA_ERROR_NOT_SUPPORTED
  else if negb (wolfpsa_usage_flags_valid (psa_get_key_usage_flags attr))
  then PSA_ERROR_INVALID_ARGUMENT
  else if attr_type attr =? PSA_KEY_TYPE_NONE then PSA_ERROR_NOT_SUPPORTED
  else PSA_SUCCESS.

(** All the checks, in order: the attributes to store, or the status. *)
Definition import_validate (attr : psa_key_attributes_t) (data : list byte)
: psa_status_t + psa_key_attributes_t :=
match import_check_params attr (zlen data) with
| PSA_SUCCESS =>
    match import_key_bits attr data with
    | inl e => inl e
    | inr attr' =>
        match import_check_data attr' data with
        | PSA_SUCCESS => inr attr'
        | e => inl e
        end
    end
| e => inl e
end.

(** The key identifier: the caller's, or the next of the vendor range; [None]
  when the range is used up. *)
Definition import_assign_id (attr : psa_key_attributes_t) : M (kstate O) (option Z) :=
let id := if PSA_KEY_LIFETIME_IS_VOLATILE (attr_lifetime attr)
          then PSA_KEY_ID_NULL else attr_id attr in
if negb (id =? PSA_KEY_ID_NULL) then mret (Some id)
else
  WOLFPSA_LOCK;;
  next ← mgets g_next_key_id;
  if (next <? PSA_KEY_ID_VENDOR_MIN) || (PSA_KEY_ID_VENDOR_MAX <? next)
  then WOLFPSA_UNLOCK;; mret None
  else
    mmodify (with_next_key_id (next + 1));;
    WOLFPSA_UNLOCK;;
    mret (Some next).

(** Write the record and commit it: the value of [ret]. *)
Definition import_write (key_id : Z) (buffer : list byte) (data_length : Z)
: M (kstate O) Z :=
r ← store_op (wolfPSA_Store_OpenSz WOLFPSA_STORE_KEY (Z.to_N key_id) 0%N false
                (to_int data_length));
match r with
| inl ret => mret ret
| inr store =>
    '(ret, store) ← store_op (wolfPSA_Store_Write store buffer
                       (to_int (attr_length + sizeof_size_t + data_length)));
    closeRet ← store_op (wolfPSA_Store_Close store);
    mret (if (0 <=? ret) && negb (closeRet =? WOLFPSA_STORE_OK) then closeRet else ret)
end.

(** Probe, then write, under the lock: an early status, or [ret]. *)
Definition import_persist (key_id : Z) (buffer : list byte) (data_length : Z)
: M (kstate O) (psa_status_t + Z) :=
WOLFPSA_LOCK;;
r ← store_op (wolfPSA_Store_Open WOLFPSA_STORE_KEY (Z.to_N key_id) 0%N true);
match r with
| inr store =>
    store_op (wolfPSA_Store_Close store);;
    WOLFPSA_UNLOCK;;
    mret (inl PSA_ERROR_ALREADY_EXISTS)
| inl ret =>
    if negb (ret =? WOLFPSA_STORE_NOT_AVAILABLE)
    then WOLFPSA_UNLOCK;; mret (inl (wolfpsa_store_open_status ret))
    else
      ret ← import_write key_id buffer data_length;
      WOLFPSA_UNLOCK;;
      mret (inr ret)
end.

(** Status and [*key_id] for what the store calls returned. *)
Definition import_finish (key_id : Z) (data_length : Z) (status : psa_status_t) (ret : Z)
: psa_status_t * Z :=
match status with
| PSA_SUCCESS =>
    if ret <? 0 then (wolfpsa_store_open_status ret, PSA_KEY_ID_NULL)
    else if negb (ret =? attr_length + sizeof_size_t + data_length)
    then (PSA_ERROR_STORAGE_FAILURE, PSA_KEY_ID_NULL)
    else (PSA_SUCCESS, key_id)
| e => (e, PSA_KEY_ID_NULL)
end.

(** Store a validated key under its identifier. *)
Definition import_store (attr : psa_key_attributes_t) (data : list byte) (key_id : Z)
: M (kstate O) (psa_status_t * Z) :=
let data_length := zlen data in
let buffer_size := data_length + attr_length + sizeof_size_t in
ok ← XMALLOC buffer_size;
if negb ok then mret (PSA_ERROR_INSUFFICIENT_MEMORY, key_id)
else
  match serialize_record attr data buffer_size with
  | inl e => mret (e, key_id)
  | inr buffer =>
      if PSA_KEY_LIFETIME_IS_VOLATILE (attr_lifetime attr) then
        status ← wolfpsa_volatile_store key_id attr data;
        let ret := match status with
                   | PSA_SUCCESS => to_int (attr_length + sizeof_size_t + data_length)
                   | _ => 0
                   end in
        mret (import_finish key_id data_length status ret)
      else
        r ← import_persist key_id buffer data_length;
        mret match r with
             | inl e => (e, PSA_KEY_ID_NULL)
             | inr ret => import_finish key_id data_length PSA_SUCCESS ret
             end
  end.

(** The result is the status and [*key_id]. *)
Definition psa_import_key (attributes : option psa_key_attributes_t)
  (data : option (list byte)) (key_id : bool) : M (kstate O) (psa_status_t * Z) :=
match attributes, data, key_id with
| Some attributes, Some data, true =>
    match import_validate attributes data with
    | inl e => mret (e, PSA_KEY_ID_NULL)
    | inr attr =>
        status ← psa_key_storage_check_init;
        match status with
        | PSA_SUCCESS =>
            id ← import_assign_id attr;
            match id with
            | None => mret (PSA_ERROR_INSUFFICIENT_STORAGE, PSA_KEY_ID_NULL)
            | Some id => import_store attr data id
            end
        | e => mret (e, PSA_KEY_ID_NULL)
        end
    end
| _, _, _ => mret (PSA_ERROR_INVALID_ARGUMENT, PSA_KEY_ID_NULL)
end.

(** * [psa_destroy_key] *)

Definition psa_destroy_key (key_id : Z) : M (kstate O) psa_status_t :=
if key_id =? PSA_KEY_ID_NULL then mret PSA_SUCCESS
else
  status ← psa_key_storage_check_init;
  match status with
  | PSA_SUCCESS =>
      status ← wolfpsa_volatile_remove key_id;
      match status with
      | PSA_SUCCESS => mret PSA_SUCCESS
      | _ =>
          ret ← store_op (wolfPSA_Store_Remove WOLFPSA_STORE_KEY (Z.to_N key_id) 0%N);
          mret (if ret =? WOLFPSA_STORE_NOT_AVAILABLE then PSA_ERROR_INVALID_HANDLE
                else if negb (ret =? 0) then wolfpsa_store_open_status ret
                else PSA_SUCCESS)
      end
  | e => mret e
  end.

(** * [psa_export_key] *)

(** The persistent arm, once the record is open. *)
Definition export_record (store : store_ctx) (header : list byte) (data_size : Z)
: M (kstate O) (psa_status_t * list byte) :=
let usage := host_val (take 4 (drop 4 header)) in
if Z.land usage PSA_KEY_USAGE_EXPORT =? 0
then store_op (wolfPSA_Store_Close store);; mret (PSA_ERROR_NOT_PERMITTED, [])
else
  let key_data_length := header_data_length header in
  match wolfpsa_validate_stored_key_data_length key_data_length with
  | PSA_SUCCESS =>
      if data_size <? key_data_length
      then store_op (wolfPSA_Store_Close store);; mret (PSA_ERROR_BUFFER_TOO_SMALL, [])
      else
        '(ret, data, store) ← store_op (wolfPSA_Store_Read store (to_int key_data_length));
        store_op (wolfPSA_Store_Close store);;
        if negb (ret =? to_int key_data_length)
        then mret (PSA_ERROR_STORAGE_FAILURE, [])
        else mret (PSA_SUCCESS, data)
  | e => store_op (wolfPSA_Store_Close store);; mret (e, [])
  end.

(** The status and the [*data_length] bytes of output. *)
Definition psa_export_key (key_id : Z) (data : bool) (data_size : Z) (data_length : bool)
: M (kstate O) (psa_status_t * list byte) :=
if negb data_length || (negb data && negb (data_size =? 0))
then mret (PSA_ERROR_INVALID_ARGUMENT, [])
else
  status ← psa_key_storage_check_init;
  match status with
  | PSA_SUCCESS =>
      '(status, vol_attr, vol_data) ←
        wolfpsa_volatile_get key_id (Some PSA_KEY_ATTRIBUTES_INIT);
      match status with
      | PSA_SUCCESS =>
          let vol_attr := default PSA_KEY_ATTRIBUTES_INIT vol_attr in
          let vol_data := default [] vol_data in
          if Z.land (psa_get_key_usage_flags vol_attr) PSA_KEY_USAGE_EXPORT =? 0
          then mret (PSA_ERROR_NOT_PERMITTED, [])
          else if data_size <? zlen vol_data then mret (PSA_ERROR_BUFFER_TOO_SMALL, [])
          else mret (PSA_SUCCESS, vol_data)
      | PSA_ERROR_INVALID_HANDLE =>
          r ← open_record key_id;
          match r with
          | inl e => mret (e, [])
          | inr (store, header) => export_record store header data_size
          end
      | e => mret (e, [])
      end
  | e => mret (e, [])
  end.

(** * [psa_get_key_attributes], [psa_purge_key], [psa_check_key_usage] *)

(** The persistent arm: the header is read and the record closed at once. *)
Definition read_record_attributes (key_id : Z)
: M (kstate O) (psa_status_t + psa_key_attributes_t) :=
r ← open_record key_id;
match r with
| inl e => mret (inl e)
| inr (store, header) =>
    store_op (wolfPSA_Store_Close store);;
    mret (header_attributes header PSA_KEY_ATTRIBUTES_INIT)
end.

Definition psa_get_key_attributes (key_id : Z)
: M (kstate O) (psa_status_t + psa_key_attributes_t) :=
status ← psa_key_storage_check_init;
match status with
| PSA_SUCCESS =>
    r ← wolfpsa_volatile_get_attributes key_id;
    r ← match r with
        | inr attributes => mret (inr attributes)
        | inl _ => read_record_attributes key_id
        end;
    mret match r with
         | inl e => inl e
         | inr attributes => inr (set_id attributes key_id)
         end
| e => mret (inl e)
end.

Definition psa_purge_key (key : Z) : M (kstate O) psa_status_t :=
r ← psa_get_key_attributes key;
mret match r with inl e => e | inr _ => PSA_SUCCESS end.

Definition psa_check_key_usage (key alg usage : Z) : M (kstate O) psa_status_t :=
r ← psa_get_key_attributes key;
mret match r with
     | inl e => e
     | inr attributes =>
         let key_usage := psa_get_key_usage_flags attributes in
         if negb (Z.land key_usage usage =? usage) then PSA_ERROR_NOT_PERMITTED
         else if negb (alg =? PSA_ALG_NONE) && negb (wolfpsa_key_permits_alg attributes alg)
         then PSA_ERROR_NOT_PERMITTED
         else PSA_SUCCESS
     end.

(** * [psa_copy_key] *)

(** The checks of a copy against the attributes of its source, and the
  attributes of the copy.  Both arms of the function do the same. *)
Definition copy_attributes (src : psa_key_attributes_t) (attributes : psa_key_attributes_t)
: psa_status_t + psa_key_attributes_t :=
if Z.land (psa_get_key_usage_flags src) PSA_KEY_USAGE_COPY =? 0
then inl PSA_ERROR_NOT_PERMITTED
else if negb (attr_type attributes =? 0) && negb (attr_type attributes =? attr_type src)
then inl PSA_ERROR_INVALID_ARGUMENT
else if negb (attr_bits attributes =? 0) && negb (attr_bits attributes =? attr_bits src)
then inl PSA_ERROR_INVALID_ARGUMENT
else
  match wolfpsa_alg_intersect (psa_get_key_algorithm src) (alg (attr_policy attributes)),
        wolfpsa_alg2_intersect (alg2 (attr_policy src)) (alg2 (attr_policy attributes)) with
  | Some copy_alg, Some copy_alg2 =>
      if negb (attr_lifetime attributes =? attr_lifetime src)
      then inl PSA_ERROR_INVALID_ARGUMENT
      else
        inr (mkAttributes
               (if attr_type attributes =? 0 then attr_type src else attr_type attributes)
               (if attr_bits attributes =? 0 then attr_bits src else attr_bits attributes)
               (attr_lifetime attributes)
               (mkPolicy (Z.land (psa_get_key_usage_flags src)
                                 (psa_get_key_usage_flags attributes))
                         copy_alg copy_alg2)
               (attr_id attributes))
  | _, _ => inl PSA_ERROR_INVALID_ARGUMENT
  end.

(** The persistent arm, once the record is open. *)
Definition copy_record (store : store_ctx) (header : list byte)
  (attributes : psa_key_attributes_t) : M (kstate O) (psa_status_t * Z) :=
let checked := match header_attributes header PSA_KEY_ATTRIBUTES_INIT with
               | inl e => inl e
               | inr src_attr => copy_attributes src_attr attributes
               end in
match checked with
| inl e => store_op (wolfPSA_Store_Close store);; mret (e, PSA_KEY_ID_NULL)
| inr dst_attr =>
    d ← read_record_data store (header_data_length header);
    match d with
    | inl e => mret (e, PSA_KEY_ID_NULL)
    | inr buffer => psa_import_key (Some dst_attr) (Some buffer) true
    end
end.

Definition psa_copy_key (source_key : Z) (attributes : option psa_key_attributes_t)
  (target_key : bool) : M (kstate O) (psa_status_t * Z) :=
match attributes, target_key with
| Some attributes, true =>
    status ← psa_key_storage_check_init;
    match status with
    | PSA_SUCCESS =>
        '(status, vol_attr, key_data) ←
          wolfpsa_volatile_get source_key (Some PSA_KEY_ATTRIBUTES_INIT);
        match status with
        | PSA_SUCCESS =>
            match copy_attributes (default PSA_KEY_ATTRIBUTES_INIT vol_attr) attributes with
            | inl e => mret (e, PSA_KEY_ID_NULL)
            | inr dst_attr => psa_import_key (Some dst_attr) key_data true
            end
        | PSA_ERROR_INVALID_HANDLE =>
            r ← open_record source_key;
            match r with
            | inl e => mret (e, PSA_KEY_ID_NULL)
            | inr (store, header) => copy_record store header attributes
            end
        | e => mret (e, PSA_KEY_ID_NULL)
        end
    | e => mret (e, PSA_KEY_ID_NULL)
    end
| _, _ => mret (PSA_ERROR_INVALID_ARGUMENT, PSA_KEY_ID_NULL)
end.

(** * [psa_generate_key] *)

(** Generate with a backend into a buffer of [size] bytes and import. *)
Definition generate_and_import (attributes : psa_key_attributes_t)
  (gen : nat -> psa_status_t * list byte) : M (kstate O) (psa_status_t * Z) :=
n ← rng_draw;
let '(status, key_data) := gen n in
match status with
| PSA_SUCCESS => psa_import_key (Some attributes) (Some key_data) true
| e => mret (e, PSA_KEY_ID_NULL)
end.

Definition is_random_key_type (key_type : Z) : bool :=
PSA_KEY_TYPE_IS_UNSTRUCTURED key_type || (key_type =? PSA_KEY_TYPE_HMAC) ||
(key_type =? PSA_KEY_TYPE_AES) || (key_type =? PSA_KEY_TYPE_DES) ||
(key_type =? PSA_KEY_TYPE_CHACHA20) || (key_type =? PSA_KEY_TYPE_XCHACHA20).

Definition generate_random_key (attributes : psa_key_attributes_t)
: M (kstate O) (psa_status_t * Z) :=
let key_data_length := PSA_BITS_TO_BYTES (attr_bits attributes) in
if key_data_length =? 0 then mret (PSA_ERROR_INVALID_ARGUMENT, PSA_KEY_ID_NULL)
else
  ok ← XMALLOC key_data_length;
  if negb ok then mret (PSA_ERROR_INSUFFICIENT_MEMORY, PSA_KEY_ID_NULL)
  else
    '(status, key_data) ← psa_generate_random true key_data_length;
    match status with
    | PSA_SUCCESS => psa_import_key (Some attributes) (Some key_data) true
    | e => mret (e, PSA_KEY_ID_NULL)
    end.

Definition generate_rsa_key (attributes : psa_key_attributes_t)
: M (kstate O) (psa_status_t * Z) :=
if NO_RSA then mret (PSA_ERROR_NOT_SUPPORTED, PSA_KEY_ID_NULL)
else
  let priv_buf_size := PSA_KEY_EXPORT_RSA_KEY_PAIR_MAX_SIZE (attr_bits attributes) in
  ok ← XMALLOC priv_buf_size;
  if negb ok then mret (PSA_ERROR_INSUFFICIENT_MEMORY, PSA_KEY_ID_NULL)
  else generate_and_import attributes
         (fun n => psa_asymmetric_generate_key_rsa n (attr_type attributes)
                     (attr_bits attributes) priv_buf_size).

(** The size of the private buffer, or why the curve is refused. *)
Definition ecc_priv_buf_size (family key_bits : Z) : psa_status_t + Z :=
if family =? PSA_ECC_FAMILY_TWISTED_EDWARDS then
  if key_bits =? 255 then
    if HAVE_ED25519 then inr (PSA_BITS_TO_BYTES key_bits + 1)
    else inl PSA_ERROR_NOT_SUPPORTED
  else if key_bits =? 448 then
    if HAVE_ED448 then inr (PSA_BITS_TO_BYTES key_bits + 1)
    else inl PSA_ERROR_NOT_SUPPORTED
  else inl PSA_ERROR_INVALID_ARGUMENT
else if family =? PSA_ECC_FAMILY_MONTGOMERY then
  if negb (key_bits =? 255) && negb (key_bits =? 448)
  then inl PSA_ERROR_INVALID_ARGUMENT
  else inr (PSA_KEY_EXPORT_ECC_KEY_PAIR_MAX_SIZE key_bits)
else inr (PSA_KEY_EXPORT_ECC_KEY_PAIR_MAX_SIZE key_bits).

Definition ecc_generator (key_type key_bits priv_buf_size : Z) (n : nat)
: psa_status_t * list byte :=
let family := PSA_KEY_TYPE_ECC_GET_FAMILY key_type in
if family =? PSA_ECC_FAMILY_TWISTED_EDWARDS then
  if key_bits =? 255 then
    if HAVE_ED25519
    then psa_asymmetric_generate_key_ed25519 n key_type key_bits priv_buf_size
    else (PSA_ERROR_NOT_SUPPORTED, [])
  else if key_bits =? 448 then
    if HAVE_ED448
    then psa_asymmetric_generate_key_ed448 n key_type key_bits priv_buf_size
    else (PSA_ERROR_NOT_SUPPORTED, [])
  else (PSA_ERROR_INVALID_ARGUMENT, [])
else if family =? PSA_ECC_FAMILY_MONTGOMERY then
  if key_bits =? 255 then
    if HAVE_CURVE25519_IMPORT_EXPORT
    then psa_asymmetric_generate_key_x25519 n key_type key_bits priv_buf_size
    else (PSA_ERROR_NOT_SUPPORTED, [])
  else if key_bits =? 448 then
    if HAVE_CURVE448_IMPORT_EXPORT
    then psa_asymmetric_generate_key_x448 n key_type key_bits priv_buf_size
    else (PSA_ERROR_NOT_SUPPORTED, [])
  else (PSA_ERROR_INVALID_ARGUMENT, [])
else if HAVE_ECC
then psa_asymmetric_generate_key_ecc n key_type key_bits priv_buf_size
else (PSA_ERROR_NOT_SUPPORTED, []).

Definition generate_ecc_key (attributes : psa_key_attributes_t)
: M (kstate O) (psa_status_t * Z) :=
let key_type := attr_type attributes in
let key_bits := attr_bits attributes in
if negb (HAVE_ECC || HAVE_ED25519 || HAVE_ED448 || HAVE_CURVE25519 || HAVE_CURVE448)
then mret (PSA_ERROR_NOT_SUPPORTED, PSA_KEY_ID_NULL)
else
  let family := PSA_KEY_TYPE_ECC_GET_FAMILY key_type in
  match ecc_priv_buf_size family key_bits with
  | inl e => mret (e, PSA_KEY_ID_NULL)
  | inr priv_buf_size =>
      let pub_buf_size := if family =? PSA_ECC_FAMILY_MONTGOMERY
                          then PSA_BITS_TO_BYTES key_bits
                          else PSA_KEY_EXPORT_ECC_PUBLIC_KEY_MAX_SIZE key_bits in
      ok ← XMALLOC priv_buf_size;
      if negb ok then mret (PSA_ERROR_INSUFFICIENT_MEMORY, PSA_KEY_ID_NULL)
      else
        ok ← XMALLOC pub_buf_size;
        if negb ok then mret (PSA_ERROR_INSUFFICIENT_MEMORY, PSA_KEY_ID_NULL)
        else generate_and_import attributes (ecc_generator key_type key_bits priv_buf_size)
  end.

(** A fresh seed, kept when it expands. *)
Definition wolfpsa_mldsa_generate_seed (bits : Z) : M (kstate O) (psa_status_t * list byte) :=
if mldsa_level bits <? 0 then mret (PSA_ERROR_NOT_SUPPORTED, [])
else
  '(status, seed) ← psa_generate_random true WOLFPSA_MLDSA_SEED_SIZE;
  mret match status with
       | PSA_SUCCESS =>
           match mldsa_seed_status bits seed with
           | PSA_SUCCESS => (PSA_SUCCESS, seed)
           | e => (e, [])
           end
       | e => (e, [])
       end.

Definition wolfpsa_mlkem_generate_seed (bits : Z) : M (kstate O) (psa_status_t * list byte) :=
if mlkem_set bits <? 0 then mret (PSA_ERROR_NOT_SUPPORTED, [])
else
  '(status, seed) ← psa_generate_random true WOLFPSA_MLKEM_SEED_SIZE;
  mret match status with
       | PSA_SUCCESS =>
           match mlkem_seed_status bits seed with
           | PSA_SUCCESS => (PSA_SUCCESS, seed)
           | e => (e, [])
           end
       | e => (e, [])
       end.

(** Generate a seed and import it. *)
Definition import_seed (attributes : psa_key_attributes_t)
  (gen : M (kstate O) (psa_status_t * list byte)) : M (kstate O) (psa_status_t * Z) :=
'(status, seed) ← gen;
match status with
| PSA_SUCCESS => psa_import_key (Some attributes) (Some seed) true
| e => mret (e, PSA_KEY_ID_NULL)
end.

Definition generate_mldsa_key (attributes : psa_key_attributes_t)
: M (kstate O) (psa_status_t * Z) :=
let key_bits := attr_bits attributes in
if negb (key_bits =? 128) && negb (key_bits =? 192) && negb (key_bits =? 256)
then mret (PSA_ERROR_INVALID_ARGUMENT, PSA_KEY_ID_NULL)
else import_seed attributes (wolfpsa_mldsa_generate_seed key_bits).

Definition generate_mlkem_key (attributes : psa_key_attributes_t)
: M (kstate O) (psa_status_t * Z) :=
let key_bits := attr_bits attributes in
if negb (key_bits =? 512) && negb (key_bits =? 768) && negb (key_bits =? 1024)
then mret (PSA_ERROR_INVALID_ARGUMENT, PSA_KEY_ID_NULL)
else import_seed attributes (wolfpsa_mlkem_generate_seed key_bits).

Definition psa_generate_key (attributes : option psa_key_attributes_t) (key_id : bool)
: M (kstate O) (psa_status_t * Z) :=
match attributes, key_id with
| Some attributes, true =>
    let key_type := attr_type attributes in
    if attr_bits attributes =? 0 then mret (PSA_ERROR_INVALID_ARGUMENT, PSA_KEY_ID_NULL)
    else if PSA_KEY_TYPE_IS_PUBLIC_KEY key_type
    then mret (PSA_ERROR_INVALID_ARGUMENT, PSA_KEY_ID_NULL)
    else if negb (wolfpsa_usage_flags_valid (psa_get_key_usage_flags attributes))
    then mret (PSA_ERROR_INVALID_ARGUMENT, PSA_KEY_ID_NULL)
    else if is_random_key_type key_type then generate_random_key attributes
    else if key_type =? PSA_KEY_TYPE_RSA_KEY_PAIR then generate_rsa_key attributes
    else if PSA_KEY_TYPE_IS_ECC_KEY_PAIR key_type then generate_ecc_key attributes
    else if WOLFSSL_HAVE_MLDSA && (key_type =? PSA_KEY_TYPE_ML_DSA_KEY_PAIR)
    then generate_mldsa_key attributes
    else if WOLFSSL_HAVE_MLKEM && (key_type =? PSA_KEY_TYPE_ML_KEM_KEY_PAIR)
    then generate_mlkem_key attributes
    else mret (PSA_ERROR_NOT_SUPPORTED, PSA_KEY_ID_NULL)
| _, _ => mret (PSA_ERROR_INVALID_ARGUMENT, PSA_KEY_ID_NULL)
end.

(** * [psa_export_public_key] *)

(** A key stored as the public key itself is copied out. *)
Definition export_copy (key_data : list byte) (data_size : Z) : psa_status_t * list byte :=
if data_size <? zlen key_data then (PSA_ERROR_BUFFER_TOO_SMALL, [])
else (PSA_SUCCESS, key_data).

Definition export_rsa_public (key_data : list byte) (data_size : Z)
: M (kstate O) (psa_status_t * list byte) :=
match wc_NewRsaKey with
| inl ret => mret (psa_wc_error_to_psa_status (if ret =? 0 then MEMORY_E else ret), [])
| inr _ =>
    let ret := wc_RsaPrivateKeyDecode_ret key_data in
    if negb (ret =? 0) then mret (psa_wc_error_to_psa_status ret, [])
    else
      let n_sz := wc_RsaEncryptSize key_data in
      n_ok ← XMALLOC n_sz;
      e_ok ← XMALLOC n_sz;
      if negb n_ok || negb e_ok then mret (PSA_ERROR_INSUFFICIENT_MEMORY, [])
      else
        let '(ret, (n, e)) := wc_RsaFlattenPublicKey key_data in
        if negb (ret =? 0) then mret (psa_wc_error_to_psa_status ret, [])
        else mret (match rsa_write_public_key n e data_size with
                   | None => (PSA_ERROR_BUFFER_TOO_SMALL, [])
                   | Some (out, _) => (PSA_SUCCESS, out)
                   end)
end.

Definition export_ecc_public (type bits : Z) (key_data : list byte) (data : bool) (data_size : Z)
: psa_status_t * list byte :=
if PSA_KEY_TYPE_IS_ECC_PUBLIC_KEY type then export_copy key_data data_size
else
  let family := PSA_KEY_TYPE_ECC_GET_FAMILY type in
  if family =? PSA_ECC_FAMILY_TWISTED_EDWARDS then
    if HAVE_ED25519 && (bits =? 255)
    then psa_asymmetric_export_public_key_ed25519 type bits key_data data data_size
    else if HAVE_ED448 && (bits =? 448)
    then psa_asymmetric_export_public_key_ed448 type bits key_data data data_size
    else (PSA_ERROR_NOT_SUPPORTED, [])
  else if family =? PSA_ECC_FAMILY_MONTGOMERY then
    if HAVE_CURVE25519_IMPORT_EXPORT && (bits =? 255)
    then psa_asymmetric_export_public_key_x25519 type bits key_data data data_size
    else if HAVE_CURVE448_IMPORT_EXPORT && (bits =? 448)
    then psa_asymmetric_export_public_key_x448 type bits key_data data data_size
    else (PSA_ERROR_NOT_SUPPORTED, [])
  else if HAVE_ECC && HAVE_ECC_KEY_IMPORT_EXPORT
  then psa_asymmetric_export_public_key_ecc type bits key_data data data_size
  else (PSA_ERROR_NOT_SUPPORTED, []).

Definition export_pqc_public (type bits : Z) (key_data : list byte) (data : bool) (data_size : Z)
: psa_status_t * list byte :=
if WOLFSSL_HAVE_MLDSA && PSA_KEY_TYPE_IS_ML_DSA type then
  if type =? PSA_KEY_TYPE_ML_DSA_PUBLIC_KEY then export_copy key_data data_size
  else if negb (zlen key_data =? WOLFPSA_MLDSA_SEED_SIZE) then (PSA_ERROR_DATA_INVALID, [])
  else wolfpsa_mldsa_export_public bits key_data data data_size
else if WOLFSSL_HAVE_MLKEM && PSA_KEY_TYPE_IS_ML_KEM type then
  if type =? PSA_KEY_TYPE_ML_KEM_PUBLIC_KEY then export_copy key_data data_size
  else if negb (zlen key_data =? WOLFPSA_MLKEM_SEED_SIZE) then (PSA_ERROR_DATA_INVALID, [])
  else wolfpsa_mlkem_export_public bits key_data data data_size
else if (type =? PSA_KEY_TYPE_LMS_PUBLIC_KEY) || (type =? PSA_KEY_TYPE_HSS_PUBLIC_KEY)
        || (type =? PSA_KEY_TYPE_XMSS_PUBLIC_KEY) || (type =? PSA_KEY_TYPE_XMSS_MT_PUBLIC_KEY)
then export_copy key_data data_size
else (PSA_ERROR_NOT_SUPPORTED, []).

Definition export_public_data (attributes : psa_key_attributes_t) (key_data : list byte)
  (data : bool) (data_size : Z) : M (kstate O) (psa_status_t * list byte) :=
let type := attr_type attributes in
let bits := attr_bits attributes in
if PSA_KEY_TYPE_IS_RSA type then
  if NO_RSA then mret (PSA_ERROR_NOT_SUPPORTED, [])
  else if type =? PSA_KEY_TYPE_RSA_PUBLIC_KEY then mret (export_copy key_data data_size)
  else export_rsa_public key_data data_size
else if PSA_KEY_TYPE_IS_ECC type
then mret (export_ecc_public type bits key_data data data_size)
else mret (export_pqc_public type bits key_data data data_size).

Definition has_public_key (type : Z) : bool :=
PSA_KEY_TYPE_IS_RSA type || PSA_KEY_TYPE_IS_ECC type || PSA_KEY_TYPE_IS_ML_DSA type ||
PSA_KEY_TYPE_IS_ML_KEM type || (type =? PSA_KEY_TYPE_LMS_PUBLIC_KEY) ||
(type =? PSA_KEY_TYPE_HSS_PUBLIC_KEY) || (type =? PSA_KEY_TYPE_XMSS_PUBLIC_KEY) ||
(type =? PSA_KEY_TYPE_XMSS_MT_PUBLIC_KEY).

(** The persistent arm: attributes first, then the record is opened again. *)
Definition export_public_record (key_id : Z) (data : bool) (data_size : Z)
: M (kstate O) (psa_status_t * list byte) :=
r ← psa_get_key_attributes key_id;
match r with
| inl e => mret (e, [])
| inr attributes =>
    if negb (has_public_key (attr_type attributes)) then mret (PSA_ERROR_INVALID_ARGUMENT, [])
    else
      r ← open_record key_id;
      match r with
      | inl e => mret (e, [])
      | inr (store, header) =>
          d ← read_record_data store (header_data_length header);
          match d with
          | inl e => mret (e, [])
          | inr key_data => export_public_data attributes key_data data data_size
          end
      end
end.

Definition psa_export_public_key (key_id : Z) (data : bool) (data_size : Z)
  (data_length : bool) : M (kstate O) (psa_status_t * list byte) :=
if negb data_length || (negb data && negb (data_size =? 0))
then mret (PSA_ERROR_INVALID_ARGUMENT, [])
else
  status ← psa_key_storage_check_init;
  match status with
  | PSA_SUCCESS =>
      '(status, vol_attr, key_data) ←
        wolfpsa_volatile_get key_id (Some PSA_KEY_ATTRIBUTES_INIT);
      match status with
      | PSA_SUCCESS =>
          let attributes := default PSA_KEY_ATTRIBUTES_INIT vol_attr in
          if negb (has_public_key (attr_type attributes))
          then mret (PSA_ERROR_INVALID_ARGUMENT, [])
          else export_public_data attributes (default [] key_data) data data_size
      | PSA_ERROR_INVALID_HANDLE => export_public_record key_id data data_size
      | e => mret (e, [])
      end
  | e => mret (e, [])
  end.
End KeyStore.
