(* ===== verification/Samples.v ===== *)
(** A concrete environment, for the witnesses of the key-store theorems: the
    directory tree of [StorePath.sample_dirs], a record store in [/var/keys],
    stub wolfCrypt backends and a library state after [psa_crypto_init]. *)

From stdpp Require Import base decidable list strings gmap.
From Stdlib Require Import ZArith Lia.
From Stdlib Require Import Strings.Byte.
From S2P Require Import Prelude.
From S2P Require Import Values.
From S2P Require Import Engine.
From S2P Require Import KeyFormat.
From S2P Require Import StoreIface.
From S2P Require Import StorePath.
From S2P Require Import StorePosix.
From S2P Require Import StorePosixSpec.
From S2P Require Import Library.
From S2P Require Import KeyStore.

#[local] Open Scope Z_scope.

(** A suffix longer than every name of the directory. *)
Definition longest (m : gmap string nat) : nat :=
  foldr (fun p n => Nat.max (String.length p.1) n) 0%nat (map_to_list m).
Fixpoint xs (k : nat) : string :=
  match k with O => "X" | S k' => String.append "X" (xs k') end.

Definition sample_posix : PosixEnv sample_dirs :=
  {| WOLFPSA_NO_STORE := false; WOLFPSA_TOKEN_PATH := Some "/var/keys";
     getpid_time := "00000001_00000002";
     mkstemp_name := fun m t => t +:+ xs (longest m);
     mkdir := fun d _ => (17, d); rmdir := fun d _ => d |}.

Lemma length_xs k : String.length (xs k) = S k.
Proof. induction k as [|k IH]; [done|]. change (xs (S k)) with ("X" +:+ xs k). by rewrite string_length_app, IH. Qed.

Lemma longest_bound m s i : m !! s = Some i -> (String.length s <= longest m)%nat.
Proof.
  intros Hs%elem_of_map_to_list. unfold longest.
  change (String.length s) with (String.length (s, i).1).
  induction Hs as [p l|p q l _ IH]; cbn [foldr]; lia.
Qed.

Lemma sample_posix_ok : PosixEnvOk sample_posix.
Proof.
  split.
  - intros m t. destruct (m !! _) as [i|] eqn:Hl; [|done].
    apply longest_bound in Hl. simpl in Hl. rewrite string_length_app, length_xs in Hl. lia.
  - intros m t. by exists (xs (longest m)).
Qed.

Definition sample_disk : posix_state sample_dirs := mkPosix sample_dirs ∅ ∅ (tt : @dir_state sample_dirs) [] [].

(** A key of [n] bytes when it fits the buffer. *)
Definition sample_key (n sz : Z) : psa_status_t * list byte :=
  if n <=? sz then (PSA_SUCCESS, replicate (Z.to_nat n) x07) else (PSA_ERROR_BUFFER_TOO_SMALL, []).

Definition sample_backend : KeyBackend :=
  {| psa_asymmetric_generate_key_rsa := fun _ _ _ _ => (PSA_ERROR_NOT_SUPPORTED, []);
     psa_asymmetric_generate_key_ecc := fun _ _ bits sz => sample_key (Z.max 0 ((bits + 7) / 8)) sz;
     psa_asymmetric_generate_key_ed25519 := fun _ _ _ sz => sample_key 32 sz;
     psa_asymmetric_generate_key_ed448 := fun _ _ _ sz => sample_key 57 sz;
     psa_asymmetric_generate_key_x25519 := fun _ _ _ sz => sample_key 32 sz;
     psa_asymmetric_generate_key_x448 := fun _ _ _ sz => sample_key 56 sz;
     mldsa_level := fun _ => 0;
     mldsa_seed_status := fun _ _ => PSA_SUCCESS;
     mlkem_set := fun _ => 0;
     mlkem_seed_status := fun _ _ => PSA_SUCCESS;
     psa_asymmetric_export_public_key_ecc := fun _ _ d _ _ => (PSA_SUCCESS, d);
     psa_asymmetric_export_public_key_ed25519 := fun _ _ d _ _ => (PSA_SUCCESS, d);
     psa_asymmetric_export_public_key_ed448 := fun _ _ d _ _ => (PSA_SUCCESS, d);
     psa_asymmetric_export_public_key_x25519 := fun _ _ d _ _ => (PSA_SUCCESS, d);
     psa_asymmetric_export_public_key_x448 := fun _ _ d _ _ => (PSA_SUCCESS, d);
     wolfpsa_mldsa_export_public := fun _ d _ _ => (PSA_SUCCESS, d);
     wolfpsa_mlkem_export_public := fun _ d _ _ => (PSA_SUCCESS, d);
     wc_NewRsaKey := inr tt;
     wc_RsaPrivateKeyDecode_ret := fun _ => 0;
     wc_RsaEncryptSize := fun _ => 256;
     wc_RsaFlattenPublicKey := fun d => (0, (d, [x01; x00; x01])) |}.

Definition sample_rng : WolfCryptRng :=
  {| wc_InitRng_ex := fun _ => 0;
     wc_RNG_GenerateBlock := fun _ n =>
       if n <? 0 then (-1, []) else (0, replicate (Z.to_nat n) x5a) |}.

#[export] Existing Instances full_config sample_codes sample_codes_ok sample_keys sample_dirs
  sample_posix sample_posix_ok sample_backend sample_rng.

(** After [psa_crypto_init]. *)
Definition sample_state : kstate posix_store := (psa_crypto_init (initial_state sample_disk)).2.

(** A persistent AES key of the user range, for encryption and copies. *)
Definition sample_persistent_attr : psa_key_attributes_t :=
  mkAttributes PSA_KEY_TYPE_AES 0 PSA_KEY_LIFETIME_PERSISTENT
    (mkPolicy (Z.lor PSA_KEY_USAGE_EXPORT PSA_KEY_USAGE_COPY) 0x05500200 0) 5.

Definition import_sample (a : psa_key_attributes_t) (s : kstate posix_store) :
  (psa_status_t * Z) * kstate posix_store :=
  psa_import_key (Some a) (Some sample_aes_data) true s.

Example import_sample_volatile :
  (import_sample sample_aes_attr sample_state).1 = (PSA_SUCCESS, PSA_KEY_ID_VENDOR_MIN).
Proof. vm_compute. reflexivity. Qed.

Example import_sample_persistent :
  (import_sample sample_persistent_attr sample_state).1 = (PSA_SUCCESS, 5).
Proof. vm_compute. reflexivity. Qed.
