(* ===== verification/KeyStoreRules.v ===== *)
(** Reasoning rules for the key store: what each internal routine of [KeyStore]
    does to the key table, the mutex and the environment, as rules for [wp].

    [calm s s'] says that a step leaves the key table (volatile keys, committed
    records, identifier counter) as it was; [quiet] that it does not touch the
    store at all.  A change of the table is written [calm (with_... s) s']. *)

From stdpp Require Import base decidable list gmap.
From Stdlib Require Import ZArith Lia.
From Stdlib Require Import Strings.Byte.
From S2P Require Import Prelude.
From S2P Require Import Values.
From S2P Require Import Engine.
From S2P Require Import KeyPolicy.
From S2P Require Import KeyFormat.
From S2P Require Import StoreIface.
From S2P Require Import Library.
From S2P Require Import KeyStore.

#[local] Open Scope Z_scope.

Section Rules.
Context {C : Config} {E : WolfCryptErr} {K : WolfCryptKeys} {R : WolfCryptRng}.
Context {O : StoreOps} {L : StoreLaws O} {B : KeyBackend}.

Implicit Types s : kstate O.

(** * Mutex states *)

(** The mutex is free and was never misused. *)
Definition free s : Prop := lock_held s = false /\ lock_fault s = false.
(** Moreover it exists, so that it can be locked. *)
Definition idle s : Prop :=
free s /\ (WOLFPSA_THREAD_SAFE = true -> g_wolfpsa_lock_ready s = true).
(** It is held by the running call. *)
Definition locked s : Prop :=
lock_fault s = false /\ lock_held s = WOLFPSA_THREAD_SAFE /\
(WOLFPSA_THREAD_SAFE = true -> g_wolfpsa_lock_ready s = true).

Definition lock_view s : bool * bool * bool :=
(lock_held s, lock_fault s, g_wolfpsa_lock_ready s).

Definition mem_ok s : Prop := malloc_outcomes s = [].

(** * Frames *)

Record quiet s s' : Prop := {
q_next : g_next_key_id s' = g_next_key_id s;
q_keys : g_volatile_keys s' = g_volatile_keys s;
q_store : key_store s' = key_store s;
q_crypto : g_psa_crypto_initialized s' = g_psa_crypto_initialized s;
q_mem : mem_ok s -> mem_ok s' }.

Record calm s s' : Prop := {
c_next : g_next_key_id s' = g_next_key_id s;
c_keys : g_volatile_keys s' = g_volatile_keys s;
c_records : records (key_store s') = records (key_store s);
c_crypto : g_psa_crypto_initialized s' = g_psa_crypto_initialized s;
c_mem : mem_ok s -> mem_ok s';
c_healthy : healthy (key_store s) -> healthy (key_store s') }.

Lemma quiet_refl s : quiet s s.
Proof. by split. Qed.
Lemma calm_refl s : calm s s.
Proof. by split. Qed.
Lemma quiet_trans s1 s2 s3 : quiet s1 s2 -> quiet s2 s3 -> quiet s1 s3.
Proof. intros [] []. split; try congruence; auto. Qed.
Lemma calm_trans s1 s2 s3 : calm s1 s2 -> calm s2 s3 -> calm s1 s3.
Proof. intros [] []. split; try congruence; auto. Qed.
Lemma quiet_calm s s' : quiet s s' -> calm s s'.
Proof. intros [? ? Hst ? ?]. by split; rewrite ?Hst. Qed.
Lemma quiet_calm_trans s1 s2 s3 : quiet s1 s2 -> calm s2 s3 -> calm s1 s3.
Proof. intros ?%quiet_calm. by apply calm_trans. Qed.

Lemma calm_with_keys l s s' : calm s s' -> calm (with_volatile_keys l s) (with_volatile_keys l s').
Proof. intros []. by split. Qed.
Lemma calm_with_next i s s' : calm s s' -> calm (with_next_key_id i s) (with_next_key_id i s').
Proof. intros []. by split. Qed.

Lemma idle_lock_view s s' : lock_view s' = lock_view s -> idle s -> idle s'.
Proof. unfold lock_view, idle, free. intros [= -> -> ->]. done. Qed.
Lemma locked_lock_view s s' : lock_view s' = lock_view s -> locked s -> locked s'.
Proof. unfold lock_view, locked. intros [= -> -> ->]. done. Qed.
Lemma idle_free s : idle s -> free s.
Proof. by intros []. Qed.

(** * Primitive rules *)

Lemma mret_if {A} (b : bool) (x y : A) :
(if b then mret x else mret y : M (kstate O) A) = mret (if b then x else y).
Proof. by destruct b. Qed.

Lemma wp_XMALLOC n (Q : bool -> kstate O -> Prop) s :
(forall b s', quiet s s' -> lock_view s' = lock_view s -> (mem_ok s -> b = true) -> Q b s') ->
wp (XMALLOC n) Q s.
Proof.
intros HQ. unfold wp, XMALLOC, next_outcome.
destruct (malloc_outcomes s) as [|b l] eqn:Hm; apply HQ;
  try done; try (split; try done); unfold mem_ok; try congruence; by rewrite Hm.
Qed.

Lemma wp_LOCK (Q : unit -> kstate O -> Prop) s :
idle s ->
(forall s', quiet s s' -> locked s' -> Q tt s') ->
wp WOLFPSA_LOCK Q s.
Proof.
intros [[Hh Hf] Hr] HQ. unfold wp, WOLFPSA_LOCK. destruct WOLFPSA_THREAD_SAFE eqn:HT.
- apply HQ; [by split|]. unfold locked. rewrite HT. simpl. by rewrite Hf, Hh, Hr.
- apply HQ; [apply quiet_refl|]. unfold locked. simpl. by rewrite Hf, Hh, HT.
Qed.

Lemma wp_UNLOCK (Q : unit -> kstate O -> Prop) s :
locked s ->
(forall s', quiet s s' -> idle s' -> Q tt s') ->
wp WOLFPSA_UNLOCK Q s.
Proof.
intros (Hf & Hh & Hr) HQ. unfold wp, WOLFPSA_UNLOCK. destruct WOLFPSA_THREAD_SAFE eqn:HT.
- apply HQ; [by split|]. unfold idle, free. simpl. by rewrite Hf, Hh, Hr.
- apply HQ; [apply quiet_refl|]. unfold idle, free. simpl. rewrite HT. by rewrite Hf, Hh.
Qed.

Lemma wp_LOCK_INIT (Q : Z -> kstate O -> Prop) s :
free s ->
(forall r s', quiet s s' -> free s' -> (r = 0 -> idle s') -> (idle s -> r = 0) -> Q r s') ->
wp WOLFPSA_LOCK_INIT Q s.
Proof.
intros Hfree HQ. unfold WOLFPSA_LOCK_INIT. destruct WOLFPSA_THREAD_SAFE eqn:HT.
- unfold wp, wolfpsa_lock_ensure_init.
  destruct (g_wolfpsa_lock_ready s) eqn:Hr.
  + by apply HQ.
  + destruct (next_ret (mutex_rets s)) as [r l] eqn:Hn. simpl.
    apply HQ; [by split|by destruct Hfree| |].
    * intros ->. split; [by destruct Hfree|done].
    * intros [_ Hi]. by rewrite Hi in Hr.
- apply wp_ret, HQ; [apply quiet_refl | done | | done].
  intros _. split; [done|]. by rewrite HT.
Qed.

Lemma wp_store_op {A} (m : M store_state A) (Q : A -> kstate O -> Prop) s :
Q (m (key_store s)).1 (with_key_store (m (key_store s)).2 s) -> wp (store_op m) Q s.
Proof. unfold wp, store_op. by destruct (m (key_store s)). Qed.

(** * Initialisation *)

Lemma wp_is_initialized (Q : bool -> kstate O -> Prop) s :
(forall b s', quiet s s' -> (free s -> free s') -> (idle s -> idle s') ->
   (free s -> b = true -> g_psa_crypto_initialized s = true) ->
   (idle s -> b = g_psa_crypto_initialized s) -> Q b s') ->
wp wolfPSA_CryptoIsInitialized Q s.
Proof.
intros HQ. unfold wp, wolfPSA_CryptoIsInitialized, WOLFPSA_LOCK_INIT, WOLFPSA_LOCK, WOLFPSA_UNLOCK.
unfold idle, free in *. destruct WOLFPSA_THREAD_SAFE eqn:HT; [|by apply HQ].
unfold wolfpsa_lock_ensure_init. rewrite !bind_run. destruct (g_wolfpsa_lock_ready s) eqn:Hr.
- apply HQ; [by split|simpl; rewrite ?Hr; destruct (lock_held s), (lock_fault s); naive_solver ..].
- destruct (next_ret (mutex_rets s)) as [r l]. cbn [fst snd]. destruct (Z.eqb_spec r 0) as [->|Hr0].
  + apply HQ; [by split|simpl; rewrite ?Hr; destruct (lock_held s), (lock_fault s); naive_solver ..].
  + apply HQ; [by split|simpl; rewrite ?Hr; destruct (lock_held s), (lock_fault s); naive_solver ..].
Qed.

Lemma wp_check_init (Q : psa_status_t -> kstate O -> Prop) s :
free s ->
(forall st s', quiet s s' -> free s' ->
   (st = PSA_SUCCESS \/ st = PSA_ERROR_BAD_STATE \/ st = PSA_ERROR_GENERIC_ERROR) ->
   (st = PSA_SUCCESS -> idle s' /\ g_psa_crypto_initialized s = true) ->
   (idle s -> g_psa_crypto_initialized s = true -> st = PSA_SUCCESS) -> Q st s') ->
wp psa_key_storage_check_init Q s.
Proof.
intros Hf HQ. unfold psa_key_storage_check_init, wolfPSA_CryptoIsInitialized. wp_seq.
apply wp_LOCK_INIT; [done|]. intros r s1 Hq1 Hf1 Hi1 Hk1.
destruct (Z.eqb_spec r 0) as [->|Hr0]; simpl.
2:{ wp_seq. simpl. wp_seq. apply HQ; [done|done|auto|done|]. intros Hi. by destruct Hr0; apply Hk1. }
wp_seq. apply wp_LOCK; [by apply Hi1|]. intros s2 Hq2 Hl2. wp_seq.
apply wp_UNLOCK; [done|]. intros s3 Hq3 Hi3. wp_seq.
pose proof (quiet_trans _ _ _ (quiet_trans _ _ _ Hq1 Hq2) Hq3) as Hq.
rewrite (q_crypto _ _ Hq2), (q_crypto _ _ Hq1).
destruct (g_psa_crypto_initialized s) eqn:Hc; simpl.
2:{ wp_seq. apply HQ; [done|by apply idle_free|auto|done..]. }
unfold psa_key_storage_init. wp_seq.
apply wp_LOCK_INIT; [by apply idle_free|]. intros r4 s4 Hq4 Hf4 Hi4 Hk4.
rewrite (Hk4 Hi3) in *. simpl. wp_seq. apply wp_LOCK; [auto|]. intros s5 Hq5 Hl5. wp_seq.
apply wp_UNLOCK; [done|]. intros s6 Hq6 Hi6. wp_seq.
apply HQ; [|by apply idle_free|auto|done..].
apply (quiet_trans _ s5); [apply (quiet_trans _ s4); [by apply (quiet_trans _ s3)|done]|].
by destruct Hq6.
Qed.

(** * Volatile keys *)

Lemma wp_volatile_store id a data (Q : psa_status_t -> kstate O -> Prop) s :
idle s ->
(forall st s', idle s' ->
   (st = PSA_SUCCESS /\ zlen data <> 0 /\ find_node id (g_volatile_keys s) = None /\
    quiet (with_volatile_keys (mkNode id a data :: g_volatile_keys s) s) s') \/
   (st <> PSA_SUCCESS /\ quiet s s' /\
    (st = PSA_ERROR_ALREADY_EXISTS -> find_node id (g_volatile_keys s) <> None) /\
    (zlen data <> 0 -> mem_ok s -> st = PSA_ERROR_ALREADY_EXISTS)) ->
   Q st s') ->
wp (wolfpsa_volatile_store id a data) Q s.
Proof.
intros Hi HQ. unfold wolfpsa_volatile_store. wp_seq.
apply wp_LOCK; [done|]. intros s1 Hq1 Hl1.
destruct (Z.eqb_spec (zlen data) 0) as [Hz|Hz].
{ wp_seq. apply wp_UNLOCK; [done|]. intros s2 Hq2 Hi2. wp_seq. apply HQ; [done|].
  right. split_and!; [done|by eapply quiet_trans|done|done]. }
wp_seq. unfold wolfpsa_volatile_find. wp_seq. rewrite (q_keys _ _ Hq1).
destruct (find_node id (g_volatile_keys s)) as [n|] eqn:Hf.
{ wp_seq. apply wp_UNLOCK; [done|]. intros s2 Hq2 Hi2. wp_seq. apply HQ; [done|].
  right. split_and!; [done|by eapply quiet_trans|done|done]. }
wp_seq. apply wp_XMALLOC. intros b s2 Hq2 Hv2 Hm2.
assert (Hm12 : mem_ok s -> b = true) by (intros; apply Hm2, Hq1; done).
destruct b; simpl.
2:{ wp_seq. apply wp_UNLOCK; [by eapply locked_lock_view|].
    intros s3 Hq3 Hi3. wp_seq. apply HQ; [done|]. right. split; [done|].
    split_and!; [by eapply quiet_trans, quiet_trans|done|]. intros _ Hm. by apply Hm12 in Hm. }
wp_seq. apply wp_XMALLOC. intros b s3 Hq3 Hv3 Hm3.
pose proof (quiet_trans _ _ _ (quiet_trans _ _ _ Hq1 Hq2) Hq3) as Hq.
assert (Hl3 : locked s3) by (by eapply locked_lock_view, locked_lock_view).
destruct b; simpl; wp_seq.
- apply wp_UNLOCK; [done|]. intros s4 Hq4 Hi4. wp_seq. apply HQ; [done|].
  left. repeat (split; [done|]). destruct Hq, Hq4. simpl in *. split; simpl; congruence || auto.
- apply wp_UNLOCK; [done|]. intros s4 Hq4 Hi4. wp_seq. apply HQ; [done|].
  right. split_and!; [done|by eapply quiet_trans|done|].
  intros _ Hm. exfalso. by assert (false = true) by (apply Hm3, Hq2, Hq1; done).
Qed.

Lemma wp_volatile_remove id (Q : psa_status_t -> kstate O -> Prop) s :
idle s ->
(forall st s', idle s' ->
   match remove_node id (g_volatile_keys s) with
   | Some l => st = PSA_SUCCESS /\ quiet (with_volatile_keys l s) s'
   | None => st = PSA_ERROR_INVALID_HANDLE /\ quiet s s'
   end -> Q st s') ->
wp (wolfpsa_volatile_remove id) Q s.
Proof.
intros Hi HQ. unfold wolfpsa_volatile_remove. wp_seq.
apply wp_LOCK; [done|]. intros s1 Hq1 Hl1. wp_seq. rewrite (q_keys _ _ Hq1).
destruct (remove_node id (g_volatile_keys s)) as [l|] eqn:Hr; wp_seq.
- apply wp_UNLOCK; [done|]. intros s2 Hq2 Hi2. wp_seq. apply HQ; [done|].
  split; [done|]. destruct Hq1, Hq2. simpl in *. split; simpl; congruence || auto.
- apply wp_UNLOCK; [done|]. intros s2 Hq2 Hi2. wp_seq. apply HQ; [done|].
  split; [done|]. by eapply quiet_trans.
Qed.

Lemma wp_volatile_get id a0
  (Q : psa_status_t * option psa_key_attributes_t * option (list byte) -> kstate O -> Prop) s :
idle s ->
(forall st a d s', idle s' -> quiet s s' ->
   match find_node id (g_volatile_keys s) with
   | None => st = PSA_ERROR_INVALID_HANDLE /\ a = a0 /\ d = None
   | Some n =>
       a = option_map (fun _ => node_attributes n) a0 /\
       ((st = PSA_SUCCESS /\ d = Some (node_data n) /\ zlen (node_data n) <> 0) \/
        ((st = PSA_ERROR_DATA_INVALID /\ zlen (node_data n) = 0 \/
          st = PSA_ERROR_INSUFFICIENT_MEMORY /\ ~ mem_ok s) /\ d = None))
   end -> Q (st, a, d) s') ->
wp (wolfpsa_volatile_get id a0) Q s.
Proof.
intros Hi HQ. unfold wolfpsa_volatile_get. wp_seq.
apply wp_LOCK; [done|]. intros s1 Hq1 Hl1. wp_seq. unfold wolfpsa_volatile_find. wp_seq.
rewrite (q_keys _ _ Hq1). destruct (find_node id (g_volatile_keys s)) as [n|] eqn:Hf.
2:{ wp_seq. apply wp_UNLOCK; [done|]. intros s2 Hq2 Hi2. wp_seq.
    apply HQ; [done|by eapply quiet_trans|done]. }
destruct (Z.eqb_spec (zlen (node_data n)) 0) as [Hz|Hz].
{ wp_seq. apply wp_UNLOCK; [done|]. intros s2 Hq2 Hi2. wp_seq.
  apply HQ; [done|by eapply quiet_trans|]. split; [done|]. right. auto. }
wp_seq. apply wp_XMALLOC. intros b s2 Hq2 Hv2 Hm2.
assert (Hl2 : locked s2) by (by eapply locked_lock_view).
destruct b; simpl; wp_seq; (apply wp_UNLOCK; [done|]); intros s3 Hq3 Hi3; wp_seq;
  (apply HQ; [done|by eapply quiet_trans, quiet_trans|]); (split; [done|]); [by left|].
right. split; [|done]. right. split; [done|]. intros Hm.
by assert (false = true) by (apply Hm2, Hq1; done).
Qed.

Lemma wp_volatile_get_attributes id
  (Q : psa_status_t + psa_key_attributes_t -> kstate O -> Prop) s :
idle s ->
(forall s', idle s' -> quiet s s' ->
   Q match find_node id (g_volatile_keys s) with
     | Some n => inr (node_attributes n)
     | None => inl PSA_ERROR_INVALID_HANDLE
     end s') ->
wp (wolfpsa_volatile_get_attributes id) Q s.
Proof.
intros Hi HQ. unfold wolfpsa_volatile_get_attributes. wp_seq.
apply wp_LOCK; [done|]. intros s1 Hq1 Hl1. wp_seq. unfold wolfpsa_volatile_find. wp_seq.
apply wp_UNLOCK; [done|]. intros s2 Hq2 Hi2. wp_seq. rewrite (q_keys _ _ Hq1).
apply HQ; [done|by eapply quiet_trans].
Qed.

(** * Records *)

(** A store step that keeps the committed records. *)
Lemma store_step_calm s (st : store_state) :
records st = records (key_store s) -> (healthy (key_store s) -> healthy st) ->
calm s (with_key_store st s).
Proof. intros. by split. Qed.

Lemma reading_quiet s s' h bs :
quiet s s' -> reading (key_store s) h bs -> reading (key_store s') h bs.
Proof. intros [? ? Hst ? ?]. by rewrite Hst. Qed.

Lemma wp_close_reading h bs (Q : Z -> kstate O -> Prop) s :
reading (key_store s) h bs ->
(forall r s', calm s s' -> lock_view s' = lock_view s -> Q r s') ->
wp (store_op (wolfPSA_Store_Close h)) Q s.
Proof.
intros Hr HQ. apply wp_store_op, HQ; [|done]. apply store_step_calm.
- by eapply close_read_law.
- intros Hh. by eapply healthy_close_read.
Qed.

Lemma wp_read h n bs (Q : Z * list byte * store_ctx -> kstate O -> Prop) s :
reading (key_store s) h bs -> 0 <= n ->
(forall k h' s', calm s s' -> lock_view s' = lock_view s -> (k <= length bs)%nat ->
   Z.of_nat k <= n -> reading (key_store s') h' (drop k bs) ->
   (healthy (key_store s) -> Z.of_nat k = Z.min n (zlen bs)) ->
   Q (Z.of_nat k, take k bs, h') s') ->
wp (store_op (wolfPSA_Store_Read h n)) Q s.
Proof.
intros Hr Hn HQ. apply wp_store_op.
destruct (read_law h n bs (key_store s) Hr Hn) as (Hrec & k & Hk & Hout & Hkn & Hr').
destruct (wolfPSA_Store_Read h n (key_store s)) as [[[ret out] h'] st] eqn:Eq.
simpl in *. injection Hout as -> ->. apply HQ; simpl; try done.
- apply store_step_calm; [done|]. intros Hh.
  destruct (healthy_read h n bs (key_store s) Hh Hr Hn) as [Hh' _]. by rewrite Eq in Hh'.
- intros Hh. destruct (healthy_read h n bs (key_store s) Hh Hr Hn) as [_ Hret].
  by rewrite Eq in Hret.
Qed.

Definition present s id (bs : list byte) : Prop := records (key_store s) !! Z.to_N id = Some bs.

Lemma wp_open_record id (Q : psa_status_t + store_ctx * list byte -> kstate O -> Prop) s :
(forall r s', calm s s' -> lock_view s' = lock_view s ->
   match r with
   | inr (h, header) =>
       exists bs, present s id bs /\ (24 <= length bs)%nat /\ header = take 24 bs /\
                  reading (key_store s') h (drop 24 bs)
   | inl e =>
       e <> PSA_SUCCESS /\
       (e = PSA_ERROR_INVALID_HANDLE -> records (key_store s) !! Z.to_N id = None) /\
       (healthy (key_store s) -> ulong (Z.to_N id) ->
        (records (key_store s) !! Z.to_N id = None -> e = PSA_ERROR_INVALID_HANDLE) /\
        (forall bs, present s id bs -> (length bs < 24)%nat))
   end -> Q r s') ->
wp (open_record id) Q s.
Proof.
intros HQ. unfold open_record, wolfPSA_Store_Open. wp_seq. apply wp_store_op.
pose proof (open_read_law (Z.to_N id) 0 (key_store s)) as [Hrec Hopen].
pose proof (healthy_open_read (Z.to_N id) 0 (key_store s)) as Hho.
destruct (wolfPSA_Store_OpenSz WOLFPSA_STORE_KEY (Z.to_N id) 0%N true 0 (key_store s)) as [r st] eqn:Eq.
simpl in *.
assert (Hc1 : calm s (with_key_store st s)).
{ apply store_step_calm; [done|]. intros Hh. by destruct (Hho Hh). }
destruct r as [ret|h].
- destruct Hopen as [Hneg Hna]. wp_seq. apply HQ; [done|done|]. split_and!.
  + destruct (ret =? WOLFPSA_STORE_NOT_AVAILABLE); [discriminate|]. apply store_open_status_fails.
  + destruct (Z.eqb_spec ret WOLFPSA_STORE_NOT_AVAILABLE); [auto|].
    unfold wolfpsa_store_open_status. by destruct (ret =? MEMORY_E).
  + intros Hh Hid. destruct (Hho Hh) as [_ Hcase]. specialize (Hcase Hid). unfold present.
    destruct (records (key_store s) !! Z.to_N id) as [bs|] eqn:Hlk; [by destruct Hcase|].
    injection Hcase as ->. done.
- destruct Hopen as (bs & Hbs & Hread). wp_seq.
  apply (wp_read h header_size bs); [done|done|].
  intros k h' s2 Hc2 Hv2 Hk Hkn Hr2 Hh2. change header_size with 24 in *.
  pose proof (calm_trans _ _ _ Hc1 Hc2) as Hc.
  destruct (Z.eqb_spec (Z.of_nat k) 24) as [Hk24|Hk24]; simpl.
  + replace k with 24%nat in * by lia. wp_seq. apply HQ; [done|done|].
    exists bs. split_and!; [done|lia|done|done].
  + wp_seq. eapply wp_close_reading; [done|]. intros r3 s3 Hc3 Hv3. wp_seq.
    apply HQ; [by eapply calm_trans|by rewrite Hv3, Hv2|]. split; [done|]. split; [done|].
    unfold present. rewrite Hbs. intros Hh _. split; [done|]. intros bs' Hbs'.
    simplify_eq. specialize (Hh2 (c_healthy _ _ Hc1 Hh)). unfold zlen in Hh2. lia.
Qed.

Lemma validate_length_success n :
0 <= n -> wolfpsa_validate_stored_key_data_length n = PSA_SUCCESS <-> 0 < n <= INT_MAX.
Proof.
intros. unfold wolfpsa_validate_stored_key_data_length, INT_MAX.
case_match; split; intros; done || lia.
Qed.

Lemma validate_length_cases n :
wolfpsa_validate_stored_key_data_length n = PSA_SUCCESS \/
wolfpsa_validate_stored_key_data_length n = PSA_ERROR_DATA_INVALID.
Proof. unfold wolfpsa_validate_stored_key_data_length. case_match; auto. Qed.

Lemma wp_read_record_data h n bs (Q : psa_status_t + list byte -> kstate O -> Prop) s :
reading (key_store s) h bs -> 0 <= n ->
(forall r s', calm s s' -> lock_view s' = lock_view s ->
   match r with
   | inr d => 0 < n <= INT_MAX /\ n <= zlen bs /\ d = take (Z.to_nat n) bs
   | inl e => e <> PSA_SUCCESS /\ e <> PSA_ERROR_INVALID_HANDLE /\
              (healthy (key_store s) -> mem_ok s -> 0 < n <= INT_MAX -> zlen bs < n)
   end -> Q r s') ->
wp (read_record_data h n) Q s.
Proof.
intros Hr Hn HQ. unfold read_record_data.
pose proof (validate_length_success n Hn) as Hv.
destruct (validate_length_cases n) as [Hval|Hval]; rewrite Hval in *.
2:{ wp_seq; eapply wp_close_reading; [done|]; intros r1 s1 Hc1 Hv1; wp_seq.
    apply HQ; [done|done|]. split_and!; [done|done|]. intros _ _ Hrange.
    by rewrite <- Hv in Hrange. }
destruct (proj1 Hv eq_refl) as [Hpos Hmax]. rewrite (to_int_small n) by lia.
wp_seq. apply wp_XMALLOC. intros b s1 Hq1 Hv1 Hm1. destruct b; simpl.
2:{ wp_seq. eapply wp_close_reading; [by eapply reading_quiet|]. intros r2 s2 Hc2 Hv2.
    wp_seq. apply HQ; [by eapply quiet_calm_trans|congruence|]. split_and!; [done|done|].
    intros _ Hm. by apply Hm1 in Hm. }
wp_seq. apply (wp_read h n bs); [by eapply reading_quiet|done|].
intros k h' s2 Hc2 Hv2 Hk Hkn Hr2 Hh2. wp_seq.
eapply wp_close_reading; [done|]. intros r3 s3 Hc3 Hv3.
pose proof (quiet_calm_trans _ _ _ Hq1 (calm_trans _ _ _ Hc2 Hc3)) as Hc.
destruct (Z.eqb_spec (Z.of_nat k) n) as [Hkeq|Hkeq]; simpl; wp_seq;
  (apply HQ; [done|congruence|]).
- subst n. rewrite Nat2Z.id. unfold zlen. split_and!; done || lia.
- split_and!; [done|done|]. intros Hh _ _. rewrite <- (q_store _ _ Hq1) in Hh.
  specialize (Hh2 Hh). lia.
Qed.

(** A call that starts with the initialisation check: either the check fails
  with one of its two statuses, or the rest runs. *)
Lemma wp_checked {A} (fail : psa_status_t -> A) (k : M (kstate O) A) (Q : A -> kstate O -> Prop) s :
free s ->
(forall st s', quiet s s' -> free s' ->
   (st = PSA_ERROR_BAD_STATE \/ st = PSA_ERROR_GENERIC_ERROR) ->
   (idle s -> g_psa_crypto_initialized s = true -> False) -> Q (fail st) s') ->
(forall s', quiet s s' -> idle s' -> g_psa_crypto_initialized s = true -> wp k Q s') ->
wp (status ← psa_key_storage_check_init;
    match status with PSA_SUCCESS => k | e => mret (fail e) end) Q s.
Proof.
intros Hf Hfail Hk. apply wp_bind. apply wp_check_init; [done|].
intros st s1 Hq1 Hf1 Hst Hok Hyes. destruct Hst as [->|[->| ->]].
- destruct (Hok eq_refl). by apply Hk.
- wp_seq. apply Hfail; [done..|auto|]. intros Hi Hc. by specialize (Hyes Hi Hc).
- wp_seq. apply Hfail; [done..|auto|]. intros Hi Hc. by specialize (Hyes Hi Hc).
Qed.

(** The attributes of a key, or an error: in any state. *)
Lemma get_attributes_error id s : (psa_get_key_attributes id s).1 <> inl PSA_SUCCESS.
Proof.
change (wp (psa_get_key_attributes id) (fun r _ => r <> inl PSA_SUCCESS) s).
unfold psa_get_key_attributes. apply wp_bind, wp_any. intros st s1.
destruct st; try (by apply wp_ret). apply wp_bind, wp_any. intros r s2.
apply wp_bind, (wp_mono _ (fun r _ => r <> inl PSA_SUCCESS)).
{ destruct r as [e|a]; [|by apply wp_ret]. unfold read_record_attributes, open_record.
  apply wp_bind, wp_bind, wp_any. intros [ret|h] s3.
  - apply wp_ret. unfold wolfpsa_store_open_status. repeat case_match; by apply wp_ret.
  - apply wp_bind, wp_any. intros [[ret header] h'] s4. destruct (negb _).
    + apply wp_bind, wp_any. intros ? s5. apply wp_ret. by apply wp_ret.
    + apply wp_ret. apply wp_bind, wp_any. intros ? s5. apply wp_ret.
      unfold header_attributes, psa_key_attributes_deserialize. by case_match. }
intros [e|a] s3 He; apply wp_ret; [|done]. by intros [= ->].
Qed.
End Rules.
