(* ===== verification/Operation.v ===== *)
(** What the multi-part operations share: the state in which their entry points
    run, the return codes of wolfCrypt, and buffers as pointer and length.

    A PSA operation object holds one pointer, [opaque], to a context that the
    operation allocates.  [opstate] is the library with one such object:
    [op_ctx] is [None] while [opaque] is NULL.  A wolfCrypt call that may fail
    takes its return code from [op_rets]; an exhausted list means 0, so the
    theorems hold for every pattern of failures.

    The second half is about calls that give a status or a value, and how they
    compose; and the calls for random bytes that the operations make. *)

From stdpp Require Import base decidable list.
From Stdlib Require Import ZArith Lia.
From Stdlib Require Import Strings.Byte.
From S2P Require Import Prelude.
From S2P Require Import Values.
From S2P Require Import Engine.
From S2P Require Import StoreIface.
From S2P Require Import Library.
From S2P Require Import KeyStore.
From S2P Require Import KeyStoreRules.

#[local] Open Scope Z_scope.

(** * Buffers *)

(** An input buffer: NULL with a claimed length, or bytes. *)
Inductive input : Type :=
| Null (length : N)
| Bytes (data : list byte).

Definition input_length (i : input) : Z :=
  match i with Null n => Z.of_N n | Bytes l => zlen l end.
Definition input_bytes (i : input) : list byte :=
  match i with Null _ => [] | Bytes l => l end.
Definition is_null (i : input) : bool :=
  match i with Null _ => true | Bytes _ => false end.

(** What an update accepts: bytes or an empty NULL, of at most [UINT32_MAX] bytes. *)
Definition input_valid (data : input) : Prop :=
  (is_null data = true -> input_length data = 0) /\ fits_word32 (input_length data) = true.

(** The message that a list of updates makes. *)
Definition message (chunks : list input) : list byte := concat (map input_bytes chunks).

Lemma message_nil : message [] = [].
Proof. done. Qed.
Lemma message_cons data chunks : message (data :: chunks) = input_bytes data ++ message chunks.
Proof. done. Qed.
Lemma message_single data : message [data] = input_bytes data.
Proof. unfold message. simpl. by rewrite app_nil_r. Qed.

(** Arithmetic of [size_t]. *)
Definition to_size (z : Z) : Z := z mod 2 ^ 64.

Lemma to_size_small z : 0 <= z <= SIZE_MAX -> to_size z = z.
Proof. unfold to_size, SIZE_MAX. intros. by rewrite Z.mod_small by lia. Qed.

(** What a callee sees of a buffer whose length is cast to [word32] or [int]. *)
Definition word32_buf (l : list byte) : list byte := take (Z.to_nat (to_u32 (zlen l))) l.
Definition int_buf (l : list byte) : list byte := take (Z.to_nat (to_int (zlen l))) l.

Lemma word32_buf_small l : fits_word32 (zlen l) = true -> word32_buf l = l.
Proof.
  rewrite fits_word32_spec. intros Hl. unfold word32_buf. pose proof (zlen_nonneg l).
  rewrite to_u32_small by lia. apply take_ge. unfold zlen. lia.
Qed.

Lemma int_buf_small l : zlen l <= INT_MAX -> int_buf l = l.
Proof.
  intros Hl. unfold int_buf. pose proof (zlen_nonneg l).
  rewrite to_int_small by (unfold INT_MAX in *; lia). apply take_ge. unfold zlen. lia.
Qed.

Lemma fits_int l : zlen l <= INT_MAX -> word32_buf l = l.
Proof.
  intros Hl. apply word32_buf_small, fits_word32_spec. unfold INT_MAX, UINT32_MAX in *. lia.
Qed.

Lemma valid_word32_buf data : input_valid data -> word32_buf (input_bytes data) = input_bytes data.
Proof. intros [_ Hf]. destruct data as [n|l]; [done|]. by apply word32_buf_small. Qed.

Lemma valid_not_null data :
  input_valid data -> is_null data && (0 <? input_length data) = false.
Proof. intros [Hn _]. destruct data as [n|l]; [|done]. simpl in *. by rewrite Hn. Qed.

(** wolfCrypt's comparison of two buffers of one length. *)
Class WolfCryptMisc : Type := {
  ConstantCompare : list byte -> list byte -> Z }.

Class WolfCryptMiscOk (W : WolfCryptMisc) : Prop := {
  constant_compare_spec a b : zlen a = zlen b -> ConstantCompare a b = 0 <-> a = b }.

(** * State *)

Record opstate {O : StoreOps} {Op : Type} : Type := mkOp {
  op_lib : kstate O;
  op_ctx : option Op;
  op_rets : list Z }.
Arguments opstate : clear implicits.

Section Operation.
Context {O : StoreOps} {Op : Type}.

Implicit Types s : opstate O Op.

Definition with_lib (k : kstate O) s : opstate O Op := mkOp _ _ k (op_ctx s) (op_rets s).
Definition with_ctx (c : option Op) s : opstate O Op := mkOp _ _ (op_lib s) c (op_rets s).
Definition with_rets (l : list Z) s : opstate O Op := mkOp _ _ (op_lib s) (op_ctx s) l.

(** A call into the library below. *)
Definition lib {A} (m : M (kstate O) A) : M (opstate O Op) A := fun s =>
let '(a, k) := m (op_lib s) in (a, with_lib k s).

(** The return code of a wolfCrypt call. *)
Definition wc_call : M (opstate O Op) Z := fun s =>
let '(r, l) := next_ret (op_rets s) in (r, with_rets l s).

(** The next call of a chain [if (ret == 0) ret = ...;]. *)
Definition wc_then (ret : Z) : M (opstate O Op) Z :=
if ret =? 0 then wc_call else mret ret.

Definition get_ctx : M (opstate O Op) (option Op) := mgets op_ctx.
Definition set_ctx (c : option Op) : M (opstate O Op) unit := mmodify (with_ctx c).
Definition modify_ctx (f : Op -> Op) : M (opstate O Op) unit :=
mmodify (fun s => with_ctx (option_map f (op_ctx s)) s).

(** * Rules *)

Lemma wp_lib {A} (m : M (kstate O) A) (Q : A -> opstate O Op -> Prop) s :
wp m (fun a k => Q a (with_lib k s)) (op_lib s) -> wp (lib m) Q s.
Proof. unfold wp, lib. by destruct (m (op_lib s)). Qed.

Lemma wp_wc_call (Q : Z -> opstate O Op -> Prop) s :
(forall r l, (op_rets s = [] -> r = 0 /\ l = []) -> Q r (with_rets l s)) -> wp wc_call Q s.
Proof.
intros HQ. unfold wp, wc_call. destruct (op_rets s) as [|r l] eqn:Hr; simpl; by apply HQ.
Qed.

Lemma wp_wc_then ret (Q : Z -> opstate O Op -> Prop) s :
(forall r l, (r = 0 -> ret = 0) -> (ret = 0 -> op_rets s = [] -> r = 0) ->
   (op_rets s = [] -> l = []) -> Q r (with_rets l s)) ->
wp (wc_then ret) Q s.
Proof.
intros HQ. unfold wc_then. destruct (Z.eqb_spec ret 0) as [->|Hr].
- apply wp_wc_call. intros r l Hl. apply HQ; [done| |]; intros; by apply Hl.
- apply wp_ret. specialize (HQ ret (op_rets s)). destruct s as [k c l]. by apply HQ.
Qed.

(** A step that leaves the operation object alone. *)
Definition same_ctx s s' : Prop := op_ctx s' = op_ctx s.
(** Nothing fails from here on. *)
Definition smooth s : Prop := op_rets s = [] /\ mem_ok (op_lib s).

Lemma same_ctx_refl s : same_ctx s s.
Proof. done. Qed.
Lemma same_ctx_trans s1 s2 s3 : same_ctx s1 s2 -> same_ctx s2 s3 -> same_ctx s1 s3.
Proof. unfold same_ctx. congruence. Qed.

(** A computation that only calls wolfCrypt and the allocator. *)
Definition pure_calls {A} (m : M (opstate O Op) A) : Prop :=
forall s, let s' := (m s).2 in
  same_ctx s s' /\ quiet (op_lib s) (op_lib s') /\
  lock_view (op_lib s') = lock_view (op_lib s) /\ (op_rets s = [] -> op_rets s' = []).

Lemma pure_ret {A} (a : A) : pure_calls (mret a).
Proof. intros s. simpl. by split_and!; try apply quiet_refl. Qed.

Lemma pure_bind {A B} (m : M (opstate O Op) A) (f : A -> M (opstate O Op) B) :
pure_calls m -> (forall a, pure_calls (f a)) -> pure_calls (mbind f m).
Proof.
intros Hm Hf s. rewrite bind_run. destruct (Hm s) as (H1 & H2 & H3 & H4).
destruct (Hf (m s).1 (m s).2) as (K1 & K2 & K3 & K4).
split_and!; [by eapply same_ctx_trans|by eapply quiet_trans|congruence|auto].
Qed.

Lemma pure_wc_call : pure_calls wc_call.
Proof.
intros s. unfold wc_call. destruct (op_rets s) as [|r l] eqn:Hr; simpl;
  (split_and!; [done|apply quiet_refl|done|done]).
Qed.

Lemma pure_wc_then r : pure_calls (wc_then r).
Proof. unfold wc_then. destruct (r =? 0); [apply pure_wc_call|apply pure_ret]. Qed.

Lemma pure_malloc n : pure_calls (lib (XMALLOC n)).
Proof.
intros s. unfold lib, XMALLOC, next_outcome.
destruct (malloc_outcomes (op_lib s)) as [|b l] eqn:Hm; simpl;
  (split_and!; [done|split; try done; unfold mem_ok; simpl; congruence|done|done]).
Qed.

Lemma pure_if {A} (b : bool) (m1 m2 : M (opstate O Op) A) :
pure_calls m1 -> pure_calls m2 -> pure_calls (if b then m1 else m2).
Proof. by destruct b. Qed.

Lemma wc_then_smooth r s : smooth s -> wc_then r s = (r, s).
Proof.
intros [Hr _]. unfold wc_then. destruct (Z.eqb_spec r 0) as [->|]; [|done].
unfold wc_call, with_rets. rewrite Hr. simpl. rewrite <- Hr. by destruct s.
Qed.

Lemma wc_call_smooth s : smooth s -> wc_call s = (0, s).
Proof. intros Hs. apply (wc_then_smooth 0 s Hs). Qed.

Lemma pure_smooth {A} (m : M (opstate O Op) A) s : pure_calls m -> smooth s -> smooth (m s).2.
Proof. intros Hm [Hr Hmem]. destruct (Hm s) as (_ & Hq & _ & Hr'). split; [auto|by apply Hq]. Qed.

Lemma wp_pure {A} (m : M (opstate O Op) A) (Q : A -> opstate O Op -> Prop) s :
pure_calls m ->
(forall a s', m s = (a, s') -> same_ctx s s' -> quiet (op_lib s) (op_lib s') ->
   (smooth s -> smooth s') -> Q a s') ->
wp m Q s.
Proof.
intros Hm HQ. unfold wp. destruct (Hm s) as (H1 & H2 & _ & _).
apply (HQ _ _ (surjective_pairing _)); [done|done|by apply pure_smooth].
Qed.

(** Allocation: it succeeds when nothing fails. *)
Lemma wp_malloc n (Q : bool -> opstate O Op -> Prop) s :
(forall b s', same_ctx s s' -> quiet (op_lib s) (op_lib s') -> op_rets s' = op_rets s ->
   (smooth s -> b = true /\ smooth s') -> Q b s') ->
wp (lib (XMALLOC n)) Q s.
Proof.
intros HQ. apply wp_lib, wp_XMALLOC. intros b k Hq _ Hb. apply HQ; [done|done|done|].
intros [Hr Hm]. split; [by apply Hb|]. split; [done|by apply Hq].
Qed.

(** ** Computations that leave the operation object alone *)

Definition ctx_frame {A} (m : M (opstate O Op) A) : Prop := forall s, same_ctx s (m s).2.

Lemma frame_ret {A} (a : A) : ctx_frame (mret a).
Proof. done. Qed.
Lemma frame_bind {A B} (m : M (opstate O Op) A) (f : A -> M (opstate O Op) B) :
ctx_frame m -> (forall a, ctx_frame (f a)) -> ctx_frame (mbind f m).
Proof. intros Hm Hf s. rewrite bind_run. eapply same_ctx_trans; [apply Hm|apply Hf]. Qed.
Lemma frame_lib {A} (m : M (kstate O) A) : ctx_frame (lib m).
Proof. intros s. unfold lib. by destruct (m (op_lib s)). Qed.
Lemma frame_pure {A} (m : M (opstate O Op) A) : pure_calls m -> ctx_frame m.
Proof. intros Hm s. apply Hm. Qed.

Lemma wp_frame {A} (m : M (opstate O Op) A) (Q : A -> opstate O Op -> Prop) s :
ctx_frame m -> (forall a s', same_ctx s s' -> Q a s') -> wp m Q s.
Proof. intros Hm HQ. apply HQ, Hm. Qed.
End Operation.

(** A finish that gives a status only, as one that gives a result too. *)
Definition finish_status {S} (m : M S psa_status_t) : M S (psa_status_t * unit) :=
  st ← m; mret (st, tt).

(** A call whose error ends the operation. *)
Lemma wp_checked_call {E : WolfCryptErr} {EO : WolfCryptErrOk E} {O : StoreOps} {Op A : Type}
    (bad : psa_status_t -> M (opstate O Op) A) (good : M (opstate O Op) A)
    (Q : A -> opstate O Op -> Prop) s :
  (forall e s', same_ctx s s' -> e <> PSA_SUCCESS -> (smooth s -> False) -> wp (bad e) Q s') ->
  (forall s', same_ctx s s' -> (smooth s -> smooth s') -> wp good Q s') ->
  wp (ret ← wc_call; if negb (ret =? 0) then bad (wc_error_to_psa_status ret) else good) Q s.
Proof.
  intros Hbad Hgood. apply wp_bind, wp_pure; [apply pure_wc_call|]. intros r s1 Hr Hs1 _ Hsm1.
  destruct (Z.eqb_spec r 0) as [->|Hr0]; cbn [negb]; [by apply Hgood|].
  apply Hbad; [done|by rewrite wc_error_success|]. intros Hsm.
  rewrite wc_call_smooth in Hr by done. by injection Hr.
Qed.

(** Prove [ctx_frame] along the structure of a computation. *)
Ltac ctx_frame_tac :=
  cbv zeta;
  repeat first [ apply frame_ret | apply frame_lib | apply frame_pure, pure_wc_call
               | apply frame_pure, pure_wc_then | apply frame_bind; [|intros]
               | progress cbv beta iota | case_match ].

#[export] Hint Resolve pure_ret pure_bind pure_wc_call pure_wc_then pure_malloc pure_if : wpsa.
#[export] Hint Resolve same_ctx_refl : wpsa.

Section Yields.
Context {E : WolfCryptErr} {EO : WolfCryptErrOk E} {O : StoreOps} {Op : Type}.

(** [m] gives a value with [P], or fails, which it does only when a call of
  wolfCrypt fails; it leaves the operation object alone. *)
Definition yields {A} (m : M (opstate O Op) (psa_status_t + A)) (P : A -> Prop) : Prop :=
forall s Q,
(forall e s', same_ctx s s' -> e <> PSA_SUCCESS -> (smooth s -> False) -> Q (inl e) s') ->
(forall a s', same_ctx s s' -> (smooth s -> smooth s') -> P a -> Q (inr a) s') ->
wp m Q s.

Lemma yields_ret {A} (a : A) (P : A -> Prop) : P a -> yields (mret (inr a)) P.
Proof. intros HP s Q _ Hgood. apply wp_ret, Hgood; [done|done|done]. Qed.

Lemma yields_mono {A} m (P P' : A -> Prop) : yields m P -> (forall a, P a -> P' a) -> yields m P'.
Proof. intros Hm HP s Q Hbad Hgood. apply Hm; [done|]. intros. apply Hgood; auto. Qed.

Lemma yields_bind {A B} (m : M (opstate O Op) (psa_status_t + A))
(f : psa_status_t + A -> M (opstate O Op) (psa_status_t + B)) (P : A -> Prop) (P' : B -> Prop) :
yields m P -> (forall e, f (inl e) = mret (inl e)) -> (forall a, P a -> yields (f (inr a)) P') ->
yields (mbind f m) P'.
Proof.
intros Hm Herr Hf s Q Hbad Hgood. apply wp_bind, Hm.
- intros e s1 Hs1 He Hno. rewrite Herr. by apply wp_ret, Hbad.
- intros a s1 Hs1 Hsm HP. apply Hf; [done|..].
  + intros e s2 Hs2 He Hno. apply Hbad; [by eapply same_ctx_trans|done|auto].
  + intros b s2 Hs2 Hsm2 HP'. apply Hgood; [by eapply same_ctx_trans|auto|done].
Qed.

(** The last call: only its result is changed. *)
Lemma yields_map {A B} (m : M (opstate O Op) (psa_status_t + A))
(f : psa_status_t + A -> psa_status_t + B) (P : A -> Prop) (P' : B -> Prop) :
yields m P -> (forall e, f (inl e) = inl e) -> (forall a, P a -> exists b, f (inr a) = inr b /\ P' b) ->
yields (r ← m; mret (f r)) P'.
Proof.
intros Hm Herr Hf. apply (yields_bind m (fun r => mret (f r)) P P' Hm).
- intros e. by rewrite Herr.
- intros a Ha. destruct (Hf a Ha) as (b & -> & Hb). by apply yields_ret.
Qed.

(** A checked call. *)
Lemma yields_call {A} (a : A) :
yields (ret ← wc_call; mret (if negb (ret =? 0) then inl (wc_error_to_psa_status ret) else inr a))
  (fun x => x = a).
Proof.
intros s Q Hbad Hgood. apply wp_bind, wp_pure; [apply pure_wc_call|]. intros r s1 Hr Hs1 _ Hsm1.
apply wp_ret. destruct (Z.eqb_spec r 0) as [->|Hr0]; cbn [negb]; [by apply Hgood|].
apply Hbad; [done|by rewrite wc_error_success|]. intros Hsm.
rewrite wc_call_smooth in Hr by done. by injection Hr.
Qed.

(** Two calls, the second of which runs when the first succeeds. *)
Lemma yields_calls {A} (m : M (opstate O Op) (psa_status_t + A)) (P : A -> Prop) :
yields m P ->
yields (ret ← wc_call; ret ← wc_then ret;
        if negb (ret =? 0) then mret (inl (wc_error_to_psa_status ret)) else m) P.
Proof.
intros Hm s Q Hbad Hgood. apply wp_bind, wp_pure; [apply pure_wc_call|]. intros r s1 Hr Hs1 _ Hsm1.
apply wp_bind, wp_pure; [apply pure_wc_then|]. intros r' s2 Hr' Hs2 _ Hsm2.
assert (Hs : same_ctx s s2) by (by eapply same_ctx_trans).
destruct (Z.eqb_spec r' 0) as [->|Hr0]; cbn [negb].
- apply Hm.
  + intros e s3 Hs3 He Hno. apply Hbad; [by eapply same_ctx_trans|done|auto].
  + intros a s3 Hs3 Hsm3 HP. apply Hgood; [by eapply same_ctx_trans|auto|done].
- apply wp_ret, Hbad; [done|by rewrite wc_error_success|]. intros Hsm.
  rewrite wc_call_smooth in Hr by done. injection Hr as <- <-.
  rewrite wc_then_smooth in Hr' by done. by injection Hr' as <- _.
Qed.
End Yields.

(** * Random bytes *)

Section Random.
Context {C : Config} {E : WolfCryptErr} {EO : WolfCryptErrOk E} {R : WolfCryptRng}.
Context {O : StoreOps} {Op : Type}.

Implicit Types s : opstate O Op.

(** The random generator works. *)
Definition rng_works : Prop :=
forall n, wc_InitRng_ex n = 0 /\ forall size, 0 <= size -> (wc_RNG_GenerateBlock n size).1 = 0.

Definition random_feasible s : Prop :=
smooth s /\ idle (op_lib s) /\ g_psa_crypto_initialized (op_lib s) = true /\ rng_works.

Lemma wp_random {ROK : WolfCryptRngOk R} size s
  (Q : psa_status_t * list byte -> opstate O Op -> Prop) :
0 < size <= UINT32_MAX ->
(forall e out s', same_ctx s s' -> e <> PSA_SUCCESS -> (random_feasible s -> False) -> Q (e, out) s') ->
(forall out s', same_ctx s s' -> (smooth s -> smooth s') -> zlen out = size ->
   Q (PSA_SUCCESS, out) s') ->
wp (lib (psa_generate_random true size)) Q s.
Proof.
intros Hsize Hbad Hgood. apply wp_lib. unfold psa_generate_random.
apply wp_bind, wp_is_initialized. intros b k1 Hq _ _ _ Hb.
destruct b; cbn [negb].
2: { apply wp_ret, Hbad; [done|done|]. intros (_ & Hidle & Hinit & _). specialize (Hb Hidle). congruence. }
rewrite (proj2 (Z.ltb_ge UINT32_MAX size)), (proj2 (Z.eqb_neq size 0)) by lia.
rewrite andb_false_l. cbv iota.
apply wp_bind. unfold wp at 1, rng_draw. cbn [fst snd]. set (n := rng_draws k1). set (k2 := with_rng_draws _ k1).
destruct (Z.eqb_spec (wc_InitRng_ex n) 0) as [Hi|Hi]; cbn [negb].
2: { apply wp_ret, Hbad; [done|by rewrite wc_error_success|]. intros (_ & _ & _ & Hrng). by destruct (Hrng n). }
destruct (wc_RNG_GenerateBlock n size) as [ret out] eqn:Hgen.
destruct (Z.eqb_spec ret 0) as [->|Hr]; cbn [negb].
- apply wp_ret, Hgood; [done| |by eapply rng_block_length].
  intros [Hr Hm]. split; [done|]. change (mem_ok k1). by apply Hq.
- apply wp_ret, Hbad; [done|by rewrite wc_error_success|]. intros (_ & _ & _ & Hrng).
  destruct (Hrng n) as [_ H]. specialize (H size ltac:(lia)). rewrite Hgen in H. done.
Qed.
End Random.
