(* ===== verification/KeyAgreement.v ===== *)
(** Key agreement: the policy check and the shared secret of
    [src/psa_asymmetric_api.c], with the X25519 and X448 backends of
    [src/psa_montgomery.c].

    The object of the running operation is not touched here; [Op] is the type of
    whatever operation the caller runs. *)

From stdpp Require Import base decidable list.
From Stdlib Require Import ZArith Lia.
From Stdlib Require Import Strings.Byte.
From S2P Require Import Prelude.
From S2P Require Import Values.
From S2P Require Import Engine.
From S2P Require Import WolfCrypt.
From S2P Require Import KeyPolicy.
From S2P Require Import KeyFormat.
From S2P Require Import StoreIface.
From S2P Require Import Library.
From S2P Require Import KeyStore.
From S2P Require Import Operation.

#[local] Open Scope Z_scope.

(** * Policy *)

Definition wolfpsa_key_agreement_alg_permitted (key_alg alg : Z) : bool :=
  if negb (PSA_ALG_KEY_AGREEMENT_GET_BASE key_alg =? PSA_ALG_KEY_AGREEMENT_GET_BASE alg)
  then false
  else if PSA_ALG_IS_RAW_KEY_AGREEMENT key_alg then true
  else PSA_ALG_KEY_AGREEMENT_GET_KDF key_alg =? PSA_ALG_KEY_AGREEMENT_GET_KDF alg.

Definition wolfpsa_asymmetric_alg_permitted (key_alg alg usage : Z) : bool :=
  if key_alg =? PSA_ALG_NONE then false
  else if PSA_ALG_IS_KEY_AGREEMENT alg && PSA_ALG_IS_KEY_AGREEMENT key_alg
  then wolfpsa_key_agreement_alg_permitted key_alg alg
  else wolfpsa_sign_alg_permitted key_alg alg usage.

Definition CURVE25519_KEYSIZE : Z := 32.
Definition CURVE448_KEY_SIZE : Z := 56.

(** [peer[CURVE25519_KEYSIZE - 1] &= 127] *)
Definition clear_top_bit (peer : list byte) : list byte :=
  match rev peer with
  | [] => []
  | b :: l => rev (z2b (Z.land (b2z b) 127) :: l)
  end.

Section Agreement.
Context {C : Config} {E : WolfCryptErr} {K : WolfCryptKeys} {R : WolfCryptRng}.
Context {O : StoreOps} {B : KeyBackend} {D : WolfCryptDh} {Op : Type}.

(** The key with its attributes, if it may be used. *)
Definition wolfpsa_asymmetric_check_key (key usage alg : Z)
: M (kstate O) (psa_status_t + psa_key_attributes_t * list byte) :=
'(status, attributes, key_data) ← wolfpsa_get_key_data key (Some PSA_KEY_ATTRIBUTES_INIT);
let attributes := default PSA_KEY_ATTRIBUTES_INIT attributes in
let key_data := default [] key_data in
mret match status with
     | PSA_SUCCESS =>
         if negb (Z.land (psa_get_key_usage_flags attributes) usage =? usage)
         then inl PSA_ERROR_NOT_PERMITTED
         else if negb (wolfpsa_asymmetric_alg_permitted
                         (psa_get_key_algorithm attributes) alg usage)
                 && negb (wolfpsa_asymmetric_alg_permitted
                            (psa_get_key_enrollment_algorithm attributes) alg usage)
         then inl PSA_ERROR_NOT_PERMITTED
         else inr (attributes, key_data)
     | e => inl e
     end.

(** * Montgomery curves *)

Definition psa_asymmetric_key_agreement_x25519 (private_key : list byte) (peer_key : input)
  (output_size : Z) : M (opstate O Op) (psa_status_t * list byte) :=
if is_null peer_key then mret (PSA_ERROR_INVALID_ARGUMENT, [])
else if negb (zlen private_key =? CURVE25519_KEYSIZE)
        || negb (input_length peer_key =? CURVE25519_KEYSIZE)
then mret (PSA_ERROR_INVALID_ARGUMENT, [])
else if output_size <? CURVE25519_KEYSIZE then mret (PSA_ERROR_BUFFER_TOO_SMALL, [])
else if negb (fits_word32 output_size) then mret (PSA_ERROR_INVALID_ARGUMENT, [])
else
  ret ← wc_call; (* init priv *)
  ret ← wc_then ret; (* init pub *)
  ret ← (if WOLFSSL_CURVE25519_BLINDING then ret ← wc_then ret; wc_then ret else mret ret);
  if negb (ret =? 0) then mret (wc_error_to_psa_status ret, [])
  else
    let peer := clear_top_bit (input_bytes peer_key) in
    ret ← wc_call; (* import private *)
    ret ← wc_then ret; (* import public *)
    ret ← wc_then ret; (* shared secret *)
    if negb (ret =? 0) then mret (wc_error_to_psa_status ret, [])
    else mret (PSA_SUCCESS, wc_curve25519_shared_secret_ex private_key peer).

Definition psa_asymmetric_key_agreement_x448 (private_key : list byte) (peer_key : input)
  (output_size : Z) : M (opstate O Op) (psa_status_t * list byte) :=
if is_null peer_key then mret (PSA_ERROR_INVALID_ARGUMENT, [])
else if negb (zlen private_key =? CURVE448_KEY_SIZE)
        || negb (input_length peer_key =? CURVE448_KEY_SIZE)
then mret (PSA_ERROR_INVALID_ARGUMENT, [])
else if output_size <? CURVE448_KEY_SIZE then mret (PSA_ERROR_BUFFER_TOO_SMALL, [])
else if negb (fits_word32 output_size) then mret (PSA_ERROR_INVALID_ARGUMENT, [])
else
  ret ← wc_call; (* init priv *)
  ret ← wc_then ret; (* init pub *)
  ret ← wc_then ret; (* import private *)
  ret ← wc_then ret; (* import public *)
  ret ← wc_then ret; (* shared secret *)
  if negb (ret =? 0) then mret (wc_error_to_psa_status ret, [])
  else mret (PSA_SUCCESS, wc_curve448_shared_secret_ex private_key (input_bytes peer_key)).

(** * The shared secret *)

(** The Weierstrass curves, once the key has been checked. *)
Definition ecdh_secret (attributes : psa_key_attributes_t) (key_data : list byte)
  (peer_key : input) (output_size : Z) : M (opstate O Op) (psa_status_t * list byte) :=
if negb HAVE_ECC || negb HAVE_ECC_DHE then mret (PSA_ERROR_NOT_SUPPORTED, [])
else
  let curve_id := wc_psa_get_ecc_curve_id (attr_type attributes) (attr_bits attributes) in
  let expected_secret_len :=
    PSA_RAW_KEY_AGREEMENT_OUTPUT_SIZE (attr_type attributes) (attr_bits attributes) in
  let expected_peer_len := 1 + 2 * PSA_BITS_TO_BYTES (attr_bits attributes) in
  if curve_id =? ECC_CURVE_INVALID then mret (PSA_ERROR_NOT_SUPPORTED, [])
  else if expected_secret_len =? 0 then mret (PSA_ERROR_NOT_SUPPORTED, [])
  else if output_size <? expected_secret_len then mret (PSA_ERROR_BUFFER_TOO_SMALL, [])
  else if is_null peer_key && (0 <? input_length peer_key)
  then mret (PSA_ERROR_INVALID_ARGUMENT, [])
  else if negb (input_length peer_key =? expected_peer_len)
          || negb (b2z (hd x00 (input_bytes peer_key)) =? 4)
  then mret (PSA_ERROR_INVALID_ARGUMENT, [])
  else
    ret ← wc_call; (* init priv *)
    ret ← wc_then ret; (* init pub *)
    ret ← (if ECC_BLINDING_RNG then wc_then ret else mret ret); (* wc_InitRng *)
    ret ← wc_then ret; (* import private *)
    ret ← (if ECC_BLINDING_RNG then wc_then ret else mret ret); (* set rng *)
    ret ← wc_then ret; (* make pub *)
    ret ← wc_then ret; (* import the peer's point *)
    ret ← wc_then ret; (* shared secret *)
    if negb (ret =? 0) then mret (wc_error_to_psa_status ret, [])
    else mret (PSA_SUCCESS, wc_ecc_shared_secret curve_id key_data (input_bytes peer_key)).

Definition wolfpsa_key_agreement_secret (alg private_key : Z) (peer_key : input)
  (output_size : Z) : M (opstate O Op) (psa_status_t * list byte) :=
if negb (PSA_ALG_KEY_AGREEMENT_GET_BASE alg =? PSA_ALG_ECDH)
then mret (PSA_ERROR_NOT_SUPPORTED, [])
else
  r ← lib (wolfpsa_asymmetric_check_key private_key PSA_KEY_USAGE_DERIVE alg);
  match r with
  | inl e => mret (e, [])
  | inr (attributes, key_data) =>
      if negb (PSA_KEY_TYPE_IS_ECC_KEY_PAIR (attr_type attributes))
      then mret (PSA_ERROR_INVALID_ARGUMENT, [])
      else if negb (fits_word32 (zlen key_data)) || negb (fits_word32 (input_length peer_key))
              || negb (fits_word32 output_size)
      then mret (PSA_ERROR_INVALID_ARGUMENT, [])
      else if PSA_KEY_TYPE_ECC_GET_FAMILY (attr_type attributes) =? PSA_ECC_FAMILY_MONTGOMERY
      then
        if attr_bits attributes =? 255
        then if HAVE_CURVE25519_SHARED_SECRET
             then psa_asymmetric_key_agreement_x25519 key_data peer_key output_size
             else mret (PSA_ERROR_NOT_SUPPORTED, [])
        else if attr_bits attributes =? 448
        then if HAVE_CURVE448_SHARED_SECRET
             then psa_asymmetric_key_agreement_x448 key_data peer_key output_size
             else mret (PSA_ERROR_NOT_SUPPORTED, [])
        else mret (PSA_ERROR_NOT_SUPPORTED, [])
      else ecdh_secret attributes key_data peer_key output_size
  end.

(** [output] says whether the pointer is not NULL; so does [output_length]. *)
Definition psa_raw_key_agreement (alg private_key : Z) (peer_key : input) (output : bool)
  (output_size : Z) (output_length : bool) : M (opstate O Op) (psa_status_t * list byte) :=
if negb output_length || (negb output && negb (output_size =? 0))
then mret (PSA_ERROR_INVALID_ARGUMENT, [])
else if negb (PSA_ALG_IS_RAW_KEY_AGREEMENT alg) then mret (PSA_ERROR_INVALID_ARGUMENT, [])
else wolfpsa_key_agreement_secret alg private_key peer_key output_size.
End Agreement.
