(* ===== verification/Kdf.v ===== *)
(** Key derivation: the operation of [src/psa_key_derivation.c].

    [wolfpsa_kdf_ctx] is the context of the code, a buffer with its length being
    one list (NULL is the empty one) and [sp800_108_L_bytes] being [kdf_L_bytes].
    [wolfpsa_kdf_validate_step] and [wolfpsa_kdf_output_bytes] are cut at their
    [if] cascades; the backends take the context and give the status with what
    they wrote to the buffer. *)

From stdpp Require Import base decidable list.
From Stdlib Require Import ZArith Lia.
From Stdlib Require Import Strings.Byte.
From S2P Require Import Prelude.
From S2P Require Import Values.
From S2P Require Import Engine.
From S2P Require Import WolfCrypt.
From S2P Require Import KeyFormat.
From S2P Require Import StoreIface.
From S2P Require Import Library.
From S2P Require Import KeyStore.
From S2P Require Import Operation.
From S2P Require Import KeyAgreement.

#[local] Open Scope Z_scope.

(** * State *)

Record wolfpsa_kdf_ctx : Type := mkKdf {
  kdf_alg : Z;
  kdf_ka_alg : Z;
  kdf_capacity : Z;
  kdf_output_offset : Z;
  kdf_steps_set : Z;
  kdf_secret : list byte;
  kdf_other_secret : list byte;
  kdf_salt : list byte;
  kdf_info : list byte;
  kdf_label : list byte;
  kdf_context : list byte;
  kdf_seed : list byte;
  kdf_password : list byte;
  kdf_cost : Z;
  kdf_L_bytes : Z;
  kdf_is_key_agreement : bool;
  kdf_is_raw_kdf : bool;
  kdf_output_started : bool;
  kdf_can_output_key : bool;
  kdf_error_state : bool;
  kdf_output_cache : option (list byte) }.

Definition with_capacity (v : Z) (c : wolfpsa_kdf_ctx) : wolfpsa_kdf_ctx :=
  mkKdf (kdf_alg c) (kdf_ka_alg c) v (kdf_output_offset c) (kdf_steps_set c) (kdf_secret c)
    (kdf_other_secret c) (kdf_salt c) (kdf_info c) (kdf_label c) (kdf_context c)
    (kdf_seed c) (kdf_password c) (kdf_cost c) (kdf_L_bytes c) (kdf_is_key_agreement c)
    (kdf_is_raw_kdf c) (kdf_output_started c) (kdf_can_output_key c) (kdf_error_state c)
    (kdf_output_cache c).
Definition with_output_offset (v : Z) (c : wolfpsa_kdf_ctx) : wolfpsa_kdf_ctx :=
  mkKdf (kdf_alg c) (kdf_ka_alg c) (kdf_capacity c) v (kdf_steps_set c) (kdf_secret c)
    (kdf_other_secret c) (kdf_salt c) (kdf_info c) (kdf_label c) (kdf_context c)
    (kdf_seed c) (kdf_password c) (kdf_cost c) (kdf_L_bytes c) (kdf_is_key_agreement c)
    (kdf_is_raw_kdf c) (kdf_output_started c) (kdf_can_output_key c) (kdf_error_state c)
    (kdf_output_cache c).
Definition with_steps_set (v : Z) (c : wolfpsa_kdf_ctx) : wolfpsa_kdf_ctx :=
  mkKdf (kdf_alg c) (kdf_ka_alg c) (kdf_capacity c) (kdf_output_offset c) v (kdf_secret c)
    (kdf_other_secret c) (kdf_salt c) (kdf_info c) (kdf_label c) (kdf_context c)
    (kdf_seed c) (kdf_password c) (kdf_cost c) (kdf_L_bytes c) (kdf_is_key_agreement c)
    (kdf_is_raw_kdf c) (kdf_output_started c) (kdf_can_output_key c) (kdf_error_state c)
    (kdf_output_cache c).
Definition with_secret (v : list byte) (c : wolfpsa_kdf_ctx) : wolfpsa_kdf_ctx :=
  mkKdf (kdf_alg c) (kdf_ka_alg c) (kdf_capacity c) (kdf_output_offset c) (kdf_steps_set c)
    v (kdf_other_secret c) (kdf_salt c) (kdf_info c) (kdf_label c) (kdf_context c)
    (kdf_seed c) (kdf_password c) (kdf_cost c) (kdf_L_bytes c) (kdf_is_key_agreement c)
    (kdf_is_raw_kdf c) (kdf_output_started c) (kdf_can_output_key c) (kdf_error_state c)
    (kdf_output_cache c).
Definition with_other_secret (v : list byte) (c : wolfpsa_kdf_ctx) : wolfpsa_kdf_ctx :=
  mkKdf (kdf_alg c) (kdf_ka_alg c) (kdf_capacity c) (kdf_output_offset c) (kdf_steps_set c)
    (kdf_secret c) v (kdf_salt c) (kdf_info c) (kdf_label c) (kdf_context c) (kdf_seed c)
    (kdf_password c) (kdf_cost c) (kdf_L_bytes c) (kdf_is_key_agreement c)
    (kdf_is_raw_kdf c) (kdf_output_started c) (kdf_can_output_key c) (kdf_error_state c)
    (kdf_output_cache c).
Definition with_salt (v : list byte) (c : wolfpsa_kdf_ctx) : wolfpsa_kdf_ctx :=
  mkKdf (kdf_alg c) (kdf_ka_alg c) (kdf_capacity c) (kdf_output_offset c) (kdf_steps_set c)
    (kdf_secret c) (kdf_other_secret c) v (kdf_info c) (kdf_label c) (kdf_context c)
    (kdf_seed c) (kdf_password c) (kdf_cost c) (kdf_L_bytes c) (kdf_is_key_agreement c)
    (kdf_is_raw_kdf c) (kdf_output_started c) (kdf_can_output_key c) (kdf_error_state c)
    (kdf_output_cache c).
Definition with_info (v : list byte) (c : wolfpsa_kdf_ctx) : wolfpsa_kdf_ctx :=
  mkKdf (kdf_alg c) (kdf_ka_alg c) (kdf_capacity c) (kdf_output_offset c) (kdf_steps_set c)
    (kdf_secret c) (kdf_other_secret c) (kdf_salt c) v (kdf_label c) (kdf_context c)
    (kdf_seed c) (kdf_password c) (kdf_cost c) (kdf_L_bytes c) (kdf_is_key_agreement c)
    (kdf_is_raw_kdf c) (kdf_output_started c) (kdf_can_output_key c) (kdf_error_state c)
    (kdf_output_cache c).
Definition with_label (v : list byte) (c : wolfpsa_kdf_ctx) : wolfpsa_kdf_ctx :=
  mkKdf (kdf_alg c) (kdf_ka_alg c) (kdf_capacity c) (kdf_output_offset c) (kdf_steps_set c)
    (kdf_secret c) (kdf_other_secret c) (kdf_salt c) (kdf_info c) v (kdf_context c)
    (kdf_seed c) (kdf_password c) (kdf_cost c) (kdf_L_bytes c) (kdf_is_key_agreement c)
    (kdf_is_raw_kdf c) (kdf_output_started c) (kdf_can_output_key c) (kdf_error_state c)
    (kdf_output_cache c).
Definition with_context (v : list byte) (c : wolfpsa_kdf_ctx) : wolfpsa_kdf_ctx :=
  mkKdf (kdf_alg c) (kdf_ka_alg c) (kdf_capacity c) (kdf_output_offset c) (kdf_steps_set c)
    (kdf_secret c) (kdf_other_secret c) (kdf_salt c) (kdf_info c) (kdf_label c) v
    (kdf_seed c) (kdf_password c) (kdf_cost c) (kdf_L_bytes c) (kdf_is_key_agreement c)
    (kdf_is_raw_kdf c) (kdf_output_started c) (kdf_can_output_key c) (kdf_error_state c)
    (kdf_output_cache c).
Definition with_seed (v : list byte) (c : wolfpsa_kdf_ctx) : wolfpsa_kdf_ctx :=
  mkKdf (kdf_alg c) (kdf_ka_alg c) (kdf_capacity c) (kdf_output_offset c) (kdf_steps_set c)
    (kdf_secret c) (kdf_other_secret c) (kdf_salt c) (kdf_info c) (kdf_label c)
    (kdf_context c) v (kdf_password c) (kdf_cost c) (kdf_L_bytes c) (kdf_is_key_agreement c)
    (kdf_is_raw_kdf c) (kdf_output_started c) (kdf_can_output_key c) (kdf_error_state c)
    (kdf_output_cache c).
Definition with_password (v : list byte) (c : wolfpsa_kdf_ctx) : wolfpsa_kdf_ctx :=
  mkKdf (kdf_alg c) (kdf_ka_alg c) (kdf_capacity c) (kdf_output_offset c) (kdf_steps_set c)
    (kdf_secret c) (kdf_other_secret c) (kdf_salt c) (kdf_info c) (kdf_label c)
    (kdf_context c) (kdf_seed c) v (kdf_cost c) (kdf_L_bytes c) (kdf_is_key_agreement c)
    (kdf_is_raw_kdf c) (kdf_output_started c) (kdf_can_output_key c) (kdf_error_state c)
    (kdf_output_cache c).
Definition with_cost (v : Z) (c : wolfpsa_kdf_ctx) : wolfpsa_kdf_ctx :=
  mkKdf (kdf_alg c) (kdf_ka_alg c) (kdf_capacity c) (kdf_output_offset c) (kdf_steps_set c)
    (kdf_secret c) (kdf_other_secret c) (kdf_salt c) (kdf_info c) (kdf_label c)
    (kdf_context c) (kdf_seed c) (kdf_password c) v (kdf_L_bytes c) (kdf_is_key_agreement c)
    (kdf_is_raw_kdf c) (kdf_output_started c) (kdf_can_output_key c) (kdf_error_state c)
    (kdf_output_cache c).
Definition with_L_bytes (v : Z) (c : wolfpsa_kdf_ctx) : wolfpsa_kdf_ctx :=
  mkKdf (kdf_alg c) (kdf_ka_alg c) (kdf_capacity c) (kdf_output_offset c) (kdf_steps_set c)
    (kdf_secret c) (kdf_other_secret c) (kdf_salt c) (kdf_info c) (kdf_label c)
    (kdf_context c) (kdf_seed c) (kdf_password c) (kdf_cost c) v (kdf_is_key_agreement c)
    (kdf_is_raw_kdf c) (kdf_output_started c) (kdf_can_output_key c) (kdf_error_state c)
    (kdf_output_cache c).
Definition with_output_started (v : bool) (c : wolfpsa_kdf_ctx) : wolfpsa_kdf_ctx :=
  mkKdf (kdf_alg c) (kdf_ka_alg c) (kdf_capacity c) (kdf_output_offset c) (kdf_steps_set c)
    (kdf_secret c) (kdf_other_secret c) (kdf_salt c) (kdf_info c) (kdf_label c)
    (kdf_context c) (kdf_seed c) (kdf_password c) (kdf_cost c) (kdf_L_bytes c)
    (kdf_is_key_agreement c) (kdf_is_raw_kdf c) v (kdf_can_output_key c) (kdf_error_state c)
    (kdf_output_cache c).
Definition with_can_output_key (v : bool) (c : wolfpsa_kdf_ctx) : wolfpsa_kdf_ctx :=
  mkKdf (kdf_alg c) (kdf_ka_alg c) (kdf_capacity c) (kdf_output_offset c) (kdf_steps_set c)
    (kdf_secret c) (kdf_other_secret c) (kdf_salt c) (kdf_info c) (kdf_label c)
    (kdf_context c) (kdf_seed c) (kdf_password c) (kdf_cost c) (kdf_L_bytes c)
    (kdf_is_key_agreement c) (kdf_is_raw_kdf c) (kdf_output_started c) v (kdf_error_state c)
    (kdf_output_cache c).
Definition with_error_state (v : bool) (c : wolfpsa_kdf_ctx) : wolfpsa_kdf_ctx :=
  mkKdf (kdf_alg c) (kdf_ka_alg c) (kdf_capacity c) (kdf_output_offset c) (kdf_steps_set c)
    (kdf_secret c) (kdf_other_secret c) (kdf_salt c) (kdf_info c) (kdf_label c)
    (kdf_context c) (kdf_seed c) (kdf_password c) (kdf_cost c) (kdf_L_bytes c)
    (kdf_is_key_agreement c) (kdf_is_raw_kdf c) (kdf_output_started c)
    (kdf_can_output_key c) v (kdf_output_cache c).
Definition with_output_cache (v : option (list byte)) (c : wolfpsa_kdf_ctx) : wolfpsa_kdf_ctx :=
  mkKdf (kdf_alg c) (kdf_ka_alg c) (kdf_capacity c) (kdf_output_offset c) (kdf_steps_set c)
    (kdf_secret c) (kdf_other_secret c) (kdf_salt c) (kdf_info c) (kdf_label c)
    (kdf_context c) (kdf_seed c) (kdf_password c) (kdf_cost c) (kdf_L_bytes c)
    (kdf_is_key_agreement c) (kdf_is_raw_kdf c) (kdf_output_started c)
    (kdf_can_output_key c) (kdf_error_state c) v.

Definition WOLFPSA_KDF_STEP_SECRET : Z := Z.shiftl 1 0.
Definition WOLFPSA_KDF_STEP_OTHER_SECRET : Z := Z.shiftl 1 1.
Definition WOLFPSA_KDF_STEP_SALT : Z := Z.shiftl 1 2.
Definition WOLFPSA_KDF_STEP_INFO : Z := Z.shiftl 1 3.
Definition WOLFPSA_KDF_STEP_LABEL : Z := Z.shiftl 1 4.
Definition WOLFPSA_KDF_STEP_SEED : Z := Z.shiftl 1 5.
Definition WOLFPSA_KDF_STEP_PASSWORD : Z := Z.shiftl 1 6.
Definition WOLFPSA_KDF_STEP_COST : Z := Z.shiftl 1 7.
Definition WOLFPSA_KDF_STEP_CONTEXT : Z := Z.shiftl 1 8.

Definition wolfpsa_kdf_key_inputs : list (Z * Z) :=
  [ (PSA_KEY_DERIVATION_INPUT_SECRET, PSA_KEY_TYPE_DERIVE);
    (PSA_KEY_DERIVATION_INPUT_OTHER_SECRET, PSA_KEY_TYPE_DERIVE);
    (PSA_KEY_DERIVATION_INPUT_PASSWORD, PSA_KEY_TYPE_PASSWORD);
    (PSA_KEY_DERIVATION_INPUT_PASSWORD, PSA_KEY_TYPE_DERIVE);
    (PSA_KEY_DERIVATION_INPUT_SALT, PSA_KEY_TYPE_RAW_DATA);
    (PSA_KEY_DERIVATION_INPUT_INFO, PSA_KEY_TYPE_RAW_DATA);
    (PSA_KEY_DERIVATION_INPUT_LABEL, PSA_KEY_TYPE_RAW_DATA);
    (PSA_KEY_DERIVATION_INPUT_CONTEXT, PSA_KEY_TYPE_RAW_DATA);
    (PSA_KEY_DERIVATION_INPUT_SEED, PSA_KEY_TYPE_RAW_DATA) ].

Definition WOLFPSA_KDF_MAX_CACHE_BYTES : Z := 64 * 1024.

(** [(steps_set & mask) != 0] *)
Definition has_step (c : wolfpsa_kdf_ctx) (mask : Z) : bool :=
  negb (Z.land (kdf_steps_set c) mask =? 0).

Definition wolfpsa_hash_type_from_alg (alg : Z) : wc_HashType :=
  let hash_alg :=
    if PSA_ALG_IS_ANY_HKDF alg then PSA_ALG_HKDF_GET_HASH alg
    else if PSA_ALG_IS_TLS12_PRF alg then PSA_ALG_TLS12_PRF_GET_HASH alg
    else if PSA_ALG_IS_TLS12_PSK_TO_MS alg then PSA_ALG_TLS12_PSK_TO_MS_GET_HASH alg
    else if PSA_ALG_IS_PBKDF2_HMAC alg then PSA_ALG_PBKDF2_HMAC_GET_HASH alg
    else if PSA_ALG_IS_SP800_108_COUNTER_HMAC alg then PSA_ALG_GET_HASH alg
    else 0 in
  if hash_alg =? PSA_ALG_SHA_1 then WC_HASH_TYPE_SHA
  else if hash_alg =? PSA_ALG_SHA_224 then WC_HASH_TYPE_SHA224
  else if hash_alg =? PSA_ALG_SHA_256 then WC_HASH_TYPE_SHA256
  else if hash_alg =? PSA_ALG_SHA_384 then WC_HASH_TYPE_SHA384
  else if hash_alg =? PSA_ALG_SHA_512 then WC_HASH_TYPE_SHA512
  else if hash_alg =? PSA_ALG_SHA_512_224 then WC_HASH_TYPE_SHA512_224
  else if hash_alg =? PSA_ALG_SHA_512_256 then WC_HASH_TYPE_SHA512_256
  else WC_HASH_TYPE_NONE.

Definition wolfpsa_prf_mac_from_alg (alg : Z) : mac_algorithm :=
  match wolfpsa_hash_type_from_alg alg with
  | WC_HASH_TYPE_SHA256 => sha256_mac
  | WC_HASH_TYPE_SHA384 => sha384_mac
  | WC_HASH_TYPE_SHA512 => sha512_mac
  | _ => no_mac
  end.

Definition wolfpsa_kdf_require_output (c : wolfpsa_kdf_ctx) (output_length : Z)
  : psa_status_t * wolfpsa_kdf_ctx :=
  if kdf_capacity c =? PSA_KEY_DERIVATION_UNLIMITED_CAPACITY then (PSA_SUCCESS, c)
  else if kdf_capacity c <? output_length
  then (PSA_ERROR_INSUFFICIENT_DATA, with_capacity 0 c)
  else (PSA_SUCCESS, with_capacity (kdf_capacity c - output_length) c).

Definition wolfpsa_kdf_step_mask (step : Z) : Z :=
  if step =? PSA_KEY_DERIVATION_INPUT_SECRET then WOLFPSA_KDF_STEP_SECRET
  else if step =? PSA_KEY_DERIVATION_INPUT_OTHER_SECRET then WOLFPSA_KDF_STEP_OTHER_SECRET
  else if step =? PSA_KEY_DERIVATION_INPUT_SALT then WOLFPSA_KDF_STEP_SALT
  else if step =? PSA_KEY_DERIVATION_INPUT_INFO then WOLFPSA_KDF_STEP_INFO
  else if step =? PSA_KEY_DERIVATION_INPUT_LABEL then WOLFPSA_KDF_STEP_LABEL
  else if step =? PSA_KEY_DERIVATION_INPUT_SEED then WOLFPSA_KDF_STEP_SEED
  else if step =? PSA_KEY_DERIVATION_INPUT_PASSWORD then WOLFPSA_KDF_STEP_PASSWORD
  else if step =? PSA_KEY_DERIVATION_INPUT_COST then WOLFPSA_KDF_STEP_COST
  else if step =? PSA_KEY_DERIVATION_INPUT_CONTEXT then WOLFPSA_KDF_STEP_CONTEXT
  else 0.

(** * Validation of a step *)

Section Steps.
Context {C : Config} {WD : WolfCryptDigest}.

Definition validate_hkdf_step (c : wolfpsa_kdf_ctx) (step data_length : Z) : psa_status_t :=
let hash_len := wc_HashGetDigestSize (wolfpsa_hash_type_from_alg (kdf_alg c)) in
if (step =? PSA_KEY_DERIVATION_INPUT_OTHER_SECRET) || (step =? PSA_KEY_DERIVATION_INPUT_LABEL)
   || (step =? PSA_KEY_DERIVATION_INPUT_SEED) || (step =? PSA_KEY_DERIVATION_INPUT_PASSWORD)
   || (step =? PSA_KEY_DERIVATION_INPUT_COST)
then PSA_ERROR_INVALID_ARGUMENT
else if PSA_ALG_IS_HKDF_EXTRACT (kdf_alg c) && (step =? PSA_KEY_DERIVATION_INPUT_INFO)
then PSA_ERROR_INVALID_ARGUMENT
else if PSA_ALG_IS_HKDF_EXTRACT (kdf_alg c) && (step =? PSA_KEY_DERIVATION_INPUT_SALT)
then if has_step c WOLFPSA_KDF_STEP_SECRET then PSA_ERROR_BAD_STATE else PSA_SUCCESS
else if PSA_ALG_IS_HKDF_EXTRACT (kdf_alg c) && (step =? PSA_KEY_DERIVATION_INPUT_SECRET)
then if negb (has_step c WOLFPSA_KDF_STEP_SALT) then PSA_ERROR_BAD_STATE else PSA_SUCCESS
else if PSA_ALG_IS_HKDF_EXPAND (kdf_alg c) then
  if step =? PSA_KEY_DERIVATION_INPUT_SALT then PSA_ERROR_INVALID_ARGUMENT
  else if step =? PSA_KEY_DERIVATION_INPUT_SECRET then
    if negb (kdf_steps_set c =? 0) then PSA_ERROR_BAD_STATE
    else if (hash_len <=? 0) || negb (data_length =? hash_len)
    then PSA_ERROR_INVALID_ARGUMENT else PSA_SUCCESS
  else if step =? PSA_KEY_DERIVATION_INPUT_INFO then
    if negb (has_step c WOLFPSA_KDF_STEP_SECRET) then PSA_ERROR_BAD_STATE else PSA_SUCCESS
  else PSA_ERROR_INVALID_ARGUMENT
else if PSA_ALG_IS_HKDF (kdf_alg c) && (step =? PSA_KEY_DERIVATION_INPUT_SALT)
then if has_step c WOLFPSA_KDF_STEP_SECRET then PSA_ERROR_BAD_STATE else PSA_SUCCESS
else if PSA_ALG_IS_HKDF (kdf_alg c) &&
        ((step =? PSA_KEY_DERIVATION_INPUT_SECRET) || (step =? PSA_KEY_DERIVATION_INPUT_INFO))
then PSA_SUCCESS
else PSA_ERROR_INVALID_ARGUMENT.

Definition validate_psk_to_ms_step (c : wolfpsa_kdf_ctx) (step data_length : Z) : psa_status_t :=
if negb (step =? PSA_KEY_DERIVATION_INPUT_SECRET)
   && negb (step =? PSA_KEY_DERIVATION_INPUT_OTHER_SECRET)
   && negb (step =? PSA_KEY_DERIVATION_INPUT_SEED)
then PSA_ERROR_INVALID_ARGUMENT
else if step =? PSA_KEY_DERIVATION_INPUT_SECRET then
  if negb (has_step c WOLFPSA_KDF_STEP_SEED) then PSA_ERROR_BAD_STATE
  else if PSA_TLS12_PSK_TO_MS_PSK_MAX_SIZE <? data_length then PSA_ERROR_INVALID_ARGUMENT
  else PSA_SUCCESS
else if step =? PSA_KEY_DERIVATION_INPUT_OTHER_SECRET then
  if negb (has_step c WOLFPSA_KDF_STEP_SEED) then PSA_ERROR_BAD_STATE
  else if UINT16_MAX <? data_length then PSA_ERROR_INVALID_ARGUMENT
  else PSA_SUCCESS
else PSA_SUCCESS.

Definition wolfpsa_kdf_validate_step (c : wolfpsa_kdf_ctx) (step data_length : Z)
: psa_status_t :=
let multipart_step := PSA_ALG_IS_PBKDF2 (kdf_alg c) && (step =? PSA_KEY_DERIVATION_INPUT_SALT) in
if kdf_output_started c then PSA_ERROR_BAD_STATE
else if step =? 0 then PSA_ERROR_INVALID_ARGUMENT
else if negb multipart_step && has_step c (wolfpsa_kdf_step_mask step)
then PSA_ERROR_BAD_STATE
else if kdf_is_raw_kdf c then
  if negb (step =? PSA_KEY_DERIVATION_INPUT_SECRET) then PSA_ERROR_INVALID_ARGUMENT
  else PSA_SUCCESS
else if PSA_ALG_IS_ANY_HKDF (kdf_alg c) then validate_hkdf_step c step data_length
else if PSA_ALG_IS_TLS12_PRF (kdf_alg c) then
  if negb (step =? PSA_KEY_DERIVATION_INPUT_SECRET)
     && negb (step =? PSA_KEY_DERIVATION_INPUT_LABEL)
     && negb (step =? PSA_KEY_DERIVATION_INPUT_SEED)
  then PSA_ERROR_INVALID_ARGUMENT else PSA_SUCCESS
else if PSA_ALG_IS_TLS12_PSK_TO_MS (kdf_alg c) then validate_psk_to_ms_step c step data_length
else if PSA_ALG_IS_PBKDF2 (kdf_alg c) then
  if negb (step =? PSA_KEY_DERIVATION_INPUT_PASSWORD)
     && negb (step =? PSA_KEY_DERIVATION_INPUT_SALT)
  then PSA_ERROR_INVALID_ARGUMENT else PSA_SUCCESS
else if PSA_ALG_IS_SP800_108_COUNTER_HMAC (kdf_alg c)
        || (kdf_alg c =? PSA_ALG_SP800_108_COUNTER_CMAC) then
  if negb (step =? PSA_KEY_DERIVATION_INPUT_SECRET)
     && negb (step =? PSA_KEY_DERIVATION_INPUT_LABEL)
     && negb (step =? PSA_KEY_DERIVATION_INPUT_CONTEXT)
  then PSA_ERROR_INVALID_ARGUMENT else PSA_SUCCESS
else PSA_ERROR_NOT_SUPPORTED.
End Steps.

Definition wolfpsa_kdf_key_type_ok (alg step type : Z) : bool :=
  ((step =? PSA_KEY_DERIVATION_INPUT_SECRET) &&
   (((type =? PSA_KEY_TYPE_HMAC) && PSA_ALG_IS_SP800_108_COUNTER_HMAC alg) ||
    ((type =? PSA_KEY_TYPE_AES) && (alg =? PSA_ALG_SP800_108_COUNTER_CMAC)))) ||
  existsb (fun i => (i.1 =? step) && (i.2 =? type)) wolfpsa_kdf_key_inputs.

Definition wolfpsa_kdf_key_alg_permitted (c : wolfpsa_kdf_ctx) (key_alg : Z) : bool :=
  if key_alg =? PSA_ALG_NONE then false
  else if kdf_is_key_agreement c
  then PSA_ALG_IS_KEY_AGREEMENT key_alg &&
       (PSA_ALG_KEY_AGREEMENT_GET_KDF key_alg =? kdf_alg c)
  else key_alg =? kdf_alg c.

(** * The operation *)

Section Operations.
Context {C : Config} {E : WolfCryptErr} {K : WolfCryptKeys} {R : WolfCryptRng}.
Context {O : StoreOps} {B : KeyBackend} {DH : WolfCryptDh} {WM : WolfCryptMisc}.
Context {WD : WolfCryptDigest} {WK : WolfCryptKdf} {WH : WolfCryptHmac} {WC : WolfCryptCmac}.

Notation KM := (M (opstate O wolfpsa_kdf_ctx)).

(** ** Error state *)

Definition wolfpsa_kdf_check_state (c : option wolfpsa_kdf_ctx) : psa_status_t :=
match c with
| None => PSA_ERROR_BAD_STATE
| Some c => if kdf_error_state c then PSA_ERROR_BAD_STATE else PSA_SUCCESS
end.

Definition wolfpsa_kdf_done (status : psa_status_t) : KM psa_status_t :=
match status with
| PSA_SUCCESS | PSA_ERROR_INVALID_SIGNATURE | PSA_ERROR_INVALID_HANDLE => mret status
| _ => modify_ctx (with_error_state true);; mret status
end.

(** [status = check_state(ctx); if (status != SUCCESS) return status;] and
  [wolfpsa_kdf_done] around a worker. *)
Definition guarded {A} (fail : psa_status_t -> A) (worker : wolfpsa_kdf_ctx -> KM (psa_status_t * A))
: KM (psa_status_t * A) :=
c ← get_ctx;
match wolfpsa_kdf_check_state c, c with
| PSA_SUCCESS, Some c =>
    '(status, a) ← worker c;
    status ← wolfpsa_kdf_done status;
    mret (status, a)
| e, _ => mret (e, fail e)
end.

Definition guarded_status (worker : wolfpsa_kdf_ctx -> KM psa_status_t) : KM psa_status_t :=
r ← guarded (fun _ => tt) (fun c => st ← worker c; mret (st, tt));
mret r.1.

(** ** Setup, abort, capacity *)

Definition sizeof_kdf_ctx : Z := 240.

(** The checks of setup: the derivation algorithm, or the status. *)
Definition kdf_setup_alg (alg : Z) : psa_status_t + Z :=
if negb (PSA_ALG_IS_KEY_DERIVATION_OR_AGREEMENT alg) then inl PSA_ERROR_INVALID_ARGUMENT
else if PSA_ALG_IS_KEY_AGREEMENT alg && negb (PSA_ALG_KEY_AGREEMENT_GET_BASE alg =? PSA_ALG_ECDH)
then inl PSA_ERROR_NOT_SUPPORTED
else
  let kdf_alg := if PSA_ALG_IS_KEY_AGREEMENT alg then PSA_ALG_KEY_AGREEMENT_GET_KDF alg
                 else alg in
  if negb (PSA_ALG_IS_ANY_HKDF kdf_alg || PSA_ALG_IS_TLS12_PRF kdf_alg
           || PSA_ALG_IS_TLS12_PSK_TO_MS kdf_alg || PSA_ALG_IS_PBKDF2 kdf_alg
           || PSA_ALG_IS_SP800_108_COUNTER_HMAC kdf_alg
           || (kdf_alg =? PSA_ALG_SP800_108_COUNTER_CMAC)
           || (kdf_alg =? PSA_ALG_CATEGORY_KEY_DERIVATION))
  then inl PSA_ERROR_NOT_SUPPORTED
  else if (negb HAVE_HKDF || NO_HMAC) && PSA_ALG_IS_ANY_HKDF kdf_alg
  then inl PSA_ERROR_NOT_SUPPORTED
  else if (negb WOLFSSL_HAVE_PRF || NO_HMAC)
          && (PSA_ALG_IS_TLS12_PRF kdf_alg || PSA_ALG_IS_TLS12_PSK_TO_MS kdf_alg)
  then inl PSA_ERROR_NOT_SUPPORTED
  else if (negb HAVE_PBKDF2 || NO_HMAC) && PSA_ALG_IS_PBKDF2_HMAC kdf_alg
  then inl PSA_ERROR_NOT_SUPPORTED
  else if NO_HMAC && PSA_ALG_IS_SP800_108_COUNTER_HMAC kdf_alg
  then inl PSA_ERROR_NOT_SUPPORTED
  else if negb WOLFSSL_CMAC_AES
          && ((kdf_alg =? PSA_ALG_SP800_108_COUNTER_CMAC)
              || (kdf_alg =? PSA_ALG_PBKDF2_AES_CMAC_PRF_128))
  then inl PSA_ERROR_NOT_SUPPORTED
  else if (PSA_ALG_IS_ANY_HKDF kdf_alg || PSA_ALG_IS_TLS12_PRF kdf_alg
           || PSA_ALG_IS_TLS12_PSK_TO_MS kdf_alg || PSA_ALG_IS_PBKDF2_HMAC kdf_alg
           || PSA_ALG_IS_SP800_108_COUNTER_HMAC kdf_alg)
          && bool_decide (wolfpsa_hash_type_from_alg kdf_alg = WC_HASH_TYPE_NONE)
  then inl PSA_ERROR_NOT_SUPPORTED
  else inr kdf_alg.

(** The capacity setup gives; [None] for an HKDF hash of no size. *)
Definition kdf_default_capacity (kdf_alg : Z) : option Z :=
let hash_len := wc_HashGetDigestSize (wolfpsa_hash_type_from_alg kdf_alg) in
if PSA_ALG_IS_ANY_HKDF kdf_alg && (hash_len <=? 0) then None
else if PSA_ALG_IS_SP800_108_COUNTER_HMAC kdf_alg || (kdf_alg =? PSA_ALG_SP800_108_COUNTER_CMAC)
then Some 0x1fffffff
else if PSA_ALG_IS_ANY_HKDF kdf_alg
then Some (if PSA_ALG_IS_HKDF_EXTRACT kdf_alg then hash_len else 255 * hash_len)
else Some PSA_KEY_DERIVATION_UNLIMITED_CAPACITY.

Definition kdf_initial (alg kdf_alg capacity : Z) : wolfpsa_kdf_ctx :=
let ka := PSA_ALG_IS_KEY_AGREEMENT alg in
mkKdf kdf_alg (if ka then PSA_ALG_KEY_AGREEMENT_GET_BASE alg else 0) capacity 0 0
  [] [] [] [] [] [] [] [] 0 0
  ka (ka && (kdf_alg =? PSA_ALG_CATEGORY_KEY_DERIVATION)) false false false None.

Definition psa_key_derivation_setup (alg : Z) : KM psa_status_t :=
c ← get_ctx;
match c with
| Some _ => mret PSA_ERROR_BAD_STATE
| None =>
    match kdf_setup_alg alg with
    | inl e => mret e
    | inr kdf_alg =>
        ok ← lib (XMALLOC sizeof_kdf_ctx);
        if negb ok then mret PSA_ERROR_INSUFFICIENT_MEMORY
        else
          match kdf_default_capacity kdf_alg with
          | None => mret PSA_ERROR_NOT_SUPPORTED
          | Some capacity => set_ctx (Some (kdf_initial alg kdf_alg capacity));; mret PSA_SUCCESS
          end
    end
end.

Definition psa_key_derivation_abort : KM psa_status_t :=
set_ctx None;; mret PSA_SUCCESS.

Definition wolfpsa_kdf_set_capacity (c : wolfpsa_kdf_ctx) (capacity : Z) : KM psa_status_t :=
let hash_len := wc_HashGetDigestSize (wolfpsa_hash_type_from_alg (kdf_alg c)) in
if PSA_ALG_IS_ANY_HKDF (kdf_alg c) && (hash_len <=? 0) then mret PSA_ERROR_NOT_SUPPORTED
else if PSA_ALG_IS_ANY_HKDF (kdf_alg c)
        && ((if PSA_ALG_IS_HKDF_EXTRACT (kdf_alg c) then hash_len else 255 * hash_len) <? capacity)
then mret PSA_ERROR_INVALID_ARGUMENT
else if kdf_capacity c <? capacity then mret PSA_ERROR_INVALID_ARGUMENT
else modify_ctx (with_capacity capacity);; mret PSA_SUCCESS.

Definition psa_key_derivation_set_capacity (capacity : Z) : KM psa_status_t :=
c ← get_ctx;
match wolfpsa_kdf_check_state c, c with
| PSA_SUCCESS, Some c =>
    status ← wolfpsa_kdf_set_capacity c capacity;
    match status with
    | PSA_ERROR_INVALID_ARGUMENT => mret status
    | _ => wolfpsa_kdf_done status
    end
| e, _ => mret e
end.

Definition psa_key_derivation_get_capacity : KM (psa_status_t * Z) :=
c ← get_ctx;
mret match c with
     | None => (PSA_ERROR_BAD_STATE, 0)
     | Some c => (PSA_SUCCESS, kdf_capacity c)
     end.

(** ** Inputs *)

(** [wolfpsa_kdf_append]: the buffer after the call. *)
Definition wolfpsa_kdf_append (buf : list byte) (data : input)
: KM (psa_status_t + list byte) :=
if is_null data && (0 <? input_length data) then mret (inl PSA_ERROR_INVALID_ARGUMENT)
else if input_length data =? 0 then mret (inr buf)
else if SIZE_MAX - input_length data <? zlen buf then mret (inl PSA_ERROR_INSUFFICIENT_MEMORY)
else
  ok ← lib (XMALLOC (zlen buf + input_length data));
  if negb ok then mret (inl PSA_ERROR_INSUFFICIENT_MEMORY)
  else mret (inr (buf ++ input_bytes data)).

(** The buffer of a step, and its update: the [switch] of [input_bytes]. *)
Definition step_buffer (step : Z)
: option ((wolfpsa_kdf_ctx -> list byte) * (list byte -> wolfpsa_kdf_ctx -> wolfpsa_kdf_ctx)) :=
if step =? PSA_KEY_DERIVATION_INPUT_SECRET then Some (kdf_secret, with_secret)
else if step =? PSA_KEY_DERIVATION_INPUT_OTHER_SECRET
then Some (kdf_other_secret, with_other_secret)
else if step =? PSA_KEY_DERIVATION_INPUT_SALT then Some (kdf_salt, with_salt)
else if step =? PSA_KEY_DERIVATION_INPUT_INFO then Some (kdf_info, with_info)
else if step =? PSA_KEY_DERIVATION_INPUT_LABEL then Some (kdf_label, with_label)
else if step =? PSA_KEY_DERIVATION_INPUT_CONTEXT then Some (kdf_context, with_context)
else if step =? PSA_KEY_DERIVATION_INPUT_SEED then Some (kdf_seed, with_seed)
else if step =? PSA_KEY_DERIVATION_INPUT_PASSWORD then Some (kdf_password, with_password)
else None.

Definition add_step (mask : Z) (c : wolfpsa_kdf_ctx) : wolfpsa_kdf_ctx :=
with_steps_set (Z.lor (kdf_steps_set c) mask) c.

Definition wolfpsa_kdf_input_bytes (step : Z) (data : input) (c : wolfpsa_kdf_ctx)
: KM psa_status_t :=
match wolfpsa_kdf_validate_step c step (input_length data) with
| PSA_SUCCESS =>
    let mask := wolfpsa_kdf_step_mask step in
    if mask =? 0 then mret PSA_ERROR_INVALID_ARGUMENT
    else
      match step_buffer step with
      | None => mret PSA_ERROR_INVALID_ARGUMENT
      | Some (buffer, with_buffer) =>
          r ← wolfpsa_kdf_append (buffer c) data;
          match r with
          | inl e => mret e
          | inr buf => modify_ctx (fun c => add_step mask (with_buffer buf c));; mret PSA_SUCCESS
          end
      end
| e => mret e
end.

Definition psa_key_derivation_input_bytes (step : Z) (data : input) : KM psa_status_t :=
guarded_status (wolfpsa_kdf_input_bytes step data).

Definition wolfpsa_kdf_input_integer (step value : Z) (c : wolfpsa_kdf_ctx) : KM psa_status_t :=
if kdf_output_started c then mret PSA_ERROR_BAD_STATE
else if negb (step =? PSA_KEY_DERIVATION_INPUT_COST) then mret PSA_ERROR_INVALID_ARGUMENT
else if negb (PSA_ALG_IS_PBKDF2 (kdf_alg c)) then mret PSA_ERROR_INVALID_ARGUMENT
else if has_step c WOLFPSA_KDF_STEP_COST then mret PSA_ERROR_BAD_STATE
else if value =? 0 then mret PSA_ERROR_INVALID_ARGUMENT
else if UINT32_MAX <? value then mret PSA_ERROR_NOT_SUPPORTED
else
  modify_ctx (fun c => add_step WOLFPSA_KDF_STEP_COST (with_cost (to_u32 value) c));;
  mret PSA_SUCCESS.

Definition psa_key_derivation_input_integer (step value : Z) : KM psa_status_t :=
guarded_status (wolfpsa_kdf_input_integer step value).

Definition wolfpsa_kdf_input_key (step key : Z) (c : wolfpsa_kdf_ctx) : KM psa_status_t :=
'(status, attributes, key_data) ←
  lib (wolfpsa_get_key_data key (Some PSA_KEY_ATTRIBUTES_INIT));
let attributes := default PSA_KEY_ATTRIBUTES_INIT attributes in
let key_data := default [] key_data in
match status with
| PSA_SUCCESS =>
    match wolfpsa_kdf_validate_step c step (zlen key_data) with
    | PSA_SUCCESS =>
        if Z.land (psa_get_key_usage_flags attributes)
                  (Z.lor PSA_KEY_USAGE_DERIVE PSA_KEY_USAGE_VERIFY_DERIVATION) =? 0
        then mret PSA_ERROR_NOT_PERMITTED
        else if negb (wolfpsa_kdf_key_type_ok (kdf_alg c) step (attr_type attributes))
        then mret PSA_ERROR_INVALID_ARGUMENT
        else if negb (wolfpsa_kdf_key_alg_permitted c (psa_get_key_algorithm attributes))
                && negb (wolfpsa_kdf_key_alg_permitted c
                           (psa_get_key_enrollment_algorithm attributes))
        then mret PSA_ERROR_NOT_PERMITTED
        else
          status ← wolfpsa_kdf_input_bytes step (Bytes key_data) c;
          match status with
          | PSA_SUCCESS =>
              if negb (Z.land (psa_get_key_usage_flags attributes) PSA_KEY_USAGE_DERIVE =? 0)
                 && ((step =? PSA_KEY_DERIVATION_INPUT_SECRET)
                     || (step =? PSA_KEY_DERIVATION_INPUT_PASSWORD))
              then modify_ctx (with_can_output_key true);; mret PSA_SUCCESS
              else mret PSA_SUCCESS
          | e => mret e
          end
    | e => mret e
    end
| e => mret e
end.

Definition psa_key_derivation_input_key (step key : Z) : KM psa_status_t :=
guarded_status (wolfpsa_kdf_input_key step key).

Definition wolfpsa_kdf_key_agreement (step private_key : Z) (peer_key : input)
  (c : wolfpsa_kdf_ctx) : KM psa_status_t :=
if negb (kdf_is_key_agreement c) then mret PSA_ERROR_INVALID_ARGUMENT
else if kdf_output_started c then mret PSA_ERROR_BAD_STATE
else if negb (step =? PSA_KEY_DERIVATION_INPUT_SECRET)
        && negb (step =? PSA_KEY_DERIVATION_INPUT_OTHER_SECRET)
then mret PSA_ERROR_INVALID_ARGUMENT
else if (step =? PSA_KEY_DERIVATION_INPUT_OTHER_SECRET)
        && negb (PSA_ALG_IS_TLS12_PSK_TO_MS (kdf_alg c))
then mret PSA_ERROR_INVALID_ARGUMENT
else
  r ← lib (psa_get_key_attributes private_key);
  match r with
  | inl e => mret e
  | inr priv_attr =>
      let secret_len :=
        PSA_RAW_KEY_AGREEMENT_OUTPUT_SIZE (attr_type priv_attr) (attr_bits priv_attr) in
      if Z.land (psa_get_key_usage_flags priv_attr) PSA_KEY_USAGE_DERIVE =? 0
      then mret PSA_ERROR_NOT_PERMITTED
      else if negb (PSA_KEY_TYPE_IS_KEY_PAIR (attr_type priv_attr))
      then mret PSA_ERROR_INVALID_ARGUMENT
      else if secret_len =? 0 then mret PSA_ERROR_NOT_SUPPORTED
      else
        ok ← lib (XMALLOC secret_len);
        if negb ok then mret PSA_ERROR_INSUFFICIENT_MEMORY
        else
          '(status, secret) ← wolfpsa_key_agreement_secret
             (PSA_ALG_KEY_AGREEMENT (kdf_ka_alg c) (kdf_alg c)) private_key peer_key secret_len;
          status ← match status with
                   | PSA_SUCCESS => wolfpsa_kdf_input_bytes step (Bytes secret) c
                   | e => mret e
                   end;
          match status with
          | PSA_SUCCESS =>
              if step =? PSA_KEY_DERIVATION_INPUT_SECRET
              then modify_ctx (with_can_output_key true);; mret PSA_SUCCESS
              else mret PSA_SUCCESS
          | e => mret e
          end
  end.

Definition psa_key_derivation_key_agreement (step private_key : Z) (peer_key : input)
: KM psa_status_t :=
guarded_status (wolfpsa_kdf_key_agreement step private_key peer_key).

(** ** Backends

  Each gives the status and what it wrote to the output buffer. *)

(** The extraction of HKDF. *)
Definition hkdf_extract (hash_type : wc_HashType) (c : wolfpsa_kdf_ctx)
: KM (psa_status_t + list byte) :=
ret ← wc_call;
mret (if ret =? 0
      then inr (wc_HKDF_Extract_ex hash_type (word32_buf (kdf_salt c)) (word32_buf (kdf_secret c)))
      else inl (wc_error_to_psa_status ret)).

Definition hkdf_expand (hash_type : wc_HashType) (prk : list byte) (c : wolfpsa_kdf_ctx)
  (output_length : Z) : KM (psa_status_t * list byte) :=
ret ← wc_call;
mret (if ret =? 0
      then (PSA_SUCCESS, wc_HKDF_Expand_ex hash_type prk (word32_buf (kdf_info c))
                           (to_u32 output_length))
      else (wc_error_to_psa_status ret, [])).

Definition wolfpsa_kdf_hkdf (c : wolfpsa_kdf_ctx) (output_length : Z)
: KM (psa_status_t * list byte) :=
let hash_type := wolfpsa_hash_type_from_alg (kdf_alg c) in
let hash_len := wc_HashGetDigestSize hash_type in
if negb HAVE_HKDF || NO_HMAC then mret (PSA_ERROR_NOT_SUPPORTED, [])
else if bool_decide (hash_type = WC_HASH_TYPE_NONE) then mret (PSA_ERROR_NOT_SUPPORTED, [])
else if PSA_ALG_IS_HKDF_EXTRACT (kdf_alg c) then
  if (hash_len <=? 0) || (WC_MAX_DIGEST_SIZE <? hash_len)
  then mret (PSA_ERROR_NOT_SUPPORTED, [])
  else if negb (fits_word32 (zlen (kdf_salt c))) || negb (fits_word32 (zlen (kdf_secret c)))
  then mret (PSA_ERROR_INVALID_ARGUMENT, [])
  else if hash_len <? output_length then mret (PSA_ERROR_INVALID_ARGUMENT, [])
  else
    r ← hkdf_extract hash_type c;
    mret match r with
         | inl e => (e, [])
         | inr prk => (PSA_SUCCESS, take (Z.to_nat output_length) prk)
         end
else if PSA_ALG_IS_HKDF_EXPAND (kdf_alg c) then
  if negb (fits_word32 (zlen (kdf_secret c))) || negb (fits_word32 (zlen (kdf_info c)))
     || negb (fits_word32 output_length)
  then mret (PSA_ERROR_INVALID_ARGUMENT, [])
  else hkdf_expand hash_type (word32_buf (kdf_secret c)) c output_length
else if PSA_ALG_IS_HKDF (kdf_alg c) then
  if (hash_len <=? 0) || (WC_MAX_DIGEST_SIZE <? hash_len)
  then mret (PSA_ERROR_NOT_SUPPORTED, [])
  else if negb (fits_word32 (zlen (kdf_salt c))) || negb (fits_word32 (zlen (kdf_secret c)))
          || negb (fits_word32 (zlen (kdf_info c))) || negb (fits_word32 output_length)
  then mret (PSA_ERROR_INVALID_ARGUMENT, [])
  else
    r ← hkdf_extract hash_type c;
    match r with
    | inl e => mret (e, [])
    | inr prk => hkdf_expand hash_type (take (Z.to_nat hash_len) prk) c output_length
    end
else mret (PSA_ERROR_NOT_SUPPORTED, []).

Definition wolfpsa_kdf_tls12_prf (c : wolfpsa_kdf_ctx) (output_length : Z)
: KM (psa_status_t * list byte) :=
let hash_type := wolfpsa_hash_type_from_alg (kdf_alg c) in
let prf_mac := wolfpsa_prf_mac_from_alg (kdf_alg c) in
if negb WOLFSSL_HAVE_PRF || NO_HMAC then mret (PSA_ERROR_NOT_SUPPORTED, [])
else if bool_decide (hash_type = WC_HASH_TYPE_NONE) || bool_decide (prf_mac = no_mac)
then mret (PSA_ERROR_NOT_SUPPORTED, [])
else if negb (fits_word32 output_length) || negb (fits_word32 (zlen (kdf_secret c)))
        || negb (fits_word32 (zlen (kdf_label c))) || negb (fits_word32 (zlen (kdf_seed c)))
then mret (PSA_ERROR_INVALID_ARGUMENT, [])
else
  ret ← wc_call;
  mret (if ret =? 0
        then (PSA_SUCCESS, wc_PRF_TLS prf_mac (word32_buf (kdf_secret c))
                             (word32_buf (kdf_label c)) (word32_buf (kdf_seed c))
                             (to_u32 output_length))
        else (wc_error_to_psa_status ret, [])).

(** [(uint8_t)((n >> 8) & 0xff)] and [(uint8_t)(n & 0xff)]. *)
Definition u16_bytes (n : Z) : list byte := [z2b (Z.shiftr n 8); z2b n].

(** The premaster secret; without OTHER_SECRET it has zeros in its place. *)
Definition psk_premaster (c : wolfpsa_kdf_ctx) : list byte :=
let other := if has_step c WOLFPSA_KDF_STEP_OTHER_SECRET then kdf_other_secret c
             else replicate (length (kdf_secret c)) x00 in
u16_bytes (zlen other) ++ other ++ u16_bytes (zlen (kdf_secret c)) ++ kdf_secret c.

(** ["master secret"] *)
Definition master_secret_label : list byte :=
[x6d; x61; x73; x74; x65; x72; x20; x73; x65; x63; x72; x65; x74].

Definition wolfpsa_kdf_tls12_psk_to_ms (c : wolfpsa_kdf_ctx) (output_length : Z)
: KM (psa_status_t * list byte) :=
let hash_type := wolfpsa_hash_type_from_alg (kdf_alg c) in
let prf_mac := wolfpsa_prf_mac_from_alg (kdf_alg c) in
let other_secret_length := if has_step c WOLFPSA_KDF_STEP_OTHER_SECRET
                           then zlen (kdf_other_secret c) else zlen (kdf_secret c) in
let premaster_len := 2 + zlen (kdf_secret c) + 2 + other_secret_length in
if negb WOLFSSL_HAVE_PRF || NO_HMAC then mret (PSA_ERROR_NOT_SUPPORTED, [])
else if bool_decide (hash_type = WC_HASH_TYPE_NONE) || bool_decide (prf_mac = no_mac)
then mret (PSA_ERROR_NOT_SUPPORTED, [])
else if (UINT16_MAX <? other_secret_length) || (UINT16_MAX <? zlen (kdf_secret c))
then mret (PSA_ERROR_INVALID_ARGUMENT, [])
else if negb (fits_word32 output_length) || negb (fits_word32 premaster_len)
        || negb (fits_word32 (zlen (kdf_seed c)))
then mret (PSA_ERROR_INVALID_ARGUMENT, [])
else
  ok ← lib (XMALLOC premaster_len);
  if negb ok then mret (PSA_ERROR_INSUFFICIENT_MEMORY, [])
  else
    ret ← wc_call;
    mret (if ret =? 0
          then (PSA_SUCCESS, wc_PRF_TLS prf_mac (word32_buf (psk_premaster c)) master_secret_label
                               (word32_buf (kdf_seed c)) (to_u32 output_length))
          else (wc_error_to_psa_status ret, [])).

(** One CMAC: init, the updates, final; [inl] is the status of a failure. *)
Definition cmac_run (key : list byte) (parts : list (list byte)) : KM (psa_status_t + list byte) :=
ret ← wc_call; (* wc_InitCmac_ex *)
if negb (ret =? 0) then mret (inl (wc_error_to_psa_status ret))
else
  ret ← foldl (fun m _ => ret ← m; wc_then ret) (mret 0) parts;
  ret ← wc_then ret; (* wc_CmacFinal *)
  let out := wc_CmacFinal (fold_left wc_CmacUpdate (map word32_buf parts) (wc_InitCmac_ex key))
               WC_AES_BLOCK_SIZE in
  mret (if negb (ret =? 0) then inl (wc_error_to_psa_status ret)
        else if negb (zlen out =? WC_AES_BLOCK_SIZE) then inl PSA_ERROR_NOT_SUPPORTED
        else inr out).

(** One HMAC: init, key, the updates, final. *)
Definition hmac_run (hash_type : wc_HashType) (key : list byte) (parts : list (list byte))
: KM (psa_status_t + list byte) :=
ret ← wc_call; (* wc_HmacInit *)
ret ← wc_then ret; (* wc_HmacSetKey *)
if negb (ret =? 0) then mret (inl (wc_error_to_psa_status ret))
else
  ret ← foldl (fun m _ => ret ← m; wc_then ret) (mret 0) parts;
  ret ← wc_then ret; (* wc_HmacFinal *)
  mret (if negb (ret =? 0) then inl (wc_error_to_psa_status ret)
        else inr (wc_HmacFinal (fold_left wc_HmacUpdate (map word32_buf parts)
                                  (wc_HmacSetKey hash_type (word32_buf key))))).

(** A 32-bit big-endian field. *)
Definition u32_bytes (n : Z) : list byte := be_bytes 4 n.

(** The inner loop of PBKDF2 ([for (j = 1; j < cost; j++)]): [n] iterations
  left, [u_block] and [t_block] before them. *)
Fixpoint pbkdf2_rounds (n : nat) (prf_key u_block t_block : list byte)
: KM (psa_status_t + list byte) :=
match n with
| 0%nat => mret (inr t_block)
| S n' =>
    r ← cmac_run prf_key [u_block];
    match r with
    | inl e => mret (inl e)
    | inr u_block => pbkdf2_rounds n' prf_key u_block (zip_with (fun a b =>
                       z2b (Z.lxor (b2z a) (b2z b))) t_block u_block)
    end
end.

(** The block loop [for (i = 1; i <= blocks; i++)], [i] an [uint32_t];
  [out] is what it has written.  [None]: the fuel is used up. *)
Fixpoint pbkdf2_blocks (fuel : nat) (i blocks : Z) (prf_key : list byte) (c : wolfpsa_kdf_ctx)
  (output_length : Z) (out : list byte) : KM (option (psa_status_t * list byte)) :=
match fuel with
| 0%nat => mret None
| S fuel' =>
    if negb (i <=? blocks) then mret (Some (PSA_SUCCESS, out))
    else
      u ← cmac_run prf_key [kdf_salt c ++ u32_bytes i];
      match u with
      | inl e => mret (Some (e, out))
      | inr u_block =>
          t ← pbkdf2_rounds (Z.to_nat (kdf_cost c - 1)) prf_key u_block u_block;
          match t with
          | inl e => mret (Some (e, out))
          | inr t_block =>
              let n := if zlen out + WC_AES_BLOCK_SIZE <=? output_length
                       then WC_AES_BLOCK_SIZE else output_length - zlen out in
              pbkdf2_blocks fuel' (to_u32 (i + 1)) blocks prf_key c output_length
                (out ++ take (Z.to_nat n) t_block)
          end
      end
end.

(** RFC 4615: a password of one block is the key, another is hashed first. *)
Definition pbkdf2_prf_key (c : wolfpsa_kdf_ctx) : KM (psa_status_t + list byte) :=
if zlen (kdf_password c) =? WC_AES_BLOCK_SIZE then mret (inr (kdf_password c))
else cmac_run (replicate 16 x00) [kdf_password c].

Definition pbkdf2_cmac (c : wolfpsa_kdf_ctx) (output_length : Z)
: KM (psa_status_t * list byte) :=
if negb WOLFSSL_CMAC_AES then mret (PSA_ERROR_NOT_SUPPORTED, [])
else if negb (fits_word32 (zlen (kdf_password c))) then mret (PSA_ERROR_INVALID_ARGUMENT, [])
else
  ok ← lib (XMALLOC 512);
  if negb ok then mret (PSA_ERROR_INSUFFICIENT_MEMORY, [])
  else
    k ← pbkdf2_prf_key c;
    match k with
    | inl e => mret (e, [])
    | inr prf_key =>
        if negb (fits_word32 (zlen (kdf_salt c) + 4)) then mret (PSA_ERROR_INVALID_ARGUMENT, [])
        else
          ok ← lib (XMALLOC (zlen (kdf_salt c) + 4));
          if negb ok then mret (PSA_ERROR_INSUFFICIENT_MEMORY, [])
          else
            let blocks := to_size (output_length + WC_AES_BLOCK_SIZE - 1) / WC_AES_BLOCK_SIZE in
            r ← pbkdf2_blocks (S (Z.to_nat blocks)) 1 blocks prf_key c output_length [];
            mret (default (PSA_ERROR_GENERIC_ERROR, []) r)
    end.

Definition wolfpsa_kdf_pbkdf2 (c : wolfpsa_kdf_ctx) (output_length : Z)
: KM (psa_status_t * list byte) :=
if PSA_ALG_IS_PBKDF2_HMAC (kdf_alg c) then
  let hash_type := wolfpsa_hash_type_from_alg (kdf_alg c) in
  if negb HAVE_PBKDF2 || NO_HMAC then mret (PSA_ERROR_NOT_SUPPORTED, [])
  else if bool_decide (hash_type = WC_HASH_TYPE_NONE) then mret (PSA_ERROR_NOT_SUPPORTED, [])
  else if (INT_MAX <? zlen (kdf_password c)) || (INT_MAX <? zlen (kdf_salt c))
          || (INT_MAX <? kdf_cost c) || (INT_MAX <? output_length)
  then mret (PSA_ERROR_INVALID_ARGUMENT, [])
  else
    ret ← wc_call;
    mret (if ret =? 0
          then (PSA_SUCCESS, wc_PBKDF2_ex hash_type (int_buf (kdf_password c))
                               (int_buf (kdf_salt c)) (to_int (kdf_cost c)) (to_int output_length))
          else (wc_error_to_psa_status ret, []))
else if kdf_alg c =? PSA_ALG_PBKDF2_AES_CMAC_PRF_128 then pbkdf2_cmac c output_length
else mret (PSA_ERROR_NOT_SUPPORTED, []).

(** [L_buf]: the low 32 bits of the length in bits. *)
Definition sp800_L (c : wolfpsa_kdf_ctx) : list byte :=
u32_bytes (Z.land (to_size (kdf_L_bytes c * 8)) 0xffffffff).

(** The parts [if (length > 0)] skips are left out. *)
Definition sp800_fixed (c : wolfpsa_kdf_ctx) : list (list byte) :=
(if 0 <? zlen (kdf_label c) then [kdf_label c] else []) ++ [[x00]]
++ (if 0 <? zlen (kdf_context c) then [kdf_context c] else []) ++ [sp800_L c].

(** [for (counter = 1u; offset < output_length; counter++)]: [out] is what the
  loop has written, [block] one MAC of the counter's bytes. *)
Fixpoint sp800_blocks (fuel : nat) (block : list byte -> KM (psa_status_t + list byte))
  (block_len counter output_length : Z) (out : list byte) : KM (option (psa_status_t * list byte)) :=
match fuel with
| 0%nat => mret None
| S fuel' =>
    if negb (zlen out <? output_length) then mret (Some (PSA_SUCCESS, out))
    else
      b ← block (u32_bytes counter);
      match b with
      | inl e => mret (Some (e, out))
      | inr b =>
          let copy_len := if output_length <? zlen out + block_len
                          then output_length - zlen out else block_len in
          sp800_blocks fuel' block block_len (to_u32 (counter + 1)) output_length
            (out ++ take (Z.to_nat copy_len) b)
      end
end.

Definition wolfpsa_kdf_sp800_108_hmac (c : wolfpsa_kdf_ctx) (output_length : Z)
: KM (psa_status_t * list byte) :=
let hash_type := wolfpsa_hash_type_from_alg (kdf_alg c) in
let hmac_len := wc_HashGetDigestSize hash_type in
if NO_HMAC then mret (PSA_ERROR_NOT_SUPPORTED, [])
else if bool_decide (hash_type = WC_HASH_TYPE_NONE) then mret (PSA_ERROR_NOT_SUPPORTED, [])
else if (hmac_len <=? 0) || (WC_MAX_DIGEST_SIZE <? hmac_len)
then mret (PSA_ERROR_NOT_SUPPORTED, [])
else if INT_MAX <? zlen (kdf_secret c) then mret (PSA_ERROR_INVALID_ARGUMENT, [])
else if negb (fits_word32 (zlen (kdf_label c))) || negb (fits_word32 (zlen (kdf_context c)))
then mret (PSA_ERROR_INVALID_ARGUMENT, [])
else
  r ← sp800_blocks (S (Z.to_nat output_length))
        (fun counter_buf => hmac_run hash_type (kdf_secret c) (counter_buf :: sp800_fixed c))
        hmac_len 1 output_length [];
  mret (default (PSA_ERROR_GENERIC_ERROR, []) r).

Definition wolfpsa_kdf_sp800_108_cmac (c : wolfpsa_kdf_ctx) (output_length : Z)
: KM (psa_status_t * list byte) :=
if negb WOLFSSL_CMAC_AES then mret (PSA_ERROR_NOT_SUPPORTED, [])
else if negb (zlen (kdf_secret c) =? 16) && negb (zlen (kdf_secret c) =? 24)
        && negb (zlen (kdf_secret c) =? 32)
then mret (PSA_ERROR_INVALID_ARGUMENT, [])
else if negb (fits_word32 (zlen (kdf_label c))) || negb (fits_word32 (zlen (kdf_context c)))
then mret (PSA_ERROR_INVALID_ARGUMENT, [])
else
  ok ← lib (XMALLOC 512);
  if negb ok then mret (PSA_ERROR_INSUFFICIENT_MEMORY, [])
  else
    k0 ← cmac_run (kdf_secret c) (sp800_fixed c);
    match k0 with
    | inl e => mret (e, [])
    | inr K0 =>
        r ← sp800_blocks (S (Z.to_nat output_length))
              (fun counter_buf =>
                 cmac_run (kdf_secret c) (counter_buf :: sp800_fixed c ++ [K0]))
              WC_AES_BLOCK_SIZE 1 output_length [];
        mret (default (PSA_ERROR_GENERIC_ERROR, []) r)
    end.

(** ** Output *)

Definition wolfpsa_kdf_compute_output (c : wolfpsa_kdf_ctx) (output_length : Z)
: KM (psa_status_t * list byte) :=
if kdf_is_raw_kdf c then mret (PSA_SUCCESS, take (Z.to_nat output_length) (kdf_secret c))
else if PSA_ALG_IS_ANY_HKDF (kdf_alg c) then wolfpsa_kdf_hkdf c output_length
else if PSA_ALG_IS_TLS12_PRF (kdf_alg c) then wolfpsa_kdf_tls12_prf c output_length
else if PSA_ALG_IS_TLS12_PSK_TO_MS (kdf_alg c) then wolfpsa_kdf_tls12_psk_to_ms c output_length
else if PSA_ALG_IS_PBKDF2 (kdf_alg c) then wolfpsa_kdf_pbkdf2 c output_length
else if PSA_ALG_IS_SP800_108_COUNTER_HMAC (kdf_alg c)
then wolfpsa_kdf_sp800_108_hmac c output_length
else if kdf_alg c =? PSA_ALG_SP800_108_COUNTER_CMAC
then wolfpsa_kdf_sp800_108_cmac c output_length
else mret (PSA_ERROR_NOT_SUPPORTED, []).

(** The checks before any output: are the inputs complete? *)
Definition kdf_output_ready (c : wolfpsa_kdf_ctx) (output_length : Z) : psa_status_t :=
let need (masks : list Z) := if forallb (has_step c) masks then PSA_SUCCESS
                             else PSA_ERROR_BAD_STATE in
if kdf_is_raw_kdf c then
  if negb (has_step c WOLFPSA_KDF_STEP_SECRET)
     || (zlen (kdf_secret c) <? kdf_output_offset c)
     || (zlen (kdf_secret c) - kdf_output_offset c <? output_length)
  then PSA_ERROR_INSUFFICIENT_DATA else PSA_SUCCESS
else if PSA_ALG_IS_ANY_HKDF (kdf_alg c) then
  if PSA_ALG_IS_HKDF_EXTRACT (kdf_alg c)
  then need [WOLFPSA_KDF_STEP_SALT; WOLFPSA_KDF_STEP_SECRET]
  else need [WOLFPSA_KDF_STEP_SECRET; WOLFPSA_KDF_STEP_INFO]
else if PSA_ALG_IS_TLS12_PRF (kdf_alg c)
then need [WOLFPSA_KDF_STEP_SECRET; WOLFPSA_KDF_STEP_LABEL; WOLFPSA_KDF_STEP_SEED]
else if PSA_ALG_IS_TLS12_PSK_TO_MS (kdf_alg c)
then need [WOLFPSA_KDF_STEP_SECRET; WOLFPSA_KDF_STEP_SEED]
else if PSA_ALG_IS_PBKDF2 (kdf_alg c)
then need [WOLFPSA_KDF_STEP_PASSWORD; WOLFPSA_KDF_STEP_SALT; WOLFPSA_KDF_STEP_COST]
else if PSA_ALG_IS_SP800_108_COUNTER_HMAC (kdf_alg c)
        || (kdf_alg c =? PSA_ALG_SP800_108_COUNTER_CMAC)
then need [WOLFPSA_KDF_STEP_SECRET]
else PSA_SUCCESS.

(** SP 800-108 takes the total length from the capacity at the first output. *)
Definition kdf_snapshot_L (c : wolfpsa_kdf_ctx) : wolfpsa_kdf_ctx :=
if negb (kdf_is_raw_kdf c) && negb (kdf_output_started c)
   && (PSA_ALG_IS_SP800_108_COUNTER_HMAC (kdf_alg c)
       || (kdf_alg c =? PSA_ALG_SP800_108_COUNTER_CMAC))
then with_L_bytes (kdf_capacity c) c else c.

(** The first output call of a small bounded capacity computes everything. *)
Definition kdf_wants_cache (c : wolfpsa_kdf_ctx) (output_length : Z) : bool :=
match kdf_output_cache c with Some _ => false | None => true end
&& negb (kdf_is_raw_kdf c)
&& negb (kdf_capacity c =? PSA_KEY_DERIVATION_UNLIMITED_CAPACITY)
&& (kdf_output_offset c =? 0)
&& (to_size (output_length + kdf_capacity c) <=? WOLFPSA_KDF_MAX_CACHE_BYTES).

Definition kdf_fill_cache (c : wolfpsa_kdf_ctx) (output_length : Z) : KM psa_status_t :=
let cache_length := to_size (output_length + kdf_capacity c) in
ok ← lib (XMALLOC cache_length);
if negb ok then mret PSA_ERROR_INSUFFICIENT_MEMORY
else
  '(status, cache) ← wolfpsa_kdf_compute_output c cache_length;
  match status with
  | PSA_SUCCESS => modify_ctx (with_output_cache (Some cache));; mret PSA_SUCCESS
  | e => mret e
  end.

(** Deliver [output_length] bytes at the current offset: the status and what is
  in the caller's buffer, [None] if the call did not write there. *)
Definition kdf_deliver (c : wolfpsa_kdf_ctx) (output_length : Z)
: KM (psa_status_t * option (list byte)) :=
let offset := kdf_output_offset c in
let total_output_length := to_size (offset + output_length) in
match kdf_output_cache c with
| Some cache =>
    if zlen cache <? total_output_length then mret (PSA_ERROR_INSUFFICIENT_DATA, None)
    else mret (PSA_SUCCESS, Some (slice cache offset output_length))
| None =>
    if offset =? 0 then
      '(status, out) ← wolfpsa_kdf_compute_output c output_length;
      match status with
      | PSA_SUCCESS => mret (PSA_SUCCESS, Some out)
      | e => mret (e, Some (replicate (Z.to_nat output_length) x00))
      end
    else
      ok ← lib (XMALLOC total_output_length);
      if negb ok then mret (PSA_ERROR_INSUFFICIENT_MEMORY, None)
      else
        '(status, full_output) ← wolfpsa_kdf_compute_output c total_output_length;
        match status with
        | PSA_SUCCESS => mret (PSA_SUCCESS, Some (slice full_output offset output_length))
        | e => mret (e, None)
        end
end.

(** [output] says whether the pointer is not NULL. *)
Definition wolfpsa_kdf_output_bytes (output : bool) (output_length : Z) (c : wolfpsa_kdf_ctx)
: KM (psa_status_t * option (list byte)) :=
if negb output then mret (PSA_ERROR_BAD_STATE, None)
else
  match kdf_output_ready c output_length with
  | PSA_SUCCESS =>
      let '(status, c) := wolfpsa_kdf_require_output (kdf_snapshot_L c) output_length in
      set_ctx (Some c);;
      match status with
      | PSA_SUCCESS =>
          let c := with_output_started true c in
          set_ctx (Some c);;
          if to_size (kdf_output_offset c + output_length) <? kdf_output_offset c
          then mret (PSA_ERROR_INVALID_ARGUMENT, None)
          else
            status ← (if kdf_wants_cache c output_length then kdf_fill_cache c output_length
                      else mret PSA_SUCCESS);
            match status with
            | PSA_SUCCESS =>
                c' ← get_ctx;
                '(status, out) ← kdf_deliver (default c c') output_length;
                match status with
                | PSA_SUCCESS =>
                    modify_ctx (fun c => with_output_offset
                                  (to_size (kdf_output_offset c + output_length)) c);;
                    mret (PSA_SUCCESS, out)
                | e => mret (e, out)
                end
            | e => mret (e, None)
            end
      | e => mret (e, None)
      end
  | e => mret (e, None)
  end.

Definition psa_key_derivation_output_bytes (output : bool) (output_length : Z)
: KM (psa_status_t * option (list byte)) :=
guarded (fun _ => None) (wolfpsa_kdf_output_bytes output output_length).

(** The status and [*key]. *)
Definition wolfpsa_kdf_output_key (attributes : option psa_key_attributes_t) (key : bool)
  (c : wolfpsa_kdf_ctx) : KM (psa_status_t * Z) :=
match attributes, key with
| Some attributes, true =>
    let key_len := PSA_BITS_TO_BYTES (attr_bits attributes) in
    if key_len =? 0 then mret (PSA_ERROR_INVALID_ARGUMENT, PSA_KEY_ID_NULL)
    else if negb (kdf_can_output_key c) then mret (PSA_ERROR_NOT_PERMITTED, PSA_KEY_ID_NULL)
    else if negb (PSA_KEY_TYPE_IS_UNSTRUCTURED (attr_type attributes))
    then mret (PSA_ERROR_INVALID_ARGUMENT, PSA_KEY_ID_NULL)
    else
      ok ← lib (XMALLOC key_len);
      if negb ok then mret (PSA_ERROR_INSUFFICIENT_MEMORY, PSA_KEY_ID_NULL)
      else
        '(status, buffer) ← psa_key_derivation_output_bytes true key_len;
        match status with
        | PSA_SUCCESS => lib (psa_import_key (Some attributes) buffer true)
        | e => mret (e, PSA_KEY_ID_NULL)
        end
| _, _ => mret (PSA_ERROR_INVALID_ARGUMENT, PSA_KEY_ID_NULL)
end.

Definition psa_key_derivation_output_key (attributes : option psa_key_attributes_t) (key : bool)
: KM (psa_status_t * Z) :=
guarded (fun _ => PSA_KEY_ID_NULL) (wolfpsa_kdf_output_key attributes key).

Definition wolfpsa_kdf_verify_bytes (expected : input) (c : wolfpsa_kdf_ctx) : KM psa_status_t :=
let expected_length := input_length expected in
if is_null expected then mret PSA_ERROR_INVALID_ARGUMENT
else if INT_MAX <? expected_length then mret PSA_ERROR_INVALID_ARGUMENT
else if expected_length =? 0 then r ← psa_key_derivation_output_bytes true 0; mret r.1
else
  ok ← lib (XMALLOC expected_length);
  if negb ok then mret PSA_ERROR_INSUFFICIENT_MEMORY
  else
    '(status, buffer) ← psa_key_derivation_output_bytes true expected_length;
    match status with
    | PSA_SUCCESS =>
        mret (if negb (ConstantCompare (default [] buffer) (input_bytes expected) =? 0)
              then PSA_ERROR_INVALID_SIGNATURE else PSA_SUCCESS)
    | e => mret e
    end.

Definition psa_key_derivation_verify_bytes (expected : input) : KM psa_status_t :=
guarded_status (wolfpsa_kdf_verify_bytes expected).

Definition wolfpsa_kdf_verify_key (expected : Z) (c : wolfpsa_kdf_ctx) : KM psa_status_t :=
r ← lib (psa_get_key_attributes expected);
match r with
| inl e => mret e
| inr attributes =>
    if Z.land (psa_get_key_usage_flags attributes) PSA_KEY_USAGE_VERIFY_DERIVATION =? 0
    then mret PSA_ERROR_NOT_PERMITTED
    else if negb (attr_type attributes =? (if PSA_ALG_IS_PBKDF2 (kdf_alg c)
                                           then PSA_KEY_TYPE_PASSWORD_HASH
                                           else PSA_KEY_TYPE_RAW_DATA))
    then mret PSA_ERROR_INVALID_ARGUMENT
    else
      '(status, _, expected_data) ← lib (wolfpsa_get_key_data expected None);
      match status with
      | PSA_SUCCESS => psa_key_derivation_verify_bytes (Bytes (default [] expected_data))
      | e => mret e
      end
end.

Definition psa_key_derivation_verify_key (expected : Z) : KM psa_status_t :=
guarded_status (wolfpsa_kdf_verify_key expected).

(** ** Key agreement into a key ([psa_asymmetric_api.c]) *)

(** The next call of a chain [if (status == PSA_SUCCESS) status = ...;]. *)
Definition status_then (status : psa_status_t) (m : KM psa_status_t) : KM psa_status_t :=
match status with PSA_SUCCESS => m | e => mret e end.

(** A derivation on a local operation object, aborted at the end. *)
Definition wolfpsa_key_agreement_kdf (private_key : Z) (peer_key : input) (alg : Z)
  (attributes : option psa_key_attributes_t) (key : bool) : KM (psa_status_t * Z) :=
let kdf_alg := PSA_ALG_KEY_AGREEMENT_GET_KDF alg in
set_ctx None;;
status ← psa_key_derivation_setup alg;
status ← status_then status
  (if PSA_ALG_IS_HKDF kdf_alg || PSA_ALG_IS_HKDF_EXTRACT kdf_alg
   then psa_key_derivation_input_bytes PSA_KEY_DERIVATION_INPUT_SALT (Null 0)
   else mret PSA_SUCCESS);
status ← status_then status
  (psa_key_derivation_key_agreement PSA_KEY_DERIVATION_INPUT_SECRET private_key peer_key);
status ← status_then status
  (if PSA_ALG_IS_HKDF kdf_alg || PSA_ALG_IS_HKDF_EXPAND kdf_alg
   then psa_key_derivation_input_bytes PSA_KEY_DERIVATION_INPUT_INFO (Null 0)
   else mret PSA_SUCCESS);
r ← match status with
    | PSA_SUCCESS => psa_key_derivation_output_key attributes key
    | e => mret (e, PSA_KEY_ID_NULL)
    end;
psa_key_derivation_abort;;
mret r.

(** The status and [*key]. *)
Definition psa_key_agreement (private_key : Z) (peer_key : input) (alg : Z)
  (attributes : option psa_key_attributes_t) (key : bool) : KM (psa_status_t * Z) :=
match attributes, key with
| Some a, true =>
    let out_type := attr_type a in
    if negb (PSA_ALG_IS_KEY_AGREEMENT alg) then mret (PSA_ERROR_NOT_SUPPORTED, PSA_KEY_ID_NULL)
    else if negb (PSA_ALG_IS_RAW_KEY_AGREEMENT alg)
    then wolfpsa_key_agreement_kdf private_key peer_key alg attributes key
    else if negb (out_type =? PSA_KEY_TYPE_DERIVE) && negb (out_type =? PSA_KEY_TYPE_RAW_DATA)
            && negb (out_type =? PSA_KEY_TYPE_HMAC) && negb (out_type =? PSA_KEY_TYPE_PASSWORD)
    then mret (PSA_ERROR_INVALID_ARGUMENT, PSA_KEY_ID_NULL)
    else
      r ← lib (psa_get_key_attributes private_key);
      match r with
      | inl e => mret (e, PSA_KEY_ID_NULL)
      | inr priv_attr =>
          let secret_len :=
            PSA_RAW_KEY_AGREEMENT_OUTPUT_SIZE (attr_type priv_attr) (attr_bits priv_attr) in
          if secret_len =? 0 then mret (PSA_ERROR_NOT_SUPPORTED, PSA_KEY_ID_NULL)
          else
            ok ← lib (XMALLOC secret_len);
            if negb ok then mret (PSA_ERROR_INSUFFICIENT_MEMORY, PSA_KEY_ID_NULL)
            else
              '(status, secret) ← wolfpsa_key_agreement_secret alg private_key peer_key secret_len;
              match status with
              | PSA_SUCCESS => lib (psa_import_key attributes (Some secret) true)
              | e => mret (e, PSA_KEY_ID_NULL)
              end
      end
| _, _ => mret (PSA_ERROR_INVALID_ARGUMENT, PSA_KEY_ID_NULL)
end.
End Operations.
