(* ===== verification/KdfStream.v ===== *)
(** What the key-derivation backends compute: [kdf_stream], one stream of bytes
    per set of inputs, with the constructions of SP 800-108 and PBKDF2 written
    as their standards give them, and the proof that every backend of [Kdf]
    gives prefixes of it. *)

From stdpp Require Import base decidable list.
From Stdlib Require Import ZArith Lia.
From Stdlib Require Import Strings.Byte.
From S2P Require Import Prelude.
From S2P Require Import Values.
From S2P Require Import Engine.
From S2P Require Import WolfCrypt.
From S2P Require Import KeyFormat.
From S2P Require Import StoreIface.
From S2P Require Import Library.
From S2P Require Import KeyStore.
From S2P Require Import KeyStoreRules.
From S2P Require Import Operation.
From S2P Require Import KeyAgreement.
From S2P Require Import Kdf.

#[local] Open Scope Z_scope.

(** * Streams of numbered blocks *)

(** The blocks [f 1, f 2, ...] of [len] bytes each, cut to [n] bytes. *)
Definition block_count (len n : Z) : Z := (n + len - 1) / len.
Definition blocks_upto (f : Z -> list byte) (k : nat) : list byte :=
  concat (map (fun i => f (Z.of_nat i)) (seq 1 k)).
Definition block_stream (f : Z -> list byte) (len n : Z) : list byte :=
  take (Z.to_nat n) (blocks_upto f (Z.to_nat (block_count len n))).

Lemma blocks_upto_nil f n : take (Z.to_nat n) (blocks_upto f 0) = [].
Proof. apply take_nil. Qed.

Lemma blocks_upto_succ f k : blocks_upto f (S k) = blocks_upto f k ++ f (Z.of_nat (S k)).
Proof.
  unfold blocks_upto. rewrite seq_S, map_app, concat_app. simpl. by rewrite app_nil_r.
Qed.

Lemma blocks_upto_length f len k :
  (forall i, zlen (f i) = len) -> zlen (blocks_upto f k) = Z.of_nat k * len.
Proof.
  intros Hf. induction k as [|k IH]; [unfold zlen; simpl; lia|].
  rewrite blocks_upto_succ, zlen_app, IH, Hf. lia.
Qed.

Lemma blocks_upto_prefix f j k : (j <= k)%nat -> blocks_upto f j `prefix_of` blocks_upto f k.
Proof.
  induction 1 as [|k _ IH]; [done|]. rewrite blocks_upto_succ.
  by apply prefix_app_r.
Qed.

Lemma block_count_bounds len n : 0 < len -> 0 <= n ->
  n <= block_count len n * len < n + len /\ 0 <= block_count len n.
Proof. unfold block_count. intros. Z.to_euclidean_division_equations. nia. Qed.

Lemma block_count_mono len m n : 0 < len -> m <= n -> block_count len m <= block_count len n.
Proof. unfold block_count. intros. apply Z.div_le_mono; lia. Qed.

Lemma block_stream_streaming f len :
  0 < len -> (forall i, zlen (f i) = len) -> streaming (block_stream f len).
Proof.
  intros Hlen Hf. split.
  - intros n Hn. unfold block_stream. rewrite zlen_take by done.
    rewrite (blocks_upto_length _ _ _ Hf). pose proof (block_count_bounds len n Hlen Hn). lia.
  - intros m n Hmn. unfold block_stream.
    pose proof (block_count_bounds len m Hlen ltac:(lia)).
    pose proof (block_count_mono len m n Hlen ltac:(lia)).
    rewrite <- take_take_prefix by lia.
    destruct (blocks_upto_prefix f (Z.to_nat (block_count len m)) (Z.to_nat (block_count len n)))
      as [l ->]; [lia|].
    rewrite take_app_le; [done|]. pose proof (blocks_upto_length f len
      (Z.to_nat (block_count len m)) Hf) as Hl. unfold zlen in Hl. lia.
Qed.

(** One more block of a stream cut at [n]. *)
Lemma block_stream_step f len n k :
  0 < len -> (forall i, zlen (f i) = len) -> Z.of_nat k * len < n ->
  let out := take (Z.to_nat n) (blocks_upto f k) in
  let m := if n <? zlen out + len then n - zlen out else len in
  zlen out = Z.of_nat k * len /\
  out ++ take (Z.to_nat m) (f (Z.of_nat (S k))) = take (Z.to_nat n) (blocks_upto f (S k)).
Proof.
  intros Hlen Hf Hk out m.
  pose proof (blocks_upto_length f len k Hf) as Hl.
  assert (Hout : out = blocks_upto f k) by (apply take_ge; unfold zlen in Hl; lia).
  unfold m. clearbody out. subst out. split; [done|]. rewrite blocks_upto_succ.
  rewrite take_app_ge by (unfold zlen in Hl; lia). f_equal.
  pose proof (Hf (Z.of_nat (S k))) as Hfk. rewrite Hl.
  destruct (Z.ltb_spec n (Z.of_nat k * len + len)).
  - f_equal. unfold zlen in Hl. lia.
  - rewrite !take_ge; [done| |]; unfold zlen in *; lia.
Qed.

(** A stream that is complete stays as it is. *)
Lemma block_stream_done f len n k :
  0 < len -> (forall i, zlen (f i) = len) -> 0 <= n -> n <= Z.of_nat k * len ->
  take (Z.to_nat n) (blocks_upto f k) = block_stream f len n.
Proof.
  intros Hlen Hf Hn Hk. unfold block_stream.
  pose proof (block_count_bounds len n Hlen Hn).
  destruct (blocks_upto_prefix f (Z.to_nat (block_count len n)) k) as [l ->]; [nia|].
  rewrite take_app_le; [done|].
  pose proof (blocks_upto_length f len (Z.to_nat (block_count len n)) Hf) as Hl.
  unfold zlen in Hl. lia.
Qed.

Section Streams.
Context {C : Config} {E : WolfCryptErr} {K : WolfCryptKeys} {R : WolfCryptRng}.
Context {O : StoreOps} {B : KeyBackend} {DH : WolfCryptDh} {WM : WolfCryptMisc}.
Context {WD : WolfCryptDigest} {WK : WolfCryptKdf} {WH : WolfCryptHmac} {WC : WolfCryptCmac}.
Context {WKO : WolfCryptKdfOk WD WK} {WHO : WolfCryptHmacOk WD WH} {WCO : WolfCryptCmacOk WC}.

Notation KM := (M (opstate O wolfpsa_kdf_ctx)).
Implicit Types c : wolfpsa_kdf_ctx.
Implicit Types s : opstate O wolfpsa_kdf_ctx.

(** * The constructions *)

(** SP 800-108 in counter mode: [[i]_4 || Label || 0x00 || Context || [L]_4]. *)
Definition sp800_data c : list byte :=
kdf_label c ++ [x00] ++ kdf_context c ++ u32_bytes (8 * kdf_L_bytes c).

Definition sp800_hmac_block c (i : Z) : list byte :=
hmac (wolfpsa_hash_type_from_alg (kdf_alg c)) (kdf_secret c) (u32_bytes i ++ sp800_data c).

(** The CMAC variant appends [K_0 = CMAC(K_IN, Label || 0x00 || Context || [L]_4)]. *)
Definition sp800_cmac_block c (i : Z) : list byte :=
cmac (kdf_secret c) (u32_bytes i ++ sp800_data c ++ cmac (kdf_secret c) (sp800_data c)).

(** PBKDF2 (RFC 8018): [T_i = U_1 xor ... xor U_cost], [U_1 = PRF(P, S || i)],
  [U_(j+1) = PRF(P, U_j)], with the PRF of RFC 4615. *)
Definition xor_bytes (a b : list byte) : list byte :=
zip_with (fun x y => z2b (Z.lxor (b2z x) (b2z y))) a b.

Definition aes_cmac_prf_128_key (password : list byte) : list byte :=
if zlen password =? WC_AES_BLOCK_SIZE then password else cmac (replicate 16 x00) password.

Definition pbkdf2_U c (i : Z) (j : nat) : list byte :=
let key := aes_cmac_prf_128_key (kdf_password c) in
Nat.iter j (cmac key) (cmac key (kdf_salt c ++ u32_bytes i)).

Definition pbkdf2_block c (i : Z) : list byte :=
foldl xor_bytes (pbkdf2_U c i 0) (map (pbkdf2_U c i) (seq 1 (Z.to_nat (kdf_cost c - 1)))).

(** The pre-master secret of RFC 4279: both parts with their lengths. *)
Definition rfc4279_premaster (other psk : list byte) : list byte :=
be_bytes 2 (zlen other) ++ other ++ be_bytes 2 (zlen psk) ++ psk.

(** [n] bytes of the output that the inputs of [c] determine. *)
Definition kdf_stream c (n : Z) : list byte :=
let h := wolfpsa_hash_type_from_alg (kdf_alg c) in
let prf := wc_PRF_TLS (wolfpsa_prf_mac_from_alg (kdf_alg c)) in
let prk := wc_HKDF_Extract_ex h (kdf_salt c) (kdf_secret c) in
if kdf_is_raw_kdf c then take (Z.to_nat n) (kdf_secret c)
else if PSA_ALG_IS_ANY_HKDF (kdf_alg c) then
  if PSA_ALG_IS_HKDF_EXTRACT (kdf_alg c) then take (Z.to_nat n) prk
  else if PSA_ALG_IS_HKDF_EXPAND (kdf_alg c)
  then wc_HKDF_Expand_ex h (kdf_secret c) (kdf_info c) n
  else wc_HKDF_Expand_ex h prk (kdf_info c) n
else if PSA_ALG_IS_TLS12_PRF (kdf_alg c)
then prf (kdf_secret c) (kdf_label c) (kdf_seed c) n
else if PSA_ALG_IS_TLS12_PSK_TO_MS (kdf_alg c)
then
  let other := if has_step c WOLFPSA_KDF_STEP_OTHER_SECRET then kdf_other_secret c
               else replicate (length (kdf_secret c)) x00 in
  prf (rfc4279_premaster other (kdf_secret c)) master_secret_label (kdf_seed c) n
else if PSA_ALG_IS_PBKDF2 (kdf_alg c) then
  if PSA_ALG_IS_PBKDF2_HMAC (kdf_alg c)
  then wc_PBKDF2_ex h (kdf_password c) (kdf_salt c) (kdf_cost c) n
  else block_stream (pbkdf2_block c) WC_AES_BLOCK_SIZE n
else if PSA_ALG_IS_SP800_108_COUNTER_HMAC (kdf_alg c)
then block_stream (sp800_hmac_block c) (wc_HashGetDigestSize h) n
else block_stream (sp800_cmac_block c) WC_AES_BLOCK_SIZE n.

(** * Computations that give a known value unless something fails *)

(** A result of this kind is the given value, or an error. *)
Definition computes {A} (m : KM (psa_status_t + A)) (v : A) : Prop :=
pure_calls m /\
forall s, match (m s).1 with
          | inr x => x = v
          | inl e => e <> PSA_SUCCESS /\ ~ smooth s
          end.

(** A backend: an error, or the given output; no error when nothing fails and
  [ok] holds. *)
Definition gives (ok : Prop) (m : KM (psa_status_t * list byte)) (v : list byte) : Prop :=
pure_calls m /\
(forall s, (m s).1.1 = PSA_SUCCESS -> (m s).1.2 = v) /\
(ok -> forall s, smooth s -> (m s).1.1 = PSA_SUCCESS).

Lemma computes_ret {A} (v : A) : computes (mret (inr v)) v.
Proof. split; [apply pure_ret|done]. Qed.

Lemma gives_ret ok v : gives ok (mret (PSA_SUCCESS, v)) v.
Proof. by split_and!; [apply pure_ret| |]. Qed.

(** A guard at the head of a backend. *)
Lemma gives_guard ok (b : bool) e (m : KM (psa_status_t * list byte)) v :
e <> PSA_SUCCESS -> (ok -> b = false) -> (b = false -> gives ok m v) ->
gives ok (if b then mret (e, []) else m) v.
Proof.
intros He Hok Hm. destruct b; [|by apply Hm].
split_and!; [apply pure_ret|done|]. intros H. by specialize (Hok H).
Qed.

(** Sequencing: an error ends the computation with its status. *)
Lemma computes_bind {A A'} (m : KM (psa_status_t + A)) (v : A)
  (f : psa_status_t + A -> KM (psa_status_t + A')) (w : A') :
computes m v -> computes (f (inr v)) w -> (forall e, f (inl e) = mret (inl e)) ->
computes (r ← m; f r) w.
Proof.
intros [Hp Hm] [Hfp Hf] He. split.
- intros s. rewrite bind_run. specialize (Hm s). destruct (Hp s) as (H1 & H2 & H3 & H4).
  destruct (m s).1 as [e|x]; cbn [fst].
  + rewrite He. by split_and!.
  + subst x. destruct (Hfp (m s).2) as (K1 & K2 & K3 & K4).
    split_and!; [by eapply same_ctx_trans|by eapply quiet_trans|congruence|auto].
- intros s. rewrite bind_run. specialize (Hm s).
  pose proof (pure_smooth m s Hp) as Hs. destruct (m s).1 as [e|x] eqn:Hr.
  + rewrite He. done.
  + subst x. specialize (Hf (m s).2). destruct (f (inr v) (m s).2).1; [|done].
    destruct Hf as [? Hf]. split; [done|]. intros Hsm. by apply Hf, Hs.
Qed.

Lemma gives_bind {A} ok (m : KM (psa_status_t + A)) (v : A)
  (f : psa_status_t + A -> KM (psa_status_t * list byte)) (w : list byte) :
computes m v -> gives ok (f (inr v)) w ->
(forall e, exists out, f (inl e) = mret (e, out)) -> gives ok (r ← m; f r) w.
Proof.
intros [Hp Hm] (Hfp & Hf & Hfs) He. split_and!.
- intros s. rewrite bind_run. specialize (Hm s). destruct (Hp s) as (H1 & H2 & H3 & H4).
  destruct (m s).1 as [e|x]; cbn [fst].
  + destruct (He e) as [out ->]. by split_and!.
  + subst x. destruct (Hfp (m s).2) as (K1 & K2 & K3 & K4).
    split_and!; [by eapply same_ctx_trans|by eapply quiet_trans|congruence|auto].
- intros s. rewrite bind_run. specialize (Hm s). destruct (m s).1 as [e|x].
  + destruct (He e) as [out ->]. simpl. intros ->. by destruct Hm.
  + subst x. apply Hf.
- intros H s Hs. rewrite bind_run. specialize (Hm s).
  pose proof (pure_smooth m s Hp Hs) as Hs'. destruct (m s).1 as [e|x]; [by destruct Hm|].
  subst x. by apply Hfs.
Qed.

(** An allocation before the rest. *)
Lemma gives_malloc ok n (m : KM (psa_status_t * list byte)) v :
gives ok m v ->
gives ok (b ← lib (XMALLOC n); if negb b then mret (PSA_ERROR_INSUFFICIENT_MEMORY, []) else m) v.
Proof.
intros (Hp & Hm & Hs). split_and!.
- apply pure_bind; [apply pure_malloc|]. intros [|]; simpl; [done|apply pure_ret].
- intros s. rewrite bind_run. destruct (lib (XMALLOC n) s).1; simpl; [apply Hm|done].
- intros H s Hsm.
  assert (Hin : wp (lib (XMALLOC n)) (fun b s' => b = true /\ smooth s') s).
  { apply wp_malloc. intros b s' _ _ _ Hb. by apply Hb. }
  unfold wp in Hin. rewrite bind_run. destruct Hin as [-> Hs']. by apply Hs.
Qed.

(** One call of wolfCrypt that gives the whole output. *)
Lemma gives_call ok v :
gives ok (ret ← wc_call; mret (if ret =? 0 then (PSA_SUCCESS, v)
                               else (wc_error_to_psa_status ret, []))) v.
Proof.
split_and!.
- apply pure_bind; [apply pure_wc_call|]; intros; apply pure_ret.
- intros s. rewrite bind_run. simpl. destruct (Z.eqb_spec (wc_call s).1 0); [done|].
  intros H. by apply wc_error_success in H.
- intros _ s [Hr _]. rewrite bind_run. unfold wc_call. by rewrite Hr.
Qed.

(** A chain of updates. *)
Definition wc_chain {A} (m : KM Z) (parts : list A) : KM Z :=
foldl (fun m _ => ret ← m; wc_then ret) m parts.

Lemma chain_pure {A} (parts : list A) (m : KM Z) : pure_calls m -> pure_calls (wc_chain m parts).
Proof.
revert m; induction parts as [|p parts IH]; intros m Hm; simpl; [done|].
apply IH, pure_bind; [done|]. intros. apply pure_wc_then.
Qed.

Lemma chain_smooth {A} (parts : list A) (m : KM Z) s r :
m s = (r, s) -> smooth s -> wc_chain m parts s = (r, s).
Proof.
revert m; induction parts as [|p parts IH]; intros m Hm Hs; simpl; [done|].
apply IH; [|done]. rewrite bind_run, Hm. by apply wc_then_smooth.
Qed.

Lemma map_word32 parts : Forall (fun p => fits_word32 (zlen p) = true) parts ->
map word32_buf parts = parts.
Proof.
induction 1 as [|p parts Hp _ IH]; simpl; [done|]. by rewrite IH, word32_buf_small.
Qed.

(** MACs of parts that fit. *)
Lemma cmac_run_computes key parts :
Forall (fun p => fits_word32 (zlen p) = true) parts ->
computes (cmac_run key parts) (cmac key (concat parts)).
Proof.
intros Hp. unfold cmac_run. rewrite map_word32, cmac_spec by (done || unfold WC_AES_BLOCK_SIZE; lia).
fold (wc_chain (mret 0) parts).
assert (Hlen : zlen (take (Z.to_nat WC_AES_BLOCK_SIZE) (cmac key (concat parts))) = WC_AES_BLOCK_SIZE).
{ rewrite zlen_take, cmac_length; unfold WC_AES_BLOCK_SIZE; lia. }
rewrite Hlen. replace (negb (WC_AES_BLOCK_SIZE =? WC_AES_BLOCK_SIZE)) with false by done.
rewrite take_ge by (pose proof (cmac_length key (concat parts)); unfold zlen, WC_AES_BLOCK_SIZE in *; lia).
split.
- apply pure_bind; [apply pure_wc_call|]. intros r. destruct (negb (r =? 0)); [apply pure_ret|].
  apply pure_bind; [apply chain_pure, pure_ret|]. intros. apply pure_bind; [apply pure_wc_then|].
  intros. apply pure_ret.
- intros s. rewrite bind_run. destruct (Z.eqb_spec (wc_call s).1 0) as [H0|H0]; cbn [negb].
  + rewrite !bind_run. set (s1 := (wc_call s).2). set (r := wc_chain _ _ s1).
    simpl. destruct (Z.eqb_spec (wc_then r.1 r.2).1 0) as [H1|H1]; cbn [negb]; [done|].
    split; [by rewrite wc_error_success|]. intros Hs. destruct H1.
    unfold r, s1. rewrite wc_call_smooth by done. simpl.
    rewrite (chain_smooth parts (mret 0) s 0) by done. simpl. by rewrite wc_then_smooth.
  + simpl. split; [by rewrite wc_error_success|]. intros Hs. destruct H0.
    by rewrite wc_call_smooth.
Qed.

Lemma hmac_run_computes h key parts :
Forall (fun p => fits_word32 (zlen p) = true) parts -> zlen key <= INT_MAX ->
computes (hmac_run h key parts) (hmac h key (concat parts)).
Proof.
intros Hp Hk. unfold hmac_run. rewrite map_word32, fits_int, hmac_spec by done.
fold (wc_chain (mret 0) parts). split.
- apply pure_bind; [apply pure_wc_call|]. intros r. apply pure_bind; [apply pure_wc_then|].
  intros r'. destruct (negb (r' =? 0)); [apply pure_ret|].
  apply pure_bind; [apply chain_pure, pure_ret|]. intros. apply pure_bind; [apply pure_wc_then|].
  intros. apply pure_ret.
- intros s. rewrite !bind_run. set (q := wc_then (wc_call s).1 (wc_call s).2).
  assert (Hq : smooth s -> q = (0, s)).
  { intros Hs. unfold q. rewrite wc_call_smooth by done. by apply wc_then_smooth. }
  destruct (Z.eqb_spec q.1 0) as [H0|H0]; cbn [negb].
  + rewrite !bind_run. set (r := wc_chain _ _ q.2). simpl.
    destruct (Z.eqb_spec (wc_then r.1 r.2).1 0) as [H1|H1]; cbn [negb]; [done|].
    split; [by rewrite wc_error_success|]. intros Hs. destruct H1.
    unfold r. rewrite Hq by done. simpl. rewrite (chain_smooth parts (mret 0) s 0) by done.
    simpl. by rewrite wc_then_smooth.
  + simpl. split; [by rewrite wc_error_success|]. intros Hs. destruct H0. by rewrite Hq.
Qed.

(** * The block loops *)

(** A loop that ends within its fuel, with the given output unless it fails. *)
Definition loops (m : KM (option (psa_status_t * list byte))) (v : list byte) : Prop :=
pure_calls m /\
forall s, exists st out, (m s).1 = Some (st, out) /\
  (st = PSA_SUCCESS -> out = v) /\ (smooth s -> st = PSA_SUCCESS).

Lemma loops_done v : loops (mret (Some (PSA_SUCCESS, v))) v.
Proof. split; [apply pure_ret|]. intros s. by exists PSA_SUCCESS, v. Qed.

Lemma loops_bind {A} (m : KM (psa_status_t + A)) (v : A)
  (f : psa_status_t + A -> KM (option (psa_status_t * list byte))) w :
computes m v -> loops (f (inr v)) w ->
(forall e, exists out, f (inl e) = mret (Some (e, out))) -> loops (r ← m; f r) w.
Proof.
intros [Hp Hm] [Hfp Hf] He. split.
- intros s. rewrite bind_run. specialize (Hm s). destruct (Hp s) as (H1 & H2 & H3 & H4).
  destruct (m s).1 as [e|x]; cbn [fst].
  + destruct (He e) as [out ->]. by split_and!.
  + subst x. destruct (Hfp (m s).2) as (K1 & K2 & K3 & K4).
    split_and!; [by eapply same_ctx_trans|by eapply quiet_trans|congruence|auto].
- intros s. rewrite bind_run. specialize (Hm s). pose proof (pure_smooth m s Hp) as Hs.
  destruct (m s).1 as [e|x].
  + destruct (He e) as [out ->]. exists e, out. simpl. destruct Hm. by split_and!.
  + subst x. destruct (Hf (m s).2) as (st & out & Hr & H1 & H2). exists st, out. auto.
Qed.

(** The result of a loop as the backends return it. *)
Lemma loops_result ok m v e :
loops m v -> gives ok (r ← m; mret (default (e, []) r)) v.
Proof.
intros [Hp Hm]. split_and!.
- apply pure_bind; [done|]. intros. apply pure_ret.
- intros s. rewrite bind_run. destruct (Hm s) as (st & out & -> & H & _). done.
- intros _ s Hs. rewrite bind_run. destruct (Hm s) as (st & out & -> & _ & H). by apply H.
Qed.

Lemma sp800_blocks_loops fuel (block : list byte -> KM (psa_status_t + list byte)) f len n k :
0 < len -> (forall i, zlen (f i) = len) ->
(forall i, 1 <= i <= UINT32_MAX -> computes (block (u32_bytes i)) (f i)) ->
0 <= n <= UINT32_MAX -> n - Z.of_nat k * len < Z.of_nat fuel -> 0 < Z.of_nat fuel ->
loops (sp800_blocks fuel block len (to_u32 (Z.of_nat k + 1)) n
         (take (Z.to_nat n) (blocks_upto f k)))
      (block_stream f len n).
Proof.
intros Hlen Hf Hb Hn. revert k. induction fuel as [|fuel IH]; intros k Hfuel Hpos.
- simpl in Hpos. lia.
- simpl. pose proof (blocks_upto_length f len k Hf) as Hl.
  destruct (Z.ltb_spec (zlen (take (Z.to_nat n) (blocks_upto f k))) n) as [Hlt|Hge]; cbn [negb].
  + rewrite zlen_take, Hl in Hlt by lia.
    destruct (block_stream_step f len n k Hlen Hf ltac:(lia)) as [Hol Hstep].
    assert (Hkn : Z.of_nat k <= Z.of_nat k * len) by (clear -Hlen; nia).
    rewrite (to_u32_small (Z.of_nat k + 1)) by lia.
    apply (loops_bind _ (f (Z.of_nat k + 1))); [apply Hb; lia| |by eauto].
    replace (Z.of_nat k + 1) with (Z.of_nat (S k)) by lia. rewrite Hstep.
    assert (Hsk : Z.of_nat (S k) * len = Z.of_nat k * len + len) by lia.
    apply IH; lia.
  + rewrite zlen_take, Hl in Hge by lia.
    rewrite (block_stream_done f len n k) by (done || lia). apply loops_done.
Qed.

(** ** PBKDF2 with AES-CMAC *)

Lemma xor_bytes_length a b : length a = length b -> length (xor_bytes a b) = length a.
Proof. intros H. unfold xor_bytes. rewrite length_zip_with. lia. Qed.

Lemma foldl_xor_length l t :
Forall (fun u => length u = length t) l -> length (foldl xor_bytes t l) = length t.
Proof.
revert t; induction l as [|u l IH]; intros t; simpl; [done|].
intros [Hu Hl]%Forall_cons. rewrite IH; rewrite xor_bytes_length by done; done.
Qed.

Lemma cmac_length_nat key msg : length (cmac key msg) = 16%nat.
Proof. pose proof (cmac_length key msg) as H. unfold zlen, WC_AES_BLOCK_SIZE in H. lia. Qed.

Lemma pbkdf2_U_length c i j : length (pbkdf2_U c i j) = 16%nat.
Proof. unfold pbkdf2_U. destruct j; simpl; apply cmac_length_nat. Qed.

Lemma pbkdf2_block_length c i : zlen (pbkdf2_block c i) = WC_AES_BLOCK_SIZE.
Proof.
unfold pbkdf2_block, zlen. rewrite foldl_xor_length; [by rewrite pbkdf2_U_length|].
apply Forall_forall. intros u (j & -> & _)%list_elem_of_fmap. by rewrite !pbkdf2_U_length.
Qed.

Lemma fits_16 (l : list byte) : length l = 16%nat -> fits_word32 (zlen l) = true.
Proof. intros H. apply fits_word32_spec. unfold zlen, UINT32_MAX. lia. Qed.

Lemma pbkdf2_rounds_computes n key u t :
length u = 16%nat ->
computes (pbkdf2_rounds n key u t)
  (foldl xor_bytes t (map (fun j => Nat.iter j (cmac key) u) (seq 1 n))).
Proof.
revert u t; induction n as [|n IH]; intros u t Hu; [apply computes_ret|].
cbn [pbkdf2_rounds]. apply (computes_bind _ (cmac key u)); [| |done].
- pose proof (cmac_run_computes key [u]) as H. simpl in H. rewrite app_nil_r in H.
  apply H. constructor; [by apply fits_16|constructor].
- specialize (IH (cmac key u) (xor_bytes t (cmac key u)) (cmac_length_nat _ _)).
  replace (map (fun j => Nat.iter j (cmac key) u) (seq 1 (S n)))
    with (cmac key u :: map (fun j => Nat.iter j (cmac key) (cmac key u)) (seq 1 n)); [done|].
  simpl. f_equal. rewrite <- (seq_shift n 1), map_map. apply map_ext. intros j.
  symmetry. apply Nat.iter_succ_r.
Qed.

Lemma pbkdf2_blocks_loops fuel c n k :
let m := block_count WC_AES_BLOCK_SIZE n in
fits_word32 (zlen (kdf_salt c) + 4) = true ->
0 <= n -> m <= UINT32_MAX - 1 -> Z.of_nat k <= m -> m - Z.of_nat k < Z.of_nat fuel ->
loops (pbkdf2_blocks fuel (Z.of_nat k + 1) m (aes_cmac_prf_128_key (kdf_password c)) c n
         (take (Z.to_nat n) (blocks_upto (pbkdf2_block c) k)))
      (block_stream (pbkdf2_block c) WC_AES_BLOCK_SIZE n).
Proof.
intros m Hsalt Hn Hm. revert k. induction fuel as [|fuel IH]; intros k Hk Hfuel.
- simpl in Hfuel. lia.
- cbn [pbkdf2_blocks].
  pose proof (block_count_bounds WC_AES_BLOCK_SIZE n ltac:(done) Hn) as [Hb1 Hb2]. fold m in Hb1, Hb2.
  pose proof (pbkdf2_block_length c) as Hf.
  destruct (Z.leb_spec (Z.of_nat k + 1) m) as [Hle|Hgt]; cbn [negb].
  + destruct (block_stream_step (pbkdf2_block c) WC_AES_BLOCK_SIZE n k) as [Hol Hstep];
      [done|done|unfold WC_AES_BLOCK_SIZE in *; lia|].
    apply (loops_bind _ (pbkdf2_U c (Z.of_nat k + 1) 0)); [| |by eauto].
    { pose proof (cmac_run_computes (aes_cmac_prf_128_key (kdf_password c))
        [kdf_salt c ++ u32_bytes (Z.of_nat k + 1)]) as H. simpl in H. rewrite app_nil_r in H.
      apply H. constructor; [|constructor]. by rewrite zlen_app. }
    apply (loops_bind _ (pbkdf2_block c (Z.of_nat k + 1))); [| |by eauto].
    { apply pbkdf2_rounds_computes, pbkdf2_U_length. }
    rewrite (to_u32_small (Z.of_nat k + 1 + 1)) by (unfold UINT32_MAX in *; lia).
    replace (Z.of_nat k + 1) with (Z.of_nat (S k)) by lia.
    replace (if zlen (take (Z.to_nat n) (blocks_upto (pbkdf2_block c) k)) + WC_AES_BLOCK_SIZE <=? n
             then WC_AES_BLOCK_SIZE
             else n - zlen (take (Z.to_nat n) (blocks_upto (pbkdf2_block c) k)))
      with (if n <? zlen (take (Z.to_nat n) (blocks_upto (pbkdf2_block c) k)) + WC_AES_BLOCK_SIZE
            then n - zlen (take (Z.to_nat n) (blocks_upto (pbkdf2_block c) k))
            else WC_AES_BLOCK_SIZE) by (rewrite Z.leb_antisym; by destruct (_ <? _)).
    rewrite Hstep. apply IH; lia.
  + rewrite (block_stream_done (pbkdf2_block c) WC_AES_BLOCK_SIZE n k)
      by (done || unfold WC_AES_BLOCK_SIZE in *; lia).
    apply loops_done.
Qed.

(** * The backends *)

(** Amounts for which the 32-bit block counters do not wrap. *)
Definition counters_ok c (n : Z) : Prop :=
block_count WC_AES_BLOCK_SIZE n <= UINT32_MAX - 1 /\
(PSA_ALG_IS_SP800_108_COUNTER_HMAC (kdf_alg c) || (kdf_alg c =? PSA_ALG_SP800_108_COUNTER_CMAC)
 = true -> n <= UINT32_MAX).

Lemma hkdf_extract_computes h c :
fits_word32 (zlen (kdf_salt c)) = true -> fits_word32 (zlen (kdf_secret c)) = true ->
computes (hkdf_extract h c) (wc_HKDF_Extract_ex h (kdf_salt c) (kdf_secret c)).
Proof.
intros H1 H2. unfold hkdf_extract. rewrite !word32_buf_small by done. split.
- apply pure_bind; [apply pure_wc_call|]. intros. apply pure_ret.
- intros s. rewrite bind_run. simpl. destruct (Z.eqb_spec (wc_call s).1 0); [done|].
  split; [by rewrite wc_error_success|]. intros Hs. by rewrite wc_call_smooth in *.
Qed.

Lemma hkdf_expand_gives ok h prk c n :
fits_word32 (zlen (kdf_info c)) = true -> 0 <= n -> fits_word32 n = true ->
gives ok (hkdf_expand h prk c n) (wc_HKDF_Expand_ex h prk (kdf_info c) n).
Proof.
intros H1 Hn H2. unfold hkdf_expand. rewrite word32_buf_small by done.
apply fits_word32_spec in H2. rewrite to_u32_small by lia. apply gives_call.
Qed.

(** What a backend asks for, beyond the inputs being there. *)
Definition backend_available c : bool :=
let h := wolfpsa_hash_type_from_alg (kdf_alg c) in
let hash_ok := bool_decide (h <> WC_HASH_TYPE_NONE) && (0 <? wc_HashGetDigestSize h) in
let prf_ok := bool_decide (wolfpsa_prf_mac_from_alg (kdf_alg c) <> no_mac) in
kdf_is_raw_kdf c ||
(if PSA_ALG_IS_ANY_HKDF (kdf_alg c) then HAVE_HKDF && negb NO_HMAC && hash_ok
 else if PSA_ALG_IS_TLS12_PRF (kdf_alg c) || PSA_ALG_IS_TLS12_PSK_TO_MS (kdf_alg c)
 then WOLFSSL_HAVE_PRF && negb NO_HMAC && hash_ok && prf_ok
 else if PSA_ALG_IS_PBKDF2_HMAC (kdf_alg c) then HAVE_PBKDF2 && negb NO_HMAC && hash_ok
 else if PSA_ALG_IS_SP800_108_COUNTER_HMAC (kdf_alg c) then negb NO_HMAC && hash_ok
 else WOLFSSL_CMAC_AES && ((kdf_alg c =? PSA_ALG_PBKDF2_AES_CMAC_PRF_128) ||
                           (kdf_alg c =? PSA_ALG_SP800_108_COUNTER_CMAC))).

Record kdf_feasible c (n : Z) : Prop := {
kf_backend : backend_available c = true;
kf_length : 0 <= n <= INT_MAX;
kf_cost : kdf_cost c <= INT_MAX;
kf_secret : zlen (kdf_secret c) <= INT_MAX;
kf_salt : zlen (kdf_salt c) <= INT_MAX;
kf_info : zlen (kdf_info c) <= INT_MAX;
kf_label : zlen (kdf_label c) <= INT_MAX;
kf_context : zlen (kdf_context c) <= INT_MAX;
kf_seed : zlen (kdf_seed c) <= INT_MAX;
kf_password : zlen (kdf_password c) <= INT_MAX;
kf_extract : PSA_ALG_IS_HKDF_EXTRACT (kdf_alg c) = true ->
  n <= wc_HashGetDigestSize (wolfpsa_hash_type_from_alg (kdf_alg c));
kf_psk : PSA_ALG_IS_TLS12_PSK_TO_MS (kdf_alg c) = true ->
  zlen (kdf_secret c) <= UINT16_MAX /\ zlen (kdf_other_secret c) <= UINT16_MAX;
kf_cmac : kdf_alg c = PSA_ALG_SP800_108_COUNTER_CMAC ->
  zlen (kdf_secret c) = 16 \/ zlen (kdf_secret c) = 24 \/ zlen (kdf_secret c) = 32 }.

Lemma fits_le n : n <= INT_MAX -> fits_word32 n = true.
Proof. intros. apply fits_word32_spec. unfold INT_MAX, UINT32_MAX in *. lia. Qed.

(** Split a guard that is false into its parts. *)
Ltac guard_false H :=
repeat match type of H with
       | _ || _ = false => let H' := fresh H in apply orb_false_iff in H as [H H']; guard_false H'
       | negb _ = false => apply negb_false_iff in H
       end.

Lemma hash_available c n :
kdf_is_raw_kdf c = false ->
PSA_ALG_IS_ANY_HKDF (kdf_alg c) = true -> kdf_feasible c n ->
negb HAVE_HKDF || NO_HMAC = false /\
bool_decide (wolfpsa_hash_type_from_alg (kdf_alg c) = WC_HASH_TYPE_NONE) = false /\
(wc_HashGetDigestSize (wolfpsa_hash_type_from_alg (kdf_alg c)) <=? 0)
|| (WC_MAX_DIGEST_SIZE <? wc_HashGetDigestSize (wolfpsa_hash_type_from_alg (kdf_alg c))) = false.
Proof.
intros Hraw Hany Hf. pose proof (kf_backend _ _ Hf) as Hb. unfold backend_available in Hb.
rewrite Hraw, Hany in Hb. simpl in Hb.
apply andb_true_iff in Hb as [[H1 H2]%andb_true_iff [H3 H4]%andb_true_iff].
apply bool_decide_eq_true in H3. split_and!.
- rewrite H1. simpl. by apply negb_true_iff.
- by apply bool_decide_eq_false.
- pose proof (digest_size_max (wolfpsa_hash_type_from_alg (kdf_alg c))). lia.
Qed.

Lemma hkdf_gives c n :
kdf_is_raw_kdf c = false -> PSA_ALG_IS_ANY_HKDF (kdf_alg c) = true -> 0 <= n ->
gives (kdf_feasible c n) (wolfpsa_kdf_hkdf c n) (kdf_stream c n).
Proof.
intros Hraw Hany Hn. pose proof (hash_available c n Hraw Hany) as Hav.
unfold kdf_stream. rewrite Hraw, Hany. unfold wolfpsa_kdf_hkdf.
apply gives_guard; [done|intros H; by apply Hav|intros _].
apply gives_guard; [done|intros H; by apply Hav|intros _].
destruct (PSA_ALG_IS_HKDF_EXTRACT (kdf_alg c)) eqn:Hext.
- apply gives_guard; [done|intros H; by apply Hav|intros _].
  apply gives_guard; [done|intros H; by rewrite !fits_le by apply H|intros Hg; guard_false Hg].
  apply gives_guard; [done|intros H; by apply Z.ltb_ge, (kf_extract _ _ H)|intros _].
  eapply gives_bind; [by apply hkdf_extract_computes|apply gives_ret|by eauto].
- destruct (PSA_ALG_IS_HKDF_EXPAND (kdf_alg c)) eqn:Hexp.
  + apply gives_guard; [done|intros H; by rewrite !fits_le by apply H|intros Hg; guard_false Hg].
    rewrite word32_buf_small by done. by apply hkdf_expand_gives.
  + assert (Hh : PSA_ALG_IS_HKDF (kdf_alg c) = true).
    { unfold PSA_ALG_IS_ANY_HKDF, PSA_ALG_IS_HKDF, PSA_ALG_IS_HKDF_EXTRACT,
        PSA_ALG_IS_HKDF_EXPAND in *. rewrite Hext, Hexp, !orb_false_r in Hany. done. }
    rewrite Hh. apply gives_guard; [done|intros H; by apply Hav|intros Hd].
    apply gives_guard; [done|intros H; by rewrite !fits_le by apply H|intros Hg; guard_false Hg].
    eapply gives_bind; [by apply hkdf_extract_computes| |by eauto].
    pose proof (extract_length (wolfpsa_hash_type_from_alg (kdf_alg c)) (kdf_salt c)
                  (kdf_secret c)) as Hl.
    rewrite take_ge by (unfold zlen in Hl; lia). by apply hkdf_expand_gives.
Qed.

Lemma prf_available c n :
kdf_is_raw_kdf c = false -> PSA_ALG_IS_ANY_HKDF (kdf_alg c) = false ->
PSA_ALG_IS_TLS12_PRF (kdf_alg c) || PSA_ALG_IS_TLS12_PSK_TO_MS (kdf_alg c) = true ->
kdf_feasible c n ->
negb WOLFSSL_HAVE_PRF || NO_HMAC = false /\
bool_decide (wolfpsa_hash_type_from_alg (kdf_alg c) = WC_HASH_TYPE_NONE)
|| bool_decide (wolfpsa_prf_mac_from_alg (kdf_alg c) = no_mac) = false.
Proof.
intros Hraw Hany Hprf Hf. pose proof (kf_backend _ _ Hf) as Hb. unfold backend_available in Hb.
rewrite Hraw, Hany, Hprf in Hb. simpl in Hb.
apply andb_true_iff in Hb as [[[H1 H2]%andb_true_iff [H3 _]%andb_true_iff]%andb_true_iff H4].
apply bool_decide_eq_true in H3, H4. split.
- rewrite H1. simpl. by apply negb_true_iff.
- by rewrite !bool_decide_eq_false_2.
Qed.

Lemma tls12_prf_gives c n :
kdf_is_raw_kdf c = false -> PSA_ALG_IS_ANY_HKDF (kdf_alg c) = false ->
PSA_ALG_IS_TLS12_PRF (kdf_alg c) = true -> 0 <= n ->
gives (kdf_feasible c n) (wolfpsa_kdf_tls12_prf c n) (kdf_stream c n).
Proof.
intros Hraw Hany Hprf Hn. pose proof (prf_available c n Hraw Hany) as Hav.
rewrite Hprf in Hav. specialize (Hav eq_refl).
unfold kdf_stream. rewrite Hraw, Hany, Hprf. unfold wolfpsa_kdf_tls12_prf.
apply gives_guard; [done|intros H; by apply Hav|intros _].
apply gives_guard; [done|intros H; by apply Hav|intros _].
apply gives_guard; [done|intros H; by rewrite !fits_le by apply H|intros Hg; guard_false Hg].
rewrite !word32_buf_small by done. apply fits_word32_spec in Hg.
rewrite to_u32_small by lia. apply gives_call.
Qed.

Lemma u16_bytes_be n : u16_bytes n = be_bytes 2 n.
Proof.
unfold u16_bytes, be_bytes. simpl. by rewrite Z.shiftr_div_pow2 by lia.
Qed.

Lemma psk_premaster_rfc4279 c :
psk_premaster c = rfc4279_premaster
  (if has_step c WOLFPSA_KDF_STEP_OTHER_SECRET then kdf_other_secret c
   else replicate (length (kdf_secret c)) x00) (kdf_secret c).
Proof. unfold psk_premaster, rfc4279_premaster. by rewrite !u16_bytes_be. Qed.

Lemma premaster_length other psk :
zlen (rfc4279_premaster other psk) = 2 + zlen psk + 2 + zlen other.
Proof.
unfold rfc4279_premaster. rewrite !zlen_app. unfold zlen. rewrite !length_be_bytes. lia.
Qed.

Lemma psk_to_ms_gives c n :
kdf_is_raw_kdf c = false -> PSA_ALG_IS_ANY_HKDF (kdf_alg c) = false ->
PSA_ALG_IS_TLS12_PRF (kdf_alg c) = false ->
PSA_ALG_IS_TLS12_PSK_TO_MS (kdf_alg c) = true -> 0 <= n ->
gives (kdf_feasible c n) (wolfpsa_kdf_tls12_psk_to_ms c n) (kdf_stream c n).
Proof.
intros Hraw Hany Hprf Hpsk Hn. pose proof (prf_available c n Hraw Hany) as Hav.
rewrite Hprf, Hpsk in Hav. specialize (Hav eq_refl).
unfold kdf_stream. rewrite Hraw, Hany, Hprf, Hpsk. unfold wolfpsa_kdf_tls12_psk_to_ms.
rewrite psk_premaster_rfc4279.
set (other := if has_step c WOLFPSA_KDF_STEP_OTHER_SECRET then kdf_other_secret c
              else replicate (length (kdf_secret c)) x00).
replace (if has_step c WOLFPSA_KDF_STEP_OTHER_SECRET then zlen (kdf_other_secret c)
         else zlen (kdf_secret c)) with (zlen other).
2:{ unfold other. destruct (has_step c _); [done|]. unfold zlen. by rewrite length_replicate. }
assert (Hpre : kdf_feasible c n -> zlen other <= UINT16_MAX /\ zlen (kdf_secret c) <= UINT16_MAX).
{ intros H. destruct (kf_psk _ _ H Hpsk). split; [|done]. unfold other.
  destruct (has_step c _); [done|]. unfold zlen in *. by rewrite length_replicate. }
apply gives_guard; [done|intros H; by apply Hav|intros _].
apply gives_guard; [done|intros H; by apply Hav|intros _].
apply gives_guard; [done|intros H; destruct (Hpre H); lia|intros Hu; guard_false Hu].
apply gives_guard; [done| |intros Hg; guard_false Hg].
{ intros H. destruct (Hpre H). unfold UINT16_MAX in *.
  rewrite !fits_le by (apply H || (unfold INT_MAX; lia)). done. }
apply gives_malloc. rewrite (word32_buf_small (rfc4279_premaster _ _)) by (by rewrite premaster_length).
rewrite word32_buf_small by done. apply fits_word32_spec in Hg.
rewrite to_u32_small by lia. apply gives_call.
Qed.

Lemma pbkdf2_available c n :
kdf_is_raw_kdf c = false -> PSA_ALG_IS_ANY_HKDF (kdf_alg c) = false ->
PSA_ALG_IS_TLS12_PRF (kdf_alg c) || PSA_ALG_IS_TLS12_PSK_TO_MS (kdf_alg c) = false ->
PSA_ALG_IS_PBKDF2_HMAC (kdf_alg c) = true -> kdf_feasible c n ->
negb HAVE_PBKDF2 || NO_HMAC = false /\
bool_decide (wolfpsa_hash_type_from_alg (kdf_alg c) = WC_HASH_TYPE_NONE) = false.
Proof.
intros Hraw Hany Hprf Hpb Hf. pose proof (kf_backend _ _ Hf) as Hb. unfold backend_available in Hb.
rewrite Hraw, Hany, Hprf, Hpb in Hb. simpl in Hb.
apply andb_true_iff in Hb as [[H1 H2]%andb_true_iff [H3 _]%andb_true_iff].
apply bool_decide_eq_true in H3. split.
- rewrite H1. simpl. by apply negb_true_iff.
- by apply bool_decide_eq_false.
Qed.

Lemma cmac_available c n :
kdf_is_raw_kdf c = false -> PSA_ALG_IS_ANY_HKDF (kdf_alg c) = false ->
PSA_ALG_IS_TLS12_PRF (kdf_alg c) || PSA_ALG_IS_TLS12_PSK_TO_MS (kdf_alg c) = false ->
PSA_ALG_IS_PBKDF2_HMAC (kdf_alg c) = false ->
PSA_ALG_IS_SP800_108_COUNTER_HMAC (kdf_alg c) = false ->
kdf_feasible c n -> negb WOLFSSL_CMAC_AES = false.
Proof.
intros Hraw Hany Hprf Hpb Hsp Hf. pose proof (kf_backend _ _ Hf) as Hb.
unfold backend_available in Hb. rewrite Hraw, Hany, Hprf, Hpb, Hsp in Hb. simpl in Hb.
apply andb_true_iff in Hb as [H1 _]. by apply negb_false_iff.
Qed.

Lemma pbkdf2_prf_key_computes c :
fits_word32 (zlen (kdf_password c)) = true ->
computes (pbkdf2_prf_key c) (aes_cmac_prf_128_key (kdf_password c)).
Proof.
intros Hp. unfold pbkdf2_prf_key, aes_cmac_prf_128_key.
destruct (zlen (kdf_password c) =? WC_AES_BLOCK_SIZE); [apply computes_ret|].
pose proof (cmac_run_computes (replicate 16 x00) [kdf_password c]) as H.
simpl in H. rewrite app_nil_r in H. apply H. by constructor.
Qed.

Lemma pbkdf2_cmac_gives c n (ok : Prop) :
(ok -> kdf_feasible c n) -> (ok -> negb WOLFSSL_CMAC_AES = false) ->
0 <= n -> counters_ok c n ->
gives ok (pbkdf2_cmac c n) (block_stream (pbkdf2_block c) WC_AES_BLOCK_SIZE n).
Proof.
intros Hf Hav Hn [Hc _]. unfold pbkdf2_cmac.
apply gives_guard; [done|done|intros _].
apply gives_guard; [done|intros H; by rewrite fits_le by apply Hf, H|intros Hg; guard_false Hg].
apply gives_malloc.
eapply gives_bind; [by apply pbkdf2_prf_key_computes| |by eauto].
apply gives_guard; [done| |intros Hs; guard_false Hs].
{ intros H. apply negb_false_iff, fits_word32_spec. pose proof (kf_salt _ _ (Hf H)).
  unfold INT_MAX, UINT32_MAX in *. lia. }
apply gives_malloc. cbv zeta.
pose proof (block_count_bounds WC_AES_BLOCK_SIZE n ltac:(done) Hn) as [Hb1 Hb2].
rewrite to_size_small by (unfold SIZE_MAX, UINT32_MAX, WC_AES_BLOCK_SIZE in *; lia).
fold (block_count WC_AES_BLOCK_SIZE n).
apply (loops_result ok).
pose proof (pbkdf2_blocks_loops (S (Z.to_nat (block_count WC_AES_BLOCK_SIZE n))) c n 0) as H.
cbv zeta in H. rewrite blocks_upto_nil in H. apply H; [done|done|done|lia|lia].
Qed.

Lemma pbkdf2_gives c n :
kdf_is_raw_kdf c = false -> PSA_ALG_IS_ANY_HKDF (kdf_alg c) = false ->
PSA_ALG_IS_TLS12_PRF (kdf_alg c) || PSA_ALG_IS_TLS12_PSK_TO_MS (kdf_alg c) = false ->
PSA_ALG_IS_PBKDF2 (kdf_alg c) = true ->
PSA_ALG_IS_SP800_108_COUNTER_HMAC (kdf_alg c) = false ->
0 <= n -> counters_ok c n -> 0 <= kdf_cost c ->
gives (kdf_feasible c n) (wolfpsa_kdf_pbkdf2 c n) (kdf_stream c n).
Proof.
intros Hraw Hany Hprf Hpb Hsp Hn Hc Hcost. pose proof Hprf as Hprf'.
apply orb_false_iff in Hprf' as [H1 H2].
unfold kdf_stream. rewrite Hraw, Hany, H1, H2, Hpb. unfold wolfpsa_kdf_pbkdf2.
destruct (PSA_ALG_IS_PBKDF2_HMAC (kdf_alg c)) eqn:Hh.
- pose proof (pbkdf2_available c n Hraw Hany Hprf Hh) as Hav.
  apply gives_guard; [done|intros H; by apply Hav|intros _].
  apply gives_guard; [done|intros H; by apply Hav|intros _].
  apply gives_guard; [done| |intros Hg; guard_false Hg].
  { intros H. pose proof (kf_password _ _ H). pose proof (kf_salt _ _ H).
    pose proof (kf_cost _ _ H). pose proof (kf_length _ _ H). lia. }
  rewrite !int_buf_small, !to_int_small by (unfold INT_MAX in *; lia). apply gives_call.
- unfold PSA_ALG_IS_PBKDF2 in Hpb. rewrite Hh in Hpb. simpl in Hpb. rewrite Hpb.
  apply pbkdf2_cmac_gives; [done| |done|done].
  intros H. by apply (cmac_available c n).
Qed.

(** ** SP 800-108 *)

Lemma be_bytes_mod n z : be_bytes n (z mod 256 ^ Z.of_nat n) = be_bytes n z.
Proof.
rewrite <- be_val_be_bytes. rewrite <- (length_be_bytes n z) at 1. apply be_bytes_be_val.
Qed.

Lemma sp800_L_spec c : sp800_L c = u32_bytes (8 * kdf_L_bytes c).
Proof.
unfold sp800_L, u32_bytes, to_size. change 0xffffffff with (Z.ones 32).
rewrite Z.land_ones by lia.
rewrite <- (be_bytes_mod 4 (8 * _)). f_equal. change (256 ^ Z.of_nat 4) with (2 ^ 32).
rewrite Z.mod_mod_divide by (exists (2 ^ 32); lia). f_equal. lia.
Qed.

Lemma sp800_fixed_concat c : concat (sp800_fixed c) = sp800_data c.
Proof.
unfold sp800_fixed, sp800_data. rewrite sp800_L_spec.
assert (Hopt : forall l : list byte, concat (if 0 <? zlen l then [l] else []) = l).
{ intros l. destruct (Z.ltb_spec 0 (zlen l)); simpl; [by rewrite app_nil_r|].
  symmetry. apply zlen_0_nil. pose proof (zlen_nonneg l). lia. }
assert (Hone : forall l : list byte, concat [l] = l) by (intros; apply app_nil_r).
by rewrite !concat_app, !Hopt, !Hone.
Qed.

Lemma u32_length z : length (u32_bytes z) = 4%nat.
Proof. apply length_be_bytes. Qed.

Lemma sp800_fixed_fits c :
fits_word32 (zlen (kdf_label c)) = true -> fits_word32 (zlen (kdf_context c)) = true ->
Forall (fun p => fits_word32 (zlen p) = true) (sp800_fixed c).
Proof.
intros H1 H2. unfold sp800_fixed. rewrite sp800_L_spec. rewrite !Forall_app.
split_and!; try (destruct (0 <? _); by constructor); constructor; try done.
Qed.

Lemma fits_u32 z : fits_word32 (zlen (u32_bytes z)) = true.
Proof. apply fits_word32_spec. unfold zlen. rewrite u32_length. unfold UINT32_MAX. lia. Qed.

Lemma sp800_hmac_gives c n :
kdf_is_raw_kdf c = false -> PSA_ALG_IS_ANY_HKDF (kdf_alg c) = false ->
PSA_ALG_IS_TLS12_PRF (kdf_alg c) || PSA_ALG_IS_TLS12_PSK_TO_MS (kdf_alg c) = false ->
PSA_ALG_IS_PBKDF2 (kdf_alg c) = false ->
PSA_ALG_IS_SP800_108_COUNTER_HMAC (kdf_alg c) = true ->
0 <= n -> counters_ok c n ->
gives (kdf_feasible c n) (wolfpsa_kdf_sp800_108_hmac c n) (kdf_stream c n).
Proof.
intros Hraw Hany Hprf Hpb Hsp Hn [_ Hc]. pose proof Hprf as Hprf'.
apply orb_false_iff in Hprf' as [H1 H2].
unfold kdf_stream. rewrite Hraw, Hany, H1, H2, Hpb, Hsp. rewrite Hsp in Hc. specialize (Hc eq_refl).
assert (Hph : PSA_ALG_IS_PBKDF2_HMAC (kdf_alg c) = false).
{ unfold PSA_ALG_IS_PBKDF2 in Hpb. by apply orb_false_iff in Hpb as [? _]. }
assert (Hav : kdf_feasible c n -> NO_HMAC = false /\
  wolfpsa_hash_type_from_alg (kdf_alg c) <> WC_HASH_TYPE_NONE /\
  0 < wc_HashGetDigestSize (wolfpsa_hash_type_from_alg (kdf_alg c))).
{ intros Hf. pose proof (kf_backend _ _ Hf) as Hb. unfold backend_available in Hb.
  rewrite Hraw, Hany, Hprf, Hph, Hsp in Hb. simpl in Hb.
  apply andb_true_iff in Hb as [Ha [Hb Hd]%andb_true_iff]. apply bool_decide_eq_true in Hb.
  split_and!; [by apply negb_true_iff|done|lia]. }
unfold wolfpsa_kdf_sp800_108_hmac. set (h := wolfpsa_hash_type_from_alg (kdf_alg c)) in *.
apply gives_guard; [done|intros H; by apply Hav|intros _].
apply gives_guard; [done|intros H; by apply bool_decide_eq_false, Hav|intros _].
apply gives_guard; [done| |intros Hd].
{ intros H. pose proof (digest_size_max h). destruct (Hav H) as (_ & _ & Hd). lia. }
apply gives_guard; [done|intros H; by apply Z.ltb_ge, (kf_secret _ _ H)|intros Hs].
apply gives_guard; [done|intros H; by rewrite !fits_le by apply H|intros Hg; guard_false Hg].
apply loops_result. rewrite <- (blocks_upto_nil (sp800_hmac_block c) n) at 1.
apply (sp800_blocks_loops _ _ (sp800_hmac_block c) _ n 0); try lia.
- intros i. apply hmac_length. lia.
- intros i Hi. unfold sp800_hmac_block. rewrite <- sp800_fixed_concat. fold h.
  pose proof (hmac_run_computes h (kdf_secret c) (u32_bytes i :: sp800_fixed c)) as H.
  simpl concat in H. apply H; [|lia]. constructor; [apply fits_u32|by apply sp800_fixed_fits].
Qed.

Lemma sp800_cmac_gives c n :
kdf_is_raw_kdf c = false -> PSA_ALG_IS_ANY_HKDF (kdf_alg c) = false ->
PSA_ALG_IS_TLS12_PRF (kdf_alg c) || PSA_ALG_IS_TLS12_PSK_TO_MS (kdf_alg c) = false ->
PSA_ALG_IS_PBKDF2 (kdf_alg c) = false ->
PSA_ALG_IS_SP800_108_COUNTER_HMAC (kdf_alg c) = false ->
kdf_alg c = PSA_ALG_SP800_108_COUNTER_CMAC ->
0 <= n -> counters_ok c n ->
gives (kdf_feasible c n) (wolfpsa_kdf_sp800_108_cmac c n) (kdf_stream c n).
Proof.
intros Hraw Hany Hprf Hpb Hsp Halg Hn [_ Hc]. pose proof Hprf as Hprf'.
apply orb_false_iff in Hprf' as [H1 H2].
unfold kdf_stream. rewrite Hraw, Hany, H1, H2, Hpb, Hsp.
rewrite Hsp, (proj2 (Z.eqb_eq _ _) Halg) in Hc. specialize (Hc eq_refl).
assert (Hph : PSA_ALG_IS_PBKDF2_HMAC (kdf_alg c) = false).
{ unfold PSA_ALG_IS_PBKDF2 in Hpb. by apply orb_false_iff in Hpb as [? _]. }
unfold wolfpsa_kdf_sp800_108_cmac.
apply gives_guard; [done|intros H; by apply (cmac_available c n)|intros _].
apply gives_guard; [done| |intros _].
{ intros H. by destruct (kf_cmac _ _ H Halg) as [->|[->| ->]]. }
apply gives_guard; [done|intros H; by rewrite !fits_le by apply H|intros Hg; guard_false Hg].
apply gives_malloc.
pose proof (sp800_fixed_fits c Hg Hg0) as Hfix.
eapply gives_bind; [by apply cmac_run_computes| |by eauto].
apply loops_result. rewrite sp800_fixed_concat.
rewrite <- (blocks_upto_nil (sp800_cmac_block c) n) at 1.
apply (sp800_blocks_loops _ _ (sp800_cmac_block c) _ n 0); try (unfold WC_AES_BLOCK_SIZE in *; lia).
- intros i. apply cmac_length.
- intros i Hi. unfold sp800_cmac_block.
  pose proof (cmac_run_computes (kdf_secret c)
    (u32_bytes i :: sp800_fixed c ++ [cmac (kdf_secret c) (sp800_data c)])) as H.
  simpl concat in H. rewrite concat_app, sp800_fixed_concat in H. simpl in H.
  rewrite app_nil_r in H. apply H. constructor; [apply fits_u32|].
  apply Forall_app. split; [done|]. constructor; [apply fits_16, cmac_length_nat|constructor].
Qed.

(** * The dispatcher *)

Lemma pbkdf2_not_sp800 alg :
PSA_ALG_IS_PBKDF2 alg = true -> PSA_ALG_IS_SP800_108_COUNTER_HMAC alg = false.
Proof.
unfold PSA_ALG_IS_PBKDF2, PSA_ALG_IS_PBKDF2_HMAC, PSA_ALG_IS_SP800_108_COUNTER_HMAC,
  PSA_ALG_HASH_MASK.
rewrite orb_true_iff, !Z.eqb_eq, Z.eqb_neq. intros [->| ->]; done.
Qed.

Lemma gives_refuse (ok : Prop) e v : e <> PSA_SUCCESS -> ~ ok -> gives ok (mret (e, [])) v.
Proof. intros. by split_and!; [apply pure_ret| |]. Qed.

(** Every backend gives prefixes of the stream of its inputs. *)
Lemma compute_output_gives c n :
0 <= n -> counters_ok c n -> 0 <= kdf_cost c ->
gives (kdf_feasible c n) (wolfpsa_kdf_compute_output c n) (kdf_stream c n).
Proof.
intros Hn Hc Hcost. unfold wolfpsa_kdf_compute_output.
destruct (kdf_is_raw_kdf c) eqn:Hraw.
{ unfold kdf_stream. rewrite Hraw. apply gives_ret. }
destruct (PSA_ALG_IS_ANY_HKDF (kdf_alg c)) eqn:Hany; [by apply hkdf_gives|].
destruct (PSA_ALG_IS_TLS12_PRF (kdf_alg c)) eqn:Hprf; [by apply tls12_prf_gives|].
destruct (PSA_ALG_IS_TLS12_PSK_TO_MS (kdf_alg c)) eqn:Hpsk; [by apply psk_to_ms_gives|].
destruct (PSA_ALG_IS_PBKDF2 (kdf_alg c)) eqn:Hpb.
{ apply pbkdf2_gives; try done; [by rewrite Hprf, Hpsk|by apply pbkdf2_not_sp800]. }
destruct (PSA_ALG_IS_SP800_108_COUNTER_HMAC (kdf_alg c)) eqn:Hsp.
{ apply sp800_hmac_gives; try done. by rewrite Hprf, Hpsk. }
destruct (Z.eqb_spec (kdf_alg c) PSA_ALG_SP800_108_COUNTER_CMAC) as [Halg|Halg].
{ apply sp800_cmac_gives; try done. by rewrite Hprf, Hpsk. }
apply gives_refuse; [done|]. intros Hf. pose proof (kf_backend _ _ Hf) as Hb.
unfold backend_available in Hb. unfold PSA_ALG_IS_PBKDF2 in Hpb.
apply orb_false_iff in Hpb as [Hp1 Hp2]. apply Z.eqb_neq in Halg.
rewrite Hraw, Hany, Hprf, Hpsk, Hp1, Hsp, Hp2, Halg in Hb. simpl in Hb.
by rewrite andb_false_r in Hb.
Qed.

(** Shorter outputs are prefixes of longer ones, if the blocks have a length. *)
Definition stream_ready c : Prop :=
PSA_ALG_IS_SP800_108_COUNTER_HMAC (kdf_alg c) = true ->
kdf_is_raw_kdf c || PSA_ALG_IS_ANY_HKDF (kdf_alg c) || PSA_ALG_IS_TLS12_PRF (kdf_alg c)
  || PSA_ALG_IS_TLS12_PSK_TO_MS (kdf_alg c) || PSA_ALG_IS_PBKDF2 (kdf_alg c) = false ->
0 < wc_HashGetDigestSize (wolfpsa_hash_type_from_alg (kdf_alg c)).

Lemma kdf_stream_prefix c m n :
stream_ready c -> 0 <= m <= n -> kdf_stream c m = take (Z.to_nat m) (kdf_stream c n).
Proof.
intros Hr Hmn. unfold kdf_stream, stream_ready in *.
destruct (kdf_is_raw_kdf c); [by apply take_take_prefix|].
destruct (PSA_ALG_IS_ANY_HKDF (kdf_alg c)).
{ destruct (PSA_ALG_IS_HKDF_EXTRACT (kdf_alg c)); [by apply take_take_prefix|].
  destruct (PSA_ALG_IS_HKDF_EXPAND (kdf_alg c)); by apply (expand_streaming (D := WD)). }
destruct (PSA_ALG_IS_TLS12_PRF (kdf_alg c)); [by apply (prf_streaming (D := WD))|].
destruct (PSA_ALG_IS_TLS12_PSK_TO_MS (kdf_alg c)); [by apply (prf_streaming (D := WD))|].
destruct (PSA_ALG_IS_PBKDF2 (kdf_alg c)).
{ destruct (PSA_ALG_IS_PBKDF2_HMAC (kdf_alg c)); [by apply (pbkdf2_streaming (D := WD))|].
  apply block_stream_streaming; [done|apply pbkdf2_block_length|done]. }
destruct (PSA_ALG_IS_SP800_108_COUNTER_HMAC (kdf_alg c)).
- apply block_stream_streaming; [by apply Hr|intros; by apply hmac_length, Hr|done].
- apply block_stream_streaming; [done|intros; apply cmac_length|done].
Qed.

(** A backend that succeeds has checked its block length. *)
Lemma compute_success_ready c n s :
(wolfpsa_kdf_compute_output c n s).1.1 = PSA_SUCCESS -> stream_ready c.
Proof.
unfold wolfpsa_kdf_compute_output, stream_ready. intros Hs Hsp.
destruct (kdf_is_raw_kdf c); [done|]. destruct (PSA_ALG_IS_ANY_HKDF (kdf_alg c)); [done|].
destruct (PSA_ALG_IS_TLS12_PRF (kdf_alg c)); [done|].
destruct (PSA_ALG_IS_TLS12_PSK_TO_MS (kdf_alg c)); [done|].
destruct (PSA_ALG_IS_PBKDF2 (kdf_alg c)); [done|]. intros _.
rewrite Hsp in Hs. unfold wolfpsa_kdf_sp800_108_hmac in Hs.
destruct NO_HMAC; [done|]. destruct (bool_decide _); [done|].
destruct (Z.leb_spec (wc_HashGetDigestSize (wolfpsa_hash_type_from_alg (kdf_alg c))) 0);
  [done|lia].
Qed.

(** The length of the output. *)
Lemma kdf_stream_length c n :
kdf_is_raw_kdf c || (PSA_ALG_IS_ANY_HKDF (kdf_alg c) && PSA_ALG_IS_HKDF_EXTRACT (kdf_alg c))
= false ->
stream_ready c -> 0 <= n -> zlen (kdf_stream c n) = n.
Proof.
intros [Hraw Hex]%orb_false_iff Hr Hn. unfold kdf_stream, stream_ready in *. rewrite Hraw in *.
destruct (PSA_ALG_IS_ANY_HKDF (kdf_alg c)).
{ simpl in Hex. rewrite Hex. destruct (PSA_ALG_IS_HKDF_EXPAND (kdf_alg c)); by apply (expand_streaming (D := WD)). }
destruct (PSA_ALG_IS_TLS12_PRF (kdf_alg c)); [by apply (prf_streaming (D := WD))|].
destruct (PSA_ALG_IS_TLS12_PSK_TO_MS (kdf_alg c)); [by apply (prf_streaming (D := WD))|].
destruct (PSA_ALG_IS_PBKDF2 (kdf_alg c)).
{ destruct (PSA_ALG_IS_PBKDF2_HMAC (kdf_alg c)); [by apply (pbkdf2_streaming (D := WD))|].
  apply block_stream_streaming; [done|apply pbkdf2_block_length|done]. }
destruct (PSA_ALG_IS_SP800_108_COUNTER_HMAC (kdf_alg c)).
- apply block_stream_streaming; [by apply Hr|intros; by apply hmac_length, Hr|done].
- apply block_stream_streaming; [done|intros; apply cmac_length|done].
Qed.

Lemma compute_success_length c n s :
kdf_is_raw_kdf c = false -> 0 <= n ->
(wolfpsa_kdf_compute_output c n s).1.1 = PSA_SUCCESS -> zlen (kdf_stream c n) = n.
Proof.
intros Hraw Hn Hs. pose proof (compute_success_ready _ _ _ Hs) as Hr.
destruct (PSA_ALG_IS_ANY_HKDF (kdf_alg c) && PSA_ALG_IS_HKDF_EXTRACT (kdf_alg c)) eqn:Hex;
  [|apply kdf_stream_length; [by rewrite Hraw, Hex|done|done]].
apply andb_true_iff in Hex as [Hany Hex].
unfold kdf_stream. rewrite Hraw, Hany, Hex. unfold wolfpsa_kdf_compute_output in Hs.
rewrite Hraw, Hany in Hs. unfold wolfpsa_kdf_hkdf in Hs. rewrite Hex in Hs.
destruct (negb HAVE_HKDF || NO_HMAC); [done|]. destruct (bool_decide _); [done|].
destruct (Z.leb_spec (wc_HashGetDigestSize (wolfpsa_hash_type_from_alg (kdf_alg c))) 0); [done|].
simpl in Hs. destruct (WC_MAX_DIGEST_SIZE <? _); [done|]. destruct (negb _ || negb _); [done|].
destruct (Z.ltb_spec (wc_HashGetDigestSize (wolfpsa_hash_type_from_alg (kdf_alg c))) n); [done|].
rewrite zlen_take, (extract_length (D := WD)) by done. lia.
Qed.
End Streams.
