(* ===== verification/KdfInv.v ===== *)
(** The invariant of a key-derivation context, and what one output call of
    [Kdf] does: it delivers the next bytes of [kdf_stream], or it delivers
    nothing of it and the position stays. *)

From stdpp Require Import base decidable list.
From Stdlib Require Import ZArith Lia.
From Stdlib Require Import Strings.Byte.
From S2P Require Import Prelude.
From S2P Require Import Values.
From S2P Require Import Engine.
From S2P Require Import WolfCrypt.
From S2P Require Import KeyFormat.
From S2P Require Import StoreIface.
From S2P Require Import Library.
From S2P Require Import KeyStore.
From S2P Require Import KeyStoreRules.
From S2P Require Import Operation.
From S2P Require Import KeyAgreement.
From S2P Require Import Kdf.
From S2P Require Import KdfStream.

#[local] Open Scope Z_scope.

(** What the stream depends on: the context without position, capacity, cache
    and state flags. *)
Definition kdf_inputs (c : wolfpsa_kdf_ctx) : wolfpsa_kdf_ctx :=
  with_capacity 0 (with_output_offset 0 (with_output_started false
    (with_error_state false (with_output_cache None c)))).

Definition is_sp800 (alg : Z) : bool :=
  PSA_ALG_IS_SP800_108_COUNTER_HMAC alg || (alg =? PSA_ALG_SP800_108_COUNTER_CMAC).

Definition unlimited (cap : Z) : Prop := cap = PSA_KEY_DERIVATION_UNLIMITED_CAPACITY.

Section Invariant.
Context {C : Config} {E : WolfCryptErr} {K : WolfCryptKeys} {R : WolfCryptRng}.
Context {O : StoreOps} {B : KeyBackend} {DH : WolfCryptDh} {WM : WolfCryptMisc}.
Context {WD : WolfCryptDigest} {WK : WolfCryptKdf} {WH : WolfCryptHmac} {WC : WolfCryptCmac}.
Context {WKO : WolfCryptKdfOk WD WK} {WHO : WolfCryptHmacOk WD WH} {WCO : WolfCryptCmacOk WC}.

Notation KM := (M (opstate O wolfpsa_kdf_ctx)).
Implicit Types c : wolfpsa_kdf_ctx.
Implicit Types s : opstate O wolfpsa_kdf_ctx.

(** * The invariant *)

Record kdf_inv c : Prop := {
inv_capacity : 0 <= kdf_capacity c <= SIZE_MAX;
inv_offset : 0 <= kdf_output_offset c <= SIZE_MAX;
inv_cost : 0 <= kdf_cost c <= UINT32_MAX;
(** What was delivered and what may still be delivered stay within the
    capacity of the algorithm. *)
inv_bound cap : kdf_default_capacity (kdf_alg c) = Some cap -> ~ unlimited cap ->
  kdf_output_offset c + kdf_capacity c <= cap;
inv_started : kdf_output_started c = false -> kdf_output_offset c = 0 /\ kdf_output_cache c = None;
(** The cache is a part of the stream that covers the rest of the capacity. *)
inv_cache cache : kdf_output_cache c = Some cache ->
  kdf_is_raw_kdf c = false /\ stream_ready c /\ ~ unlimited (kdf_capacity c) /\
  kdf_output_offset c + kdf_capacity c <= zlen cache <= WOLFPSA_KDF_MAX_CACHE_BYTES /\
  cache = kdf_stream c (zlen cache) }.

Definition frozen c c' : Prop := kdf_inputs c' = kdf_inputs c.

Lemma frozen_refl c : frozen c c.
Proof. done. Qed.
Lemma frozen_trans c1 c2 c3 : frozen c1 c2 -> frozen c2 c3 -> frozen c1 c3.
Proof. unfold frozen. congruence. Qed.

(** Everything below depends on the inputs only. *)
Lemma stream_inputs c n : kdf_stream (kdf_inputs c) n = kdf_stream c n.
Proof. done. Qed.
Lemma frozen_stream c c' n : frozen c c' -> kdf_stream c' n = kdf_stream c n.
Proof. intros H. by rewrite <- (stream_inputs c'), H. Qed.
Lemma frozen_counters c c' n : frozen c c' -> counters_ok c' n <-> counters_ok c n.
Proof. intros H. change (counters_ok (kdf_inputs c') n <-> counters_ok c n). by rewrite H. Qed.
Lemma frozen_ready c c' : frozen c c' -> stream_ready c' <-> stream_ready c.
Proof. intros H. change (stream_ready (kdf_inputs c') <-> stream_ready c). by rewrite H. Qed.
Lemma frozen_alg c c' : frozen c c' -> kdf_alg c' = kdf_alg c.
Proof. intros H. change (kdf_alg (kdf_inputs c') = kdf_alg c). by rewrite H. Qed.
Lemma frozen_raw c c' : frozen c c' -> kdf_is_raw_kdf c' = kdf_is_raw_kdf c.
Proof. intros H. change (kdf_is_raw_kdf (kdf_inputs c') = kdf_is_raw_kdf c). by rewrite H. Qed.
Lemma frozen_cost c c' : frozen c c' -> kdf_cost c' = kdf_cost c.
Proof. intros H. change (kdf_cost (kdf_inputs c') = kdf_cost c). by rewrite H. Qed.
Lemma frozen_key c c' : frozen c c' -> kdf_can_output_key c' = kdf_can_output_key c.
Proof. intros H. change (kdf_can_output_key (kdf_inputs c') = kdf_can_output_key c). by rewrite H. Qed.
Lemma frozen_feasible c c' n : frozen c c' -> kdf_feasible c' n <-> kdf_feasible c n.
Proof.
intros H. assert (Hi : forall c, kdf_feasible (kdf_inputs c) n <-> kdf_feasible c n).
{ intros d. split; intros []; by split. }
by rewrite <- (Hi c'), H.
Qed.

(** ** Initial states and inputs *)

Lemma default_capacity_range alg cap :
kdf_default_capacity alg = Some cap -> 0 <= cap <= SIZE_MAX.
Proof.
pose proof (max_digest_size (D := WD)). pose proof (digest_size_max (D := WD) (wolfpsa_hash_type_from_alg alg)).
unfold kdf_default_capacity, PSA_KEY_DERIVATION_UNLIMITED_CAPACITY, SIZE_MAX.
destruct (PSA_ALG_IS_ANY_HKDF alg); simpl.
- destruct (Z.leb_spec (wc_HashGetDigestSize (wolfpsa_hash_type_from_alg alg)) 0); [done|].
  repeat case_match; intros [= <-]; lia.
- repeat case_match; intros [= <-]; lia.
Qed.

Lemma inv_initial alg kalg cap :
kdf_default_capacity kalg = Some cap -> kdf_inv (kdf_initial alg kalg cap).
Proof.
intros Hd. pose proof (default_capacity_range _ _ Hd).
split; simpl; try done; try (unfold SIZE_MAX, UINT32_MAX in *; lia).
intros cap'. rewrite Hd. intros [= ->]. lia.
Qed.

(** An update of the inputs before any output. *)
Lemma inv_update c c' :
kdf_inv c -> kdf_output_started c = false -> kdf_alg c' = kdf_alg c ->
kdf_capacity c' = kdf_capacity c -> kdf_output_offset c' = kdf_output_offset c ->
kdf_output_started c' = false -> kdf_output_cache c' = kdf_output_cache c ->
0 <= kdf_cost c' <= UINT32_MAX -> kdf_inv c'.
Proof.
intros [] Hs Ha Hc Ho Hs' Hca Hco. destruct (inv_started0 Hs) as [Hz Hn].
split; rewrite ?Ha, ?Hc, ?Ho, ?Hca, ?Hn; try done.
Qed.

(** A lower capacity, or another state flag. *)
Lemma inv_lower c c' :
kdf_inv c -> frozen c c' -> 0 <= kdf_capacity c' <= kdf_capacity c ->
(kdf_capacity c' = kdf_capacity c \/ ~ unlimited (kdf_capacity c')) ->
kdf_output_offset c' = kdf_output_offset c -> kdf_output_cache c' = kdf_output_cache c ->
(kdf_output_started c' = false -> kdf_output_started c = false) -> kdf_inv c'.
Proof.
intros [] Hf Hc Hu Ho Hca Hs.
split; rewrite ?(frozen_alg _ _ Hf), ?(frozen_cost _ _ Hf), ?(frozen_raw _ _ Hf), ?Ho, ?Hca;
  try done; try lia.
- intros cap H1 H2. specialize (inv_bound0 cap H1 H2). lia.
- intros H. by apply inv_started0, Hs.
- intros cache Hcache. destruct (inv_cache0 cache Hcache) as (H1 & H2 & H3 & H4 & H5).
  rewrite (frozen_ready _ _ Hf), (frozen_stream _ _ _ Hf). split_and!; try done; try lia.
  by destruct Hu as [->|].
Qed.

(** * One output call *)

(** A part of the stream does not depend on how far it was computed. *)
Lemma stream_slice c m n k :
stream_ready c -> 0 <= m -> 0 <= n -> m + n <= k ->
slice (kdf_stream c k) m n = slice (kdf_stream c (m + n)) m n.
Proof.
intros Hr Hm Hn Hk. rewrite (kdf_stream_prefix c (m + n) k) by (done || lia).
by rewrite slice_take by lia.
Qed.

Lemma small_counters c n :
0 <= n <= WOLFPSA_KDF_MAX_CACHE_BYTES -> counters_ok c n.
Proof.
unfold WOLFPSA_KDF_MAX_CACHE_BYTES, counters_ok, block_count, WC_AES_BLOCK_SIZE, UINT32_MAX.
intros. split; [|lia]. assert ((n + 16 - 1) / 16 <= (65536 + 16 - 1) / 16) by (apply Z.div_le_mono; lia).
unfold UINT32_MAX. change ((65536 + 16 - 1) / 16) with 4096 in *. lia.
Qed.

(** ** The backends touch nothing but the allocator and wolfCrypt *)

Ltac pure_calls_tac :=
repeat first [ apply pure_ret | apply pure_wc_call | apply pure_wc_then | apply pure_malloc
             | apply pure_bind; [|intros] | progress cbv beta iota | case_match ].

Lemma cmac_run_pure key parts : pure_calls (cmac_run (O := O) key parts).
Proof.
unfold cmac_run. apply pure_bind; [apply pure_wc_call|]. intros ret.
apply pure_if; [apply pure_ret|]. apply pure_bind; [apply chain_pure, pure_ret|].
intros. pure_calls_tac.
Qed.

Lemma hmac_run_pure h key parts : pure_calls (hmac_run (O := O) h key parts).
Proof.
unfold hmac_run. apply pure_bind; [apply pure_wc_call|]. intros ret.
apply pure_bind; [apply pure_wc_then|]. intros ret'.
apply pure_if; [apply pure_ret|]. apply pure_bind; [apply chain_pure, pure_ret|].
intros. pure_calls_tac.
Qed.

Lemma pbkdf2_rounds_pure n key u t : pure_calls (pbkdf2_rounds (O := O) n key u t).
Proof.
revert u t; induction n as [|n IH]; intros u t; cbn [pbkdf2_rounds]; [apply pure_ret|].
apply pure_bind; [apply cmac_run_pure|]. intros [e|u']; [apply pure_ret|apply IH].
Qed.

Lemma pbkdf2_blocks_pure fuel i blocks key c n out :
pure_calls (pbkdf2_blocks (O := O) fuel i blocks key c n out).
Proof.
revert i out; induction fuel as [|fuel IH]; intros i out; cbn [pbkdf2_blocks]; [apply pure_ret|].
apply pure_if; [apply pure_ret|]. apply pure_bind; [apply cmac_run_pure|].
intros [e|u]; [apply pure_ret|]. apply pure_bind; [apply pbkdf2_rounds_pure|].
intros [e|t]; [apply pure_ret|apply IH].
Qed.

Lemma sp800_blocks_pure fuel (block : list byte -> KM (psa_status_t + list byte)) len i n out :
(forall l, pure_calls (block l)) -> pure_calls (sp800_blocks fuel block len i n out).
Proof.
intros Hb. revert i out; induction fuel as [|fuel IH]; intros i out; cbn [sp800_blocks];
  [apply pure_ret|].
apply pure_if; [apply pure_ret|]. apply pure_bind; [apply Hb|].
intros [e|b]; [apply pure_ret|apply IH].
Qed.

Lemma hkdf_pure c n : pure_calls (wolfpsa_kdf_hkdf (O := O) c n).
Proof.
unfold wolfpsa_kdf_hkdf, hkdf_extract, hkdf_expand. cbv zeta.
repeat first [ apply pure_if | apply pure_ret | apply pure_bind; [|intros]
             | apply pure_wc_call | case_match ].
Qed.

Lemma pbkdf2_pure c n : pure_calls (wolfpsa_kdf_pbkdf2 (O := O) c n).
Proof.
unfold wolfpsa_kdf_pbkdf2, pbkdf2_cmac, pbkdf2_prf_key. cbv zeta.
repeat first [ apply cmac_run_pure | apply pbkdf2_blocks_pure | apply pure_wc_call
             | apply pure_malloc | apply pure_ret | apply pure_if
             | apply pure_bind; [|intros] | case_match ].
Qed.

Lemma compute_pure c n : pure_calls (wolfpsa_kdf_compute_output (O := O) c n).
Proof.
unfold wolfpsa_kdf_compute_output.
repeat (apply pure_if; [first [apply pure_ret|apply hkdf_pure|apply pbkdf2_pure|idtac]|]).
- unfold wolfpsa_kdf_tls12_prf. pure_calls_tac.
- unfold wolfpsa_kdf_tls12_psk_to_ms. pure_calls_tac.
- unfold wolfpsa_kdf_sp800_108_hmac. cbv zeta. repeat (apply pure_if; [apply pure_ret|]).
  apply pure_bind; [|intros; apply pure_ret]. apply sp800_blocks_pure.
  intros. apply hmac_run_pure.
- unfold wolfpsa_kdf_sp800_108_cmac. repeat (apply pure_if; [apply pure_ret|]).
  apply pure_bind; [apply pure_malloc|intros]. apply pure_if; [apply pure_ret|].
  apply pure_bind; [apply cmac_run_pure|]. intros [e|k0]; [apply pure_ret|].
  apply pure_bind; [|intros; apply pure_ret]. apply sp800_blocks_pure.
  intros. apply cmac_run_pure.
- apply pure_ret.
Qed.

(** What a computed output is, whatever fails. *)
Lemma wp_compute c n (Q : psa_status_t * list byte -> opstate O wolfpsa_kdf_ctx -> Prop) s :
0 <= n -> 0 <= kdf_cost c ->
(forall st out s', same_ctx s s' -> (smooth s -> smooth s') ->
   (st = PSA_SUCCESS -> stream_ready c) ->
   (counters_ok c n -> st = PSA_SUCCESS ->
      out = kdf_stream c n /\ (kdf_is_raw_kdf c = false -> zlen out = n)) ->
   (counters_ok c n -> kdf_feasible c n -> smooth s -> st = PSA_SUCCESS) -> Q (st, out) s') ->
wp (wolfpsa_kdf_compute_output c n) Q s.
Proof.
intros Hn Hcost HQ. unfold wp. destruct (compute_pure c n s) as (H1 & H2 & _ & _).
rewrite (surjective_pairing (wolfpsa_kdf_compute_output c n s).1).
apply HQ; [done|by apply pure_smooth, compute_pure|by apply compute_success_ready| |].
- intros Hc Hst. destruct (compute_output_gives c n Hn Hc Hcost) as (_ & Hv & _).
  rewrite (Hv _ Hst). split; [done|]. intros Hraw. by apply (compute_success_length c n s).
- intros Hc Hf. destruct (compute_output_gives c n Hn Hc Hcost) as (_ & _ & Hs). by apply Hs.
Qed.

(** ** Delivery *)

(** The buffer of a call that failed: untouched, or zeroed. *)
Definition no_output (out : option (list byte)) : Prop :=
out = None \/ exists n, out = Some (replicate n x00).

(** The cache, if any, holds the bytes asked for. *)
Definition cache_covers c (n : Z) : Prop :=
forall cache, kdf_output_cache c = Some cache ->
  n <= zlen cache /\ cache = kdf_stream c (zlen cache) /\ stream_ready c.

(** The [n] bytes of the stream from [m], all of them. *)
Definition stream_part c (m n : Z) (out : option (list byte)) : Prop :=
counters_ok c (m + n) ->
out = Some (slice (kdf_stream c (m + n)) m n) /\ zlen (kdf_stream c (m + n)) = m + n /\
stream_ready c.

Definition delivers c (n : Z) (st : psa_status_t) (out : option (list byte)) : Prop :=
match st with
| PSA_SUCCESS => stream_part c (kdf_output_offset c) n out
| _ => no_output out
end.

(** A raw derivation has all the bytes asked for. *)
Definition raw_covers c (n : Z) : Prop :=
kdf_is_raw_kdf c = true -> n <= zlen (kdf_secret c).

Lemma stream_total c n :
0 <= n -> raw_covers c n -> (kdf_is_raw_kdf c = false -> zlen (kdf_stream c n) = n) ->
zlen (kdf_stream c n) = n.
Proof.
intros Hn Hraw Hlen. destruct (kdf_is_raw_kdf c) eqn:Hr; [|by apply Hlen].
unfold kdf_stream. rewrite Hr, zlen_take by done. specialize (Hraw Hr). lia.
Qed.

Lemma wp_deliver c n
  (Q : psa_status_t * option (list byte) -> opstate O wolfpsa_kdf_ctx -> Prop) s :
0 <= n -> 0 <= kdf_output_offset c -> kdf_output_offset c + n <= SIZE_MAX -> 0 <= kdf_cost c ->
cache_covers c (kdf_output_offset c + n) -> raw_covers c (kdf_output_offset c + n) ->
(forall st out s', same_ctx s s' -> (smooth s -> smooth s') -> delivers c n st out ->
   (counters_ok c (kdf_output_offset c + n) ->
      kdf_feasible c (kdf_output_offset c + n) -> smooth s -> st = PSA_SUCCESS) ->
   Q (st, out) s') ->
wp (kdf_deliver c n) Q s.
Proof.
intros Hn Hoff Htot Hcost Hcache Hraw HQ. unfold kdf_deliver. cbv zeta.
rewrite to_size_small by lia. set (t := kdf_output_offset c + n) in *.
destruct (kdf_output_cache c) as [cache|] eqn:Hca.
- destruct (Hcache cache Hca) as (H1 & H2 & H3).
  destruct (Z.ltb_spec (zlen cache) t); [lia|]. apply wp_ret, HQ; try done.
  intros _. rewrite H2. split_and!; [f_equal; apply stream_slice; (done || lia)| |done].
  rewrite (kdf_stream_prefix c _ (zlen cache)) by (done || lia). rewrite <- H2, zlen_take by lia.
  lia.
- destruct (Z.eqb_spec (kdf_output_offset c) 0) as [H0|H0].
  + assert (Ht : t = n) by lia. apply wp_bind, wp_compute; [done|done|].
    intros st out s' Hs Hsm Hrd Hv Hok. rewrite Ht in HQ, Hraw.
    destruct st; apply wp_ret, HQ; try done; try (right; by eexists).
    intros Hc. rewrite H0 in *. replace (0 + n) with n in * by lia.
    destruct (Hv Hc eq_refl) as [-> Hlen]. split_and!; [|by apply stream_total|by apply Hrd].
    f_equal. unfold slice. simpl. rewrite drop_0. apply kdf_stream_prefix; [by apply Hrd|lia].
  + apply wp_bind, wp_malloc. intros b s' Hs _ Hr Hb. destruct b; cbn [negb].
    * apply wp_bind, wp_compute; [lia|done|].
      intros st out s2 Hs2 Hsm Hrd Hv Hok.
      destruct st; apply wp_ret, HQ; try (by eapply same_ctx_trans); try (by left);
        try (intros; apply Hsm, Hb; done); try (intros Hc Hf Hsm'; apply Hok; [done|done|by apply Hb]).
      intros Hc. destruct (Hv Hc eq_refl) as [-> Hlen].
      split_and!; [done| |by apply Hrd]. apply stream_total; [lia|done|done].
    * apply wp_ret, HQ; [done|intros; by apply Hb|by left|]. intros _ _ Hsm. by destruct (Hb Hsm).
Qed.

(** ** The steps of an output call *)

(** [cap'] is left of [cap] after [n] bytes. *)
Definition takes (cap n cap' : Z) : Prop :=
(unlimited cap /\ cap' = cap) \/ (~ unlimited cap /\ n <= cap /\ cap' = cap - n).

Lemma snapshot_frame c :
let b := kdf_snapshot_L c in
kdf_capacity b = kdf_capacity c /\ kdf_output_offset b = kdf_output_offset c /\
kdf_error_state b = kdf_error_state c /\ kdf_output_started b = kdf_output_started c /\
kdf_output_cache b = kdf_output_cache c /\ kdf_alg b = kdf_alg c /\ kdf_cost b = kdf_cost c /\
kdf_is_raw_kdf b = kdf_is_raw_kdf c /\ kdf_secret b = kdf_secret c /\
kdf_can_output_key b = kdf_can_output_key c.
Proof. unfold kdf_snapshot_L. by case_match. Qed.

Lemma snapshot_key c : kdf_can_output_key (kdf_snapshot_L c) = kdf_can_output_key c.
Proof. apply snapshot_frame. Qed.

Lemma snapshot_started c : kdf_output_started c = true -> kdf_snapshot_L c = c.
Proof. intros H. unfold kdf_snapshot_L. by rewrite H, andb_false_r. Qed.

Lemma inv_snapshot c : kdf_inv c -> kdf_inv (kdf_snapshot_L c).
Proof.
intros Hi. destruct (kdf_output_started c) eqn:Hs; [by rewrite snapshot_started|].
pose proof (snapshot_frame c) as (H1 & H2 & H3 & H4 & H5 & H6 & H7 & _ & _ & _).
apply (inv_update c); try done; [by rewrite H4|]. rewrite H7. apply Hi.
Qed.

Lemma require_output_spec c n :
kdf_inv c -> 0 <= n ->
let '(st, c1) := wolfpsa_kdf_require_output c n in
kdf_inv c1 /\ frozen c c1 /\ kdf_output_offset c1 = kdf_output_offset c /\
kdf_error_state c1 = kdf_error_state c /\ kdf_output_cache c1 = kdf_output_cache c /\
kdf_output_started c1 = kdf_output_started c /\ kdf_capacity c1 <= kdf_capacity c /\
match st with
| PSA_SUCCESS => takes (kdf_capacity c) n (kdf_capacity c1)
| e => e = PSA_ERROR_INSUFFICIENT_DATA /\ ~ unlimited (kdf_capacity c) /\ kdf_capacity c < n
end.
Proof.
intros Hi Hn. unfold wolfpsa_kdf_require_output. pose proof (inv_capacity c Hi) as Hc.
destruct (Z.eqb_spec (kdf_capacity c) PSA_KEY_DERIVATION_UNLIMITED_CAPACITY) as [Hu|Hu].
{ split_and!; try done. by left. }
destruct (Z.ltb_spec (kdf_capacity c) n).
- split_and!; try done; [|simpl; lia].
  apply (inv_lower c); simpl; try done; [lia|]. right. by unfold unlimited.
- split_and!; try done; [|simpl; lia|].
  + apply (inv_lower c); simpl; try done; [lia|].
    destruct (decide (n = 0)); [left; lia|]. right.
    unfold unlimited, PSA_KEY_DERIVATION_UNLIMITED_CAPACITY. lia.
  + right. split_and!; try done.
Qed.

Lemma inv_start c : kdf_inv c -> kdf_inv (with_output_started true c).
Proof. intros Hi. pose proof (inv_capacity c Hi). apply (inv_lower c); simpl; try done; [lia|by left]. Qed.

(** The output cache: filled with everything that may still be asked for. *)
Lemma wp_fill_cache c n (Q : psa_status_t -> opstate O wolfpsa_kdf_ctx -> Prop) s :
kdf_inv c -> kdf_output_started c = true -> 0 <= n -> op_ctx s = Some c ->
kdf_wants_cache c n = true -> n + kdf_capacity c <= SIZE_MAX ->
(forall st s', (smooth s -> smooth s') ->
   (st <> PSA_SUCCESS -> op_ctx s' = Some c) ->
   (st = PSA_SUCCESS -> exists cache, op_ctx s' = Some (with_output_cache (Some cache) c) /\
      kdf_inv (with_output_cache (Some cache) c) /\ zlen cache = n + kdf_capacity c) ->
   (kdf_feasible c (n + kdf_capacity c) -> smooth s -> st = PSA_SUCCESS) -> Q st s') ->
wp (kdf_fill_cache c n) Q s.
Proof.
intros Hi Hst Hn Hctx Hw Hmax HQ. pose proof (inv_capacity c Hi) as Hcap.
unfold kdf_wants_cache in Hw. rewrite to_size_small in Hw by lia.
destruct (kdf_output_cache c) eqn:Hcache; [done|]. simpl in Hw.
apply andb_true_iff in Hw as [[[Hraw Hu]%andb_true_iff Hoff]%andb_true_iff Hsmall].
apply negb_true_iff in Hraw, Hu. apply Z.eqb_neq in Hu. apply Z.eqb_eq in Hoff.
apply Z.leb_le in Hsmall. unfold kdf_fill_cache. cbv zeta. rewrite to_size_small by lia.
assert (Hcnt : counters_ok c (n + kdf_capacity c)) by (apply small_counters; lia).
apply wp_bind, wp_malloc. intros b s1 Hs1 _ _ Hb. destruct b; cbn [negb].
- apply wp_bind, wp_compute; [lia|by apply Hi|]. intros st out s2 Hs2 Hsm Hrd Hv Hok.
  assert (Hctx2 : op_ctx s2 = Some c) by (rewrite Hs2, Hs1; done).
  destruct st.
  { apply wp_bind, wp_modify. apply wp_ret. destruct (Hv Hcnt eq_refl) as [Hout Hlen].
    specialize (Hlen Hraw). apply HQ; try done; [intros H; by apply Hsm, Hb|].
    intros _. exists out. rewrite Hctx2. split_and!; [done| |done].
    destruct Hi. split; simpl; try done; [by rewrite Hst|]. intros cache [= <-].
    split_and!; try done; [by apply Hrd|lia|lia|by rewrite Hlen]. }
  all: apply wp_ret, HQ; try done; [intros H; by apply Hsm, Hb|].
  all: intros Hf H; apply Hok; [done|done|by apply Hb].
- apply wp_ret, HQ; [intros; by apply Hb|by rewrite Hs1|done|].
  intros _ Hsm. by destruct (Hb Hsm).
Qed.

(** ** The call *)

(** What a successful call leaves behind, and a failed one. *)
Record advanced c c' (n : Z) : Prop := {
adv_inputs : frozen (kdf_snapshot_L c) c';
adv_offset : kdf_output_offset c' = kdf_output_offset c + n;
adv_started : kdf_output_started c' = true;
adv_capacity : takes (kdf_capacity c) n (kdf_capacity c') }.

Definition failed_output c c' (st : psa_status_t) : Prop :=
c' = c \/
(frozen (kdf_snapshot_L c) c' /\ kdf_output_offset c' = kdf_output_offset c /\
 kdf_capacity c' <= kdf_capacity c /\
 (kdf_output_started c' = true \/ st = PSA_ERROR_INSUFFICIENT_DATA)).

Definition output_result c c' (n : Z) (st : psa_status_t) (out : option (list byte)) : Prop :=
kdf_inv c' /\ kdf_error_state c' = kdf_error_state c /\
match st with
| PSA_SUCCESS =>
    advanced c c' n /\ stream_part c' (kdf_output_offset c) n out
| _ => no_output out /\ failed_output c c' st
end.

(** Nothing stands in the way of [n] more bytes. *)
Record output_feasible c (n : Z) : Prop := {
of_ready : kdf_output_ready c n = PSA_SUCCESS;
of_capacity : unlimited (kdf_capacity c) \/ n <= kdf_capacity c;
of_total : kdf_output_offset c + n <= SIZE_MAX;
of_counters : counters_ok c (kdf_output_offset c + n);
of_backend k : k = kdf_output_offset c + n \/ (~ unlimited (kdf_capacity c) /\ k = kdf_capacity c) ->
  kdf_feasible c k }.

Lemma wants_cache_total c n :
kdf_wants_cache c n = true -> ~ unlimited (kdf_capacity c) /\ kdf_output_offset c = 0.
Proof.
unfold kdf_wants_cache, unlimited. destruct (kdf_output_cache c); [done|]. simpl.
intros [[[_ H1%negb_true_iff%Z.eqb_neq]%andb_true_iff H2%Z.eqb_eq]%andb_true_iff _]%andb_true_iff.
done.
Qed.

Lemma snapshot_counters c n : counters_ok (kdf_snapshot_L c) n <-> counters_ok c n.
Proof. unfold counters_ok. by destruct (snapshot_frame c) as (_ & _ & _ & _ & _ & -> & _). Qed.

Lemma snapshot_feasible c n : kdf_feasible c n -> kdf_feasible (kdf_snapshot_L c) n.
Proof. intros []. unfold kdf_snapshot_L. case_match; by split. Qed.

Lemma to_size_wrap a b :
0 <= a <= SIZE_MAX -> 0 <= b <= SIZE_MAX -> SIZE_MAX < a + b -> to_size (a + b) < a.
Proof.
unfold to_size, SIZE_MAX. intros. replace ((a + b) mod 2 ^ 64) with (a + b - 2 ^ 64); [lia|].
apply Z.mod_unique with 1; lia.
Qed.

(** The state of the call once the cache is settled: [d] is the context. *)
Lemma wp_output_deliver c d n
  (Q : psa_status_t * option (list byte) -> opstate O wolfpsa_kdf_ctx -> Prop) s :
kdf_inv d -> frozen (kdf_snapshot_L c) d -> 0 <= n -> op_ctx s = Some d ->
kdf_output_offset d = kdf_output_offset c -> kdf_output_offset c + n <= SIZE_MAX ->
kdf_output_started d = true -> kdf_error_state d = kdf_error_state c ->
takes (kdf_capacity c) n (kdf_capacity d) -> cache_covers d (kdf_output_offset d + n) ->
raw_covers d (kdf_output_offset d + n) ->
(forall cache, kdf_output_cache d = Some cache ->
   kdf_output_offset d + n + kdf_capacity d <= zlen cache) ->
(forall cap, kdf_default_capacity (kdf_alg d) = Some cap -> ~ unlimited cap ->
   kdf_output_offset d + n + kdf_capacity d <= cap) ->
(forall st out c' s', (smooth s -> smooth s') -> op_ctx s' = Some c' ->
   output_result c c' n st out ->
   (counters_ok d (kdf_output_offset d + n) ->
    kdf_feasible d (kdf_output_offset d + n) -> smooth s -> st = PSA_SUCCESS) ->
   Q (st, out) s') ->
wp ('(status, out) ← kdf_deliver d n;
    match status with
    | PSA_SUCCESS =>
        modify_ctx (fun c => with_output_offset (to_size (kdf_output_offset c + n)) c);;
        mret (PSA_SUCCESS, out)
    | e => mret (e, out)
    end) Q s.
Proof.
intros Hi Hf Hn Hctx Hoff Htot Hst Herr Htk Hcov Hrc Hcl Hcap HQ. pose proof (inv_offset d Hi).
apply wp_bind, wp_deliver; try done; [lia|lia|by apply Hi|]. intros st out s1 Hs1 Hsm Hd Hok.
assert (Hctx1 : op_ctx s1 = Some d) by (rewrite Hs1; done).
assert (Hfo : forall e, failed_output c d e).
{ intros e. right. split_and!; try done; [|by left]. pose proof (inv_capacity d Hi).
  destruct Htk as [[_ ->]|(_ & _ & ->)]; lia. }
destruct st; [|by apply wp_ret, (HQ _ _ d); [done|done|split_and!|done] ..].
apply wp_bind, wp_modify. apply wp_ret. rewrite Hctx1. simpl.
apply (HQ _ _ (with_output_offset (to_size (kdf_output_offset d + n)) d)); [done|done| |done].
rewrite to_size_small by lia. split_and!; [|done|split; simpl; [done|lia|done|done]|].
- destruct Hi. split; simpl; try done; [lia|by rewrite Hst|].
  intros cache Hcache. destruct (inv_cache0 cache Hcache) as (H1 & H2 & H3 & H4 & H5).
  specialize (Hcl cache Hcache). split_and!; try done; lia.
- rewrite <- Hoff. done.
Qed.

(** The context after the capacity is taken is ready for the delivery. *)
Lemma taken_covers c d n :
kdf_inv c -> kdf_inv d -> frozen (kdf_snapshot_L c) d -> 0 <= n ->
kdf_output_offset d = kdf_output_offset c -> kdf_output_cache d = kdf_output_cache c ->
takes (kdf_capacity c) n (kdf_capacity d) ->
cache_covers d (kdf_output_offset d + n) /\
(forall cache, kdf_output_cache d = Some cache ->
   kdf_output_offset d + n + kdf_capacity d <= zlen cache) /\
(forall cap, kdf_default_capacity (kdf_alg d) = Some cap -> ~ unlimited cap ->
   kdf_output_offset d + n + kdf_capacity d <= cap).
Proof.
intros Hi Hid Hf Hn Ho Hca Ht. pose proof (inv_capacity c Hi). pose proof (inv_offset c Hi).
assert (Hcl : forall cache, kdf_output_cache d = Some cache ->
  kdf_output_offset d + n + kdf_capacity d <= zlen cache).
{ intros cache. rewrite Hca. intros Hcc. destruct (inv_cache c Hi cache Hcc) as (_ & _ & H3 & H4 & _).
  destruct Ht as [[]|(_ & ? & ?)]; [done|lia]. }
split_and!; [|done|].
- intros cache Hcc. specialize (Hcl cache Hcc). pose proof (inv_capacity d Hid).
  destruct (inv_cache d Hid cache Hcc) as (_ & H2 & _ & _ & H5). split_and!; [lia|done|done].
- intros cap. rewrite (frozen_alg _ _ Hf).
  replace (kdf_alg (kdf_snapshot_L c)) with (kdf_alg c) by (unfold kdf_snapshot_L; by case_match).
  intros Hd Hu. pose proof (inv_bound c Hi cap Hd Hu). pose proof (default_capacity_range _ _ Hd).
  destruct Ht as [[Hun ->]|(_ & ? & ->)]; [|lia]. destruct Hu.
  unfold unlimited, PSA_KEY_DERIVATION_UNLIMITED_CAPACITY in *. lia.
Qed.

(** The output, the capacity being taken and [started] set: [d] is the context. *)
Definition output_taken (d : wolfpsa_kdf_ctx) (n : Z) : KM (psa_status_t * option (list byte)) :=
status ← (if kdf_wants_cache d n then kdf_fill_cache d n else mret PSA_SUCCESS);
match status with
| PSA_SUCCESS =>
    c' ← get_ctx;
    '(status, out) ← kdf_deliver (default d c') n;
    match status with
    | PSA_SUCCESS =>
        modify_ctx (fun c => with_output_offset (to_size (kdf_output_offset c + n)) c);;
        mret (PSA_SUCCESS, out)
    | e => mret (e, out)
    end
| e => mret (e, None)
end.

Record taken c d (n : Z) : Prop := {
tk_inv : kdf_inv d;
tk_inputs : frozen (kdf_snapshot_L c) d;
tk_offset : kdf_output_offset d = kdf_output_offset c;
tk_cache : kdf_output_cache d = kdf_output_cache c;
tk_error : kdf_error_state d = kdf_error_state c;
tk_started : kdf_output_started d = true;
tk_capacity : takes (kdf_capacity c) n (kdf_capacity d);
tk_raw : raw_covers d (kdf_output_offset d + n) }.

(** The check for a raw derivation. *)
Lemma ready_raw c n :
kdf_output_ready c n = PSA_SUCCESS -> raw_covers c (kdf_output_offset c + n).
Proof.
unfold kdf_output_ready, raw_covers. intros Hr Hraw. rewrite Hraw in Hr.
destruct (has_step c WOLFPSA_KDF_STEP_SECRET); [|done]. simpl in Hr.
destruct (Z.ltb_spec (zlen (kdf_secret c)) (kdf_output_offset c)); [done|]. simpl in Hr.
destruct (Z.ltb_spec (zlen (kdf_secret c) - kdf_output_offset c) n); [done|lia].
Qed.

Lemma frozen_raw_covers c c' n : frozen c c' -> raw_covers c' n <-> raw_covers c n.
Proof. intros H. change (raw_covers (kdf_inputs c') n <-> raw_covers c n). by rewrite H. Qed.

Lemma snapshot_raw_covers c n : raw_covers (kdf_snapshot_L c) n <-> raw_covers c n.
Proof.
unfold raw_covers. by destruct (snapshot_frame c) as (_ & _ & _ & _ & _ & _ & _ & -> & -> & _).
Qed.

Lemma taken_feasible c d n :
taken c d n -> output_feasible c n ->
counters_ok d (kdf_output_offset d + n) /\ kdf_feasible d (kdf_output_offset d + n).
Proof.
intros Ht []. rewrite (frozen_counters _ _ _ (tk_inputs _ _ _ Ht)),
  (frozen_feasible _ _ _ (tk_inputs _ _ _ Ht)), snapshot_counters, (tk_offset _ _ _ Ht).
split; [done|]. apply snapshot_feasible, of_backend0. by left.
Qed.

(** A new cache holds all that is left. *)
Lemma taken_wants_cache c d n :
taken c d n -> kdf_wants_cache d n = true ->
n + kdf_capacity d = kdf_capacity c /\ kdf_output_offset d = 0 /\
(output_feasible c n -> kdf_feasible d (n + kdf_capacity d)).
Proof.
intros Ht Hw. destruct (wants_cache_total _ _ Hw) as [Hnu H0].
assert (Hsum : n + kdf_capacity d = kdf_capacity c /\ ~ unlimited (kdf_capacity c)).
{ destruct (tk_capacity _ _ _ Ht) as [[? Hu]|(? & ? & ?)]; [|by split; [lia|]].
  rewrite Hu in Hnu. done. }
split_and!; [apply Hsum|done|]. intros []. rewrite (proj1 Hsum).
rewrite (frozen_feasible _ _ _ (tk_inputs _ _ _ Ht)). apply snapshot_feasible, of_backend0.
right. by destruct Hsum.
Qed.

Lemma wp_output_taken c d n
  (Q : psa_status_t * option (list byte) -> opstate O wolfpsa_kdf_ctx -> Prop) s :
kdf_inv c -> taken c d n -> 0 <= n -> kdf_output_offset c + n <= SIZE_MAX -> op_ctx s = Some d ->
(forall st out c' s', (smooth s -> smooth s') -> op_ctx s' = Some c' ->
   output_result c c' n st out -> (output_feasible c n -> smooth s -> st = PSA_SUCCESS) ->
   Q (st, out) s') ->
wp (output_taken d n) Q s.
Proof.
intros Hi Ht Hn Htot Hctx HQ. pose proof Ht as []. pose proof (inv_capacity c Hi).
pose proof (taken_feasible c d n Ht) as Hfe.
destruct (taken_covers c d n) as (Hcov & Hcl & Hdc); try done.
unfold output_taken. apply wp_bind. destruct (kdf_wants_cache d n) eqn:Hwc.
- destruct (taken_wants_cache c d n Ht Hwc) as (Hsum & H0 & Hfc).
  apply wp_fill_cache; try done; [lia|]. intros st s1 Hsm Hbad Hgood Hok.
  assert (Hfo : forall e, failed_output c d e).
  { intros e. right. split_and!; try done; [lia|by left]. }
  destruct st; [|apply wp_ret, (HQ _ _ d); [done|by apply Hbad| |by auto]; split_and!; try done;
    by left ..].
  destruct (Hgood eq_refl) as (cache & Hd & Hid & Hlen).
  apply wp_bind. unfold get_ctx. apply wp_gets. rewrite Hd. simpl default.
  apply (wp_output_deliver c); try done.
  + intros cache' [= <-]. simpl. destruct (inv_cache _ Hid cache eq_refl) as (_ & H2 & _ & _ & H5).
    pose proof (inv_capacity _ tk_inv0). split_and!; [lia|done|done].
  + intros cache' [= <-]. simpl. lia.
  + intros st out c' s2 Hsm2 Hc' Hres Hok2. apply (HQ _ _ c'); [auto|done|done|].
    intros Hof Hs. destruct (Hfe Hof) as [Hcnt Hf]. apply Hok2; [done| |auto].
    by apply (frozen_feasible d).
- apply wp_ret. apply wp_bind. unfold get_ctx. apply wp_gets. rewrite Hctx. simpl default.
  apply (wp_output_deliver c); try done.
  intros st out c' s2 Hsm2 Hc' Hres Hok2. apply (HQ _ _ c'); [done|done|done|].
  intros Hof Hs. by apply Hok2; try apply Hfe.
Qed.

Lemma wp_output_bytes c n
  (Q : psa_status_t * option (list byte) -> opstate O wolfpsa_kdf_ctx -> Prop) s :
kdf_inv c -> 0 <= n <= SIZE_MAX -> op_ctx s = Some c ->
(forall st out c' s', (smooth s -> smooth s') -> op_ctx s' = Some c' ->
   output_result c c' n st out ->
   (output_feasible c n -> smooth s -> st = PSA_SUCCESS) -> Q (st, out) s') ->
wp (wolfpsa_kdf_output_bytes true n c) Q s.
Proof.
intros Hi Hn Hctx HQ. unfold wolfpsa_kdf_output_bytes. cbn [negb].
assert (Hfail : forall st c' s', st <> PSA_SUCCESS -> (smooth s -> smooth s') ->
  op_ctx s' = Some c' -> kdf_inv c' -> kdf_error_state c' = kdf_error_state c ->
  failed_output c c' st -> (output_feasible c n -> smooth s -> False) -> Q (st, None) s').
{ intros st c' s' Hne Hsm Hc' Hi' He Hk Hno. apply (HQ _ _ c'); try done.
  - split_and!; try done. destruct st; [done|..]; (split; [by left|done]).
  - intros. exfalso. eauto. }
destruct (kdf_output_ready c n) eqn:Hrd;
  [|apply wp_ret, (Hfail _ c); try done; [by left|intros []; congruence] ..].
pose proof (snapshot_frame c) as (F1 & F2 & F3 & F4 & F5 & F6 & F7 & F8 & F9 & F10).
pose proof (inv_snapshot c Hi) as Hib.
pose proof (require_output_spec (kdf_snapshot_L c) n Hib ltac:(lia)) as Hreq.
destruct (wolfpsa_kdf_require_output (kdf_snapshot_L c) n) as [st c1].
destruct Hreq as (Hi1 & Hf1 & Ho1 & He1 & Hc1 & Hs1 & Hle & Hcap). rewrite F1 in *.
apply wp_bind, wp_modify.
destruct st; try (by destruct Hcap as [? _]).
2: { apply wp_ret, (Hfail _ c1); try done; [congruence| |].
     - right. split_and!; try done; [congruence|by right].
     - destruct Hcap as (_ & Hu & Hlt). intros [_ [|] _ _ _]; [done|lia]. }
apply wp_bind, wp_modify. set (c2 := with_output_started true c1).
assert (Hi2 : kdf_inv c2) by by apply inv_start.
pose proof (inv_offset c Hi) as Hoff. pose proof (inv_capacity c Hi) as Hcp.
change (kdf_output_offset c2) with (kdf_output_offset c1). rewrite Ho1, F2.
destruct (Z.ltb_spec (to_size (kdf_output_offset c + n)) (kdf_output_offset c)) as [Hw|Hw].
{ apply wp_ret, (Hfail _ c2); try done;
    [simpl; congruence|right; split_and!; try done; [simpl; congruence|by left]|].
  intros [_ _ Ht _ _] _. rewrite to_size_small in Hw by lia. lia. }
assert (Htot : kdf_output_offset c + n <= SIZE_MAX).
{ destruct (decide (SIZE_MAX < kdf_output_offset c + n)); [|lia].
  pose proof (to_size_wrap (kdf_output_offset c) n). lia. }
change (wp (output_taken c2 n) Q (with_ctx (Some c2) (with_ctx (Some c1) s))).
apply (wp_output_taken c); try done; [|lia]. split; try done; try (simpl; congruence).
rewrite (frozen_raw_covers (kdf_snapshot_L c) c2), snapshot_raw_covers by done.
replace (kdf_output_offset c2) with (kdf_output_offset c) by (simpl; congruence).
by apply ready_raw.
Qed.
End Invariant.
