(* ===== verification/KdfSpec.v ===== *)
(** The key-derivation operation as an abstract machine, and its refinement.

    A derivation collects inputs, then is one stream of bytes that output,
    verification and key output consume from the front; [kdf_step] says what
    every call may do to it.  The theorems: every sequence of calls is a run of
    this machine; it never delivers a byte of the stream twice; an error ends
    everything but abort; a key comes out only after a key went in. *)

From stdpp Require Import base decidable list.
From Stdlib Require Import ZArith Lia.
From Stdlib Require Import Strings.Byte.
From S2P Require Import Prelude.
From S2P Require Import Values.
From S2P Require Import Engine.
From S2P Require Import WolfCrypt.
From S2P Require Import KeyPolicy.
From S2P Require Import KeyFormat.
From S2P Require Import StoreIface.
From S2P Require Import Library.
From S2P Require Import KeyStore.
From S2P Require Import KeyStoreRules.
From S2P Require Import Operation.
From S2P Require Import KeyAgreement.
From S2P Require Import Kdf.
From S2P Require Import KdfStream.
From S2P Require Import KdfInv.

#[local] Open Scope Z_scope.

(** * The abstract machine *)

(** The states; the inputs of a stream include what the first output fixes. *)
Inductive kdf_view : Type :=
| KIdle
| KCollect (i : wolfpsa_kdf_ctx) (cap : Z)
| KStream (i : wolfpsa_kdf_ctx) (pos cap : Z)
| KFailed (cap : Z).

(** The entry points of [psa_key_derivation.c]. *)
Inductive kdf_call : Type :=
| KSetup (alg : Z)
| KAbort
| KGetCapacity
| KSetCapacity (n : Z)
| KInputBytes (step : Z) (data : input)
| KInputInteger (step value : Z)
| KInputKey (step key : Z)
| KKeyAgreement (step private_key : Z) (peer : input)
| KOutputBytes (output : bool) (n : Z)
| KOutputKey (attributes : option psa_key_attributes_t) (key : bool)
| KVerifyBytes (expected : input)
| KVerifyKey (expected : Z).

(** The status, what is in the caller's buffer, and the number that comes back
    (a capacity, a key identifier). *)
Record kdf_reply : Type := mkReply {
  rp_status : psa_status_t;
  rp_bytes : option (list byte);
  rp_number : Z }.

Definition view_cap (v : kdf_view) : Z :=
  match v with KIdle => 0 | KCollect _ cap | KStream _ _ cap | KFailed cap => cap end.
Definition view_pos (v : kdf_view) : Z :=
  match v with KStream _ pos _ => pos | _ => 0 end.

(** The inputs as the first output leaves them. *)
Definition begin_stream (i : wolfpsa_kdf_ctx) (cap : Z) : wolfpsa_kdf_ctx :=
  kdf_inputs (kdf_snapshot_L (with_capacity cap i)).

(** [n] bytes further in the stream, with capacity [cap'] left. *)
Inductive moves (n cap' : Z) : kdf_view -> kdf_view -> Prop :=
| moves_first i cap : moves n cap' (KCollect i cap) (KStream (begin_stream i cap) n cap')
| moves_next i pos cap : moves n cap' (KStream i pos cap) (KStream i (pos + n) cap').

Definition consumes (n : Z) (v v' : kdf_view) : Prop :=
  exists cap', takes (view_cap v) n cap' /\ moves n cap' v v'.

(** After a failure that does not end the operation. *)
Definition drifts (v v' : kdf_view) : Prop :=
  v' = v \/ exists n cap', 0 <= n /\ cap' <= view_cap v /\ moves n cap' v v'.

Definition can_output_key (v : kdf_view) : bool :=
  match v with KCollect i _ | KStream i _ _ => kdf_can_output_key i | _ => false end.

(** One input: its bytes go to the buffer of the step. *)
Definition add_input (step : Z) (data : list byte) (i : wolfpsa_kdf_ctx) : wolfpsa_kdf_ctx :=
  match step_buffer step with
  | Some (buffer, with_buffer) =>
      add_step (wolfpsa_kdf_step_mask step) (with_buffer (buffer i ++ data) i)
  | None => i
  end.

(** A key of usage DERIVE as secret or password permits key output. *)
Definition permit_key_output (b : bool) (i : wolfpsa_kdf_ctx) : wolfpsa_kdf_ctx :=
  if b then with_can_output_key true i else i.

(** Failures after which the operation goes on. *)
Definition tolerated (call : kdf_call) (st : psa_status_t) : bool :=
  match call, st with
  | _, PSA_ERROR_INVALID_SIGNATURE | _, PSA_ERROR_INVALID_HANDLE => true
  | KSetCapacity _, PSA_ERROR_INVALID_ARGUMENT | KSetup _, PSA_ERROR_BAD_STATE => true
  | _, _ => false
  end.

Section Machine.
Context {C : Config} {E : WolfCryptErr} {K : WolfCryptKeys} {R : WolfCryptRng}.
Context {O : StoreOps} {B : KeyBackend} {DH : WolfCryptDh} {WM : WolfCryptMisc}.
Context {WD : WolfCryptDigest} {WK : WolfCryptKdf} {WH : WolfCryptHmac} {WC : WolfCryptCmac}.
Context {WKO : WolfCryptKdfOk WD WK} {WHO : WolfCryptHmacOk WD WH} {WCO : WolfCryptCmacOk WC}.
Context {WMO : WolfCryptMiscOk WM}.

Notation KM := (M (opstate O wolfpsa_kdf_ctx)).
Implicit Types c : wolfpsa_kdf_ctx.
Implicit Types s : opstate O wolfpsa_kdf_ctx.

(** The [n] bytes of the stream before the position of [v]; the 32-bit block
  counters must not have wrapped. *)
Definition last_bytes (v : kdf_view) (n : Z) (bytes : list byte) : Prop :=
match v with
| KStream i pos _ =>
    counters_ok i pos ->
    bytes = slice (kdf_stream i pos) (pos - n) n /\ zlen bytes = n /\ stream_ready i
| _ => False
end.

Definition ok_reply : kdf_reply := mkReply PSA_SUCCESS None 0.

Inductive kdf_step : kdf_view -> kdf_call -> kdf_reply -> kdf_view -> Prop :=
| step_setup alg kalg cap :
  kdf_setup_alg alg = inr kalg -> kdf_default_capacity kalg = Some cap ->
  kdf_step KIdle (KSetup alg) ok_reply (KCollect (kdf_inputs (kdf_initial alg kalg cap)) cap)
| step_abort v : kdf_step v KAbort ok_reply KIdle
| step_get_capacity v :
  v <> KIdle -> kdf_step v KGetCapacity (mkReply PSA_SUCCESS None (view_cap v)) v
| step_set_capacity_collect i cap n :
  n <= cap -> kdf_step (KCollect i cap) (KSetCapacity n) ok_reply (KCollect i n)
| step_set_capacity_stream i pos cap n :
  n <= cap -> kdf_step (KStream i pos cap) (KSetCapacity n) ok_reply (KStream i pos n)
| step_input_bytes i cap step data :
  wolfpsa_kdf_validate_step i step (input_length data) = PSA_SUCCESS ->
  kdf_step (KCollect i cap) (KInputBytes step data) ok_reply
    (KCollect (add_input step (input_bytes data) i) cap)
| step_input_integer i cap value :
  PSA_ALG_IS_PBKDF2 (kdf_alg i) = true -> has_step i WOLFPSA_KDF_STEP_COST = false ->
  0 < value <= UINT32_MAX ->
  kdf_step (KCollect i cap) (KInputInteger PSA_KEY_DERIVATION_INPUT_COST value) ok_reply
    (KCollect (add_step WOLFPSA_KDF_STEP_COST (with_cost value i)) cap)
| step_input_key i cap step key data derive :
  wolfpsa_kdf_validate_step i step (zlen data) = PSA_SUCCESS ->
  (derive = true ->
   step = PSA_KEY_DERIVATION_INPUT_SECRET \/ step = PSA_KEY_DERIVATION_INPUT_PASSWORD) ->
  kdf_step (KCollect i cap) (KInputKey step key) ok_reply
    (KCollect (permit_key_output derive (add_input step data i)) cap)
| step_key_agreement i cap step key peer data :
  kdf_is_key_agreement i = true ->
  step = PSA_KEY_DERIVATION_INPUT_SECRET \/
  (step = PSA_KEY_DERIVATION_INPUT_OTHER_SECRET /\ PSA_ALG_IS_TLS12_PSK_TO_MS (kdf_alg i) = true) ->
  wolfpsa_kdf_validate_step i step (zlen data) = PSA_SUCCESS ->
  kdf_step (KCollect i cap) (KKeyAgreement step key peer) ok_reply
    (KCollect (permit_key_output (step =? PSA_KEY_DERIVATION_INPUT_SECRET)
                 (add_input step data i)) cap)
| step_output v n bytes v' :
  consumes n v v' -> last_bytes v' n bytes ->
  kdf_step v (KOutputBytes true n) (mkReply PSA_SUCCESS (Some bytes) 0) v'
| step_output_key v attributes id v' :
  can_output_key v = true -> consumes (PSA_BITS_TO_BYTES (attr_bits attributes)) v v' ->
  kdf_step v (KOutputKey (Some attributes) true) (mkReply PSA_SUCCESS None id) v'
| step_verify v expected v' :
  consumes (zlen expected) v v' -> last_bytes v' (zlen expected) expected ->
  kdf_step v (KVerifyBytes (Bytes expected)) ok_reply v'
| step_verify_key v key expected v' :
  consumes (zlen expected) v v' -> last_bytes v' (zlen expected) expected ->
  kdf_step v (KVerifyKey key) ok_reply v'
| step_idle call r :
  rp_status r <> PSA_SUCCESS -> rp_bytes r = None -> kdf_step KIdle call r KIdle
| step_tolerated v call r v' :
  rp_status r <> PSA_SUCCESS -> tolerated call (rp_status r) = true -> no_output (rp_bytes r) ->
  drifts v v' -> kdf_step v call r v'
| step_fail v call r cap :
  rp_status r <> PSA_SUCCESS -> tolerated call (rp_status r) = false -> no_output (rp_bytes r) ->
  v <> KIdle -> kdf_step v call r (KFailed cap).

(** * The program as this machine *)

Definition status_reply (m : KM psa_status_t) : KM kdf_reply :=
st ← m; mret (mkReply st None 0).

Definition kdf_run (call : kdf_call) : KM kdf_reply :=
match call with
| KSetup alg => status_reply (psa_key_derivation_setup alg)
| KAbort => status_reply psa_key_derivation_abort
| KGetCapacity => '(st, n) ← psa_key_derivation_get_capacity; mret (mkReply st None n)
| KSetCapacity n => status_reply (psa_key_derivation_set_capacity n)
| KInputBytes step data => status_reply (psa_key_derivation_input_bytes step data)
| KInputInteger step value => status_reply (psa_key_derivation_input_integer step value)
| KInputKey step key => status_reply (psa_key_derivation_input_key step key)
| KKeyAgreement step key peer => status_reply (psa_key_derivation_key_agreement step key peer)
| KOutputBytes output n =>
    '(st, bytes) ← psa_key_derivation_output_bytes output n; mret (mkReply st bytes 0)
| KOutputKey attributes key =>
    '(st, id) ← psa_key_derivation_output_key attributes key; mret (mkReply st None id)
| KVerifyBytes expected => status_reply (psa_key_derivation_verify_bytes expected)
| KVerifyKey expected => status_reply (psa_key_derivation_verify_key expected)
end.

(** Lengths and integers are [size_t] and [uint64_t] values. *)
Definition kdf_call_ok (call : kdf_call) : Prop :=
match call with
| KSetCapacity n | KOutputBytes _ n => 0 <= n <= SIZE_MAX
| KInputInteger _ n => 0 <= n < 2 ^ 64
| KOutputKey (Some a) _ => 0 <= attr_bits a < 2 ^ 16
| _ => True
end.

Definition kdf_view_of (c : option wolfpsa_kdf_ctx) : kdf_view :=
match c with
| None => KIdle
| Some c =>
    if kdf_error_state c then KFailed (kdf_capacity c)
    else if kdf_output_started c
    then KStream (kdf_inputs c) (kdf_output_offset c) (kdf_capacity c)
    else KCollect (kdf_inputs c) (kdf_capacity c)
end.

Definition kdf_ok s : Prop := forall c, op_ctx s = Some c -> kdf_inv c.
Definition kdf_view_s s : kdf_view := kdf_view_of (op_ctx s).

Inductive kdf_trace : kdf_view -> list (kdf_call * kdf_reply) -> kdf_view -> Prop :=
| trace_nil v : kdf_trace v [] v
| trace_cons v call reply v1 l v2 :
  kdf_step v call reply v1 -> kdf_trace v1 l v2 -> kdf_trace v ((call, reply) :: l) v2.

Fixpoint kdf_runs (calls : list kdf_call) : KM (list (kdf_call * kdf_reply)) :=
match calls with
| [] => mret []
| call :: calls =>
    reply ← kdf_run call; l ← kdf_runs calls; mret ((call, reply) :: l)
end.

(** * Refinement *)

Implicit Types Q : psa_status_t -> opstate O wolfpsa_kdf_ctx -> Prop.

Lemma kdf_ok_some s c : op_ctx s = Some c -> kdf_inv c -> kdf_ok s.
Proof. intros Hc Hi c'. rewrite Hc. by intros [= <-]. Qed.

Lemma wp_lib_any {A} (m : M (kstate O) A) (Q : A -> opstate O wolfpsa_kdf_ctx -> Prop) s :
(forall a k, Q a (with_lib k s)) -> wp (lib m) Q s.
Proof. intros HQ. unfold wp, lib. destruct (m (op_lib s)). apply HQ. Qed.

Lemma wp_attributes id
  (Q : psa_status_t + psa_key_attributes_t -> opstate O wolfpsa_kdf_ctx -> Prop) s :
(forall e k, e <> PSA_SUCCESS -> Q (inl e) (with_lib k s)) ->
(forall a k, Q (inr a) (with_lib k s)) -> wp (lib (psa_get_key_attributes id)) Q s.
Proof.
intros Hbad Hgood. apply wp_lib. unfold wp. pose proof (get_attributes_error id (op_lib s)) as He.
destruct (psa_get_key_attributes id (op_lib s)).1 as [e|a]; [|apply Hgood].
apply Hbad. congruence.
Qed.

Lemma inv_error b c : kdf_inv c -> kdf_inv (with_error_state b c).
Proof. intros Hi. pose proof (inv_capacity c Hi). apply (inv_lower c); simpl; try done; [lia|by left]. Qed.

(** What a worker may leave behind, by its status: [v] is the view before it. *)
Definition outcome (call : kdf_call) (v : kdf_view) (r : kdf_reply) c' : Prop :=
kdf_inv c' /\
match rp_status r with
| PSA_SUCCESS => kdf_step v call r (kdf_view_of (Some c'))
| PSA_ERROR_INVALID_SIGNATURE | PSA_ERROR_INVALID_HANDLE =>
    no_output (rp_bytes r) /\ drifts v (kdf_view_of (Some c'))
| _ => no_output (rp_bytes r)
end.

Definition stays (e : psa_status_t) : bool :=
match e with PSA_ERROR_INVALID_SIGNATURE | PSA_ERROR_INVALID_HANDLE => true | _ => false end.

(** The frame of an entry point: [check_state], a worker, [done]. *)
Lemma wp_guarded {A} (fail : psa_status_t -> A) worker call (reply : psa_status_t -> A -> kdf_reply)
  (Q : psa_status_t * A -> opstate O wolfpsa_kdf_ctx -> Prop) s :
(forall st a, rp_status (reply st a) = st) -> (forall e, rp_bytes (reply e (fail e)) = None) ->
kdf_ok s -> (forall e, tolerated call e = stays e) ->
(forall c, op_ctx s = Some c -> kdf_error_state c = false -> kdf_inv c ->
   wp (worker c) (fun r s' => exists c', op_ctx s' = Some c' /\
        outcome call (kdf_view_s s) (reply r.1 r.2) c') s) ->
(forall st a s', kdf_ok s' -> kdf_step (kdf_view_s s) call (reply st a) (kdf_view_s s') ->
   Q (st, a) s') ->
wp (guarded fail worker) Q s.
Proof.
intros Hrs Hrb Hok Htol Hw HQ. unfold guarded. apply wp_bind. unfold get_ctx. apply wp_gets.
unfold kdf_view_s in *.
destruct (op_ctx s) as [c|] eqn:Hc; simpl.
2: { apply wp_ret, HQ; [done|]. rewrite Hc. constructor; [by rewrite Hrs|done]. }
destruct (kdf_error_state c) eqn:He.
{ apply wp_ret, HQ; [done|]. rewrite Hc. simpl. rewrite He.
  apply step_fail; rewrite ?Hrs, ?Htol; try done. left. apply Hrb. }
apply wp_bind. eapply wp_mono; [apply Hw; [done|done|by apply Hok]|].
intros [st a] s1 (c1 & Hc1 & Hi1 & Hout). cbn [fst snd] in Hout. rewrite Hrs in Hout.
apply wp_bind. set (v := kdf_view_of (Some c)) in *.
assert (Hv : v <> KIdle) by (unfold v; simpl; rewrite He; by destruct (kdf_output_started c)).
assert (Herr : forall e, e <> PSA_SUCCESS -> stays e = false ->
  no_output (rp_bytes (reply e a)) ->
  wp (modify_ctx (with_error_state true);; mret e)
    (fun st s' => wp (mret (st, a)) Q s') s1).
{ intros e H1 H2 H3. apply wp_bind, wp_modify, wp_ret, wp_ret, HQ.
  - eapply kdf_ok_some; [simpl; by rewrite Hc1|]. by apply inv_error.
  - simpl. rewrite Hc1. simpl. apply step_fail; rewrite ?Hrs, ?Htol; done. }
assert (Hstay : forall e, e <> PSA_SUCCESS -> stays e = true ->
  no_output (rp_bytes (reply e a)) /\ drifts v (kdf_view_of (Some c1)) -> Q (e, a) s1).
{ intros e H1 H2 [H3 H4]. apply HQ; [by eapply kdf_ok_some|]. rewrite Hc1.
  apply step_tolerated; rewrite ?Hrs, ?Htol; done. }
destruct st.
1: { apply wp_ret, wp_ret, HQ; [by eapply kdf_ok_some|]. by rewrite Hc1. }
all: first [ by apply wp_ret, wp_ret, Hstay | by apply Herr ].
Qed.

Definition refines (call : kdf_call) (m : KM kdf_reply) : Prop :=
forall s, kdf_ok s -> kdf_call_ok call ->
  wp m (fun r s' => kdf_ok s' /\ kdf_step (kdf_view_s s) call r (kdf_view_s s')) s.

Lemma refines_status call worker :
(forall e, tolerated call e = stays e) ->
(forall c s, op_ctx s = Some c -> kdf_error_state c = false -> kdf_inv c -> kdf_call_ok call ->
   wp (worker c) (fun st s' => exists c', op_ctx s' = Some c' /\
     outcome call (kdf_view_s s) (mkReply st None 0) c') s) ->
refines call (status_reply (guarded_status worker)).
Proof.
intros Htol Hw s Hok Hcall. apply wp_bind. unfold guarded_status. apply wp_bind.
apply (wp_guarded _ _ call (fun st _ => mkReply st None 0)); try done.
intros c Hc He Hi. apply wp_bind. eapply wp_mono; [by apply Hw|]. done.
Qed.

(** ** Inputs *)

Lemma validate_inputs c step n :
wolfpsa_kdf_validate_step c step n = PSA_SUCCESS ->
kdf_output_started c = false /\ wolfpsa_kdf_validate_step (kdf_inputs c) step n = PSA_SUCCESS.
Proof.
unfold wolfpsa_kdf_validate_step. destruct (kdf_output_started c); [done|]. done.
Qed.

Lemma add_input_inputs step data c :
add_input step data (kdf_inputs c) = kdf_inputs (add_input step data c).
Proof. unfold add_input, step_buffer. repeat case_match; simplify_eq/=; done. Qed.

Lemma permit_inputs b c : permit_key_output b (kdf_inputs c) = kdf_inputs (permit_key_output b c).
Proof. by destruct b. Qed.

(** The fields an input leaves alone. *)
Definition same_output c c' : Prop :=
kdf_alg c' = kdf_alg c /\ kdf_capacity c' = kdf_capacity c /\
kdf_output_offset c' = kdf_output_offset c /\ kdf_output_started c' = kdf_output_started c /\
kdf_output_cache c' = kdf_output_cache c /\ kdf_error_state c' = kdf_error_state c /\
kdf_cost c' = kdf_cost c.

Lemma add_input_same step data c : same_output c (add_input step data c).
Proof. unfold add_input, step_buffer. repeat case_match; simplify_eq/=; done. Qed.

Lemma permit_same b c : same_output c (permit_key_output b c).
Proof. by destruct b. Qed.

Lemma same_output_trans c1 c2 c3 : same_output c1 c2 -> same_output c2 c3 -> same_output c1 c3.
Proof.
intros (A1 & A2 & A3 & A4 & A5 & A6 & A7) (B1 & B2 & B3 & B4 & B5 & B6 & B7).
split_and!; congruence.
Qed.

Lemma same_output_inv c c' :
kdf_inv c -> kdf_output_started c = false -> same_output c c' -> kdf_inv c'.
Proof.
intros Hi Hs (H1 & H2 & H3 & H4 & H5 & _ & H7).
apply (inv_update c); try done; [congruence|]. rewrite H7. apply Hi.
Qed.

Lemma collect_view c :
kdf_error_state c = false -> kdf_output_started c = false ->
kdf_view_of (Some c) = KCollect (kdf_inputs c) (kdf_capacity c).
Proof. intros He Hs. simpl. by rewrite He, Hs. Qed.

Lemma same_output_view c c' :
same_output c c' -> kdf_error_state c = false -> kdf_output_started c = false ->
kdf_view_of (Some c') = KCollect (kdf_inputs c') (kdf_capacity c).
Proof. intros (_ & H2 & _ & H4 & _ & H6 & _) He Hs. simpl. by rewrite H6, H4, H2, He, Hs. Qed.

Lemma wp_append buf data
  (Q : psa_status_t + list byte -> opstate O wolfpsa_kdf_ctx -> Prop) s :
(forall e s', same_ctx s s' -> e <> PSA_SUCCESS -> stays e = false -> Q (inl e) s') ->
(forall s', same_ctx s s' -> Q (inr (buf ++ input_bytes data)) s') ->
wp (wolfpsa_kdf_append buf data) Q s.
Proof.
intros Hbad Hgood. unfold wolfpsa_kdf_append.
destruct (is_null data && _) eqn:Hnull; [by apply wp_ret, Hbad|].
destruct (Z.eqb_spec (input_length data) 0) as [Hz|Hz].
{ apply wp_ret. replace (inr buf) with (inr (A := psa_status_t) (buf ++ input_bytes data));
    [by apply Hgood|]. destruct data as [n|l]; simpl in *; [by rewrite app_nil_r|].
  by rewrite (zlen_0_nil l), app_nil_r. }
destruct (SIZE_MAX - _ <? _); [by apply wp_ret, Hbad|].
apply wp_bind, wp_malloc. intros [|] s' Hs' _ _ _; apply wp_ret; [by apply Hgood|by apply Hbad].
Qed.

(** An input that succeeds passed the checks and was appended; one that fails
  changes nothing. *)
Lemma wp_input_bytes step data c (Q : psa_status_t -> opstate O wolfpsa_kdf_ctx -> Prop) s :
op_ctx s = Some c ->
(forall s', op_ctx s' = Some (add_input step (input_bytes data) c) ->
   wolfpsa_kdf_validate_step c step (input_length data) = PSA_SUCCESS -> Q PSA_SUCCESS s') ->
(forall e s', op_ctx s' = Some c -> e <> PSA_SUCCESS -> Q e s') ->
wp (wolfpsa_kdf_input_bytes step data c) Q s.
Proof.
intros Hc Hgood Hbad. unfold wolfpsa_kdf_input_bytes.
destruct (wolfpsa_kdf_validate_step c step (input_length data)) eqn:Hv;
  [|by apply wp_ret, Hbad ..].
cbv zeta. destruct (_ =? 0); [by apply wp_ret, Hbad|]. unfold add_input in Hgood.
destruct (step_buffer step) as [[buffer with_buffer]|]; [|by apply wp_ret, Hbad].
apply wp_bind, wp_append.
- intros e s' Hs' He _. apply wp_ret, Hbad; [by rewrite Hs'|done].
- intros s' Hs'. apply wp_bind, wp_modify, wp_ret, Hgood; [|done]. simpl. by rewrite Hs', Hc.
Qed.

Lemma outcome_fail call v st bytes n c c' s' :
kdf_inv c' -> st <> PSA_SUCCESS -> no_output bytes -> drifts v (kdf_view_of (Some c')) ->
op_ctx s' = Some c' ->
exists c', op_ctx s' = Some c' /\ outcome call v (mkReply st bytes n) c'.
Proof. intros Hi Hst Hb Hd Hc. exists c'. split; [done|]. split; [done|]. by destruct st. Qed.

Lemma outcome_none call s c st s' :
op_ctx s = Some c -> kdf_inv c -> st <> PSA_SUCCESS -> op_ctx s' = Some c ->
exists c', op_ctx s' = Some c' /\ outcome call (kdf_view_s s) (mkReply st None 0) c'.
Proof.
intros Hc Hi Hst Hc'. apply (outcome_fail _ _ _ _ _ c c); try done; [by left|].
left. by unfold kdf_view_s; rewrite Hc.
Qed.

(** A successful input: the new inputs are those of the new context. *)
Lemma outcome_input call c c' s s' :
op_ctx s = Some c -> kdf_inv c -> kdf_error_state c = false -> kdf_output_started c = false ->
same_output c c' -> op_ctx s' = Some c' ->
kdf_step (KCollect (kdf_inputs c) (kdf_capacity c)) call ok_reply
  (KCollect (kdf_inputs c') (kdf_capacity c)) ->
exists c', op_ctx s' = Some c' /\ outcome call (kdf_view_s s) ok_reply c'.
Proof.
intros Hc Hi He Hs Hsame Hc' Hstep. exists c'. split; [done|]. split; [by eapply same_output_inv|].
unfold kdf_view_s. rewrite Hc, collect_view by done. simpl rp_status. cbv iota.
by rewrite (same_output_view c c').
Qed.

Lemma refines_input_bytes step data :
refines (KInputBytes step data) (status_reply (psa_key_derivation_input_bytes step data)).
Proof.
apply refines_status; [done|]. intros c s Hc He Hi _. apply wp_input_bytes; [done| |].
- intros s' Hc' Hv. destruct (validate_inputs _ _ _ Hv) as [Hs Hv'].
  apply (outcome_input _ c (add_input step (input_bytes data) c)); try done;
    [apply add_input_same|].
  rewrite <- add_input_inputs. by constructor.
- intros e s' Hc' Hst. by eapply outcome_none.
Qed.

Lemma refines_input_integer step value :
refines (KInputInteger step value) (status_reply (psa_key_derivation_input_integer step value)).
Proof.
apply refines_status; [done|]. intros c s Hc He Hi Hv. simpl in Hv. unfold wolfpsa_kdf_input_integer.
assert (Hfail : forall e, e <> PSA_SUCCESS -> wp (mret e : KM psa_status_t)
  (fun st s' => exists c', op_ctx s' = Some c' /\
     outcome (KInputInteger step value) (kdf_view_s s) (mkReply st None 0) c') s).
{ intros e H. by apply wp_ret, (outcome_none _ s c). }
destruct (kdf_output_started c) eqn:Hs; [by apply Hfail|].
destruct (Z.eqb_spec step PSA_KEY_DERIVATION_INPUT_COST) as [->|]; cbn [negb]; [|by apply Hfail].
destruct (PSA_ALG_IS_PBKDF2 (kdf_alg c)) eqn:Hpb; cbn [negb]; [|by apply Hfail].
destruct (has_step c WOLFPSA_KDF_STEP_COST) eqn:Hst; [by apply Hfail|].
destruct (Z.eqb_spec value 0); [by apply Hfail|].
destruct (Z.ltb_spec UINT32_MAX value); [by apply Hfail|].
apply wp_bind, wp_modify, wp_ret. rewrite to_u32_small by lia.
set (c' := add_step WOLFPSA_KDF_STEP_COST (with_cost value c)).
exists c'. split; [by rewrite Hc|]. split.
- by apply (inv_update c); try done; simpl; lia.
- unfold kdf_view_s. rewrite Hc, collect_view by done. simpl. rewrite He, Hs.
  apply step_input_integer; [done|done|lia].
Qed.

(** What a key input needs of the key. *)
Lemma refines_input_key step key :
refines (KInputKey step key) (status_reply (psa_key_derivation_input_key step key)).
Proof.
apply refines_status; [done|]. intros c s Hc He Hi _. unfold wolfpsa_kdf_input_key.
assert (Hfail : forall e s', op_ctx s' = Some c -> e <> PSA_SUCCESS -> wp (mret e : KM psa_status_t)
  (fun st s' => exists c', op_ctx s' = Some c' /\
     outcome (KInputKey step key) (kdf_view_s s) (mkReply st None 0) c') s').
{ intros e s' H1 H2. by apply wp_ret, (outcome_none _ s c). }
apply wp_bind, wp_lib_any. intros [[st attr] data] k. cbv beta iota zeta.
set (a := default PSA_KEY_ATTRIBUTES_INIT attr). set (d := default [] data).
destruct st; [|by apply Hfail ..].
destruct (wolfpsa_kdf_validate_step c step (zlen d)) eqn:Hv; [|by apply Hfail ..].
destruct (_ =? 0); [by apply Hfail|]. destruct (negb _); [by apply Hfail|].
destruct (negb _ && negb _); [by apply Hfail|].
apply wp_bind, wp_input_bytes; [done| |].
- intros s1 Hc1 _. cbv iota. destruct (validate_inputs _ _ _ Hv) as [Hs Hv'].
  assert (Hend : forall b s2, op_ctx s2 = Some (permit_key_output b (add_input step d c)) ->
    (b = true -> step = PSA_KEY_DERIVATION_INPUT_SECRET \/ step = PSA_KEY_DERIVATION_INPUT_PASSWORD) ->
    exists c', op_ctx s2 = Some c' /\
      outcome (KInputKey step key) (kdf_view_s s) (mkReply PSA_SUCCESS None 0) c').
  { intros b s2 Hc2 Hb. apply (outcome_input _ c (permit_key_output b (add_input step d c))); try done.
    - eapply same_output_trans; [apply add_input_same|apply permit_same].
    - rewrite <- permit_inputs, <- add_input_inputs. by constructor. }
  destruct (_ && _) eqn:Hb.
  + apply wp_bind, wp_modify, wp_ret, (Hend true); [by simpl; rewrite Hc1|]. intros _.
    apply andb_true_iff in Hb as [_ [?%Z.eqb_eq|?%Z.eqb_eq]%orb_true_iff]; auto.
  + by apply wp_ret, (Hend false).
- intros e s1 Hc1 H1. destruct e; [done|by apply Hfail ..].
Qed.

Lemma key_agreement_secret_frame alg key peer size :
ctx_frame (O := O) (Op := wolfpsa_kdf_ctx) (wolfpsa_key_agreement_secret alg key peer size).
Proof.
unfold wolfpsa_key_agreement_secret, psa_asymmetric_key_agreement_x25519,
  psa_asymmetric_key_agreement_x448, ecdh_secret. ctx_frame_tac.
Qed.

Lemma refines_key_agreement step key peer :
refines (KKeyAgreement step key peer) (status_reply (psa_key_derivation_key_agreement step key peer)).
Proof.
apply refines_status; [done|]. intros c s Hc He Hi _. unfold wolfpsa_kdf_key_agreement.
assert (Hfail : forall e s', op_ctx s' = Some c -> e <> PSA_SUCCESS -> wp (mret e : KM psa_status_t)
  (fun st s' => exists c', op_ctx s' = Some c' /\
     outcome (KKeyAgreement step key peer) (kdf_view_s s) (mkReply st None 0) c') s').
{ intros e s' H1 H2. by apply wp_ret, (outcome_none _ s c). }
destruct (kdf_is_key_agreement c) eqn:Hka; cbn [negb]; [|by apply Hfail].
destruct (kdf_output_started c) eqn:Hs; [by apply Hfail|].
destruct (negb _ && negb _) eqn:Hstep; [by apply Hfail|].
destruct ((step =? PSA_KEY_DERIVATION_INPUT_OTHER_SECRET) && _) eqn:Hother; [by apply Hfail|].
apply wp_bind, wp_attributes; [intros e k ?; by apply Hfail|]. intros a k. cbv zeta.
destruct (Z.land _ _ =? 0); [by apply Hfail|].
destruct (PSA_KEY_TYPE_IS_KEY_PAIR _); [|by apply Hfail].
destruct (PSA_RAW_KEY_AGREEMENT_OUTPUT_SIZE _ _ =? 0); [by apply Hfail|].
apply wp_bind, wp_malloc. intros b s1 Hs1 _ _ _. assert (Hc1 : op_ctx s1 = Some c) by by rewrite Hs1.
destruct b; cbn [negb]; [|by apply Hfail].
apply wp_bind, wp_frame; [apply key_agreement_secret_frame|]. intros [st secret] s2 Hs2.
rewrite <- Hs2 in Hc1. apply wp_bind.
destruct st; [|by apply wp_ret, Hfail ..].
apply wp_input_bytes; [done| |intros e s3 Hc3 H3; destruct e; [done|by apply Hfail ..]].
intros s3 Hc3 Hv. destruct (validate_inputs _ _ _ Hv) as [_ Hv'].
assert (Hend : forall s4,
  op_ctx s4 = Some (permit_key_output (step =? PSA_KEY_DERIVATION_INPUT_SECRET) (add_input step secret c)) ->
  exists c', op_ctx s4 = Some c' /\
    outcome (KKeyAgreement step key peer) (kdf_view_s s) (mkReply PSA_SUCCESS None 0) c').
{ intros s4 Hc4. apply (outcome_input _ c
    (permit_key_output (step =? PSA_KEY_DERIVATION_INPUT_SECRET) (add_input step secret c)));
    try done.
  - eapply same_output_trans; [apply add_input_same|apply permit_same].
  - rewrite <- permit_inputs, <- add_input_inputs. constructor; try done.
    apply andb_false_iff in Hstep. rewrite !negb_false_iff, !Z.eqb_eq in Hstep.
    destruct Hstep as [Hst|Hst]; [by left|]. right. split; [done|].
    rewrite Hst in Hother. by apply negb_false_iff in Hother. }
destruct (step =? PSA_KEY_DERIVATION_INPUT_SECRET).
- apply wp_bind, wp_modify, wp_ret, Hend. simpl. by rewrite Hc3.
- by apply wp_ret, Hend.
Qed.

(** ** Outputs *)

Lemma view_started c :
kdf_output_started c = true -> kdf_error_state c = false ->
kdf_view_of (Some c) = KStream (kdf_inputs c) (kdf_output_offset c) (kdf_capacity c).
Proof. intros Hs He. simpl. by rewrite He, Hs. Qed.

Lemma begin_inputs c :
kdf_inv c -> kdf_output_started c = false ->
begin_stream (kdf_inputs c) (kdf_capacity c) = kdf_inputs (kdf_snapshot_L c).
Proof.
intros Hi Hs. unfold begin_stream, kdf_snapshot_L. simpl. rewrite Hs. simpl negb.
by destruct (_ && true && _).
Qed.

(** A new context further in the stream, seen abstractly. *)
Lemma moves_view c c' n :
kdf_inv c -> kdf_error_state c = false -> kdf_error_state c' = false ->
kdf_output_started c' = true -> frozen (kdf_snapshot_L c) c' ->
kdf_output_offset c' = kdf_output_offset c + n ->
moves n (kdf_capacity c') (kdf_view_of (Some c)) (kdf_view_of (Some c')).
Proof.
intros Hi He He' Hs' Hf Ho. rewrite (view_started c') by done. simpl. rewrite He, Ho.
destruct (kdf_output_started c) eqn:Hs.
- rewrite snapshot_started in Hf by done. rewrite Hf. constructor.
- destruct (inv_started c Hi Hs) as [-> _]. rewrite Hf, <- begin_inputs by done. constructor.
Qed.

Lemma view_cap_of c : view_cap (kdf_view_of (Some c)) = kdf_capacity c.
Proof. simpl. by repeat case_match. Qed.

Lemma advanced_consumes c c' n :
kdf_inv c -> kdf_error_state c = false -> kdf_error_state c' = false -> advanced c c' n ->
consumes n (kdf_view_of (Some c)) (kdf_view_of (Some c')).
Proof.
intros Hi He He' []. exists (kdf_capacity c'). rewrite view_cap_of. split; [done|].
by apply moves_view.
Qed.

Lemma consumes_drifts n v v' : 0 <= n -> consumes n v v' -> drifts v v'.
Proof.
intros Hn (cap' & Ht & Hm). right. exists n, cap'. split_and!; [done| |done].
destruct Ht as [[_ ->]|(_ & _ & ->)]; lia.
Qed.

Lemma failed_drifts c c' e :
kdf_inv c -> kdf_error_state c = false -> kdf_error_state c' = false ->
e <> PSA_ERROR_INSUFFICIENT_DATA -> failed_output c c' e ->
drifts (kdf_view_of (Some c)) (kdf_view_of (Some c')).
Proof.
intros Hi He He' Hne [->|(H1 & H2 & H3 & [H4|H4])]; [by left| |done].
right. exists 0, (kdf_capacity c'). rewrite view_cap_of. split_and!; [done|done|].
apply moves_view; try done. lia.
Qed.

(** The bytes of a successful output are the last ones of the new position. *)
Lemma output_last_bytes c c' n bytes :
0 <= n -> kdf_inv c -> kdf_error_state c' = false -> advanced c c' n ->
stream_part c' (kdf_output_offset c) n (Some bytes) ->
last_bytes (kdf_view_of (Some c')) n bytes.
Proof.
intros Hn Hi He [_ Ho Hs _] Hb. rewrite (view_started c') by done. rewrite Ho.
simpl. intros Hc. replace (kdf_output_offset c + n - n) with (kdf_output_offset c) by lia.
destruct (Hb Hc) as (Hbytes & Hlen & Hrd). injection Hbytes as ->. pose proof (inv_offset c Hi).
split_and!; [done| |done]. unfold slice. rewrite zlen_take by done.
change (kdf_stream (kdf_inputs c')) with (kdf_stream c').
unfold zlen in *. rewrite length_drop. lia.
Qed.

(** A successful output writes the buffer. *)
Lemma output_some n c s :
(wolfpsa_kdf_output_bytes (O := O) true n c s).1.1 = PSA_SUCCESS ->
is_Some (wolfpsa_kdf_output_bytes (O := O) true n c s).1.2.
Proof.
change (wp (wolfpsa_kdf_output_bytes (O := O) true n c)
  (fun r _ => r.1 = PSA_SUCCESS -> is_Some r.2) s).
unfold wolfpsa_kdf_output_bytes. cbn [negb].
destruct (kdf_output_ready c n); try (by apply wp_ret).
destruct (wolfpsa_kdf_require_output _ _) as [st c1]. apply wp_bind, wp_any. intros _ s1.
destruct st; try (by apply wp_ret). cbv zeta. apply wp_bind, wp_any. intros _ s2.
destruct (to_size _ <? _); [by apply wp_ret|]. apply wp_bind, wp_any. intros st s3.
destruct st; try (by apply wp_ret). apply wp_bind, wp_any. intros c' s4. apply wp_bind.
apply (wp_mono _ (fun r _ => r.1 = PSA_SUCCESS -> is_Some r.2)).
- unfold kdf_deliver. cbv zeta. destruct (kdf_output_cache _).
  { destruct (_ <? _); apply wp_ret; [done|by eexists]. }
  destruct (_ =? 0).
  + apply wp_bind, wp_any. intros [st out] s5. destruct st; apply wp_ret; first [done|by eexists].
  + apply wp_bind, wp_any. intros b s5. destruct (negb b); [by apply wp_ret|].
    apply wp_bind, wp_any. intros [st out] s6. destruct st; apply wp_ret; first [done|by eexists].
- intros [st out] s5 Hr. destruct st; try (by apply wp_ret). apply wp_bind, wp_any.
  intros _ s6. by apply wp_ret.
Qed.

(** [psa_key_derivation_output_bytes] on a live operation, as the workers use it. *)
Definition output_post c (n : Z) (r : psa_status_t * option (list byte)) s' : Prop :=
exists c', op_ctx s' = Some c' /\ kdf_inv c' /\
  match r.1 with
  | PSA_SUCCESS =>
      kdf_error_state c' = false /\ advanced c c' n /\
      exists bytes, r.2 = Some bytes /\ stream_part c' (kdf_output_offset c) n (Some bytes)
  | PSA_ERROR_INVALID_SIGNATURE | PSA_ERROR_INVALID_HANDLE =>
      no_output r.2 /\ kdf_error_state c' = false /\
      drifts (kdf_view_of (Some c)) (kdf_view_of (Some c'))
  | _ => no_output r.2
  end.

Lemma wp_output c n s :
op_ctx s = Some c -> kdf_error_state c = false -> kdf_inv c -> 0 <= n <= SIZE_MAX ->
wp (wolfpsa_kdf_output_bytes true n c) (output_post c n) s.
Proof.
intros Hc He Hi Hn. pose proof (output_some n c s) as Hsome. revert Hsome.
change (wp (wolfpsa_kdf_output_bytes (O := O) true n c)
  (fun r s' => (r.1 = PSA_SUCCESS -> is_Some r.2) -> output_post c n r s') s).
apply wp_output_bytes; [done|done|done|]. intros st out c' s' _ Hc' (Hi' & He' & Hres) _ Hsome.
rewrite He in He'. exists c'. split; [done|]. split; [done|]. simpl.
destruct st; try apply Hres.
- destruct Hres as [Ha Hb], (Hsome eq_refl) as [bytes Hbytes]. simpl in Hbytes. subst out.
  by split_and!; [..|exists bytes].
- destruct Hres. split_and!; [done|done|]. by apply (failed_drifts _ _ PSA_ERROR_INVALID_HANDLE).
- destruct Hres. split_and!; [done|done|]. by apply (failed_drifts _ _ PSA_ERROR_INVALID_SIGNATURE).
Qed.

Lemma refines_output_bytes output n :
refines (KOutputBytes output n)
  ('(st, bytes) ← psa_key_derivation_output_bytes output n; mret (mkReply st bytes 0)).
Proof.
intros s Hok Hn. simpl in Hn. apply wp_bind.
apply (wp_guarded _ _ (KOutputBytes output n) (fun st bytes => mkReply st bytes 0)); try done.
intros c Hc He Hi. unfold kdf_view_s. rewrite Hc. destruct output.
- eapply wp_mono; [by apply wp_output|]. intros [st bytes] s' (c' & Hc' & Hi' & Hr).
  exists c'. split; [done|]. split; [done|]. simpl in *. destruct st; try done.
  + destruct Hr as (He' & Ha & b & -> & Hb).
    apply step_output; [by apply advanced_consumes|].
    by apply (output_last_bytes c); try done; lia.
  + by destruct Hr as (? & _ & ?).
  + by destruct Hr as (? & _ & ?).
- apply wp_ret. exists c. split; [done|]. split; [done|]. by left.
Qed.

(** The output of the workers goes through the entry point: its error state is
  set before they see a failure. *)
Lemma wp_output_entry c n s
  (Q : psa_status_t * option (list byte) -> opstate O wolfpsa_kdf_ctx -> Prop) :
op_ctx s = Some c -> kdf_error_state c = false -> kdf_inv c -> 0 <= n <= SIZE_MAX ->
(forall bytes c' s', op_ctx s' = Some c' -> kdf_inv c' -> kdf_error_state c' = false ->
   advanced c c' n -> stream_part c' (kdf_output_offset c) n (Some bytes) -> Q (PSA_SUCCESS, Some bytes) s') ->
(forall e out c' s', op_ctx s' = Some c' -> kdf_inv c' -> e <> PSA_SUCCESS ->
   (stays e = true -> drifts (kdf_view_of (Some c)) (kdf_view_of (Some c'))) -> Q (e, out) s') ->
wp (psa_key_derivation_output_bytes true n) Q s.
Proof.
intros Hc He Hi Hn Hgood Hbad. unfold psa_key_derivation_output_bytes, guarded.
apply wp_bind. unfold get_ctx. apply wp_gets. rewrite Hc. simpl. rewrite He.
apply wp_bind. eapply wp_mono; [by apply wp_output|].
intros [st out] s1 (c1 & Hc1 & Hi1 & Hr). simpl in Hr. apply wp_bind.
assert (Hend : forall e, e <> PSA_SUCCESS -> stays e = false ->
  wp (modify_ctx (with_error_state true);; mret e) (fun st s' => wp (mret (st, out)) Q s') s1).
{ intros e H1 H2. apply wp_bind, wp_modify, wp_ret, wp_ret.
  apply (Hbad _ _ (with_error_state true c1)); [by rewrite Hc1|by apply inv_error|done|].
  by rewrite H2. }
destruct st; try by apply Hend.
- destruct Hr as (He1 & Ha & b & -> & Hb). apply wp_ret, wp_ret. by apply (Hgood b c1).
- apply wp_ret, wp_ret. apply (Hbad _ _ c1); try done. intros _. apply Hr.
- apply wp_ret, wp_ret. apply (Hbad _ _ c1); try done. intros _. apply Hr.
Qed.

(** A failed worker after an output call. *)
Lemma outcome_bad call s c c' e n s' :
op_ctx s = Some c -> op_ctx s' = Some c' -> kdf_inv c' -> e <> PSA_SUCCESS ->
(stays e = true -> drifts (kdf_view_of (Some c)) (kdf_view_of (Some c'))) ->
exists c', op_ctx s' = Some c' /\ outcome call (kdf_view_s s) (mkReply e None n) c'.
Proof.
intros Hc Hc' Hi He Hd. exists c'. split; [done|]. split; [done|].
unfold kdf_view_s. rewrite Hc. simpl. assert (Hn : no_output None) by by left.
destruct e; try done; (split; [done|by apply Hd]).
Qed.

Lemma drifts_refl v : drifts v v.
Proof. by left. Qed.

Lemma refines_output_key attributes key :
refines (KOutputKey attributes key)
  ('(st, id) ← psa_key_derivation_output_key attributes key; mret (mkReply st None id)).
Proof.
intros s Hok Hn. apply wp_bind.
apply (wp_guarded _ _ (KOutputKey attributes key) (fun st id => mkReply st None id)); try done.
intros c Hc He Hi. unfold wolfpsa_kdf_output_key.
assert (Hfail : forall e id s', op_ctx s' = Some c -> e <> PSA_SUCCESS ->
  wp (mret (e, id) : KM (psa_status_t * Z)) (fun r s' => exists c', op_ctx s' = Some c' /\
     outcome (KOutputKey attributes key) (kdf_view_s s) (mkReply r.1 None r.2) c') s').
{ intros e id s' H1 H2. apply wp_ret. apply (outcome_bad _ _ c c); try done.
  intros _. apply drifts_refl. }
destruct attributes as [a|]; [|by apply Hfail]. destruct key; [|by apply Hfail]. cbv zeta.
destruct (PSA_BITS_TO_BYTES (attr_bits a) =? 0); [by apply Hfail|].
destruct (kdf_can_output_key c) eqn:Hk; cbn [negb]; [|by apply Hfail].
destruct (PSA_KEY_TYPE_IS_UNSTRUCTURED (attr_type a)); cbn [negb]; [|by apply Hfail].
apply wp_bind, wp_malloc. intros b s1 Hs1 _ _ _. assert (Hc1 : op_ctx s1 = Some c) by by rewrite Hs1.
destruct b; cbn [negb]; [|by apply Hfail].
assert (Hlen : 0 <= PSA_BITS_TO_BYTES (attr_bits a) <= SIZE_MAX).
{ simpl in Hn. unfold PSA_BITS_TO_BYTES, SIZE_MAX. split; [apply Z.div_pos; lia|].
  apply Z.div_le_upper_bound; lia. }
apply wp_bind, (wp_output_entry c); try done.
- intros bytes c2 s2 Hc2 Hi2 He2 Ha _. apply wp_lib_any. intros [st id] k.
  pose proof (advanced_consumes c c2 _ Hi He He2 Ha) as Hcons.
  destruct (decide (st = PSA_SUCCESS)) as [->|Hst].
  + exists c2. split; [done|]. split; [done|]. unfold kdf_view_s. rewrite Hc.
    apply step_output_key; [|done]. simpl. rewrite He. by destruct (kdf_output_started c).
  + apply (outcome_bad _ _ c c2); try done. intros _.
    apply (consumes_drifts _ _ _ (proj1 Hlen) Hcons).
- intros e out c2 s2 Hc2 Hi2 H1 H2. destruct e; [done|apply wp_ret; by apply (outcome_bad _ _ c c2) ..].
Qed.

(** ** Verification *)

(** What a verification call leaves behind, by its status. *)
Definition verify_post c (expected : input) (st : psa_status_t) s' : Prop :=
exists c', op_ctx s' = Some c' /\ kdf_inv c' /\
  match st with
  | PSA_SUCCESS =>
      exists l, expected = Bytes l /\
      consumes (zlen l) (kdf_view_of (Some c)) (kdf_view_of (Some c')) /\
      last_bytes (kdf_view_of (Some c')) (zlen l) l
  | e => stays e = true -> drifts (kdf_view_of (Some c)) (kdf_view_of (Some c'))
  end.

Lemma verify_fail c c' expected e s :
op_ctx s = Some c' -> kdf_inv c' -> e <> PSA_SUCCESS ->
(stays e = true -> drifts (kdf_view_of (Some c)) (kdf_view_of (Some c'))) ->
verify_post c expected e s.
Proof. intros Hc Hi He Hd. exists c'. split; [done|]. split; [done|]. by destruct e. Qed.

Lemma last_bytes_nil v bytes : last_bytes v 0 bytes -> last_bytes v 0 [].
Proof.
destruct v; simpl; try done. intros H Hc. destruct (H Hc) as (_ & _ & Hrd). done.
Qed.

(** Comparing the output with what is expected. *)
Lemma verify_compare c c' l bytes s :
op_ctx s = Some c' -> kdf_inv c -> kdf_inv c' -> kdf_error_state c = false ->
kdf_error_state c' = false -> advanced c c' (zlen l) ->
stream_part c' (kdf_output_offset c) (zlen l) (Some bytes) ->
verify_post c (Bytes l)
  (if negb (ConstantCompare bytes l =? 0) then PSA_ERROR_INVALID_SIGNATURE else PSA_SUCCESS) s.
Proof.
intros Hc Hi Hi' He He' Ha Hb. pose proof (zlen_nonneg l).
assert (Hcons : consumes (zlen l) (kdf_view_of (Some c)) (kdf_view_of (Some c')))
  by by apply advanced_consumes.
destruct (Z.eqb_spec (ConstantCompare bytes l) 0) as [Hcmp|Hcmp]; cbn [negb].
- exists c'. split; [done|]. split; [done|]. exists l. split; [done|]. split; [done|].
  pose proof (output_last_bytes c c' (zlen l) bytes ltac:(done) Hi He' Ha Hb) as Hl.
  rewrite (view_started c' (adv_started _ _ _ Ha) He') in Hl |- *. intros Hcnt.
  destruct (Hl Hcnt) as (Hbytes & Hlen & Hrd). apply constant_compare_spec in Hcmp; [|done].
  by rewrite Hcmp in Hbytes.
- apply (verify_fail c c'); try done. intros _. by apply (consumes_drifts (zlen l)).
Qed.

Lemma wp_verify_bytes c expected s :
op_ctx s = Some c -> kdf_error_state c = false -> kdf_inv c ->
wp (wolfpsa_kdf_verify_bytes expected c) (verify_post c expected) s.
Proof.
intros Hc He Hi. unfold wolfpsa_kdf_verify_bytes. cbv zeta.
assert (Hfail : forall e s', op_ctx s' = Some c -> e <> PSA_SUCCESS ->
  wp (mret e : KM psa_status_t) (verify_post c expected) s').
{ intros e s' H1 H2. apply wp_ret, (verify_fail c c); try done. intros _. apply drifts_refl. }
destruct expected as [k|l]; cbn [is_null input_length input_bytes]; [by apply Hfail|].
destruct (Z.ltb_spec INT_MAX (zlen l)); [by apply Hfail|]. pose proof (zlen_nonneg l).
assert (Hmax : INT_MAX < SIZE_MAX) by by unfold INT_MAX, SIZE_MAX.
destruct (Z.eqb_spec (zlen l) 0) as [Hz|Hz].
{ rewrite (zlen_0_nil l Hz). apply wp_bind, wp_output_entry with c; try done.
  - intros bytes c2 s2 Hc2 Hi2 He2 Ha Hb. apply wp_ret. exists c2. split; [done|]. split; [done|].
    exists []. split; [done|]. split; [by apply advanced_consumes|].
    apply (last_bytes_nil _ bytes). by apply (output_last_bytes c).
  - intros e out c2 s2 Hc2 Hi2 H1 H2. by apply wp_ret, (verify_fail c c2). }
apply wp_bind, wp_malloc. intros b s1 Hs1 _ _ _. assert (Hc1 : op_ctx s1 = Some c) by by rewrite Hs1.
destruct b; cbn [negb]; [|by apply Hfail].
apply wp_bind, wp_output_entry with c; try done; [lia| |].
- intros bytes c2 s2 Hc2 Hi2 He2 Ha Hb. apply wp_ret. by apply (verify_compare c c2).
- intros e out c2 s2 Hc2 Hi2 H1 H2. destruct e; [done|by apply wp_ret, (verify_fail c c2) ..].
Qed.

(** A status of the verification, as the outcome of a worker. *)
Lemma verify_outcome call c expected st s s' :
op_ctx s = Some c -> verify_post c expected st s' ->
(forall l v', expected = Bytes l -> consumes (zlen l) (kdf_view_of (Some c)) v' ->
   last_bytes v' (zlen l) l -> kdf_step (kdf_view_of (Some c)) call ok_reply v') ->
exists c', op_ctx s' = Some c' /\ outcome call (kdf_view_s s) (mkReply st None 0) c'.
Proof.
intros Hc (c' & Hc' & Hi' & Hst) Hstep. unfold kdf_view_s. rewrite Hc. exists c'.
split; [done|]. split; [done|]. simpl. assert (Hn : no_output None) by by left.
destruct st; try done; try by (split; [done|apply Hst]).
destruct Hst as (l & Hl & H1 & H2). by apply (Hstep l).
Qed.

Lemma refines_verify_bytes expected :
refines (KVerifyBytes expected) (status_reply (psa_key_derivation_verify_bytes expected)).
Proof.
apply refines_status; [done|]. intros c s Hc He Hi _.
eapply wp_mono; [by apply wp_verify_bytes|]. intros st s' Hpost.
apply (verify_outcome _ c expected); [done|done|]. intros l v' -> H1 H2. by apply step_verify.
Qed.

(** The entry point inside [psa_key_derivation_verify_key]. *)
Lemma wp_verify_entry c expected s :
op_ctx s = Some c -> kdf_error_state c = false -> kdf_inv c ->
wp (psa_key_derivation_verify_bytes expected) (verify_post c expected) s.
Proof.
intros Hc He Hi. unfold psa_key_derivation_verify_bytes, guarded_status, guarded.
apply wp_bind, wp_bind. unfold get_ctx. apply wp_gets. rewrite Hc. simpl. rewrite He.
apply wp_bind, wp_bind. eapply wp_mono; [by apply wp_verify_bytes|].
intros st s1 Hpost. apply wp_ret, wp_bind.
destruct (decide (st = PSA_SUCCESS)) as [->|Hst]; [by apply wp_ret, wp_ret, wp_ret|].
destruct Hpost as (c1 & Hc1 & Hi1 & Hpost).
destruct (stays st) eqn:Hstay.
- assert (Hd : drifts (kdf_view_of (Some c)) (kdf_view_of (Some c1))).
  { destruct st; try done; by apply Hpost. }
  destruct st; try done; apply wp_ret, wp_ret, wp_ret; by apply (verify_fail c c1).
- destruct st; try done; apply wp_bind, wp_modify, wp_ret, wp_ret, wp_ret;
    (apply (verify_fail c (with_error_state true c1));
      [by simpl; rewrite Hc1|by apply inv_error|done|done]).
Qed.

Lemma refines_verify_key expected :
refines (KVerifyKey expected) (status_reply (psa_key_derivation_verify_key expected)).
Proof.
apply refines_status; [done|]. intros c s Hc He Hi _. unfold wolfpsa_kdf_verify_key.
assert (Hfail : forall e s', op_ctx s' = Some c -> e <> PSA_SUCCESS -> wp (mret e : KM psa_status_t)
  (fun st s' => exists c', op_ctx s' = Some c' /\
     outcome (KVerifyKey expected) (kdf_view_s s) (mkReply st None 0) c') s').
{ intros e s' H1 H2. by apply wp_ret, (outcome_none _ s c). }
apply wp_bind, wp_attributes; [intros e k ?; by apply Hfail|]. intros a k.
destruct (Z.land _ _ =? 0); [by apply Hfail|].
destruct (negb (attr_type a =? _)); [by apply Hfail|].
apply wp_bind, wp_lib_any. intros [[st attr] data] k'. destruct st; [|by apply Hfail ..].
eapply wp_mono; [by apply wp_verify_entry|]. intros st s' Hpost.
apply (verify_outcome _ c (Bytes (default [] data))); [done|done|].
intros l v' _ H1 H2. by apply (step_verify_key _ _ l).
Qed.

(** ** Setup, abort, capacities *)

Lemma setup_alg_error alg : kdf_setup_alg alg <> inl PSA_SUCCESS.
Proof. unfold kdf_setup_alg. cbv zeta. by repeat case_match. Qed.

Lemma refines_setup alg : refines (KSetup alg) (status_reply (psa_key_derivation_setup alg)).
Proof.
intros s Hok _. apply wp_bind. unfold psa_key_derivation_setup.
apply wp_bind. unfold get_ctx. apply wp_gets. unfold kdf_view_s.
destruct (op_ctx s) as [c|] eqn:Hc.
{ apply wp_ret, wp_ret. split; [done|]. rewrite Hc. apply step_tolerated; try done; by left. }
assert (Hfail : forall e s', op_ctx s' = None -> e <> PSA_SUCCESS ->
  wp (mret e) (fun st s' => wp (mret (mkReply st None 0) : KM kdf_reply)
     (fun r s' => kdf_ok s' /\ kdf_step KIdle (KSetup alg) r (kdf_view_of (op_ctx s'))) s') s').
{ intros e s' H1 H2. apply wp_ret, wp_ret. split; [intros c; by rewrite H1|].
  rewrite H1. by apply step_idle. }
destruct (kdf_setup_alg alg) as [e|kalg] eqn:Hset.
{ apply Hfail; [done|]. intros ->. by apply (setup_alg_error alg). }
apply wp_bind, wp_malloc. intros b s1 Hs1 _ _ _.
assert (Hc1 : op_ctx s1 = None) by by rewrite Hs1.
destruct b; cbn [negb]; [|by apply Hfail].
destruct (kdf_default_capacity kalg) as [cap|] eqn:Hcap; [|by apply Hfail].
apply wp_bind, wp_modify, wp_ret, wp_ret.
split; [by eapply kdf_ok_some, inv_initial|]. by apply step_setup.
Qed.

Lemma refines_abort : refines KAbort (status_reply psa_key_derivation_abort).
Proof.
intros s _ _. apply wp_bind. unfold psa_key_derivation_abort.
apply wp_bind, wp_modify, wp_ret, wp_ret. split; [done|]. constructor.
Qed.

Lemma refines_get_capacity :
refines KGetCapacity ('(st, n) ← psa_key_derivation_get_capacity; mret (mkReply st None n)).
Proof.
intros s Hok _. apply wp_bind. unfold psa_key_derivation_get_capacity.
apply wp_bind. unfold get_ctx. apply wp_gets, wp_ret.
unfold kdf_view_s. destruct (op_ctx s) as [c|] eqn:Hc; apply wp_ret; rewrite Hc;
  (split; [done|]); [|by apply step_idle].
rewrite <- view_cap_of. apply step_get_capacity. simpl. by repeat case_match.
Qed.

Lemma refines_set_capacity n :
refines (KSetCapacity n) (status_reply (psa_key_derivation_set_capacity n)).
Proof.
intros s Hok Hn. simpl in Hn. apply wp_bind. unfold psa_key_derivation_set_capacity.
apply wp_bind. unfold get_ctx. apply wp_gets. unfold kdf_view_s.
destruct (op_ctx s) as [c|] eqn:Hc; simpl.
2: { apply wp_ret, wp_ret. split; [done|]. rewrite Hc. by apply step_idle. }
specialize (Hok c Hc) as Hi.
destruct (kdf_error_state c) eqn:He.
{ apply wp_ret, wp_ret. split; [done|]. rewrite Hc. simpl. rewrite He.
  apply step_fail; try done. by left. }
set (v := if kdf_output_started c then _ else _).
assert (Hv : v = kdf_view_of (Some c)) by (simpl; by rewrite He).
assert (Hfail : wp (mret PSA_ERROR_NOT_SUPPORTED) (fun st s' => wp
    (match st with PSA_ERROR_INVALID_ARGUMENT => mret st | _ => wolfpsa_kdf_done st end)
    (fun st s' => wp (mret (mkReply st None 0) : KM kdf_reply) (fun r s' =>
       kdf_ok s' /\ kdf_step v (KSetCapacity n) r (kdf_view_of (op_ctx s'))) s') s') s).
{ apply wp_ret. apply wp_bind, wp_modify, wp_ret, wp_ret. simpl. rewrite Hc.
  split; [by eapply kdf_ok_some, inv_error|].
  apply step_fail; try done; [by left|]. rewrite Hv. simpl. rewrite He. by case_match. }
apply wp_bind. unfold wolfpsa_kdf_set_capacity. cbv zeta.
destruct (PSA_ALG_IS_ANY_HKDF (kdf_alg c) && (_ <=? 0)); [done|].
assert (Hbad : wp (mret PSA_ERROR_INVALID_ARGUMENT) (fun st s' => wp
    (match st with PSA_ERROR_INVALID_ARGUMENT => mret st | _ => wolfpsa_kdf_done st end)
    (fun st s' => wp (mret (mkReply st None 0) : KM kdf_reply) (fun r s' =>
       kdf_ok s' /\ kdf_step v (KSetCapacity n) r (kdf_view_of (op_ctx s'))) s') s') s).
{ apply wp_ret, wp_ret, wp_ret. rewrite Hc, Hv. split; [done|].
  apply step_tolerated; try done; by left. }
destruct (PSA_ALG_IS_ANY_HKDF (kdf_alg c) && (_ <? n)); [done|].
destruct (Z.ltb_spec (kdf_capacity c) n) as [Hlt|Hge]; [done|].
apply wp_bind, wp_modify, wp_ret, wp_ret, wp_ret. simpl. rewrite Hc. simpl.
split.
- eapply kdf_ok_some; [done|]. apply (inv_lower c); simpl; try done; [lia|].
  destruct (decide (n = kdf_capacity c)); [by left|right].
  pose proof (inv_capacity c Hi). unfold unlimited, PSA_KEY_DERIVATION_UNLIMITED_CAPACITY. lia.
- rewrite He. unfold v. destruct (kdf_output_started c); by constructor.
Qed.

(** * The theorems *)

Lemma kdf_call_refines call : refines call (kdf_run call).
Proof.
destruct call; simpl.
- apply refines_setup.
- apply refines_abort.
- apply refines_get_capacity.
- apply refines_set_capacity.
- apply refines_input_bytes.
- apply refines_input_integer.
- apply refines_input_key.
- apply refines_key_agreement.
- apply refines_output_bytes.
- apply refines_output_key.
- apply refines_verify_bytes.
- apply refines_verify_key.
Qed.

Lemma runs_trace calls s :
kdf_ok s -> Forall kdf_call_ok calls ->
wp (kdf_runs calls) (fun l s' => map fst l = calls /\ kdf_ok s' /\
  kdf_trace (kdf_view_s s) l (kdf_view_s s')) s.
Proof.
revert s; induction calls as [|call calls IH]; intros s Hok Hcalls; simpl.
{ apply wp_ret. split_and!; [done|done|constructor]. }
apply Forall_cons in Hcalls as [Hcall Hcalls].
apply wp_bind. eapply wp_mono; [by apply kdf_call_refines|]. intros r s1 [Hok1 Hstep].
apply wp_bind. eapply wp_mono; [by apply IH|]. intros l s2 (Hmap & Hok2 & Htr).
apply wp_ret. split_and!; [simpl; by rewrite Hmap|done|by econstructor].
Qed.

(** C2: whatever fails, every sequence of calls on an operation, in any order, is
  a run of the abstract machine [kdf_step]. *)
Theorem kdf_calls_refine calls s :
kdf_ok s -> Forall kdf_call_ok calls ->
wp (kdf_runs calls) (fun l s' =>
  map fst l = calls /\ kdf_trace (kdf_view_s s) l (kdf_view_s s')) s.
Proof.
intros Hok Hcalls. eapply wp_mono; [by apply runs_trace|]. by intros l s' (? & _ & ?).
Qed.
End Machine.
