(* ===== verification/KdfProps.v ===== *)
(** What follows from the refinement of [KdfSpec]: the properties of a
    key-derivation operation, over every sequence of calls. *)

From stdpp Require Import base decidable list.
From Stdlib Require Import ZArith Lia.
From Stdlib Require Import Strings.Byte.
From S2P Require Import Prelude.
From S2P Require Import Values.
From S2P Require Import Engine.
From S2P Require Import WolfCrypt.
From S2P Require Import KeyPolicy.
From S2P Require Import KeyFormat.
From S2P Require Import StoreIface.
From S2P Require Import Library.
From S2P Require Import KeyStore.
From S2P Require Import KeyStoreRules.
From S2P Require Import Operation.
From S2P Require Import KeyAgreement.
From S2P Require Import Kdf.
From S2P Require Import KdfStream.
From S2P Require Import KdfInv.
From S2P Require Import KdfSpec.

#[local] Open Scope Z_scope.

Section Properties.
Context {C : Config} {E : WolfCryptErr} {K : WolfCryptKeys} {R : WolfCryptRng}.
Context {O : StoreOps} {B : KeyBackend} {DH : WolfCryptDh} {WM : WolfCryptMisc}.
Context {WD : WolfCryptDigest} {WK : WolfCryptKdf} {WH : WolfCryptHmac} {WC : WolfCryptCmac}.
Context {WKO : WolfCryptKdfOk WD WK} {WHO : WolfCryptHmacOk WD WH} {WCO : WolfCryptCmacOk WC}.
Context {WMO : WolfCryptMiscOk WM}.

Implicit Types c : wolfpsa_kdf_ctx.
Implicit Types s : opstate O wolfpsa_kdf_ctx.
Implicit Types l : list (kdf_call * kdf_reply).

(** * Runs of the abstract machine *)

Lemma moves_from n cap' v v' :
moves n cap' v v' -> exists i pos cap, v' = KStream i pos cap /\ (v <> KIdle) /\
  (forall x, v <> KFailed x).
Proof. destruct 1; by eauto 10. Qed.

(** ** Consecutive outputs *)

Lemma counters_mono c m n : counters_ok c n -> m <= n -> counters_ok c m.
Proof.
unfold counters_ok. intros [H1 H2] Hm. split; [|intros; etrans; [exact Hm|auto]].
etrans; [|exact H1]. by apply block_count_mono.
Qed.

(** The trace of successful outputs of [ns] bytes each. *)
Definition outputs (ns : list Z) (outs : list (list byte)) : list (kdf_call * kdf_reply) :=
zip_with (fun n b => (KOutputBytes true n, mkReply PSA_SUCCESS (Some b) 0)) ns outs.

Lemma output_step_inv v n b v' :
kdf_step v (KOutputBytes true n) (mkReply PSA_SUCCESS (Some b) 0) v' ->
consumes n v v' /\ last_bytes v' n b.
Proof. inversion 1; subst; by simplify_eq/=. Qed.

Lemma outputs_from_stream ns outs i pos cap v' :
length ns = length outs -> Forall (fun n => 0 <= n) ns -> 0 <= pos ->
kdf_trace (KStream i pos cap) (outputs ns outs) v' ->
exists cap', v' = KStream i (pos + zsum ns) cap' /\
  (counters_ok i (pos + zsum ns) -> ns <> [] ->
   concat outs = slice (kdf_stream i (pos + zsum ns)) pos (zsum ns) /\ stream_ready i).
Proof.
revert outs pos cap; induction ns as [|n ns IH]; intros [|b outs] pos cap Hlen Hns Hpos Htr;
  try done; simpl in *.
{ inversion Htr; subst. exists cap. by rewrite Z.add_0_r. }
apply Forall_cons in Hns as [Hn Hns]. pose proof (zsum_nonneg ns Hns).
inversion Htr as [|? ? ? v1 ? ? Hstep Htr1]; subst.
apply output_step_inv in Hstep as [(cap1 & _ & Hm) Hb]. inversion Hm; subst.
destruct (IH outs (pos + n) cap1) as (cap' & -> & Hrest); [lia|done|lia|done|].
exists cap'. replace (pos + n + zsum ns) with (pos + (n + zsum ns)) in * by lia.
split; [done|]. intros Hc _. simpl in Hb.
destruct (Hb ltac:(eapply counters_mono; [exact Hc|lia])) as (-> & Hlb & Hrd).
split; [|done]. replace (pos + n - n) with pos by lia.
rewrite slice_app by lia. f_equal.
- rewrite <- stream_slice with (k := pos + (n + zsum ns)) by (done || lia). done.
- destruct ns as [|n' ns]; [destruct outs; [|done]; done|]. by apply Hrest.
Qed.

(** C3: successive outputs are successive parts of one stream, which the inputs
  fix: no byte of it is delivered twice or skipped. *)
Theorem kdf_outputs_consecutive ns outs c s :
op_ctx s = Some c -> kdf_error_state c = false -> kdf_inv c ->
ns <> [] -> Forall (fun n => 0 <= n <= SIZE_MAX) ns -> length outs = length ns ->
counters_ok c (kdf_output_offset c + zsum ns) ->
(kdf_runs (map (KOutputBytes true) ns) s).1 = outputs ns outs ->
concat outs = slice (kdf_stream (kdf_snapshot_L c) (kdf_output_offset c + zsum ns))
                    (kdf_output_offset c) (zsum ns).
Proof.
intros Hc He Hi Hne Hns Hlen Hcnt Hrun.
assert (Hns0 : Forall (fun n => 0 <= n) ns) by (eapply Forall_impl; [exact Hns|simpl; lia]).
pose proof (runs_trace (map (KOutputBytes true) ns) s) as Htr. unfold wp in Htr. rewrite Hrun in Htr.
destruct Htr as (_ & _ & Htr); [by eapply kdf_ok_some| |].
{ apply Forall_map. eapply Forall_impl; [exact Hns|]. done. }
revert Htr. unfold kdf_view_s. rewrite Hc. generalize (kdf_view_of (op_ctx
  (kdf_runs (map (KOutputBytes true) ns) s).2)) as v'. intros v' Htr.
pose proof (inv_offset c Hi) as Hoff. pose proof (zsum_nonneg ns Hns0).
destruct (kdf_output_started c) eqn:Hs.
- rewrite view_started in Htr by done. rewrite snapshot_started by done.
  apply outputs_from_stream in Htr as (cap' & _ & Hbytes); [|done|done|lia].
  by destruct (Hbytes Hcnt Hne).
- destruct (inv_started c Hi Hs) as [H0 _]. rewrite H0 in *. rewrite collect_view in Htr by done.
  destruct ns as [|n ns]; [done|]. destruct outs as [|b outs]; [done|]. simpl in *.
  inversion Htr as [|? ? ? v1 ? ? Hstep Htr1]; subst.
  apply output_step_inv in Hstep as [(cap1 & _ & Hm) Hb]. inversion Hm; subst.
  rewrite begin_inputs in * by done. apply Forall_cons in Hns0 as [Hn Hns0].
  pose proof (zsum_nonneg ns Hns0).
  assert (Hcb : counters_ok (kdf_inputs (kdf_snapshot_L c)) (0 + (n + zsum ns)))
    by by apply (snapshot_counters c).
  destruct (Hb ltac:(eapply counters_mono; [exact Hcb|lia])) as (-> & Hlb & Hrd).
  apply outputs_from_stream in Htr1 as (cap' & _ & Hbytes); [|lia|done|lia].
  change (kdf_stream (kdf_inputs (kdf_snapshot_L c))) with (kdf_stream (kdf_snapshot_L c)) in *.
  rewrite slice_app by lia. f_equal.
  + replace (n - n) with 0 by lia. symmetry. apply (stream_slice _ 0 n); (done || lia).
  + destruct ns as [|n' ns]; [by destruct outs|]. by apply Hbytes.
Qed.

(** ** The error state *)

Lemma failed_step cap call r v' :
kdf_step (KFailed cap) call r v' -> call <> KAbort ->
(exists cap', v' = KFailed cap') /\
(call = KGetCapacity \/ (rp_status r <> PSA_SUCCESS /\ no_output (rp_bytes r))).
Proof.
intros Hstep Hna. inversion Hstep; subst; try done.
all: try match goal with H : consumes _ (KFailed _) _ |- _ =>
  destruct H as (? & _ & Hm); inversion Hm end.
- by split; [eexists|left].
- split; [|by right]. match goal with H : drifts _ _ |- _ =>
    destruct H as [->|(? & ? & _ & _ & Hm)] end; [by eexists|inversion Hm].
- by split; [eexists|right].
Qed.

(** After an error only abort helps: until then every call but the
  capacity query fails and gives no output. *)
Theorem kdf_error_sticks calls c s :
op_ctx s = Some c -> kdf_error_state c = true -> kdf_inv c ->
Forall kdf_call_ok calls -> KAbort ∉ calls ->
wp (kdf_runs calls) (fun l s' =>
  (exists c', op_ctx s' = Some c' /\ kdf_error_state c' = true) /\
  Forall (fun p => p.1 = KGetCapacity \/
                   (rp_status p.2 <> PSA_SUCCESS /\ no_output (rp_bytes p.2))) l) s.
Proof.
intros Hc He Hi Hcalls Hna.
eapply wp_mono; [apply runs_trace; [by eapply kdf_ok_some|done]|].
intros l s' (<- & _ & Htr). unfold kdf_view_s in Htr. rewrite Hc in Htr. simpl in Htr.
rewrite He in Htr. clear Hcalls Hc He Hi. revert Htr. generalize (kdf_capacity c) as cap.
induction l as [|[call r] l IH]; intros cap Htr;
  inversion Htr as [|? ? ? v1 ? ? Hst Htr1]; subst.
- split; [|constructor]. destruct (op_ctx s') as [c'|]; [|done]. exists c'.
  split; [done|]. simpl in *. repeat case_match; done.
- simpl in Hna. apply not_elem_of_cons in Hna as [Hn1 Hn2].
  apply failed_step in Hst as [(cap' & ->) Hr]; [|done].
  destruct (IH Hn2 cap' Htr1) as [Hs Hl]. split; [done|]. by constructor.
Qed.

(** ** Key output *)

(** A successful input that permits key output. *)
Definition key_went_in (p : kdf_call * kdf_reply) : Prop :=
rp_status p.2 = PSA_SUCCESS /\
match p.1 with
| KInputKey step _ =>
    step = PSA_KEY_DERIVATION_INPUT_SECRET \/ step = PSA_KEY_DERIVATION_INPUT_PASSWORD
| KKeyAgreement step _ _ => step = PSA_KEY_DERIVATION_INPUT_SECRET
| _ => False
end.

Lemma add_input_key step data i :
kdf_can_output_key (add_input step data i) = kdf_can_output_key i.
Proof. unfold add_input, step_buffer. repeat case_match; simplify_eq/=; done. Qed.

Lemma begin_key i cap : kdf_can_output_key (begin_stream i cap) = kdf_can_output_key i.
Proof. unfold begin_stream. simpl. by rewrite snapshot_key. Qed.

Lemma moves_key n cap' v v' : moves n cap' v v' -> can_output_key v' = can_output_key v.
Proof. destruct 1; simpl; [apply begin_key|done]. Qed.

Lemma permit_key b i : kdf_can_output_key (permit_key_output b i) = b || kdf_can_output_key i.
Proof. by destruct b. Qed.

Lemma consumes_key n v v' : consumes n v v' -> can_output_key v' = can_output_key v.
Proof. intros (? & _ & Hm). by eapply moves_key. Qed.

Lemma drifts_key v v' : drifts v v' -> can_output_key v' = can_output_key v.
Proof. intros [->|(? & ? & _ & _ & Hm)]; [done|by eapply moves_key]. Qed.

Lemma step_key v call r v' :
kdf_step v call r v' -> can_output_key v' = true ->
can_output_key v = true \/ key_went_in (call, r).
Proof.
destruct 1; cbn [can_output_key]; rewrite ?permit_key, ?add_input_key; try done; try by left.
{ intros [Hd|?]%orb_true_iff; [right|by left]. split; [done|]. simpl. auto. }
{ intros [Hd%Z.eqb_eq|?]%orb_true_iff; [right|by left]. done. }
all: match goal with
     | H : consumes _ _ _ |- _ => rewrite (consumes_key _ _ _ H)
     | H : drifts _ _ |- _ => rewrite (drifts_key _ _ H)
     end; by left.
Qed.

Lemma trace_key v l v' :
kdf_trace v l v' -> can_output_key v' = true -> can_output_key v = true \/ Exists key_went_in l.
Proof.
induction 1 as [|v call r v1 l v2 Hstep _ IH]; intros Hk; [by left|].
destruct (IH Hk) as [Hk1|Hl]; [|by right; right].
destruct (step_key _ _ _ _ Hstep Hk1); [by left|by right; left].
Qed.

(** C31: a key comes out only of a derivation into which a key went, as secret
  or password or by key agreement. *)
Theorem kdf_output_key_needs_key calls attributes key s :
op_ctx s = None -> Forall kdf_call_ok calls -> kdf_call_ok (KOutputKey attributes key) ->
wp (kdf_runs calls) (fun l s' =>
  (psa_key_derivation_output_key attributes key s').1.1 = PSA_SUCCESS -> Exists key_went_in l) s.
Proof.
intros Hc Hcalls Hcall.
eapply wp_mono; [apply runs_trace; [by intros c'; rewrite Hc|done]|].
intros l s' (_ & Hok & Htr) Hst.
pose proof (refines_output_key attributes key s' Hok Hcall) as Hstep.
unfold wp in Hstep. rewrite !bind_run in Hstep.
destruct (psa_key_derivation_output_key attributes key s') as [[st id] s2] eqn:Hrun.
simpl in Hst, Hstep. subst st. destruct Hstep as [_ Hstep].
assert (Hk : can_output_key (kdf_view_s s') = true) by by inversion Hstep.
unfold kdf_view_s in Htr at 1. rewrite Hc in Htr.
by destruct (trace_key _ _ _ Htr Hk).
Qed.

(** ** Success *)

(** When nothing fails, a feasible output succeeds. *)
Lemma wp_output_ok c n s
  (Q : psa_status_t * option (list byte) -> opstate O wolfpsa_kdf_ctx -> Prop) :
op_ctx s = Some c -> kdf_error_state c = false -> kdf_inv c -> 0 <= n <= SIZE_MAX ->
output_feasible c n -> smooth s ->
(forall bytes c' s', op_ctx s' = Some c' -> advanced c c' n ->
   bytes = slice (kdf_stream (kdf_snapshot_L c) (kdf_output_offset c + n)) (kdf_output_offset c) n ->
   zlen bytes = n -> smooth s' -> Q (PSA_SUCCESS, Some bytes) s') ->
wp (psa_key_derivation_output_bytes true n) Q s.
Proof.
intros Hc He Hi Hn Hf Hsm HQ. unfold psa_key_derivation_output_bytes, guarded.
apply wp_bind. unfold get_ctx. apply wp_gets. rewrite Hc. simpl. rewrite He.
apply wp_bind, wp_output_bytes; [done|done|done|].
intros st out c' s' Hsm' Hc' (Hi' & He' & Hres) Hok. rewrite (Hok Hf Hsm) in *.
destruct Hres as [Ha Hpart]. apply wp_bind, wp_ret, wp_ret.
destruct Hpart as (-> & Hlen & _).
{ rewrite (frozen_counters (kdf_snapshot_L c) c' _ (adv_inputs _ _ _ Ha)), snapshot_counters.
  by destruct Hf. }
apply (HQ _ c'); try done; [| |by apply Hsm'].
- by rewrite (frozen_stream (kdf_snapshot_L c) c' _ (adv_inputs _ _ _ Ha)).
- unfold slice. rewrite zlen_take by lia. pose proof (inv_offset c Hi).
  unfold zlen in *. rewrite length_drop. lia.
Qed.

(** An output succeeds with [n] bytes when the inputs are complete, the
  capacity is enough, the backend is there and nothing fails. *)
Theorem kdf_output_succeeds c n s :
op_ctx s = Some c -> kdf_error_state c = false -> kdf_inv c -> 0 <= n <= SIZE_MAX ->
output_feasible c n -> smooth s ->
wp (psa_key_derivation_output_bytes true n) (fun r s' =>
  r = (PSA_SUCCESS, Some (slice (kdf_stream (kdf_snapshot_L c) (kdf_output_offset c + n))
                            (kdf_output_offset c) n)) /\
  zlen (default [] r.2) = n /\ smooth s') s.
Proof.
intros Hc He Hi Hn Hf Hsm. apply (wp_output_ok c); try done.
by intros bytes c' s' Hc' Ha -> Hlen Hs'.
Qed.

(** Verification accepts exactly the next bytes of the stream. *)
Theorem kdf_verify_exact c expected s :
op_ctx s = Some c -> kdf_error_state c = false -> kdf_inv c -> 0 < zlen expected <= INT_MAX ->
output_feasible c (zlen expected) -> smooth s ->
(psa_key_derivation_verify_bytes (Bytes expected) s).1 =
  if decide (expected = slice (kdf_stream (kdf_snapshot_L c) (kdf_output_offset c + zlen expected))
                   (kdf_output_offset c) (zlen expected))
  then PSA_SUCCESS else PSA_ERROR_INVALID_SIGNATURE.
Proof.
intros Hc He Hi Hl Hf Hsm. set (bytes := slice _ _ _).
change (wp (psa_key_derivation_verify_bytes (Bytes expected)) (fun st _ =>
  st = if decide (expected = bytes) then PSA_SUCCESS else PSA_ERROR_INVALID_SIGNATURE) s).
unfold psa_key_derivation_verify_bytes, guarded_status, guarded.
apply wp_bind, wp_bind. unfold get_ctx. apply wp_gets. rewrite Hc. simpl. rewrite He.
apply wp_bind, wp_bind. unfold wolfpsa_kdf_verify_bytes. cbn [is_null input_length input_bytes].
destruct (Z.ltb_spec INT_MAX (zlen expected)); [lia|]. destruct (Z.eqb_spec (zlen expected) 0); [lia|].
apply wp_bind, wp_malloc. intros b s1 Hs1 _ _ Hb. destruct (Hb Hsm) as [-> Hsm1]. cbn [negb].
assert (Hmax : INT_MAX < SIZE_MAX) by by unfold INT_MAX, SIZE_MAX.
apply wp_bind, (wp_output_ok c); try done; [by rewrite Hs1|lia|].
intros bs c' s' Hc' Ha -> Hlen _. fold bytes. fold bytes in Hlen.
apply wp_ret, wp_ret, wp_bind. simpl default.
pose proof (constant_compare_spec bytes expected Hlen) as Hcmp.
destruct (Z.eqb_spec (ConstantCompare bytes expected) 0) as [H0|H0]; cbn [negb].
- do 3 apply wp_ret. apply Hcmp in H0. by rewrite decide_True by done.
- do 3 apply wp_ret. rewrite decide_False; [done|]. intros Heq. by apply H0, Hcmp.
Qed.

(** ** What the backends compute *)

(** C34: HKDF, the TLS 1.2 PRF and its key exchange variant, PBKDF2 and the
  counter modes of SP 800-108 give what their standards define, on any
  output length for which the 32-bit block counters do not wrap; and they
  end with success when nothing fails. *)
Theorem kdf_backends_compute_stream c n s :
0 <= n -> counters_ok c n -> 0 <= kdf_cost c ->
let r := (wolfpsa_kdf_compute_output (O := O) c n s).1 in
(r.1 = PSA_SUCCESS -> r.2 = kdf_stream c n) /\
(kdf_feasible c n -> smooth s -> r.1 = PSA_SUCCESS).
Proof.
intros Hn Hc Hcost. destruct (compute_output_gives (O := O) c n Hn Hc Hcost) as (_ & Hv & Hs).
split; [apply Hv|]. intros Hf. by apply Hs.
Qed.

(** The result of a step that cannot fail any more. *)
Lemma computes_smooth {A} (m : M (opstate O wolfpsa_kdf_ctx) (psa_status_t + A)) v s :
computes m v -> smooth s -> (m s).1 = inr v /\ smooth (m s).2.
Proof.
intros [Hp Hm] Hs. specialize (Hm s). split; [|by apply pure_smooth].
destruct (m s).1 as [e|x]; [by destruct Hm|by subst].
Qed.

(** C39: with [UINT32_MAX] blocks or more the 32-bit counter of PBKDF2-AES-CMAC
  never exceeds the number of blocks: when nothing fails the loop never ends. *)
Theorem pbkdf2_cmac_counter_wraps fuel i blocks prf_key c n out s :
fits_word32 (zlen (kdf_salt c) + 4) = true -> 0 <= i <= UINT32_MAX -> UINT32_MAX <= blocks ->
smooth s -> (pbkdf2_blocks (O := O) fuel i blocks prf_key c n out s).1 = None.
Proof.
intros Hsalt. revert i out s; induction fuel as [|fuel IH]; intros i out s Hi Hb Hs; [done|].
cbn [pbkdf2_blocks]. destruct (Z.leb_spec i blocks); [|lia]. cbn [negb].
rewrite bind_run.
destruct (computes_smooth (cmac_run prf_key [kdf_salt c ++ u32_bytes i])
  (cmac prf_key (concat [kdf_salt c ++ u32_bytes i])) s) as [-> Hs1]; [|done|].
{ apply cmac_run_computes. constructor; [|constructor]. by rewrite zlen_app. }
rewrite bind_run.
edestruct (computes_smooth (pbkdf2_rounds (Z.to_nat (kdf_cost c - 1)) prf_key
  (cmac prf_key (concat [kdf_salt c ++ u32_bytes i]))
  (cmac prf_key (concat [kdf_salt c ++ u32_bytes i])))) as [-> Hs2];
  [apply pbkdf2_rounds_computes, cmac_length_nat|exact Hs1|].
apply IH; [|done|done]. unfold to_u32, UINT32_MAX. pose proof (Z.mod_pos_bound (i + 1) (2 ^ 32)). lia.
Qed.

(** ** The invariant *)

(** C38: along every sequence of calls, with any failures, what was delivered and
  what may still be asked for stay within the capacity of the algorithm, and
  a cache holds the stream up to there. *)
Theorem kdf_calls_keep_invariant calls s :
op_ctx s = None -> Forall kdf_call_ok calls ->
wp (kdf_runs calls) (fun _ s' => forall c, op_ctx s' = Some c -> kdf_inv c) s.
Proof.
intros Hc Hcalls. eapply wp_mono; [apply runs_trace; [by intros c; rewrite Hc|done]|].
by intros l s' (_ & Hok & _).
Qed.

(** ** Key input *)

(** What holds after a worker that succeeds holds after its entry point. *)
Lemma wp_guarded_success worker c s (P : opstate O wolfpsa_kdf_ctx -> Prop) :
op_ctx s = Some c -> kdf_error_state c = false ->
wp (worker c) (fun st s' => st = PSA_SUCCESS -> P s') s ->
wp (guarded_status worker) (fun st s' => st = PSA_SUCCESS -> P s') s.
Proof.
intros Hc He Hw. unfold guarded_status, guarded.
apply wp_bind, wp_bind. unfold get_ctx. apply wp_gets. rewrite Hc.
simpl (wolfpsa_kdf_check_state _). rewrite He. apply wp_bind, wp_bind.
eapply wp_mono; [exact Hw|]. intros st s1 HP. apply wp_ret, wp_bind.
destruct st; first [by apply wp_ret, wp_ret, wp_ret | by apply wp_bind, wp_any].
Qed.

(** A key is accepted only if it may be used for derivation, its policy
  permits the algorithm, its type fits the step; its data is then appended
  to the buffer of the step, and only the DERIVE usage opens key output. *)
Theorem kdf_input_key_checked step key c s :
op_ctx s = Some c -> kdf_error_state c = false ->
wp (psa_key_derivation_input_key step key) (fun st s' =>
  st = PSA_SUCCESS ->
  exists a data,
    (wolfpsa_get_key_data key (Some PSA_KEY_ATTRIBUTES_INIT) (op_lib s)).1
      = (PSA_SUCCESS, a, data) /\
    let a := default PSA_KEY_ATTRIBUTES_INIT a in
    let data := default [] data in
    let derive := negb (Z.land (psa_get_key_usage_flags a) PSA_KEY_USAGE_DERIVE =? 0) in
    Z.land (psa_get_key_usage_flags a)
      (Z.lor PSA_KEY_USAGE_DERIVE PSA_KEY_USAGE_VERIFY_DERIVATION) <> 0 /\
    wolfpsa_kdf_key_type_ok (kdf_alg c) step (attr_type a) = true /\
    wolfpsa_kdf_key_alg_permitted c (psa_get_key_algorithm a)
      || wolfpsa_kdf_key_alg_permitted c (psa_get_key_enrollment_algorithm a) = true /\
    wolfpsa_kdf_validate_step c step (zlen data) = PSA_SUCCESS /\
    op_ctx s' = Some (permit_key_output
      (derive && ((step =? PSA_KEY_DERIVATION_INPUT_SECRET)
                  || (step =? PSA_KEY_DERIVATION_INPUT_PASSWORD)))
      (add_input step data c))) s.
Proof.
intros Hc He. apply (wp_guarded_success _ c); [done|done|]. unfold wolfpsa_kdf_input_key.
apply wp_bind, wp_lib. unfold wp at 1.
destruct (wolfpsa_get_key_data key (Some PSA_KEY_ATTRIBUTES_INIT) (op_lib s)) as [[[st a] data] k].
cbv beta iota zeta. cbn [fst snd]. destruct st; try done.
set (at' := default PSA_KEY_ATTRIBUTES_INIT a). set (d := default [] data).
destruct (wolfpsa_kdf_validate_step c step (zlen d)) eqn:Hv; try done.
destruct (Z.eqb_spec (Z.land (psa_get_key_usage_flags at')
  (Z.lor PSA_KEY_USAGE_DERIVE PSA_KEY_USAGE_VERIFY_DERIVATION)) 0) as [|Hu]; [done|].
destruct (wolfpsa_kdf_key_type_ok (kdf_alg c) step (attr_type at')) eqn:Ht; [|done]. simpl negb.
destruct (negb (wolfpsa_kdf_key_alg_permitted c (psa_get_key_algorithm at')) && _) eqn:Ha; [done|].
apply wp_bind, wp_input_bytes; [done| |intros e s1 _ Hne; by destruct e].
intros s1 Hc1 _. simpl input_bytes in Hc1.
rewrite <- negb_orb in Ha. apply negb_false_iff in Ha.
destruct (negb (Z.land _ PSA_KEY_USAGE_DERIVE =? 0) && _) eqn:Hd.
- apply wp_bind, wp_modify, wp_ret. intros _. exists a, data. fold at' d. rewrite Hd.
  split_and!; try done. simpl. by rewrite Hc1.
- apply wp_ret. intros _. exists a, data. fold at' d. rewrite Hd. by split_and!.
Qed.
End Properties.
