(* ===== verification/Mac.v ===== *)
(** MAC operations: [src/psa_mac.c], whole.

    A MAC operation is a context over an HMAC or a CMAC of wolfCrypt.  As in the
    code the context does not record whether it was set up to sign or to
    verify. *)

From stdpp Require Import base decidable list.
From Stdlib Require Import ZArith Lia.
From Stdlib Require Import Strings.Byte.
From S2P Require Import Prelude.
From S2P Require Import Values.
From S2P Require Import Engine.
From S2P Require Import WolfCrypt.
From S2P Require Import KeyPolicy.
From S2P Require Import KeyFormat.
From S2P Require Import StoreIface.
From S2P Require Import Library.
From S2P Require Import KeyStore.
From S2P Require Import Operation.

#[local] Open Scope Z_scope.

(** * State *)

(** The wolfCrypt context and its kind, [wolfpsa_mac_type_t]. *)
Inductive mac_underlying {WH : WolfCryptHmac} {WC : WolfCryptCmac} : Type :=
| WOLFPSA_MAC_NONE
| WOLFPSA_MAC_HMAC (hmac : Hmac)
| WOLFPSA_MAC_CMAC (cmac : Cmac).

(** [mac_key] is the copy of the key that a build with crypto callbacks keeps. *)
Record wolfpsa_mac_ctx {WH : WolfCryptHmac} {WC : WolfCryptCmac} : Type := mkMac {
  mac_alg : Z;
  mac_key_type : Z;
  mac_key_bits : Z;
  mac_mac_length : Z;
  mac_full_length : Z;
  mac_key : list byte;
  mac_ctx : mac_underlying }.

Section Mac.
Context {C : Config} {E : WolfCryptErr} {K : WolfCryptKeys} {R : WolfCryptRng}.
Context {O : StoreOps} {B : KeyBackend} {WM : WolfCryptMisc}.
Context {WH : WolfCryptHmac} {WC : WolfCryptCmac}.

Notation MM := (M (opstate O wolfpsa_mac_ctx)).

Definition mac_with_length (v : Z) (c : wolfpsa_mac_ctx) : wolfpsa_mac_ctx :=
mkMac _ _ (mac_alg c) (mac_key_type c) (mac_key_bits c) v (mac_full_length c) (mac_key c) (mac_ctx c).
Definition mac_with_ctx (u : mac_underlying) (c : wolfpsa_mac_ctx) : wolfpsa_mac_ctx :=
mkMac _ _ (mac_alg c) (mac_key_type c) (mac_key_bits c) (mac_mac_length c) (mac_full_length c)
  (mac_key c) u.

Definition wolfpsa_hash_type_from_alg (alg : Z) : wc_HashType :=
let hash_alg :=
  if PSA_ALG_IS_HMAC alg then PSA_ALG_HMAC_GET_HASH alg
  else if PSA_ALG_IS_HASH alg then alg
  else 0 in
if hash_alg =? PSA_ALG_MD5 then WC_HASH_TYPE_MD5
else if hash_alg =? PSA_ALG_SHA_1 then WC_HASH_TYPE_SHA
else if hash_alg =? PSA_ALG_SHA_224 then WC_HASH_TYPE_SHA224
else if hash_alg =? PSA_ALG_SHA_256 then WC_HASH_TYPE_SHA256
else if hash_alg =? PSA_ALG_SHA_384 then WC_HASH_TYPE_SHA384
else if hash_alg =? PSA_ALG_SHA_512 then WC_HASH_TYPE_SHA512
else if hash_alg =? PSA_ALG_SHA_512_224 then WC_HASH_TYPE_SHA512_224
else if hash_alg =? PSA_ALG_SHA_512_256 then WC_HASH_TYPE_SHA512_256
else if WOLFSSL_SHA3 && negb WOLFSSL_NOSHA3_224 && (hash_alg =? PSA_ALG_SHA3_224)
then WC_HASH_TYPE_SHA3_224
else if WOLFSSL_SHA3 && negb WOLFSSL_NOSHA3_256 && (hash_alg =? PSA_ALG_SHA3_256)
then WC_HASH_TYPE_SHA3_256
else if WOLFSSL_SHA3 && negb WOLFSSL_NOSHA3_384 && (hash_alg =? PSA_ALG_SHA3_384)
then WC_HASH_TYPE_SHA3_384
else if WOLFSSL_SHA3 && negb WOLFSSL_NOSHA3_512 && (hash_alg =? PSA_ALG_SHA3_512)
then WC_HASH_TYPE_SHA3_512
else WC_HASH_TYPE_NONE.

(** The checks of a key once it is loaded. *)
Definition mac_key_checks (usage alg : Z) (attributes : psa_key_attributes_t) : psa_status_t :=
let type_status :=
  if PSA_ALG_IS_HMAC alg then
    if negb (attr_type attributes =? PSA_KEY_TYPE_HMAC) then PSA_ERROR_INVALID_ARGUMENT
    else PSA_SUCCESS
  else if PSA_ALG_IS_BLOCK_CIPHER_MAC alg then
    if negb WOLFSSL_CMAC then PSA_ERROR_NOT_SUPPORTED
    else if negb (attr_type attributes =? PSA_KEY_TYPE_AES) then PSA_ERROR_INVALID_ARGUMENT
    else PSA_SUCCESS
  else PSA_ERROR_NOT_SUPPORTED in
match type_status with
| PSA_SUCCESS =>
    if negb (Z.land (psa_get_key_usage_flags attributes) usage =? usage)
    then PSA_ERROR_NOT_PERMITTED
    else if negb (wolfpsa_mac_alg_permitted attributes (psa_get_key_algorithm attributes) alg)
            && negb (wolfpsa_mac_alg_permitted attributes
                       (psa_get_key_enrollment_algorithm attributes) alg)
    then PSA_ERROR_NOT_PERMITTED
    else PSA_SUCCESS
| e => e
end.

Definition wolfpsa_mac_check_key (key usage alg : Z)
: M (kstate O) (psa_status_t + psa_key_attributes_t * list byte) :=
'(status, attributes, key_data) ← wolfpsa_get_key_data key (Some PSA_KEY_ATTRIBUTES_INIT);
let attributes := default PSA_KEY_ATTRIBUTES_INIT attributes in
mret match status with
     | PSA_SUCCESS =>
         match mac_key_checks usage alg attributes with
         | PSA_SUCCESS => inr (attributes, default [] key_data)
         | e => inl e
         end
     | e => inl e
     end.

(** ** Setup *)

Definition sizeof_mac_ctx : Z := 1024.

(** The wolfCrypt context: its return code, the copy of the key and the context;
  [inl] ends the setup at once. *)
Definition mac_start (alg : Z) (key_data : list byte)
: MM (psa_status_t + Z * list byte * mac_underlying) :=
if PSA_ALG_IS_HMAC alg then
  let hash_type := wolfpsa_hash_type_from_alg alg in
  if bool_decide (hash_type = WC_HASH_TYPE_NONE) then mret (inl PSA_ERROR_NOT_SUPPORTED)
  else
    ok ← (if WOLF_CRYPTO_CB
          then lib (XMALLOC (if zlen key_data =? 0 then 1 else zlen key_data))
          else mret true);
    if negb ok then mret (inl PSA_ERROR_INSUFFICIENT_MEMORY)
    else
      ret ← wc_call; (* wc_HmacInit *)
      ret ← wc_then ret; (* wc_HmacSetKey *)
      mret (inr (ret, if WOLF_CRYPTO_CB then key_data else [],
                 WOLFPSA_MAC_HMAC (wc_HmacSetKey hash_type (word32_buf key_data))))
else if WOLFSSL_CMAC && PSA_ALG_IS_BLOCK_CIPHER_MAC alg
        && (PSA_ALG_FULL_LENGTH_MAC alg =? PSA_ALG_CMAC)
then
  ret ← wc_call; (* wc_InitCmac_ex *)
  mret (inr (ret, [], WOLFPSA_MAC_CMAC (wc_InitCmac_ex (word32_buf key_data))))
else mret (inr (NOT_COMPILED_IN, [], WOLFPSA_MAC_NONE)).

(** The checks of the lengths. *)
Definition mac_length_checks (alg mac_length full_length : Z) : psa_status_t :=
if (mac_length =? 0) || (full_length =? 0) || (full_length <? mac_length)
then PSA_ERROR_INVALID_ARGUMENT
else if negb (Z.land alg PSA_ALG_MAC_TRUNCATION_MASK =? 0) then
  let trunc_len := PSA_MAC_TRUNCATED_LENGTH alg in
  if full_length <? trunc_len then PSA_ERROR_INVALID_ARGUMENT
  else if trunc_len <? 4 then PSA_ERROR_NOT_SUPPORTED
  else PSA_SUCCESS
else PSA_SUCCESS.

Definition wolfpsa_mac_setup (key alg usage : Z) : MM psa_status_t :=
c ← get_ctx;
match c with
| Some _ => mret PSA_ERROR_BAD_STATE
| None =>
    if negb (PSA_ALG_IS_MAC alg) then mret PSA_ERROR_INVALID_ARGUMENT
    else
      r ← lib (wolfpsa_mac_check_key key usage alg);
      match r with
      | inl e => mret e
      | inr (attributes, key_data) =>
          ok ← lib (XMALLOC sizeof_mac_ctx);
          if negb ok then mret PSA_ERROR_INSUFFICIENT_MEMORY
          else
            let mac_length := PSA_MAC_LENGTH (attr_type attributes) (attr_bits attributes) alg in
            let full_length := PSA_MAC_LENGTH (attr_type attributes) (attr_bits attributes)
                                 (PSA_ALG_FULL_LENGTH_MAC alg) in
            if negb (fits_word32 (zlen key_data)) then mret PSA_ERROR_INVALID_ARGUMENT
            else
              started ← mac_start alg key_data;
              match started with
              | inl e => mret e
              | inr (ret, key_copy, underlying) =>
                  match mac_length_checks alg mac_length full_length with
                  | PSA_SUCCESS =>
                      if negb (ret =? 0) then mret (wc_error_to_psa_status ret)
                      else
                        set_ctx (Some (mkMac _ _ alg (attr_type attributes) (attr_bits attributes)
                                         mac_length full_length key_copy underlying));;
                        mret PSA_SUCCESS
                  | e => mret e
                  end
              end
      end
end.

Definition psa_mac_sign_setup (key alg : Z) : MM psa_status_t :=
wolfpsa_mac_setup key alg PSA_KEY_USAGE_SIGN_MESSAGE.
Definition psa_mac_verify_setup (key alg : Z) : MM psa_status_t :=
wolfpsa_mac_setup key alg PSA_KEY_USAGE_VERIFY_MESSAGE.

(** ** Update, finish, abort *)

Definition psa_mac_abort : MM psa_status_t := set_ctx None;; mret PSA_SUCCESS.

Definition wolfpsa_mac_fail (status : psa_status_t) : MM psa_status_t :=
psa_mac_abort;; mret status.

Definition psa_mac_update (data : input) : MM psa_status_t :=
c ← get_ctx;
match c with
| None => wolfpsa_mac_fail PSA_ERROR_BAD_STATE
| Some c =>
    if is_null data && (0 <? input_length data) then wolfpsa_mac_fail PSA_ERROR_INVALID_ARGUMENT
    else if negb (fits_word32 (input_length data)) then wolfpsa_mac_fail PSA_ERROR_INVALID_ARGUMENT
    else if input_length data =? 0 then mret PSA_SUCCESS
    else
      match mac_ctx c with
      | WOLFPSA_MAC_HMAC h =>
          ret ← wc_call;
          if negb (ret =? 0) then wolfpsa_mac_fail (wc_error_to_psa_status ret)
          else
            modify_ctx (mac_with_ctx
              (WOLFPSA_MAC_HMAC (wc_HmacUpdate h (word32_buf (input_bytes data)))));;
            mret PSA_SUCCESS
      | WOLFPSA_MAC_CMAC m =>
          ret ← wc_call;
          if negb (ret =? 0) then wolfpsa_mac_fail (wc_error_to_psa_status ret)
          else
            modify_ctx (mac_with_ctx
              (WOLFPSA_MAC_CMAC (wc_CmacUpdate m (word32_buf (input_bytes data)))));;
            mret PSA_SUCCESS
      | WOLFPSA_MAC_NONE => wolfpsa_mac_fail PSA_ERROR_BAD_STATE
      end
end.

(** The MAC in [full_mac] and [full_len]. *)
Definition mac_full (c : wolfpsa_mac_ctx) : MM (psa_status_t + list byte * Z) :=
match mac_ctx c with
| WOLFPSA_MAC_HMAC h =>
    ret ← wc_call; (* wc_HmacFinal *)
    mret (if negb (ret =? 0) then inl (wc_error_to_psa_status ret)
          else inr (wc_HmacFinal h, mac_full_length c))
| WOLFPSA_MAC_CMAC m =>
    ret ← wc_call; (* wc_CmacFinal *)
    let full_mac := wc_CmacFinal m (mac_full_length c) in
    mret (if negb (ret =? 0) then inl (wc_error_to_psa_status ret)
          else inr (full_mac, zlen full_mac))
| WOLFPSA_MAC_NONE => mret (inl PSA_ERROR_BAD_STATE)
end.

(** [mac] and [mac_length] say whether the pointers are not NULL; the bytes
  written come with the status. *)
Definition wolfpsa_mac_final (c : wolfpsa_mac_ctx) (mac : bool) (mac_size : Z) (mac_length : bool)
: MM (psa_status_t * list byte) :=
if negb mac_length || (negb mac && negb (mac_size =? 0))
then mret (PSA_ERROR_INVALID_ARGUMENT, [])
else if PSA_MAC_MAX_SIZE <? mac_full_length c then mret (PSA_ERROR_INVALID_ARGUMENT, [])
else if mac_size <? mac_mac_length c then mret (PSA_ERROR_BUFFER_TOO_SMALL, [])
else
  r ← mac_full c;
  mret match r with
       | inl e => (e, [])
       | inr (full_mac, full_len) =>
           if full_len <? mac_mac_length c then (PSA_ERROR_INVALID_ARGUMENT, [])
           else (PSA_SUCCESS, take (Z.to_nat (mac_mac_length c)) full_mac)
       end.

Definition psa_mac_sign_finish (mac : bool) (mac_size : Z) (mac_length : bool)
: MM (psa_status_t * list byte) :=
c ← get_ctx;
match c with
| None => status ← wolfpsa_mac_fail PSA_ERROR_BAD_STATE; mret (status, [])
| Some c =>
    '(status, out) ← wolfpsa_mac_final c mac mac_size mac_length;
    match status with
    | PSA_SUCCESS => psa_mac_abort;; mret (PSA_SUCCESS, out)
    | e => status ← wolfpsa_mac_fail e; mret (status, out)
    end
end.

Definition psa_mac_verify_finish (mac : input) : MM psa_status_t :=
c ← get_ctx;
match c with
| None => mret PSA_ERROR_BAD_STATE
| Some c =>
    let at_least := negb (Z.land (mac_alg c) PSA_ALG_MAC_AT_LEAST_THIS_LENGTH_FLAG =? 0) in
    let mac_length := input_length mac in
    if is_null mac then mret PSA_ERROR_INVALID_ARGUMENT
    else if (if at_least then (mac_length <? mac_mac_length c) || (mac_full_length c <? mac_length)
             else negb (mac_length =? mac_mac_length c))
    then psa_mac_abort;; mret PSA_ERROR_INVALID_SIGNATURE
    else
      '(status, computed) ←
        wolfpsa_mac_final (if at_least then mac_with_length (mac_full_length c) c else c)
          true PSA_MAC_MAX_SIZE true;
      psa_mac_abort;;
      match status with
      | PSA_SUCCESS =>
          mret (if zlen computed <? mac_length then PSA_ERROR_INVALID_SIGNATURE
                else if negb (ConstantCompare (take (Z.to_nat mac_length) computed)
                                (input_bytes mac) =? 0)
                then PSA_ERROR_INVALID_SIGNATURE
                else PSA_SUCCESS)
      | e => mret e
      end
end.

(** ** One shot: on a local operation object *)

Definition psa_mac_compute (key alg : Z) (data : input) (mac : bool) (mac_size : Z)
  (mac_length : bool) : MM (psa_status_t * list byte) :=
set_ctx None;;
status ← psa_mac_sign_setup key alg;
match status with
| PSA_SUCCESS =>
    status ← psa_mac_update data;
    match status with
    | PSA_SUCCESS =>
        '(status, out) ← psa_mac_sign_finish mac mac_size mac_length;
        match status with
        | PSA_SUCCESS => mret (PSA_SUCCESS, out)
        | e => psa_mac_abort;; mret (e, out)
        end
    | e => psa_mac_abort;; mret (e, [])
    end
| e => mret (e, [])
end.

Definition psa_mac_verify (key alg : Z) (data mac : input) : MM psa_status_t :=
set_ctx None;;
status ← psa_mac_verify_setup key alg;
match status with
| PSA_SUCCESS =>
    status ← psa_mac_update data;
    match status with
    | PSA_SUCCESS =>
        status ← psa_mac_verify_finish mac;
        match status with
        | PSA_SUCCESS => mret PSA_SUCCESS
        | e => psa_mac_abort;; mret e
        end
    | e => psa_mac_abort;; mret e
    end
| e => mret e
end.
End Mac.
