(* ===== verification/MacSpec.v ===== *)
(** What the MAC operations of [Mac] compute: a multi-part operation gives the
    MAC of the concatenation of its inputs, verification accepts exactly it, and
    an operation does not know whether it signs or verifies. *)

From stdpp Require Import base decidable list.
From Stdlib Require Import ZArith Lia.
From Stdlib Require Import Strings.Byte.
From S2P Require Import Prelude.
From S2P Require Import Values.
From S2P Require Import Engine.
From S2P Require Import WolfCrypt.
From S2P Require Import KeyPolicy.
From S2P Require Import KeyFormat.
From S2P Require Import StoreIface.
From S2P Require Import Library.
From S2P Require Import KeyStore.
From S2P Require Import KeyStoreRules.
From S2P Require Import Operation.
From S2P Require Import Mac.

#[local] Open Scope Z_scope.

Section MacSpec.
Context {C : Config} {E : WolfCryptErr} {EO : WolfCryptErrOk E} {K : WolfCryptKeys} {R : WolfCryptRng}.
Context {O : StoreOps} {B : KeyBackend} {WM : WolfCryptMisc} {WMO : WolfCryptMiscOk WM}.
Context {WD : WolfCryptDigest} {WH : WolfCryptHmac} {WC : WolfCryptCmac}.
Context {WHO : WolfCryptHmacOk WD WH} {WCO : WolfCryptCmacOk WC}.

Implicit Types c : wolfpsa_mac_ctx.
Implicit Types s : opstate O wolfpsa_mac_ctx.

(** * What an operation has absorbed *)

(** The MAC of [msg], untruncated. *)
Definition full_tag (alg : Z) (key msg : list byte) : list byte :=
if PSA_ALG_IS_HMAC alg then hmac (wolfpsa_hash_type_from_alg alg) key msg else cmac key msg.

Record mac_ok c (key msg : list byte) : Prop := {
ok_lengths : mac_length_checks (mac_alg c) (mac_mac_length c) (mac_full_length c) = PSA_SUCCESS;
ok_block : PSA_ALG_IS_HMAC (mac_alg c) = false -> mac_full_length c = WC_AES_BLOCK_SIZE;
ok_absorbed : exists parts, concat parts = msg /\
  match mac_ctx c with
  | WOLFPSA_MAC_HMAC h => PSA_ALG_IS_HMAC (mac_alg c) = true /\
      h = fold_left wc_HmacUpdate parts (wc_HmacSetKey (wolfpsa_hash_type_from_alg (mac_alg c)) key)
  | WOLFPSA_MAC_CMAC m => PSA_ALG_IS_HMAC (mac_alg c) = false /\
      m = fold_left wc_CmacUpdate parts (wc_InitCmac_ex key)
  | WOLFPSA_MAC_NONE => False
  end }.

(** Same operation, other context of wolfCrypt. *)
Definition mac_same c c' : Prop :=
mac_alg c' = mac_alg c /\ mac_mac_length c' = mac_mac_length c /\
mac_full_length c' = mac_full_length c.

Lemma length_checks_bounds alg m f :
mac_length_checks alg m f = PSA_SUCCESS -> 0 <= m -> 0 < m <= f.
Proof.
unfold mac_length_checks. intros H Hm.
destruct (Z.eqb_spec m 0), (Z.eqb_spec f 0), (Z.ltb_spec f m); simpl in H; try done. lia.
Qed.

(** ** Setup *)

(** What setup needs of the key, and what it makes of it. *)
Definition mac_setup_ok (key alg usage : Z) s (key_data : list byte) c : Prop :=
exists a d,
  (wolfpsa_get_key_data key (Some PSA_KEY_ATTRIBUTES_INIT) (op_lib s)).1 = (PSA_SUCCESS, a, d) /\
  let a := default PSA_KEY_ATTRIBUTES_INIT a in
  key_data = default [] d /\
  mac_key_checks usage alg a = PSA_SUCCESS /\
  mac_alg c = alg /\
  mac_mac_length c = PSA_MAC_LENGTH (attr_type a) (attr_bits a) alg /\
  mac_full_length c = PSA_MAC_LENGTH (attr_type a) (attr_bits a) (PSA_ALG_FULL_LENGTH_MAC alg).

Lemma mac_checks_cmac usage alg a :
mac_key_checks usage alg a = PSA_SUCCESS -> PSA_ALG_IS_HMAC alg = false ->
attr_type a = PSA_KEY_TYPE_AES.
Proof.
unfold mac_key_checks. intros H Hh. rewrite Hh in H.
destruct (PSA_ALG_IS_BLOCK_CIPHER_MAC alg); [|done]. destruct (negb WOLFSSL_CMAC); [done|].
by destruct (Z.eqb_spec (attr_type a) PSA_KEY_TYPE_AES).
Qed.

Lemma mac_length_nonneg type bits alg : 0 <= PSA_MAC_LENGTH type bits alg.
Proof.
unfold PSA_MAC_LENGTH. destruct (negb _).
- unfold PSA_MAC_TRUNCATED_LENGTH. apply Z.shiftr_nonneg, Z.land_nonneg. by right.
- destruct (PSA_ALG_IS_HMAC alg); [unfold PSA_HASH_LENGTH; repeat case_match; lia|].
  destruct (PSA_ALG_IS_BLOCK_CIPHER_MAC alg); [|lia].
  unfold PSA_BLOCK_CIPHER_BLOCK_LENGTH. case_match; [|lia]. by apply Z.shiftl_nonneg.
Qed.

(** The context that [mac_start] makes has absorbed nothing. *)
Lemma wp_mac_start alg key_data
  (Q : psa_status_t + Z * list byte * mac_underlying -> opstate O wolfpsa_mac_ctx -> Prop) s :
fits_word32 (zlen key_data) = true ->
(forall e s', same_ctx s s' -> e <> PSA_SUCCESS ->
   (smooth s -> PSA_ALG_IS_HMAC alg = true /\
      wolfpsa_hash_type_from_alg alg = WC_HASH_TYPE_NONE) -> Q (inl e) s') ->
(forall ret copy u s', same_ctx s s' -> (smooth s -> smooth s') ->
   (ret = 0 -> forall t b m f, mac_length_checks alg m f = PSA_SUCCESS ->
      f = PSA_MAC_LENGTH PSA_KEY_TYPE_AES b (PSA_ALG_FULL_LENGTH_MAC alg) \/
      PSA_ALG_IS_HMAC alg = true ->
      mac_ok (mkMac _ _ alg t b m f copy u) key_data []) ->
   (smooth s -> PSA_ALG_IS_HMAC alg = true \/
      (WOLFSSL_CMAC && PSA_ALG_IS_BLOCK_CIPHER_MAC alg
        && (PSA_ALG_FULL_LENGTH_MAC alg =? PSA_ALG_CMAC)) = true -> ret = 0) ->
   Q (inr (ret, copy, u)) s') ->
wp (mac_start alg key_data) Q s.
Proof.
intros Hfit Hbad Hgood. unfold mac_start.
destruct (PSA_ALG_IS_HMAC alg) eqn:Hh.
- cbv zeta. destruct (bool_decide _) eqn:Hn.
  { apply wp_ret, Hbad; [done|done|]. by apply bool_decide_eq_true in Hn. }
  apply wp_bind.
  assert (Hgo : forall b s1, same_ctx s s1 -> (smooth s -> b = true /\ smooth s1) ->
    wp (if negb b then mret (inl PSA_ERROR_INSUFFICIENT_MEMORY) else
        ret ← wc_call; ret ← wc_then ret;
        mret (inr (ret, if WOLF_CRYPTO_CB then key_data else [],
          WOLFPSA_MAC_HMAC (wc_HmacSetKey (wolfpsa_hash_type_from_alg alg) (word32_buf key_data))))) Q s1).
  { intros b s1 Hs1 Hb. destruct b; cbn [negb].
    2: { apply wp_ret, Hbad; [done|done|]. intros Hsm. by destruct (Hb Hsm). }
    apply wp_bind. apply wp_pure; [apply pure_wc_call|]. intros r s2 Hr Hs2 _ Hsm2.
    apply wp_bind. apply wp_pure; [apply pure_wc_then|]. intros r' s3 Hr' Hs3 _ Hsm3.
    apply wp_ret, Hgood.
    - eapply same_ctx_trans; [exact Hs1|]. by eapply same_ctx_trans.
    - intros Hsm. by apply Hsm3, Hsm2, Hb.
    - intros _ t b m f Hl _. split; [done|simpl; by rewrite Hh|].
      exists []. simpl. by rewrite word32_buf_small.
    - intros Hsm _. destruct (Hb Hsm) as [_ Hsm1]. rewrite wc_call_smooth in Hr by done.
      injection Hr as <- <-. rewrite wc_then_smooth in Hr' by done. by injection Hr' as <-. }
  destruct WOLF_CRYPTO_CB.
  + apply wp_malloc. intros b s1 Hs1 _ _ Hb. by apply Hgo.
  + apply wp_ret. by apply Hgo.
- destruct (WOLFSSL_CMAC && _ && _) eqn:Hc.
  + apply wp_bind. apply wp_pure; [apply pure_wc_call|]. intros r s2 Hr Hs2 _ Hsm2.
    apply wp_ret, Hgood; [done|done| |].
    * intros _ t b m f Hl [->|?]; [|done]. split; [done| |].
      -- intros _. simpl. apply andb_true_iff in Hc as [_ Hc%Z.eqb_eq]. by rewrite Hc.
      -- exists []. simpl. by rewrite word32_buf_small.
    * intros Hsm _. rewrite wc_call_smooth in Hr by done. by injection Hr as <-.
  + apply wp_ret, Hgood; [done|done| |by intros _ [|]].
    intros H0. exfalso. pose proof wc_codes_negative as Hneg. unfold wc_codes in Hneg.
    repeat (apply Forall_cons in Hneg as [? Hneg]). lia.
Qed.

(** Everything that setup refuses for its own reasons; without it setup succeeds
  when nothing fails. *)
Definition mac_key_feasible (alg usage : Z) (a : psa_key_attributes_t) (key_data : list byte) : Prop :=
let full_length := PSA_MAC_LENGTH (attr_type a) (attr_bits a) (PSA_ALG_FULL_LENGTH_MAC alg) in
mac_key_checks usage alg a = PSA_SUCCESS /\
fits_word32 (zlen key_data) = true /\
mac_length_checks alg (PSA_MAC_LENGTH (attr_type a) (attr_bits a) alg) full_length = PSA_SUCCESS /\
full_length <= PSA_MAC_MAX_SIZE /\
if PSA_ALG_IS_HMAC alg
then wolfpsa_hash_type_from_alg alg <> WC_HASH_TYPE_NONE /\
     wc_HashGetDigestSize (wolfpsa_hash_type_from_alg alg) = full_length
else PSA_ALG_FULL_LENGTH_MAC alg = PSA_ALG_CMAC.

Definition mac_setup_feasible (key alg usage : Z) s : Prop :=
PSA_ALG_IS_MAC alg = true /\ op_rets s = [] /\
exists a d k,
  wolfpsa_get_key_data key (Some PSA_KEY_ATTRIBUTES_INIT) (op_lib s) = ((PSA_SUCCESS, a, d), k) /\
  mem_ok k /\ mac_key_feasible alg usage (default PSA_KEY_ATTRIBUTES_INIT a) (default [] d).

Lemma mac_checks_kind usage alg a :
mac_key_checks usage alg a = PSA_SUCCESS -> PSA_ALG_IS_HMAC alg = false ->
WOLFSSL_CMAC && PSA_ALG_IS_BLOCK_CIPHER_MAC alg = true.
Proof.
unfold mac_key_checks. intros H Hh. rewrite Hh in H.
destruct (PSA_ALG_IS_BLOCK_CIPHER_MAC alg); [|done]. by destruct WOLFSSL_CMAC.
Qed.

(** Setup once the key is loaded. *)
Lemma wp_mac_open alg usage a key_data
  (Q : psa_status_t -> opstate O wolfpsa_mac_ctx -> Prop) s :
op_ctx s = None -> mac_key_checks usage alg a = PSA_SUCCESS ->
(forall e s', op_ctx s' = None -> e <> PSA_SUCCESS ->
   (mac_key_feasible alg usage a key_data -> smooth s -> False) -> Q e s') ->
(forall c s', op_ctx s' = Some c -> mac_ok c key_data [] -> mac_alg c = alg ->
   mac_mac_length c = PSA_MAC_LENGTH (attr_type a) (attr_bits a) alg ->
   mac_full_length c = PSA_MAC_LENGTH (attr_type a) (attr_bits a) (PSA_ALG_FULL_LENGTH_MAC alg) ->
   (smooth s -> smooth s') -> Q PSA_SUCCESS s') ->
wp (ok ← lib (XMALLOC sizeof_mac_ctx);
    if negb ok then mret PSA_ERROR_INSUFFICIENT_MEMORY
    else
      let mac_length := PSA_MAC_LENGTH (attr_type a) (attr_bits a) alg in
      let full_length := PSA_MAC_LENGTH (attr_type a) (attr_bits a) (PSA_ALG_FULL_LENGTH_MAC alg) in
      if negb (fits_word32 (zlen key_data)) then mret PSA_ERROR_INVALID_ARGUMENT
      else
        started ← mac_start alg key_data;
        match started with
        | inl e => mret e
        | inr (ret, key_copy, underlying) =>
            match mac_length_checks alg mac_length full_length with
            | PSA_SUCCESS =>
                if negb (ret =? 0) then mret (wc_error_to_psa_status ret)
                else
                  set_ctx (Some (mkMac _ _ alg (attr_type a) (attr_bits a)
                                   mac_length full_length key_copy underlying));;
                  mret PSA_SUCCESS
            | e => mret e
            end
        end) Q s.
Proof.
intros Hc Hchk Hbad Hgood. apply wp_bind, wp_malloc. intros b s1 Hs1 _ _ Hb.
assert (Hc1 : op_ctx s1 = None) by by rewrite Hs1.
destruct b; cbn [negb].
2: { apply wp_ret, Hbad; [done|done|]. intros _ Hsm. by destruct (Hb Hsm). }
cbv zeta. destruct (fits_word32 (zlen key_data)) eqn:Hfit; cbn [negb].
2: { apply wp_ret, Hbad; [done|done|]. intros (_ & H & _) _. congruence. }
apply wp_bind, wp_mac_start; [done| |].
- intros e s2 Hs2 He Hno. apply wp_ret, Hbad; [by rewrite Hs2|done|].
  intros (_ & _ & _ & _ & Hk) Hsm. destruct (Hno (proj2 (Hb Hsm))) as [Hh Hn].
  rewrite Hh in Hk. by destruct Hk.
- intros ret copy u s2 Hs2 Hsm2 Hok Hret. assert (Hc2 : op_ctx s2 = None) by by rewrite Hs2.
  destruct (mac_length_checks alg _ _) eqn:Hl;
    [|by apply wp_ret, Hbad; [done|done|intros (_ & _ & H & _) _; congruence] ..].
  destruct (Z.eqb_spec ret 0) as [->|Hr]; cbn [negb].
  + apply wp_bind, wp_modify, wp_ret. eapply Hgood; try done.
    * apply Hok; [done|done|]. destruct (PSA_ALG_IS_HMAC alg) eqn:Hh; [by right|left].
      by rewrite (mac_checks_cmac usage alg a).
    * intros Hsm. by apply Hsm2, Hb.
  + apply wp_ret, Hbad; [done|by rewrite wc_error_success|].
    intros (_ & _ & _ & _ & Hk) Hsm. apply Hr, Hret; [by apply Hb|].
    destruct (PSA_ALG_IS_HMAC alg) eqn:Hh; [by left|right].
    by rewrite (mac_checks_kind usage alg a), Hk by done.
Qed.

Lemma wp_mac_setup key alg usage
  (Q : psa_status_t -> opstate O wolfpsa_mac_ctx -> Prop) s :
op_ctx s = None ->
(forall e s', op_ctx s' = None -> e <> PSA_SUCCESS ->
   (mac_setup_feasible key alg usage s -> False) -> Q e s') ->
(forall key_data c s', op_ctx s' = Some c -> mac_ok c key_data [] ->
   mac_setup_ok key alg usage s key_data c ->
   (mac_setup_feasible key alg usage s -> smooth s') -> Q PSA_SUCCESS s') ->
wp (wolfpsa_mac_setup key alg usage) Q s.
Proof.
intros Hc Hbad Hgood. unfold wolfpsa_mac_setup. apply wp_bind. unfold get_ctx. apply wp_gets.
rewrite Hc. destruct (PSA_ALG_IS_MAC alg) eqn:Hmac; cbn [negb].
2: { apply wp_ret, Hbad; [done|done|]. intros []. congruence. }
apply wp_bind, wp_lib. unfold wolfpsa_mac_check_key. apply wp_bind. unfold wp at 1.
destruct (wolfpsa_get_key_data key (Some PSA_KEY_ATTRIBUTES_INIT) (op_lib s)) as [[[st a] d] k] eqn:Hget.
cbn [fst snd]. apply wp_ret. set (at_ := default PSA_KEY_ATTRIBUTES_INIT a).
assert (Hfe : mac_setup_feasible key alg usage s -> st = PSA_SUCCESS /\ smooth (with_lib k s) /\
  mac_key_feasible alg usage at_ (default [] d)).
{ intros (_ & Hr & a' & d' & k' & Hg & Hm & Hk). rewrite Hget in Hg. by injection Hg as -> <- <- <-. }
destruct st; try by (apply wp_ret, Hbad; [done|done|intros Hf; by apply Hfe in Hf as [? _]]).
destruct (mac_key_checks usage alg at_) eqn:Hchk;
  try by (apply wp_ret, Hbad; [done|done|intros Hf; apply Hfe in Hf as (_ & _ & Hk & _); congruence]).
apply (wp_mac_open alg usage at_); [done|done| |].
- intros e s' Hc' He Hno. apply Hbad; [done|done|]. intros Hf. apply Hfe in Hf as (_ & H1 & H2). by apply Hno.
- intros c s' Hc' Hok H1 H2 H3 Hsm. apply (Hgood (default [] d) c); try done.
  + exists a, d. by rewrite Hget.
  + intros Hf. apply Hfe in Hf as (_ & Hs & _). by apply Hsm.
Qed.

(** ** Update *)

Lemma absorb_hmac c h key msg data :
mac_ctx c = WOLFPSA_MAC_HMAC h -> mac_ok c key msg ->
mac_ok (mac_with_ctx (WOLFPSA_MAC_HMAC (wc_HmacUpdate h data)) c) key (msg ++ data).
Proof.
intros Hh [H1 H2 (parts & <- & H3)]. rewrite Hh in H3. destruct H3 as [H3 ->].
split; [done|done|]. exists (parts ++ [data]). split.
- by rewrite concat_app; simpl; rewrite app_nil_r.
- simpl. split; [done|]. by rewrite fold_left_app.
Qed.

Lemma absorb_cmac c m key msg data :
mac_ctx c = WOLFPSA_MAC_CMAC m -> mac_ok c key msg ->
mac_ok (mac_with_ctx (WOLFPSA_MAC_CMAC (wc_CmacUpdate m data)) c) key (msg ++ data).
Proof.
intros Hm [H1 H2 (parts & <- & H3)]. rewrite Hm in H3. destruct H3 as [H3 ->].
split; [done|done|]. exists (parts ++ [data]). split.
- by rewrite concat_app; simpl; rewrite app_nil_r.
- simpl. split; [done|]. by rewrite fold_left_app.
Qed.

Lemma wp_mac_fail e (Q : psa_status_t -> opstate O wolfpsa_mac_ctx -> Prop) s :
Q e (with_ctx None s) -> wp (wolfpsa_mac_fail e) Q s.
Proof. done. Qed.

Lemma wp_mac_abort (Q : psa_status_t -> opstate O wolfpsa_mac_ctx -> Prop) s :
Q PSA_SUCCESS (with_ctx None s) -> wp psa_mac_abort Q s.
Proof. done. Qed.

(** An update appends, or fails and ends the operation. *)
Lemma wp_mac_update c key msg data
  (Q : psa_status_t -> opstate O wolfpsa_mac_ctx -> Prop) s :
op_ctx s = Some c -> mac_ok c key msg ->
(forall e s', op_ctx s' = None -> e <> PSA_SUCCESS ->
   (input_valid data -> smooth s -> False) -> Q e s') ->
(forall c' s', op_ctx s' = Some c' -> mac_same c c' -> mac_ok c' key (msg ++ input_bytes data) ->
   (smooth s -> smooth s') -> Q PSA_SUCCESS s') ->
wp (psa_mac_update data) Q s.
Proof.
intros Hc Hok Hbad Hgood. unfold psa_mac_update. apply wp_bind. unfold get_ctx. apply wp_gets.
rewrite Hc. destruct (is_null data && _) eqn:Hnull.
{ apply wp_mac_fail, Hbad; [done|done|]. intros [Hv _] _.
  apply andb_true_iff in Hnull as [Hn Hlt]. rewrite (Hv Hn) in Hlt. done. }
destruct (fits_word32 (input_length data)) eqn:Hfit; cbn [negb].
2: { apply wp_mac_fail, Hbad; [done|done|]. intros [_ Hv] _. congruence. }
destruct (Z.eqb_spec (input_length data) 0) as [Hz|Hz].
{ apply wp_ret, (Hgood c); try done.
  replace (input_bytes data) with (@nil byte); [by rewrite app_nil_r|].
  destruct data as [n|l]; [done|]. simpl in *. by rewrite (zlen_0_nil l Hz). }
assert (Hbuf : word32_buf (input_bytes data) = input_bytes data).
{ destruct data as [n|l]; [done|]. by apply word32_buf_small. }
rewrite Hbuf. destruct (mac_ctx c) as [|h|m] eqn:Hu.
- exfalso. destruct Hok as [_ _ (parts & _ & Ha)]. by rewrite Hu in Ha.
- apply wp_bind, wp_pure; [apply pure_wc_call|]. intros ret s1 Hr Hs1 _ Hsm1.
  destruct (Z.eqb_spec ret 0) as [->|Hne]; cbn [negb].
  + apply wp_bind, wp_modify, wp_ret.
    eapply (Hgood (mac_with_ctx (WOLFPSA_MAC_HMAC (wc_HmacUpdate h (input_bytes data))) c));
      [by simpl; rewrite Hs1, Hc|done|by apply absorb_hmac|done].
  + apply wp_mac_fail, Hbad; [done|by rewrite wc_error_success|]. intros _ Hsm.
    rewrite wc_call_smooth in Hr by done. by injection Hr.
- apply wp_bind, wp_pure; [apply pure_wc_call|]. intros ret s1 Hr Hs1 _ Hsm1.
  destruct (Z.eqb_spec ret 0) as [->|Hne]; cbn [negb].
  + apply wp_bind, wp_modify, wp_ret.
    eapply (Hgood (mac_with_ctx (WOLFPSA_MAC_CMAC (wc_CmacUpdate m (input_bytes data))) c));
      [by simpl; rewrite Hs1, Hc|done|by apply absorb_cmac|done].
  + apply wp_mac_fail, Hbad; [done|by rewrite wc_error_success|]. intros _ Hsm.
    rewrite wc_call_smooth in Hr by done. by injection Hr.
Qed.

(** ** Finish *)

Lemma wp_mac_full c key msg
  (Q : psa_status_t + list byte * Z -> opstate O wolfpsa_mac_ctx -> Prop) s :
mac_ok c key msg ->
(forall e s', same_ctx s s' -> e <> PSA_SUCCESS -> (smooth s -> False) -> Q (inl e) s') ->
(forall s', same_ctx s s' -> (smooth s -> smooth s') ->
   Q (inr (full_tag (mac_alg c) key msg, mac_full_length c)) s') ->
wp (mac_full c) Q s.
Proof.
intros [_ Hb (parts & <- & Ha)] Hbad Hgood. unfold mac_full, full_tag in *.
destruct (mac_ctx c) as [|h|m]; [done|destruct Ha as [Hh ->] ..]; rewrite Hh in Hgood.
- apply wp_bind, wp_pure; [apply pure_wc_call|]. intros ret s1 Hr Hs1 _ Hsm1. apply wp_ret.
  destruct (Z.eqb_spec ret 0) as [->|Hne]; cbn [negb].
  + rewrite hmac_spec. by apply Hgood.
  + apply Hbad; [done|by rewrite wc_error_success|]. intros Hsm.
    rewrite wc_call_smooth in Hr by done. by injection Hr.
- rewrite (Hb Hh) in *. rewrite cmac_spec by by unfold WC_AES_BLOCK_SIZE.
  rewrite take_ge by (pose proof (cmac_length key (concat parts));
    unfold zlen, WC_AES_BLOCK_SIZE in *; lia).
  apply wp_bind, wp_pure; [apply pure_wc_call|]. intros ret s1 Hr Hs1 _ Hsm1. apply wp_ret.
  destruct (Z.eqb_spec ret 0) as [->|Hne]; cbn [negb].
  + rewrite cmac_length. by apply Hgood.
  + apply Hbad; [done|by rewrite wc_error_success|]. intros Hsm.
    rewrite wc_call_smooth in Hr by done. by injection Hr.
Qed.

Lemma wp_mac_final c key msg mac mac_size mac_length
  (Q : psa_status_t * list byte -> opstate O wolfpsa_mac_ctx -> Prop) s :
mac_ok c key msg ->
(forall e s', same_ctx s s' -> e <> PSA_SUCCESS ->
   (mac_length = true -> mac = true -> mac_mac_length c <= mac_size ->
    mac_mac_length c <= mac_full_length c <= PSA_MAC_MAX_SIZE -> smooth s -> False) ->
   Q (e, []) s') ->
(forall s', same_ctx s s' -> mac_mac_length c <= mac_size -> (smooth s -> smooth s') ->
   Q (PSA_SUCCESS, take (Z.to_nat (mac_mac_length c)) (full_tag (mac_alg c) key msg)) s') ->
wp (wolfpsa_mac_final c mac mac_size mac_length) Q s.
Proof.
intros Hok Hbad Hgood. unfold wolfpsa_mac_final.
destruct (negb mac_length || (negb mac && negb (mac_size =? 0))) eqn:Hargs.
{ apply wp_ret, Hbad; [done|done|]. by intros -> ->. }
destruct (Z.ltb_spec PSA_MAC_MAX_SIZE (mac_full_length c)).
{ apply wp_ret, Hbad; [done|done|]. intros; lia. }
destruct (Z.ltb_spec mac_size (mac_mac_length c)).
{ apply wp_ret, Hbad; [done|done|]. intros; lia. }
apply wp_bind, (wp_mac_full c key msg); [done| |].
- intros e s1 Hs1 He Hno. by apply wp_ret, Hbad.
- intros s1 Hs1 Hsm. apply wp_ret. destruct (Z.ltb_spec (mac_full_length c) (mac_mac_length c)).
  + apply Hbad; [done|done|]. intros; lia.
  + by apply Hgood.
Qed.

(** * Whole operations *)

Notation MM := (M (opstate O wolfpsa_mac_ctx)).

(** The updates of a caller that stops at the first error. *)
Fixpoint mac_updates (chunks : list input) : MM psa_status_t :=
match chunks with
| [] => mret PSA_SUCCESS
| data :: chunks =>
    status ← psa_mac_update data;
    match status with PSA_SUCCESS => mac_updates chunks | e => mret e end
end.

(** Setup for one usage, updates, and a finish. *)
Definition mac_multipart {A} (none : A) (key alg usage : Z) (chunks : list input)
  (finish : MM (psa_status_t * A)) : MM (psa_status_t * A) :=
set_ctx None;;
status ← wolfpsa_mac_setup key alg usage;
match status with
| PSA_SUCCESS =>
    status ← mac_updates chunks;
    match status with PSA_SUCCESS => finish | e => mret (e, none) end
| e => mret (e, none)
end.

(** The key that a setup has checked. *)
Definition mac_key_usable (key alg usage : Z) s (a : psa_key_attributes_t) (key_data : list byte)
: Prop :=
exists a' d,
  (wolfpsa_get_key_data key (Some PSA_KEY_ATTRIBUTES_INIT) (op_lib s)).1 = (PSA_SUCCESS, a', d) /\
  a = default PSA_KEY_ATTRIBUTES_INIT a' /\ key_data = default [] d /\
  mac_key_checks usage alg a = PSA_SUCCESS.

(** Its MAC of a message, of the length that the algorithm asks for. *)
Definition mac_length_of (a : psa_key_attributes_t) (alg : Z) : Z :=
PSA_MAC_LENGTH (attr_type a) (attr_bits a) alg.
Definition full_length_of (a : psa_key_attributes_t) (alg : Z) : Z :=
PSA_MAC_LENGTH (attr_type a) (attr_bits a) (PSA_ALG_FULL_LENGTH_MAC alg).
(** A live operation of a checked key. *)
Record mac_live (key alg usage : Z) s0 (a : psa_key_attributes_t) (key_data msg : list byte) c
: Prop := {
live_key : mac_key_usable key alg usage s0 a key_data;
live_ok : mac_ok c key_data msg;
live_alg : mac_alg c = alg;
live_length : mac_mac_length c = mac_length_of a alg;
live_full : mac_full_length c = full_length_of a alg }.

Lemma live_same key alg usage s0 a key_data msg msg' c c' :
mac_live key alg usage s0 a key_data msg c -> mac_same c c' -> mac_ok c' key_data msg' ->
mac_live key alg usage s0 a key_data msg' c'.
Proof. intros [] (H1 & H2 & H3) Hok. split; [done|done|congruence..]. Qed.

Lemma wp_mac_updates key alg usage s0 a key_data chunks msg c s
  (Q : psa_status_t -> opstate O wolfpsa_mac_ctx -> Prop) :
op_ctx s = Some c -> mac_live key alg usage s0 a key_data msg c ->
(forall e s', op_ctx s' = None -> e <> PSA_SUCCESS ->
   (Forall input_valid chunks -> smooth s -> False) -> Q e s') ->
(forall c' s', op_ctx s' = Some c' ->
   mac_live key alg usage s0 a key_data (msg ++ message chunks) c' ->
   (smooth s -> smooth s') -> Q PSA_SUCCESS s') ->
wp (mac_updates chunks) Q s.
Proof.
revert c msg s. induction chunks as [|data chunks IH]; intros c msg s Hc Hl Hbad Hgood; simpl.
{ apply wp_ret, (Hgood c); [done| |done]. unfold message. simpl. by rewrite app_nil_r. }
apply wp_bind, (wp_mac_update c key_data msg); [done|apply Hl| |].
- intros e s1 Hc1 He Hno.
  assert (HQ : Q e s1).
  { apply Hbad; [done|done|]. intros [Hv _]%Forall_cons Hsm. by apply Hno. }
  destruct e; [done|by apply wp_ret ..].
- intros c1 s1 Hc1 Hsame Hok1 Hsm1.
  apply (IH c1 (msg ++ input_bytes data)); [done|by eapply live_same| |].
  + intros e s2 Hc2 He Hno. apply Hbad; [done|done|].
    intros [_ Hv]%Forall_cons Hsm. by apply Hno, Hsm1.
  + intros c2 s2 Hc2 Hl2 Hsm2. apply (Hgood c2); [done| |auto].
    unfold message in *. simpl. by rewrite app_assoc.
Qed.

(** Everything up to the finish. *)
Lemma wp_mac_multipart {A} (none : A) key alg usage chunks (finish : MM (psa_status_t * A)) s
  (Q : psa_status_t * A -> opstate O wolfpsa_mac_ctx -> Prop) :
(forall e s', op_ctx s' = None -> e <> PSA_SUCCESS ->
   (mac_setup_feasible key alg usage s -> Forall input_valid chunks -> False) ->
   Q (e, none) s') ->
(forall a key_data c s', op_ctx s' = Some c ->
   mac_live key alg usage s a key_data (message chunks) c ->
   (mac_setup_feasible key alg usage s -> smooth s') -> wp finish Q s') ->
wp (mac_multipart none key alg usage chunks finish) Q s.
Proof.
intros Hbad Hgood. unfold mac_multipart. apply wp_bind, wp_modify, wp_bind.
apply wp_mac_setup; [done| |].
- intros e s1 Hc1 He Hno. destruct e; [done|by apply wp_ret, Hbad; auto ..].
- intros key_data c s1 Hc1 Hok (a' & d & Hget & -> & Hchk & H1 & H2 & H3) Hsm1.
  set (a := default PSA_KEY_ATTRIBUTES_INIT a') in *.
  apply wp_bind, (wp_mac_updates key alg usage s a (default [] d) chunks [] c); [done| | |].
  + split; try done. by exists a', d.
  + intros e s2 Hc2 He Hno.
    assert (Hq : mac_setup_feasible key alg usage s -> Forall input_valid chunks -> False).
    { intros Hf Hv. by apply Hno, Hsm1. }
    destruct e; [done|by apply wp_ret, Hbad ..].
  + intros c2 s2 Hc2 Hl2 Hsm2. apply (Hgood a (default [] d) c2); [done|done|].
    intros Hf. by apply Hsm2, Hsm1.
Qed.

Lemma wp_sign_finish c key msg mac mac_size mac_length
  (Q : psa_status_t * list byte -> opstate O wolfpsa_mac_ctx -> Prop) s :
op_ctx s = Some c -> mac_ok c key msg ->
(forall e s', op_ctx s' = None -> e <> PSA_SUCCESS ->
   (mac_length = true -> mac = true -> mac_mac_length c <= mac_size ->
    mac_mac_length c <= mac_full_length c <= PSA_MAC_MAX_SIZE -> smooth s -> False) ->
   Q (e, []) s') ->
(forall s', op_ctx s' = None -> mac_mac_length c <= mac_size -> (smooth s -> smooth s') ->
   Q (PSA_SUCCESS, take (Z.to_nat (mac_mac_length c)) (full_tag (mac_alg c) key msg)) s') ->
wp (psa_mac_sign_finish mac mac_size mac_length) Q s.
Proof.
intros Hc Hok Hbad Hgood. unfold psa_mac_sign_finish. apply wp_bind. unfold get_ctx.
apply wp_gets. rewrite Hc. apply wp_bind, (wp_mac_final c key msg); [done| |].
- intros e s1 Hs1 He Hno. destruct e; [done|apply wp_bind, wp_mac_fail, wp_ret; by apply Hbad ..].
- intros s1 Hs1 Hsz Hsm. apply wp_bind, wp_mac_abort, wp_ret. by apply Hgood.
Qed.

(** Lengths of a feasible key. *)
Lemma feasible_lengths key alg usage s0 s a key_data msg c :
mac_setup_feasible key alg usage s0 -> mac_live key alg usage s0 a key_data msg c ->
mac_mac_length c <= mac_full_length c <= PSA_MAC_MAX_SIZE.
Proof.
intros (_ & _ & a' & d & k & Hg & _ & _ & _ & Hl & Hmax & _) [(a2 & d2 & Hg2 & -> & _) _ _ H1 H2].
rewrite Hg in Hg2. injection Hg2 as <- <-. rewrite H1, H2.
pose proof (length_checks_bounds _ _ _ Hl (mac_length_nonneg _ _ _)).
unfold mac_length_of, full_length_of. lia.
Qed.

(** Whatever fails and however the input is cut, an operation that succeeds
  gives the MAC of the whole input, under a key that permits signing with the
  algorithm; the operation object is inactive afterwards; and it succeeds
  when the key and the buffer allow it and nothing fails. *)
Theorem mac_sign_multipart_spec key alg chunks mac mac_size mac_length s :
wp (mac_multipart [] key alg PSA_KEY_USAGE_SIGN_MESSAGE chunks
      (psa_mac_sign_finish mac mac_size mac_length))
  (fun r s' =>
     op_ctx s' = None /\
     (r.1 = PSA_SUCCESS -> exists a key_data,
        mac_key_usable key alg PSA_KEY_USAGE_SIGN_MESSAGE s a key_data /\
        mac_length_of a alg <= mac_size /\
        r.2 = take (Z.to_nat (mac_length_of a alg)) (full_tag alg key_data (message chunks))) /\
     (mac_setup_feasible key alg PSA_KEY_USAGE_SIGN_MESSAGE s ->
      Forall input_valid chunks -> mac = true -> mac_length = true -> PSA_MAC_MAX_SIZE <= mac_size ->
      r.1 = PSA_SUCCESS)) s.
Proof.
apply wp_mac_multipart.
- intros e s' Hc He Hno. split_and!; [done|done|]. intros Hf Hv. by destruct (Hno Hf Hv).
- intros a key_data c s1 Hc Hl Hsm.
  apply (wp_sign_finish c key_data (message chunks)); [done|apply Hl| |].
  + intros e s2 Hc2 He Hno. split_and!; [done|done|]. intros Hf Hv Hm Hlen Hsz.
    pose proof (feasible_lengths _ _ _ _ s1 _ _ _ _ Hf Hl) as Hfl.
    destruct Hno; [done|done|lia|done|by apply Hsm].
  + intros s2 Hc2 Hsz _. split_and!; [done| |done]. intros _. exists a, key_data.
    rewrite <- (live_length _ _ _ _ _ _ _ _ Hl), (live_alg _ _ _ _ _ _ _ _ Hl).
    split_and!; [apply Hl|done|done].
Qed.

(** The one-shot call is the operation with one update. *)
Lemma compute_multipart key alg data mac mac_size mac_length s
  (Q : psa_status_t * list byte -> opstate O wolfpsa_mac_ctx -> Prop) :
(forall r s', Q r s' -> Q r (with_ctx None s')) ->
wp (mac_multipart [] key alg PSA_KEY_USAGE_SIGN_MESSAGE [data]
      (psa_mac_sign_finish mac mac_size mac_length)) Q s ->
wp (psa_mac_compute key alg data mac mac_size mac_length) Q s.
Proof.
intros HQ H. unfold psa_mac_compute, psa_mac_sign_setup.
apply wp_bind_inv in H. apply wp_bind. eapply wp_mono; [exact H|]. clear H. intros ? s1 H.
apply wp_bind_inv in H. apply wp_bind. eapply wp_mono; [exact H|]. clear H. intros st s2 H.
destruct st; try exact H.
apply wp_bind_inv in H. simpl in H. apply wp_bind_inv in H.
apply wp_bind. eapply wp_mono; [exact H|]. clear H. intros st s3 H.
destruct st; try exact (HQ _ _ H).
apply wp_bind. eapply wp_mono; [exact H|]. clear H. intros [st out] s4 H.
destruct st; first [exact H|exact (HQ _ _ H)].
Qed.

(** The one-shot call and a multi-part operation over any split of its input
  give the same MAC. *)
Theorem mac_oneshot_multipart_agree key alg data chunks mac_size s :
mac_setup_feasible key alg PSA_KEY_USAGE_SIGN_MESSAGE s ->
input_valid data -> Forall input_valid chunks -> input_bytes data = message chunks ->
PSA_MAC_MAX_SIZE <= mac_size ->
exists tag,
  (psa_mac_compute key alg data true mac_size true s).1 = (PSA_SUCCESS, tag) /\
  (mac_multipart [] key alg PSA_KEY_USAGE_SIGN_MESSAGE chunks
     (psa_mac_sign_finish true mac_size true) s).1 = (PSA_SUCCESS, tag).
Proof.
intros Hf Hd Hv Hmsg Hsz. pose proof Hf as (_ & _ & a0 & d0 & k0 & Hg & _).
set (tag := take (Z.to_nat (mac_length_of (default PSA_KEY_ATTRIBUTES_INIT a0) alg))
              (full_tag alg (default [] d0) (message chunks))).
assert (Hrun : forall chunks', Forall input_valid chunks' -> message chunks' = message chunks ->
  wp (mac_multipart [] key alg PSA_KEY_USAGE_SIGN_MESSAGE chunks'
     (psa_mac_sign_finish true mac_size true)) (fun r _ => r = (PSA_SUCCESS, tag)) s).
{ intros chunks' Hv' Hm'. apply wp_mac_multipart; [intros e s' _ _ Hno; by destruct (Hno Hf Hv')|].
  intros a key_data c s1 Hc Hl Hsm. pose proof (feasible_lengths _ _ _ _ s1 _ _ _ _ Hf Hl).
  apply (wp_sign_finish c key_data (message chunks')); [done|apply Hl| |].
  - intros e s2 Hc2 He Hno. destruct Hno; [done|done|lia|done|by apply Hsm].
  - intros s2 Hc2 _ _. destruct Hl as [(a2 & d2 & Hg2 & -> & -> & _) _ Ha Hlen _].
    rewrite Hg in Hg2. injection Hg2 as <- <-. by rewrite Ha, Hlen, Hm'. }
exists tag. split; [|by apply Hrun].
apply (compute_multipart key alg data true mac_size true s (fun r _ => r = (PSA_SUCCESS, tag)));
  [done|]. apply Hrun; [by constructor|]. by rewrite message_single.
Qed.

(** * Verification *)

(** The MACs that a verification accepts. *)
Definition mac_accepts (a : psa_key_attributes_t) (alg : Z) (key_data msg mac : list byte) : Prop :=
(if negb (Z.land alg PSA_ALG_MAC_AT_LEAST_THIS_LENGTH_FLAG =? 0)
 then mac_length_of a alg <= zlen mac <= full_length_of a alg
 else zlen mac = mac_length_of a alg) /\
mac = take (length mac) (full_tag alg key_data msg).

Lemma length_checks_full alg m f :
mac_length_checks alg m f = PSA_SUCCESS -> mac_length_checks alg f f = PSA_SUCCESS.
Proof.
unfold mac_length_checks. destruct (Z.eqb_spec m 0), (Z.eqb_spec f 0), (Z.ltb_spec f m); try done.
simpl. by rewrite Z.ltb_irrefl.
Qed.

(** Comparing a computed MAC with the one to verify. *)
Lemma compare_mac tag computed mac m :
computed = take (Z.to_nat m) tag -> zlen mac <= m ->
(zlen tag >= m -> zlen mac <= zlen computed) /\
(zlen mac <= zlen computed ->
 ConstantCompare (take (Z.to_nat (zlen mac)) computed) mac = 0 <-> mac = take (length mac) tag).
Proof.
intros -> Hm. unfold zlen in *. rewrite Nat2Z.id. split; [rewrite length_take; lia|]. intros Hl.
rewrite constant_compare_spec by (unfold zlen; rewrite length_take; lia).
rewrite take_take, Nat.min_l by lia. by split; intros; symmetry.
Qed.

Lemma wp_verify_finish key alg usage s0 a key_data msg c mac s
  (Q : psa_status_t -> opstate O wolfpsa_mac_ctx -> Prop) :
op_ctx s = Some c -> mac_live key alg usage s0 a key_data msg c ->
(forall e s', op_ctx s' = None -> e <> PSA_SUCCESS ->
   (mac_mac_length c <= mac_full_length c <= PSA_MAC_MAX_SIZE -> smooth s ->
    zlen (full_tag alg key_data msg) = full_length_of a alg ->
    e = PSA_ERROR_INVALID_SIGNATURE /\ ~ mac_accepts a alg key_data msg mac) -> Q e s') ->
(forall s', op_ctx s' = None -> mac_accepts a alg key_data msg mac -> Q PSA_SUCCESS s') ->
wp (psa_mac_verify_finish (Bytes mac)) Q s.
Proof.
intros Hc Hl Hbad Hgood. destruct Hl as [Hk Hok Ha Hlen Hfull].
unfold psa_mac_verify_finish. apply wp_bind. unfold get_ctx. apply wp_gets. rewrite Hc.
cbn [is_null input_length input_bytes]. rewrite Ha. unfold mac_accepts in *.
set (at_least := negb (Z.land alg PSA_ALG_MAC_AT_LEAST_THIS_LENGTH_FLAG =? 0)) in *.
rewrite <- Hlen, <- Hfull in *.
set (P := if at_least then mac_mac_length c <= zlen mac <= mac_full_length c
          else zlen mac = mac_mac_length c) in *.
match goal with |- context [if ?b then psa_mac_abort ;; _ else _] => destruct b eqn:Hlenb end.
{ apply wp_bind, wp_mac_abort, wp_ret, Hbad; [done|done|]. intros _ _ _. split; [done|].
  intros [HP _]. unfold P in HP. destruct at_least; lia. }
assert (HP : P) by (unfold P; destruct at_least; lia). clearbody P.
set (c' := if at_least then mac_with_length (mac_full_length c) c else c).
assert (Hok' : mac_ok c' key_data msg).
{ unfold c'. destruct at_least; [|done]. destruct Hok. split; try done.
  simpl. by eapply length_checks_full. }
assert (Hm' : zlen mac <= mac_mac_length c' /\ (mac_mac_length c <= mac_full_length c ->
                mac_mac_length c' <= mac_full_length c)).
{ unfold c'. destruct at_least; simpl; lia. }
assert (Hf' : mac_full_length c' = mac_full_length c /\ mac_alg c' = alg)
  by (unfold c'; by destruct at_least).
destruct Hf' as [Hf' Ha'].
apply wp_bind, (wp_mac_final c' key_data msg); [done| |].
- intros e s1 Hs1 He Hno. apply wp_bind, wp_mac_abort.
  destruct e; [done|apply wp_ret, Hbad; [done|done|]; intros Hml Hsm _;
    exfalso; apply Hno; try done; rewrite ?Hf'; lia ..].
- intros s1 Hs1 _ _. apply wp_bind, wp_mac_abort. cbv beta iota. rewrite Ha'.
  destruct (compare_mac (full_tag alg key_data msg) _ mac _ eq_refl (proj1 Hm')) as [Hlt Hcmp].
  destruct (Z.ltb_spec (zlen (take (Z.to_nat (mac_mac_length c')) (full_tag alg key_data msg)))
              (zlen mac)) as [Hshort|Hlong].
  + apply wp_ret, Hbad; [done|done|]. intros Hml _ Htag. exfalso. specialize (Hlt ltac:(lia)). lia.
  + specialize (Hcmp Hlong). destruct (Z.eqb_spec (ConstantCompare (take (Z.to_nat (zlen mac))
      (take (Z.to_nat (mac_mac_length c')) (full_tag alg key_data msg))) mac) 0) as [H0|H0]; cbn [negb].
    * apply wp_ret, Hgood; [done|]. split; [done|by apply Hcmp].
    * apply wp_ret, Hbad; [done|done|]. intros _ _ _. split; [done|]. intros [_ Heq].
      by apply H0, Hcmp.
Qed.

(** The length of the MAC under a feasible key. *)
Lemma feasible_tag key alg usage s0 a key_data msg c :
mac_setup_feasible key alg usage s0 -> mac_live key alg usage s0 a key_data msg c ->
zlen (full_tag alg key_data msg) = full_length_of a alg.
Proof.
intros (_ & _ & a' & d & k & Hg & _ & Hchk & _ & Hl & _ & Hk) [Hu Hok Ha H1 H2].
destruct Hu as (a2 & d2 & Hg2 & -> & _). rewrite Hg in Hg2. injection Hg2 as <- <-.
pose proof (length_checks_bounds _ _ _ Hl (mac_length_nonneg _ _ _)).
unfold full_tag, full_length_of in *. destruct (PSA_ALG_IS_HMAC alg) eqn:Hh.
- destruct Hk as [_ Hsz]. rewrite hmac_length; lia.
- rewrite cmac_length, <- H2. symmetry. apply Hok. by rewrite Ha.
Qed.

(** C4: whatever fails and however the input is cut, a verification that succeeds
  was given the MAC of the whole input, of an accepted length, under a key
  that permits verification; and when nothing fails it succeeds exactly then,
  the other MACs being refused as invalid. *)
Theorem mac_verify_multipart_spec key alg chunks mac s :
wp (mac_multipart tt key alg PSA_KEY_USAGE_VERIFY_MESSAGE chunks
      (finish_status (psa_mac_verify_finish (Bytes mac))))
  (fun r s' =>
     op_ctx s' = None /\
     (r.1 = PSA_SUCCESS -> exists a key_data,
        mac_key_usable key alg PSA_KEY_USAGE_VERIFY_MESSAGE s a key_data /\
        mac_accepts a alg key_data (message chunks) mac) /\
     (mac_setup_feasible key alg PSA_KEY_USAGE_VERIFY_MESSAGE s -> Forall input_valid chunks ->
      r.1 = PSA_SUCCESS \/
      (r.1 = PSA_ERROR_INVALID_SIGNATURE /\ forall a key_data,
         mac_key_usable key alg PSA_KEY_USAGE_VERIFY_MESSAGE s a key_data ->
         ~ mac_accepts a alg key_data (message chunks) mac))) s.
Proof.
apply wp_mac_multipart.
- intros e s' Hc He Hno. split_and!; [done|done|]. intros Hf Hv. by destruct (Hno Hf Hv).
- intros a key_data c s1 Hc Hl Hsm. apply wp_bind.
  eapply (wp_verify_finish _ _ _ _ _ _ _ c); [done|exact Hl| |].
  + intros e s2 Hc2 He Hno. apply wp_ret. split_and!; [done|done|]. intros Hf Hv. right.
    destruct Hno as [-> Hna]; [by eapply feasible_lengths|by apply Hsm|by eapply feasible_tag|].
    split; [done|]. intros a2 d2 (a3 & d3 & Hg & -> & -> & _).
    destruct (live_key _ _ _ _ _ _ _ _ Hl) as (a4 & d4 & Hg' & -> & -> & _).
    rewrite Hg in Hg'. by injection Hg' as <- <-.
  + intros s2 Hc2 Hacc. apply wp_ret. split_and!; [done| |by left]. intros _.
    exists a, key_data. split; [apply Hl|done].
Qed.

(** ** The direction of an operation *)

Lemma checks_other_usage usage usage' alg a :
mac_key_checks usage alg a = PSA_SUCCESS ->
Z.land (psa_get_key_usage_flags a) usage' <> usage' ->
mac_key_checks usage' alg a = PSA_ERROR_NOT_PERMITTED.
Proof.
unfold mac_key_checks. cbv zeta. intros H Hu.
match goal with |- match ?t with _ => _ end = _ => destruct t; try done end.
by destruct (Z.eqb_spec (Z.land (psa_get_key_usage_flags a) usage') usage').
Qed.

(** A key that permits verification only cannot be used to sign in one call,
  but an operation set up to verify with it signs: [psa_mac_sign_finish] does
  not ask how the operation was set up. *)
Theorem mac_verify_operation_signs key alg chunks mac_size s a key_data :
mac_setup_feasible key alg PSA_KEY_USAGE_VERIFY_MESSAGE s ->
mac_key_usable key alg PSA_KEY_USAGE_VERIFY_MESSAGE s a key_data ->
Z.land (psa_get_key_usage_flags a) PSA_KEY_USAGE_SIGN_MESSAGE <> PSA_KEY_USAGE_SIGN_MESSAGE ->
Forall input_valid chunks -> PSA_MAC_MAX_SIZE <= mac_size ->
(psa_mac_compute key alg (Bytes (message chunks)) true mac_size true s).1
  = (PSA_ERROR_NOT_PERMITTED, []) /\
(mac_multipart [] key alg PSA_KEY_USAGE_VERIFY_MESSAGE chunks
   (psa_mac_sign_finish true mac_size true) s).1
  = (PSA_SUCCESS, take (Z.to_nat (mac_length_of a alg)) (full_tag alg key_data (message chunks))).
Proof.
intros Hf Hu Hns Hv Hsz. split.
- pose proof Hf as (Hmac & _ & _). destruct Hu as (a' & d & Hg & Ha & _ & Hchk).
  change (wp (psa_mac_compute key alg (Bytes (message chunks)) true mac_size true)
    (fun r _ => r = (PSA_ERROR_NOT_PERMITTED, [])) s).
  unfold psa_mac_compute, psa_mac_sign_setup, wolfpsa_mac_setup.
  apply wp_bind, wp_modify, wp_bind, wp_bind. unfold get_ctx. apply wp_gets. simpl.
  rewrite Hmac. cbn [negb]. apply wp_bind, wp_lib. unfold wolfpsa_mac_check_key. apply wp_bind.
  unfold wp at 1. simpl op_lib. rewrite Hg. cbv beta iota zeta. apply wp_ret.
  rewrite <- Ha, (checks_other_usage _ _ _ _ Hchk Hns). by apply wp_ret, wp_ret.
- change (wp (mac_multipart [] key alg PSA_KEY_USAGE_VERIFY_MESSAGE chunks
    (psa_mac_sign_finish true mac_size true)) (fun r _ => r = (PSA_SUCCESS,
      take (Z.to_nat (mac_length_of a alg)) (full_tag alg key_data (message chunks)))) s).
  apply wp_mac_multipart; [intros e s' _ _ Hno; by destruct (Hno Hf Hv)|].
  intros a2 d2 c s1 Hc Hl Hsm. pose proof (feasible_lengths _ _ _ _ s1 _ _ _ _ Hf Hl).
  apply (wp_sign_finish c d2 (message chunks)); [done|apply Hl| |].
  + intros e s2 Hc2 He Hno. destruct Hno; [done|done|lia|done|by apply Hsm].
  + intros s2 Hc2 _ _. destruct Hl as [(a3 & d3 & Hg3 & -> & -> & _) _ Ha Hlen _].
    destruct Hu as (a4 & d4 & Hg4 & -> & -> & _). rewrite Hg3 in Hg4. injection Hg4 as <- <-.
    by rewrite Ha, Hlen.
Qed.
End MacSpec.
