(* ===== verification/Hash.v ===== *)
(** Hash operations: [src/psa_hash_engine.c], whole.

    A hash operation is a context over one of wolfCrypt's hashes.  The calls that
    work on one operation object are over [opstate], which holds the context that
    the object points to.  Several objects live in a [hash_heap]: blocks of memory
    and, for every object, the pointer it holds; [on_object] runs a call on one of
    them through its pointer, and [psa_hash_clone] works there. *)

From stdpp Require Import base decidable list gmap.
From Stdlib Require Import ZArith Lia.
From Stdlib Require Import Strings.Byte.
From S2P Require Import Prelude.
From S2P Require Import Values.
From S2P Require Import Engine.
From S2P Require Import WolfCrypt.
From S2P Require Import StoreIface.
From S2P Require Import Library.
From S2P Require Import Operation.

#[local] Open Scope Z_scope.

(** * State *)

(** [hash_ctx] is the member of the union that the algorithm selects. *)
Record psa_hash_operation_ctx {W : WolfCryptHash} : Type := mkHash {
  hash_alg : Z;
  hash_initialized : bool;
  hash_started : bool;
  hash_finalized : bool;
  hash_ctx : wc_hash }.

Section Hash.
Context {C : Config} {E : WolfCryptErr} {O : StoreOps}.
Context {WM : WolfCryptMisc} {WD : WolfCryptDigest} {W : WolfCryptHash}.

Notation HM := (M (opstate O psa_hash_operation_ctx)).

Definition hash_with_ctx (h : wc_hash) (c : psa_hash_operation_ctx) : psa_hash_operation_ctx :=
mkHash _ (hash_alg c) (hash_initialized c) (hash_started c) (hash_finalized c) h.

(** * Algorithms *)

Definition psa_hash_check_alg_supported (alg : Z) : psa_status_t :=
if WOLFSSL_MD5 && (alg =? PSA_ALG_MD5) then PSA_SUCCESS
else if WOLFSSL_RIPEMD && (alg =? PSA_ALG_RIPEMD160) then PSA_SUCCESS
else if negb NO_SHA && (alg =? PSA_ALG_SHA_1) then PSA_SUCCESS
else if negb NO_SHA256 && (alg =? PSA_ALG_SHA_256) then PSA_SUCCESS
else if WOLFSSL_SHA224 && (alg =? PSA_ALG_SHA_224) then PSA_SUCCESS
else if WOLFSSL_SHA384 && (alg =? PSA_ALG_SHA_384) then PSA_SUCCESS
else if WOLFSSL_SHA512 && (alg =? PSA_ALG_SHA_512) then PSA_SUCCESS
else if WOLFSSL_SHA512 && negb WOLFSSL_NOSHA512_224 && (alg =? PSA_ALG_SHA_512_224)
then PSA_SUCCESS
else if WOLFSSL_SHA512 && negb WOLFSSL_NOSHA512_256 && (alg =? PSA_ALG_SHA_512_256)
then PSA_SUCCESS
else if WOLFSSL_SHA3 && ((alg =? PSA_ALG_SHA3_224) || (alg =? PSA_ALG_SHA3_256)
                         || (alg =? PSA_ALG_SHA3_384) || (alg =? PSA_ALG_SHA3_512))
then PSA_SUCCESS
else if WOLFSSL_SHAKE256 && (alg =? PSA_ALG_SHAKE256_512) then PSA_SUCCESS
else if HAVE_ASCON && (alg =? PSA_ALG_ASCON_HASH256) then PSA_SUCCESS
else PSA_ERROR_NOT_SUPPORTED.

Definition psa_hash_get_size (alg : Z) : Z :=
if WOLFSSL_MD5 && (alg =? PSA_ALG_MD5) then WC_MD5_DIGEST_SIZE
else if WOLFSSL_RIPEMD && (alg =? PSA_ALG_RIPEMD160) then RIPEMD_DIGEST_SIZE
else if negb NO_SHA && (alg =? PSA_ALG_SHA_1) then WC_SHA_DIGEST_SIZE
else if negb NO_SHA256 && (alg =? PSA_ALG_SHA_256) then WC_SHA256_DIGEST_SIZE
else if WOLFSSL_SHA224 && (alg =? PSA_ALG_SHA_224) then WC_SHA224_DIGEST_SIZE
else if WOLFSSL_SHA384 && (alg =? PSA_ALG_SHA_384) then WC_SHA384_DIGEST_SIZE
else if WOLFSSL_SHA512 && (alg =? PSA_ALG_SHA_512) then WC_SHA512_DIGEST_SIZE
else if WOLFSSL_SHA512 && negb WOLFSSL_NOSHA512_224 && (alg =? PSA_ALG_SHA_512_224)
then WC_SHA512_224_DIGEST_SIZE
else if WOLFSSL_SHA512 && negb WOLFSSL_NOSHA512_256 && (alg =? PSA_ALG_SHA_512_256)
then WC_SHA512_256_DIGEST_SIZE
else if WOLFSSL_SHA3 && (alg =? PSA_ALG_SHA3_224) then WC_SHA3_224_DIGEST_SIZE
else if WOLFSSL_SHA3 && (alg =? PSA_ALG_SHA3_256) then WC_SHA3_256_DIGEST_SIZE
else if WOLFSSL_SHA3 && (alg =? PSA_ALG_SHA3_384) then WC_SHA3_384_DIGEST_SIZE
else if WOLFSSL_SHA3 && (alg =? PSA_ALG_SHA3_512) then WC_SHA3_512_DIGEST_SIZE
else if WOLFSSL_SHAKE256 && (alg =? PSA_ALG_SHAKE256_512) then 64
else if HAVE_ASCON && (alg =? PSA_ALG_ASCON_HASH256) then ASCON_HASH256_SZ
else 0.

(** The switches of setup, update, finish and clone have the cases of
  [psa_hash_check_alg_supported]; elsewhere they go to [default]. *)
Definition hash_case (alg : Z) : bool :=
bool_decide (psa_hash_check_alg_supported alg = PSA_SUCCESS).

(** * Operations *)

Definition sizeof_hash_ctx : Z := 1024.

Definition psa_hash_abort : HM psa_status_t := set_ctx None;; mret PSA_SUCCESS.

Definition wolfpsa_hash_fail (status : psa_status_t) : HM psa_status_t :=
psa_hash_abort;; mret status.

(** [p] is the address that the allocation gives when it succeeds. *)
Definition psa_hash_setup (p : nat) (alg : Z) : HM psa_status_t :=
initialized ← lib wolfPSA_CryptoIsInitialized;
if negb initialized then mret PSA_ERROR_BAD_STATE
else if negb (PSA_ALG_IS_HASH alg) then mret PSA_ERROR_INVALID_ARGUMENT
else
  match psa_hash_check_alg_supported alg with
  | PSA_SUCCESS =>
      c ← get_ctx;
      match c with
      | Some _ => mret PSA_ERROR_BAD_STATE
      | None =>
          ok ← lib (XMALLOC sizeof_hash_ctx);
          if negb ok then mret PSA_ERROR_INSUFFICIENT_MEMORY
          else if negb (hash_case alg) then mret PSA_ERROR_NOT_SUPPORTED
          else
            ret ← wc_call; (* wc_InitSha256_ex and the others *)
            if negb (ret =? 0) then mret (wc_error_to_psa_status ret)
            else
              set_ctx (Some (mkHash _ alg true true false (wc_hash_init alg p)));;
              mret PSA_SUCCESS
      end
  | e => mret e
  end.

(** The guard of update and finish. *)
Definition hash_usable (c : option psa_hash_operation_ctx) : option psa_hash_operation_ctx :=
match c with
| None => None
| Some c =>
    if negb (hash_initialized c) || negb (hash_started c) then None
    else if hash_finalized c then None
    else Some c
end.

Definition psa_hash_update (data : input) : HM psa_status_t :=
if is_null data && (0 <? input_length data) then wolfpsa_hash_fail PSA_ERROR_INVALID_ARGUMENT
else
  c ← get_ctx;
  match hash_usable c with
  | None => wolfpsa_hash_fail PSA_ERROR_BAD_STATE
  | Some c =>
      if negb (fits_word32 (input_length data)) then wolfpsa_hash_fail PSA_ERROR_INVALID_ARGUMENT
      else if negb (hash_case (hash_alg c)) then wolfpsa_hash_fail PSA_ERROR_NOT_SUPPORTED
      else
        ret ← wc_call; (* wc_Sha256Update and the others *)
        if negb (ret =? 0) then wolfpsa_hash_fail (wc_error_to_psa_status ret)
        else
          modify_ctx (hash_with_ctx
            (wc_hash_update (hash_alg c) (hash_ctx c) (word32_buf (input_bytes data))));;
          mret PSA_SUCCESS
  end.

(** [hash] and [hash_length] say whether the pointers are not NULL.  The result
  is the status, what the buffer receives and [*hash_length]. *)
Definition psa_hash_finish (hash : bool) (hash_size : Z) (hash_length : bool)
: HM (psa_status_t * list byte * Z) :=
let fail status := status ← wolfpsa_hash_fail status; mret (status, [], 0) in
if negb hash_length || (negb hash && negb (hash_size =? 0)) then fail PSA_ERROR_INVALID_ARGUMENT
else
  c ← get_ctx;
  match hash_usable c with
  | None => fail PSA_ERROR_BAD_STATE
  | Some c =>
      let expected_hash_size := psa_hash_get_size (hash_alg c) in
      if expected_hash_size =? 0 then fail PSA_ERROR_NOT_SUPPORTED
      else if hash_size <? expected_hash_size then fail PSA_ERROR_BUFFER_TOO_SMALL
      else if negb (hash_case (hash_alg c)) then fail PSA_ERROR_NOT_SUPPORTED
      else
        ret ← wc_call; (* wc_Sha256Final and the others *)
        if negb (ret =? 0) then fail (wc_error_to_psa_status ret)
        else
          set_ctx None;;
          mret (PSA_SUCCESS, wc_hash_final (hash_alg c) (hash_ctx c), expected_hash_size)
  end.

Definition WOLFPSA_HASH_MAX_SIZE : Z :=
if WC_MAX_DIGEST_SIZE <=? PSA_HASH_MAX_SIZE then PSA_HASH_MAX_SIZE else WC_MAX_DIGEST_SIZE.

Definition psa_hash_verify (hash : input) : HM psa_status_t :=
if is_null hash && negb (input_length hash =? 0) then mret PSA_ERROR_INVALID_ARGUMENT
else
  '(status, computed_hash, computed_hash_length) ←
    psa_hash_finish true WOLFPSA_HASH_MAX_SIZE true;
  mret match status with
       | PSA_SUCCESS =>
           if negb (input_length hash =? computed_hash_length) then PSA_ERROR_INVALID_SIGNATURE
           else if negb (ConstantCompare (take (Z.to_nat computed_hash_length) computed_hash)
                           (input_bytes hash) =? 0)
           then PSA_ERROR_INVALID_SIGNATURE
           else PSA_SUCCESS
       | e => e
       end.

(** ** One shot: on a local operation object *)

Definition psa_hash_compute (alg : Z) (data : input) (hash : bool) (hash_size : Z)
  (hash_length : bool) : HM (psa_status_t * list byte * Z) :=
initialized ← lib wolfPSA_CryptoIsInitialized;
if negb initialized then mret (PSA_ERROR_BAD_STATE, [], 0)
else
  set_ctx None;;
  status ← psa_hash_setup (fresh (∅ : gset nat)) alg;
  match status with
  | PSA_SUCCESS =>
      status ← psa_hash_update data;
      match status with
      | PSA_SUCCESS =>
          '(status, out, length) ← psa_hash_finish hash hash_size hash_length;
          match status with
          | PSA_SUCCESS => mret (PSA_SUCCESS, out, length)
          | e => psa_hash_abort;; mret (e, out, length)
          end
      | e => psa_hash_abort;; mret (e, [], 0)
      end
  | e => mret (e, [], 0)
  end.

Definition psa_hash_compare (alg : Z) (data hash : input) : HM psa_status_t :=
initialized ← lib wolfPSA_CryptoIsInitialized;
if negb initialized then mret PSA_ERROR_BAD_STATE
else if negb (PSA_ALG_IS_HASH alg) then mret PSA_ERROR_INVALID_ARGUMENT
else
  let expected_hash_size := psa_hash_get_size alg in
  if expected_hash_size =? 0 then mret PSA_ERROR_NOT_SUPPORTED
  else if negb (input_length hash =? expected_hash_size) then mret PSA_ERROR_INVALID_SIGNATURE
  else if is_null hash then mret PSA_ERROR_INVALID_ARGUMENT
  else
    '(status, computed_hash, computed_hash_length) ←
      psa_hash_compute alg data true WOLFPSA_HASH_MAX_SIZE true;
    mret match status with
         | PSA_SUCCESS =>
             if negb (ConstantCompare (take (Z.to_nat computed_hash_length) computed_hash)
                        (input_bytes hash) =? 0)
             then PSA_ERROR_INVALID_SIGNATURE
             else PSA_SUCCESS
         | e => e
         end.
(** ** Several objects *)

(** The blocks of memory that hold contexts, and the pointers of the operation
  objects; an object without an entry holds NULL. *)
Record hash_heap : Type := mkHeap {
heap_lib : kstate O;
heap_rets : list Z;
heap_blocks : gmap nat psa_hash_operation_ctx;
heap_opaque : gmap nat nat }.

(** [psa_hash_get_ctx]: the context that an object points to. *)
Definition psa_hash_get_ctx (i : nat) (h : hash_heap) : option psa_hash_operation_ctx :=
p ← heap_opaque h !! i; heap_blocks h !! p.

(** The address of a new block: no live block has it. *)
Definition fresh_block (h : hash_heap) : nat := fresh (dom (heap_blocks h)).

(** What a call leaves behind its object's pointer: a context that is written in
  place or in a new block, or none, the block being freed. *)
Definition write_object (i : nat) (c : option psa_hash_operation_ctx) (h : hash_heap) : hash_heap :=
let rebuild := mkHeap (heap_lib h) (heap_rets h) in
match c, heap_opaque h !! i with
| Some c, Some p => rebuild (<[p := c]> (heap_blocks h)) (heap_opaque h)
| Some c, None =>
    let p := fresh_block h in
    rebuild (<[p := c]> (heap_blocks h)) (<[i := p]> (heap_opaque h))
| None, Some p => rebuild (delete p (heap_blocks h)) (delete i (heap_opaque h))
| None, None => h
end.

(** A call on the object [i]. *)
Definition on_object {A} (i : nat) (m : HM A) : M hash_heap A := fun h =>
let '(a, s) := m (mkOp _ _ (heap_lib h) (psa_hash_get_ctx i h) (heap_rets h)) in
(a, write_object i (op_ctx s) (mkHeap (op_lib s) (op_rets s) (heap_blocks h) (heap_opaque h))).

(** A computation that touches no object. *)
Definition on_none {A} (m : HM A) : M hash_heap A := fun h =>
let '(a, s) := m (mkOp _ _ (heap_lib h) None (heap_rets h)) in
(a, mkHeap (op_lib s) (op_rets s) (heap_blocks h) (heap_opaque h)).

(** RIPEMD-160 and Ascon contexts are copied byte by byte, the others by a call of
  wolfCrypt, which may fail.  [q] is the address of the target. *)
Definition hash_copy (q : nat) (alg : Z) (h : wc_hash) : HM (Z * wc_hash) :=
if (alg =? PSA_ALG_RIPEMD160) || (alg =? PSA_ALG_ASCON_HASH256) then mret (0, h)
else ret ← wc_call; mret (ret, wc_hash_copy alg h q).

(** [source] and [target] are objects; a block that is freed again on an error is
  not written here. *)
Definition psa_hash_clone (source target : nat) : M hash_heap psa_status_t :=
h ← mget;
match heap_opaque h !! target with
| Some _ => mret PSA_ERROR_BAD_STATE
| None =>
    match hash_usable (psa_hash_get_ctx source h) with
    | None => mret PSA_ERROR_BAD_STATE
    | Some source_ctx =>
        ok ← on_none (lib (XMALLOC sizeof_hash_ctx));
        if negb ok then mret PSA_ERROR_INSUFFICIENT_MEMORY
        else if negb (hash_case (hash_alg source_ctx)) then mret PSA_ERROR_NOT_SUPPORTED
        else
          let q := fresh_block h in
          '(ret, ctx) ← on_none (hash_copy q (hash_alg source_ctx) (hash_ctx source_ctx));
          if negb (ret =? 0) then mret (wc_error_to_psa_status ret)
          else
            mmodify (fun h => mkHeap (heap_lib h) (heap_rets h)
              (<[q := hash_with_ctx ctx source_ctx]> (heap_blocks h))
              (<[target := q]> (heap_opaque h)));;
            mret PSA_SUCCESS
    end
end.

(** The other calls, on an object; [psa_hash_finish] gives the bytes that
  [*hash_length] counts. *)
Definition object_setup (i : nat) (alg : Z) : M hash_heap psa_status_t := fun h =>
on_object i (psa_hash_setup (fresh_block h) alg) h.
Definition object_finish (i : nat) (hash : bool) (hash_size : Z) (hash_length : bool)
: M hash_heap (psa_status_t * list byte) :=
'(status, out, length) ← on_object i (psa_hash_finish hash hash_size hash_length);
mret (status, take (Z.to_nat length) out).

End Hash.
