(* ===== verification/HashSpec.v ===== *)
(** What the hash operations of [Hash] compute: a multi-part operation gives the
    digest of the concatenation of its inputs, an error ends it, and the
    verifying calls accept exactly the digest; and calls on several objects, clones
    among them, are a run of a table of what each object has absorbed. *)

From stdpp Require Import base decidable list gmap.
From Stdlib Require Import ZArith Lia.
From Stdlib Require Import Strings.Byte.
From S2P Require Import Prelude.
From S2P Require Import Values.
From S2P Require Import Engine.
From S2P Require Import WolfCrypt.
From S2P Require Import StoreIface.
From S2P Require Import Library.
From S2P Require Import KeyStoreRules.
From S2P Require Import Operation.
From S2P Require Import Hash.

#[local] Open Scope Z_scope.

(** The constants of wolfCrypt's headers are the lengths of the digests. *)
Class WolfCryptHashSizes {C : Config} {WD : WolfCryptDigest} {W : WolfCryptHash}
    (WO : WolfCryptHashOk W) : Prop := {
  digest_constants :
    Forall (fun n => 0 < n <= WC_MAX_DIGEST_SIZE)
      [WC_MD5_DIGEST_SIZE; RIPEMD_DIGEST_SIZE; WC_SHA_DIGEST_SIZE; WC_SHA224_DIGEST_SIZE;
       WC_SHA256_DIGEST_SIZE; WC_SHA384_DIGEST_SIZE; WC_SHA512_DIGEST_SIZE;
       WC_SHA512_224_DIGEST_SIZE; WC_SHA512_256_DIGEST_SIZE; WC_SHA3_224_DIGEST_SIZE;
       WC_SHA3_256_DIGEST_SIZE; WC_SHA3_384_DIGEST_SIZE; WC_SHA3_512_DIGEST_SIZE; 64;
       ASCON_HASH256_SZ];
  digest_length alg m :
    psa_hash_get_size alg <> 0 -> zlen (digest alg m) = psa_hash_get_size alg }.

Section HashSpec.
Context {C : Config} {E : WolfCryptErr} {EO : WolfCryptErrOk E} {O : StoreOps}.
Context {WM : WolfCryptMisc} {WMO : WolfCryptMiscOk WM} {WD : WolfCryptDigest}.
Context {W : WolfCryptHash} {WO : WolfCryptHashOk W} {WS : WolfCryptHashSizes WO}.

Implicit Types c : psa_hash_operation_ctx.
Implicit Types s : opstate O psa_hash_operation_ctx.
Notation HM := (M (opstate O psa_hash_operation_ctx)).

(** ** Sizes *)

(** An algorithm is supported exactly when it has a size, which then fits the
  buffers of the verifying calls. *)
Lemma supported_size alg :
(psa_hash_check_alg_supported alg = PSA_SUCCESS /\
   0 < psa_hash_get_size alg <= WC_MAX_DIGEST_SIZE) \/
(psa_hash_check_alg_supported alg = PSA_ERROR_NOT_SUPPORTED /\ psa_hash_get_size alg = 0).
Proof.
pose proof digest_constants as HF. rewrite !Forall_cons in HF.
destruct HF as (? & ? & ? & ? & ? & ? & ? & ? & ? & ? & ? & ? & ? & ? & ? & _).
unfold psa_hash_check_alg_supported, psa_hash_get_size.
repeat match goal with
| |- context [if ?b && (alg =? ?x) then _ else _] =>
    destruct (b && (alg =? x)); [left; done|]
end.
destruct WOLFSSL_SHA3; simpl;
  destruct (alg =? PSA_ALG_SHA3_224), (alg =? PSA_ALG_SHA3_256), (alg =? PSA_ALG_SHA3_384),
    (alg =? PSA_ALG_SHA3_512); simpl; try (left; done);
repeat match goal with
| |- context [if ?b && (alg =? ?x) then _ else _] =>
    destruct (b && (alg =? x)); [left; done|]
end; by right.
Qed.

Lemma hash_case_size alg : hash_case alg = true <-> psa_hash_get_size alg <> 0.
Proof.
unfold hash_case. rewrite bool_decide_eq_true.
destruct (supported_size alg) as [[-> ?]|[-> ->]]; split; (done || lia).
Qed.

(** * What an operation has absorbed *)

Record hash_ok (p : nat) c (alg : Z) (msg : list byte) : Prop := {
ok_alg : hash_alg c = alg;
ok_case : hash_case alg = true;
ok_usable : hash_usable (Some c) = Some c;
ok_absorbed : hashes alg p (hash_ctx c) msg }.

(** Setup succeeds when nothing fails. *)
Definition hash_feasible (alg : Z) s : Prop :=
PSA_ALG_IS_HASH alg = true /\ psa_hash_get_size alg <> 0 /\ smooth s /\
idle (op_lib s) /\ g_psa_crypto_initialized (op_lib s) = true.

(** A step that may fail only when something fails, leaves the object alone and
  keeps the library feasible. *)
Lemma wp_hash_initialized {A} (k : bool -> HM A) (Q : A -> opstate O psa_hash_operation_ctx -> Prop) s :
(forall b s', same_ctx s s' ->
   (forall alg, hash_feasible alg s -> b = true /\ hash_feasible alg s') -> wp (k b) Q s') ->
wp (b ← lib wolfPSA_CryptoIsInitialized; k b) Q s.
Proof.
intros HQ. apply wp_bind, wp_lib, wp_is_initialized. intros b l Hq _ Hi _ Hb.
apply HQ; [done|]. intros alg (H1 & H2 & [Hr Hm] & Hidle & Hinit).
split; [by rewrite Hb|]. split_and!; [done|done| |by apply Hi|].
- split; [done|by apply Hq].
- simpl. by rewrite (q_crypto _ _ Hq).
Qed.

(** A context at one address. *)
Section At.
Variable p : nat.

Lemma wp_hash_setup alg (Q : psa_status_t -> opstate O psa_hash_operation_ctx -> Prop) s :
op_ctx s = None ->
(forall e s', op_ctx s' = None -> e <> PSA_SUCCESS -> (hash_feasible alg s -> False) -> Q e s') ->
(forall c s', op_ctx s' = Some c -> hash_ok p c alg [] ->
   (hash_feasible alg s -> smooth s') -> Q PSA_SUCCESS s') ->
wp (psa_hash_setup p alg) Q s.
Proof.
intros Hc Hbad Hgood. unfold psa_hash_setup. apply wp_hash_initialized. intros b s1 Hs1 Hfe.
assert (Hc1 : op_ctx s1 = None) by (by rewrite Hs1).
destruct b; cbn [negb].
2: { apply wp_ret, Hbad; [done|done|]. intros Hf. by destruct (Hfe _ Hf). }
destruct (PSA_ALG_IS_HASH alg) eqn:Hh; cbn [negb].
2: { apply wp_ret, Hbad; [done|done|]. intros (Hf & _). congruence. }
destruct (supported_size alg) as [[Hsup Hsz]|[Hsup Hsz]]; rewrite Hsup.
2: { apply wp_ret, Hbad; [done|done|]. intros (_ & Hf & _). congruence. }
assert (Hcase : hash_case alg = true) by (apply hash_case_size; lia).
apply wp_bind. unfold get_ctx. apply wp_gets. rewrite Hc1.
apply wp_bind, wp_malloc. intros ok s2 Hs2 _ _ Hok.
assert (Hc2 : op_ctx s2 = None) by (by rewrite Hs2).
assert (Hsm : hash_feasible alg s -> ok = true /\ smooth s2).
{ intros Hf. apply Hok. by apply (Hfe _ Hf). }
destruct ok; cbn [negb].
2: { apply wp_ret, Hbad; [done|done|]. intros Hf. by destruct (Hsm Hf). }
rewrite Hcase. cbn [negb]. apply wp_checked_call.
- intros e s3 Hs3 He Hno. apply wp_ret, Hbad; [by rewrite Hs3|done|].
  intros Hf. by apply Hno, Hsm.
- intros s3 Hs3 Hsm3. apply wp_bind, wp_modify, wp_ret, (Hgood (mkHash _ alg true true false (wc_hash_init alg p)));
    [done| |].
  + split; [done|done|done|]. apply hash_init_spec.
  + intros Hf. apply Hsm3. by apply Hsm.
Qed.

Lemma wp_hash_fail e (Q : psa_status_t -> opstate O psa_hash_operation_ctx -> Prop) s :
Q e (with_ctx None s) -> wp (wolfpsa_hash_fail e) Q s.
Proof. done. Qed.

(** An update appends, or fails and ends the operation. *)
Lemma wp_hash_update c alg msg data
  (Q : psa_status_t -> opstate O psa_hash_operation_ctx -> Prop) s :
op_ctx s = Some c -> hash_ok p c alg msg ->
(forall e s', op_ctx s' = None -> e <> PSA_SUCCESS ->
   (input_valid data -> smooth s -> False) -> Q e s') ->
(forall c' s', op_ctx s' = Some c' -> hash_ok p c' alg (msg ++ input_bytes data) ->
   (smooth s -> smooth s') -> Q PSA_SUCCESS s') ->
wp (psa_hash_update data) Q s.
Proof.
intros Hc Hok Hbad Hgood. destruct Hok as [Ha Hcase Hu Habs]. unfold psa_hash_update.
destruct (is_null data && (0 <? input_length data)) eqn:Hnull.
{ apply wp_hash_fail, Hbad; [done|done|]. intros Hv _. by rewrite valid_not_null in Hnull. }
apply wp_bind. unfold get_ctx. apply wp_gets. rewrite Hc, Hu.
destruct (fits_word32 (input_length data)) eqn:Hfit; cbn [negb].
2: { apply wp_hash_fail, Hbad; [done|done|]. intros [_ Hv] _. congruence. }
rewrite Ha, Hcase. cbn [negb]. apply wp_checked_call.
{ intros e s1 Hs1 He Hno. apply wp_hash_fail, Hbad; [done|done|auto]. }
assert (Hbuf : word32_buf (input_bytes data) = input_bytes data).
{ destruct data as [n|l]; [done|]. by apply word32_buf_small. }
rewrite Hbuf. intros s1 Hs1 Hsm. apply wp_bind, wp_modify. rewrite Hs1, Hc. apply wp_ret.
eapply Hgood; [done| |done]. split; [done|done|by destruct c as [? [] [] []]|].
by apply hash_update_spec.
Qed.

(** ** Finish *)

Lemma wp_hash_finish c alg msg hash hash_size hash_length
  (Q : psa_status_t * list byte * Z -> opstate O psa_hash_operation_ctx -> Prop) s :
op_ctx s = Some c -> hash_ok p c alg msg ->
(forall e s', op_ctx s' = None -> e <> PSA_SUCCESS ->
   (hash = true -> hash_length = true -> psa_hash_get_size alg <= hash_size -> smooth s -> False) ->
   Q (e, [], 0) s') ->
(forall s', op_ctx s' = None -> psa_hash_get_size alg <= hash_size -> (smooth s -> smooth s') ->
   Q (PSA_SUCCESS, digest alg msg, psa_hash_get_size alg) s') ->
wp (psa_hash_finish hash hash_size hash_length) Q s.
Proof.
intros Hc [Ha Hcase Hu Habs] Hbad Hgood. unfold psa_hash_finish. cbv zeta.
destruct (negb hash_length || (negb hash && negb (hash_size =? 0))) eqn:Hargs.
{ apply wp_bind, wp_hash_fail, wp_ret, Hbad; [done|done|]. intros -> ->. done. }
apply wp_bind. unfold get_ctx. apply wp_gets. rewrite Hc, Hu, Ha.
destruct (Z.eqb_spec (psa_hash_get_size alg) 0) as [H0|_].
{ by apply hash_case_size in Hcase. }
destruct (Z.ltb_spec hash_size (psa_hash_get_size alg)) as [Hlt|Hge].
{ apply wp_bind, wp_hash_fail, wp_ret, Hbad; [done|done|]. lia. }
rewrite Hcase. cbn [negb].
apply (wp_checked_call (fun e => status ← wolfpsa_hash_fail e; mret (status, [], 0))).
- intros e s1 Hs1 He Hno. apply wp_bind, wp_hash_fail, wp_ret, Hbad; auto.
- intros s1 Hs1 Hsm. apply wp_bind, wp_modify, wp_ret.
  rewrite (hash_final_spec _ p _ msg Habs). by apply Hgood.
Qed.

(** * Whole operations *)

Fixpoint hash_updates (chunks : list input) : HM psa_status_t :=
match chunks with
| [] => mret PSA_SUCCESS
| data :: chunks =>
    status ← psa_hash_update data;
    match status with PSA_SUCCESS => hash_updates chunks | e => mret e end
end.

(** Updates of a live operation, and a finish. *)
Definition hash_continue {A} (none : A) (chunks : list input) (finish : HM (psa_status_t * A))
: HM (psa_status_t * A) :=
status ← hash_updates chunks;
match status with PSA_SUCCESS => finish | e => mret (e, none) end.

Definition hash_multipart {A} (none : A) (alg : Z) (chunks : list input)
  (finish : HM (psa_status_t * A)) : HM (psa_status_t * A) :=
set_ctx None;;
status ← psa_hash_setup p alg;
match status with PSA_SUCCESS => hash_continue none chunks finish | e => mret (e, none) end.

(** The digest as the code returns it: the bytes that [*hash_length] counts. *)
Definition finish_bytes (hash : bool) (hash_size : Z) (hash_length : bool)
: HM (psa_status_t * list byte) :=
'(status, out, length) ← psa_hash_finish hash hash_size hash_length;
mret (status, take (Z.to_nat length) out).

Lemma wp_hash_updates alg chunks msg c (Q : psa_status_t -> opstate O psa_hash_operation_ctx -> Prop) s :
op_ctx s = Some c -> hash_ok p c alg msg ->
(forall e s', op_ctx s' = None -> e <> PSA_SUCCESS ->
   (Forall input_valid chunks -> smooth s -> False) -> Q e s') ->
(forall c' s', op_ctx s' = Some c' -> hash_ok p c' alg (msg ++ message chunks) ->
   (smooth s -> smooth s') -> Q PSA_SUCCESS s') ->
wp (hash_updates chunks) Q s.
Proof.
revert c msg s. induction chunks as [|data chunks IH]; intros c msg s Hc Hok Hbad Hgood; simpl.
{ apply wp_ret, (Hgood c); [done| |done]. by rewrite message_nil, app_nil_r. }
apply wp_bind, (wp_hash_update c alg msg); [done|done| |].
- intros e s1 Hc1 He Hno.
  assert (HQ : Q e s1) by (apply Hbad; [done|done|]; intros [Hv _]%Forall_cons; auto).
  destruct e; [done|by apply wp_ret ..].
- intros c1 s1 Hc1 Hok1 Hsm1. apply (IH c1 (msg ++ input_bytes data)); [done|done| |].
  + intros e s2 Hc2 He Hno. apply Hbad; [done|done|]. intros [_ Hv]%Forall_cons; auto.
  + intros c2 s2 Hc2 Hok2 Hsm2. apply (Hgood c2); [done| |auto].
    by rewrite message_cons, app_assoc.
Qed.

Lemma wp_hash_continue {A} (none : A) alg chunks msg c finish
  (Q : psa_status_t * A -> opstate O psa_hash_operation_ctx -> Prop) s :
op_ctx s = Some c -> hash_ok p c alg msg ->
(forall e s', op_ctx s' = None -> e <> PSA_SUCCESS ->
   (Forall input_valid chunks -> smooth s -> False) -> Q (e, none) s') ->
(forall c' s', op_ctx s' = Some c' -> hash_ok p c' alg (msg ++ message chunks) ->
   (smooth s -> smooth s') -> wp finish Q s') ->
wp (hash_continue none chunks finish) Q s.
Proof.
intros Hc Hok Hbad Hgood. apply wp_bind, (wp_hash_updates alg _ msg c); [done|done| |done].
intros e s1 Hc1 He Hno.
assert (HQ : Q (e, none) s1) by by apply Hbad.
destruct e; [done|by apply wp_ret ..].
Qed.

Lemma wp_hash_multipart {A} (none : A) alg chunks finish
  (Q : psa_status_t * A -> opstate O psa_hash_operation_ctx -> Prop) s :
(forall e s', op_ctx s' = None -> e <> PSA_SUCCESS ->
   (hash_feasible alg s -> Forall input_valid chunks -> False) -> Q (e, none) s') ->
(forall c s', op_ctx s' = Some c -> hash_ok p c alg (message chunks) ->
   (hash_feasible alg s -> smooth s') -> wp finish Q s') ->
wp (hash_multipart none alg chunks finish) Q s.
Proof.
intros Hbad Hgood. apply wp_bind, wp_modify, wp_bind, wp_hash_setup; [done| |].
- intros e s1 Hc1 He Hno.
  assert (HQ : Q (e, none) s1) by (apply Hbad; auto).
  destruct e; [done|by apply wp_ret ..].
- intros c s1 Hc1 Hok Hsm. apply (wp_hash_continue none alg chunks [] c); [done|done| |].
  + intros e s2 Hc2 He Hno. apply Hbad; [done|done|]. auto.
  + intros c2 s2 Hc2 Hok2 Hsm2. apply (Hgood c2); [done|done|]. auto.
Qed.

Lemma wp_finish_bytes c alg msg hash hash_size hash_length
  (Q : psa_status_t * list byte -> opstate O psa_hash_operation_ctx -> Prop) s :
op_ctx s = Some c -> hash_ok p c alg msg ->
(forall e s', op_ctx s' = None -> e <> PSA_SUCCESS ->
   (hash = true -> hash_length = true -> psa_hash_get_size alg <= hash_size -> smooth s -> False) ->
   Q (e, []) s') ->
(forall s', op_ctx s' = None -> psa_hash_get_size alg <= hash_size -> (smooth s -> smooth s') ->
   Q (PSA_SUCCESS, digest alg msg) s') ->
wp (finish_bytes hash hash_size hash_length) Q s.
Proof.
intros Hc Hok Hbad Hgood. apply wp_bind, (wp_hash_finish c alg msg); [done|done| |].
- intros e s1 Hc1 He Hno. apply wp_ret. by apply Hbad.
- intros s1 Hc1 Hsz Hsm. apply wp_ret. rewrite take_ge; [by apply Hgood|].
  pose proof (ok_case _ _ _ _ Hok) as Hcase%hash_case_size.
  pose proof (digest_length alg msg Hcase). unfold zlen in *. lia.
Qed.

(** C35: whatever fails and however the input is cut, an operation that succeeds
  gives the digest of the whole input and its length; the operation object is
  inactive afterwards; and it succeeds when the algorithm is supported, the
  buffer is large enough and nothing fails. *)
Theorem hash_multipart_spec alg chunks hash hash_size hash_length s :
wp (hash_multipart [] alg chunks (finish_bytes hash hash_size hash_length))
  (fun r s' =>
     op_ctx s' = None /\
     (r.1 = PSA_SUCCESS ->
      psa_hash_get_size alg <= hash_size /\ zlen r.2 = psa_hash_get_size alg /\
      r.2 = digest alg (message chunks)) /\
     (hash_feasible alg s -> Forall input_valid chunks -> hash = true -> hash_length = true ->
      psa_hash_get_size alg <= hash_size -> r.1 = PSA_SUCCESS)) s.
Proof.
apply wp_hash_multipart.
- intros e s1 Hc He Hno. split_and!; [done|done|]. intros Hf Hv. by destruct (Hno Hf Hv).
- intros c s1 Hc Hok Hsm. apply (wp_finish_bytes c alg (message chunks)); [done|done| |].
  + intros e s2 Hc2 He Hno. split_and!; [done|done|]. intros. exfalso. apply Hno; auto.
  + intros s2 Hc2 Hsz _. split_and!; [done| |done]. intros _. split_and!; [done| |done].
    apply digest_length, hash_case_size, Hok.
Qed.

(** * Verification *)

(** Comparing a computed digest of the right length with a reference. *)
Lemma compare_digest alg msg hash :
psa_hash_get_size alg <> 0 -> zlen hash = psa_hash_get_size alg ->
ConstantCompare (take (Z.to_nat (psa_hash_get_size alg)) (digest alg msg)) hash = 0 <->
hash = digest alg msg.
Proof.
intros Hsz Hlen. pose proof (digest_length alg msg Hsz) as Hd.
rewrite take_ge by (unfold zlen in *; lia).
rewrite constant_compare_spec by lia. by split; intros; symmetry.
Qed.

Lemma size_fits alg : psa_hash_get_size alg <= WOLFPSA_HASH_MAX_SIZE.
Proof.
unfold WOLFPSA_HASH_MAX_SIZE.
assert (0 <= PSA_HASH_MAX_SIZE) by (unfold PSA_HASH_MAX_SIZE; repeat case_match; lia).
pose proof digest_constants as [? _]%Forall_cons.
destruct (supported_size alg) as [[_ ?]|[_ ?]], (Z.leb_spec WC_MAX_DIGEST_SIZE PSA_HASH_MAX_SIZE); lia.
Qed.

(** What a verification of [hash] against the digest of [msg] answers. *)
Definition verdict (alg : Z) (msg hash : list byte) (feasible : Prop) (st : psa_status_t) : Prop :=
(st = PSA_SUCCESS -> hash = digest alg msg) /\
(feasible -> st = PSA_SUCCESS \/ (st = PSA_ERROR_INVALID_SIGNATURE /\ hash <> digest alg msg)).

Lemma verdict_error alg msg hash feasible e :
e <> PSA_SUCCESS -> (feasible -> False) -> verdict alg msg hash feasible e.
Proof. intros He Hno. split; [done|]. intros Hf. by destruct (Hno Hf). Qed.

Lemma verdict_mismatch alg msg hash feasible :
hash <> digest alg msg -> verdict alg msg hash feasible PSA_ERROR_INVALID_SIGNATURE.
Proof. intros Hne. split; [done|by right]. Qed.

Lemma verdict_compare alg msg hash feasible :
psa_hash_get_size alg <> 0 -> zlen hash = psa_hash_get_size alg ->
verdict alg msg hash feasible
  (if negb (ConstantCompare (take (Z.to_nat (psa_hash_get_size alg)) (digest alg msg)) hash =? 0)
   then PSA_ERROR_INVALID_SIGNATURE else PSA_SUCCESS).
Proof.
intros Hsz Hlen. pose proof (compare_digest alg msg hash Hsz Hlen) as Hcmp.
destruct (Z.eqb_spec (ConstantCompare (take (Z.to_nat (psa_hash_get_size alg)) (digest alg msg)) hash) 0)
  as [H0|H0]; cbn [negb].
- split; [by rewrite <- Hcmp|by left].
- apply verdict_mismatch. by rewrite <- Hcmp.
Qed.

(** Whatever fails and however the input is cut, a multi-part verification
  that succeeds was given the digest of the whole input; when nothing fails
  it succeeds exactly then, and answers [INVALID_SIGNATURE] otherwise; the
  operation is over in every case. *)
Theorem hash_verify_exact alg chunks hash s :
wp (hash_multipart tt alg chunks (finish_status (psa_hash_verify (Bytes hash))))
  (fun r s' => op_ctx s' = None /\
     verdict alg (message chunks) hash (hash_feasible alg s /\ Forall input_valid chunks) r.1) s.
Proof.
apply wp_hash_multipart.
- intros e s1 Hc He Hno. split; [done|]. apply verdict_error; [done|]. by intros [? ?]; apply Hno.
- intros c s1 Hc Hok Hsm. apply wp_bind. unfold psa_hash_verify. simpl is_null. cbn [andb].
  pose proof (ok_case _ _ _ _ Hok) as Hsz%hash_case_size. pose proof (size_fits alg) as Hfit.
  apply wp_bind, (wp_hash_finish c alg (message chunks)); [done|done| |].
  + intros e s2 Hc2 He Hno. apply wp_ret.
    assert (Hv : verdict alg (message chunks) hash
                   (hash_feasible alg s /\ Forall input_valid chunks) e).
    { apply verdict_error; [done|]. intros [Hf _]. apply Hno; auto. }
    destruct e; [done|by apply wp_ret ..].
  + intros s2 Hc2 _ _. apply wp_ret, wp_ret. split; [done|]. simpl.
    destruct (Z.eqb_spec (zlen hash) (psa_hash_get_size alg)) as [Hl|Hl]; cbn [negb].
    * by apply verdict_compare.
    * apply verdict_mismatch. intros ->. by rewrite digest_length in Hl.
Qed.

End At.

(** ** One shot *)

Lemma wp_hash_compute alg data hash hash_size hash_length
  (Q : psa_status_t * list byte * Z -> opstate O psa_hash_operation_ctx -> Prop) s :
(forall e out n s', e <> PSA_SUCCESS ->
   (hash_feasible alg s -> input_valid data -> hash = true -> hash_length = true ->
    psa_hash_get_size alg <= hash_size -> False) -> Q (e, out, n) s') ->
(forall s', psa_hash_get_size alg <> 0 -> psa_hash_get_size alg <= hash_size ->
   Q (PSA_SUCCESS, digest alg (input_bytes data), psa_hash_get_size alg) s') ->
wp (psa_hash_compute alg data hash hash_size hash_length) Q s.
Proof.
intros Hbad Hgood. unfold psa_hash_compute. set (local := fresh (∅ : gset nat)). apply wp_hash_initialized. intros b s1 _ Hfe.
destruct b; cbn [negb].
2: { apply wp_ret, Hbad; [done|]. intros Hf. by destruct (Hfe _ Hf). }
apply wp_bind, wp_modify, wp_bind, (wp_hash_setup local); [done| |].
- intros e s2 _ He Hno.
  assert (HQ : Q (e, [], 0) s2).
  { apply Hbad; [done|]. intros Hf _ _ _ _. apply Hno. apply (Hfe _ Hf). }
  destruct e; [done|by apply wp_ret ..].
- intros c s2 Hc2 Hok2 Hsm2. apply wp_bind, (wp_hash_update local c alg []); [done|done| |].
  + intros e s3 _ He Hno.
    assert (HQ : forall s', Q (e, [], 0) s').
    { intros s'. apply Hbad; [done|]. intros Hf Hv _ _ _. apply Hno, Hsm2, (Hfe _ Hf). done. }
    destruct e; [done|exact (HQ _) ..].
  + intros c3 s3 Hc3 Hok3 Hsm3. apply wp_bind, (wp_hash_finish local c3 alg (input_bytes data)); [done|done| |].
    * intros e s4 _ He Hno.
      assert (HQ : forall s', Q (e, [], 0) s').
      { intros s'. apply Hbad; [done|]. intros Hf Hv Hh Hl Hsz.
        apply Hno; [done|done|done|]. apply Hsm3, Hsm2, (Hfe _ Hf). }
      destruct e; [done|exact (HQ _) ..].
    * intros s4 _ Hsz _. apply wp_ret, Hgood; [|done]. apply hash_case_size, Hok3.
Qed.

(** [psa_hash_compare] succeeds only on the digest of its input, and when
  nothing fails it tells the digest from every other reference. *)
Theorem hash_compare_exact alg data hash s :
wp (psa_hash_compare alg data (Bytes hash))
  (fun st _ => verdict alg (input_bytes data) hash (hash_feasible alg s /\ input_valid data) st) s.
Proof.
unfold psa_hash_compare. cbv zeta. apply wp_hash_initialized. intros b s1 _ Hfe.
destruct b; cbn [negb].
2: { apply wp_ret, verdict_error; [done|]. intros [Hf _]. by destruct (Hfe _ Hf). }
destruct (PSA_ALG_IS_HASH alg) eqn:Hh; cbn [negb].
2: { apply wp_ret, verdict_error; [done|]. intros [[? _] _]. congruence. }
destruct (Z.eqb_spec (psa_hash_get_size alg) 0) as [H0|H0].
{ apply wp_ret, verdict_error; [done|]. by intros [(_ & ? & _) _]. }
simpl input_length. destruct (Z.eqb_spec (zlen hash) (psa_hash_get_size alg)) as [Hl|Hl]; cbn [negb].
2: { apply wp_ret, verdict_mismatch. intros ->. by rewrite digest_length in Hl. }
simpl is_null. cbv iota. apply wp_bind, wp_hash_compute.
- intros e out n s2 He Hno.
  assert (Hv : verdict alg (input_bytes data) hash (hash_feasible alg s /\ input_valid data) e).
  { apply verdict_error; [done|]. intros [Hf Hv]. apply Hno; [apply (Hfe _ Hf)|done..|apply size_fits]. }
  destruct e; [done|by apply wp_ret ..].
- intros s2 _ _. apply wp_ret. by apply verdict_compare.
Qed.

(** * Several objects *)

(** ** What the calls leave of a library in which nothing fails *)

Definition undisturbed s : Prop :=
smooth s /\ idle (op_lib s) /\ g_psa_crypto_initialized (op_lib s) = true.

Definition keeps_undisturbed {A} (m : HM A) : Prop := forall s, undisturbed s -> undisturbed (m s).2.

Lemma undisturbed_ret {A} (a : A) : keeps_undisturbed (mret a).
Proof. by intros s. Qed.

Lemma undisturbed_bind {A B} (m : HM A) (k : A -> HM B) :
keeps_undisturbed m -> (forall a, keeps_undisturbed (k a)) -> keeps_undisturbed (m ≫= k).
Proof. intros Hm Hk s Hs. rewrite bind_run. by apply Hk, Hm. Qed.

Lemma undisturbed_pure {A} (m : HM A) : pure_calls m -> keeps_undisturbed m.
Proof.
intros Hm s ([Hr Hmem] & Hidle & Hinit). destruct (Hm s) as (_ & Hq & Hlock & Hrets).
split_and!; [split; [by apply Hrets|by apply Hq]| |by rewrite (q_crypto _ _ Hq)].
unfold idle, free, lock_view in *. injection Hlock as H1 H2 H3. by rewrite H1, H2, H3.
Qed.

Lemma keeps_set_ctx (o : option psa_hash_operation_ctx) : keeps_undisturbed (set_ctx o).
Proof. by intros s. Qed.
Lemma keeps_get_ctx : keeps_undisturbed get_ctx.
Proof. by intros s. Qed.
Lemma keeps_modify_ctx f : keeps_undisturbed (modify_ctx f).
Proof. by intros s. Qed.

Lemma keeps_initialized : keeps_undisturbed (lib wolfPSA_CryptoIsInitialized).
Proof.
intros s ([Hr Hmem] & Hidle & Hinit).
change (wp (lib (Op := psa_hash_operation_ctx) wolfPSA_CryptoIsInitialized) (fun _ s' => undisturbed s') s).
apply wp_lib, wp_is_initialized. intros b k Hq _ Hi _ _.
split_and!; [split; [done|by apply Hq]|by apply Hi|simpl; by rewrite (q_crypto _ _ Hq)].
Qed.

Ltac keeps_tac :=
repeat first [ apply undisturbed_ret | apply undisturbed_bind; [|intros] | apply keeps_set_ctx
             | apply keeps_get_ctx | apply keeps_modify_ctx | apply keeps_initialized
             | apply undisturbed_pure; solve [eauto with wpsa]
             | progress cbv beta iota zeta | case_match ].

Lemma keeps_setup p alg : keeps_undisturbed (psa_hash_setup p alg).
Proof. unfold psa_hash_setup. keeps_tac. Qed.
Lemma keeps_update data : keeps_undisturbed (psa_hash_update data).
Proof. unfold psa_hash_update, wolfpsa_hash_fail, psa_hash_abort. keeps_tac. Qed.
Lemma keeps_finish hash size len : keeps_undisturbed (psa_hash_finish hash size len).
Proof. unfold psa_hash_finish, wolfpsa_hash_fail, psa_hash_abort. keeps_tac. Qed.
Lemma keeps_verify hash : keeps_undisturbed (psa_hash_verify hash).
Proof. unfold psa_hash_verify. keeps_tac. Qed.

(** ** The heap *)

Implicit Types h : hash_heap.

(** What every object has absorbed: its algorithm and its message. *)
Notation hash_table := (gmap nat (Z * list byte)).

(** Every object in the table points to a block of its own, which holds what the
  table says; the others hold NULL; and no block is without its object. *)
Record heap_ok (T : hash_table) h : Prop := {
ho_objects : forall i, heap_opaque h !! i = None <-> T !! i = None;
ho_apart : forall i j p, heap_opaque h !! i = Some p -> heap_opaque h !! j = Some p -> i = j;
ho_owned : forall p, heap_blocks h !! p <> None -> exists i, heap_opaque h !! i = Some p;
ho_holds : forall i p alg msg, heap_opaque h !! i = Some p -> T !! i = Some (alg, msg) ->
  exists c, heap_blocks h !! p = Some c /\ hash_ok p c alg msg }.

Lemma heap_active T h i alg msg :
heap_ok T h -> T !! i = Some (alg, msg) ->
exists p c, heap_opaque h !! i = Some p /\ psa_hash_get_ctx i h = Some c /\ hash_ok p c alg msg.
Proof.
intros Hok Hi. destruct (heap_opaque h !! i) as [p|] eqn:Hp.
- destruct (ho_holds _ _ Hok _ _ _ _ Hp Hi) as (c & Hc & Hh). exists p, c.
  split_and!; [done| |done]. unfold psa_hash_get_ctx. by rewrite Hp.
- apply (ho_objects _ _ Hok) in Hp. congruence.
Qed.

Lemma heap_inactive T h i :
heap_ok T h -> T !! i = None -> heap_opaque h !! i = None /\ psa_hash_get_ctx i h = None.
Proof.
intros Hok Hi. assert (Hp : heap_opaque h !! i = None) by (by apply (ho_objects _ _ Hok)).
split; [done|]. unfold psa_hash_get_ctx. by rewrite Hp.
Qed.

Lemma fresh_block_free T h : heap_ok T h ->
heap_blocks h !! fresh_block h = None /\ (forall i, heap_opaque h !! i <> Some (fresh_block h)).
Proof.
intros Hok. assert (Hf : heap_blocks h !! fresh_block h = None).
{ apply not_elem_of_dom. apply is_fresh. }
split; [done|]. intros i Hi. destruct (T !! i) as [[alg msg]|] eqn:Ht.
- destruct (ho_holds _ _ Hok _ _ _ _ Hi Ht) as (c & Hc & _). congruence.
- apply (ho_objects _ _ Hok) in Ht. congruence.
Qed.

(** A heap with the same blocks and pointers. *)
Definition same_heap h h' : Prop :=
heap_blocks h' = heap_blocks h /\ heap_opaque h' = heap_opaque h.

Lemma heap_ok_same T h h' : same_heap h h' -> heap_ok T h -> heap_ok T h'.
Proof. intros [Hb Ho] []. split; by rewrite ?Hb, ?Ho. Qed.

(** A context in a new block, for an object that held NULL. *)
Lemma heap_ok_new T h h' i c alg msg :
heap_ok T h -> T !! i = None -> hash_ok (fresh_block h) c alg msg ->
heap_blocks h' = <[fresh_block h := c]> (heap_blocks h) ->
heap_opaque h' = <[i := fresh_block h]> (heap_opaque h) ->
heap_ok (<[i := (alg, msg)]> T) h'.
Proof.
intros Hok Hi Hc Hb Ho. destruct (fresh_block_free T h Hok) as [Hfb Hfo].
set (q := fresh_block h) in *. split; rewrite ?Hb, ?Ho.
- intros j. destruct (decide (j = i)) as [->|Hne]; [rewrite !lookup_insert_eq; by split|].
  rewrite !lookup_insert_ne by done. apply Hok.
- intros j k p. rewrite !lookup_insert_Some.
  intros [[<- <-]|[Hj Hp]] [[<- Hq]|[Hk Hq]]; [done|by destruct (Hfo k)|subst p; by destruct (Hfo j)|].
  by apply (ho_apart _ _ Hok j k p).
- intros p Hp. destruct (decide (p = q)) as [->|Hne]; [exists i; by rewrite lookup_insert_eq|].
  rewrite lookup_insert_ne in Hp by done. destruct (ho_owned _ _ Hok p Hp) as [j Hj]. exists j.
  rewrite lookup_insert_ne; [done|]. intros ->. apply (ho_objects _ _ Hok) in Hi. congruence.
- intros j p a m. rewrite !lookup_insert_Some. intros [[<- <-]|[Hj Hp]] [[? [= <- <-]]|[Hj' Ht]]; try done.
  + exists c. by rewrite lookup_insert_eq.
  + rewrite lookup_insert_ne; [by apply (ho_holds _ _ Hok j)|]. intros <-. by destruct (Hfo j).
Qed.

(** A context that is written in place. *)
Lemma heap_ok_write T h h' i p c alg msg :
heap_ok T h -> heap_opaque h !! i = Some p -> hash_ok p c alg msg ->
heap_blocks h' = <[p := c]> (heap_blocks h) -> heap_opaque h' = heap_opaque h ->
heap_ok (<[i := (alg, msg)]> T) h'.
Proof.
intros Hok Hi Hc Hb Ho. split; rewrite ?Hb, ?Ho.
- intros j. destruct (decide (j = i)) as [->|Hne]; [rewrite lookup_insert_eq, Hi; by split|].
  rewrite lookup_insert_ne by done. apply Hok.
- apply Hok.
- intros q Hq. destruct (decide (q = p)) as [->|Hne]; [by exists i|].
  rewrite lookup_insert_ne in Hq by done. by apply Hok.
- intros j q a m Hq. rewrite lookup_insert_Some. intros [[<- [= <- <-]]|[Hj Ht]].
  + assert (q = p) as -> by congruence. exists c. by rewrite lookup_insert_eq.
  + rewrite lookup_insert_ne; [by apply (ho_holds _ _ Hok j)|]. intros <-.
    apply Hj. by apply (ho_apart _ _ Hok i j p).
Qed.

(** A block that is freed. *)
Lemma heap_ok_free T h h' i p :
heap_ok T h -> heap_opaque h !! i = Some p ->
heap_blocks h' = delete p (heap_blocks h) -> heap_opaque h' = delete i (heap_opaque h) ->
heap_ok (delete i T) h'.
Proof.
intros Hok Hi Hb Ho. split; rewrite ?Hb, ?Ho.
- intros j. destruct (decide (j = i)) as [->|Hne]; [by rewrite !lookup_delete_eq|].
  rewrite !lookup_delete_ne by done. apply Hok.
- intros j k q. rewrite !lookup_delete_Some. intros [_ ?] [_ ?]. by apply (ho_apart _ _ Hok j k q).
- intros q Hq. destruct (decide (q = p)) as [->|Hne]; [by rewrite lookup_delete_eq in Hq|].
  rewrite lookup_delete_ne in Hq by done. destruct (ho_owned _ _ Hok q Hq) as [j Hj]. exists j.
  rewrite lookup_delete_ne; [done|]. intros ->. congruence.
- intros j q a m. rewrite !lookup_delete_Some. intros [Hj Hq] [_ Ht].
  rewrite lookup_delete_ne; [by apply (ho_holds _ _ Hok j)|]. intros <-.
  apply Hj. by apply (ho_apart _ _ Hok i j p).
Qed.

(** ** A call on an object *)

Definition heap_undisturbed h : Prop :=
undisturbed (mkOp O psa_hash_operation_ctx (heap_lib h) None (heap_rets h)).

Lemma wp_on_object {A} i (m : HM A) (Q : A -> hash_heap -> Prop) h :
keeps_undisturbed m ->
wp m (fun a s => forall h', same_heap h h' -> (heap_undisturbed h -> heap_undisturbed h') ->
        Q a (write_object i (op_ctx s) h'))
  (mkOp _ _ (heap_lib h) (psa_hash_get_ctx i h) (heap_rets h)) ->
wp (on_object i m) Q h.
Proof.
intros Hk. unfold wp, on_object. set (s0 := mkOp _ _ _ _ _).
pose proof (Hk s0) as Hu. destruct (m s0) as [a s]. simpl in *. intros HQ. by apply HQ.
Qed.

Lemma wp_on_none {A} (m : HM A) (Q : A -> hash_heap -> Prop) h :
keeps_undisturbed m ->
wp m (fun a s => forall h', same_heap h h' -> (heap_undisturbed h -> heap_undisturbed h') -> Q a h')
  (mkOp _ _ (heap_lib h) None (heap_rets h)) ->
wp (on_none m) Q h.
Proof.
intros Hk. unfold wp, on_none. set (s0 := mkOp _ _ _ _ _).
pose proof (Hk s0) as Hu. destruct (m s0) as [a s]. simpl in *. intros HQ. by apply HQ.
Qed.

Lemma write_object_undisturbed i (o : option psa_hash_operation_ctx) h :
heap_undisturbed h -> heap_undisturbed (write_object i o h).
Proof. unfold write_object. by destruct o, (heap_opaque h !! i). Qed.

(** An object is left without a context. *)
Lemma write_none_ok T h h' i :
heap_ok T h -> same_heap h h' -> heap_ok (delete i T) (write_object i None h').
Proof.
intros Hok Hs. pose proof (heap_ok_same _ _ _ Hs Hok) as Hok'. unfold write_object.
destruct (heap_opaque h' !! i) as [p|] eqn:Hp; [by apply (heap_ok_free T h' _ i p)|].
apply (ho_objects _ _ Hok') in Hp. by rewrite delete_id.
Qed.

(** ** The specification *)

Inductive hash_call : Type :=
| HashSetup (i : nat) (alg : Z)
| HashUpdate (i : nat) (data : input)
| HashFinish (i : nat) (hash : bool) (hash_size : Z) (hash_length : bool)
| HashVerify (i : nat) (reference : input)
| HashAbort (i : nat)
| HashClone (source target : nat).

Definition no_bytes (m : M hash_heap psa_status_t) : M hash_heap (psa_status_t * list byte) :=
status ← m; mret (status, []).

Definition run_hash_call (c : hash_call) : M hash_heap (psa_status_t * list byte) :=
match c with
| HashSetup i alg => no_bytes (object_setup i alg)
| HashUpdate i data => no_bytes (on_object i (psa_hash_update data))
| HashFinish i hash hash_size hash_length => object_finish i hash hash_size hash_length
| HashVerify i reference => no_bytes (on_object i (psa_hash_verify reference))
| HashAbort i => no_bytes (on_object i psa_hash_abort)
| HashClone source target => no_bytes (psa_hash_clone source target)
end.

(** The one object that a call may change. *)
Definition hash_target (c : hash_call) : nat :=
match c with
| HashSetup i _ | HashUpdate i _ | HashFinish i _ _ _ | HashVerify i _ | HashAbort i => i
| HashClone _ target => target
end.

(** What a successful call makes of that object, and the bytes it gives; [None]
  when the call is refused. *)
Definition hash_effect (T : hash_table) (c : hash_call) : option (option (Z * list byte) * list byte) :=
match c with
| HashSetup i alg =>
    if bool_decide (T !! i = None) && PSA_ALG_IS_HASH alg && negb (psa_hash_get_size alg =? 0)
    then Some (Some (alg, []), []) else None
| HashUpdate i data =>
    '(alg, msg) ← T !! i; Some (Some (alg, msg ++ input_bytes data), [])
| HashFinish i _ hash_size _ =>
    '(alg, msg) ← T !! i;
    if psa_hash_get_size alg <=? hash_size then Some (None, digest alg msg) else None
| HashVerify i reference =>
    '(alg, msg) ← T !! i;
    if bool_decide (input_bytes reference = digest alg msg) then Some (None, []) else None
| HashAbort i => Some (None, [])
| HashClone source target =>
    e ← T !! source; if bool_decide (T !! target = None) then Some (Some e, []) else None
end.

(** What a call that fails makes of it: setup and clone leave it alone, and so does
  a verification that is given no reference; the others end the operation. *)
Definition hash_failed (T : hash_table) (c : hash_call) : option (Z * list byte) :=
match c with
| HashSetup i _ | HashClone _ i => T !! i
| HashVerify i reference =>
    if is_null reference && negb (input_length reference =? 0) then T !! i else None
| HashUpdate _ _ | HashFinish _ _ _ _ | HashAbort _ => None
end.

(** Arguments that the call does not refuse. *)
Definition hash_args (c : hash_call) : Prop :=
match c with
| HashUpdate _ data => input_valid data
| HashFinish _ hash _ hash_length => hash = true /\ hash_length = true
| _ => True
end.

Definition hash_step (calm : Prop) (T : hash_table) (c : hash_call)
  (r : psa_status_t * list byte) (T' : hash_table) : Prop :=
(exists e out, hash_effect T c = Some (e, out) /\ r = (PSA_SUCCESS, out) /\
   T' = partial_alter (fun _ => e) (hash_target c) T) \/
(r.1 <> PSA_SUCCESS /\ r.2 = [] /\
   T' = partial_alter (fun _ => hash_failed T c) (hash_target c) T /\
   (calm -> hash_args c -> hash_effect T c = None)).

(** ** Every call is a step *)

Definition step_post (T : hash_table) (c : hash_call) h (r : psa_status_t * list byte) h' : Prop :=
exists T', hash_step (heap_undisturbed h) T c r T' /\ heap_ok T' h' /\
  (heap_undisturbed h -> heap_undisturbed h').

Lemma step_done T (c : hash_call) h h' e out :
hash_effect T c = Some (e, out) -> heap_ok (partial_alter (fun _ => e) (hash_target c) T) h' ->
(heap_undisturbed h -> heap_undisturbed h') -> step_post T c h (PSA_SUCCESS, out) h'.
Proof. intros He Hok Hu. eexists. split_and!; [left; by exists e, out|done|done]. Qed.

Lemma step_failed T (c : hash_call) h h' e :
e <> PSA_SUCCESS -> (heap_undisturbed h -> hash_args c -> hash_effect T c = None) ->
heap_ok (partial_alter (fun _ => hash_failed T c) (hash_target c) T) h' ->
(heap_undisturbed h -> heap_undisturbed h') -> step_post T c h (e, []) h'.
Proof. intros He Hno Hok Hu. eexists. split_and!; [by right|done|done]. Qed.

(** The object of a call, in the state in which the call runs. *)
Definition at_object h i : opstate O psa_hash_operation_ctx :=
mkOp _ _ (heap_lib h) (psa_hash_get_ctx i h) (heap_rets h).

Lemma object_smooth h i : heap_undisturbed h -> smooth (at_object h i).
Proof. by intros [[??] _]. Qed.

Lemma wp_object_call T (c : hash_call) h i (m : HM psa_status_t) :
keeps_undisturbed m ->
wp m (fun a s => forall h', same_heap h h' -> (heap_undisturbed h -> heap_undisturbed h') ->
        step_post T c h (a, []) (write_object i (op_ctx s) h')) (at_object h i) ->
wp (no_bytes (on_object i m)) (step_post T c h) h.
Proof.
intros Hk Hm. unfold no_bytes. apply wp_bind, wp_on_object; [done|].
eapply wp_mono; [exact Hm|]. intros a s Ha h' Hs Hu. by apply wp_ret, Ha.
Qed.

Lemma write_same_ok T h h' i p c alg msg :
heap_ok T h -> same_heap h h' -> heap_opaque h !! i = Some p -> hash_ok p c alg msg ->
heap_ok (<[i := (alg, msg)]> T) (write_object i (Some c) h').
Proof.
intros Hok Hs Hp Hc. pose proof (heap_ok_same _ _ _ Hs Hok) as Hok'. destruct Hs as [_ Ho].
unfold write_object. rewrite Ho, Hp. apply (heap_ok_write T h' _ i p c); try done.
all: rewrite Ho; done.
Qed.

Lemma write_new_ok T h h' i c alg msg :
heap_ok T h -> same_heap h h' -> T !! i = None -> hash_ok (fresh_block h) c alg msg ->
heap_ok (<[i := (alg, msg)]> T) (write_object i (Some c) h').
Proof.
intros Hok Hs Hi Hc. pose proof (heap_ok_same _ _ _ Hs Hok) as Hok'. destruct Hs as [Hb Ho].
assert (Hf : fresh_block h' = fresh_block h) by (unfold fresh_block; by rewrite Hb).
assert (Hp : heap_opaque h' !! i = None) by (by apply (ho_objects _ _ Hok')).
unfold write_object. rewrite Hp. apply (heap_ok_new T h' _ i c); try done. by rewrite Hf.
Qed.

(** Every algorithm that has a size is a hash algorithm. *)
Lemma sized_is_hash alg : psa_hash_get_size alg <> 0 -> PSA_ALG_IS_HASH alg = true.
Proof.
unfold psa_hash_get_size.
repeat match goal with
| |- context [if ?b && (alg =? ?x) then _ else _] =>
    destruct (Z.eqb_spec alg x) as [->|]; [done|rewrite (andb_false_r b)]
end. done.
Qed.

Lemma wp_setup_busy p alg c s :
op_ctx s = Some c ->
wp (psa_hash_setup p alg) (fun e s' => e <> PSA_SUCCESS /\ op_ctx s' = Some c) s.
Proof.
intros Hc. unfold psa_hash_setup. apply wp_hash_initialized. intros b s1 Hs1 _.
assert (Hc1 : op_ctx s1 = Some c) by (by rewrite Hs1).
destruct b; cbn [negb]; [|by apply wp_ret]. destruct (negb (PSA_ALG_IS_HASH alg)); [by apply wp_ret|].
destruct (supported_size alg) as [[Hsup _]|[Hsup _]]; rewrite Hsup; [|by apply wp_ret].
apply wp_bind. unfold get_ctx. apply wp_gets. rewrite Hc1. by apply wp_ret.
Qed.

Lemma step_setup T h i alg :
heap_ok T h -> wp (run_hash_call (HashSetup i alg)) (step_post T (HashSetup i alg) h) h.
Proof.
intros Hok. enough (wp (no_bytes (on_object i (psa_hash_setup (fresh_block h) alg)))
          (step_post T (HashSetup i alg) h) h) by done.
apply wp_object_call; [apply keeps_setup|]. destruct (T !! i) as [[a m]|] eqn:Hi.
- destruct (heap_active _ _ _ _ _ Hok Hi) as (p & c & Hp & Hc & Hh).
  eapply wp_mono; [by apply (wp_setup_busy _ _ c)|]. intros e s [He Hs] h' Hsame Hu. rewrite Hs.
  apply step_failed; [done|by intros; simpl; rewrite Hi| |].
  + cbn [hash_failed hash_target]. rewrite Hi. by apply (write_same_ok T h h' i p).
  + intros. by apply write_object_undisturbed, Hu.
- destruct (heap_inactive _ _ _ Hok Hi) as [Hp Hc]. apply wp_hash_setup; [done| |].
  + intros e s Hs He Hno h' Hsame Hu. rewrite Hs. apply step_failed; [done| | |].
    * intros Hcalm _. cbn [hash_effect]. rewrite Hi. cbn [bool_decide].
      rewrite bool_decide_eq_true_2 by done. cbn [andb].
      destruct (PSA_ALG_IS_HASH alg) eqn:Hh; [|done]. cbn [andb].
      destruct (Z.eqb_spec (psa_hash_get_size alg) 0) as [|Hsz]; [done|]. exfalso. apply Hno.
      destruct Hcalm as (Hsm & Hidle & Hinit). by split_and!.
    * cbn [hash_failed hash_target]. rewrite Hi. by apply (write_none_ok T h).
    * intros. by apply write_object_undisturbed, Hu.
  + intros c s Hs Hh _ h' Hsame Hu. rewrite Hs. apply step_done with (Some (alg, [])).
    * pose proof (ok_case _ _ _ _ Hh) as Hsz%hash_case_size. cbn [hash_effect].
      rewrite bool_decide_eq_true_2, (sized_is_hash alg Hsz) by done. simpl.
      by rewrite (proj2 (Z.eqb_neq _ _)).
    * by apply (write_new_ok T h).
    * intros. by apply write_object_undisturbed, Hu.
Qed.

Lemma wp_update_idle data s :
op_ctx s = None ->
wp (psa_hash_update data) (fun e s' => e <> PSA_SUCCESS /\ op_ctx s' = None) s.
Proof.
intros Hc. unfold psa_hash_update. destruct (_ && _); [by apply wp_hash_fail|].
apply wp_bind. unfold get_ctx. apply wp_gets. rewrite Hc. by apply wp_hash_fail.
Qed.

Lemma wp_finish_idle hash size len s :
op_ctx s = None ->
wp (psa_hash_finish hash size len)
   (fun r s' => (exists e, r = (e, [], 0) /\ e <> PSA_SUCCESS) /\ op_ctx s' = None) s.
Proof.
intros Hc. unfold psa_hash_finish. cbv zeta. destruct (_ || _).
{ apply wp_bind, wp_hash_fail, wp_ret. eauto. }
apply wp_bind. unfold get_ctx. apply wp_gets. rewrite Hc. apply wp_bind, wp_hash_fail, wp_ret. eauto.
Qed.

Lemma step_update T h i data :
heap_ok T h -> wp (run_hash_call (HashUpdate i data)) (step_post T (HashUpdate i data) h) h.
Proof.
intros Hok. apply wp_object_call; [apply keeps_update|]. destruct (T !! i) as [[alg m]|] eqn:Hi.
- destruct (heap_active _ _ _ _ _ Hok Hi) as (p & c & Hp & Hc & Hh).
  apply (wp_hash_update p c alg m); [done|done| |].
  + intros e s Hs He Hno h' Hsame Hu. rewrite Hs. apply step_failed; [done| | |].
    * intros Hcalm Hv. destruct (Hno Hv). by apply object_smooth.
    * by apply (write_none_ok T h).
    * intros. by apply write_object_undisturbed, Hu.
  + intros c' s Hs Hh' _ h' Hsame Hu. rewrite Hs.
    apply step_done with (Some (alg, m ++ input_bytes data)); [simpl; by rewrite Hi| |].
    * by apply (write_same_ok T h h' i p).
    * intros. by apply write_object_undisturbed, Hu.
- destruct (heap_inactive _ _ _ Hok Hi) as [Hp Hc].
  eapply wp_mono; [by apply wp_update_idle|]. intros e s [He Hs] h' Hsame Hu. rewrite Hs.
  apply step_failed; [done|by intros; simpl; rewrite Hi|by apply (write_none_ok T h)|].
  intros. by apply write_object_undisturbed, Hu.
Qed.

Lemma step_finish T h i hash size len :
heap_ok T h ->
wp (run_hash_call (HashFinish i hash size len)) (step_post T (HashFinish i hash size len) h) h.
Proof.
intros Hok. cbn [run_hash_call]. unfold object_finish. apply wp_bind, wp_on_object; [apply keeps_finish|].
change (mkOp _ _ _ _ _) with (at_object h i).
destruct (T !! i) as [[alg m]|] eqn:Hi.
- destruct (heap_active _ _ _ _ _ Hok Hi) as (p & c & Hp & Hc & Hh).
  apply (wp_hash_finish p c alg m); [done|done| |].
  + intros e s Hs He Hno h' Hsame Hu. rewrite Hs. apply wp_ret, step_failed; [done| | |].
    * intros Hcalm [Ha1 Ha2]. simpl. rewrite Hi. simpl.
      destruct (Z.leb_spec (psa_hash_get_size alg) size); [|done]. exfalso. apply Hno; try done.
      by apply object_smooth.
    * by apply (write_none_ok T h).
    * intros. by apply write_object_undisturbed, Hu.
  + intros s Hs Hsz _ h' Hsame Hu. rewrite Hs. apply wp_ret. rewrite take_ge.
    2: { pose proof (ok_case _ _ _ _ Hh) as Hcase%hash_case_size.
         pose proof (digest_length alg m Hcase). unfold zlen in *. lia. }
    apply step_done with None; [|by apply (write_none_ok T h)|].
    * simpl. rewrite Hi. simpl. by rewrite (proj2 (Z.leb_le _ _)).
    * intros. by apply write_object_undisturbed, Hu.
- destruct (heap_inactive _ _ _ Hok Hi) as [Hp Hc].
  eapply wp_mono; [by apply wp_finish_idle|].
  intros r s [(e & -> & He) Hs] h' Hsame Hu. rewrite Hs. apply wp_ret.
  apply step_failed; [done|by intros; simpl; rewrite Hi|by apply (write_none_ok T h)|].
  intros. by apply write_object_undisturbed, Hu.
Qed.

Lemma wp_verify_active p c alg msg reference s :
op_ctx s = Some c -> hash_ok p c alg msg ->
is_null reference && negb (input_length reference =? 0) = false ->
wp (psa_hash_verify reference) (fun e s' => op_ctx s' = None /\
  ((e = PSA_SUCCESS /\ input_bytes reference = digest alg msg) \/
   (e <> PSA_SUCCESS /\ (smooth s -> input_bytes reference <> digest alg msg)))) s.
Proof.
intros Hc Hok Hnull. unfold psa_hash_verify. rewrite Hnull.
pose proof (ok_case _ _ _ _ Hok) as Hsz%hash_case_size. pose proof (size_fits alg) as Hfit.
pose proof (digest_length alg msg Hsz) as Hdl.
apply wp_bind, (wp_hash_finish p c alg msg); [done|done| |].
- intros e s1 Hs1 He Hno. apply wp_ret. split; [done|]. right.
  assert (Hbad : e <> PSA_SUCCESS /\ (smooth s -> input_bytes reference <> digest alg msg)).
  { split; [done|]. intros Hsm. exfalso. by apply Hno. }
  by destruct e.
- intros s1 Hs1 _ _. apply wp_ret. split; [done|]. destruct (Z.eqb_spec (input_length reference)
    (psa_hash_get_size alg)) as [Hl|Hl]; cbn [negb].
  + assert (Hr : zlen (input_bytes reference) = psa_hash_get_size alg).
    { destruct reference as [n|l]; [|done]. simpl in *. apply negb_false_iff, Z.eqb_eq in Hnull. lia. }
    pose proof (compare_digest alg msg (input_bytes reference) Hsz Hr) as Hcmp.
    destruct (Z.eqb_spec (ConstantCompare (take (Z.to_nat (psa_hash_get_size alg)) (digest alg msg))
      (input_bytes reference)) 0) as [H0|H0]; cbn [negb]; [left|right]; split; try done.
    * by apply Hcmp.
    * intros _ Heq. by apply H0, Hcmp.
  + right. split; [done|]. intros _ Heq. apply Hl. destruct reference as [n|l]; simpl in *; [|congruence].
    rewrite <- Heq in Hdl. done.
Qed.

Lemma step_verify T h i reference :
heap_ok T h -> wp (run_hash_call (HashVerify i reference)) (step_post T (HashVerify i reference) h) h.
Proof.
intros Hok. apply wp_object_call; [apply keeps_verify|].
destruct (is_null reference && negb (input_length reference =? 0)) eqn:Hnull.
{ unfold psa_hash_verify. rewrite Hnull. apply wp_ret. intros h' Hsame Hu.
  apply step_failed; [done| | |by intros; apply write_object_undisturbed, Hu].
  - intros _ _. simpl. destruct (T !! i) as [[alg m]|] eqn:Hi; [|done]. simpl.
    destruct (heap_active _ _ _ _ _ Hok Hi) as (p & c & _ & _ & Hh).
    pose proof (ok_case _ _ _ _ Hh) as Hsz%hash_case_size. pose proof (digest_length alg m Hsz) as Hdl.
    rewrite bool_decide_eq_false_2; [done|]. destruct reference; [|done]. simpl. intros Heq.
    by rewrite <- Heq in Hdl.
  - cbn [hash_failed hash_target]. rewrite Hnull. simpl. destruct (T !! i) as [[alg m]|] eqn:Hi.
    + destruct (heap_active _ _ _ _ _ Hok Hi) as (p & c & Hp & Hc & Hh). rewrite Hc.
      by apply (write_same_ok T h h' i p).
    + destruct (heap_inactive _ _ _ Hok Hi) as [_ ->]. by apply (write_none_ok T h). }
destruct (T !! i) as [[alg m]|] eqn:Hi.
- destruct (heap_active _ _ _ _ _ Hok Hi) as (p & c & Hp & Hc & Hh).
  eapply wp_mono; [by apply (wp_verify_active p c alg m)|]. intros e s [Hs Hcase] h' Hsame Hu. rewrite Hs.
  assert (Hok' : heap_ok (delete i T) (write_object i None h')) by (by apply (write_none_ok T h)).
  destruct Hcase as [[-> Heq]|[He Hne]].
  + apply step_done with None; [|done|by intros; apply write_object_undisturbed, Hu].
    simpl. rewrite Hi. simpl. by rewrite bool_decide_eq_true_2.
  + apply step_failed; [done| |simpl; by rewrite Hnull|by intros; apply write_object_undisturbed, Hu].
    intros Hcalm _. simpl. rewrite Hi. simpl. rewrite bool_decide_eq_false_2; [done|].
    apply Hne. by apply object_smooth.
- destruct (heap_inactive _ _ _ Hok Hi) as [Hp Hc]. unfold psa_hash_verify. rewrite Hnull.
  apply wp_bind. eapply wp_mono; [by apply wp_finish_idle|].
  intros r s [(e & -> & He) Hs]. apply wp_ret. intros h' Hsame Hu. rewrite Hs.
  assert (Hst : forall e', e' <> PSA_SUCCESS ->
    step_post T (HashVerify i reference) h (e', []) (write_object i None h')).
  { intros e' He'. apply step_failed; [done|by intros; simpl; rewrite Hi| |].
    - simpl. rewrite Hnull. by apply (write_none_ok T h).
    - by intros; apply write_object_undisturbed, Hu. }
  by destruct e; apply Hst.
Qed.

Lemma step_abort T h i :
heap_ok T h -> wp (run_hash_call (HashAbort i)) (step_post T (HashAbort i) h) h.
Proof.
intros Hok. apply wp_object_call; [unfold psa_hash_abort; keeps_tac|].
apply wp_bind, wp_modify, wp_ret. intros h' Hsame Hu.
apply step_done with None; [done|by apply (write_none_ok T h)|].
by intros; apply write_object_undisturbed, Hu.
Qed.

(** The copy of a context is a context at its new address. *)
Lemma wp_hash_copy p q alg x msg (Q : Z * wc_hash -> opstate O psa_hash_operation_ctx -> Prop) s :
hashes alg p x msg ->
(forall r x' s', hashes alg q x' msg -> (smooth s -> r = 0) -> Q (r, x') s') ->
wp (hash_copy q alg x) Q s.
Proof.
intros Hx HQ. unfold hash_copy.
destruct ((alg =? PSA_ALG_RIPEMD160) || (alg =? PSA_ALG_ASCON_HASH256)) eqn:Hflat.
- apply wp_ret, HQ; [|done]. apply (hash_move_spec alg p q); [|done].
  apply orb_true_iff in Hflat as [?%Z.eqb_eq|?%Z.eqb_eq]; [by left|by right].
- apply wp_bind, wp_pure; [apply pure_wc_call|]. intros r s1 Hr _ _ _. apply wp_ret, HQ.
  + by apply (hash_copy_spec alg p q).
  + intros Hsm. rewrite wc_call_smooth in Hr by done. by injection Hr.
Qed.

Lemma keeps_copy q alg x : keeps_undisturbed (hash_copy q alg x).
Proof. unfold hash_copy. keeps_tac. Qed.

Lemma step_clone T h source target :
heap_ok T h ->
wp (run_hash_call (HashClone source target)) (step_post T (HashClone source target) h) h.
Proof.
intros Hok. cbn [run_hash_call]. unfold no_bytes, psa_hash_clone. apply wp_bind, wp_bind, wp_get.
assert (Hfail : forall e h', e <> PSA_SUCCESS -> same_heap h h' ->
  (heap_undisturbed h -> heap_undisturbed h') ->
  (heap_undisturbed h -> hash_effect T (HashClone source target) = None) ->
  step_post T (HashClone source target) h (e, []) h').
{ intros e h' He Hs Hu Hno. apply step_failed; [done|by intros; apply Hno| |done].
  cbn [hash_failed hash_target]. rewrite partial_alter_self. by apply (heap_ok_same T h). }
assert (Hself : same_heap h h) by done.
destruct (T !! target) as [[a m]|] eqn:Ht.
{ destruct (heap_active _ _ _ _ _ Hok Ht) as (p & c & Hp & _ & _). rewrite Hp. apply wp_ret, wp_ret.
  apply Hfail; [done..|]. intros _. simpl. destruct (T !! source) as [e|]; [|done]. simpl.
  by rewrite bool_decide_eq_false_2 by (by rewrite Ht). }
destruct (heap_inactive _ _ _ Hok Ht) as [Hp _]. rewrite Hp.
destruct (T !! source) as [[alg msg]|] eqn:Hi.
2: { destruct (heap_inactive _ _ _ Hok Hi) as [_ ->]. apply wp_ret, wp_ret. apply Hfail; [done..|].
     intros _. simpl. by rewrite Hi. }
destruct (heap_active _ _ _ _ _ Hok Hi) as (p & c & _ & -> & Hc).
pose proof Hc as [Ha Hcase Hu Habs]. rewrite Hu.
apply wp_bind, wp_on_none; [apply undisturbed_pure; eauto with wpsa|]. apply wp_malloc.
intros ok s1 _ _ _ Hsm1 h1 Hs1 Hu1.
assert (Hcalm : heap_undisturbed h -> ok = true) by (intros [Hsm _]; by apply Hsm1).
destruct ok; cbn [negb].
2: { apply wp_ret, wp_ret. apply Hfail; [done..|]. intros Hh. by specialize (Hcalm Hh). }
rewrite Ha, Hcase. cbn [negb]. apply wp_bind, wp_on_none; [apply keeps_copy|].
apply (wp_hash_copy p (fresh_block h) alg _ msg); [done|]. intros r x s2 Hx Hr h2 Hs2 Hu2.
assert (Hsame : same_heap h h2) by (destruct Hs1, Hs2; split; congruence).
destruct (Z.eqb_spec r 0) as [->|Hr0]; cbn [negb].
- apply wp_bind, wp_modify, wp_ret, wp_ret. destruct Hsame as [Hb Ho].
  apply step_done with (Some (alg, msg)); [| |by intros Hh; apply Hu2, Hu1].
  + simpl. rewrite Hi. simpl. by rewrite bool_decide_eq_true_2.
  + apply (heap_ok_new T h _ target (hash_with_ctx x c)); try done.
    * by split; [..|destruct c as [? [] [] []]|].
    * simpl. by rewrite Hb.
    * simpl. by rewrite Ho.
- apply wp_ret, wp_ret. apply Hfail; [by rewrite wc_error_success|done|auto|].
  intros Hh. destruct Hr0. apply Hr. destruct (Hu1 Hh) as [Hsm _]. exact Hsm.
Qed.

Lemma hash_call_refines T k h :
heap_ok T h -> wp (run_hash_call k) (step_post T k h) h.
Proof.
intros Hok. destruct k; [by apply step_setup|by apply step_update|by apply step_finish|
  by apply step_verify|by apply step_abort|by apply step_clone].
Qed.

Fixpoint run_hash_calls (ks : list hash_call) : M hash_heap (list (psa_status_t * list byte)) :=
match ks with
| [] => mret []
| k :: ks => r ← run_hash_call k; rs ← run_hash_calls ks; mret (r :: rs)
end.

(** A run of the table. *)
Inductive hash_run (calm : Prop) : hash_table -> list hash_call -> list (psa_status_t * list byte) ->
  hash_table -> Prop :=
| hash_run_nil T : hash_run calm T [] [] T
| hash_run_cons T k r T1 ks rs T2 :
  hash_step calm T k r T1 -> hash_run calm T1 ks rs T2 -> hash_run calm T (k :: ks) (r :: rs) T2.

Lemma hash_step_calm (P Q : Prop) T k r T' : (Q -> P) -> hash_step P T k r T' -> hash_step Q T k r T'.
Proof. intros HPQ [H|(H1 & H2 & H3 & H4)]; [by left|right]. split_and!; auto. Qed.

Lemma hash_run_calm (P Q : Prop) T ks rs T' : (Q -> P) -> hash_run P T ks rs T' -> hash_run Q T ks rs T'.
Proof.
intros HPQ. induction 1 as [|T k r T1 ks rs T2 H1 _ IH]; [constructor|].
econstructor; [by eapply hash_step_calm|done].
Qed.

(** C29: several hash operations at once, clones among them. Any sequence of calls
  on any objects over one heap is a run of the table of what each object has
  absorbed: a call changes its own object's entry alone, a clone gives its target
  the entry of its source, and a finish gives the digest of its own object's
  message, whatever was done to the others in between, the source or the clones
  of the object among them. Every object keeps a block of its own, and no block
  is lost. A call fails only if something fails underneath, or for what the
  table or its arguments refuse. *)
Theorem hash_calls_refine T ks h :
heap_ok T h ->
wp (run_hash_calls ks)
  (fun rs h' => exists T', hash_run (heap_undisturbed h) T ks rs T' /\ heap_ok T' h') h.
Proof.
revert T h. induction ks as [|k ks IH]; intros T h Hok; simpl.
{ apply wp_ret. exists T. by split; [constructor|]. }
apply wp_bind. eapply wp_mono; [by apply hash_call_refines|].
intros r h1 (T1 & Hstep & Hok1 & Hu1). apply wp_bind. eapply wp_mono; [by apply (IH T1)|].
intros rs h2 (T2 & Hrun & Hok2). apply wp_ret. exists T2. split; [|done].
econstructor; [done|]. by eapply hash_run_calm.
Qed.
End HashSpec.
