(* ===== verification/Xof.v ===== *)
(** Extendable-output operations: [src/psa_xof.c], whole.

    wolfCrypt absorbs the input of a SHAKE once, so an operation accumulates it
    in a growing buffer until the first output; then it squeezes whole blocks,
    into the caller's buffer where they fit and into a one-block staging buffer
    for the rest. *)

From stdpp Require Import base decidable list.
From Stdlib Require Import ZArith Lia.
From Stdlib Require Import Strings.Byte.
From S2P Require Import Prelude.
From S2P Require Import Values.
From S2P Require Import Engine.
From S2P Require Import WolfCrypt.
From S2P Require Import StoreIface.
From S2P Require Import Library.
From S2P Require Import Operation.

#[local] Open Scope Z_scope.

Definition SHAKE128_BLOCK_SIZE : Z := 168.
Definition SHAKE256_BLOCK_SIZE : Z := 136.

(** * State *)

(** [xof_ibuf] is [None] while the buffer is NULL, and else the bytes written to
    it; [xof_buf] is the staging buffer. *)
Record psa_xof_operation_ctx {W : WolfCryptShake} : Type := mkXof {
  xof_alg : Z;
  xof_shake : wc_Shake;
  xof_squeezing : bool;
  xof_block_size : Z;
  xof_buf : list byte;
  xof_buf_off : Z;
  xof_buf_len : Z;
  xof_ibuf : option (list byte);
  xof_ibuf_len : Z;
  xof_ibuf_cap : Z }.

Section Xof.
Context {C : Config} {E : WolfCryptErr} {O : StoreOps} {W : WolfCryptShake}.

Notation XM := (M (opstate O psa_xof_operation_ctx)).

Definition with_shake (s : wc_Shake) (c : psa_xof_operation_ctx) : psa_xof_operation_ctx :=
mkXof _ (xof_alg c) s (xof_squeezing c) (xof_block_size c) (xof_buf c) (xof_buf_off c)
  (xof_buf_len c) (xof_ibuf c) (xof_ibuf_len c) (xof_ibuf_cap c).
Definition with_staging (buf : list byte) (off len : Z) (c : psa_xof_operation_ctx)
: psa_xof_operation_ctx :=
mkXof _ (xof_alg c) (xof_shake c) (xof_squeezing c) (xof_block_size c) buf off len
  (xof_ibuf c) (xof_ibuf_len c) (xof_ibuf_cap c).
Definition with_ibuf (ibuf : option (list byte)) (len cap : Z) (c : psa_xof_operation_ctx)
: psa_xof_operation_ctx :=
mkXof _ (xof_alg c) (xof_shake c) (xof_squeezing c) (xof_block_size c) (xof_buf c)
  (xof_buf_off c) (xof_buf_len c) ibuf len cap.
Definition with_squeezing (c : psa_xof_operation_ctx) : psa_xof_operation_ctx :=
mkXof _ (xof_alg c) (xof_shake c) true (xof_block_size c) (xof_buf c) 0 0
  (xof_ibuf c) (xof_ibuf_len c) (xof_ibuf_cap c).

(** A build without SHAKE has stubs only. *)
Definition has_shake : bool := WOLFSSL_SHAKE128 || WOLFSSL_SHAKE256.

(** The cases of the switches over the algorithm. *)
Definition xof_case (alg : Z) : bool :=
(WOLFSSL_SHAKE128 && (alg =? PSA_ALG_SHAKE128)) || (WOLFSSL_SHAKE256 && (alg =? PSA_ALG_SHAKE256)).

(** * The input buffer *)

(** The loop [while (new_cap < need_cap)]; it doubles, so 32 rounds are enough. *)
Fixpoint grow_cap (fuel : nat) (new_cap need_cap : Z) : Z :=
match fuel with
| 0%nat => new_cap
| S fuel =>
    if new_cap <? need_cap then
      if UINT32_MAX / 2 <? new_cap then UINT32_MAX
      else grow_cap fuel (new_cap * 2) need_cap
    else new_cap
end.

Definition grow_fuel : nat := 32.

(** The context after a growth, or [None] when the allocation fails. *)
Definition psa_xof_ibuf_grow (c : psa_xof_operation_ctx) (need_cap : Z)
: XM (option psa_xof_operation_ctx) :=
if need_cap <=? xof_ibuf_cap c then mret (Some c)
else
  let new_cap := grow_cap grow_fuel (if xof_ibuf_cap c =? 0 then 256 else xof_ibuf_cap c) need_cap in
  ok ← lib (XMALLOC new_cap);
  if negb ok then mret None
  else
    let newbuf := match xof_ibuf c with
                  | Some l => if 0 <? xof_ibuf_len c then take (Z.to_nat (xof_ibuf_len c)) l else []
                  | None => []
                  end in
    mret (Some (with_ibuf (Some newbuf) (xof_ibuf_len c) new_cap c)).

(** * Operations *)

Definition sizeof_xof_ctx : Z := 1024.

Definition psa_xof_abort : XM psa_status_t :=
if negb has_shake then mret PSA_SUCCESS
else set_ctx None;; mret PSA_SUCCESS.

Definition wolfpsa_xof_fail (status : psa_status_t) : XM psa_status_t :=
psa_xof_abort;; mret status.

Definition psa_xof_setup (alg : Z) : XM psa_status_t :=
if negb has_shake then mret PSA_ERROR_NOT_SUPPORTED
else
  initialized ← lib wolfPSA_CryptoIsInitialized;
  if negb initialized then mret PSA_ERROR_BAD_STATE
  else if negb (PSA_ALG_IS_XOF alg) then mret PSA_ERROR_INVALID_ARGUMENT
  else if (alg =? PSA_ALG_ASCON_XOF128) || (alg =? PSA_ALG_ASCON_CXOF128)
  then mret PSA_ERROR_NOT_SUPPORTED
  else if negb (alg =? PSA_ALG_SHAKE128) && negb (alg =? PSA_ALG_SHAKE256)
  then mret PSA_ERROR_NOT_SUPPORTED
  else
    c ← get_ctx;
    match c with
    | Some _ => mret PSA_ERROR_BAD_STATE
    | None =>
        ok ← lib (XMALLOC sizeof_xof_ctx);
        if negb ok then mret PSA_ERROR_INSUFFICIENT_MEMORY
        else if negb (xof_case alg) then mret PSA_ERROR_NOT_SUPPORTED
        else
          let block_size := if WOLFSSL_SHAKE128 && (alg =? PSA_ALG_SHAKE128)
                            then SHAKE128_BLOCK_SIZE else SHAKE256_BLOCK_SIZE in
          ret ← wc_call; (* wc_InitShake128, wc_InitShake256 *)
          if negb (ret =? 0) then mret (wc_error_to_psa_status ret)
          else
            set_ctx (Some (mkXof _ alg (wc_InitShake alg) false block_size
                             (replicate (Z.to_nat SHAKE128_BLOCK_SIZE) x00) 0 0 None 0 0));;
            mret PSA_SUCCESS
    end.

(** The context itself is never used: every algorithm with a context was refused
  by setup. *)
Definition psa_xof_set_context (context_length : Z) : XM psa_status_t :=
if negb has_shake then mret PSA_ERROR_BAD_STATE
else
  c ← get_ctx;
  match c with
  | None => wolfpsa_xof_fail PSA_ERROR_BAD_STATE
  | Some c =>
      if negb (PSA_ALG_XOF_HAS_CONTEXT (xof_alg c)) then wolfpsa_xof_fail PSA_ERROR_INVALID_ARGUMENT
      else if xof_squeezing c || (0 <? xof_ibuf_len c) then wolfpsa_xof_fail PSA_ERROR_BAD_STATE
      else wolfpsa_xof_fail PSA_ERROR_INVALID_ARGUMENT
  end.

Definition psa_xof_update (data : input) : XM psa_status_t :=
if negb has_shake then mret PSA_ERROR_BAD_STATE
else if is_null data && (0 <? input_length data) then wolfpsa_xof_fail PSA_ERROR_INVALID_ARGUMENT
else
  c ← get_ctx;
  match c with
  | None => wolfpsa_xof_fail PSA_ERROR_BAD_STATE
  | Some c =>
      if xof_squeezing c then wolfpsa_xof_fail PSA_ERROR_BAD_STATE
      else if input_length data =? 0 then mret PSA_SUCCESS
      else if negb (fits_word32 (input_length data)) then wolfpsa_xof_fail PSA_ERROR_INVALID_ARGUMENT
      else if UINT32_MAX - xof_ibuf_len c <? input_length data
      then wolfpsa_xof_fail PSA_ERROR_INVALID_ARGUMENT
      else
        grown ← psa_xof_ibuf_grow c (xof_ibuf_len c + input_length data);
        match grown with
        | None => wolfpsa_xof_fail PSA_ERROR_INSUFFICIENT_MEMORY
        | Some c =>
            set_ctx (Some (with_ibuf (Some (default [] (xof_ibuf c) ++ input_bytes data))
                             (xof_ibuf_len c + input_length data) (xof_ibuf_cap c) c));;
            mret PSA_SUCCESS
        end
  end.

(** ** Output *)

(** The transition to squeezing. *)
Definition xof_absorb (c : psa_xof_operation_ctx) : XM (psa_status_t * psa_xof_operation_ctx) :=
if xof_squeezing c then mret (PSA_SUCCESS, c)
else
  let absorb_data := take (Z.to_nat (to_u32 (xof_ibuf_len c))) (default [] (xof_ibuf c)) in
  if negb (xof_case (xof_alg c)) then mret (PSA_ERROR_NOT_SUPPORTED, c)
  else
    ret ← wc_call; (* wc_Shake128_Absorb, wc_Shake256_Absorb *)
    if negb (ret =? 0) then mret (wc_error_to_psa_status ret, c)
    else
      mret (PSA_SUCCESS, with_squeezing (with_ibuf None 0 0
                           (with_shake (wc_Shake_Absorb (xof_alg c) (xof_shake c) absorb_data) c))).

(** [SqueezeBlocks] on the context: status, the blocks and the new context. *)
Definition xof_squeeze (c : psa_xof_operation_ctx) (n_blocks : Z)
: XM (psa_status_t * list byte * psa_xof_operation_ctx) :=
if negb (xof_case (xof_alg c)) then mret (PSA_ERROR_NOT_SUPPORTED, [], c)
else
  ret ← wc_call; (* wc_Shake128_SqueezeBlocks, wc_Shake256_SqueezeBlocks *)
  if negb (ret =? 0) then mret (wc_error_to_psa_status ret, [], c)
  else
    let '(blocks, s) := wc_Shake_SqueezeBlocks (xof_alg c) (xof_shake c) (to_u32 n_blocks) in
    mret (PSA_SUCCESS, blocks, with_shake s c).

(** The inner loop: whole blocks for the caller; a result is the status, the
  bytes written, the context and the length that remains. *)
Fixpoint xof_direct (fuel : nat) (c : psa_xof_operation_ctx) (output_length : Z) (output : list byte)
: XM (psa_status_t * list byte * psa_xof_operation_ctx * Z) :=
match fuel with
| 0%nat => mret (PSA_SUCCESS, output, c, output_length)
| S fuel =>
    if xof_block_size c <=? output_length then
      let max_blocks := UINT32_MAX / xof_block_size c in
      let n_blocks := output_length / xof_block_size c in
      let n_blocks := if max_blocks <? n_blocks then max_blocks else n_blocks in
      '(status, blocks, c) ← xof_squeeze c n_blocks;
      match status with
      | PSA_SUCCESS =>
          xof_direct fuel c (output_length - n_blocks * xof_block_size c) (output ++ blocks)
      | e => mret (e, output, c, output_length)
      end
    else mret (PSA_SUCCESS, output, c, output_length)
end.

(** Every round but the last squeezes [max_blocks] blocks, which is more than
  [UINT32_MAX / 2] bytes. *)
Definition direct_fuel (output_length : Z) : nat :=
S (S (Z.to_nat (output_length / (UINT32_MAX / 2)))).

(** The outer loop: drain the staging buffer, squeeze whole blocks, refill the
  staging buffer with the tail. *)
Fixpoint xof_serve (fuel : nat) (c : psa_xof_operation_ctx) (output_length : Z) (output : list byte)
: XM (psa_status_t * list byte * psa_xof_operation_ctx) :=
match fuel with
| 0%nat => mret (PSA_SUCCESS, output, c)
| S fuel =>
    if 0 <? output_length then
      if xof_buf_off c <? xof_buf_len c then
        let avail := xof_buf_len c - xof_buf_off c in
        let n := if output_length <? avail then output_length else avail in
        xof_serve fuel (with_staging (xof_buf c) (xof_buf_off c + n) (xof_buf_len c) c)
          (output_length - n) (output ++ slice (xof_buf c) (xof_buf_off c) n)
      else
        '(status, output, c, output_length) ←
          xof_direct (direct_fuel output_length) (with_staging (xof_buf c) 0 0 c)
            output_length output;
        match status with
        | PSA_SUCCESS =>
            if output_length =? 0 then mret (PSA_SUCCESS, output, c)
            else
              '(status, block, c) ← xof_squeeze c 1;
              match status with
              | PSA_SUCCESS =>
                  xof_serve fuel (with_staging block 0 (xof_block_size c) c) output_length output
              | e => mret (e, output, c)
              end
        | e => mret (e, output, c)
        end
    else mret (PSA_SUCCESS, output, c)
end.

(** Three rounds: drain what is left, squeeze and refill, drain again. *)
Definition serve_fuel : nat := 4.

(** [output] says whether the pointer is not NULL; the result is the status and
  the bytes written. *)
Definition psa_xof_output (output : bool) (output_length : Z) : XM (psa_status_t * list byte) :=
let fail status written := status ← wolfpsa_xof_fail status; mret (status, written) in
if negb has_shake then mret (PSA_ERROR_BAD_STATE, [])
else if negb output && (0 <? output_length) then fail PSA_ERROR_INVALID_ARGUMENT []
else
  c ← get_ctx;
  match c with
  | None => fail PSA_ERROR_BAD_STATE []
  | Some c =>
      if output_length =? 0 then mret (PSA_SUCCESS, [])
      else
        '(status, c) ← xof_absorb c;
        match status with
        | PSA_SUCCESS =>
            '(status, written, c) ← xof_serve serve_fuel c output_length [];
            match status with
            | PSA_SUCCESS => set_ctx (Some c);; mret (PSA_SUCCESS, written)
            | e => fail e written
            end
        | e => fail e []
        end
  end.
End Xof.
