(* ===== verification/XofSpec.v ===== *)
(** What the operations of [Xof] compute: the outputs of an operation are
    consecutive parts of the SHAKE stream of its input, however the input and
    the output are cut; the input buffer never overflows; the loops end. *)

From stdpp Require Import base decidable list.
From Stdlib Require Import ZArith Lia.
From Stdlib Require Import Strings.Byte.
From S2P Require Import Prelude.
From S2P Require Import Values.
From S2P Require Import Engine.
From S2P Require Import WolfCrypt.
From S2P Require Import StoreIface.
From S2P Require Import Library.
From S2P Require Import KeyStoreRules.
From S2P Require Import Operation.
From S2P Require Import Xof.

#[local] Open Scope Z_scope.

(** The rate of the sponge in bytes. *)
Definition xof_rate (alg : Z) : Z :=
  if alg =? PSA_ALG_SHAKE128 then SHAKE128_BLOCK_SIZE else SHAKE256_BLOCK_SIZE.

Lemma xof_rate_bounds alg : 136 <= xof_rate alg <= 168.
Proof. unfold xof_rate, SHAKE128_BLOCK_SIZE, SHAKE256_BLOCK_SIZE. destruct (alg =? _); lia. Qed.

(** * Growing the input buffer *)

Lemma grow_cap_bounds fuel cap need :
  0 < cap <= UINT32_MAX -> need <= UINT32_MAX -> need <= cap * 2 ^ Z.of_nat fuel ->
  need <= grow_cap fuel cap need <= UINT32_MAX.
Proof.
  revert cap. induction fuel as [|fuel IH]; intros cap Hcap Hneed Hfuel.
  { simpl in *. lia. }
  rewrite Nat2Z.inj_succ, Z.pow_succ_r in Hfuel by lia. cbn [grow_cap].
  destruct (Z.ltb_spec cap need); [|lia].
  destruct (Z.ltb_spec (UINT32_MAX / 2) cap) as [|Hhalf]; [lia|].
  apply IH; [|done|lia]. pose proof (Z.mul_div_le UINT32_MAX 2 eq_refl). lia.
Qed.

Lemma grow_cap_stable fuel fuel' cap need :
  0 < cap -> need <= cap * 2 ^ Z.of_nat fuel -> (fuel <= fuel')%nat ->
  grow_cap fuel' cap need = grow_cap fuel cap need.
Proof.
  revert fuel' cap. induction fuel as [|fuel IH]; intros fuel' cap Hcap Hfuel Hle.
  { simpl in Hfuel. destruct fuel' as [|fuel']; [done|]. cbn [grow_cap].
    by destruct (Z.ltb_spec cap need); [lia|]. }
  destruct fuel' as [|fuel']; [lia|].
  rewrite Nat2Z.inj_succ, Z.pow_succ_r in Hfuel by lia. cbn [grow_cap].
  destruct (cap <? need); [|done]. destruct (UINT32_MAX / 2 <? cap); [done|].
  apply IH; lia.
Qed.

(** The capacity that the loop starts from. *)
Definition grow_start (cap : Z) : Z := if cap =? 0 then 256 else cap.

Lemma grow_start_bounds cap : 0 <= cap <= UINT32_MAX -> 0 < grow_start cap <= UINT32_MAX.
Proof. unfold grow_start, UINT32_MAX. destruct (Z.eqb_spec cap 0); lia. Qed.

(** C40: from every capacity the growth loop ends within its 32 rounds, with a
    capacity that holds what is needed and that a [word32] can hold; the
    doubling never wraps. *)
Theorem xof_growth_terminates cap need fuel :
  0 <= cap <= UINT32_MAX -> need <= UINT32_MAX -> (grow_fuel <= fuel)%nat ->
  grow_cap fuel (grow_start cap) need = grow_cap grow_fuel (grow_start cap) need /\
  need <= grow_cap grow_fuel (grow_start cap) need <= UINT32_MAX.
Proof.
  intros Hcap Hneed Hfuel. pose proof (grow_start_bounds cap Hcap) as Hs.
  assert (Henough : need <= grow_start cap * 2 ^ Z.of_nat grow_fuel).
  { change (2 ^ Z.of_nat grow_fuel) with (UINT32_MAX + 1). unfold UINT32_MAX in *. nia. }
  split; [apply grow_cap_stable; (done || lia)|by apply grow_cap_bounds].
Qed.

Section XofSpec.
Context {C : Config} {E : WolfCryptErr} {EO : WolfCryptErrOk E} {O : StoreOps}.
Context {W : WolfCryptShake} {WO : WolfCryptShakeOk W xof_rate}.

Implicit Types c : psa_xof_operation_ctx.
Implicit Types s : opstate O psa_xof_operation_ctx.
Notation XM := (M (opstate O psa_xof_operation_ctx)).

(** * Squeezing *)

(** The bytes of the output from [pos] on. *)
Definition xof_part (alg : Z) (msg : list byte) (pos n : Z) : list byte :=
slice (shake alg msg (pos + n)) pos n.

Lemma xof_part_app alg msg pos a b :
0 <= pos -> 0 <= a -> 0 <= b ->
xof_part alg msg pos (a + b) = xof_part alg msg pos a ++ xof_part alg msg (pos + a) b.
Proof. intros. apply streaming_app; [apply shake_streaming|done..]. Qed.

Lemma xof_part_length alg msg pos n : 0 <= pos -> 0 <= n -> zlen (xof_part alg msg pos n) = n.
Proof.
intros. apply zlen_slice; [done|done|]. by rewrite streaming_length by (apply shake_streaming || lia).
Qed.

Lemma xof_part_0 alg msg pos : xof_part alg msg pos 0 = [].
Proof. done. Qed.

(** The sponge has given [k] blocks. *)
Record sponge_ok c (alg : Z) (msg : list byte) (k : Z) : Prop := {
sp_alg : xof_alg c = alg;
sp_case : xof_case alg = true;
sp_block : xof_block_size c = xof_rate alg;
sp_squeezing : xof_squeezing c = true;
sp_count : 0 <= k;
sp_state : squeezed alg (xof_shake c) msg k }.

(** The bytes that were squeezed and not yet given are in the staging buffer. *)
Definition xof_stream c (alg : Z) (msg : list byte) (pos : Z) : Prop :=
exists k, sponge_ok c alg msg k /\ 0 <= pos /\
  0 <= xof_buf_off c <= xof_buf_len c /\ xof_buf_len c <= zlen (xof_buf c) /\
  pos + (xof_buf_len c - xof_buf_off c) = xof_rate alg * k /\
  slice (xof_buf c) (xof_buf_off c) (xof_buf_len c - xof_buf_off c)
    = xof_part alg msg pos (xof_buf_len c - xof_buf_off c).

(** A call of [SqueezeBlocks] gives the next blocks. *)
Lemma wp_xof_squeeze c alg msg k n
  (Q : psa_status_t * list byte * psa_xof_operation_ctx -> opstate O psa_xof_operation_ctx -> Prop) s :
sponge_ok c alg msg k -> 0 <= n <= UINT32_MAX ->
(forall e s', same_ctx s s' -> e <> PSA_SUCCESS -> (smooth s -> False) -> Q (e, [], c) s') ->
(forall sh s', same_ctx s s' -> (smooth s -> smooth s') ->
   sponge_ok (with_shake sh c) alg msg (k + n) ->
   Q (PSA_SUCCESS, xof_part alg msg (xof_rate alg * k) (xof_rate alg * n), with_shake sh c) s') ->
wp (xof_squeeze c n) Q s.
Proof.
intros [Ha Hcase Hb Hsq Hk Hst] Hn Hbad Hgood. unfold xof_squeeze. rewrite Ha, Hcase. cbn [negb].
apply (wp_checked_call (fun e => mret (e, [], c))).
{ intros e s1 Hs1 He Hno. by apply wp_ret, Hbad. }
intros s1 Hs1 Hsm. rewrite to_u32_small by done.
pose proof (shake_squeeze_spec alg (xof_shake c) msg k n Hst Hk ltac:(lia)) as Hspec.
destruct (wc_Shake_SqueezeBlocks alg (xof_shake c) n) as [blocks sh]. destruct Hspec as [Hst' Hout].
pose proof (xof_rate_bounds alg). rewrite Z.mul_add_distr_l in Hout.
apply streaming_extend in Hout; [|apply shake_streaming|nia|nia].
apply wp_ret. rewrite Hout. apply Hgood; [done|done|]. split; try done. lia.
Qed.

(** ** Whole blocks *)

(** One round: at least a block, at most what a [word32] counts, and unless less
  than a block remains more than [UINT32_MAX / 2] bytes. *)
Lemma direct_round len rate :
136 <= rate <= 168 -> rate <= len ->
let n := if UINT32_MAX / rate <? len / rate then UINT32_MAX / rate else len / rate in
1 <= n <= UINT32_MAX /\ rate * n <= len /\
(if len - rate * n <? rate then 1 else (len - rate * n) / (UINT32_MAX / 2) + 2)
  <= len / (UINT32_MAX / 2) + 1.
Proof.
intros Hr Hlen. cbv zeta.
pose proof (Z.mul_div_le UINT32_MAX rate ltac:(lia)) as H1.
pose proof (Z.mul_succ_div_gt UINT32_MAX rate ltac:(lia)) as H2.
pose proof (Z.mul_div_le len rate ltac:(lia)) as H3.
pose proof (Z.mul_succ_div_gt len rate ltac:(lia)) as H4.
pose proof (Z.div_pos len (UINT32_MAX / 2) ltac:(lia) eq_refl) as H5.
assert (1 <= len / rate) by (apply Z.div_le_lower_bound; lia).
assert (1 <= UINT32_MAX / rate) by (apply Z.div_le_lower_bound; unfold UINT32_MAX; lia).
assert (UINT32_MAX / rate <= UINT32_MAX) by (apply Z.div_le_upper_bound; unfold UINT32_MAX; lia).
destruct (Z.ltb_spec (UINT32_MAX / rate) (len / rate)) as [Hlt|Hge].
- split_and!; [lia|lia|nia|].
  set (rest := len - rate * (UINT32_MAX / rate)).
  assert (Hrest : rest <= len + (-1) * (UINT32_MAX / 2)).
  { unfold rest. pose proof (Z.mul_div_le UINT32_MAX 2 eq_refl).
    assert (rate < UINT32_MAX / 2) by (change (UINT32_MAX / 2) with 2147483647; lia). lia. }
  apply (Z.div_le_mono _ _ (UINT32_MAX / 2) eq_refl) in Hrest.
  rewrite Z.div_add in Hrest by done. destruct (rest <? rate); lia.
- split_and!; [lia|lia|lia|]. destruct (Z.ltb_spec (len - rate * (len / rate)) rate); lia.
Qed.

Lemma wp_xof_direct alg msg fuel c k len out
  (Q : psa_status_t * list byte * psa_xof_operation_ctx * Z ->
       opstate O psa_xof_operation_ctx -> Prop) s :
sponge_ok c alg msg k -> 0 <= len ->
(if len <? xof_rate alg then 1 else len / (UINT32_MAX / 2) + 2) <= Z.of_nat fuel ->
(forall e out' c' len' s', same_ctx s s' -> e <> PSA_SUCCESS -> (smooth s -> False) ->
   Q (e, out', c', len') s') ->
(forall m sh s', same_ctx s s' -> (smooth s -> smooth s') -> 0 <= m ->
   0 <= len - xof_rate alg * m < xof_rate alg ->
   sponge_ok (with_shake sh c) alg msg (k + m) ->
   Q (PSA_SUCCESS, out ++ xof_part alg msg (xof_rate alg * k) (xof_rate alg * m),
      with_shake sh c, len - xof_rate alg * m) s') ->
wp (xof_direct fuel c len out) Q s.
Proof.
pose proof (xof_rate_bounds alg) as Hr.
revert c k len out s. induction fuel as [|fuel IH]; intros c k len out s Hok Hlen Hfuel Hbad Hgood.
{ exfalso. pose proof (Z.div_pos len (UINT32_MAX / 2) Hlen eq_refl). destruct (len <? _); lia. }
cbn [xof_direct]. rewrite (sp_block _ _ _ _ Hok).
destruct (Z.ltb_spec len (xof_rate alg)) as [Hlt|Hge].
{ destruct (Z.leb_spec (xof_rate alg) len); [lia|]. apply wp_ret.
  specialize (Hgood 0 (xof_shake c) s). rewrite Z.mul_0_r, xof_part_0, app_nil_r, Z.sub_0_r, Z.add_0_r in Hgood.
  destruct c. apply Hgood; done || lia. }
destruct (Z.leb_spec (xof_rate alg) len); [|lia]. cbv zeta.
set (n := if UINT32_MAX / xof_rate alg <? len / xof_rate alg then UINT32_MAX / xof_rate alg
          else len / xof_rate alg).
destruct (direct_round len (xof_rate alg) Hr Hge) as (Hn1 & Hn2 & Hn3).
fold n in Hn1, Hn2, Hn3. clearbody n.
assert (Hn4 : (if len - xof_rate alg * n <? xof_rate alg then 1
               else (len - xof_rate alg * n) / (UINT32_MAX / 2) + 2) <= Z.of_nat fuel) by lia.
apply wp_bind, (wp_xof_squeeze c alg msg k n); [done|lia| |].
- intros e s1 Hs1 He Hno. destruct e; [done|by apply wp_ret, Hbad ..].
- intros sh s1 Hs1 Hsm Hok1. rewrite (sp_block _ _ _ _ Hok1), (Z.mul_comm n).
  apply (IH (with_shake sh c) (k + n)); [done|lia|done| |].
  + intros e out' c' len' s2 Hs2 He Hno. apply Hbad; [by eapply same_ctx_trans|done|auto].
  + intros m sh' s2 Hs2 Hsm2 Hm Hrest Hok2.
    replace (len - xof_rate alg * n - xof_rate alg * m) with (len - xof_rate alg * (n + m)) by lia.
    rewrite <- app_assoc.
    replace (xof_rate alg * (k + n)) with (xof_rate alg * k + xof_rate alg * n) by lia.
    rewrite <- xof_part_app by (pose proof (sp_count _ _ _ _ Hok); nia).
    rewrite <- Z.mul_add_distr_l.
    apply (Hgood (n + m) sh'); [by eapply same_ctx_trans|auto|lia|lia|]. by rewrite Z.add_assoc.
Qed.

(** ** Serving *)

(** The staging buffer alone changes. *)
Lemma sponge_staging c alg msg k buf off len :
sponge_ok c alg msg k -> sponge_ok (with_staging buf off len c) alg msg k.
Proof. intros []. by split. Qed.

(** [serves fuel c pos len]: that many rounds give [len] bytes. *)
Definition serves (fuel : nat) c (alg : Z) (msg : list byte) (pos len : Z) : Prop :=
forall out (Q : psa_status_t * list byte * psa_xof_operation_ctx ->
                opstate O psa_xof_operation_ctx -> Prop) s,
  (forall e out' c' s', same_ctx s s' -> e <> PSA_SUCCESS -> (smooth s -> False) ->
     Q (e, out', c') s') ->
  (forall c' s', same_ctx s s' -> (smooth s -> smooth s') -> xof_stream c' alg msg (pos + len) ->
     Q (PSA_SUCCESS, out ++ xof_part alg msg pos len, c') s') ->
  wp (xof_serve fuel c len out) Q s.

Lemma serves_nothing fuel c alg msg pos :
xof_stream c alg msg pos -> serves (S fuel) c alg msg pos 0.
Proof.
intros Hc out Q s _ Hgood. apply wp_ret. specialize (Hgood c s).
rewrite xof_part_0, app_nil_r, Z.add_0_r in Hgood. by apply Hgood.
Qed.

(** What is staged is given first. *)
Lemma serves_staged fuel c alg msg pos len :
xof_stream c alg msg pos -> xof_buf_off c < xof_buf_len c -> 0 < len ->
(forall c', xof_stream c' alg msg (pos + Z.min len (xof_buf_len c - xof_buf_off c)) ->
   (xof_buf_off c' = xof_buf_len c' \/ len <= xof_buf_len c - xof_buf_off c) ->
   serves fuel c' alg msg (pos + Z.min len (xof_buf_len c - xof_buf_off c))
     (len - Z.min len (xof_buf_len c - xof_buf_off c))) ->
serves (S fuel) c alg msg pos len.
Proof.
intros (k & Hsp & Hpos & Hoff & Hbuf & Hcount & Hstage) Havail Hlen Hrec out Q s Hbad Hgood.
cbn [xof_serve]. destruct (Z.ltb_spec 0 len); [|lia].
destruct (Z.ltb_spec (xof_buf_off c) (xof_buf_len c)); [|lia]. cbv zeta.
set (avail := xof_buf_len c - xof_buf_off c) in *.
replace (if len <? avail then len else avail) with (Z.min len avail)
  by (destruct (Z.ltb_spec len avail); lia).
set (n := Z.min len avail) in *. assert (Hn : 0 < n <= avail) by lia.
apply Hrec.
- exists k. split; [by apply sponge_staging|]. simpl. split_and!; try lia.
  replace (xof_buf_len c - (xof_buf_off c + n)) with (avail - n) by lia.
  rewrite <- (slice_slice (xof_buf c) (xof_buf_off c) avail n (avail - n)) by lia.
  rewrite Hstage. unfold xof_part. replace (pos + n + (avail - n)) with (pos + avail) by lia.
  apply slice_slice; lia.
- simpl. lia.
- intros e out' c' s' Hs' He Hno. by apply Hbad.
- intros c' s' Hs' Hsm Hc'.
  replace (pos + n + (len - n)) with (pos + len) in Hc' by lia.
  replace (slice (xof_buf c) (xof_buf_off c) n) with (xof_part alg msg pos n).
  + rewrite <- app_assoc, <- xof_part_app by lia. replace (n + (len - n)) with len by lia.
    by apply Hgood.
  + transitivity (slice (slice (xof_buf c) (xof_buf_off c) avail) 0 n).
    * rewrite Hstage. unfold xof_part. rewrite slice_slice, Z.add_0_r by lia.
      symmetry. apply streaming_slice; [apply shake_streaming|lia..].
    * rewrite slice_slice by lia. by rewrite Z.add_0_r.
Qed.

Lemma serves_within fuel c alg msg pos len :
xof_stream c alg msg pos -> 0 <= len <= xof_buf_len c - xof_buf_off c ->
serves (S (S fuel)) c alg msg pos len.
Proof.
intros Hc Hlen. destruct (Z.eq_dec len 0) as [->|Hne]; [by apply serves_nothing|].
apply serves_staged; [done|lia|lia|]. intros c' Hc' _.
rewrite Z.min_l in * by lia. rewrite Z.sub_diag. by apply serves_nothing.
Qed.

(** With nothing staged: whole blocks, one staged block, and the rest from it. *)
Lemma serves_empty fuel c alg msg pos len :
xof_stream c alg msg pos -> xof_buf_off c = xof_buf_len c -> 0 <= len ->
serves (S (S (S fuel))) c alg msg pos len.
Proof.
intros Hc Hempty Hlen. destruct (Z.eq_dec len 0) as [->|Hne]; [by apply serves_nothing|].
destruct Hc as (k & Hsp & Hpos & Hoff & Hbuf & Hcount & _). pose proof (xof_rate_bounds alg) as Hr.
assert (Hk : pos = xof_rate alg * k) by lia. clear Hcount.
intros out Q s Hbad Hgood. cbn [xof_serve]. destruct (Z.ltb_spec 0 len); [|lia].
destruct (Z.ltb_spec (xof_buf_off c) (xof_buf_len c)); [lia|].
apply wp_bind, (wp_xof_direct alg msg _ _ k).
- by apply sponge_staging.
- done.
- unfold direct_fuel. pose proof (Z.div_pos len (UINT32_MAX / 2) Hlen eq_refl).
  destruct (len <? xof_rate alg); lia.
- intros e out' c' len' s1 Hs1 He Hno. destruct e; [done|by apply wp_ret, Hbad ..].
- intros m sh s1 Hs1 Hsm1 Hm Hrest Hsp1.
  pose proof (sp_count _ _ _ _ Hsp) as Hk0. rewrite <- Hk.
  destruct (Z.eqb_spec (len - xof_rate alg * m) 0) as [Hrem|Hrem].
  + assert (Hlm : len = xof_rate alg * m) by lia. rewrite <- Hlm. apply wp_ret, Hgood; [done|done|].
    exists (k + m). split; [done|]. simpl. split_and!; (nia || apply zlen_nonneg || done).
  + apply wp_bind, (wp_xof_squeeze _ alg msg (k + m) 1); [done|unfold UINT32_MAX; lia| |].
    * intros e s2 Hs2 He Hno. destruct e; [done|apply wp_ret, Hbad; [by eapply same_ctx_trans|done|auto] ..].
    * intros sh2 s2 Hs2 Hsm2 Hsp2. rewrite Z.mul_1_r in *.
      set (block := xof_part alg msg (xof_rate alg * (k + m)) (xof_rate alg)).
      assert (Hblock : zlen block = xof_rate alg) by (apply xof_part_length; nia).
      replace (xof_rate alg * (k + m)) with (pos + xof_rate alg * m) in * by lia.
      apply (serves_within fuel (with_staging block 0 (xof_block_size (with_shake sh2 (with_shake sh
               (with_staging (xof_buf c) 0 0 c)))) (with_shake sh2 (with_shake sh
               (with_staging (xof_buf c) 0 0 c)))) alg msg (pos + xof_rate alg * m)).
      -- exists (k + m + 1). split; [by apply sponge_staging|]. simpl.
         rewrite (sp_block _ _ _ _ Hsp), Z.sub_0_r, slice_0, Hblock.
         split_and!; try nia. rewrite take_ge by (unfold zlen in Hblock; lia). unfold block. f_equal. lia.
      -- simpl. rewrite (sp_block _ _ _ _ Hsp). lia.
      -- intros e out' c' s3 Hs3 He Hno. apply Hbad; [by do 2 (eapply same_ctx_trans; [done|])|done|auto].
      -- intros c' s3 Hs3 Hsm3 Hc'.
         replace (pos + xof_rate alg * m + (len - xof_rate alg * m)) with (pos + len) in Hc' by lia.
         rewrite <- app_assoc, <- xof_part_app by nia.
         replace (xof_rate alg * m + (len - xof_rate alg * m)) with len by lia.
         apply Hgood; [by do 2 (eapply same_ctx_trans; [done|])|auto|done].
Qed.

(** [serve_fuel] rounds serve every request. *)
Lemma serves_all c alg msg pos len :
xof_stream c alg msg pos -> 0 <= len -> serves serve_fuel c alg msg pos len.
Proof.
intros Hc Hlen. pose proof Hc as (k & _ & _ & Hoff & _).
destruct (Z.eq_dec (xof_buf_off c) (xof_buf_len c)) as [Hempty|Hne].
{ by apply (serves_empty 1). }
destruct (Z.eq_dec len 0) as [->|Hl]; [by apply serves_nothing|].
apply serves_staged; [done|lia|lia|]. intros c' Hc' Hcase.
destruct (Z.le_gt_cases len (xof_buf_len c - xof_buf_off c)).
- rewrite Z.min_l, Z.sub_diag in * by lia. by apply serves_nothing.
- destruct Hcase as [He|]; [|lia]. apply (serves_empty 0); [done|done|lia].
Qed.

(** * The operation *)

(** Everything so far is in the input buffer, which holds it. *)
Record xof_absorbing c (alg : Z) (msg : list byte) : Prop := {
xa_alg : xof_alg c = alg;
xa_case : xof_case alg = true;
xa_block : xof_block_size c = xof_rate alg;
xa_squeezing : xof_squeezing c = false;
xa_shake : xof_shake c = wc_InitShake alg;
xa_ibuf : default [] (xof_ibuf c) = msg;
xa_len : xof_ibuf_len c = zlen msg;
xa_cap : xof_ibuf_len c <= xof_ibuf_cap c <= UINT32_MAX }.

(** The operation as its callers see it. *)
Inductive xof_view : Type :=
| XIdle
| XAbsorbing (alg : Z) (msg : list byte)
| XSqueezing (alg : Z) (msg : list byte) (pos : Z).

Definition xof_is (v : xof_view) s : Prop :=
match v, op_ctx s with
| XIdle, None => True
| XAbsorbing alg msg, Some c => xof_absorbing c alg msg
| XSqueezing alg msg pos, Some c => xof_stream c alg msg pos
| _, _ => False
end.

Lemma case_has_shake alg : xof_case alg = true -> has_shake = true.
Proof. unfold xof_case, has_shake. destruct WOLFSSL_SHAKE128, WOLFSSL_SHAKE256; done. Qed.

Lemma wp_xof_fail e (Q : psa_status_t -> opstate O psa_xof_operation_ctx -> Prop) s :
has_shake = true -> Q e (with_ctx None s) -> wp (wolfpsa_xof_fail e) Q s.
Proof. intros Hs HQ. unfold wolfpsa_xof_fail, psa_xof_abort. by rewrite Hs. Qed.

(** ** Setup *)

Definition xof_feasible (alg : Z) s : Prop :=
xof_case alg = true /\ smooth s /\ idle (op_lib s) /\ g_psa_crypto_initialized (op_lib s) = true.

Lemma xof_case_alg alg :
xof_case alg = true ->
PSA_ALG_IS_XOF alg = true /\ (alg =? PSA_ALG_ASCON_XOF128) || (alg =? PSA_ALG_ASCON_CXOF128) = false /\
negb (alg =? PSA_ALG_SHAKE128) && negb (alg =? PSA_ALG_SHAKE256) = false.
Proof.
unfold xof_case. intros H.
assert (alg = PSA_ALG_SHAKE128 \/ alg = PSA_ALG_SHAKE256) as [-> | ->] by lia; done.
Qed.

Lemma xof_block_rate alg :
xof_case alg = true ->
(if WOLFSSL_SHAKE128 && (alg =? PSA_ALG_SHAKE128) then SHAKE128_BLOCK_SIZE else SHAKE256_BLOCK_SIZE)
  = xof_rate alg.
Proof.
unfold xof_case, xof_rate. destruct (Z.eqb_spec alg PSA_ALG_SHAKE128) as [->|].
- destruct WOLFSSL_SHAKE128; [done|]. simpl. by rewrite andb_false_r.
- by rewrite andb_false_r.
Qed.

Lemma wp_xof_setup alg (Q : psa_status_t -> opstate O psa_xof_operation_ctx -> Prop) s :
(forall e s', same_ctx s s' -> e <> PSA_SUCCESS ->
   (op_ctx s = None -> xof_feasible alg s -> False) -> Q e s') ->
(forall s', op_ctx s = None -> xof_is (XAbsorbing alg []) s' -> (xof_feasible alg s -> smooth s') ->
   Q PSA_SUCCESS s') ->
wp (psa_xof_setup alg) Q s.
Proof.
intros Hbad Hgood. unfold psa_xof_setup.
destruct has_shake eqn:Hshake; cbn [negb].
2: { apply wp_ret, Hbad; [done|done|]. intros _ [Hcase _]. apply case_has_shake in Hcase. congruence. }
apply wp_bind, wp_lib, wp_is_initialized. intros b l Hq _ _ _ Hb.
assert (Hsm : smooth s -> smooth (with_lib l s)) by (intros [? ?]; split; [done|by apply Hq]).
destruct b; cbn [negb].
2: { apply wp_ret, Hbad; [done|done|]. intros _ (_ & _ & Hi & Hini). rewrite <- Hb in Hini by done. done. }
destruct (PSA_ALG_IS_XOF alg) eqn:Hx; cbn [negb].
2: { apply wp_ret, Hbad; [done|done|]. intros _ [Hcase _]. apply xof_case_alg in Hcase as [? _]. congruence. }
destruct ((alg =? PSA_ALG_ASCON_XOF128) || (alg =? PSA_ALG_ASCON_CXOF128)) eqn:Ha.
{ apply wp_ret, Hbad; [done|done|]. intros _ [Hcase _]. apply xof_case_alg in Hcase as (_ & ? & _). congruence. }
destruct (negb (alg =? PSA_ALG_SHAKE128) && negb (alg =? PSA_ALG_SHAKE256)) eqn:Hk.
{ apply wp_ret, Hbad; [done|done|]. intros _ [Hcase _]. apply xof_case_alg in Hcase as (_ & _ & ?). congruence. }
apply wp_bind. unfold get_ctx. apply wp_gets. simpl op_ctx.
destruct (op_ctx s) as [c|] eqn:Hc; [by apply wp_ret, Hbad|].
apply wp_bind, wp_malloc. intros ok s1 Hs1 _ _ Hok.
assert (Hc1 : same_ctx s s1) by (unfold same_ctx; by rewrite Hs1).
destruct ok; cbn [negb].
2: { apply wp_ret, Hbad; [done|done|]. intros _ (_ & Hs & _). by destruct (Hok (Hsm Hs)). }
destruct (xof_case alg) eqn:Hcase; cbn [negb].
2: { apply wp_ret, Hbad; [done|done|]. intros _ [? _]. congruence. }
rewrite xof_block_rate by done. cbv zeta. apply (wp_checked_call (fun e => mret e)).
- intros e s2 Hs2 He Hno. apply wp_ret, Hbad; [by eapply same_ctx_trans|done|].
  intros _ (_ & ? & _). by apply Hno, Hok, Hsm.
- intros s2 Hs2 Hsm2. apply wp_bind, wp_modify, wp_ret, Hgood; [done| |].
  + by split.
  + intros (_ & ? & _). by apply Hsm2, Hok, Hsm.
Qed.

(** ** Update *)

Lemma wp_xof_grow c alg msg need
  (Q : option psa_xof_operation_ctx -> opstate O psa_xof_operation_ctx -> Prop) s :
xof_absorbing c alg msg -> zlen msg <= need <= UINT32_MAX ->
(forall s', same_ctx s s' -> (smooth s -> False) -> Q None s') ->
(forall c' s', same_ctx s s' -> xof_absorbing c' alg msg -> need <= xof_ibuf_cap c' ->
   (smooth s -> smooth s') -> Q (Some c') s') ->
wp (psa_xof_ibuf_grow c need) Q s.
Proof.
intros Hc Hneed Hbad Hgood. unfold psa_xof_ibuf_grow.
destruct (Z.leb_spec need (xof_ibuf_cap c)) as [Hle|Hgt]; [by apply wp_ret, Hgood|].
cbv zeta. fold (grow_start (xof_ibuf_cap c)). destruct Hc as [H1 H2 H3 H4 H5 H6 H7 H8].
pose proof (zlen_nonneg msg). assert (Hcap : 0 <= xof_ibuf_cap c <= UINT32_MAX) by lia.
pose proof (grow_start_bounds _ Hcap).
assert (Hg : need <= grow_cap grow_fuel (grow_start (xof_ibuf_cap c)) need <= UINT32_MAX).
{ apply grow_cap_bounds; [done|lia|]. change (2 ^ Z.of_nat grow_fuel) with (UINT32_MAX + 1). nia. }
set (cap' := grow_cap _ _ _) in *. clearbody cap'.
apply wp_bind, wp_malloc. intros ok s1 Hs1 _ _ Hok. destruct ok; cbn [negb].
2: { apply wp_ret, Hbad; [done|]. intros Hsm. by destruct (Hok Hsm). }
apply wp_ret, Hgood; [done| |simpl; lia|intros Hsm; by apply Hok].
split; try done; simpl; [|lia].
destruct (xof_ibuf c) as [l|]; simpl in *; [|done]. subst l.
destruct (Z.ltb_spec 0 (xof_ibuf_len c)) as [|Hz]; [apply take_ge; unfold zlen in *; lia|].
symmetry. apply zlen_0_nil. lia.
Qed.

Lemma view_has_shake v s : xof_is v s -> v = XIdle \/ has_shake = true.
Proof.
destruct v as [|alg msg|alg msg pos]; simpl; destruct (op_ctx s) as [c|]; try done; intros H.
- by left.
- right. apply (case_has_shake alg), H.
- right. destruct H as (k & Hk & _). apply (case_has_shake alg), Hk.
Qed.

(** A failure ends the operation. *)
Lemma view_idle s : op_ctx s = None -> xof_is XIdle s.
Proof. simpl. by intros ->. Qed.

Lemma wp_xof_update data v (Q : psa_status_t -> opstate O psa_xof_operation_ctx -> Prop) s :
xof_is v s ->
(forall e s', xof_is XIdle s' -> e <> PSA_SUCCESS ->
   (forall alg msg, v = XAbsorbing alg msg -> smooth s -> input_valid data ->
      zlen msg + input_length data <= UINT32_MAX -> False) -> Q e s') ->
(forall alg msg s', v = XAbsorbing alg msg -> 
   xof_is (XAbsorbing alg (msg ++ input_bytes data)) s' -> (smooth s -> smooth s') ->
   Q PSA_SUCCESS s') ->
wp (psa_xof_update data) Q s.
Proof.
intros Hv Hbad Hgood. unfold psa_xof_update. destruct has_shake eqn:Hshake; cbn [negb].
2: { apply wp_ret. destruct (view_has_shake _ _ Hv) as [->|]; [|congruence]. by apply Hbad. }
destruct (is_null data && (0 <? input_length data)) eqn:Hnull.
{ apply wp_xof_fail, Hbad; [done|done|done|]. intros ? ? _ _ Hd. by rewrite valid_not_null in Hnull. }
apply wp_bind. unfold get_ctx. apply wp_gets.
destruct v as [|alg msg|alg msg pos]; simpl in Hv; destruct (op_ctx s) as [c|] eqn:Hc; try done.
- by apply wp_xof_fail, Hbad.
- rewrite (xa_squeezing _ _ _ Hv).
  assert (Hlen : 0 <= input_length data) by (destruct data; [apply N2Z.is_nonneg|apply zlen_nonneg]).
  destruct (Z.eqb_spec (input_length data) 0) as [H0|H0].
  { apply wp_ret, (Hgood alg msg); [done| |done]. simpl. rewrite Hc.
    replace (input_bytes data) with (@nil byte); [by rewrite app_nil_r|].
    destruct data as [n|l]; [done|]. simpl in *. by rewrite (zlen_0_nil l H0). }
  destruct (fits_word32 (input_length data)) eqn:Hfit; cbn [negb].
  2: { apply wp_xof_fail, Hbad; [done|done|done|]. intros ? ? _ _ [_ Hd]. congruence. }
  rewrite (xa_len _ _ _ Hv).
  destruct (Z.ltb_spec (UINT32_MAX - zlen msg) (input_length data)) as [Hbig|Hroom].
  { apply wp_xof_fail, Hbad; [done|done|done|]. intros ? ? [= <- <-]. lia. }
  pose proof (zlen_nonneg msg).
  apply wp_bind, (wp_xof_grow c alg msg); [done|lia| |].
  { intros s1 Hs1 Hno. apply wp_xof_fail, Hbad; [done|done|done|]. auto. }
  intros c1 s1 Hs1 Hc1 Hcap Hsm. apply wp_bind, wp_modify, wp_ret, (Hgood alg msg); [done| |done].
  destruct Hc1 as [K1 K2 K3 K4 K5 K6 K7 K8].
  assert (Hb : input_length data = zlen (input_bytes data)).
  { destruct data as [n|l]; [|done]. simpl in *. destruct n; done. }
  split; try done; simpl.
  + by rewrite K6.
  + rewrite K7, zlen_app. lia.
  + rewrite K7. lia.
- destruct Hv as (k & Hk & _). rewrite (sp_squeezing _ _ _ _ Hk). by apply wp_xof_fail, Hbad.
Qed.

(** ** Output *)

Lemma wp_xof_absorb c alg msg
  (Q : psa_status_t * psa_xof_operation_ctx -> opstate O psa_xof_operation_ctx -> Prop) s :
xof_absorbing c alg msg ->
(forall e s', same_ctx s s' -> e <> PSA_SUCCESS -> (smooth s -> False) -> Q (e, c) s') ->
(forall c' s', same_ctx s s' -> (smooth s -> smooth s') -> xof_stream c' alg msg 0 ->
   Q (PSA_SUCCESS, c') s') ->
wp (xof_absorb c) Q s.
Proof.
intros [H1 H2 H3 H4 H5 H6 H7 H8] Hbad Hgood. unfold xof_absorb. rewrite H4, H1, H2. cbn [negb].
apply (wp_checked_call (fun e => mret (e, c))).
{ intros e s1 Hs1 He Hno. by apply wp_ret, Hbad. }
intros s1 Hs1 Hsm. apply wp_ret, Hgood; [done|done|].
pose proof (zlen_nonneg msg). rewrite H6, H5, H7, to_u32_small by lia.
rewrite take_ge by (unfold zlen; lia).
exists 0. split.
- split; try done. apply shake_absorb_spec.
- simpl. split_and!; (lia || apply zlen_nonneg || done).
Qed.

Definition xof_stream_of (v : xof_view) : option (Z * list byte * Z) :=
match v with
| XIdle => None
| XAbsorbing alg msg => Some (alg, msg, 0)
| XSqueezing alg msg pos => Some (alg, msg, pos)
end.

(** The view after an output of [n] bytes. *)
Definition xof_advance (n : Z) (v : xof_view) : xof_view :=
if n =? 0 then v
else match v with
     | XIdle => XIdle
     | XAbsorbing alg msg => XSqueezing alg msg n
     | XSqueezing alg msg pos => XSqueezing alg msg (pos + n)
     end.

Lemma wp_xof_output output (n : N) v
  (Q : psa_status_t * list byte -> opstate O psa_xof_operation_ctx -> Prop) s :
xof_is v s ->
(forall e out s', xof_is XIdle s' -> e <> PSA_SUCCESS ->
   (v <> XIdle -> output = true -> smooth s -> False) -> Q (e, out) s') ->
(forall alg msg pos s', xof_stream_of v = Some (alg, msg, pos) ->
   xof_is (xof_advance (Z.of_N n) v) s' -> (smooth s -> smooth s') ->
   Q (PSA_SUCCESS, xof_part alg msg pos (Z.of_N n)) s') ->
wp (psa_xof_output output (Z.of_N n)) Q s.
Proof.
intros Hv Hbad Hgood. unfold psa_xof_output. cbv zeta. destruct has_shake eqn:Hshake; cbn [negb].
2: { apply wp_ret. destruct (view_has_shake _ _ Hv) as [->|]; [|congruence]. by apply Hbad. }
destruct (negb output && (0 <? Z.of_N n)) eqn:Hnull.
{ apply wp_bind, wp_xof_fail, wp_ret, Hbad; [done|done|done|]. by intros _ ->. }
apply wp_bind. unfold get_ctx. apply wp_gets.
destruct (op_ctx s) as [c|] eqn:Hc.
2: { apply wp_bind, wp_xof_fail, wp_ret, Hbad; [done|done|done|].
     destruct v; simpl in Hv; rewrite Hc in Hv; done. }
assert (Hlive : exists alg msg pos, xof_stream_of v = Some (alg, msg, pos) /\ v <> XIdle /\ 0 <= pos).
{ destruct v as [|alg msg|alg msg pos]; simpl in Hv; rewrite Hc in Hv; [done|eauto 8 with lia|].
  destruct Hv as (k & _ & Hp & _). eauto 8. }
destruct Hlive as (alg & msg & pos & Hst & Hne & Hpos).
destruct (Z.eqb_spec (Z.of_N n) 0) as [H0|H0].
{ apply wp_ret. rewrite H0 in Hgood.
  rewrite <- (xof_part_0 alg msg pos). by eapply Hgood. }
assert (Habs : wp (xof_absorb c) (fun r s' => same_ctx s s' /\
  (r.1 = PSA_SUCCESS -> xof_stream r.2 alg msg pos /\ (smooth s -> smooth s')) /\
  (r.1 <> PSA_SUCCESS -> smooth s -> False)) s).
{ destruct v as [|alg' msg'|alg' msg' pos']; simpl in Hv; rewrite Hc in Hv;
    [done|injection Hst as -> -> <-|injection Hst as -> -> ->].
  - apply (wp_xof_absorb c alg msg); [done| |].
    + by intros e s1 Hs1 He Hno.
    + by intros c1 s1 Hs1 Hsm Hc1.
  - unfold xof_absorb. destruct Hv as (k & Hk & Hr). rewrite (sp_squeezing _ _ _ _ Hk).
    apply wp_ret. split_and!; [done| |done]. split; [|done]. by exists k. }
apply wp_bind. eapply wp_mono; [exact Habs|]. clear Habs. intros [st c1] s1 (Hs1 & Hc1 & Hno). cbn [fst snd] in *.
destruct (decide (st = PSA_SUCCESS)) as [->|He].
2: { assert (HQ : wp (status ← wolfpsa_xof_fail st; mret (status, [])) Q s1).
     { apply wp_bind, wp_xof_fail, wp_ret, Hbad; [done|done|done|]. intros _ _. by apply Hno. }
     destruct st; done. }
destruct (Hc1 eq_refl) as [Hc2 Hsm1]. apply wp_bind, (serves_all c1 alg msg pos); [done|apply N2Z.is_nonneg| |].
- intros e out c2 s2 Hs2 He Hno2.
  assert (HQ : wp (status ← wolfpsa_xof_fail e; mret (status, out)) Q s2).
  { apply wp_bind, wp_xof_fail, wp_ret, Hbad; [done|done|done|]. auto. }
  destruct e; done.
- intros c2 s2 Hs2 Hsm2 Hc3. apply wp_bind, wp_modify, wp_ret, Hgood; [done| |auto].
  unfold xof_advance. destruct (Z.eqb_spec (Z.of_N n) 0); [done|].
  destruct v as [|alg' msg'|alg' msg' pos']; simpl in *; [done|by injection Hst as -> -> <-|by injection Hst as -> -> ->].
Qed.

(** * The specification: a state machine over the view *)

Inductive xof_call : Type :=
| XSetup (alg : Z)
| XSetContext (length : Z)
| XUpdate (data : input)
| XOutput (output : bool) (length : N)
| XAbort.

Definition xof_do (call : xof_call) : XM (psa_status_t * list byte) :=
match call with
| XSetup alg => st ← psa_xof_setup alg; mret (st, [])
| XSetContext n => st ← psa_xof_set_context n; mret (st, [])
| XUpdate data => st ← psa_xof_update data; mret (st, [])
| XOutput output n => psa_xof_output output (Z.of_N n)
| XAbort => st ← psa_xof_abort; mret (st, [])
end.

(** What a call may answer.  A failed setup changes nothing; every other error
  ends the operation; input after output is an error; a context always is. *)
Inductive xof_step : xof_view -> xof_call -> psa_status_t * list byte -> xof_view -> Prop :=
| step_setup alg :
  xof_step XIdle (XSetup alg) (PSA_SUCCESS, []) (XAbsorbing alg [])
| step_setup_error v alg e :
  e <> PSA_SUCCESS -> xof_step v (XSetup alg) (e, []) v
| step_set_context v n e :
  e <> PSA_SUCCESS -> xof_step v (XSetContext n) (e, []) XIdle
| step_update alg msg data :
  xof_step (XAbsorbing alg msg) (XUpdate data) (PSA_SUCCESS, [])
    (XAbsorbing alg (msg ++ input_bytes data))
| step_update_error v data e :
  e <> PSA_SUCCESS -> xof_step v (XUpdate data) (e, []) XIdle
| step_output v output n alg msg pos :
  xof_stream_of v = Some (alg, msg, pos) ->
  xof_step v (XOutput output n) (PSA_SUCCESS, xof_part alg msg pos (Z.of_N n))
    (xof_advance (Z.of_N n) v)
| step_output_error v output n e out :
  e <> PSA_SUCCESS -> xof_step v (XOutput output n) (e, out) XIdle
| step_abort v : xof_step v XAbort (PSA_SUCCESS, []) XIdle.

Fixpoint xof_runs (calls : list xof_call) : XM (list (psa_status_t * list byte)) :=
match calls with
| [] => mret []
| call :: calls => r ← xof_do call; l ← xof_runs calls; mret (r :: l)
end.

Inductive xof_trace : xof_view -> list xof_call -> list (psa_status_t * list byte) -> xof_view -> Prop :=
| trace_nil v : xof_trace v [] [] v
| trace_cons v call r v' calls l v'' :
  xof_step v call r v' -> xof_trace v' calls l v'' -> xof_trace v (call :: calls) (r :: l) v''.

Lemma xof_is_idle v s : xof_is v s -> op_ctx s = None -> v = XIdle.
Proof. destruct v; simpl; intros H Hc; rewrite Hc in H; done. Qed.

Lemma wp_xof_do v call s :
xof_is v s -> wp (xof_do call) (fun r s' => exists v', xof_is v' s' /\ xof_step v call r v') s.
Proof.
intros Hv. destruct call as [alg|n|data|output n|]; simpl.
- apply wp_bind, wp_xof_setup.
  + intros e s1 Hs1 He _. apply wp_ret. exists v. split; [|by constructor].
    unfold xof_is. by rewrite Hs1.
  + intros s1 Hc Hs1 _. apply wp_ret. rewrite (xof_is_idle v s) by done.
    eexists. split; [exact Hs1|constructor].
- apply wp_bind. unfold psa_xof_set_context. destruct has_shake eqn:Hshake; cbn [negb].
  2: { apply wp_ret, wp_ret. destruct (view_has_shake _ _ Hv) as [->|]; [|congruence].
       exists XIdle. split; [done|by constructor]. }
  apply wp_bind. unfold get_ctx. apply wp_gets.
  destruct (op_ctx s); [destruct (negb _); [|destruct (_ || _)]|];
    (apply wp_xof_fail; [done|]; apply wp_ret; exists XIdle; split; [done|by constructor]).
- apply wp_bind, (wp_xof_update data v); [done| |].
  + intros e s1 Hs1 He _. apply wp_ret. exists XIdle. split; [done|by constructor].
  + intros alg msg s1 -> Hs1 _. apply wp_ret. eexists. split; [exact Hs1|constructor].
- apply (wp_xof_output output n v); [done| |].
  + intros e out s1 Hs1 He _. exists XIdle. split; [done|by constructor].
  + intros alg msg pos s1 Hst Hs1 _. eexists. split; [exact Hs1|by constructor].
- apply wp_bind. unfold psa_xof_abort. destruct has_shake eqn:Hshake; cbn [negb].
  + apply wp_bind, wp_modify, wp_ret, wp_ret. exists XIdle. split; [done|constructor].
  + apply wp_ret, wp_ret. destruct (view_has_shake _ _ Hv) as [->|]; [|congruence].
    exists XIdle. split; [done|constructor].
Qed.

(** C28: every sequence of calls on a fresh operation object, whatever fails,
  answers as the state machine [xof_step] allows: in particular each
  successful output is the next part of the SHAKE stream of the input, and
  no input is accepted once output has begun. *)
Theorem xof_calls_refine calls s :
wp (set_ctx None;; xof_runs calls)
  (fun l s' => exists v, xof_is v s' /\ xof_trace XIdle calls l v) s.
Proof.
apply wp_bind, wp_modify. assert (Hv : xof_is XIdle (with_ctx None s)) by done.
revert Hv. generalize (with_ctx None s). generalize XIdle. clear s.
induction calls as [|call calls IH]; intros v s Hv; simpl.
{ apply wp_ret. exists v. split; [done|constructor]. }
apply wp_bind. eapply wp_mono; [by apply wp_xof_do|]. intros r s1 (v1 & Hv1 & Hstep).
apply wp_bind. eapply wp_mono; [by apply IH|]. intros l s2 (v2 & Hv2 & Htr).
apply wp_ret. exists v2. split; [done|]. by econstructor.
Qed.

(** * Input and output, however they are cut *)

Fixpoint xof_updates (chunks : list input) : XM psa_status_t :=
match chunks with
| [] => mret PSA_SUCCESS
| data :: chunks =>
    status ← psa_xof_update data;
    match status with PSA_SUCCESS => xof_updates chunks | e => mret e end
end.

Fixpoint xof_outputs (lens : list N) (outs : list (list byte)) : XM (psa_status_t * list (list byte)) :=
match lens with
| [] => mret (PSA_SUCCESS, outs)
| n :: lens =>
    '(status, out) ← psa_xof_output true (Z.of_N n);
    match status with
    | PSA_SUCCESS => xof_outputs lens (outs ++ [out])
    | e => mret (e, outs)
    end
end.

Definition xof_run (alg : Z) (chunks : list input) (lens : list N)
: XM (psa_status_t * list (list byte)) :=
set_ctx None;;
status ← psa_xof_setup alg;
match status with
| PSA_SUCCESS =>
    status ← xof_updates chunks;
    match status with PSA_SUCCESS => xof_outputs lens [] | e => mret (e, []) end
| e => mret (e, [])
end.

Lemma wp_xof_updates alg chunks msg (Q : psa_status_t -> opstate O psa_xof_operation_ctx -> Prop) s :
xof_is (XAbsorbing alg msg) s ->
(forall e s', e <> PSA_SUCCESS ->
   (Forall input_valid chunks -> zlen (msg ++ message chunks) <= UINT32_MAX -> smooth s -> False) ->
   Q e s') ->
(forall s', xof_is (XAbsorbing alg (msg ++ message chunks)) s' -> (smooth s -> smooth s') ->
   Q PSA_SUCCESS s') ->
wp (xof_updates chunks) Q s.
Proof.
revert msg s. induction chunks as [|data chunks IH]; intros msg s Hv Hbad Hgood; simpl.
{ apply wp_ret, Hgood; [|done]. by rewrite message_nil, app_nil_r. }
apply wp_bind, (wp_xof_update data (XAbsorbing alg msg)); [done| |].
- intros e s1 _ He Hno.
  assert (HQ : Q e s1).
  { apply Hbad; [done|]. intros [Hd _]%Forall_cons Hlen Hsm.
    rewrite message_cons, !zlen_app in Hlen. pose proof (zlen_nonneg (message chunks)).
    apply (Hno alg msg); [done|done|done|].
    destruct data as [n|l]; simpl in *; [|lia]. destruct Hd as [Hn _]. simpl in Hn.
    rewrite Hn by done. pose proof (zlen_nonneg (@nil byte)). lia. }
  destruct e; [done|by apply wp_ret ..].
- intros ? ? s1 [= <- <-] Hv1 Hsm1. apply (IH (msg ++ input_bytes data)); [done| |].
  + intros e s2 He Hno. apply Hbad; [done|]. intros [_ Hd]%Forall_cons Hlen Hsm.
    rewrite message_cons, app_assoc in Hlen. auto.
  + intros s2 Hv2 Hsm2. apply Hgood; [|auto]. by rewrite message_cons, app_assoc.
Qed.

(** [outs] are consecutive parts of the stream from [pos]. *)
Definition consecutive (alg : Z) (msg : list byte) (pos : Z) (lens : list N) (outs : list (list byte))
: Prop :=
map zlen outs = map Z.of_N lens /\
concat outs = xof_part alg msg pos (zsum (map Z.of_N lens)).

Lemma wp_xof_outputs alg msg lens :
forall pos v outs (Q : psa_status_t * list (list byte) -> opstate O psa_xof_operation_ctx -> Prop) s,
xof_is v s -> xof_stream_of v = Some (alg, msg, pos) -> 0 <= pos ->
(forall e outs' s', e <> PSA_SUCCESS -> (smooth s -> False) -> Q (e, outs') s') ->
(forall outs' s', consecutive alg msg pos lens outs' -> Q (PSA_SUCCESS, outs ++ outs') s') ->
wp (xof_outputs lens outs) Q s.
Proof.
induction lens as [|n lens IH]; intros pos v outs Q s Hv Hst Hpos Hbad Hgood; simpl.
{ apply wp_ret. rewrite <- (app_nil_r outs). by apply Hgood. }
apply wp_bind, (wp_xof_output true n v); [done| |].
- intros e out s1 _ He Hno.
  assert (HQ : Q (e, outs) s1).
  { apply Hbad; [done|]. apply Hno; [|done]. by intros ->. }
  destruct e; [done|by apply wp_ret ..].
- intros ? ? ? s1 Hst' Hv1 Hsm1. rewrite Hst in Hst'. injection Hst' as <- <- <-.
  pose proof (N2Z.is_nonneg n).
  apply (IH (pos + Z.of_N n) (xof_advance (Z.of_N n) v)); [done| |lia| |].
  + unfold xof_advance. destruct (Z.eqb_spec (Z.of_N n) 0) as [->|]; [by rewrite Z.add_0_r|].
    destruct v; simpl in *; [done|by injection Hst as -> -> <-|by injection Hst as -> -> ->].
  + intros e outs' s2 He Hno. apply Hbad; auto.
  + intros outs' s2 [Hl Hc]. rewrite <- app_assoc. apply Hgood. split; simpl.
    * by rewrite Hl, xof_part_length.
    * rewrite Hc. symmetry. apply xof_part_app; [done|done|].
      apply zsum_nonneg, Forall_map, Forall_true. intros ?. apply N2Z.is_nonneg.
Qed.

(** C37: whatever fails and however the input and the output are cut, the outputs
  of a run that succeeds have the lengths asked for and together are the
  first bytes of the SHAKE stream of the whole input; and the run succeeds
  when the algorithm is supported, the input fits the buffer's bound and
  nothing fails. *)
Theorem xof_outputs_consecutive alg chunks lens s :
wp (xof_run alg chunks lens)
  (fun r _ =>
     (r.1 = PSA_SUCCESS ->
      map zlen r.2 = map Z.of_N lens /\
      concat r.2 = shake alg (message chunks) (zsum (map Z.of_N lens))) /\
     (xof_feasible alg s -> Forall input_valid chunks -> zlen (message chunks) <= UINT32_MAX ->
      r.1 = PSA_SUCCESS)) s.
Proof.
apply wp_bind, wp_modify, wp_bind, wp_xof_setup.
- intros e s1 Hs1 He Hno. destruct e; [done|by apply wp_ret; split;
    [done|intros Hf; exfalso; apply Hno] ..].
- intros s1 _ Hv1 Hsm1. apply wp_bind, (wp_xof_updates alg chunks []); [done| |].
  + intros e s2 He Hno. destruct e; [done|apply wp_ret; split;
      [done|intros Hf Hv Hl; exfalso; apply Hno; auto] ..].
  + intros s2 Hv2 Hsm2.
    apply (wp_xof_outputs alg (message chunks) lens 0 (XAbsorbing alg (message chunks)) []);
      [done|done|done| |].
    * intros e outs s3 He Hno. split; [done|]. intros Hf _ _. exfalso. auto.
    * intros outs s3 [Hl Hc]. split; [|done]. intros _. split; [done|]. simpl. rewrite Hc.
      unfold xof_part. rewrite slice_0. apply take_ge.
      assert (Hn : 0 <= zsum (map Z.of_N lens)).
      { apply zsum_nonneg, Forall_map, Forall_true. intros ?. apply N2Z.is_nonneg. }
      pose proof (streaming_length _ _ (shake_streaming alg (message chunks)) Hn). unfold zlen in *.
      simpl. lia.
Qed.
End XofSpec.
