(* ===== verification/WolfCipher.v ===== *)
(** wolfCrypt's unauthenticated ciphers, as parameters with the laws the code
    relies on.

    A context ([Aes], [Des3], [ChaCha]) is an abstract type; a call gives the
    bytes it writes and the context afterwards.  [crypt] is the cipher as a
    function of the whole text, and [..._has] says that a context, keyed and
    given its initial vector, has processed a text.  As documented, a call goes
    on from the last one: on whole blocks for CBC and ECB, on any number of
    bytes for the stream modes. *)

From stdpp Require Import base decidable list.
From Stdlib Require Import ZArith Lia.
From Stdlib Require Import Strings.Byte.
From S2P Require Import Prelude.

#[local] Open Scope Z_scope.

Inductive direction : Set := AES_ENCRYPTION | AES_DECRYPTION.

#[global] Instance direction_eq_dec : EqDecision direction.
Proof. solve_decision. Defined.

Definition AES_BLOCK_SIZE : Z := 16.
Definition DES_BLOCK_SIZE : Z := 8.
Definition DES3_KEY_SIZE : Z := 24.
Definition CHACHA_MAX_KEY_SZ : Z := 32.

(** Key, initial vector and direction for [SetKey]; [zero_...] is a context
    that [XMEMSET] has cleared. *)
Class WolfCryptCipher : Type := {
  Aes : Type;
  Des3 : Type;
  ChaCha : Type;
  zero_Aes : Aes;
  zero_Des3 : Des3;
  zero_ChaCha : ChaCha;
  wc_AesSetKey : list byte -> list byte -> direction -> Aes;
  wc_AesCtrSetKey : list byte -> list byte -> direction -> Aes;
  wc_AesSetIV : Aes -> list byte -> Aes;
  wc_AesCbcEncrypt : Aes -> list byte -> list byte * Aes;
  wc_AesCbcDecrypt : Aes -> list byte -> list byte * Aes;
  wc_AesEcbEncrypt : Aes -> list byte -> list byte * Aes;
  wc_AesEcbDecrypt : Aes -> list byte -> list byte * Aes;
  wc_AesCtrEncrypt : Aes -> list byte -> list byte * Aes;
  wc_AesCfbEncrypt : Aes -> list byte -> list byte * Aes;
  wc_AesCfbDecrypt : Aes -> list byte -> list byte * Aes;
  wc_AesOfbEncrypt : Aes -> list byte -> list byte * Aes;
  wc_AesOfbDecrypt : Aes -> list byte -> list byte * Aes;
  wc_Des3_SetKey : list byte -> list byte -> direction -> Des3;
  wc_Des3_SetIV : Des3 -> list byte -> Des3;
  wc_Des3_CbcEncrypt : Des3 -> list byte -> list byte * Des3;
  wc_Des3_CbcDecrypt : Des3 -> list byte -> list byte * Des3;
  wc_Des3_EcbEncrypt : Des3 -> list byte -> list byte * Des3;
  wc_Des3_EcbDecrypt : Des3 -> list byte -> list byte * Des3;
  wc_Chacha_SetKey : list byte -> ChaCha;
  wc_Chacha_SetIV : ChaCha -> list byte -> Z -> ChaCha;
  wc_Chacha_Process : ChaCha -> list byte -> list byte * ChaCha }.

(** The masks of [misc.c]: all ones when the relation holds, else zero. *)
Class WolfCryptCt : Type := {
  ctMaskEq : Z -> Z -> Z;
  ctMaskGT : Z -> Z -> Z;
  ctMaskLT : Z -> Z -> Z }.

Class WolfCryptCtOk (W : WolfCryptCt) : Prop := {
  ct_mask_eq a b : ctMaskEq a b = if a =? b then 255 else 0;
  ct_mask_gt a b : ctMaskGT a b = if b <? a then 255 else 0;
  ct_mask_lt a b : ctMaskLT a b = if a <? b then 255 else 0 }.

(** * Modes *)

Inductive aes_mode : Set := AES_CBC | AES_ECB | AES_CTR | AES_CFB | AES_OFB.
Inductive des3_mode : Set := DES3_CBC | DES3_ECB.

Inductive wc_mode : Set :=
| WC_AES (m : aes_mode)
| WC_DES3 (m : des3_mode)
| WC_CHACHA20.

(** A mode works on multiples of this. *)
Definition mode_unit (m : wc_mode) : Z :=
  match m with
  | WC_AES AES_CBC | WC_AES AES_ECB => AES_BLOCK_SIZE
  | WC_DES3 _ => DES_BLOCK_SIZE
  | _ => 1
  end.

Lemma mode_unit_pos m : 0 < mode_unit m.
Proof. by destruct m as [[]| |]. Qed.

(** The key schedule that a mode needs: the counter and feedback modes encrypt
    in both directions. *)
Definition key_direction (m : aes_mode) (d : direction) : direction :=
  match m with AES_CBC | AES_ECB => d | _ => AES_ENCRYPTION end.

Section Run.
Context {W : WolfCryptCipher}.

Definition aes_run (m : aes_mode) (d : direction) : Aes -> list byte -> list byte * Aes :=
match m, d with
| AES_CBC, AES_ENCRYPTION => wc_AesCbcEncrypt
| AES_CBC, AES_DECRYPTION => wc_AesCbcDecrypt
| AES_ECB, AES_ENCRYPTION => wc_AesEcbEncrypt
| AES_ECB, AES_DECRYPTION => wc_AesEcbDecrypt
| AES_CTR, _ => wc_AesCtrEncrypt
| AES_CFB, AES_ENCRYPTION => wc_AesCfbEncrypt
| AES_CFB, AES_DECRYPTION => wc_AesCfbDecrypt
| AES_OFB, AES_ENCRYPTION => wc_AesOfbEncrypt
| AES_OFB, AES_DECRYPTION => wc_AesOfbDecrypt
end.

Definition des3_run (m : des3_mode) (d : direction) : Des3 -> list byte -> list byte * Des3 :=
match m, d with
| DES3_CBC, AES_ENCRYPTION => wc_Des3_CbcEncrypt
| DES3_CBC, AES_DECRYPTION => wc_Des3_CbcDecrypt
| DES3_ECB, AES_ENCRYPTION => wc_Des3_EcbEncrypt
| DES3_ECB, AES_DECRYPTION => wc_Des3_EcbDecrypt
end.
End Run.

(** ECB takes no initial vector: [AES_ECB] and [DES3_ECB] start from the key. *)
Class WolfCryptCipherOk (W : WolfCryptCipher) : Type := {
  crypt : wc_mode -> direction -> list byte -> list byte -> list byte -> list byte;
  aes_has : aes_mode -> direction -> list byte -> list byte -> Aes -> list byte -> Prop;
  des3_has : des3_mode -> direction -> list byte -> list byte -> Des3 -> list byte -> Prop;
  chacha_has : list byte -> list byte -> ChaCha -> list byte -> Prop;
  crypt_length m d key iv x : (mode_unit m | zlen x) -> zlen (crypt m d key iv x) = zlen x;
  crypt_inverse m key iv x : (mode_unit m | zlen x) ->
    crypt m AES_DECRYPTION key iv (crypt m AES_ENCRYPTION key iv x) = x;
  aes_start m d key iv0 iv : m <> AES_ECB ->
    aes_has m d key iv (wc_AesSetIV (wc_AesSetKey key iv0 (key_direction m d)) iv) [];
  aes_ctr_start d key iv0 iv :
    aes_has AES_CTR d key iv (wc_AesSetIV (wc_AesCtrSetKey key iv0 AES_ENCRYPTION) iv) [];
  aes_ecb_start d key iv0 : aes_has AES_ECB d key [] (wc_AesSetKey key iv0 d) [];
  aes_step m d key iv a x y : (mode_unit (WC_AES m) | zlen y) -> aes_has m d key iv a x ->
    let '(out, a') := aes_run m d a y in
    aes_has m d key iv a' (x ++ y) /\
    crypt (WC_AES m) d key iv (x ++ y) = crypt (WC_AES m) d key iv x ++ out;
  des3_start d key iv0 iv :
    des3_has DES3_CBC d key iv (wc_Des3_SetIV (wc_Des3_SetKey key iv0 d) iv) [];
  des3_ecb_start d key iv0 : des3_has DES3_ECB d key [] (wc_Des3_SetKey key iv0 d) [];
  des3_step m d key iv a x y : (DES_BLOCK_SIZE | zlen y) -> des3_has m d key iv a x ->
    let '(out, a') := des3_run m d a y in
    des3_has m d key iv a' (x ++ y) /\
    crypt (WC_DES3 m) d key iv (x ++ y) = crypt (WC_DES3 m) d key iv x ++ out;
  chacha_start key iv : chacha_has key iv (wc_Chacha_SetIV (wc_Chacha_SetKey key) iv 0) [];
  chacha_step d key iv a x y : chacha_has key iv a x ->
    let '(out, a') := wc_Chacha_Process a y in
    chacha_has key iv a' (x ++ y) /\
    crypt WC_CHACHA20 d key iv (x ++ y) = crypt WC_CHACHA20 d key iv x ++ out }.

Section Crypt.
Context {W : WolfCryptCipher} {WO : WolfCryptCipherOk W}.

Lemma crypt_nil m d key iv : crypt m d key iv [] = [].
Proof. apply zlen_0_nil. rewrite crypt_length by apply Z.divide_0_r. done. Qed.
End Crypt.
