(* ===== verification/Cipher.v ===== *)
(** Unauthenticated ciphers: [src/psa_cipher.c], whole.

    A cipher operation is a context over an AES, a DES3 or a ChaCha20 context of
    wolfCrypt, with the bytes of an incomplete block in [cipher_partial]: the
    first [partial_len] bytes of the array [partial], whose 16 bytes they never
    exceed ([CipherSpec]).  A call gives its status and the first
    [*output_length] bytes of its output. *)

From stdpp Require Import base decidable list.
From Stdlib Require Import ZArith Lia.
From Stdlib Require Import Strings.Byte.
From S2P Require Import Prelude.
From S2P Require Import Values.
From S2P Require Import Engine.
From S2P Require Import WolfCipher.
From S2P Require Import KeyPolicy.
From S2P Require Import KeyFormat.
From S2P Require Import StoreIface.
From S2P Require Import Library.
From S2P Require Import KeyStore.
From S2P Require Import Operation.

#[local] Open Scope Z_scope.

(** * Algorithms *)

Definition PSA_ALG_CATEGORY_CIPHER : Z := 0x04000000.
Definition PSA_ALG_IS_CIPHER (alg : Z) : bool :=
  Z.land alg PSA_ALG_CATEGORY_MASK =? PSA_ALG_CATEGORY_CIPHER.
Definition PSA_ALG_STREAM_CIPHER : Z := 0x04800100.
Definition PSA_ALG_CTR : Z := 0x04c01000.
Definition PSA_ALG_CFB : Z := 0x04c01100.
Definition PSA_ALG_OFB : Z := 0x04c01200.
Definition PSA_ALG_XTS : Z := 0x0440ff00.
Definition PSA_ALG_ECB_NO_PADDING : Z := 0x04404400.
Definition PSA_ALG_CBC_NO_PADDING : Z := 0x04404000.
Definition PSA_ALG_CBC_PKCS7 : Z := 0x04404100.
Definition WOLFPSA_CHACHA20_IV_BYTES : Z := 12.

(** The sizes that a caller computes ([crypto_sizes.h]). *)
Definition PSA_ROUND_UP_TO_MULTIPLE (block_size length : Z) : Z :=
  (length + block_size - 1) / block_size * block_size.

Definition PSA_CIPHER_IV_LENGTH (key_type alg : Z) : Z :=
  if (1 <? PSA_BLOCK_CIPHER_BLOCK_LENGTH key_type)
     && ((alg =? PSA_ALG_CTR) || (alg =? PSA_ALG_CFB) || (alg =? PSA_ALG_OFB)
         || (alg =? PSA_ALG_XTS) || (alg =? PSA_ALG_CBC_NO_PADDING) || (alg =? PSA_ALG_CBC_PKCS7))
  then PSA_BLOCK_CIPHER_BLOCK_LENGTH key_type
  else if (key_type =? PSA_KEY_TYPE_CHACHA20) && (alg =? PSA_ALG_STREAM_CIPHER) then 12
  else if alg =? PSA_ALG_CCM_STAR_NO_TAG then 13
  else 0.

Definition PSA_CIPHER_ENCRYPT_OUTPUT_SIZE (key_type alg input_length : Z) : Z :=
  if alg =? PSA_ALG_CBC_PKCS7 then
    if negb (PSA_BLOCK_CIPHER_BLOCK_LENGTH key_type =? 0)
    then PSA_ROUND_UP_TO_MULTIPLE (PSA_BLOCK_CIPHER_BLOCK_LENGTH key_type) (input_length + 1)
         + PSA_CIPHER_IV_LENGTH key_type alg
    else 0
  else if PSA_ALG_IS_CIPHER alg then input_length + PSA_CIPHER_IV_LENGTH key_type alg
  else 0.

Definition PSA_CIPHER_DECRYPT_OUTPUT_SIZE (key_type alg input_length : Z) : Z :=
  if PSA_ALG_IS_CIPHER alg
     && (Z.land key_type PSA_KEY_TYPE_CATEGORY_MASK =? PSA_KEY_TYPE_CATEGORY_SYMMETRIC)
  then input_length else 0.

Definition PSA_CIPHER_UPDATE_OUTPUT_SIZE (key_type alg input_length : Z) : Z :=
  if PSA_ALG_IS_CIPHER alg then
    if negb (PSA_BLOCK_CIPHER_BLOCK_LENGTH key_type =? 0) then
      if (alg =? PSA_ALG_CBC_PKCS7) || (alg =? PSA_ALG_CBC_NO_PADDING)
         || (alg =? PSA_ALG_ECB_NO_PADDING)
      then PSA_ROUND_UP_TO_MULTIPLE (PSA_BLOCK_CIPHER_BLOCK_LENGTH key_type) input_length
      else input_length
    else 0
  else 0.

Definition PSA_CIPHER_FINISH_OUTPUT_SIZE (key_type alg : Z) : Z :=
  if PSA_ALG_IS_CIPHER alg
  then if alg =? PSA_ALG_CBC_PKCS7 then PSA_BLOCK_CIPHER_BLOCK_LENGTH key_type else 0
  else 0.

(** * State *)

Record wolfpsa_cipher_ctx {W : WolfCryptCipher} : Type := mkCipher {
  cipher_alg : Z;
  cipher_key_type : Z;
  cipher_key_bits : Z;
  cipher_direction : direction;
  cipher_iv_set : bool;
  cipher_iv_attempted : bool;
  cipher_is_chacha : bool;
  cipher_is_des3 : bool;
  cipher_block_size : Z;
  cipher_iv : list byte;
  cipher_partial : list byte;
  cipher_aes : Aes;
  cipher_des3 : Des3;
  cipher_chacha : ChaCha }.

(** The pointers and sizes of a call that writes: the input and its address,
    whether the output is not NULL, its address and size, and whether
    [output_length] is not NULL. *)
Record cipher_io : Type := mkIo {
  io_input : input;
  io_in_addr : Z;
  io_output : bool;
  io_out_addr : Z;
  io_output_size : Z;
  io_output_length : bool }.

Section Cipher.
Context {C : Config} {E : WolfCryptErr} {K : WolfCryptKeys} {R : WolfCryptRng}.
Context {O : StoreOps} {B : KeyBackend} {W : WolfCryptCipher} {WT : WolfCryptCt}.

Notation CM := (M (opstate O wolfpsa_cipher_ctx)).

Implicit Types c : wolfpsa_cipher_ctx.

Definition cipher_with_iv (set : bool) (iv : list byte) c : wolfpsa_cipher_ctx :=
mkCipher _ (cipher_alg c) (cipher_key_type c) (cipher_key_bits c) (cipher_direction c)
  set true (cipher_is_chacha c) (cipher_is_des3 c) (cipher_block_size c) iv
  (cipher_partial c) (cipher_aes c) (cipher_des3 c) (cipher_chacha c).
Definition cipher_with_partial (l : list byte) c : wolfpsa_cipher_ctx :=
mkCipher _ (cipher_alg c) (cipher_key_type c) (cipher_key_bits c) (cipher_direction c)
  (cipher_iv_set c) (cipher_iv_attempted c) (cipher_is_chacha c) (cipher_is_des3 c)
  (cipher_block_size c) (cipher_iv c) l (cipher_aes c) (cipher_des3 c) (cipher_chacha c).
Definition cipher_with_engine (a : Aes) (d : Des3) (h : ChaCha) c : wolfpsa_cipher_ctx :=
mkCipher _ (cipher_alg c) (cipher_key_type c) (cipher_key_bits c) (cipher_direction c)
  (cipher_iv_set c) (cipher_iv_attempted c) (cipher_is_chacha c) (cipher_is_des3 c)
  (cipher_block_size c) (cipher_iv c) (cipher_partial c) a d h.
Definition cipher_with_aes (a : Aes) c : wolfpsa_cipher_ctx :=
cipher_with_engine a (cipher_des3 c) (cipher_chacha c) c.
Definition cipher_with_des3 (d : Des3) c : wolfpsa_cipher_ctx :=
cipher_with_engine (cipher_aes c) d (cipher_chacha c) c.
Definition cipher_with_chacha (h : ChaCha) c : wolfpsa_cipher_ctx :=
cipher_with_engine (cipher_aes c) (cipher_des3 c) h c.

Definition psa_cipher_abort : CM psa_status_t := set_ctx None;; mret PSA_SUCCESS.

Definition wolfpsa_cipher_fail (status : psa_status_t) : CM psa_status_t :=
psa_cipher_abort;; mret status.

(** An error of a call that writes. *)
Definition cipher_fail_out (status : psa_status_t) : CM (psa_status_t * list byte) :=
status ← wolfpsa_cipher_fail status; mret (status, []).

(** * Checks *)

Definition wolfpsa_cipher_check_alg (alg : Z) : psa_status_t :=
if negb (PSA_ALG_IS_CIPHER alg) then PSA_ERROR_NOT_SUPPORTED
else if (alg =? PSA_ALG_CBC_NO_PADDING) || (alg =? PSA_ALG_CBC_PKCS7) then PSA_SUCCESS
else if (HAVE_AES_ECB || WOLFSSL_DES_ECB) && (alg =? PSA_ALG_ECB_NO_PADDING) then PSA_SUCCESS
else if WOLFSSL_AES_COUNTER && ((alg =? PSA_ALG_CTR) || (alg =? PSA_ALG_CCM_STAR_NO_TAG))
then PSA_SUCCESS
else if WOLFSSL_AES_CFB && (alg =? PSA_ALG_CFB) then PSA_SUCCESS
else if WOLFSSL_AES_OFB && (alg =? PSA_ALG_OFB) then PSA_SUCCESS
else if HAVE_CHACHA && (alg =? PSA_ALG_STREAM_CIPHER) then PSA_SUCCESS
else PSA_ERROR_NOT_SUPPORTED.

Definition wolfpsa_cipher_block_size (key_type : Z) : Z :=
if NO_DES3 then AES_BLOCK_SIZE
else if key_type =? PSA_KEY_TYPE_DES then DES_BLOCK_SIZE else AES_BLOCK_SIZE.

Definition wolfpsa_cipher_iv_length (alg key_type : Z) : Z :=
if (alg =? PSA_ALG_CBC_NO_PADDING) || (alg =? PSA_ALG_CBC_PKCS7) || (alg =? PSA_ALG_CTR)
   || (alg =? PSA_ALG_CFB) || (alg =? PSA_ALG_OFB)
then wolfpsa_cipher_block_size key_type
else if alg =? PSA_ALG_STREAM_CIPHER then WOLFPSA_CHACHA20_IV_BYTES
else if alg =? PSA_ALG_CCM_STAR_NO_TAG then 13
else 0.

(** The key types that an algorithm takes. *)
Definition cipher_type_check (alg key_type : Z) : psa_status_t :=
if negb HAVE_CHACHA && (alg =? PSA_ALG_STREAM_CIPHER) then PSA_ERROR_NOT_SUPPORTED
else if alg =? PSA_ALG_STREAM_CIPHER then
  if negb (key_type =? PSA_KEY_TYPE_CHACHA20) then PSA_ERROR_NOT_SUPPORTED else PSA_SUCCESS
else if key_type =? PSA_KEY_TYPE_DES then
  if negb (alg =? PSA_ALG_CBC_NO_PADDING) && negb (alg =? PSA_ALG_ECB_NO_PADDING)
     && negb (alg =? PSA_ALG_CBC_PKCS7)
  then PSA_ERROR_NOT_SUPPORTED
  else if (alg =? PSA_ALG_ECB_NO_PADDING) && (NO_DES3 || negb WOLFSSL_DES_ECB)
  then PSA_ERROR_NOT_SUPPORTED
  else PSA_SUCCESS
else if negb (key_type =? PSA_KEY_TYPE_AES) then PSA_ERROR_NOT_SUPPORTED
else if (alg =? PSA_ALG_ECB_NO_PADDING) && negb HAVE_AES_ECB then PSA_ERROR_NOT_SUPPORTED
else PSA_SUCCESS.

(** The sizes that a key type allows. *)
Definition cipher_size_check (attributes : psa_key_attributes_t) (key_data_length : Z)
: psa_status_t :=
if HAVE_CHACHA && (attr_type attributes =? PSA_KEY_TYPE_CHACHA20) then
  if negb (key_data_length =? CHACHA_MAX_KEY_SZ) then PSA_ERROR_INVALID_ARGUMENT
  else if negb (attr_bits attributes =? 256) then PSA_ERROR_INVALID_ARGUMENT
  else PSA_SUCCESS
else if attr_type attributes =? PSA_KEY_TYPE_DES then
  if key_data_length =? 16 then PSA_ERROR_NOT_SUPPORTED
  else if negb (key_data_length =? 24) then PSA_ERROR_INVALID_ARGUMENT
  else if negb (attr_bits attributes =? to_u16 (key_data_length * 8))
  then PSA_ERROR_INVALID_ARGUMENT
  else PSA_SUCCESS
else if negb (key_data_length =? 16) && negb (key_data_length =? 24)
        && negb (key_data_length =? 32)
then PSA_ERROR_INVALID_ARGUMENT
else if negb (attr_bits attributes =? 128) && negb (attr_bits attributes =? 192)
        && negb (attr_bits attributes =? 256)
then PSA_ERROR_INVALID_ARGUMENT
else PSA_SUCCESS.

(** The checks of a key once it is loaded. *)
Definition cipher_key_checks (usage alg : Z) (attributes : psa_key_attributes_t)
  (key_data_length : Z) : psa_status_t :=
match cipher_type_check alg (attr_type attributes) with
| PSA_SUCCESS =>
    if negb (Z.land (psa_get_key_usage_flags attributes) usage =? usage)
    then PSA_ERROR_NOT_PERMITTED
    else if negb (wolfpsa_key_permits_alg attributes alg) then PSA_ERROR_NOT_PERMITTED
    else cipher_size_check attributes key_data_length
| e => e
end.

Definition wolfpsa_cipher_check_key (key usage alg : Z)
: M (kstate O) (psa_status_t + psa_key_attributes_t * list byte) :=
'(status, attributes, key_data) ← wolfpsa_get_key_data key (Some PSA_KEY_ATTRIBUTES_INIT);
let attributes := default PSA_KEY_ATTRIBUTES_INIT attributes in
let key_data := default [] key_data in
mret match status with
     | PSA_SUCCESS =>
         match cipher_key_checks usage alg attributes (zlen key_data) with
         | PSA_SUCCESS => inr (attributes, key_data)
         | e => inl e
         end
     | e => inl e
     end.

(** * Setup *)

Definition sizeof_cipher_ctx : Z := 2048.

(** The context before it is keyed. *)
Definition cipher_initial (dir : direction) (alg : Z) (attributes : psa_key_attributes_t)
: wolfpsa_cipher_ctx :=
mkCipher _ alg (attr_type attributes) (attr_bits attributes) dir false false
  (alg =? PSA_ALG_STREAM_CIPHER)
  (negb NO_DES3 && (attr_type attributes =? PSA_KEY_TYPE_DES))
  (wolfpsa_cipher_block_size (attr_type attributes))
  (replicate (Z.to_nat AES_BLOCK_SIZE) x00) [] zero_Aes zero_Des3 zero_ChaCha.

(** The key schedule of AES: when decrypting, the modes that encrypt in both
    directions are told apart. *)
Definition cipher_aes_key (dir : direction) (alg : Z) (key_data iv : list byte) : Aes :=
if WOLFSSL_AES_COUNTER && (alg =? PSA_ALG_CTR)
then wc_AesCtrSetKey key_data iv AES_ENCRYPTION
else
  match dir with
  | AES_ENCRYPTION => wc_AesSetKey key_data iv AES_ENCRYPTION
  | AES_DECRYPTION =>
      if (alg =? PSA_ALG_CCM_STAR_NO_TAG) || (alg =? PSA_ALG_OFB) || (alg =? PSA_ALG_CFB)
      then wc_AesSetKey key_data iv AES_ENCRYPTION
      else wc_AesSetKey key_data iv AES_DECRYPTION
  end.

(** The keyed context and the return code. *)
Definition cipher_key_setup (dir : direction) (key_data : list byte) c
: CM (Z * wolfpsa_cipher_ctx) :=
if HAVE_CHACHA && cipher_is_chacha c then
  ret ← wc_call; (* wc_Chacha_SetKey *)
  mret (ret, cipher_with_chacha (wc_Chacha_SetKey (word32_buf key_data)) c)
else if cipher_is_des3 c then
  ret ← wc_call; (* wc_Des3Init *)
  ret ← wc_then ret; (* wc_Des3_SetKey *)
  mret (ret, cipher_with_des3
               (wc_Des3_SetKey (take (Z.to_nat DES3_KEY_SIZE) key_data) (cipher_iv c) dir) c)
else
  ret ← wc_call; (* wc_AesInit *)
  ret ← wc_then ret; (* wc_AesSetKey, wc_AesCtrSetKey *)
  mret (ret, cipher_with_aes
               (cipher_aes_key dir (cipher_alg c) (word32_buf key_data) (cipher_iv c)) c).

Definition cipher_setup (dir : direction) (usage key alg : Z) : CM psa_status_t :=
c ← get_ctx;
match c with
| Some _ => mret PSA_ERROR_BAD_STATE
| None =>
    match wolfpsa_cipher_check_alg alg with
    | PSA_SUCCESS =>
        r ← lib (wolfpsa_cipher_check_key key usage alg);
        match r with
        | inl e => mret e
        | inr (attributes, key_data) =>
            ok ← lib (XMALLOC sizeof_cipher_ctx);
            if negb ok then mret PSA_ERROR_INSUFFICIENT_MEMORY
            else if NO_DES3 && (attr_type attributes =? PSA_KEY_TYPE_DES)
            then mret PSA_ERROR_NOT_SUPPORTED
            else if negb (fits_word32 (zlen key_data)) then mret PSA_ERROR_INVALID_ARGUMENT
            else
              '(ret, c) ← cipher_key_setup dir key_data (cipher_initial dir alg attributes);
              if negb (ret =? 0) then mret (wc_error_to_psa_status ret)
              else set_ctx (Some c);; mret PSA_SUCCESS
        end
    | e => mret e
    end
end.

Definition psa_cipher_encrypt_setup (key alg : Z) : CM psa_status_t :=
cipher_setup AES_ENCRYPTION PSA_KEY_USAGE_ENCRYPT key alg.
Definition psa_cipher_decrypt_setup (key alg : Z) : CM psa_status_t :=
cipher_setup AES_DECRYPTION PSA_KEY_USAGE_DECRYPT key alg.

(** * Initial vector *)

(** The first counter block of CCM* with a 13-byte nonce. *)
Definition ccm_star_counter (iv : list byte) : list byte :=
x01 :: take 13 iv ++ [x00; x01].

(** The new context of a checked call. *)
Definition cipher_iv_call c : CM psa_status_t :=
ret ← wc_call;
if negb (ret =? 0) then mret (wc_error_to_psa_status ret)
else set_ctx (Some c);; mret PSA_SUCCESS.

(** [iv_attempted] is set before the vector is looked at. *)
Definition wolfpsa_cipher_set_iv (iv : input) : CM psa_status_t :=
c ← get_ctx;
match c with
| None => mret PSA_ERROR_BAD_STATE
| Some c =>
    if cipher_iv_attempted c then mret PSA_ERROR_BAD_STATE
    else
      set_ctx (Some (cipher_with_iv (cipher_iv_set c) (cipher_iv c) c));;
      let iv_length := input_length iv in
      if wolfpsa_cipher_iv_length (cipher_alg c) (cipher_key_type c) =? 0
      then mret PSA_ERROR_BAD_STATE
      else if is_null iv then mret PSA_ERROR_INVALID_ARGUMENT
      else if cipher_alg c =? PSA_ALG_STREAM_CIPHER then
        if negb HAVE_CHACHA then mret PSA_ERROR_NOT_SUPPORTED
        else if negb (iv_length =? WOLFPSA_CHACHA20_IV_BYTES) then mret PSA_ERROR_INVALID_ARGUMENT
        else
          cipher_iv_call
            (cipher_with_iv true (cipher_iv c)
               (cipher_with_chacha (wc_Chacha_SetIV (cipher_chacha c) (input_bytes iv) 0) c))
      else if cipher_alg c =? PSA_ALG_CCM_STAR_NO_TAG then
        if negb (iv_length =? 13) then mret PSA_ERROR_INVALID_ARGUMENT
        else
          let counter := ccm_star_counter (input_bytes iv) in
          cipher_iv_call
            (cipher_with_iv true counter (cipher_with_aes (wc_AesSetIV (cipher_aes c) counter) c))
      else
        let expected_len := wolfpsa_cipher_block_size (cipher_key_type c) in
        if negb (iv_length =? expected_len) then mret PSA_ERROR_INVALID_ARGUMENT
        else
          let stored := input_bytes iv ++ drop (Z.to_nat expected_len) (cipher_iv c) in
          if cipher_is_des3 c
          then cipher_iv_call
                 (cipher_with_iv true stored
                    (cipher_with_des3 (wc_Des3_SetIV (cipher_des3 c) (input_bytes iv)) c))
          else cipher_iv_call
                 (cipher_with_iv true stored
                    (cipher_with_aes (wc_AesSetIV (cipher_aes c) (input_bytes iv)) c))
end.

Definition psa_cipher_set_iv (iv : input) : CM psa_status_t :=
status ← wolfpsa_cipher_set_iv iv;
match status with
| PSA_SUCCESS => mret PSA_SUCCESS
| e => wolfpsa_cipher_fail e
end.

(** [iv] and [iv_length] say whether the pointers are not NULL. *)
Definition wolfpsa_cipher_generate_iv (iv : bool) (iv_size : Z) (iv_length : bool)
: CM (psa_status_t * list byte) :=
c ← get_ctx;
match c with
| None => mret (PSA_ERROR_BAD_STATE, [])
| Some c =>
    if cipher_iv_attempted c then mret (PSA_ERROR_BAD_STATE, [])
    else if negb (bool_decide (cipher_direction c = AES_ENCRYPTION))
    then mret (PSA_ERROR_BAD_STATE, [])
    else
      let expected_len := wolfpsa_cipher_iv_length (cipher_alg c) (cipher_key_type c) in
      if expected_len =? 0 then mret (PSA_ERROR_BAD_STATE, [])
      else if negb iv_length || (negb iv && negb (iv_size =? 0))
      then mret (PSA_ERROR_INVALID_ARGUMENT, [])
      else if iv_size <? expected_len then mret (PSA_ERROR_BUFFER_TOO_SMALL, [])
      else
        '(status, bytes) ← lib (psa_generate_random iv expected_len);
        match status with
        | PSA_SUCCESS =>
            status ← wolfpsa_cipher_set_iv (Bytes bytes);
            match status with
            | PSA_SUCCESS => mret (PSA_SUCCESS, bytes)
            | e => mret (e, [])
            end
        | e => mret (e, [])
        end
end.

Definition psa_cipher_generate_iv (iv : bool) (iv_size : Z) (iv_length : bool)
: CM (psa_status_t * list byte) :=
'(status, bytes) ← wolfpsa_cipher_generate_iv iv iv_size iv_length;
match status with
| PSA_SUCCESS => mret (PSA_SUCCESS, bytes)
| e => cipher_fail_out e
end.

(** * Update *)

(** A call of wolfCrypt that ciphers: the bytes written and the context. *)
Notation crypt_call := (wolfpsa_cipher_ctx -> list byte ->
                        CM (psa_status_t + list byte * wolfpsa_cipher_ctx)).

Definition cipher_aes_call (run : Aes -> list byte -> list byte * Aes) : crypt_call :=
fun c data =>
  ret ← wc_call;
  if negb (ret =? 0) then mret (inl (wc_error_to_psa_status ret))
  else let '(out, a) := run (cipher_aes c) data in mret (inr (out, cipher_with_aes a c)).

Definition cipher_des3_call (run : Des3 -> list byte -> list byte * Des3) : crypt_call :=
fun c data =>
  ret ← wc_call;
  if negb (ret =? 0) then mret (inl (wc_error_to_psa_status ret))
  else let '(out, d) := run (cipher_des3 c) data in mret (inr (out, cipher_with_des3 d c)).

Definition cipher_chacha_call : crypt_call :=
fun c data =>
  ret ← wc_call;
  if negb (ret =? 0) then mret (inl (wc_error_to_psa_status ret))
  else
    let '(out, h) := wc_Chacha_Process (cipher_chacha c) data in
    mret (inr (out, cipher_with_chacha h c)).

Definition cipher_cbc_call (dir : direction) : crypt_call := fun c data =>
if cipher_is_des3 c then
  if NO_DES3 then mret (inl PSA_ERROR_NOT_SUPPORTED)
  else
    match dir with
    | AES_ENCRYPTION => cipher_des3_call wc_Des3_CbcEncrypt c data
    | AES_DECRYPTION => cipher_des3_call wc_Des3_CbcDecrypt c data
    end
else
  match dir with
  | AES_ENCRYPTION => cipher_aes_call wc_AesCbcEncrypt c data
  | AES_DECRYPTION => cipher_aes_call wc_AesCbcDecrypt c data
  end.

Definition cipher_ecb_call (dir : direction) : crypt_call := fun c data =>
if cipher_is_des3 c then
  if NO_DES3 || negb WOLFSSL_DES_ECB then mret (inl PSA_ERROR_NOT_SUPPORTED)
  else
    match dir with
    | AES_ENCRYPTION => cipher_des3_call wc_Des3_EcbEncrypt c data
    | AES_DECRYPTION => cipher_des3_call wc_Des3_EcbDecrypt c data
    end
else if negb HAVE_AES_ECB then mret (inl PSA_ERROR_NOT_SUPPORTED)
else
  match dir with
  | AES_ENCRYPTION => cipher_aes_call wc_AesEcbEncrypt c data
  | AES_DECRYPTION => cipher_aes_call wc_AesEcbDecrypt c data
  end.

(** Completes and ciphers the partial block, if there is one: the output, the
    input used and the context. *)
Definition cipher_first_block (crypt : crypt_call) c (data : list byte)
: CM (psa_status_t + list byte * Z * wolfpsa_cipher_ctx) :=
if 0 <? zlen (cipher_partial c) then
  let needed := cipher_block_size c - zlen (cipher_partial c) in
  r ← crypt c (word32_buf (cipher_partial c ++ slice data 0 needed));
  mret match r with
       | inl e => inl e
       | inr (out, c) => inr (out, needed, cipher_with_partial [] c)
       end
else mret (inr ([], 0, c)).

(** The whole blocks of the rest of the input. *)
Definition cipher_full_blocks (crypt : crypt_call) c (data : list byte) (offset n : Z)
: CM (psa_status_t + list byte * wolfpsa_cipher_ctx) :=
if 0 <? n then crypt c (word32_buf (slice data offset n)) else mret (inr ([], c)).

(** What does not fill a block is kept. *)
Definition cipher_keep_rest c (data : list byte) (offset : Z) : wolfpsa_cipher_ctx :=
if offset <? zlen data then cipher_with_partial (drop (Z.to_nat offset) data) c else c.

Definition cipher_buffer c (data : list byte) : CM (psa_status_t * list byte) :=
set_ctx (Some (cipher_with_partial (cipher_partial c ++ data) c));; mret (PSA_SUCCESS, []).

(** The block modes that cipher every complete block at once. *)
Definition cipher_update_blocks (crypt : crypt_call) c (data : list byte) (output_size : Z)
: CM (psa_status_t * list byte) :=
let block_size := cipher_block_size c in
let total := to_size (zlen (cipher_partial c) + zlen data) in
let blocks := total / block_size in
if output_size <? blocks * block_size then cipher_fail_out PSA_ERROR_BUFFER_TOO_SMALL
else if blocks =? 0 then cipher_buffer c data
else
  r ← cipher_first_block crypt c data;
  match r with
  | inl e => cipher_fail_out e
  | inr (out, offset, c) =>
      if offset <? zlen data then
        let full_blocks := (zlen data - offset) / block_size * block_size in
        r ← cipher_full_blocks crypt c data offset full_blocks;
        match r with
        | inl e => cipher_fail_out e
        | inr (out', c) =>
            set_ctx (Some (cipher_keep_rest c data (offset + full_blocks)));;
            mret (PSA_SUCCESS, out ++ out')
        end
      else set_ctx (Some c);; mret (PSA_SUCCESS, out)
  end.

Definition cipher_update_cbc c (data : list byte) (output_size : Z)
: CM (psa_status_t * list byte) :=
if negb (cipher_iv_set c) then cipher_fail_out PSA_ERROR_BAD_STATE
else cipher_update_blocks (cipher_cbc_call (cipher_direction c)) c data output_size.

Definition cipher_update_pkcs7_encrypt c (data : list byte) (output_size : Z)
: CM (psa_status_t * list byte) :=
cipher_update_blocks (cipher_cbc_call AES_ENCRYPTION) c data output_size.

(** Decryption keeps the last block, which may be the padding. *)
Definition cipher_update_pkcs7_decrypt c (data : list byte) (output_size : Z)
: CM (psa_status_t * list byte) :=
let block_size := cipher_block_size c in
let total := to_size (zlen (cipher_partial c) + zlen data) in
if total <? block_size then cipher_buffer c data
else
  let process_len := (total - 1) / block_size * block_size in
  if process_len =? 0 then cipher_buffer c data
  else if output_size <? process_len then cipher_fail_out PSA_ERROR_BUFFER_TOO_SMALL
  else
    r ← cipher_first_block (cipher_cbc_call AES_DECRYPTION) c data;
    match r with
    | inl e => cipher_fail_out e
    | inr (out, offset, c') =>
        let output_offset := if 0 <? zlen (cipher_partial c) then block_size else 0 in
        let full_blocks_len := process_len - output_offset in
        r ← cipher_full_blocks (cipher_cbc_call AES_DECRYPTION) c' data offset full_blocks_len;
        match r with
        | inl e => cipher_fail_out e
        | inr (out', c) =>
            let offset := if 0 <? full_blocks_len then offset + full_blocks_len else offset in
            set_ctx (Some
              (if offset + block_size <=? zlen data
               then cipher_with_partial (slice data offset block_size) c
               else cipher_keep_rest c data offset));;
            mret (PSA_SUCCESS, out ++ out')
        end
    end.

Definition cipher_update_pkcs7 c (data : list byte) (output_size : Z)
: CM (psa_status_t * list byte) :=
if negb (cipher_iv_set c) then cipher_fail_out PSA_ERROR_BAD_STATE
else
  match cipher_direction c with
  | AES_ENCRYPTION => cipher_update_pkcs7_encrypt c data output_size
  | AES_DECRYPTION => cipher_update_pkcs7_decrypt c data output_size
  end.

Definition cipher_update_ecb c (data : list byte) (output_size : Z)
: CM (psa_status_t * list byte) :=
if negb (HAVE_AES_ECB || WOLFSSL_DES_ECB) then cipher_fail_out PSA_ERROR_NOT_SUPPORTED
else cipher_update_blocks (cipher_ecb_call (cipher_direction c)) c data output_size.

(** A stream mode; [supported] is its compile-time condition. *)
Definition cipher_update_stream (supported : bool) (crypt : crypt_call) c (data : list byte)
  (output_size : Z) : CM (psa_status_t * list byte) :=
if negb supported then cipher_fail_out PSA_ERROR_NOT_SUPPORTED
else if negb (cipher_iv_set c) then cipher_fail_out PSA_ERROR_BAD_STATE
else if output_size <? zlen data then cipher_fail_out PSA_ERROR_BUFFER_TOO_SMALL
else
  r ← crypt c (word32_buf data);
  match r with
  | inl e => cipher_fail_out e
  | inr (out, c) => set_ctx (Some c);; mret (PSA_SUCCESS, out)
  end.

Definition cipher_update_ccm_star c := cipher_update_stream WOLFSSL_AES_COUNTER
  (cipher_aes_call wc_AesCtrEncrypt) c.
Definition cipher_update_ctr c := cipher_update_stream WOLFSSL_AES_COUNTER
  (cipher_aes_call wc_AesCtrEncrypt) c.
Definition cipher_update_cfb c := cipher_update_stream WOLFSSL_AES_CFB
  (cipher_aes_call match cipher_direction c with
                   | AES_ENCRYPTION => wc_AesCfbEncrypt
                   | AES_DECRYPTION => wc_AesCfbDecrypt
                   end) c.
Definition cipher_update_ofb c := cipher_update_stream WOLFSSL_AES_OFB
  (cipher_aes_call match cipher_direction c with
                   | AES_ENCRYPTION => wc_AesOfbEncrypt
                   | AES_DECRYPTION => wc_AesOfbDecrypt
                   end) c.
Definition cipher_update_chacha c := cipher_update_stream HAVE_CHACHA cipher_chacha_call c.

(** [(uintptr_t)input < (uintptr_t)output + output_size] and the other way round. *)
Definition io_overlap (io : cipher_io) : bool :=
negb (is_null (io_input io)) && io_output io && (0 <? input_length (io_input io))
&& (0 <? io_output_size io)
&& (io_in_addr io <? to_size (io_out_addr io + io_output_size io))
&& (io_out_addr io <? to_size (io_in_addr io + input_length (io_input io))).

Definition cipher_is_block_alg (alg : Z) : bool :=
(alg =? PSA_ALG_CBC_NO_PADDING) || (alg =? PSA_ALG_CBC_PKCS7) || (alg =? PSA_ALG_ECB_NO_PADDING).

(** The branches on the algorithm. *)
Definition cipher_update_alg c : list byte -> Z -> CM (psa_status_t * list byte) :=
if cipher_alg c =? PSA_ALG_CBC_NO_PADDING then cipher_update_cbc c
else if cipher_alg c =? PSA_ALG_CBC_PKCS7 then cipher_update_pkcs7 c
else if cipher_alg c =? PSA_ALG_CCM_STAR_NO_TAG then cipher_update_ccm_star c
else if cipher_alg c =? PSA_ALG_ECB_NO_PADDING then cipher_update_ecb c
else if cipher_alg c =? PSA_ALG_CTR then cipher_update_ctr c
else if cipher_alg c =? PSA_ALG_CFB then cipher_update_cfb c
else if cipher_alg c =? PSA_ALG_OFB then cipher_update_ofb c
else if cipher_alg c =? PSA_ALG_STREAM_CIPHER then cipher_update_chacha c
else fun _ _ => cipher_fail_out PSA_ERROR_NOT_SUPPORTED.

Definition psa_cipher_update (io : cipher_io) : CM (psa_status_t * list byte) :=
c ← get_ctx;
if negb (io_output_length io) then cipher_fail_out PSA_ERROR_INVALID_ARGUMENT
else
  match c with
  | None => cipher_fail_out PSA_ERROR_BAD_STATE
  | Some c =>
      let data := io_input io in
      if is_null data && (0 <? input_length data) then cipher_fail_out PSA_ERROR_INVALID_ARGUMENT
      else if negb (io_output io) && (0 <? io_output_size io)
      then cipher_fail_out PSA_ERROR_INVALID_ARGUMENT
      else if negb (fits_word32 (input_length data))
      then cipher_fail_out PSA_ERROR_INVALID_ARGUMENT
      else if cipher_is_block_alg (cipher_alg c) && io_overlap io
      then cipher_fail_out PSA_ERROR_NOT_SUPPORTED
      else if input_length data =? 0 then mret (PSA_SUCCESS, [])
      else cipher_update_alg c (input_bytes data) (io_output_size io)
  end.

(** * Finish *)

(** The check of the padding, without branches on the plaintext: zero when the
    last [pad_len] bytes of the block are all [pad_len], from 1 to the block
    size. *)
Definition block_at (block : list byte) (i : Z) : Z := b2z (nth (Z.to_nat i) block x00).

Definition pkcs7_invalid (block : list byte) (block_size : Z) : Z :=
let pad_len := block_at block (block_size - 1) in
fold_left
  (fun invalid i =>
     Z.lor invalid (Z.land (ctMaskLT i pad_len)
                      (Z.lxor (block_at block (block_size - 1 - i)) pad_len)))
  (map Z.of_nat (seq 0 (Z.to_nat block_size)))
  (Z.lor (ctMaskEq pad_len 0) (ctMaskGT pad_len block_size)).

Definition cipher_finish_encrypt c (output_size : Z) : CM (psa_status_t * list byte) :=
let block_size := cipher_block_size c in
if block_size <=? zlen (cipher_partial c) then cipher_fail_out PSA_ERROR_BAD_STATE
else
  let pad_len := block_size - zlen (cipher_partial c) in
  if output_size <? block_size then cipher_fail_out PSA_ERROR_BUFFER_TOO_SMALL
  else
    r ← cipher_cbc_call AES_ENCRYPTION c
          (cipher_partial c ++ replicate (Z.to_nat pad_len) (z2b pad_len));
    match r with
    | inl e => cipher_fail_out e
    | inr (out, _) => psa_cipher_abort;; mret (PSA_SUCCESS, out)
    end.

Definition cipher_finish_decrypt c (output_size : Z) : CM (psa_status_t * list byte) :=
let block_size := cipher_block_size c in
if negb (zlen (cipher_partial c) =? block_size) then cipher_fail_out PSA_ERROR_INVALID_PADDING
else
  r ← cipher_cbc_call AES_DECRYPTION c (cipher_partial c);
  match r with
  | inl e => cipher_fail_out e
  | inr (block, _) =>
      if negb (pkcs7_invalid block block_size =? 0) then cipher_fail_out PSA_ERROR_INVALID_PADDING
      else
        let plain_len := block_size - block_at block (block_size - 1) in
        if output_size <? plain_len then cipher_fail_out PSA_ERROR_BUFFER_TOO_SMALL
        else psa_cipher_abort;; mret (PSA_SUCCESS, take (Z.to_nat plain_len) block)
  end.

Definition psa_cipher_finish (output : bool) (output_size : Z) (output_length : bool)
: CM (psa_status_t * list byte) :=
c ← get_ctx;
if negb output_length then cipher_fail_out PSA_ERROR_INVALID_ARGUMENT
else
  match c with
  | None => cipher_fail_out PSA_ERROR_BAD_STATE
  | Some c =>
      if negb output && (0 <? output_size) then cipher_fail_out PSA_ERROR_INVALID_ARGUMENT
      else if cipher_alg c =? PSA_ALG_CBC_PKCS7 then
        if negb (cipher_iv_set c) then cipher_fail_out PSA_ERROR_BAD_STATE
        else
          match cipher_direction c with
          | AES_ENCRYPTION => cipher_finish_encrypt c output_size
          | AES_DECRYPTION => cipher_finish_decrypt c output_size
          end
      else if ((cipher_alg c =? PSA_ALG_CBC_NO_PADDING) || (cipher_alg c =? PSA_ALG_ECB_NO_PADDING))
              && negb (zlen (cipher_partial c) =? 0)
      then cipher_fail_out PSA_ERROR_INVALID_ARGUMENT
      else psa_cipher_abort;; mret (PSA_SUCCESS, [])
  end.

(** * One shot: on a local operation object *)

(** An error after setup. *)
Definition cipher_abort_out (e : psa_status_t) : CM (psa_status_t * list byte) :=
psa_cipher_abort;; mret (e, []).

(** The output buffer from [n] bytes on: a NULL pointer is not advanced. *)
Definition io_rest (io : cipher_io) (data : input) (in_addr n : Z) : cipher_io :=
mkIo data in_addr (io_output io) (if io_output io then io_out_addr io + n else io_out_addr io)
  (io_output_size io - n) true.

(** The update and the finish of both one-shot calls. *)
Definition cipher_run (io : cipher_io) : CM (psa_status_t * list byte) :=
'(status, out) ← psa_cipher_update io;
match status with
| PSA_SUCCESS =>
    '(status, last) ← psa_cipher_finish (io_output io) (io_output_size io - zlen out) true;
    match status with
    | PSA_SUCCESS => psa_cipher_abort;; mret (PSA_SUCCESS, out ++ last)
    | e => cipher_abort_out e
    end
| e => cipher_abort_out e
end.

Definition psa_cipher_encrypt (key alg : Z) (io : cipher_io) : CM (psa_status_t * list byte) :=
set_ctx None;;
if negb (io_output_length io) then mret (PSA_ERROR_INVALID_ARGUMENT, [])
else if negb (io_output io) && (0 <? io_output_size io) then mret (PSA_ERROR_INVALID_ARGUMENT, [])
else if io_overlap io then mret (PSA_ERROR_NOT_SUPPORTED, [])
else
  status ← psa_cipher_encrypt_setup key alg;
  match status with
  | PSA_SUCCESS =>
      c ← get_ctx;
      match c with
      | None => cipher_abort_out PSA_ERROR_BAD_STATE
      | Some c =>
          let iv_len := wolfpsa_cipher_iv_length alg (cipher_key_type c) in
          '(status, iv) ←
            (if negb (iv_len =? 0) then
               if io_output_size io <? iv_len then mret (PSA_ERROR_BUFFER_TOO_SMALL, [])
               else psa_cipher_generate_iv true AES_BLOCK_SIZE true
             else mret (PSA_SUCCESS, []));
          match status with
          | PSA_SUCCESS =>
              '(status, out) ← cipher_run (io_rest io (io_input io) (io_in_addr io) (zlen iv));
              mret (status, match status with PSA_SUCCESS => iv ++ out | _ => [] end)
          | e => cipher_abort_out e
          end
      end
  | e => mret (e, [])
  end.

Definition psa_cipher_decrypt (key alg : Z) (io : cipher_io) : CM (psa_status_t * list byte) :=
set_ctx None;;
let data := io_input io in
if negb (io_output_length io) then mret (PSA_ERROR_INVALID_ARGUMENT, [])
else if negb (io_output io) && (0 <? io_output_size io) then mret (PSA_ERROR_INVALID_ARGUMENT, [])
else if is_null data && (0 <? input_length data) then mret (PSA_ERROR_INVALID_ARGUMENT, [])
else if io_overlap io then mret (PSA_ERROR_NOT_SUPPORTED, [])
else
  status ← psa_cipher_decrypt_setup key alg;
  match status with
  | PSA_SUCCESS =>
      c ← get_ctx;
      match c with
      | None => cipher_abort_out PSA_ERROR_BAD_STATE
      | Some c =>
          let iv_len := wolfpsa_cipher_iv_length alg (cipher_key_type c) in
          status ←
            (if negb (iv_len =? 0) then
               if input_length data <? iv_len then mret PSA_ERROR_INVALID_ARGUMENT
               else psa_cipher_set_iv (Bytes (take (Z.to_nat iv_len) (input_bytes data)))
             else mret PSA_SUCCESS);
          match status with
          | PSA_SUCCESS =>
              let rest := if is_null data then data
                          else Bytes (drop (Z.to_nat iv_len) (input_bytes data)) in
              let in_addr := if is_null data then io_in_addr io else io_in_addr io + iv_len in
              cipher_run (io_rest io rest in_addr 0)
          | e => cipher_abort_out e
          end
      end
  | e => mret (e, [])
  end.
End Cipher.
