(* ===== verification/CipherRules.v ===== *)
(** What a cipher operation has ciphered, and the rules of its entry points.

    [emitted] says how much of [n] bytes of input is ciphered at once: all of it
    in the stream modes, the complete blocks in the block modes, and the
    complete blocks but the last when removing a padding.  [cipher_ok] is the
    invariant of a context that has its initial vector: its wolfCrypt context
    has processed the first [emitted] bytes of the input, and the rest is in
    [cipher_partial]. *)

From stdpp Require Import base decidable list.
From Stdlib Require Import ZArith Lia.
From Stdlib Require Import Strings.Byte.
From S2P Require Import Prelude.
From S2P Require Import Values.
From S2P Require Import Engine.
From S2P Require Import WolfCipher.
From S2P Require Import KeyPolicy.
From S2P Require Import KeyFormat.
From S2P Require Import StoreIface.
From S2P Require Import Library.
From S2P Require Import KeyStore.
From S2P Require Import KeyStoreRules.
From S2P Require Import Operation.
From S2P Require Import Cipher.

#[local] Open Scope Z_scope.

(** * How much is ciphered *)

(** [n] rounded down to a multiple of [b]. *)
Definition floor_to (b n : Z) : Z := n / b * b.

Lemma floor_divide b n : (b | floor_to b n).
Proof. by exists (n / b). Qed.

Lemma floor_bounds b n : 0 < b -> 0 <= n -> 0 <= floor_to b n <= n /\ n < floor_to b n + b.
Proof.
  intros Hb Hn. unfold floor_to. pose proof (Z.div_mod n b ltac:(lia)).
  pose proof (Z.mod_pos_bound n b Hb). pose proof (Z.div_pos n b Hn Hb). nia.
Qed.

(** Rounding commutes with the removal of whole blocks. *)
Lemma floor_sub b n m : 0 < b -> (b | m) -> floor_to b (n - m) = floor_to b n - m.
Proof.
  intros Hb [k ->]. unfold floor_to.
  replace (n - k * b) with (n + (- k) * b) by lia. rewrite Z.div_add by lia. lia.
Qed.

Lemma floor_unique b n m : 0 < b -> (b | m) -> m <= n < m + b -> floor_to b n = m.
Proof.
  intros Hb [k ->] Hn. unfold floor_to. f_equal. symmetry.
  apply (Z.div_unique_pos n b k (n - k * b)); lia.
Qed.

Lemma floor_mono b n m : 0 < b -> n <= m -> floor_to b n <= floor_to b m.
Proof. intros Hb Hn. unfold floor_to. apply Z.mul_le_mono_nonneg_r, Z.div_le_mono; lia. Qed.

Section CipherRules.
Context {C : Config} {E : WolfCryptErr} {EO : WolfCryptErrOk E} {K : WolfCryptKeys}.
Context {R : WolfCryptRng} {O : StoreOps} {B : KeyBackend}.
Context {W : WolfCryptCipher} {WT : WolfCryptCt} {WO : WolfCryptCipherOk W}.

Implicit Types c : wolfpsa_cipher_ctx.
Implicit Types s : opstate O wolfpsa_cipher_ctx.

(** wolfCrypt's mode for an algorithm and a key type. *)
Definition cipher_mode (alg key_type : Z) : wc_mode :=
if alg =? PSA_ALG_STREAM_CIPHER then WC_CHACHA20
else if negb NO_DES3 && (key_type =? PSA_KEY_TYPE_DES) then
  WC_DES3 (if alg =? PSA_ALG_ECB_NO_PADDING then DES3_ECB else DES3_CBC)
else
  WC_AES (if alg =? PSA_ALG_ECB_NO_PADDING then AES_ECB
          else if (alg =? PSA_ALG_CBC_NO_PADDING) || (alg =? PSA_ALG_CBC_PKCS7) then AES_CBC
          else if alg =? PSA_ALG_CFB then AES_CFB
          else if alg =? PSA_ALG_OFB then AES_OFB
          else AES_CTR).

(** Padding is being removed. *)
Definition keeps_last (alg : Z) (d : direction) : bool :=
(alg =? PSA_ALG_CBC_PKCS7) && bool_decide (d = AES_DECRYPTION).

Definition emitted (alg key_type : Z) (d : direction) (n : Z) : Z :=
let b := mode_unit (cipher_mode alg key_type) in
if keeps_last alg d then if n =? 0 then 0 else floor_to b (n - 1) else floor_to b n.

(** What [setup] accepts. *)
Definition cipher_suits (alg key_type : Z) : Prop :=
wolfpsa_cipher_check_alg alg = PSA_SUCCESS /\ cipher_type_check alg key_type = PSA_SUCCESS /\
NO_DES3 && (key_type =? PSA_KEY_TYPE_DES) = false.

(** The eight kinds of operation. *)
Inductive cipher_kind : Z -> Z -> wc_mode -> Prop :=
| kind_chacha : HAVE_CHACHA = true ->
  cipher_kind PSA_ALG_STREAM_CIPHER PSA_KEY_TYPE_CHACHA20 WC_CHACHA20
| kind_des_cbc alg : NO_DES3 = false -> alg = PSA_ALG_CBC_NO_PADDING \/ alg = PSA_ALG_CBC_PKCS7 ->
  cipher_kind alg PSA_KEY_TYPE_DES (WC_DES3 DES3_CBC)
| kind_des_ecb : NO_DES3 = false -> WOLFSSL_DES_ECB = true ->
  cipher_kind PSA_ALG_ECB_NO_PADDING PSA_KEY_TYPE_DES (WC_DES3 DES3_ECB)
| kind_aes_cbc alg : alg = PSA_ALG_CBC_NO_PADDING \/ alg = PSA_ALG_CBC_PKCS7 ->
  cipher_kind alg PSA_KEY_TYPE_AES (WC_AES AES_CBC)
| kind_aes_ecb : HAVE_AES_ECB = true ->
  cipher_kind PSA_ALG_ECB_NO_PADDING PSA_KEY_TYPE_AES (WC_AES AES_ECB)
| kind_aes_ctr alg : WOLFSSL_AES_COUNTER = true ->
  alg = PSA_ALG_CTR \/ alg = PSA_ALG_CCM_STAR_NO_TAG ->
  cipher_kind alg PSA_KEY_TYPE_AES (WC_AES AES_CTR)
| kind_aes_cfb : WOLFSSL_AES_CFB = true ->
  cipher_kind PSA_ALG_CFB PSA_KEY_TYPE_AES (WC_AES AES_CFB)
| kind_aes_ofb : WOLFSSL_AES_OFB = true ->
  cipher_kind PSA_ALG_OFB PSA_KEY_TYPE_AES (WC_AES AES_OFB).

Lemma kind_mode alg key_type m : cipher_kind alg key_type m -> cipher_mode alg key_type = m.
Proof.
unfold cipher_mode. intros [Hc|a Hd [->| ->]|Hd He|a [->| ->]|He|a Hc [->| ->]|Hc|Hc];
  rewrite ?Hd; simpl; try done; by destruct NO_DES3.
Qed.

Lemma check_alg_cases alg :
wolfpsa_cipher_check_alg alg = PSA_SUCCESS ->
(alg = PSA_ALG_CBC_NO_PADDING \/ alg = PSA_ALG_CBC_PKCS7) \/ alg = PSA_ALG_ECB_NO_PADDING \/
(WOLFSSL_AES_COUNTER = true /\ (alg = PSA_ALG_CTR \/ alg = PSA_ALG_CCM_STAR_NO_TAG)) \/
(WOLFSSL_AES_CFB = true /\ alg = PSA_ALG_CFB) \/ (WOLFSSL_AES_OFB = true /\ alg = PSA_ALG_OFB) \/
(HAVE_CHACHA = true /\ alg = PSA_ALG_STREAM_CIPHER).
Proof.
unfold wolfpsa_cipher_check_alg. destruct (PSA_ALG_IS_CIPHER alg); [|done]. cbn [negb].
destruct (Z.eqb_spec alg PSA_ALG_CBC_NO_PADDING); [auto|].
destruct (Z.eqb_spec alg PSA_ALG_CBC_PKCS7); [auto|].
destruct (Z.eqb_spec alg PSA_ALG_ECB_NO_PADDING); [auto|]. rewrite andb_false_r. cbn [orb].
destruct (Z.eqb_spec alg PSA_ALG_CTR), (Z.eqb_spec alg PSA_ALG_CCM_STAR_NO_TAG),
  (Z.eqb_spec alg PSA_ALG_CFB), (Z.eqb_spec alg PSA_ALG_OFB), (Z.eqb_spec alg PSA_ALG_STREAM_CIPHER),
  WOLFSSL_AES_COUNTER, WOLFSSL_AES_CFB, WOLFSSL_AES_OFB, HAVE_CHACHA;
  cbn; try done; subst; try done; tauto.
Qed.

Lemma suits_kind alg key_type :
cipher_suits alg key_type -> exists m, cipher_kind alg key_type m.
Proof.
intros (Ha%check_alg_cases & Ht & Hd). revert Ht Hd. unfold cipher_type_check.
destruct (Z.eqb_spec key_type PSA_KEY_TYPE_DES) as [->|_];
  [|destruct (Z.eqb_spec key_type PSA_KEY_TYPE_AES) as [->|_];
    [|destruct (Z.eqb_spec key_type PSA_KEY_TYPE_CHACHA20) as [->|_]]];
  (destruct Ha as [Ha|[->|[[Hf Ha]|[[Hf ->]|[[Hf ->]|[Hf ->]]]]]];
    [destruct Ha as [->| ->]| |destruct Ha as [->| ->]|..]);
  rewrite ?andb_false_r, ?andb_true_r; cbn; try done;
  try (destruct HAVE_AES_ECB eqn:He; [|done]); intros Ht Hd;
  try (eexists; econstructor; by auto).
- destruct NO_DES3 eqn:H3, WOLFSSL_DES_ECB eqn:He; try done. eexists. by apply kind_des_ecb.
- by rewrite Hf in Ht.
- by rewrite Hf in Ht.
- by rewrite Hf in Ht.
Qed.
(** * Contexts *)

(** What the calls of wolfCrypt leave alone. *)
Definition cipher_shape c :=
(cipher_alg c, cipher_key_type c, cipher_key_bits c, cipher_direction c, cipher_iv_set c,
 cipher_iv_attempted c, cipher_is_chacha c, cipher_is_des3 c, cipher_block_size c, cipher_iv c).

Record cipher_wf c : Prop := {
wf_suits : exists m, cipher_kind (cipher_alg c) (cipher_key_type c) m;
wf_chacha : cipher_is_chacha c = (cipher_alg c =? PSA_ALG_STREAM_CIPHER);
wf_des3 : cipher_is_des3 c = negb NO_DES3 && (cipher_key_type c =? PSA_KEY_TYPE_DES);
wf_block : cipher_block_size c = wolfpsa_cipher_block_size (cipher_key_type c);
wf_attempted : cipher_iv_attempted c = cipher_iv_set c }.

Lemma wf_shape c c' : cipher_shape c' = cipher_shape c -> cipher_wf c -> cipher_wf c'.
Proof.
intros [= H1 H2 _ _ H3 H4 H5 H6 H7 _] []. by split; rewrite ?H1, ?H2, ?H3, ?H4, ?H5, ?H6, ?H7.
Qed.

Definition mode_of c : wc_mode := cipher_mode (cipher_alg c) (cipher_key_type c).
Definition unit_of c : Z := mode_unit (mode_of c).

(** The wolfCrypt context has processed [x]. *)
Definition engine_has c (key iv x : list byte) : Prop :=
match mode_of c with
| WC_AES m => aes_has m (cipher_direction c) key iv (cipher_aes c) x
| WC_DES3 m => des3_has m (cipher_direction c) key iv (cipher_des3 c) x
| WC_CHACHA20 => chacha_has key iv (cipher_chacha c) x
end.

(** The text processed so far, ciphered. *)
Definition crypt_of c (key iv x : list byte) : list byte := crypt (mode_of c) (cipher_direction c) key iv x.

Lemma crypt_of_shape c c' key iv x :
cipher_shape c' = cipher_shape c -> crypt_of c' key iv x = crypt_of c key iv x.
Proof. intros [= H1 H2 _ H3 _ _ _ _ _ _]. unfold crypt_of, mode_of. by rewrite H1, H2, H3. Qed.

Lemma unit_shape c c' : cipher_shape c' = cipher_shape c -> unit_of c' = unit_of c.
Proof. intros [= H1 H2 _ _ _ _ _ _ _ _]. unfold unit_of, mode_of. by rewrite H1, H2. Qed.

Lemma engine_partial c l key iv x :
engine_has (cipher_with_partial l c) key iv x = engine_has c key iv x.
Proof. done. Qed.

Lemma partial_self c : cipher_with_partial (cipher_partial c) c = c.
Proof. by destruct c. Qed.

(** Block modes work on the blocks of the key type. *)
Lemma unit_block c :
cipher_wf c -> cipher_is_block_alg (cipher_alg c) = true -> unit_of c = cipher_block_size c.
Proof.
intros [[m Hk] _ _ -> _] Hb. unfold unit_of, mode_of. rewrite (kind_mode _ _ _ Hk).
revert Hb. unfold wolfpsa_cipher_block_size.
destruct Hk as [Hc|a Hd [->| ->]|Hd He|a [->| ->]|He|a Hc [->| ->]|Hc|Hc];
  rewrite ?Hd; try done; by destruct NO_DES3.
Qed.

Lemma unit_stream c :
cipher_wf c -> cipher_is_block_alg (cipher_alg c) = false -> unit_of c = 1.
Proof.
intros [[m Hk] _ _ _ _] Hb. unfold unit_of, mode_of. rewrite (kind_mode _ _ _ Hk).
revert Hb. by destruct Hk as [Hc|a Hd [->| ->]|Hd He|a [->| ->]|He|a Hc [->| ->]|Hc|Hc].
Qed.

(** * Calls of wolfCrypt *)

Notation crypt_call := (wolfpsa_cipher_ctx -> list byte ->
                        M (opstate O wolfpsa_cipher_ctx) (psa_status_t + list byte * wolfpsa_cipher_ctx)).

(** The call that the branch of the algorithm makes. *)
Definition alg_call (alg : Z) (d : direction) : crypt_call :=
if (alg =? PSA_ALG_CBC_NO_PADDING) || (alg =? PSA_ALG_CBC_PKCS7) then cipher_cbc_call d
else if alg =? PSA_ALG_ECB_NO_PADDING then cipher_ecb_call d
else if alg =? PSA_ALG_STREAM_CIPHER then cipher_chacha_call
else if alg =? PSA_ALG_CFB then
  cipher_aes_call match d with AES_ENCRYPTION => wc_AesCfbEncrypt | AES_DECRYPTION => wc_AesCfbDecrypt end
else if alg =? PSA_ALG_OFB then
  cipher_aes_call match d with AES_ENCRYPTION => wc_AesOfbEncrypt | AES_DECRYPTION => wc_AesOfbDecrypt end
else cipher_aes_call wc_AesCtrEncrypt.

(** The result of such a call: an error, or the next part of the output. *)
Definition call_ok c (key iv x y : list byte) s
  (Q : psa_status_t + list byte * wolfpsa_cipher_ctx -> opstate O wolfpsa_cipher_ctx -> Prop) : Prop :=
(forall e s', same_ctx s s' -> e <> PSA_SUCCESS -> (smooth s -> False) -> Q (inl e) s') /\
(forall out c' s', same_ctx s s' -> (smooth s -> smooth s') ->
   cipher_shape c' = cipher_shape c -> cipher_partial c' = cipher_partial c ->
   engine_has c' key iv (x ++ y) -> crypt_of c key iv (x ++ y) = crypt_of c key iv x ++ out ->
   Q (inr (out, c')) s').

Lemma wp_aes_call m run c key iv x y s Q :
mode_of c = WC_AES m -> run = aes_run m (cipher_direction c) -> (unit_of c | zlen y) ->
engine_has c key iv x -> call_ok c key iv x y s Q -> wp (cipher_aes_call run c y) Q s.
Proof.
intros Hm -> Hy Hx [Hbad Hgood]. unfold engine_has, unit_of in Hx, Hy. rewrite Hm in Hx, Hy.
apply (wp_checked_call (fun e => mret (inl e))); [intros e s' H1 H2 H3; by apply wp_ret, Hbad|].
intros s' Hs Hsm.
pose proof (aes_step m _ key iv _ x y Hy Hx) as Hstep.
destruct (aes_run m (cipher_direction c) (cipher_aes c) y) as [out a]. destruct Hstep as [H1 H2].
apply wp_ret, Hgood; try done.
- unfold engine_has. change (mode_of _) with (mode_of c). by rewrite Hm.
- unfold crypt_of. by rewrite Hm.
Qed.

Lemma wp_des3_call m run c key iv x y s Q :
mode_of c = WC_DES3 m -> run = des3_run m (cipher_direction c) -> (unit_of c | zlen y) ->
engine_has c key iv x -> call_ok c key iv x y s Q -> wp (cipher_des3_call run c y) Q s.
Proof.
intros Hm -> Hy Hx [Hbad Hgood]. unfold engine_has, unit_of in Hx, Hy. rewrite Hm in Hx, Hy.
apply (wp_checked_call (fun e => mret (inl e))); [intros e s' H1 H2 H3; by apply wp_ret, Hbad|].
intros s' Hs Hsm.
pose proof (des3_step m _ key iv _ x y Hy Hx) as Hstep.
destruct (des3_run m (cipher_direction c) (cipher_des3 c) y) as [out a]. destruct Hstep as [H1 H2].
apply wp_ret, Hgood; try done.
- unfold engine_has. change (mode_of _) with (mode_of c). by rewrite Hm.
- unfold crypt_of. by rewrite Hm.
Qed.

Lemma wp_chacha_call c key iv x y s Q :
mode_of c = WC_CHACHA20 -> engine_has c key iv x -> call_ok c key iv x y s Q ->
wp (cipher_chacha_call c y) Q s.
Proof.
intros Hm Hx [Hbad Hgood]. unfold engine_has in Hx. rewrite Hm in Hx.
apply (wp_checked_call (fun e => mret (inl e))); [intros e s' H1 H2 H3; by apply wp_ret, Hbad|].
intros s' Hs Hsm.
pose proof (chacha_step (cipher_direction c) key iv _ x y Hx) as Hstep.
destruct (wc_Chacha_Process (cipher_chacha c) y) as [out a]. destruct Hstep as [H1 H2].
apply wp_ret, Hgood; try done.
- unfold engine_has. change (mode_of _) with (mode_of c). by rewrite Hm.
- unfold crypt_of. by rewrite Hm.
Qed.

Lemma wp_alg_call alg d c key iv x y s Q :
cipher_wf c -> alg = cipher_alg c -> d = cipher_direction c -> (unit_of c | zlen y) ->
engine_has c key iv x -> call_ok c key iv x y s Q -> wp (alg_call alg d c y) Q s.
Proof.
intros [[m Hk] _ Hd3 _ _] -> -> Hy Hx HQ. pose proof (kind_mode _ _ _ Hk) as Hm. fold (mode_of c) in Hm.
unfold alg_call. revert Hd3.
destruct Hk as [Hc|a Hd [->| ->]|Hd He|a [->| ->]|He|a Hc [->| ->]|Hc|Hc];
  rewrite ?Hd, ?andb_false_r; simpl; unfold cipher_cbc_call, cipher_ecb_call; intros Hd3;
  rewrite ?Hd3, ?Hd, ?He; simpl.
1: by eapply wp_chacha_call.
all: destruct (cipher_direction c) eqn:Hdir;
  first [by eapply wp_aes_call; rewrite ?Hdir | by eapply wp_des3_call; rewrite ?Hdir].
Qed.

(** ** One call, or two, over the partial block and the input *)

Lemma wp_first_block alg d c key iv x data s
  (Q : psa_status_t + list byte * Z * wolfpsa_cipher_ctx -> opstate O wolfpsa_cipher_ctx -> Prop) :
let p := zlen (cipher_partial c) in
let b := cipher_block_size c in
cipher_wf c -> cipher_is_block_alg (cipher_alg c) = true -> alg = cipher_alg c ->
d = cipher_direction c -> engine_has c key iv x -> 0 < b <= UINT32_MAX ->
p <= b -> (0 < p -> b <= p + zlen data) ->
(forall e s', same_ctx s s' -> e <> PSA_SUCCESS -> (smooth s -> False) -> Q (inl e) s') ->
(forall out c' s', let first := if 0 <? p then b else 0 in let offset := if 0 <? p then b - p else 0 in
   same_ctx s s' -> (smooth s -> smooth s') -> cipher_shape c' = cipher_shape c ->
   cipher_partial c' = [] ->
   let y := cipher_partial c ++ slice data 0 offset in
   zlen y = first -> engine_has c' key iv (x ++ y) ->
   crypt_of c key iv (x ++ y) = crypt_of c key iv x ++ out -> Q (inr (out, offset, c')) s') ->
wp (cipher_first_block (alg_call alg d) c data) Q s.
Proof.
intros p b Hwf Hblk Ha Hd Hx Hb Hp Hn Hbad Hgood. unfold cipher_first_block. fold p b.
pose proof (zlen_nonneg (cipher_partial c)) as Hp0. fold p in Hp0.
destruct (Z.ltb_spec 0 p) as [Hp1|Hp1].
- specialize (Hn Hp1). set (y := cipher_partial c ++ slice data 0 (b - p)) in *.
  assert (Hy : zlen y = b). { unfold y. rewrite zlen_app, zlen_slice by lia. fold p. lia. }
  rewrite word32_buf_small by (apply fits_word32_spec; lia).
  apply wp_bind, (wp_alg_call _ _ _ key iv x); [done..| |done|].
  { rewrite (unit_block c Hwf Hblk), Hy. apply Z.divide_refl. }
  split; [intros; by apply wp_ret, Hbad|]. intros out c' s' Hs Hsm Hsh _ Hx' Hcr.
  by apply wp_ret, (Hgood out (cipher_with_partial [] c')).
- assert (H0 : cipher_partial c = []) by (apply zlen_0_nil; fold p; lia).
  apply wp_ret, (Hgood [] c); rewrite ?H0; simpl; rewrite ?slice_0; simpl; rewrite ?app_nil_r; done.
Qed.

Lemma wp_full_blocks alg d c key iv x data offset n s Q :
cipher_wf c -> cipher_is_block_alg (cipher_alg c) = true -> alg = cipher_alg c ->
d = cipher_direction c -> engine_has c key iv x -> fits_word32 (zlen data) = true ->
0 <= offset -> 0 <= n -> offset + n <= zlen data -> (cipher_block_size c | n) ->
call_ok c key iv x (slice data offset n) s Q ->
wp (cipher_full_blocks (alg_call alg d) c data offset n) Q s.
Proof.
intros Hwf Hblk Ha Hd Hx Hfit Ho Hn Hle Hdiv [Hbad Hgood]. unfold cipher_full_blocks.
apply fits_word32_spec in Hfit. assert (Hl : zlen (slice data offset n) = n) by (apply zlen_slice; lia).
destruct (Z.ltb_spec 0 n) as [Hn1|Hn1].
- rewrite word32_buf_small by (apply fits_word32_spec; lia).
  apply (wp_alg_call _ _ _ key iv x); try done. by rewrite (unit_block c Hwf Hblk), Hl.
- assert (Hs : slice data offset n = []) by (apply zlen_0_nil; lia).
  apply wp_ret, Hgood; rewrite ?Hs, ?app_nil_r; done.
Qed.

Lemma keep_rest_eq c data offset :
cipher_partial c = [] ->
cipher_keep_rest c data offset = cipher_with_partial (drop (Z.to_nat offset) data) c.
Proof.
intros H0. unfold cipher_keep_rest. destruct (Z.ltb_spec offset (zlen data)) as [|Hge]; [done|].
rewrite drop_ge by (unfold zlen in Hge; lia). rewrite <- H0 at 1. symmetry. apply partial_self.
Qed.
(** The first [k] bytes of the partial block and the input, as the two calls
    split them. *)
Lemma split_blocks (pa data : list byte) b k :
let p := zlen pa in
let first := if 0 <? p then b else 0 in
let offset := if 0 <? p then b - p else 0 in
0 <= k -> p <= b -> (0 < p -> b <= k) -> k <= p + zlen data ->
take (Z.to_nat k) (pa ++ data) = (pa ++ slice data 0 offset) ++ slice data offset (k - first) /\
drop (Z.to_nat k) (pa ++ data) = drop (Z.to_nat (offset + (k - first))) data.
Proof.
intros p first offset Hk Hp Hb Hle. pose proof (zlen_nonneg pa) as Hp0. fold p in Hp0.
assert (Hsum : offset + (k - first) = k - p).
{ unfold offset, first. destruct (Z.ltb_spec 0 p); lia. }
assert (Hoff : 0 <= offset /\ 0 <= k - first /\ p <= k).
{ unfold offset, first. destruct (Z.ltb_spec 0 p); lia. }
pose proof (slice_app data 0 offset (k - first) ltac:(lia) ltac:(lia) ltac:(lia)) as Hs.
rewrite Z.add_0_l in Hs. rewrite Hsum, <- app_assoc, <- Hs, Hsum, slice_0, take_app_ge, drop_app_ge
  by (unfold p, zlen in *; lia).
replace (Z.to_nat k - length pa)%nat with (Z.to_nat (k - p)) by (unfold p, zlen in *; lia). done.
Qed.

(** The result of a branch of [update] that ciphers [k] more bytes. *)
Definition update_ok c (key iv x data : list byte) (k output_size : Z) s
  (Q : psa_status_t * list byte -> opstate O wolfpsa_cipher_ctx -> Prop) : Prop :=
let l := cipher_partial c ++ data in
(forall e s', op_ctx s' = None -> e <> PSA_SUCCESS -> (k <= output_size -> smooth s -> False) ->
   Q (e, []) s') /\
(forall out c' s', op_ctx s' = Some c' -> (smooth s -> smooth s') ->
   cipher_shape c' = cipher_shape c -> cipher_partial c' = drop (Z.to_nat k) l ->
   engine_has c' key iv (x ++ take (Z.to_nat k) l) ->
   crypt_of c key iv (x ++ take (Z.to_nat k) l) = crypt_of c key iv x ++ out ->
   k <= output_size -> Q (PSA_SUCCESS, out) s').

Lemma wp_fail_out e (Q : psa_status_t * list byte -> opstate O wolfpsa_cipher_ctx -> Prop) s :
(forall s', op_ctx s' = None -> op_lib s' = op_lib s -> op_rets s' = op_rets s -> Q (e, []) s') ->
wp (cipher_fail_out e) Q s.
Proof. intros HQ. unfold cipher_fail_out, wolfpsa_cipher_fail, psa_cipher_abort. wp_seq. by apply HQ. Qed.

Lemma wp_fail_error e k (P : Prop) Q s :
e <> PSA_SUCCESS ->
(forall e s', op_ctx s' = None -> e <> PSA_SUCCESS -> (k -> P -> False) -> Q (e, []) s') ->
(k -> P -> False) -> wp (cipher_fail_out e) Q s.
Proof. intros He HQ Hno. apply wp_fail_out. intros s' Hc _ _. by apply HQ. Qed.

(** Input that completes no block. *)
Lemma wp_buffer c key iv x data size s Q :
0 <= size -> engine_has c key iv x -> update_ok c key iv x data 0 size s Q ->
wp (cipher_buffer c data) Q s.
Proof.
intros Hsize Hx [_ Hgood]. unfold cipher_buffer, set_ctx. wp_seq.
eapply (Hgood []); simpl; rewrite ?app_nil_r; done.
Qed.

(** The calls over the first [k] bytes, then [rest]. *)
Lemma wp_two_calls alg d c key iv x data k size s Q
  (rest : wolfpsa_cipher_ctx -> Z -> list byte -> wolfpsa_cipher_ctx -> list byte ->
          M (opstate O wolfpsa_cipher_ctx) (psa_status_t * list byte)) :
let p := zlen (cipher_partial c) in
let b := cipher_block_size c in
let first := if 0 <? p then b else 0 in
cipher_wf c -> cipher_is_block_alg (cipher_alg c) = true -> alg = cipher_alg c ->
d = cipher_direction c -> engine_has c key iv x -> fits_word32 (zlen data) = true ->
0 < b <= UINT32_MAX -> (b | k) -> 0 < k -> p <= b -> k <= p + zlen data -> k <= size ->
update_ok c key iv x data k size s Q ->
(forall c' offset out c'' out' s', cipher_shape c'' = cipher_shape c -> cipher_partial c'' = [] ->
   offset = (if 0 <? p then b - p else 0) ->
   (forall s'', op_ctx s'' = Some (cipher_with_partial (drop (Z.to_nat (offset + (k - first))) data) c'') ->
      op_rets s'' = op_rets s' -> op_lib s'' = op_lib s' -> Q (PSA_SUCCESS, out ++ out') s'') ->
   wp (rest c' offset out c'' out') Q s') ->
wp (cipher_first_block (alg_call alg d) c data)
  (fun r s' => match r with
     | inl e => wp (cipher_fail_out e) Q s'
     | inr (out, offset, c') =>
         offset = (if 0 <? p then b - p else 0) /\ cipher_shape c' = cipher_shape c /\
         cipher_partial c' = [] /\
         wp (r ← cipher_full_blocks (alg_call alg d) c' data offset (k - first);
             match r with
             | inl e => cipher_fail_out e
             | inr (out', c'') => rest c' offset out c'' out'
             end) Q s'
     end) s.
Proof.
intros p b first Hwf Hblk Ha Hd Hx Hfit Hb Hdiv Hk Hp Hle Hsz [Hbad Hgood] Hrest.
assert (Hbk : b <= k) by (apply Z.divide_pos_le; done).
destruct (split_blocks (cipher_partial c) data b k) as [Htake Hdrop]; [lia|done|done|done|].
fold p in Htake, Hdrop. fold first in Htake, Hdrop.
assert (Hfirst : 0 <= k - first /\ (b | k - first)).
{ unfold first. destruct (0 <? p); split; try lia; [|by rewrite Z.sub_0_r].
  apply Z.divide_sub_r; [done|apply Z.divide_refl]. }
apply (wp_first_block _ _ _ key iv x); try done; [fold p b; lia| |]; fold p b.
{ intros e s' Hs He Hno. eapply wp_fail_error; [done|exact Hbad|auto]. }
intros out c' s' first' offset Hs Hsm Hsh Hpa y Hy Hx' Hcr.
assert (Hb' : cipher_block_size c' = b) by (by injection Hsh).
split_and!; [done..|]. apply wp_bind, (wp_full_blocks _ _ _ key iv (x ++ y)); try done.
- by eapply wf_shape.
- by injection Hsh as ->.
- by injection Hsh as ->.
- by injection Hsh as _ _ _ ->.
- unfold offset. pose proof (zlen_nonneg (cipher_partial c)). fold p in H. destruct (0 <? p); lia.
- by destruct Hfirst.
- unfold offset, first. pose proof (zlen_nonneg (cipher_partial c)). fold p in H.
  destruct (Z.ltb_spec 0 p); lia.
- rewrite Hb'. by destruct Hfirst.
- split.
  + intros e s2 Hs2 He Hno. eapply wp_fail_error; [done|exact Hbad|auto].
  + intros out' c2 s2 Hs2 Hsm2 Hsh2 Hpa2 Hx2 Hcr2. apply (Hrest c' offset out c2 out').
    * by rewrite Hsh2.
    * by rewrite Hpa2.
    * done.
    * intros s3 Hc3 Hr3 Hl3. eapply (Hgood (out ++ out')); [exact Hc3| | | | | |done].
      -- intros Hsmo. destruct (Hsm2 (Hsm Hsmo)) as [H1 H2]. split; congruence.
      -- simpl. rewrite <- Hsh, <- Hsh2. done.
      -- simpl. by rewrite Hdrop.
      -- rewrite Htake, app_assoc. exact Hx2.
      -- rewrite Htake. fold offset. fold y. rewrite (app_assoc x), <- (crypt_of_shape c c') by done.
         by rewrite Hcr2, (crypt_of_shape c c'), Hcr, app_assoc by done.
Qed.
Lemma block_size_range c : cipher_wf c -> 0 < cipher_block_size c <= UINT32_MAX.
Proof.
intros [_ _ _ -> _]. unfold wolfpsa_cipher_block_size. by repeat case_match.
Qed.

(** Sizes of one update never wrap. *)
Lemma total_size c (data : list byte) :
cipher_wf c -> zlen (cipher_partial c) <= cipher_block_size c -> fits_word32 (zlen data) = true ->
to_size (zlen (cipher_partial c) + zlen data) = zlen (cipher_partial c) + zlen data.
Proof.
intros Hwf%block_size_range Hp Hfit%fits_word32_spec. apply to_size_small.
pose proof (zlen_nonneg (cipher_partial c)). pose proof (zlen_nonneg data).
unfold SIZE_MAX, UINT32_MAX in *. lia.
Qed.

Lemma wp_update_blocks c key iv x data size s Q :
let p := zlen (cipher_partial c) in
let b := cipher_block_size c in
cipher_wf c -> cipher_is_block_alg (cipher_alg c) = true -> engine_has c key iv x ->
fits_word32 (zlen data) = true -> p < b ->
update_ok c key iv x data (floor_to b (p + zlen data)) size s Q ->
wp (cipher_update_blocks (alg_call (cipher_alg c) (cipher_direction c)) c data size) Q s.
Proof.
intros p b Hwf Hblk Hx Hfit Hp HQ. pose proof (block_size_range c Hwf) as Hb. fold b in Hb.
pose proof (zlen_nonneg (cipher_partial c)) as Hp0. fold p in Hp0. pose proof (zlen_nonneg data) as Hn.
unfold cipher_update_blocks. cbv zeta. rewrite total_size by (try done; fold p b; lia). fold p b.
change ((p + zlen data) / b * b) with (floor_to b (p + zlen data)).
destruct (floor_bounds b (p + zlen data)) as [Hk Hk2]; [lia..|].
set (k := floor_to b (p + zlen data)) in *. assert (Hdiv : (b | k)) by apply floor_divide.
destruct (Z.ltb_spec size k) as [Hsz|Hsz].
{ destruct HQ as [Hbad _]. apply wp_fail_out. intros s' Hc _ _. apply Hbad; [done|done|lia]. }
destruct (Z.eqb_spec ((p + zlen data) / b) 0) as [H0|H0].
{ assert (Hk0 : k = 0) by (unfold k, floor_to; lia). rewrite Hk0 in *.
  by apply (wp_buffer c key iv x data size). }
assert (Hbk : 0 < k).
{ unfold k, floor_to. apply Z.mul_pos_pos; [|lia]. pose proof (Z.div_pos (p + zlen data) b). lia. }
assert (Hle : b <= k) by (apply Z.divide_pos_le; done).
set (first := if 0 <? p then b else 0). set (off := if 0 <? p then b - p else 0).
assert (Hfo : k - first = floor_to b (zlen data - off) /\ 0 <= off /\ off + (k - first) = k - p).
{ unfold first, off. destruct (Z.ltb_spec 0 p) as [Hp1|Hp1].
  - split_and!; [|lia..]. unfold k. replace (zlen data - (b - p)) with (p + zlen data - b) by lia.
    by rewrite floor_sub by (lia || apply Z.divide_refl).
  - assert (Hp2 : p = 0) by lia. unfold k. rewrite Hp2, Z.add_0_l, !Z.sub_0_r. split_and!; lia. }
destruct Hfo as (Hfull & Hoff & Hsum).
apply wp_bind. eapply wp_mono.
{ apply (wp_two_calls (cipher_alg c) (cipher_direction c) c key iv x data k size s Q
    (fun c' offset out c'' out' =>
       set_ctx (Some (cipher_keep_rest c'' data (offset + (k - first))));; mret (PSA_SUCCESS, out ++ out')));
    try done; fold p b; [lia..|].
  intros c' offset out c'' out' s' _ Hpa _ HQ'. unfold set_ctx. fold first in HQ'.
  rewrite keep_rest_eq by done. wp_seq. by apply HQ'. }
fold p b. fold first off. intros [e|[[out offset] c']] s'; [done|]. intros (-> & Hsh & Hpa & Hrest).
fold (floor_to b (zlen data - off)). rewrite <- Hfull.
destruct (Z.ltb_spec off (zlen data)) as [Hlt|Hge]; [exact Hrest|].
assert (H0f : 0 <= k - first) by (unfold first; destruct (0 <? p); lia).
assert (H0k : k - first = 0) by lia. rewrite H0k in Hrest.
assert (Hself : cipher_keep_rest c' data (off + 0) = c').
{ unfold cipher_keep_rest. destruct (Z.ltb_spec (off + 0) (zlen data)); [lia|done]. }
change (wp (set_ctx (Some (cipher_keep_rest c' data (off + 0)));; mret (PSA_SUCCESS, out ++ [])) Q s')
  in Hrest.
by rewrite app_nil_r, Hself in Hrest.
Qed.
(** The retained block: the whole rest of the input. *)
Lemma retained_block c (data : list byte) offset b :
cipher_partial c = [] -> 0 <= offset -> zlen data <= offset + b ->
(if offset + b <=? zlen data then cipher_with_partial (slice data offset b) c
 else cipher_keep_rest c data offset) = cipher_with_partial (drop (Z.to_nat offset) data) c.
Proof.
intros Hpa Ho Hle. rewrite keep_rest_eq by done.
destruct (Z.leb_spec (offset + b) (zlen data)); [|done]. f_equal. unfold slice. apply take_ge.
unfold zlen in *. rewrite length_drop. lia.
Qed.

Lemma wp_update_pkcs7_decrypt c key iv x data size s Q :
let p := zlen (cipher_partial c) in
let b := cipher_block_size c in
cipher_wf c -> cipher_alg c = PSA_ALG_CBC_PKCS7 -> cipher_direction c = AES_DECRYPTION ->
engine_has c key iv x -> fits_word32 (zlen data) = true -> 0 < zlen data -> p <= b -> 0 <= size ->
update_ok c key iv x data (floor_to b (p + zlen data - 1)) size s Q ->
wp (cipher_update_pkcs7_decrypt c data size) Q s.
Proof.
intros p b Hwf Halg Hdir Hx Hfit Hn Hp Hs0 HQ. pose proof (block_size_range c Hwf) as Hb. fold b in Hb.
pose proof (zlen_nonneg (cipher_partial c)) as Hp0. fold p in Hp0.
unfold cipher_update_pkcs7_decrypt. cbv zeta. rewrite total_size by (try done; fold p b; lia). fold p b.
change ((p + zlen data - 1) / b * b) with (floor_to b (p + zlen data - 1)).
destruct (floor_bounds b (p + zlen data - 1)) as [Hk Hk2]; [lia..|].
set (k := floor_to b (p + zlen data - 1)) in *. assert (Hdiv : (b | k)) by apply floor_divide.
assert (Hbuf : k = 0 -> wp (cipher_buffer c data) Q s).
{ intros Hk0. rewrite Hk0 in *. by apply (wp_buffer c key iv x data size). }
assert (Hbk : k <> 0 -> b <= k) by (intros; apply Z.divide_pos_le; [lia|done]).
destruct (Z.ltb_spec (p + zlen data) b) as [Hlt|Hge]; [apply Hbuf; destruct (Z.eq_dec k 0); lia|].
destruct (Z.eqb_spec k 0) as [H0|H0]; [by apply Hbuf|]. specialize (Hbk H0).
destruct (Z.ltb_spec size k) as [Hsz|Hsz].
{ destruct HQ as [Hbad _]. apply wp_fail_out. intros s' Hc _ _. apply Hbad; [done|done|lia]. }
set (first := if 0 <? p then b else 0).
apply wp_bind. eapply wp_mono.
{ apply (wp_two_calls PSA_ALG_CBC_PKCS7 AES_DECRYPTION c key iv x data k size s Q
    (fun c' offset out c'' out' =>
       let offset := if 0 <? k - first then offset + (k - first) else offset in
       set_ctx (Some (if offset + b <=? zlen data then cipher_with_partial (slice data offset b) c''
                      else cipher_keep_rest c'' data offset));;
       mret (PSA_SUCCESS, out ++ out')));
    try done; try by rewrite Halg. all: try (fold p b; lia).
  intros c' offset out c'' out' s' _ Hpa -> HQ'. fold p b first in HQ' |- *. unfold set_ctx. cbv zeta.
  assert (Hoff : (if 0 <? k - first then (if 0 <? p then b - p else 0) + (k - first)
                  else if 0 <? p then b - p else 0) = (if 0 <? p then b - p else 0) + (k - first) /\
                 (if 0 <? p then b - p else 0) + (k - first) = k - p).
  { unfold first. destruct (Z.ltb_spec 0 p); (case_match eqn:Hc; [|apply Z.ltb_ge in Hc]; split; lia). }
  destruct Hoff as [-> Hoff]. rewrite Hoff in *. rewrite retained_block by (done || lia).
  wp_seq. by apply HQ'. }
fold p b. fold first. intros [e|[[out offset] c']] s'; [done|]. intros (-> & Hsh & Hpa & Hrest). exact Hrest.
Qed.
Lemma wp_update_stream supported c key iv x data size s Q :
cipher_wf c -> cipher_is_block_alg (cipher_alg c) = false -> engine_has c key iv x ->
fits_word32 (zlen data) = true -> cipher_partial c = [] -> supported = true ->
cipher_iv_set c = true -> update_ok c key iv x data (zlen data) size s Q ->
wp (cipher_update_stream supported (alg_call (cipher_alg c) (cipher_direction c)) c data size) Q s.
Proof.
intros Hwf Hblk Hx Hfit Hpa -> Hiv [Hbad Hgood]. unfold cipher_update_stream. rewrite Hiv. cbn [negb].
rewrite Hpa in *. simpl in Hgood. unfold zlen in Hgood. rewrite Nat2Z.id, firstn_all, drop_all in Hgood.
destruct (Z.ltb_spec size (zlen data)) as [Hsz|Hsz].
{ apply wp_fail_out. intros s' Hc _ _. apply Hbad; [done|done|lia]. }
rewrite word32_buf_small by done.
apply wp_bind, (wp_alg_call _ _ _ key iv x); try done.
{ rewrite (unit_stream c) by done. apply Z.divide_1_l. }
split.
- intros e s' Hs He Hno. by eapply wp_fail_error; [done|exact Hbad|auto].
- intros out c' s' Hs Hsm Hsh Hpa' Hx' Hcr. unfold set_ctx. wp_seq.
  by eapply (Hgood out c'); [| |done|rewrite Hpa'|..].
Qed.

(** * The invariant *)

Definition emit c (n : Z) : Z := emitted (cipher_alg c) (cipher_key_type c) (cipher_direction c) n.

Record cipher_ok c (key iv msg : list byte) : Prop := {
ok_wf : cipher_wf c;
ok_iv : cipher_iv_set c = negb (wolfpsa_cipher_iv_length (cipher_alg c) (cipher_key_type c) =? 0);
ok_partial : cipher_partial c = drop (Z.to_nat (emit c (zlen msg))) msg;
ok_engine : engine_has c key iv (take (Z.to_nat (emit c (zlen msg))) msg) }.

(** All the output so far. *)
Definition cipher_sent c (key iv msg : list byte) : list byte :=
crypt_of c key iv (take (Z.to_nat (emit c (zlen msg))) msg).

Lemma emit_shape c c' n : cipher_shape c' = cipher_shape c -> emit c' n = emit c n.
Proof. intros [= H1 H2 _ H3 _ _ _ _ _ _]. unfold emit. by rewrite H1, H2, H3. Qed.

Lemma sent_shape c c' key iv msg :
cipher_shape c' = cipher_shape c -> cipher_sent c' key iv msg = cipher_sent c key iv msg.
Proof.
intros Hsh. unfold cipher_sent. by rewrite (crypt_of_shape c c'), (emit_shape c c') by done.
Qed.

Lemma unit_pos c : 0 < unit_of c.
Proof. apply mode_unit_pos. Qed.

Lemma emit_bounds c n :
0 <= n -> 0 <= emit c n <= n /\ (unit_of c | emit c n) /\
(if keeps_last (cipher_alg c) (cipher_direction c) then n <= emit c n + unit_of c
 else n < emit c n + unit_of c).
Proof.
intros Hn. pose proof (unit_pos c) as Hu. unfold emit, emitted. fold (mode_of c) (unit_of c).
destruct (keeps_last _ _).
- destruct (Z.eqb_spec n 0) as [->|Hn0]; [split_and!; try lia; apply Z.divide_0_r|].
  pose proof (floor_bounds (unit_of c) (n - 1) Hu ltac:(lia)).
  split_and!; [lia..|apply floor_divide|lia].
- pose proof (floor_bounds (unit_of c) n Hu Hn). split_and!; [lia..|apply floor_divide|lia].
Qed.

(** What [n] more bytes, after [p] retained ones, make complete. *)
Lemma emit_step c n0 n :
0 <= n0 -> 0 < n ->
emit c (n0 + n) = emit c n0 + floor_to (unit_of c)
  (n0 - emit c n0 + n - if keeps_last (cipher_alg c) (cipher_direction c) then 1 else 0).
Proof.
intros Hn0 Hn. pose proof (unit_pos c) as Hu. destruct (emit_bounds c n0 Hn0) as (Hb & Hd & _).
replace (n0 - emit c n0 + n - (if keeps_last _ _ then 1 else 0))
  with (n0 + n - (if keeps_last (cipher_alg c) (cipher_direction c) then 1 else 0) - emit c n0) by lia.
rewrite floor_sub by done. unfold emit at 1, emitted. fold (mode_of c) (unit_of c).
destruct (keeps_last _ _); [|rewrite Z.sub_0_r; lia].
destruct (Z.eqb_spec (n0 + n) 0); lia.
Qed.

Lemma ok_partial_len c key iv msg :
cipher_ok c key iv msg -> zlen (cipher_partial c) = zlen msg - emit c (zlen msg).
Proof.
intros [_ _ -> _]. destruct (emit_bounds c (zlen msg) (zlen_nonneg msg)) as (Hb & _ & _).
unfold zlen in *. rewrite length_drop. lia.
Qed.

(** From the calls to the invariant. *)
Lemma update_ok_intro c key iv msg data size s Q :
let k := emit c (zlen msg + zlen data) - emit c (zlen msg) in
cipher_ok c key iv msg -> 0 <= k ->
(forall e s', op_ctx s' = None -> e <> PSA_SUCCESS -> (k <= size -> smooth s -> False) ->
   Q (e, []) s') ->
(forall out c' s', op_ctx s' = Some c' -> (smooth s -> smooth s') ->
   cipher_shape c' = cipher_shape c -> cipher_ok c' key iv (msg ++ data) ->
   cipher_sent c key iv (msg ++ data) = cipher_sent c key iv msg ++ out -> k <= size ->
   Q (PSA_SUCCESS, out) s') ->
update_ok c key iv (take (Z.to_nat (emit c (zlen msg))) msg) data k size s Q.
Proof.
intros k [Hwf Hiv Hpa Hx] Hk Hbad Hgood. split; [done|].
destruct (emit_bounds c (zlen msg) (zlen_nonneg msg)) as (Hb & _ & _). unfold zlen in Hb at 3.
set (e0 := emit c (zlen msg)) in *.
assert (Hl : cipher_partial c ++ data = drop (Z.to_nat e0) (msg ++ data)).
{ rewrite Hpa. symmetry. apply drop_app_le. lia. }
assert (He : Z.to_nat (emit c (zlen (msg ++ data))) = (Z.to_nat e0 + Z.to_nat k)%nat).
{ rewrite zlen_app. unfold k. lia. }
assert (Ht : take (Z.to_nat e0) msg ++ take (Z.to_nat k) (cipher_partial c ++ data)
             = take (Z.to_nat (emit c (zlen (msg ++ data)))) (msg ++ data)).
{ rewrite Hl, He, <- take_take_drop. f_equal. symmetry. apply take_app_le. lia. }
rewrite Ht, Hl, drop_drop, <- He.
intros out c' s' Hc Hsm Hsh Hpa' Hx' Hcr Hsz. apply (Hgood out c'); try done. split.
- by eapply wf_shape.
- injection Hsh as H1 H2 _ _ H3 _ _ _ _ _. by rewrite H1, H2, H3.
- by rewrite (emit_shape c c').
- by rewrite (emit_shape c c').
Qed.
(** * Update *)

Lemma update_alg_stream c :
cipher_wf c -> cipher_is_block_alg (cipher_alg c) = false ->
exists supported, supported = true /\
  cipher_update_alg c = cipher_update_stream supported (alg_call (cipher_alg c) (cipher_direction c)) c.
Proof.
intros [[m Hk] _ _ _ _]. unfold cipher_update_alg, alg_call.
destruct Hk as [Hc|a Hd [->| ->]|Hd He|a [->| ->]|He|a Hc [->| ->]|Hc|Hc]; intros Hb; try done;
  by eexists; split; [exact Hc|].
Qed.

Lemma iv_set_stream c key iv msg :
cipher_ok c key iv msg -> cipher_is_block_alg (cipher_alg c) = false -> cipher_iv_set c = true.
Proof.
intros [[[m Hk] _ _ _ _] -> _ _]. unfold wolfpsa_cipher_iv_length, wolfpsa_cipher_block_size.
by destruct Hk as [Hc|a Hd [->| ->]|Hd He|a [->| ->]|He|a Hc [->| ->]|Hc|Hc]; try done; repeat case_match.
Qed.

Lemma iv_set_cbc c key iv msg :
cipher_ok c key iv msg -> cipher_alg c = PSA_ALG_CBC_NO_PADDING \/ cipher_alg c = PSA_ALG_CBC_PKCS7 ->
cipher_iv_set c = true.
Proof.
intros [_ -> _ _] Ha. unfold wolfpsa_cipher_iv_length, wolfpsa_cipher_block_size.
by destruct Ha as [->| ->]; simpl; repeat case_match.
Qed.

Lemma ecb_compiled c :
cipher_wf c -> cipher_alg c = PSA_ALG_ECB_NO_PADDING -> HAVE_AES_ECB || WOLFSSL_DES_ECB = true.
Proof.
intros [[m Hk] _ _ _ _] Ha. revert Ha.
by destruct Hk as [Hc|a Hd [->| ->]|Hd He|a [->| ->]|He|a Hc [->| ->]|Hc|Hc]; intros Ha;
  rewrite ?He, ?orb_true_r.
Qed.

(** The branch of a complete algorithm ciphers what the step adds. *)
Lemma wp_update_alg c key iv msg data size s Q :
cipher_ok c key iv msg -> fits_word32 (zlen data) = true -> 0 < zlen data -> 0 <= size ->
update_ok c key iv (take (Z.to_nat (emit c (zlen msg))) msg) data
  (emit c (zlen msg + zlen data) - emit c (zlen msg)) size s Q ->
wp (cipher_update_alg c data size) Q s.
Proof.
intros Hok Hfit Hn Hsz HQ. pose proof (ok_wf _ _ _ _ Hok) as Hwf.
pose proof (ok_engine _ _ _ _ Hok) as Hx.
pose proof (ok_partial_len _ _ _ _ Hok) as Hpl. pose proof (zlen_nonneg msg) as Hm.
destruct (emit_bounds c (zlen msg) Hm) as (Hb & _ & Hheld).
rewrite emit_step, Z.add_simpl_l in HQ by done. rewrite <- Hpl in HQ.
destruct (cipher_is_block_alg (cipher_alg c)) eqn:Hblk.
2: { destruct (update_alg_stream c Hwf Hblk) as (sup & Hsup & ->).
  assert (Hkl : keeps_last (cipher_alg c) (cipher_direction c) = false).
  { unfold keeps_last. unfold cipher_is_block_alg in Hblk. apply orb_false_iff in Hblk as [Hblk _].
    apply orb_false_iff in Hblk as [_ ->]. done. }
  rewrite Hkl in HQ, Hheld. rewrite (unit_stream c Hwf Hblk) in HQ, Hheld.
  assert (Hp0 : cipher_partial c = []) by (apply zlen_0_nil; lia).
  assert (Hfl : forall n, floor_to 1 n = n) by (intros; unfold floor_to; by rewrite Z.div_1_r, Z.mul_1_r).
  rewrite Hp0, Hfl, Z.add_0_l, Z.sub_0_r in HQ.
  apply (wp_update_stream sup c key iv (take (Z.to_nat (emit c (zlen msg))) msg)); try done.
  by eapply iv_set_stream. }
rewrite (unit_block c Hwf Hblk) in HQ, Hheld.
assert (Hblocks : keeps_last (cipher_alg c) (cipher_direction c) = false ->
  wp (cipher_update_blocks (alg_call (cipher_alg c) (cipher_direction c)) c data size) Q s).
{ intros Hkl. rewrite Hkl in HQ, Hheld. rewrite Z.sub_0_r in HQ.
  apply (wp_update_blocks c key iv (take (Z.to_nat (emit c (zlen msg))) msg)); try done. lia. }
unfold cipher_update_alg, cipher_is_block_alg in *.
destruct (Z.eqb_spec (cipher_alg c) PSA_ALG_CBC_NO_PADDING) as [Ha|_].
{ unfold cipher_update_cbc. rewrite (iv_set_cbc c key iv msg) by auto.
  unfold alg_call, keeps_last in Hblocks. rewrite Ha in Hblocks. by apply Hblocks. }
destruct (Z.eqb_spec (cipher_alg c) PSA_ALG_CBC_PKCS7) as [Ha|_].
{ unfold cipher_update_pkcs7. rewrite (iv_set_cbc c key iv msg) by auto. cbn [negb].
  unfold alg_call, keeps_last in *. rewrite Ha in *. destruct (cipher_direction c) eqn:Hdir.
  - by apply Hblocks.
  - apply (wp_update_pkcs7_decrypt c key iv (take (Z.to_nat (emit c (zlen msg))) msg)); try done.
    simpl in Hheld. lia. }
destruct (Z.eqb_spec (cipher_alg c) PSA_ALG_ECB_NO_PADDING) as [Ha|_]; [|done].
assert ((cipher_alg c =? PSA_ALG_CCM_STAR_NO_TAG) = false) as -> by (by rewrite Ha).
unfold cipher_update_ecb. rewrite (ecb_compiled c Hwf Ha).
unfold alg_call, keeps_last in Hblocks. rewrite Ha in Hblocks. by apply Hblocks.
Qed.

End CipherRules.
