(* ===== verification/CipherPadding.v ===== *)
(** The padding of CBC-PKCS7: its reference definition, and the branch-free
    check of [psa_cipher_finish] against it. *)

From stdpp Require Import base decidable list.
From Stdlib Require Import ZArith Lia.
From Stdlib Require Import Strings.Byte.
From S2P Require Import Prelude.
From S2P Require Import Values.
From S2P Require Import WolfCipher.
From S2P Require Import Cipher.
From S2P Require Import CipherRules.

#[local] Open Scope Z_scope.

(** * The reference: [n] bytes of value [n], from 1 to the block size *)

Definition pad_block (n : Z) : list byte := replicate (Z.to_nat n) (z2b n).

Definition pkcs7_pad (b : Z) (msg : list byte) : list byte := msg ++ pad_block (b - zlen msg mod b).

(** [Some] of the text without its padding. *)
Definition pkcs7_unpad (b : Z) (text : list byte) : option (list byte) :=
  let n := b2z (default x00 (last text)) in
  if (1 <=? n) && (n <=? b) && (n <=? zlen text)
     && bool_decide (drop (Z.to_nat (zlen text - n)) text = pad_block n)
  then Some (take (Z.to_nat (zlen text - n)) text)
  else None.

Lemma zlen_pad_block n : 0 <= n -> zlen (pad_block n) = n.
Proof. intros. unfold pad_block, zlen. rewrite length_replicate. lia. Qed.

Lemma pad_block_last n : 0 < n -> last (pad_block n) = Some (z2b n).
Proof.
  intros Hn. unfold pad_block. replace (Z.to_nat n) with (S (Z.to_nat (n - 1))) by lia.
  by rewrite replicate_S_end, last_snoc.
Qed.

Lemma zlen_pkcs7_pad b msg :
  0 < b -> zlen (pkcs7_pad b msg) = floor_to b (zlen msg) + b.
Proof.
  intros Hb. unfold pkcs7_pad, floor_to. pose proof (Z.mod_pos_bound (zlen msg) b Hb).
  rewrite zlen_app, zlen_pad_block by lia. pose proof (Z.div_mod (zlen msg) b). lia.
Qed.

Lemma pkcs7_pad_divide b msg : 0 < b -> (b | zlen (pkcs7_pad b msg)).
Proof.
  intros Hb. rewrite zlen_pkcs7_pad by done.
  apply Z.divide_add_r; [apply floor_divide|apply Z.divide_refl].
Qed.

Lemma pad_at_end (msg : list byte) n :
  0 < n -> last (msg ++ pad_block n) = Some (z2b n) /\
  take (Z.to_nat (zlen (msg ++ pad_block n) - n)) (msg ++ pad_block n) = msg /\
  drop (Z.to_nat (zlen (msg ++ pad_block n) - n)) (msg ++ pad_block n) = pad_block n.
Proof.
  intros Hn. pose proof (zlen_pad_block n ltac:(lia)) as Hl.
  assert (Hk : Z.to_nat (zlen (msg ++ pad_block n) - n) = length msg).
  { rewrite zlen_app, Hl. unfold zlen. lia. }
  rewrite Hk, take_app_length, drop_app_length. split; [|done].
  rewrite last_app, pad_block_last by done. done.
Qed.

(** A text that ends in a padding is accepted. *)
Lemma unpad_complete b msg n :
  1 <= n <= b -> b < 256 -> pkcs7_unpad b (msg ++ pad_block n) = Some msg.
Proof.
  intros Hn Hb. unfold pkcs7_unpad. destruct (pad_at_end msg n) as (-> & Ht & Hd); [lia|].
  simpl default. rewrite b2z_z2b, Z.mod_small by lia. rewrite Ht, Hd, bool_decide_eq_true_2 by done.
  rewrite zlen_app, zlen_pad_block by lia. pose proof (zlen_nonneg msg).
  rewrite (proj2 (Z.leb_le 1 n)), (proj2 (Z.leb_le n b)), (proj2 (Z.leb_le n (zlen msg + n))) by lia. done.
Qed.

(** Padding, then removing it. *)
Lemma unpad_pad b msg : 0 < b < 256 -> pkcs7_unpad b (pkcs7_pad b msg) = Some msg.
Proof.
  intros Hb. pose proof (Z.mod_pos_bound (zlen msg) b ltac:(lia)) as Hm.
  apply unpad_complete; lia.
Qed.

(** Only a padded text is accepted. *)
Lemma unpad_sound b text msg :
  pkcs7_unpad b text = Some msg ->
  exists n, 1 <= n <= b /\ text = msg ++ pad_block n.
Proof.
  unfold pkcs7_unpad. set (n := b2z (default x00 (last text))).
  destruct (Z.leb_spec 1 n) as [H1|]; [|done]. destruct (Z.leb_spec n b) as [H2|]; [|done].
  destruct (Z.leb_spec n (zlen text)) as [H3|]; [|done]. simpl.
  case_bool_decide as Hd; [|done]. intros [= <-]. exists n. split; [done|].
  rewrite <- Hd. symmetry. apply take_drop.
Qed.

(** Removing a padding looks at the last block only. *)
Lemma unpad_app b pre block :
  zlen block = b -> 0 < b ->
  pkcs7_unpad b (pre ++ block) = option_map (app pre) (pkcs7_unpad b block).
Proof.
  intros Hl Hb. unfold pkcs7_unpad. pose proof (zlen_nonneg pre) as Hp.
  assert (Hlast : last (pre ++ block) = last block).
  { rewrite last_app. destruct block; [unfold zlen in Hl; simpl in Hl; lia|]. 
    destruct (last (_ :: _)) eqn:He; [done|]. by apply last_None in He. }
  rewrite Hlast. set (n := b2z (default x00 (last block))). rewrite zlen_app, Hl.
  destruct (Z.leb_spec 1 n) as [H1|]; [|done]. destruct (Z.leb_spec n b) as [H2|]; [|done].
  rewrite (proj2 (Z.leb_le n (zlen pre + b))) by lia.
  assert (Hk : Z.to_nat (zlen pre + b - n) = (length pre + Z.to_nat (b - n))%nat) by (unfold zlen; lia).
  rewrite Hk, drop_app_add, take_app_add. simpl. by case_bool_decide.
Qed.

(** * The check of [psa_cipher_finish] *)

Lemma land_255_byte z : 0 <= z < 256 -> Z.land 255 z = z.
Proof.
  intros Hz. rewrite Z.land_comm. change 255 with (Z.ones 8). rewrite Z.land_ones by lia.
  by apply Z.mod_small.
Qed.

Lemma lxor_byte_range a b : 0 <= a < 256 -> 0 <= b < 256 -> 0 <= Z.lxor a b < 256.
Proof.
  change 256 with (2 ^ 8). rewrite !(range_land_iff 8) by lia. intros Ha Hb. rewrite <- Ha, <- Hb.
  apply Z.bits_inj'. intros i _. rewrite !Z.land_spec, !Z.lxor_spec, !Z.land_spec.
  by destruct (Z.testbit a i), (Z.testbit b i), (Z.testbit (Z.ones 8) i).
Qed.

Lemma block_at_lookup block i x : block !! Z.to_nat i = Some x -> block_at block i = b2z x.
Proof. intros Hx. unfold block_at. by rewrite (nth_lookup_Some _ _ _ _ Hx). Qed.

Lemma block_at_last (block : list byte) b :
  zlen block = b -> 0 < b -> block_at block (b - 1) = b2z (default x00 (last block)).
Proof.
  intros Hl Hb. unfold block_at. rewrite last_lookup, nth_lookup. do 3 f_equal. unfold zlen in Hl. lia.
Qed.

(** The last [n] bytes are all [n]. *)
Lemma tail_is_pad (block : list byte) b n :
  zlen block = b -> 1 <= n <= b -> n < 256 ->
  (forall i, 0 <= i < n -> block_at block (b - 1 - i) = n) <->
  drop (Z.to_nat (b - n)) block = pad_block n.
Proof.
  intros Hl Hn H256. split.
  - intros Hall. apply list_eq_same_length with (Z.to_nat n).
    + unfold pad_block. by rewrite length_replicate.
    + rewrite length_drop. unfold zlen in Hl. lia.
    + intros i x y Hi Hx Hy. rewrite lookup_drop in Hx. unfold pad_block in Hy.
      apply lookup_replicate in Hy as [-> _]. apply b2z_inj. rewrite b2z_z2b, Z.mod_small by lia.
      rewrite <- (Hall (n - 1 - Z.of_nat i)) by lia. symmetry. apply block_at_lookup.
      rewrite <- Hx. f_equal. lia.
  - intros Hd i Hi. assert (Hx : block !! Z.to_nat (b - 1 - i) = Some (z2b n)).
    { replace (Z.to_nat (b - 1 - i)) with (Z.to_nat (b - n) + Z.to_nat (n - 1 - i))%nat by lia.
      rewrite <- lookup_drop, Hd. apply lookup_replicate. split; [done|lia]. }
    rewrite (block_at_lookup _ _ _ Hx), b2z_z2b. apply Z.mod_small. lia.
Qed.

Section Check.
Context {WT : WolfCryptCt} {WTO : WolfCryptCtOk WT}.

(** One step of the loop. *)
Lemma mask_step block b n i :
0 <= n < 256 ->
Z.land (ctMaskLT i n) (Z.lxor (block_at block (b - 1 - i)) n) = 0 <->
(i < n -> block_at block (b - 1 - i) = n).
Proof.
intros Hn. rewrite ct_mask_lt. unfold block_at at 1 2. set (x := nth _ block x00).
destruct (Z.ltb_spec i n) as [Hi|Hi]; [|rewrite Z.land_0_l; split; [lia|done]].
rewrite land_255_byte by (apply lxor_byte_range; [apply b2z_range|done]).
rewrite Z.lxor_eq_0_iff. tauto.
Qed.

(** The check passes exactly the blocks that end in a padding. *)
Lemma pkcs7_invalid_spec block b :
zlen block = b -> 0 < b < 256 ->
let n := block_at block (b - 1) in
(pkcs7_invalid block b = 0 /\ 1 <= n <= b /\ pkcs7_unpad b block = Some (take (Z.to_nat (b - n)) block)) \/
(pkcs7_invalid block b <> 0 /\ pkcs7_unpad b block = None).
Proof.
intros Hl Hb n. assert (Hn : 0 <= n < 256) by apply b2z_range.
assert (Hiff : pkcs7_invalid block b = 0 <->
  (1 <= n <= b /\ drop (Z.to_nat (b - n)) block = pad_block n)).
{ unfold pkcs7_invalid. fold n. rewrite fold_lor_zero, Z.lor_eq_0_iff, ct_mask_eq, ct_mask_gt.
  rewrite Forall_forall. split.
  - intros [[H1 H2] Hall]. assert (Hr : 1 <= n <= b).
    { destruct (Z.eqb_spec n 0); [done|]. destruct (Z.ltb_spec b n); [done|]. lia. }
    split; [done|]. apply tail_is_pad; [done|done|lia|]. intros i Hi.
    apply (mask_step block b n i Hn); [|lia]. apply Hall, list_elem_of_fmap. exists (Z.to_nat i).
    split; [lia|]. apply elem_of_seq. lia.
  - intros [Hr Hd]. pose proof (proj2 (tail_is_pad block b n Hl Hr ltac:(lia)) Hd) as Hall. split; [split|].
    + destruct (Z.eqb_spec n 0); [lia|done].
    + destruct (Z.ltb_spec b n); [lia|done].
    + intros i (k & -> & Hk)%list_elem_of_fmap. apply mask_step; [done|]. intros Hi. apply Hall. lia. }
unfold pkcs7_unpad. rewrite <- (block_at_last block b) by (done || lia). fold n. rewrite Hl.
destruct (Z.eqb_spec (pkcs7_invalid block b) 0) as [H0|H0].
- left. apply Hiff in H0 as H1. destruct H1 as [Hr Hd]. split_and!; [done|lia|lia|].
  rewrite (proj2 (Z.leb_le 1 n)), (proj2 (Z.leb_le n b)), bool_decide_eq_true_2 by (done || lia). done.
- right. split; [done|]. destruct (Z.leb_spec 1 n), (Z.leb_spec n b); try done. simpl.
  case_bool_decide as Hd; [|done]. destruct H0. by apply Hiff.
Qed.

(** C15: The check without branches on the plaintext passes exactly the blocks that
  a padding of one to a block's length of bytes ends. *)
Theorem pkcs7_check_exact block b :
zlen block = b -> 0 < b < 256 ->
pkcs7_invalid block b = 0 <->
exists plain n, 1 <= n <= b /\ block = plain ++ replicate (Z.to_nat n) (z2b n).
Proof.
intros Hl Hb. destruct (pkcs7_invalid_spec block b Hl Hb) as [(H0 & _ & Hu)|[H0 Hu]]; split; try done.
- intros _. apply unpad_sound in Hu as (n & Hn & Heq). by eexists _, n.
- intros (plain & n & Hn & ->). change (replicate _ _) with (pad_block n) in Hu.
  rewrite unpad_complete in Hu by lia. done.
Qed.
End Check.
