(* ===== verification/CipherOps.v ===== *)
(** The rules of the entry points of a cipher operation: what each call does to
    the invariant of [CipherRules], on success and on failure. *)

From stdpp Require Import base decidable list.
From Stdlib Require Import ZArith Lia.
From Stdlib Require Import Strings.Byte.
From S2P Require Import Prelude.
From S2P Require Import Values.
From S2P Require Import Engine.
From S2P Require Import WolfCipher.
From S2P Require Import KeyPolicy.
From S2P Require Import KeyFormat.
From S2P Require Import StoreIface.
From S2P Require Import Library.
From S2P Require Import KeyStore.
From S2P Require Import KeyStoreRules.
From S2P Require Import Operation.
From S2P Require Import Cipher.
From S2P Require Import CipherRules.
From S2P Require Import CipherPadding.

#[local] Open Scope Z_scope.

Section CipherOps.
Context {C : Config} {E : WolfCryptErr} {EO : WolfCryptErrOk E} {K : WolfCryptKeys}.
Context {R : WolfCryptRng} {O : StoreOps} {B : KeyBackend}.
Context {W : WolfCryptCipher} {WO : WolfCryptCipherOk W} {WT : WolfCryptCt} {WTO : WolfCryptCtOk WT}.

Implicit Types c : wolfpsa_cipher_ctx.
Implicit Types s : opstate O wolfpsa_cipher_ctx.

(** * Update *)

(** What an update accepts: in the block modes the buffers must not overlap. *)
Definition io_valid (alg : Z) (io : cipher_io) : Prop :=
input_valid (io_input io) /\ (io_output io = true \/ io_output_size io = 0) /\
io_output_length io = true /\ (cipher_is_block_alg alg = true -> io_overlap io = false).

Lemma input_empty (i : input) : input_length i = 0 -> input_bytes i = [].
Proof. destruct i; [done|]. apply zlen_0_nil. Qed.

Lemma input_nonempty (i : input) :
is_null i && (0 <? input_length i) = false -> input_length i <> 0 ->
input_length i = zlen (input_bytes i) /\ 0 < zlen (input_bytes i).
Proof.
destruct i as [n|l]; simpl.
- destruct (Z.ltb_spec 0 (Z.of_N n)); [done|]. lia.
- pose proof (zlen_nonneg l). lia.
Qed.

Lemma sent_length c key iv msg : zlen (cipher_sent c key iv msg) = emit c (zlen msg).
Proof.
unfold cipher_sent, crypt_of. destruct (emit_bounds c (zlen msg) (zlen_nonneg msg)) as (Hb & Hd & _).
assert (Hl : zlen (take (Z.to_nat (emit c (zlen msg))) msg) = emit c (zlen msg)).
{ rewrite zlen_take by lia. lia. }
rewrite crypt_length; rewrite Hl; done.
Qed.

Lemma emit_mono c n m : 0 <= n -> 0 <= m -> emit c n <= emit c (n + m).
Proof.
intros Hn Hm. destruct (Z.eq_dec m 0) as [->|Hm0]; [by rewrite Z.add_0_r|].
rewrite emit_step by lia. destruct (emit_bounds c n Hn) as (Hb & _ & _).
pose proof (unit_pos c) as Hu.
pose proof (floor_bounds (unit_of c) (n - emit c n + m
  - if keeps_last (cipher_alg c) (cipher_direction c) then 1 else 0) Hu).
destruct (keeps_last _ _); lia.
Qed.

Lemma wp_cipher_update c key iv msg io s
  (Q : psa_status_t * list byte -> opstate O wolfpsa_cipher_ctx -> Prop) :
let data := input_bytes (io_input io) in
op_ctx s = Some c -> cipher_ok c key iv msg -> 0 <= io_output_size io ->
(forall e s', op_ctx s' = None -> e <> PSA_SUCCESS ->
   (io_valid (cipher_alg c) io ->
    emit c (zlen msg + zlen data) - emit c (zlen msg) <= io_output_size io -> smooth s -> False) ->
   Q (e, []) s') ->
(forall out c' s', op_ctx s' = Some c' -> (smooth s -> smooth s') ->
   cipher_shape c' = cipher_shape c -> cipher_ok c' key iv (msg ++ data) ->
   cipher_sent c key iv (msg ++ data) = cipher_sent c key iv msg ++ out ->
   zlen out <= io_output_size io -> Q (PSA_SUCCESS, out) s') ->
wp (psa_cipher_update io) Q s.
Proof.
intros data Hc Hok Hsz Hbad Hgood. unfold psa_cipher_update. apply wp_bind. unfold get_ctx. apply wp_gets.
rewrite Hc. cbv zeta.
assert (Hfail : forall e, e <> PSA_SUCCESS -> (io_valid (cipher_alg c) io -> False) ->
  wp (cipher_fail_out e) Q s).
{ intros e He Hno. apply wp_fail_out. intros s' Hc' _ _. apply Hbad; [done|done|]. intros Hv. by destruct (Hno Hv). }
destruct (io_output_length io) eqn:Hol; cbn [negb].
2: { apply Hfail; [done|]. intros (_ & _ & ? & _). congruence. }
destruct (is_null (io_input io) && (0 <? input_length (io_input io))) eqn:Hnull.
{ apply Hfail; [done|]. intros (Hv%valid_not_null & _). congruence. }
destruct (negb (io_output io) && (0 <? io_output_size io)) eqn:Ho.
{ apply Hfail; [done|]. intros (_ & [H|H] & _); rewrite H in Ho; [done|]. by rewrite andb_false_r in Ho. }
destruct (fits_word32 (input_length (io_input io))) eqn:Hfit; cbn [negb].
2: { apply Hfail; [done|]. intros ([_ Hv] & _). congruence. }
destruct (cipher_is_block_alg (cipher_alg c) && io_overlap io) eqn:Hov.
{ apply andb_true_iff in Hov as [Hb Hov]. apply Hfail; [done|].
  intros (_ & _ & _ & Hv). specialize (Hv Hb). congruence. }
destruct (Z.eqb_spec (input_length (io_input io)) 0) as [H0|H0].
{ pose proof (input_empty _ H0) as He. fold data in He. apply wp_ret.
  apply (Hgood [] c); rewrite ?He, ?app_nil_r; done. }
destruct (input_nonempty _ Hnull H0) as [Hlen Hpos]. rewrite Hlen in Hfit. fold data in Hfit, Hpos |- *.
apply (wp_update_alg c key iv msg); [done..|]. apply update_ok_intro; [done| |..].
- pose proof (emit_mono c (zlen msg) (zlen data) (zlen_nonneg _) (zlen_nonneg _)). lia.
- intros e s' Hc' He Hno. apply Hbad; [done|done|]. auto.
- intros out c' s' Hc' Hsm Hsh Hok' Hs Hk. apply (Hgood out c'); try done.
  pose proof (f_equal zlen Hs) as Hl. rewrite zlen_app, !sent_length, zlen_app in Hl. lia.
Qed.

(** * Finish *)

(** The whole output for the whole input: [None] when the input is not whole
  blocks, or not padded. *)
Definition cipher_spec (alg key_type : Z) (d : direction) (key iv msg : list byte)
: option (list byte) :=
let m := cipher_mode alg key_type in
let b := mode_unit m in
if alg =? PSA_ALG_CBC_PKCS7 then
  match d with
  | AES_ENCRYPTION => Some (crypt m d key iv (pkcs7_pad b msg))
  | AES_DECRYPTION =>
      if (0 <? zlen msg) && (zlen msg mod b =? 0)
      then pkcs7_unpad b (crypt m d key iv msg) else None
  end
else if zlen msg mod b =? 0 then Some (crypt m d key iv msg) else None.

Definition spec_of c key iv msg : option (list byte) :=
cipher_spec (cipher_alg c) (cipher_key_type c) (cipher_direction c) key iv msg.

(** The error of a finish whose input is at fault. *)
Definition finish_error (alg : Z) : psa_status_t :=
if alg =? PSA_ALG_CBC_PKCS7 then PSA_ERROR_INVALID_PADDING else PSA_ERROR_INVALID_ARGUMENT.

(** The input that the context has kept. *)
Lemma ok_split c key iv msg :
cipher_ok c key iv msg ->
msg = take (Z.to_nat (emit c (zlen msg))) msg ++ cipher_partial c /\
zlen (take (Z.to_nat (emit c (zlen msg))) msg) = emit c (zlen msg).
Proof.
intros [_ _ -> _]. destruct (emit_bounds c (zlen msg) (zlen_nonneg msg)) as (Hb & _ & _).
split; [symmetry; apply take_drop|]. rewrite zlen_take by lia. lia.
Qed.

(** Padded, what is kept makes the last block. *)
Lemma pad_split b x pa :
0 < b -> (b | zlen x) -> zlen pa < b ->
pkcs7_pad b (x ++ pa) = x ++ pa ++ pad_block (b - zlen pa).
Proof.
intros Hb [k Hk] Hpa. unfold pkcs7_pad. rewrite zlen_app, Hk, Z.add_comm, Z.mod_add by lia.
rewrite Z.mod_small by (pose proof (zlen_nonneg pa); lia). by rewrite app_assoc.
Qed.

Lemma spec_pkcs7 c key iv msg :
cipher_alg c = PSA_ALG_CBC_PKCS7 ->
spec_of c key iv msg =
match cipher_direction c with
| AES_ENCRYPTION => Some (crypt_of c key iv (pkcs7_pad (unit_of c) msg))
| AES_DECRYPTION =>
    if (0 <? zlen msg) && (zlen msg mod unit_of c =? 0)
    then pkcs7_unpad (unit_of c) (crypt_of c key iv msg) else None
end.
Proof.
intros Ha. unfold spec_of, cipher_spec, crypt_of. fold (mode_of c) (unit_of c).
destruct (Z.eqb_spec (cipher_alg c) PSA_ALG_CBC_PKCS7); [|done]. by destruct (cipher_direction c).
Qed.

Lemma spec_unpadded c key iv msg :
cipher_alg c <> PSA_ALG_CBC_PKCS7 ->
spec_of c key iv msg = if zlen msg mod unit_of c =? 0 then Some (crypt_of c key iv msg) else None.
Proof.
intros Ha. unfold spec_of, cipher_spec, crypt_of. fold (mode_of c) (unit_of c).
by destruct (Z.eqb_spec (cipher_alg c) PSA_ALG_CBC_PKCS7).
Qed.

Lemma crypt_of_length c key iv x : (unit_of c | zlen x) -> zlen (crypt_of c key iv x) = zlen x.
Proof. apply crypt_length. Qed.

(** A call writes as much as it reads. *)
Lemma out_length c key iv x y out :
(unit_of c | zlen x) -> (unit_of c | zlen y) ->
crypt_of c key iv (x ++ y) = crypt_of c key iv x ++ out -> zlen out = zlen y.
Proof.
intros Hx Hy Heq. apply (f_equal zlen) in Heq. rewrite zlen_app, !crypt_of_length in Heq.
- rewrite zlen_app in Heq. lia.
- done.
- rewrite zlen_app. by apply Z.divide_add_r.
Qed.

Definition finish_rule c key iv msg (feasible : Prop) (size : Z) s
  (Q : psa_status_t * list byte -> opstate O wolfpsa_cipher_ctx -> Prop) : Prop :=
(forall e s', op_ctx s' = None -> e <> PSA_SUCCESS ->
   (feasible -> smooth s ->
    (spec_of c key iv msg = None /\ e = finish_error (cipher_alg c)) \/
    (exists r, spec_of c key iv msg = Some r /\ size < zlen r - zlen (cipher_sent c key iv msg) /\
       e = PSA_ERROR_BUFFER_TOO_SMALL)) -> Q (e, []) s') /\
(forall out s', op_ctx s' = None -> (smooth s -> smooth s') ->
   spec_of c key iv msg = Some (cipher_sent c key iv msg ++ out) -> zlen out <= size ->
   Q (PSA_SUCCESS, out) s').

Lemma wp_finish_encrypt c key iv msg size s Q :
cipher_ok c key iv msg -> cipher_alg c = PSA_ALG_CBC_PKCS7 -> cipher_direction c = AES_ENCRYPTION ->
finish_rule c key iv msg True size s Q -> wp (cipher_finish_encrypt c size) Q s.
Proof.
intros Hok Ha Hd [Hbad Hgood]. pose proof (ok_wf _ _ _ _ Hok) as Hwf.
assert (Hblk : cipher_is_block_alg (cipher_alg c) = true) by (by rewrite Ha).
pose proof (block_size_range c Hwf) as Hb. pose proof (unit_block c Hwf Hblk) as Hu.
destruct (emit_bounds c (zlen msg) (zlen_nonneg msg)) as (He & Hdiv & Hlt).
pose proof (ok_partial_len _ _ _ _ Hok) as Hpl. pose proof (zlen_nonneg (cipher_partial c)) as Hp0.
destruct (ok_split _ _ _ _ Hok) as [Hsplit Hxl].
unfold keeps_last in Hlt. rewrite Ha, Hd, Hu in Hlt. simpl in Hlt. rewrite Hu in Hdiv.
unfold cipher_finish_encrypt. cbv zeta. set (b := cipher_block_size c) in *.
set (x := take _ msg) in *. set (pa := cipher_partial c) in *.
destruct (Z.leb_spec b (zlen pa)) as [Hge|_]; [lia|].
change (replicate (Z.to_nat (b - zlen pa)) (z2b (b - zlen pa))) with (pad_block (b - zlen pa)).
assert (Hy : zlen (pa ++ pad_block (b - zlen pa)) = b) by (rewrite zlen_app, zlen_pad_block; lia).
assert (Hspec : spec_of c key iv msg = Some (crypt_of c key iv (x ++ pa ++ pad_block (b - zlen pa)))).
{ rewrite spec_pkcs7 by done. rewrite Hd, Hu. rewrite Hsplit at 1. rewrite pad_split; [done|lia| |lia].
  by rewrite Hxl. }
destruct (Z.ltb_spec size b) as [Hsz|Hsz].
{ apply wp_fail_out. intros s' Hc' _ _. apply Hbad; [done|done|]. intros _ _. right.
  eexists. split; [exact Hspec|]. split; [|done].
  rewrite sent_length, crypt_of_length; rewrite zlen_app, Hy, Hxl; [lia|]. rewrite Hu.
  apply Z.divide_add_r; [done|apply Z.divide_refl]. }
assert (Hcbc : cipher_cbc_call AES_ENCRYPTION = alg_call (cipher_alg c) (cipher_direction c)).
{ by rewrite Ha, Hd. }
rewrite Hcbc. apply wp_bind, (wp_alg_call _ _ _ key iv x); try done.
- rewrite Hu, Hy. apply Z.divide_refl.
- apply Hok.
- split.
  + intros e s1 Hs1 He1 Hno. apply wp_fail_out. intros s2 Hc2 _ _. apply Hbad; [done|done|].
    intros _ Hsm. by destruct (Hno Hsm).
  + intros out c' s1 Hs1 Hsm Hsh _ _ Hcr. unfold psa_cipher_abort, set_ctx. wp_seq.
    apply Hgood; [done|done| |].
    * rewrite Hspec, Hcr. done.
    * apply out_length in Hcr; rewrite ?Hy, ?Hxl, ?Hu in *; [lia|done|apply Z.divide_refl].
Qed.

(** A whole block is kept exactly when the input is whole blocks. *)
Lemma kept_block c n :
keeps_last (cipher_alg c) (cipher_direction c) = true -> 0 <= n ->
(n - emit c n =? unit_of c) = (0 <? n) && (n mod unit_of c =? 0).
Proof.
intros Hk Hn. pose proof (unit_pos c) as Hu. destruct (emit_bounds c n Hn) as (Hb & [q Hq] & _).
unfold emit, emitted in *. fold (mode_of c) (unit_of c) in *. rewrite Hk in *.
destruct (Z.eqb_spec n 0) as [->|Hn0]; [destruct (Z.eqb_spec (0 - 0) (unit_of c)); [lia|done]|].
rewrite (proj2 (Z.ltb_lt 0 n)) by lia. cbn [andb].
destruct (Z.eqb_spec (n - floor_to (unit_of c) (n - 1)) (unit_of c)) as [He|He],
  (Z.eqb_spec (n mod unit_of c) 0) as [Hm|Hm]; try done.
- destruct Hm. replace n with ((q + 1) * unit_of c) by lia. apply Z.mod_mul. lia.
- destruct He. pose proof (Z.div_mod n (unit_of c)) as Hdm.
  rewrite (floor_unique (unit_of c) (n - 1) (n - unit_of c)); [lia|done| |lia].
  exists (n / unit_of c - 1). lia.
Qed.

Lemma wp_finish_decrypt c key iv msg size s Q :
cipher_ok c key iv msg -> cipher_alg c = PSA_ALG_CBC_PKCS7 -> cipher_direction c = AES_DECRYPTION ->
finish_rule c key iv msg True size s Q -> wp (cipher_finish_decrypt c size) Q s.
Proof.
intros Hok Ha Hd [Hbad Hgood]. pose proof (ok_wf _ _ _ _ Hok) as Hwf.
assert (Hblk : cipher_is_block_alg (cipher_alg c) = true) by (by rewrite Ha).
pose proof (unit_block c Hwf Hblk) as Hu. pose proof (unit_pos c) as Hup.
assert (Hk : keeps_last (cipher_alg c) (cipher_direction c) = true) by (by rewrite Ha, Hd).
assert (Hb : unit_of c < 256).
{ rewrite Hu, (wf_block c Hwf). unfold wolfpsa_cipher_block_size. by repeat case_match. }
pose proof (ok_partial_len _ _ _ _ Hok) as Hpl.
destruct (ok_split _ _ _ _ Hok) as [Hsplit Hxl].
destruct (emit_bounds c (zlen msg) (zlen_nonneg msg)) as (_ & Hdiv & _).
pose proof (spec_pkcs7 c key iv msg Ha) as Hspec. rewrite Hd in Hspec.
rewrite <- (kept_block c (zlen msg) Hk (zlen_nonneg msg)), <- Hpl in Hspec.
unfold cipher_finish_decrypt. cbv zeta. rewrite <- Hu.
set (x := take _ msg) in *. set (pa := cipher_partial c) in *.
destruct (Z.eqb_spec (zlen pa) (unit_of c)) as [Hpb|Hpb]; cbn [negb].
2: { apply wp_fail_out. intros s' Hc' _ _. apply Hbad; [done|done|]. intros _ _. left.
  split; [exact Hspec|]. unfold finish_error. by rewrite Ha. }
assert (Hcbc : cipher_cbc_call AES_DECRYPTION = alg_call (cipher_alg c) (cipher_direction c)) by (by rewrite Ha, Hd).
rewrite Hcbc. apply wp_bind, (wp_alg_call _ _ _ key iv x); try done.
{ rewrite Hpb. apply Z.divide_refl. }
{ apply Hok. }
split.
{ intros e s1 Hs1 He1 Hno. apply wp_fail_out. intros s2 Hc2 _ _. apply Hbad; [done|done|].
  intros _ Hsm. by destruct (Hno Hsm). }
intros block c' s1 Hs1 Hsm Hsh _ _ Hcr.
assert (Hbl : zlen block = unit_of c).
{ apply out_length in Hcr; rewrite ?Hxl, ?Hpb; [lia|done|apply Z.divide_refl]. }
assert (Hsent : crypt_of c key iv msg = cipher_sent c key iv msg ++ block) by (by rewrite Hsplit at 1).
rewrite Hsent, unpad_app in Hspec by done.
destruct (pkcs7_invalid_spec block (unit_of c) Hbl ltac:(lia)) as [(-> & Hn & Hun)|[Hinv Hun]].
2: { rewrite (proj2 (Z.eqb_neq _ _) Hinv). apply wp_fail_out. intros s' Hc' _ _.
  apply Hbad; [done|done|]. intros _ _. left. rewrite Hspec, Hun. unfold finish_error. by rewrite Ha. }
set (plain := unit_of c - block_at block (unit_of c - 1)) in *. cbn [Z.eqb negb].
rewrite Hun in Hspec. cbn [option_map] in Hspec.
assert (Hpr : 0 <= plain <= unit_of c).
{ pose proof (b2z_range (nth (Z.to_nat (unit_of c - 1)) block x00)). unfold plain, block_at in *. lia. }
assert (Hol : zlen (take (Z.to_nat plain) block) = plain) by (rewrite zlen_take; lia).
destruct (Z.ltb_spec size plain) as [Hsz|Hsz].
- apply wp_fail_out. intros s' Hc' _ _. apply Hbad; [done|done|]. intros _ _. right.
  eexists. split; [exact Hspec|]. rewrite zlen_app, Hol. split; [lia|done].
- unfold psa_cipher_abort, set_ctx. wp_seq. apply Hgood; [done|done|exact Hspec|lia].
Qed.

Lemma wp_cipher_finish c key iv msg output size output_length s Q :
op_ctx s = Some c -> cipher_ok c key iv msg -> 0 <= size ->
finish_rule c key iv msg (output_length = true /\ (output = true \/ size = 0)) size s Q ->
wp (psa_cipher_finish output size output_length) Q s.
Proof.
intros Hc Hok Hsz [Hbad Hgood]. unfold psa_cipher_finish. apply wp_bind. unfold get_ctx. apply wp_gets.
rewrite Hc. pose proof (ok_wf _ _ _ _ Hok) as Hwf.
destruct output_length; cbn [negb].
2: { apply wp_fail_out. intros s' Hc' _ _. apply Hbad; [done|done|]. by intros [? _]. }
destruct (negb output && (0 <? size)) eqn:Ho.
{ apply wp_fail_out. intros s' Hc' _ _. apply Hbad; [done|done|].
  intros [_ [->| ->]]; [done|]. by rewrite andb_false_r in Ho. }
assert (Hrule : finish_rule c key iv msg True size s Q).
{ split; [|done]. intros e s' Hc' He Hor. apply Hbad; [done|done|]. intros _. by apply Hor. }
destruct (Z.eqb_spec (cipher_alg c) PSA_ALG_CBC_PKCS7) as [Ha|Ha].
{ rewrite (iv_set_cbc c key iv msg) by auto. cbn [negb]. destruct (cipher_direction c) eqn:Hd.
  - by apply (wp_finish_encrypt c key iv msg).
  - by apply (wp_finish_decrypt c key iv msg). }
destruct Hrule as [Hbad' _].
pose proof (spec_unpadded c key iv msg Ha) as Hspec.
pose proof (ok_partial_len _ _ _ _ Hok) as Hpl.
assert (Hk : keeps_last (cipher_alg c) (cipher_direction c) = false).
{ unfold keeps_last. by rewrite (proj2 (Z.eqb_neq _ _) Ha). }
assert (Hem : emit c (zlen msg) = floor_to (unit_of c) (zlen msg)) by (unfold emit, emitted; by rewrite Hk).
assert (Hrest : (zlen (cipher_partial c) =? 0) = (zlen msg mod unit_of c =? 0)).
{ rewrite Hpl, Hem. unfold floor_to. pose proof (Z.div_mod (zlen msg) (unit_of c)).
  pose proof (unit_pos c). f_equal. lia. }
rewrite Hrest. destruct (Z.eqb_spec (zlen msg mod unit_of c) 0) as [Hm|Hm]; rewrite ?andb_false_r; cbn [negb].
- unfold psa_cipher_abort, set_ctx. wp_seq. apply Hgood; [done|done| |done].
  rewrite Hspec, app_nil_r. do 2 f_equal. unfold cipher_sent. f_equal. symmetry. apply take_ge.
  rewrite Hem. unfold floor_to. pose proof (Z.div_mod (zlen msg) (unit_of c)). pose proof (unit_pos c).
  unfold zlen in *. lia.
- assert (Hblk : cipher_is_block_alg (cipher_alg c) = true).
  { destruct (cipher_is_block_alg (cipher_alg c)) eqn:Hblk; [done|].
    rewrite (unit_stream c Hwf Hblk), Z.mod_1_r in Hm. done. }
  unfold cipher_is_block_alg in Hblk. rewrite (proj2 (Z.eqb_neq _ _) Ha), orb_false_r in Hblk.
  rewrite Hblk. apply wp_fail_out. intros s' Hc' _ _. apply Hbad'; [done|done|]. intros _ _. left.
  split; [exact Hspec|]. unfold finish_error. by rewrite (proj2 (Z.eqb_neq _ _) Ha).
Qed.

(** * Setup *)

Definition needs_iv c : bool := negb (wolfpsa_cipher_iv_length (cipher_alg c) (cipher_key_type c) =? 0).

(** The context of wolfCrypt given an initial vector. *)
Definition engine_iv c (iv : list byte) : wolfpsa_cipher_ctx :=
match mode_of c with
| WC_AES _ => cipher_with_aes (wc_AesSetIV (cipher_aes c) iv) c
| WC_DES3 _ => cipher_with_des3 (wc_Des3_SetIV (cipher_des3 c) iv) c
| WC_CHACHA20 => cipher_with_chacha (wc_Chacha_SetIV (cipher_chacha c) iv 0) c
end.

(** A context with a key and no initial vector yet. *)
Record cipher_keyed c (key : list byte) : Prop := {
kd_wf : cipher_wf c;
kd_iv_set : cipher_iv_set c = false;
kd_partial : cipher_partial c = [];
kd_vector : zlen (cipher_iv c) = AES_BLOCK_SIZE;
kd_needs : needs_iv c = true;
kd_engine : forall iv, engine_has (engine_iv c iv) key iv [] }.

(** What a setup leaves: in ECB mode the operation is ready at once. *)
Definition cipher_open c (key : list byte) : Prop :=
if needs_iv c then cipher_keyed c key else cipher_ok c key [] [].

(** The key that a setup has checked. *)
Definition cipher_key_usable (key alg usage : Z) s (a : psa_key_attributes_t) (key_data : list byte)
: Prop :=
exists a' d,
  (wolfpsa_get_key_data key (Some PSA_KEY_ATTRIBUTES_INIT) (op_lib s)).1 = (PSA_SUCCESS, a', d) /\
  a = default PSA_KEY_ATTRIBUTES_INIT a' /\ key_data = default [] d /\
  cipher_key_checks usage alg a (zlen key_data) = PSA_SUCCESS.

(** Nothing stands in the way of a setup. *)
Definition cipher_setup_feasible (key alg usage : Z) s : Prop :=
wolfpsa_cipher_check_alg alg = PSA_SUCCESS /\ op_rets s = [] /\
exists a d k,
  wolfpsa_get_key_data key (Some PSA_KEY_ATTRIBUTES_INIT) (op_lib s) = ((PSA_SUCCESS, a, d), k) /\
  mem_ok k /\
  NO_DES3 && (attr_type (default PSA_KEY_ATTRIBUTES_INIT a) =? PSA_KEY_TYPE_DES) = false /\
  cipher_key_checks usage alg (default PSA_KEY_ATTRIBUTES_INIT a) (zlen (default [] d)) = PSA_SUCCESS.

Lemma key_checks_type usage alg a n :
cipher_key_checks usage alg a n = PSA_SUCCESS -> cipher_type_check alg (attr_type a) = PSA_SUCCESS.
Proof. unfold cipher_key_checks. by destruct (cipher_type_check alg (attr_type a)). Qed.

(** The sizes of the key data of each mode. *)
Lemma key_checks_length usage alg a n :
cipher_key_checks usage alg a n = PSA_SUCCESS -> n <= 32 /\ (attr_type a = PSA_KEY_TYPE_DES -> n = 24).
Proof.
unfold cipher_key_checks. destruct (cipher_type_check _ _); try done.
destruct (negb (_ =? usage)); [done|]. destruct (wolfpsa_key_permits_alg a alg); [|done]. cbn [negb].
unfold cipher_size_check. destruct HAVE_CHACHA; simpl;
  repeat (case_match; rewrite ?Z.eqb_eq, ?Z.eqb_neq, ?negb_true_iff, ?negb_false_iff in *; try done);
  unfold CHACHA_MAX_KEY_SZ in *; try (split; [lia|intros Ht; rewrite Ht in *; done || lia]).
Qed.

(** The context that [cipher_key_setup] makes, its return codes aside. *)
Definition keyed_ctx (dir : direction) (key_data : list byte) c : wolfpsa_cipher_ctx :=
if HAVE_CHACHA && cipher_is_chacha c
then cipher_with_chacha (wc_Chacha_SetKey (word32_buf key_data)) c
else if cipher_is_des3 c
then cipher_with_des3 (wc_Des3_SetKey (take (Z.to_nat DES3_KEY_SIZE) key_data) (cipher_iv c) dir) c
else cipher_with_aes (cipher_aes_key dir (cipher_alg c) (word32_buf key_data) (cipher_iv c)) c.

Lemma wp_key_setup dir key_data c s
  (Q : Z * wolfpsa_cipher_ctx -> opstate O wolfpsa_cipher_ctx -> Prop) :
(forall ret s', same_ctx s s' -> (smooth s -> ret = 0 /\ smooth s') ->
   Q (ret, keyed_ctx dir key_data c) s') ->
wp (cipher_key_setup dir key_data c) Q s.
Proof.
intros HQ. unfold cipher_key_setup, keyed_ctx in *.
assert (Htwo : forall c', (forall ret s', same_ctx s s' -> (smooth s -> ret = 0 /\ smooth s') -> Q (ret, c') s') ->
  wp (ret ← wc_call; ret ← wc_then ret; mret (ret, c')) Q s).
{ intros c' HQ'.
  assert (Hpure : pure_calls (O := O) (Op := wolfpsa_cipher_ctx) (ret ← wc_call; wc_then ret)).
  { apply pure_bind; [apply pure_wc_call|intros; apply pure_wc_then]. }
  pose proof (wp_pure (ret ← wc_call; wc_then ret) (fun ret => Q (ret, c')) s Hpure) as Hwp.
  apply wp_bind. eapply wp_mono; [apply (wp_bind_inv _ (fun ret => wc_then ret)), Hwp|].
  - intros ret s' Hrun Hs _ Hsm. apply HQ'; [done|]. intros Hsmo. split; [|by apply Hsm].
    rewrite bind_run, wc_call_smooth in Hrun by done. cbn [fst snd] in Hrun.
    rewrite wc_then_smooth in Hrun by done. by injection Hrun.
  - intros ret s' Hret. apply wp_bind. eapply wp_mono; [exact Hret|]. intros ret' s'' HQ''. by apply wp_ret. }
destruct (HAVE_CHACHA && cipher_is_chacha c); [|destruct (cipher_is_des3 c); by apply Htwo].
apply wp_bind, wp_pure; [apply pure_wc_call|]. intros ret s' Hrun Hs _ Hsm. apply wp_ret, HQ; [done|].
intros Hsmo. split; [|by apply Hsm]. rewrite wc_call_smooth in Hrun by done. by injection Hrun.
Qed.

Lemma initial_wf dir alg a m :
cipher_kind alg (attr_type a) m -> cipher_wf (cipher_initial dir alg a).
Proof. intros Hk. split; try done. by exists m. Qed.

Lemma keyed_shape dir key_data c : cipher_shape (keyed_ctx dir key_data c) = cipher_shape c.
Proof. unfold keyed_ctx. by repeat case_match. Qed.

Lemma keyed_partial dir key_data c : cipher_partial (keyed_ctx dir key_data c) = cipher_partial c.
Proof. unfold keyed_ctx. by repeat case_match. Qed.

Lemma engine_iv_shape c iv : cipher_shape (engine_iv c iv) = cipher_shape c.
Proof. unfold engine_iv. by destruct (mode_of c). Qed.

Lemma mode_shape c c' : cipher_shape c' = cipher_shape c -> mode_of c' = mode_of c.
Proof. intros [= H1 H2 _ _ _ _ _ _ _ _]. unfold mode_of. by rewrite H1, H2. Qed.

(** The engine of a fresh context, by mode. *)
Lemma keyed_engine dir alg a key_data m :
cipher_kind alg (attr_type a) m -> zlen key_data <= 32 ->
(attr_type a = PSA_KEY_TYPE_DES -> zlen key_data = 24) ->
let c := keyed_ctx dir key_data (cipher_initial dir alg a) in
if needs_iv c then forall iv, engine_has (engine_iv c iv) key_data iv []
else engine_has c key_data [] [].
Proof.
intros Hk Hlen Hdes. cbv zeta. pose proof (keyed_shape dir key_data (cipher_initial dir alg a)) as Hsh.
assert (Hw : word32_buf key_data = key_data).
{ apply word32_buf_small, fits_word32_spec. unfold UINT32_MAX. lia. }
assert (Ht : attr_type a = PSA_KEY_TYPE_DES -> take (Z.to_nat DES3_KEY_SIZE) key_data = key_data).
{ intros Hd. apply take_ge. specialize (Hdes Hd). unfold zlen, DES3_KEY_SIZE in *. lia. }
set (c := keyed_ctx _ _ _) in *.
assert (Hm : mode_of c = m).
{ rewrite (mode_shape _ _ Hsh). by apply kind_mode. }
assert (Hni : needs_iv c = negb (wolfpsa_cipher_iv_length alg (attr_type a) =? 0)).
{ unfold needs_iv. by injection Hsh as -> -> _ _ _ _ _ _ _ _. }
assert (Hd : cipher_direction c = dir) by (by injection Hsh).
assert (Hmi : forall iv, mode_of (engine_iv c iv) = m /\ cipher_direction (engine_iv c iv) = dir).
{ intros iv. pose proof (engine_iv_shape c iv) as Hi. rewrite (mode_shape _ _ Hi).
  split; [done|]. rewrite <- Hd. by injection Hi. }
rewrite Hni. unfold engine_has.
assert (Hgoal : (negb (wolfpsa_cipher_iv_length alg (attr_type a) =? 0) = true -> forall iv,
    match m with
    | WC_AES m => aes_has m dir key_data iv (wc_AesSetIV (cipher_aes c) iv) []
    | WC_DES3 m => des3_has m dir key_data iv (wc_Des3_SetIV (cipher_des3 c) iv) []
    | WC_CHACHA20 => chacha_has key_data iv (wc_Chacha_SetIV (cipher_chacha c) iv 0) []
    end) /\
  (negb (wolfpsa_cipher_iv_length alg (attr_type a) =? 0) = false ->
    match m with
    | WC_AES m => aes_has m dir key_data [] (cipher_aes c) []
    | WC_DES3 m => des3_has m dir key_data [] (cipher_des3 c) []
    | WC_CHACHA20 => False
    end)).
{ unfold c, keyed_ctx, cipher_initial, cipher_aes_key.
  generalize (replicate (Z.to_nat AES_BLOCK_SIZE) x00). intros iv0.
  simpl. clear c Hsh Hm Hni Hd Hmi. rewrite Hw.
  unfold wolfpsa_cipher_iv_length, wolfpsa_cipher_block_size.
  destruct Hk as [Hc|a' Hn [->| ->]|Hn He|a' [->| ->]|He|a' Hc [->| ->]|Hc|Hc];
    rewrite ?Hc, ?Hn, ?Ht, ?andb_false_r by done; simpl; (split; [intros Hneed iv|intros Hneed]);
    try done; try (exfalso; revert Hneed; by destruct NO_DES3);
    first [apply chacha_start|apply des3_start|apply des3_ecb_start|apply aes_ctr_start
          |by destruct dir; apply aes_start|by destruct dir; apply aes_ecb_start]. }
destruct Hgoal as [H1 H2]. destruct (negb _).
- intros iv. destruct (Hmi iv) as [-> ->]. specialize (H1 eq_refl iv).
  unfold engine_iv. rewrite Hm. by destruct m.
- rewrite Hm, Hd. specialize (H2 eq_refl). by destruct m.
Qed.

Lemma emit_0 c : emit c 0 = 0.
Proof. destruct (emit_bounds c 0) as (Hb & _ & _); lia. Qed.

(** A freshly keyed context. *)
Lemma keyed_open dir alg a key_data m :
cipher_kind alg (attr_type a) m -> zlen key_data <= 32 ->
(attr_type a = PSA_KEY_TYPE_DES -> zlen key_data = 24) ->
cipher_open (keyed_ctx dir key_data (cipher_initial dir alg a)) key_data.
Proof.
intros Hk Hlen Hdes. pose proof (keyed_engine dir alg a key_data m Hk Hlen Hdes) as Heng. cbv zeta in Heng.
pose proof (keyed_shape dir key_data (cipher_initial dir alg a)) as Hsh.
pose proof (wf_shape _ _ Hsh (initial_wf dir alg a m Hk)) as Hwf.
pose proof (keyed_partial dir key_data (cipher_initial dir alg a)) as Hpa.
assert (Hset : cipher_iv_set (keyed_ctx dir key_data (cipher_initial dir alg a)) = false) by (by injection Hsh).
assert (Hvec : cipher_iv (keyed_ctx dir key_data (cipher_initial dir alg a))
               = replicate (Z.to_nat AES_BLOCK_SIZE) x00) by (by injection Hsh).
unfold cipher_open. set (c := keyed_ctx _ _ _) in *. destruct (needs_iv c) eqn:Hn.
- split; try done. by rewrite Hvec.
- split; [done|by rewrite Hset; unfold needs_iv in Hn; rewrite Hn| |];
    change (zlen (@nil byte)) with 0; by rewrite emit_0.
Qed.

(** A live operation of a checked key. *)
Record cipher_live (key alg usage : Z) (dir : direction) s0 (a : psa_key_attributes_t)
  (key_data : list byte) c : Prop := {
live_key : cipher_key_usable key alg usage s0 a key_data;
live_alg : cipher_alg c = alg;
live_type : cipher_key_type c = attr_type a;
live_dir : cipher_direction c = dir }.

Lemma live_shape key alg usage dir s0 a key_data c c' :
cipher_alg c' = cipher_alg c -> cipher_key_type c' = cipher_key_type c ->
cipher_direction c' = cipher_direction c ->
cipher_live key alg usage dir s0 a key_data c -> cipher_live key alg usage dir s0 a key_data c'.
Proof. intros H1 H2 H3 []. split; congruence. Qed.

Lemma wp_cipher_setup dir usage key alg
  (Q : psa_status_t -> opstate O wolfpsa_cipher_ctx -> Prop) s :
op_ctx s = None ->
(forall e s', op_ctx s' = None -> e <> PSA_SUCCESS ->
   (cipher_setup_feasible key alg usage s -> False) -> Q e s') ->
(forall a key_data c s', op_ctx s' = Some c -> cipher_live key alg usage dir s a key_data c ->
   cipher_open c key_data -> (cipher_setup_feasible key alg usage s -> smooth s') ->
   Q PSA_SUCCESS s') ->
wp (cipher_setup dir usage key alg) Q s.
Proof.
intros Hc Hbad Hgood. unfold cipher_setup. apply wp_bind. unfold get_ctx. apply wp_gets. rewrite Hc.
destruct (wolfpsa_cipher_check_alg alg) eqn:Halg;
  try by (apply wp_ret, Hbad; [done|done|intros [? _]; congruence]).
apply wp_bind, wp_lib. unfold wolfpsa_cipher_check_key. apply wp_bind. unfold wp at 1.
destruct (wolfpsa_get_key_data key (Some PSA_KEY_ATTRIBUTES_INIT) (op_lib s)) as [[[st a] d] k] eqn:Hget.
cbn [fst snd]. apply wp_ret. set (at_ := default PSA_KEY_ATTRIBUTES_INIT a). set (kd := default [] d).
assert (Hfe : cipher_setup_feasible key alg usage s -> st = PSA_SUCCESS /\ smooth (with_lib k s) /\
  NO_DES3 && (attr_type at_ =? PSA_KEY_TYPE_DES) = false /\
  cipher_key_checks usage alg at_ (zlen kd) = PSA_SUCCESS).
{ intros (_ & Hr & a' & d' & k' & Hg & Hm & Hk). rewrite Hget in Hg. by injection Hg as -> <- <- <-. }
destruct st; try by (apply wp_ret, Hbad; [done|done|intros Hf; by apply Hfe in Hf as [? _]]).
destruct (cipher_key_checks usage alg at_ (zlen kd)) eqn:Hchk;
  try by (apply wp_ret, Hbad; [done|done|intros Hf; apply Hfe in Hf as (_ & _ & _ & Hk); congruence]).
apply wp_bind, wp_malloc. intros ok s1 Hs1 _ _ Hok.
destruct ok; cbn [negb].
2: { apply wp_ret, Hbad; [by rewrite Hs1|done|]. intros Hf. apply Hfe in Hf as (_ & Hsm & _).
  by destruct (Hok Hsm). }
destruct (NO_DES3 && (attr_type at_ =? PSA_KEY_TYPE_DES)) eqn:Hdes.
{ apply wp_ret, Hbad; [by rewrite Hs1|done|]. intros Hf. apply Hfe in Hf as (_ & _ & ? & _). congruence. }
destruct (key_checks_length _ _ _ _ Hchk) as [Hlen Hlen24].
rewrite (proj2 (fits_word32_spec (zlen kd))) by (unfold UINT32_MAX; lia). cbn [negb].
destruct (suits_kind alg (attr_type at_)) as [m Hk]; [by split_and!; eauto using key_checks_type|].
apply wp_bind, wp_key_setup. intros ret s2 Hs2 Hret.
pose proof (keyed_open dir alg at_ kd m Hk Hlen Hlen24) as Hopen.
pose proof (keyed_shape dir kd (cipher_initial dir alg at_)) as Hsh.
destruct (Z.eqb_spec ret 0) as [->|Hr0]; cbn [negb].
- unfold set_ctx. wp_seq. eapply Hgood; [done| |exact Hopen|].
  + split; [|by injection Hsh ..]. exists a, d. by rewrite Hget.
  + intros Hf. apply Hfe in Hf as (_ & Hsm & _). destruct (Hok Hsm) as [_ Hsm1].
    by destruct (Hret Hsm1).
- apply wp_ret, Hbad; [by rewrite Hs2, Hs1|by rewrite wc_error_success|].
  intros Hf. apply Hfe in Hf as (_ & Hsm & _). destruct (Hok Hsm) as [_ Hsm1].
  by destruct (Hret Hsm1).
Qed.

(** * Initial vector *)

(** The vector that the engine gets: CCM* makes a counter block of its nonce. *)
Definition effective_iv (alg : Z) (iv : list byte) : list byte :=
if alg =? PSA_ALG_CCM_STAR_NO_TAG then ccm_star_counter iv else iv.

Definition iv_len_of c : Z := wolfpsa_cipher_iv_length (cipher_alg c) (cipher_key_type c).

(** Same operation, with a vector. *)
Definition same_op c c' : Prop :=
cipher_alg c' = cipher_alg c /\ cipher_key_type c' = cipher_key_type c /\
cipher_direction c' = cipher_direction c.

Lemma set_iv_ok c key iv stored :
cipher_keyed c key ->
cipher_ok (cipher_with_iv true stored (engine_iv c (effective_iv (cipher_alg c) iv))) key
  (effective_iv (cipher_alg c) iv) [].
Proof.
intros [Hwf Hset Hpa _ Hneed Heng]. set (v := effective_iv _ iv).
pose proof (engine_iv_shape c v) as Hsh. pose proof (wf_shape _ _ Hsh Hwf) as [H1 H2 H3 H4 H5].
assert (Hpe : cipher_partial (engine_iv c v) = []) by (unfold engine_iv; by destruct (mode_of c)).
split.
- by split.
- simpl. injection Hsh as -> -> _ _ _ _ _ _ _ _. by unfold needs_iv in Hneed.
- change (zlen (@nil byte)) with 0. by rewrite emit_0.
- change (zlen (@nil byte)) with 0. rewrite emit_0. apply Heng.
Qed.

(** The accepted call: the context with its vector. *)
Lemma wp_iv_call c s (Q : psa_status_t -> opstate O wolfpsa_cipher_ctx -> Prop) :
(forall e s', e <> PSA_SUCCESS -> (smooth s -> False) -> Q e s') ->
(forall s', op_ctx s' = Some c -> (smooth s -> smooth s') -> Q PSA_SUCCESS s') ->
wp (cipher_iv_call c) Q s.
Proof.
intros Hbad Hgood. unfold cipher_iv_call. apply (wp_checked_call (fun e => mret e)).
- intros e s' _ He Hno. by apply wp_ret, Hbad.
- intros s' _ Hsm. unfold set_ctx. wp_seq. by apply Hgood.
Qed.

Lemma stream_compiled c :
cipher_wf c -> cipher_alg c = PSA_ALG_STREAM_CIPHER -> HAVE_CHACHA = true.
Proof.
intros [[m Hk] _ _ _ _] Ha. revert Ha.
by destruct Hk as [Hc|a Hd [->| ->]|Hd He|a [->| ->]|He|a Hc [->| ->]|Hc|Hc]; intros Ha.
Qed.

Lemma ccm_star_aes c :
cipher_wf c -> cipher_alg c = PSA_ALG_CCM_STAR_NO_TAG -> cipher_is_des3 c = false.
Proof.
intros [[m Hk] _ -> _ _] Ha. revert Ha.
by destruct Hk as [Hc|a Hd [->| ->]|Hd He|a [->| ->]|He|a Hc [->| ->]|Hc|Hc]; intros Ha;
  rewrite ?andb_false_r.
Qed.

(** The engine that the code gives the vector to. *)
Lemma engine_iv_code c iv :
cipher_wf c ->
engine_iv c iv =
if cipher_alg c =? PSA_ALG_STREAM_CIPHER
then cipher_with_chacha (wc_Chacha_SetIV (cipher_chacha c) iv 0) c
else if cipher_is_des3 c then cipher_with_des3 (wc_Des3_SetIV (cipher_des3 c) iv) c
else cipher_with_aes (wc_AesSetIV (cipher_aes c) iv) c.
Proof.
intros Hwf. unfold engine_iv, mode_of, cipher_mode. rewrite (wf_des3 c Hwf).
destruct (cipher_alg c =? PSA_ALG_STREAM_CIPHER); [done|]. by destruct (negb NO_DES3 && _).
Qed.

Lemma iv_len_block c :
needs_iv c = true -> cipher_alg c <> PSA_ALG_STREAM_CIPHER -> cipher_alg c <> PSA_ALG_CCM_STAR_NO_TAG ->
iv_len_of c = wolfpsa_cipher_block_size (cipher_key_type c).
Proof.
unfold needs_iv, iv_len_of, wolfpsa_cipher_iv_length. intros Hn H1 H2. revert Hn.
rewrite (proj2 (Z.eqb_neq _ _) H1), (proj2 (Z.eqb_neq _ _) H2).
by destruct (_ || (cipher_alg c =? PSA_ALG_OFB)).
Qed.

Lemma wp_set_iv_inner c key iv s (Q : psa_status_t -> opstate O wolfpsa_cipher_ctx -> Prop) :
op_ctx s = Some c -> cipher_keyed c key ->
(forall e s', e <> PSA_SUCCESS ->
   (is_null iv = false -> input_length iv = iv_len_of c -> smooth s -> False) -> Q e s') ->
(forall c' s', op_ctx s' = Some c' -> (smooth s -> smooth s') -> same_op c c' ->
   cipher_ok c' key (effective_iv (cipher_alg c) (input_bytes iv)) [] ->
   is_null iv = false -> zlen (input_bytes iv) = iv_len_of c -> Q PSA_SUCCESS s') ->
wp (wolfpsa_cipher_set_iv iv) Q s.
Proof.
intros Hc Hkd Hbad Hgood. pose proof Hkd as [Hwf Hset _ _ Hneed _].
unfold wolfpsa_cipher_set_iv. apply wp_bind. unfold get_ctx. apply wp_gets. rewrite Hc.
rewrite (wf_attempted c Hwf), Hset. unfold set_ctx at 1. apply wp_bind, wp_modify.
cbv zeta. fold (iv_len_of c). unfold needs_iv in Hneed. fold (iv_len_of c) in Hneed.
apply negb_true_iff in Hneed. rewrite Hneed.
set (s1 := with_ctx _ s). assert (Hsm1 : smooth s -> smooth s1) by done.
destruct (is_null iv) eqn:Hnull. { apply wp_ret, Hbad; [done|]. done. }
assert (Hil : input_length iv = zlen (input_bytes iv)) by (by destruct iv).
assert (Hcall : forall stored c',
   cipher_with_iv true stored (engine_iv c (effective_iv (cipher_alg c) (input_bytes iv))) = c' ->
   input_length iv = iv_len_of c -> wp (cipher_iv_call c') Q s1).
{ intros stored c' <- Hlen. apply wp_iv_call; [intros e s' He Hno; by apply Hbad; auto|].
  intros s' Hc' Hsm. eapply Hgood; [exact Hc'|auto| |by apply set_iv_ok|done|by rewrite <- Hil].
  pose proof (engine_iv_shape c (effective_iv (cipher_alg c) (input_bytes iv))) as Hsh. by injection Hsh. }
rewrite engine_iv_code in Hcall by done. unfold effective_iv in Hcall.
destruct (Z.eqb_spec (cipher_alg c) PSA_ALG_STREAM_CIPHER) as [Ha|Ha].
{ rewrite (stream_compiled c Hwf Ha). cbn [negb].
  assert (Hl : iv_len_of c = WOLFPSA_CHACHA20_IV_BYTES) by (unfold iv_len_of; by rewrite Ha).
  destruct (Z.eqb_spec (input_length iv) WOLFPSA_CHACHA20_IV_BYTES) as [Hlen|Hlen]; cbn [negb].
  - rewrite Ha in Hcall. eapply Hcall; [done|congruence].
  - apply wp_ret, Hbad; [done|]. congruence. }
destruct (Z.eqb_spec (cipher_alg c) PSA_ALG_CCM_STAR_NO_TAG) as [Hm|Hm].
{ assert (Hl : iv_len_of c = 13) by (unfold iv_len_of; by rewrite Hm).
  destruct (Z.eqb_spec (input_length iv) 13) as [Hlen|Hlen]; cbn [negb].
  - rewrite (ccm_star_aes c Hwf Hm) in Hcall. eapply Hcall; [done|congruence].
  - apply wp_ret, Hbad; [done|]. congruence. }
pose proof (iv_len_block c ltac:(by unfold needs_iv; fold (iv_len_of c); rewrite Hneed) Ha Hm) as Hl.
rewrite <- Hl. destruct (Z.eqb_spec (input_length iv) (iv_len_of c)) as [Hlen|Hlen]; cbn [negb].
- destruct (cipher_is_des3 c); by eapply Hcall.
- apply wp_ret, Hbad; [done|]. congruence.
Qed.

Lemma wp_fail e s (Q : psa_status_t -> opstate O wolfpsa_cipher_ctx -> Prop) :
(forall s', op_ctx s' = None -> Q e s') -> wp (wolfpsa_cipher_fail e) Q s.
Proof. intros HQ. unfold wolfpsa_cipher_fail, psa_cipher_abort, set_ctx. wp_seq. by apply HQ. Qed.

Lemma wp_cipher_set_iv c key iv s (Q : psa_status_t -> opstate O wolfpsa_cipher_ctx -> Prop) :
op_ctx s = Some c -> cipher_keyed c key ->
(forall e s', op_ctx s' = None -> e <> PSA_SUCCESS ->
   (is_null iv = false -> input_length iv = iv_len_of c -> smooth s -> False) -> Q e s') ->
(forall c' s', op_ctx s' = Some c' -> (smooth s -> smooth s') -> same_op c c' ->
   cipher_ok c' key (effective_iv (cipher_alg c) (input_bytes iv)) [] ->
   is_null iv = false -> zlen (input_bytes iv) = iv_len_of c -> Q PSA_SUCCESS s') ->
wp (psa_cipher_set_iv iv) Q s.
Proof.
intros Hc Hkd Hbad Hgood. unfold psa_cipher_set_iv. apply wp_bind, (wp_set_iv_inner c key); [done|done| |].
- intros e s1 He Hno. destruct e; [done|by apply wp_fail; auto ..].
- intros c' s1 Hc1 Hsm Hsame Hok Hn Hl. by apply wp_ret, (Hgood c').
Qed.

(** A vector cannot be set twice, nor in ECB mode, nor without an operation. *)
Lemma wp_set_iv_refused iv s (Q : psa_status_t -> opstate O wolfpsa_cipher_ctx -> Prop) :
(op_ctx s = None \/ exists c, op_ctx s = Some c /\ cipher_wf c /\
   (cipher_iv_set c = true \/ needs_iv c = false)) ->
(forall s', op_ctx s' = None -> Q PSA_ERROR_BAD_STATE s') ->
wp (psa_cipher_set_iv iv) Q s.
Proof.
intros Hcase HQ. unfold psa_cipher_set_iv, wolfpsa_cipher_set_iv. apply wp_bind, wp_bind.
unfold get_ctx. apply wp_gets. destruct Hcase as [->|(c & -> & Hwf & Hor)].
{ apply wp_ret. by apply wp_fail. }
rewrite (wf_attempted c Hwf). destruct (cipher_iv_set c); [apply wp_ret; by apply wp_fail|].
destruct Hor as [?|Hn]; [done|]. unfold set_ctx at 1. apply wp_bind, wp_modify. cbv zeta.
unfold needs_iv in Hn. apply negb_false_iff in Hn. rewrite Hn. apply wp_ret. by apply wp_fail.
Qed.

(** ** A generated vector *)

Lemma wp_cipher_generate_iv {ROK : WolfCryptRngOk R} c key iv iv_size iv_length s
  (Q : psa_status_t * list byte -> opstate O wolfpsa_cipher_ctx -> Prop) :
op_ctx s = Some c -> cipher_keyed c key ->
(forall e s', op_ctx s' = None -> e <> PSA_SUCCESS ->
   (cipher_direction c = AES_ENCRYPTION -> iv = true -> iv_length = true -> iv_len_of c <= iv_size ->
    random_feasible s -> False) -> Q (e, []) s') ->
(forall c' out s', op_ctx s' = Some c' -> (smooth s -> smooth s') -> same_op c c' ->
   cipher_direction c = AES_ENCRYPTION -> iv_len_of c <= iv_size ->
   cipher_ok c' key (effective_iv (cipher_alg c) out) [] -> zlen out = iv_len_of c ->
   Q (PSA_SUCCESS, out) s') ->
wp (psa_cipher_generate_iv iv iv_size iv_length) Q s.
Proof.
intros Hc Hkd Hbad Hgood. pose proof Hkd as [Hwf Hset _ _ Hneed _].
unfold psa_cipher_generate_iv, wolfpsa_cipher_generate_iv. apply wp_bind, wp_bind. unfold get_ctx.
apply wp_gets. rewrite Hc, (wf_attempted c Hwf), Hset. cbv zeta. fold (iv_len_of c).
unfold needs_iv in Hneed. fold (iv_len_of c) in Hneed. apply negb_true_iff in Hneed. rewrite Hneed.
assert (Hfail : forall e s1, e <> PSA_SUCCESS ->
   (cipher_direction c = AES_ENCRYPTION -> iv = true -> iv_length = true -> iv_len_of c <= iv_size ->
    random_feasible s -> False) ->
   wp (cipher_fail_out e) Q s1).
{ intros e s1 He Hno. apply wp_fail_out. intros s' Hc' _ _. by apply Hbad. }
case_bool_decide as Hd; cbn [negb]; [|by apply wp_ret, (Hfail PSA_ERROR_BAD_STATE)].
destruct (negb iv_length || (negb iv && negb (iv_size =? 0))) eqn:Hptr.
{ apply wp_ret, (Hfail PSA_ERROR_INVALID_ARGUMENT); [done|]. by intros _ -> ->. }
destruct (Z.ltb_spec iv_size (iv_len_of c)) as [Hsz|Hsz].
{ apply wp_ret, (Hfail PSA_ERROR_BUFFER_TOO_SMALL); [done|]. lia. }
assert (Hlen : 0 < iv_len_of c <= 16).
{ apply Z.eqb_neq in Hneed. unfold iv_len_of, wolfpsa_cipher_iv_length, wolfpsa_cipher_block_size in *.
  unfold WOLFPSA_CHACHA20_IV_BYTES, AES_BLOCK_SIZE, DES_BLOCK_SIZE in *. repeat case_match; lia. }
assert (Hiv : iv = true).
{ destruct iv; [done|]. destruct (Z.eqb_spec iv_size 0); [lia|]. by rewrite orb_true_r in Hptr. }
rewrite Hiv. apply wp_bind, wp_random; [unfold UINT32_MAX; lia| |].
- intros e out s1 Hs1 He Hno. destruct e; [done|apply wp_ret; by apply (Hfail _ s1); [done|auto] ..].
- intros out s1 Hs1 Hsm Hl. apply wp_bind, (wp_set_iv_inner c key); [by rewrite Hs1|done| |].
  + intros e s2 He Hno.
    assert (Hno' : random_feasible s -> False).
    { intros (Hsmo & _). apply Hno; [done|exact Hl|by apply Hsm]. }
    destruct e; [done|apply wp_ret; apply (Hfail _ s2); [done|auto] ..].
  + intros c' s2 Hc2 Hsm2 Hsame Hok _ _. apply wp_ret, wp_ret. by eapply Hgood; eauto.
Qed.
End CipherOps.
