(* ===== verification/CipherSpec.v ===== *)
(** The properties of cipher operations: the state machine of their calls, whole
    multi-part operations, and the one-shot calls. *)

From stdpp Require Import base decidable list.
From Stdlib Require Import ZArith Lia.
From Stdlib Require Import Strings.Byte.
From S2P Require Import Prelude.
From S2P Require Import Values.
From S2P Require Import Engine.
From S2P Require Import WolfCipher.
From S2P Require Import KeyPolicy.
From S2P Require Import KeyFormat.
From S2P Require Import StoreIface.
From S2P Require Import Library.
From S2P Require Import KeyStore.
From S2P Require Import KeyStoreRules.
From S2P Require Import Operation.
From S2P Require Import Cipher.
From S2P Require Import CipherRules.
From S2P Require Import CipherPadding.
From S2P Require Import CipherOps.

#[local] Open Scope Z_scope.

Section CipherSpec.
Context {C : Config} {E : WolfCryptErr} {EO : WolfCryptErrOk E} {K : WolfCryptKeys}.
Context {R : WolfCryptRng} {O : StoreOps} {B : KeyBackend}.
Context {W : WolfCryptCipher} {WO : WolfCryptCipherOk W} {WT : WolfCryptCt} {WTO : WolfCryptCtOk WT}.

Implicit Types c : wolfpsa_cipher_ctx.
Implicit Types s : opstate O wolfpsa_cipher_ctx.

(** * Without an initial vector *)

(** Data before the vector is an error, no data is not. *)
Lemma wp_update_keyed c key io s
  (Q : psa_status_t * list byte -> opstate O wolfpsa_cipher_ctx -> Prop) :
op_ctx s = Some c -> cipher_keyed c key ->
(forall e s', op_ctx s' = None -> e <> PSA_SUCCESS -> Q (e, []) s') ->
(forall s', op_ctx s' = Some c -> input_bytes (io_input io) = [] -> Q (PSA_SUCCESS, []) s') ->
wp (psa_cipher_update io) Q s.
Proof.
intros Hc Hkd Hbad Hgood. pose proof Hkd as [Hwf Hset _ _ Hneed _].
assert (Hfail : forall e, e <> PSA_SUCCESS -> wp (cipher_fail_out e) Q s).
{ intros e He. apply wp_fail_out. intros s' Hc' _ _. by apply Hbad. }
unfold psa_cipher_update. apply wp_bind. unfold get_ctx. apply wp_gets. rewrite Hc. cbv zeta.
repeat (case_match; [by apply Hfail|]).
destruct (Z.eqb_spec (input_length (io_input io)) 0) as [Hz|Hz].
{ apply wp_ret, Hgood; [done|by apply input_empty]. }
assert (Hstop : forall d size, wp (cipher_update_alg c d size) Q s); [|apply Hstop].
intros d size. destruct (cipher_is_block_alg (cipher_alg c)) eqn:Hblk.
- unfold cipher_update_alg, cipher_is_block_alg in *.
  unfold cipher_update_cbc, cipher_update_pkcs7. rewrite Hset. cbn [negb].
  destruct (Z.eqb_spec (cipher_alg c) PSA_ALG_CBC_NO_PADDING); [by apply Hfail|].
  destruct (Z.eqb_spec (cipher_alg c) PSA_ALG_CBC_PKCS7); [by apply Hfail|].
  apply Z.eqb_eq in Hblk. unfold needs_iv in Hneed. by rewrite Hblk in Hneed.
- destruct (update_alg_stream c Hwf Hblk) as (sup & -> & ->). unfold cipher_update_stream.
  rewrite Hset. by apply Hfail.
Qed.

Lemma wp_finish_keyed c key output size output_length s
  (Q : psa_status_t * list byte -> opstate O wolfpsa_cipher_ctx -> Prop) :
op_ctx s = Some c -> cipher_keyed c key ->
(forall e s', op_ctx s' = None -> e <> PSA_SUCCESS -> Q (e, []) s') ->
(forall s', op_ctx s' = None -> cipher_alg c <> PSA_ALG_CBC_PKCS7 -> Q (PSA_SUCCESS, []) s') ->
wp (psa_cipher_finish output size output_length) Q s.
Proof.
intros Hc Hkd Hbad Hgood. pose proof Hkd as [Hwf Hset Hpa _ Hneed _].
assert (Hfail : forall e, e <> PSA_SUCCESS -> wp (cipher_fail_out e) Q s).
{ intros e He. apply wp_fail_out. intros s' Hc' _ _. by apply Hbad. }
unfold psa_cipher_finish. apply wp_bind. unfold get_ctx. apply wp_gets. rewrite Hc, Hset, Hpa.
destruct (negb output_length); [by apply Hfail|]. destruct (negb output && (0 <? size)); [by apply Hfail|].
destruct (Z.eqb_spec (cipher_alg c) PSA_ALG_CBC_PKCS7); [by apply Hfail|].
rewrite andb_false_r. unfold psa_cipher_abort, set_ctx. wp_seq. by apply Hgood.
Qed.

(** * The state machine *)

(** An operation as its user sees it: inactive, with a key, or with a key, its
  vector and the input so far. *)
Inductive cipher_view : Type :=
| CIdle
| CKeyed (alg key_type : Z) (d : direction) (key : list byte)
| CActive (alg key_type : Z) (d : direction) (key iv msg : list byte).

Definition cipher_is (v : cipher_view) s : Prop :=
match v with
| CIdle => op_ctx s = None
| CKeyed alg kt d key => exists c, op_ctx s = Some c /\ cipher_keyed c key /\
    cipher_alg c = alg /\ cipher_key_type c = kt /\ cipher_direction c = d
| CActive alg kt d key iv msg => exists c, op_ctx s = Some c /\ cipher_ok c key iv msg /\
    cipher_alg c = alg /\ cipher_key_type c = kt /\ cipher_direction c = d
end.

Inductive cipher_call : Type :=
| CSetup (d : direction) (key alg : Z)
| CSetIv (iv : input)
| CGenerateIv (iv : bool) (iv_size : Z) (iv_length : bool)
| CUpdate (io : cipher_io)
| CFinish (output : bool) (size : N) (output_length : bool)
| CAbort.

(** A buffer size is not negative. *)
Definition cipher_call_ok (call : cipher_call) : Prop :=
match call with CUpdate io => 0 <= io_output_size io | _ => True end.

Definition cipher_do (call : cipher_call) : M (opstate O wolfpsa_cipher_ctx) (psa_status_t * list byte) :=
match call with
| CSetup AES_ENCRYPTION key alg => st ← psa_cipher_encrypt_setup key alg; mret (st, [])
| CSetup AES_DECRYPTION key alg => st ← psa_cipher_decrypt_setup key alg; mret (st, [])
| CSetIv iv => st ← psa_cipher_set_iv iv; mret (st, [])
| CGenerateIv iv n len => psa_cipher_generate_iv iv n len
| CUpdate io => psa_cipher_update io
| CFinish output n len => psa_cipher_finish output (Z.of_N n) len
| CAbort => st ← psa_cipher_abort; mret (st, [])
end.

(** What has been written for an input, and what a whole input gives. *)
Definition sent_for (alg kt : Z) (d : direction) (key iv msg : list byte) : list byte :=
crypt (cipher_mode alg kt) d key iv (take (Z.to_nat (emitted alg kt d (zlen msg))) msg).

(** The operation just keyed. *)
Definition view_open (alg kt : Z) (d : direction) (key : list byte) : cipher_view :=
if wolfpsa_cipher_iv_length alg kt =? 0 then CActive alg kt d key [] [] else CKeyed alg kt d key.

(** What a call may answer.  A failed setup changes nothing; every other error
  ends the operation; a vector is taken once, and only where there is one;
  each update writes the next part of the output, within its buffer, and the
  finish the last. *)
Inductive cipher_step : cipher_view -> cipher_call -> psa_status_t * list byte -> cipher_view -> Prop :=
| step_setup d key alg kt m key_data : cipher_kind alg kt m ->
  cipher_step CIdle (CSetup d key alg) (PSA_SUCCESS, []) (view_open alg kt d key_data)
| step_setup_error v d key alg e : e <> PSA_SUCCESS ->
  cipher_step v (CSetup d key alg) (e, []) v
| step_set_iv alg kt d key iv : is_null iv = false ->
  zlen (input_bytes iv) = wolfpsa_cipher_iv_length alg kt ->
  cipher_step (CKeyed alg kt d key) (CSetIv iv) (PSA_SUCCESS, [])
    (CActive alg kt d key (effective_iv alg (input_bytes iv)) [])
| step_set_iv_error v iv e : e <> PSA_SUCCESS -> cipher_step v (CSetIv iv) (e, []) CIdle
| step_generate_iv alg kt key b n len out :
  zlen out = wolfpsa_cipher_iv_length alg kt -> zlen out <= n ->
  cipher_step (CKeyed alg kt AES_ENCRYPTION key) (CGenerateIv b n len) (PSA_SUCCESS, out)
    (CActive alg kt AES_ENCRYPTION key (effective_iv alg out) [])
| step_generate_iv_error v b n len e : e <> PSA_SUCCESS ->
  cipher_step v (CGenerateIv b n len) (e, []) CIdle
| step_update alg kt d key iv msg io out :
  sent_for alg kt d key iv (msg ++ input_bytes (io_input io)) = sent_for alg kt d key iv msg ++ out ->
  zlen out <= io_output_size io ->
  cipher_step (CActive alg kt d key iv msg) (CUpdate io) (PSA_SUCCESS, out)
    (CActive alg kt d key iv (msg ++ input_bytes (io_input io)))
| step_update_empty alg kt d key io : input_bytes (io_input io) = [] ->
  cipher_step (CKeyed alg kt d key) (CUpdate io) (PSA_SUCCESS, []) (CKeyed alg kt d key)
| step_update_error v io e : e <> PSA_SUCCESS -> cipher_step v (CUpdate io) (e, []) CIdle
| step_finish alg kt d key iv msg b n len out :
  cipher_spec alg kt d key iv msg = Some (sent_for alg kt d key iv msg ++ out) ->
  zlen out <= Z.of_N n ->
  cipher_step (CActive alg kt d key iv msg) (CFinish b n len) (PSA_SUCCESS, out) CIdle
| step_finish_unset alg kt d key b n len : alg <> PSA_ALG_CBC_PKCS7 ->
  cipher_step (CKeyed alg kt d key) (CFinish b n len) (PSA_SUCCESS, []) CIdle
| step_finish_error v b n len e : e <> PSA_SUCCESS -> cipher_step v (CFinish b n len) (e, []) CIdle
| step_abort v : cipher_step v CAbort (PSA_SUCCESS, []) CIdle.

Inductive cipher_trace : cipher_view -> list cipher_call -> list (psa_status_t * list byte) ->
  cipher_view -> Prop :=
| trace_nil v : cipher_trace v [] [] v
| trace_cons v call r v' calls l v'' :
  cipher_step v call r v' -> cipher_trace v' calls l v'' ->
  cipher_trace v (call :: calls) (r :: l) v''.

Fixpoint cipher_runs (calls : list cipher_call)
: M (opstate O wolfpsa_cipher_ctx) (list (psa_status_t * list byte)) :=
match calls with
| [] => mret []
| call :: calls => r ← cipher_do call; l ← cipher_runs calls; mret (r :: l)
end.

Lemma ok_view c key iv msg alg kt d s :
op_ctx s = Some c -> cipher_ok c key iv msg -> cipher_alg c = alg -> cipher_key_type c = kt ->
cipher_direction c = d -> cipher_is (CActive alg kt d key iv msg) s.
Proof. intros. by exists c. Qed.

Lemma wp_do_setup v d usage key alg s :
cipher_is v s ->
wp (st ← cipher_setup d usage key alg; mret (st, []))
  (fun r s' => exists v', cipher_is v' s' /\ cipher_step v (CSetup d key alg) r v') s.
Proof.
intros Hv. destruct (op_ctx s) as [c|] eqn:Hc.
- apply wp_bind. unfold cipher_setup. apply wp_bind. unfold get_ctx. apply wp_gets. rewrite Hc.
  apply wp_ret, wp_ret. exists v. split; [done|by constructor].
- assert (Hidle : v = CIdle).
  { destruct v as [|alg' kt' d' k|alg' kt' d' k iv msg]; [done|..];
      destruct Hv as (c & Hc' & _); congruence. }
  rewrite Hidle in *. apply wp_bind, wp_cipher_setup; [done| |].
  + intros e s1 Hc1 He _. apply wp_ret. exists CIdle. split; [done|by constructor].
  + intros a kd c s1 Hc1 [Hkey Ha Ht Hd] Hopen _. apply wp_ret.
    exists (view_open alg (attr_type a) d kd). split.
    * unfold cipher_open, needs_iv in Hopen. rewrite Ha, Ht in Hopen. unfold view_open.
      destruct (wolfpsa_cipher_iv_length alg (attr_type a) =? 0); by exists c.
    * assert (Hwf : cipher_wf c) by (by unfold cipher_open in Hopen; destruct (needs_iv c); apply Hopen).
      destruct (wf_suits c Hwf) as [m Hm]. rewrite Ha, Ht in Hm. by econstructor.
Qed.

Lemma ok_needs c key iv msg : cipher_ok c key iv msg -> cipher_iv_set c = true \/ needs_iv c = false.
Proof. intros [_ Hset _ _]. unfold needs_iv. rewrite Hset. by destruct (negb _); [left|right]. Qed.

Lemma wp_do_set_iv v iv s :
cipher_is v s ->
wp (st ← psa_cipher_set_iv iv; mret (st, []))
  (fun r s' => exists v', cipher_is v' s' /\ cipher_step v (CSetIv iv) r v') s.
Proof.
intros Hv. apply wp_bind.
assert (Hrefused : op_ctx s = None \/ (exists c, op_ctx s = Some c /\ cipher_wf c /\
    (cipher_iv_set c = true \/ needs_iv c = false)) ->
  wp (psa_cipher_set_iv iv) (fun a s' => wp (mret (a, [])) (fun r s'' =>
    exists v', cipher_is v' s'' /\ cipher_step v (CSetIv iv) r v') s') s).
{ intros H. apply wp_set_iv_refused; [done|]. intros s' Hc'. apply wp_ret.
  exists CIdle. split; [done|by constructor]. }
destruct v as [|alg kt d key|alg kt d key iv' msg].
- by apply Hrefused; left.
- destruct Hv as (c & Hc & Hkd & <- & <- & <-). apply (wp_cipher_set_iv c key); [done|done| |].
  + intros e s1 Hc1 He _. apply wp_ret. exists CIdle. split; [done|by constructor].
  + intros c' s1 Hc1 _ (H1 & H2 & H3) Hok Hn Hl. apply wp_ret. eexists. split; [|by constructor].
    by exists c'.
- destruct Hv as (c & Hc & Hok & _). apply Hrefused. right. exists c.
  split_and!; [done|apply Hok|by eapply ok_needs].
Qed.

(** A refused generation. *)
Lemma wp_generate_iv_refused iv n len s
  (Q : psa_status_t * list byte -> opstate O wolfpsa_cipher_ctx -> Prop) :
(op_ctx s = None \/ exists c, op_ctx s = Some c /\ cipher_wf c /\
   (cipher_iv_set c = true \/ needs_iv c = false)) ->
(forall s', op_ctx s' = None -> Q (PSA_ERROR_BAD_STATE, []) s') ->
wp (psa_cipher_generate_iv iv n len) Q s.
Proof.
intros Hcase HQ. unfold psa_cipher_generate_iv, wolfpsa_cipher_generate_iv. apply wp_bind, wp_bind.
assert (Hfail : forall s1, wp (cipher_fail_out PSA_ERROR_BAD_STATE) Q s1).
{ intros s1. apply wp_fail_out. intros s' Hc' _ _. by apply HQ. }
unfold get_ctx. apply wp_gets. destruct Hcase as [->|(c & -> & Hwf & Hor)]; [by apply wp_ret, Hfail|].
rewrite (wf_attempted c Hwf). destruct (cipher_iv_set c); [by apply wp_ret, Hfail|].
destruct Hor as [?|Hn]; [done|]. cbv zeta. unfold needs_iv in Hn. apply negb_false_iff in Hn. rewrite Hn.
destruct (negb (bool_decide _)); by apply wp_ret, Hfail.
Qed.

Lemma wp_do_generate_iv {ROK : WolfCryptRngOk R} v iv n len s :
cipher_is v s ->
wp (psa_cipher_generate_iv iv n len)
  (fun r s' => exists v', cipher_is v' s' /\ cipher_step v (CGenerateIv iv n len) r v') s.
Proof.
intros Hv.
assert (Hidle : forall e s', op_ctx s' = None -> e <> PSA_SUCCESS ->
  exists v', cipher_is v' s' /\ cipher_step v (CGenerateIv iv n len) (e, []) v').
{ intros e s' Hc He. exists CIdle. split; [done|by constructor]. }
destruct v as [|alg kt d key|alg kt d key iv' msg].
- apply wp_generate_iv_refused; [by left|]. intros s' Hc'. by apply Hidle.
- destruct Hv as (c & Hc & Hkd & <- & <- & <-).
  apply (wp_cipher_generate_iv c key); [done|done|intros; by apply Hidle|].
  intros c' out s1 Hc1 _ (H1 & H2 & H3) Hd Hsz Hok Hl.
  exists (CActive (cipher_alg c) (cipher_key_type c) AES_ENCRYPTION key (effective_iv (cipher_alg c) out) []).
  rewrite Hd. split.
  + exists c'. split_and!; [done|exact Hok|done|done|congruence].
  + constructor; [done|]. by rewrite Hl.
- destruct Hv as (c & Hc & Hok & _). apply wp_generate_iv_refused; [right|intros; by apply Hidle].
  exists c. split_and!; [done|apply Hok|by eapply ok_needs].
Qed.

Lemma wp_no_operation io s (Q : psa_status_t * list byte -> opstate O wolfpsa_cipher_ctx -> Prop) :
op_ctx s = None -> (forall e s', op_ctx s' = None -> e <> PSA_SUCCESS -> Q (e, []) s') ->
wp (psa_cipher_update io) Q s /\ forall output n len, wp (psa_cipher_finish output n len) Q s.
Proof.
intros Hc HQ. assert (Hfail : forall e, e <> PSA_SUCCESS -> wp (cipher_fail_out e) Q s).
{ intros e He. apply wp_fail_out. intros s' Hc' _ _. by apply HQ. }
split; [|intros output n len]; (apply wp_bind; unfold get_ctx; apply wp_gets; rewrite Hc;
  case_match; by apply Hfail).
Qed.

Lemma wp_do_update v io s :
cipher_is v s -> 0 <= io_output_size io ->
wp (psa_cipher_update io) (fun r s' => exists v', cipher_is v' s' /\ cipher_step v (CUpdate io) r v') s.
Proof.
intros Hv Hsz.
assert (Hidle : forall e s', op_ctx s' = None -> e <> PSA_SUCCESS ->
  exists v', cipher_is v' s' /\ cipher_step v (CUpdate io) (e, []) v').
{ intros e s' Hc He. exists CIdle. split; [done|by constructor]. }
destruct v as [|alg kt d key|alg kt d key iv msg].
- by apply wp_no_operation.
- pose proof Hv as (c & Hc & Hkd & H1 & H2 & H3). apply (wp_update_keyed c key); [done|done|done|].
  intros s1 Hc1 He. exists (CKeyed alg kt d key). split; [by exists c|by constructor].
- destruct Hv as (c & Hc & Hok & <- & <- & <-).
  apply (wp_cipher_update c key iv msg); [done|done|done|intros; by apply Hidle|].
  intros out c' s1 Hc1 _ Hsh Hok' Hsent Hout.
  exists (CActive (cipher_alg c) (cipher_key_type c) (cipher_direction c) key iv
            (msg ++ input_bytes (io_input io))). split.
  + exists c'. injection Hsh as H1 H2 _ H3 _ _ _ _ _ _. split_and!; [done|exact Hok'|done|done|done].
  + by constructor.
Qed.

Lemma wp_do_finish v output n len s :
cipher_is v s ->
wp (psa_cipher_finish output (Z.of_N n) len)
  (fun r s' => exists v', cipher_is v' s' /\ cipher_step v (CFinish output n len) r v') s.
Proof.
intros Hv.
assert (Hidle : forall e s', op_ctx s' = None -> e <> PSA_SUCCESS ->
  exists v', cipher_is v' s' /\ cipher_step v (CFinish output n len) (e, []) v').
{ intros e s' Hc He. exists CIdle. split; [done|by constructor]. }
destruct v as [|alg kt d key|alg kt d key iv msg].
- by apply (wp_no_operation (mkIo (Bytes []) 0 true 0 0 true)).
- destruct Hv as (c & Hc & Hkd & <- & <- & <-). apply (wp_finish_keyed c key); [done|done|done|].
  intros s1 Hc1 Ha. exists CIdle. split; [done|by constructor].
- destruct Hv as (c & Hc & Hok & <- & <- & <-).
  apply (wp_cipher_finish c key iv msg); [done|done|lia|]. split.
  + intros e s1 Hc1 He _. by apply Hidle.
  + intros out s1 Hc1 _ Hspec Hout. exists CIdle. split; [done|]. by constructor.
Qed.

Lemma wp_cipher_do {ROK : WolfCryptRngOk R} v call s :
cipher_is v s -> cipher_call_ok call ->
wp (cipher_do call) (fun r s' => exists v', cipher_is v' s' /\ cipher_step v call r v') s.
Proof.
intros Hv Hok. destruct call as [[] key alg|iv|iv n len|io|output n len|]; simpl.
- by apply wp_do_setup.
- by apply wp_do_setup.
- by apply wp_do_set_iv.
- by apply wp_do_generate_iv.
- by apply wp_do_update.
- by apply wp_do_finish.
- unfold psa_cipher_abort, set_ctx. wp_seq. exists CIdle. split; [done|constructor].
Qed.

(** C8: Every sequence of calls on a fresh operation object, whatever fails, answers
  as the state machine [cipher_step] allows: no data is ciphered before a
  vector is set, a vector is set once, each successful update writes the next
  part of the cipher of the input, and a failed call ends the operation. *)
Theorem cipher_calls_refine {ROK : WolfCryptRngOk R} calls s :
Forall cipher_call_ok calls ->
wp (set_ctx None;; cipher_runs calls)
  (fun l s' => exists v, cipher_is v s' /\ cipher_trace CIdle calls l v) s.
Proof.
intros Hcalls. apply wp_bind, wp_modify. assert (Hv : cipher_is CIdle (with_ctx None s)) by done.
revert Hv. generalize (with_ctx None s). generalize CIdle. clear s.
induction Hcalls as [|call calls Hok _ IH]; intros v s Hv; simpl.
{ apply wp_ret. exists v. split; [done|constructor]. }
apply wp_bind. eapply wp_mono; [by apply wp_cipher_do|]. intros r s1 (v1 & Hv1 & Hstep).
apply wp_bind. eapply wp_mono; [by apply IH|]. intros l s2 (v2 & Hv2 & Htr).
apply wp_ret. exists v2. split; [done|]. by econstructor.
Qed.
End CipherSpec.
