(* ===== verification/CipherProps.v ===== *)
(** Whole cipher operations: output sizes, multi-part operations however they are
    cut, the one-shot calls, and decryption as the inverse of encryption. *)

From stdpp Require Import base decidable list.
From Stdlib Require Import ZArith Lia.
From Stdlib Require Import Strings.Byte.
From S2P Require Import Prelude.
From S2P Require Import Values.
From S2P Require Import Engine.
From S2P Require Import WolfCipher.
From S2P Require Import KeyPolicy.
From S2P Require Import KeyFormat.
From S2P Require Import StoreIface.
From S2P Require Import Library.
From S2P Require Import KeyStore.
From S2P Require Import KeyStoreRules.
From S2P Require Import Operation.
From S2P Require Import Cipher.
From S2P Require Import CipherRules.
From S2P Require Import CipherPadding.
From S2P Require Import CipherOps.
From S2P Require Import CipherSpec.

#[local] Open Scope Z_scope.

Section CipherProps.
Context {C : Config} {E : WolfCryptErr} {EO : WolfCryptErrOk E} {K : WolfCryptKeys}.
Context {R : WolfCryptRng} {O : StoreOps} {B : KeyBackend}.
Context {W : WolfCryptCipher} {WO : WolfCryptCipherOk W} {WT : WolfCryptCt} {WTO : WolfCryptCtOk WT}.

Implicit Types c : wolfpsa_cipher_ctx.
Implicit Types s : opstate O wolfpsa_cipher_ctx.

(** * Output sizes *)

(** The sizes of the header, by kind of operation. *)
Lemma kind_sizes alg kt m n :
cipher_kind alg kt m ->
PSA_ALG_IS_CIPHER alg = true /\
PSA_CIPHER_IV_LENGTH kt alg = wolfpsa_cipher_iv_length alg kt /\
PSA_CIPHER_UPDATE_OUTPUT_SIZE kt alg n
  = (if cipher_is_block_alg alg then PSA_ROUND_UP_TO_MULTIPLE (mode_unit m) n else n) /\
PSA_CIPHER_FINISH_OUTPUT_SIZE kt alg = (if alg =? PSA_ALG_CBC_PKCS7 then mode_unit m else 0) /\
PSA_CIPHER_ENCRYPT_OUTPUT_SIZE kt alg n
  = (if alg =? PSA_ALG_CBC_PKCS7 then PSA_ROUND_UP_TO_MULTIPLE (mode_unit m) (n + 1) else n)
    + wolfpsa_cipher_iv_length alg kt /\
PSA_CIPHER_DECRYPT_OUTPUT_SIZE kt alg n = n.
Proof.
unfold wolfpsa_cipher_iv_length, wolfpsa_cipher_block_size.
destruct 1 as [Hc|a Hd [->| ->]|Hd He|a [->| ->]|He|a Hc [->| ->]|Hc|Hc]; rewrite ?Hd;
  split_and!; try done; try (by destruct NO_DES3).
Qed.

Lemma block_alg_unit alg kt m :
cipher_kind alg kt m -> cipher_is_block_alg alg = false -> mode_unit m = 1.
Proof. by destruct 1 as [Hc|a Hd [->| ->]|Hd He|a [->| ->]|He|a Hc [->| ->]|Hc|Hc]. Qed.

(** An update never writes more than its size macro says, whatever was kept. *)
Lemma update_fits c n0 n :
cipher_wf c -> 0 <= n0 -> 0 <= n ->
emit c (n0 + n) - emit c n0 <= PSA_CIPHER_UPDATE_OUTPUT_SIZE (cipher_key_type c) (cipher_alg c) n.
Proof.
intros Hwf Hn0 Hn. destruct (wf_suits c Hwf) as [m Hk]. pose proof (kind_mode _ _ _ Hk) as Hm.
destruct (kind_sizes _ _ _ n Hk) as (_ & _ & -> & _).
assert (Hu : unit_of c = mode_unit m) by (unfold unit_of, mode_of; by rewrite Hm).
pose proof (unit_pos c) as Hpos. rewrite Hu in Hpos.
destruct (Z.eq_dec n 0) as [->|Hnz].
{ rewrite Z.add_0_r. case_match; [|lia]. unfold PSA_ROUND_UP_TO_MULTIPLE.
  pose proof (Z.div_pos (0 + mode_unit m - 1) (mode_unit m)). nia. }
rewrite emit_step by lia. destruct (emit_bounds c n0 Hn0) as (Hb & _ & Hheld). rewrite Hu in *.
set (k := n0 - emit c n0 + n - _) in *.
assert (Hk' : k <= n + mode_unit m - 1) by (unfold k; destruct (keeps_last _ _); lia).
pose proof (floor_mono (mode_unit m) k _ Hpos Hk') as Hfl.
destruct (cipher_is_block_alg (cipher_alg c)) eqn:Hblk.
- unfold PSA_ROUND_UP_TO_MULTIPLE. fold (floor_to (mode_unit m) (n + mode_unit m - 1)). lia.
- rewrite (block_alg_unit _ _ _ Hk Hblk) in *. unfold floor_to in *. rewrite Z.div_1_r in *.
  rewrite Z.div_1_r in Hfl. lia.
Qed.

(** The last output is at most one block. *)
Lemma finish_fits c key iv msg r :
cipher_wf c -> spec_of c key iv msg = Some r ->
zlen r - zlen (cipher_sent c key iv msg)
  <= PSA_CIPHER_FINISH_OUTPUT_SIZE (cipher_key_type c) (cipher_alg c).
Proof.
intros Hwf Hspec. destruct (wf_suits c Hwf) as [m Hk]. pose proof (kind_mode _ _ _ Hk) as Hm.
destruct (kind_sizes _ _ _ 0 Hk) as (_ & _ & _ & -> & _).
assert (Hu : unit_of c = mode_unit m) by (unfold unit_of, mode_of; by rewrite Hm).
pose proof (unit_pos c) as Hpos. pose proof (zlen_nonneg msg) as Hn.
rewrite sent_length. destruct (emit_bounds c (zlen msg) Hn) as (Hb & _ & Hheld). rewrite Hu in *.
destruct (Z.eqb_spec (cipher_alg c) PSA_ALG_CBC_PKCS7) as [Ha|Ha].
- rewrite (spec_pkcs7 c key iv msg Ha), Hu in Hspec. unfold keeps_last in Hheld.
  rewrite Ha in Hheld. destruct (cipher_direction c) eqn:Hd.
  + injection Hspec as <-. rewrite crypt_of_length; rewrite ?zlen_pkcs7_pad by lia.
    * unfold emit, emitted. unfold keeps_last. rewrite Hd, andb_false_r. fold (mode_of c) (unit_of c).
      rewrite Hu. lia.
    * rewrite Hu, <- zlen_pkcs7_pad by lia. apply pkcs7_pad_divide. lia.
  + destruct ((0 <? zlen msg) && (zlen msg mod mode_unit m =? 0)) eqn:Hc; [|done].
    apply andb_true_iff in Hc as [_ Hmod%Z.eqb_eq].
    apply unpad_sound in Hspec as (q & Hq & Hr). apply (f_equal zlen) in Hr.
    rewrite zlen_app, zlen_pad_block, crypt_of_length in Hr; [simpl in Hheld; lia| |lia].
    rewrite Hu. by apply Z.mod_divide; [lia|].
- rewrite (spec_unpadded c key iv msg Ha), Hu in Hspec.
  destruct (Z.eqb_spec (zlen msg mod mode_unit m) 0) as [Hmod|]; [|done]. injection Hspec as <-.
  rewrite crypt_of_length by (rewrite Hu; apply Z.mod_divide; [lia|done]).
  unfold emit, emitted, keeps_last. rewrite (proj2 (Z.eqb_neq _ _) Ha). simpl.
  fold (mode_of c) (unit_of c). rewrite Hu. unfold floor_to.
  pose proof (Z.div_mod (zlen msg) (mode_unit m)). lia.
Qed.

(** * Multi-part operations *)

Fixpoint cipher_updates (ios : list cipher_io) : M (opstate O wolfpsa_cipher_ctx) (psa_status_t * list byte) :=
match ios with
| [] => mret (PSA_SUCCESS, [])
| io :: ios =>
    '(status, out) ← psa_cipher_update io;
    match status with
    | PSA_SUCCESS => '(status, rest) ← cipher_updates ios; mret (status, out ++ rest)
    | e => mret (e, [])
    end
end.

Definition usage_of (d : direction) : Z :=
match d with AES_ENCRYPTION => PSA_KEY_USAGE_ENCRYPT | AES_DECRYPTION => PSA_KEY_USAGE_DECRYPT end.

Definition setup_of (d : direction) (key alg : Z) : M (opstate O wolfpsa_cipher_ctx) psa_status_t :=
match d with
| AES_ENCRYPTION => psa_cipher_encrypt_setup key alg
| AES_DECRYPTION => psa_cipher_decrypt_setup key alg
end.

(** Updates and finish: all the output. *)
Definition cipher_stream (ios : list cipher_io) (output : bool) (size : Z)
: M (opstate O wolfpsa_cipher_ctx) (psa_status_t * list byte) :=
'(status, out) ← cipher_updates ios;
match status with
| PSA_SUCCESS =>
    '(status, last) ← psa_cipher_finish output size true;
    mret (status, match status with PSA_SUCCESS => out ++ last | _ => [] end)
| e => mret (e, [])
end.

(** A fresh operation, its vector if there is one, its input in any parts. *)
Definition cipher_multipart (d : direction) (key alg : Z) (iv : option (list byte))
  (ios : list cipher_io) (output : bool) (size : Z)
: M (opstate O wolfpsa_cipher_ctx) (psa_status_t * list byte) :=
set_ctx None;;
status ← setup_of d key alg;
match status with
| PSA_SUCCESS =>
    status ← match iv with Some iv => psa_cipher_set_iv (Bytes iv) | None => mret PSA_SUCCESS end;
    match status with
    | PSA_SUCCESS => cipher_stream ios output size
    | e => mret (e, [])
    end
| e => mret (e, [])
end.

(** The whole input. *)
Definition ios_message (ios : list cipher_io) : list byte := message (map io_input ios).

Lemma ios_message_cons io ios : ios_message (io :: ios) = input_bytes (io_input io) ++ ios_message ios.
Proof. done. Qed.

(** A buffer of the size that the macro gives. *)
Definition io_enough (alg kt : Z) (io : cipher_io) : Prop :=
io_valid alg io /\
PSA_CIPHER_UPDATE_OUTPUT_SIZE kt alg (zlen (input_bytes (io_input io))) <= io_output_size io.

Definition io_sized (io : cipher_io) : Prop := 0 <= io_output_size io.

Lemma wp_cipher_updates c key iv msg ios s
  (Q : psa_status_t * list byte -> opstate O wolfpsa_cipher_ctx -> Prop) :
op_ctx s = Some c -> cipher_ok c key iv msg -> Forall io_sized ios ->
(forall e out s', op_ctx s' = None -> e <> PSA_SUCCESS ->
   (Forall (io_enough (cipher_alg c) (cipher_key_type c)) ios -> smooth s -> False) ->
   Q (e, out) s') ->
(forall out c' s', op_ctx s' = Some c' -> (smooth s -> smooth s') ->
   cipher_shape c' = cipher_shape c -> cipher_ok c' key iv (msg ++ ios_message ios) ->
   cipher_sent c key iv (msg ++ ios_message ios) = cipher_sent c key iv msg ++ out ->
   Q (PSA_SUCCESS, out) s') ->
wp (cipher_updates ios) Q s.
Proof.
intros Hc Hok Hios. revert c msg s Q Hc Hok.
induction Hios as [|io ios Hsz _ IH]; intros c msg s Q Hc Hok Hbad Hgood; simpl.
{ apply wp_ret, (Hgood [] c); unfold ios_message, message; simpl; by rewrite ?app_nil_r. }
apply wp_bind, (wp_cipher_update c key iv msg); [done|done|done| |].
- intros e s1 Hc1 He Hno.
  assert (HQ : Q (e, []) s1).
  { apply Hbad; [done|done|]. intros [[Hv Hen] _]%Forall_cons. apply Hno; [done|].
    etransitivity; [apply update_fits; [apply Hok|apply zlen_nonneg ..]|done]. }
  destruct e; [done|by apply wp_ret ..].
- intros out c1 s1 Hc1 Hsm Hsh Hok1 Hsent _.
  apply wp_bind, (IH c1 (msg ++ input_bytes (io_input io))); [done|done| |].
  + intros e out' s2 Hc2 He Hno. apply wp_ret, Hbad; [done|done|].
    intros [_ Hen]%Forall_cons Hsmo. apply Hno; [|by apply Hsm].
    by injection Hsh as -> -> _ _ _ _ _ _ _ _.
  + intros out' c2 s2 Hc2 Hsm2 Hsh2 Hok2 Hsent2. apply wp_ret, (Hgood (out ++ out') c2).
    * done.
    * auto.
    * by rewrite Hsh2.
    * by rewrite ios_message_cons, app_assoc.
    * rewrite ios_message_cons, app_assoc, (app_assoc (cipher_sent _ _ _ _)), <- Hsent.
      by rewrite <- !(sent_shape c c1).
Qed.

(** Without a vector only empty updates succeed. *)
Lemma wp_updates_keyed c key ios s
  (Q : psa_status_t * list byte -> opstate O wolfpsa_cipher_ctx -> Prop) :
op_ctx s = Some c -> cipher_keyed c key ->
(forall e out s', op_ctx s' = None -> e <> PSA_SUCCESS -> Q (e, out) s') ->
(forall s', op_ctx s' = Some c -> ios_message ios = [] -> Q (PSA_SUCCESS, []) s') ->
wp (cipher_updates ios) Q s.
Proof.
intros Hc Hkd. revert s Q Hc. induction ios as [|io ios IH]; intros s Q Hc Hbad Hgood; simpl.
{ by apply wp_ret, Hgood. }
apply wp_bind, (wp_update_keyed c key); [done|done| |].
- intros e s1 Hc1 He. destruct e; [done|by apply wp_ret, Hbad ..].
- intros s1 Hc1 Hempty. apply wp_bind, (IH s1); [done| |].
  + intros e out s2 Hc2 He. by apply wp_ret, Hbad.
  + intros s2 Hc2 Hrest. apply wp_ret, Hgood; [done|]. by rewrite ios_message_cons, Hempty.
Qed.

(** The rest of an operation that has its vector. *)
Lemma wp_cipher_stream c key iv ios output size s
  (Q : psa_status_t * list byte -> opstate O wolfpsa_cipher_ctx -> Prop) :
op_ctx s = Some c -> cipher_ok c key iv [] -> Forall io_sized ios -> 0 <= size ->
(forall e s', op_ctx s' = None -> e <> PSA_SUCCESS ->
   (Forall (io_enough (cipher_alg c) (cipher_key_type c)) ios ->
    PSA_CIPHER_FINISH_OUTPUT_SIZE (cipher_key_type c) (cipher_alg c) <= size ->
    output = true \/ size = 0 -> smooth s ->
    spec_of c key iv (ios_message ios) = None /\ e = finish_error (cipher_alg c)) -> Q (e, []) s') ->
(forall out s', op_ctx s' = None -> (smooth s -> smooth s') ->
   spec_of c key iv (ios_message ios) = Some out -> Q (PSA_SUCCESS, out) s') ->
wp (cipher_stream ios output size) Q s.
Proof.
intros Hc Hok Hios Hsize Hbad Hgood. apply wp_bind, (wp_cipher_updates c key iv []); [done|done|done| |].
- intros e out s1 Hc1 He Hno. destruct e; [done|apply wp_ret, Hbad; [done|done|];
    intros Hen _ _ Hsm; by destruct (Hno Hen Hsm) ..].
- intros out c1 s1 Hc1 Hsm Hsh Hok1 Hsent. simpl in Hok1, Hsent.
  assert (Hspec : spec_of c1 key iv (ios_message ios) = spec_of c key iv (ios_message ios)).
  { unfold spec_of. by injection Hsh as -> -> _ -> _ _ _ _ _ _. }
  assert (Hout : cipher_sent c1 key iv (ios_message ios) = out).
  { rewrite (sent_shape c c1) by done. rewrite Hsent. unfold cipher_sent, crypt_of.
    change (zlen (@nil byte)) with 0. by rewrite emit_0, crypt_nil. }
  apply wp_bind, (wp_cipher_finish c1 key iv (ios_message ios)); [done|done|done|]. split.
  + intros e s2 Hc2 He Hor.
    assert (HQ : Q (e, []) s2).
    { apply Hbad; [done|done|]. intros _ Hfin Hptr Hsmo.
      destruct (Hor (conj eq_refl Hptr) (Hsm Hsmo)) as [[Hn ->]|(r & Hr & Hlt & _)].
      - rewrite <- Hspec. split; [done|]. by injection Hsh as ->.
      - pose proof (finish_fits c1 key iv _ r (ok_wf _ _ _ _ Hok1) Hr) as Hle.
        injection Hsh as H1 H2 _ _ _ _ _ _ _ _. rewrite H1, H2 in Hle. lia. }
    destruct e; [done|by apply wp_ret ..].
  + intros last s2 Hc2 Hsm2 Hr _. rewrite Hspec, Hout in Hr. apply wp_ret, Hgood; [done|auto|done].
Qed.

(** The vector that an operation of this kind takes. *)
Definition iv_fits (alg kt : Z) (iv : option (list byte)) : Prop :=
match iv with
| Some v => zlen v = wolfpsa_cipher_iv_length alg kt /\ v <> []
| None => wolfpsa_cipher_iv_length alg kt = 0
end.

Lemma usable_unique key alg usage s a d a' d' :
cipher_key_usable key alg usage s a d -> cipher_key_usable key alg usage s a' d' -> a' = a /\ d' = d.
Proof.
intros (x & y & Hg & -> & -> & _) (x' & y' & Hg' & -> & -> & _). rewrite Hg in Hg'. by injection Hg' as <- <-.
Qed.

Lemma effective_none alg kt : wolfpsa_cipher_iv_length alg kt = 0 -> effective_iv alg [] = [].
Proof.
unfold effective_iv. destruct (Z.eqb_spec alg PSA_ALG_CCM_STAR_NO_TAG) as [->|]; [|done]. done.
Qed.

(** What a whole operation owes its caller: [P] holds of each of its results. *)
Definition multipart_post (d : direction) (key alg : Z) (iv : option (list byte)) (ios : list cipher_io)
  (output : bool) (size : Z) s (r : psa_status_t * list byte) : Prop :=
(r.1 = PSA_SUCCESS -> exists a key_data,
   cipher_key_usable key alg (usage_of d) s a key_data /\
   cipher_spec alg (attr_type a) d key_data (effective_iv alg (default [] iv)) (ios_message ios)
     = Some r.2) /\
(forall a key_data, cipher_setup_feasible key alg (usage_of d) s ->
   cipher_key_usable key alg (usage_of d) s a key_data -> iv_fits alg (attr_type a) iv ->
   Forall (io_enough alg (attr_type a)) ios ->
   PSA_CIPHER_FINISH_OUTPUT_SIZE (attr_type a) alg <= size -> output = true \/ size = 0 ->
   match cipher_spec alg (attr_type a) d key_data (effective_iv alg (default [] iv))
           (ios_message ios) with
   | Some out => r = (PSA_SUCCESS, out)
   | None => r.1 = finish_error alg
   end).

Lemma post_error d key alg iv ios output size s e out :
e <> PSA_SUCCESS ->
(forall a key_data, cipher_setup_feasible key alg (usage_of d) s ->
   cipher_key_usable key alg (usage_of d) s a key_data -> iv_fits alg (attr_type a) iv -> False) ->
multipart_post d key alg iv ios output size s (e, out).
Proof. intros He Hno. split; [done|]. intros a kd Hf Hu Hiv. by destruct (Hno a kd Hf Hu Hiv). Qed.

(** A live context with its vector, to the end. *)
Lemma wp_stream_post d key alg iv ios output size s a key_data c v s1 :
op_ctx s1 = Some c -> cipher_live key alg (usage_of d) d s a key_data c ->
cipher_ok c key_data v [] -> v = effective_iv alg (default [] iv) ->
Forall io_sized ios -> 0 <= size ->
(cipher_setup_feasible key alg (usage_of d) s -> smooth s1) ->
wp (cipher_stream ios output size)
  (fun r s' => op_ctx s' = None /\ multipart_post d key alg iv ios output size s r) s1.
Proof.
intros Hc [Hkey Ha Ht Hd] Hok -> Hios Hsize Hsm.
apply (wp_cipher_stream c key_data (effective_iv alg (default [] iv))); try done.
- intros e s2 Hc2 He Hno. split; [done|]. split; [done|].
  intros a' kd' Hf Hu _ Hen Hfin Hptr. destruct (usable_unique _ _ _ _ _ _ _ _ Hkey Hu) as [-> ->].
  rewrite <- Ha, <- Ht in Hen, Hfin. destruct (Hno Hen Hfin Hptr (Hsm Hf)) as [Hspec ->].
  unfold spec_of in Hspec. rewrite Ha, Ht, Hd in Hspec. rewrite Hspec. by rewrite Ha.
- intros out s2 Hc2 _ Hspec. unfold spec_of in Hspec. rewrite Ha, Ht, Hd in Hspec. split; [done|]. split.
  + intros _. by exists a, key_data.
  + intros a' kd' _ Hu _ _ _ _. destruct (usable_unique _ _ _ _ _ _ _ _ Hkey Hu) as [-> ->].
    by rewrite Hspec.
Qed.

(** A live context that never gets a vector: only an empty input passes. *)
Lemma wp_stream_unset d key alg ios output size s a key_data c s1 :
op_ctx s1 = Some c -> cipher_live key alg (usage_of d) d s a key_data c ->
cipher_keyed c key_data ->
wp (cipher_stream ios output size)
  (fun r s' => op_ctx s' = None /\ multipart_post d key alg None ios output size s r) s1.
Proof.
intros Hc [Hkey Ha Ht Hd] Hkd.
assert (Hno : forall a' kd', cipher_key_usable key alg (usage_of d) s a' kd' ->
  iv_fits alg (attr_type a') None -> False).
{ intros a' kd' Hu Hfit. destruct (usable_unique _ _ _ _ _ _ _ _ Hkey Hu) as [-> _].
  pose proof (kd_needs _ _ Hkd) as Hn. unfold needs_iv in Hn. rewrite Ha, Ht in Hn.
  simpl in Hfit. by rewrite Hfit in Hn. }
apply wp_bind, (wp_updates_keyed c key_data); [done|done| |].
- intros e out s2 Hc2 He. destruct e; [done|apply wp_ret; split; [done|]; apply post_error; eauto ..].
- intros s2 Hc2 Hempty. apply wp_bind, (wp_finish_keyed c key_data); [done|done| |].
  + intros e s3 Hc3 He. apply wp_ret. split; [done|]. apply post_error; eauto.
  + intros s3 Hc3 Hpk. apply wp_ret. split; [done|]. split; [|intros a' kd' _ Hu Hfit; by destruct (Hno a' kd')].
    intros _. exists a, key_data. split; [done|]. rewrite Hempty. unfold cipher_spec.
    rewrite Ha in Hpk. rewrite (proj2 (Z.eqb_neq _ _) Hpk). change (zlen (@nil byte)) with 0.
    rewrite Z.mod_0_l by (pose proof (mode_unit_pos (cipher_mode alg (attr_type a))); lia).
    simpl. by rewrite crypt_nil.
Qed.

(** C9: Whatever fails and however the input is cut, an operation that succeeds was
  given a key that permits it and wrote the cipher of the whole input; the
  operation object is inactive afterwards; and with a vector of the right
  length, buffers of the sizes that the macros give, and nothing failing, it
  succeeds exactly when the input is whole blocks, or well padded. *)
Theorem cipher_multipart_spec d key alg iv ios output size s :
Forall io_sized ios -> 0 <= size ->
wp (cipher_multipart d key alg iv ios output size)
  (fun r s' => op_ctx s' = None /\ multipart_post d key alg iv ios output size s r) s.
Proof.
intros Hios Hsize. unfold cipher_multipart. apply wp_bind, wp_modify, wp_bind.
change (multipart_post d key alg iv ios output size s)
  with (multipart_post d key alg iv ios output size (with_ctx None s)).
assert (Hs : op_ctx (with_ctx None s) = None) by done. revert Hs. generalize (with_ctx None s). clear s.
intros s Hs.
replace (setup_of d key alg) with (cipher_setup d (usage_of d) key alg) by (by destruct d).
apply wp_cipher_setup; [done| |].
{ intros e s1 Hc1 He Hno. destruct e; [done|apply wp_ret; split; [done|]; apply post_error; auto ..]. }
intros a kd c s1 Hc1 Hlive Hopen Hsm. pose proof (live_key _ _ _ _ _ _ _ _ Hlive) as Hkey.
unfold cipher_open in Hopen. destruct (needs_iv c) eqn:Hneed, iv as [v|].
- apply wp_bind, (wp_cipher_set_iv c kd); [done|done| |].
  + intros e s2 Hc2 He Hno.
    assert (HQ : op_ctx s2 = None /\ multipart_post d key alg (Some v) ios output size s (e, [])).
    { split; [done|]. apply post_error; [done|]. intros a' kd' Hf Hu [Hl _].
      destruct (usable_unique _ _ _ _ _ _ _ _ Hkey Hu) as [-> _]. apply Hno; [done| |by apply Hsm].
      unfold iv_len_of. by rewrite (live_alg _ _ _ _ _ _ _ _ Hlive), (live_type _ _ _ _ _ _ _ _ Hlive). }
    destruct e; [done|by apply wp_ret ..].
  + intros c2 s2 Hc2 Hsm2 (H1 & H2 & H3) Hok _ _.
    eapply wp_stream_post; [exact Hc2|by apply (live_shape _ _ _ _ _ _ _ c)|exact Hok| |done|done|auto].
    by rewrite (live_alg _ _ _ _ _ _ _ _ Hlive).
- by apply wp_bind, wp_ret, (wp_stream_unset d key alg ios output size s a kd c).
- apply wp_bind, wp_set_iv_refused.
  { right. exists c. split_and!; [done|apply Hopen|by right]. }
  intros s2 Hc2. apply wp_ret. split; [done|]. apply post_error; [done|].
  intros a' kd' Hf Hu [Hl Hv]. destruct (usable_unique _ _ _ _ _ _ _ _ Hkey Hu) as [-> _].
  unfold needs_iv in Hneed. apply negb_false_iff, Z.eqb_eq in Hneed.
  rewrite (live_alg _ _ _ _ _ _ _ _ Hlive), (live_type _ _ _ _ _ _ _ _ Hlive) in Hneed.
  rewrite Hneed in Hl. by apply zlen_0_nil in Hl.
- apply wp_bind, wp_ret. eapply (wp_stream_post d key alg None); try done.
  simpl. unfold needs_iv in Hneed. apply negb_false_iff, Z.eqb_eq in Hneed. symmetry.
  rewrite <- (live_alg _ _ _ _ _ _ _ _ Hlive). by eapply effective_none.
Qed.

(** * One shot *)

Lemma wp_both {S A} (m : M S A) (Q1 Q2 Q : A -> S -> Prop) (st : S) :
wp m Q1 st -> wp m Q2 st -> (forall a st', Q1 a st' -> Q2 a st' -> Q a st') -> wp m Q st.
Proof. unfold wp. auto. Qed.

(** Buffers that do not overlap do not overlap from further on. *)
Lemma overlap_rest io l m n :
0 <= n -> 0 <= m <= zlen l -> io_input io = Bytes l -> io_overlap io = false ->
io_overlap (io_rest io (Bytes (drop (Z.to_nat m) l)) (io_in_addr io + m) n) = false.
Proof.
intros Hn Hm Hl Hov. unfold io_overlap in *. rewrite Hl in Hov. simpl in *.
destruct (io_output io); [|done]. simpl in *.
assert (Hd : zlen (drop (Z.to_nat m) l) = zlen l - m) by (unfold zlen in *; rewrite length_drop; lia).
rewrite Hd.
apply not_true_is_false. rewrite !andb_true_iff, !Z.ltb_lt.
replace (io_out_addr io + n + (io_output_size io - n)) with (io_out_addr io + io_output_size io) by lia.
replace (io_in_addr io + m + _) with (io_in_addr io + zlen l) by lia.
intros [[[H1 H2] H3] H4].
rewrite (proj2 (Z.ltb_lt 0 (zlen l))), (proj2 (Z.ltb_lt 0 (io_output_size io))) in Hov by lia.
rewrite (proj2 (Z.ltb_lt (io_in_addr io) _)) in Hov by lia.
by rewrite (proj2 (Z.ltb_lt (io_out_addr io) _)) in Hov by lia.
Qed.

(** The update and the finish of a one-shot call: the room for the whole input
  and for the whole output is enough. *)
Lemma wp_cipher_run c key iv io s
  (Q : psa_status_t * list byte -> opstate O wolfpsa_cipher_ctx -> Prop) :
let data := input_bytes (io_input io) in
op_ctx s = Some c -> cipher_ok c key iv [] -> 0 <= io_output_size io ->
(forall e s', op_ctx s' = None -> e <> PSA_SUCCESS ->
   (io_valid (cipher_alg c) io -> zlen data <= io_output_size io ->
    (forall r, spec_of c key iv data = Some r -> zlen r <= io_output_size io) -> smooth s ->
    spec_of c key iv data = None /\ e = finish_error (cipher_alg c)) -> Q (e, []) s') ->
(forall out s', op_ctx s' = None -> spec_of c key iv data = Some out ->
   zlen out <= io_output_size io -> Q (PSA_SUCCESS, out) s') ->
wp (cipher_run io) Q s.
Proof.
intros data Hc Hok Hsz Hbad Hgood.
assert (Habort : forall e s1, e <> PSA_SUCCESS -> op_ctx s1 = None ->
  (forall s', op_ctx s' = None -> Q (e, []) s') -> wp (cipher_abort_out e) Q s1).
{ intros e s1 He Hs1 HQ. unfold cipher_abort_out, psa_cipher_abort, set_ctx. wp_seq. by apply HQ. }
apply wp_bind, (wp_cipher_update c key iv []); [done|done|done| |].
- intros e s1 Hc1 He Hno. destruct e; [done|apply Habort; [done|done|]; intros s2 Hc2; apply Hbad;
    [done|done|]; intros Hv Hin _ Hsm; destruct Hno; try done;
    change (zlen []) with 0; rewrite emit_0; destruct (emit_bounds c (0 + zlen data)) as (Hb & _);
    [pose proof (zlen_nonneg data); lia|fold data; lia] ..].
- intros out c1 s1 Hc1 Hsm Hsh Hok1 Hsent Hout. simpl in Hok1, Hsent. fold data in Hok1, Hsent.
  assert (Hspec : spec_of c1 key iv data = spec_of c key iv data).
  { unfold spec_of. by injection Hsh as -> -> _ -> _ _ _ _ _ _. }
  assert (Hsd : cipher_sent c1 key iv data = out).
  { rewrite (sent_shape c c1) by done. rewrite Hsent. unfold cipher_sent, crypt_of.
    change (zlen (@nil byte)) with 0. by rewrite emit_0, crypt_nil. }
  apply wp_bind, (wp_cipher_finish c1 key iv data); [done|done|lia|]. rewrite <- Hspec in *.
  assert (Ha : cipher_alg c1 = cipher_alg c) by (by injection Hsh). split.
  + intros e s2 Hc2 He Hor.
    assert (HQ : forall s', op_ctx s' = None -> Q (e, []) s').
    { intros s' Hc'. apply Hbad; [done|done|]. intros (_ & Hptr & _) _ Hall Hsmo.
      destruct Hor as [[Hn ->]|(r & Hr & Hlt & _)]; [|by apply Hsm|by rewrite Ha|].
      - split; [done|]. destruct Hptr as [?|Hz]; [by left|right]. pose proof (zlen_nonneg out). lia.
      - specialize (Hall r Hr). rewrite Hsd in Hlt. lia. }
    destruct e; [done|by apply Habort ..].
  + intros last s2 Hc2 _ Hr Hl. rewrite Hsd in Hr. unfold psa_cipher_abort, set_ctx. wp_seq.
    apply Hgood; [done|done|]. rewrite zlen_app. lia.
Qed.

(** ** The lock and the random generator after a setup *)

Definition keeps_lock {A} (m : M (opstate O wolfpsa_cipher_ctx) A) : Prop :=
forall s, let s' := (m s).2 in
lock_view (op_lib s') = lock_view (op_lib s) /\
g_psa_crypto_initialized (op_lib s') = g_psa_crypto_initialized (op_lib s).

Lemma lock_pure {A} (m : M (opstate O wolfpsa_cipher_ctx) A) : pure_calls m -> keeps_lock m.
Proof. intros Hm s. destruct (Hm s) as (_ & Hq & Hl & _). split; [done|apply Hq]. Qed.

Lemma lock_bind {A A'} (m : M (opstate O wolfpsa_cipher_ctx) A) (f : A -> M _ A') :
keeps_lock m -> (forall a, keeps_lock (f a)) -> keeps_lock (mbind f m).
Proof.
intros Hm Hf s. rewrite bind_run. destruct (Hm s) as [H1 H2]. destruct (Hf (m s).1 (m s).2) as [H3 H4].
split; congruence.
Qed.

Lemma lock_ret {A} (a : A) : keeps_lock (mret a).
Proof. done. Qed.

Lemma lock_set_ctx o : keeps_lock (set_ctx o).
Proof. done. Qed.

Lemma key_setup_keeps dir key_data c : keeps_lock (cipher_key_setup dir key_data c).
Proof.
apply lock_pure. unfold cipher_key_setup.
repeat (apply pure_ret || apply pure_wc_call || apply pure_wc_then || (apply pure_bind; [|intros])
        || apply pure_if).
Qed.

(** The library when the key has been loaded. *)
Definition loaded_lib (key : Z) s : kstate O :=
(wolfpsa_get_key_data key (Some PSA_KEY_ATTRIBUTES_INIT) (op_lib s)).2.

Lemma setup_keeps dir usage key alg s :
op_ctx s = None ->
wp (cipher_setup dir usage key alg)
  (fun st s' => st = PSA_SUCCESS ->
     lock_view (op_lib s') = lock_view (loaded_lib key s) /\
     g_psa_crypto_initialized (op_lib s') = g_psa_crypto_initialized (loaded_lib key s)) s.
Proof.
intros Hc. unfold cipher_setup. apply wp_bind. unfold get_ctx. apply wp_gets. rewrite Hc.
destruct (wolfpsa_cipher_check_alg alg); try by apply wp_ret.
apply wp_bind, wp_lib. unfold wolfpsa_cipher_check_key, loaded_lib. apply wp_bind. unfold wp at 1.
destruct (wolfpsa_get_key_data key (Some PSA_KEY_ATTRIBUTES_INIT) (op_lib s)) as [[[st a] d] k].
cbn [fst snd]. apply wp_ret.
destruct st; try by apply wp_ret. destruct (cipher_key_checks _ _ _ _); try by apply wp_ret.
match goal with |- wp ?m _ _ => assert (Hk : keeps_lock m) end.
{ apply lock_bind; [apply lock_pure, pure_malloc|]. intros ok.
  repeat (case_match; try apply lock_ret).
  apply lock_bind; [apply key_setup_keeps|]. intros [ret c']. case_match; [apply lock_ret|].
  apply lock_bind; [apply lock_set_ctx|]. intros. apply lock_ret. }
intros _. apply Hk.
Qed.
End CipherProps.
