(* ===== verification/CipherOneShot.v ===== *)
(** One-shot encryption and decryption: what [psa_cipher_encrypt] and
    [psa_cipher_decrypt] write, when they succeed, and that the second undoes
    the first. *)

From stdpp Require Import base decidable list.
From Stdlib Require Import ZArith Lia.
From Stdlib Require Import Strings.Byte.
From S2P Require Import Prelude.
From S2P Require Import Values.
From S2P Require Import Engine.
From S2P Require Import WolfCipher.
From S2P Require Import KeyPolicy.
From S2P Require Import KeyFormat.
From S2P Require Import StoreIface.
From S2P Require Import Library.
From S2P Require Import KeyStore.
From S2P Require Import KeyStoreRules.
From S2P Require Import Operation.
From S2P Require Import Cipher.
From S2P Require Import CipherRules.
From S2P Require Import CipherPadding.
From S2P Require Import CipherOps.
From S2P Require Import CipherSpec.
From S2P Require Import CipherProps.

#[local] Open Scope Z_scope.

Section CipherOneShot.
Context {C : Config} {E : WolfCryptErr} {EO : WolfCryptErrOk E} {K : WolfCryptKeys}.
Context {R : WolfCryptRng} {O : StoreOps} {B : KeyBackend}.
Context {W : WolfCryptCipher} {WO : WolfCryptCipherOk W} {WT : WolfCryptCt} {WTO : WolfCryptCtOk WT}.

Implicit Types c : wolfpsa_cipher_ctx.
Implicit Types s : opstate O wolfpsa_cipher_ctx.

(** ** Encryption *)

(** A whole input for the algorithm. *)
Definition whole_input (alg kt n : Z) : bool :=
(alg =? PSA_ALG_CBC_PKCS7) || (n mod mode_unit (cipher_mode alg kt) =? 0).

Lemma encrypt_spec_whole alg kt key iv msg :
cipher_spec alg kt AES_ENCRYPTION key iv msg =
if whole_input alg kt (zlen msg)
then Some (crypt (cipher_mode alg kt) AES_ENCRYPTION key iv
             (if alg =? PSA_ALG_CBC_PKCS7 then pkcs7_pad (mode_unit (cipher_mode alg kt)) msg else msg))
else None.
Proof. unfold cipher_spec, whole_input. by destruct (alg =? PSA_ALG_CBC_PKCS7). Qed.

(** The output of an encryption: the vector and the cipher of the message. *)
Definition encrypts_to (key alg : Z) s (msg out : list byte) : Prop :=
exists a key_data iv ct,
  cipher_key_usable key alg PSA_KEY_USAGE_ENCRYPT s a key_data /\
  zlen iv = wolfpsa_cipher_iv_length alg (attr_type a) /\ out = iv ++ ct /\
  cipher_spec alg (attr_type a) AES_ENCRYPTION key_data (effective_iv alg iv) msg = Some ct.

(** Nothing stands in the way of a one-shot encryption. *)
Definition encrypt_feasible (key alg : Z) s : Prop :=
cipher_setup_feasible key alg PSA_KEY_USAGE_ENCRYPT s /\ idle (loaded_lib key s) /\
g_psa_crypto_initialized (loaded_lib key s) = true /\ rng_works.

(** What a one-shot call accepts. *)
Definition oneshot_valid (io : cipher_io) : Prop :=
input_valid (io_input io) /\ io_output io = true /\ io_output_length io = true /\ io_overlap io = false.

Definition encrypt_post (key alg : Z) (io : cipher_io) s (r : psa_status_t * list byte) : Prop :=
let msg := input_bytes (io_input io) in
(r.1 = PSA_SUCCESS -> encrypts_to key alg s msg r.2 /\ zlen r.2 <= io_output_size io) /\
(forall a key_data, encrypt_feasible key alg s ->
   cipher_key_usable key alg PSA_KEY_USAGE_ENCRYPT s a key_data -> oneshot_valid io ->
   PSA_CIPHER_ENCRYPT_OUTPUT_SIZE (attr_type a) alg (zlen msg) <= io_output_size io ->
   r.1 = if whole_input alg (attr_type a) (zlen msg) then PSA_SUCCESS else PSA_ERROR_INVALID_ARGUMENT).

(** An error that a feasible call does not give. *)
Lemma encrypt_error key alg io s e out :
e <> PSA_SUCCESS ->
(forall a key_data, encrypt_feasible key alg s ->
   cipher_key_usable key alg PSA_KEY_USAGE_ENCRYPT s a key_data -> oneshot_valid io ->
   PSA_CIPHER_ENCRYPT_OUTPUT_SIZE (attr_type a) alg (zlen (input_bytes (io_input io))) <= io_output_size io ->
   False) ->
encrypt_post key alg io s (e, out).
Proof. intros He Hno. split; [done|]. intros a kd Hf Hu Hv Hsz. by destruct (Hno a kd). Qed.

Lemma overlap_from io n :
0 <= n -> io_overlap io = false ->
io_overlap (io_rest io (io_input io) (io_in_addr io) n) = false.
Proof.
intros Hn Hov. destruct (io_input io) as [k|l] eqn:Hi; [done|].
pose proof (overlap_rest io l 0 n Hn ltac:(pose proof (zlen_nonneg l); lia) Hi Hov) as H.
simpl in H. by rewrite Z.add_0_r in H.
Qed.

(** The size macro leaves room for the vector and the output. *)
Lemma encrypt_room alg kt m msg :
cipher_kind alg kt m ->
zlen msg + wolfpsa_cipher_iv_length alg kt <= PSA_CIPHER_ENCRYPT_OUTPUT_SIZE kt alg (zlen msg) /\
forall key iv r, cipher_spec alg kt AES_ENCRYPTION key iv msg = Some r ->
  zlen r + wolfpsa_cipher_iv_length alg kt <= PSA_CIPHER_ENCRYPT_OUTPUT_SIZE kt alg (zlen msg).
Proof.
intros Hk. pose proof (kind_mode _ _ _ Hk) as Hm.
destruct (kind_sizes _ _ _ (zlen msg) Hk) as (_ & _ & _ & _ & -> & _).
pose proof (mode_unit_pos m) as Hu. unfold cipher_spec. rewrite Hm.
destruct (alg =? PSA_ALG_CBC_PKCS7).
- assert (Hup : PSA_ROUND_UP_TO_MULTIPLE (mode_unit m) (zlen msg + 1)
    = floor_to (mode_unit m) (zlen msg) + mode_unit m).
  { unfold PSA_ROUND_UP_TO_MULTIPLE, floor_to.
    replace (zlen msg + 1 + mode_unit m - 1) with (zlen msg + 1 * mode_unit m) by lia.
    rewrite Z.div_add by lia. lia. }
  rewrite Hup. destruct (floor_bounds (mode_unit m) (zlen msg) Hu (zlen_nonneg msg)) as [_ Hfl]. split; [lia|].
  intros key iv r [= <-]. rewrite crypt_length by (by apply pkcs7_pad_divide).
  rewrite zlen_pkcs7_pad by done. lia.
- split; [lia|]. intros key iv r Hr. destruct (Z.eqb_spec (zlen msg mod mode_unit m) 0); [|done].
  injection Hr as <-. rewrite crypt_length; [lia|]. by apply Z.mod_divide; [lia|].
Qed.

Lemma iv_at_most_block c : iv_len_of c <= AES_BLOCK_SIZE.
Proof.
unfold iv_len_of, wolfpsa_cipher_iv_length, wolfpsa_cipher_block_size. by repeat case_match.
Qed.

(** From the vector on. *)
Lemma wp_encrypt_run key alg io s a key_data c iv s1 :
op_ctx s1 = Some c -> cipher_live key alg PSA_KEY_USAGE_ENCRYPT AES_ENCRYPTION s a key_data c ->
cipher_ok c key_data (effective_iv alg iv) [] ->
zlen iv = wolfpsa_cipher_iv_length alg (attr_type a) -> zlen iv <= io_output_size io ->
(encrypt_feasible key alg s -> smooth s1) ->
wp ('(status, out) ← cipher_run (io_rest io (io_input io) (io_in_addr io) (zlen iv));
    mret (status, match status with PSA_SUCCESS => iv ++ out | _ => [] end))
  (fun r s' => op_ctx s' = None /\ encrypt_post key alg io s r) s1.
Proof.
intros Hc Hlive Hok Hl Hsz Hsm. pose proof Hlive as [Hkey Ha Ht Hd].
assert (Hspec : spec_of c key_data (effective_iv alg iv) (input_bytes (io_input io))
  = cipher_spec alg (attr_type a) AES_ENCRYPTION key_data (effective_iv alg iv) (input_bytes (io_input io))).
{ unfold spec_of. by rewrite Ha, Ht, Hd. }
destruct (wf_suits c (ok_wf _ _ _ _ Hok)) as [m Hm]. rewrite Ha, Ht in Hm.
destruct (encrypt_room _ _ _ (input_bytes (io_input io)) Hm) as [Hroom Hrooms].
apply wp_bind, (wp_cipher_run c key_data (effective_iv alg iv)); [done|done|simpl; lia| |]; simpl; rewrite Hspec.
- intros e s2 Hc2 He Hno. apply wp_ret. split; [done|].
  destruct (decide (e = PSA_SUCCESS)); [done|]. split; [done|].
  intros a' kd' Hf Hu (Hv & Ho & _ & Hov) Hsize. destruct (usable_unique _ _ _ _ _ _ _ _ Hkey Hu) as [-> ->].
  destruct Hno as [Hnone ->].
  + split_and!; [done|by left|done|]. intros _. apply overlap_from; [apply zlen_nonneg|done].
  + lia.
  + intros r Hr. apply Hrooms in Hr. lia.
  + auto.
  + rewrite encrypt_spec_whole in Hnone. unfold whole_input, finish_error in *. rewrite Ha.
    destruct (alg =? PSA_ALG_CBC_PKCS7); [done|]. simpl in *. by case_match.
- intros out s2 Hc2 Hr Hout. apply wp_ret. split; [done|]. split.
  + intros _. split; [|cbn [snd]; rewrite zlen_app; lia]. by exists a, key_data, iv, out.
  + intros a' kd' _ Hu _ _. destruct (usable_unique _ _ _ _ _ _ _ _ Hkey Hu) as [-> ->].
    rewrite encrypt_spec_whole in Hr. by case_match.
Qed.

(** A one-shot encryption that succeeds wrote a vector and the cipher of the
  message under it, within its buffer; and when nothing fails, a buffer of
  [PSA_CIPHER_ENCRYPT_OUTPUT_SIZE] bytes is enough for it to succeed. *)
Theorem psa_cipher_encrypt_spec {ROK : WolfCryptRngOk R} key alg io s :
0 <= io_output_size io ->
wp (psa_cipher_encrypt key alg io)
  (fun r s' => op_ctx s' = None /\ encrypt_post key alg io s r) s.
Proof.
intros Hsize. unfold psa_cipher_encrypt. apply wp_bind, wp_modify.
change (encrypt_post key alg io s) with (encrypt_post key alg io (with_ctx None s)).
assert (Hs : op_ctx (with_ctx None s) = None) by done. revert Hs. generalize (with_ctx None s). clear s.
intros s Hs.
assert (Hinv : forall e, e <> PSA_SUCCESS -> (oneshot_valid io -> False) ->
  wp (mret (e, [])) (fun r s' => op_ctx s' = None /\ encrypt_post key alg io s r) s).
{ intros e He Hno. apply wp_ret. split; [done|]. by apply encrypt_error. }
destruct (io_output_length io) eqn:Hol; cbn [negb].
2: { apply Hinv; [done|]. intros (_ & _ & ? & _). congruence. }
destruct (negb (io_output io) && (0 <? io_output_size io)) eqn:Ho.
{ apply Hinv; [done|]. intros (_ & H & _). by rewrite H in Ho. }
destruct (io_overlap io) eqn:Hov.
{ apply Hinv; [done|]. intros (_ & _ & _ & H). congruence. }
apply wp_bind. eapply wp_both; [apply (wp_cipher_setup AES_ENCRYPTION PSA_KEY_USAGE_ENCRYPT key alg
    (fun st s' => match st with
     | PSA_SUCCESS => exists a kd c, op_ctx s' = Some c /\
         cipher_live key alg PSA_KEY_USAGE_ENCRYPT AES_ENCRYPTION s a kd c /\ cipher_open c kd /\
         (cipher_setup_feasible key alg PSA_KEY_USAGE_ENCRYPT s -> smooth s')
     | _ => op_ctx s' = None /\ (cipher_setup_feasible key alg PSA_KEY_USAGE_ENCRYPT s -> False)
     end)); [done| |]|by apply setup_keeps|].
{ intros e s1 Hc1 He Hno. by destruct e. }
{ intros a kd c s1 Hc1 Hlive Hopen Hsm. by exists a, kd, c. }
intros st s1 H1 Hkeep. destruct st; try (destruct H1 as [Hc1 Hno]; apply wp_ret; split; [done|];
  apply encrypt_error; [done|]; by intros ? ? [Hf _]).
destruct H1 as (a & kd & c & Hc1 & Hlive & Hopen & Hsm). destruct (Hkeep eq_refl) as [Hlock Hinit].
pose proof Hlive as [Hkey Ha Ht Hd].
apply wp_bind. unfold get_ctx. apply wp_gets. rewrite Hc1, Ht. cbv zeta.
unfold cipher_open, needs_iv in Hopen. rewrite Ha, Ht in Hopen.
destruct (Z.eqb_spec (wolfpsa_cipher_iv_length alg (attr_type a)) 0) as [Hz|Hz]; cbn [negb] in *.
{ apply wp_bind, wp_ret. apply (wp_encrypt_run _ _ _ _ a kd c []); try done.
  - by rewrite effective_none with (kt := attr_type a).
  - by intros [Hf _]; auto. }
assert (Habort : forall e s2, e <> PSA_SUCCESS -> (forall a' kd', encrypt_feasible key alg s ->
   cipher_key_usable key alg PSA_KEY_USAGE_ENCRYPT s a' kd' -> oneshot_valid io ->
   PSA_CIPHER_ENCRYPT_OUTPUT_SIZE (attr_type a') alg (zlen (input_bytes (io_input io))) <= io_output_size io ->
   False) -> wp (cipher_abort_out e) (fun r s' => op_ctx s' = None /\ encrypt_post key alg io s r) s2).
{ intros e s2 He Hno. unfold cipher_abort_out, psa_cipher_abort, set_ctx. wp_seq. split; [done|].
  by apply encrypt_error. }
destruct (wf_suits c) as [m Hm]; [apply Hopen|]. rewrite Ha, Ht in Hm.
destruct (encrypt_room _ _ _ (input_bytes (io_input io)) Hm) as [Hroom _].
destruct (Z.ltb_spec (io_output_size io) (wolfpsa_cipher_iv_length alg (attr_type a))) as [Hlt|Hge].
{ apply wp_bind, wp_ret, Habort; [done|]. intros a' kd' _ Hu _ Hsz.
  destruct (usable_unique _ _ _ _ _ _ _ _ Hkey Hu) as [-> ->].
  pose proof (zlen_nonneg (input_bytes (io_input io))). lia. }
apply wp_bind, (wp_cipher_generate_iv c kd); [done|done| |].
- intros e s2 Hc2 He Hno. destruct e; [done|apply Habort; [done|]; intros a' kd' (Hf & Hi & Hg & Hr) _ _ _;
    apply Hno; [done|done|done|apply iv_at_most_block|];
    split_and!; [auto|by eapply idle_lock_view|congruence|done] ..].
- intros c' iv s2 Hc2 Hsm2 (E1 & E2 & E3) _ _ Hok Hl. unfold iv_len_of in Hl. rewrite Ha, Ht in Hl.
  rewrite Ha in Hok. apply (wp_encrypt_run _ _ _ _ a kd c'); try done.
  + by apply (live_shape _ _ _ _ _ _ _ c).
  + by rewrite Hl.
  + intros [Hf _]. auto.
Qed.

(** ** Decryption *)

(** The vector and the cipher text of an input. *)
Definition decrypts_to (key alg : Z) s (data out : list byte) : Prop :=
exists a key_data iv ct,
  cipher_key_usable key alg PSA_KEY_USAGE_DECRYPT s a key_data /\
  zlen iv = wolfpsa_cipher_iv_length alg (attr_type a) /\ data = iv ++ ct /\
  cipher_spec alg (attr_type a) AES_DECRYPTION key_data (effective_iv alg iv) ct = Some out.

Definition decrypt_post (key alg : Z) (io : cipher_io) s (r : psa_status_t * list byte) : Prop :=
let data := input_bytes (io_input io) in
(r.1 = PSA_SUCCESS -> decrypts_to key alg s data r.2 /\ zlen r.2 <= io_output_size io) /\
(forall a key_data, cipher_setup_feasible key alg PSA_KEY_USAGE_DECRYPT s ->
   cipher_key_usable key alg PSA_KEY_USAGE_DECRYPT s a key_data -> oneshot_valid io ->
   PSA_CIPHER_DECRYPT_OUTPUT_SIZE (attr_type a) alg (zlen data) <= io_output_size io ->
   let iv_length := wolfpsa_cipher_iv_length alg (attr_type a) in
   let iv := take (Z.to_nat iv_length) data in
   r = if zlen data <? iv_length then (PSA_ERROR_INVALID_ARGUMENT, [])
       else match cipher_spec alg (attr_type a) AES_DECRYPTION key_data (effective_iv alg iv)
                    (drop (Z.to_nat iv_length) data) with
            | Some out => (PSA_SUCCESS, out)
            | None => (finish_error alg, [])
            end).

Lemma decrypt_error key alg io s e out :
e <> PSA_SUCCESS ->
(forall a key_data, cipher_setup_feasible key alg PSA_KEY_USAGE_DECRYPT s ->
   cipher_key_usable key alg PSA_KEY_USAGE_DECRYPT s a key_data -> oneshot_valid io ->
   zlen (input_bytes (io_input io)) < wolfpsa_cipher_iv_length alg (attr_type a) ->
   e = PSA_ERROR_INVALID_ARGUMENT /\ out = []) ->
(forall a key_data, cipher_setup_feasible key alg PSA_KEY_USAGE_DECRYPT s ->
   cipher_key_usable key alg PSA_KEY_USAGE_DECRYPT s a key_data -> oneshot_valid io ->
   wolfpsa_cipher_iv_length alg (attr_type a) <= zlen (input_bytes (io_input io)) -> False) ->
decrypt_post key alg io s (e, out).
Proof.
intros He Hshort Hno. split; [done|]. intros a kd Hf Hu Hv _. cbv zeta.
destruct (Z.ltb_spec (zlen (input_bytes (io_input io))) (wolfpsa_cipher_iv_length alg (attr_type a))).
- by destruct (Hshort a kd) as [-> ->].
- by destruct (Hno a kd).
Qed.

Lemma iv_length_nonneg alg kt : 0 <= wolfpsa_cipher_iv_length alg kt.
Proof. unfold wolfpsa_cipher_iv_length, wolfpsa_cipher_block_size. by repeat case_match. Qed.

(** A decryption gives at most its input. *)
Lemma decrypt_room alg kt m msg key iv r :
cipher_kind alg kt m -> cipher_spec alg kt AES_DECRYPTION key iv msg = Some r -> zlen r <= zlen msg.
Proof.
intros Hk. unfold cipher_spec. rewrite (kind_mode _ _ _ Hk). pose proof (mode_unit_pos m) as Hu.
destruct (alg =? PSA_ALG_CBC_PKCS7).
- destruct ((0 <? zlen msg) && (zlen msg mod mode_unit m =? 0)) eqn:Hc; [|done].
  apply andb_true_iff in Hc as [_ Hmod%Z.eqb_eq]. intros (q & Hq & Hr)%unpad_sound.
  apply (f_equal zlen) in Hr. rewrite zlen_app, zlen_pad_block, crypt_length in Hr; [lia| |lia].
  by apply Z.mod_divide; [lia|].
- destruct (Z.eqb_spec (zlen msg mod mode_unit m) 0); [|done]. intros [= <-].
  rewrite crypt_length; [lia|]. by apply Z.mod_divide; [lia|].
Qed.

(** The input after the vector. *)
Definition rest_input (io : cipher_io) (n : Z) : cipher_io :=
let data := io_input io in
io_rest io (if is_null data then data else Bytes (drop (Z.to_nat n) (input_bytes data)))
  (if is_null data then io_in_addr io else io_in_addr io + n) 0.

Lemma rest_input_bytes io n :
input_bytes (io_input (rest_input io n)) = drop (Z.to_nat n) (input_bytes (io_input io)).
Proof. unfold rest_input. destruct (io_input io); simpl; [by rewrite drop_nil|done]. Qed.

Lemma rest_input_valid io n alg :
oneshot_valid io -> 0 <= n <= zlen (input_bytes (io_input io)) -> io_valid alg (rest_input io n).
Proof.
intros (Hv & Ho & _ & Hov) Hn. unfold rest_input.
destruct (io_input io) as [k|l] eqn:Hi; simpl in *.
- split_and!; [done|by left|done|by intros].
- destruct Hv as [_ Hfit]. split_and!; [|by left|done|].
  + split; [done|]. simpl in *. apply fits_word32_spec. apply fits_word32_spec in Hfit.
    unfold zlen in *. rewrite length_drop. lia.
  + intros _. by apply overlap_rest.
Qed.

(** From the vector on. *)
Lemma wp_decrypt_run key alg io s a key_data c s1 :
let n := wolfpsa_cipher_iv_length alg (attr_type a) in
let data := input_bytes (io_input io) in
op_ctx s1 = Some c -> cipher_live key alg PSA_KEY_USAGE_DECRYPT AES_DECRYPTION s a key_data c ->
cipher_ok c key_data (effective_iv alg (take (Z.to_nat n) data)) [] -> n <= zlen data ->
0 <= io_output_size io ->
(cipher_setup_feasible key alg PSA_KEY_USAGE_DECRYPT s -> smooth s1) ->
wp (cipher_run (rest_input io n)) (fun r s' => op_ctx s' = None /\ decrypt_post key alg io s r) s1.
Proof.
intros n data Hc Hlive Hok Hn Hsz Hsm. pose proof Hlive as [Hkey Ha Ht Hd].
pose proof (iv_length_nonneg alg (attr_type a)) as Hn0. fold n in Hn0. set (iv := take (Z.to_nat n) data) in *.
assert (Hspec : spec_of c key_data (effective_iv alg iv) (drop (Z.to_nat n) data)
  = cipher_spec alg (attr_type a) AES_DECRYPTION key_data (effective_iv alg iv) (drop (Z.to_nat n) data)).
{ unfold spec_of. by rewrite Ha, Ht, Hd. }
assert (Hl : zlen (drop (Z.to_nat n) data) = zlen data - n).
{ unfold zlen in *. rewrite length_drop. lia. }
destruct (wf_suits c (ok_wf _ _ _ _ Hok)) as [m Hm]. rewrite Ha, Ht in Hm.
destruct (kind_sizes _ _ _ (zlen data) Hm) as (_ & _ & _ & _ & _ & Hdec).
apply (wp_cipher_run c key_data (effective_iv alg iv)); [done|done|simpl; lia|..];
  rewrite rest_input_bytes; fold data; rewrite Hspec; simpl.
- intros e s2 Hc2 He Hno. split; [done|]. split; [done|]. fold data.
  intros a' kd' Hf Hu Hv. destruct (usable_unique _ _ _ _ _ _ _ _ Hkey Hu) as [-> ->].
  rewrite Hdec. intros Hsize. cbv zeta. fold n iv. rewrite (proj2 (Z.ltb_ge (zlen data) n)) by lia.
  destruct Hno as [-> ->]; [by apply rest_input_valid|lia| |by auto|by rewrite Ha].
  intros r Hr. apply (decrypt_room _ _ _ _ _ _ _ Hm) in Hr. lia.
- intros out s2 Hc2 Hr Hout. split; [done|]. split.
  + intros _. split; [|cbn [snd]; lia]. exists a, key_data, iv, (drop (Z.to_nat n) data).
    split_and!; [done| |symmetry; apply take_drop|done]. unfold iv. rewrite zlen_take by lia. lia.
  + fold data. intros a' kd' _ Hu _. destruct (usable_unique _ _ _ _ _ _ _ _ Hkey Hu) as [-> ->].
    intros _. cbv zeta. fold n iv. rewrite (proj2 (Z.ltb_ge (zlen data) n)) by lia. by rewrite Hr.
Qed.

(** C16: A one-shot decryption that succeeds wrote the plain text of the cipher text
  that follows the vector, within its buffer; and when nothing fails and the
  buffer has [PSA_CIPHER_DECRYPT_OUTPUT_SIZE] bytes, it fails exactly on an
  input shorter than its vector, not of whole blocks, or badly padded. *)
Theorem psa_cipher_decrypt_spec key alg io s :
0 <= io_output_size io ->
wp (psa_cipher_decrypt key alg io)
  (fun r s' => op_ctx s' = None /\ decrypt_post key alg io s r) s.
Proof.
intros Hsize. unfold psa_cipher_decrypt. apply wp_bind, wp_modify.
change (decrypt_post key alg io s) with (decrypt_post key alg io (with_ctx None s)).
assert (Hs : op_ctx (with_ctx None s) = None) by done. revert Hs. generalize (with_ctx None s). clear s.
intros s Hs. cbv zeta.
assert (Hinv : forall e, e <> PSA_SUCCESS -> (oneshot_valid io -> False) ->
  wp (mret (e, [])) (fun r s' => op_ctx s' = None /\ decrypt_post key alg io s r) s).
{ intros e He Hno. apply wp_ret. split; [done|]. apply decrypt_error; [done|..]; by intros ? ? _ _ ?%Hno. }
destruct (io_output_length io) eqn:Hol; cbn [negb].
2: { apply Hinv; [done|]. intros (_ & _ & ? & _). congruence. }
destruct (negb (io_output io) && (0 <? io_output_size io)) eqn:Ho.
{ apply Hinv; [done|]. intros (_ & H & _). by rewrite H in Ho. }
destruct (is_null (io_input io) && (0 <? input_length (io_input io))) eqn:Hnull.
{ apply Hinv; [done|]. intros (H%valid_not_null & _). congruence. }
destruct (io_overlap io) eqn:Hov.
{ apply Hinv; [done|]. intros (_ & _ & _ & H). congruence. }
apply wp_bind, (wp_cipher_setup AES_DECRYPTION PSA_KEY_USAGE_DECRYPT key alg); [done| |].
{ intros e s1 Hc1 He Hno. destruct e; [done|apply wp_ret; split; [done|]; apply decrypt_error;
    [done|..]; intros ? ? Hf; by destruct (Hno Hf) ..]. }
intros a kd c s1 Hc1 Hlive Hopen Hsm. pose proof Hlive as [Hkey Ha Ht Hd].
apply wp_bind. unfold get_ctx. apply wp_gets. rewrite Hc1, Ht. cbv zeta.
unfold cipher_open, needs_iv in Hopen. rewrite Ha, Ht in Hopen.
set (n := wolfpsa_cipher_iv_length alg (attr_type a)) in *.
pose proof (iv_length_nonneg alg (attr_type a) : 0 <= n) as Hn0. pose proof (zlen_nonneg (input_bytes (io_input io))).
assert (Hlen : input_length (io_input io) = zlen (input_bytes (io_input io))).
{ by destruct (io_input io) as [[]|]. }
fold (rest_input io n).
destruct (Z.eqb_spec n 0) as [Hz|Hz]; cbn [negb] in *.
{ apply wp_bind, wp_ret. apply (wp_decrypt_run _ _ _ _ a kd c); try done; fold n; rewrite Hz; [|lia].
  simpl. by rewrite effective_none with (kt := attr_type a). }
assert (Habort : forall e s2, e <> PSA_SUCCESS -> decrypt_post key alg io s (e, []) ->
  wp (cipher_abort_out e) (fun r s' => op_ctx s' = None /\ decrypt_post key alg io s r) s2).
{ intros e s2 He HQ. unfold cipher_abort_out, psa_cipher_abort, set_ctx. by wp_seq. }
rewrite Hlen. destruct (Z.ltb_spec (zlen (input_bytes (io_input io))) n) as [Hlt|Hge].
{ apply wp_bind, wp_ret, Habort; [done|]. apply decrypt_error; [done|done|]. intros a' kd' _ Hu _ Hsz.
  destruct (usable_unique _ _ _ _ _ _ _ _ Hkey Hu) as [-> _]. fold n in Hsz. lia. }
apply wp_bind, (wp_cipher_set_iv c kd); [done|done| |].
- intros e s2 Hc2 He Hno.
  assert (HQ : decrypt_post key alg io s (e, [])).
  { apply decrypt_error; [done|..]; intros a' kd' Hf Hu _ Hsz;
      destruct (usable_unique _ _ _ _ _ _ _ _ Hkey Hu) as [-> _]; fold n in Hsz; [lia|].
    apply Hno; [done| |auto]. unfold iv_len_of. rewrite Ha, Ht. fold n.
    change (input_length (Bytes ?l)) with (zlen l). rewrite zlen_take by lia. lia. }
  destruct e; [done|by apply Habort ..].
- intros c' s2 Hc2 Hsm2 (E1 & E2 & E3) Hok _ _. rewrite Ha in Hok.
  apply (wp_decrypt_run _ _ _ _ a kd c'); try done; [|by auto].
  by apply (live_shape _ _ _ _ _ _ _ c).
Qed.

(** ** Round trip *)

Lemma spec_roundtrip alg kt key iv msg ct :
cipher_spec alg kt AES_ENCRYPTION key iv msg = Some ct ->
cipher_spec alg kt AES_DECRYPTION key iv ct = Some msg.
Proof.
unfold cipher_spec. set (m := cipher_mode alg kt). pose proof (mode_unit_pos m) as Hu.
assert (Hu2 : mode_unit m < 256) by (by destruct m as [[]| |]).
destruct (alg =? PSA_ALG_CBC_PKCS7).
- intros [= <-]. pose proof (pkcs7_pad_divide (mode_unit m) msg Hu) as Hdiv.
  rewrite crypt_length by done. apply Z.mod_divide in Hdiv as Hmod; [|lia]. rewrite Hmod.
  destruct (floor_bounds (mode_unit m) (zlen msg) Hu (zlen_nonneg msg)) as [[Hf _] _].
  rewrite zlen_pkcs7_pad by done. rewrite (proj2 (Z.ltb_lt 0 _)) by lia. simpl.
  rewrite crypt_inverse by done. by apply unpad_pad.
- destruct (Z.eqb_spec (zlen msg mod mode_unit m) 0) as [Hmod|]; [|done]. intros [= <-].
  assert (Hdiv : (mode_unit m | zlen msg)) by (by apply Z.mod_divide; [lia|]).
  rewrite crypt_length, Hmod by done. simpl. by rewrite crypt_inverse.
Qed.

Lemma feasible_kind key alg usage s a key_data :
cipher_setup_feasible key alg usage s -> cipher_key_usable key alg usage s a key_data ->
exists m, cipher_kind alg (attr_type a) m.
Proof.
intros (Halg & _ & a1 & d1 & k & Hget & _ & Hdes & Hchk) (a2 & d2 & Hget' & -> & _).
rewrite Hget in Hget'. injection Hget' as <- <-. apply suits_kind.
split_and!; eauto using key_checks_type.
Qed.

(** C11: What [psa_cipher_encrypt] wrote, [psa_cipher_decrypt] turns back into the
  message, when the key is the same and may be used for both. *)
Theorem cipher_roundtrip {ROK : WolfCryptRngOk R} key alg io io' s s' a key_data out :
0 <= io_output_size io -> (psa_cipher_encrypt key alg io s).1 = (PSA_SUCCESS, out) ->
io_input io' = Bytes out -> oneshot_valid io' ->
PSA_CIPHER_DECRYPT_OUTPUT_SIZE (attr_type a) alg (zlen out) <= io_output_size io' ->
cipher_setup_feasible key alg PSA_KEY_USAGE_DECRYPT s' ->
cipher_key_usable key alg PSA_KEY_USAGE_ENCRYPT s a key_data ->
cipher_key_usable key alg PSA_KEY_USAGE_DECRYPT s' a key_data ->
(psa_cipher_decrypt key alg io' s').1 = (PSA_SUCCESS, input_bytes (io_input io)).
Proof.
intros Hsz Hst Hin Hv Hsz' Hf Hu Hu'.
destruct (psa_cipher_encrypt_spec key alg io s Hsz) as [_ [Henc _]]. rewrite Hst in Henc.
destruct (Henc eq_refl) as [(a0 & kd & iv & ct & Hk & Hl & Hout & Hspec) _]. simpl in Hout.
destruct (usable_unique _ _ _ _ _ _ _ _ Hu Hk) as [-> ->].
destruct (feasible_kind _ _ _ _ _ _ Hf Hu') as [m Hm].
destruct (kind_sizes _ _ _ (zlen out) Hm) as (_ & _ & _ & _ & _ & Hdec). rewrite Hdec in Hsz'.
pose proof (zlen_nonneg out) as Hpos. pose proof (zlen_nonneg ct).
destruct (psa_cipher_decrypt_spec key alg io' s') as [_ [_ Hd]]; [lia|].
rewrite (Hd a key_data Hf Hu' Hv); rewrite Hin; cbn [input_bytes]; [|by rewrite Hdec].
rewrite <- Hl. rewrite Hout, zlen_app, (proj2 (Z.ltb_ge _ _)) by lia.
unfold zlen. rewrite Nat2Z.id, take_app_length, drop_app_length. by rewrite (spec_roundtrip _ _ _ _ _ _ Hspec).
Qed.
End CipherOneShot.
