(* ===== verification/Ccm.v ===== *)
(** Streaming CCM ([src/psa_aead.c], [wolfpsa_aead_ccm_*]).

    wolfCrypt has no streaming CCM, so the code builds one on single-block AES
    encryption: a counter mode for the text and a running CBC-MAC for the tag,
    a byte at a time.  [CcmSpec] shows that it is CCM. *)

From stdpp Require Import base decidable list.
From Stdlib Require Import ZArith Lia.
From Stdlib Require Import Strings.Byte.
From S2P Require Import Prelude.
From S2P Require Import Values.
From S2P Require Import Engine.
From S2P Require Import StoreIface.
From S2P Require Import Operation.

#[local] Open Scope Z_scope.

(** wolfCrypt's single-block AES: an expanded key, and the cipher of a block. *)
Class WolfCryptAesDirect : Type := {
  AesDirect : Type;
  zero_AesDirect : AesDirect;
  wc_AesSetKeyDirect : list byte -> AesDirect;
  wc_AesEncryptDirect : AesDirect -> list byte -> list byte }.

(** A block is 16 bytes. *)
Class WolfCryptAesDirectOk (W : WolfCryptAesDirect) : Prop := {
  aes_direct_length a block : length (wc_AesEncryptDirect a block) = 16%nat }.

Definition byte_xor (a b : byte) : byte := z2b (Z.lxor (b2z a) (b2z b)).
Definition xor_bytes (a b : list byte) : list byte := zip_with byte_xor a b.

(** [XMEMSET] to zero, then [XMEMCPY] of at most 16 bytes. *)
Definition pad16 (l : list byte) : list byte := l ++ replicate (16 - length l) x00.

(** The fields [ccm_*] of the context; [ccm_tag_len] and [ccm_ks_valid] are never
    read. *)
Record ccm_state {W : WolfCryptAesDirect} : Type := mkCcm {
  ccm_aes : AesDirect;
  ccm_ctr : list byte;
  ccm_mac : list byte;
  ccm_mblk : list byte;
  ccm_mfill : nat;
  ccm_ks : list byte;
  ccm_ks_off : nat;
  ccm_lenSz : nat }.

(** Big-endian increment of the last [lenSz] bytes; [i] counts from the end. *)
Fixpoint ctr_inc_loop (n i : nat) (carry : Z) (ctr : list byte) : list byte :=
  match n with
  | O => ctr
  | S n =>
      let next := z2b (b2z (nth (15 - i) ctr x00) + carry) in
      ctr_inc_loop n (S i) (Z.land carry (if b2z next =? 0 then 1 else 0)) (<[(15 - i)%nat:=next]> ctr)
  end.

Definition wolfpsa_aead_ccm_ctr_inc (ctr : list byte) (lenSz : nat) : list byte :=
  ctr_inc_loop lenSz 0 1 ctr.

(** The length field of B0, last byte first, and what is left of the length. *)
Fixpoint b0_length_loop (n : nat) (msg_len : Z) (field : list byte) : list byte * Z :=
  match n with
  | O => (field, msg_len)
  | S n => b0_length_loop n (Z.shiftr msg_len 8) (z2b (Z.land msg_len 0xff) :: field)
  end.

(** The length prefix of the additional data. *)
Definition ccm_aad_prefix (aad_len : Z) : list byte :=
  if aad_len <=? 0xFEFF
  then [z2b (Z.shiftr aad_len 8); z2b (Z.land aad_len 0xff)]
  else [xff; xfe; z2b (Z.shiftr aad_len 24); z2b (Z.shiftr aad_len 16);
        z2b (Z.shiftr aad_len 8); z2b (Z.land aad_len 0xff)].

Section Ccm.
Context {E : WolfCryptErr} {O : StoreOps} {Op : Type} {W : WolfCryptAesDirect}.

Notation CM := (M (opstate O Op)).

Implicit Types st : ccm_state.

Definition ccm_with_mac (mac mblk : list byte) (mfill : nat) st : ccm_state :=
mkCcm _ (ccm_aes st) (ccm_ctr st) mac mblk mfill (ccm_ks st) (ccm_ks_off st) (ccm_lenSz st).
Definition ccm_with_ks (ctr ks : list byte) (off : nat) st : ccm_state :=
mkCcm _ (ccm_aes st) ctr (ccm_mac st) (ccm_mblk st) (ccm_mfill st) ks off (ccm_lenSz st).

(** One block: the status of a failure, or the cipher. *)
Definition ccm_block (a : AesDirect) (block : list byte) : CM (psa_status_t + list byte) :=
ret ← wc_call; (* wc_AesEncryptDirect *)
mret (if negb (ret =? 0) then inl (wc_error_to_psa_status ret)
      else inr (wc_AesEncryptDirect a block)).

(** The rest of the additional data, in blocks of 16 bytes. *)
Fixpoint ccm_aad_loop (fuel : nat) (a : AesDirect) (mac aad : list byte)
: CM (psa_status_t + list byte) :=
match fuel, aad with
| S fuel, _ :: _ =>
    r ← ccm_block a (xor_bytes mac (pad16 (take 16 aad)));
    match r with
    | inl e => mret (inl e)
    | inr mac => ccm_aad_loop fuel a mac (drop 16 aad)
    end
| _, _ => mret (inr mac)
end.

Definition ccm_mac_aad (a : AesDirect) (mac aad : list byte) : CM (psa_status_t + list byte) :=
match aad with
| [] => mret (inr mac)
| _ =>
    let prefix := ccm_aad_prefix (zlen aad) in
    let rem := (16 - length prefix)%nat in
    r ← ccm_block a (xor_bytes mac (pad16 (prefix ++ take rem aad)));
    match r with
    | inl e => mret (inl e)
    | inr mac => ccm_aad_loop (length aad) a mac (drop rem aad)
    end
end.

Definition wolfpsa_aead_ccm_init (key nonce aad : list byte) (plaintext_expected tag_len : Z)
: CM (psa_status_t + ccm_state) :=
let nonce_len := length nonce in
let lenSz := (15 - nonce_len)%nat in
if (nonce_len <? 7)%nat || (13 <? nonce_len)%nat then mret (inl PSA_ERROR_INVALID_ARGUMENT)
else
  ret ← wc_call; (* wc_AesInit *)
  ret ← wc_then ret; (* wc_AesSetKeyDirect *)
  if negb (ret =? 0) then mret (inl (wc_error_to_psa_status ret))
  else
    let a := wc_AesSetKeyDirect (word32_buf key) in
    let flags := (if 0 <? zlen aad then 64 else 0) + 8 * ((tag_len - 2) / 2)
                 + (Z.of_nat lenSz - 1) in
    let '(field, msg_len) := b0_length_loop lenSz plaintext_expected [] in
    if negb (msg_len =? 0) then mret (inl PSA_ERROR_INVALID_ARGUMENT)
    else
      r ← ccm_block a (z2b flags :: nonce ++ field);
      match r with
      | inl e => mret (inl e)
      | inr mac =>
          r ← ccm_mac_aad a mac aad;
          match r with
          | inl e => mret (inl e)
          | inr mac =>
              let ctr := z2b (Z.of_nat lenSz - 1) :: nonce ++ replicate (lenSz - 1) x00 ++ [x01] in
              r ← ccm_block a ctr;
              mret match r with
                   | inl e => inl e
                   | inr ks => inr (mkCcm _ a ctr mac (replicate 16 x00) 0 ks 0 lenSz)
                   end
          end
      end.

(** The keystream block at hand, or the next one. *)
Definition ccm_refill st : CM (psa_status_t + ccm_state) :=
if (ccm_ks_off st =? 16)%nat then
  let ctr := wolfpsa_aead_ccm_ctr_inc (ccm_ctr st) (ccm_lenSz st) in
  r ← ccm_block (ccm_aes st) ctr;
  mret match r with inl e => inl e | inr ks => inr (ccm_with_ks ctr ks 0 st) end
else mret (inr st).

(** A byte of plaintext into the MAC. *)
Definition ccm_mac_byte (pt_byte : byte) st : CM (psa_status_t + ccm_state) :=
let mblk := <[ccm_mfill st := byte_xor (nth (ccm_mfill st) (ccm_mblk st) x00) pt_byte]> (ccm_mblk st) in
let mfill := S (ccm_mfill st) in
if (mfill =? 16)%nat then
  r ← ccm_block (ccm_aes st) (xor_bytes (ccm_mac st) mblk);
  mret match r with
       | inl e => inl e
       | inr mac => inr (ccm_with_mac mac (replicate 16 x00) 0 st)
       end
else mret (inr (ccm_with_mac (ccm_mac st) mblk mfill st)).

Fixpoint wolfpsa_aead_ccm_update (direction : bool) st (data : list byte)
: CM (psa_status_t + list byte * ccm_state) :=
match data with
| [] => mret (inr ([], st))
| b :: data =>
    r ← ccm_refill st;
    match r with
    | inl e => mret (inl e)
    | inr st =>
        let out := byte_xor b (nth (ccm_ks_off st) (ccm_ks st) x00) in
        let st := ccm_with_ks (ccm_ctr st) (ccm_ks st) (S (ccm_ks_off st)) st in
        r ← ccm_mac_byte (if direction then b else out) st;
        match r with
        | inl e => mret (inl e)
        | inr st =>
            r ← wolfpsa_aead_ccm_update direction st data;
            mret match r with
                 | inl e => inl e
                 | inr (rest, st) => inr (out :: rest, st)
                 end
        end
    end
end.

(** The MAC of the last block, masked with the keystream of counter zero. *)
Definition wolfpsa_aead_ccm_finish st (nonce : list byte) (tag_len : Z)
: CM (psa_status_t + list byte) :=
r ← (if (0 <? ccm_mfill st)%nat then ccm_block (ccm_aes st) (xor_bytes (ccm_mac st) (ccm_mblk st))
     else mret (inr (ccm_mac st)));
match r with
| inl e => mret (inl e)
| inr mac =>
    r ← ccm_block (ccm_aes st) (pad16 (z2b (Z.of_nat (ccm_lenSz st) - 1) :: nonce));
    mret match r with
         | inl e => inl e
         | inr s0 => inr (take (Z.to_nat tag_len) (xor_bytes mac s0))
         end
end.
End Ccm.
