(* ===== verification/CcmSpec.v ===== *)
(** CCM as SP 800-38C defines it, and the streaming CCM of [Ccm] against it. *)

From stdpp Require Import base decidable list.
From Stdlib Require Import ZArith Lia.
From Stdlib Require Import Strings.Byte.
From S2P Require Import Prelude.
From S2P Require Import Values.
From S2P Require Import Engine.
From S2P Require Import StoreIface.
From S2P Require Import Operation.
From S2P Require Import Ccm.

#[local] Open Scope Z_scope.
#[local] Arguments Nat.modulo : simpl never.
#[local] Arguments Nat.div : simpl never.

(** * The counter *)

Lemma be_bytes_snoc n z : be_bytes (S n) z = be_bytes n (z / 256) ++ [z2b z].
Proof. done. Qed.

Lemma be_val_snoc l b : be_val (l ++ [b]) = 256 * be_val l + b2z b.
Proof.
  rewrite be_val_app. replace (be_val [b]) with (b2z b) by (unfold be_val; simpl; lia).
  change (256 ^ Z.of_nat (length [b])) with 256. lia.
Qed.

Lemma z2b_add_256 v z : z2b (256 * v + z) = z2b z.
Proof.
  rewrite <- (z2b_mod (256 * v + z)), <- (z2b_mod z). f_equal.
  rewrite Z.add_comm, (Z.mul_comm 256), Z.mod_add by lia. done.
Qed.

Lemma insert_middle {A} (l k : list A) x y : <[length l := y]> (l ++ x :: k) = l ++ y :: k.
Proof. rewrite insert_app_r_alt by lia. by rewrite Nat.sub_diag. Qed.

Lemma ctr_inc_loop_spec pre mid post carry :
  length (pre ++ mid ++ post) = 16%nat -> 0 <= carry <= 1 ->
  ctr_inc_loop (length mid) (length post) carry (pre ++ mid ++ post)
    = pre ++ be_bytes (length mid) (be_val mid + carry) ++ post.
Proof.
  revert post carry. induction mid as [|b mid IH] using rev_ind; intros post carry Hl Hc; [done|].
  rewrite length_app. simpl length. rewrite Nat.add_1_r. cbn [ctr_inc_loop].
  rewrite !length_app in Hl. simpl in Hl.
  assert (Hi : (15 - length post = length (pre ++ mid))%nat) by (rewrite length_app; lia).
  replace (pre ++ (mid ++ [b]) ++ post) with ((pre ++ mid) ++ b :: post) by (by rewrite <- !app_assoc).
  rewrite Hi, nth_middle, insert_middle. set (next := z2b _). set (c' := Z.land _ _).
  rewrite <- app_assoc. change (S (length post)) with (length (next :: post)).
  pose proof (b2z_range b) as Hb.
  assert (Hc' : c' = (b2z b + carry) / 256).
  { unfold c', next. rewrite b2z_z2b. assert (Hcc : carry = 0 \/ carry = 1) by lia.
    destruct Hcc as [->| ->].
    - rewrite Z.land_0_l, Z.add_0_r, Z.div_small by lia. done.
    - destruct (Z.eq_dec (b2z b) 255) as [->|Hne]; [done|].
      rewrite Z.mod_small, Z.div_small by lia. destruct (Z.eqb_spec (b2z b + 1) 0); [lia|done]. }
  rewrite IH; [|rewrite !length_app; simpl; lia|rewrite Hc'].
  2: { split; [apply Z.div_pos; lia|]. apply Z.div_le_upper_bound; lia. }
  rewrite be_bytes_snoc, be_val_snoc, Hc'. f_equal.
  replace (256 * be_val mid + b2z b + carry) with (256 * be_val mid + (b2z b + carry)) by lia.
  rewrite z2b_add_256, (Z.mul_comm 256), Z.div_add_l by lia. by rewrite <- app_assoc.
Qed.

(** The carry chain adds one to the last [lenSz] bytes, as a big-endian number,
    and leaves the others alone. *)
Theorem ccm_ctr_inc_adds_one pre ctr :
  length (pre ++ ctr) = 16%nat ->
  wolfpsa_aead_ccm_ctr_inc (pre ++ ctr) (length ctr) = pre ++ be_bytes (length ctr) (be_val ctr + 1).
Proof.
  intros Hl. pose proof (ctr_inc_loop_spec pre ctr [] 1) as H. rewrite !app_nil_r in H.
  apply H; [done|lia].
Qed.

Lemma ctr_inc_be pre q k :
  (length pre + q = 16)%nat ->
  wolfpsa_aead_ccm_ctr_inc (pre ++ be_bytes q k) q = pre ++ be_bytes q (k + 1).
Proof.
  intros Hl. pose proof (length_be_bytes q k) as Hq. rewrite <- Hq at 2.
  rewrite ccm_ctr_inc_adds_one by (rewrite length_app; lia). f_equal.
  rewrite Hq, be_val_be_bytes.
  apply (f_equal (fun l => l)). rewrite <- (be_bytes_be_val (be_bytes q (_ + 1))).
  rewrite <- (be_bytes_be_val (be_bytes q (k + 1))). rewrite !length_be_bytes, !be_val_be_bytes.
  by rewrite Zplus_mod_idemp_l.
Qed.

(** * Stream ciphers *)

Lemma byte_xor_involutive a b : byte_xor (byte_xor a b) b = a.
Proof.
  unfold byte_xor. apply b2z_inj. rewrite !b2z_z2b.
  assert (Hr : forall x y, 0 <= Z.lxor (b2z x) (b2z y) < 2 ^ 8).
  { intros x y. apply range_land_iff; [lia|].
    pose proof (proj1 (range_land_iff 8 (b2z x) ltac:(lia)) (b2z_range x)) as Hx.
    pose proof (proj1 (range_land_iff 8 (b2z y) ltac:(lia)) (b2z_range y)) as Hy.
    rewrite <- Hx at 2. rewrite <- Hy at 2. apply Z.bits_inj'. intros i _.
    rewrite Z.land_spec, !Z.lxor_spec, !Z.land_spec.
    by destruct (Z.testbit (Z.ones 8) i), (Z.testbit (b2z x) i), (Z.testbit (b2z y) i). }
  rewrite (Z.mod_small (Z.lxor (b2z a) (b2z b))) by (specialize (Hr a b); lia).
  rewrite Z.lxor_assoc, Z.lxor_nilpotent, Z.lxor_0_r. apply Z.mod_small, b2z_range.
Qed.

(** The text from byte [n] on, ciphered or deciphered with a keystream. *)
Definition stream_xor (stream : nat -> byte) (n : nat) (text : list byte) : list byte :=
  imap (fun i b => byte_xor b (stream (n + i)%nat)) text.

Lemma stream_xor_length stream n text : length (stream_xor stream n text) = length text.
Proof. apply length_imap. Qed.

Lemma stream_xor_app stream n x y :
  stream_xor stream n (x ++ y) = stream_xor stream n x ++ stream_xor stream (n + length x) y.
Proof.
  unfold stream_xor. rewrite imap_app. f_equal. apply imap_ext. intros i b _. simpl.
  do 2 f_equal. lia.
Qed.

Lemma stream_xor_involutive stream n text : stream_xor stream n (stream_xor stream n text) = text.
Proof.
  unfold stream_xor. apply list_eq. intros i. rewrite !list_lookup_imap.
  destruct (text !! i) as [b|]; [|done]. simpl. by rewrite byte_xor_involutive.
Qed.

(** * SP 800-38C *)

(** Blocks of 16 bytes, the last one padded with zeros. *)
Fixpoint blocks16_fuel (fuel : nat) (l : list byte) : list (list byte) :=
  match fuel, l with
  | S fuel, _ :: _ => pad16 (take 16 l) :: blocks16_fuel fuel (drop 16 l)
  | _, _ => []
  end.
Definition blocks16 (l : list byte) : list (list byte) := blocks16_fuel (length l) l.

Section Ccm.
(** The block cipher under the key. *)
Variable enc : list byte -> list byte.

Definition cbc_mac (mac : list byte) (blocks : list (list byte)) : list byte :=
  fold_left (fun mac block => enc (xor_bytes mac block)) blocks mac.

(** The formatting of Appendix A.2: flags, nonce, length of the payload. *)
Definition ccm_b0 (nonce aad : list byte) (plen tag_len : Z) : list byte :=
  let q := (15 - length nonce)%nat in
  z2b ((if 0 <? zlen aad then 64 else 0) + 8 * ((tag_len - 2) / 2) + (Z.of_nat q - 1))
    :: nonce ++ be_bytes q plen.

Definition ccm_encode_aad (aad : list byte) : list byte :=
  if zlen aad =? 0 then []
  else if zlen aad <? 0xFF00 then be_bytes 2 (zlen aad) ++ aad
  else xff :: xfe :: be_bytes 4 (zlen aad) ++ aad.

(** Counter block [i] (Appendix A.3) and byte [n] of the keystream. *)
Definition ccm_counter (nonce : list byte) (i : Z) : list byte :=
  let q := (15 - length nonce)%nat in z2b (Z.of_nat q - 1) :: nonce ++ be_bytes q i.
Definition ccm_stream (nonce : list byte) (n : nat) : byte :=
  nth (n mod 16) (enc (ccm_counter nonce (Z.of_nat (n / 16) + 1))) x00.

(** The text from byte [n] on, ciphered or deciphered. *)
Definition ccm_crypt_from (nonce : list byte) (n : nat) (text : list byte) : list byte :=
  stream_xor (ccm_stream nonce) n text.
Definition ccm_crypt (nonce text : list byte) : list byte := ccm_crypt_from nonce 0 text.

(** The tag of a payload. *)
Definition ccm_tag (nonce aad msg : list byte) (tag_len : Z) : list byte :=
  let mac := cbc_mac (enc (ccm_b0 nonce aad (zlen msg) tag_len))
               (blocks16 (ccm_encode_aad aad) ++ blocks16 msg) in
  take (Z.to_nat tag_len) (xor_bytes mac (enc (ccm_counter nonce 0))).

Lemma ccm_crypt_from_length nonce n text : length (ccm_crypt_from nonce n text) = length text.
Proof. apply stream_xor_length. Qed.
Lemma ccm_crypt_from_app nonce n x y :
  ccm_crypt_from nonce n (x ++ y)
    = ccm_crypt_from nonce n x ++ ccm_crypt_from nonce (n + length x) y.
Proof. apply stream_xor_app. Qed.
Lemma ccm_crypt_involutive nonce text : ccm_crypt nonce (ccm_crypt nonce text) = text.
Proof. apply stream_xor_involutive. Qed.
End Ccm.

(** ** Blocks *)

Lemma pad16_length l : (length l <= 16)%nat -> length (pad16 l) = 16%nat.
Proof. intros. unfold pad16. rewrite length_app, length_replicate. lia. Qed.
Lemma pad16_full l : length l = 16%nat -> pad16 l = l.
Proof. intros H. unfold pad16. rewrite H, Nat.sub_diag. apply app_nil_r. Qed.

Lemma blocks16_fuel_enough f g l :
  (length l <= f)%nat -> (length l <= g)%nat -> blocks16_fuel f l = blocks16_fuel g l.
Proof.
  revert g l. induction f as [|f IH]; intros g l Hf Hg.
  - destruct l; [by destruct g|simpl in Hf; lia].
  - destruct l as [|b l]; [by destruct g|]. destruct g as [|g]; [simpl in Hg; lia|].
    cbn [blocks16_fuel]. f_equal. apply IH; rewrite length_drop; simpl in *; lia.
Qed.

Lemma blocks16_cons l : l <> [] -> blocks16 l = pad16 (take 16 l) :: blocks16 (drop 16 l).
Proof.
  intros Hl. destruct l as [|b l]; [done|]. unfold blocks16 at 1.
  change (length (b :: l)) with (S (length l)). cbn [blocks16_fuel]. f_equal.
  apply blocks16_fuel_enough; rewrite !length_drop; simpl; lia.
Qed.

(** A text in whole blocks can be cut. *)
Lemma blocks16_app x y : (16 | zlen x) -> blocks16 (x ++ y) = blocks16 x ++ blocks16 y.
Proof.
  intros [k Hk]. assert (Hk0 : 0 <= k) by (pose proof (zlen_nonneg x); lia).
  revert x Hk. pattern k. apply natlike_ind; [|clear k Hk0; intros k Hk0 IH|done].
  - intros x Hx. by rewrite (zlen_0_nil x) by lia.
  - intros x Hx. unfold zlen in Hx.
    assert (Hne : x <> []) by (destruct x; simpl in Hx; [lia|done]).
    rewrite (blocks16_cons x) by done.
    rewrite (blocks16_cons (x ++ y)) by (destruct x; [done|done]).
    rewrite take_app_le, drop_app_le by lia. simpl. f_equal. apply IH.
    unfold zlen. rewrite length_drop. lia.
Qed.

Lemma blocks16_one l : l <> [] -> (length l <= 16)%nat -> blocks16 l = [pad16 l].
Proof.
  intros Hl Hn. rewrite blocks16_cons by done. rewrite take_ge, drop_ge by lia. done.
Qed.

(** * The streaming CCM *)

Section Stream.
Context {E : WolfCryptErr} {EO : WolfCryptErrOk E} {O : StoreOps} {Op : Type}.
Context {W : WolfCryptAesDirect} {WO : WolfCryptAesDirectOk W}.

Implicit Types st : ccm_state.

Lemma yields_block a block :
yields (O := O) (Op := Op) (ccm_block a block) (fun out => out = wc_AesEncryptDirect a block).
Proof. apply yields_call. Qed.

(** The part of a text that is in whole blocks. *)
Definition whole (p : list byte) : nat := (length p - length p mod 16)%nat.

(** The counter and the keystream block of byte [n]. *)
Definition ctr_at (a : AesDirect) (nonce : list byte) st (n : nat) : Prop :=
ccm_aes st = a /\ ccm_lenSz st = (15 - length nonce)%nat /\
exists k : nat, ccm_ctr st = ccm_counter nonce (Z.of_nat k + 1) /\
  ccm_ks st = wc_AesEncryptDirect a (ccm_counter nonce (Z.of_nat k + 1)) /\
  (16 * k + ccm_ks_off st = n)%nat /\ (ccm_ks_off st <= 16)%nat.

(** The MAC of the plaintext [p]; [mac0] is the MAC of what precedes it. *)
Definition mac_at (a : AesDirect) (mac0 : list byte) st (p : list byte) : Prop :=
ccm_mfill st = (length p mod 16)%nat /\ ccm_mblk st = pad16 (drop (whole p) p) /\
ccm_mac st = cbc_mac (wc_AesEncryptDirect a) mac0 (blocks16 (take (whole p) p)).

Definition ccm_has (a : AesDirect) (nonce mac0 : list byte) st (p : list byte) : Prop :=
ctr_at a nonce st (length p) /\ mac_at a mac0 st p.

Lemma whole_le p : (whole p <= length p)%nat /\ (length p - whole p = length p mod 16)%nat.
Proof. unfold whole. pose proof (Nat.mod_upper_bound (length p) 16). pose proof (Nat.Div0.mod_le (length p) 16). lia. Qed.

Lemma whole_divide p : (16 | zlen (take (whole p) p)).
Proof.
destruct (whole_le p) as [Hle _]. unfold zlen. rewrite length_take, Nat.min_l by done.
unfold whole. exists (Z.of_nat (length p / 16)). pose proof (Nat.div_mod_eq (length p) 16). lia.
Qed.

Lemma counter_inc nonce k :
(length nonce <= 14)%nat ->
wolfpsa_aead_ccm_ctr_inc (ccm_counter nonce k) (15 - length nonce) = ccm_counter nonce (k + 1).
Proof.
intros Hn. unfold ccm_counter. apply (ctr_inc_be (_ :: nonce)). simpl. lia.
Qed.

Lemma yields_refill a nonce mac0 st n p :
(length nonce <= 14)%nat -> ctr_at a nonce st n -> mac_at a mac0 st p ->
yields (O := O) (Op := Op) (ccm_refill st)
  (fun st' => ctr_at a nonce st' n /\ (ccm_ks_off st' < 16)%nat /\ mac_at a mac0 st' p).
Proof.
intros Hn (H1 & H2 & k & H3 & H4 & H5 & H6) Hmac. unfold ccm_refill.
destruct (Nat.eqb_spec (ccm_ks_off st) 16) as [Hoff|Hoff].
- eapply yields_map; [apply yields_block|done|]. intros ks ->. eexists. split; [done|].
  split_and!; [|simpl; lia|exact Hmac]. split; [done|]. split; [done|].
  exists (S k). simpl ccm_ctr. simpl ccm_ks. rewrite H1, H2, H3, counter_inc by done.
  replace (Z.of_nat (S k) + 1) with (Z.of_nat k + 1 + 1) by lia. simpl. split_and!; [done|done|lia|lia].
- apply yields_ret. split_and!; [|lia|exact Hmac]. split; [done|]. split; [done|]. by exists k.
Qed.

Lemma pad16_insert l b :
(length l < 16)%nat ->
<[length l := byte_xor (nth (length l) (pad16 l) x00) b]> (pad16 l) = pad16 (l ++ [b]).
Proof.
intros Hl. unfold pad16. rewrite (length_app l). simpl length.
replace (16 - length l)%nat with (S (16 - (length l + 1)))%nat by lia. simpl replicate.
rewrite nth_middle, insert_middle, <- app_assoc. simpl. do 2 f_equal.
unfold byte_xor. change (b2z x00) with 0. rewrite Z.lxor_0_l. apply z2b_b2z.
Qed.

(** A byte more: it fills the block or not. *)
Lemma whole_snoc p b :
if decide (S (length p mod 16) = 16)%nat
then whole (p ++ [b]) = S (length p) /\ (length (p ++ [b]) mod 16 = 0)%nat
else whole (p ++ [b]) = whole p /\ (length (p ++ [b]) mod 16 = S (length p mod 16))%nat.
Proof.
unfold whole. rewrite length_app. simpl. pose proof (Nat.div_mod_eq (length p) 16) as Hd.
pose proof (Nat.mod_upper_bound (length p) 16 ltac:(lia)) as Hm.
case_decide as Hfull.
- assert (H0 : ((length p + 1) mod 16 = 0)%nat).
  { symmetry. apply (Nat.mod_unique _ _ (length p / 16 + 1)); lia. }
  rewrite H0. lia.
- assert (H0 : ((length p + 1) mod 16 = S (length p mod 16))%nat).
  { symmetry. apply (Nat.mod_unique _ _ (length p / 16)); lia. }
  rewrite H0. lia.
Qed.

Lemma rest_length p : length (drop (whole p) p) = (length p mod 16)%nat.
Proof. rewrite length_drop. apply whole_le. Qed.

Lemma yields_mac_byte a nonce mac0 st n p b :
ctr_at a nonce st n -> mac_at a mac0 st p ->
yields (O := O) (Op := Op) (ccm_mac_byte b st)
  (fun st' => ctr_at a nonce st' n /\ mac_at a mac0 st' (p ++ [b])).
Proof.
intros Hctr (Hf & Hblk & Hmac). pose proof Hctr as [Ha _]. unfold ccm_mac_byte. cbv zeta.
pose proof (Nat.mod_upper_bound (length p) 16 ltac:(lia)) as Hm. pose proof (whole_snoc p b) as Hw.
destruct (whole_le p) as [Hle _].
rewrite Hf, Hblk. rewrite <- rest_length, pad16_insert, rest_length by (rewrite rest_length; lia).
assert (Hrest : drop (whole p) (p ++ [b]) = drop (whole p) p ++ [b]) by (by rewrite drop_app_le).
destruct (decide (S (length p mod 16) = 16)%nat) as [Hfull|Hfull]; destruct Hw as [Hw Hmod].
- rewrite (proj2 (Nat.eqb_eq _ _) Hfull). eapply yields_map; [apply yields_block|done|].
  intros mac ->. eexists. split; [done|]. split; [exact Hctr|]. unfold mac_at. simpl. rewrite Hw, Hmod.
  assert (Hl : length (p ++ [b]) = S (length p)) by (rewrite length_app; simpl; lia).
  rewrite drop_ge, take_ge by lia. split_and!; [done|done|].
  rewrite <- (take_drop (whole p) (p ++ [b])) at 1. rewrite take_app_le by done.
  rewrite blocks16_app by apply whole_divide. rewrite Hrest.
  unfold cbc_mac. rewrite fold_left_app. fold (cbc_mac (wc_AesEncryptDirect a) mac0 (blocks16 (take (whole p) p))).
  rewrite blocks16_one; [|by destruct (drop _ p)|rewrite length_app, rest_length; simpl; lia].
  simpl. by rewrite Ha, Hmac.
- rewrite (proj2 (Nat.eqb_neq _ _) Hfull). apply yields_ret. split; [exact Hctr|].
  unfold mac_at. simpl. rewrite Hw, Hmod, Hrest, take_app_le by done. by split_and!.
Qed.

Lemma ctr_step a nonce st n :
ctr_at a nonce st n -> (ccm_ks_off st < 16)%nat ->
nth (ccm_ks_off st) (ccm_ks st) x00 = ccm_stream (wc_AesEncryptDirect a) nonce n /\
ctr_at a nonce (ccm_with_ks (ccm_ctr st) (ccm_ks st) (S (ccm_ks_off st)) st) (S n).
Proof.
intros (H1 & H2 & k & H3 & H4 & H5 & H6) Hlt. split.
- unfold ccm_stream. assert (Hd : (n / 16 = k)%nat /\ (n mod 16 = ccm_ks_off st)%nat).
  { split; symmetry; [apply (Nat.div_unique _ _ _ (ccm_ks_off st))|apply (Nat.mod_unique _ _ k)]; lia. }
  destruct Hd as [-> ->]. by rewrite H4.
- split; [done|]. split; [done|]. exists k. simpl. split_and!; [done|done|lia|lia].
Qed.

Lemma crypt_from_cons enc nonce n b text :
ccm_crypt_from enc nonce n (b :: text)
  = byte_xor b (ccm_stream enc nonce n) :: ccm_crypt_from enc nonce (S n) text.
Proof.
change (b :: text) with ([b] ++ text). rewrite ccm_crypt_from_app. simpl. rewrite Nat.add_0_r.
by rewrite Nat.add_1_r.
Qed.

Lemma be_bytes_0 q : be_bytes q 0 = replicate q x00.
Proof. induction q as [|q IH]; [done|]. rewrite be_bytes_snoc. change (0 / 256) with 0. rewrite IH, replicate_S_end. done. Qed.

(** A call of the update, after the plaintext [p]. *)
Lemma yields_ccm_update a nonce mac0 (direction : bool) data st p :
(length nonce <= 14)%nat -> ccm_has a nonce mac0 st p ->
yields (O := O) (Op := Op) (wolfpsa_aead_ccm_update direction st data)
  (fun r => r.1 = ccm_crypt_from (wc_AesEncryptDirect a) nonce (length p) data /\
            ccm_has a nonce mac0 r.2 (p ++ if direction then data else r.1)).
Proof.
intros Hn. revert st p. induction data as [|b data IH]; intros st p Hhas; cbn [wolfpsa_aead_ccm_update].
{ apply yields_ret. simpl. split; [done|]. by destruct direction; rewrite app_nil_r. }
destruct Hhas as [Hctr Hmac].
eapply yields_bind; [by apply (yields_refill a nonce mac0 st (length p) p)|done|].
intros st1 (Hctr1 & Hlt & Hmac1). destruct (ctr_step _ _ _ _ Hctr1 Hlt) as [Hks Hctr2].
rewrite Hks. set (out := byte_xor b _). set (st2 := ccm_with_ks _ _ _ _) in *.
eapply yields_bind; [apply (yields_mac_byte a nonce mac0 st2 (S (length p)) p); [exact Hctr2|exact Hmac1]|done|].
intros st3 [Hctr3 Hmac3].
eapply yields_map; [apply (IH st3 (p ++ [if direction then b else out]))|done|].
{ split; [|exact Hmac3]. rewrite length_app. simpl. by rewrite Nat.add_1_r. }
intros [rest st4] [Hout Hhas]. eexists. split; [done|]. simpl in *.
rewrite crypt_from_cons. rewrite length_app in Hout. simpl in Hout. rewrite Nat.add_1_r in Hout.
rewrite <- Hout. split; [done|]. by destruct direction; rewrite <- app_assoc in Hhas.
Qed.

Lemma yields_ccm_finish a nonce mac0 st p tag_len :
(length nonce <= 14)%nat -> ccm_has a nonce mac0 st p ->
yields (O := O) (Op := Op) (wolfpsa_aead_ccm_finish st nonce tag_len)
  (fun tag => tag = take (Z.to_nat tag_len)
     (xor_bytes (cbc_mac (wc_AesEncryptDirect a) mac0 (blocks16 p))
        (wc_AesEncryptDirect a (ccm_counter nonce 0)))).
Proof.
intros Hn [(Ha & Hlen & _) (Hf & Hblk & Hmac)].
set (mac := cbc_mac (wc_AesEncryptDirect a) mac0 (blocks16 p)).
assert (Hs0 : pad16 (z2b (Z.of_nat (ccm_lenSz st) - 1) :: nonce) = ccm_counter nonce 0).
{ rewrite Hlen. unfold pad16, ccm_counter. simpl length. rewrite <- app_comm_cons. do 2 f_equal.
  replace (16 - S (length nonce))%nat with (15 - length nonce)%nat by lia. by rewrite be_bytes_0. }
assert (Hm : mac = cbc_mac (wc_AesEncryptDirect a) (ccm_mac st) (blocks16 (drop (whole p) p))).
{ unfold mac. rewrite <- (take_drop (whole p) p) at 1. rewrite blocks16_app by apply whole_divide.
  unfold cbc_mac at 1. by rewrite fold_left_app, Hmac. }
unfold wolfpsa_aead_ccm_finish. eapply (yields_bind _ _ (fun m => m = mac)).
- rewrite Hm. destruct (Nat.ltb_spec 0 (ccm_mfill st)) as [Hpos|Hz].
  + eapply yields_mono; [apply yields_block|]. intros m ->. rewrite Ha, Hblk.
    rewrite blocks16_one; [done| |].
    * intros H0. apply (f_equal length) in H0. rewrite rest_length in H0. simpl in H0. lia.
    * rewrite rest_length. pose proof (Nat.mod_upper_bound (length p) 16). lia.
  + apply yields_ret. assert (H0 : drop (whole p) p = []).
    { apply length_zero_iff_nil. rewrite rest_length. lia. }
    by rewrite H0.
- done.
- intros m ->. eapply yields_map; [apply yields_block|done|]. intros s0 ->. eexists. split; [done|].
  by rewrite Ha, Hs0.
Qed.

(** ** Start *)

Lemma b0_length_loop_spec n m acc :
0 <= m -> b0_length_loop n m acc = (be_bytes n m ++ acc, m / 256 ^ Z.of_nat n).
Proof.
revert m acc. induction n as [|n IH]; intros m acc Hm; cbn [b0_length_loop].
- by rewrite Z.div_1_r.
- rewrite Z.shiftr_div_pow2 by lia. change (2 ^ 8) with 256.
  rewrite IH by (apply Z.div_pos; lia). rewrite be_bytes_snoc, <- app_assoc.
  rewrite Z.div_div by (pose proof (pow256_pos n); lia). rewrite <- pow256_succ.
  change 0xff with (Z.ones 8). rewrite Z.land_ones by lia. change (2 ^ 8) with 256. by rewrite z2b_mod.
Qed.

Lemma z2b_shiftr_land z : z2b (Z.land z 0xff) = z2b z.
Proof. change 0xff with (Z.ones 8). rewrite Z.land_ones by lia. apply z2b_mod. Qed.

Lemma encode_aad_prefix aad :
aad <> [] -> zlen aad <= UINT32_MAX -> ccm_encode_aad aad = ccm_aad_prefix (zlen aad) ++ aad.
Proof.
intros Hne Hmax. unfold ccm_encode_aad, ccm_aad_prefix. pose proof (zlen_nonneg aad) as Hn.
destruct (Z.eqb_spec (zlen aad) 0) as [H0|_]; [by destruct Hne; apply zlen_0_nil|].
rewrite !z2b_shiftr_land, !Z.shiftr_div_pow2 by lia.
destruct (Z.ltb_spec (zlen aad) 0xFF00), (Z.leb_spec (zlen aad) 0xFEFF); try lia; [done|].
unfold be_bytes. simpl. rewrite !Z.div_div by lia. done.
Qed.

Lemma aad_prefix_length n : length (ccm_aad_prefix n) = 2%nat \/ length (ccm_aad_prefix n) = 6%nat.
Proof. unfold ccm_aad_prefix. case_match; auto. Qed.

Lemma yields_aad_loop a fuel mac aad :
(length aad <= fuel)%nat ->
yields (O := O) (Op := Op) (ccm_aad_loop fuel a mac aad)
  (fun m => m = cbc_mac (wc_AesEncryptDirect a) mac (blocks16 aad)).
Proof.
revert mac aad. induction fuel as [|fuel IH]; intros mac aad Hf.
{ destruct aad; [|simpl in Hf; lia]. by apply yields_ret. }
destruct aad as [|b aad]; [by apply yields_ret|]. cbn [ccm_aad_loop].
eapply yields_bind; [apply yields_block|done|]. intros m ->.
eapply yields_mono; [apply IH; rewrite length_drop; simpl in *; lia|]. intros m ->.
rewrite (blocks16_cons (b :: aad)) by done. done.
Qed.

Lemma yields_mac_aad a mac aad :
zlen aad <= UINT32_MAX ->
yields (O := O) (Op := Op) (ccm_mac_aad a mac aad)
  (fun m => m = cbc_mac (wc_AesEncryptDirect a) mac (blocks16 (ccm_encode_aad aad))).
Proof.
intros Hmax. destruct (decide (aad = [])) as [->|Hne]; [by apply yields_ret|].
rewrite encode_aad_prefix by done.
assert (Hdef : ccm_mac_aad (O := O) (Op := Op) a mac aad =
  (r ← ccm_block a (xor_bytes mac (pad16 (ccm_aad_prefix (zlen aad)
         ++ take (16 - length (ccm_aad_prefix (zlen aad))) aad)));
   match r with
   | inl e => mret (inl e)
   | inr mac => ccm_aad_loop (length aad) a mac (drop (16 - length (ccm_aad_prefix (zlen aad))) aad)
   end)) by (by destruct aad).
rewrite Hdef. clear Hdef. set (prefix := ccm_aad_prefix (zlen aad)).
assert (Hp : (length prefix <= 16)%nat) by (destruct (aad_prefix_length (zlen aad)); unfold prefix; lia).
eapply yields_bind; [apply yields_block|done|]. intros m ->.
eapply yields_mono; [apply yields_aad_loop; rewrite length_drop; lia|]. intros m ->.
rewrite (blocks16_cons (prefix ++ aad)) by (destruct aad; [done|by destruct prefix]).
by rewrite take_app_ge, drop_app_ge by done.
Qed.

(** The MAC of what precedes the payload. *)
Definition ccm_mac0 (a : AesDirect) (nonce aad : list byte) (plen tag_len : Z) : list byte :=
cbc_mac (wc_AesEncryptDirect a) (wc_AesEncryptDirect a (ccm_b0 nonce aad plen tag_len))
  (blocks16 (ccm_encode_aad aad)).

Lemma yields_ccm_init key nonce aad plen tag_len :
(7 <= length nonce <= 13)%nat -> zlen aad <= UINT32_MAX ->
0 <= plen < 256 ^ (15 - zlen nonce) ->
let a := wc_AesSetKeyDirect (word32_buf key) in
yields (O := O) (Op := Op) (wolfpsa_aead_ccm_init key nonce aad plen tag_len)
  (fun st => ccm_has a nonce (ccm_mac0 a nonce aad plen tag_len) st []).
Proof.
intros Hn Haad Hplen a. unfold wolfpsa_aead_ccm_init. cbv zeta.
rewrite (proj2 (Nat.ltb_ge (length nonce) 7)), (proj2 (Nat.ltb_ge 13 (length nonce))) by lia. cbn [orb].
apply yields_calls. rewrite b0_length_loop_spec by lia.
assert (Hq : Z.of_nat (15 - length nonce) = 15 - zlen nonce) by (unfold zlen; lia).
rewrite Hq, Z.div_small by done. cbn [Z.eqb negb]. rewrite app_nil_r.
eapply yields_bind; [apply yields_block|done|]. intros m ->. fold a.
eapply yields_bind; [by apply yields_mac_aad|done|]. intros m ->.
assert (Hctr : z2b (15 - zlen nonce - 1) :: nonce ++ replicate (15 - length nonce - 1) x00 ++ [x01]
  = ccm_counter nonce 1).
{ unfold ccm_counter. rewrite Hq. do 2 f_equal.
  replace (15 - length nonce)%nat with (S (15 - length nonce - 1)) at 2 by lia.
  rewrite be_bytes_snoc. change (1 / 256) with 0. by rewrite be_bytes_0. }
rewrite Hctr. eapply yields_map; [apply yields_block|done|]. intros ks ->. eexists. split; [done|]. split.
- split; [done|]. split; [done|]. exists 0%nat. split_and!; [done|done|done|simpl; lia].
- split; [done|]. split; [done|]. simpl. unfold ccm_mac0, ccm_b0. by rewrite Hq.
Qed.

(** ** The whole operation *)

Fixpoint ccm_updates (direction : bool) st (chunks : list (list byte))
: M (opstate O Op) (psa_status_t + list byte * ccm_state) :=
match chunks with
| [] => mret (inr ([], st))
| chunk :: chunks =>
    r ← wolfpsa_aead_ccm_update direction st chunk;
    match r with
    | inl e => mret (inl e)
    | inr (out, st) =>
        r ← ccm_updates direction st chunks;
        mret match r with inl e => inl e | inr (rest, st) => inr (out ++ rest, st) end
    end
end.

(** Start, the payload in any parts, finish: the text and the tag. *)
Definition ccm_run (direction : bool) (key nonce aad : list byte) (chunks : list (list byte))
  (plen tag_len : Z) : M (opstate O Op) (psa_status_t + list byte * list byte) :=
r ← wolfpsa_aead_ccm_init key nonce aad plen tag_len;
match r with
| inl e => mret (inl e)
| inr st =>
    r ← ccm_updates direction st chunks;
    match r with
    | inl e => mret (inl e)
    | inr (out, st) =>
        r ← wolfpsa_aead_ccm_finish st nonce tag_len;
        mret match r with inl e => inl e | inr tag => inr (out, tag) end
    end
end.

Lemma yields_ccm_updates a nonce mac0 (direction : bool) chunks st p :
(length nonce <= 14)%nat -> ccm_has a nonce mac0 st p ->
yields (ccm_updates direction st chunks)
  (fun r => r.1 = ccm_crypt_from (wc_AesEncryptDirect a) nonce (length p) (concat chunks) /\
            ccm_has a nonce mac0 r.2 (p ++ if direction then concat chunks else r.1)).
Proof.
intros Hn. revert st p. induction chunks as [|chunk chunks IH]; intros st p Hhas; cbn [ccm_updates concat].
{ apply yields_ret. simpl. split; [done|]. by destruct direction; rewrite app_nil_r. }
eapply yields_bind; [by apply yields_ccm_update|done|]. intros [out st1] [Hout Hhas1]. simpl in *.
assert (Hl : length out = length chunk) by (rewrite Hout; apply ccm_crypt_from_length).
eapply yields_map; [by apply IH|done|]. intros [rest st2] [Hrest Hhas2]. simpl in *.
eexists. split; [done|]. simpl. rewrite ccm_crypt_from_app, <- Hout.
rewrite length_app in Hrest. split.
- rewrite Hrest. do 2 f_equal. by destruct direction; rewrite ?Hl.
- by destruct direction; rewrite <- app_assoc in Hhas2.
Qed.

(** C7: The streaming CCM is CCM: however the payload is cut, the text is the one and
  the tag the one of SP 800-38C; nothing but a failed call of wolfCrypt stands in
  the way. *)
Theorem ccm_stream_is_ccm (direction : bool) key nonce aad chunks plen tag_len s :
(7 <= length nonce <= 13)%nat -> zlen aad <= UINT32_MAX ->
zlen (concat chunks) = plen -> plen < 256 ^ (15 - zlen nonce) ->
let enc := wc_AesEncryptDirect (wc_AesSetKeyDirect (word32_buf key)) in
let text := ccm_crypt enc nonce (concat chunks) in
let msg := if direction then concat chunks else text in
wp (ccm_run direction key nonce aad chunks plen tag_len)
  (fun r _ => (smooth s -> is_Some (match r with inl _ => None | inr x => Some x end)) /\
     forall x, r = inr x -> x = (text, ccm_tag enc nonce aad msg tag_len)) s.
Proof.
intros Hn Haad Hlen Hplen enc text msg.
assert (Hy : yields (ccm_run direction key nonce aad chunks plen tag_len)
  (fun x => x = (text, ccm_tag enc nonce aad msg tag_len))).
{ unfold ccm_run. pose proof (zlen_nonneg (concat chunks)).
  eapply yields_bind; [apply yields_ccm_init; [done|done|lia]|done|]. intros st Hst.
  eapply yields_bind; [eapply (yields_ccm_updates _ nonce); [lia|exact Hst]|done|]. intros [out st2] [Hout Hhas].
  simpl in Hout, Hhas. eapply yields_map; [eapply (yields_ccm_finish _ nonce); [lia|exact Hhas]|done|].
  intros tag ->. eexists. split; [done|]. change (ccm_crypt_from _ _ _ _) with text in Hout. subst out. f_equal.
  unfold ccm_tag, ccm_mac0, cbc_mac. rewrite fold_left_app.
  assert (Hm : zlen msg = plen).
  { rewrite <- Hlen. unfold msg, text, zlen. destruct direction; [done|].
    unfold ccm_crypt. by rewrite ccm_crypt_from_length. }
  by rewrite Hm. }
apply Hy.
- intros e s' _ _ Hno. split; [intros Hsm; by destruct (Hno Hsm)|done].
- intros x s' _ _ ->. split; [by eexists|]. by intros y [= <-].
Qed.
End Stream.
