(* ===== verification/WolfAead.v ===== *)
(** wolfCrypt's authenticated ciphers, as parameters.

    A function here gives the result of a call that succeeded; its return code
    is taken from the state ([wc_call]).  A decryption gives [None], and a check
    [false], when the tag is not the right one. *)

From stdpp Require Import base decidable list.
From Stdlib Require Import ZArith Lia.
From Stdlib Require Import Strings.Byte.
From S2P Require Import Prelude.
From S2P Require Import WolfCrypt.
From S2P Require Import Operation.
From S2P Require Import Ccm.
From S2P Require Import CcmSpec.

#[local] Open Scope Z_scope.

Definition CHACHA20_POLY1305_AEAD_KEYSIZE : Z := 32.
Definition CHACHA20_POLY1305_AEAD_IV_SIZE : Z := 12.
Definition CHACHA20_POLY1305_AEAD_AUTHTAG_SIZE : Z := 16.
Definition XCHACHA20_POLY1305_AEAD_NONCE_SIZE : Z := 24.
Definition ASCON_AEAD128_KEY_SZ : Z := 16.
Definition ASCON_AEAD128_NONCE_SZ : Z := 16.
Definition ASCON_AEAD128_TAG_SZ : Z := 16.

Class WolfCryptAead : Type := {
  (** GCM, streaming: key and nonce; text and additional data. *)
  AesGcm : Type;
  zero_AesGcm : AesGcm;
  wc_AesGcmEncryptInit : list byte -> list byte -> AesGcm;
  wc_AesGcmDecryptInit : list byte -> list byte -> AesGcm;
  wc_AesGcmEncryptUpdate : AesGcm -> list byte -> list byte -> list byte * AesGcm;
  wc_AesGcmDecryptUpdate : AesGcm -> list byte -> list byte -> list byte * AesGcm;
  wc_AesGcmEncryptFinal : AesGcm -> Z -> list byte;
  wc_AesGcmDecryptFinal : AesGcm -> list byte -> bool;
  (** Key, text, nonce, tag length (or tag), additional data. *)
  wc_AesGcmEncrypt : list byte -> list byte -> list byte -> Z -> list byte -> list byte * list byte;
  wc_AesGcmDecrypt : list byte -> list byte -> list byte -> list byte -> list byte -> option (list byte);
  wc_AesCcmCheckTagSize : Z -> Z;
  wc_AesCcmEncrypt : list byte -> list byte -> list byte -> Z -> list byte -> list byte * list byte;
  wc_AesCcmDecrypt : list byte -> list byte -> list byte -> list byte -> list byte -> option (list byte);
  (** ChaCha20-Poly1305, streaming, and at once: key, nonce, additional data,
      text, tag. *)
  ChaChaPoly_Aead : Type;
  zero_ChaChaPoly : ChaChaPoly_Aead;
  wc_ChaCha20Poly1305_Init : list byte -> list byte -> bool -> ChaChaPoly_Aead;
  wc_ChaCha20Poly1305_UpdateAad : ChaChaPoly_Aead -> list byte -> ChaChaPoly_Aead;
  wc_ChaCha20Poly1305_UpdateData : ChaChaPoly_Aead -> list byte -> list byte * ChaChaPoly_Aead;
  wc_ChaCha20Poly1305_Final : ChaChaPoly_Aead -> list byte;
  wc_ChaCha20Poly1305_CheckTag : list byte -> list byte -> Z;
  wc_ChaCha20Poly1305_Encrypt : list byte -> list byte -> list byte -> list byte -> list byte * list byte;
  wc_ChaCha20Poly1305_Decrypt :
    list byte -> list byte -> list byte -> list byte -> list byte -> option (list byte);
  (** XChaCha20-Poly1305: text, additional data, nonce, key; the text is followed
      by the tag.  The pointers are passed on unchecked: the function's own
      return code comes first. *)
  wc_XChaCha20Poly1305_Encrypt : input -> input -> input -> list byte -> Z * list byte;
  wc_XChaCha20Poly1305_Decrypt : input -> input -> input -> list byte -> Z * option (list byte);
  (** Ascon-AEAD128: key, nonce, additional data, text, tag; likewise. *)
  wc_AsconAEAD128_Encrypt : list byte -> input -> input -> input -> Z * (list byte * list byte);
  wc_AsconAEAD128_Decrypt : list byte -> input -> input -> input -> input -> Z * option (list byte);
  ASCON_AUTH_E : Z;
  WOLFSSL_MIN_AUTH_TAG_SZ : Z }.

(** * Laws

    GCM and ChaCha20-Poly1305 xor the text with a keystream and authenticate the
    cipher text: [gcm_mac], [chacha_mac] of key, nonce, additional data and cipher
    text.  Their streaming contexts have taken the additional data and some
    cipher text ([gcm_has], [chacha_has]).  The one-shot CCM is the CCM of
    SP 800-38C over the same block cipher. *)
Class WolfCryptAeadOk (W : WolfCryptAead) (D : WolfCryptAesDirect) : Type := {
  gcm_stream : list byte -> list byte -> nat -> byte;
  gcm_mac : list byte -> list byte -> list byte -> list byte -> list byte;
  gcm_mac_length key nonce aad ct : length (gcm_mac key nonce aad ct) = 16%nat;
  gcm_has : bool -> list byte -> list byte -> list byte -> list byte -> AesGcm -> Prop;
  gcm_encrypt_start key nonce aad text :
    let '(out, g) := wc_AesGcmEncryptUpdate (wc_AesGcmEncryptInit key nonce) text aad in
    out = stream_xor (gcm_stream key nonce) 0 text /\ gcm_has true key nonce aad out g;
  gcm_decrypt_start key nonce aad text :
    let '(out, g) := wc_AesGcmDecryptUpdate (wc_AesGcmDecryptInit key nonce) text aad in
    out = stream_xor (gcm_stream key nonce) 0 text /\ gcm_has false key nonce aad text g;
  gcm_encrypt_next key nonce aad ct g text :
    gcm_has true key nonce aad ct g ->
    let '(out, g') := wc_AesGcmEncryptUpdate g text [] in
    out = stream_xor (gcm_stream key nonce) (length ct) text /\
    gcm_has true key nonce aad (ct ++ out) g';
  gcm_decrypt_next key nonce aad ct g text :
    gcm_has false key nonce aad ct g ->
    let '(out, g') := wc_AesGcmDecryptUpdate g text [] in
    out = stream_xor (gcm_stream key nonce) (length ct) text /\
    gcm_has false key nonce aad (ct ++ text) g';
  gcm_encrypt_final key nonce aad ct g n :
    gcm_has true key nonce aad ct g ->
    wc_AesGcmEncryptFinal g n = take (Z.to_nat n) (gcm_mac key nonce aad ct);
  gcm_decrypt_final key nonce aad ct g tag :
    gcm_has false key nonce aad ct g ->
    wc_AesGcmDecryptFinal g tag = bool_decide (tag = take (length tag) (gcm_mac key nonce aad ct));
  gcm_encrypt key text nonce n aad :
    let ct := stream_xor (gcm_stream key nonce) 0 text in
    wc_AesGcmEncrypt key text nonce n aad = (ct, take (Z.to_nat n) (gcm_mac key nonce aad ct));
  gcm_decrypt key ct nonce tag aad :
    wc_AesGcmDecrypt key ct nonce tag aad
      = if bool_decide (tag = take (length tag) (gcm_mac key nonce aad ct))
        then Some (stream_xor (gcm_stream key nonce) 0 ct) else None;

  ccm_check_tag n : wc_AesCcmCheckTagSize n = 0 <-> n ∈ [4; 6; 8; 10; 12; 14; 16];
  ccm_encrypt key text nonce n aad :
    let enc := wc_AesEncryptDirect (wc_AesSetKeyDirect key) in
    wc_AesCcmEncrypt key text nonce n aad = (ccm_crypt enc nonce text, ccm_tag enc nonce aad text n);
  ccm_decrypt key ct nonce tag aad :
    let enc := wc_AesEncryptDirect (wc_AesSetKeyDirect key) in
    let text := ccm_crypt enc nonce ct in
    wc_AesCcmDecrypt key ct nonce tag aad
      = if bool_decide (tag = ccm_tag enc nonce aad text (zlen tag)) then Some text else None;

  chacha_stream : list byte -> list byte -> nat -> byte;
  chacha_mac : list byte -> list byte -> list byte -> list byte -> list byte;
  chacha_mac_length key nonce aad ct : length (chacha_mac key nonce aad ct) = 16%nat;
  chacha_has : bool -> list byte -> list byte -> list byte -> list byte -> ChaChaPoly_Aead -> Prop;
  chacha_init key nonce d : chacha_has d key nonce [] [] (wc_ChaCha20Poly1305_Init key nonce d);
  chacha_aad d key nonce h aad :
    chacha_has d key nonce [] [] h -> chacha_has d key nonce aad [] (wc_ChaCha20Poly1305_UpdateAad h aad);
  chacha_data d key nonce aad ct h text :
    chacha_has d key nonce aad ct h ->
    let '(out, h') := wc_ChaCha20Poly1305_UpdateData h text in
    out = stream_xor (chacha_stream key nonce) (length ct) text /\
    chacha_has d key nonce aad (ct ++ if d then out else text) h';
  chacha_final d key nonce aad ct h :
    chacha_has d key nonce aad ct h -> wc_ChaCha20Poly1305_Final h = chacha_mac key nonce aad ct;
  chacha_check_tag a b :
    length a = 16%nat -> length b = 16%nat -> wc_ChaCha20Poly1305_CheckTag a b = 0 <-> a = b;
  chacha_encrypt key nonce aad text :
    let ct := stream_xor (chacha_stream key nonce) 0 text in
    wc_ChaCha20Poly1305_Encrypt key nonce aad text = (ct, chacha_mac key nonce aad ct);
  chacha_decrypt key nonce aad ct tag :
    wc_ChaCha20Poly1305_Decrypt key nonce aad ct tag
      = if bool_decide (tag = chacha_mac key nonce aad ct)
        then Some (stream_xor (chacha_stream key nonce) 0 ct) else None;

  (** Cipher text and tag of key, nonce, additional data and text. *)
  xchacha_seal : list byte -> list byte -> list byte -> list byte -> list byte;
  xchacha_seal_length key nonce aad text : zlen (xchacha_seal key nonce aad text) = zlen text + 16;
  xchacha_encrypt key nonce aad text :
    wc_XChaCha20Poly1305_Encrypt (Bytes text) (Bytes aad) (Bytes nonce) key
      = (0, xchacha_seal key nonce aad text);
  xchacha_decrypt key nonce aad ct :
    exists r, wc_XChaCha20Poly1305_Decrypt (Bytes ct) (Bytes aad) (Bytes nonce) key = (0, r) /\
      forall text, r = Some text <-> ct = xchacha_seal key nonce aad text;
  ascon_seal : list byte -> list byte -> list byte -> list byte -> list byte * list byte;
  ascon_seal_length key nonce aad text :
    zlen (ascon_seal key nonce aad text).1 = zlen text /\ zlen (ascon_seal key nonce aad text).2 = 16;
  ascon_encrypt key nonce aad text :
    wc_AsconAEAD128_Encrypt key (Bytes nonce) (Bytes aad) (Bytes text) = (0, ascon_seal key nonce aad text);
  ascon_decrypt key nonce aad ct tag :
    exists r, wc_AsconAEAD128_Decrypt key (Bytes nonce) (Bytes aad) (Bytes ct) (Bytes tag) = (0, r) /\
      forall text, r = Some text <-> ascon_seal key nonce aad text = (ct, tag) }.
