(* ===== verification/Aead.v ===== *)
(** Authenticated encryption: [src/psa_aead.c], [src/psa_chacha20_poly1305.c].

    An operation buffers its additional data.  Its text it either ciphers as it
    comes ([psa_aead_update] with an output, "streaming") or buffers too
    ([psa_aead_update] with a NULL output, the one-shot calls); the finish then
    gives the tag only, or the text and the tag. *)

From stdpp Require Import base decidable list.
From Stdlib Require Import ZArith Lia.
From Stdlib Require Import Strings.Byte.
From S2P Require Import Prelude.
From S2P Require Import Values.
From S2P Require Import Engine.
From S2P Require Import WolfCrypt.
From S2P Require Import WolfAead.
From S2P Require Import KeyPolicy.
From S2P Require Import KeyFormat.
From S2P Require Import StoreIface.
From S2P Require Import Library.
From S2P Require Import KeyStore.
From S2P Require Import Operation.
From S2P Require Import Ccm.

#[local] Open Scope Z_scope.

(** * Algorithms and sizes *)

Definition PSA_ALG_AEAD_EQUAL (aead_alg_1 aead_alg_2 : Z) : bool :=
  Z.land (Z.lxor aead_alg_1 aead_alg_2)
    (Z.lnot (Z.lor PSA_ALG_AEAD_TAG_LENGTH_MASK PSA_ALG_AEAD_AT_LEAST_THIS_LENGTH_FLAG)) =? 0.

Definition PSA_AEAD_NONCE_MAX_SIZE : Z := 24.
Definition PSA_AEAD_TAG_MAX_SIZE : Z := 16.

Definition PSA_AEAD_NONCE_LENGTH (key_type alg : Z) : Z :=
  if PSA_BLOCK_CIPHER_BLOCK_LENGTH key_type =? 16 then
    if PSA_ALG_AEAD_EQUAL alg PSA_ALG_CCM then 13
    else if PSA_ALG_AEAD_EQUAL alg PSA_ALG_GCM then 12
    else 0
  else if (key_type =? PSA_KEY_TYPE_CHACHA20) && PSA_ALG_AEAD_EQUAL alg PSA_ALG_CHACHA20_POLY1305
  then 12
  else if (key_type =? PSA_KEY_TYPE_XCHACHA20) && PSA_ALG_AEAD_EQUAL alg PSA_ALG_XCHACHA20_POLY1305
  then 24
  else if (key_type =? PSA_KEY_TYPE_ASCON) && PSA_ALG_AEAD_EQUAL alg PSA_ALG_ASCON_AEAD128 then 16
  else 0.

Definition PSA_AEAD_ENCRYPT_OUTPUT_SIZE (key_type alg plaintext_length : Z) : Z :=
  if negb (PSA_AEAD_NONCE_LENGTH key_type alg =? 0)
  then plaintext_length + PSA_ALG_AEAD_GET_TAG_LENGTH alg else 0.

Definition PSA_AEAD_DECRYPT_OUTPUT_SIZE (key_type alg ciphertext_length : Z) : Z :=
  if negb (PSA_AEAD_NONCE_LENGTH key_type alg =? 0)
     && (PSA_ALG_AEAD_GET_TAG_LENGTH alg <? ciphertext_length)
  then ciphertext_length - PSA_ALG_AEAD_GET_TAG_LENGTH alg else 0.

Definition wolfpsa_aead_tag_length (alg : Z) : Z := PSA_ALG_AEAD_GET_TAG_LENGTH alg.

(** SP 800-38D and RFC 8439: additional data, plaintext. *)
Definition wolfpsa_aead_limits : list (Z * Z * Z) :=
  [(PSA_ALG_GCM, 2 ^ 61 - 1, 0xFFFFFFFE0);
   (PSA_ALG_CHACHA20_POLY1305, 2 ^ 64 - 1, UINT32_MAX * 64)].

(** * State *)

(** [nonce_length] and [aad_length] are the lengths of [aead_nonce] and
    [aead_aad]; [aead_input] is the buffered text, NULL when empty, while
    [aead_input_length] also counts streamed text.  [gcm_inited] and
    [ccm_aes_inited] only tell [psa_aead_abort] what to free. *)
Record wolfpsa_aead_ctx {W : WolfCryptAead} {D : WolfCryptAesDirect} : Type := mkAead {
  aead_alg : Z;
  aead_key_type : Z;
  aead_key_bits : Z;
  aead_direction : bool;
  aead_key : list byte;
  aead_nonce : list byte;
  aead_aad : list byte;
  aead_input : list byte;
  aead_input_length : Z;
  aead_ad_expected : Z;
  aead_plaintext_expected : Z;
  aead_tag_length : Z;
  aead_lengths_set : bool;
  aead_ad_started : bool;
  aead_body_started : bool;
  aead_streaming : bool;
  aead_gcm : AesGcm;
  aead_chacha : ChaChaPoly_Aead;
  aead_ccm : ccm_state }.

Section Aead.
Context {C : Config} {E : WolfCryptErr} {K : WolfCryptKeys} {R : WolfCryptRng}.
Context {O : StoreOps} {B : KeyBackend} {W : WolfCryptAead} {D : WolfCryptAesDirect}.

Notation CM := (M (opstate O wolfpsa_aead_ctx)).

Implicit Types c : wolfpsa_aead_ctx.

(** The parts of a context that calls change: lengths, buffers, flags, engines. *)
Definition aead_with_lengths (ad plaintext : Z) c : wolfpsa_aead_ctx :=
mkAead _ _ (aead_alg c) (aead_key_type c) (aead_key_bits c) (aead_direction c) (aead_key c)
  (aead_nonce c) (aead_aad c) (aead_input c) (aead_input_length c) ad plaintext (aead_tag_length c)
  true (aead_ad_started c) (aead_body_started c) (aead_streaming c) (aead_gcm c) (aead_chacha c)
  (aead_ccm c).
Definition aead_with_nonce (nonce : list byte) c : wolfpsa_aead_ctx :=
mkAead _ _ (aead_alg c) (aead_key_type c) (aead_key_bits c) (aead_direction c) (aead_key c)
  nonce (aead_aad c) (aead_input c) (aead_input_length c) (aead_ad_expected c)
  (aead_plaintext_expected c) (aead_tag_length c) (aead_lengths_set c) (aead_ad_started c)
  (aead_body_started c) (aead_streaming c) (aead_gcm c) (aead_chacha c) (aead_ccm c).
Definition aead_with_aad (aad : list byte) c : wolfpsa_aead_ctx :=
mkAead _ _ (aead_alg c) (aead_key_type c) (aead_key_bits c) (aead_direction c) (aead_key c)
  (aead_nonce c) aad (aead_input c) (aead_input_length c) (aead_ad_expected c)
  (aead_plaintext_expected c) (aead_tag_length c) (aead_lengths_set c) true
  (aead_body_started c) (aead_streaming c) (aead_gcm c) (aead_chacha c) (aead_ccm c).
Definition aead_with_input (input : list byte) (n : Z) (streaming : bool) c : wolfpsa_aead_ctx :=
mkAead _ _ (aead_alg c) (aead_key_type c) (aead_key_bits c) (aead_direction c) (aead_key c)
  (aead_nonce c) (aead_aad c) input n (aead_ad_expected c)
  (aead_plaintext_expected c) (aead_tag_length c) (aead_lengths_set c) (aead_ad_started c)
  true streaming (aead_gcm c) (aead_chacha c) (aead_ccm c).
Definition aead_with_engine (g : AesGcm) (h : ChaChaPoly_Aead) (m : ccm_state) c : wolfpsa_aead_ctx :=
mkAead _ _ (aead_alg c) (aead_key_type c) (aead_key_bits c) (aead_direction c) (aead_key c)
  (aead_nonce c) (aead_aad c) (aead_input c) (aead_input_length c) (aead_ad_expected c)
  (aead_plaintext_expected c) (aead_tag_length c) (aead_lengths_set c) (aead_ad_started c)
  (aead_body_started c) (aead_streaming c) g h m.
Definition aead_with_gcm (g : AesGcm) c : wolfpsa_aead_ctx :=
aead_with_engine g (aead_chacha c) (aead_ccm c) c.
Definition aead_with_chacha (h : ChaChaPoly_Aead) c : wolfpsa_aead_ctx :=
aead_with_engine (aead_gcm c) h (aead_ccm c) c.
Definition aead_with_ccm (m : ccm_state) c : wolfpsa_aead_ctx :=
aead_with_engine (aead_gcm c) (aead_chacha c) m c.

Definition psa_aead_abort : CM psa_status_t := set_ctx None;; mret PSA_SUCCESS.

(** An error that ends the operation. *)
Definition aead_fail (status : psa_status_t) : CM psa_status_t := psa_aead_abort;; mret status.

(** * Checks *)

(** The buffer with the new data; it is allocated anew. *)
Definition wolfpsa_aead_append (buf : list byte) (data : input) : CM (psa_status_t * list byte) :=
if is_null data && (0 <? input_length data) then mret (PSA_ERROR_INVALID_ARGUMENT, buf)
else if input_length data =? 0 then mret (PSA_SUCCESS, buf)
else if SIZE_MAX - input_length data <? zlen buf then mret (PSA_ERROR_INSUFFICIENT_MEMORY, buf)
else
  ok ← lib (XMALLOC (zlen buf + input_length data));
  if negb ok then mret (PSA_ERROR_INSUFFICIENT_MEMORY, buf)
  else mret (PSA_SUCCESS, buf ++ input_bytes data).

Definition wolfpsa_aead_lengths_missing c : bool :=
PSA_ALG_AEAD_EQUAL (aead_alg c) PSA_ALG_CCM && negb (aead_lengths_set c).

(** A [nonce_length] of zero: the nonce is not set yet. *)
Definition wolfpsa_aead_check_lengths (alg nonce_length ad_length plaintext_length : Z)
: psa_status_t :=
let len_size := 15 - nonce_length in
if PSA_ALG_AEAD_EQUAL alg PSA_ALG_CCM && negb (nonce_length =? 0) && (len_size <? 8)
   && negb (Z.shiftr plaintext_length (8 * len_size) =? 0)
then PSA_ERROR_INVALID_ARGUMENT
else if existsb (fun '(limit_alg, max_ad, max_plaintext) =>
          PSA_ALG_AEAD_EQUAL alg limit_alg
          && ((max_ad <? ad_length) || (max_plaintext <? plaintext_length))) wolfpsa_aead_limits
then PSA_ERROR_INVALID_ARGUMENT
else if negb (fits_word32 ad_length)
        || negb (PSA_ALG_AEAD_EQUAL alg PSA_ALG_CCM) && negb (fits_word32 plaintext_length)
then PSA_ERROR_NOT_SUPPORTED
else PSA_SUCCESS.

Definition wolfpsa_aead_gcm_check_tag_size (tag_length : Z) : psa_status_t :=
if negb (tag_length =? 4) && negb (tag_length =? 8)
   && ((tag_length <? 12) || (WC_AES_BLOCK_SIZE <? tag_length))
then PSA_ERROR_INVALID_ARGUMENT
else if tag_length <? WOLFSSL_MIN_AUTH_TAG_SZ then PSA_ERROR_NOT_SUPPORTED
else PSA_SUCCESS.

Definition wolfpsa_aead_key_permits_alg (attributes : psa_key_attributes_t) (alg : Z) : bool :=
wolfpsa_aead_alg_permitted (psa_get_key_algorithm attributes) alg
|| wolfpsa_aead_alg_permitted (psa_get_key_enrollment_algorithm attributes) alg.

(** The checks of a key once it is loaded. *)
Definition aead_key_checks (usage alg : Z) (attributes : psa_key_attributes_t) : psa_status_t :=
let common :=
  if negb (Z.land (psa_get_key_usage_flags attributes) usage =? usage) then PSA_ERROR_NOT_PERMITTED
  else if wolfpsa_aead_tag_length alg =? 0 then PSA_ERROR_INVALID_ARGUMENT
  else if negb (wolfpsa_aead_key_permits_alg attributes alg) then PSA_ERROR_NOT_PERMITTED
  else PSA_SUCCESS in
if PSA_ALG_AEAD_EQUAL alg PSA_ALG_GCM || PSA_ALG_AEAD_EQUAL alg PSA_ALG_CCM then
  if negb (attr_type attributes =? PSA_KEY_TYPE_AES) then PSA_ERROR_INVALID_ARGUMENT else common
else if PSA_ALG_AEAD_EQUAL alg PSA_ALG_CHACHA20_POLY1305 then
  if negb (attr_type attributes =? PSA_KEY_TYPE_CHACHA20) then PSA_ERROR_INVALID_ARGUMENT else common
else PSA_ERROR_NOT_SUPPORTED.

Definition wolfpsa_aead_check_key (key usage alg : Z)
: M (kstate O) (psa_status_t + psa_key_attributes_t * list byte) :=
'(status, attributes, key_data) ← wolfpsa_get_key_data key (Some PSA_KEY_ATTRIBUTES_INIT);
let attributes := default PSA_KEY_ATTRIBUTES_INIT attributes in
mret match status with
     | PSA_SUCCESS =>
         match aead_key_checks usage alg attributes with
         | PSA_SUCCESS => inr (attributes, default [] key_data)
         | e => inl e
         end
     | e => inl e
     end.

(** * Setup *)

Definition sizeof_aead_ctx : Z := 2048.

(** The algorithms of a build; the streaming functions that a multi-part
    operation needs may be missing. *)
Definition aead_alg_check (alg : Z) (multipart : bool) : psa_status_t :=
if negb (PSA_ALG_IS_AEAD alg) || PSA_ALG_AEAD_EQUAL alg PSA_ALG_CCM_STAR_NO_TAG
then PSA_ERROR_NOT_SUPPORTED
else if negb (Z.land alg PSA_ALG_AEAD_AT_LEAST_THIS_LENGTH_FLAG =? 0) then PSA_ERROR_INVALID_ARGUMENT
else if PSA_ALG_AEAD_EQUAL alg PSA_ALG_GCM
        && (negb HAVE_AESGCM || negb WOLFSSL_AESGCM_STREAM && multipart)
then PSA_ERROR_NOT_SUPPORTED
else if PSA_ALG_AEAD_EQUAL alg PSA_ALG_CCM
        && (negb HAVE_AESCCM || negb WOLFSSL_AES_DIRECT && multipart)
then PSA_ERROR_NOT_SUPPORTED
else if PSA_ALG_AEAD_EQUAL alg PSA_ALG_CHACHA20_POLY1305 && (negb HAVE_CHACHA || negb HAVE_POLY1305)
then PSA_ERROR_NOT_SUPPORTED
else if PSA_ALG_AEAD_EQUAL alg PSA_ALG_XCHACHA20_POLY1305
        || PSA_ALG_AEAD_EQUAL alg PSA_ALG_ASCON_AEAD128
then PSA_ERROR_NOT_SUPPORTED
else PSA_SUCCESS.

Definition aead_tag_check (alg tag_length : Z) : psa_status_t :=
if tag_length =? 0 then PSA_ERROR_INVALID_ARGUMENT
else if HAVE_AESCCM && PSA_ALG_AEAD_EQUAL alg PSA_ALG_CCM
        && negb (wc_AesCcmCheckTagSize tag_length =? 0)
then PSA_ERROR_INVALID_ARGUMENT
else
  match (if HAVE_AESGCM && PSA_ALG_AEAD_EQUAL alg PSA_ALG_GCM
         then wolfpsa_aead_gcm_check_tag_size tag_length else PSA_SUCCESS) with
  | PSA_SUCCESS =>
      if HAVE_CHACHA && HAVE_POLY1305 && PSA_ALG_AEAD_EQUAL alg PSA_ALG_CHACHA20_POLY1305
         && negb (tag_length =? CHACHA20_POLY1305_AEAD_AUTHTAG_SIZE)
      then PSA_ERROR_NOT_SUPPORTED else PSA_SUCCESS
  | e => e
  end.

Definition aead_initial (usage alg : Z) (attributes : psa_key_attributes_t) (key : list byte)
: wolfpsa_aead_ctx :=
mkAead _ _ alg (attr_type attributes) (attr_bits attributes) (usage =? PSA_KEY_USAGE_ENCRYPT) key
  [] [] [] 0 0 0 (wolfpsa_aead_tag_length alg) false false false false zero_AesGcm zero_ChaChaPoly
  (mkCcm _ zero_AesDirect (replicate 16 x00) (replicate 16 x00) (replicate 16 x00) 0
     (replicate 16 x00) 0 0).

Definition wolfpsa_aead_setup (key alg usage : Z) (multipart : bool) : CM psa_status_t :=
c ← get_ctx;
match c with
| Some _ => mret PSA_ERROR_BAD_STATE
| None =>
    match aead_alg_check alg multipart with
    | PSA_SUCCESS =>
        r ← lib (wolfpsa_aead_check_key key usage alg);
        match r with
        | inl e => mret e
        | inr (attributes, key_data) =>
            ok ← lib (XMALLOC sizeof_aead_ctx);
            if negb ok then mret PSA_ERROR_INSUFFICIENT_MEMORY
            else
              match aead_tag_check alg (wolfpsa_aead_tag_length alg) with
              | PSA_SUCCESS =>
                  ok ← lib (XMALLOC (zlen key_data));
                  if negb ok then mret PSA_ERROR_INSUFFICIENT_MEMORY
                  else set_ctx (Some (aead_initial usage alg attributes key_data));; mret PSA_SUCCESS
              | e => mret e
              end
        end
    | e => mret e
    end
end.

Definition psa_aead_encrypt_setup (key alg : Z) : CM psa_status_t :=
wolfpsa_aead_setup key alg PSA_KEY_USAGE_ENCRYPT true.
Definition psa_aead_decrypt_setup (key alg : Z) : CM psa_status_t :=
wolfpsa_aead_setup key alg PSA_KEY_USAGE_DECRYPT true.

(** * Lengths and nonce *)

Definition psa_aead_set_lengths (ad_length plaintext_length : Z) : CM psa_status_t :=
c ← get_ctx;
match c with
| None => mret PSA_ERROR_BAD_STATE
| Some c =>
    let status :=
      if aead_lengths_set c || aead_ad_started c || aead_body_started c then PSA_ERROR_BAD_STATE
      else wolfpsa_aead_check_lengths (aead_alg c) (zlen (aead_nonce c)) ad_length plaintext_length in
    match status with
    | PSA_SUCCESS => set_ctx (Some (aead_with_lengths ad_length plaintext_length c));; mret PSA_SUCCESS
    | e => aead_fail e
    end
end.

Definition aead_nonce_check c (nonce_length : Z) : psa_status_t :=
if PSA_ALG_AEAD_EQUAL (aead_alg c) PSA_ALG_GCM then
  if nonce_length =? 0 then PSA_ERROR_INVALID_ARGUMENT
  else if (nonce_length <? 12) || (PSA_AEAD_NONCE_MAX_SIZE <? nonce_length)
  then PSA_ERROR_NOT_SUPPORTED
  else PSA_SUCCESS
else if PSA_ALG_AEAD_EQUAL (aead_alg c) PSA_ALG_CCM then
  if (nonce_length <? 7) || (13 <? nonce_length) then PSA_ERROR_INVALID_ARGUMENT else PSA_SUCCESS
else
  let expected := PSA_AEAD_NONCE_LENGTH (aead_key_type c) (aead_alg c) in
  if (expected =? 0) || negb (nonce_length =? expected) then PSA_ERROR_INVALID_ARGUMENT
  else PSA_SUCCESS.

Definition psa_aead_set_nonce (nonce : input) : CM psa_status_t :=
c ← get_ctx;
match c with
| None => mret PSA_ERROR_BAD_STATE
| Some c =>
    if is_null nonce then mret PSA_ERROR_INVALID_ARGUMENT
    else if negb (zlen (aead_nonce c) =? 0) then mret PSA_ERROR_BAD_STATE
    else
      match aead_nonce_check c (input_length nonce) with
      | PSA_SUCCESS =>
          match (if aead_lengths_set c
                 then wolfpsa_aead_check_lengths (aead_alg c) (input_length nonce)
                        (aead_ad_expected c) (aead_plaintext_expected c)
                 else PSA_SUCCESS) with
          | PSA_SUCCESS => set_ctx (Some (aead_with_nonce (input_bytes nonce) c));; mret PSA_SUCCESS
          | e => mret e
          end
      | e => mret e
      end
end.

(** [nonce] and [nonce_length] say whether the pointers are not NULL. *)
Definition psa_aead_generate_nonce (nonce : bool) (nonce_size : Z) (nonce_length : bool)
: CM (psa_status_t * list byte) :=
c ← get_ctx;
match c with
| None => mret (PSA_ERROR_BAD_STATE, [])
| Some c =>
    if negb nonce_length || (negb nonce && negb (nonce_size =? 0))
    then mret (PSA_ERROR_INVALID_ARGUMENT, [])
    else if negb (aead_direction c) then mret (PSA_ERROR_BAD_STATE, [])
    else if negb (zlen (aead_nonce c) =? 0) then mret (PSA_ERROR_BAD_STATE, [])
    else
      let expected := PSA_AEAD_NONCE_LENGTH (aead_key_type c) (aead_alg c) in
      if (expected =? 0) || (nonce_size <? expected) then mret (PSA_ERROR_BUFFER_TOO_SMALL, [])
      else
        '(status, bytes) ← lib (psa_generate_random nonce expected);
        match status with
        | PSA_SUCCESS =>
            status ← psa_aead_set_nonce (Bytes bytes);
            match status with
            | PSA_SUCCESS => mret (PSA_SUCCESS, bytes)
            | e => mret (e, [])
            end
        | e => mret (e, [])
        end
end.

(** * Additional data *)

Definition psa_aead_update_ad (data : input) : CM psa_status_t :=
c ← get_ctx;
match c with
| None => mret PSA_ERROR_BAD_STATE
| Some c =>
    let n := input_length data in
    if aead_body_started c then aead_fail PSA_ERROR_BAD_STATE
    else if (zlen (aead_nonce c) =? 0) || wolfpsa_aead_lengths_missing c then mret PSA_ERROR_BAD_STATE
    else if n =? 0 then set_ctx (Some (aead_with_aad (aead_aad c) c));; mret PSA_SUCCESS
    else if aead_lengths_set c
            && ((SIZE_MAX - zlen (aead_aad c) <? n) || (aead_ad_expected c <? zlen (aead_aad c) + n))
    then aead_fail PSA_ERROR_INVALID_ARGUMENT
    else if (SIZE_MAX - zlen (aead_aad c) <? n) || negb (fits_word32 (zlen (aead_aad c) + n))
    then aead_fail PSA_ERROR_INVALID_ARGUMENT
    else
      '(status, aad) ← wolfpsa_aead_append (aead_aad c) data;
      match status with
      | PSA_SUCCESS => set_ctx (Some (aead_with_aad aad c));; mret PSA_SUCCESS
      | e => aead_fail e
      end
end.
(** * Engines *)

(** A checked call: the status of its failure, or what it gave. *)
Definition aead_answer {A} (a : A) (ret : Z) : psa_status_t + A :=
if negb (ret =? 0) then inl (wc_error_to_psa_status ret) else inr a.
Definition aead_call {A} (a : A) : CM (psa_status_t + A) :=
ret ← wc_call; mret (aead_answer a ret).

(** The first two calls of an engine. *)
Definition aead_calls {A} (m : CM (psa_status_t + A)) : CM (psa_status_t + A) :=
ret ← wc_call;
ret ← wc_then ret;
if negb (ret =? 0) then mret (inl (wc_error_to_psa_status ret)) else m.

Definition gcm_init c : AesGcm :=
(if aead_direction c then wc_AesGcmEncryptInit else wc_AesGcmDecryptInit)
  (word32_buf (aead_key c)) (word32_buf (aead_nonce c)).

Definition gcm_stream_update c (data : list byte)
: CM (psa_status_t + list byte * wolfpsa_aead_ctx) :=
let first := negb (aead_streaming c) in
r ← (if first then aead_calls (mret (inr (gcm_init c))) (* wc_AesInit, wc_AesGcm..Init *)
     else mret (inr (aead_gcm c)));
match r with
| inl e => mret (inl e)
| inr g =>
    let '(out, g) :=
      (if aead_direction c then wc_AesGcmEncryptUpdate else wc_AesGcmDecryptUpdate)
        g (word32_buf data) (if first then word32_buf (aead_aad c) else []) in
    aead_call (out, aead_with_gcm g c)
end.

Definition chacha_stream_init c : CM (psa_status_t + ChaChaPoly_Aead) :=
r ← aead_call (wc_ChaCha20Poly1305_Init (aead_key c) (aead_nonce c) (aead_direction c));
match r with
| inl e => mret (inl e)
| inr h =>
    if 0 <? zlen (aead_aad c)
    then aead_call (wc_ChaCha20Poly1305_UpdateAad h (word32_buf (aead_aad c)))
    else mret (inr h)
end.

Definition chacha_stream_update c (data : list byte)
: CM (psa_status_t + list byte * wolfpsa_aead_ctx) :=
r ← (if negb (aead_streaming c) then chacha_stream_init c else mret (inr (aead_chacha c)));
match r with
| inl e => mret (inl e)
| inr h =>
    let '(out, h) := wc_ChaCha20Poly1305_UpdateData h (word32_buf data) in
    aead_call (out, aead_with_chacha h c)
end.

Definition ccm_stream_update c (data : list byte)
: CM (psa_status_t + list byte * wolfpsa_aead_ctx) :=
r ← (if negb (aead_streaming c)
     then wolfpsa_aead_ccm_init (aead_key c) (aead_nonce c) (aead_aad c)
            (aead_plaintext_expected c) (aead_tag_length c)
     else mret (inr (aead_ccm c)));
match r with
| inl e => mret (inl e)
| inr m =>
    r ← wolfpsa_aead_ccm_update (aead_direction c) m data;
    mret match r with
         | inl e => inl e
         | inr (out, m) => inr (out, aead_with_ccm m c)
         end
end.

(** A part of the text; the first one starts the engine and feeds it the
  additional data. *)
Definition wolfpsa_aead_stream_update c (data : list byte)
: CM (psa_status_t + list byte * wolfpsa_aead_ctx) :=
if PSA_ALG_AEAD_EQUAL (aead_alg c) PSA_ALG_GCM then
  if HAVE_AESGCM && WOLFSSL_AESGCM_STREAM then gcm_stream_update c data
  else mret (inl PSA_ERROR_NOT_SUPPORTED)
else if PSA_ALG_AEAD_EQUAL (aead_alg c) PSA_ALG_CHACHA20_POLY1305 then
  if HAVE_CHACHA && HAVE_POLY1305 then chacha_stream_update c data
  else mret (inl PSA_ERROR_NOT_SUPPORTED)
else if PSA_ALG_AEAD_EQUAL (aead_alg c) PSA_ALG_CCM then
  if HAVE_AESCCM && WOLFSSL_AES_DIRECT then ccm_stream_update c data
  else mret (inl PSA_ERROR_NOT_SUPPORTED)
else mret (inl PSA_ERROR_NOT_SUPPORTED).

(** The status of a failure when [auth_e] says that the tag is wrong. *)
Definition aead_auth_error (auth_e ret : Z) : psa_status_t :=
if (ret =? auth_e) || (ret =? MAC_CMP_FAILED_E) then PSA_ERROR_INVALID_SIGNATURE
else wc_error_to_psa_status ret.

(** A call that checks a tag: without an answer, the tag is not the right one. *)
Definition aead_auth_answer {A} (auth_e : Z) (answer : option A) (ret : Z) : psa_status_t + A :=
if negb (ret =? 0) then inl (aead_auth_error auth_e ret)
else match answer with
     | Some a => inr a
     | None => inl (aead_auth_error auth_e auth_e)
     end.

(** The [or] of the differences of the first [tag_len] bytes. *)
Definition aead_tag_diff (computed tag : list byte) (tag_len : Z) : Z :=
fold_left (fun diff i => Z.lor diff (Z.lxor (b2z (nth i computed x00)) (b2z (nth i tag x00))))
  (seq 0 (Z.to_nat tag_len)) 0.

Definition gcm_stream_final c (tag : list byte) (tag_len : Z) : CM (psa_status_t + list byte) :=
ret ← wc_call;
mret (aead_auth_answer AES_GCM_AUTH_E
        (if aead_direction c then Some (wc_AesGcmEncryptFinal (aead_gcm c) tag_len)
         else if wc_AesGcmDecryptFinal (aead_gcm c) (take (Z.to_nat tag_len) tag) then Some []
         else None) ret).

Definition chacha_stream_final c (tag : list byte) (tag_len : Z) : CM (psa_status_t + list byte) :=
r ← aead_call (wc_ChaCha20Poly1305_Final (aead_chacha c));
mret match r with
     | inl e => inl e
     | inr computed =>
         if aead_direction c then inr (take (Z.to_nat tag_len) computed)
         else if negb (wc_ChaCha20Poly1305_CheckTag computed tag =? 0)
         then inl PSA_ERROR_INVALID_SIGNATURE
         else inr []
     end.

Definition ccm_stream_final c (tag : list byte) (tag_len : Z) : CM (psa_status_t + list byte) :=
r ← wolfpsa_aead_ccm_finish (aead_ccm c) (aead_nonce c) tag_len;
mret match r with
     | inl e => inl e
     | inr computed =>
         if aead_direction c then inr computed
         else if negb (aead_tag_diff computed tag tag_len =? 0)
         then inl PSA_ERROR_INVALID_SIGNATURE
         else inr []
     end.

(** The tag of an encryption; the check of [tag] by a decryption. *)
Definition wolfpsa_aead_stream_final c (tag : list byte) (tag_len : Z)
: CM (psa_status_t + list byte) :=
if PSA_ALG_AEAD_EQUAL (aead_alg c) PSA_ALG_GCM then
  if HAVE_AESGCM && WOLFSSL_AESGCM_STREAM then gcm_stream_final c tag tag_len
  else mret (inl PSA_ERROR_NOT_SUPPORTED)
else if PSA_ALG_AEAD_EQUAL (aead_alg c) PSA_ALG_CHACHA20_POLY1305 then
  if HAVE_CHACHA && HAVE_POLY1305 then chacha_stream_final c tag tag_len
  else mret (inl PSA_ERROR_NOT_SUPPORTED)
else if PSA_ALG_AEAD_EQUAL (aead_alg c) PSA_ALG_CCM then
  if HAVE_AESCCM && WOLFSSL_AES_DIRECT then ccm_stream_final c tag tag_len
  else mret (inl PSA_ERROR_NOT_SUPPORTED)
else mret (inl PSA_ERROR_NOT_SUPPORTED).

(** * Text *)

(** An error of [psa_aead_update] that ends the operation. *)
Definition aead_fail_out (e : psa_status_t) : CM (psa_status_t * list byte) :=
status ← aead_fail e; mret (status, []).

(** The last part of [psa_aead_update], once [body_started] is set. *)
Definition aead_update_body c (data : input) (output : bool) (output_size : Z)
: CM (psa_status_t * list byte) :=
let n := input_length data in
if n =? 0 then mret (PSA_SUCCESS, [])
else if negb output then
  if aead_streaming c then aead_fail_out PSA_ERROR_BAD_STATE
  else
    '(status, buf) ← wolfpsa_aead_append (aead_input c) data;
    match status with
    | PSA_SUCCESS => set_ctx (Some (aead_with_input buf (zlen buf) false c));; mret (PSA_SUCCESS, [])
    | e => aead_fail_out e
    end
else if negb (bool_decide (aead_input c = [])) then aead_fail_out PSA_ERROR_BAD_STATE
else if output_size <? n then aead_fail_out PSA_ERROR_BUFFER_TOO_SMALL
else if negb (fits_word32 n) then aead_fail_out PSA_ERROR_INVALID_ARGUMENT
else
  r ← wolfpsa_aead_stream_update c (input_bytes data);
  match r with
  | inl e => aead_fail_out e
  | inr (out, c) =>
      set_ctx (Some (aead_with_input (aead_input c) (to_size (aead_input_length c + n)) true c));;
      mret (PSA_SUCCESS, out)
  end.

(** [output] and [output_length] say whether the pointers are not NULL. *)
Definition psa_aead_update (data : input) (output : bool) (output_size : Z) (output_length : bool)
: CM (psa_status_t * list byte) :=
c ← get_ctx;
match c with
| None => mret (PSA_ERROR_BAD_STATE, [])
| Some c =>
    let n := input_length data in
    if negb output_length then mret (PSA_ERROR_INVALID_ARGUMENT, [])
    else if wolfpsa_aead_lengths_missing c then mret (PSA_ERROR_BAD_STATE, [])
    else if zlen (aead_nonce c) =? 0 then mret (PSA_ERROR_BAD_STATE, [])
    else if aead_lengths_set c && negb (zlen (aead_aad c) =? aead_ad_expected c)
    then aead_fail_out PSA_ERROR_INVALID_ARGUMENT
    else if aead_lengths_set c
            && ((SIZE_MAX - aead_input_length c <? n)
                || (aead_plaintext_expected c <? aead_input_length c + n))
    then aead_fail_out PSA_ERROR_INVALID_ARGUMENT
    else if is_null data && (0 <? n) then aead_fail_out PSA_ERROR_INVALID_ARGUMENT
    else
      let c := aead_with_input (aead_input c) (aead_input_length c) (aead_streaming c) c in
      set_ctx (Some c);;
      aead_update_body c data output output_size
end.
(** * ChaCha20-Poly1305 at once ([src/psa_chacha20_poly1305.c]) *)

(** The cipher text, followed by the tag. *)
Definition psa_chacha20_poly1305_encrypt (key : input) (alg : Z) (nonce additional_data plaintext : input)
  (ciphertext_size : Z) : CM (psa_status_t + list byte) :=
if is_null key || negb (input_length key =? CHACHA20_POLY1305_AEAD_KEYSIZE)
then mret (inl PSA_ERROR_INVALID_ARGUMENT)
else if negb (alg =? PSA_ALG_CHACHA20_POLY1305) then mret (inl PSA_ERROR_NOT_SUPPORTED)
else if is_null nonce || negb (input_length nonce =? CHACHA20_POLY1305_AEAD_IV_SIZE)
then mret (inl PSA_ERROR_INVALID_ARGUMENT)
else if is_null additional_data && (0 <? input_length additional_data)
then mret (inl PSA_ERROR_INVALID_ARGUMENT)
else if is_null plaintext && (0 <? input_length plaintext) then mret (inl PSA_ERROR_INVALID_ARGUMENT)
else if negb (fits_word32 (input_length additional_data)) || negb (fits_word32 (input_length plaintext))
then mret (inl PSA_ERROR_INVALID_ARGUMENT)
else if SIZE_MAX - CHACHA20_POLY1305_AEAD_AUTHTAG_SIZE <? input_length plaintext
then mret (inl PSA_ERROR_BUFFER_TOO_SMALL)
else if ciphertext_size <? input_length plaintext + CHACHA20_POLY1305_AEAD_AUTHTAG_SIZE
then mret (inl PSA_ERROR_BUFFER_TOO_SMALL)
else
  let '(out, tag) := wc_ChaCha20Poly1305_Encrypt (input_bytes key) (input_bytes nonce)
                       (input_bytes additional_data) (input_bytes plaintext) in
  aead_call (out ++ tag).

Definition psa_chacha20_poly1305_decrypt (key : input) (alg : Z) (nonce additional_data : input)
  (ciphertext : list byte) (plaintext_size : Z) : CM (psa_status_t + list byte) :=
let n := zlen ciphertext - CHACHA20_POLY1305_AEAD_AUTHTAG_SIZE in
if is_null key || negb (input_length key =? CHACHA20_POLY1305_AEAD_KEYSIZE)
then mret (inl PSA_ERROR_INVALID_ARGUMENT)
else if negb (alg =? PSA_ALG_CHACHA20_POLY1305) then mret (inl PSA_ERROR_NOT_SUPPORTED)
else if is_null nonce || negb (input_length nonce =? CHACHA20_POLY1305_AEAD_IV_SIZE)
then mret (inl PSA_ERROR_INVALID_ARGUMENT)
else if is_null additional_data && (0 <? input_length additional_data)
then mret (inl PSA_ERROR_INVALID_ARGUMENT)
else if zlen ciphertext <? CHACHA20_POLY1305_AEAD_AUTHTAG_SIZE
then mret (inl PSA_ERROR_INVALID_ARGUMENT)
else if negb (fits_word32 (input_length additional_data)) || negb (fits_word32 n)
then mret (inl PSA_ERROR_INVALID_ARGUMENT)
else if plaintext_size <? n then mret (inl PSA_ERROR_BUFFER_TOO_SMALL)
else
  ret ← wc_call;
  mret (if negb (ret =? 0) then inl (wc_error_to_psa_status ret)
        else
          match wc_ChaCha20Poly1305_Decrypt (input_bytes key) (input_bytes nonce)
                  (input_bytes additional_data) (take (Z.to_nat n) ciphertext)
                  (drop (Z.to_nat n) ciphertext) with
          | Some out => inr out
          | None => inl (wc_error_to_psa_status MAC_CMP_FAILED_E)
          end).

(** * The end of an operation *)

Definition sizeof_Aes : Z := 1024.

Definition wolfpsa_aes_new : CM Z :=
ok ← lib (XMALLOC sizeof_Aes);
if negb ok then mret MEMORY_E else wc_call.

(** A new AES context, its key, and a call. *)
Definition aes_call {A} (finish : Z -> psa_status_t + A) : CM (psa_status_t + A) :=
ret ← wolfpsa_aes_new;
if negb (ret =? 0) then mret (inl (wc_error_to_psa_status ret))
else
  ret ← wc_call; (* wc_AesGcmSetKey, wc_AesCcmSetKey *)
  ret ← wc_then ret;
  mret (finish ret).

(** The buffered text and its tag. *)
Definition aead_encrypt_buffered c : CM (psa_status_t + list byte * list byte) :=
let input := aead_input c in
let tag_len := aead_tag_length c in
if PSA_ALG_AEAD_EQUAL (aead_alg c) PSA_ALG_GCM then
  if negb HAVE_AESGCM then mret (inl PSA_ERROR_NOT_SUPPORTED)
  else aes_call (aead_answer
         (wc_AesGcmEncrypt (word32_buf (aead_key c)) input (aead_nonce c) tag_len (aead_aad c)))
else if PSA_ALG_AEAD_EQUAL (aead_alg c) PSA_ALG_CCM then
  if negb HAVE_AESCCM then mret (inl PSA_ERROR_NOT_SUPPORTED)
  else if negb (wc_AesCcmCheckTagSize tag_len =? 0) then mret (inl PSA_ERROR_NOT_SUPPORTED)
  else aes_call (aead_answer
         (wc_AesCcmEncrypt (word32_buf (aead_key c)) input (aead_nonce c) tag_len (aead_aad c)))
else if PSA_ALG_AEAD_EQUAL (aead_alg c) PSA_ALG_CHACHA20_POLY1305 then
  if negb (HAVE_CHACHA && HAVE_POLY1305) then mret (inl PSA_ERROR_NOT_SUPPORTED)
  else
    let size := zlen input + tag_len in
    ok ← lib (XMALLOC size);
    if negb ok then mret (inl PSA_ERROR_INSUFFICIENT_MEMORY)
    else
      r ← psa_chacha20_poly1305_encrypt (Bytes (aead_key c)) (aead_alg c) (Bytes (aead_nonce c))
            (Bytes (aead_aad c)) (Bytes input) size;
      mret match r with
           | inl e => inl e
           | inr tmp =>
               if zlen tmp <? zlen input + tag_len then inl PSA_ERROR_GENERIC_ERROR
               else inr (take (length input) tmp, take (Z.to_nat tag_len) (drop (length input) tmp))
           end
else mret (inl PSA_ERROR_NOT_SUPPORTED).

(** The checks on the lengths of an operation at its end. *)
Definition aead_lengths_wrong c : bool :=
aead_lengths_set c
&& (negb (zlen (aead_aad c) =? aead_ad_expected c)
    || negb (aead_input_length c =? aead_plaintext_expected c)).

(** Cipher text and tag; the booleans say whether the pointers are not NULL. *)
Definition wolfpsa_aead_encrypt_final c (ciphertext : bool) (ciphertext_size : Z)
  (ciphertext_length : bool) (tag : bool) (tag_size : Z) (tag_length : bool)
: CM (psa_status_t + list byte * list byte) :=
if negb ciphertext_length || negb tag_length || negb tag && negb (tag_size =? 0)
then mret (inl PSA_ERROR_INVALID_ARGUMENT)
else if negb ciphertext && negb (ciphertext_size =? 0) then mret (inl PSA_ERROR_INVALID_ARGUMENT)
else if (zlen (aead_nonce c) =? 0) || wolfpsa_aead_lengths_missing c
then mret (inl PSA_ERROR_BAD_STATE)
else if aead_streaming c then
  if aead_lengths_wrong c then mret (inl PSA_ERROR_INVALID_ARGUMENT)
  else if tag_size <? aead_tag_length c then mret (inl PSA_ERROR_BUFFER_TOO_SMALL)
  else
    r ← wolfpsa_aead_stream_final c [] (aead_tag_length c);
    mret match r with inl e => inl e | inr tag => inr ([], tag) end
else if aead_lengths_wrong c then mret (inl PSA_ERROR_INVALID_ARGUMENT)
else if HAVE_CHACHA && HAVE_POLY1305
        && PSA_ALG_AEAD_EQUAL (aead_alg c) PSA_ALG_CHACHA20_POLY1305
        && (SIZE_MAX - aead_tag_length c <? aead_input_length c)
then mret (inl PSA_ERROR_BUFFER_TOO_SMALL)
else if ciphertext_size <? aead_input_length c then mret (inl PSA_ERROR_BUFFER_TOO_SMALL)
else if tag_size <? aead_tag_length c then mret (inl PSA_ERROR_BUFFER_TOO_SMALL)
else if negb (fits_word32 (aead_input_length c)) || negb (fits_word32 (zlen (aead_aad c)))
then mret (inl PSA_ERROR_INVALID_ARGUMENT)
else aead_encrypt_buffered c.

(** The buffered text, if the tag is the right one. *)
Definition aead_decrypt_buffered c (tag : list byte) (plaintext_size : Z)
: CM (psa_status_t + list byte) :=
let input := aead_input c in
if PSA_ALG_AEAD_EQUAL (aead_alg c) PSA_ALG_GCM then
  if negb HAVE_AESGCM then mret (inl PSA_ERROR_NOT_SUPPORTED)
  else aes_call (aead_auth_answer AES_GCM_AUTH_E
         (wc_AesGcmDecrypt (word32_buf (aead_key c)) input (aead_nonce c) tag (aead_aad c)))
else if PSA_ALG_AEAD_EQUAL (aead_alg c) PSA_ALG_CCM then
  if negb HAVE_AESCCM then mret (inl PSA_ERROR_NOT_SUPPORTED)
  else if negb (wc_AesCcmCheckTagSize (zlen tag) =? 0) then mret (inl PSA_ERROR_INVALID_SIGNATURE)
  else aes_call (aead_auth_answer AES_CCM_AUTH_E
         (wc_AesCcmDecrypt (word32_buf (aead_key c)) input (aead_nonce c) tag (aead_aad c)))
else if PSA_ALG_AEAD_EQUAL (aead_alg c) PSA_ALG_CHACHA20_POLY1305 then
  if negb (HAVE_CHACHA && HAVE_POLY1305) then mret (inl PSA_ERROR_NOT_SUPPORTED)
  else if SIZE_MAX - zlen tag <? zlen input then mret (inl PSA_ERROR_INVALID_ARGUMENT)
  else
    ok ← lib (XMALLOC (zlen input + zlen tag));
    if negb ok then mret (inl PSA_ERROR_INSUFFICIENT_MEMORY)
    else
      r ← psa_chacha20_poly1305_decrypt (Bytes (aead_key c)) (aead_alg c) (Bytes (aead_nonce c))
            (Bytes (aead_aad c)) (input ++ tag) plaintext_size;
      mret match r with inl _ => inl PSA_ERROR_INVALID_SIGNATURE | inr out => inr out end
else mret (inl PSA_ERROR_NOT_SUPPORTED).

Definition wolfpsa_aead_decrypt_final c (plaintext : bool) (plaintext_size : Z)
  (plaintext_length : bool) (tag : input) : CM (psa_status_t + list byte) :=
if negb plaintext_length || is_null tag && negb (input_length tag =? 0)
then mret (inl PSA_ERROR_INVALID_ARGUMENT)
else if negb plaintext && negb (plaintext_size =? 0) then mret (inl PSA_ERROR_INVALID_ARGUMENT)
else if (zlen (aead_nonce c) =? 0) || wolfpsa_aead_lengths_missing c
then mret (inl PSA_ERROR_BAD_STATE)
else if aead_streaming c then
  if aead_lengths_wrong c then mret (inl PSA_ERROR_INVALID_ARGUMENT)
  else if negb (input_length tag =? aead_tag_length c) then mret (inl PSA_ERROR_INVALID_SIGNATURE)
  else
    r ← wolfpsa_aead_stream_final c (input_bytes tag) (aead_tag_length c);
    mret match r with inl e => inl e | inr _ => inr [] end
else if aead_lengths_wrong c then mret (inl PSA_ERROR_INVALID_ARGUMENT)
else if negb (input_length tag =? aead_tag_length c) then mret (inl PSA_ERROR_INVALID_SIGNATURE)
else if plaintext_size <? aead_input_length c then mret (inl PSA_ERROR_BUFFER_TOO_SMALL)
else if negb (fits_word32 (aead_input_length c)) || negb (fits_word32 (zlen (aead_aad c)))
then mret (inl PSA_ERROR_INVALID_ARGUMENT)
else aead_decrypt_buffered c (input_bytes tag) plaintext_size.

Definition psa_aead_finish (ciphertext : bool) (ciphertext_size : Z) (ciphertext_length : bool)
  (tag : bool) (tag_size : Z) (tag_length : bool)
: CM (psa_status_t * (list byte * list byte)) :=
c ← get_ctx;
match c with
| None => mret (PSA_ERROR_BAD_STATE, ([], []))
| Some c =>
    if negb (aead_direction c) then mret (PSA_ERROR_BAD_STATE, ([], []))
    else
      r ← wolfpsa_aead_encrypt_final c ciphertext ciphertext_size ciphertext_length
            tag tag_size tag_length;
      psa_aead_abort;;
      mret match r with inl e => (e, ([], [])) | inr out => (PSA_SUCCESS, out) end
end.

Definition psa_aead_verify (plaintext : bool) (plaintext_size : Z) (plaintext_length : bool)
  (tag : input) : CM (psa_status_t * list byte) :=
c ← get_ctx;
match c with
| None => mret (PSA_ERROR_BAD_STATE, [])
| Some c =>
    if aead_direction c then mret (PSA_ERROR_BAD_STATE, [])
    else
      r ← wolfpsa_aead_decrypt_final c plaintext plaintext_size plaintext_length tag;
      psa_aead_abort;;
      mret match r with inl e => (e, []) | inr out => (PSA_SUCCESS, out) end
end.
End Aead.
