(* ===== verification/AeadOneShot.v ===== *)
(** One-shot authenticated encryption ([src/psa_aead.c]): [psa_aead_encrypt] and
    [psa_aead_decrypt], which drive the operation of [Aead] on a local object,
    and XChaCha20-Poly1305 and Ascon-AEAD128, which have no multi-part form. *)

From stdpp Require Import base decidable list.
From Stdlib Require Import ZArith Lia.
From Stdlib Require Import Strings.Byte.
From S2P Require Import Prelude.
From S2P Require Import Values.
From S2P Require Import Engine.
From S2P Require Import WolfCrypt.
From S2P Require Import WolfAead.
From S2P Require Import KeyPolicy.
From S2P Require Import KeyFormat.
From S2P Require Import StoreIface.
From S2P Require Import Library.
From S2P Require Import KeyStore.
From S2P Require Import Operation.
From S2P Require Import Ccm.
From S2P Require Import Aead.

#[local] Open Scope Z_scope.

(** A buffer cut at [n]: what a call is given of it, by pointer and length. *)
Definition input_take (n : Z) (i : input) : input :=
  match i with Null _ => Null (Z.to_N n) | Bytes l => Bytes (take (Z.to_nat n) l) end.
Definition input_drop (n : Z) (i : input) : input :=
  match i with Null len => Null (len - Z.to_N n) | Bytes l => Bytes (drop (Z.to_nat n) l) end.

Section AeadOneShot.
Context {C : Config} {E : WolfCryptErr} {K : WolfCryptKeys} {R : WolfCryptRng}.
Context {O : StoreOps} {B : KeyBackend} {W : WolfCryptAead} {D : WolfCryptAesDirect}.

Notation CM := (M (opstate O wolfpsa_aead_ctx)).

(** * One-shot only algorithms *)

(** The key of such an algorithm. *)
Definition aead_oneshot_key_checks (key_type key_size usage alg : Z)
  (attributes : psa_key_attributes_t) (key_data : list byte) : psa_status_t :=
if negb (attr_type attributes =? key_type) || negb (zlen key_data =? key_size)
then PSA_ERROR_INVALID_ARGUMENT
else if Z.land (psa_get_key_usage_flags attributes) usage =? 0 then PSA_ERROR_NOT_PERMITTED
else if negb (wolfpsa_aead_key_permits_alg attributes alg) then PSA_ERROR_NOT_PERMITTED
else PSA_SUCCESS.

(** The key, checked, and what is done with it. *)
Definition aead_with_key (key key_type key_size usage alg : Z)
  (body : list byte -> CM (psa_status_t * list byte)) : CM (psa_status_t * list byte) :=
'(status, attributes, key_data) ← lib (wolfpsa_get_key_data key (Some PSA_KEY_ATTRIBUTES_INIT));
match status with
| PSA_SUCCESS =>
    let key_data := default [] key_data in
    match aead_oneshot_key_checks key_type key_size usage alg
            (default PSA_KEY_ATTRIBUTES_INIT attributes) key_data with
    | PSA_SUCCESS => body key_data
    | e => mret (e, [])
    end
| e => mret (e, [])
end.

Definition wolfpsa_xchacha_oneshot_encrypt (key alg : Z) (nonce additional_data plaintext : input)
  (ciphertext_size : Z) (ciphertext_length : bool) : CM (psa_status_t * list byte) :=
if negb (alg =? PSA_ALG_XCHACHA20_POLY1305) then mret (PSA_ERROR_NOT_SUPPORTED, [])
else if negb (input_length nonce =? XCHACHA20_POLY1305_AEAD_NONCE_SIZE)
then mret (PSA_ERROR_INVALID_ARGUMENT, [])
else if negb ciphertext_length then mret (PSA_ERROR_INVALID_ARGUMENT, [])
else if SIZE_MAX - CHACHA20_POLY1305_AEAD_AUTHTAG_SIZE <? input_length plaintext
then mret (PSA_ERROR_INVALID_ARGUMENT, [])
else if ciphertext_size <? input_length plaintext + CHACHA20_POLY1305_AEAD_AUTHTAG_SIZE
then mret (PSA_ERROR_BUFFER_TOO_SMALL, [])
else
  aead_with_key key PSA_KEY_TYPE_XCHACHA20 CHACHA20_POLY1305_AEAD_KEYSIZE PSA_KEY_USAGE_ENCRYPT alg
    (fun key_data =>
       let '(own, out) := wc_XChaCha20Poly1305_Encrypt plaintext additional_data nonce key_data in
       ret ← wc_then own;
       mret (if negb (ret =? 0) then (wc_error_to_psa_status ret, []) else (PSA_SUCCESS, out))).

(** The result of a decryption: its return code, then the tag. *)
Definition aead_oneshot_opened (auth_e ret : Z) (opened : option (list byte))
: psa_status_t * list byte :=
match aead_auth_answer auth_e opened ret with
| inl e => (e, [])
| inr out => (PSA_SUCCESS, out)
end.

Definition wolfpsa_xchacha_oneshot_decrypt (key alg : Z) (nonce additional_data ciphertext : input)
  (plaintext_size : Z) (plaintext_length : bool) : CM (psa_status_t * list byte) :=
if negb (alg =? PSA_ALG_XCHACHA20_POLY1305) then mret (PSA_ERROR_NOT_SUPPORTED, [])
else if negb (input_length nonce =? XCHACHA20_POLY1305_AEAD_NONCE_SIZE)
then mret (PSA_ERROR_INVALID_ARGUMENT, [])
else if negb plaintext_length then mret (PSA_ERROR_INVALID_ARGUMENT, [])
else if input_length ciphertext <? CHACHA20_POLY1305_AEAD_AUTHTAG_SIZE
then mret (PSA_ERROR_INVALID_ARGUMENT, [])
else if plaintext_size <? input_length ciphertext - CHACHA20_POLY1305_AEAD_AUTHTAG_SIZE
then mret (PSA_ERROR_BUFFER_TOO_SMALL, [])
else
  aead_with_key key PSA_KEY_TYPE_XCHACHA20 CHACHA20_POLY1305_AEAD_KEYSIZE PSA_KEY_USAGE_DECRYPT alg
    (fun key_data =>
       let '(own, opened) := wc_XChaCha20Poly1305_Decrypt ciphertext additional_data nonce key_data in
       ret ← wc_then own;
       mret (aead_oneshot_opened MAC_CMP_FAILED_E ret opened)).

(** The six calls of Ascon: init, key, nonce, additional data, text, tag. *)
Definition ascon_calls (own : Z) : CM Z :=
ret ← wc_then own;
ret ← wc_then ret;
ret ← wc_then ret;
ret ← wc_then ret;
ret ← wc_then ret;
wc_then ret.

Definition wolfpsa_ascon_oneshot_encrypt (key alg : Z) (nonce additional_data plaintext : input)
  (ciphertext_size : Z) (ciphertext_length : bool) : CM (psa_status_t * list byte) :=
if negb (alg =? PSA_ALG_ASCON_AEAD128) then mret (PSA_ERROR_NOT_SUPPORTED, [])
else if negb (input_length nonce =? ASCON_AEAD128_NONCE_SZ) then mret (PSA_ERROR_INVALID_ARGUMENT, [])
else if negb ciphertext_length then mret (PSA_ERROR_INVALID_ARGUMENT, [])
else if SIZE_MAX - ASCON_AEAD128_TAG_SZ <? input_length plaintext
then mret (PSA_ERROR_INVALID_ARGUMENT, [])
else if ciphertext_size <? input_length plaintext + ASCON_AEAD128_TAG_SZ
then mret (PSA_ERROR_BUFFER_TOO_SMALL, [])
else if negb (fits_word32 (input_length plaintext)) || negb (fits_word32 (input_length additional_data))
then mret (PSA_ERROR_INVALID_ARGUMENT, [])
else
  aead_with_key key PSA_KEY_TYPE_ASCON ASCON_AEAD128_KEY_SZ PSA_KEY_USAGE_ENCRYPT alg
    (fun key_data =>
       let '(own, (out, tag)) := wc_AsconAEAD128_Encrypt key_data nonce additional_data plaintext in
       ret ← ascon_calls own;
       mret (if negb (ret =? 0) then (wc_error_to_psa_status ret, []) else (PSA_SUCCESS, out ++ tag))).

Definition wolfpsa_ascon_oneshot_decrypt (key alg : Z) (nonce additional_data ciphertext : input)
  (plaintext_size : Z) (plaintext_length : bool) : CM (psa_status_t * list byte) :=
let ct_len := input_length ciphertext - ASCON_AEAD128_TAG_SZ in
if negb (alg =? PSA_ALG_ASCON_AEAD128) then mret (PSA_ERROR_NOT_SUPPORTED, [])
else if negb (input_length nonce =? ASCON_AEAD128_NONCE_SZ) then mret (PSA_ERROR_INVALID_ARGUMENT, [])
else if negb plaintext_length then mret (PSA_ERROR_INVALID_ARGUMENT, [])
else if input_length ciphertext <? ASCON_AEAD128_TAG_SZ then mret (PSA_ERROR_INVALID_ARGUMENT, [])
else if plaintext_size <? ct_len then mret (PSA_ERROR_BUFFER_TOO_SMALL, [])
else if negb (fits_word32 ct_len) || negb (fits_word32 (input_length additional_data))
then mret (PSA_ERROR_INVALID_ARGUMENT, [])
else
  aead_with_key key PSA_KEY_TYPE_ASCON ASCON_AEAD128_KEY_SZ PSA_KEY_USAGE_DECRYPT alg
    (fun key_data =>
       let '(own, opened) := wc_AsconAEAD128_Decrypt key_data nonce additional_data
                               (input_take ct_len ciphertext) (input_drop ct_len ciphertext) in
       ret ← ascon_calls own;
       mret (aead_oneshot_opened ASCON_AUTH_E ret opened)).

(** * The one-shot calls *)

(** An error after the setup. *)
Definition aead_abort_out (e : psa_status_t) : CM (psa_status_t * list byte) :=
psa_aead_abort;; mret (e, []).

(** The lengths, for CCM, the nonce, the additional data, and the text into the
  buffer of the operation. *)
Definition aead_load (alg : Z) (nonce additional_data data : input) (output_length : bool)
: CM psa_status_t :=
status ← (if PSA_ALG_AEAD_EQUAL alg PSA_ALG_CCM
          then psa_aead_set_lengths (input_length additional_data) (input_length data)
          else mret PSA_SUCCESS);
match status with
| PSA_SUCCESS =>
    status ← psa_aead_set_nonce nonce;
    match status with
    | PSA_SUCCESS =>
        status ← psa_aead_update_ad additional_data;
        match status with
        | PSA_SUCCESS =>
            '(status, _) ← psa_aead_update data false 0 output_length;
            mret status
        | e => mret e
        end
    | e => mret e
    end
| e => mret e
end.

(** The store of the length at the end is unconditional: a NULL
  [ciphertext_length] is an error only of the one-shot only algorithms. *)
Definition psa_aead_encrypt (key alg : Z) (nonce additional_data plaintext : input)
  (ciphertext : bool) (ciphertext_size : Z) (ciphertext_length : bool)
: CM (psa_status_t * list byte) :=
set_ctx None;;
if HAVE_XCHACHA && PSA_ALG_AEAD_EQUAL alg PSA_ALG_XCHACHA20_POLY1305
then wolfpsa_xchacha_oneshot_encrypt key alg nonce additional_data plaintext ciphertext_size
       ciphertext_length
else if HAVE_ASCON && PSA_ALG_AEAD_EQUAL alg PSA_ALG_ASCON_AEAD128
then wolfpsa_ascon_oneshot_encrypt key alg nonce additional_data plaintext ciphertext_size
       ciphertext_length
else
  status ← wolfpsa_aead_setup key alg PSA_KEY_USAGE_ENCRYPT false;
  match status with
  | PSA_SUCCESS =>
      status ← aead_load alg nonce additional_data plaintext true;
      match status with
      | PSA_SUCCESS =>
          let needed_tag_len := wolfpsa_aead_tag_length alg in
          if (ciphertext_size <? needed_tag_len)
             || (ciphertext_size - needed_tag_len <? input_length plaintext)
          then aead_abort_out PSA_ERROR_BUFFER_TOO_SMALL
          else
            '(status, (out, tag)) ←
              psa_aead_finish ciphertext ciphertext_size true true PSA_AEAD_TAG_MAX_SIZE true;
            mret match status with
                 | PSA_SUCCESS =>
                     if ciphertext_size <? zlen out + zlen tag then (PSA_ERROR_BUFFER_TOO_SMALL, [])
                     else (PSA_SUCCESS, out ++ tag)
                 | e => (e, [])
                 end
      | e => aead_abort_out e
      end
  | e => mret (e, [])
  end.

Definition psa_aead_decrypt (key alg : Z) (nonce additional_data ciphertext : input)
  (plaintext : bool) (plaintext_size : Z) (plaintext_length : bool)
: CM (psa_status_t * list byte) :=
set_ctx None;;
if HAVE_XCHACHA && PSA_ALG_AEAD_EQUAL alg PSA_ALG_XCHACHA20_POLY1305
then wolfpsa_xchacha_oneshot_decrypt key alg nonce additional_data ciphertext plaintext_size
       plaintext_length
else if HAVE_ASCON && PSA_ALG_AEAD_EQUAL alg PSA_ALG_ASCON_AEAD128
then wolfpsa_ascon_oneshot_decrypt key alg nonce additional_data ciphertext plaintext_size
       plaintext_length
else
  status ← wolfpsa_aead_setup key alg PSA_KEY_USAGE_DECRYPT false;
  match status with
  | PSA_SUCCESS =>
      let tag_length := wolfpsa_aead_tag_length alg in
      if (tag_length =? 0) || (input_length ciphertext <? tag_length)
      then aead_abort_out PSA_ERROR_INVALID_ARGUMENT
      else
        let ct_len := input_length ciphertext - tag_length in
        status ← aead_load alg nonce additional_data (input_take ct_len ciphertext) plaintext_length;
        match status with
        | PSA_SUCCESS =>
            psa_aead_verify plaintext plaintext_size plaintext_length (input_drop ct_len ciphertext)
        | e => aead_abort_out e
        end
  | e => mret (e, [])
  end.
End AeadOneShot.
