(* ===== verification/AeadRules.v ===== *)
(** Authenticated encryption: the algorithms as a function of key, nonce,
    additional data and text, and what the context of an operation means. *)

From stdpp Require Import base decidable list.
From Stdlib Require Import ZArith Lia.
From Stdlib Require Import Strings.Byte.
From S2P Require Import Prelude.
From S2P Require Import Values.
From S2P Require Import Engine.
From S2P Require Import WolfCrypt.
From S2P Require Import KeyPolicy.
From S2P Require Import KeyFormat.
From S2P Require Import StoreIface.
From S2P Require Import Library.
From S2P Require Import KeyStore.
From S2P Require Import KeyStoreRules.
From S2P Require Import Operation.
From S2P Require Import Ccm.
From S2P Require Import CcmSpec.
From S2P Require Import WolfAead.
From S2P Require Import Aead.

#[local] Open Scope Z_scope.

(** * Algorithms *)

Inductive aead_algo : Type := AES_GCM | AES_CCM | CHACHA_POLY.

#[export] Instance aead_algo_eq_dec : EqDecision aead_algo.
Proof. solve_decision. Defined.

Definition aead_algo_of (alg : Z) : option aead_algo :=
  if PSA_ALG_AEAD_EQUAL alg PSA_ALG_GCM then Some AES_GCM
  else if PSA_ALG_AEAD_EQUAL alg PSA_ALG_CCM then Some AES_CCM
  else if PSA_ALG_AEAD_EQUAL alg PSA_ALG_CHACHA20_POLY1305 then Some CHACHA_POLY
  else None.

(** An algorithm without its tag length. *)
Definition aead_base (alg : Z) : Z :=
  Z.land alg (Z.lnot (Z.lor PSA_ALG_AEAD_TAG_LENGTH_MASK PSA_ALG_AEAD_AT_LEAST_THIS_LENGTH_FLAG)).

Lemma aead_equal_base x y : PSA_ALG_AEAD_EQUAL x y = (aead_base x =? aead_base y).
Proof.
  unfold PSA_ALG_AEAD_EQUAL, aead_base. set (m := Z.lnot _).
  assert (H : Z.land (Z.lxor x y) m = Z.lxor (Z.land x m) (Z.land y m)).
  { apply Z.bits_inj'. intros i _. rewrite Z.land_spec, !Z.lxor_spec, !Z.land_spec.
    by destruct (Z.testbit x i), (Z.testbit y i), (Z.testbit m i). }
  rewrite H. apply eq_true_iff_eq. rewrite !Z.eqb_eq. split; [apply Z.lxor_eq|].
  intros ->. apply Z.lxor_nilpotent.
Qed.

(** The tests of the code on an algorithm. *)
Lemma algo_tests alg a :
  aead_algo_of alg = Some a ->
  PSA_ALG_AEAD_EQUAL alg PSA_ALG_GCM = bool_decide (a = AES_GCM) /\
  PSA_ALG_AEAD_EQUAL alg PSA_ALG_CCM = bool_decide (a = AES_CCM) /\
  PSA_ALG_AEAD_EQUAL alg PSA_ALG_CHACHA20_POLY1305 = bool_decide (a = CHACHA_POLY) /\
  PSA_ALG_AEAD_EQUAL alg PSA_ALG_XCHACHA20_POLY1305 = false /\
  PSA_ALG_AEAD_EQUAL alg PSA_ALG_ASCON_AEAD128 = false.
Proof.
  unfold aead_algo_of. rewrite !aead_equal_base. intros H.
  destruct (Z.eqb_spec (aead_base alg) (aead_base PSA_ALG_GCM)) as [Hb|_].
  { injection H as <-. by rewrite Hb. }
  destruct (Z.eqb_spec (aead_base alg) (aead_base PSA_ALG_CCM)) as [Hb|_].
  { injection H as <-. by rewrite Hb. }
  destruct (Z.eqb_spec (aead_base alg) (aead_base PSA_ALG_CHACHA20_POLY1305)) as [Hb|_]; [|done].
  injection H as <-. by rewrite Hb.
Qed.

Lemma aead_tag_length_nonneg alg : 0 <= wolfpsa_aead_tag_length alg.
Proof.
  unfold wolfpsa_aead_tag_length, PSA_ALG_AEAD_GET_TAG_LENGTH.
  rewrite Z.shiftr_nonneg. apply Z.land_nonneg. by right.
Qed.

Section AeadRules.
Context {C : Config} {E : WolfCryptErr} {EO : WolfCryptErrOk E} {K : WolfCryptKeys}.
Context {R : WolfCryptRng} {O : StoreOps} {B : KeyBackend}.
Context {W : WolfCryptAead} {D : WolfCryptAesDirect}.
Context {WO : WolfCryptAeadOk W D} {DO : WolfCryptAesDirectOk D}.

Implicit Types c : wolfpsa_aead_ctx.
Implicit Types s : opstate O wolfpsa_aead_ctx.

(** * The reference *)

(** The block cipher of a key; a key length is passed as a [word32]. *)
Definition aead_enc (key : list byte) : list byte -> list byte :=
wc_AesEncryptDirect (wc_AesSetKeyDirect (word32_buf key)).

Definition aead_stream (a : aead_algo) (key nonce : list byte) : nat -> byte :=
match a with
| AES_GCM => gcm_stream (word32_buf key) nonce
| AES_CCM => ccm_stream (aead_enc key) nonce
| CHACHA_POLY => chacha_stream key nonce
end.

(** Encryption, and decryption. *)
Definition aead_crypt (a : aead_algo) (key nonce text : list byte) : list byte :=
stream_xor (aead_stream a key nonce) 0 text.

(** The tag of a plain text, and of the cipher text it gives. *)
Definition aead_tag (a : aead_algo) (n : Z) (key nonce aad text : list byte) : list byte :=
let ct := aead_crypt a key nonce text in
match a with
| AES_GCM => take (Z.to_nat n) (gcm_mac (word32_buf key) nonce aad ct)
| AES_CCM => ccm_tag (aead_enc key) nonce aad text n
| CHACHA_POLY => take (Z.to_nat n) (chacha_mac key nonce aad ct)
end.

Definition aead_seal (a : aead_algo) (n : Z) (key nonce aad text : list byte)
: list byte * list byte := (aead_crypt a key nonce text, aead_tag a n key nonce aad text).

Definition aead_open (a : aead_algo) (n : Z) (key nonce aad ct tag : list byte) : option (list byte) :=
let text := aead_crypt a key nonce ct in
if bool_decide (tag = aead_tag a n key nonce aad text) then Some text else None.

Lemma aead_crypt_involutive a key nonce text : aead_crypt a key nonce (aead_crypt a key nonce text) = text.
Proof. apply stream_xor_involutive. Qed.

Lemma aead_crypt_length a key nonce text : length (aead_crypt a key nonce text) = length text.
Proof. apply stream_xor_length. Qed.

Lemma aead_crypt_app a key nonce x y :
aead_crypt a key nonce (x ++ y)
  = aead_crypt a key nonce x ++ stream_xor (aead_stream a key nonce) (length x) y.
Proof. apply stream_xor_app. Qed.

Lemma cbc_mac_length a0 mac blocks :
length mac = 16%nat -> length (cbc_mac (wc_AesEncryptDirect a0) mac blocks) = 16%nat.
Proof.
revert mac. induction blocks as [|b blocks IH]; intros mac Hm; [done|]. apply IH, aes_direct_length.
Qed.

Lemma aead_tag_length_eq a n key nonce aad text :
0 <= n <= 16 -> zlen (aead_tag a n key nonce aad text) = n.
Proof.
intros Hn. unfold aead_tag, ccm_tag, zlen, xor_bytes, aead_enc.
destruct a; rewrite length_take.
- rewrite gcm_mac_length. lia.
- rewrite length_zip_with, aes_direct_length, cbc_mac_length by apply aes_direct_length. lia.
- rewrite chacha_mac_length. lia.
Qed.

Lemma aead_open_seal a n key nonce aad text :
let '(ct, tag) := aead_seal a n key nonce aad text in
aead_open a n key nonce aad ct tag = Some text.
Proof. simpl. unfold aead_open. rewrite aead_crypt_involutive. by rewrite bool_decide_true. Qed.

(** Only what sealing gives can be opened. *)
Lemma aead_open_sound a n key nonce aad ct tag text :
aead_open a n key nonce aad ct tag = Some text <-> aead_seal a n key nonce aad text = (ct, tag).
Proof.
unfold aead_open, aead_seal. split.
- case_bool_decide as Ht; [|done]. intros [= <-]. by rewrite Ht, aead_crypt_involutive.
- intros [= <- <-]. rewrite aead_crypt_involutive. by rewrite bool_decide_true.
Qed.

(** * Nonces and tags *)

Definition nonce_bounds (a : aead_algo) (n : Z) : Prop :=
match a with AES_GCM => 12 <= n <= 24 | AES_CCM => 7 <= n <= 13 | CHACHA_POLY => n = 12 end.

Lemma nonce_check_bounds c a n :
aead_algo_of (aead_alg c) = Some a -> aead_nonce_check c n = PSA_SUCCESS -> nonce_bounds a n.
Proof.
intros Ha. destruct (algo_tests _ _ Ha) as (H1 & H2 & H3 & H4 & H5).
unfold aead_nonce_check, PSA_AEAD_NONCE_LENGTH. rewrite H1, H2, H3, H4, H5.
destruct a; simpl; intros H; repeat case_match; try done;
  repeat match goal with
         | H : (_ || _) = false |- _ => apply orb_false_iff in H as [? ?]
         | H : (_ <? _) = false |- _ => apply Z.ltb_ge in H
         | H : negb _ = false |- _ => apply negb_false_iff in H
         | H : (_ =? _) = true |- _ => apply Z.eqb_eq in H
         end; unfold PSA_AEAD_NONCE_MAX_SIZE in *; try done; lia.
Qed.

Definition tag_bounds (a : aead_algo) (n : Z) : Prop :=
match a with
| AES_GCM => n = 4 \/ n = 8 \/ 12 <= n <= 16
| AES_CCM => n ∈ [4; 6; 8; 10; 12; 14; 16]
| CHACHA_POLY => n = 16
end.

Lemma tag_bounds_16 a n : tag_bounds a n -> 4 <= n <= 16.
Proof. destruct a; simpl; [lia| |lia]. intros H. repeat (apply elem_of_cons in H as [->|H]; [lia|]). by apply elem_of_nil in H. Qed.

(** What a build offers: at once, and in parts. *)
Definition aead_built (a : aead_algo) : bool :=
match a with
| AES_GCM => HAVE_AESGCM
| AES_CCM => HAVE_AESCCM
| CHACHA_POLY => HAVE_CHACHA && HAVE_POLY1305
end.
Definition aead_streams (a : aead_algo) : bool :=
aead_built a && match a with
                | AES_GCM => WOLFSSL_AESGCM_STREAM
                | AES_CCM => WOLFSSL_AES_DIRECT
                | CHACHA_POLY => true
                end.

(** A setup that passes its checks leaves one of the three algorithms. *)
Lemma alg_check_algo alg usage attributes multipart :
aead_alg_check alg multipart = PSA_SUCCESS -> aead_key_checks usage alg attributes = PSA_SUCCESS ->
exists a, aead_algo_of alg = Some a /\ aead_built a = true /\ (multipart = true -> aead_streams a = true).
Proof.
unfold aead_alg_check, aead_key_checks. intros Hc Hk.
destruct (aead_algo_of alg) as [a|] eqn:Ha.
- exists a. split; [done|]. destruct (algo_tests _ _ Ha) as (H1 & H2 & H3 & H4 & H5).
  rewrite H1, H2, H3, H4, H5 in Hc. destruct (negb (PSA_ALG_IS_AEAD alg) || _); [done|].
  destruct (negb (Z.land alg _ =? 0)); [done|]. unfold aead_streams. revert Hc. clear.
  destruct a; simpl.
  + destruct HAVE_AESGCM, WOLFSSL_AESGCM_STREAM, multipart; simpl; by intros.
  + destruct HAVE_AESCCM, WOLFSSL_AES_DIRECT, multipart; simpl; by intros.
  + destruct HAVE_CHACHA, HAVE_POLY1305; simpl; rewrite ?andb_false_r; simpl; by intros.
- exfalso. unfold aead_algo_of in Ha. by repeat case_match.
Qed.

Lemma tag_check_bounds alg a n :
aead_algo_of alg = Some a -> aead_built a = true -> aead_tag_check alg n = PSA_SUCCESS -> tag_bounds a n.
Proof.
intros Ha Hb. destruct (algo_tests _ _ Ha) as (H1 & H2 & H3 & _).
unfold aead_tag_check, wolfpsa_aead_gcm_check_tag_size. rewrite H1, H2, H3.
destruct a; simpl in *; rewrite Hb; simpl; rewrite ?andb_false_r; simpl.
- unfold WC_AES_BLOCK_SIZE.
  destruct (Z.eqb_spec n 0), (Z.eqb_spec n 4), (Z.eqb_spec n 8), (Z.ltb_spec n 12), (Z.ltb_spec 16 n);
    simpl; repeat case_match; intros; try done; lia.
- destruct (n =? 0); [done|]. destruct (Z.eqb_spec (wc_AesCcmCheckTagSize n) 0) as [Hz|]; [|done].
  simpl. intros _. by apply ccm_check_tag.
- destruct (n =? 0); [done|]. destruct (Z.eqb_spec n CHACHA20_POLY1305_AEAD_AUTHTAG_SIZE); [|done]. done.
Qed.

(** * What a context means *)

Record aead_wf (a : aead_algo) c : Prop := {
aw_algo : aead_algo_of (aead_alg c) = Some a;
aw_built : aead_built a = true;
aw_tag : tag_bounds a (aead_tag_length c);
aw_nonce : aead_nonce c = [] \/ nonce_bounds a (zlen (aead_nonce c));
aw_aad : zlen (aead_aad c) <= UINT32_MAX;
aw_started : aead_ad_started c = false -> aead_aad c = [];
aw_lengths : aead_lengths_set c = true ->
  0 <= aead_plaintext_expected c <= SIZE_MAX /\ zlen (aead_aad c) <= aead_ad_expected c /\
  (a = AES_CCM -> aead_nonce c <> [] ->
   aead_plaintext_expected c < 256 ^ (15 - zlen (aead_nonce c))) }.

(** The plain text and the cipher text of an input. *)
Definition plain_of (a : aead_algo) c (text : list byte) : list byte :=
if aead_direction c then text else aead_crypt a (aead_key c) (aead_nonce c) text.
Definition cipher_of (a : aead_algo) c (text : list byte) : list byte :=
if aead_direction c then aead_crypt a (aead_key c) (aead_nonce c) text else text.

(** The engine has taken the additional data and an input. *)
Definition engine_has (a : aead_algo) c (text : list byte) : Prop :=
match a with
| AES_GCM => gcm_has (aead_direction c) (word32_buf (aead_key c)) (aead_nonce c) (aead_aad c)
               (cipher_of a c text) (aead_gcm c)
| AES_CCM =>
    let k := wc_AesSetKeyDirect (word32_buf (aead_key c)) in
    ccm_has k (aead_nonce c)
      (ccm_mac0 k (aead_nonce c) (aead_aad c) (aead_plaintext_expected c) (aead_tag_length c))
      (aead_ccm c) (plain_of a c text)
| CHACHA_POLY => chacha_has (aead_direction c) (aead_key c) (aead_nonce c) (aead_aad c)
                   (cipher_of a c text) (aead_chacha c)
end.

(** The operation is ready for text. *)
Record aead_ready (a : aead_algo) c : Prop := {
ar_wf : aead_wf a c;
ar_nonce : aead_nonce c <> [];
ar_lengths : wolfpsa_aead_lengths_missing c = false }.

Lemma ready_bounds a c : aead_ready a c -> nonce_bounds a (zlen (aead_nonce c)).
Proof. intros [[] Hn _]. by destruct aw_nonce0. Qed.

Lemma ready_nonce_buf a c : aead_ready a c -> word32_buf (aead_nonce c) = aead_nonce c.
Proof.
intros H%ready_bounds. apply word32_buf_small, fits_word32_spec. unfold UINT32_MAX.
destruct a; simpl in H; lia.
Qed.

Lemma ready_aad_buf a c : aead_ready a c -> word32_buf (aead_aad c) = aead_aad c.
Proof. intros [[] _ _]. by apply word32_buf_small, fits_word32_spec. Qed.

Lemma ready_ccm c :
aead_ready AES_CCM c ->
aead_lengths_set c = true /\ (7 <= length (aead_nonce c) <= 13)%nat /\
0 <= aead_plaintext_expected c < 256 ^ (15 - zlen (aead_nonce c)).
Proof.
intros Hr. pose proof (ready_bounds _ _ Hr) as Hb. destruct Hr as [Hwf Hn Hl]. simpl in Hb.
unfold wolfpsa_aead_lengths_missing in Hl.
destruct (algo_tests _ _ (aw_algo _ _ Hwf)) as (_ & H2 & _). rewrite H2 in Hl. simpl in Hl.
apply negb_false_iff in Hl. destruct (aw_lengths _ _ Hwf Hl) as (Hp & _ & Hc).
split; [done|]. split; [unfold zlen in Hb; lia|]. split; [lia|auto].
Qed.

Lemma cipher_of_app a c x y :
cipher_of a c (x ++ y)
  = cipher_of a c x ++ (if aead_direction c
                        then stream_xor (aead_stream a (aead_key c) (aead_nonce c)) (length x) y else y).
Proof. unfold cipher_of. destruct (aead_direction c); [apply aead_crypt_app|done]. Qed.

Lemma cipher_of_length a c x : length (cipher_of a c x) = length x.
Proof. unfold cipher_of. destruct (aead_direction c); [apply aead_crypt_length|done]. Qed.

Lemma plain_of_app a c x y :
plain_of a c (x ++ y)
  = plain_of a c x ++ (if aead_direction c then y
                       else stream_xor (aead_stream a (aead_key c) (aead_nonce c)) (length x) y).
Proof. unfold plain_of. destruct (aead_direction c); [done|apply aead_crypt_app]. Qed.

Lemma plain_of_length a c x : length (plain_of a c x) = length x.
Proof. unfold plain_of. destruct (aead_direction c); [done|apply aead_crypt_length]. Qed.

(** * Streaming *)

(** The state of the engine before a part of the text: fresh, or after [text]. *)
Definition engine_at (a : aead_algo) c (text : list byte) : Prop :=
if aead_streaming c then engine_has a c text else text = [].

(** What an update of the engine gives. *)
Definition stream_post (a : aead_algo) c (text data : list byte) (r : list byte * wolfpsa_aead_ctx) : Prop :=
r.1 = stream_xor (aead_stream a (aead_key c) (aead_nonce c)) (length text) data /\
(exists g h m, r.2 = aead_with_engine g h m c) /\ engine_has a r.2 (text ++ data).

(** The last call of an update. *)
Lemma yields_stream_end a c text data out c' :
out = stream_xor (aead_stream a (aead_key c) (aead_nonce c)) (length text) data ->
(exists g h m, c' = aead_with_engine g h m c) -> engine_has a c' (text ++ data) ->
yields (O := O) (aead_call (out, c')) (stream_post a c text data).
Proof. intros Hout Hc Heng. eapply yields_mono; [apply yields_call|]. by intros ? ->. Qed.

Lemma gcm_start_has (d : bool) key nonce aad text :
let '(out, g) := (if d then wc_AesGcmEncryptUpdate else wc_AesGcmDecryptUpdate)
    ((if d then wc_AesGcmEncryptInit else wc_AesGcmDecryptInit) key nonce) text aad in
out = stream_xor (gcm_stream key nonce) 0 text /\ gcm_has d key nonce aad (if d then out else text) g.
Proof. destruct d; [apply gcm_encrypt_start|apply gcm_decrypt_start]. Qed.

Lemma gcm_next_has (d : bool) key nonce aad ct g text :
gcm_has d key nonce aad ct g ->
let '(out, g') := (if d then wc_AesGcmEncryptUpdate else wc_AesGcmDecryptUpdate) g text [] in
out = stream_xor (gcm_stream key nonce) (length ct) text /\
gcm_has d key nonce aad (ct ++ if d then out else text) g'.
Proof. destruct d; [apply gcm_encrypt_next|apply gcm_decrypt_next]. Qed.

Lemma yields_gcm_update c text data :
aead_ready AES_GCM c -> fits_word32 (zlen data) = true -> engine_at AES_GCM c text ->
yields (O := O) (gcm_stream_update c data) (stream_post AES_GCM c text data).
Proof.
intros Hr Hd Hat. unfold gcm_stream_update, engine_at, gcm_init in *. cbv zeta.
rewrite (ready_nonce_buf _ _ Hr), (ready_aad_buf _ _ Hr), (word32_buf_small data) by done.
pose proof (cipher_of_app AES_GCM c text data) as Happ.
destruct (aead_streaming c); cbn [negb].
- eapply yields_bind; [by apply (yields_ret _ (fun g => g = aead_gcm c))|done|]. intros g ->.
  pose proof (gcm_next_has _ _ _ _ _ _ data Hat) as Hn. rewrite cipher_of_length in Hn.
  destruct ((if aead_direction c then _ else _) _ _ _) as [out g']. destruct Hn as [Hout Hn].
  apply yields_stream_end; [done|by eexists _, _, _|]. unfold engine_has. simpl.
  change (cipher_of AES_GCM (aead_with_gcm g' c)) with (cipher_of AES_GCM c). rewrite Happ. simpl.
  by rewrite <- Hout.
- subst text. pose proof (gcm_start_has (aead_direction c) (word32_buf (aead_key c)) (aead_nonce c)
                            (aead_aad c) data) as Hn. set (g0 := (if aead_direction c then wc_AesGcmEncryptInit else wc_AesGcmDecryptInit)
                                     (word32_buf (aead_key c)) (aead_nonce c)) in *.
  eapply yields_bind; [apply yields_calls; by apply (yields_ret g0 (fun g => g = g0))|done|].
  intros g ->. destruct ((if aead_direction c then _ else _) _ _ _) as [out g']. destruct Hn as [Hout Hn].
  apply yields_stream_end; [done|by eexists _, _, _|]. unfold engine_has, cipher_of. simpl.
  unfold aead_crypt. simpl. by rewrite <- Hout.
Qed.

Lemma yields_chacha_init c :
aead_ready CHACHA_POLY c ->
yields (O := O) (chacha_stream_init c)
  (chacha_has (aead_direction c) (aead_key c) (aead_nonce c) (aead_aad c) []).
Proof.
intros Hr. unfold chacha_stream_init. rewrite (ready_aad_buf _ _ Hr).
eapply yields_bind; [apply yields_call|done|]. intros h ->.
pose proof (chacha_init (aead_key c) (aead_nonce c) (aead_direction c)) as Hi.
destruct (Z.ltb_spec 0 (zlen (aead_aad c))) as [Hl|Hl].
- eapply yields_mono; [apply yields_call|]. intros h ->. by apply chacha_aad.
- apply yields_ret. rewrite (zlen_0_nil (aead_aad c)); [done|]. pose proof (zlen_nonneg (aead_aad c)). lia.
Qed.

Lemma yields_chacha_update c text data :
aead_ready CHACHA_POLY c -> fits_word32 (zlen data) = true -> engine_at CHACHA_POLY c text ->
yields (O := O) (chacha_stream_update c data) (stream_post CHACHA_POLY c text data).
Proof.
intros Hr Hd Hat. unfold chacha_stream_update, engine_at in *. cbv zeta. rewrite (word32_buf_small data) by done.
set (has := chacha_has (aead_direction c) (aead_key c) (aead_nonce c) (aead_aad c) (cipher_of CHACHA_POLY c text)).
assert (Hstart : yields (O := O) (Op := wolfpsa_aead_ctx)
  (if negb (aead_streaming c) then chacha_stream_init c else mret (inr (aead_chacha c))) has).
{ destruct (aead_streaming c); cbn [negb]; [by apply yields_ret|]. subst text has.
  replace (cipher_of CHACHA_POLY c []) with (@nil byte); [by apply yields_chacha_init|].
  unfold cipher_of. by destruct (aead_direction c). }
eapply yields_bind; [exact Hstart|done|]. intros h Hh.
pose proof (chacha_data _ _ _ _ _ _ data Hh) as Hn. rewrite cipher_of_length in Hn.
destruct (wc_ChaCha20Poly1305_UpdateData h data) as [out h']. destruct Hn as [Hout Hn].
apply yields_stream_end; [done|by eexists _, _, _|]. unfold engine_has. simpl.
change (cipher_of CHACHA_POLY (aead_with_chacha h' c)) with (cipher_of CHACHA_POLY c).
rewrite cipher_of_app. simpl. by rewrite <- Hout.
Qed.

Lemma yields_ccm_stream c text data :
aead_ready AES_CCM c -> engine_at AES_CCM c text ->
yields (O := O) (ccm_stream_update c data) (stream_post AES_CCM c text data).
Proof.
intros Hr Hat. unfold ccm_stream_update, engine_at in *.
destruct (ready_ccm c Hr) as (_ & Hn & Hp). pose proof (aw_aad _ _ (ar_wf _ _ Hr)) as Haad.
set (k := wc_AesSetKeyDirect (word32_buf (aead_key c))) in *.
set (mac0 := ccm_mac0 k (aead_nonce c) (aead_aad c) (aead_plaintext_expected c) (aead_tag_length c)).
assert (Hstart : yields (O := O) (Op := wolfpsa_aead_ctx)
  (if negb (aead_streaming c)
   then wolfpsa_aead_ccm_init (aead_key c) (aead_nonce c) (aead_aad c)
          (aead_plaintext_expected c) (aead_tag_length c)
   else mret (inr (aead_ccm c)))
  (fun m => ccm_has k (aead_nonce c) mac0 m (plain_of AES_CCM c text))).
{ destruct (aead_streaming c); cbn [negb]; [by apply yields_ret|]. subst text.
  replace (plain_of AES_CCM c []) with (@nil byte); [by apply yields_ccm_init|].
  unfold plain_of. by destruct (aead_direction c). }
eapply yields_bind; [exact Hstart|done|]. intros m Hm.
eapply yields_map; [eapply (yields_ccm_update k (aead_nonce c)); [lia|exact Hm]|done|].
intros [out m'] [Hout Hm']. cbn [fst snd] in *. eexists. split; [done|].
rewrite plain_of_length in Hout.
split; [exact Hout|]. split; [by eexists _, _, _|]. cbn [snd]. unfold engine_has. cbv zeta.
change (plain_of AES_CCM (aead_with_ccm m' c)) with (plain_of AES_CCM c). rewrite plain_of_app.
replace (stream_xor (aead_stream AES_CCM (aead_key c) (aead_nonce c)) (length text) data) with out
  by exact Hout.
exact Hm'.
Qed.

Lemma yields_stream_update a c text data :
aead_ready a c -> aead_streams a = true -> fits_word32 (zlen data) = true -> engine_at a c text ->
yields (O := O) (wolfpsa_aead_stream_update c data) (stream_post a c text data).
Proof.
intros Hr Hs Hd Hat. unfold wolfpsa_aead_stream_update.
destruct (algo_tests _ _ (aw_algo _ _ (ar_wf _ _ Hr))) as (-> & -> & -> & _).
unfold aead_streams, aead_built in Hs. destruct a; simpl; rewrite ?andb_true_r in Hs; rewrite Hs.
- by apply yields_gcm_update.
- by apply yields_ccm_stream.
- by apply yields_chacha_update.
Qed.

(** The engines that a build lacks. *)
Lemma stream_update_lacks a c data :
aead_ready a c -> aead_streams a = false ->
wolfpsa_aead_stream_update (O := O) c data = mret (inl PSA_ERROR_NOT_SUPPORTED).
Proof.
intros Hr Hs. unfold wolfpsa_aead_stream_update.
destruct (algo_tests _ _ (aw_algo _ _ (ar_wf _ _ Hr))) as (-> & -> & -> & _).
unfold aead_streams, aead_built in Hs. destruct a; simpl; rewrite ?andb_true_r in Hs; by rewrite Hs.
Qed.
End AeadRules.
