(* ===== verification/AeadFinal.v ===== *)
(** The end of an authenticated encryption: the tag that it gives or checks, and
    the text that it has buffered. *)

From stdpp Require Import base decidable list.
From Stdlib Require Import ZArith Lia.
From Stdlib Require Import Strings.Byte.
From S2P Require Import Prelude.
From S2P Require Import Values.
From S2P Require Import Engine.
From S2P Require Import WolfCrypt.
From S2P Require Import KeyPolicy.
From S2P Require Import KeyFormat.
From S2P Require Import StoreIface.
From S2P Require Import Library.
From S2P Require Import KeyStore.
From S2P Require Import KeyStoreRules.
From S2P Require Import Operation.
From S2P Require Import Ccm.
From S2P Require Import CcmSpec.
From S2P Require Import WolfAead.
From S2P Require Import Aead.
From S2P Require Import AeadRules.

#[local] Open Scope Z_scope.

Section AeadFinal.
Context {C : Config} {E : WolfCryptErr} {EO : WolfCryptErrOk E} {K : WolfCryptKeys}.
Context {R : WolfCryptRng} {O : StoreOps} {B : KeyBackend}.
Context {W : WolfCryptAead} {D : WolfCryptAesDirect}.
Context {WO : WolfCryptAeadOk W D} {DO : WolfCryptAesDirectOk D}.

Implicit Types c : wolfpsa_aead_ctx.
Implicit Types s : opstate O wolfpsa_aead_ctx.

(** * Checks of a tag *)

(** [m] gives a value with [P] when the tag is right ([ok]), and refuses it as
  the wrong one otherwise; when it can be done ([can]), nothing else but a
  failed call stands in the way. *)
Definition checks {A} (can ok : Prop) (m : M (opstate O wolfpsa_aead_ctx) (psa_status_t + A))
  (P : A -> Prop) : Prop :=
forall s Q,
(forall e s', same_ctx s s' -> e <> PSA_SUCCESS ->
   (smooth s -> can -> ~ ok /\ e = PSA_ERROR_INVALID_SIGNATURE) -> Q (inl e) s') ->
(forall a s', same_ctx s s' -> (smooth s -> smooth s') -> ok -> P a -> Q (inr a) s') ->
wp m Q s.

Lemma checks_yields {A} (can ok : Prop) m (P : A -> Prop) : ok -> yields m P -> checks can ok m P.
Proof.
intros Hok Hm s Q Hbad Hgood. apply Hm.
- intros e s' Hs He Hno. apply Hbad; [done|done|]. intros Hsm. by destruct (Hno Hsm).
- intros a s' Hs Hsm HP. by apply Hgood.
Qed.

Lemma checks_refused {A} (can ok : Prop) e (P : A -> Prop) :
e <> PSA_SUCCESS -> (can -> ~ ok /\ e = PSA_ERROR_INVALID_SIGNATURE) -> checks can ok (mret (inl e)) P.
Proof. intros He Hcan s Q Hbad _. by apply wp_ret, Hbad; [| |intros _]. Qed.

Lemma checks_mono {A} (can can' ok ok' : Prop) m (P P' : A -> Prop) :
checks can ok m P -> (can' -> can) -> (ok <-> ok') -> (forall a, ok -> P a -> P' a) ->
checks can' ok' m P'.
Proof.
intros Hm Hcan Hok HP s Q Hbad Hgood. apply Hm.
- intros e s' Hs He Hno. apply Hbad; [done|done|]. intros Hsm Hc. destruct (Hno Hsm (Hcan Hc)). split; [tauto|done].
- intros a s' Hs Hsm Ho Ha. apply Hgood; [done|done|tauto|auto].
Qed.

Lemma checks_bind {A A'} (can ok : Prop) (m : M (opstate O wolfpsa_aead_ctx) (psa_status_t + A))
(f : psa_status_t + A -> M (opstate O wolfpsa_aead_ctx) (psa_status_t + A')) (P : A -> Prop) (P' : A' -> Prop) :
yields m P -> (forall e, f (inl e) = mret (inl e)) -> (forall a, P a -> checks can ok (f (inr a)) P') ->
checks can ok (mbind f m) P'.
Proof.
intros Hm Herr Hf s Q Hbad Hgood. apply wp_bind, Hm.
- intros e s1 Hs1 He Hno. rewrite Herr. apply wp_ret, Hbad; [done|done|]. intros Hsm. by destruct (Hno Hsm).
- intros a s1 Hs1 Hsm HP. apply Hf; [done|..].
  + intros e s2 Hs2 He Hno. apply Hbad; [by eapply same_ctx_trans|done|auto].
  + intros b s2 Hs2 Hsm2 Hok HP'. apply Hgood; [by eapply same_ctx_trans|auto|done|done].
Qed.

(** The last step: a result that is kept, or compared with the tag. *)
Lemma checks_last {A A'} (can ok ok' : Prop) (m : M (opstate O wolfpsa_aead_ctx) (psa_status_t + A))
(f : psa_status_t + A -> psa_status_t + A') (P : A -> Prop) (P' : A' -> Prop) :
checks can ok m P ->
(forall e, e <> PSA_SUCCESS -> exists e', f (inl e) = inl e' /\ e' <> PSA_SUCCESS /\
   (~ ok -> e = PSA_ERROR_INVALID_SIGNATURE -> ~ ok' /\ e' = PSA_ERROR_INVALID_SIGNATURE)) ->
(forall a, ok -> P a -> match f (inr a) with
                  | inr b => ok' /\ P' b
                  | inl e => ~ ok' /\ e = PSA_ERROR_INVALID_SIGNATURE
                  end) ->
checks can ok' (r ← m; mret (f r)) P'.
Proof.
intros Hm Herr Hf s Q Hbad Hgood. apply wp_bind, Hm.
- intros e s1 Hs1 He Hno. apply wp_ret. destruct (Herr e He) as (e' & -> & He' & Hsig).
  apply Hbad; [done|done|]. intros Hsm Hc. destruct (Hno Hsm Hc). auto.
- intros a s1 Hs1 Hsm Ho Ha. apply wp_ret. specialize (Hf a Ho Ha). destruct (f (inr a)) as [e|b].
  + destruct Hf as [Hno ->]. by apply Hbad.
  + destruct Hf. by apply Hgood.
Qed.

Lemma checks_result {A A'} (can ok : Prop) (m : M (opstate O wolfpsa_aead_ctx) (psa_status_t + A))
(f : psa_status_t + A -> psa_status_t + A') (P : A -> Prop) (P' : A' -> Prop) :
yields m P -> (forall e, f (inl e) = inl e) ->
(forall a, P a -> match f (inr a) with
                  | inr b => ok /\ P' b
                  | inl e => ~ ok /\ e = PSA_ERROR_INVALID_SIGNATURE
                  end) ->
checks can ok (r ← m; mret (f r)) P'.
Proof.
intros Hm Herr Hf. apply (checks_last can True ok m f P P').
- by apply checks_yields.
- intros e He. exists e. rewrite Herr. by split_and!.
- intros a _ Ha. by apply Hf.
Qed.

Lemma auth_error_success auth_e ret : ret <> 0 -> aead_auth_error auth_e ret <> PSA_SUCCESS.
Proof. intros Hr. unfold aead_auth_error. case_match; [done|]. by rewrite wc_error_success. Qed.

Lemma auth_error_self auth_e : aead_auth_error auth_e auth_e = PSA_ERROR_INVALID_SIGNATURE.
Proof. unfold aead_auth_error. by rewrite Z.eqb_refl. Qed.

(** The outcome of a call that checks a tag. *)
Lemma auth_answer_zero {A} auth_e (answer : option A) :
aead_auth_answer auth_e answer 0
  = match answer with Some a => inr a | None => inl PSA_ERROR_INVALID_SIGNATURE end.
Proof. unfold aead_auth_answer. simpl. destruct answer; [done|]. by rewrite auth_error_self. Qed.

Lemma auth_answer_failed {A} auth_e (answer : option A) ret :
ret <> 0 -> exists e, aead_auth_answer auth_e answer ret = inl e /\ e <> PSA_SUCCESS.
Proof.
intros Hr. unfold aead_auth_answer. rewrite (proj2 (Z.eqb_neq ret 0)) by done. simpl.
eexists. split; [done|]. by apply auth_error_success.
Qed.

Lemma checks_auth {A} auth_e (answer : option A) :
checks True (is_Some answer) (ret ← wc_call; mret (aead_auth_answer auth_e answer ret))
  (fun a => answer = Some a).
Proof.
intros s Q Hbad Hgood. apply wp_bind, wp_pure; [apply pure_wc_call|]. intros r s1 Hr Hs1 _ Hsm1.
apply wp_ret. destruct (Z.eq_dec r 0) as [->|Hr0].
- rewrite auth_answer_zero. destruct answer as [a|]; [by apply Hgood|].
  apply Hbad; [done|done|]. intros _ _. split; [by intros [? ?]|done].
- destruct (auth_answer_failed auth_e answer r Hr0) as (e & -> & He).
  apply Hbad; [done|done|]. intros Hsm _. rewrite wc_call_smooth in Hr by done. by injection Hr as <- _.
Qed.

(** The comparison of [psa_aead_verify] for CCM. *)
Lemma tag_diff_zero computed tag n :
zlen computed = n -> zlen tag = n -> aead_tag_diff computed tag n = 0 <-> computed = tag.
Proof.
intros Hc Ht. unfold aead_tag_diff. rewrite fold_lor_zero. split.
- intros [_ Hall]. apply (nth_ext _ _ x00 x00); [unfold zlen in *; lia|]. intros i Hi.
  assert (Hin : In i (seq 0 (Z.to_nat n))) by (apply in_seq; unfold zlen in *; lia).
  rewrite Forall_forall in Hall. specialize (Hall i (proj2 (list_elem_of_In _ _) Hin)). simpl in Hall.
  by apply Z.lxor_eq, b2z_inj in Hall.
- intros ->. split; [done|]. apply Forall_forall. intros i _. apply Z.lxor_nilpotent.
Qed.

(** The right tag of an input. *)
Definition expected_tag (a : aead_algo) c (text : list byte) : list byte :=
aead_tag a (aead_tag_length c) (aead_key c) (aead_nonce c) (aead_aad c) (plain_of a c text).

Lemma cipher_of_plain a c text :
aead_crypt a (aead_key c) (aead_nonce c) (plain_of a c text) = cipher_of a c text.
Proof. unfold plain_of, cipher_of. destruct (aead_direction c); [done|apply aead_crypt_involutive]. Qed.

Lemma expected_tag_length a c text :
aead_wf a c -> zlen (expected_tag a c text) = aead_tag_length c.
Proof. intros Hwf. apply aead_tag_length_eq. pose proof (tag_bounds_16 _ _ (aw_tag _ _ Hwf)). lia. Qed.

(** The answer of the end of an operation: a tag, or none. *)
Definition final_ok (a : aead_algo) c (text tag : list byte) : Prop :=
aead_direction c = true \/ tag = expected_tag a c text.
Definition final_out (a : aead_algo) c (text : list byte) (out : list byte) : Prop :=
aead_direction c = true -> out = expected_tag a c text.

Lemma gcm_tag_is c text :
take (Z.to_nat (aead_tag_length c))
  (gcm_mac (word32_buf (aead_key c)) (aead_nonce c) (aead_aad c) (cipher_of AES_GCM c text))
= expected_tag AES_GCM c text.
Proof. unfold expected_tag, aead_tag. by rewrite cipher_of_plain. Qed.

Lemma checks_gcm_final c text tag :
aead_wf AES_GCM c -> engine_has AES_GCM c text ->
(aead_direction c = false -> zlen tag = aead_tag_length c) ->
checks True (final_ok AES_GCM c text tag) (gcm_stream_final c tag (aead_tag_length c))
  (final_out AES_GCM c text).
Proof.
intros Hwf Heng Htag. unfold gcm_stream_final, final_ok, final_out.
eapply checks_mono; [apply checks_auth|done|..]; cbv beta; unfold engine_has in Heng.
- destruct (aead_direction c) eqn:Hd; [by split; [left|intros _; eexists]|]. specialize (Htag eq_refl).
  rewrite (take_ge tag) by (unfold zlen in Htag; lia).
  rewrite (gcm_decrypt_final _ _ _ _ _ tag Heng).
  replace (length tag) with (Z.to_nat (aead_tag_length c)) by (unfold zlen in Htag; lia).
  rewrite gcm_tag_is. case_bool_decide as Ht.
  + split; [by right|intros _; by eexists].
  + split; [by intros [? ?]|intros [?|?]; done].
- intros out _ Ha Hd. rewrite Hd in *. injection Ha as <-. rewrite (gcm_encrypt_final _ _ _ _ _ _ Heng).
  apply gcm_tag_is.
Qed.

Lemma checks_chacha_final c text tag :
aead_wf CHACHA_POLY c -> engine_has CHACHA_POLY c text ->
(aead_direction c = false -> zlen tag = aead_tag_length c) ->
checks True (final_ok CHACHA_POLY c text tag) (chacha_stream_final c tag (aead_tag_length c))
  (final_out CHACHA_POLY c text).
Proof.
intros Hwf Heng Htag. pose proof (aw_tag _ _ Hwf) as H16. simpl in H16.
assert (Hexp : chacha_mac (aead_key c) (aead_nonce c) (aead_aad c) (cipher_of CHACHA_POLY c text)
  = expected_tag CHACHA_POLY c text).
{ unfold expected_tag, aead_tag. rewrite cipher_of_plain, H16, take_ge; [done|].
  rewrite chacha_mac_length. lia. }
unfold chacha_stream_final, final_ok, final_out. eapply checks_result; [apply yields_call|done|].
intros computed ->. rewrite (chacha_final _ _ _ _ _ _ Heng), Hexp.
destruct (aead_direction c) eqn:Hd.
- split; [by left|]. intros _. apply take_ge. pose proof (expected_tag_length _ _ text Hwf). unfold zlen in *. lia.
- specialize (Htag eq_refl).
  assert (Hl : length (expected_tag CHACHA_POLY c text) = 16%nat) by (rewrite <- Hexp; apply chacha_mac_length).
  assert (Htl : length tag = 16%nat) by (unfold zlen in Htag; lia).
  destruct (Z.eqb_spec (wc_ChaCha20Poly1305_CheckTag (expected_tag CHACHA_POLY c text) tag) 0) as [Hz|Hz].
  + apply chacha_check_tag in Hz; [|done|done]. simpl. split; [by right|done].
  + simpl. split; [|done]. intros [?|Ht]; [done|]. apply Hz. by apply chacha_check_tag.
Qed.

Lemma checks_ccm_final c text tag :
aead_ready AES_CCM c -> engine_has AES_CCM c text ->
zlen text = aead_plaintext_expected c ->
(aead_direction c = false -> zlen tag = aead_tag_length c) ->
checks True (final_ok AES_CCM c text tag) (ccm_stream_final c tag (aead_tag_length c))
  (final_out AES_CCM c text).
Proof.
intros Hr Heng Hlen Htag. destruct (ready_ccm c Hr) as (_ & Hn & _). pose proof (ar_wf _ _ Hr) as Hwf.
assert (Hexp : take (Z.to_nat (aead_tag_length c))
  (xor_bytes
     (cbc_mac (aead_enc (aead_key c))
        (ccm_mac0 (wc_AesSetKeyDirect (word32_buf (aead_key c))) (aead_nonce c) (aead_aad c)
           (aead_plaintext_expected c) (aead_tag_length c)) (blocks16 (plain_of AES_CCM c text)))
     (aead_enc (aead_key c) (ccm_counter (aead_nonce c) 0))) = expected_tag AES_CCM c text).
{ unfold expected_tag, aead_tag, ccm_tag, ccm_mac0, cbc_mac. rewrite fold_left_app.
  assert (Hp : zlen (plain_of AES_CCM c text) = aead_plaintext_expected c).
  { unfold zlen. by rewrite plain_of_length. }
  by rewrite Hp. }
unfold ccm_stream_final, final_ok, final_out.
eapply checks_result; [eapply (yields_ccm_finish _ (aead_nonce c)); [lia|exact Heng]|done|].
intros computed ->. change (wc_AesEncryptDirect (wc_AesSetKeyDirect (word32_buf (aead_key c)))) with
  (aead_enc (aead_key c)). rewrite Hexp.
destruct (aead_direction c) eqn:Hd; [by split; [left|]|]. specialize (Htag eq_refl).
pose proof (expected_tag_length _ _ text Hwf) as Hl.
destruct (Z.eqb_spec (aead_tag_diff (expected_tag AES_CCM c text) tag (aead_tag_length c)) 0) as [Hz|Hz].
- apply tag_diff_zero in Hz; [|done|done]. simpl. split; [by right|done].
- simpl. split; [|done]. intros [?|Ht]; [done|]. apply Hz. by apply tag_diff_zero.
Qed.

Lemma checks_stream_final a c text tag :
aead_ready a c -> engine_has a c text ->
(a = AES_CCM -> zlen text = aead_plaintext_expected c) ->
(aead_direction c = false -> zlen tag = aead_tag_length c) ->
checks (aead_streams a = true) (final_ok a c text tag)
  (wolfpsa_aead_stream_final c tag (aead_tag_length c)) (final_out a c text).
Proof.
intros Hr Heng Hlen Htag. unfold wolfpsa_aead_stream_final.
destruct (algo_tests _ _ (aw_algo _ _ (ar_wf _ _ Hr))) as (-> & -> & -> & _).
assert (Hcase : forall (b : bool) m, checks True (final_ok a c text tag) m (final_out a c text) ->
  checks (b = true) (final_ok a c text tag) (if b then m else mret (inl PSA_ERROR_NOT_SUPPORTED))
    (final_out a c text)).
{ intros [] m Hm; [by eapply checks_mono|]. by apply checks_refused. }
unfold aead_streams, aead_built. destruct a; simpl; rewrite ?andb_true_r; apply Hcase.
- by apply checks_gcm_final; [apply Hr|..].
- by apply checks_ccm_final; [..|apply Hlen|].
- by apply checks_chacha_final; [apply Hr|..].
Qed.

(** * Buffered text *)

Lemma checks_aes_call {A} (can ok : Prop) (finish : Z -> psa_status_t + A) (P : A -> Prop) :
(forall ret, ret <> 0 -> exists e, finish ret = inl e /\ e <> PSA_SUCCESS) ->
match finish 0 with
| inr b => ok /\ P b
| inl e => ~ ok /\ e = PSA_ERROR_INVALID_SIGNATURE
end ->
checks can ok (aes_call finish) P.
Proof.
intros Hbadret Hzero s Q Hbad Hgood. unfold aes_call, wolfpsa_aes_new.
apply wp_bind, wp_bind, wp_malloc. intros b s1 Hs1 _ _ Hb.
assert (Herr : forall e s', same_ctx s s' -> e <> PSA_SUCCESS -> (smooth s -> False) -> Q (inl e) s').
{ intros e s' Hs He Hno. apply Hbad; [done|done|]. intros Hsm. by destruct (Hno Hsm). }
destruct b; cbn [negb].
2: { apply wp_ret. destruct (Z.eqb_spec MEMORY_E 0) as [Hz|Hz]; cbn [negb].
  - exfalso. pose proof wc_codes_negative as Hneg. unfold wc_codes in Hneg.
    apply Forall_cons in Hneg as [Hm _]. lia.
  - apply wp_ret, Herr; [done|by rewrite wc_error_success|]. intros Hsm. by destruct (Hb Hsm). }
apply wp_pure; [apply pure_wc_call|]. intros r s2 Hr Hs2 _ Hsm2.
assert (Hr0 : smooth s -> r = 0).
{ intros Hsm. destruct (Hb Hsm) as [_ Hsm1]. rewrite wc_call_smooth in Hr by done. by injection Hr. }
assert (H12 : same_ctx s s2) by (by eapply same_ctx_trans).
destruct (Z.eqb_spec r 0) as [->|Hne]; cbn [negb].
2: { apply wp_ret, Herr; [done|by rewrite wc_error_success|]. auto. }
apply wp_bind, wp_pure; [apply pure_wc_call|]. intros r3 s3 Hr3 Hs3 _ Hsm3.
apply wp_bind, wp_pure; [apply pure_wc_then|]. intros r4 s4 Hr4 Hs4 _ Hsm4. apply wp_ret.
assert (H14 : same_ctx s s4) by (by eapply same_ctx_trans; [|eapply same_ctx_trans]).
assert (Hsm02 : smooth s -> smooth s2) by (intros Hsm; by destruct (Hb Hsm); auto).
destruct (Z.eq_dec r4 0) as [->|Hne].
- destruct (finish 0) as [e|x].
  + destruct Hzero as [Hno ->]. by apply Hbad.
  + destruct Hzero. apply Hgood; [done|auto|done|done].
- destruct (Hbadret r4 Hne) as (e & -> & He). apply Herr; [done|done|]. intros Hsm%Hsm02.
  rewrite wc_call_smooth in Hr3 by done. injection Hr3 as <- <-.
  rewrite wc_then_smooth in Hr4 by done. by injection Hr4 as <- _.
Qed.

Lemma answer_failed {A} (x : A) ret :
ret <> 0 -> exists e, aead_answer x ret = inl e /\ e <> PSA_SUCCESS.
Proof.
intros Hr. unfold aead_answer. rewrite (proj2 (Z.eqb_neq ret 0)) by done. simpl.
eexists. split; [done|]. by rewrite wc_error_success.
Qed.

(** ChaCha20-Poly1305 at once takes only the full tag and a key of 32 bytes. *)
Definition can_buffer (a : aead_algo) c : Prop :=
a = CHACHA_POLY -> aead_alg c = PSA_ALG_CHACHA20_POLY1305 /\ zlen (aead_key c) = 32.

Lemma checks_malloc {A} (can ok : Prop) n (m : M (opstate O wolfpsa_aead_ctx) (psa_status_t + A)) (P : A -> Prop) :
checks can ok m P ->
checks can ok (b ← lib (XMALLOC n); if negb b then mret (inl PSA_ERROR_INSUFFICIENT_MEMORY) else m) P.
Proof.
intros Hm s Q Hbad Hgood. apply wp_bind, wp_malloc. intros b s1 Hs1 _ _ Hb.
destruct b; cbn [negb].
- apply Hm.
  + intros e s2 Hs2 He Hno. apply Hbad; [by eapply same_ctx_trans|done|]. intros Hsm. by apply Hno, Hb.
  + intros x s2 Hs2 Hsm2. apply Hgood; [by eapply same_ctx_trans|]. intros Hsm. by apply Hsm2, Hb.
- apply wp_ret, Hbad; [done|done|]. intros Hsm. by destruct (Hb Hsm).
Qed.

Lemma checks_chacha_encrypt key alg nonce aad text size :
fits_word32 (zlen aad) = true -> fits_word32 (zlen text) = true -> zlen nonce = 12 ->
size = zlen text + 16 ->
checks (alg = PSA_ALG_CHACHA20_POLY1305 /\ zlen key = 32) True
  (psa_chacha20_poly1305_encrypt (Bytes key) alg (Bytes nonce) (Bytes aad) (Bytes text) size)
  (fun out => out = aead_crypt CHACHA_POLY key nonce text ++ aead_tag CHACHA_POLY 16 key nonce aad text).
Proof.
intros Haad Htext Hn Hsize. unfold psa_chacha20_poly1305_encrypt. cbn [is_null input_length input_bytes].
rewrite Haad, Htext, Hn, Hsize. apply fits_word32_spec in Htext. cbn [orb negb andb].
unfold CHACHA20_POLY1305_AEAD_KEYSIZE, CHACHA20_POLY1305_AEAD_IV_SIZE, CHACHA20_POLY1305_AEAD_AUTHTAG_SIZE.
destruct (Z.eqb_spec (zlen key) 32) as [Hk|Hk]; cbn [negb].
2: { apply checks_refused; [done|]. by intros [_ ?]. }
destruct (Z.eqb_spec alg PSA_ALG_CHACHA20_POLY1305) as [Ha|Ha]; cbn [negb].
2: { apply checks_refused; [done|]. by intros [? _]. }
rewrite (proj2 (Z.ltb_ge (SIZE_MAX - 16) (zlen text))) by (unfold SIZE_MAX, UINT32_MAX in *; lia).
rewrite Z.ltb_irrefl. cbn [Z.eqb negb Pos.eqb]. rewrite (chacha_encrypt key nonce aad text).
apply checks_yields; [done|]. eapply yields_mono; [apply yields_call|]. intros ? ->.
unfold aead_tag. by rewrite (take_ge (chacha_mac _ _ _ _)) by (rewrite chacha_mac_length; lia).
Qed.

Lemma checks_chacha_decrypt key alg nonce aad ct tag size :
fits_word32 (zlen aad) = true -> fits_word32 (zlen ct) = true -> zlen nonce = 12 ->
zlen tag = 16 -> zlen ct <= size ->
let text := aead_crypt CHACHA_POLY key nonce ct in
checks (alg = PSA_ALG_CHACHA20_POLY1305 /\ zlen key = 32)
  (tag = aead_tag CHACHA_POLY 16 key nonce aad text)
  (r ← psa_chacha20_poly1305_decrypt (Bytes key) alg (Bytes nonce) (Bytes aad) (ct ++ tag) size;
   mret match r with inl _ => inl PSA_ERROR_INVALID_SIGNATURE | inr out => inr out end)
  (fun out => out = text).
Proof.
intros Haad Hct Hn Htag Hsize text. unfold psa_chacha20_poly1305_decrypt.
cbn [is_null input_length input_bytes]. rewrite Haad, Hn, zlen_app, Htag. cbn [orb negb andb].
unfold CHACHA20_POLY1305_AEAD_KEYSIZE, CHACHA20_POLY1305_AEAD_IV_SIZE, CHACHA20_POLY1305_AEAD_AUTHTAG_SIZE.
pose proof (zlen_nonneg ct) as Hpos.
replace (zlen ct + 16 - 16) with (zlen ct) by lia. rewrite Hct.
rewrite (proj2 (Z.ltb_ge (zlen ct + 16) 16)), (proj2 (Z.ltb_ge size (zlen ct))) by lia. cbv zeta.
assert (Hrefuse : forall (e : psa_status_t) (can : Prop), (can -> False) ->
  checks can (tag = aead_tag CHACHA_POLY 16 key nonce aad text)
    (r ← mret (inl e : psa_status_t + list byte);
     mret match r with inl _ => inl PSA_ERROR_INVALID_SIGNATURE | inr out => inr out end)
    (fun out => out = text)).
{ intros e can Hno s Q Hbad _. apply wp_bind, wp_ret, wp_ret, Hbad; [done|done|]. intros _ Hc. by destruct (Hno Hc). }
destruct (Z.eqb_spec (zlen key) 32) as [Hk|Hk]; cbn [negb]; [|apply Hrefuse; by intros [_ ?]].
destruct (Z.eqb_spec alg PSA_ALG_CHACHA20_POLY1305) as [Ha|Ha]; cbn [negb]; [|apply Hrefuse; by intros [? _]].
cbn [Z.eqb negb Pos.eqb]. unfold zlen. rewrite Nat2Z.id, take_app_length, drop_app_length.
rewrite chacha_decrypt. change (stream_xor (chacha_stream key nonce) 0 ct) with text.
assert (Hmac : aead_tag CHACHA_POLY 16 key nonce aad text = chacha_mac key nonce aad ct).
{ unfold aead_tag, text. rewrite aead_crypt_involutive. apply take_ge. rewrite chacha_mac_length. lia. }
intros s Q Hbad Hgood. apply wp_bind, wp_bind, wp_pure; [apply pure_wc_call|]. intros r s1 Hr Hs1 _ Hsm1.
apply wp_ret, wp_ret. destruct (Z.eqb_spec r 0) as [->|Hr0]; cbn [negb].
- rewrite <- Hmac. case_bool_decide as Ht; [by apply Hgood|by apply Hbad].
- apply Hbad; [done|done|]. intros Hsm. rewrite wc_call_smooth in Hr by done. by injection Hr as <- _.
Qed.

Lemma zlen_aad_fits a c : aead_wf a c -> fits_word32 (zlen (aead_aad c)) = true.
Proof. intros Hwf. by apply fits_word32_spec, (aw_aad a). Qed.

Lemma checks_encrypt_buffered a c :
aead_ready a c -> aead_direction c = true -> fits_word32 (zlen (aead_input c)) = true ->
checks (can_buffer a c) True (aead_encrypt_buffered c)
  (fun r => r = aead_seal a (aead_tag_length c) (aead_key c) (aead_nonce c) (aead_aad c) (aead_input c)).
Proof.
intros Hr Hd Hfit. pose proof (ar_wf _ _ Hr) as Hwf. unfold aead_encrypt_buffered, can_buffer.
destruct (algo_tests _ _ (aw_algo _ _ Hwf)) as (-> & -> & -> & _).
pose proof (aw_built _ _ Hwf) as Hb. pose proof (aw_tag _ _ Hwf) as Ht. unfold aead_built in Hb.
unfold tag_bounds in Ht.
destruct a; simpl; rewrite Hb; cbn [negb].
- apply checks_aes_call; [apply answer_failed|]. split; [done|]. apply gcm_encrypt.
- rewrite (proj2 (Z.eqb_eq _ _) (proj2 (ccm_check_tag _) Ht)). cbn [negb].
  apply checks_aes_call; [apply answer_failed|]. split; [done|]. apply ccm_encrypt.
- apply checks_malloc. pose proof (ready_bounds _ _ Hr) as Hn. unfold nonce_bounds in Hn. rewrite Ht.
  eapply (checks_mono (aead_alg c = PSA_ALG_CHACHA20_POLY1305 /\ zlen (aead_key c) = 32) _ True True
            _ (fun r => r = _)); [|by auto|done|by intros].
  eapply checks_last; [apply checks_chacha_encrypt; eauto using zlen_aad_fits; lia|..].
  + intros e He. eexists. by split_and!.
  + intros out _ ->. set (ct := aead_crypt _ _ _ _).
    assert (Hl : zlen ct = zlen (aead_input c)) by (unfold zlen, ct; by rewrite aead_crypt_length).
    assert (Htl : zlen (aead_tag CHACHA_POLY 16 (aead_key c) (aead_nonce c) (aead_aad c) (aead_input c)) = 16)
      by (apply aead_tag_length_eq; lia).
    rewrite zlen_app, Hl, Htl, Z.ltb_irrefl. split; [done|].
    replace (length (aead_input c)) with (length ct) by (unfold zlen in Hl; lia).
    rewrite take_app_length, drop_app_length, take_ge; [done|]. unfold zlen in Htl. lia.
Qed.

Lemma checks_decrypt_buffered a c tag size :
aead_ready a c -> aead_direction c = false -> fits_word32 (zlen (aead_input c)) = true ->
zlen tag = aead_tag_length c -> zlen (aead_input c) <= size ->
checks (can_buffer a c) (tag = expected_tag a c (aead_input c)) (aead_decrypt_buffered c tag size)
  (fun r => r = plain_of a c (aead_input c)).
Proof.
intros Hr Hd Hfit Htl Hsize. pose proof (ar_wf _ _ Hr) as Hwf. unfold aead_decrypt_buffered, can_buffer.
destruct (algo_tests _ _ (aw_algo _ _ Hwf)) as (-> & -> & -> & _).
pose proof (aw_built _ _ Hwf) as Hb. pose proof (aw_tag _ _ Hwf) as Ht. unfold aead_built in Hb.
unfold tag_bounds in Ht. unfold expected_tag, plain_of. rewrite Hd.
destruct a; simpl; rewrite Hb; cbn [negb].
- apply checks_aes_call; [apply auth_answer_failed|]. rewrite auth_answer_zero, gcm_decrypt.
  rewrite aead_crypt_involutive. unfold zlen in Htl.
  replace (length tag) with (Z.to_nat (aead_tag_length c)) by lia. by case_bool_decide.
- rewrite Htl, (proj2 (Z.eqb_eq _ _) (proj2 (ccm_check_tag _) Ht)). cbn [negb].
  apply checks_aes_call; [apply auth_answer_failed|]. rewrite auth_answer_zero, ccm_decrypt, Htl.
  by case_bool_decide.
- pose proof (ready_bounds _ _ Hr) as Hn. unfold nonce_bounds in Hn. rewrite Ht in *.
  apply fits_word32_spec in Hfit as Hle.
  rewrite (proj2 (Z.ltb_ge (SIZE_MAX - zlen tag) (zlen (aead_input c))))
    by (unfold SIZE_MAX, UINT32_MAX in *; lia).
  apply checks_malloc.
  eapply (checks_mono (aead_alg c = PSA_ALG_CHACHA20_POLY1305 /\ zlen (aead_key c) = 32));
    [apply checks_chacha_decrypt; eauto using zlen_aad_fits|by auto|done|done].
Qed.

(** * Contexts and their text *)

(** The operation has taken [text]. *)
Record aead_has (a : aead_algo) c (text : list byte) : Prop := {
ah_wf : aead_wf a c;
ah_length : aead_input_length c = to_size (zlen text);
ah_expected : aead_lengths_set c = true -> zlen text <= aead_plaintext_expected c;
ah_buffer : aead_input c = (if aead_streaming c then [] else text);
ah_room : aead_streaming c = false -> zlen text <= SIZE_MAX;
ah_engine : aead_streaming c = true -> aead_ready a c /\ engine_has a c text;
ah_body : aead_body_started c = false -> text = [] /\ aead_streaming c = false }.

Lemma has_exact a c text :
aead_has a c text -> aead_lengths_set c = true \/ aead_streaming c = false ->
aead_input_length c = zlen text.
Proof.
intros H Hor. rewrite (ah_length _ _ _ H). apply to_size_small. pose proof (zlen_nonneg text).
destruct Hor as [Hl|Hs].
- pose proof (ah_expected _ _ _ H Hl). destruct (aw_lengths _ _ (ah_wf _ _ _ H) Hl) as (? & _). lia.
- pose proof (ah_room _ _ _ H Hs). lia.
Qed.

(** The lengths are the declared ones. *)
Definition lengths_met c (text : list byte) : Prop :=
aead_lengths_set c = true ->
zlen (aead_aad c) = aead_ad_expected c /\ zlen text = aead_plaintext_expected c.

Lemma lengths_wrong_spec a c text :
aead_has a c text -> aead_lengths_wrong c = false <-> lengths_met c text.
Proof.
intros H. unfold aead_lengths_wrong, lengths_met. destruct (aead_lengths_set c) eqn:Hl; simpl; [|done].
rewrite (has_exact _ _ _ H) by (by left).
rewrite orb_false_iff, !negb_false_iff, !Z.eqb_eq. tauto.
Qed.

Lemma ready_spec c a :
aead_wf a c ->
(zlen (aead_nonce c) =? 0) || wolfpsa_aead_lengths_missing c = false <-> aead_ready a c.
Proof.
intros Hwf. rewrite orb_false_iff, Z.eqb_neq. split.
- intros [Hn Hl]. split; [done| |done]. intros Hz. by rewrite Hz in Hn.
- intros [_ Hn Hl]. split; [|done]. by intros Hz%zlen_0_nil.
Qed.

(** * The end of an operation *)

(** A check that refuses. *)
Lemma checks_guard {A} (can ok : Prop) (b : bool) e (m : M (opstate O wolfpsa_aead_ctx) (psa_status_t + A))
(P : A -> Prop) :
e <> PSA_SUCCESS -> (can -> b = false) -> (b = false -> checks can ok m P) ->
checks can ok (if b then mret (inl e) else m) P.
Proof.
intros He Hcan Hm. destruct b; [|by apply Hm]. apply checks_refused; [done|]. intros Hc%Hcan. done.
Qed.

(** What a finish needs: pointers, lengths and room. *)
Definition finish_can (a : aead_algo) c (text : list byte) (ciphertext : bool) (ciphertext_size : Z)
  (ciphertext_length : bool) (tag : bool) (tag_size : Z) (tag_length : bool) : Prop :=
ciphertext_length = true /\ tag_length = true /\ tag = true /\
(ciphertext = true \/ ciphertext_size = 0) /\
aead_ready a c /\ lengths_met c text /\ aead_tag_length c <= tag_size /\
if aead_streaming c then aead_streams a = true
else zlen text <= ciphertext_size /\ zlen text <= UINT32_MAX /\ can_buffer a c.

Lemma checks_encrypt_final a c text ciphertext ciphertext_size ciphertext_length tag tag_size tag_length :
aead_has a c text -> aead_direction c = true ->
checks (finish_can a c text ciphertext ciphertext_size ciphertext_length tag tag_size tag_length) True
  (wolfpsa_aead_encrypt_final c ciphertext ciphertext_size ciphertext_length tag tag_size tag_length)
  (fun r => aead_ready a c /\ lengths_met c text /\ aead_tag_length c <= tag_size /\
     (aead_streaming c = false -> zlen text <= ciphertext_size) /\
     r = (if aead_streaming c then [] else cipher_of a c text, expected_tag a c text)).
Proof.
intros H Hd. pose proof (ah_wf _ _ _ H) as Hwf. pose proof (tag_bounds_16 _ _ (aw_tag _ _ Hwf)) as H16.
unfold wolfpsa_aead_encrypt_final, finish_can.
apply checks_guard; [done|by intros (-> & -> & -> & _)|]. intros _.
apply checks_guard; [done|by intros (_ & _ & _ & [-> | ->] & _); rewrite ?andb_false_r|]. intros _.
apply checks_guard; [done|intros (_ & _ & _ & _ & Hr & _); by apply (ready_spec c a)|]. intros Hr%(ready_spec c a); [|done].
destruct (aead_streaming c) eqn:Hs.
- apply checks_guard; [done|intros (_ & _ & _ & _ & _ & Hl & _); by apply (lengths_wrong_spec a c text)|].
  intros Hl%(lengths_wrong_spec a c text); [|done].
  apply checks_guard; [done|intros Hc; apply Z.ltb_ge; tauto|]. intros Hts%Z.ltb_ge.
  destruct (ah_engine _ _ _ H Hs) as [_ Heng].
  apply (checks_last _ True True _ _ (fun out => out = expected_tag a c text)).
  + eapply checks_mono; [apply (checks_stream_final a c text [] Hr Heng)| | |].
    * intros ->. apply Hl. by apply (ready_ccm c Hr).
    * congruence.
    * tauto.
    * split; [done|]. intros _. by left.
    * intros out _ Hout. exact (Hout Hd).
  + intros e He. eexists. by split_and!.
  + cbv beta. intros out _ ->. by split_and!.
- apply checks_guard; [done|intros (_ & _ & _ & _ & _ & Hl & _); by apply (lengths_wrong_spec a c text)|].
  intros Hl%(lengths_wrong_spec a c text); [|done].
  pose proof (has_exact _ _ _ H (or_intror Hs)) as Hlen. pose proof (ah_buffer _ _ _ H) as Hbuf.
  rewrite Hs in Hbuf. rewrite Hlen.
  apply checks_guard; [done| |intros _].
  { intros Hc. apply andb_false_iff. right. apply Z.ltb_ge. unfold SIZE_MAX, UINT32_MAX in *. lia. }
  apply checks_guard; [done|intros Hc; apply Z.ltb_ge; tauto|]. intros Hcs%Z.ltb_ge.
  apply checks_guard; [done|intros Hc; apply Z.ltb_ge; tauto|]. intros Hts%Z.ltb_ge.
  apply checks_guard; [done| |].
  { intros Hc. rewrite (zlen_aad_fits a c Hwf), (proj2 (fits_word32_spec (zlen text))) by tauto. done. }
  intros [Hfit%negb_false_iff _]%orb_false_iff.
  eapply checks_mono; [apply (checks_encrypt_buffered a c Hr Hd)|tauto|done|].
  + by rewrite Hbuf.
  + cbv beta. intros r _ ->. rewrite Hbuf. unfold expected_tag, plain_of, cipher_of. rewrite Hd. by split_and!.
Qed.

(** What a verification needs, but for the right tag. *)
Definition verify_can (a : aead_algo) c (text : list byte) (plaintext : bool) (plaintext_size : Z)
  (plaintext_length : bool) (tag : input) : Prop :=
plaintext_length = true /\ (is_null tag = true -> input_length tag = 0) /\
(plaintext = true \/ plaintext_size = 0) /\ aead_ready a c /\ lengths_met c text /\
if aead_streaming c then aead_streams a = true
else zlen text <= plaintext_size /\ zlen text <= UINT32_MAX /\ can_buffer a c.

Lemma checks_wrong_length {A} (can : Prop) (a : aead_algo) c text tag
(m : M (opstate O wolfpsa_aead_ctx) (psa_status_t + A)) (P : A -> Prop) :
aead_wf a c ->
(input_length tag = aead_tag_length c -> is_null tag = false -> zlen (input_bytes tag) = aead_tag_length c ->
 checks can (input_bytes tag = expected_tag a c text) m P) ->
(is_null tag && negb (input_length tag =? 0) = false) ->
checks can (input_bytes tag = expected_tag a c text)
  (if negb (input_length tag =? aead_tag_length c) then mret (inl PSA_ERROR_INVALID_SIGNATURE) else m) P.
Proof.
intros Hwf Hm Hnull. pose proof (tag_bounds_16 _ _ (aw_tag _ _ Hwf)) as H16.
pose proof (expected_tag_length a c text Hwf) as Hl.
destruct (Z.eqb_spec (input_length tag) (aead_tag_length c)) as [Hlen|Hlen]; cbn [negb].
- destruct tag as [n|l]; simpl in *; [|by apply Hm].
  apply negb_false_iff, Z.eqb_eq in Hnull. lia.
- apply checks_refused; [done|]. intros _. split; [|done]. intros Ht.
  destruct tag as [n|l]; simpl in *.
  + rewrite <- Ht in Hl. change (zlen (@nil byte)) with 0 in Hl. lia.
  + by rewrite Ht, Hl in Hlen.
Qed.

Lemma checks_decrypt_final a c text plaintext plaintext_size plaintext_length tag :
aead_has a c text -> aead_direction c = false ->
checks (verify_can a c text plaintext plaintext_size plaintext_length tag)
  (input_bytes tag = expected_tag a c text)
  (wolfpsa_aead_decrypt_final c plaintext plaintext_size plaintext_length tag)
  (fun r => aead_ready a c /\ lengths_met c text /\
     (aead_streaming c = false -> zlen text <= plaintext_size) /\
     r = if aead_streaming c then [] else plain_of a c text).
Proof.
intros H Hd. pose proof (ah_wf _ _ _ H) as Hwf. unfold wolfpsa_aead_decrypt_final, verify_can.
apply checks_guard; [done| |].
{ intros (-> & Hn & _). simpl. destruct (is_null tag); [|done]. by rewrite Hn. }
intros [_ Hnull]%orb_false_iff.
apply checks_guard; [done|by intros (_ & _ & [-> | ->] & _); rewrite ?andb_false_r|]. intros _.
apply checks_guard; [done|intros (_ & _ & _ & Hr & _); by apply (ready_spec c a)|]. intros Hr%(ready_spec c a); [|done].
destruct (aead_streaming c) eqn:Hs.
- apply checks_guard; [done|intros (_ & _ & _ & _ & Hl & _); by apply (lengths_wrong_spec a c text)|].
  intros Hl%(lengths_wrong_spec a c text); [|done].
  apply checks_wrong_length; [done| |done]. intros _ _ Htl.
  destruct (ah_engine _ _ _ H Hs) as [_ Heng].
  apply (checks_last _ (input_bytes tag = expected_tag a c text) _ _ _ (fun _ => True)).
  + eapply checks_mono with (P := final_out a c text) (P' := fun _ => True);
      [apply checks_stream_final|tauto| |done].
    * done.
    * done.
    * intros ->. apply Hl. by apply (ready_ccm c Hr).
    * done.
    * unfold final_ok. rewrite Hd. split; [by intros [?|?]|by right].
  + intros e He. eexists. by split_and!.
  + cbv beta. intros out Ht _. by split_and!.
- apply checks_guard; [done|intros (_ & _ & _ & _ & Hl & _); by apply (lengths_wrong_spec a c text)|].
  intros Hl%(lengths_wrong_spec a c text); [|done].
  pose proof (has_exact _ _ _ H (or_intror Hs)) as Hlen. pose proof (ah_buffer _ _ _ H) as Hbuf.
  rewrite Hs in Hbuf. rewrite Hlen.
  apply checks_wrong_length; [done| |done]. intros _ _ Htl.
  apply checks_guard; [done|intros Hc; apply Z.ltb_ge; tauto|]. intros Hps%Z.ltb_ge.
  apply checks_guard; [done| |].
  { intros Hc. rewrite (zlen_aad_fits a c Hwf), (proj2 (fits_word32_spec (zlen text))) by tauto. done. }
  intros [Hfit%negb_false_iff _]%orb_false_iff. rewrite <- Hbuf in *.
  eapply checks_mono; [by apply (checks_decrypt_buffered a c)|tauto|done|].
  cbv beta. intros r _ ->. by split_and!.
Qed.
End AeadFinal.
