(* ===== verification/AeadOps.v ===== *)
(** The calls of an authenticated encryption, one by one: what each does with the
    context, and when it fails. *)

From stdpp Require Import base decidable list.
From Stdlib Require Import ZArith Lia.
From Stdlib Require Import Strings.Byte.
From S2P Require Import Prelude.
From S2P Require Import Values.
From S2P Require Import Engine.
From S2P Require Import WolfCrypt.
From S2P Require Import KeyPolicy.
From S2P Require Import KeyFormat.
From S2P Require Import StoreIface.
From S2P Require Import Library.
From S2P Require Import KeyStore.
From S2P Require Import KeyStoreRules.
From S2P Require Import Operation.
From S2P Require Import Ccm.
From S2P Require Import CcmSpec.
From S2P Require Import WolfAead.
From S2P Require Import Aead.
From S2P Require Import AeadRules.
From S2P Require Import AeadFinal.

#[local] Open Scope Z_scope.

Section AeadOps.
Context {C : Config} {E : WolfCryptErr} {EO : WolfCryptErrOk E} {K : WolfCryptKeys}.
Context {R : WolfCryptRng} {O : StoreOps} {B : KeyBackend}.
Context {W : WolfCryptAead} {D : WolfCryptAesDirect}.
Context {WO : WolfCryptAeadOk W D} {DO : WolfCryptAesDirectOk D}.

Implicit Types c : wolfpsa_aead_ctx.
Implicit Types s : opstate O wolfpsa_aead_ctx.


(** * Setup *)

(** The key is there, and may be used so. *)
Definition aead_key_usable (key alg usage : Z) s (attributes : psa_key_attributes_t)
  (key_data : list byte) : Prop :=
exists a d, (wolfpsa_get_key_data key (Some PSA_KEY_ATTRIBUTES_INIT) (op_lib s)).1 = (PSA_SUCCESS, a, d) /\
  attributes = default PSA_KEY_ATTRIBUTES_INIT a /\ key_data = default [] d /\
  aead_key_checks usage alg attributes = PSA_SUCCESS.

(** Nothing stands in the way of a setup. *)
Definition aead_setup_feasible (key alg usage : Z) (multipart : bool) s : Prop :=
aead_alg_check alg multipart = PSA_SUCCESS /\
aead_tag_check alg (wolfpsa_aead_tag_length alg) = PSA_SUCCESS /\ op_rets s = [] /\
exists a d k, wolfpsa_get_key_data key (Some PSA_KEY_ATTRIBUTES_INIT) (op_lib s) = ((PSA_SUCCESS, a, d), k) /\
  mem_ok k /\ aead_key_checks usage alg (default PSA_KEY_ATTRIBUTES_INIT a) = PSA_SUCCESS.

Lemma aead_usable_unique key alg usage s a d a' d' :
aead_key_usable key alg usage s a d -> aead_key_usable key alg usage s a' d' -> a' = a /\ d' = d.
Proof.
intros (x & y & Hg & -> & -> & _) (x' & y' & Hg' & -> & -> & _). rewrite Hg in Hg'. by injection Hg' as <- <-.
Qed.

(** The full tag makes the algorithm the plain one. *)
Lemma full_tag_alg alg ref :
aead_base alg = ref -> Z.land alg PSA_ALG_AEAD_AT_LEAST_THIS_LENGTH_FLAG = 0 ->
alg = Z.lor ref (Z.shiftl (wolfpsa_aead_tag_length alg) 16).
Proof.
intros <- Hflag. unfold aead_base, wolfpsa_aead_tag_length, PSA_ALG_AEAD_GET_TAG_LENGTH.
change PSA_AEAD_TAG_LENGTH_OFFSET with 16. apply Z.bits_inj'. intros i Hi.
rewrite Z.lor_spec, Z.land_spec, Z.lnot_spec, Z.lor_spec, Z.shiftl_spec by done.
assert (Hf : Z.testbit alg i && Z.testbit PSA_ALG_AEAD_AT_LEAST_THIS_LENGTH_FLAG i = false).
{ by rewrite <- Z.land_spec, Hflag, Z.bits_0. }
assert (Hm : Z.testbit PSA_ALG_AEAD_TAG_LENGTH_MASK i = (16 <=? i) && Z.testbit 63 (i - 16)).
{ change PSA_ALG_AEAD_TAG_LENGTH_MASK with (Z.shiftl 63 16). rewrite Z.shiftl_spec by done.
  destruct (Z.leb_spec 16 i); [done|]. by rewrite Z.testbit_neg_r by lia. }
destruct (Z.leb_spec 16 i) as [Hle|Hlt]; simpl in Hm.
- rewrite Z.shiftr_spec by lia. replace (i - 16 + 16) with i by lia. rewrite Z.land_spec.
  by destruct (Z.testbit alg i), (Z.testbit PSA_ALG_AEAD_TAG_LENGTH_MASK i),
    (Z.testbit PSA_ALG_AEAD_AT_LEAST_THIS_LENGTH_FLAG i).
- rewrite Hm, (Z.testbit_neg_r _ (i - 16)) by lia.
  by destruct (Z.testbit alg i), (Z.testbit PSA_ALG_AEAD_AT_LEAST_THIS_LENGTH_FLAG i).
Qed.

(** A live operation of a checked key. *)
Record aead_live (key alg usage : Z) (multipart : bool) s0 (a : psa_key_attributes_t)
  (key_data : list byte) c : Prop := {
al_key : aead_key_usable key alg usage s0 a key_data;
al_alg : aead_alg c = alg;
al_type : aead_key_type c = attr_type a;
al_data : aead_key c = key_data;
al_tag : aead_tag_length c = wolfpsa_aead_tag_length alg;
al_dir : aead_direction c = (usage =? PSA_KEY_USAGE_ENCRYPT);
al_streams : forall m, aead_algo_of alg = Some m -> multipart = true -> aead_streams m = true;
al_plain : aead_algo_of alg = Some CHACHA_POLY -> alg = PSA_ALG_CHACHA20_POLY1305 }.

Lemma aead_live_shape key alg usage multipart s0 a key_data c c' :
aead_alg c' = aead_alg c -> aead_key_type c' = aead_key_type c -> aead_key c' = aead_key c ->
aead_tag_length c' = aead_tag_length c -> aead_direction c' = aead_direction c ->
aead_live key alg usage multipart s0 a key_data c -> aead_live key alg usage multipart s0 a key_data c'.
Proof. intros H1 H2 H3 H4 H5 []. split; try done; congruence. Qed.

(** A fresh context. *)
Lemma initial_has usage alg attributes key_data m :
aead_algo_of alg = Some m -> aead_built m = true -> tag_bounds m (wolfpsa_aead_tag_length alg) ->
aead_has m (aead_initial usage alg attributes key_data) [].
Proof. intros. split; try done. split; try done. by left. Qed.

Lemma wp_aead_setup key alg usage multipart s (Q : psa_status_t -> opstate O wolfpsa_aead_ctx -> Prop) :
op_ctx s = None ->
(forall e s', op_ctx s' = None -> e <> PSA_SUCCESS ->
   (aead_setup_feasible key alg usage multipart s -> False) -> Q e s') ->
(forall a key_data m s', let c := aead_initial usage alg a key_data in
   op_ctx s' = Some c -> aead_live key alg usage multipart s a key_data c ->
   aead_algo_of alg = Some m -> aead_has m c [] ->
   (aead_setup_feasible key alg usage multipart s -> smooth s') -> Q PSA_SUCCESS s') ->
wp (wolfpsa_aead_setup key alg usage multipart) Q s.
Proof.
intros Hc Hbad Hgood. unfold wolfpsa_aead_setup. apply wp_bind. unfold get_ctx. apply wp_gets. rewrite Hc.
destruct (aead_alg_check alg multipart) eqn:Halg;
  try by (apply wp_ret, Hbad; [done|done|intros [? _]; congruence]).
apply wp_bind, wp_lib. unfold wolfpsa_aead_check_key. apply wp_bind. unfold wp at 1.
destruct (wolfpsa_get_key_data key (Some PSA_KEY_ATTRIBUTES_INIT) (op_lib s)) as [[[st a] d] k] eqn:Hget.
cbn [fst snd]. apply wp_ret. set (at_ := default PSA_KEY_ATTRIBUTES_INIT a). set (kd := default [] d).
assert (Hfe : aead_setup_feasible key alg usage multipart s -> st = PSA_SUCCESS /\ smooth (with_lib k s) /\
  aead_key_checks usage alg at_ = PSA_SUCCESS /\
  aead_tag_check alg (wolfpsa_aead_tag_length alg) = PSA_SUCCESS).
{ intros (_ & Ht & Hr & a' & d' & k' & Hg & Hm & Hk). rewrite Hget in Hg. by injection Hg as -> <- <- <-. }
destruct st; try by (apply wp_ret, Hbad; [done|done|intros Hf; by apply Hfe in Hf as [? _]]).
destruct (aead_key_checks usage alg at_) eqn:Hchk;
  try by (apply wp_ret, Hbad; [done|done|intros Hf; apply Hfe in Hf as (_ & _ & Hk & _); congruence]).
apply wp_bind, wp_malloc. intros ok s1 Hs1 _ _ Hok.
destruct ok; cbn [negb].
2: { apply wp_ret, Hbad; [by rewrite Hs1|done|]. intros Hf. apply Hfe in Hf as (_ & Hsm & _).
  by destruct (Hok Hsm). }
destruct (aead_tag_check alg (wolfpsa_aead_tag_length alg)) eqn:Htag;
  try by (apply wp_ret, Hbad; [by rewrite Hs1|done|intros Hf; apply Hfe in Hf as (_ & _ & _ & Hk); congruence]).
apply wp_bind, wp_malloc. intros ok s2 Hs2 _ _ Hok2.
assert (Hsm2 : aead_setup_feasible key alg usage multipart s -> ok = true /\ smooth s2).
{ intros Hf. apply Hfe in Hf as (_ & Hsm & _). by apply Hok2, Hok. }
destruct ok; cbn [negb].
2: { apply wp_ret, Hbad; [by rewrite Hs2, Hs1|done|]. intros Hf. by destruct (Hsm2 Hf). }
destruct (alg_check_algo _ _ _ _ Halg Hchk) as (m & Hm & Hb & Hst).
pose proof (tag_check_bounds _ _ _ Hm Hb Htag) as Hbounds.
unfold set_ctx. wp_seq. apply (Hgood at_ kd m); [done| |done|by apply initial_has|].
- split; try done.
  + exists a, d. by rewrite Hget.
  + intros m' Hm'. rewrite Hm in Hm'. by injection Hm' as <-.
  + intros Hcc. rewrite Hm in Hcc. injection Hcc as ->. simpl in Hbounds.
    rewrite (full_tag_alg alg (aead_base PSA_ALG_CHACHA20_POLY1305)), Hbounds; [done|..].
    * destruct (algo_tests _ _ Hm) as (_ & _ & H3 & _). rewrite aead_equal_base in H3.
      by apply Z.eqb_eq.
    * unfold aead_alg_check in Halg. destruct (negb (PSA_ALG_IS_AEAD alg) || _); [done|].
      by destruct (Z.eqb_spec (Z.land alg PSA_ALG_AEAD_AT_LEAST_THIS_LENGTH_FLAG) 0).
- intros Hf. by destruct (Hsm2 Hf).
Qed.

(** * Lengths and nonce *)

Definition lengths_can c (ad plaintext : Z) : Prop :=
aead_lengths_set c = false /\ aead_ad_started c = false /\ aead_body_started c = false /\
wolfpsa_aead_check_lengths (aead_alg c) (zlen (aead_nonce c)) ad plaintext = PSA_SUCCESS.

(** A text of a checked length has a length field. *)
Lemma check_lengths_ccm alg n ad plaintext :
aead_algo_of alg = Some AES_CCM -> 7 <= n <= 13 -> 0 <= plaintext <= SIZE_MAX ->
wolfpsa_aead_check_lengths alg n ad plaintext = PSA_SUCCESS -> plaintext < 256 ^ (15 - n).
Proof.
intros Ha Hn Hp Hc. destruct (algo_tests _ _ Ha) as (_ & H2 & _). unfold wolfpsa_aead_check_lengths in Hc.
rewrite H2 in Hc. change (bool_decide (AES_CCM = AES_CCM)) with true in Hc.
rewrite (proj2 (Z.eqb_neq n 0)) in Hc by lia. cbn [negb andb] in Hc.
assert (H256 : 256 ^ (15 - n) = 2 ^ (8 * (15 - n))) by (rewrite Z.pow_mul_r by lia; done). rewrite H256.
destruct (Z.ltb_spec (15 - n) 8) as [Hlt|Hge].
- cbn [andb] in Hc. destruct (Z.eqb_spec (Z.shiftr plaintext (8 * (15 - n))) 0) as [Hz|]; [|done].
  rewrite Z.shiftr_div_pow2 in Hz by lia. apply Z.div_small_iff in Hz; lia.
- assert (n = 7) as -> by lia. unfold SIZE_MAX in Hp. simpl. lia.
Qed.

Lemma has_with_lengths a c text ad plaintext :
aead_has a c text -> lengths_can c ad plaintext -> 0 <= ad -> 0 <= plaintext <= SIZE_MAX ->
aead_has a (aead_with_lengths ad plaintext c) text.
Proof.
intros [[] H2 H3 H4 H5 H6 H7] (Hl & Hs & Hb & Hc) Had Hp. destruct (H7 Hb) as [-> Hst].
split; simpl; try done.
- split; simpl; try done. intros _. split; [done|]. rewrite aw_started by done.
  split; [done|]. intros -> Hn. eapply check_lengths_ccm; [done| |done|done].
  by destruct aw_nonce as [?|?].
- intros _. change (zlen (@nil byte)) with 0. lia.
- congruence.
Qed.

Lemma wp_set_lengths a c text ad plaintext s (Q : psa_status_t -> opstate O wolfpsa_aead_ctx -> Prop) :
op_ctx s = Some c -> aead_has a c text -> 0 <= ad -> 0 <= plaintext <= SIZE_MAX ->
(forall e s', op_ctx s' = None -> e <> PSA_SUCCESS -> (lengths_can c ad plaintext -> False) -> Q e s') ->
(forall s', let c' := aead_with_lengths ad plaintext c in
   op_ctx s' = Some c' -> (smooth s -> smooth s') -> lengths_can c ad plaintext -> aead_has a c' text ->
   Q PSA_SUCCESS s') ->
wp (psa_aead_set_lengths ad plaintext) Q s.
Proof.
intros Hc H Had Hp Hbad Hgood. unfold psa_aead_set_lengths. apply wp_bind. unfold get_ctx. apply wp_gets.
rewrite Hc. cbv zeta.
assert (Hfail : forall e, e <> PSA_SUCCESS -> (lengths_can c ad plaintext -> False) -> wp (aead_fail e) Q s).
{ intros e He Hno. unfold aead_fail, psa_aead_abort, set_ctx. wp_seq. by apply Hbad. }
destruct (aead_lengths_set c || aead_ad_started c || aead_body_started c) eqn:Hflags.
{ apply Hfail; [done|]. intros (H1 & H2 & H3 & _). by rewrite H1, H2, H3 in Hflags. }
apply orb_false_iff in Hflags as [[H1 H2]%orb_false_iff H3].
destruct (wolfpsa_aead_check_lengths _ _ _ _) eqn:Hchk;
  try (apply Hfail; [done|]; intros (_ & _ & _ & Hk); rewrite Hchk in Hk; done).
assert (Hcan : lengths_can c ad plaintext) by done.
unfold set_ctx. wp_seq. apply Hgood; [done|done|done|]. by apply has_with_lengths.
Qed.

Definition nonce_can c (nonce : list byte) : Prop :=
aead_nonce c = [] /\ aead_nonce_check c (zlen nonce) = PSA_SUCCESS /\
(aead_lengths_set c = true ->
 wolfpsa_aead_check_lengths (aead_alg c) (zlen nonce) (aead_ad_expected c) (aead_plaintext_expected c)
   = PSA_SUCCESS).

Lemma has_with_nonce a c text nonce :
aead_has a c text -> nonce_can c nonce -> aead_has a (aead_with_nonce nonce c) text.
Proof.
intros [Hwf H2 H3 H4 H5 H6 H7] (Hn & Hchk & Hl).
pose proof (nonce_check_bounds _ _ _ (aw_algo _ _ Hwf) Hchk) as Hb. destruct Hwf.
assert (Hst : aead_streaming c = false).
{ destruct (aead_streaming c); [|done]. destruct (H6 eq_refl) as [[_ Hne _] _]. done. }
split; simpl; try done; [|by rewrite Hst].
split; simpl; try done; [by right|]. intros Hset. destruct (aw_lengths Hset) as (? & ? & _).
split; [done|]. split; [done|]. intros -> _. by eapply check_lengths_ccm; [..|apply Hl].
Qed.

Lemma wp_set_nonce a c text nonce s (Q : psa_status_t -> opstate O wolfpsa_aead_ctx -> Prop) :
op_ctx s = Some c -> aead_has a c text ->
(forall e, e <> PSA_SUCCESS -> (is_null nonce = false -> nonce_can c (input_bytes nonce) -> False) -> Q e s) ->
(forall s', let c' := aead_with_nonce (input_bytes nonce) c in
   op_ctx s' = Some c' -> (smooth s -> smooth s') -> is_null nonce = false ->
   nonce_can c (input_bytes nonce) -> aead_has a c' text -> Q PSA_SUCCESS s') ->
wp (psa_aead_set_nonce nonce) Q s.
Proof.
intros Hc H Hbad Hgood. unfold psa_aead_set_nonce. apply wp_bind. unfold get_ctx. apply wp_gets. rewrite Hc.
destruct nonce as [n|nonce]; cbn [is_null input_length input_bytes] in *; [by apply wp_ret, Hbad|].
destruct (Z.eqb_spec (zlen (aead_nonce c)) 0) as [Hz|Hz]; cbn [negb].
2: { apply wp_ret, Hbad; [done|]. intros _ (Hn & _). by rewrite Hn in Hz. }
apply zlen_0_nil in Hz.
destruct (aead_nonce_check c (zlen nonce)) eqn:Hchk;
  try (apply wp_ret, Hbad; [done|]; intros _ (_ & Hk & _); congruence).
assert (Hl : match (if aead_lengths_set c
                    then wolfpsa_aead_check_lengths (aead_alg c) (zlen nonce) (aead_ad_expected c)
                           (aead_plaintext_expected c)
                    else PSA_SUCCESS) with
             | PSA_SUCCESS => nonce_can c nonce
             | _ => nonce_can c nonce -> False
             end).
{ destruct (aead_lengths_set c) eqn:Hset; [|by split_and!; [..|rewrite Hset]]. destruct (wolfpsa_aead_check_lengths _ _ _ _) eqn:Hk;
    try (intros (_ & _ & Hx); specialize (Hx Hset); congruence). done. }
destruct (if aead_lengths_set c then _ else _);
  try (apply wp_ret, Hbad; [done|by intros _]).
unfold set_ctx. wp_seq. apply Hgood; [done|done|done|done|]. by apply has_with_nonce.
Qed.

Definition generate_can c (nonce : bool) (nonce_size : Z) (nonce_length : bool) : Prop :=
nonce = true /\ nonce_length = true /\ aead_direction c = true /\ aead_nonce c = [] /\
(forall out, zlen out = PSA_AEAD_NONCE_LENGTH (aead_key_type c) (aead_alg c) -> nonce_can c out) /\
0 < PSA_AEAD_NONCE_LENGTH (aead_key_type c) (aead_alg c) <= nonce_size.

Lemma nonce_length_range kt alg : 0 <= PSA_AEAD_NONCE_LENGTH kt alg <= 24.
Proof. unfold PSA_AEAD_NONCE_LENGTH. repeat case_match; lia. Qed.

Lemma wp_generate_nonce {ROK : WolfCryptRngOk R} a c text nonce nonce_size nonce_length s
  (Q : psa_status_t * list byte -> opstate O wolfpsa_aead_ctx -> Prop) :
op_ctx s = Some c -> aead_has a c text ->
(forall e s', op_ctx s' = Some c -> e <> PSA_SUCCESS ->
   (generate_can c nonce nonce_size nonce_length -> random_feasible s -> False) -> Q (e, []) s') ->
(forall out s', let c' := aead_with_nonce out c in
   op_ctx s' = Some c' -> (smooth s -> smooth s') -> aead_direction c = true ->
   zlen out = PSA_AEAD_NONCE_LENGTH (aead_key_type c) (aead_alg c) -> zlen out <= nonce_size ->
   nonce_can c out -> aead_has a c' text -> Q (PSA_SUCCESS, out) s') ->
wp (psa_aead_generate_nonce nonce nonce_size nonce_length) Q s.
Proof.
intros Hc H Hbad Hgood. unfold psa_aead_generate_nonce. apply wp_bind. unfold get_ctx. apply wp_gets. rewrite Hc.
destruct (negb nonce_length || (negb nonce && negb (nonce_size =? 0))) eqn:Hptr.
{ apply wp_ret, Hbad; [done|done|]. by intros (-> & -> & _). }
destruct (aead_direction c) eqn:Hd; cbn [negb]; [|apply wp_ret, Hbad; [done|done|intros (_ & _ & ? & _); congruence]].
destruct (Z.eqb_spec (zlen (aead_nonce c)) 0) as [Hz|Hz]; cbn [negb].
2: { apply wp_ret, Hbad; [done|done|]. intros (_ & _ & _ & Hn & _). by rewrite Hn in Hz. }
pose proof (nonce_length_range (aead_key_type c) (aead_alg c)) as Hrange.
set (n := PSA_AEAD_NONCE_LENGTH (aead_key_type c) (aead_alg c)) in *.
destruct ((n =? 0) || (nonce_size <? n)) eqn:Hsz.
{ apply wp_ret, Hbad; [done|done|]. intros (_ & _ & _ & _ & _ & Hr & Hle). fold n in Hr, Hle.
  rewrite (proj2 (Z.eqb_neq n 0)), (proj2 (Z.ltb_ge nonce_size n)) in Hsz by lia. done. }
apply orb_false_iff in Hsz as [Hn0%Z.eqb_neq Hle%Z.ltb_ge].
assert (Hnonce : nonce = true).
{ destruct nonce; [done|]. destruct (Z.eqb_spec nonce_size 0); [lia|]. by rewrite orb_true_r in Hptr. }
rewrite Hnonce. apply wp_bind, wp_random; [unfold UINT32_MAX; lia| |].
- intros e out s1 Hs1 He Hno. destruct e; [done|apply wp_ret, Hbad; [by rewrite Hs1|done|auto] ..].
- intros out s1 Hs1 Hsm Hl. apply wp_bind, (wp_set_nonce a c text); [by rewrite Hs1|done| |].
  + intros e He Hno. destruct e; [done|apply wp_ret, Hbad; [by rewrite Hs1|done|];
      intros (_ & _ & _ & _ & Hcan & _) _; by apply Hno, Hcan ..].
  + intros s2 c' Hc2 Hsm2 _ Hcan Hhas. apply wp_ret, Hgood; try done; [by auto|by rewrite Hl].
Qed.

(** * Additional data and text *)

(** Appending: the bytes of a valid buffer, or an error that is not [BAD_STATE]. *)
Lemma wp_aead_append buf data s (Q : psa_status_t * list byte -> opstate O wolfpsa_aead_ctx -> Prop) :
(forall e s', same_ctx s s' -> e <> PSA_SUCCESS -> e <> PSA_ERROR_BAD_STATE ->
   (smooth s -> (is_null data = true -> input_length data = 0) ->
    zlen buf + input_length data <= SIZE_MAX -> False) -> Q (e, buf) s') ->
(forall s', same_ctx s s' -> (smooth s -> smooth s') ->
   (input_length data <> 0 -> zlen (buf ++ input_bytes data) <= SIZE_MAX) ->
   (is_null data = true -> input_length data = 0) ->
   Q (PSA_SUCCESS, buf ++ input_bytes data) s') ->
wp (wolfpsa_aead_append buf data) Q s.
Proof.
intros Hbad Hgood. unfold wolfpsa_aead_append.
destruct (is_null data && (0 <? input_length data)) eqn:Hnull.
{ apply wp_ret, Hbad; [done|done|done|]. intros _ Hn _.
  destruct (is_null data); [|done]. by rewrite Hn in Hnull. }
assert (Hn : is_null data = true -> input_length data = 0).
{ intros Hd. rewrite Hd in Hnull. destruct data as [n|]; [|done]. simpl in *. apply Z.ltb_ge in Hnull. lia. }
assert (Hlen : input_length data = zlen (input_bytes data)).
{ destruct data as [n|l]; [|done]. by rewrite Hn. }
destruct (Z.eqb_spec (input_length data) 0) as [Hz|Hz].
{ assert (Hb : input_bytes data = []) by (apply zlen_0_nil; lia).
  rewrite Hb, app_nil_r in Hgood. by apply wp_ret, Hgood. }
destruct (Z.ltb_spec (SIZE_MAX - input_length data) (zlen buf)) as [Hs|Hs].
{ apply wp_ret, Hbad; [done|done|done|]. intros _ _ ?. lia. }
apply wp_bind, wp_malloc. intros b s1 Hs1 _ _ Hb. destruct b; cbn [negb].
- apply wp_ret, Hgood; [done|intros Hsm; by apply Hb| |done]. intros _. rewrite zlen_app. lia.
- apply wp_ret, Hbad; [done|done|done|]. intros Hsm. by destruct (Hb Hsm).
Qed.

Definition ad_can c (data : input) : Prop :=
aead_body_started c = false /\ aead_nonce c <> [] /\ wolfpsa_aead_lengths_missing c = false /\
(is_null data = true -> input_length data = 0) /\
zlen (aead_aad c) + input_length data <= UINT32_MAX /\
(aead_lengths_set c = true -> zlen (aead_aad c) + input_length data <= aead_ad_expected c).

Lemma has_with_aad a c text aad :
aead_has a c text -> aead_body_started c = false -> zlen aad <= UINT32_MAX ->
(aead_lengths_set c = true -> zlen aad <= aead_ad_expected c) ->
aead_has a (aead_with_aad aad c) text.
Proof.
intros [Hwf H2 H3 H4 H5 H6 H7] Hb Hl Hle. destruct (H7 Hb) as [-> Hst]. destruct Hwf.
split; simpl; try done; [|by rewrite Hst].
split; simpl; try done. intros Hset. destruct (aw_lengths Hset) as (? & _ & ?). auto.
Qed.

(** Additional data after text, or too much of it, ends the operation; before the
  nonce, or before the lengths of CCM, it is only refused. *)
Lemma wp_update_ad a c text data s (Q : psa_status_t -> opstate O wolfpsa_aead_ctx -> Prop) :
op_ctx s = Some c -> aead_has a c text ->
(forall e s', e <> PSA_SUCCESS ->
   op_ctx s' = (if aead_body_started c || negb (bool_decide (e = PSA_ERROR_BAD_STATE)) then None else Some c) ->
   (ad_can c data -> smooth s -> False) -> Q e s') ->
(forall s', let c' := aead_with_aad (aead_aad c ++ input_bytes data) c in
   op_ctx s' = Some c' -> (smooth s -> smooth s') -> ad_can c data -> aead_has a c' text ->
   Q PSA_SUCCESS s') ->
wp (psa_aead_update_ad data) Q s.
Proof.
intros Hc H Hbad Hgood. unfold psa_aead_update_ad. apply wp_bind. unfold get_ctx. apply wp_gets.
rewrite Hc. cbv zeta.
assert (Hfail : forall e s1, e <> PSA_SUCCESS -> (aead_body_started c = true \/ e <> PSA_ERROR_BAD_STATE) ->
  (ad_can c data -> smooth s -> False) -> wp (aead_fail e) Q s1).
{ intros e s1 He Hor Hno. unfold aead_fail, psa_aead_abort, set_ctx. wp_seq. apply Hbad; [done| |done].
  simpl. destruct (aead_body_started c); [done|]. destruct Hor; [done|]. by rewrite bool_decide_false. }
destruct (aead_body_started c) eqn:Hbody.
{ apply Hfail; [done|by left|]. intros (Hb & _). congruence. }
destruct ((zlen (aead_nonce c) =? 0) || wolfpsa_aead_lengths_missing c) eqn:Hready.
{ apply wp_ret, Hbad; [done|by rewrite bool_decide_true|]. intros (_ & Hn & Hm & _) _.
  rewrite Hm, orb_false_r in Hready. by apply Z.eqb_eq, zlen_0_nil in Hready. }
apply orb_false_iff in Hready as [Hn%Z.eqb_neq Hm].
assert (Hne : aead_nonce c <> []) by (intros Hx; by rewrite Hx in Hn).
pose proof (zlen_nonneg (aead_aad c)) as Hpos. pose proof (ah_wf _ _ _ H) as Hwf. pose proof (aw_aad _ _ Hwf) as Haad.
assert (Hlpos : 0 <= input_length data) by (destruct data; [simpl; lia|apply zlen_nonneg]).
destruct (Z.eqb_spec (input_length data) 0) as [Hz|Hz].
{ assert (Hb : input_bytes data = []) by (destruct data as [n|l]; [done|by apply zlen_0_nil]).
  assert (Hx : aead_lengths_set c = true -> zlen (aead_aad c) <= aead_ad_expected c).
  { intros Hset. by destruct (aw_lengths _ _ Hwf Hset) as (_ & ? & _). }
  unfold set_ctx. wp_seq. specialize (Hgood (with_ctx (Some (aead_with_aad (aead_aad c) c)) s)).
  rewrite Hb, app_nil_r in Hgood. apply Hgood; [done|done| |by apply has_with_aad].
  split_and!; try done; rewrite Hz; [by rewrite Z.add_0_r|intros Hset; rewrite Z.add_0_r; auto]. }
destruct (aead_lengths_set c && _) eqn:Hexp.
{ apply Hfail; [done|by right|]. intros (_ & _ & _ & _ & Hu & Hl) _.
  apply andb_true_iff in Hexp as [Hset [Hlt%Z.ltb_lt|Hlt%Z.ltb_lt]%orb_true_iff].
  - unfold SIZE_MAX, UINT32_MAX in *. lia.
  - specialize (Hl Hset). lia. }
destruct (_ || negb (fits_word32 _)) eqn:Hfit.
{ apply Hfail; [done|by right|]. intros (_ & _ & _ & _ & Hu & _) _.
  rewrite (proj2 (fits_word32_spec _)), orb_false_r in Hfit by done.
  apply Z.ltb_lt in Hfit. unfold SIZE_MAX, UINT32_MAX in *. lia. }
apply orb_false_iff in Hfit as [_ Hfit%negb_false_iff%fits_word32_spec].
assert (Hle : aead_lengths_set c = true -> zlen (aead_aad c) + input_length data <= aead_ad_expected c).
{ intros Hset. rewrite Hset in Hexp. apply orb_false_iff in Hexp as [_ ?%Z.ltb_ge]. done. }
apply wp_bind, wp_aead_append.
- intros e s1 Hs1 He Hb Hno.
  assert (Hf : wp (aead_fail e) Q s1).
  { apply Hfail; [done|by right|]. intros (_ & _ & _ & Hnull & Hu & _) Hsm. apply Hno; [done|done|].
    unfold SIZE_MAX, UINT32_MAX in *. lia. }
  by destruct e.
- intros s1 Hs1 Hsm _ Hnull. unfold set_ctx. wp_seq.
  assert (Hlen : input_length data = zlen (input_bytes data)).
  { destruct data as [n|l]; [|done]. by rewrite Hnull. }
  apply Hgood; [done|auto|by split_and!|].
  apply has_with_aad; [done|done| |]; rewrite zlen_app, <- Hlen; auto.
Qed.

(** What stays of a context through the text. *)
Definition same_aead c c' : Prop :=
aead_alg c' = aead_alg c /\ aead_key_type c' = aead_key_type c /\ aead_direction c' = aead_direction c /\
aead_key c' = aead_key c /\ aead_nonce c' = aead_nonce c /\ aead_aad c' = aead_aad c /\
aead_ad_expected c' = aead_ad_expected c /\ aead_plaintext_expected c' = aead_plaintext_expected c /\
aead_tag_length c' = aead_tag_length c /\ aead_lengths_set c' = aead_lengths_set c /\
aead_ad_started c' = aead_ad_started c.

(** The call is made in order, and its data is due. *)
Definition update_due (a : aead_algo) c (text : list byte) (data : input) : Prop :=
aead_ready a c /\
(aead_lengths_set c = true ->
 zlen (aead_aad c) = aead_ad_expected c /\ zlen text + input_length data <= aead_plaintext_expected c) /\
(is_null data = true -> input_length data = 0).

Definition update_room (a : aead_algo) c (text : list byte) (data : input) (output : bool)
  (output_size : Z) : Prop :=
input_length data = 0 \/
if output
then (aead_streaming c = true \/ text = []) /\ input_length data <= output_size /\
     input_length data <= UINT32_MAX /\ aead_streams a = true
else aead_streaming c = false /\ zlen text + input_length data <= SIZE_MAX.

(** The call writes its output at once. *)
Definition streams_now (data : input) (output : bool) : bool := output && negb (input_length data =? 0).

(** What an update leaves. *)
Record update_post (a : aead_algo) c (text : list byte) (data : input) (output : bool) (output_size : Z)
  (out : list byte) c' : Prop := {
up_has : aead_has a c' (text ++ input_bytes data);
up_same : same_aead c c';
up_body : aead_body_started c' = true;
up_streaming : aead_streaming c' = aead_streaming c || streams_now data output;
up_due : update_due a c text data;
up_mode : streams_now data output = true -> aead_streaming c = true \/ text = [];
up_buffered : output = false -> input_length data <> 0 -> aead_streaming c = false;
up_fits : streams_now data output = true -> zlen out <= output_size;
up_out : out = if streams_now data output
               then stream_xor (aead_stream a (aead_key c) (aead_nonce c)) (length text) (input_bytes data)
               else [] }.

Lemma same_refl c : same_aead c c.
Proof. by split_and!. Qed.

Lemma wf_same a c c' : same_aead c c' -> aead_wf a c -> aead_wf a c'.
Proof.
intros (E1 & E2 & E3 & E4 & E5 & E6 & E7 & E8 & E9 & E10 & E11) [].
split; rewrite ?E1, ?E2, ?E3, ?E4, ?E5, ?E6, ?E7, ?E8, ?E9, ?E10, ?E11; done.
Qed.

Lemma ready_same a c c' : same_aead c c' -> aead_ready a c -> aead_ready a c'.
Proof.
intros Hs [Hwf Hn Hl]. pose proof Hs as (E1 & E2 & E3 & E4 & E5 & E6 & E7 & E8 & E9 & E10 & E11).
split; [by eapply wf_same|congruence|]. unfold wolfpsa_aead_lengths_missing in *. congruence.
Qed.

(** The context once [body_started] is set, and with text or an engine. *)
Lemma with_input_same input n b c : same_aead c (aead_with_input input n b c).
Proof. by split_and!. Qed.
Lemma with_engine_same g h m c : same_aead c (aead_with_engine g h m c).
Proof. by split_and!. Qed.

Lemma same_trans c1 c2 c3 : same_aead c1 c2 -> same_aead c2 c3 -> same_aead c1 c3.
Proof. unfold same_aead. intuition congruence. Qed.

Definition body_started c : wolfpsa_aead_ctx :=
aead_with_input (aead_input c) (aead_input_length c) (aead_streaming c) c.

Lemma has_body a c text : aead_has a c text -> aead_has a (body_started c) text.
Proof.
intros [H1 H2 H3 H4 H5 H6 H7]. split; try done; [by apply (wf_same _ c)|].
intros Hs. destruct (H6 Hs) as [Hr He]. split; [|by destruct a]. apply (ready_same a c); [by split_and!|done].
Qed.

(** Text that is buffered. *)
Lemma has_buffered a c text data :
aead_has a c text -> aead_streaming c = false ->
(aead_lengths_set c = true -> zlen (text ++ data) <= aead_plaintext_expected c) ->
zlen (text ++ data) <= SIZE_MAX ->
aead_has a (aead_with_input (text ++ data) (zlen (text ++ data)) false (body_started c)) (text ++ data).
Proof.
intros H Hs Hexp Hsz. split; simpl; try done; [by apply (wf_same _ c), H|].
pose proof (zlen_nonneg (text ++ data)). by rewrite to_size_small by lia.
Qed.

(** Text that went through the engine. *)
Lemma has_streamed a c text data g h m n :
aead_has a c text -> aead_ready a c -> aead_input c = [] ->
engine_has a (aead_with_engine g h m (body_started c)) (text ++ data) ->
n = to_size (aead_input_length c + zlen data) ->
(aead_lengths_set c = true -> zlen (text ++ data) <= aead_plaintext_expected c) ->
aead_has a (aead_with_input [] n true (aead_with_engine g h m (body_started c))) (text ++ data).
Proof.
intros H Hr Hi Heng -> Hexp. split; simpl; try done.
- apply (wf_same _ c), H. by split_and!.
- rewrite (ah_length _ _ _ H), zlen_app. unfold to_size. by rewrite Zplus_mod_idemp_l.
- intros _. split; [|by destruct a]. apply (ready_same _ c); [by split_and!|done].
Qed.

Lemma wp_fail_text e s (Q : psa_status_t * list byte -> opstate O wolfpsa_aead_ctx -> Prop) :
(forall s', op_ctx s' = None -> Q (e, []) s') -> wp (aead_fail_out e) Q s.
Proof. intros HQ. unfold aead_fail_out, aead_fail, psa_aead_abort, set_ctx. wp_seq. by apply HQ. Qed.

(** A failure of the text, which ends the operation. *)
Definition body_fails (a : aead_algo) c (text : list byte) (data : input) (output : bool) (output_size : Z) s
  (Q : psa_status_t * list byte -> opstate O wolfpsa_aead_ctx -> Prop) : Prop :=
forall e s1, e <> PSA_SUCCESS -> (update_room a c text data output output_size -> smooth s -> False) ->
wp (aead_fail_out e) Q s1.

Definition body_done (a : aead_algo) c (text : list byte) (data : input) (output : bool) (output_size : Z) s
  (Q : psa_status_t * list byte -> opstate O wolfpsa_aead_ctx -> Prop) : Prop :=
forall out c' s', op_ctx s' = Some c' -> (smooth s -> smooth s') ->
update_post a c text data output output_size out c' -> Q (PSA_SUCCESS, out) s'.

Lemma due_length a c text data : update_due a c text data -> input_length data = zlen (input_bytes data).
Proof. intros (_ & _ & Hnull). destruct data as [n|l]; [|done]. by rewrite Hnull. Qed.

Lemma due_expected a c text data :
update_due a c text data -> aead_lengths_set c = true ->
zlen (text ++ input_bytes data) <= aead_plaintext_expected c.
Proof.
intros H Hset. pose proof (due_length _ _ _ _ H). destruct H as (_ & Hd & _). destruct (Hd Hset).
rewrite zlen_app. lia.
Qed.

Lemma room_nonempty a c text data output output_size :
input_length data <> 0 -> update_room a c text data output output_size ->
if output
then (aead_streaming c = true \/ text = []) /\ input_length data <= output_size /\
     input_length data <= UINT32_MAX /\ aead_streams a = true
else aead_streaming c = false /\ zlen text + input_length data <= SIZE_MAX.
Proof. by intros Hz [?|?]. Qed.

(** No text. *)
Lemma wp_body_empty a c text data output output_size s Q :
op_ctx s = Some (body_started c) -> aead_has a c text -> update_due a c text data ->
input_length data = 0 -> body_done a c text data output output_size s Q ->
wp (mret (PSA_SUCCESS, [])) Q s.
Proof.
intros Hc H Hdue Hz Hgood. pose proof (due_length _ _ _ _ Hdue) as Hlen.
assert (Hb : input_bytes data = []) by (apply zlen_0_nil; lia).
assert (Hnow : streams_now data output = false) by (unfold streams_now; rewrite Hz, andb_false_r; done).
apply wp_ret, (Hgood [] (body_started c)); [done|done|].
split; rewrite ?Hb, ?app_nil_r, ?Hnow, ?orb_false_r; try done. by apply has_body.
Qed.

(** Text into the buffer. *)
Lemma wp_body_buffer a c text data output_size s Q :
op_ctx s = Some (body_started c) -> aead_has a c text -> update_due a c text data ->
input_length data <> 0 -> aead_streaming c = false ->
body_fails a c text data false output_size s Q -> body_done a c text data false output_size s Q ->
wp ('(status, buf) ← wolfpsa_aead_append (aead_input c) data;
    match status with
    | PSA_SUCCESS => set_ctx (Some (aead_with_input buf (zlen buf) false (body_started c)));;
                     mret (PSA_SUCCESS, [])
    | e => aead_fail_out e
    end) Q s.
Proof.
intros Hc H Hdue Hz Hst Hfail Hgood. pose proof (ah_buffer _ _ _ H) as Hbuf. rewrite Hst in Hbuf. rewrite Hbuf.
apply wp_bind, wp_aead_append.
- intros e s1 Hs1 He _ Hno.
  assert (Hf : wp (aead_fail_out e) Q s1).
  { apply Hfail; [done|]. intros [_ Hsz]%room_nonempty Hsm; [|done]. apply Hno; [done|by destruct Hdue as (_ & _ & ?)|done]. }
  by destruct e.
- intros s1 Hs1 Hsm Hsz _. specialize (Hsz Hz). unfold set_ctx. wp_seq.
  apply (Hgood [] (aead_with_input (text ++ input_bytes data) (zlen (text ++ input_bytes data)) false (body_started c)));
    [done|auto|].
  split; try done; [|by rewrite Hst]. apply has_buffered; [done|done| |done]. by apply due_expected with a.
Qed.

(** Text through the engine. *)
Lemma wp_body_stream a c text data output_size s Q :
op_ctx s = Some (body_started c) -> aead_has a c text -> update_due a c text data ->
input_length data <> 0 -> aead_input c = [] -> input_length data <= output_size ->
fits_word32 (input_length data) = true ->
body_fails a c text data true output_size s Q -> body_done a c text data true output_size s Q ->
wp (r ← wolfpsa_aead_stream_update (body_started c) (input_bytes data);
    match r with
    | inl e => aead_fail_out e
    | inr (out, c') =>
        set_ctx (Some (aead_with_input (aead_input c')
                         (to_size (aead_input_length c' + input_length data)) true c'));;
        mret (PSA_SUCCESS, out)
    end) Q s.
Proof.
intros Hc H Hdue Hz Hempty Hs Hfit Hfail Hgood. pose proof (ah_buffer _ _ _ H) as Hbuf.
pose proof (due_length _ _ _ _ Hdue) as Hlen. pose proof Hdue as [Hr _].
assert (Hmode : aead_streaming c = true \/ text = []) by (destruct (aead_streaming c); [by left|right; congruence]).
assert (Hat : engine_at a (body_started c) text).
{ unfold engine_at. change (aead_streaming (body_started c)) with (aead_streaming c).
  destruct (aead_streaming c) eqn:Hst; [|by destruct Hmode]. destruct (ah_engine _ _ _ H Hst) as [_ He]. by destruct a. }
assert (Hrb : aead_ready a (body_started c)) by (apply (ready_same a c); [by split_and!|done]).
apply wp_bind. destruct (aead_streams a) eqn:Hstr.
2: { rewrite (stream_update_lacks a) by done. apply wp_ret, Hfail; [done|].
  intros (_ & _ & _ & ?)%room_nonempty _; [congruence|done]. }
rewrite Hlen in Hfit. apply (yields_stream_update a _ text); try done.
- intros e s1 Hs1 He Hno. apply Hfail; [done|auto].
- intros [out c'] s1 Hs1 Hsm (Hout & (g & h & m & Hc') & Heng). cbn [fst snd] in *. subst c'.
  unfold set_ctx. wp_seq.
  change (aead_input (aead_with_engine g h m (body_started c))) with (aead_input c). rewrite Hempty.
  change (aead_input_length (aead_with_engine g h m (body_started c))) with (aead_input_length c).
  apply (Hgood out (aead_with_input [] (to_size (aead_input_length c + input_length data)) true
                      (aead_with_engine g h m (body_started c)))); [done|auto|].
  assert (Hnow : streams_now data true = true) by (unfold streams_now; by rewrite (proj2 (Z.eqb_neq _ _) Hz)).
  assert (Hol : zlen out = input_length data).
  { rewrite Hout, Hlen. unfold zlen. by rewrite stream_xor_length. }
  split; rewrite ?Hnow, ?orb_true_r; try done; [|intros _; lia].
  rewrite Hlen in *. apply has_streamed; try done. by apply due_expected with a.
Qed.

Lemma wp_update_body a c text data output output_size s
  (Q : psa_status_t * list byte -> opstate O wolfpsa_aead_ctx -> Prop) :
op_ctx s = Some (body_started c) -> aead_has a c text -> update_due a c text data ->
body_fails a c text data output output_size s Q -> body_done a c text data output output_size s Q ->
wp (aead_update_body (body_started c) data output output_size) Q s.
Proof.
intros Hc H Hdue Hfail Hgood. unfold aead_update_body. cbv zeta.
change (aead_streaming (body_started c)) with (aead_streaming c).
change (aead_input (body_started c)) with (aead_input c).
destruct (Z.eqb_spec (input_length data) 0) as [Hz|Hz]; [by eapply wp_body_empty|].
destruct output; cbn [negb].
- destruct (bool_decide (aead_input c = [])) eqn:Hempty; cbn [negb].
  2: { apply Hfail; [done|]. intros ([Hst|Ht] & _)%room_nonempty _; [| |done];
    apply bool_decide_eq_false in Hempty; pose proof (ah_buffer _ _ _ H) as Hbuf.
    - by rewrite Hst in Hbuf.
    - rewrite Ht in Hbuf. by destruct (aead_streaming c). }
  apply bool_decide_eq_true in Hempty.
  destruct (Z.ltb_spec output_size (input_length data)) as [Hs|Hs].
  { apply Hfail; [done|]. intros (_ & ? & _)%room_nonempty; [lia|done]. }
  destruct (fits_word32 (input_length data)) eqn:Hfit; cbn [negb]; [by apply (wp_body_stream a c text data output_size)|].
  apply Hfail; [done|]. intros (_ & _ & Hu & _)%room_nonempty; [|done]. apply fits_word32_spec in Hu. congruence.
- destruct (aead_streaming c) eqn:Hst.
  { apply Hfail; [done|]. intros [? _]%room_nonempty; [congruence|done]. }
  by apply (wp_body_buffer a c text data output_size).
Qed.

(** An update: called too early it is only refused; any later error ends the
  operation. *)
Lemma wp_aead_update a c text data output output_size output_length s
  (Q : psa_status_t * list byte -> opstate O wolfpsa_aead_ctx -> Prop) :
op_ctx s = Some c -> aead_has a c text ->
(forall e s', e <> PSA_SUCCESS ->
   op_ctx s' = (if output_length && negb ((zlen (aead_nonce c) =? 0) || wolfpsa_aead_lengths_missing c)
                then None else Some c) ->
   (output_length = true -> update_due a c text data ->
    update_room a c text data output output_size -> smooth s -> False) -> Q (e, []) s') ->
(forall out c' s', op_ctx s' = Some c' -> (smooth s -> smooth s') -> output_length = true ->
   update_post a c text data output output_size out c' -> Q (PSA_SUCCESS, out) s') ->
wp (psa_aead_update data output output_size output_length) Q s.
Proof.
intros Hc H Hbad Hgood. unfold psa_aead_update. apply wp_bind. unfold get_ctx. apply wp_gets. rewrite Hc.
cbv zeta. destruct output_length; cbn [negb]; [|by apply wp_ret, Hbad].
destruct (wolfpsa_aead_lengths_missing c) eqn:Hmiss.
{ apply wp_ret, Hbad; [done|by rewrite orb_true_r|]. intros _ ([_ _ Hm] & _). congruence. }
destruct (Z.eqb_spec (zlen (aead_nonce c)) 0) as [Hz|Hz].
{ apply wp_ret, Hbad; [done|done|]. intros _ ([_ Hn _] & _). by apply zlen_0_nil in Hz. }
assert (Hr : aead_ready a c).
{ apply ready_spec; [apply H|]. by rewrite Hmiss, (proj2 (Z.eqb_neq _ _) Hz). }
assert (Hfail : forall e, e <> PSA_SUCCESS ->
  (update_due a c text data -> False) -> wp (aead_fail_out e) Q s).
{ intros e He Hno. apply wp_fail_text. intros s' Hs'. by apply Hbad; [|rewrite Hs'|auto]. }
destruct (aead_lengths_set c && negb _) eqn:Had.
{ apply Hfail; [done|]. intros (_ & Hd & _). apply andb_true_iff in Had as [Hset Hne].
  destruct (Hd Hset) as [Heq _]. by rewrite Heq, Z.eqb_refl in Hne. }
destruct (aead_lengths_set c && (_ || _)) eqn:Hpt.
{ apply Hfail; [done|]. intros (_ & Hd & _). apply andb_true_iff in Hpt as [Hset Hor].
  destruct (Hd Hset) as [_ Hle]. rewrite (has_exact _ _ _ H) in Hor by (by left).
  destruct (aw_lengths _ _ (ah_wf _ _ _ H) Hset) as (Hp & _).
  apply orb_true_iff in Hor as [Hlt%Z.ltb_lt|Hlt%Z.ltb_lt]; lia. }
destruct (is_null data && (0 <? input_length data)) eqn:Hnull.
{ apply Hfail; [done|]. intros (_ & _ & Hn). destruct (is_null data); [|done]. by rewrite Hn in Hnull. }
assert (Hdue : update_due a c text data).
{ split; [done|]. split.
  - intros Hset. rewrite Hset in Had, Hpt. simpl in Had, Hpt. apply negb_false_iff, Z.eqb_eq in Had.
    split; [done|]. rewrite (has_exact _ _ _ H) in Hpt by (by left).
    by apply orb_false_iff in Hpt as [_ ?%Z.ltb_ge].
  - intros Hd. rewrite Hd in Hnull. simpl in Hnull. apply Z.ltb_ge in Hnull.
    destruct data as [n|]; [|done]. simpl in *. lia. }
apply wp_bind. unfold set_ctx. apply wp_modify.
apply (wp_update_body a c text); [done|done|done| |].
- intros e s1 He Hno. apply wp_fail_text. intros s' Hs'. apply Hbad; [done|done|]. intros _ _ Hroom Hsm. by apply Hno.
- intros out c' s' Hc' Hsm Hp. by apply (Hgood out c').
Qed.

(** * The end *)

Lemma wp_aead_finish a c text ciphertext ciphertext_size ciphertext_length tag tag_size tag_length s
  (Q : psa_status_t * (list byte * list byte) -> opstate O wolfpsa_aead_ctx -> Prop) :
op_ctx s = Some c -> aead_has a c text ->
(forall e s', e <> PSA_SUCCESS -> op_ctx s' = (if aead_direction c then None else Some c) ->
   (aead_direction c = true ->
    finish_can a c text ciphertext ciphertext_size ciphertext_length tag tag_size tag_length ->
    smooth s -> False) -> Q (e, ([], [])) s') ->
(forall s', op_ctx s' = None -> (smooth s -> smooth s') -> aead_direction c = true ->
   aead_ready a c -> lengths_met c text -> aead_tag_length c <= tag_size ->
   (aead_streaming c = false -> zlen text <= ciphertext_size) ->
   Q (PSA_SUCCESS, (if aead_streaming c then [] else cipher_of a c text, expected_tag a c text)) s') ->
wp (psa_aead_finish ciphertext ciphertext_size ciphertext_length tag tag_size tag_length) Q s.
Proof.
intros Hc H Hbad Hgood. unfold psa_aead_finish. apply wp_bind. unfold get_ctx. apply wp_gets. rewrite Hc.
destruct (aead_direction c) eqn:Hd; cbn [negb]; [|by apply wp_ret, Hbad].
apply wp_bind, (checks_encrypt_final a c text); [done|done| |].
- intros e s1 Hs1 He Hno. unfold psa_aead_abort, set_ctx. wp_seq. apply Hbad; [done|done|].
  intros _ Hcan Hsm. by destruct (Hno Hsm Hcan).
- intros r s1 Hs1 Hsm _ (Hr & Hl & Ht & Hsz & ->). unfold psa_aead_abort, set_ctx. wp_seq. by apply Hgood.
Qed.

(** A verification succeeds on the right tag only. *)
Lemma wp_aead_verify a c text plaintext plaintext_size plaintext_length tag s
  (Q : psa_status_t * list byte -> opstate O wolfpsa_aead_ctx -> Prop) :
op_ctx s = Some c -> aead_has a c text ->
(forall e s', e <> PSA_SUCCESS -> op_ctx s' = (if aead_direction c then Some c else None) ->
   (aead_direction c = false -> verify_can a c text plaintext plaintext_size plaintext_length tag ->
    smooth s -> input_bytes tag <> expected_tag a c text /\ e = PSA_ERROR_INVALID_SIGNATURE) ->
   Q (e, []) s') ->
(forall s', op_ctx s' = None -> (smooth s -> smooth s') -> aead_direction c = false ->
   input_bytes tag = expected_tag a c text -> aead_ready a c -> lengths_met c text ->
   (aead_streaming c = false -> zlen text <= plaintext_size) ->
   Q (PSA_SUCCESS, if aead_streaming c then [] else plain_of a c text) s') ->
wp (psa_aead_verify plaintext plaintext_size plaintext_length tag) Q s.
Proof.
intros Hc H Hbad Hgood. unfold psa_aead_verify. apply wp_bind. unfold get_ctx. apply wp_gets. rewrite Hc.
destruct (aead_direction c) eqn:Hd; [by apply wp_ret, Hbad|].
apply wp_bind, (checks_decrypt_final a c text); [done|done| |].
- intros e s1 Hs1 He Hno. unfold psa_aead_abort, set_ctx. wp_seq. apply Hbad; [done|done|].
  intros _ Hcan Hsm. by apply Hno.
- intros r s1 Hs1 Hsm Htag (Hr & Hl & Hsz & ->). unfold psa_aead_abort, set_ctx. wp_seq. by apply Hgood.
Qed.
End AeadOps.
