(* ===== verification/AeadSpec.v ===== *)
(** The state machine of authenticated encryption: what any sequence of calls may
    answer. *)

From stdpp Require Import base decidable list.
From Stdlib Require Import ZArith Lia.
From Stdlib Require Import Strings.Byte.
From S2P Require Import Prelude.
From S2P Require Import Values.
From S2P Require Import Engine.
From S2P Require Import WolfCrypt.
From S2P Require Import KeyPolicy.
From S2P Require Import KeyFormat.
From S2P Require Import StoreIface.
From S2P Require Import Library.
From S2P Require Import KeyStore.
From S2P Require Import KeyStoreRules.
From S2P Require Import Operation.
From S2P Require Import Ccm.
From S2P Require Import CcmSpec.
From S2P Require Import WolfAead.
From S2P Require Import Aead.
From S2P Require Import AeadRules.
From S2P Require Import AeadFinal.
From S2P Require Import AeadOps.

#[local] Open Scope Z_scope.

Section AeadSpec.
Context {C : Config} {E : WolfCryptErr} {EO : WolfCryptErrOk E} {K : WolfCryptKeys}.
Context {R : WolfCryptRng} {O : StoreOps} {B : KeyBackend}.
Context {W : WolfCryptAead} {D : WolfCryptAesDirect}.
Context {WO : WolfCryptAeadOk W D} {DO : WolfCryptAesDirectOk D}.

Implicit Types c : wolfpsa_aead_ctx.
Implicit Types s : opstate O wolfpsa_aead_ctx.


(** * An operation as its user sees it *)

Record aead_view : Type := mkView {
av_alg : Z;
av_type : Z;
av_encrypt : bool;
av_key : list byte;
av_lengths : option (Z * Z);
av_nonce : list byte;
av_aad : list byte;
av_ad_started : bool;
av_started : bool;
av_streamed : bool;
av_text : list byte }.

Implicit Types w : aead_view.
Implicit Types v : option aead_view.

Definition view_of c (text : list byte) : aead_view :=
mkView (aead_alg c) (aead_key_type c) (aead_direction c) (aead_key c)
  (if aead_lengths_set c then Some (aead_ad_expected c, aead_plaintext_expected c) else None)
  (aead_nonce c) (aead_aad c) (aead_ad_started c) (aead_body_started c) (aead_streaming c) text.

Definition aead_is v s : Prop :=
match v with
| None => op_ctx s = None
| Some w => exists c a, op_ctx s = Some c /\ aead_has a c (av_text w) /\ w = view_of c (av_text w) /\
    aead_tag_length c = wolfpsa_aead_tag_length (aead_alg c)
end.

(** The operation just set up. *)
Definition view_open (alg kt : Z) (encrypt : bool) (key : list byte) : aead_view :=
mkView alg kt encrypt key None [] [] false false false [].
Definition view_lengths (ad plaintext : Z) w : aead_view :=
mkView (av_alg w) (av_type w) (av_encrypt w) (av_key w) (Some (ad, plaintext)) (av_nonce w) (av_aad w)
  (av_ad_started w) (av_started w) (av_streamed w) (av_text w).
Definition view_nonce (nonce : list byte) w : aead_view :=
mkView (av_alg w) (av_type w) (av_encrypt w) (av_key w) (av_lengths w) nonce (av_aad w)
  (av_ad_started w) (av_started w) (av_streamed w) (av_text w).
Definition view_ad (data : list byte) w : aead_view :=
mkView (av_alg w) (av_type w) (av_encrypt w) (av_key w) (av_lengths w) (av_nonce w) (av_aad w ++ data)
  true (av_started w) (av_streamed w) (av_text w).
Definition view_text (data : list byte) (streamed : bool) w : aead_view :=
mkView (av_alg w) (av_type w) (av_encrypt w) (av_key w) (av_lengths w) (av_nonce w) (av_aad w)
  (av_ad_started w) true streamed (av_text w ++ data).

(** There is a nonce, and for CCM the lengths. *)
Definition view_ready w : bool :=
negb ((zlen (av_nonce w) =? 0)
      || (PSA_ALG_AEAD_EQUAL (av_alg w) PSA_ALG_CCM && negb (bool_decide (is_Some (av_lengths w))))).

(** The lengths that were declared, if they were. *)
Definition view_declared w (P : Z -> Z -> Prop) : Prop :=
match av_lengths w with Some (ad, plaintext) => P ad plaintext | None => True end.

(** The text that goes through a keystream, from where the operation is. *)
Definition view_part (a : aead_algo) w (data : list byte) : list byte :=
stream_xor (aead_stream a (av_key w) (av_nonce w)) (length (av_text w)) data.
(** The whole plain text and cipher text, and the tag. *)
Definition view_crypt (a : aead_algo) w : list byte := aead_crypt a (av_key w) (av_nonce w) (av_text w).
Definition view_tag (a : aead_algo) w : list byte :=
aead_tag a (wolfpsa_aead_tag_length (av_alg w)) (av_key w) (av_nonce w) (av_aad w)
  (if av_encrypt w then av_text w else view_crypt a w).

Inductive aead_call : Type :=
| ASetup (encrypt : bool) (key alg : Z)
| ASetLengths (ad plaintext : Z)
| ASetNonce (nonce : input)
| AGenerateNonce (nonce : bool) (nonce_size : Z) (nonce_length : bool)
| AUpdateAd (data : input)
| AUpdate (data : input) (output : bool) (output_size : Z) (output_length : bool)
| AFinish (ciphertext : bool) (ciphertext_size : Z) (ciphertext_length : bool)
    (tag : bool) (tag_size : Z) (tag_length : bool)
| AVerify (plaintext : bool) (plaintext_size : Z) (plaintext_length : bool) (tag : input)
| AAbort.

(** A length is a [size_t]. *)
Definition aead_call_ok (call : aead_call) : Prop :=
match call with ASetLengths ad plaintext => 0 <= ad /\ 0 <= plaintext <= SIZE_MAX | _ => True end.

Definition aead_result : Type := psa_status_t * (list byte * list byte).
Definition aead_error (e : psa_status_t) : aead_result := (e, ([], [])).
Definition aead_output (r : psa_status_t * list byte) : aead_result := (r.1, (r.2, [])).

Definition aead_do (call : aead_call) : M (opstate O wolfpsa_aead_ctx) aead_result :=
match call with
| ASetup true key alg => st ← psa_aead_encrypt_setup key alg; mret (aead_error st)
| ASetup false key alg => st ← psa_aead_decrypt_setup key alg; mret (aead_error st)
| ASetLengths ad plaintext => st ← psa_aead_set_lengths ad plaintext; mret (aead_error st)
| ASetNonce nonce => st ← psa_aead_set_nonce nonce; mret (aead_error st)
| AGenerateNonce b n len => r ← psa_aead_generate_nonce b n len; mret (aead_output r)
| AUpdateAd data => st ← psa_aead_update_ad data; mret (aead_error st)
| AUpdate data b n len => r ← psa_aead_update data b n len; mret (aead_output r)
| AFinish b n len t tn tlen => psa_aead_finish b n len t tn tlen
| AVerify b n len tag => r ← psa_aead_verify b n len tag; mret (aead_output r)
| AAbort => st ← psa_aead_abort; mret (aead_error st)
end.

(** Where an error leaves an operation. *)
Definition after_error v (call : aead_call) (e : psa_status_t) : option aead_view :=
match v, call with
| None, _ => None
| Some w, ASetLengths _ _ => None
| Some w, AUpdateAd _ =>
    if av_started w || negb (bool_decide (e = PSA_ERROR_BAD_STATE)) then None else v
| Some w, AUpdate _ _ _ len => if len && view_ready w then None else v
| Some w, AFinish _ _ _ _ _ _ => if av_encrypt w then None else v
| Some w, AVerify _ _ _ _ => if av_encrypt w then v else None
| Some w, _ => v
end.

(** What a call may answer. *)
Inductive aead_step : option aead_view -> aead_call -> aead_result -> option aead_view -> Prop :=
| astep_error v call e : e <> PSA_SUCCESS -> aead_step v call (aead_error e) (after_error v call e)
| astep_setup encrypt key alg kt key_data a :
  aead_algo_of alg = Some a -> tag_bounds a (wolfpsa_aead_tag_length alg) ->
  aead_step None (ASetup encrypt key alg) (aead_error PSA_SUCCESS) (Some (view_open alg kt encrypt key_data))
| astep_lengths w ad plaintext :
  av_lengths w = None -> av_ad_started w = false -> av_started w = false ->
  wolfpsa_aead_check_lengths (av_alg w) (zlen (av_nonce w)) ad plaintext = PSA_SUCCESS ->
  aead_step (Some w) (ASetLengths ad plaintext) (aead_error PSA_SUCCESS) (Some (view_lengths ad plaintext w))
| astep_nonce w nonce a :
  aead_algo_of (av_alg w) = Some a -> av_nonce w = [] -> nonce_bounds a (zlen nonce) ->
  view_declared w (fun ad plaintext =>
    wolfpsa_aead_check_lengths (av_alg w) (zlen nonce) ad plaintext = PSA_SUCCESS) ->
  aead_step (Some w) (ASetNonce (Bytes nonce)) (aead_error PSA_SUCCESS) (Some (view_nonce nonce w))
| astep_generate w b n len nonce a :
  aead_algo_of (av_alg w) = Some a -> av_encrypt w = true -> av_nonce w = [] ->
  zlen nonce = PSA_AEAD_NONCE_LENGTH (av_type w) (av_alg w) -> nonce_bounds a (zlen nonce) ->
  zlen nonce <= n ->
  view_declared w (fun ad plaintext =>
    wolfpsa_aead_check_lengths (av_alg w) (zlen nonce) ad plaintext = PSA_SUCCESS) ->
  aead_step (Some w) (AGenerateNonce b n len) (PSA_SUCCESS, (nonce, [])) (Some (view_nonce nonce w))
| astep_ad w data :
  av_started w = false -> view_ready w = true ->
  view_declared w (fun ad _ => zlen (av_aad w ++ input_bytes data) <= ad) ->
  aead_step (Some w) (AUpdateAd data) (aead_error PSA_SUCCESS) (Some (view_ad (input_bytes data) w))
(** Text that comes out at once. *)
| astep_stream w data n out a :
  aead_algo_of (av_alg w) = Some a -> view_ready w = true ->
  av_streamed w = true \/ av_text w = [] ->
  view_declared w (fun ad plaintext =>
    zlen (av_aad w) = ad /\ zlen (av_text w ++ input_bytes data) <= plaintext) ->
  out = view_part a w (input_bytes data) -> zlen out <= n ->
  aead_step (Some w) (AUpdate data true n true) (PSA_SUCCESS, (out, []))
    (Some (view_text (input_bytes data) true w))
(** Text that is kept to the end; no text. *)
| astep_buffer w data b n :
  view_ready w = true ->
  input_bytes data = [] \/ b = false /\ av_streamed w = false ->
  view_declared w (fun ad plaintext =>
    zlen (av_aad w) = ad /\ zlen (av_text w ++ input_bytes data) <= plaintext) ->
  aead_step (Some w) (AUpdate data b n true) (PSA_SUCCESS, ([], []))
    (Some (view_text (input_bytes data) (av_streamed w) w))
| astep_finish w b n len t tn tlen a :
  aead_algo_of (av_alg w) = Some a -> av_encrypt w = true -> view_ready w = true ->
  view_declared w (fun ad plaintext => zlen (av_aad w) = ad /\ zlen (av_text w) = plaintext) ->
  zlen (view_tag a w) <= tn -> (av_streamed w = false -> zlen (av_text w) <= n) ->
  aead_step (Some w) (AFinish b n len t tn tlen)
    (PSA_SUCCESS, (if av_streamed w then [] else view_crypt a w, view_tag a w)) None
| astep_verify w b n len tag a :
  aead_algo_of (av_alg w) = Some a -> av_encrypt w = false -> view_ready w = true ->
  view_declared w (fun ad plaintext => zlen (av_aad w) = ad /\ zlen (av_text w) = plaintext) ->
  input_bytes tag = view_tag a w -> (av_streamed w = false -> zlen (av_text w) <= n) ->
  aead_step (Some w) (AVerify b n len tag)
    (PSA_SUCCESS, (if av_streamed w then [] else view_crypt a w, [])) None
| astep_abort v : aead_step v AAbort (aead_error PSA_SUCCESS) None.

Inductive aead_trace : option aead_view -> list aead_call -> list aead_result -> option aead_view -> Prop :=
| atrace_nil v : aead_trace v [] [] v
| atrace_cons v call r v' calls l v'' :
  aead_step v call r v' -> aead_trace v' calls l v'' -> aead_trace v (call :: calls) (r :: l) v''.

Fixpoint aead_runs (calls : list aead_call) : M (opstate O wolfpsa_aead_ctx) (list aead_result) :=
match calls with
| [] => mret []
| call :: calls => r ← aead_do call; l ← aead_runs calls; mret (r :: l)
end.

(** ** Views and contexts *)

Lemma view_ready_of c text :
view_ready (view_of c text) = negb ((zlen (aead_nonce c) =? 0) || wolfpsa_aead_lengths_missing c).
Proof.
unfold view_ready, view_of, wolfpsa_aead_lengths_missing. simpl.
destruct (aead_lengths_set c); [rewrite bool_decide_true by eauto|rewrite bool_decide_false by (by intros [? ?])]; done.
Qed.

Lemma ready_view a c text : aead_ready a c -> view_ready (view_of c text) = true.
Proof. intros Hr. rewrite view_ready_of. apply negb_true_iff. apply ready_spec with a; [apply Hr|done]. Qed.

Lemma view_declared_of c text (P : Z -> Z -> Prop) :
(aead_lengths_set c = true -> P (aead_ad_expected c) (aead_plaintext_expected c)) ->
view_declared (view_of c text) P.
Proof. unfold view_declared, view_of. simpl. destruct (aead_lengths_set c); auto. Qed.

Lemma is_intro a c text s :
op_ctx s = Some c -> aead_has a c text -> aead_tag_length c = wolfpsa_aead_tag_length (aead_alg c) ->
aead_is (Some (view_of c text)) s.
Proof. intros. by exists c, a. Qed.

(** The proof of a call: an error, with where it leaves the operation, or a step. *)
Definition answers v (call : aead_call) (r : aead_result) s' : Prop :=
exists v', aead_is v' s' /\ aead_step v call r v'.

Lemma answers_error v call e s' :
e <> PSA_SUCCESS -> aead_is (after_error v call e) s' -> answers v call (aead_error e) s'.
Proof. intros He Hv. eexists. split; [exact Hv|by constructor]. Qed.

(** An inactive operation answers [BAD_STATE] to all but a setup and an abort. *)
Lemma wp_do_idle call s :
op_ctx s = None ->
match call with ASetup _ _ _ | AAbort => True | _ => wp (aead_do call) (answers None call) s end.
Proof.
intros Hc. destruct call; try done; simpl;
  unfold psa_aead_set_lengths, psa_aead_set_nonce, psa_aead_generate_nonce, psa_aead_update_ad,
    psa_aead_update, psa_aead_finish, psa_aead_verify, get_ctx;
  wp_seq; rewrite Hc; wp_seq; by apply (answers_error _ _ PSA_ERROR_BAD_STATE).
Qed.

Lemma wp_do_setup_aead encrypt key alg s :
op_ctx s = None -> wp (aead_do (ASetup encrypt key alg)) (answers None (ASetup encrypt key alg)) s.
Proof.
intros Hc.
assert (H : forall usage, (usage =? PSA_KEY_USAGE_ENCRYPT) = encrypt ->
  wp (st ← wolfpsa_aead_setup key alg usage true; mret (aead_error st)) (answers None (ASetup encrypt key alg)) s).
{ intros usage Hu. apply wp_bind, wp_aead_setup; [done| |].
  - intros e s1 Hc1 He _. apply wp_ret. by apply answers_error.
  - intros at_ kd m s1 c Hc1 Hlive Hm Hhas _. apply wp_ret.
    exists (Some (view_of c [])). split; [by apply (is_intro m)|].
    assert (Hv : view_of c [] = view_open alg (attr_type at_) encrypt kd) by (unfold view_of, c; simpl; by rewrite Hu).
    rewrite Hv. eapply astep_setup; [done|]. exact (aw_tag _ _ (ah_wf _ _ _ Hhas)). }
by destruct encrypt; apply H.
Qed.

Lemma wp_do_lengths w ad plaintext s :
aead_is (Some w) s -> 0 <= ad -> 0 <= plaintext <= SIZE_MAX ->
wp (aead_do (ASetLengths ad plaintext)) (answers (Some w) (ASetLengths ad plaintext)) s.
Proof.
intros (c & a & Hc & Hhas & Hw & Ht) Had Hp. apply wp_bind, (wp_set_lengths a c (av_text w)); try done.
- intros e s1 Hc1 He _. apply wp_ret. by apply answers_error.
- intros s1 c' Hc1 _ (H1 & H2 & H3 & H4) Hhas'. apply wp_ret. exists (Some (view_of c' (av_text w))).
  split; [by apply (is_intro a)|]. generalize dependent (av_text w). intros text Hhas -> _.
  replace (view_of c' text) with (view_lengths ad plaintext (view_of c text)) by done.
  apply astep_lengths; try done. simpl. by rewrite H1.
Qed.

Lemma nonce_can_declared c text nonce :
nonce_can c nonce ->
view_declared (view_of c text) (fun ad plaintext =>
  wolfpsa_aead_check_lengths (aead_alg c) (zlen nonce) ad plaintext = PSA_SUCCESS).
Proof. intros (_ & _ & Hl). by apply view_declared_of. Qed.

Lemma wp_do_nonce w nonce s :
aead_is (Some w) s -> wp (aead_do (ASetNonce nonce)) (answers (Some w) (ASetNonce nonce)) s.
Proof.
intros Hv. pose proof Hv as (c & a & Hc & Hhas & Hw & Ht).
apply wp_bind, (wp_set_nonce a c (av_text w)); [done|done| |].
- intros e He _. apply wp_ret. by apply answers_error.
- intros s1 c' Hc1 _ Hnull Hcan Hhas'. apply wp_ret. exists (Some (view_of c' (av_text w))).
  split; [by apply (is_intro a)|]. clear Hv. generalize dependent (av_text w). intros text Hhas -> _.
  destruct nonce as [|nonce]; [done|]. simpl in Hcan.
  replace (view_of c' text) with (view_nonce nonce (view_of c text)) by done.
  pose proof (aw_algo _ _ (ah_wf _ _ _ Hhas)) as Ha. eapply astep_nonce; [exact Ha|apply Hcan| |].
  + apply (nonce_check_bounds c); [done|apply Hcan].
  + by apply nonce_can_declared.
Qed.

Lemma wp_do_generate {ROK : WolfCryptRngOk R} w b n len s :
aead_is (Some w) s -> wp (aead_do (AGenerateNonce b n len)) (answers (Some w) (AGenerateNonce b n len)) s.
Proof.
intros Hv. pose proof Hv as (c & a & Hc & Hhas & Hw & Ht).
apply wp_bind, (wp_generate_nonce a c (av_text w)); [done|done| |].
- intros e s1 Hc1 He _. apply wp_ret, (answers_error _ _ e); [done|]. by exists c, a.
- intros out s1 c' Hc1 _ Hd Hl Hn Hcan Hhas'. apply wp_ret. exists (Some (view_of c' (av_text w))).
  split; [by apply (is_intro a)|]. clear Hv. generalize dependent (av_text w). intros text Hhas -> _.
  replace (view_of c' text) with (view_nonce out (view_of c text)) by done.
  pose proof (aw_algo _ _ (ah_wf _ _ _ Hhas)) as Ha.
  eapply (astep_generate _ b n len out); [exact Ha|done|apply Hcan|done| |done|].
  + apply (nonce_check_bounds c); [done|apply Hcan].
  + by apply nonce_can_declared.
Qed.

Lemma wp_do_ad w data s :
aead_is (Some w) s -> wp (aead_do (AUpdateAd data)) (answers (Some w) (AUpdateAd data)) s.
Proof.
intros Hv. pose proof Hv as (c & a & Hc & Hhas & Hw & Ht).
assert (Hbody : av_started w = aead_body_started c) by (by rewrite Hw).
apply wp_bind, (wp_update_ad a c (av_text w)); [done|done| |].
- intros e s1 He Hc1 _. apply wp_ret, answers_error; [done|]. simpl. rewrite Hbody.
  destruct (aead_body_started c || _); [done|]. by exists c, a.
- intros s1 c' Hc1 _ (H1 & H2 & H3 & H4 & H5 & H6) Hhas'. apply wp_ret. exists (Some (view_of c' (av_text w))).
  split; [by apply (is_intro a)|]. clear Hv. generalize dependent (av_text w). intros text Hhas -> Hhas'.
  replace (view_of c' text) with (view_ad (input_bytes data) (view_of c text)) by done.
  apply astep_ad; [done| |].
  + rewrite view_ready_of, H3, orb_false_r. apply negb_true_iff, Z.eqb_neq. intros Hz%zlen_0_nil. done.
  + apply view_declared_of. intros Hset. by destruct (aw_lengths _ _ (ah_wf _ _ _ Hhas') Hset) as (_ & Hle & _).
Qed.

(** The view after an update. *)
Lemma same_view c c' text data streaming :
same_aead c c' -> aead_body_started c' = true -> aead_streaming c' = streaming ->
view_of c' (text ++ data) = view_text data streaming (view_of c text).
Proof.
intros (E1 & E2 & E3 & E4 & E5 & E6 & E7 & E8 & E9 & E10 & E11) Hb Hs. unfold view_of, view_text. simpl.
by rewrite E1, E2, E3, E4, E5, E6, E7, E8, E10, E11, Hb, Hs.
Qed.

Lemma wp_do_text w data output n len s :
aead_is (Some w) s -> wp (aead_do (AUpdate data output n len)) (answers (Some w) (AUpdate data output n len)) s.
Proof.
intros Hv. pose proof Hv as (c & a & Hc & Hhas & Hw & Ht).
apply wp_bind, (wp_aead_update a c (av_text w)); [done|done| |].
- intros e s1 He Hc1 _. apply wp_ret, (answers_error _ _ e); [done|]. simpl.
  rewrite Hw, view_ready_of, <- Hw. destruct (len && _); [done|]. by exists c, a.
- intros out c' s1 Hc1 _ Hlen Hpost. apply wp_ret. pose proof (up_same _ _ _ _ _ _ _ _ Hpost) as Hsame.
  exists (Some (view_of c' (av_text w ++ input_bytes data))). split.
  { apply (is_intro a); [done|apply Hpost|]. by destruct Hsame as (-> & _ & _ & _ & _ & _ & _ & _ & -> & _). }
  clear Hv. generalize dependent (av_text w). intros text Hhas -> Hpost. subst len.
  destruct Hpost as [Hhas' _ Hb Hst (Hr & Hdue & Hnull) Hmode Hbuf Hfit Hout].
  rewrite (same_view c c' _ _ _ Hsame Hb Hst).
  assert (Hdecl : view_declared (view_of c text) (fun ad plaintext =>
    zlen (aead_aad c) = ad /\ zlen (text ++ input_bytes data) <= plaintext)).
  { apply view_declared_of. intros Hset. destruct (Hdue Hset). split; [done|].
    by apply (due_expected a). }
  destruct (streams_now data output) eqn:Hnow.
  + rewrite orb_true_r. unfold streams_now in Hnow. apply andb_true_iff in Hnow as Hnow'. destruct Hnow' as [-> _].
    rewrite Hout. apply (astep_stream _ _ _ _ a); [apply Hhas|by apply (ready_view a)|by apply Hmode|done|done|].
    rewrite <- Hout. by apply Hfit.
  + rewrite orb_false_r, Hout. apply astep_buffer; [by apply (ready_view a)| |done].
    unfold streams_now in Hnow. destruct (Z.eqb_spec (input_length data) 0) as [Hz|Hz].
    * left. destruct data as [k|l]; [done|]. by apply zlen_0_nil.
    * right. rewrite andb_true_r in Hnow. split; [done|]. by apply Hbuf.
Qed.

Lemma view_tag_of a c text :
aead_tag_length c = wolfpsa_aead_tag_length (aead_alg c) ->
view_tag a (view_of c text) = expected_tag a c text.
Proof. intros Ht. unfold view_tag, expected_tag, plain_of, view_crypt. simpl. by rewrite Ht. Qed.

Lemma met_declared c text :
lengths_met c text ->
view_declared (view_of c text) (fun ad plaintext => zlen (aead_aad c) = ad /\ zlen text = plaintext).
Proof. intros Hm. by apply view_declared_of. Qed.

Lemma wp_do_finish_aead w b n len t tn tlen s :
aead_is (Some w) s ->
wp (aead_do (AFinish b n len t tn tlen)) (answers (Some w) (AFinish b n len t tn tlen)) s.
Proof.
intros Hv. pose proof Hv as (c & a & Hc & Hhas & Hw & Ht).
assert (Hdir : av_encrypt w = aead_direction c) by (by rewrite Hw).
apply (wp_aead_finish a c (av_text w)); [done|done| |].
- intros e s1 He Hc1 _. apply answers_error; [done|]. simpl. rewrite Hdir.
  destruct (aead_direction c); [done|]. by exists c, a.
- intros s1 Hc1 _ Hd Hr Hm Htn Hn. exists None. split; [done|]. clear Hv Hdir.
  generalize dependent (av_text w). intros text Hhas -> Hm Hn.
  pose proof (expected_tag_length a c text (ah_wf _ _ _ Hhas)) as Htl.
  rewrite <- view_tag_of in * by done.
  replace (cipher_of a c text) with (view_crypt a (view_of c text)) by (unfold cipher_of; by rewrite Hd).
  eapply (astep_finish (view_of c text)); [apply Hhas|done|by apply (ready_view a)|by apply met_declared| |done].
  simpl. lia.
Qed.

Lemma wp_do_verify_aead w b n len tag s :
aead_is (Some w) s -> wp (aead_do (AVerify b n len tag)) (answers (Some w) (AVerify b n len tag)) s.
Proof.
intros Hv. pose proof Hv as (c & a & Hc & Hhas & Hw & Ht).
assert (Hdir : av_encrypt w = aead_direction c) by (by rewrite Hw).
apply wp_bind, (wp_aead_verify a c (av_text w)); [done|done| |].
- intros e s1 He Hc1 _. apply wp_ret, (answers_error _ _ e); [done|]. simpl. rewrite Hdir.
  destruct (aead_direction c); [|done]. by exists c, a.
- intros s1 Hc1 _ Hd Htag Hr Hm Hn. apply wp_ret. exists None. split; [done|]. clear Hv Hdir.
  generalize dependent (av_text w). intros text Hhas -> Htag Hm Hn. rewrite <- view_tag_of in Htag by done.
  unfold aead_output. cbn [fst snd].
  replace (plain_of a c text) with (view_crypt a (view_of c text)) by (unfold plain_of; by rewrite Hd).
  by apply (astep_verify (view_of c text) b n len tag a);
    [apply Hhas|done|apply (ready_view a)|apply met_declared|..].
Qed.

Lemma wp_aead_do {ROK : WolfCryptRngOk R} v call s :
aead_is v s -> aead_call_ok call -> wp (aead_do call) (answers v call) s.
Proof.
intros Hv Hok. destruct call as [enc key alg|ad pt|nonce|b n len|data|data b n len|b n len t tn tlen|b n len tag|];
  destruct v as [w|];
  try (match goal with |- wp (aead_do ?call) _ _ => exact (wp_do_idle call s Hv) end).
- assert (H : wp (aead_do (ASetup enc key alg)) (fun r s' => s' = s /\ r = aead_error PSA_ERROR_BAD_STATE) s).
  { destruct Hv as (c & a & Hc & _). destruct enc; apply wp_bind; unfold psa_aead_encrypt_setup,
      psa_aead_decrypt_setup, wolfpsa_aead_setup; apply wp_bind; unfold get_ctx; apply wp_gets; rewrite Hc;
      apply wp_ret, wp_ret; done. }
  eapply wp_mono; [exact H|]. intros r s' [-> ->]. by apply answers_error.
- by apply wp_do_setup_aead.
- by apply wp_do_lengths; [..|apply Hok|apply Hok].
- by apply wp_do_nonce.
- by apply wp_do_generate.
- by apply wp_do_ad.
- by apply wp_do_text.
- by apply wp_do_finish_aead.
- by apply wp_do_verify_aead.
- simpl. unfold psa_aead_abort, set_ctx. wp_seq. exists None. split; [done|apply astep_abort].
- simpl. unfold psa_aead_abort, set_ctx. wp_seq. exists None. split; [done|apply astep_abort].
Qed.

(** C5: Every sequence of calls on a fresh operation object, whatever fails, answers
  as the state machine [aead_step] allows: additional data comes after the
  nonce and before the text, within the declared lengths; each streamed part
  is the next part of the cipher; the tag is the reference tag of the whole;
  and a verification that succeeds was given the reference tag. *)
Theorem aead_calls_refine {ROK : WolfCryptRngOk R} calls s :
Forall aead_call_ok calls ->
wp (set_ctx None;; aead_runs calls) (fun l s' => exists v, aead_is v s' /\ aead_trace None calls l v) s.
Proof.
intros Hcalls. apply wp_bind, wp_modify. assert (Hv : aead_is None (with_ctx None s)) by done.
revert Hv. generalize (with_ctx None s). generalize (@None aead_view). clear s.
induction Hcalls as [|call calls Hok _ IH]; intros v s Hv; simpl.
{ apply wp_ret. exists v. split; [done|constructor]. }
apply wp_bind. eapply wp_mono; [by apply wp_aead_do|]. intros r s1 (v1 & Hv1 & Hstep).
apply wp_bind. eapply wp_mono; [by apply IH|]. intros l s2 (v2 & Hv2 & Htr).
apply wp_ret. exists v2. split; [done|]. by econstructor.
Qed.
End AeadSpec.
