(* ===== verification/AeadProps.v ===== *)
(** Whole multi-part authenticated encryptions, however they are cut, against the
    reference of [AeadRules]. *)

From stdpp Require Import base decidable list.
From Stdlib Require Import ZArith Lia.
From Stdlib Require Import Strings.Byte.
From S2P Require Import Prelude.
From S2P Require Import Values.
From S2P Require Import Engine.
From S2P Require Import WolfCrypt.
From S2P Require Import KeyPolicy.
From S2P Require Import KeyFormat.
From S2P Require Import StoreIface.
From S2P Require Import Library.
From S2P Require Import KeyStore.
From S2P Require Import KeyStoreRules.
From S2P Require Import Operation.
From S2P Require Import Ccm.
From S2P Require Import CcmSpec.
From S2P Require Import WolfAead.
From S2P Require Import Aead.
From S2P Require Import AeadRules.
From S2P Require Import AeadFinal.
From S2P Require Import AeadOps.

#[local] Open Scope Z_scope.

Section AeadProps.
Context {C : Config} {E : WolfCryptErr} {EO : WolfCryptErrOk E} {K : WolfCryptKeys}.
Context {R : WolfCryptRng} {O : StoreOps} {B : KeyBackend}.
Context {W : WolfCryptAead} {D : WolfCryptAesDirect}.
Context {WO : WolfCryptAeadOk W D} {DO : WolfCryptAesDirectOk D}.

Implicit Types c : wolfpsa_aead_ctx.
Implicit Types s : opstate O wolfpsa_aead_ctx.


(** * Multi-part operations *)

Fixpoint aead_ads (ads : list input) : M (opstate O wolfpsa_aead_ctx) psa_status_t :=
match ads with
| [] => mret PSA_SUCCESS
| data :: ads =>
    status ← psa_aead_update_ad data;
    match status with PSA_SUCCESS => aead_ads ads | e => mret e end
end.

(** Parts of the text, with the sizes of their output buffers. *)
Fixpoint aead_updates (ios : list (input * Z)) : M (opstate O wolfpsa_aead_ctx) (psa_status_t * list byte) :=
match ios with
| [] => mret (PSA_SUCCESS, [])
| (data, size) :: ios =>
    '(status, out) ← psa_aead_update data true size true;
    match status with
    | PSA_SUCCESS => '(status, rest) ← aead_updates ios; mret (status, out ++ rest)
    | e => mret (e, [])
    end
end.

Definition aead_usage (encrypt : bool) : Z :=
if encrypt then PSA_KEY_USAGE_ENCRYPT else PSA_KEY_USAGE_DECRYPT.
Definition aead_setup (encrypt : bool) (key alg : Z) : M (opstate O wolfpsa_aead_ctx) psa_status_t :=
if encrypt then psa_aead_encrypt_setup key alg else psa_aead_decrypt_setup key alg.

(** A fresh operation, up to its last part. *)
Definition aead_feed (encrypt : bool) (key alg : Z) (lengths : option (Z * Z)) (nonce : list byte)
  (ads : list input) (ios : list (input * Z)) : M (opstate O wolfpsa_aead_ctx) (psa_status_t * list byte) :=
set_ctx None;;
status ← aead_setup encrypt key alg;
match status with
| PSA_SUCCESS =>
    status ← match lengths with
             | Some (ad, plaintext) => psa_aead_set_lengths ad plaintext
             | None => mret PSA_SUCCESS
             end;
    match status with
    | PSA_SUCCESS =>
        status ← psa_aead_set_nonce (Bytes nonce);
        match status with
        | PSA_SUCCESS =>
            status ← aead_ads ads;
            match status with PSA_SUCCESS => aead_updates ios | e => mret (e, []) end
        | e => mret (e, [])
        end
    | e => mret (e, [])
    end
| e => mret (e, [])
end.

Definition aead_encrypt_parts (key alg : Z) (lengths : option (Z * Z)) (nonce : list byte)
  (ads : list input) (ios : list (input * Z)) (size tag_size : Z)
: M (opstate O wolfpsa_aead_ctx) (psa_status_t * (list byte * list byte)) :=
'(status, out) ← aead_feed true key alg lengths nonce ads ios;
match status with
| PSA_SUCCESS =>
    '(status, (last, tag)) ← psa_aead_finish true size true true tag_size true;
    mret (match status with PSA_SUCCESS => (PSA_SUCCESS, (out ++ last, tag)) | e => (e, ([], [])) end)
| e => mret (e, ([], []))
end.

Definition aead_decrypt_parts (key alg : Z) (lengths : option (Z * Z)) (nonce : list byte)
  (ads : list input) (ios : list (input * Z)) (size : Z) (tag : list byte)
: M (opstate O wolfpsa_aead_ctx) (psa_status_t * list byte) :=
'(status, out) ← aead_feed false key alg lengths nonce ads ios;
match status with
| PSA_SUCCESS =>
    '(status, last) ← psa_aead_verify true size true (Bytes tag);
    mret (match status with PSA_SUCCESS => (PSA_SUCCESS, out ++ last) | e => (e, []) end)
| e => mret (e, [])
end.

Definition parts_message (ios : list (input * Z)) : list byte := message (map fst ios).

Lemma parts_message_cons data size ios :
parts_message ((data, size) :: ios) = input_bytes data ++ parts_message ios.
Proof. done. Qed.

(** What the calls may be given: pointers, room, and lengths that are met. *)
Definition part_ok (io : input * Z) : Prop :=
input_valid io.1 /\ zlen (input_bytes io.1) <= io.2.

Definition ad_ok (data : input) : Prop := is_null data = true -> input_length data = 0.

Definition lengths_ok (m : aead_algo) (alg : Z) (lengths : option (Z * Z)) (nonce aad text : list byte) : Prop :=
match lengths with
| Some (ad, plaintext) =>
    zlen aad = ad /\ zlen text = plaintext /\ plaintext <= SIZE_MAX /\
    wolfpsa_aead_check_lengths alg 0 ad plaintext = PSA_SUCCESS /\
    wolfpsa_aead_check_lengths alg (zlen nonce) ad plaintext = PSA_SUCCESS
| None => m <> AES_CCM
end.

(** Additional data and text, as they come. *)
Record feed_ok (m : aead_algo) (alg : Z) (lengths : option (Z * Z)) (nonce : list byte) (ads : list input)
  (ios : list (input * Z)) : Prop := {
fo_nonce : nonce_bounds m (zlen nonce);
fo_lengths : lengths_ok m alg lengths nonce (message ads) (parts_message ios);
fo_ads : Forall ad_ok ads;
fo_aad : zlen (message ads) <= UINT32_MAX;
fo_parts : Forall part_ok ios }.

(** What stays through the additional data. *)
Definition aead_shape c : Z * Z * bool * list byte * list byte * Z * Z * Z * bool * bool * bool :=
(aead_alg c, aead_key_type c, aead_direction c, aead_key c, aead_nonce c, aead_ad_expected c,
 aead_plaintext_expected c, aead_tag_length c, aead_lengths_set c, aead_body_started c, aead_streaming c).

Lemma wp_ads a c ads s (Q : psa_status_t -> opstate O wolfpsa_aead_ctx -> Prop) :
op_ctx s = Some c -> aead_has a c [] ->
(forall e s', e <> PSA_SUCCESS ->
   (aead_body_started c = false -> aead_ready a c -> Forall ad_ok ads ->
    zlen (aead_aad c) + zlen (message ads) <= UINT32_MAX ->
    (aead_lengths_set c = true -> zlen (aead_aad c) + zlen (message ads) <= aead_ad_expected c) ->
    smooth s -> False) -> Q e s') ->
(forall c' s', op_ctx s' = Some c' -> (smooth s -> smooth s') -> aead_shape c' = aead_shape c ->
   aead_aad c' = aead_aad c ++ message ads -> aead_has a c' [] -> Q PSA_SUCCESS s') ->
wp (aead_ads ads) Q s.
Proof.
revert c s Q. induction ads as [|data ads IH]; intros c s Q Hc H Hbad Hgood; simpl.
{ apply wp_ret, (Hgood c); try done. by rewrite message_nil, app_nil_r. }
rewrite message_cons, zlen_app in Hbad. pose proof (zlen_nonneg (message ads)) as Hpos.
apply wp_bind, (wp_update_ad a c []); [done|done| |].
- intros e s1 He _ Hno.
  assert (HQ : Q e s1).
  { apply Hbad; [done|]. intros Hb [_ Hn Hl] [Had _]%Forall_cons Hu Hx Hsm. apply Hno; [|done].
    assert (Hlen : input_length data = zlen (input_bytes data)).
    { destruct data as [k|l]; [|done]. by apply Had. }
    split_and!; try done; [lia|]. intros Hset. specialize (Hx Hset). lia. }
  by destruct e.
- intros s1 c' Hc1 Hsm Hcan Hhas. apply (IH c'); [done|done| |].
  + intros e s2 He Hno. apply Hbad; [done|]. intros Hb Hr [_ Hads]%Forall_cons Hu Hx Hsmo.
    assert (Hl : zlen (aead_aad c') = zlen (aead_aad c) + zlen (input_bytes data)) by apply zlen_app.
    apply Hno; [done| |done|lia| |auto].
    * destruct Hr. split; [apply Hhas|done|done].
    * intros Hset. specialize (Hx Hset). rewrite Hl. change (aead_ad_expected c') with (aead_ad_expected c). lia.
  + intros c2 s2 Hc2 Hsm2 Hshape Haad Hhas2. apply (Hgood c2); [done|auto|by rewrite Hshape| |done].
    rewrite Haad, message_cons, app_assoc. done.
Qed.

(** Text in parts: the operation streams from its first byte on. *)
Definition streams_from_start c (text : list byte) : Prop := aead_streaming c = true \/ text = [].

Lemma wp_parts a c text ios s (Q : psa_status_t * list byte -> opstate O wolfpsa_aead_ctx -> Prop) :
op_ctx s = Some c -> aead_has a c text -> streams_from_start c text ->
(forall e out s', e <> PSA_SUCCESS ->
   (aead_ready a c -> aead_streams a = true -> Forall part_ok ios ->
    (aead_lengths_set c = true ->
     zlen (aead_aad c) = aead_ad_expected c /\
     zlen text + zlen (parts_message ios) <= aead_plaintext_expected c) ->
    smooth s -> False) -> Q (e, out) s') ->
(forall out c' s', op_ctx s' = Some c' -> (smooth s -> smooth s') -> same_aead c c' ->
   aead_has a c' (text ++ parts_message ios) -> streams_from_start c' (text ++ parts_message ios) ->
   out = stream_xor (aead_stream a (aead_key c) (aead_nonce c)) (length text) (parts_message ios) ->
   Q (PSA_SUCCESS, out) s') ->
wp (aead_updates ios) Q s.
Proof.
revert c text s Q. induction ios as [|[data size] ios IH]; intros c text s Q Hc H Hstart Hbad Hgood; simpl.
{ apply wp_ret, (Hgood [] c); unfold parts_message, message; simpl; by rewrite ?app_nil_r. }
rewrite parts_message_cons, zlen_app in Hbad. pose proof (zlen_nonneg (parts_message ios)) as Hpos.
assert (Hlen : ad_ok data -> input_length data = zlen (input_bytes data)).
{ intros Hd. destruct data as [k|l]; [|done]. by apply Hd. }
apply wp_bind, (wp_aead_update a c text); [done|done| |].
- intros e s1 He _ Hno.
  assert (HQ : Q (e, []) s1).
  { apply Hbad; [done|]. intros Hr Hst [[[Hnull Hfit] Hroom] _]%Forall_cons Hdue Hsm. simpl in *.
    apply Hno; [done| | |done].
    - split; [done|]. split; [|done]. intros Hset. destruct (Hdue Hset). rewrite Hlen by done. split; [done|lia].
    - right. rewrite Hlen in * by done. apply fits_word32_spec in Hfit. by destruct Hstart; split_and!; auto. }
  by destruct e.
- intros out c1 s1 Hc1 Hsm _ Hpost.
  destruct Hpost as [Hhas1 Hsame _ Hst1 Hdue Hmode _ _ Hout]. specialize (Hlen (proj2 (proj2 Hdue))).
  assert (Hout' : out = stream_xor (aead_stream a (aead_key c) (aead_nonce c)) (length text) (input_bytes data)).
  { rewrite Hout. unfold streams_now. destruct (Z.eqb_spec (input_length data) 0) as [Hz|Hz]; [|done].
    rewrite Hlen in Hz. apply zlen_0_nil in Hz. by rewrite Hz. }
  assert (Hstart1 : streams_from_start c1 (text ++ input_bytes data)).
  { unfold streams_from_start, streams_now in *. rewrite Hst1. destruct (Z.eqb_spec (input_length data) 0) as [Hz|Hz].
    - rewrite Hlen in Hz by apply Hdue. apply zlen_0_nil in Hz. rewrite Hz, app_nil_r, orb_false_r. done.
    - left. apply orb_true_r. }
  pose proof Hsame as (_ & _ & _ & Ekey & Enonce & Eaad & Ead & Ept & _ & Eset & _).
  apply wp_bind, (IH c1 (text ++ input_bytes data)); [done|done|done| |].
  + intros e out2 s2 He Hno. apply wp_ret, Hbad; [done|]. intros Hr Hst [_ Hios]%Forall_cons Hx Hsmo.
    apply Hno; [by apply (ready_same a c)|done|done| |auto].
    intros Hset. rewrite Eset in Hset. destruct (Hx Hset). rewrite Eaad, Ead, Ept, zlen_app. split; [done|lia].
  + intros out2 c2 s2 Hc2 Hsm2 Hsame2 Hhas2 Hstart2 Hout2. apply wp_ret, (Hgood (out ++ out2) c2).
    * done.
    * auto.
    * by eapply same_trans.
    * by rewrite parts_message_cons, app_assoc.
    * by rewrite parts_message_cons, app_assoc.
    * rewrite parts_message_cons, stream_xor_app, <- Hout', Hout2, Ekey, Enonce. by rewrite length_app.
Qed.

(** The converse of [nonce_check_bounds]. *)
Lemma bounds_nonce_check c m n :
aead_algo_of (aead_alg c) = Some m -> (m = CHACHA_POLY -> aead_key_type c = PSA_KEY_TYPE_CHACHA20) ->
nonce_bounds m n -> aead_nonce_check c n = PSA_SUCCESS.
Proof.
intros Ha Hk Hb. destruct (algo_tests _ _ Ha) as (H1 & H2 & H3 & _).
unfold aead_nonce_check. rewrite H1, H2. destruct m; simpl in *.
- rewrite (proj2 (Z.eqb_neq n 0)), (proj2 (Z.ltb_ge n 12)), (proj2 (Z.ltb_ge PSA_AEAD_NONCE_MAX_SIZE n))
    by (unfold PSA_AEAD_NONCE_MAX_SIZE; lia). done.
- by rewrite (proj2 (Z.ltb_ge n 7)), (proj2 (Z.ltb_ge 13 n)) by lia.
- unfold PSA_AEAD_NONCE_LENGTH. rewrite (Hk eq_refl), H3. simpl. by rewrite Hb.
Qed.

Lemma chacha_key_type key alg usage s a key_data :
aead_key_usable key alg usage s a key_data -> aead_algo_of alg = Some CHACHA_POLY ->
attr_type a = PSA_KEY_TYPE_CHACHA20.
Proof.
intros (a' & d' & _ & _ & _ & Hk) Ha. destruct (algo_tests _ _ Ha) as (H1 & H2 & H3 & _).
unfold aead_key_checks in Hk. rewrite H1, H2, H3 in Hk. simpl in Hk.
by destruct (Z.eqb_spec (attr_type a) PSA_KEY_TYPE_CHACHA20).
Qed.

(** The declared lengths, if any, are in the context. *)
Definition declared c (lengths : option (Z * Z)) : Prop :=
match lengths with
| Some (ad, plaintext) =>
    aead_lengths_set c = true /\ aead_ad_expected c = ad /\ aead_plaintext_expected c = plaintext
| None => aead_lengths_set c = false
end.

Definition lengths_size (lengths : option (Z * Z)) : Prop :=
match lengths with Some (ad, plaintext) => 0 <= ad /\ 0 <= plaintext <= SIZE_MAX | None => True end.

(** An operation that waits for its text. *)
Record aead_primed (m : aead_algo) (lengths : option (Z * Z)) (nonce aad : list byte) c : Prop := {
ap_has : aead_has m c [];
ap_nonce : aead_nonce c = nonce;
ap_aad : aead_aad c = aad;
ap_body : aead_body_started c = false;
ap_declared : declared c lengths }.

(** The lengths, if any. *)
Lemma wp_primed_lengths m lengths c s (Q : psa_status_t -> opstate O wolfpsa_aead_ctx -> Prop) :
op_ctx s = Some c -> aead_primed m None [] [] c -> aead_ad_started c = false -> lengths_size lengths ->
(forall e s', e <> PSA_SUCCESS ->
   (match lengths with
    | Some (ad, plaintext) => wolfpsa_aead_check_lengths (aead_alg c) 0 ad plaintext = PSA_SUCCESS
    | None => True
    end -> smooth s -> False) -> Q e s') ->
(forall c' s', op_ctx s' = Some c' -> (smooth s -> smooth s') ->
   (exists ad plaintext, c' = c \/ c' = aead_with_lengths ad plaintext c) ->
   aead_primed m lengths [] [] c' -> Q PSA_SUCCESS s') ->
wp (match lengths with
    | Some (ad, plaintext) => psa_aead_set_lengths ad plaintext
    | None => mret PSA_SUCCESS
    end) Q s.
Proof.
intros Hc [Hhas Hn Ha Hb Hd] Hads Hsz Hbad Hgood. destruct lengths as [[ad plaintext]|].
- destruct Hsz as [Had Hp]. apply (wp_set_lengths m c []); [done|done|done|done| |].
  + intros e s1 Hc1 He Hno. apply Hbad; [done|]. intros Hchk _. apply Hno. split_and!; try done. by rewrite Hn.
  + intros s1 c' Hc1 Hsm _ Hhas'. apply (Hgood c'); [done|done|by exists ad, plaintext; right|]. by split.
- apply wp_ret, (Hgood c); [done|done|by exists 0, 0; left|]. by split.
Qed.

(** The nonce. *)
Lemma wp_primed_nonce m alg lengths nonce ads ios c s (Q : psa_status_t -> opstate O wolfpsa_aead_ctx -> Prop) :
op_ctx s = Some c -> aead_primed m lengths [] [] c -> aead_alg c = alg -> aead_algo_of alg = Some m ->
(m = CHACHA_POLY -> aead_key_type c = PSA_KEY_TYPE_CHACHA20) ->
(forall e, e <> PSA_SUCCESS -> (feed_ok m alg lengths nonce ads ios -> False) -> Q e s) ->
(forall s', let c' := aead_with_nonce nonce c in
   op_ctx s' = Some c' -> (smooth s -> smooth s') -> aead_primed m lengths nonce [] c' -> Q PSA_SUCCESS s') ->
wp (psa_aead_set_nonce (Bytes nonce)) Q s.
Proof.
intros Hc [Hhas Hn Ha Hb Hd] Halg Hm Hkt Hbad Hgood. apply (wp_set_nonce m c []); [done|done| |].
- intros e He Hno. apply Hbad; [done|]. intros [Hbd Hl _ _ _]. apply Hno; [done|]. simpl.
  split; [done|]. split.
  + by apply (bounds_nonce_check c m); [by rewrite Halg|..].
  + intros Hs. rewrite Halg. unfold declared in Hd. destruct lengths as [[ad pt]|]; [|congruence].
    destruct Hd as (_ & -> & ->). by destruct Hl as (_ & _ & _ & _ & ?).
- intros s' c' Hc' Hsm _ _ Hhas'. apply Hgood; [done|done|]. by split.
Qed.

Lemma fed_ready m c nonce lengths alg ads ios text :
aead_has m c text -> aead_nonce c = nonce -> declared c lengths ->
feed_ok m alg lengths nonce ads ios -> aead_ready m c.
Proof.
intros H Hn Hd [Hb Hl _ _ _]. split; [apply H| |].
- rewrite Hn. intros ->. destruct m; simpl in Hb; change (zlen (@nil byte)) with 0 in Hb; lia.
- unfold wolfpsa_aead_lengths_missing.
  destruct (algo_tests _ _ (aw_algo _ _ (ah_wf _ _ _ H))) as (_ & -> & _). unfold declared in Hd.
  destruct lengths as [[ad pt]|]; [destruct Hd as [-> _]; apply andb_false_r|]. simpl in Hl.
  by rewrite bool_decide_false.
Qed.

(** What an operation that has taken its text is to the one that was set up. *)
Record aead_fed (m : aead_algo) (lengths : option (Z * Z)) (nonce aad text : list byte) c c' : Prop := {
af_alg : aead_alg c' = aead_alg c;
af_type : aead_key_type c' = aead_key_type c;
af_key : aead_key c' = aead_key c;
af_tag : aead_tag_length c' = aead_tag_length c;
af_dir : aead_direction c' = aead_direction c;
af_has : aead_has m c' text;
af_nonce : aead_nonce c' = nonce;
af_aad : aead_aad c' = aad;
af_declared : declared c' lengths;
af_start : streams_from_start c' text }.

(** Additional data and text. *)
Lemma wp_primed_text m alg lengths nonce ads ios c s
  (Q : psa_status_t * list byte -> opstate O wolfpsa_aead_ctx -> Prop) :
op_ctx s = Some c -> aead_primed m lengths nonce [] c ->
(forall e out s', e <> PSA_SUCCESS ->
   (feed_ok m alg lengths nonce ads ios -> aead_streams m = true -> smooth s -> False) -> Q (e, out) s') ->
(forall out c' s', op_ctx s' = Some c' -> (smooth s -> smooth s') ->
   aead_fed m lengths nonce (message ads) (parts_message ios) c c' ->
   out = aead_crypt m (aead_key c) nonce (parts_message ios) -> Q (PSA_SUCCESS, out) s') ->
wp (status ← aead_ads ads; match status with PSA_SUCCESS => aead_updates ios | e => mret (e, []) end) Q s.
Proof.
intros Hc [Hhas Hn Ha Hb Hd] Hbad Hgood. apply wp_bind, (wp_ads m c); [done|done| |].
{ intros e s1 He Hno. assert (HQ : Q (e, []) s1); [|by destruct e; [|apply wp_ret ..]].
  apply Hbad; [done|]. intros Hok _. apply Hno; [done|by eapply fed_ready|apply Hok| |]; rewrite Ha.
  - apply Hok.
  - intros Hs. unfold declared in Hd. destruct lengths as [[ad pt]|]; [|congruence]. destruct Hd as (_ & -> & _).
    destruct (fo_lengths _ _ _ _ _ _ Hok) as (Hx & _). simpl. unfold zlen at 1. simpl. lia. }
intros c1 s1 Hc1 Hsm1 Hshape Haad Hhas1. rewrite Ha in Haad. simpl in Haad.
injection Hshape as F1 F2 F3 F4 F5 F6 F7 F8 F9 _ _.
assert (Hd1 : declared c1 lengths) by (unfold declared in *; by rewrite F6, F7, F9).
apply (wp_parts m c1 []); [done|done|by right| |].
- intros e out s2 He Hno. apply Hbad; [done|]. intros Hok Hst Hsm.
  apply Hno; [by eapply fed_ready; [done|by rewrite F5|..]|done|apply Hok| |by auto].
  intros Hs. unfold declared in Hd1. destruct lengths as [[ad pt]|]; [|congruence].
  destruct Hd1 as (_ & -> & ->). destruct (fo_lengths _ _ _ _ _ _ Hok) as (Hx & Hy & _).
  rewrite Haad. change (zlen (@nil byte)) with 0. split; [done|lia].
- intros out c2 s2 Hc2 Hsm2 (E1 & E2 & E3 & E4 & E5 & E6 & E7 & E8 & E9 & E10 & E11) Hhas2 Hstart Hout.
  simpl in Hhas2, Hstart. apply (Hgood out c2); [done|by auto| |].
  + split; try done; try congruence. unfold declared in *. by rewrite E7, E8, E10.
  + rewrite Hout, F4, F5, Hn. done.
Qed.

Lemma live_ctx key alg usage multipart s a key_data c :
aead_live key alg usage multipart (with_ctx None s) a key_data c ->
aead_live key alg usage multipart s a key_data c.
Proof. intros []. by split. Qed.

(** The key that an operation was set up with is the one in question. *)
Lemma live_pinned key alg usage multipart s a key_data c m :
aead_live key alg usage multipart s a key_data c -> aead_algo_of alg = Some m ->
forall a' key_data' m', aead_key_usable key alg usage s a' key_data' -> aead_algo_of alg = Some m' ->
a' = a /\ key_data' = key_data /\ m' = m.
Proof.
intros Hl Hm a' kd' m' Hu Hm'.
destruct (aead_usable_unique _ _ _ _ _ _ _ _ (al_key _ _ _ _ _ _ _ _ Hl) Hu) as [-> ->].
split_and!; congruence.
Qed.

Lemma wp_aead_feed encrypt key alg lengths nonce ads ios s
  (Q : psa_status_t * list byte -> opstate O wolfpsa_aead_ctx -> Prop) :
lengths_size lengths ->
(forall e out s', e <> PSA_SUCCESS ->
   (forall a key_data m, aead_setup_feasible key alg (aead_usage encrypt) true s ->
      aead_key_usable key alg (aead_usage encrypt) s a key_data -> aead_algo_of alg = Some m ->
      feed_ok m alg lengths nonce ads ios -> False) -> Q (e, out) s') ->
(forall a key_data m c0 c out s', op_ctx s' = Some c ->
   aead_live key alg (aead_usage encrypt) true s a key_data c -> aead_algo_of alg = Some m ->
   aead_fed m lengths nonce (message ads) (parts_message ios) c0 c ->
   out = aead_crypt m key_data nonce (parts_message ios) ->
   (aead_setup_feasible key alg (aead_usage encrypt) true s -> smooth s') -> Q (PSA_SUCCESS, out) s') ->
wp (aead_feed encrypt key alg lengths nonce ads ios) Q s.
Proof.
intros Hsz Hbad Hgood. unfold aead_feed. apply wp_bind, wp_modify.
assert (Hset : aead_setup encrypt key alg = wolfpsa_aead_setup key alg (aead_usage encrypt) true) by (by destruct encrypt).
rewrite Hset. apply wp_bind, wp_aead_setup; [done| |].
{ intros e s1 Hc1 He Hno. destruct e; [done|apply wp_ret, Hbad; [done|]; intros a kd m Hf; by destruct (Hno Hf) ..]. }
intros a kd m s1 c Hc1 Hlive%live_ctx Hm Hhas Hsm1. pose proof (live_pinned _ _ _ _ _ _ _ _ _ Hlive Hm) as Hpin.
assert (Hmono : forall e s', e <> PSA_SUCCESS -> (feed_ok m alg lengths nonce ads ios -> aead_streams m = true ->
    smooth s1 -> False) -> forall out, Q (e, out) s').
{ intros e s' He Hno out. apply Hbad; [done|]. intros a' kd' m' Hf Hu Hm' Hok.
  destruct (Hpin _ _ _ Hu Hm') as (-> & -> & ->). apply Hno; [done|by apply (al_streams _ _ _ _ _ _ _ _ Hlive)|by apply Hsm1]. }
apply wp_bind, (wp_primed_lengths m lengths c); [done|by split|done|done| |].
{ intros e s2 He Hno. assert (HQ : Q (e, []) s2); [|by destruct e; [|apply wp_ret ..]].
  apply Hmono; [done|]. intros [_ Hl _ _ _] _. apply Hno.
  destruct lengths as [[ad pt]|]; [|done]. by destruct Hl as (_ & _ & _ & ? & _). }
intros c2 s2 Hc2 Hsm2 (ad & pt & Hc2eq) Hprimed2.
assert (Hlive2 : aead_live key alg (aead_usage encrypt) true s a kd c2).
{ apply (aead_live_shape _ _ _ _ _ _ _ c); [by destruct Hc2eq as [->| ->] ..|done]. }
apply wp_bind, (wp_primed_nonce m alg lengths nonce ads ios c2); [done|done|apply Hlive2|done| | |].
{ intros ->. rewrite (al_type _ _ _ _ _ _ _ _ Hlive2). by eapply chacha_key_type; [apply Hlive2|]. }
{ intros e He Hno. assert (HQ : Q (e, []) s2); [|by destruct e; [|apply wp_ret ..]].
  apply Hmono; [done|]. intros Hok _ _. by apply Hno. }
intros s3 c3 Hc3 Hsm3 Hprimed3. apply (wp_primed_text m alg lengths nonce ads ios c3); [done|done| |].
- intros e out s4 He Hno. apply Hmono; [done|]. intros Hok Hst Hsm. apply Hno; [done|done|by auto].
- intros out c4 s4 Hc4 Hsm4 Hfed Hout. apply (Hgood a kd m c3 c4); [done| |done|done| |by auto].
  + destruct Hfed. by apply (aead_live_shape _ _ _ _ _ _ _ c2).
  + rewrite Hout. change (aead_key c3) with (aead_key c2). by rewrite (al_data _ _ _ _ _ _ _ _ Hlive2).
Qed.

(** An operation that streams from its first byte keeps nothing back. *)
Lemma streamed_empty a c text (f : list byte -> list byte) :
aead_has a c text -> streams_from_start c text -> f [] = [] ->
(if aead_streaming c then [] else f text) = [].
Proof. intros H Hst Hf. destruct (aead_streaming c) eqn:Hs; [done|]. destruct Hst as [?| ->]; [congruence|done]. Qed.

Lemma declared_met c lengths nonce m alg ads ios :
declared c lengths -> aead_aad c = message ads -> feed_ok m alg lengths nonce ads ios ->
lengths_met c (parts_message ios).
Proof.
intros Hd Ha Hok Hs. pose proof (fo_lengths _ _ _ _ _ _ Hok) as Hl. unfold declared in Hd.
destruct lengths as [[ad pt]|]; [|congruence]. destruct Hd as (_ & -> & ->). rewrite Ha. by destruct Hl as (? & ? & _).
Qed.

(** An algorithm with a key of the size that it needs when it is not streamed. *)
Definition key_fits (m : aead_algo) (key_data : list byte) : Prop := m = CHACHA_POLY -> zlen key_data = 32.

Lemma live_can_buffer key alg usage multipart s a key_data m c :
aead_live key alg usage multipart s a key_data c -> aead_algo_of alg = Some m -> key_fits m key_data ->
can_buffer m c.
Proof.
intros Hl Hm Hk Hc. split.
- rewrite (al_alg _ _ _ _ _ _ _ _ Hl). apply (al_plain _ _ _ _ _ _ _ _ Hl). by rewrite Hm, Hc.
- rewrite (al_data _ _ _ _ _ _ _ _ Hl). by apply Hk.
Qed.

(** However the additional data and the text are cut, a multi-part encryption that
  succeeds has written the cipher text and the tag of the whole text, under the
  key that it was set up with; and when no call fails, the nonce suits the
  algorithm, the declared lengths are the right ones and each buffer has room,
  it does succeed. *)
Theorem aead_encrypt_parts_spec key alg lengths nonce ads ios size tag_size s :
lengths_size lengths -> 0 <= size ->
wp (aead_encrypt_parts key alg lengths nonce ads ios size tag_size)
  (fun r _ =>
     (r.1 = PSA_SUCCESS -> exists a key_data m,
        aead_key_usable key alg PSA_KEY_USAGE_ENCRYPT s a key_data /\ aead_algo_of alg = Some m /\
        r.2 = aead_seal m (wolfpsa_aead_tag_length alg) key_data nonce (message ads) (parts_message ios)) /\
     (forall a key_data m, aead_setup_feasible key alg PSA_KEY_USAGE_ENCRYPT true s ->
        aead_key_usable key alg PSA_KEY_USAGE_ENCRYPT s a key_data -> aead_algo_of alg = Some m ->
        feed_ok m alg lengths nonce ads ios -> key_fits m key_data ->
        wolfpsa_aead_tag_length alg <= tag_size -> r.1 = PSA_SUCCESS)) s.
Proof.
intros Hsz Hsize. apply wp_bind, wp_aead_feed; [done| |].
{ intros e out s1 He Hno. destruct e; [done|apply wp_ret; (split; [done|]); intros a kd m Hf Hu Hm Hok;
    by destruct (Hno a kd m Hf Hu Hm Hok) ..]. }
intros a kd m c0 c out s1 Hc1 Hlive Hm [_ _ _ _ _ Hhas Hn Ha Hd Hst] Hout Hsm.
pose proof (al_tag _ _ _ _ _ _ _ _ Hlive) as Htag. pose proof (al_alg _ _ _ _ _ _ _ _ Hlive) as Halg.
pose proof (al_data _ _ _ _ _ _ _ _ Hlive) as Hkd. pose proof (al_dir _ _ _ _ _ _ _ _ Hlive) as Hdir.
apply wp_bind, (wp_aead_finish m c (parts_message ios)); [done|done| |].
- intros e s2 He Hc2 Hno.
  assert (Hlast : forall a' kd' m', aead_setup_feasible key alg PSA_KEY_USAGE_ENCRYPT true s ->
    aead_key_usable key alg PSA_KEY_USAGE_ENCRYPT s a' kd' -> aead_algo_of alg = Some m' ->
    feed_ok m' alg lengths nonce ads ios -> key_fits m' kd' ->
    wolfpsa_aead_tag_length alg <= tag_size -> False).
  { intros a' kd' m' Hf Hu Hm' Hok Hk Hts.
    destruct (aead_usable_unique _ _ _ _ _ _ _ _ (al_key _ _ _ _ _ _ _ _ Hlive) Hu) as [-> ->].
    rewrite Hm in Hm'. injection Hm' as <-. apply Hno; [by rewrite Hdir| |by apply Hsm].
    split_and!; try done; [by left|by eapply fed_ready|by eapply declared_met|by rewrite Htag|].
    destruct (aead_streaming c) eqn:Hs; [by apply (al_streams _ _ _ _ _ _ _ _ Hlive)|].
    destruct Hst as [?| ->]; [congruence|]. change (zlen (@nil byte)) with 0.
    split_and!; [done|done|by eapply live_can_buffer]. }
  destruct e; [done|apply wp_ret; (split; [done|]); intros a' kd' m' Hf Hu Hm' Hok Hk Hts;
    by destruct (Hlast a' kd' m' Hf Hu Hm' Hok Hk Hts) ..].
- intros s2 Hc2 Hsm2 Hdt Hr Hmet Hts _. apply wp_ret. split; [|done]. intros _. exists a, kd, m.
  split; [apply Hlive|]. split; [done|]. cbn [snd].
  rewrite (streamed_empty m c _ (cipher_of m c)) by (try done; unfold cipher_of; by rewrite Hdt).
  rewrite app_nil_r, Hout. unfold aead_seal, expected_tag, plain_of. by rewrite Hdt, Htag, Hkd, Hn, Ha.
Qed.

(** C6: However the additional data and the cipher text are cut, a multi-part
  decryption succeeds on the right tag only, and has then written the plain
  text; when no call fails and the lengths, nonce and buffers suit, a wrong
  tag is the one reason for it to fail, with [INVALID_SIGNATURE]. *)
Theorem aead_decrypt_parts_spec key alg lengths nonce ads ios size tag s :
lengths_size lengths -> 0 <= size ->
wp (aead_decrypt_parts key alg lengths nonce ads ios size tag)
  (fun r _ =>
     (r.1 = PSA_SUCCESS -> exists a key_data m,
        aead_key_usable key alg PSA_KEY_USAGE_DECRYPT s a key_data /\ aead_algo_of alg = Some m /\
        aead_open m (wolfpsa_aead_tag_length alg) key_data nonce (message ads) (parts_message ios) tag
          = Some r.2) /\
     (forall a key_data m, aead_setup_feasible key alg PSA_KEY_USAGE_DECRYPT true s ->
        aead_key_usable key alg PSA_KEY_USAGE_DECRYPT s a key_data -> aead_algo_of alg = Some m ->
        feed_ok m alg lengths nonce ads ios -> key_fits m key_data ->
        match aead_open m (wolfpsa_aead_tag_length alg) key_data nonce (message ads) (parts_message ios) tag with
        | Some text => r = (PSA_SUCCESS, text)
        | None => r = (PSA_ERROR_INVALID_SIGNATURE, [])
        end)) s.
Proof.
intros Hsz Hsize. apply wp_bind, wp_aead_feed; [done| |].
{ intros e out s1 He Hno. destruct e; [done|apply wp_ret; (split; [done|]); intros a kd m Hf Hu Hm Hok;
    by destruct (Hno a kd m Hf Hu Hm Hok) ..]. }
intros a kd m c0 c out s1 Hc1 Hlive Hm [_ _ _ _ _ Hhas Hn Ha Hd Hst] Hout Hsm.
pose proof (al_tag _ _ _ _ _ _ _ _ Hlive) as Htag. pose proof (al_alg _ _ _ _ _ _ _ _ Hlive) as Halg.
pose proof (al_data _ _ _ _ _ _ _ _ Hlive) as Hkd. pose proof (al_dir _ _ _ _ _ _ _ _ Hlive) as Hdir.
assert (Hopen : aead_open m (wolfpsa_aead_tag_length alg) kd nonce (message ads) (parts_message ios) tag
  = if bool_decide (tag = expected_tag m c (parts_message ios)) then Some out else None).
{ unfold aead_open, expected_tag, plain_of. by rewrite Hdir, Htag, Hkd, Hn, Ha, Hout. }
pose proof (live_pinned _ _ _ _ _ _ _ _ _ Hlive Hm) as Hpin.
apply wp_bind, (wp_aead_verify m c (parts_message ios)); [done|done| |].
- intros e s2 He Hc2 Hno.
  assert (Hlast : forall a' kd' m', aead_setup_feasible key alg PSA_KEY_USAGE_DECRYPT true s ->
    aead_key_usable key alg PSA_KEY_USAGE_DECRYPT s a' kd' -> aead_algo_of alg = Some m' ->
    feed_ok m' alg lengths nonce ads ios -> key_fits m' kd' ->
    match aead_open m' (wolfpsa_aead_tag_length alg) kd' nonce (message ads) (parts_message ios) tag with
    | Some text => (e, []) = (PSA_SUCCESS, text)
    | None => (e, @nil byte) = (PSA_ERROR_INVALID_SIGNATURE, [])
    end).
  { intros a' kd' m' Hf Hu Hm' Hok Hk. destruct (Hpin _ _ _ Hu Hm') as (-> & -> & ->).
    destruct Hno as [Hne ->]; [by rewrite Hdir| |by apply Hsm|].
    - split_and!; try done; [by left|by eapply fed_ready|by eapply declared_met|].
      destruct (aead_streaming c) eqn:Hs; [by apply (al_streams _ _ _ _ _ _ _ _ Hlive)|].
      destruct Hst as [?| ->]; [congruence|]. change (zlen (@nil byte)) with 0.
      split_and!; [done|done|by eapply live_can_buffer].
    - rewrite Hopen. simpl in Hne. by rewrite bool_decide_false. }
  destruct e; [done|by apply wp_ret ..].
- intros s2 Hc2 Hsm2 Hdt Ht Hr Hmet _. simpl in Ht. apply wp_ret. cbn [fst snd].
  rewrite (streamed_empty m c _ (plain_of m c)) by (try done; unfold plain_of; by rewrite Hdt).
  rewrite app_nil_r. rewrite bool_decide_true in Hopen by done. split.
  + intros _. exists a, kd, m. split; [apply Hlive|done].
  + intros a' kd' m' Hf Hu Hm' _ _. destruct (Hpin _ _ _ Hu Hm') as (-> & -> & ->). by rewrite Hopen.
Qed.
End AeadProps.
