(* ===== verification/AeadOneShotSpec.v ===== *)
(** The one-shot calls of authenticated encryption, against the reference of
    [AeadRules]: the algorithms that go through an operation, then those that are
    one-shot only, XChaCha20-Poly1305 and Ascon-AEAD128, and last the calls whole,
    for every algorithm, with decryption as the inverse of encryption. *)

From stdpp Require Import base decidable list.
From Stdlib Require Import ZArith Lia.
From Stdlib Require Import Strings.Byte.
From S2P Require Import Prelude.
From S2P Require Import Values.
From S2P Require Import Engine.
From S2P Require Import WolfCrypt.
From S2P Require Import KeyPolicy.
From S2P Require Import KeyFormat.
From S2P Require Import StoreIface.
From S2P Require Import Library.
From S2P Require Import KeyStore.
From S2P Require Import KeyStoreRules.
From S2P Require Import Operation.
From S2P Require Import Ccm.
From S2P Require Import CcmSpec.
From S2P Require Import WolfAead.
From S2P Require Import Aead.
From S2P Require Import AeadOneShot.
From S2P Require Import AeadRules.
From S2P Require Import AeadFinal.
From S2P Require Import AeadOps.
From S2P Require Import AeadProps.

#[local] Open Scope Z_scope.

(** * The two algorithms that are one-shot only *)

Inductive seal_algo : Set := XCHACHA | ASCON.

Definition seal_alg (v : seal_algo) : Z :=
  match v with XCHACHA => PSA_ALG_XCHACHA20_POLY1305 | ASCON => PSA_ALG_ASCON_AEAD128 end.

(** Which of them a call takes; [None]: it goes through an operation. *)
Definition oneshot_only {C : Config} (alg : Z) : option seal_algo :=
  if HAVE_XCHACHA && PSA_ALG_AEAD_EQUAL alg PSA_ALG_XCHACHA20_POLY1305 then Some XCHACHA
  else if HAVE_ASCON && PSA_ALG_AEAD_EQUAL alg PSA_ALG_ASCON_AEAD128 then Some ASCON
  else None.

Section AeadOneShotSpec.
Context {C : Config} {E : WolfCryptErr} {EO : WolfCryptErrOk E} {K : WolfCryptKeys}.
Context {R : WolfCryptRng} {O : StoreOps} {B : KeyBackend}.
Context {W : WolfCryptAead} {D : WolfCryptAesDirect}.
Context {WO : WolfCryptAeadOk W D} {DO : WolfCryptAesDirectOk D}.

Implicit Types c : wolfpsa_aead_ctx.
Implicit Types s : opstate O wolfpsa_aead_ctx.


(** * One shot *)

(** What the one-shot calls may be given, but for the room of the output. *)
Record load_ok (m : aead_algo) (nonce additional_data data : input) : Prop := {
lo_nonce : is_null nonce = false;
lo_bounds : nonce_bounds m (zlen (input_bytes nonce));
lo_ad : ad_ok additional_data;
lo_aad : zlen (input_bytes additional_data) <= UINT32_MAX;
lo_data : ad_ok data;
lo_size : zlen (input_bytes data) <= UINT32_MAX;
lo_ccm : m = AES_CCM -> zlen (input_bytes data) < 256 ^ (15 - zlen (input_bytes nonce)) }.

Lemma ad_ok_length data : ad_ok data -> input_length data = zlen (input_bytes data).
Proof. intros H. destruct data as [k|l]; [|done]. by rewrite H. Qed.

Lemma input_length_nonneg data : 0 <= input_length data.
Proof. destruct data; [simpl; lia|apply zlen_nonneg]. Qed.

(** The lengths that CCM accepts. *)
Lemma ccm_lengths_ok alg n ad plaintext :
aead_algo_of alg = Some AES_CCM -> n = 0 \/ 7 <= n <= 13 /\ plaintext < 256 ^ (15 - n) ->
ad <= UINT32_MAX -> 0 <= plaintext ->
wolfpsa_aead_check_lengths alg n ad plaintext = PSA_SUCCESS.
Proof.
intros Ha Hn Had Hp. destruct (algo_tests _ _ Ha) as (H1 & H2 & H3 & _). unfold wolfpsa_aead_check_lengths.
rewrite H2. unfold wolfpsa_aead_limits. cbn [existsb]. rewrite H1, H3.
change (bool_decide (AES_CCM = AES_CCM)) with true. change (bool_decide (AES_CCM = AES_GCM)) with false.
change (bool_decide (AES_CCM = CHACHA_POLY)) with false. rewrite (proj2 (fits_word32_spec ad) Had).
cbn [andb orb negb].
assert (Hz : negb (n =? 0) && (15 - n <? 8) && negb (Z.shiftr plaintext (8 * (15 - n)) =? 0) = false); [|by rewrite Hz].
destruct Hn as [->|[Hn Hlt]]; [done|].
assert (H256 : 256 ^ (15 - n) = 2 ^ (8 * (15 - n))) by (rewrite Z.pow_mul_r by lia; done).
rewrite Z.shiftr_div_pow2, Z.div_small by lia. apply andb_false_r.
Qed.

(** A loaded context. *)
Record aead_loaded (m : aead_algo) (nonce aad text : list byte) c c' : Prop := {
ld_alg : aead_alg c' = aead_alg c;
ld_type : aead_key_type c' = aead_key_type c;
ld_key : aead_key c' = aead_key c;
ld_tag : aead_tag_length c' = aead_tag_length c;
ld_dir : aead_direction c' = aead_direction c;
ld_ready : aead_ready m c';
ld_has : aead_has m c' text;
ld_nonce : aead_nonce c' = nonce;
ld_aad : aead_aad c' = aad;
ld_met : lengths_met c' text;
ld_buffered : aead_streaming c' = false }.

(** The lengths that a one-shot call declares. *)
Definition load_lengths (m : aead_algo) (additional_data data : input) : option (Z * Z) :=
if bool_decide (m = AES_CCM) then Some (input_length additional_data, input_length data) else None.

Lemma wp_load_text m c additional_data data nonce output_length s
  (Q : psa_status_t -> opstate O wolfpsa_aead_ctx -> Prop) :
op_ctx s = Some c -> aead_primed m (load_lengths m additional_data data) nonce [] c ->
aead_streaming c = false ->
(forall e s', e <> PSA_SUCCESS ->
   (output_length = true -> nonce <> [] -> ad_ok additional_data -> ad_ok data ->
    zlen (input_bytes additional_data) <= UINT32_MAX -> zlen (input_bytes data) <= UINT32_MAX ->
    smooth s -> False) -> Q e s') ->
(forall c' s', op_ctx s' = Some c' -> (smooth s -> smooth s') -> output_length = true ->
   aead_loaded m nonce (input_bytes additional_data) (input_bytes data) c c' -> Q PSA_SUCCESS s') ->
wp (status ← psa_aead_update_ad additional_data;
    match status with
    | PSA_SUCCESS => '(status, _) ← psa_aead_update data false 0 output_length; mret status
    | e => mret e
    end) Q s.
Proof.
intros Hc [Hhas Hn Ha Hb Hd] Hst Hbad Hgood.
assert (Hmiss : wolfpsa_aead_lengths_missing c = false).
{ unfold wolfpsa_aead_lengths_missing, load_lengths in *.
  destruct (algo_tests _ _ (aw_algo _ _ (ah_wf _ _ _ Hhas))) as (_ & -> & _).
  destruct (bool_decide (m = AES_CCM)); [|done]. simpl in Hd. by destruct Hd as [-> _]. }
assert (Hx : ad_ok additional_data -> ad_ok data -> aead_lengths_set c = true ->
  aead_ad_expected c = zlen (input_bytes additional_data) /\
  aead_plaintext_expected c = zlen (input_bytes data)).
{ intros H1 H2 Hset. unfold load_lengths in Hd. destruct (bool_decide (m = AES_CCM)); simpl in Hd; [|congruence].
  destruct Hd as (_ & -> & ->). by rewrite !ad_ok_length by done. }
apply wp_bind, (wp_update_ad m c []); [done|done| |].
{ intros e s1 He _ Hno. assert (HQ : Q e s1); [|by destruct e; [|apply wp_ret ..]].
  apply Hbad; [done|]. intros _ Hne Had Hda Hu _ Hsm. apply Hno; [|done].
  split_and!; [done|congruence|done|done|rewrite Ha, ad_ok_length by done; exact Hu|].
  intros Hset. destruct (Hx Had Hda Hset) as [-> _]. rewrite Ha, ad_ok_length by done. done. }
intros s1 c1 Hc1 Hsm1 (_ & Hne & _ & Had & _) Hhas1.
assert (Haad : aead_aad c1 = input_bytes additional_data) by (unfold c1; simpl; by rewrite Ha).
apply wp_bind, (wp_aead_update m c1 []); [done|done| |].
- intros e s2 He _ Hno. assert (HQ : Q e s2); [|by destruct e; [|apply wp_ret ..]].
  apply Hbad; [done|]. intros Hol _ _ Hda _ Hu Hsm. apply Hno; [done| | |by apply Hsm1].
  + split; [by split; [apply Hhas1|..]|]. split; [|done]. intros Hset.
    rewrite Haad, (ad_ok_length data) by done. destruct (Hx Had Hda Hset) as [H1 H2].
    change (zlen (@nil byte)) with 0. change (aead_ad_expected c1) with (aead_ad_expected c).
    change (aead_plaintext_expected c1) with (aead_plaintext_expected c). split; [done|lia].
  + right. split; [done|]. rewrite (ad_ok_length data) by done. change (zlen (@nil byte)) with 0.
    unfold SIZE_MAX, UINT32_MAX in *. lia.
- intros out c2 s2 Hc2 Hsm2 Hol Hpost. apply wp_ret.
  destruct Hpost as [Hhas2 Hsame _ Hst2 (Hr & Hdue & Hda) _ _ _ _].
  pose proof Hsame as (E1 & E2 & E3 & E4 & E5 & E6 & E7 & E8 & E9 & E10 & E11).
  apply (Hgood c2); [done|by auto|done|]. split; try done.
  + by apply (ready_same m c1).
  + by rewrite E5.
  + by rewrite E6, Haad.
  + intros Hset. rewrite E10 in Hset. destruct (Hx Had Hda Hset) as [H1 H2]. rewrite E6, E7, E8, Haad.
    by split.
  + rewrite Hst2. unfold streams_now. simpl. by rewrite orb_false_r.
Qed.

Lemma wp_aead_load alg m c nonce additional_data data output_length s
  (Q : psa_status_t -> opstate O wolfpsa_aead_ctx -> Prop) :
op_ctx s = Some c -> aead_alg c = alg -> aead_algo_of alg = Some m ->
aead_primed m None [] [] c -> aead_ad_started c = false -> aead_streaming c = false ->
(m = CHACHA_POLY -> aead_key_type c = PSA_KEY_TYPE_CHACHA20) -> input_length data <= SIZE_MAX ->
(forall e s', e <> PSA_SUCCESS ->
   (output_length = true -> load_ok m nonce additional_data data -> smooth s -> False) -> Q e s') ->
(forall c' s', op_ctx s' = Some c' -> (smooth s -> smooth s') -> output_length = true ->
   aead_loaded m (input_bytes nonce) (input_bytes additional_data) (input_bytes data) c c' ->
   Q PSA_SUCCESS s') ->
wp (aead_load alg nonce additional_data data output_length) Q s.
Proof.
intros Hc Halg Hm Hp Hads Hst Hkt Hsz Hbad Hgood. unfold aead_load.
destruct (algo_tests _ _ Hm) as (_ & -> & _).
assert (Heq : (if bool_decide (m = AES_CCM)
               then psa_aead_set_lengths (input_length additional_data) (input_length data)
               else mret PSA_SUCCESS)
  = match load_lengths m additional_data data with
    | Some (ad, plaintext) => psa_aead_set_lengths ad plaintext
    | None => mret PSA_SUCCESS
    end) by (unfold load_lengths; by case_bool_decide).
rewrite Heq. pose proof (input_length_nonneg data). pose proof (input_length_nonneg additional_data).
apply wp_bind, (wp_primed_lengths m (load_lengths m additional_data data) c); [done|done|done| | |].
{ unfold load_lengths, lengths_size. by case_bool_decide. }
{ intros e s1 He Hno. assert (HQ : Q e s1); [|by destruct e; [|apply wp_ret ..]].
  apply Hbad; [done|]. intros _ [] Hsm. apply Hno; [|done]. unfold load_lengths.
  case_bool_decide as Hccm; [|done]. subst m. rewrite Halg.
  apply ccm_lengths_ok; [done|by left| |done]. by rewrite ad_ok_length. }
intros c1 s1 Hc1 Hsm1 (ad & pt & Heq1) [Hhas1 Hn1 Ha1 Hb1 Hd1].
assert (Hf1 : aead_alg c1 = aead_alg c /\ aead_key_type c1 = aead_key_type c /\ aead_key c1 = aead_key c /\
  aead_tag_length c1 = aead_tag_length c /\ aead_direction c1 = aead_direction c /\
  aead_streaming c1 = aead_streaming c) by (by destruct Heq1 as [->| ->]).
destruct Hf1 as (F1 & F2 & F3 & F4 & F5 & F6).
apply wp_bind, (wp_set_nonce m c1 []); [done|done| |].
{ intros e He Hno. assert (HQ : Q e s1); [|by destruct e; [|apply wp_ret ..]].
  apply Hbad; [done|]. intros _ [] Hsm. apply Hno; [done|]. split; [done|]. split.
  - apply (bounds_nonce_check c1 m); [by rewrite F1, Halg|by rewrite F2|done].
  - intros Hset. rewrite F1, Halg. unfold load_lengths in Hd1.
    destruct (decide (m = AES_CCM)) as [Hccm|Hccm].
    + rewrite bool_decide_true in Hd1 by done. destruct Hd1 as (_ & -> & ->). subst m.
      rewrite !ad_ok_length by done. apply ccm_lengths_ok; [done| |done|apply zlen_nonneg].
      right. split; [done|auto].
    + rewrite bool_decide_false in Hd1 by done. simpl in Hd1. congruence. }
intros s2 c2 Hc2 Hsm2 Hnn Hcan Hhas2.
apply (wp_load_text m c2 _ _ (input_bytes nonce)); [done|by split|by rewrite <- Hst, <- F6| |].
- intros e s3 He Hno. apply Hbad; [done|]. intros Hol [] Hsm. apply Hno; try done; [|by auto].
  intros Hz. rewrite Hz in lo_bounds0. destruct m; simpl in lo_bounds0; change (zlen (@nil byte)) with 0 in *; lia.
- intros c3 s3 Hc3 Hsm3 Hol []. apply (Hgood c3); [done|by auto|done|]. split; try done.
  + by rewrite ld_alg0.
  + by rewrite ld_type0.
  + by rewrite ld_key0.
  + by rewrite ld_tag0.
  + by rewrite ld_dir0.
Qed.

Lemma live_loaded key alg usage multipart s a key_data m nonce aad text c c' :
aead_live key alg usage multipart s a key_data c -> aead_loaded m nonce aad text c c' ->
aead_live key alg usage multipart s a key_data c'.
Proof. intros Hl []. by apply (aead_live_shape _ _ _ _ _ _ _ c). Qed.

(** The tag of what is loaded. *)
Lemma loaded_tag key alg usage multipart s a key_data m nonce aad text c c' :
aead_live key alg usage multipart s a key_data c -> aead_loaded m nonce aad text c c' ->
expected_tag m c' text
  = aead_tag m (wolfpsa_aead_tag_length alg) key_data nonce aad
      (if aead_direction c then text else aead_crypt m key_data nonce text) /\
aead_tag_length c' = wolfpsa_aead_tag_length alg.
Proof.
intros Hl Hld. pose proof (live_loaded _ _ _ _ _ _ _ _ _ _ _ _ _ Hl Hld) as Hl'.
pose proof (al_tag _ _ _ _ _ _ _ _ Hl') as Ht. pose proof (al_data _ _ _ _ _ _ _ _ Hl') as Hk.
split; [|exact Ht]. unfold expected_tag, plain_of. rewrite Ht, Hk.
by rewrite (ld_nonce _ _ _ _ _ _ Hld), (ld_aad _ _ _ _ _ _ Hld), (ld_dir _ _ _ _ _ _ Hld).
Qed.

Lemma set_ctx_start {A} (m : M (opstate O wolfpsa_aead_ctx) A) (Q : A -> opstate O wolfpsa_aead_ctx -> Prop) s :
wp m Q (with_ctx None s) -> wp (set_ctx None;; m) Q s.
Proof. intros H. by apply wp_bind, wp_modify. Qed.

Lemma oneshot_only_none alg :
oneshot_only alg = None ->
HAVE_XCHACHA && PSA_ALG_AEAD_EQUAL alg PSA_ALG_XCHACHA20_POLY1305 = false /\
HAVE_ASCON && PSA_ALG_AEAD_EQUAL alg PSA_ALG_ASCON_AEAD128 = false.
Proof. unfold oneshot_only. destruct (HAVE_XCHACHA && _); [done|]. by destruct (HAVE_ASCON && _). Qed.

(** An encryption that succeeded. *)
Definition sealed_as (key alg : Z) s (nonce aad text out : list byte) : Prop :=
exists a key_data m, aead_key_usable key alg PSA_KEY_USAGE_ENCRYPT s a key_data /\
aead_algo_of alg = Some m /\
out = (let '(ct, tag) := aead_seal m (wolfpsa_aead_tag_length alg) key_data nonce aad text in ct ++ tag).

(** A key for [alg] that may be used so, and nothing that fails. *)
Definition oneshot_can (key alg usage : Z) s (nonce additional_data data : input)
  (a : psa_key_attributes_t) (key_data : list byte) (m : aead_algo) : Prop :=
aead_setup_feasible key alg usage false s /\ aead_key_usable key alg usage s a key_data /\
aead_algo_of alg = Some m /\ load_ok m nonce additional_data data /\ key_fits m key_data.

Definition encrypt_post (key alg : Z) (nonce additional_data plaintext : input) (ciphertext_size : Z) s
  (r : psa_status_t * list byte) : Prop :=
(r.1 = PSA_SUCCESS ->
   sealed_as key alg s (input_bytes nonce) (input_bytes additional_data) (input_bytes plaintext) r.2 /\
   zlen r.2 <= ciphertext_size) /\
(forall a key_data m,
   oneshot_can key alg PSA_KEY_USAGE_ENCRYPT s nonce additional_data plaintext a key_data m ->
   zlen (input_bytes plaintext) + wolfpsa_aead_tag_length alg <= ciphertext_size -> r.1 = PSA_SUCCESS).

Lemma aead_encrypt_error key alg nonce additional_data plaintext ciphertext_size s e :
e <> PSA_SUCCESS ->
(forall a key_data m,
   oneshot_can key alg PSA_KEY_USAGE_ENCRYPT s nonce additional_data plaintext a key_data m ->
   zlen (input_bytes plaintext) + wolfpsa_aead_tag_length alg <= ciphertext_size -> False) ->
encrypt_post key alg nonce additional_data plaintext ciphertext_size s (e, []).
Proof. intros He Hno. split; [done|]. intros a kd m H1 H2. by destruct (Hno a kd m H1 H2). Qed.

Lemma wp_abort_out e s (Q : psa_status_t * list byte -> opstate O wolfpsa_aead_ctx -> Prop) :
(forall s', op_ctx s' = None -> Q (e, []) s') -> wp (aead_abort_out e) Q s.
Proof. intros HQ. unfold aead_abort_out, psa_aead_abort, set_ctx. wp_seq. by apply HQ. Qed.

(** The setup of a one-shot call. *)
Lemma wp_oneshot_setup key alg usage s (Q : psa_status_t -> opstate O wolfpsa_aead_ctx -> Prop) :
(forall e s', op_ctx s' = None -> e <> PSA_SUCCESS ->
   (aead_setup_feasible key alg usage false s -> False) -> Q e s') ->
(forall a key_data m s' c, op_ctx s' = Some c -> aead_live key alg usage false s a key_data c ->
   aead_algo_of alg = Some m -> aead_primed m None [] [] c -> aead_ad_started c = false ->
   aead_streaming c = false -> (m = CHACHA_POLY -> aead_key_type c = PSA_KEY_TYPE_CHACHA20) ->
   (aead_setup_feasible key alg usage false s -> smooth s') -> Q PSA_SUCCESS s') ->
wp (wolfpsa_aead_setup key alg usage false) Q (with_ctx None s).
Proof.
intros Hbad Hgood. apply wp_aead_setup; [done|done|].
intros a kd m s1 c Hc1 Hlive Hm Hhas Hsm1. apply (Hgood a kd m s1 c); try done.
- destruct Hlive. by split.
- intros ->. by eapply chacha_key_type; [apply Hlive|].
Qed.

(** An encryption through an operation: see [psa_aead_encrypt_spec]. *)
Lemma operation_encrypt_spec key alg nonce additional_data plaintext ciphertext_size s :
oneshot_only alg = None -> input_length plaintext <= SIZE_MAX ->
wp (psa_aead_encrypt key alg nonce additional_data plaintext true ciphertext_size true)
  (fun r s' => op_ctx s' = None /\
     encrypt_post key alg nonce additional_data plaintext ciphertext_size s r) s.
Proof.
intros [Hx Ha]%oneshot_only_none Hsz. unfold psa_aead_encrypt. apply set_ctx_start. rewrite Hx, Ha.
apply wp_bind, wp_oneshot_setup.
{ intros e s1 Hc1 He Hno. destruct e; [done|apply wp_ret; (split; [done|]); apply aead_encrypt_error; [done|];
    intros a kd m [Hf _] _; by apply Hno ..]. }
intros a kd m s1 c Hc1 Hlive Hm Hprimed Hads Hst Hkt Hsm1.
pose proof (live_pinned _ _ _ _ _ _ _ _ _ Hlive Hm) as Hpin.
apply wp_bind, (wp_aead_load alg m c); try done; [apply Hlive| |].
{ intros e s2 He Hno.
  assert (HQ : wp (aead_abort_out e) (fun r s' => op_ctx s' = None /\
    encrypt_post key alg nonce additional_data plaintext ciphertext_size s r) s2); [|by destruct e].
  apply wp_abort_out. intros s' Hs'. split; [done|]. apply aead_encrypt_error; [done|].
  intros a' kd' m' (Hf & Hu & Hm' & Hok & _) _. destruct (Hpin _ _ _ Hu Hm') as (_ & _ & ->). by apply Hno, Hsm1. }
intros c' s2 Hc2 Hsm2 _ Hld. pose proof (live_loaded _ _ _ _ _ _ _ _ _ _ _ _ _ Hlive Hld) as Hlive'.
destruct (loaded_tag _ _ _ _ _ _ _ _ _ _ _ _ _ Hlive Hld) as [Htag Htl].
pose proof (tag_bounds_16 _ _ (aw_tag _ _ (ar_wf _ _ (ld_ready _ _ _ _ _ _ Hld)))) as H16. rewrite Htl in H16.
assert (Hlen : zlen (input_bytes plaintext) <= input_length plaintext).
{ destruct plaintext as [k|l]; [|done]. simpl. unfold zlen. simpl. lia. }
destruct ((ciphertext_size <? wolfpsa_aead_tag_length alg) || _) eqn:Hroom.
{ apply wp_abort_out. intros s' Hs'. split; [done|]. apply aead_encrypt_error; [done|].
  intros a' kd' m' (_ & _ & _ & [] & _) Hr. rewrite ad_ok_length in Hroom by done.
  pose proof (zlen_nonneg (input_bytes plaintext)).
  rewrite (proj2 (Z.ltb_ge ciphertext_size _)), (proj2 (Z.ltb_ge (ciphertext_size - _) _)) in Hroom by lia. done. }
apply orb_false_iff in Hroom as [Hr1%Z.ltb_ge Hr2%Z.ltb_ge].
apply wp_bind, (wp_aead_finish m c' (input_bytes plaintext)); [done|apply Hld| |].
- intros e s3 He Hc3 Hno. rewrite (al_dir _ _ _ _ _ _ _ _ Hlive') in Hc3.
  assert (HQ : encrypt_post key alg nonce additional_data plaintext ciphertext_size s (e, [])).
  { apply aead_encrypt_error; [done|]. intros a' kd' m' (Hf & Hu & Hm' & [] & Hk) _.
    destruct (Hpin _ _ _ Hu Hm') as (-> & -> & ->).
    apply Hno; [by rewrite (al_dir _ _ _ _ _ _ _ _ Hlive')| |by auto]. destruct Hld.
    unfold finish_can, PSA_AEAD_TAG_MAX_SIZE. rewrite ld_buffered0.
    split_and!; try done; [by left|lia|lia|by eapply live_can_buffer]. }
  destruct e; [done|by apply wp_ret ..].
- intros s3 Hc3 Hsm3 Hd Hr Hmet Hts Hfit. apply wp_ret. split; [done|]. rewrite (ld_buffered _ _ _ _ _ _ Hld).
  assert (Hct : cipher_of m c' (input_bytes plaintext) = aead_crypt m kd (input_bytes nonce) (input_bytes plaintext)).
  { unfold cipher_of. by rewrite Hd, (al_data _ _ _ _ _ _ _ _ Hlive'), (ld_nonce _ _ _ _ _ _ Hld). }
  rewrite Htag, Hct, (al_dir _ _ _ _ _ _ _ _ Hlive). change (PSA_KEY_USAGE_ENCRYPT =? PSA_KEY_USAGE_ENCRYPT) with true.
  cbv iota. set (ct := aead_crypt _ _ _ _). set (tag := aead_tag _ _ _ _ _ _).
  assert (Hl : zlen ct = zlen (input_bytes plaintext)) by (unfold zlen, ct; by rewrite aead_crypt_length).
  assert (Htl' : zlen tag = wolfpsa_aead_tag_length alg) by (apply aead_tag_length_eq; lia).
  rewrite (proj2 (Z.ltb_ge ciphertext_size (zlen ct + zlen tag))) by lia. split; [|done].
  intros _. split; [|cbn [snd]; rewrite zlen_app; lia]. exists a, kd, m. split; [apply Hlive|done].
Qed.

(** ** Decryption *)

Definition opened_as (key alg : Z) s (nonce aad input text : list byte) : Prop :=
exists a key_data m ct tag, aead_key_usable key alg PSA_KEY_USAGE_DECRYPT s a key_data /\
aead_algo_of alg = Some m /\ input = ct ++ tag /\ zlen tag = wolfpsa_aead_tag_length alg /\
aead_open m (wolfpsa_aead_tag_length alg) key_data nonce aad ct tag = Some text.

Definition decrypt_post (key alg : Z) (nonce additional_data ciphertext : input) (plaintext : bool)
  (plaintext_size : Z) (plaintext_length : bool) s (r : psa_status_t * list byte) : Prop :=
(r.1 = PSA_SUCCESS ->
   opened_as key alg s (input_bytes nonce) (input_bytes additional_data) (input_bytes ciphertext) r.2 /\
   zlen r.2 <= plaintext_size) /\
(forall a key_data m ct tag,
   oneshot_can key alg PSA_KEY_USAGE_DECRYPT s nonce additional_data (Bytes ct) a key_data m ->
   ciphertext = Bytes (ct ++ tag) -> zlen tag = wolfpsa_aead_tag_length alg ->
   zlen ct <= plaintext_size -> plaintext = true \/ plaintext_size = 0 -> plaintext_length = true ->
   match aead_open m (wolfpsa_aead_tag_length alg) key_data (input_bytes nonce)
           (input_bytes additional_data) ct tag with
   | Some text => r = (PSA_SUCCESS, text)
   | None => r = (PSA_ERROR_INVALID_SIGNATURE, [])
   end).

Lemma aead_decrypt_error key alg nonce additional_data ciphertext plaintext plaintext_size plaintext_length s e :
e <> PSA_SUCCESS ->
(forall a key_data m ct tag,
   oneshot_can key alg PSA_KEY_USAGE_DECRYPT s nonce additional_data (Bytes ct) a key_data m ->
   ciphertext = Bytes (ct ++ tag) -> zlen tag = wolfpsa_aead_tag_length alg ->
   zlen ct <= plaintext_size -> plaintext = true \/ plaintext_size = 0 -> plaintext_length = true ->
   aead_open m (wolfpsa_aead_tag_length alg) key_data (input_bytes nonce)
     (input_bytes additional_data) ct tag = None /\ e = PSA_ERROR_INVALID_SIGNATURE) ->
decrypt_post key alg nonce additional_data ciphertext plaintext plaintext_size plaintext_length s (e, []).
Proof.
intros He Hno. split; [done|]. intros a kd m ct tag H1 H2 H3 H4 H5 H6.
by destruct (Hno a kd m ct tag H1 H2 H3 H4 H5 H6) as [-> ->].
Qed.

(** Where a cipher text is cut. *)
Lemma cut_bytes n ct tag :
zlen tag = n ->
input_take (zlen (ct ++ tag) - n) (Bytes (ct ++ tag)) = Bytes ct /\
input_drop (zlen (ct ++ tag) - n) (Bytes (ct ++ tag)) = Bytes tag.
Proof.
intros <-. rewrite zlen_app. replace (zlen ct + zlen tag - zlen tag) with (zlen ct) by lia.
unfold input_take, input_drop, zlen. by rewrite Nat2Z.id, take_app_length, drop_app_length.
Qed.

Lemma cut_app n i : input_bytes (input_take n i) ++ input_bytes (input_drop n i) = input_bytes i.
Proof. destruct i as [k|l]; [done|apply take_drop]. Qed.

Lemma take_length_le n i : 0 <= n <= input_length i -> input_length (input_take n i) <= input_length i.
Proof.
intros Hn. destruct i as [k|l]; simpl in *; [lia|]. unfold zlen in *. rewrite length_take. lia.
Qed.

(** A decryption through an operation: see [psa_aead_decrypt_spec]. *)
Lemma operation_decrypt_spec key alg nonce additional_data ciphertext plaintext plaintext_size plaintext_length s :
oneshot_only alg = None -> input_length ciphertext <= SIZE_MAX ->
wp (psa_aead_decrypt key alg nonce additional_data ciphertext plaintext plaintext_size plaintext_length)
  (fun r s' => op_ctx s' = None /\
     decrypt_post key alg nonce additional_data ciphertext plaintext plaintext_size plaintext_length s r) s.
Proof.
intros [Hx Ha]%oneshot_only_none Hsz. unfold psa_aead_decrypt. apply set_ctx_start. rewrite Hx, Ha.
apply wp_bind, wp_oneshot_setup.
{ intros e s1 Hc1 He Hno. destruct e; [done|apply wp_ret; (split; [done|]); apply aead_decrypt_error; [done|];
    intros a kd m ct tag [Hf _]; by destruct (Hno Hf) ..]. }
intros a kd m s1 c Hc1 Hlive Hm Hprimed Hads Hst Hkt Hsm1.
pose proof (live_pinned _ _ _ _ _ _ _ _ _ Hlive Hm) as Hpin.
pose proof (aw_tag _ _ (ah_wf _ _ _ (ap_has _ _ _ _ _ Hprimed))) as H16%tag_bounds_16.
rewrite (al_tag _ _ _ _ _ _ _ _ Hlive) in H16. cbv zeta.
destruct ((wolfpsa_aead_tag_length alg =? 0) || _) eqn:Hshort.
{ apply wp_abort_out. intros s' Hs'. split; [done|]. apply aead_decrypt_error; [done|].
  intros a' kd' m' ct tag _ -> Htl. simpl in Hshort. rewrite zlen_app, Htl in Hshort.
  pose proof (zlen_nonneg ct). rewrite (proj2 (Z.eqb_neq _ 0)), (proj2 (Z.ltb_ge _ _)) in Hshort by lia. done. }
apply orb_false_iff in Hshort as [_ Hge%Z.ltb_ge].
set (n := wolfpsa_aead_tag_length alg) in *. set (k := input_length ciphertext - n) in *.
apply wp_bind, (wp_aead_load alg m c); try done; [apply Hlive| | |].
{ pose proof (take_length_le k ciphertext). lia. }
{ intros e s2 He Hno.
  assert (HQ : wp (aead_abort_out e) (fun r s' => op_ctx s' = None /\
    decrypt_post key alg nonce additional_data ciphertext plaintext plaintext_size plaintext_length s r) s2);
    [|by destruct e].
  apply wp_abort_out. intros s' Hs'. split; [done|]. apply aead_decrypt_error; [done|].
  intros a' kd' m' ct tag (Hf & Hu & Hm' & Hok & _) -> Htl _ _ Hpl.
  destruct (Hpin _ _ _ Hu Hm') as (_ & _ & ->). exfalso. apply Hno; [done| |by apply Hsm1].
  change k with (zlen (ct ++ tag) - n). by rewrite (proj1 (cut_bytes n ct tag Htl)). }
intros c' s2 Hc2 Hsm2 _ Hld. pose proof (live_loaded _ _ _ _ _ _ _ _ _ _ _ _ _ Hlive Hld) as Hlive'.
destruct (loaded_tag _ _ _ _ _ _ _ _ _ _ _ _ _ Hlive Hld) as [Htag Htl].
rewrite (al_dir _ _ _ _ _ _ _ _ Hlive) in Htag. change (PSA_KEY_USAGE_DECRYPT =? PSA_KEY_USAGE_ENCRYPT) with false in Htag.
set (ct := input_bytes (input_take k ciphertext)) in *.
apply (wp_aead_verify m c' ct); [done|apply Hld| |].
- intros e s3 He Hc3 Hno. rewrite (al_dir _ _ _ _ _ _ _ _ Hlive') in Hc3. split; [done|].
  apply aead_decrypt_error; [done|]. intros a' kd' m' ct' tag (Hf & Hu & Hm' & [] & Hk) Heq Htl' Hpsz Hp Hpl.
  destruct (Hpin _ _ _ Hu Hm') as (-> & -> & ->).
  assert (Hk' : k = zlen (ct' ++ tag) - n) by (unfold k; by rewrite Heq).
  destruct (cut_bytes n ct' tag Htl') as [Hct Htg]. rewrite <- Hk', <- Heq in Hct, Htg.
  assert (Hct' : ct = ct') by (unfold ct; by rewrite Hct). rewrite Htg, Hct' in *. simpl in Hno.
  destruct Hno as [Hne ->].
  + by rewrite (al_dir _ _ _ _ _ _ _ _ Hlive').
  + destruct Hld. unfold verify_can. rewrite ld_buffered0. simpl in *.
    split_and!; try done. by eapply live_can_buffer.
  + by auto.
  + split; [|done]. unfold aead_open. rewrite bool_decide_false; [done|]. rewrite <- Htag. exact Hne.
- intros s3 Hc3 Hsm3 Hd Ht Hr Hmet Hfit. split; [done|]. rewrite (ld_buffered _ _ _ _ _ _ Hld) in *.
  assert (Hpt : plain_of m c' ct = aead_crypt m kd (input_bytes nonce) ct).
  { unfold plain_of. by rewrite Hd, (al_data _ _ _ _ _ _ _ _ Hlive'), (ld_nonce _ _ _ _ _ _ Hld). }
  assert (Hopen : aead_open m n kd (input_bytes nonce) (input_bytes additional_data) ct
                    (input_bytes (input_drop k ciphertext)) = Some (plain_of m c' ct)).
  { unfold aead_open. rewrite Ht, Htag, Hpt. by rewrite bool_decide_true. }
  split.
  + intros _. cbn [snd]. split; [|specialize (Hfit eq_refl); unfold zlen in *; by rewrite plain_of_length].
    exists a, kd, m, ct, (input_bytes (input_drop k ciphertext)).
    split; [apply Hlive|]. split; [done|]. split; [symmetry; apply cut_app|]. split; [|done].
    rewrite Ht, expected_tag_length, Htl; [done|apply Hld].
  + intros a' kd' m' ct' tag (_ & Hu & Hm' & _ & _) Heq Htl' _ _ _.
    destruct (Hpin _ _ _ Hu Hm') as (-> & -> & ->).
    assert (Hk' : k = zlen (ct' ++ tag) - n) by (unfold k; by rewrite Heq).
    destruct (cut_bytes n ct' tag Htl') as [Hct Htg]. rewrite <- Hk', <- Heq in Hct, Htg.
    unfold ct in *. rewrite Hct, Htg in *. simpl in *. fold n. by rewrite Hopen.
Qed.

(** An operation opens what it sealed: see [aead_roundtrip]. *)
Lemma operation_roundtrip key alg nonce additional_data plaintext size size' s s' a key_data m out :
oneshot_only alg = None -> input_length plaintext <= SIZE_MAX -> zlen out <= SIZE_MAX ->
(psa_aead_encrypt key alg nonce additional_data plaintext true size true s).1 = (PSA_SUCCESS, out) ->
oneshot_can key alg PSA_KEY_USAGE_DECRYPT s' nonce additional_data plaintext a key_data m ->
aead_key_usable key alg PSA_KEY_USAGE_ENCRYPT s a key_data -> zlen (input_bytes plaintext) <= size' ->
(psa_aead_decrypt key alg nonce additional_data (Bytes out) true size' true s').1
  = (PSA_SUCCESS, input_bytes plaintext).
Proof.
intros Halg Hsz Hout Henc Hcan Hu Hs'.
destruct (operation_encrypt_spec key alg nonce additional_data plaintext size s Halg Hsz) as [_ [Hseal _]].
rewrite Henc in Hseal. destruct (Hseal eq_refl) as [(a1 & kd1 & m1 & Hu1 & Hm1 & Heq) _]. simpl in Heq.
destruct (aead_usable_unique _ _ _ _ _ _ _ _ Hu Hu1) as [-> ->].
pose proof Hcan as (Hf & Hud & Hm & Hok & Hk). rewrite Hm in Hm1. injection Hm1 as <-.
set (ct := aead_crypt _ _ _ _) in *. set (tag := aead_tag _ _ _ _ _ _) in *.
assert (Hct : zlen ct = zlen (input_bytes plaintext)) by (unfold zlen, ct; by rewrite aead_crypt_length).
assert (Htl : zlen tag = wolfpsa_aead_tag_length alg).
{ apply aead_tag_length_eq. destruct Hf as (Halgc & Htagc & _ & a2 & d2 & k2 & Hg & _ & Hchk).
  destruct (alg_check_algo _ _ _ _ Halgc Hchk) as (m2 & Hm2 & Hb2 & _).
  pose proof (tag_bounds_16 _ _ (tag_check_bounds _ _ _ Hm2 Hb2 Htagc)). lia. }
destruct (operation_decrypt_spec key alg nonce additional_data (Bytes out) true size' true s' Halg Hout)
  as [_ [_ Hdec]].
assert (Hok' : oneshot_can key alg PSA_KEY_USAGE_DECRYPT s' nonce additional_data (Bytes ct) a key_data m).
{ split; [done|]. split; [done|]. split; [done|]. split; [|done]. destruct Hok. split; simpl; try done; by rewrite Hct. }
specialize (Hdec a key_data m ct tag Hok').
pose proof (aead_open_seal m (wolfpsa_aead_tag_length alg) key_data (input_bytes nonce)
              (input_bytes additional_data) (input_bytes plaintext)) as Hopen.
cbn [aead_seal] in Hopen. fold ct tag in Hopen. rewrite Hopen in Hdec.
apply Hdec; [by rewrite Heq|done|lia|by left|done].
Qed.
End AeadOneShotSpec.

(** * XChaCha20-Poly1305 and Ascon-AEAD128 *)

Definition seal_key_type (v : seal_algo) : Z :=
  match v with XCHACHA => PSA_KEY_TYPE_XCHACHA20 | ASCON => PSA_KEY_TYPE_ASCON end.
Definition seal_key_size (v : seal_algo) : Z :=
  match v with XCHACHA => CHACHA20_POLY1305_AEAD_KEYSIZE | ASCON => ASCON_AEAD128_KEY_SZ end.
Definition seal_nonce_size (v : seal_algo) : Z :=
  match v with XCHACHA => XCHACHA20_POLY1305_AEAD_NONCE_SIZE | ASCON => ASCON_AEAD128_NONCE_SZ end.
(** Ascon's lengths are [word32]. *)
Definition seal_max (v : seal_algo) : Z :=
  match v with XCHACHA => SIZE_MAX - 16 | ASCON => UINT32_MAX end.

Section AeadSealSpec.
Context {C : Config} {E : WolfCryptErr} {EO : WolfCryptErrOk E} {K : WolfCryptKeys}.
Context {R : WolfCryptRng} {O : StoreOps} {B : KeyBackend}.
Context {W : WolfCryptAead} {D : WolfCryptAesDirect} {WO : WolfCryptAeadOk W D}.

Implicit Types s : opstate O wolfpsa_aead_ctx.

Definition seal_built (v : seal_algo) : bool :=
match v with XCHACHA => HAVE_XCHACHA | ASCON => HAVE_ASCON end.

(** Cipher text and tag. *)
Definition seal_bytes (v : seal_algo) (key nonce aad text : list byte) : list byte :=
match v with
| XCHACHA => xchacha_seal key nonce aad text
| ASCON => let '(ct, tag) := ascon_seal key nonce aad text in ct ++ tag
end.

Lemma seal_bytes_length v key nonce aad text : zlen (seal_bytes v key nonce aad text) = zlen text + 16.
Proof.
destruct v; simpl; [apply xchacha_seal_length|].
destruct (ascon_seal_length key nonce aad text) as [H1 H2]. destruct (ascon_seal _ _ _ _) as [ct tag].
simpl in *. rewrite zlen_app. lia.
Qed.

(** * The key *)

(** The key is there, of the right type and size, and may be used so. *)
Definition seal_key (key : Z) (v : seal_algo) (usage : Z) s (key_data : list byte) : Prop :=
exists a d, (wolfpsa_get_key_data key (Some PSA_KEY_ATTRIBUTES_INIT) (op_lib s)).1 = (PSA_SUCCESS, a, d) /\
  key_data = default [] d /\
  aead_oneshot_key_checks (seal_key_type v) (seal_key_size v) usage (seal_alg v)
    (default PSA_KEY_ATTRIBUTES_INIT a) key_data = PSA_SUCCESS.

Lemma seal_key_unique key v usage s d d' : seal_key key v usage s d -> seal_key key v usage s d' -> d' = d.
Proof.
intros (x & y & Hg & -> & _) (x' & y' & Hg' & -> & _). rewrite Hg in Hg'. by injection Hg' as <- <-.
Qed.

Lemma wp_aead_with_key key v usage body s (Q : psa_status_t * list byte -> opstate O wolfpsa_aead_ctx -> Prop) :
(forall e s', same_ctx s s' -> e <> PSA_SUCCESS -> (forall key_data, ~ seal_key key v usage s key_data) -> Q (e, []) s') ->
(forall key_data s', same_ctx s s' -> op_rets s' = op_rets s -> seal_key key v usage s key_data ->
   wp (body key_data) Q s') ->
wp (aead_with_key key (seal_key_type v) (seal_key_size v) usage (seal_alg v) body) Q s.
Proof.
intros Hbad Hgood. unfold aead_with_key. apply wp_bind, wp_lib. unfold wp at 1.
destruct (wolfpsa_get_key_data key (Some PSA_KEY_ATTRIBUTES_INIT) (op_lib s)) as [[[st a] d] k] eqn:Hget.
cbn [fst snd].
assert (Hpin : forall kd, seal_key key v usage s kd -> st = PSA_SUCCESS /\ kd = default [] d /\
  aead_oneshot_key_checks (seal_key_type v) (seal_key_size v) usage (seal_alg v)
    (default PSA_KEY_ATTRIBUTES_INIT a) kd = PSA_SUCCESS).
{ intros kd (x & y & Hg & -> & Hchk). rewrite Hget in Hg. by injection Hg as -> <- <-. }
destruct st;
  try by (apply wp_ret, Hbad; [done|done|intros kd Hk; by apply Hpin in Hk as [? _]]).
destruct (aead_oneshot_key_checks _ _ _ _ _ _) eqn:Hchk;
  try by (apply wp_ret, Hbad; [done|done|intros kd Hk; apply Hpin in Hk as (_ & -> & ?); congruence]).
apply Hgood; [done|done|]. exists a, d. by rewrite Hget.
Qed.

Lemma wp_calls6 own s (Q : Z -> opstate O wolfpsa_aead_ctx -> Prop) :
(forall r s', same_ctx s s' -> (r = 0 -> own = 0) -> (own = 0 -> op_rets s = [] -> r = 0) -> Q r s') ->
wp (ascon_calls own) Q s.
Proof.
intros HQ. unfold ascon_calls.
do 5 (apply wp_bind, wp_wc_then; intros ? ? ? ? ?). apply wp_wc_then. intros r6 l6 H61 H62 H63.
apply HQ; [done|tauto|tauto].
Qed.

(** * Encryption *)

(** What is asked of the buffers. *)
Definition seal_sizes (v : seal_algo) (nonce aad text : list byte) : Prop :=
zlen nonce = seal_nonce_size v /\ zlen aad <= UINT32_MAX /\ zlen text <= seal_max v.

Definition seal_post (key : Z) (v : seal_algo) (nonce aad text : list byte) (size : Z) s
  (r : psa_status_t * list byte) : Prop :=
(r.1 = PSA_SUCCESS -> exists key_data, seal_key key v PSA_KEY_USAGE_ENCRYPT s key_data /\
   r.2 = seal_bytes v key_data nonce aad text /\ zlen r.2 <= size) /\
(forall key_data, seal_key key v PSA_KEY_USAGE_ENCRYPT s key_data -> op_rets s = [] ->
   seal_sizes v nonce aad text -> zlen text + 16 <= size -> r.1 = PSA_SUCCESS).


Lemma seal_error key v nonce aad text size s e :
e <> PSA_SUCCESS ->
(forall key_data, seal_key key v PSA_KEY_USAGE_ENCRYPT s key_data -> op_rets s = [] ->
   seal_sizes v nonce aad text -> zlen text + 16 <= size -> False) ->
seal_post key v nonce aad text size s (e, []).
Proof. intros He Hno. split; [done|]. intros kd H1 H2 H3 H4. by destruct (Hno kd H1 H2 H3 H4). Qed.

(** The path of [psa_aead_encrypt]. *)
Lemma seal_dispatch v :
seal_built v = true ->
(HAVE_XCHACHA && PSA_ALG_AEAD_EQUAL (seal_alg v) PSA_ALG_XCHACHA20_POLY1305
  = match v with XCHACHA => true | ASCON => false end) /\
(HAVE_ASCON && PSA_ALG_AEAD_EQUAL (seal_alg v) PSA_ALG_ASCON_AEAD128
  = match v with XCHACHA => false | ASCON => true end).
Proof. destruct v; simpl; intros ->; split; try reflexivity; apply andb_false_r. Qed.

(** The end of an encryption: the answer of the last call. *)
Lemma wp_seal_ret key v nonce aad text size s s' own key_data out (m : M (opstate O wolfpsa_aead_ctx) Z) :
own = 0 -> seal_key key v PSA_KEY_USAGE_ENCRYPT s key_data -> op_rets s' = op_rets s ->
out = seal_bytes v key_data nonce aad text -> zlen text + 16 <= size ->
(forall (Q : Z -> opstate O wolfpsa_aead_ctx -> Prop),
   (forall r s2, (own = 0 -> op_rets s' = [] -> r = 0) -> Q r s2) -> wp m Q s') ->
wp (ret ← m; mret (if negb (ret =? 0) then (wc_error_to_psa_status ret, []) else (PSA_SUCCESS, out)))
  (fun r _ => seal_post key v nonce aad text size s r) s'.
Proof.
intros Ho Hk Hrets -> Hsz Hm. apply wp_bind, Hm. intros r s2 Hr. apply wp_ret.
destruct (Z.eqb_spec r 0) as [->|Hr0]; cbn [negb].
- split; [|done]. intros _. exists key_data. split_and!; [done|done|]. cbn [snd]. rewrite seal_bytes_length. lia.
- apply seal_error; [by rewrite wc_error_success|]. intros kd _ Hn _ _. apply Hr0, Hr; [done|congruence].
Qed.

(** XChaCha20-Poly1305 and Ascon-AEAD128, which have no multi-part form: a one-shot
  encryption that succeeds wrote what the algorithm makes of the text, under a
  key of the right type and size that may encrypt; and with such a key and
  enough room it fails only when a call of wolfCrypt does. *)
Theorem aead_seal_spec key v nonce aad text ciphertext size s :
seal_built v = true ->
wp (psa_aead_encrypt key (seal_alg v) (Bytes nonce) (Bytes aad) (Bytes text) ciphertext size true)
  (fun r _ => seal_post key v nonce aad text size s r) s.
Proof.
intros Hb. unfold psa_aead_encrypt. destruct (seal_dispatch v Hb) as [-> ->]. pose proof (zlen_nonneg text) as Hz.
apply wp_bind, wp_modify. destruct v; cbn [seal_alg].
- unfold wolfpsa_xchacha_oneshot_encrypt. change (PSA_ALG_XCHACHA20_POLY1305 =? PSA_ALG_XCHACHA20_POLY1305) with true.
  cbn [negb input_length].
  case_match eqn:H1; [apply wp_ret, seal_error; [done|]; intros kd _ _ (Hn & _) _;
    simpl in Hn; rewrite Hn in H1; done|].
  case_match eqn:H2; [apply wp_ret, seal_error; [done|]; intros kd _ _ (_ & _ & Hn) _;
    apply Z.ltb_lt in H2; simpl in Hn; unfold CHACHA20_POLY1305_AEAD_AUTHTAG_SIZE in *; lia|].
  case_match eqn:H3; [apply wp_ret, seal_error; [done|]; intros kd _ _ _ Hn; apply Z.ltb_lt in H3;
    unfold CHACHA20_POLY1305_AEAD_AUTHTAG_SIZE in *; lia|].
  apply (wp_aead_with_key key XCHACHA).
  { intros e s' _ He Hno. apply seal_error; [done|]. intros kd Hk _ _ _. by apply (Hno kd). }
  intros kd s' _ Hr Hk. rewrite (xchacha_encrypt kd nonce aad text).
  apply (wp_seal_ret key XCHACHA nonce aad text size s s' 0 kd); try done.
  { apply Z.ltb_ge in H3. exact H3. }
  intros Q HQ. apply wp_wc_then. intros r l _ Hr0 _. apply HQ. done.
- unfold wolfpsa_ascon_oneshot_encrypt. change (PSA_ALG_ASCON_AEAD128 =? PSA_ALG_ASCON_AEAD128) with true.
  cbn [negb input_length].
  case_match eqn:H1; [apply wp_ret, seal_error; [done|]; intros kd _ _ (Hn & _) _;
    simpl in Hn; rewrite Hn in H1; done|].
  case_match eqn:H2; [apply wp_ret, seal_error; [done|]; intros kd _ _ (_ & _ & Hn) _;
    apply Z.ltb_lt in H2; simpl in Hn; unfold ASCON_AEAD128_TAG_SZ, SIZE_MAX, UINT32_MAX in *; lia|].
  case_match eqn:H3; [apply wp_ret, seal_error; [done|]; intros kd _ _ _ Hn; apply Z.ltb_lt in H3;
    unfold ASCON_AEAD128_TAG_SZ in *; lia|].
  case_match eqn:H4.
  { apply wp_ret, seal_error; [done|]. intros kd _ _ (_ & Ha & Hn) _. simpl in Hn.
    rewrite !(proj2 (fits_word32_spec _)) in H4 by done. done. }
  apply (wp_aead_with_key key ASCON).
  { intros e s' _ He Hno. apply seal_error; [done|]. intros kd Hk _ _ _. by apply (Hno kd). }
  intros kd s' _ Hr Hk. rewrite (ascon_encrypt kd nonce aad text).
  destruct (ascon_seal kd nonce aad text) as [out tag] eqn:Hseal.
  apply (wp_seal_ret key ASCON nonce aad text size s s' 0 kd); try done.
  { simpl. by rewrite Hseal. }
  { apply Z.ltb_ge in H3. exact H3. }
  intros Q HQ. apply wp_calls6. intros r s2 _ _ Hr0. by apply HQ.
Qed.


(** * Decryption *)

Definition unseal_post (key : Z) (v : seal_algo) (nonce aad ct : list byte) (size : Z) s
  (r : psa_status_t * list byte) : Prop :=
(r.1 = PSA_SUCCESS -> exists key_data, seal_key key v PSA_KEY_USAGE_DECRYPT s key_data /\
   ct = seal_bytes v key_data nonce aad r.2 /\ zlen r.2 <= size) /\
(forall key_data, seal_key key v PSA_KEY_USAGE_DECRYPT s key_data -> op_rets s = [] ->
   zlen nonce = seal_nonce_size v -> zlen aad <= UINT32_MAX -> zlen ct - 16 <= seal_max v ->
   zlen ct - 16 <= size ->
   (forall text, ct = seal_bytes v key_data nonce aad text -> r = (PSA_SUCCESS, text)) /\
   (16 <= zlen ct -> (forall text, ct <> seal_bytes v key_data nonce aad text) ->
    r = (PSA_ERROR_INVALID_SIGNATURE, []))).

Lemma unseal_error key v nonce aad ct size s e :
e <> PSA_SUCCESS ->
(forall key_data, seal_key key v PSA_KEY_USAGE_DECRYPT s key_data -> op_rets s = [] ->
   zlen nonce = seal_nonce_size v -> zlen aad <= UINT32_MAX -> zlen ct - 16 <= seal_max v ->
   zlen ct - 16 <= size -> 16 <= zlen ct -> False) ->
unseal_post key v nonce aad ct size s (e, []).
Proof.
intros He Hno. split; [done|]. intros kd H1 H2 H3 H4 H5 H6.
assert (H : zlen ct < 16) by (destruct (Z.lt_ge_cases (zlen ct) 16); [done|by destruct (Hno kd)]).
split; [|lia]. intros text ->. rewrite seal_bytes_length in H. pose proof (zlen_nonneg text). lia.
Qed.

(** The end of a decryption: the answer of the last call, and the tag. *)
Lemma wp_unseal_ret key v nonce aad ct size s s' own key_data auth_e opened
  (m : M (opstate O wolfpsa_aead_ctx) Z) :
own = 0 -> seal_key key v PSA_KEY_USAGE_DECRYPT s key_data -> op_rets s' = op_rets s ->
(forall text, opened = Some text <-> ct = seal_bytes v key_data nonce aad text) ->
zlen ct - 16 <= size ->
(forall (Q : Z -> opstate O wolfpsa_aead_ctx -> Prop),
   (forall r s2, (own = 0 -> op_rets s' = [] -> r = 0) -> Q r s2) -> wp m Q s') ->
wp (ret ← m; mret (aead_oneshot_opened auth_e ret opened))
  (fun r _ => unseal_post key v nonce aad ct size s r) s'.
Proof.
intros Ho Hk Hrets Hop Hsz Hm. apply wp_bind, Hm. intros r s2 Hr. apply wp_ret.
unfold aead_oneshot_opened, aead_auth_answer. destruct (Z.eqb_spec r 0) as [->|Hr0]; cbn [negb].
2: { apply unseal_error.
     - unfold aead_auth_error. case_match; [done|]. by rewrite wc_error_success.
     - intros kd _ Hn _ _ _ _ _. apply Hr0, Hr; [done|congruence]. }
destruct opened as [text|].
- assert (Heq : ct = seal_bytes v key_data nonce aad text) by (by apply Hop).
  split.
  + intros _. exists key_data. split_and!; [done|done|]. cbn [snd].
    rewrite Heq, seal_bytes_length in Hsz. lia.
  + intros kd Hk' _ _ _ _ _. rewrite (seal_key_unique _ _ _ _ _ _ Hk Hk'). split.
    * intros text' Ht. apply Hop in Ht. by injection Ht as <-.
    * intros _ Hno. by destruct (Hno text).
- unfold aead_auth_error. rewrite Z.eqb_refl. cbn [orb]. split; [done|].
  intros kd Hk' _ _ _ _ _. rewrite (seal_key_unique _ _ _ _ _ _ Hk Hk'). split; [|done].
  intros text Ht. by apply Hop in Ht.
Qed.

(** A cipher text, cut before its tag. *)
Lemma ascon_cut key nonce aad ct text :
16 <= zlen ct ->
ascon_seal key nonce aad text = (take (Z.to_nat (zlen ct - 16)) ct, drop (Z.to_nat (zlen ct - 16)) ct) <->
ct = seal_bytes ASCON key nonce aad text.
Proof.
intros Hl. simpl. destruct (ascon_seal_length key nonce aad text) as [H1 H2].
destruct (ascon_seal key nonce aad text) as [x tag]. simpl in H1, H2. split.
- intros Heq. injection Heq as -> ->. by rewrite take_drop.
- intros ->. rewrite zlen_app, H2. replace (zlen x + 16 - 16) with (zlen x) by lia. unfold zlen.
  by rewrite Nat2Z.id, take_app_length, drop_app_length.
Qed.

(** A one-shot decryption of these algorithms succeeds exactly on what the
  encryption makes of the text that it then writes; on anything else, when no
  call of wolfCrypt fails, it answers [INVALID_SIGNATURE]. *)
Theorem aead_unseal_spec key v nonce aad ct plaintext size s :
seal_built v = true ->
wp (psa_aead_decrypt key (seal_alg v) (Bytes nonce) (Bytes aad) (Bytes ct) plaintext size true)
  (fun r _ => unseal_post key v nonce aad ct size s r) s.
Proof.
intros Hb. unfold psa_aead_decrypt. destruct (seal_dispatch v Hb) as [-> ->].
apply wp_bind, wp_modify. destruct v; cbn [seal_alg].
- unfold wolfpsa_xchacha_oneshot_decrypt. change (PSA_ALG_XCHACHA20_POLY1305 =? PSA_ALG_XCHACHA20_POLY1305) with true.
  cbn [negb input_length]. unfold CHACHA20_POLY1305_AEAD_AUTHTAG_SIZE.
  case_match eqn:H1; [apply wp_ret, unseal_error; [done|]; intros kd _ _ Hn _ _ _ _;
    simpl in Hn; rewrite Hn in H1; done|].
  case_match eqn:H2; [apply wp_ret, unseal_error; [done|]; intros; apply Z.ltb_lt in H2; lia|].
  case_match eqn:H3; [apply wp_ret, unseal_error; [done|]; intros; apply Z.ltb_lt in H3; lia|].
  apply (wp_aead_with_key key XCHACHA).
  { intros e s' _ He Hno. apply unseal_error; [done|]. intros kd Hk _ _ _ _ _ _. by apply (Hno kd). }
  intros kd s' _ Hr Hk. destruct (xchacha_decrypt kd nonce aad ct) as (opened & -> & Hop).
  apply (wp_unseal_ret key XCHACHA nonce aad ct size s s' 0 kd); try done.
  { by apply Z.ltb_ge in H3. }
  intros Q HQ. apply wp_wc_then. intros r l _ Hr0 _. apply HQ. done.
- unfold wolfpsa_ascon_oneshot_decrypt. change (PSA_ALG_ASCON_AEAD128 =? PSA_ALG_ASCON_AEAD128) with true.
  cbn [negb input_length]. unfold ASCON_AEAD128_TAG_SZ.
  case_match eqn:H1; [apply wp_ret, unseal_error; [done|]; intros kd _ _ Hn _ _ _ _;
    simpl in Hn; rewrite Hn in H1; done|].
  case_match eqn:H2; [apply wp_ret, unseal_error; [done|]; intros; apply Z.ltb_lt in H2; lia|].
  case_match eqn:H3; [apply wp_ret, unseal_error; [done|]; intros; apply Z.ltb_lt in H3; lia|].
  case_match eqn:H4.
  { apply wp_ret, unseal_error; [done|]. intros kd _ _ _ Ha Hn _ _. simpl in Hn.
    rewrite !(proj2 (fits_word32_spec _)) in H4 by done. done. }
  apply (wp_aead_with_key key ASCON).
  { intros e s' _ He Hno. apply unseal_error; [done|]. intros kd Hk _ _ _ _ _ _. by apply (Hno kd). }
  intros kd s' _ Hr Hk. cbn [input_take input_drop].
  destruct (ascon_decrypt kd nonce aad (take (Z.to_nat (zlen ct - 16)) ct) (drop (Z.to_nat (zlen ct - 16)) ct))
    as (opened & -> & Hop).
  apply (wp_unseal_ret key ASCON nonce aad ct size s s' 0 kd); try done.
  { intros text. rewrite Hop. apply ascon_cut. by apply Z.ltb_ge in H2. }
  { by apply Z.ltb_ge in H3. }
  intros Q HQ. apply wp_calls6. intros r s2 _ _ Hr0. by apply HQ.
Qed.
End AeadSealSpec.

(** * The calls, for every algorithm *)

Section AeadCalls.
Context {C : Config} {E : WolfCryptErr} {EO : WolfCryptErrOk E} {K : WolfCryptKeys}.
Context {R : WolfCryptRng} {O : StoreOps} {B : KeyBackend}.
Context {W : WolfCryptAead} {D : WolfCryptAesDirect}.
Context {WO : WolfCryptAeadOk W D} {DO : WolfCryptAesDirectOk D}.

Implicit Types s : opstate O wolfpsa_aead_ctx.

Lemma oneshot_only_some alg v :
oneshot_only alg = Some v ->
seal_built v = true /\
(HAVE_XCHACHA && PSA_ALG_AEAD_EQUAL alg PSA_ALG_XCHACHA20_POLY1305
  = match v with XCHACHA => true | ASCON => false end) /\
(v = ASCON -> HAVE_ASCON && PSA_ALG_AEAD_EQUAL alg PSA_ALG_ASCON_AEAD128 = true).
Proof.
unfold oneshot_only. destruct (HAVE_XCHACHA && _) eqn:Hx.
- intros [= <-]. apply andb_true_iff in Hx as [Hx _]. by split_and!.
- destruct (HAVE_ASCON && _) eqn:Ha; [|done]. intros [= <-].
  pose proof Ha as [Hb _]%andb_true_iff. by split_and!.
Qed.

(** The one-shot only calls do not use the operation object. *)
Lemma frame_aead_with_key key type size usage alg body :
(forall d, ctx_frame (body d)) -> ctx_frame (aead_with_key (O := O) key type size usage alg body).
Proof. intros Hb. unfold aead_with_key. ctx_frame_tac. apply Hb. Qed.

Lemma seal_frame alg v :
oneshot_only alg = Some v -> forall key nonce ad data present size length s,
op_ctx (psa_aead_encrypt key alg nonce ad data present size length s).2 = None /\
op_ctx (psa_aead_decrypt key alg nonce ad data present size length s).2 = None.
Proof.
intros (_ & Hx & Ha)%oneshot_only_some key nonce ad data present size length s.
assert (Hstart : forall (m : M (opstate O wolfpsa_aead_ctx) (psa_status_t * list byte)),
  ctx_frame m -> op_ctx ((set_ctx None;; m) s).2 = None).
{ intros m Hm. exact (Hm (with_ctx None s)). }
unfold psa_aead_encrypt, psa_aead_decrypt. rewrite Hx. destruct v; [|rewrite (Ha eq_refl)];
  split; apply Hstart;
  unfold wolfpsa_xchacha_oneshot_encrypt, wolfpsa_xchacha_oneshot_decrypt,
    wolfpsa_ascon_oneshot_encrypt, wolfpsa_ascon_oneshot_decrypt; cbv zeta;
  repeat (case_match; [apply frame_ret|]); apply frame_aead_with_key; intros d;
  unfold ascon_calls; ctx_frame_tac.
Qed.

(** Another tag length than the algorithm's own is not supported. *)
Lemma seal_other_alg alg v :
oneshot_only alg = Some v -> alg <> seal_alg v ->
forall key nonce ad data present size length s,
(psa_aead_encrypt key alg nonce ad data present size length s).1 = (PSA_ERROR_NOT_SUPPORTED, []) /\
(psa_aead_decrypt key alg nonce ad data present size length s).1 = (PSA_ERROR_NOT_SUPPORTED, []).
Proof.
intros (_ & Hx & Ha)%oneshot_only_some Hne key nonce ad data present size length s.
unfold psa_aead_encrypt, psa_aead_decrypt. rewrite Hx. destruct v; [|rewrite (Ha eq_refl)];
  unfold wolfpsa_xchacha_oneshot_encrypt, wolfpsa_xchacha_oneshot_decrypt,
    wolfpsa_ascon_oneshot_encrypt, wolfpsa_ascon_oneshot_decrypt; cbv zeta;
  simpl in Hne; by rewrite (proj2 (Z.eqb_neq _ _) Hne).
Qed.

(** C13: A one-shot encryption that succeeds wrote the cipher text of the whole text
  followed by its tag, within its buffer; and when no call fails, and nonce,
  lengths and key suit, it succeeds as soon as the buffer has room for both.
  This is so of the algorithms that go through an operation, given with any tag
  length, and of XChaCha20-Poly1305 and Ascon-AEAD128 on buffers that are not
  NULL; these two with another tag length are not supported.  The output
  pointers are not NULL.  Nothing is left of the operation. *)
Theorem psa_aead_encrypt_spec key alg nonce additional_data plaintext ciphertext_size s :
input_length plaintext <= SIZE_MAX ->
wp (psa_aead_encrypt key alg nonce additional_data plaintext true ciphertext_size true)
  (fun r s' => op_ctx s' = None /\
     match oneshot_only alg with
     | None => encrypt_post key alg nonce additional_data plaintext ciphertext_size s r
     | Some v =>
         (alg <> seal_alg v -> r = (PSA_ERROR_NOT_SUPPORTED, [])) /\
         (forall n aad text, alg = seal_alg v -> nonce = Bytes n -> additional_data = Bytes aad ->
            plaintext = Bytes text -> seal_post key v n aad text ciphertext_size s r)
     end) s.
Proof.
intros Hsz. destruct (oneshot_only alg) as [v|] eqn:Hr; [|by apply operation_encrypt_spec].
split; [by apply (seal_frame _ _ Hr)|]. split; [intros Hne; by apply (seal_other_alg _ _ Hr Hne)|].
intros n aad text -> -> -> ->. apply aead_seal_spec. apply (oneshot_only_some _ _ Hr).
Qed.

(** C12: A one-shot decryption succeeds only on a cipher text followed by its right
  tag, and wrote the plain text, within its buffer; and when no call fails, and
  nonce, lengths, key and buffer suit, the one reason to fail is a wrong tag: the
  answer is then [INVALID_SIGNATURE].  This is so of the algorithms that go
  through an operation, given with any tag length, and of XChaCha20-Poly1305 and
  Ascon-AEAD128 on buffers and a length pointer that are not NULL; these two with
  another tag length are not supported.  Nothing is left of the operation. *)
Theorem psa_aead_decrypt_spec key alg nonce additional_data ciphertext plaintext plaintext_size plaintext_length s :
input_length ciphertext <= SIZE_MAX ->
wp (psa_aead_decrypt key alg nonce additional_data ciphertext plaintext plaintext_size plaintext_length)
  (fun r s' => op_ctx s' = None /\
     match oneshot_only alg with
     | None => decrypt_post key alg nonce additional_data ciphertext plaintext plaintext_size
                 plaintext_length s r
     | Some v =>
         (alg <> seal_alg v -> r = (PSA_ERROR_NOT_SUPPORTED, [])) /\
         (forall n aad ct, alg = seal_alg v -> nonce = Bytes n -> additional_data = Bytes aad ->
            ciphertext = Bytes ct -> plaintext_length = true ->
            unseal_post key v n aad ct plaintext_size s r)
     end) s.
Proof.
intros Hsz. destruct (oneshot_only alg) as [v|] eqn:Hr; [|by apply operation_decrypt_spec].
split; [by apply (seal_frame _ _ Hr)|]. split; [intros Hne; by apply (seal_other_alg _ _ Hr Hne)|].
intros n aad ct -> -> -> -> ->. apply aead_unseal_spec. apply (oneshot_only_some _ _ Hr).
Qed.

(** One key encrypts in [s] and decrypts in [s'], where nothing fails, and the
  sizes are those of the algorithm. *)
Definition roundtrip_can (key alg : Z) (nonce additional_data plaintext : input) s s' : Prop :=
match oneshot_only alg with
| None => exists a key_data m,
    oneshot_can key alg PSA_KEY_USAGE_DECRYPT s' nonce additional_data plaintext a key_data m /\
    aead_key_usable key alg PSA_KEY_USAGE_ENCRYPT s a key_data
| Some v => exists n aad text key_data,
    nonce = Bytes n /\ additional_data = Bytes aad /\ plaintext = Bytes text /\
    seal_sizes v n aad text /\ op_rets s' = [] /\
    seal_key key v PSA_KEY_USAGE_ENCRYPT s key_data /\
    seal_key key v PSA_KEY_USAGE_DECRYPT s' key_data
end.

(** C10: What [psa_aead_encrypt] wrote, [psa_aead_decrypt] opens to the same text,
  when the key, the nonce and the additional data are the same, the key may
  decrypt, the buffer has room and nothing fails: for every algorithm, those that
  are one-shot only included. *)
Theorem aead_roundtrip key alg nonce additional_data plaintext size size' s s' out :
input_length plaintext <= SIZE_MAX -> zlen out <= SIZE_MAX ->
(psa_aead_encrypt key alg nonce additional_data plaintext true size true s).1 = (PSA_SUCCESS, out) ->
roundtrip_can key alg nonce additional_data plaintext s s' -> zlen (input_bytes plaintext) <= size' ->
(psa_aead_decrypt key alg nonce additional_data (Bytes out) true size' true s').1
  = (PSA_SUCCESS, input_bytes plaintext).
Proof.
intros Hsz Hout Henc Hcan Hroom. unfold roundtrip_can in Hcan.
destruct (oneshot_only alg) as [v|] eqn:Hr.
2: { destruct Hcan as (a & key_data & m & Hc & Hu). by eapply operation_roundtrip. }
destruct Hcan as (n & aad & text & kd & -> & -> & -> & (Hn & Ha & Ht) & Hrets & Hke & Hkd).
assert (alg = seal_alg v) as ->.
{ destruct (decide (alg = seal_alg v)) as [|Hne]; [done|].
  rewrite (proj1 (seal_other_alg _ _ Hr Hne _ _ _ _ _ _ _ _)) in Henc. done. }
pose proof (proj1 (oneshot_only_some _ _ Hr)) as Hb.
destruct (aead_seal_spec key v n aad text true size s Hb) as [Hseal _]. rewrite Henc in Hseal.
destruct (Hseal eq_refl) as (kd' & Hk' & Heq & _). cbn [snd] in Heq.
rewrite (seal_key_unique _ _ _ _ _ _ Hke Hk') in Heq.
assert (Hlen : zlen out - 16 = zlen text) by (rewrite Heq, seal_bytes_length; lia).
destruct (aead_unseal_spec key v n aad out true size' s' Hb) as [_ Hopen].
destruct (Hopen kd Hkd Hrets Hn Ha) as [Hgood _]; [by rewrite Hlen|by rewrite Hlen|].
by apply Hgood.
Qed.
End AeadCalls.
