(* ===== verification/CryptoSamples.v ===== *)
(** Concrete wolfCrypt primitives, for the witnesses of the operations' theorems.

    They are not the real algorithms; they are the simplest functions that meet
    the laws of [WolfCrypt]: a digest, a MAC and a derived key are the bytes of
    their inputs, cut or padded to the length asked for. *)

From stdpp Require Import base decidable list.
From Stdlib Require Import ZArith Lia.
From Stdlib Require Import Strings.Byte.
From S2P Require Import Prelude.
From S2P Require Import Values.
From S2P Require Import Engine.
From S2P Require Import WolfCrypt.
From S2P Require Import StoreIface.
From S2P Require Import StorePosix.
From S2P Require Import Library.
From S2P Require Import KeyStore.
From S2P Require Import Samples.
From S2P Require Import KeyStoreRules.
From S2P Require Import Operation.
From S2P Require Import Hash.
From S2P Require Import HashSpec.
From S2P Require Import Xof.
From S2P Require Import XofSpec.

#[local] Open Scope Z_scope.

(** [n] bytes of [l], padded with zeros. *)
Definition fit (n : Z) (l : list byte) : list byte :=
  take (Z.to_nat n) (l ++ replicate (Z.to_nat n) x00).

Lemma fit_length n l : 0 <= n -> zlen (fit n l) = n.
Proof. intros. unfold fit, zlen. rewrite length_take, length_app, length_replicate. lia. Qed.

Lemma fit_streaming l : streaming (fun n => fit n l).
Proof.
  split; [intros n; apply fit_length|]. intros m n Hmn. unfold fit.
  rewrite take_take, Nat.min_l by lia.
  replace (Z.to_nat n) with (Z.to_nat m + (Z.to_nat n - Z.to_nat m))%nat by lia.
  rewrite replicate_add, app_assoc. symmetry. apply take_app_le.
  rewrite length_app, length_replicate. lia.
Qed.

(** * Hashes and MACs *)

Definition sample_digest : WolfCryptDigest :=
  {| WC_MAX_DIGEST_SIZE := 64;
     wc_HashGetDigestSize := fun h =>
       match h with
       | WC_HASH_TYPE_NONE => -1
       | WC_HASH_TYPE_MD5 => 16
       | WC_HASH_TYPE_SHA => 20
       | WC_HASH_TYPE_SHA224 | WC_HASH_TYPE_SHA512_224 | WC_HASH_TYPE_SHA3_224 => 28
       | WC_HASH_TYPE_SHA256 | WC_HASH_TYPE_SHA512_256 | WC_HASH_TYPE_SHA3_256 => 32
       | WC_HASH_TYPE_SHA384 | WC_HASH_TYPE_SHA3_384 => 48
       | WC_HASH_TYPE_SHA512 | WC_HASH_TYPE_SHA3_512 => 64
       | WC_HASH_TYPE_SHAKE128 => 32
       | WC_HASH_TYPE_SHAKE256 => 64
       end |}.

Definition sample_hash_size (alg : Z) : Z :=
  if alg =? PSA_ALG_SHAKE256_512 then 64
  else if alg =? PSA_ALG_ASCON_HASH256 then 32
  else PSA_HASH_LENGTH alg.

(** A context remembers the address it is at. *)
Definition sample_hash : WolfCryptHash :=
  {| wc_hash := nat * list byte;
     wc_hash_init := fun _ p => (p, []);
     wc_hash_update := fun _ h d => (h.1, h.2 ++ d);
     wc_hash_copy := fun _ h q => (q, h.2);
     wc_hash_final := fun alg h => fit (sample_hash_size alg) h.2;
     WC_MD5_DIGEST_SIZE := 16; RIPEMD_DIGEST_SIZE := 20; WC_SHA_DIGEST_SIZE := 20;
     WC_SHA224_DIGEST_SIZE := 28; WC_SHA256_DIGEST_SIZE := 32; WC_SHA384_DIGEST_SIZE := 48;
     WC_SHA512_DIGEST_SIZE := 64; WC_SHA512_224_DIGEST_SIZE := 28;
     WC_SHA512_256_DIGEST_SIZE := 32; WC_SHA3_224_DIGEST_SIZE := 28;
     WC_SHA3_256_DIGEST_SIZE := 32; WC_SHA3_384_DIGEST_SIZE := 48;
     WC_SHA3_512_DIGEST_SIZE := 64; ASCON_HASH256_SZ := 32 |}.

Definition sample_hash_ok : WolfCryptHashOk sample_hash.
Proof.
  refine {| digest := fun alg m => fit (sample_hash_size alg) m;
            hashes := fun alg p (h : @wc_hash sample_hash) m =>
              h.2 = m /\ (alg = PSA_ALG_RIPEMD160 \/ alg = PSA_ALG_ASCON_HASH256 \/ h.1 = p) |};
    simpl; try (by intros; destruct_and?; subst; auto).
  by intros ???? m [?|?] [? _]; auto.
Defined.

Definition sample_hmac : WolfCryptHmac :=
  {| Hmac := wc_HashType * list byte;
     wc_HmacSetKey := fun h key => (h, key);
     wc_HmacUpdate := fun c d => (c.1, c.2 ++ d);
     wc_HmacFinal := fun c => fit (@wc_HashGetDigestSize sample_digest c.1) c.2 |}.

Lemma hmac_absorbs parts h (l : list byte) :
  fold_left (@wc_HmacUpdate sample_hmac) parts (h, l) = (h, l ++ concat parts).
Proof.
  revert l. induction parts as [|d parts IH]; intros l; simpl; [by rewrite app_nil_r|].
  by rewrite IH, app_assoc.
Qed.

Definition sample_hmac_ok : WolfCryptHmacOk sample_digest sample_hmac.
Proof.
  refine {| hmac := fun h key m => fit (@wc_HashGetDigestSize sample_digest h) (key ++ m) |}.
  - intros h key parts. change (wc_HmacSetKey h key) with (h, key). by rewrite hmac_absorbs.
  - intros h key m Hh. apply fit_length. lia.
Defined.

Definition sample_cmac : WolfCryptCmac :=
  {| Cmac := list byte;
     wc_InitCmac_ex := fun key => key;
     wc_CmacUpdate := fun c d => c ++ d;
     wc_CmacFinal := fun c n => fit n c |}.

Lemma cmac_absorbs parts (l : list byte) :
  fold_left (@wc_CmacUpdate sample_cmac) parts l = l ++ concat parts.
Proof.
  revert l. induction parts as [|d parts IH]; intros l; simpl; [by rewrite app_nil_r|].
  by rewrite IH, app_assoc.
Qed.

Definition sample_cmac_ok : WolfCryptCmacOk sample_cmac.
Proof.
  refine {| cmac := fun key m => fit WC_AES_BLOCK_SIZE (key ++ m) |}.
  - intros key parts n Hn. change (wc_InitCmac_ex key) with key. rewrite cmac_absorbs.
    apply (fit_streaming (key ++ concat parts)). lia.
  - intros key m. by apply fit_length.
Defined.

Definition sample_misc : WolfCryptMisc :=
  {| ConstantCompare := fun a b => if decide (a = b) then 0 else 1 |}.

Lemma sample_misc_ok : WolfCryptMiscOk sample_misc.
Proof. split. intros a b _. simpl. by destruct (decide (a = b)). Qed.

(** * Key derivation, key agreement, extendable output *)

Definition sample_kdf : WolfCryptKdf :=
  {| wc_HKDF_Extract_ex := fun h salt ikm => fit (@wc_HashGetDigestSize sample_digest h) (salt ++ ikm);
     wc_HKDF_Expand_ex := fun _ prk info n => fit n (prk ++ info);
     wc_PRF_TLS := fun _ secret label seed n => fit n (secret ++ label ++ seed);
     wc_PBKDF2_ex := fun _ password salt _ n => fit n (password ++ salt) |}.

Lemma sample_kdf_ok : WolfCryptKdfOk sample_digest sample_kdf.
Proof.
  split; simpl; [done|by intros []| | | |].
  - intros h salt ikm Hh. apply fit_length. lia.
  - intros h prk info. apply fit_streaming.
  - intros m secret label seed. apply fit_streaming.
  - intros h password salt cost. apply fit_streaming.
Qed.

Definition sample_dh : WolfCryptDh :=
  {| wc_curve25519_shared_secret_ex := fun key peer => fit 32 (key ++ peer);
     wc_curve448_shared_secret_ex := fun key peer => fit 56 (key ++ peer);
     wc_ecc_shared_secret := fun _ key peer => key ++ peer |}.

(** A context is the message and the number of blocks given. *)
Definition sample_shake : WolfCryptShake :=
  {| wc_Shake := list byte * Z;
     wc_InitShake := fun _ => ([], 0);
     wc_Shake_Absorb := fun _ s msg => (msg, 0);
     wc_Shake_SqueezeBlocks := fun alg s n =>
       (slice (fit (xof_rate alg * (s.2 + n)) s.1) (xof_rate alg * s.2) (xof_rate alg * n),
        (s.1, s.2 + n)) |}.

Definition sample_shake_ok : WolfCryptShakeOk sample_shake xof_rate.
Proof.
  refine {| shake := fun _ msg n => fit n msg;
            squeezed := fun _ (s : @wc_Shake sample_shake) msg k => s = (msg, k) |}; simpl.
  - intros alg msg. apply fit_streaming.
  - done.
  - intros alg s msg k n -> Hk Hn. simpl. split; [done|].
    pose proof (xof_rate_bounds alg) as Hr. rewrite Z.mul_add_distr_l.
    set (a := xof_rate alg * k). set (b := xof_rate alg * n).
    assert (Hab : 0 <= a /\ 0 <= b) by (unfold a, b; nia). clearbody a b.
    rewrite (streaming_prefix (fun i => fit i msg) a (a + b)) by (apply fit_streaming || lia).
    unfold slice. rewrite (take_ge (drop _ _)); [symmetry; apply take_drop|].
    pose proof (fit_length (a + b) msg ltac:(lia)). unfold zlen in *. rewrite length_drop. lia.
Defined.

#[export] Existing Instances sample_digest sample_hash sample_hash_ok sample_hmac sample_hmac_ok
  sample_cmac sample_cmac_ok sample_misc sample_misc_ok sample_kdf sample_kdf_ok sample_dh
  sample_shake sample_shake_ok.

Lemma sample_hash_size_spec alg : psa_hash_get_size alg <> 0 -> sample_hash_size alg = psa_hash_get_size alg.
Proof.
  unfold psa_hash_get_size. cbn -[Z.eqb sample_hash_size].
  repeat match goal with
  | |- context [alg =? ?x] => destruct (Z.eqb_spec alg x) as [->|]; [done|]
  end. done.
Qed.

Lemma sample_sizes : WolfCryptHashSizes sample_hash_ok.
Proof.
  split; [repeat constructor; done|]. intros alg m Hsz.
  rewrite <- sample_hash_size_spec by done. apply fit_length.
  rewrite sample_hash_size_spec by done. unfold psa_hash_get_size. repeat case_match; done.
Qed.

#[export] Existing Instance sample_sizes.

(** * States *)

(** The library after [psa_crypto_init] and an inactive operation. *)
Definition start {Op : Type} : opstate posix_store Op := mkOp _ _ sample_state None [].

Lemma start_smooth {Op : Type} : smooth (start (Op := Op)).
Proof. by split. Qed.

Definition volatile_attr (type usage alg : Z) : psa_key_attributes_t :=
  mkAttributes type 0 PSA_KEY_LIFETIME_VOLATILE (mkPolicy usage alg 0) 0.

(** The library with one key of 32 bytes, and an inactive operation. *)
Definition with_key {Op : Type} (type usage alg : Z) : opstate posix_store Op :=
  mkOp _ _ (psa_import_key (Some (volatile_attr type usage alg)) (Some (replicate 32 x4b)) true
              sample_state).2 None [].

(** Its identifier. *)
Definition sample_id : Z := PSA_KEY_ID_VENDOR_MIN.
