(* ===== verification/ImportRules.v ===== *)
(** Rules for [psa_import_key]: what each of its steps does to the key table,
    up to [wp_import_key], from which the theorems of [KeyStoreSpec] follow. *)

From stdpp Require Import base decidable list gmap.
From Stdlib Require Import ZArith Lia.
From Stdlib Require Import Strings.Byte.
From S2P Require Import Prelude.
From S2P Require Import Values.
From S2P Require Import Engine.
From S2P Require Import KeyPolicy.
From S2P Require Import KeyFormat.
From S2P Require Import StoreIface.
From S2P Require Import Library.
From S2P Require Import KeyStore.
From S2P Require Import KeyStoreRules.

#[local] Open Scope Z_scope.

Section ImportSteps.
Context {C : Config} {E : WolfCryptErr} {K : WolfCryptKeys} {R : WolfCryptRng}.
Context {O : StoreOps} {L : StoreLaws O} {B : KeyBackend}.

Implicit Types s : kstate O.

(** A step that commits the record [buf] of [id] and changes nothing else. *)
Record stored (id : Z) (buf : list byte) s s' : Prop := {
st_next : g_next_key_id s' = g_next_key_id s;
st_keys : g_volatile_keys s' = g_volatile_keys s;
st_records : records (key_store s') = <[Z.to_N id := buf]> (records (key_store s));
st_crypto : g_psa_crypto_initialized s' = g_psa_crypto_initialized s;
st_mem : mem_ok s -> mem_ok s';
st_healthy : healthy (key_store s) -> healthy (key_store s') }.

Lemma stored_calm_l id buf s1 s2 s3 : calm s1 s2 -> stored id buf s2 s3 -> stored id buf s1 s3.
Proof. intros [? ? Hr ? ?] [? ? Hr' ? ?]. split; try congruence; auto. Qed.
Lemma stored_calm_r id buf s1 s2 s3 : stored id buf s1 s2 -> calm s2 s3 -> stored id buf s1 s3.
Proof. intros [] []. split; try congruence; auto. Qed.

(** The volatile key [id] added, the record [id] added. *)
Definition imported (a : psa_key_attributes_t) (data : list byte) (id : Z) s s' : Prop :=
if PSA_KEY_LIFETIME_IS_VOLATILE (attr_lifetime a)
then find_node id (g_volatile_keys s) = None /\
     calm (with_volatile_keys (mkNode id a data :: g_volatile_keys s) s) s'
else records (key_store s) !! Z.to_N id = None /\
     exists buf, serialize_record a data (zlen data + attr_length + sizeof_size_t) = inr buf /\
                 stored id buf s s'.

(** Whether the identifier is taken where the key would go. *)
Definition id_taken (a : psa_key_attributes_t) (id : Z) s : Prop :=
if PSA_KEY_LIFETIME_IS_VOLATILE (attr_lifetime a)
then find_node id (g_volatile_keys s) <> None
else records (key_store s) !! Z.to_N id <> None.

Lemma wp_import_write id buf len (Q : Z -> kstate O -> Prop) s :
zlen buf = attr_length + sizeof_size_t + len -> 0 <= len -> zlen buf <= INT_MAX ->
(forall ret s', lock_view s' = lock_view s ->
   (ret = zlen buf /\ stored id buf s s') \/
   (ret < 0 /\ calm s s' /\ ~ (healthy (key_store s) /\ ulong (Z.to_N id))) -> Q ret s') ->
wp (import_write id buf len) Q s.
Proof.
intros Hlen Hl Hmax HQ. unfold import_write. wp_seq. apply wp_store_op.
pose proof (open_write_law (Z.to_N id) (to_int len) (key_store s)) as [Hrec Hopen].
pose proof (healthy_open_write (Z.to_N id) (to_int len) (key_store s)) as Hho.
destruct (wolfPSA_Store_OpenSz WOLFPSA_STORE_KEY (Z.to_N id) 0%N false (to_int len) (key_store s))
  as [[ret|h] st] eqn:Eq; simpl in *.
{ wp_seq. apply HQ; [done|]. right. split; [done|]. split.
  - apply store_step_calm; [done|]. intros Hh. by destruct (Hho Hh).
  - intros [Hh Hid]. destruct (Hho Hh) as [_ Hs]. by destruct (Hs Hid). }
wp_seq. apply wp_store_op. rewrite <- Hlen, to_int_small by (pose proof (zlen_nonneg buf); lia).
simpl. pose proof (write_law h (Z.to_N id) [] buf st Hopen) as [Hrec2 Hw].
pose proof (healthy_write h (Z.to_N id) [] buf st) as Hhw.
destruct (wolfPSA_Store_Write h buf (zlen buf) st) as [[ret h'] st2] eqn:Ew. simpl in *.
wp_seq. apply wp_store_op. simpl. destruct Hw as [[-> Hwr]|[Hlt Hsp]].
- pose proof (close_write_law h' (Z.to_N id) buf st2 Hwr) as Hcl.
  pose proof (healthy_close_write h' (Z.to_N id) buf st2) as Hhc.
  destruct (wolfPSA_Store_Close h' st2) as [closeRet st3] eqn:Ec. simpl in *. wp_seq.
  apply HQ; [done|]. rewrite (proj2 (Z.leb_le 0 (zlen buf))) by apply zlen_nonneg. simpl.
  destruct Hcl as [[-> Hrec3]|[Hneg Hrec3]].
  + left. split; [done|]. split; simpl; try done; [congruence|].
    intros Hh. destruct (Hho Hh) as [Hh1 _]. destruct (Hhw Hh1 Hopen) as [Hh2 _].
    by destruct (Hhc Hh2 Hwr).
  + right. destruct (Z.eqb_spec closeRet WOLFPSA_STORE_OK) as [->|]; [done|]. simpl.
    split; [done|].
    assert (Hbad : ~ healthy (key_store s)).
    { intros Hh. destruct (Hho Hh) as [Hh1 _]. destruct (Hhw Hh1 Hopen) as [Hh2 _].
      by destruct (Hhc Hh2 Hwr). }
    split; [|by intros []]. refine (store_step_calm s st3 _ _); [congruence|done].
- destruct (close_spoiled_law h' st2 Hsp) as [Hneg Hrec3].
  destruct (wolfPSA_Store_Close h' st2) as [closeRet st3] eqn:Ec. simpl in *. wp_seq.
  assert (Hbad : ~ healthy (key_store s)).
  { intros Hh. destruct (Hho Hh) as [Hh1 _]. destruct (Hhw Hh1 Hopen) as [_ Hr].
    by rewrite Hr in Hlt; apply Z.lt_irrefl in Hlt. }
  apply HQ; [done|]. right. split; [|split; [refine (store_step_calm s st3 _ _); [congruence|done]|by intros []]].
  destruct (Z.leb_spec 0 ret); simpl; [|done].
  destruct (Z.eqb_spec closeRet WOLFPSA_STORE_OK) as [->|]; done.
Qed.

Lemma wp_import_persist id buf len (Q : psa_status_t + Z -> kstate O -> Prop) s :
idle s -> zlen buf = attr_length + sizeof_size_t + len -> 0 <= len -> zlen buf <= INT_MAX ->
(forall r s', idle s' ->
   match r with
   | inl e => e <> PSA_SUCCESS /\ calm s s' /\
              (e = PSA_ERROR_ALREADY_EXISTS -> records (key_store s) !! Z.to_N id <> None) /\
              (healthy (key_store s) -> ulong (Z.to_N id) ->
               records (key_store s) !! Z.to_N id <> None /\ e = PSA_ERROR_ALREADY_EXISTS)
   | inr ret => records (key_store s) !! Z.to_N id = None /\
                ((ret = zlen buf /\ stored id buf s s') \/
                 (ret < 0 /\ calm s s' /\ ~ (healthy (key_store s) /\ ulong (Z.to_N id))))
   end -> Q r s') ->
wp (import_persist id buf len) Q s.
Proof.
intros Hi Hlen Hl Hmax HQ. unfold import_persist, wolfPSA_Store_Open. wp_seq.
apply wp_LOCK; [done|]. intros s1 Hq1 Hl1. wp_seq. apply wp_store_op.
pose proof (open_read_law (Z.to_N id) 0 (key_store s1)) as [Hrec Hopen].
pose proof (healthy_open_read (Z.to_N id) 0 (key_store s1)) as Hho.
destruct (wolfPSA_Store_OpenSz WOLFPSA_STORE_KEY (Z.to_N id) 0%N true 0 (key_store s1)) as [r st] eqn:Eq.
simpl in *.
assert (Hc1 : calm s (with_key_store st s1)).
{ apply (quiet_calm_trans _ s1); [done|]. apply store_step_calm; [done|].
  intros Hh. by destruct (Hho Hh). }
rewrite (q_store _ _ Hq1) in *. destruct r as [ret|h]; simpl.
- destruct Hopen as [Hneg Hna].
  destruct (Z.eqb_spec ret WOLFPSA_STORE_NOT_AVAILABLE) as [->|Hother]; simpl.
  + wp_seq. apply (wp_import_write id buf len); [done..|]. intros ret s2 Hv2 Hcase. wp_seq.
    apply wp_UNLOCK; [by eapply (locked_lock_view (with_key_store st s1))|].
    intros s3 Hq3%quiet_calm Hi3. wp_seq. apply HQ; [done|]. split; [by apply Hna|].
    destruct Hcase as [[-> Hst]|(Hlt & Hc2 & Hbad)]; [left|right].
    * split; [done|]. by eapply stored_calm_r; [eapply stored_calm_l|].
    * split; [done|]. split; [by eapply calm_trans; [eapply calm_trans|]|].
      intros [Hh ?]. apply Hbad. split; [by apply Hc1|done].
  + wp_seq. apply wp_UNLOCK; [done|]. intros s2 Hq2%quiet_calm Hi2. wp_seq.
    apply HQ; [done|].
    split_and!; [apply store_open_status_fails|by eapply calm_trans| |].
    * unfold wolfpsa_store_open_status. by destruct (ret =? MEMORY_E).
    * intros Hh Hid. destruct (Hho Hh) as [_ Hcase]. specialize (Hcase Hid). exfalso.
      destruct (records (key_store s) !! Z.to_N id); [by destruct Hcase|].
      by injection Hcase as ->.
- destruct Hopen as (bs & Hbs & Hread). wp_seq.
  eapply wp_close_reading; [exact Hread|]. intros r2 s2 Hc2 Hv2. wp_seq.
  apply wp_UNLOCK; [by eapply (locked_lock_view (with_key_store st s1))|].
  intros s3 Hq3%quiet_calm Hi3. wp_seq. apply HQ; [done|]. rewrite Hbs. split_and!; try done.
  by eapply calm_trans; [eapply calm_trans|].
Qed.

(** The identifier the caller gives to a key with these attributes, if any. *)
Definition caller_id (a : psa_key_attributes_t) : Z :=
if PSA_KEY_LIFETIME_IS_VOLATILE (attr_lifetime a) then PSA_KEY_ID_NULL else attr_id a.

Definition vendor_id (id : Z) : Prop := PSA_KEY_ID_VENDOR_MIN <= id <= PSA_KEY_ID_VENDOR_MAX.

Lemma wp_assign_id a (Q : option Z -> kstate O -> Prop) s :
idle s ->
(forall r s', idle s' ->
   match r with
   | Some id =>
       (caller_id a <> PSA_KEY_ID_NULL /\ id = caller_id a /\ quiet s s') \/
       (caller_id a = PSA_KEY_ID_NULL /\ id = g_next_key_id s /\ vendor_id id /\
        quiet (with_next_key_id (id + 1) s) s')
   | None => caller_id a = PSA_KEY_ID_NULL /\ ~ vendor_id (g_next_key_id s) /\ quiet s s'
   end -> Q r s') ->
wp (import_assign_id a) Q s.
Proof.
intros Hi HQ. unfold import_assign_id. fold (caller_id a).
destruct (Z.eqb_spec (caller_id a) PSA_KEY_ID_NULL) as [Hn|Hn]; simpl.
2:{ wp_seq. apply HQ; [done|]. left. split_and!; [done|done|apply quiet_refl]. }
wp_seq. apply wp_LOCK; [done|]. intros s1 Hq1 Hl1. wp_seq. rewrite (q_next _ _ Hq1).
unfold vendor_id in HQ.
destruct ((g_next_key_id s <? PSA_KEY_ID_VENDOR_MIN) || _) eqn:Hr; wp_seq.
- apply wp_UNLOCK; [done|]. intros s2 Hq2 Hi2. wp_seq. apply HQ; [done|].
  split_and!; [done|lia|by eapply quiet_trans].
- apply wp_UNLOCK; [done|]. intros s2 Hq2 Hi2. wp_seq. apply HQ; [done|]. right.
  split_and!; [done|done|lia|lia|]. destruct Hq1, Hq2. simpl in *.
  split; simpl; congruence || auto.
Qed.

Lemma serialize_record_some a data :
exists buf,
  serialize_record a data (zlen data + attr_length + sizeof_size_t) = inr buf /\
  zlen buf = attr_length + sizeof_size_t + zlen data.
Proof.
pose proof (zlen_nonneg data). unfold serialize_record, psa_key_attributes_serialize.
rewrite (proj2 (Z.ltb_ge _ attr_length)) by (unfold attr_length, sizeof_size_t; lia).
eexists. split; [reflexivity|]. rewrite !zlen_app. unfold zlen at 1 2 3 4 5 6.
rewrite !length_host_bytes. unfold attr_length, sizeof_size_t. lia.
Qed.

(** Where the arithmetic of the buffer size fits an [int]. *)
Definition fits (data : list byte) : Prop :=
attr_length + sizeof_size_t + zlen data <= INT_MAX.

Lemma import_finish_success id len ret :
0 <= len -> ret = attr_length + sizeof_size_t + len ->
import_finish id len PSA_SUCCESS ret = (PSA_SUCCESS, id).
Proof.
intros Hl ->. unfold import_finish, attr_length, sizeof_size_t.
rewrite (proj2 (Z.ltb_ge _ 0)) by lia. by rewrite Z.eqb_refl.
Qed.

Lemma import_finish_error id len st ret :
st <> PSA_SUCCESS -> import_finish id len st ret = (st, PSA_KEY_ID_NULL).
Proof. by destruct st. Qed.

Lemma import_finish_negative id len ret :
ret < 0 -> import_finish id len PSA_SUCCESS ret = (wolfpsa_store_open_status ret, PSA_KEY_ID_NULL).
Proof. intros. unfold import_finish. by rewrite (proj2 (Z.ltb_lt ret 0)). Qed.

Definition good_environment s : Prop := mem_ok s /\ healthy (key_store s).

Lemma wp_import_store a data id (Q : psa_status_t * Z -> kstate O -> Prop) s :
idle s -> fits data -> zlen data <> 0 ->
(forall st id' s', idle s' ->
   (st = PSA_SUCCESS /\ id' = id /\ imported a data id s s') \/
   (st <> PSA_SUCCESS /\ calm s s' /\
    (id' = PSA_KEY_ID_NULL \/ (id' = id /\ st = PSA_ERROR_INSUFFICIENT_MEMORY)) /\
    (st = PSA_ERROR_ALREADY_EXISTS -> id_taken a id s) /\
    (good_environment s -> ulong (Z.to_N id) -> st = PSA_ERROR_ALREADY_EXISTS)) ->
   Q (st, id') s') ->
wp (import_store a data id) Q s.
Proof.
intros Hi Hfit Hnz HQ. unfold import_store. wp_seq. apply wp_XMALLOC.
intros b s1 Hq1 Hv1 Hm1. destruct b; simpl negb; cbv iota.
2:{ wp_seq. apply HQ; [by eapply idle_lock_view|]. right. split; [done|].
    split; [by apply quiet_calm|]. split; [by right|]. split; [done|].
    intros [Hm _] _. by apply Hm1 in Hm. }
assert (Hi1 : idle s1) by (by eapply idle_lock_view).
destruct (serialize_record_some a data) as (buf & Hser & Hblen). rewrite Hser.
pose proof (zlen_nonneg data) as Hnn. unfold fits in Hfit. unfold imported, id_taken in HQ.
destruct (PSA_KEY_LIFETIME_IS_VOLATILE (attr_lifetime a)).
- wp_seq. apply wp_volatile_store; [done|]. intros st s2 Hi2 Hcase. wp_seq.
  rewrite (q_keys _ _ Hq1) in Hcase. destruct Hcase as [(-> & _ & Hf & Hq2)|(Hst & Hq2 & Hex)].
  + rewrite to_int_small by (unfold attr_length, sizeof_size_t in *; lia).
    rewrite import_finish_success by done. apply HQ; [done|]. left.
    split_and!; [done|done|done|]. apply quiet_calm in Hq1, Hq2.
    by eapply calm_trans; [apply calm_with_keys, Hq1|].
  + rewrite import_finish_error by done. apply HQ; [done|]. right.
    split_and!; [done|by apply quiet_calm; eapply quiet_trans|by left|apply Hex|].
    intros [Hm _] _. apply Hex; [done|]. by apply Hq1.
- wp_seq. apply (wp_import_persist id buf (zlen data)); [done|done|done|lia|].
  intros r s2 Hi2 Hcase. wp_seq. rewrite (q_store _ _ Hq1) in Hcase. destruct r as [e|ret]; cbv iota.
  + destruct Hcase as (He & Hc2 & Hex & Hh). apply HQ; [done|]. right.
    split_and!; [done|by eapply quiet_calm_trans|by left|done|].
    intros [_ Hhealthy] Hid. by apply Hh.
  + destruct Hcase as [Hnone [[-> Hst]|(Hneg & Hc2 & Hbad)]].
    * rewrite import_finish_success by done. apply HQ; [done|]. left.
      split_and!; [done|done|done|]. exists buf. split; [done|].
      by eapply stored_calm_l; [apply quiet_calm|].
    * rewrite import_finish_negative by done. apply HQ; [done|]. right.
      split_and!; [apply store_open_status_fails|by eapply quiet_calm_trans|by left| |].
      -- unfold wolfpsa_store_open_status. by destruct (ret =? MEMORY_E).
      -- intros [_ Hhealthy] Hid. exfalso. by apply Hbad.
Qed.

(** * The whole call *)

Lemma import_check_params_len a len :
import_check_params a len = PSA_SUCCESS -> len <> 0 /\ len <= INT_MAX.
Proof.
unfold import_check_params. destruct (Z.eqb_spec len 0); [done|].
destruct (Z.ltb_spec INT_MAX len); done.
Qed.

Lemma import_validate_len a data a' :
import_validate a data = inr a' -> zlen data <> 0 /\ zlen data <= INT_MAX.
Proof.
unfold import_validate.
destruct (import_check_params a (zlen data)) eqn:Hp; try done.
intros _. by apply import_check_params_len in Hp.
Qed.

Lemma rsa_key_bits_error type data e :
wolfpsa_rsa_key_bits type data = inl e -> e <> PSA_SUCCESS.
Proof.
unfold wolfpsa_rsa_key_bits.
destruct (Z.eqb_spec wc_InitRsaKey 0) as [|Hi]; simpl.
2:{ intros [= <-]. by rewrite wc_error_success. }
destruct (if type =? _ then _ else _) as [ret [idx [n e']]].
destruct (Z.eqb_spec ret 0) as [|Hr]; simpl.
2:{ intros [= <-]. by apply key_data_status_fails. }
repeat case_match; intros; by simplify_eq.
Qed.

Lemma infer_key_bits_error a len e : wolfpsa_infer_key_bits a len = inl e -> e <> PSA_SUCCESS.
Proof.
unfold wolfpsa_infer_key_bits, infer_byte_string_bits, infer_ecc_bits, infer_public_bits.
intros He ->. repeat (case_match; simplify_eq/=).
Qed.

Lemma import_validate_error a data e : import_validate a data = inl e -> e <> PSA_SUCCESS.
Proof.
unfold import_validate. intros Hv ->.
destruct (import_check_params a (zlen data)); try done.
destruct (import_key_bits a data) as [e|a'] eqn:Hb.
- simplify_eq. unfold import_key_bits in Hb.
  destruct (wolfpsa_rsa_key_bits (attr_type a) data) as [e|bits] eqn:Hr;
    [apply rsa_key_bits_error in Hr|];
    repeat (case_match; simplify_eq/=); by eapply infer_key_bits_error.
- by destruct (import_check_data a' data).
Qed.

Lemma imported_calm_l a data id s1 s2 s3 :
calm s1 s2 -> imported a data id s2 s3 -> imported a data id s1 s3.
Proof.
intros Hc. unfold imported. case_match.
- rewrite (c_keys _ _ Hc). intros [? ?]. split; [done|].
  by eapply calm_trans; [apply calm_with_keys|].
- rewrite (c_records _ _ Hc). intros (? & buf & ? & ?). split; [done|].
  exists buf. split; [done|]. by eapply stored_calm_l.
Qed.

Definition assigned_id (a : psa_key_attributes_t) s : Z :=
if caller_id a =? PSA_KEY_ID_NULL then g_next_key_id s else caller_id a.

(** The state after the identifier was taken. *)
Definition after_id (a : psa_key_attributes_t) s : kstate O :=
if caller_id a =? PSA_KEY_ID_NULL then with_next_key_id (g_next_key_id s + 1) s else s.

Lemma after_id_same a s :
g_volatile_keys (after_id a s) = g_volatile_keys s /\
key_store (after_id a s) = key_store s.
Proof. unfold after_id. by case_match. Qed.

(** Why a call with nothing failing around it is refused. *)
Definition refusal (attributes : psa_key_attributes_t) (data : list byte)
  (st : psa_status_t) s : Prop :=
import_validate attributes data = inl st \/
exists a, import_validate attributes data = inr a /\
  ((st = PSA_ERROR_INSUFFICIENT_STORAGE /\ caller_id a = PSA_KEY_ID_NULL /\
    ~ vendor_id (g_next_key_id s)) \/
   (st = PSA_ERROR_ALREADY_EXISTS /\ id_taken a (assigned_id a s) s)).

(** Every outcome of an import of data whose record size fits an [int]. *)
Lemma wp_import_key attributes data (Q : psa_status_t * Z -> kstate O -> Prop) s :
free s -> fits data ->
(forall st id s', free s' ->
   (st = PSA_SUCCESS /\ g_psa_crypto_initialized s = true /\ idle s' /\
    exists a, import_validate attributes data = inr a /\ id = assigned_id a s /\
      (caller_id a = PSA_KEY_ID_NULL -> vendor_id id) /\
      imported a data id (after_id a s) s') \/
   (st <> PSA_SUCCESS /\
    (calm s s' \/
     exists a, import_validate attributes data = inr a /\ caller_id a = PSA_KEY_ID_NULL /\
       vendor_id (g_next_key_id s) /\ calm (after_id a s) s') /\
    (id = PSA_KEY_ID_NULL \/ st = PSA_ERROR_INSUFFICIENT_MEMORY) /\
    (good_environment s -> idle s -> g_psa_crypto_initialized s = true ->
     (forall a, import_validate attributes data = inr a -> ulong (Z.to_N (assigned_id a s))) ->
     refusal attributes data st s)) ->
   Q (st, id) s') ->
wp (psa_import_key (Some attributes) (Some data) true) Q s.
Proof.
intros Hf Hfit HQ. unfold psa_import_key.
destruct (import_validate attributes data) as [e|a] eqn:Hval.
{ wp_seq. apply HQ; [done|]. right.
  split_and!; [by eapply import_validate_error|by left; apply calm_refl|by left|by left]. }
destruct (import_validate_len _ _ _ Hval) as [Hnz _].
wp_seq. apply wp_check_init; [done|]. intros st s1 Hq1 Hf1 _ Hok1 Hyes1.
destruct (decide (st = PSA_SUCCESS)) as [->|Hst].
2:{ replace (match st with PSA_SUCCESS => _ | _ => _ end) with
      (mret (st, PSA_KEY_ID_NULL) : M (kstate O) (psa_status_t * Z)) by (by destruct st).
    wp_seq. apply HQ; [done|]. right.
    split_and!; [done|by left; apply quiet_calm|by left|]. intros _ Hi Hc _.
    exfalso. apply Hst. by apply Hyes1. }
destruct (Hok1 eq_refl) as [Hi1 Hinit]. wp_seq. apply wp_assign_id; [done|].
intros r s2 Hi2 Hcase. destruct r as [id|].
2:{ destruct Hcase as (Hnull & Hout & Hq2). rewrite (q_next _ _ Hq1) in Hout. wp_seq.
    apply HQ; [by apply idle_free|]. right.
    split_and!; [done|by left; apply quiet_calm; eapply quiet_trans|by left|].
    intros _ _ _ _. right. exists a. auto. }
assert (Hid : id = assigned_id a s /\ calm (after_id a s) s2 /\
              (caller_id a = PSA_KEY_ID_NULL -> vendor_id id) /\
              (good_environment s -> good_environment s2)).
{ unfold assigned_id, after_id, good_environment. apply quiet_calm in Hq1.
  destruct Hcase as [(Hnn & -> & Hq2%quiet_calm)|(Hnn & -> & Hv & Hq2%quiet_calm)].
  - destruct (Z.eqb_spec (caller_id a) PSA_KEY_ID_NULL); [done|].
    pose proof (calm_trans _ _ _ Hq1 Hq2) as Hc. split_and!; [done|done|done|].
    intros []. split; by apply Hc.
  - rewrite Hnn, Z.eqb_refl. rewrite (c_next _ _ Hq1) in *.
    pose proof (calm_trans _ _ _ (calm_with_next _ _ _ Hq1) Hq2) as Hc.
    split_and!; [done|done|done|]. intros []. split; by apply Hc. }
destruct Hid as (-> & Hc2 & Hvend & Hgood).
apply wp_import_store; [done|done|done|]. intros st id' s3 Hi3 Hres.
apply HQ; [by apply idle_free|]. destruct Hres as [(-> & -> & Himp)|(Hst & Hc3 & Hid' & Hex & Hg)].
- left. split_and!; [done|done|done|]. exists a. split_and!; [done|done|done|].
  by eapply imported_calm_l.
- right. pose proof (calm_trans _ _ _ Hc2 Hc3) as Hc. split_and!; [done| |by intuition|].
  + unfold after_id in *. destruct (Z.eqb_spec (caller_id a) PSA_KEY_ID_NULL) as [Hn|];
      [right|by left].
    exists a. unfold assigned_id in Hvend. rewrite Hn, Z.eqb_refl in *. auto.
  + intros Hge _ _ Hul. right. exists a. split; [done|]. right.
    rewrite (Hg (Hgood Hge) (Hul a eq_refl)) in *. split; [done|]. specialize (Hex eq_refl).
    destruct (after_id_same a s) as [Hk Hs]. unfold id_taken in *.
    rewrite (c_keys _ _ Hc2), (c_records _ _ Hc2), Hk, Hs in Hex. done.
Qed.
End ImportSteps.
