(* ===== verification/KeyStoreSpec.v ===== *)
(** What the key store promises: the key table as a partial map from
    identifiers to keys, and the theorems that relate import, lookup, export,
    copy and destruction to it. *)

From stdpp Require Import base decidable list gmap.
From Stdlib Require Import ZArith Lia.
From Stdlib Require Import Strings.Byte.
From S2P Require Import Prelude.
From S2P Require Import Values.
From S2P Require Import Engine.
From S2P Require Import KeyPolicy.
From S2P Require Import KeyFormat.
From S2P Require Import StoreIface.
From S2P Require Import Library.
From S2P Require Import KeyStore.
From S2P Require Import KeyStoreRules.
From S2P Require Import ImportRules.

#[local] Open Scope Z_scope.

Section Spec.
Context {C : Config} {E : WolfCryptErr} {K : WolfCryptKeys} {R : WolfCryptRng}.
Context {O : StoreOps} {L : StoreLaws O} {B : KeyBackend}.

Implicit Types s : kstate O.

(** * The key table *)

(** The key a record holds; [a0] is the attribute object it is read into,
  whose identifier stays. *)
Definition parse_record (a0 : psa_key_attributes_t) (bs : list byte)
: option (psa_key_attributes_t * list byte) :=
if (length bs <? 24)%nat then None
else
  match header_attributes (take 24 bs) a0 with
  | inl _ => None
  | inr a =>
      let n := header_data_length (take 24 bs) in
      if (0 <? n) && (n <=? INT_MAX) && (n <=? zlen (drop 24 bs))
      then Some (a, take (Z.to_nat n) (drop 24 bs)) else None
  end.

Definition record_of s id : option (list byte) := records (key_store s) !! Z.to_N id.

(** The key that [id] names: a volatile key hides a persistent one. *)
Definition key_lookup (a0 : psa_key_attributes_t) s id
: option (psa_key_attributes_t * list byte) :=
match find_node id (g_volatile_keys s) with
| Some n => Some (node_attributes n, node_data n)
| None => record_of s id ≫= (parse_record a0)
end.

Lemma key_lookup_calm a0 s s' id : calm s s' -> key_lookup a0 s' id = key_lookup a0 s id.
Proof. intros Hc. unfold key_lookup, record_of. by rewrite (c_keys _ _ Hc), (c_records _ _ Hc). Qed.

(** The attributes a persistent record keeps. *)
Definition record_view (a : psa_key_attributes_t) (id : Z) : psa_key_attributes_t :=
mkAttributes (attr_type a) (attr_bits a) (attr_lifetime a)
  (mkPolicy (usage (attr_policy a)) (alg (attr_policy a)) PSA_ALG_NONE) id.

Lemma parse_serialized a a0 data size buf :
wf_attributes a -> 0 < zlen data <= INT_MAX ->
serialize_record a data size = inr buf ->
parse_record a0 buf = Some (record_view a (attr_id a0), data).
Proof.
intros Hwf Hlen Hser.
destruct (record_parts a a0 data size buf Hwf) as (Hattr & Hdl & Hdata & Hz);
  [unfold INT_MAX, SIZE_MAX in *; lia|done|].
unfold parse_record. unfold zlen at 1, attr_length, sizeof_size_t in Hz.
destruct (Nat.ltb_spec (length buf) 24); [unfold zlen in *; lia|].
unfold header_attributes, header_data_length. unfold record_header in *.
rewrite Hattr, Hdl, Hdata.
rewrite (proj2 (Z.ltb_lt 0 _)), (proj2 (Z.leb_le _ INT_MAX)), Z.leb_refl by lia. simpl.
unfold zlen. by rewrite Nat2Z.id, firstn_all.
Qed.

Lemma header_attributes_some bs a0 :
(24 <= length bs)%nat -> exists a, header_attributes (take 24 bs) a0 = inr a.
Proof.
intros. unfold header_attributes, psa_key_attributes_deserialize, zlen.
rewrite take_take, length_take. unfold attr_length.
rewrite (proj2 (Z.ltb_ge _ 16)) by lia. by eexists.
Qed.

Lemma header_data_length_range bs : 0 <= header_data_length bs.
Proof. unfold header_data_length. pose proof (host_val_range (drop 16 bs)). lia. Qed.

(** * Lookup *)

Lemma wp_get_key_data id a0
  (Q : psa_status_t * option psa_key_attributes_t * option (list byte) -> kstate O -> Prop) s :
free s ->
(forall st a d s', free s' -> calm s s' ->
   (st = PSA_SUCCESS /\ exists at' data, key_lookup a0 s id = Some (at', data) /\
      a = Some at' /\ d = Some data) \/
   (st <> PSA_SUCCESS /\ d = None /\
    (st = PSA_ERROR_INVALID_HANDLE ->
     find_node id (g_volatile_keys s) = None /\ record_of s id = None) /\
    (good_environment s -> idle s -> g_psa_crypto_initialized s = true ->
     ulong (Z.to_N id) ->
     (forall at' data, key_lookup a0 s id = Some (at', data) -> zlen data = 0) /\
     (find_node id (g_volatile_keys s) = None -> record_of s id = None ->
      st = PSA_ERROR_INVALID_HANDLE))) ->
   Q (st, a, d) s') ->
wp (wolfpsa_get_key_data id (Some a0)) Q s.
Proof.
intros Hf HQ. unfold wolfpsa_get_key_data.
apply (wp_checked (fun e => (e, Some a0, None))); [done| |].
{ intros st s1 Hq1 Hf1 Hst Hno. apply HQ; [done|by apply quiet_calm|]. right.
  split_and!; [by destruct Hst as [->| ->]|done|by destruct Hst as [->| ->]|].
  intros _ Hi Hc. by destruct (Hno Hi Hc). }
intros s1 Hq1 Hi1 Hinit. wp_seq. apply wp_volatile_get; [done|].
intros st a d s2 Hi2 Hq2 Hcase. rewrite (q_keys _ _ Hq1) in Hcase.
assert (Hq : quiet s s2) by (by eapply quiet_trans).
assert (Hm1 : mem_ok s -> mem_ok s1) by apply Hq1. pose proof (idle_free _ Hi2) as Hf2.
unfold key_lookup in HQ. destruct (find_node id (g_volatile_keys s)) as [n|] eqn:Hfind.
{ destruct Hcase as [-> [(-> & -> & Hnz)|[[(-> & Hz)|(-> & Hbad)] ->]]]; wp_seq;
    (apply HQ; [done|by apply quiet_calm|]).
  - left. split; [done|]. by exists (node_attributes n), (node_data n).
  - right. split_and!; [done..|]. intros _ _ _ _. split; [|done]. intros ? ? [= <- <-]. done.
  - right. split_and!; [done..|]. intros [Hm _]. by destruct Hbad; apply Hm1. }
destruct Hcase as (-> & -> & ->). wp_seq. apply wp_open_record.
intros r s3 Hc3 Hv3 Hcase. unfold present in Hcase. rewrite (q_store _ _ Hq) in Hcase.
assert (Hi3 : idle s3) by (by eapply idle_lock_view). pose proof (idle_free _ Hi3) as Hf3.
assert (Hc : calm s s3) by (by eapply quiet_calm_trans).
destruct r as [e|[h header]].
{ destruct Hcase as (He & Hinv & Hh). wp_seq. apply HQ; [done|done|]. right.
  split_and!; [done|done|by intros Heq; auto|].
  intros [_ Hhealthy] _ _ Hid. destruct (Hh Hhealthy Hid) as [Hnone Hshort]. split; [|auto].
  unfold record_of. intros at' data. destruct (records (key_store s) !! Z.to_N id) as [bs|] eqn:Hbs; [|done].
  simpl. specialize (Hshort _ eq_refl). unfold parse_record.
  by rewrite (proj2 (Nat.ltb_lt _ _) Hshort). }
destruct Hcase as (bs & Hbs & Hlen & -> & Hread).
destruct (header_attributes_some bs a0 Hlen) as [a Ha]. rewrite Ha. wp_seq.
eapply wp_read_record_data; [exact Hread|apply header_data_length_range|].
intros r s4 Hc4 Hv4 Hcase. wp_seq.
assert (Hc' : calm s s4) by (by eapply calm_trans).
assert (Hf4 : free s4) by (apply idle_free; by eapply idle_lock_view).
assert (Hparse : record_of s id = Some bs) by done.
assert (Hrec : parse_record a0 bs =
          if (0 <? header_data_length (take 24 bs)) && (header_data_length (take 24 bs) <=? INT_MAX)
             && (header_data_length (take 24 bs) <=? zlen (drop 24 bs))
          then Some (a, take (Z.to_nat (header_data_length (take 24 bs))) (drop 24 bs)) else None).
{ unfold parse_record. destruct (Nat.ltb_spec (length bs) 24); [lia|]. by rewrite Ha. }
destruct r as [e|data].
- destruct Hcase as (He & He' & Hh). apply HQ; [done|done|]. right.
  split_and!; [done|done|done|].
  + intros [Hm Hhealthy] _ _ _. split; [|by rewrite Hparse]. intros at' data.
    rewrite Hparse. simpl. rewrite Hrec.
    destruct ((_ && _) && _) eqn:Hcond; [|done]. intros _. exfalso.
    assert (zlen (drop 24 bs) < header_data_length (take 24 bs)); [|lia].
    apply Hh; [by apply Hc|by apply Hc|lia].
- destruct Hcase as (Hrange & Hfit & ->). apply HQ; [done|done|]. left. split; [done|].
  exists a, (take (Z.to_nat (header_data_length (take 24 bs))) (drop 24 bs)).
  split_and!; [|done|done]. rewrite Hparse. simpl. rewrite Hrec.
  by rewrite (proj2 (Z.ltb_lt _ _)), (proj2 (Z.leb_le _ INT_MAX)), (proj2 (Z.leb_le _ _)) by lia.
Qed.

(** * What validation establishes *)

Record valid_key (a : psa_key_attributes_t) (data : list byte) : Prop := {
vk_wf : wf_attributes a;
vk_len : 0 < zlen data <= INT_MAX;
vk_key : well_formed_key a data;
vk_usage : wolfpsa_usage_flags_valid (usage (attr_policy a)) = true;
vk_location : PSA_KEY_LIFETIME_GET_LOCATION (attr_lifetime a) = PSA_KEY_LOCATION_LOCAL_STORAGE;
vk_alg2 : PSA_KEY_LIFETIME_IS_VOLATILE (attr_lifetime a) = false ->
          alg2 (attr_policy a) = PSA_ALG_NONE }.

Lemma import_validate_valid attributes data a :
wf_attributes attributes -> import_validate attributes data = inr a ->
valid_key a data /\ a = set_bits attributes (attr_bits a) /\
(attr_bits attributes <> 0 -> a = attributes).
Proof.
intros Hwf Hv. pose proof (import_validate_len _ _ _ Hv) as [Hnz Hmax].
unfold import_validate in Hv. destruct (import_check_params attributes (zlen data)) eqn:Hp; try done.
destruct (import_key_bits attributes data) as [|a'] eqn:Hb; [done|].
assert (Hc : import_check_data a' data = PSA_SUCCESS /\ a' = a).
{ by destruct (import_check_data a' data); simplify_eq. }
destruct Hc as [Hc ->]. pose proof (zlen_nonneg data).
destruct (import_accepts_wf attributes data a (wf_type _ Hwf) Hmax Hb Hc) as (Hk & Ha & Hsame).
split; [|done]. pose proof (import_key_bits_range _ _ _ (wf_bits _ Hwf) Hb) as Hbits.
unfold import_check_params in Hp.
destruct (zlen data =? 0), (INT_MAX <? zlen data); try done.
destruct (Z.eqb_spec (PSA_KEY_LIFETIME_GET_LOCATION (attr_lifetime attributes))
            PSA_KEY_LOCATION_LOCAL_STORAGE) as [Hloc|]; [|done]. simpl in Hp.
rewrite Ha in Hk |- *. set (b := attr_bits a) in *. clearbody b. split; simpl; try done.
- destruct Hwf. by split.
- lia.
- unfold psa_get_key_usage_flags in Hp. by destruct (negb (alg2 _ =? _) && _),
    (wolfpsa_usage_flags_valid (usage (attr_policy attributes))).
- intros Hvol. rewrite Hvol in Hp.
  destruct (Z.eqb_spec (alg2 (attr_policy attributes)) PSA_ALG_NONE); [done|].
  by destruct WOLFPSA_ENROLLMENT_ALG.
Qed.

(** * Import, then look up *)

(** What a reader sees of a key that was imported with attributes [a]. *)
Definition stored_view (a a0 : psa_key_attributes_t) : psa_key_attributes_t :=
if PSA_KEY_LIFETIME_IS_VOLATILE (attr_lifetime a) then a else record_view a (attr_id a0).

Lemma imported_lookup a data id s s' a0 :
valid_key a data -> find_node id (g_volatile_keys s) = None -> imported a data id s s' ->
key_lookup a0 s' id = Some (stored_view a a0, data).
Proof.
intros Hv Hf Himp. unfold imported, stored_view, key_lookup, record_of in *.
destruct (PSA_KEY_LIFETIME_IS_VOLATILE (attr_lifetime a)).
- destruct Himp as [_ Hc]. rewrite (c_keys _ _ Hc). simpl. by rewrite Z.eqb_refl.
- destruct Himp as (_ & buf & Hser & Hst).
  rewrite (st_keys _ _ _ _ Hst), Hf, (st_records _ _ _ _ Hst), lookup_insert_eq. simpl.
  eapply parse_serialized; [by apply vk_wf in Hv|by apply vk_len in Hv|done].
Qed.

Lemma imported_lookup_other a data id s s' a0 id' :
0 <= id -> 0 <= id' -> id' <> id -> imported a data id s s' ->
key_lookup a0 s' id' = key_lookup a0 s id'.
Proof.
intros Hid Hid' Hne Himp. unfold imported, key_lookup, record_of in *.
destruct (PSA_KEY_LIFETIME_IS_VOLATILE (attr_lifetime a)).
- destruct Himp as [_ Hc]. rewrite (c_keys _ _ Hc), (c_records _ _ Hc). simpl.
  by rewrite (proj2 (Z.eqb_neq id id')) by done.
- destruct Himp as (_ & buf & Hser & Hst).
  rewrite (st_keys _ _ _ _ Hst), (st_records _ _ _ _ Hst).
  rewrite lookup_insert_ne; [done|]. intros Heq. apply Hne. lia.
Qed.

Lemma after_id_lookup a a0 s id : key_lookup a0 (after_id a s) id = key_lookup a0 s id.
Proof. unfold key_lookup, record_of. destruct (after_id_same a s) as [-> ->]. done. Qed.

Lemma imported_good a data id s s' :
imported a data id s s' -> good_environment s -> good_environment s'.
Proof.
unfold imported, good_environment. intros Himp []. case_match.
- destruct Himp as [_ []]. auto.
- destruct Himp as (_ & buf & _ & []). auto.
Qed.

Lemma after_id_good a s : good_environment s -> good_environment (after_id a s).
Proof. unfold after_id. by case_match. Qed.

Lemma imported_crypto a data id s s' :
imported a data id s s' -> g_psa_crypto_initialized s' = g_psa_crypto_initialized s.
Proof.
unfold imported. intros Himp. case_match.
- destruct Himp as [_ Hc]. by rewrite (c_crypto _ _ Hc).
- destruct Himp as (_ & buf & _ & Hst). by rewrite (st_crypto _ _ _ _ Hst).
Qed.

Lemma after_id_crypto a s : g_psa_crypto_initialized (after_id a s) = g_psa_crypto_initialized s.
Proof. unfold after_id. by case_match. Qed.

Lemma assigned_id_bits a b s : assigned_id (set_bits a b) s = assigned_id a s.
Proof. done. Qed.

Lemma assigned_id_range a s :
wf_attributes a -> (caller_id a = PSA_KEY_ID_NULL -> vendor_id (assigned_id a s)) ->
0 <= assigned_id a s < 2 ^ 32.
Proof.
intros Hwf Hv. destruct (Z.eq_dec (caller_id a) PSA_KEY_ID_NULL) as [Hn|Hn].
- specialize (Hv Hn). unfold vendor_id, PSA_KEY_ID_VENDOR_MIN, PSA_KEY_ID_VENDOR_MAX in Hv. lia.
- unfold assigned_id. rewrite (proj2 (Z.eqb_neq _ _) Hn). unfold caller_id.
  pose proof (wf_id _ Hwf). case_match; unfold PSA_KEY_ID_NULL; lia.
Qed.

Lemma key_id_ulong id : 0 <= id < 2 ^ 32 -> ulong (Z.to_N id).
Proof. unfold ulong. lia. Qed.

(** Lookup when nothing fails underneath. *)
Lemma get_key_data_found id a0 s at' data :
idle s -> g_psa_crypto_initialized s = true -> good_environment s -> ulong (Z.to_N id) ->
key_lookup a0 s id = Some (at', data) -> zlen data <> 0 ->
(wolfpsa_get_key_data id (Some a0) s).1 = (PSA_SUCCESS, Some at', Some data).
Proof.
intros Hi Hc Hg Hid Hlk Hnz.
assert (Hw : wp (wolfpsa_get_key_data id (Some a0))
               (fun r _ => r = (PSA_SUCCESS, Some at', Some data)) s); [|exact Hw].
apply wp_get_key_data; [by apply idle_free|].
intros st a d s' _ _ [(-> & at2 & d2 & Hlk2 & -> & ->)|(_ & _ & _ & Hbad)].
- by rewrite Hlk in Hlk2; simplify_eq.
- destruct (Hbad Hg Hi Hc Hid) as [Hz _]. by destruct (Hnz (Hz _ _ Hlk)).
Qed.

(** The facts a successful import leaves behind. *)
Lemma import_success attributes data s id s' :
free s -> wf_attributes attributes -> fits data ->
psa_import_key (Some attributes) (Some data) true s = ((PSA_SUCCESS, id), s') ->
id = assigned_id attributes s /\ idle s' /\ g_psa_crypto_initialized s' = true /\
0 <= id < 2 ^ 32 /\
exists a, import_validate attributes data = inr a /\ valid_key a data /\
  imported a data id (after_id a s) s'.
Proof.
intros Hf Hwf Hfit Hrun.
assert (Hin : wp (psa_import_key (Some attributes) (Some data) true) (fun r s' =>
  r.1 = PSA_SUCCESS -> g_psa_crypto_initialized s = true /\ idle s' /\
    exists a, import_validate attributes data = inr a /\ r.2 = assigned_id a s /\
      (caller_id a = PSA_KEY_ID_NULL -> vendor_id r.2) /\
      imported a data r.2 (after_id a s) s') s).
{ apply wp_import_key; [done..|]. by intros st id' s1 _ [(-> & H1)|(Hst & _)]. }
apply (wp_run _ _ _ _ _ Hrun) in Hin.
destruct (Hin eq_refl) as (Hc & Hi & a & Hval & Hid & Hv & Himp). cbn [fst snd] in *. subst id.
destruct (import_validate_valid _ _ _ Hwf Hval) as (Hvk & Ha & _).
assert (Hsame : assigned_id a s = assigned_id attributes s) by (by rewrite Ha).
split; [done|]. split; [done|]. split; [|split; [|by exists a]].
- by rewrite (imported_crypto _ _ _ _ _ Himp), after_id_crypto.
- apply assigned_id_range; [by apply vk_wf in Hvk|done].
Qed.

(** What was imported is what is found.  After a successful import, and
  when no call fails underneath, the key data under the returned identifier
  is exactly the data imported, with the attributes the import settled on
  (a persistent key keeps no enrollment algorithm and no identifier), and
  every other identifier names what it named. *)
Theorem import_then_get attributes data a0 s id s' :
free s -> wf_attributes attributes -> fits data -> good_environment s ->
find_node (assigned_id attributes s) (g_volatile_keys s) = None ->
psa_import_key (Some attributes) (Some data) true s = ((PSA_SUCCESS, id), s') ->
id = assigned_id attributes s /\
(exists a, import_validate attributes data = inr a /\
  (wolfpsa_get_key_data id (Some a0) s').1 =
    (PSA_SUCCESS, Some (stored_view a a0), Some data)) /\
forall id', 0 <= id' -> id' <> id -> key_lookup a0 s' id' = key_lookup a0 s id'.
Proof.
intros Hf Hwf Hfit Hgood Hnone Hrun.
destruct (import_success _ _ _ _ _ Hf Hwf Hfit Hrun)
  as (Hid & Hi & Hc & Hul & a & Hval & Hvk & Himp).
split; [done|]. rewrite <- Hid in Hnone. destruct (after_id_same a s) as [Hk Hst].
split.
- exists a. split; [done|]. apply get_key_data_found; [done|done| |by apply key_id_ulong| |].
  + by eapply imported_good, after_id_good.
  + eapply imported_lookup; [done|by rewrite Hk|done].
  + pose proof (vk_len _ _ Hvk). lia.
- intros id' Hid' Hne. rewrite <- (after_id_lookup a a0 s id').
  eapply imported_lookup_other; [by apply Hul|done..].
Qed.

(** A failed import leaves every key as it was, gives no identifier
  (except when the serialisation buffer cannot be allocated, where the
  identifier already chosen is left in the output) and holds no lock. *)
Theorem import_error_keeps_keys attributes data a0 s st id s' :
free s -> fits data ->
psa_import_key (Some attributes) (Some data) true s = ((st, id), s') ->
st <> PSA_SUCCESS ->
(forall k, key_lookup a0 s' k = key_lookup a0 s k) /\ free s' /\
(id = PSA_KEY_ID_NULL \/ st = PSA_ERROR_INSUFFICIENT_MEMORY).
Proof.
intros Hf Hfit Hrun Hst.
assert (Hin : wp (psa_import_key (Some attributes) (Some data) true) (fun r s' =>
  r.1 <> PSA_SUCCESS ->
  (forall k, key_lookup a0 s' k = key_lookup a0 s k) /\ free s' /\
  (r.2 = PSA_KEY_ID_NULL \/ r.1 = PSA_ERROR_INSUFFICIENT_MEMORY)) s).
{ apply wp_import_key; [done..|]. intros st1 id1 s1 Hf1 [[-> _]|(_ & Hc & Hid & _)] Hne; [done|].
  split_and!; [|done|done]. intros k. destruct Hc as [Hc|(a & _ & _ & _ & Hc)].
  - by apply key_lookup_calm.
  - by rewrite (key_lookup_calm _ _ _ _ Hc), after_id_lookup. }
by apply (wp_run _ _ _ _ _ Hrun) in Hin; apply Hin.
Qed.

(** When nothing fails underneath, an import is refused only for a reason:
  with valid parameters and key data, an identifier left in the vendor range
  and nothing stored under the identifier, it succeeds. *)
Theorem import_succeeds attributes data s a :
idle s -> g_psa_crypto_initialized s = true -> good_environment s ->
wf_attributes attributes -> fits data ->
import_validate attributes data = inr a ->
(caller_id a = PSA_KEY_ID_NULL -> vendor_id (g_next_key_id s)) ->
~ id_taken a (assigned_id a s) s ->
(psa_import_key (Some attributes) (Some data) true s).1 = (PSA_SUCCESS, assigned_id a s).
Proof.
intros Hi Hc Hg Hwf Hfit Hval Hv Hfree.
assert (Hin : wp (psa_import_key (Some attributes) (Some data) true)
  (fun r _ => r = (PSA_SUCCESS, assigned_id a s)) s); [|exact Hin].
apply wp_import_key; [by apply idle_free|done|].
intros st id s' _ [(-> & _ & _ & a' & Hval' & -> & _)|(_ & _ & _ & Hr)].
{ by rewrite Hval in Hval'; simplify_eq. }
exfalso. destruct (import_validate_valid _ _ _ Hwf Hval) as (Hvk & _ & _).
destruct Hr as [Hr|(a' & Hval' & Hr)]; [done|done|done| | |].
- intros a' Hval'. rewrite Hval in Hval'. simplify_eq. apply key_id_ulong, assigned_id_range.
  + by apply vk_wf in Hvk.
  + unfold assigned_id. intros Hn. rewrite Hn. by apply Hv.
- by rewrite Hval in Hr.
- rewrite Hval in Hval'. simplify_eq. destruct Hr as [(_ & Hn & Hnv)|[_ Ht]]; auto.
Qed.

(** The guard on the data length does not cover the record header.  For
  data of more than INT_MAX - 24 bytes the length of the record wraps to a
  negative [int]: a volatile import then reports a failure and no
  identifier, but the key is in the table, under an identifier that the
  caller was never told. *)
Theorem import_overflow_leaks_key attributes data s a :
idle s -> g_psa_crypto_initialized s = true -> mem_ok s ->
import_validate attributes data = inr a -> ~ fits data ->
PSA_KEY_LIFETIME_IS_VOLATILE (attr_lifetime a) = true ->
vendor_id (g_next_key_id s) -> find_node (g_next_key_id s) (g_volatile_keys s) = None ->
let r := psa_import_key (Some attributes) (Some data) true s in
r.1.1 <> PSA_SUCCESS /\ r.1.2 = PSA_KEY_ID_NULL /\
find_node (g_next_key_id s) (g_volatile_keys r.2) = Some (mkNode (g_next_key_id s) a data).
Proof.
intros Hi Hc Hm Hval Hfit Hvol Hv Hf r. subst r.
pose proof (import_validate_len _ _ _ Hval) as [Hnz Hmax]. pose proof (zlen_nonneg data) as Hnn.
assert (Hcid : caller_id a = PSA_KEY_ID_NULL) by (unfold caller_id; by rewrite Hvol).
apply (wp_run (psa_import_key (Some attributes) (Some data) true) (fun r s' =>
  r.1 <> PSA_SUCCESS /\ r.2 = PSA_KEY_ID_NULL /\
  find_node (g_next_key_id s) (g_volatile_keys s') = Some (mkNode (g_next_key_id s) a data)) s);
  [by destruct (psa_import_key _ _ _ s)|].
unfold psa_import_key. rewrite Hval. wp_seq. apply wp_check_init; [by apply idle_free|].
intros st s1 Hq1 Hf1 _ Hok Hyes. rewrite (Hyes Hi Hc) in *. destruct (Hok eq_refl) as [Hi1 _].
wp_seq. apply wp_assign_id; [done|]. intros [id|] s2 Hi2 Hcase.
2:{ destruct Hcase as (_ & Hnv & _). rewrite (q_next _ _ Hq1) in Hnv. done. }
destruct Hcase as [(Hne & _)|(_ & -> & _ & Hq2)]; [done|]. rewrite (q_next _ _ Hq1) in *.
unfold import_store. wp_seq. apply wp_XMALLOC. intros b s3 Hq3 Hv3 Hb3.
assert (Hm2 : mem_ok s2) by (apply Hq2; by apply Hq1). rewrite (Hb3 Hm2). simpl negb. cbv iota.
destruct (serialize_record_some a data) as (buf & Hser & _). rewrite Hser, Hvol. wp_seq.
apply wp_volatile_store; [by eapply idle_lock_view|]. intros st4 s4 Hi4 Hcase. wp_seq.
assert (Hk3 : g_volatile_keys s3 = g_volatile_keys s).
{ rewrite (q_keys _ _ Hq3), (q_keys _ _ Hq2). simpl. apply Hq1. }
rewrite Hk3 in Hcase. destruct Hcase as [(-> & _ & _ & Hq4)|(_ & _ & Hex & Hsome)].
- assert (Hneg : to_int (attr_length + sizeof_size_t + zlen data) < 0).
  { unfold fits, INT_MAX, attr_length, sizeof_size_t in *.
    rewrite to_int_wrap by (unfold INT_MAX; lia). lia. }
  rewrite import_finish_negative by done. cbn [fst snd].
  split_and!; [apply store_open_status_fails|done|].
  rewrite (q_keys _ _ Hq4). simpl. by rewrite Z.eqb_refl.
- exfalso. apply Hex; [|done]. apply Hsome; [done|]. by apply Hq3.
Qed.

(** * Destruction *)

Lemma remove_node_none id l : remove_node id l = None <-> find_node id l = None.
Proof.
induction l as [|n l IH]; simpl; [done|].
destruct (node_id n =? id); [done|]. rewrite <- IH. by destruct (remove_node id l).
Qed.

Lemma find_node_remove_other id id' l l' :
id' <> id -> remove_node id l = Some l' -> find_node id' l' = find_node id' l.
Proof.
intros Hne. revert l'; induction l as [|n l IH]; intros l'; simpl; [done|].
destruct (Z.eqb_spec (node_id n) id) as [Heq|].
- intros [= <-]. by rewrite (proj2 (Z.eqb_neq (node_id n) id')) by congruence.
- destruct (remove_node id l) as [l1|]; [|done]. intros [= <-]. simpl. by rewrite IH.
Qed.

Lemma find_node_remove_same id l l' :
NoDup (node_id <$> l) -> remove_node id l = Some l' -> find_node id l' = None.
Proof.
revert l'; induction l as [|n l IH]; intros l' Hnd; simpl in *; [done|].
apply NoDup_cons in Hnd as [Hnin Hnd].
destruct (Z.eqb_spec (node_id n) id) as [Heq|Hne].
- intros [= <-]. subst id. clear IH Hnd. induction l as [|m l IH]; simpl in *; [done|].
  apply not_elem_of_cons in Hnin as [Hne Hnin].
  rewrite (proj2 (Z.eqb_neq _ _)) by congruence. auto.
- destruct (remove_node id l) as [l1|]; [|done]. intros [= <-]. simpl.
  rewrite (proj2 (Z.eqb_neq _ _)) by done. auto.
Qed.

(** The record [id] deleted and nothing else. *)
Record deleted id s s' : Prop := {
de_next : g_next_key_id s' = g_next_key_id s;
de_keys : g_volatile_keys s' = g_volatile_keys s;
de_records : records (key_store s') = delete (Z.to_N id) (records (key_store s));
de_crypto : g_psa_crypto_initialized s' = g_psa_crypto_initialized s }.

Definition removed id s s' : Prop :=
match remove_node id (g_volatile_keys s) with
| Some l => calm (with_volatile_keys l s) s'
| None => record_of s id <> None /\ deleted id s s'
end.

Lemma wp_destroy_key id (Q : psa_status_t -> kstate O -> Prop) s :
free s -> id <> PSA_KEY_ID_NULL ->
(forall st s', free s' ->
   (st = PSA_SUCCESS /\ removed id s s') \/
   (st <> PSA_SUCCESS /\ calm s s' /\
    (good_environment s -> idle s -> g_psa_crypto_initialized s = true -> ulong (Z.to_N id) ->
     st = PSA_ERROR_INVALID_HANDLE /\ find_node id (g_volatile_keys s) = None /\
     record_of s id = None)) -> Q st s') ->
wp (psa_destroy_key id) Q s.
Proof.
intros Hf Hid HQ. unfold psa_destroy_key.
destruct (Z.eqb_spec id PSA_KEY_ID_NULL); [done|].
apply (wp_checked (fun e => e)); [done| |].
{ intros st s1 Hq1 Hf1 Hst Hno. apply HQ; [done|]. right.
  split_and!; [by destruct Hst as [->| ->]|by apply quiet_calm|].
  intros _ Hi Hc. by destruct (Hno Hi Hc). }
intros s1 Hq1 Hi1 Hinit. wp_seq. apply wp_volatile_remove; [done|].
intros st s2 Hi2 Hcase. rewrite (q_keys _ _ Hq1) in Hcase.
pose proof (idle_free _ Hi2) as Hf2. unfold removed in HQ.
destruct (remove_node id (g_volatile_keys s)) as [l|] eqn:Hr.
{ destruct Hcase as [-> Hq2%quiet_calm]. wp_seq. apply HQ; [done|]. left. split; [done|].
  by eapply calm_trans; [apply calm_with_keys, quiet_calm|]. }
destruct Hcase as [-> Hq2]. pose proof (quiet_trans _ _ _ Hq1 Hq2) as Hq. wp_seq.
apply wp_store_op. pose proof (remove_law (Z.to_N id) (key_store s2)) as Hrm.
pose proof (healthy_remove (Z.to_N id) (key_store s2)) as Hh.
destruct (wolfPSA_Store_Remove WOLFPSA_STORE_KEY (Z.to_N id) 0%N (key_store s2)) as [ret st] eqn:E1.
simpl in Hrm, Hh. cbn [fst snd]. wp_seq. rewrite (q_store _ _ Hq) in *. unfold record_of in *.
destruct Hrm as [(-> & Hsome & Hdel)|(Hneg & Hsame & Hna)].
- apply HQ; [done|]. left. split; [done|]. split; [done|].
  split; simpl; [by rewrite (q_next _ _ Hq)|by rewrite (q_keys _ _ Hq)|done|by rewrite (q_crypto _ _ Hq)].
- apply HQ; [done|]. right. split_and!.
  + destruct (ret =? WOLFPSA_STORE_NOT_AVAILABLE); [done|].
    destruct (Z.eqb_spec ret 0); [lia|]. apply store_open_status_fails.
  + apply (quiet_calm_trans _ s2); [done|]. apply store_step_calm; rewrite (q_store _ _ Hq); [done|].
    intros Hhe. by destruct (Hh Hhe).
  + intros [_ Hhe] _ _ Hul. destruct (Hh Hhe) as [_ Hcase]. specialize (Hcase Hul).
    destruct (records (key_store s) !! Z.to_N id) as [bs|].
    * exfalso. cbn [fst] in Hcase. rewrite Hcase in Hneg. by apply Z.lt_irrefl in Hneg.
    * cbn [fst] in Hcase. subst ret. split_and!; [done|by apply remove_node_none|done].
Qed.

Lemma key_lookup_removed a0 id s s' k :
0 <= id -> 0 <= k -> removed id s s' -> k <> id -> key_lookup a0 s' k = key_lookup a0 s k.
Proof.
unfold removed, key_lookup, record_of. intros Hid Hk Hrm Hne.
destruct (remove_node id (g_volatile_keys s)) as [l|] eqn:Hr.
- rewrite (c_keys _ _ Hrm), (c_records _ _ Hrm). simpl.
  by rewrite (find_node_remove_other _ _ _ _ Hne Hr).
- destruct Hrm as [_ Hd]. rewrite (de_keys _ _ _ Hd), (de_records _ _ _ Hd).
  rewrite lookup_delete_ne; [done|]. intros Heq. apply Hne. lia.
Qed.

(** Destroying a key: a success removes one key of that name, the volatile
  one if there is one and the record otherwise, and touches no other
  identifier; a failure changes nothing, and without failures underneath it
  means that nothing has that name. *)
Theorem destroy_key_spec a0 id s st s' :
free s -> 0 < id < 2 ^ 32 -> NoDup (node_id <$> g_volatile_keys s) ->
psa_destroy_key id s = (st, s') ->
free s' /\
(forall k, 0 <= k -> k <> id -> key_lookup a0 s' k = key_lookup a0 s k) /\
(st = PSA_SUCCESS ->
   find_node id (g_volatile_keys s') = None /\
   match find_node id (g_volatile_keys s) with
   | Some _ => record_of s' id = record_of s id
   | None => record_of s id <> None /\ record_of s' id = None
   end) /\
(st <> PSA_SUCCESS -> key_lookup a0 s' id = key_lookup a0 s id) /\
(good_environment s -> idle s -> g_psa_crypto_initialized s = true ->
   st = (if find_node id (g_volatile_keys s) is Some _ then PSA_SUCCESS
         else if record_of s id is Some _ then PSA_SUCCESS else PSA_ERROR_INVALID_HANDLE)).
Proof.
intros Hf Hid Hnd Hrun.
assert (Hin : wp (psa_destroy_key id) (fun st s' => free s' /\
   ((st = PSA_SUCCESS /\ removed id s s') \/
   (st <> PSA_SUCCESS /\ calm s s' /\
    (good_environment s -> idle s -> g_psa_crypto_initialized s = true -> ulong (Z.to_N id) ->
     st = PSA_ERROR_INVALID_HANDLE /\ find_node id (g_volatile_keys s) = None /\
     record_of s id = None)))) s).
{ apply wp_destroy_key; [done|unfold PSA_KEY_ID_NULL; lia|]. auto. }
apply (wp_run _ _ _ _ _ Hrun) in Hin. destruct Hin as [Hf' Hcase]. split; [done|].
destruct Hcase as [[-> Hrm]|(Hst & Hc & Hgood)].
- split; [intros; eapply key_lookup_removed; [|done..]; lia|].
  unfold removed, record_of in *. destruct (remove_node id (g_volatile_keys s)) as [l|] eqn:Hr.
  + assert (Hsome : exists n, find_node id (g_volatile_keys s) = Some n).
    { destruct (find_node id (g_volatile_keys s)) eqn:Hn; [eauto|].
      apply remove_node_none in Hn. congruence. }
    destruct Hsome as [n ->]. rewrite (c_keys _ _ Hrm), (c_records _ _ Hrm). simpl.
    split_and!; try done. intros _. split; [by eapply find_node_remove_same|done].
  + pose proof (proj1 (remove_node_none _ _) Hr) as ->. destruct Hrm as [Hsome Hd].
    rewrite (de_keys _ _ _ Hd), (de_records _ _ _ Hd), lookup_delete_eq.
    split_and!; try done.
    * intros _. by rewrite (proj1 (remove_node_none _ _) Hr).
    * intros _ _ _. by destruct (records (key_store s) !! Z.to_N id).
- split; [intros; by apply key_lookup_calm|]. split; [done|].
  split; [intros; by apply key_lookup_calm|].
  intros Hg Hi Hcr. destruct Hgood as (-> & -> & ->); try done. apply key_id_ulong. lia.
Qed.

(** * Attributes and usage *)

(** The attributes a reader of [id] gets: those of the volatile key, or those
  of the record's header. *)
Definition attributes_of s id : option psa_key_attributes_t :=
match find_node id (g_volatile_keys s) with
| Some n => Some (node_attributes n)
| None =>
    match record_of s id with
    | Some bs => if (length bs <? 24)%nat then None
                 else match header_attributes (take 24 bs) PSA_KEY_ATTRIBUTES_INIT with
                      | inl _ => None
                      | inr a => Some a
                      end
    | None => None
    end
end.

Lemma attributes_of_lookup s id at' data :
key_lookup PSA_KEY_ATTRIBUTES_INIT s id = Some (at', data) -> attributes_of s id = Some at'.
Proof.
unfold key_lookup, attributes_of. destruct (find_node id (g_volatile_keys s)); [by intros [= <- _]|].
destruct (record_of s id) as [bs|]; [|done]. simpl. unfold parse_record.
destruct (length bs <? 24)%nat; [done|].
destruct (header_attributes _ _) as [|a]; [done|]. destruct (_ && _); [|done]. by intros [= <- _].
Qed.

Lemma wp_get_key_attributes id
  (Q : psa_status_t + psa_key_attributes_t -> kstate O -> Prop) s :
free s ->
(forall r s', free s' -> calm s s' ->
   match r with
   | inr a => exists a0, attributes_of s id = Some a0 /\ a = set_id a0 id
   | inl st => st <> PSA_SUCCESS /\
       (good_environment s -> idle s -> g_psa_crypto_initialized s = true ->
        ulong (Z.to_N id) -> attributes_of s id = None /\
        (record_of s id = None -> st = PSA_ERROR_INVALID_HANDLE))
   end -> Q r s') ->
wp (psa_get_key_attributes id) Q s.
Proof.
intros Hf HQ. unfold psa_get_key_attributes.
apply (wp_checked (fun e => inl e)); [done| |].
{ intros st s1 Hq1 Hf1 Hst Hno. apply HQ; [done|by apply quiet_calm|].
  split; [by destruct Hst as [->| ->]|]. intros _ Hi Hc. by destruct (Hno Hi Hc). }
intros s1 Hq1 Hi1 Hinit. wp_seq. apply wp_volatile_get_attributes; [done|].
intros s2 Hi2 Hq2. pose proof (quiet_trans _ _ _ Hq1 Hq2) as Hq. rewrite (q_keys _ _ Hq1).
unfold attributes_of in HQ. destruct (find_node id (g_volatile_keys s)) as [n|] eqn:Hfind.
{ wp_seq. apply HQ; [by apply idle_free|by apply quiet_calm|]. by exists (node_attributes n). }
unfold read_record_attributes. wp_seq. apply wp_open_record.
intros r s3 Hc3 Hv3 Hcase. unfold present in Hcase. rewrite (q_store _ _ Hq) in Hcase.
pose proof (quiet_calm_trans _ _ _ Hq Hc3) as Hc.
assert (Hi3 : idle s3) by (by eapply idle_lock_view). unfold record_of in HQ.
destruct r as [e|[h header]].
- destruct Hcase as (He & _ & Hh). wp_seq. apply HQ; [by apply idle_free|done|].
  split; [done|]. intros [_ Hhe] _ _ Hul. destruct (Hh Hhe Hul) as [Hn Hs].
  split; [|done]. destruct (records (key_store s) !! Z.to_N id) as [bs|]; [|done].
  by rewrite (proj2 (Nat.ltb_lt _ _) (Hs _ eq_refl)).
- destruct Hcase as (bs & Hbs & Hlen & -> & Hread). wp_seq.
  eapply wp_close_reading; [exact Hread|]. intros r s4 Hc4 Hv4. wp_seq.
  assert (Hf4 : free s4) by (apply idle_free; by eapply idle_lock_view).
  rewrite Hbs in HQ. rewrite (proj2 (Nat.ltb_ge _ _) Hlen) in HQ.
  destruct (header_attributes_some bs PSA_KEY_ATTRIBUTES_INIT Hlen) as [a Ha]. rewrite Ha in *.
  apply HQ; [done|by eapply calm_trans|]. by exists a.
Qed.

(** [psa_check_key_usage] grants a use exactly when the key has all the
  requested usage flags and its policy permits the algorithm. *)
Theorem check_key_usage_spec id a u s at' data :
idle s -> g_psa_crypto_initialized s = true -> good_environment s -> 0 <= id < 2 ^ 32 ->
key_lookup PSA_KEY_ATTRIBUTES_INIT s id = Some (at', data) ->
(psa_check_key_usage id a u s).1 = PSA_SUCCESS <->
  Z.land (usage (attr_policy at')) u = u /\
  (a = PSA_ALG_NONE \/ wolfpsa_key_permits_alg at' a = true).
Proof.
intros Hi Hc Hg Hid Hlk. apply attributes_of_lookup in Hlk.
assert (Hin : wp (psa_check_key_usage id a u) (fun st _ => st = PSA_SUCCESS <->
  Z.land (usage (attr_policy at')) u = u /\
  (a = PSA_ALG_NONE \/ wolfpsa_key_permits_alg at' a = true)) s); [|exact Hin].
unfold psa_check_key_usage. wp_seq. apply wp_get_key_attributes; [by apply idle_free|].
intros [st|a'] s' _ _ Hr; wp_seq.
- destruct Hr as [_ Hr]. destruct (Hr Hg Hi Hc (key_id_ulong _ Hid)) as [Hn _]. congruence.
- destruct Hr as (a0 & Ha0 & ->). rewrite Hlk in Ha0. injection Ha0 as <-.
  change (wolfpsa_key_permits_alg (set_id at' id) a) with (wolfpsa_key_permits_alg at' a).
  change (psa_get_key_usage_flags (set_id at' id)) with (usage (attr_policy at')).
  destruct (Z.eqb_spec (Z.land (usage (attr_policy at')) u) u) as [Hu|Hu]; cbn [negb];
    [|split; [done|by intros []]].
  destruct (Z.eqb_spec a PSA_ALG_NONE) as [Ha|Ha]; cbn [negb andb]; [split; auto|].
  destruct (wolfpsa_key_permits_alg at' a); cbn [negb]; split; auto; [done|].
  by intros [_ [|]].
Qed.

(** * Export *)

Lemma header_usage bs a0 a :
header_attributes (take 24 bs) a0 = inr a ->
host_val (take 4 (drop 4 (take 24 bs))) = usage (attr_policy a).
Proof.
unfold header_attributes, psa_key_attributes_deserialize. destruct (_ <? _); [done|].
intros [= <-]. cbn [attr_policy usage]. f_equal.
rewrite !skipn_firstn_comm, !take_take. done.
Qed.

(** What [psa_export_key] answers for a key. *)
Definition export_verdict (a : psa_key_attributes_t) (data : list byte) (size : Z)
: psa_status_t * list byte :=
if Z.land (usage (attr_policy a)) PSA_KEY_USAGE_EXPORT =? 0 then (PSA_ERROR_NOT_PERMITTED, [])
else if size <? zlen data then (PSA_ERROR_BUFFER_TOO_SMALL, [])
else (PSA_SUCCESS, data).

Lemma wp_export_record h bs a size
  (Q : psa_status_t * list byte -> kstate O -> Prop) s :
(24 <= length bs)%nat -> header_attributes (take 24 bs) PSA_KEY_ATTRIBUTES_INIT = inr a ->
reading (key_store s) h (drop 24 bs) ->
(forall r s', calm s s' -> lock_view s' = lock_view s ->
   (r.1 = PSA_SUCCESS -> exists d, parse_record PSA_KEY_ATTRIBUTES_INIT bs = Some (a, d) /\
      r = export_verdict a d size) ->
   (r.1 <> PSA_SUCCESS -> r.2 = []) ->
   (forall d, parse_record PSA_KEY_ATTRIBUTES_INIT bs = Some (a, d) ->
      healthy (key_store s) -> r = export_verdict a d size) -> Q r s') ->
wp (export_record h (take 24 bs) size) Q s.
Proof.
intros Hlen Ha Hread HQ. unfold export_record. rewrite (header_usage _ _ _ Ha).
assert (Hrec : parse_record PSA_KEY_ATTRIBUTES_INIT bs =
          if (0 <? header_data_length (take 24 bs)) && (header_data_length (take 24 bs) <=? INT_MAX)
             && (header_data_length (take 24 bs) <=? zlen (drop 24 bs))
          then Some (a, take (Z.to_nat (header_data_length (take 24 bs))) (drop 24 bs)) else None).
{ unfold parse_record. destruct (Nat.ltb_spec (length bs) 24); [lia|]. by rewrite Ha. }
rewrite Hrec in HQ. clear Hrec Ha Hlen. unfold export_verdict in HQ.
destruct (Z.land (usage (attr_policy a)) PSA_KEY_USAGE_EXPORT =? 0).
{ wp_seq. eapply wp_close_reading; [done|]. intros r1 s1 Hc1 Hv1. wp_seq.
  apply HQ; [done|done|done|done|done]. }
pose proof (header_data_length_range (take 24 bs)) as Hnn.
set (n := header_data_length (take 24 bs)) in *. clearbody n. set (rest := drop 24 bs) in *.
clearbody rest. pose proof (validate_length_success n Hnn) as Hv.
destruct (validate_length_cases n) as [Hval|Hval]; rewrite Hval in *.
2:{ wp_seq; eapply wp_close_reading; [done|]; intros r1 s1 Hc1 Hv1; wp_seq.
    apply HQ; [done|done|done|done|]. intros d Hd. destruct ((_ && _) && _) eqn:Hcond; [|done].
    assert (0 < n <= INT_MAX) as Hrange%Hv by lia. done. }
destruct (proj1 Hv eq_refl) as [Hpos Hmax]. rewrite (to_int_small n) by lia.
assert (Htake : n <= zlen rest -> zlen (take (Z.to_nat n) rest) = n).
{ unfold zlen. rewrite length_take. lia. }
destruct (Z.ltb_spec size n) as [Hsz|Hsz].
{ wp_seq; eapply wp_close_reading; [done|]; intros r1 s1 Hc1 Hv1; wp_seq.
  apply HQ; [done|done|done|done|]. intros d Hd. destruct ((_ && _) && _) eqn:Hcond; [|done].
  injection Hd as <-. rewrite Htake, (proj2 (Z.ltb_lt _ _)) by lia. done. }
wp_seq. apply (wp_read h n rest); [done|done|].
intros k h' s2 Hc2 Hv2 Hk Hkn Hr2 Hh2. wp_seq.
eapply wp_close_reading; [done|]. intros r3 s3 Hc3 Hv3. pose proof (calm_trans _ _ _ Hc2 Hc3) as Hc.
unfold zlen in Htake.
destruct (Z.eqb_spec (Z.of_nat k) n) as [Hkeq|Hkeq]; simpl negb; cbv iota; wp_seq;
  (apply HQ; [done|congruence|..]); cbn [fst snd]; try done.
- intros _. eexists. unfold zlen. rewrite !(proj2 (Z.leb_le _ _)), (proj2 (Z.ltb_lt 0 n)) by lia.
  split; [reflexivity|]. rewrite Htake, (proj2 (Z.ltb_ge _ _)) by lia.
  by rewrite <- Hkeq, Nat2Z.id.
- intros d Hd _. destruct ((_ && _) && _) eqn:Hcond; [|done]. injection Hd as <-.
  unfold zlen in *. rewrite Htake, (proj2 (Z.ltb_ge _ _)) by lia. by rewrite <- Hkeq, Nat2Z.id.
- intros d Hd Hh. destruct ((_ && _) && _) eqn:Hcond; [|done]. specialize (Hh2 Hh). lia.
Qed.

Lemma parse_record_attributes bs a0 a d :
parse_record a0 bs = Some (a, d) -> (24 <= length bs)%nat /\ header_attributes (take 24 bs) a0 = inr a.
Proof.
unfold parse_record. destruct (Nat.ltb_spec (length bs) 24); [done|].
destruct (header_attributes (take 24 bs) a0); [done|]. destruct (_ && _); [|done].
by intros [= -> _].
Qed.

Lemma wp_export_key id size (Q : psa_status_t * list byte -> kstate O -> Prop) s :
free s ->
(forall r s', free s' -> calm s s' ->
   (r.1 = PSA_SUCCESS -> exists a d,
      key_lookup PSA_KEY_ATTRIBUTES_INIT s id = Some (a, d) /\ r = export_verdict a d size) ->
   (r.1 <> PSA_SUCCESS -> r.2 = []) ->
   (good_environment s -> idle s -> g_psa_crypto_initialized s = true -> ulong (Z.to_N id) ->
    forall a d, key_lookup PSA_KEY_ATTRIBUTES_INIT s id = Some (a, d) -> zlen d <> 0 ->
      r = export_verdict a d size) -> Q r s') ->
wp (psa_export_key id true size true) Q s.
Proof.
intros Hf HQ. unfold psa_export_key. cbn [negb orb andb].
apply (wp_checked (fun e => (e, []))); [done| |].
{ intros st s1 Hq1 Hf1 Hst Hno. apply HQ; [done|by apply quiet_calm| |done|].
  - by destruct Hst as [->| ->].
  - intros _ Hi Hc. by destruct (Hno Hi Hc). }
intros s1 Hq1 Hi1 Hinit. wp_seq. apply wp_volatile_get; [done|].
intros st a d s2 Hi2 Hq2 Hcase. rewrite (q_keys _ _ Hq1) in Hcase.
pose proof (quiet_trans _ _ _ Hq1 Hq2) as Hq. pose proof (idle_free _ Hi2) as Hf2.
assert (Hm1 : mem_ok s -> mem_ok s1) by apply Hq1.
unfold key_lookup in HQ. destruct (find_node id (g_volatile_keys s)) as [n|] eqn:Hfind.
{ destruct Hcase as [-> [(-> & -> & Hnz)|[Hbad ->]]].
  - cbn [option_map default]. change (psa_get_key_usage_flags (node_attributes n)) with
      (usage (attr_policy (node_attributes n))).
    rewrite !mret_if. wp_seq.
    apply (HQ (export_verdict (node_attributes n) (node_data n) size));
      [done|by apply quiet_calm|eauto| |].
    + unfold export_verdict. by repeat case_match.
    + intros _ _ _ _ a d [= <- <-] _. done.
  - assert (Hne : st <> PSA_SUCCESS /\ st <> PSA_ERROR_INVALID_HANDLE)
      by (destruct Hbad as [[-> _]|[-> _]]; done).
    replace (match st with PSA_SUCCESS => _ | PSA_ERROR_INVALID_HANDLE => _ | _ => _ end)
      with (mret (M := M (kstate O)) (st, [] : list byte)) by (by destruct st, Hne).
    wp_seq. apply HQ; [done|by apply quiet_calm|by destruct Hne|done|].
    intros [Hm _] _ _ _ a d [= <- <-] Hnz. destruct Hbad as [[_ Hz]|[_ Hb]]; [done|].
    destruct Hb. auto. }
destruct Hcase as (-> & -> & ->). wp_seq. apply wp_open_record.
intros r s3 Hc3 Hv3 Hcase. unfold present in Hcase. rewrite (q_store _ _ Hq) in Hcase.
assert (Hf3 : free s3) by (apply idle_free; by eapply idle_lock_view).
pose proof (quiet_calm_trans _ _ _ Hq Hc3) as Hc. unfold record_of in HQ.
destruct r as [e|[h header]].
{ destruct Hcase as (He & _ & Hh). wp_seq. apply HQ; [done|done|done|done|].
  intros [_ Hhe] _ _ Hul a d Hlk _. exfalso. destruct (Hh Hhe Hul) as [_ Hshort].
  destruct (records (key_store s) !! Z.to_N id) as [bs|]; [|done].
  specialize (Hshort _ eq_refl). apply parse_record_attributes in Hlk as [Hlen _]. lia. }
destruct Hcase as (bs & Hbs & Hlen & -> & Hread). rewrite Hbs in HQ. simpl in HQ.
destruct (header_attributes_some bs PSA_KEY_ATTRIBUTES_INIT Hlen) as [a Ha].
apply (wp_export_record h bs a); [done..|]. intros r s4 Hc4 Hv4 Hok Hno Hgood.
apply HQ; [|by eapply calm_trans| |done|].
- eapply idle_free, idle_lock_view; [exact Hv4|]. by eapply idle_lock_view.
- intros Hr. destruct (Hok Hr) as (d & Hp & Hv). by exists a, d.
- intros [_ Hhe] _ _ _ a' d Hp _. destruct (parse_record_attributes _ _ _ _ Hp) as [_ Ha'].
  rewrite Ha in Ha'. injection Ha' as <-. apply Hgood; [done|by apply Hc].
Qed.

(** C32: [psa_export_key] gives out key material only for a key whose usage
  flags hold EXPORT, only when it fits the caller's buffer, and then exactly
  the key's data; a failed call gives no bytes.  When nothing fails
  underneath it answers exactly that for every key.  It changes no key. *)
Theorem export_key_spec id size s st out s' :
free s -> psa_export_key id true size true s = ((st, out), s') ->
(st = PSA_SUCCESS -> exists a,
   key_lookup PSA_KEY_ATTRIBUTES_INIT s id = Some (a, out) /\
   Z.land (usage (attr_policy a)) PSA_KEY_USAGE_EXPORT <> 0 /\ zlen out <= size) /\
(st <> PSA_SUCCESS -> out = []) /\
(good_environment s -> idle s -> g_psa_crypto_initialized s = true -> 0 <= id < 2 ^ 32 ->
 forall a d, key_lookup PSA_KEY_ATTRIBUTES_INIT s id = Some (a, d) -> zlen d <> 0 ->
   (st, out) = export_verdict a d size) /\
free s' /\ forall a0 k, key_lookup a0 s' k = key_lookup a0 s k.
Proof.
intros Hf Hrun.
assert (Hin : wp (psa_export_key id true size true) (fun r s' =>
   (r.1 = PSA_SUCCESS -> exists a,
      key_lookup PSA_KEY_ATTRIBUTES_INIT s id = Some (a, r.2) /\
      Z.land (usage (attr_policy a)) PSA_KEY_USAGE_EXPORT <> 0 /\ zlen r.2 <= size) /\
   (r.1 <> PSA_SUCCESS -> r.2 = []) /\
   (good_environment s -> idle s -> g_psa_crypto_initialized s = true -> 0 <= id < 2 ^ 32 ->
    forall a d, key_lookup PSA_KEY_ATTRIBUTES_INIT s id = Some (a, d) -> zlen d <> 0 ->
      r = export_verdict a d size) /\
   free s' /\ forall a0 k, key_lookup a0 s' k = key_lookup a0 s k) s).
{ apply wp_export_key; [done|]. intros r s1 Hf1 Hc Hok Hno Hgood. split_and!; [|done| |done|].
  - intros Hr. destruct (Hok Hr) as (a & d & Hlk & ->). revert Hr. unfold export_verdict.
    destruct (Z.eqb_spec (Z.land (usage (attr_policy a)) PSA_KEY_USAGE_EXPORT) 0); [done|].
    destruct (Z.ltb_spec size (zlen d)); [done|]. intros _. by exists a.
  - intros Hg Hi Hcr Hid a d Hlk Hnz. apply Hgood; try done. by apply key_id_ulong.
  - intros. by apply key_lookup_calm. }
by apply (wp_run _ _ _ _ _ Hrun) in Hin.
Qed.
End Spec.
