(* ===== verification/KeyStoreCalls.v ===== *)
(** Rules for the entry points built on the others: copy, generation, public-key
    export, initialisation and cleanup. *)

From stdpp Require Import base decidable list gmap.
From Stdlib Require Import ZArith Lia.
From Stdlib Require Import Strings.Byte.
From S2P Require Import Prelude.
From S2P Require Import Values.
From S2P Require Import Engine.
From S2P Require Import KeyPolicy.
From S2P Require Import Der.
From S2P Require Import KeyFormat.
From S2P Require Import StoreIface.
From S2P Require Import Library.
From S2P Require Import KeyStore.
From S2P Require Import KeyStoreRules.
From S2P Require Import ImportRules.
From S2P Require Import KeyStoreSpec.

#[local] Open Scope Z_scope.

Section Calls.
Context {C : Config} {E : WolfCryptErr} {K : WolfCryptKeys} {R : WolfCryptRng}.
Context {O : StoreOps} {L : StoreLaws O} {B : KeyBackend}.

Implicit Types s : kstate O.

(** A failed call that changes nothing. *)
Definition refused (r : psa_status_t * Z) s s' : Prop :=
r.1 <> PSA_SUCCESS /\ r.2 = PSA_KEY_ID_NULL /\ free s' /\ calm s s'.

(** The call goes on as an import from a state that differs only in the
  environment. *)
Definition imports (a : psa_key_attributes_t) (data : list byte) (r : psa_status_t * Z) s s' : Prop :=
exists s1, free s1 /\ calm s s1 /\ psa_import_key (Some a) (Some data) true s1 = (r, s').

Lemma wp_imports a data s0 (Q : psa_status_t * Z -> kstate O -> Prop) s :
free s -> calm s0 s -> (forall r s', imports a data r s0 s' -> Q r s') ->
wp (psa_import_key (Some a) (Some data) true) Q s.
Proof.
intros Hf Hc HQ. unfold wp. apply HQ. exists s. split_and!; [done|done|].
by destruct (psa_import_key _ _ _ s).
Qed.

(** * [psa_copy_key] *)

Lemma copy_attributes_error src a e : copy_attributes src a = inl e -> e <> PSA_SUCCESS.
Proof. unfold copy_attributes. intros H ->. repeat (case_match; simplify_eq). Qed.

Lemma wp_copy_key id attributes (Q : psa_status_t * Z -> kstate O -> Prop) s :
free s ->
(forall r s',
   refused r s s' \/
   (exists src data a, key_lookup PSA_KEY_ATTRIBUTES_INIT s id = Some (src, data) /\
      copy_attributes src attributes = inr a /\ imports a data r s s') -> Q r s') ->
wp (psa_copy_key id (Some attributes) true) Q s.
Proof.
intros Hf HQ. unfold psa_copy_key.
assert (Href : forall e s', e <> PSA_SUCCESS -> free s' -> calm s s' ->
  wp (mret (e, PSA_KEY_ID_NULL)) Q s').
{ intros e s' He Hf' Hc. wp_seq. apply HQ. left. by split_and!. }
apply (wp_checked (fun e => (e, PSA_KEY_ID_NULL))); [done| |].
{ intros st s1 Hq1 Hf1 Hst _. apply HQ. left.
  split_and!; [by destruct Hst as [->| ->]|done|done|by apply quiet_calm]. }
intros s1 Hq1 Hi1 Hinit. wp_seq. apply wp_volatile_get; [done|].
intros st a d s2 Hi2 Hq2 Hcase. rewrite (q_keys _ _ Hq1) in Hcase.
pose proof (quiet_trans _ _ _ Hq1 Hq2) as Hq. pose proof (idle_free _ Hi2) as Hf2.
assert (Hc2 : calm s s2) by (by apply quiet_calm).
unfold key_lookup in HQ. destruct (find_node id (g_volatile_keys s)) as [n|] eqn:Hfind.
{ destruct Hcase as [-> [(-> & -> & Hnz)|[Hbad ->]]].
  - cbn [option_map default].
    destruct (copy_attributes _ attributes) as [e|dst] eqn:Hcp.
    + apply Href; [by eapply copy_attributes_error|done|done].
    + apply (wp_imports _ _ s); [done|done|]. intros r s' Himp. apply HQ. right.
      exists (node_attributes n), (node_data n), dst. auto.
  - destruct Hbad as [[-> _]|[-> _]]; by apply Href. }
destruct Hcase as (-> & -> & ->). wp_seq. apply wp_open_record.
intros r s3 Hc3 Hv3 Hcase. unfold present in Hcase. rewrite (q_store _ _ Hq) in Hcase.
assert (Hi3 : idle s3) by (by eapply idle_lock_view).
pose proof (calm_trans _ _ _ Hc2 Hc3) as Hc. unfold record_of in HQ.
destruct r as [e|[h header]].
{ destruct Hcase as (He & _). apply Href; [done|by apply idle_free|done]. }
destruct Hcase as (bs & Hbs & Hlen & -> & Hread). rewrite Hbs in HQ. simpl in HQ.
destruct (header_attributes_some bs PSA_KEY_ATTRIBUTES_INIT Hlen) as [a Ha].
unfold copy_record. rewrite Ha. destruct (copy_attributes a attributes) as [e|dst] eqn:Hcp.
{ wp_seq. eapply wp_close_reading; [exact Hread|]. intros r s4 Hc4 Hv4. wp_seq. apply Href.
  - by eapply copy_attributes_error.
  - eapply idle_free, idle_lock_view; [exact Hv4|done].
  - by eapply calm_trans. }
wp_seq. eapply wp_read_record_data; [exact Hread|apply header_data_length_range|].
intros r s4 Hc4 Hv4 Hcase.
assert (Hf4 : free s4) by (eapply idle_free, idle_lock_view; [exact Hv4|done]).
pose proof (calm_trans _ _ _ Hc Hc4) as Hcc. destruct r as [e|data].
{ destruct Hcase as [He _]. by apply Href. }
destruct Hcase as (Hrange & Hfit & ->). apply (wp_imports _ _ s); [done|done|].
intros r s' Himp. apply HQ. right. eexists a, _, dst. split_and!; [|done|done].
unfold parse_record. rewrite Ha. rewrite (proj2 (Nat.ltb_ge _ _) Hlen).
by rewrite (proj2 (Z.ltb_lt 0 _)), (proj2 (Z.leb_le _ INT_MAX)), (proj2 (Z.leb_le _ _)) by lia.
Qed.

(** * [psa_generate_random] *)

Lemma rng_calm n s : calm s (with_rng_draws n s) /\ lock_view (with_rng_draws n s) = lock_view s.
Proof. by split. Qed.

Lemma wp_rng_draw (Q : nat -> kstate O -> Prop) s :
(forall n s', calm s s' -> lock_view s' = lock_view s -> Q n s') -> wp rng_draw Q s.
Proof. intros HQ. unfold wp, rng_draw. apply HQ; apply rng_calm. Qed.

Lemma free_lock_view s s' : lock_view s' = lock_view s -> free s -> free s'.
Proof. unfold lock_view, free. by intros [= -> -> _]. Qed.

Lemma wp_generate_random {ROK : WolfCryptRngOk R} size
  (Q : psa_status_t * list byte -> kstate O -> Prop) s :
free s -> 0 <= size ->
(forall r s', free s' -> calm s s' ->
   (r.1 = PSA_SUCCESS -> zlen r.2 = size /\ g_psa_crypto_initialized s = true) -> Q r s') ->
wp (psa_generate_random true size) Q s.
Proof.
intros Hf Hsz HQ. unfold psa_generate_random. wp_seq. apply wp_is_initialized.
intros b s1 Hq1%quiet_calm Hf1 _ Hb _. specialize (Hf1 Hf). specialize (Hb Hf). destruct b; simpl negb; cbn [andb]; cbv iota.
2:{ wp_seq. by apply HQ. }
destruct (UINT32_MAX <? size); [wp_seq; by apply HQ|].
destruct (Z.eqb_spec size 0) as [->|Hne]; [wp_seq; apply HQ; auto|].
wp_seq. apply wp_rng_draw. intros n s2 Hc2 Hv2.
pose proof (calm_trans _ _ _ Hq1 Hc2) as Hc. pose proof (free_lock_view _ _ Hv2 Hf1) as Hf2.
destruct (Z.eqb_spec (wc_InitRng_ex n) 0) as [|Hi]; simpl negb; cbv iota.
2:{ wp_seq. apply HQ; [done|done|]. cbn [fst]. intros Hs. by apply wc_error_success in Hs. }
destruct (wc_RNG_GenerateBlock n size) as [ret out] eqn:Hblock.
destruct (Z.eqb_spec ret 0) as [->|Hr]; simpl negb; cbv iota; wp_seq; (apply HQ; [done|done|]); cbn [fst snd].
- intros _. split; [by eapply rng_block_length|auto].
- intros Hs. by apply wc_error_success in Hs.
Qed.

(** * [psa_generate_key] *)

(** A generator writes at most the buffer it is given. *)
Class KeyBackendOk : Prop := {
gen_rsa_length n t b sz d :
  psa_asymmetric_generate_key_rsa n t b sz = (PSA_SUCCESS, d) -> zlen d <= sz;
gen_ecc_length n t b sz d :
  psa_asymmetric_generate_key_ecc n t b sz = (PSA_SUCCESS, d) -> zlen d <= sz;
gen_ed25519_length n t b sz d :
  psa_asymmetric_generate_key_ed25519 n t b sz = (PSA_SUCCESS, d) -> zlen d <= sz;
gen_ed448_length n t b sz d :
  psa_asymmetric_generate_key_ed448 n t b sz = (PSA_SUCCESS, d) -> zlen d <= sz;
gen_x25519_length n t b sz d :
  psa_asymmetric_generate_key_x25519 n t b sz = (PSA_SUCCESS, d) -> zlen d <= sz;
gen_x448_length n t b sz d :
  psa_asymmetric_generate_key_x448 n t b sz = (PSA_SUCCESS, d) -> zlen d <= sz }.

Lemma ecc_generator_length {BOK : KeyBackendOk} t b sz n d :
ecc_generator t b sz n = (PSA_SUCCESS, d) -> zlen d <= sz.
Proof.
unfold ecc_generator. destruct BOK. intros Hg. repeat (case_match; try done); eauto.
Qed.

Section Generate.
Context {ROK : WolfCryptRngOk R} {BOK : KeyBackendOk}.
Variable attributes : psa_key_attributes_t.
Hypothesis bits_range : 0 <= attr_bits attributes < 2 ^ 16.

Variable Q : psa_status_t * Z -> kstate O -> Prop.
Variable s : kstate O.
Hypothesis HQ : forall r s',
  refused r s s' \/ (exists data, fits data /\ imports attributes data r s s') -> Q r s'.

Lemma wp_generate_refused e s' :
  e <> PSA_SUCCESS -> free s' -> calm s s' -> wp (mret (e, PSA_KEY_ID_NULL)) Q s'.
Proof. intros He Hf' Hc. wp_seq. apply HQ. left. by split_and!. Qed.

Lemma wp_generate_import data s' :
  fits data -> free s' -> calm s s' ->
  wp (psa_import_key (Some attributes) (Some data) true) Q s'.
Proof. intros. apply (wp_imports _ _ s); [done|done|]. eauto. Qed.

Lemma wp_generate_and_import gen s' :
  (forall n data, gen n = (PSA_SUCCESS, data) -> fits data) -> free s' -> calm s s' ->
  wp (generate_and_import attributes gen) Q s'.
Proof.
  intros Hgen Hf' Hc. unfold generate_and_import. wp_seq. apply wp_rng_draw.
  intros n s2 Hc2 Hv2. pose proof (free_lock_view _ _ Hv2 Hf') as Hf2.
  pose proof (calm_trans _ _ _ Hc Hc2) as Hc'.
  destruct (gen n) as [st data] eqn:Hg. destruct (decide (st = PSA_SUCCESS)) as [->|Hst].
  - apply wp_generate_import; eauto.
  - replace (match st with PSA_SUCCESS => _ | _ => _ end) with
  (mret (st, PSA_KEY_ID_NULL) : M (kstate O) (psa_status_t * Z)) by (by destruct st).
by apply wp_generate_refused.
Qed.

Lemma wp_malloc_refused n (k : M (kstate O) (psa_status_t * Z)) s1 :
  free s1 -> calm s s1 -> (forall s', free s' -> calm s s' -> wp k Q s') ->
  wp (ok ← XMALLOC n; if negb ok then mret (PSA_ERROR_INSUFFICIENT_MEMORY, PSA_KEY_ID_NULL) else k) Q s1.
Proof.
  intros Hf1 Hc1 Hk. wp_seq. apply wp_XMALLOC. intros b s' Hq%quiet_calm Hv _.
  pose proof (free_lock_view _ _ Hv Hf1) as Hf'. pose proof (calm_trans _ _ _ Hc1 Hq) as Hc'.
  destruct b; simpl negb; cbv iota; [by apply Hk|]. by apply wp_generate_refused.
Qed.

Lemma fits_small data : zlen data <= 2 ^ 20 -> fits data.
Proof. unfold fits, attr_length, sizeof_size_t, INT_MAX. lia. Qed.

Lemma rsa_size_small : PSA_KEY_EXPORT_RSA_KEY_PAIR_MAX_SIZE (attr_bits attributes) <= 2 ^ 20.
Proof.
  unfold PSA_KEY_EXPORT_RSA_KEY_PAIR_MAX_SIZE, PSA_KEY_EXPORT_ASN1_INTEGER_MAX_SIZE.
  Z.to_euclidean_division_equations. lia.
Qed.

Lemma ecc_size_small family sz :
  ecc_priv_buf_size family (attr_bits attributes) = inr sz -> sz <= 2 ^ 20.
Proof.
  unfold ecc_priv_buf_size, PSA_KEY_EXPORT_ECC_KEY_PAIR_MAX_SIZE, PSA_BITS_TO_BYTES. intros Hs.
  repeat (case_match; try done); simplify_eq; Z.to_euclidean_division_equations; lia.
Qed.

Lemma ecc_size_error family e :
  ecc_priv_buf_size family (attr_bits attributes) = inl e -> e <> PSA_SUCCESS.
Proof. unfold ecc_priv_buf_size. intros Hs ->. repeat (case_match; try done). Qed.

Lemma wp_generate_random_key :
  free s -> wp (generate_random_key attributes) Q s.
Proof.
  intros Hf. unfold generate_random_key.
  destruct (Z.eqb_spec (PSA_BITS_TO_BYTES (attr_bits attributes)) 0) as [Hz|Hz].
  { by apply wp_generate_refused, calm_refl. }
  assert (Hlen : 0 <= PSA_BITS_TO_BYTES (attr_bits attributes) <= 2 ^ 20)
by (unfold PSA_BITS_TO_BYTES; Z.to_euclidean_division_equations; lia).
  apply wp_malloc_refused; [done|apply calm_refl|]. intros s1 Hf1 Hc1. wp_seq.
  apply wp_generate_random; [done|lia|]. intros [st data] s2 Hf2 Hc2 Hok. cbn [fst snd] in Hok.
  pose proof (calm_trans _ _ _ Hc1 Hc2) as Hc. wp_seq.
  destruct (decide (st = PSA_SUCCESS)) as [->|Hst].
  - destruct (Hok eq_refl) as [Hd _]. apply wp_generate_import; [|done|done].
apply fits_small. lia.
  - replace (match st with PSA_SUCCESS => _ | _ => _ end) with
  (mret (st, PSA_KEY_ID_NULL) : M (kstate O) (psa_status_t * Z)) by (by destruct st).
by apply wp_generate_refused.
Qed.

Lemma wp_generate_rsa_key : free s -> wp (generate_rsa_key attributes) Q s.
Proof.
  intros Hf. unfold generate_rsa_key. destruct NO_RSA.
  { by apply wp_generate_refused, calm_refl. }
  apply wp_malloc_refused; [done|apply calm_refl|]. intros s1 Hf1 Hc1.
  apply wp_generate_and_import; [|done|done]. intros n data Hg%gen_rsa_length.
  apply fits_small. pose proof rsa_size_small. lia.
Qed.

Lemma wp_generate_ecc_key : free s -> wp (generate_ecc_key attributes) Q s.
Proof.
  intros Hf. unfold generate_ecc_key. destruct (negb _).
  { by apply wp_generate_refused, calm_refl. }
  destruct (ecc_priv_buf_size _ _) as [e|sz] eqn:Hsz.
  { apply wp_generate_refused; [by eapply ecc_size_error|done|apply calm_refl]. }
  apply wp_malloc_refused; [done|apply calm_refl|]. intros s1 Hf1 Hc1.
  apply wp_malloc_refused; [done|done|]. intros s2 Hf2 Hc2.
  apply wp_generate_and_import; [|done|done]. intros n data Hg%ecc_generator_length.
  apply fits_small. apply ecc_size_small in Hsz. lia.
Qed.

(** The two seed generators: a level, the size of the seed, its expansion. *)
Lemma wp_seed_status level (expands : list byte -> psa_status_t) size
  (Q' : psa_status_t * list byte -> kstate O -> Prop) :
  free s -> 0 <= size ->
  (forall st seed s', free s' -> calm s s' -> (st = PSA_SUCCESS -> zlen seed = size) -> Q' (st, seed) s') ->
  wp (if level <? 0 then mret (PSA_ERROR_NOT_SUPPORTED, [])
      else
        '(status, seed) ← psa_generate_random true size;
        mret match status with
             | PSA_SUCCESS =>
                 match expands seed with
                 | PSA_SUCCESS => (PSA_SUCCESS, seed)
                 | e => (e, [])
                 end
             | e => (e, [])
             end) Q' s.
Proof.
  intros Hf Hsz HQ'. destruct (level <? 0); [wp_seq; by apply HQ'; [|apply calm_refl|]|].
  wp_seq. apply wp_generate_random; [done|done|]. intros [st seed] s1 Hf1 Hc1 Hok. wp_seq. cbn [fst snd] in Hok.
  destruct st; try by apply HQ'. destruct (expands seed); try by apply HQ'. by apply HQ'; [done..|]; intros; apply Hok.
Qed.

Lemma wp_import_seed gen size :
  size <= 2 ^ 20 ->
  (forall Q', (forall st seed s', free s' -> calm s s' -> (st = PSA_SUCCESS -> zlen seed = size) ->
      Q' (st, seed) s') -> wp gen Q' s) ->
  wp (import_seed attributes gen) Q s.
Proof.
  intros Hsz Hgen. unfold import_seed. wp_seq. apply Hgen. intros st seed s1 Hf1 Hc1 Hlen. wp_seq.
  destruct (decide (st = PSA_SUCCESS)) as [->|Hst].
  - apply wp_generate_import; [|done|done]. apply fits_small. by rewrite Hlen.
  - replace (match st with PSA_SUCCESS => _ | _ => _ end) with
  (mret (st, PSA_KEY_ID_NULL) : M (kstate O) (psa_status_t * Z)) by (by destruct st).
by apply wp_generate_refused.
Qed.

Lemma wp_generate_mldsa_key : free s -> wp (generate_mldsa_key attributes) Q s.
Proof.
  intros Hf. unfold generate_mldsa_key. destruct (_ && _).
  { by apply wp_generate_refused, calm_refl. }
  apply (wp_import_seed _ WOLFPSA_MLDSA_SEED_SIZE); [done|]. intros Q' HQ'. by apply wp_seed_status.
Qed.

Lemma wp_generate_mlkem_key : free s -> wp (generate_mlkem_key attributes) Q s.
Proof.
  intros Hf. unfold generate_mlkem_key. destruct (_ && _).
  { by apply wp_generate_refused, calm_refl. }
  apply (wp_import_seed _ WOLFPSA_MLKEM_SEED_SIZE); [done|]. intros Q' HQ'. by apply wp_seed_status.
Qed.

(** Generation either refuses or imports what a generator produced. *)
Lemma wp_generate_key : free s -> wp (psa_generate_key (Some attributes) true) Q s.
Proof.
  intros Hf. unfold psa_generate_key.
  assert (Hno : forall e, e <> PSA_SUCCESS -> wp (mret (e, PSA_KEY_ID_NULL)) Q s)
by (intros; by apply wp_generate_refused, calm_refl).
  destruct (attr_bits attributes =? 0); [by apply Hno|].
  destruct (PSA_KEY_TYPE_IS_PUBLIC_KEY _); [by apply Hno|].
  destruct (negb _); [by apply Hno|].
  destruct (is_random_key_type _); [by apply wp_generate_random_key|].
  destruct (_ =? PSA_KEY_TYPE_RSA_KEY_PAIR); [by apply wp_generate_rsa_key|].
  destruct (PSA_KEY_TYPE_IS_ECC_KEY_PAIR _); [by apply wp_generate_ecc_key|].
  destruct (WOLFSSL_HAVE_MLDSA && _); [by apply wp_generate_mldsa_key|].
  destruct (WOLFSSL_HAVE_MLKEM && _); [by apply wp_generate_mlkem_key|].
  by apply Hno.
Qed.
End Generate.

(** * [psa_export_public_key] *)

(** A computation that keeps the key table and the mutex. *)
Definition harmless {A} (m : M (kstate O) A) : Prop :=
forall s, free s -> free (m s).2 /\ calm s (m s).2.

Lemma harmless_ret {A} (a : A) : harmless (mret a).
Proof. intros s Hf. split; [done|apply calm_refl]. Qed.

Lemma harmless_bind {A A'} (m : M (kstate O) A) (k : A -> M (kstate O) A') :
harmless m -> (forall a, harmless (k a)) -> harmless (m ≫= k).
Proof.
intros Hm Hk s Hf. unfold mbind, M_bind. destruct (Hm s Hf) as [Hf1 Hc1].
destruct (m s) as [a s1]. simpl in *. destruct (Hk a s1 Hf1) as [Hf2 Hc2].
split; [done|by eapply calm_trans].
Qed.

Lemma harmless_malloc n : harmless (XMALLOC n).
Proof.
intros s Hf. assert (Hw : wp (XMALLOC n) (fun _ s' => free s' /\ calm s s') s); [|exact Hw].
apply wp_XMALLOC. intros b s' Hq Hv _. split; [by eapply free_lock_view|by apply quiet_calm].
Qed.

Lemma harmless_export_rsa key_data size : harmless (export_rsa_public key_data size).
Proof.
unfold export_rsa_public.
repeat first [apply harmless_ret | apply harmless_bind; [apply harmless_malloc|intros ?]
             | case_match].
Qed.

Lemma harmless_export_data a key_data data size : harmless (export_public_data a key_data data size).
Proof.
unfold export_public_data.
repeat first [apply harmless_ret | apply harmless_export_rsa | case_match].
Qed.

(** What [export_public_data] can answer for a key. *)
Definition public_output (a : psa_key_attributes_t) (d : list byte) (size : Z)
  (r : psa_status_t * list byte) : Prop :=
has_public_key (attr_type a) = true /\
exists s1, r = (export_public_data a d true size s1).1.

Lemma wp_export_data a d size (Q : psa_status_t * list byte -> kstate O -> Prop) s :
free s -> has_public_key (attr_type a) = true ->
(forall r s', free s' -> calm s s' -> public_output a d size r -> Q r s') ->
wp (export_public_data a d true size) Q s.
Proof.
intros Hf Hp HQ. destruct (harmless_export_data a d true size s Hf). apply HQ; [done|done|].
split; [done|]. by exists s.
Qed.

Lemma wp_export_public_record id size
  (Q : psa_status_t * list byte -> kstate O -> Prop) s :
free s -> find_node id (g_volatile_keys s) = None ->
(forall r s', free s' -> calm s s' ->
   (r.1 = PSA_SUCCESS -> exists a d,
      key_lookup PSA_KEY_ATTRIBUTES_INIT s id = Some (a, d) /\
      public_output a d size r) -> Q r s') ->
wp (export_public_record id true size) Q s.
Proof.
intros Hf Hfind HQ. unfold export_public_record. wp_seq. apply wp_get_key_attributes; [done|].
intros [st|at'] s1 Hf1 Hc1 Hr.
{ destruct Hr as [Hst _]. wp_seq. by apply HQ. }
destruct Hr as (a0 & Ha0 & ->).
destruct (has_public_key (attr_type (set_id a0 id))) eqn:Hpub; simpl negb; cbv iota.
2:{ wp_seq. by apply HQ. }
wp_seq. apply wp_open_record. intros r s2 Hc2 Hv2 Hcase.
pose proof (free_lock_view _ _ Hv2 Hf1) as Hf2. pose proof (calm_trans _ _ _ Hc1 Hc2) as Hc.
destruct r as [e|[h header]].
{ destruct Hcase as [He _]. wp_seq. by apply HQ. }
destruct Hcase as (bs & Hbs & Hlen & -> & Hread). unfold present in Hbs.
rewrite (c_records _ _ Hc1) in Hbs. wp_seq.
eapply wp_read_record_data; [exact Hread|apply header_data_length_range|].
intros r s3 Hc3 Hv3 Hcase. pose proof (free_lock_view _ _ Hv3 Hf2) as Hf3.
pose proof (calm_trans _ _ _ Hc Hc3) as Hcc. destruct r as [e|d].
{ destruct Hcase as [He _]. wp_seq. by apply HQ. }
destruct Hcase as (Hrange & Hfit & ->). apply wp_export_data; [done|done|].
intros r s4 Hf4 Hc4 Hout. apply HQ; [done|by eapply calm_trans|]. intros _.
exists a0. eexists. split; [|exact Hout].
revert Ha0. unfold attributes_of, key_lookup, record_of. rewrite Hfind, Hbs. simpl.
rewrite (proj2 (Nat.ltb_ge _ _) Hlen).
destruct (header_attributes (take 24 bs) PSA_KEY_ATTRIBUTES_INIT) as [|a] eqn:Ha; [done|].
intros [= ->]. unfold parse_record. rewrite (proj2 (Nat.ltb_ge _ _) Hlen), Ha.
by rewrite (proj2 (Z.ltb_lt 0 _)), (proj2 (Z.leb_le _ INT_MAX)), (proj2 (Z.leb_le _ _)) by lia.
Qed.

Lemma wp_export_public_key id size (Q : psa_status_t * list byte -> kstate O -> Prop) s :
free s ->
(forall r s', free s' -> calm s s' ->
   (r.1 = PSA_SUCCESS -> exists a d,
      key_lookup PSA_KEY_ATTRIBUTES_INIT s id = Some (a, d) /\
      public_output a d size r) -> Q r s') ->
wp (psa_export_public_key id true size true) Q s.
Proof.
intros Hf HQ. unfold psa_export_public_key. cbn [negb orb andb].
apply (wp_checked (fun e => (e, []))); [done| |].
{ intros st s1 Hq1%quiet_calm Hf1 Hst _. apply HQ; [done|done|]. by destruct Hst as [->| ->]. }
intros s1 Hq1 Hi1 Hinit. wp_seq. apply wp_volatile_get; [done|].
intros st a d s2 Hi2 Hq2 Hcase. rewrite (q_keys _ _ Hq1) in Hcase.
pose proof (quiet_trans _ _ _ Hq1 Hq2) as Hq. pose proof (idle_free _ Hi2) as Hf2.
pose proof (quiet_calm _ _ Hq) as Hc. wp_seq.
destruct (find_node id (g_volatile_keys s)) as [n|] eqn:Hfind.
- destruct Hcase as [-> [(-> & -> & Hnz)|[Hbad ->]]].
  + cbn [option_map default]. destruct (has_public_key _) eqn:Hpub; simpl negb; cbv iota.
    2:{ wp_seq. by apply HQ. }
    apply wp_export_data; [done|done|]. intros r s3 Hf3 Hc3 Hout.
    apply HQ; [done|by eapply calm_trans|]. intros _.
    exists (node_attributes n), (node_data n). unfold key_lookup. by rewrite Hfind.
  + destruct Hbad as [[-> _]|[-> _]]; wp_seq; by apply HQ.
- destruct Hcase as (-> & -> & ->). apply wp_export_public_record; [done|by rewrite (q_keys _ _ Hq)|].
  intros r s3 Hf3 Hc3 Hok. apply HQ; [done|by eapply calm_trans|].
  intros Hr. destruct (Hok Hr) as (a & d & Hlk & Hout). exists a, d. split; [|done].
  by rewrite (key_lookup_calm _ _ _ _ Hc) in Hlk.
Qed.

Lemma export_rsa_public_success {EOK : WolfCryptErrOk E} d size out s :
(export_rsa_public d size s).1 = (PSA_SUCCESS, out) ->
wc_RsaPrivateKeyDecode_ret d = 0 /\
exists n e len, wc_RsaFlattenPublicKey d = (0, (n, e)) /\
  rsa_write_public_key n e size = Some (out, len).
Proof.
assert (Hwc : forall ret (o : list byte) s0, ret <> 0 ->
  ((mret (psa_wc_error_to_psa_status ret, o) : M (kstate O) _) s0).1 <> (PSA_SUCCESS, out)).
{ intros ret o s0 Hr. simpl. intros [= Hs _]. by apply psa_wc_error_success in Hs. }
unfold export_rsa_public. destruct wc_NewRsaKey as [ret|].
{ intros Hx. exfalso. revert Hx. apply Hwc. pose proof memory_e_negative.
  destruct (Z.eqb_spec ret 0); lia. }
destruct (Z.eqb_spec (wc_RsaPrivateKeyDecode_ret d) 0) as [Hdec|Hr]; cbn [negb].
2:{ intros Hx. exfalso. revert Hx. by apply Hwc. }
unfold mbind, M_bind. destruct (XMALLOC (wc_RsaEncryptSize d) s) as [n_ok s1].
destruct (XMALLOC (wc_RsaEncryptSize d) s1) as [e_ok s2].
destruct (negb n_ok || negb e_ok); [done|].
destruct (wc_RsaFlattenPublicKey d) as [ret [n e]].
destruct (Z.eqb_spec ret 0) as [->|Hr]; cbn [negb].
2:{ intros Hx. exfalso. revert Hx. by apply Hwc. }
destruct (rsa_write_public_key n e size) as [[o len]|] eqn:Hw; [|done].
simpl. intros [= <-]. split; [done|]. by exists n, e, len.
Qed.

(** Exporting the public part of an RSA key pair gives a well-formed
  RSAPublicKey with exactly the modulus and exponent of the stored key,
  within the caller's buffer, and changes no key. *)
Theorem export_rsa_public_key_der {EOK : WolfCryptErrOk E} id size s out s' a d :
free s -> psa_export_public_key id true size true s = ((PSA_SUCCESS, out), s') ->
key_lookup PSA_KEY_ATTRIBUTES_INIT s id = Some (a, d) ->
attr_type a = PSA_KEY_TYPE_RSA_KEY_PAIR ->
(forall n e, wc_RsaFlattenPublicKey d = (0, (n, e)) -> zlen n < INT_MAX /\ zlen e < INT_MAX) ->
(exists n e, wc_RsaFlattenPublicKey d = (0, (n, e)) /\
   der_read_rsa_public_key out = Some (be_val n, be_val e) /\ zlen out <= size) /\
free s' /\ forall a0 k, key_lookup a0 s' k = key_lookup a0 s k.
Proof.
intros Hf Hrun Hlk Ht Hlen.
assert (Hin : wp (psa_export_public_key id true size true) (fun r s' => free s' /\ calm s s' /\
   (r.1 = PSA_SUCCESS -> exists a d, key_lookup PSA_KEY_ATTRIBUTES_INIT s id = Some (a, d) /\
      public_output a d size r)) s).
{ apply wp_export_public_key; [done|]. auto. }
apply (wp_run _ _ _ _ _ Hrun) in Hin. destruct Hin as (Hf' & Hc & Hok).
split; [|split; [done|intros; by apply key_lookup_calm]].
destruct (Hok eq_refl) as (a' & d' & Hlk' & _ & s1 & Hout). rewrite Hlk in Hlk'. simplify_eq.
unfold export_public_data in Hout. rewrite Ht in Hout.
change (PSA_KEY_TYPE_IS_RSA PSA_KEY_TYPE_RSA_KEY_PAIR) with true in Hout. cbv iota in Hout.
destruct NO_RSA; [done|].
change (PSA_KEY_TYPE_RSA_KEY_PAIR =? PSA_KEY_TYPE_RSA_PUBLIC_KEY) with false in Hout. cbv iota in Hout.
destruct (export_rsa_public_success _ _ _ _ (eq_sym Hout)) as (_ & n & e & len & Hfl & Hw).
destruct (Hlen _ _ Hfl) as [Hn He].
destruct (rsa_write_read _ _ _ _ _ Hn He Hw) as (Hread & -> & Hle).
by exists n, e.
Qed.
End Calls.
