(* ===== verification/KeyStoreInv.v ===== *)
(** The invariant of the key store and its refinement of an abstract key table.

    [api_call] lists the entry points, [run_call] runs one.  [key_inv] is what
    the sequences of calls keep: volatile identifiers are distinct, come from
    the vendor range below the counter, and every key, volatile or persistent,
    passed the import checks.  [abs_step] is the specification: a partial map
    from identifiers to keys, changed by a successful import, generation or copy
    (one fresh entry) and a successful destruction (one entry less) only. *)

From stdpp Require Import base decidable list gmap.
From Stdlib Require Import ZArith Lia.
From Stdlib Require Import Strings.Byte.
From S2P Require Import Prelude.
From S2P Require Import Values.
From S2P Require Import Engine.
From S2P Require Import KeyPolicy.
From S2P Require Import KeyFormat.
From S2P Require Import StoreIface.
From S2P Require Import Library.
From S2P Require Import KeyStore.
From S2P Require Import KeyStoreRules.
From S2P Require Import ImportRules.
From S2P Require Import KeyStoreSpec.
From S2P Require Import KeyStoreCalls.
From S2P Require Import KeyAgreement.
From S2P Require Import Kdf.
From S2P Require Import Aead.

#[local] Open Scope Z_scope.

(** * Calls *)

Inductive api_call : Type :=
| CallInit
| CallCleanup
| CallImport (attributes : psa_key_attributes_t) (data : list byte)
| CallGenerate (attributes : psa_key_attributes_t)
| CallCopy (source_key : Z) (attributes : psa_key_attributes_t)
| CallDestroy (key : Z)
| CallExport (key size : Z)
| CallExportPublic (key size : Z)
| CallGetAttributes (key : Z)
| CallPurge (key : Z)
| CallCheckUsage (key alg usage : Z)
| CallGetKeyData (key : Z)
| CallRandom (size : Z).

Inductive api_result : Type :=
| RVoid
| RStatus (st : psa_status_t)
| RKey (st : psa_status_t) (id : Z)
| RData (st : psa_status_t) (data : list byte)
| RAttributes (r : psa_status_t + psa_key_attributes_t).

(** * What a key may be used for *)

(** The check of [psa_asymmetric_api.c], on both algorithms of a policy. *)
Definition asymmetric_permits (b : psa_key_attributes_t) (a u : Z) : bool :=
  wolfpsa_asymmetric_alg_permitted (psa_get_key_algorithm b) a u
  || wolfpsa_asymmetric_alg_permitted (psa_get_key_enrollment_algorithm b) a u.

(** [no_wider b c]: whatever the checks of the operations admit of a key with the
    attributes [c], they admit of one with the attributes [b], both algorithms of
    the policies counted.  There is one check per kind of operation: that of
    [psa_mac.c], of [psa_aead.c], of [psa_key_derivation.c], of
    [psa_asymmetric_api.c], and the one that ciphers, key wrap and key
    encapsulation share with [psa_check_key_usage] (whose answer about MAC and AEAD
    algorithms is not that of the operations, see
    [KeyPolicy.check_usage_ignores_mac_wildcard], and is not counted).  Two gains
    are possible and named: a MAC policy with a minimum length above the MAC bounds
    nothing, and who may verify one form of ECDSA may verify the other. *)
Record no_wider (b c : psa_key_attributes_t) : Prop := {
  nw_usage : forall u, Z.land (usage (attr_policy c)) u = u -> Z.land (usage (attr_policy b)) u = u;
  nw_mac : forall a, PSA_ALG_IS_MAC a = true ->
    mac_minimum_fits b (psa_get_key_algorithm b) ->
    mac_minimum_fits b (psa_get_key_enrollment_algorithm b) ->
    wolfpsa_mac_alg_permitted c (psa_get_key_algorithm c) a
      || wolfpsa_mac_alg_permitted c (psa_get_key_enrollment_algorithm c) a = true ->
    wolfpsa_mac_alg_permitted b (psa_get_key_algorithm b) a
      || wolfpsa_mac_alg_permitted b (psa_get_key_enrollment_algorithm b) a = true;
  nw_aead : forall a, wolfpsa_aead_key_permits_alg c a = true -> wolfpsa_aead_key_permits_alg b a = true;
  nw_named : forall a, PSA_ALG_IS_MAC a = false -> PSA_ALG_IS_AEAD a = false ->
    wolfpsa_key_permits_alg c a = true -> wolfpsa_key_permits_alg b a = true;
  nw_kdf : forall k, PSA_ALG_IS_KEY_DERIVATION (kdf_alg k) = true ->
    wolfpsa_kdf_key_alg_permitted k (psa_get_key_algorithm c)
      || wolfpsa_kdf_key_alg_permitted k (psa_get_key_enrollment_algorithm c) = true ->
    wolfpsa_kdf_key_alg_permitted k (psa_get_key_algorithm b)
      || wolfpsa_kdf_key_alg_permitted k (psa_get_key_enrollment_algorithm b) = true;
  nw_asymmetric : forall a u, PSA_ALG_IS_MAC a = false -> PSA_ALG_IS_AEAD a = false ->
    asymmetric_permits c a u = true ->
    asymmetric_permits b a u = true \/
    verify_usage u = true /\ (exists a', ecdsa_twin a a' /\ asymmetric_permits b a' u = true)
}.

(** [narrows], lifted to the two algorithms of a policy. *)
Definition policy_narrows (p q : psa_key_policy_t) : Prop :=
  narrows (alg p) (alg q) /\ (alg2 q = PSA_ALG_NONE \/ narrows (alg2 p) (alg2 q)).

(** A check that refuses the unset algorithm and is kept along [narrows]. *)
Lemma permitted_narrows (P : Z -> bool) (Q : Z -> Prop) (p q : psa_key_policy_t) :
  P PSA_ALG_NONE = false ->
  (forall x r, x = alg p \/ x = alg2 p -> narrows x r -> P r = true -> Q x) ->
  policy_narrows p q -> P (alg q) || P (alg2 q) = true -> Q (alg p) \/ Q (alg2 p).
Proof.
  intros H0 HP [H1 H2] Hp. apply orb_true_iff in Hp as [Hp|Hp].
  - left. apply (HP _ (alg q)); auto.
  - right. destruct H2 as [H2|H2]; [congruence|]. apply (HP _ (alg2 q)); auto.
Qed.

Lemma or_true_of (p q : bool) : p = true \/ q = true -> p || q = true.
Proof. by rewrite orb_true_iff. Qed.

(** Only signature, MAC and AEAD algorithms narrow to another one: not a key
    agreement, and not a key derivation. *)
Lemma category_not_derived x :
  PSA_ALG_IS_SIGN_HASH x = true \/ PSA_ALG_IS_MAC x = true \/ PSA_ALG_IS_AEAD x = true ->
  PSA_ALG_IS_KEY_AGREEMENT x = false /\ PSA_ALG_IS_KEY_DERIVATION x = false.
Proof.
  unfold PSA_ALG_IS_KEY_AGREEMENT, PSA_ALG_IS_KEY_DERIVATION, PSA_ALG_IS_SIGN_HASH, PSA_ALG_IS_SIGN,
    PSA_ALG_IS_MAC, PSA_ALG_IS_AEAD. rewrite !andb_true_iff, !Z.eqb_eq.
  by intros [[[Hc _] _]|[Hc|Hc]]; rewrite Hc.
Qed.

Lemma narrows_not_derived x r :
  narrows x r -> x <> r ->
  PSA_ALG_IS_KEY_AGREEMENT x = false /\ PSA_ALG_IS_KEY_AGREEMENT r = false /\
  PSA_ALG_IS_KEY_DERIVATION r = false.
Proof.
  intros [->|Hx Hr _ _ _|Hr _ Hb _ _] Hne; [done|..].
  - destruct (category_not_derived x), (category_not_derived r); auto.
  - assert (PSA_ALG_IS_MAC x = true \/ PSA_ALG_IS_AEAD x = true)
      by (by rewrite (is_mac_base x r), (is_aead_base x r)).
    destruct (category_not_derived x), (category_not_derived r); auto.
Qed.

Lemma narrows_kdf k x r :
  PSA_ALG_IS_KEY_DERIVATION (kdf_alg k) = true -> narrows x r ->
  wolfpsa_kdf_key_alg_permitted k r = true -> wolfpsa_kdf_key_alg_permitted k x = true.
Proof.
  intros Hk Hn. destruct (decide (x = r)) as [->|Hne]; [done|].
  destruct (narrows_not_derived x r Hn Hne) as (_ & Hr & Hd).
  unfold wolfpsa_kdf_key_alg_permitted at 1. rewrite Hr. destruct (r =? PSA_ALG_NONE); [done|].
  destruct (kdf_is_key_agreement k); [done|]. intros ->%Z.eqb_eq. congruence.
Qed.

Lemma narrows_asymmetric x r a u :
  PSA_ALG_IS_MAC a = false -> PSA_ALG_IS_AEAD a = false -> narrows x r ->
  wolfpsa_asymmetric_alg_permitted r a u = true ->
  wolfpsa_asymmetric_alg_permitted x a u = true \/
  verify_usage u = true /\
  (exists a', ecdsa_twin a a' /\ wolfpsa_asymmetric_alg_permitted x a' u = true).
Proof.
  intros Hm Ha Hn Hp. destruct (decide (x = r)) as [->|Hne]; [by left|].
  destruct (narrows_not_derived x r Hn Hne) as (Hx & Hr & _).
  assert (r <> PSA_ALG_NONE) as Hrn by (by intros ->).
  pose proof (narrows_none x r Hn Hrn) as Hxn. revert Hp. unfold wolfpsa_asymmetric_alg_permitted.
  rewrite Hr, Hx, (proj2 (Z.eqb_neq _ _) Hrn), (proj2 (Z.eqb_neq _ _) Hxn), andb_false_r. intros Hp.
  destruct (narrows_sign x r a u Hm Ha Hn Hp) as [?|(Hu & a' & ? & ?)]; [by left|right].
  split; [done|]. exists a'. by rewrite andb_false_r.
Qed.

(** The same key under a policy that narrows may do no more. *)
Lemma policy_narrows_no_wider b c :
  attr_type c = attr_type b ->
  (exists m, usage (attr_policy c) = Z.land (usage (attr_policy b)) m) ->
  policy_narrows (attr_policy b) (attr_policy c) -> no_wider b c.
Proof.
  intros Ht [m Hu] Hp. pose proof (fun P Q => permitted_narrows P Q (attr_policy b) (attr_policy c)) as Hlift.
  assert (Hmac : forall k a, wolfpsa_mac_alg_permitted c k a = wolfpsa_mac_alg_permitted b k a)
    by (intros; unfold wolfpsa_mac_alg_permitted, PSA_MAC_LENGTH; by rewrite Ht).
  split.
  - intros u. rewrite Hu. intros H. rewrite <- H at 1. by rewrite !Z.land_assoc, Z.land_diag.
  - intros a Ha Hf1 Hf2. rewrite !Hmac. intros Hc. apply or_true_of.
    apply (Hlift (fun k => wolfpsa_mac_alg_permitted b k a) (fun k => wolfpsa_mac_alg_permitted b k a = true))
      with (3 := Hp); [done| |exact Hc].
    intros x r [->| ->] Hn; by apply narrows_mac.
  - intros a Hc. apply or_true_of.
    apply (Hlift (fun k => wolfpsa_aead_alg_permitted k a) (fun k => wolfpsa_aead_alg_permitted k a = true))
      with (3 := Hp); [done| |exact Hc].
    intros x r _ Hn. by apply narrows_aead.
  - intros a Hm Ha Hc. apply or_true_of.
    apply (Hlift (fun k => wolfpsa_policy_alg_permits k a) (fun k => wolfpsa_policy_alg_permits k a = true))
      with (3 := Hp); [done| |exact Hc].
    intros x r _ Hn. by apply narrows_named.
  - intros k Hk Hc. apply or_true_of.
    apply (Hlift (wolfpsa_kdf_key_alg_permitted k) (fun x => wolfpsa_kdf_key_alg_permitted k x = true))
      with (3 := Hp); [done| |exact Hc].
    intros x r _ Hn. by apply narrows_kdf.
  - intros a u Hm Ha Hc.
    destruct (Hlift (fun k => wolfpsa_asymmetric_alg_permitted k a u)
      (fun x => wolfpsa_asymmetric_alg_permitted x a u = true \/ verify_usage u = true /\
        (exists a', ecdsa_twin a a' /\ wolfpsa_asymmetric_alg_permitted x a' u = true)))
      as [[?|(? & a' & ? & ?)]|[?|(? & a' & ? & ?)]]; try done;
      [by intros x r _ Hn; apply narrows_asymmetric|left; apply or_true_of; auto|right|
       left; apply or_true_of; auto|right];
      (split; [done|]; exists a'; split; [done|apply or_true_of; auto]).
Qed.

Section Inv.
Context {C : Config} {E : WolfCryptErr} {K : WolfCryptKeys} {R : WolfCryptRng}.
Context {O : StoreOps} {L : StoreLaws O} {B : KeyBackend}.
Context {ROK : WolfCryptRngOk R} {BOK : KeyBackendOk}.

Implicit Types s : kstate O.

Definition run_call (c : api_call) : M (kstate O) api_result :=
match c with
| CallInit => st ← psa_crypto_init; mret (RStatus st)
| CallCleanup => wolfPSA_CryptoCleanup;; mret RVoid
| CallImport a data => r ← psa_import_key (Some a) (Some data) true; mret (RKey r.1 r.2)
| CallGenerate a => r ← psa_generate_key (Some a) true; mret (RKey r.1 r.2)
| CallCopy id a => r ← psa_copy_key id (Some a) true; mret (RKey r.1 r.2)
| CallDestroy id => st ← psa_destroy_key id; mret (RStatus st)
| CallExport id size => r ← psa_export_key id true size true; mret (RData r.1 r.2)
| CallExportPublic id size => r ← psa_export_public_key id true size true; mret (RData r.1 r.2)
| CallGetAttributes id => r ← psa_get_key_attributes id; mret (RAttributes r)
| CallPurge id => st ← psa_purge_key id; mret (RStatus st)
| CallCheckUsage id a u => st ← psa_check_key_usage id a u; mret (RStatus st)
| CallGetKeyData id =>
    r ← wolfpsa_get_key_data id (Some PSA_KEY_ATTRIBUTES_INIT);
    mret (RData r.1.1 (default [] r.2))
| CallRandom size => r ← psa_generate_random true size; mret (RData r.1 r.2)
end.

(** Arguments of their C types, key data within the range of an [int]. *)
Definition call_ok (c : api_call) : Prop :=
match c with
| CallInit | CallCleanup => True
| CallImport a data => wf_attributes a /\ fits data
| CallGenerate a | CallCopy _ a => wf_attributes a
| CallDestroy id => 0 <= id < 2 ^ 32
| CallRandom size => 0 <= size
| _ => True
end.

(** * The invariant *)

Definition good_key (a : psa_key_attributes_t) (data : list byte) : Prop :=
valid_key a data /\ fits data.

Definition good_record (bs : list byte) : Prop :=
exists a data, good_key a data /\ PSA_KEY_LIFETIME_IS_VOLATILE (attr_lifetime a) = false /\
  serialize_record a data (zlen data + attr_length + sizeof_size_t) = inr bs.

Definition good_node (next : Z) (n : volatile_key_node) : Prop :=
PSA_KEY_ID_VENDOR_MIN <= node_id n < next /\
good_key (node_attributes n) (node_data n) /\
PSA_KEY_LIFETIME_IS_VOLATILE (attr_lifetime (node_attributes n)) = true.

Record key_inv s : Prop := {
ki_next : PSA_KEY_ID_VENDOR_MIN <= g_next_key_id s <= PSA_KEY_ID_VENDOR_MAX + 1;
ki_nodup : NoDup (node_id <$> g_volatile_keys s);
ki_nodes : Forall (good_node (g_next_key_id s)) (g_volatile_keys s);
ki_records : map_Forall (fun _ => good_record) (records (key_store s)) }.

(** The key table is the same; the environment may differ. *)
Definition same_table s s' : Prop :=
g_next_key_id s' = g_next_key_id s /\ g_volatile_keys s' = g_volatile_keys s /\
records (key_store s') = records (key_store s).

Lemma calm_same s s' : calm s s' -> same_table s s'.
Proof. by intros []. Qed.

Lemma key_inv_same s s' : same_table s s' -> key_inv s -> key_inv s'.
Proof. intros (Hn & Hk & Hr) []. split; by rewrite ?Hn, ?Hk, ?Hr. Qed.

Lemma find_node_elem id l n : find_node id l = Some n -> n ∈ l /\ node_id n = id.
Proof.
induction l as [|m l IH]; simpl; [done|]. destruct (Z.eqb_spec (node_id m) id).
- intros [= ->]. split; [constructor|done].
- intros Hf. destruct (IH Hf). split; [by constructor|done].
Qed.

Lemma find_node_not_in id l : find_node id l = None -> id ∉ node_id <$> l.
Proof.
induction l as [|m l IH]; simpl; [by intros _ ?%elem_of_nil|].
destruct (Z.eqb_spec (node_id m) id); [done|].
intros Hf. apply not_elem_of_cons. auto.
Qed.

Lemma remove_node_sublist id l l' : remove_node id l = Some l' -> sublist l' l.
Proof.
revert l'; induction l as [|m l IH]; intros l'; simpl; [done|].
destruct (node_id m =? id); [intros [= <-]; by constructor|].
destruct (remove_node id l) as [l1|]; [|done]. intros [= <-]. by constructor; apply IH.
Qed.

Lemma good_node_next n next next' : next <= next' -> good_node next n -> good_node next' n.
Proof. unfold good_node. intros ? (? & ? & ?). split_and!; [lia|lia|done|done]. Qed.

(** Keys found by a lookup are good. *)
Lemma lookup_good a0 s id a data :
key_inv s -> wf_attributes a0 -> key_lookup a0 s id = Some (a, data) -> good_key a data.
Proof.
intros Hinv Hwf0. unfold key_lookup, record_of.
destruct (find_node id (g_volatile_keys s)) as [n|] eqn:Hf.
- intros [= <- <-]. apply find_node_elem in Hf as [Hin _].
  pose proof (proj1 (Forall_forall _ _) (ki_nodes _ Hinv) n Hin) as (_ & Hg & _). done.
- destruct (records (key_store s) !! Z.to_N id) as [bs|] eqn:Hbs; [|done]. simpl.
  destruct (ki_records _ Hinv _ _ Hbs) as (b & d & [Hv Hfit] & Hvol & Hser).
  rewrite (parse_serialized b a0 d _ bs) by (done || apply Hv). intros [= <- <-].
  split; [|done]. destruct Hv as [Hwf Hlen Hkey Hus Hloc Halg]. split; try done.
  destruct Hwf, Hwf0. by split.
Qed.

(** * Import keeps the invariant *)

Lemma imported_inv attributes a data id s s' :
key_inv s -> wf_attributes attributes -> fits data ->
import_validate attributes data = inr a -> id = assigned_id a s ->
(caller_id a = PSA_KEY_ID_NULL -> vendor_id id) ->
imported a data id (after_id a s) s' -> key_inv s'.
Proof.
intros Hinv Hwf Hfit Hval -> Hvend Himp.
destruct (import_validate_valid _ _ _ Hwf Hval) as (Hvk & _ & _).
assert (Hnext : PSA_KEY_ID_VENDOR_MIN <= g_next_key_id (after_id a s) <= PSA_KEY_ID_VENDOR_MAX + 1
                /\ g_next_key_id s <= g_next_key_id (after_id a s)).
{ unfold after_id, assigned_id, vendor_id in *. pose proof (ki_next _ Hinv).
  destruct (Z.eqb_spec (caller_id a) PSA_KEY_ID_NULL) as [Hn|]; simpl; [|lia].
  specialize (Hvend Hn). lia. }
destruct Hnext as [Hnext Hle]. destruct (after_id_same a s) as [Hk Hst].
assert (Hnodes : Forall (good_node (g_next_key_id (after_id a s))) (g_volatile_keys s)).
{ eapply Forall_impl; [apply (ki_nodes _ Hinv)|]. intros n. by apply good_node_next. }
unfold imported in Himp.
destruct (PSA_KEY_LIFETIME_IS_VOLATILE (attr_lifetime a)) eqn:Hvol.
- destruct Himp as [Hf Hc]. rewrite Hk in Hf, Hc.
  assert (Hcid : caller_id a = PSA_KEY_ID_NULL) by (unfold caller_id; by rewrite Hvol).
  assert (Hid : PSA_KEY_ID_VENDOR_MIN <= assigned_id a s < g_next_key_id (after_id a s)).
  { specialize (Hvend Hcid). unfold assigned_id, after_id in *. rewrite Hcid, Z.eqb_refl in *.
    unfold vendor_id in Hvend. simpl. lia. }
  split.
  + by rewrite (c_next _ _ Hc).
  + rewrite (c_keys _ _ Hc). simpl. constructor; [by apply find_node_not_in|apply Hinv].
  + rewrite (c_keys _ _ Hc), (c_next _ _ Hc). simpl. by constructor.
  + rewrite (c_records _ _ Hc). simpl. rewrite Hst. apply Hinv.
- destruct Himp as (_ & buf & Hser & Hstd). split.
  + by rewrite (st_next _ _ _ _ Hstd).
  + rewrite (st_keys _ _ _ _ Hstd), Hk. apply Hinv.
  + by rewrite (st_keys _ _ _ _ Hstd), (st_next _ _ _ _ Hstd), Hk.
  + rewrite (st_records _ _ _ _ Hstd), Hst. apply map_Forall_insert_2; [|apply Hinv].
    by exists a, data.
Qed.

Lemma after_id_inv a s :
(caller_id a = PSA_KEY_ID_NULL -> vendor_id (g_next_key_id s)) ->
key_inv s -> key_inv (after_id a s).
Proof.
unfold after_id, vendor_id. destruct (Z.eqb_spec (caller_id a) PSA_KEY_ID_NULL) as [Hn|]; [|done].
intros Hv [Hnext Hnd Hnodes Hrec]. specialize (Hv Hn). split; simpl; [lia|done| |done].
eapply Forall_impl; [exact Hnodes|]. intros n. apply good_node_next. lia.
Qed.

(** * The abstract key table *)

Definition key_table := Z -> option (psa_key_attributes_t * list byte).
Definition table s : key_table := key_lookup PSA_KEY_ATTRIBUTES_INIT s.

Definition same_keys (m m' : key_table) : Prop := forall k, 0 <= k -> m' k = m k.

(** [m'] is [m] with the new entry [id]. *)
Definition fresh_entry (m m' : key_table) (id : Z) (a : psa_key_attributes_t) (data : list byte)
: Prop :=
m id = None /\ m' id = Some (stored_view a PSA_KEY_ATTRIBUTES_INIT, data) /\
forall k, 0 <= k -> k <> id -> m' k = m k.

Definition import_step (m m' : key_table) (attributes : psa_key_attributes_t) (data : list byte)
  (id : Z) : Prop :=
exists a, import_validate attributes data = inr a /\ valid_key a data /\
  (if PSA_KEY_LIFETIME_IS_VOLATILE (attr_lifetime a) then vendor_id id
   else id = attr_id attributes) /\
  fresh_entry m m' id a data.

(** What a call may answer and how it may change the table. *)
Definition abs_step (m : key_table) (c : api_call) (r : api_result) (m' : key_table) : Prop :=
match c, r with
| CallImport a data, RKey PSA_SUCCESS id => import_step m m' a data id
| CallGenerate a, RKey PSA_SUCCESS id => exists data, import_step m m' a data id
| CallCopy src a, RKey PSA_SUCCESS id =>
    exists b data dst, m src = Some (b, data) /\ copy_attributes b a = inr dst /\
      import_step m m' dst data id
| CallDestroy id, RStatus PSA_SUCCESS =>
    (id = PSA_KEY_ID_NULL \/ m id <> None) /\ (id <> PSA_KEY_ID_NULL -> m' id = None) /\
    forall k, 0 <= k -> k <> id -> m' k = m k
| CallExport id size, RData PSA_SUCCESS d =>
    (exists a, m id = Some (a, d) /\ export_verdict a d size = (PSA_SUCCESS, d)) /\
    same_keys m m'
| CallExportPublic id size, RData PSA_SUCCESS d =>
    (exists a key, m id = Some (a, key) /\ public_output a key size (PSA_SUCCESS, d)) /\
    same_keys m m'
| CallGetKeyData id, RData PSA_SUCCESS d => (exists a, m id = Some (a, d)) /\ same_keys m m'
| CallGetAttributes id, RAttributes (inr a) =>
    (exists b d, m id = Some (b, d) /\ a = set_id b id) /\ same_keys m m'
| CallCheckUsage id a u, RStatus PSA_SUCCESS =>
    (exists b d, m id = Some (b, d) /\ Z.land (usage (attr_policy b)) u = u /\
       (a = PSA_ALG_NONE \/ wolfpsa_key_permits_alg b a = true)) /\ same_keys m m'
| CallCleanup, _ =>
    forall k, 0 <= k ->
      match m k with
      | Some (a, d) =>
          if PSA_KEY_LIFETIME_IS_VOLATILE (attr_lifetime a)
          then m' k = None \/ m' k = m k else m' k = m k
      | None => m' k = None
      end
| _, _ => same_keys m m'
end.

(** Persistent keys under identifiers of the caller, outside the vendor range.
  The code does not enforce it, see [vendor_range_collision]. *)
Definition user_id (a : psa_key_attributes_t) : Prop :=
PSA_KEY_LIFETIME_IS_VOLATILE (attr_lifetime a) = true \/
(attr_id a <> PSA_KEY_ID_NULL /\ ~ vendor_id (attr_id a)).

Definition user_call (c : api_call) : Prop :=
match c with
| CallImport a _ | CallGenerate a | CallCopy _ a => user_id a
| _ => True
end.

(** Persistent records are outside the vendor range. *)
Definition apart s : Prop := forall id, 0 <= id -> vendor_id id -> record_of s id = None.

(** * The calls refine the specification *)

Record store_inv s : Prop := {
si_free : free s;
si_keys : key_inv s;
si_apart : apart s }.

Lemma same_table_keys s s' : same_table s s' -> same_keys (table s) (table s').
Proof. intros (_ & Hk & Hr) k _. unfold table, key_lookup, record_of. by rewrite Hk, Hr. Qed.

Lemma store_inv_same s s' : free s' -> same_table s s' -> store_inv s -> store_inv s'.
Proof.
intros Hf Hs [_ Hk Ha]. split; [done|by eapply key_inv_same|].
destruct Hs as (_ & _ & Hr). unfold apart, record_of in *. by rewrite Hr.
Qed.

Lemma step_same s s' :
store_inv s -> free s' -> calm s s' -> same_keys (table s) (table s') /\ store_inv s'.
Proof.
intros Hi Hf Hc%calm_same. split; [by apply same_table_keys|by eapply store_inv_same].
Qed.

Lemma apart_table s id : apart s -> 0 <= id -> vendor_id id ->
table s id = option_map (fun n => (node_attributes n, node_data n)) (find_node id (g_volatile_keys s)).
Proof.
intros Ha Hid Hv. unfold table, key_lookup. destruct (find_node id (g_volatile_keys s)); [done|].
by rewrite (Ha _ Hid Hv).
Qed.

Lemma user_not_node s id :
key_inv s -> 0 <= id -> ~ vendor_id id -> find_node id (g_volatile_keys s) = None.
Proof.
intros Hinv Hid Hv. destruct (find_node id (g_volatile_keys s)) as [n|] eqn:Hf; [|done].
apply find_node_elem in Hf as [Hin Hn].
destruct (proj1 (Forall_forall _ _) (ki_nodes _ Hinv) n Hin) as (Hr & _ & _).
exfalso. apply Hv. pose proof (ki_next _ Hinv). unfold vendor_id. lia.
Qed.

Lemma set_bits_user a b : user_id (set_bits a b) <-> user_id a.
Proof. done. Qed.

(** Every outcome of an import, on the table. *)
Lemma import_outcome attributes data s r s' :
store_inv s -> wf_attributes attributes -> fits data -> user_id attributes ->
psa_import_key (Some attributes) (Some data) true s = (r, s') ->
store_inv s' /\
(if decide (r.1 = PSA_SUCCESS) then import_step (table s) (table s') attributes data r.2
 else same_keys (table s) (table s')).
Proof.
intros [Hf Hinv Hap] Hwf Hfit Huser Hrun.
assert (Hin : wp (psa_import_key (Some attributes) (Some data) true) (fun r s' =>
  store_inv s' /\
  (if decide (r.1 = PSA_SUCCESS) then import_step (table s) (table s') attributes data r.2
   else same_keys (table s) (table s'))) s); [|by apply (wp_run _ _ _ _ _ Hrun) in Hin].
apply wp_import_key; [done|done|]. intros st id s1 Hf1 [(-> & _ & _ & a & Hval & Hid & Hv & Himp)|Hno].
- rewrite decide_True by done. cbn [snd].
  destruct (import_validate_valid _ _ _ Hwf Hval) as (Hvk & Ha & _).
  assert (Huser' : user_id a) by (by rewrite Ha).
  pose proof (imported_inv _ _ _ _ _ _ Hinv Hwf Hfit Hval Hid Hv Himp) as Hinv1.
  assert (Hrange : 0 <= id < 2 ^ 32).
  { rewrite Hid. apply assigned_id_range; [by apply vk_wf in Hvk|by rewrite <- Hid]. }
  destruct (after_id_same a s) as [Hk Hst].
  assert (Hclass : if PSA_KEY_LIFETIME_IS_VOLATILE (attr_lifetime a) then vendor_id id
                   else id = attr_id attributes /\ ~ vendor_id id).
  { unfold assigned_id, caller_id in *. destruct (PSA_KEY_LIFETIME_IS_VOLATILE (attr_lifetime a)) eqn:Hvol.
    - by apply Hv.
    - destruct Huser' as [Hu|[Hne Hnv]]; [congruence|].
      rewrite (proj2 (Z.eqb_neq _ _) Hne) in Hid. rewrite Hid. split; [by rewrite Ha|done]. }
  assert (Hnode : find_node id (g_volatile_keys s) = None /\ record_of s id = None).
  { unfold imported in Himp. destruct (PSA_KEY_LIFETIME_IS_VOLATILE (attr_lifetime a)).
    - destruct Himp as [Hn _]. rewrite Hk in Hn. split; [done|]. apply Hap; [lia|done].
    - destruct Himp as [Hn _]. rewrite Hst in Hn. split; [|done].
      apply user_not_node; [done|lia|apply Hclass]. }
  destruct Hnode as [Hnode Hrec]. split.
  + split; [done|done|]. intros k Hk0 Hkv. revert Himp Hclass. unfold imported, record_of.
    destruct (PSA_KEY_LIFETIME_IS_VOLATILE (attr_lifetime a)).
    * intros [_ Hc] _. rewrite (c_records _ _ Hc). simpl. rewrite Hst. by apply Hap.
    * intros (_ & buf & _ & Hstd) [_ Hnv]. rewrite (st_records _ _ _ _ Hstd), Hst.
      rewrite lookup_insert_ne; [by apply Hap|]. intros Heq. apply Hnv.
      assert (id = k) as -> by lia. done.
  + exists a. split; [done|]. split; [done|]. split.
    { destruct (PSA_KEY_LIFETIME_IS_VOLATILE (attr_lifetime a)); [done|apply Hclass]. }
    split_and!.
    * unfold table, key_lookup. by rewrite Hnode, Hrec.
    * eapply imported_lookup; [done|by rewrite Hk|done].
    * intros k Hk0 Hne. unfold table. rewrite <- (after_id_lookup a _ s k).
      eapply imported_lookup_other; [by apply Hrange|done..].
- destruct Hno as (Hst & Hc & _ & _). rewrite decide_False by done.
  destruct Hc as [Hc|(a & _ & _ & Hv & Hc)]; [by apply and_comm, step_same|].
  destruct (after_id_same a s) as [Hk Hst'].
  assert (Hst2 : store_inv (after_id a s)).
  { split; [unfold after_id; by case_match|by apply after_id_inv|].
    unfold apart, record_of in *. by rewrite Hst'. }
  apply and_comm. destruct (step_same _ _ Hst2 Hf1 Hc) as [Hsame ?]. split; [|done].
  intros k Hk0. rewrite (Hsame k Hk0). unfold table, key_lookup, record_of. by rewrite Hk, Hst'.
Qed.

Lemma import_step_same m m0 m' attributes data id :
(forall k, m0 k = m k) -> import_step m0 m' attributes data id -> import_step m m' attributes data id.
Proof.
intros Hm (a & Hval & Hv & Hid & Hn & Hs & Ho). exists a. split_and!; try done.
split_and!; [by rewrite <- Hm|done|]. intros k Hk Hne. rewrite <- Hm. by apply Ho.
Qed.

Lemma imports_outcome attributes data s r s' :
store_inv s -> wf_attributes attributes -> fits data -> user_id attributes ->
imports attributes data r s s' ->
store_inv s' /\
(if decide (r.1 = PSA_SUCCESS) then import_step (table s) (table s') attributes data r.2
 else same_keys (table s) (table s')).
Proof.
intros Hi Hwf Hfit Hu (s1 & Hf1 & Hc & Hrun).
destruct (step_same _ _ Hi Hf1 Hc) as [_ Hi1].
destruct (import_outcome _ _ _ _ _ Hi1 Hwf Hfit Hu Hrun) as [Hi' Hres]. split; [done|].
assert (Heq : forall k, table s1 k = table s k) by (intros; by apply key_lookup_calm).
case_decide; [by eapply import_step_same|]. intros k Hk. by rewrite (Hres k Hk).
Qed.

Lemma wp_crypto_init (Q : psa_status_t -> kstate O -> Prop) s :
free s -> (forall st s', free s' -> same_table s s' -> Q st s') -> wp psa_crypto_init Q s.
Proof.
intros Hf HQ. unfold psa_crypto_init. wp_seq. apply wp_LOCK_INIT; [done|].
intros r s1 Hq1%quiet_calm Hf1 Hi1 _. destruct (Z.eqb_spec r 0) as [->|]; simpl negb; cbv iota.
2:{ wp_seq. apply HQ; [done|by apply calm_same]. }
wp_seq. apply wp_LOCK; [auto|]. intros s2 Hq2%quiet_calm Hl2. wp_seq.
pose proof (calm_trans _ _ _ Hq1 Hq2) as Hc2.
assert (Hdone : forall st s3, lock_view s3 = lock_view s2 -> same_table s s3 ->
  wp WOLFPSA_UNLOCK (fun _ => Q st) s3).
{ intros st s3 Hv (Hn & Hk & Hr). apply wp_UNLOCK; [by eapply locked_lock_view|].
  intros s4 Hq4%quiet_calm Hi4. apply HQ; [by apply idle_free|].
  unfold same_table. by rewrite (c_next _ _ Hq4), (c_keys _ _ Hq4), (c_records _ _ Hq4). }
apply calm_same in Hc2.
destruct (g_psa_crypto_initialized s2); [wp_seq; exact (Hdone PSA_SUCCESS s2 eq_refl Hc2)|].
wp_seq. unfold wp at 1, wolfCrypt_Init.
destruct (next_ret (wolfcrypt_init_rets s2)) as [ret l]. cbn [fst snd].
destruct (ret =? 0); simpl negb; cbv iota; wp_seq.
- exact (Hdone _ (with_crypto_init true (with_wolfcrypt_rets l s2)) eq_refl Hc2).
- exact (Hdone _ (with_wolfcrypt_rets l s2) eq_refl Hc2).
Qed.

Lemma wp_crypto_cleanup (Q : unit -> kstate O -> Prop) s :
free s ->
(forall s', free s' -> same_table s s' \/ same_table (with_volatile_keys [] s) s' -> Q tt s') ->
wp wolfPSA_CryptoCleanup Q s.
Proof.
intros Hf HQ. unfold wolfPSA_CryptoCleanup. wp_seq. apply wp_LOCK_INIT; [done|].
intros r s1 Hq1%quiet_calm Hf1 Hi1 _. destruct (Z.eqb_spec r 0) as [->|]; simpl negb; cbv iota.
2:{ wp_seq. apply HQ; [done|left; by apply calm_same]. }
wp_seq. apply wp_LOCK; [auto|]. intros s2 Hq2%quiet_calm Hl2. wp_seq.
apply wp_UNLOCK; [done|]. intros s3 Hq3%quiet_calm Hi3. unfold psa_key_storage_cleanup. wp_seq.
apply wp_LOCK_INIT; [by apply idle_free|]. intros r s4 Hq4%quiet_calm Hf4 Hi4 Hk4.
rewrite (Hk4 Hi3) in *. simpl negb. cbv iota. wp_seq.
apply wp_LOCK; [auto|]. intros s5 Hq5%quiet_calm Hl5. wp_seq.
apply wp_UNLOCK; [done|]. intros s6 Hq6%quiet_calm Hi6.
pose proof (calm_trans _ _ _ Hq1 Hq2) as Hc2.
apply HQ; [by apply idle_free|]. right.
destruct Hc2 as [E1 E2 E3 _ _ _], Hq3 as [E4 E5 E6 _ _ _], Hq4 as [E7 E8 E9 _ _ _],
  Hq5 as [E10 E11 E12 _ _ _], Hq6 as [E13 E14 E15 _ _ _].
unfold same_table. simpl in *. split_and!; congruence.
Qed.

Lemma copy_attributes_wf src a dst :
wf_attributes src -> wf_attributes a -> copy_attributes src a = inr dst -> wf_attributes dst.
Proof.
intros Hs Ha. unfold copy_attributes. destruct (_ =? 0); [done|].
do 2 (destruct (_ && _); [done|]).
destruct (wolfpsa_alg_intersect _ _) as [c|] eqn:Hc; [|done].
destruct (wolfpsa_alg2_intersect _ _) as [c2|] eqn:Hc2; [|done].
destruct (negb _); [done|]. intros [= <-].
destruct Hs as [? ? ? Hu Hal Hal2 ?], Ha as [? ? ? Hu' Hal' Hal2' ?].
apply alg_intersect_range in Hc; [|done|done]. apply alg2_intersect_range in Hc2; [|done|done].
split; simpl; try done; try (by case_match). by apply range_land.
Qed.

Lemma copy_attributes_user src a dst :
copy_attributes src a = inr dst -> user_id a -> user_id dst.
Proof.
unfold copy_attributes. destruct (_ =? 0); [done|]. do 2 (destruct (_ && _); [done|]).
destruct (wolfpsa_alg_intersect _ _); [|done]. destruct (wolfpsa_alg2_intersect _ _); [|done].
destruct (negb _); [done|]. by intros [= <-].
Qed.

Lemma init_attributes_wf : wf_attributes PSA_KEY_ATTRIBUTES_INIT.
Proof. by split. Qed.

(** Attributes found are those of a key found. *)
Lemma attributes_of_table s id b :
key_inv s -> attributes_of s id = Some b -> exists d, table s id = Some (b, d).
Proof.
intros Hinv. unfold attributes_of, table, key_lookup, record_of.
destruct (find_node id (g_volatile_keys s)) as [n|]; [intros [= <-]; eauto|].
destruct (records (key_store s) !! Z.to_N id) as [bs|] eqn:Hbs; [|done].
destruct (ki_records _ Hinv _ _ Hbs) as (a & d & [Hv _] & _ & Hser).
pose proof (parse_serialized a PSA_KEY_ATTRIBUTES_INIT d _ bs (vk_wf _ _ Hv) (vk_len _ _ Hv) Hser) as Hp.
destruct (parse_record_attributes _ _ _ _ Hp) as [Hlen Hh].
rewrite (proj2 (Nat.ltb_ge _ _) Hlen), Hh. intros [= <-]. exists d. simpl. by rewrite Hp.
Qed.

Lemma wp_return {A A'} (m : M (kstate O) A) (f : A -> A') (Q : A' -> kstate O -> Prop) s :
wp m (fun a => Q (f a)) s -> wp (a ← m; mret (f a)) Q s.
Proof. intros Hm. apply wp_bind. exact Hm. Qed.

(** A call that reads: the table and the invariant stay, and a success says
  what it says. *)
Lemma read_step (m' : M (kstate O) api_result) (P : api_result -> Prop) s :
store_inv s ->
wp m' (fun r s' => free s' /\ calm s s' /\ P r) s ->
wp m' (fun r s' => store_inv s' /\ P r /\ same_keys (table s) (table s')) s.
Proof.
intros Hi Hm. eapply wp_mono; [exact Hm|]. intros r s' (Hf & Hc & HP).
by destruct (step_same _ _ Hi Hf Hc).
Qed.

Lemma cleanup_step s s' :
store_inv s -> free s' -> same_table s s' \/ same_table (with_volatile_keys [] s) s' ->
store_inv s' /\
forall k, 0 <= k ->
  match table s k with
  | Some (a, d) =>
      if PSA_KEY_LIFETIME_IS_VOLATILE (attr_lifetime a)
      then table s' k = None \/ table s' k = table s k else table s' k = table s k
  | None => table s' k = None
  end.
Proof.
intros Hi Hf [Hs|Hs].
- split; [by eapply store_inv_same|]. intros k Hk. rewrite (same_table_keys _ _ Hs k Hk).
  destruct (table s k) as [[a d]|]; [|done]. case_match; auto.
- destruct Hi as [_ Hinv Hap]. destruct Hs as (Hn & Hk & Hr). simpl in *. split.
  + split; [done| |].
    * destruct Hinv. split; rewrite ?Hn, ?Hk, ?Hr; try done; constructor.
    * unfold apart, record_of in *. by rewrite Hr.
  + intros k Hk0.
    assert (Hs' : table s' k = record_of s k ≫= parse_record PSA_KEY_ATTRIBUTES_INIT)
      by (unfold table, key_lookup, record_of; by rewrite Hk, Hr).
    rewrite Hs'. unfold table, key_lookup.
    destruct (find_node k (g_volatile_keys s)) as [n|] eqn:Hf1.
    * apply find_node_elem in Hf1 as [Hin Hid].
      destruct (proj1 (Forall_forall _ _) (ki_nodes _ Hinv) n Hin) as (Hrange & _ & ->).
      left. rewrite Hap; [done|done|]. pose proof (ki_next _ Hinv). unfold vendor_id. lia.
    * destruct (record_of s k ≫= _) as [[a d]|]; [|done]. case_match; auto.
Qed.

Lemma destroy_step id s st s' :
store_inv s -> 0 <= id < 2 ^ 32 -> psa_destroy_key id s = (st, s') ->
store_inv s' /\
if decide (st = PSA_SUCCESS)
then (id = PSA_KEY_ID_NULL \/ table s id <> None) /\ (id <> PSA_KEY_ID_NULL -> table s' id = None) /\
     forall k, 0 <= k -> k <> id -> table s' k = table s k
else same_keys (table s) (table s').
Proof.
intros Hi Hid Hrun. destruct (decide (id = PSA_KEY_ID_NULL)) as [->|Hne].
{ unfold psa_destroy_key in Hrun. simpl in Hrun. injection Hrun as <- <-.
  split; [done|]. split_and!; [by left|done|done]. }
destruct Hi as [Hf Hinv Hap].
assert (Hin : wp (psa_destroy_key id) (fun st s' => free s' /\
   ((st = PSA_SUCCESS /\ removed id s s') \/ (st <> PSA_SUCCESS /\ calm s s'))) s).
{ apply wp_destroy_key; [done|done|]. intros st1 s1 Hf1 [H1|(H1 & H2 & _)]; auto. }
apply (wp_run _ _ _ _ _ Hrun) in Hin. destruct Hin as [Hf' [[-> Hrm]|[Hst Hc]]].
2:{ rewrite decide_False by done. apply and_comm. by apply step_same. }
rewrite decide_True by done. unfold removed in Hrm.
assert (Hother : forall k, 0 <= k -> k <> id -> table s' k = table s k)
  by (intros; eapply key_lookup_removed; [|done|exact Hrm|done]; apply Hid).
destruct (remove_node id (g_volatile_keys s)) as [l|] eqn:Hr.
- pose proof (remove_node_sublist _ _ _ Hr) as Hsub.
  assert (Hnode : exists n, find_node id (g_volatile_keys s) = Some n).
  { destruct (find_node id (g_volatile_keys s)) eqn:Hn; [eauto|].
    apply remove_node_none in Hn. congruence. }
  destruct Hnode as [n Hn]. pose proof (find_node_elem _ _ _ Hn) as [Hin Hnid].
  destruct (proj1 (Forall_forall _ _) (ki_nodes _ Hinv) n Hin) as (Hrange & _ & _).
  assert (Hv : vendor_id id) by (pose proof (ki_next _ Hinv); unfold vendor_id; lia).
  split; [split; [done| |]|split_and!; [|intros _|done]].
  + destruct Hinv as [H1 H2 H3 H4].
    split; rewrite ?(c_next _ _ Hrm), ?(c_keys _ _ Hrm), ?(c_records _ _ Hrm); simpl; try done.
    * eapply sublist_NoDup; [exact H2|]. by apply fmap_sublist.
    * apply Forall_forall. intros m Hm. rewrite Forall_forall in H3.
      by apply H3, (elem_of_sublist _ _ _ Hm).
  + unfold apart, record_of in *. by rewrite (c_records _ _ Hrm).
  + right. unfold table, key_lookup. by rewrite Hn.
  + unfold table, key_lookup, record_of. rewrite (c_keys _ _ Hrm), (c_records _ _ Hrm). simpl.
    rewrite (find_node_remove_same _ _ _ (ki_nodup _ Hinv) Hr).
    specialize (Hap id (proj1 Hid) Hv). unfold record_of in Hap. by rewrite Hap.
- destruct Hrm as [Hsome [Hn Hk Hrec _]]. apply remove_node_none in Hr.
  split; [split; [done| |]|split_and!; [|intros _|done]].
  + destruct Hinv as [H1 H2 H3 H4]. split; rewrite ?Hn, ?Hk, ?Hrec; try done.
    by apply map_Forall_delete.
  + intros k Hk0 Hkv. unfold record_of. rewrite Hrec.
    destruct (decide (Z.to_N k = Z.to_N id)) as [->|Hne']; [apply lookup_delete_eq|].
    rewrite lookup_delete_ne by done. by apply Hap.
  + right. unfold table, key_lookup. rewrite Hr. unfold record_of in *.
    destruct (records (key_store s) !! Z.to_N id) as [bs|] eqn:Hbs; [|done].
    destruct (ki_records _ Hinv _ _ Hbs) as (a & d & [Hv _] & _ & Hser). simpl.
    by rewrite (parse_serialized a _ d _ bs (vk_wf _ _ Hv) (vk_len _ _ Hv) Hser).
  + unfold table, key_lookup, record_of. rewrite Hk, Hr, Hrec, lookup_delete_eq. done.
Qed.

Definition step_ok s (c : api_call) (r : api_result) s' : Prop :=
store_inv s' /\ abs_step (table s) c r (table s').

(** A key-creating call that refuses, or that imports. *)
Lemma creation_refused r s s' :
store_inv s -> refused r s s' ->
r.1 <> PSA_SUCCESS /\ store_inv s' /\ same_keys (table s) (table s').
Proof. intros Hi (Hst & _ & Hf & Hc). by destruct (step_same _ _ Hi Hf Hc). Qed.

Lemma step_import a data s :
store_inv s -> wf_attributes a -> fits data -> user_id a ->
wp (run_call (CallImport a data)) (step_ok s (CallImport a data)) s.
Proof.
intros Hi Hwf Hfit Hu. apply wp_return. unfold wp.
destruct (psa_import_key (Some a) (Some data) true s) as [[st id] s'] eqn:Hrun. simpl.
destruct (import_outcome _ _ _ _ _ Hi Hwf Hfit Hu Hrun) as [Hi' Hres]. split; [done|].
simpl in *. by destruct st.
Qed.

Lemma step_generate a s :
store_inv s -> wf_attributes a -> user_id a ->
wp (run_call (CallGenerate a)) (step_ok s (CallGenerate a)) s.
Proof.
intros Hi Hwf Hu. apply wp_return. apply wp_generate_key with (s := s); [apply Hwf| |apply Hi].
intros [st id] s' [Href|(data & Hfit & Himp)].
- destruct (creation_refused _ _ _ Hi Href) as (Hst & Hi' & Hs). split; [done|].
  simpl in *. by destruct st.
- destruct (imports_outcome _ _ _ _ _ Hi Hwf Hfit Hu Himp) as [Hi' Hres]. split; [done|].
  simpl in *. destruct st; try done. by exists data.
Qed.

Lemma step_copy id a s :
store_inv s -> wf_attributes a -> user_id a ->
wp (run_call (CallCopy id a)) (step_ok s (CallCopy id a)) s.
Proof.
intros Hi Hwf Hu. apply wp_return. apply wp_copy_key; [apply Hi|].
intros [st k] s' [Href|(src & data & dst & Hlk & Hcp & Himp)].
- destruct (creation_refused _ _ _ Hi Href) as (Hst & Hi' & Hs). split; [done|].
  simpl in *. by destruct st.
- destruct (lookup_good _ _ _ _ _ (si_keys _ Hi) init_attributes_wf Hlk) as [Hv Hfit].
  pose proof (copy_attributes_wf _ _ _ (vk_wf _ _ Hv) Hwf Hcp) as Hwf'.
  pose proof (copy_attributes_user _ _ _ Hcp Hu) as Hu'.
  destruct (imports_outcome _ _ _ _ _ Hi Hwf' Hfit Hu' Himp) as [Hi' Hres]. split; [done|].
  simpl in *. destruct st; try done. by exists src, data, dst.
Qed.

Lemma step_reads c s :
store_inv s ->
match c with
| CallExport _ _ | CallExportPublic _ _ | CallGetAttributes _ | CallPurge _
| CallCheckUsage _ _ _ | CallGetKeyData _ => True
| CallRandom size => 0 <= size
| _ => False
end ->
wp (run_call c) (step_ok s c) s.
Proof.
intros Hi Hc. pose proof (si_free _ Hi) as Hf.
assert (Hread : forall r s', free s' -> calm s s' ->
  (same_keys (table s) (table s') -> abs_step (table s) c r (table s')) -> step_ok s c r s').
{ intros r s' Hf' Hc' Habs. destruct (step_same _ _ Hi Hf' Hc') as [Hs Hi']. split; auto. }
destruct c as [| |?|?|?|?|k0 size|k0 size|k0|k0|k0 al us|k0|size]; try done; apply wp_return.
- apply wp_export_key; [done|]. intros [st d] s' Hf' Hc' Hok _ _. apply Hread; [done|done|].
  intros Hs. simpl in *. destruct st; try done. split; [|done].
  destruct (Hok eq_refl) as (a & d' & Hlk & Hv). exists a.
  assert (d' = d) as ->; [|done]. revert Hv. unfold export_verdict.
  destruct (_ =? 0); [done|]. destruct (_ <? _); [done|]. by intros [= ->].
- apply wp_export_public_key; [done|]. intros [st d] s' Hf' Hc' Hok. apply Hread; [done|done|].
  intros Hs. simpl in *. destruct st; try done. split; [|done].
  destruct (Hok eq_refl) as (a & pk & Hlk & Hv). by exists a, pk.
- apply wp_get_key_attributes; [done|]. intros [e|a] s' Hf' Hc' Hr; (apply Hread; [done|done|]);
    intros Hs; simpl; [done|]. split; [|done]. destruct Hr as (b & Hb & ->).
  destruct (attributes_of_table _ _ _ (si_keys _ Hi) Hb) as [d Hd]. by exists b, d.
- unfold psa_purge_key. wp_seq. apply wp_get_key_attributes; [done|].
  intros r s' Hf' Hc' _. wp_seq. apply Hread; [done|done|]. done.
- unfold psa_check_key_usage. wp_seq. apply wp_get_key_attributes; [done|].
  intros [e|a'] s' Hf' Hc' Hr; wp_seq; (apply Hread; [done|done|]); intros Hs; simpl.
  + destruct Hr as [He _]. by destruct e.
  + destruct Hr as (b & Hb & ->). destruct (attributes_of_table _ _ _ (si_keys _ Hi) Hb) as [d Hd].
    change (psa_get_key_usage_flags (set_id b k0)) with (usage (attr_policy b)).
    change (wolfpsa_key_permits_alg (set_id b k0) al) with (wolfpsa_key_permits_alg b al).
    destruct (Z.eqb_spec (Z.land (usage (attr_policy b)) us) us); cbn [negb]; [|done].
    destruct (Z.eqb_spec al PSA_ALG_NONE); cbn [negb andb].
    * split; [|done]. exists b, d. auto.
    * destruct (wolfpsa_key_permits_alg b al) eqn:Hp; cbn [negb]; [|done].
      split; [|done]. exists b, d. auto.
- apply wp_get_key_data; [done|]. intros st a d s' Hf' Hc' Hr. apply Hread; [done|done|].
  intros Hs. simpl. destruct st; try done. split; [|done].
  destruct Hr as [(_ & at' & data & Hlk & -> & ->)|[Hne _]]; [|done]. by exists at'.
- apply wp_generate_random; [done|done|]. intros r s' Hf' Hc' _. apply Hread; [done|done|].
  intros Hs. done.
Qed.

Lemma step_refines_wp c s :
store_inv s -> call_ok c -> user_call c -> wp (run_call c) (step_ok s c) s.
Proof.
intros Hi Hok Hu. pose proof (si_free _ Hi) as Hf.
destruct c; try (by apply step_reads).
- apply wp_return. apply wp_crypto_init; [done|]. intros st s' Hf' Hs.
  split; [by eapply store_inv_same|]. simpl. by apply same_table_keys.
- apply wp_return. apply wp_crypto_cleanup; [done|]. intros s' Hf' Hs.
  destruct (cleanup_step _ _ Hi Hf' Hs). by split.
- destruct Hok. by apply step_import.
- by apply step_generate.
- by apply step_copy.
- apply wp_return. unfold wp. destruct (psa_destroy_key key s) as [st s'] eqn:Hrun. simpl.
  destruct (destroy_step _ _ _ _ Hi Hok Hrun) as [Hi' Hres]. split; [done|]. simpl in *.
  by destruct st.
Qed.

(** The key store implements the abstract key table: every call, whatever
  fails underneath, keeps the invariant, leaves the mutex free, and changes
  the table only as [abs_step] says. *)
Theorem call_refines c s r s' :
store_inv s -> call_ok c -> user_call c -> run_call c s = (r, s') ->
store_inv s' /\ abs_step (table s) c r (table s').
Proof.
intros Hi Hok Hu Hrun.
exact (wp_run _ _ _ _ _ Hrun (step_refines_wp c s Hi Hok Hu)).
Qed.

Lemma copy_attributes_fields b a dst :
copy_attributes b a = inr dst ->
Z.land (usage (attr_policy b)) PSA_KEY_USAGE_COPY <> 0 /\
usage (attr_policy dst) = Z.land (usage (attr_policy b)) (usage (attr_policy a)) /\
policy_narrows (attr_policy b) (attr_policy dst) /\ policy_narrows (attr_policy a) (attr_policy dst) /\
attr_type dst = attr_type b /\ attr_bits dst = attr_bits b /\ attr_lifetime dst = attr_lifetime b.
Proof.
unfold copy_attributes, psa_get_key_usage_flags, psa_get_key_algorithm, policy_narrows.
destruct (Z.eqb_spec (Z.land (usage (attr_policy b)) PSA_KEY_USAGE_COPY) 0); [done|].
destruct (Z.eqb_spec (attr_type a) 0), (Z.eqb_spec (attr_type a) (attr_type b)); cbn [negb andb]; try done;
destruct (Z.eqb_spec (attr_bits a) 0), (Z.eqb_spec (attr_bits a) (attr_bits b)); cbn [negb andb]; try done;
destruct (wolfpsa_alg_intersect _ _) eqn:H1; try done;
destruct (wolfpsa_alg2_intersect _ _) eqn:H2; try done;
destruct (Z.eqb_spec (attr_lifetime a) (attr_lifetime b)); cbn [negb]; try done;
apply alg_intersect_narrows in H1 as [??]; apply alg2_intersect_narrows in H2;
intros [= <-]; cbn [attr_policy usage alg alg2 attr_type attr_bits attr_lifetime];
split_and!; try done; tauto.
Qed.

(** A record keeps the first algorithm of a policy only. *)
Lemma policy_narrows_stored p e a0 :
policy_narrows p (attr_policy e) -> policy_narrows p (attr_policy (stored_view e a0)).
Proof. intros [??]. unfold stored_view. case_match; [done|]. split; [done|by left]. Qed.

Lemma stored_view_keeps e a0 :
attr_type (stored_view e a0) = attr_type e /\ attr_bits (stored_view e a0) = attr_bits e /\
attr_lifetime (stored_view e a0) = attr_lifetime e /\
usage (attr_policy (stored_view e a0)) = usage (attr_policy e).
Proof. unfold stored_view. by case_match. Qed.

(** The attributes of a key under another policy. *)
Definition under_policy (b a : psa_key_attributes_t) : psa_key_attributes_t :=
mkAttributes (attr_type b) (attr_bits b) (attr_lifetime b) (attr_policy a) (attr_id b).

(** C30: a copy never gains rights. It needs the COPY flag on the source, holds
  the same key data under the same type, lifetime and size (where the source
  records one), its usage flags are those that both the source and the request
  have, and whatever the checks of the operations admit of the copy they admit of
  the source, and of the source's key under the requested policy ([no_wider],
  which names the two exceptions).
  The identifier of a persistent copy is outside the vendor range ([user_id]). *)
Theorem copy_key_no_escalation id a s k s' :
store_inv s -> wf_attributes a -> user_id a ->
psa_copy_key id (Some a) true s = ((PSA_SUCCESS, k), s') ->
exists b c data, table s id = Some (b, data) /\ table s' k = Some (c, data) /\
  Z.land (usage (attr_policy b)) PSA_KEY_USAGE_COPY <> 0 /\
  usage (attr_policy c) = Z.land (usage (attr_policy b)) (usage (attr_policy a)) /\
  no_wider b c /\ no_wider (under_policy b a) c /\
  attr_type c = attr_type b /\ attr_lifetime c = attr_lifetime b /\
  (attr_bits b <> 0 -> attr_bits c = attr_bits b).
Proof.
intros Hi Hwf Hu Hrun.
assert (Hcall : run_call (CallCopy id a) s = (RKey PSA_SUCCESS k, s')).
{ cbn [run_call]. unfold mbind, M_bind. by rewrite Hrun. }
destruct (wp_run _ _ _ _ _ Hcall (step_copy id a s Hi Hwf Hu)) as [_ Hstep]. simpl in Hstep.
destruct Hstep as (b & data & dst & Hlk & Hcp & e & Hval & Hv & Hid & _ & Hnew & _).
destruct (lookup_good _ _ _ _ _ (si_keys _ Hi) init_attributes_wf Hlk) as [Hvb _].
pose proof (copy_attributes_wf _ _ _ (vk_wf _ _ Hvb) Hwf Hcp) as Hwf'.
destruct (import_validate_valid _ _ _ Hwf' Hval) as (_ & He & Hbits).
destruct (copy_attributes_fields _ _ _ Hcp) as (Hc & Hus & Hnb & Hna & Ht & Hb & Hl).
destruct (stored_view_keeps e PSA_KEY_ATTRIBUTES_INIT) as (Kt & Kb & Kl & Ku).
assert (Hp : attr_policy e = attr_policy dst) by (by rewrite He).
assert (Ht' : attr_type e = attr_type dst /\ attr_lifetime e = attr_lifetime dst) by (by rewrite He).
destruct Ht' as [Het Hel]. rewrite <- Hp in Hnb, Hna, Hus.
apply (policy_narrows_stored _ _ PSA_KEY_ATTRIBUTES_INIT) in Hnb, Hna.
exists b, (stored_view e PSA_KEY_ATTRIBUTES_INIT), data. split_and!; try done; try congruence.
- apply policy_narrows_no_wider; [congruence| |done]. exists (usage (attr_policy a)). congruence.
- apply policy_narrows_no_wider; [cbn; congruence| |done]. exists (usage (attr_policy b)).
  rewrite Z.land_comm. cbn. congruence.
- intros Hnz. rewrite <- Hb in Hnz. specialize (Hbits Hnz). rewrite Kb, He. cbn. congruence.
Qed.

(** * Sequences of calls *)

Fixpoint run_calls (cs : list api_call) : M (kstate O) (list api_result) :=
match cs with
| [] => mret []
| c :: cs => r ← run_call c; rs ← run_calls cs; mret (r :: rs)
end.

(** A run of the abstract table. *)
Inductive abs_run : key_table -> list api_call -> list api_result -> key_table -> Prop :=
| abs_run_nil m m' : same_keys m m' -> abs_run m [] [] m'
| abs_run_cons m c r m1 cs rs m' :
  abs_step m c r m1 -> abs_run m1 cs rs m' -> abs_run m (c :: cs) (r :: rs) m'.

(** C1: whatever fails underneath, every sequence of calls that keeps to two rules
  is a run of the abstract table, from a fresh library over any store the library
  wrote, and along it the invariant holds.  The rules are those the code relies
  on and does not enforce: the record of the data that is imported fits an [int]
  ([call_ok], which also gives the arguments their C types), and a persistent key
  is created under an identifier of the caller outside the vendor range
  ([user_call]).  Without them the table is not refined:
  [import_overflow_leaks_key] and [vendor_range_collision]. *)
Theorem calls_refine cs s rs s' :
store_inv s -> Forall (fun c => call_ok c /\ user_call c) cs ->
run_calls cs s = (rs, s') ->
store_inv s' /\ abs_run (table s) cs rs (table s').
Proof.
revert s rs; induction cs as [|c cs IH]; intros s rs Hi Hcs Hrun.
- injection Hrun as <- <-. split; [done|]. by constructor.
- apply Forall_cons in Hcs as [[Hok Hu] Hcs]. simpl in Hrun. unfold mbind, M_bind in Hrun.
  destruct (run_call c s) as [r s1] eqn:Hc. destruct (run_calls cs s1) as [rs1 s2] eqn:Hr.
  injection Hrun as <- <-.
  destruct (wp_run _ _ _ _ _ Hc (step_refines_wp c s Hi Hok Hu)) as [Hi1 Hstep].
  destruct (IH _ _ Hi1 Hcs Hr) as [Hi2 Hrun2]. split; [done|]. by econstructor.
Qed.

Lemma run_calls_keep_inv cs s :
store_inv s -> Forall (fun c => call_ok c /\ user_call c) cs -> wp (run_calls cs) (fun _ s' => store_inv s') s.
Proof.
intros Hi Hcs. revert s Hi. induction Hcs as [|c cs [Hok Hu] _ IH]; intros s Hi; [by apply wp_ret|].
apply wp_bind. eapply wp_mono; [by apply step_refines_wp|]. intros r s1 [Hi1 _].
apply wp_bind. eapply wp_mono; [by apply IH|]. intros rs s2 Hi2. by apply wp_ret.
Qed.

(** ** Keys stay typed, wherever persistent keys are put

    [store_inv] asks for persistent identifiers outside the vendor range; that
    every key in the store passed the import checks needs no such thing. *)

Definition typed_store s : Prop := free s /\ key_inv s.

Lemma typed_calm s s' : typed_store s -> free s' -> calm s s' -> typed_store s'.
Proof. intros [_ Hi] Hf Hc. split; [done|]. by eapply key_inv_same; [apply calm_same|]. Qed.

Lemma import_keeps_typed attributes data s :
typed_store s -> wf_attributes attributes -> fits data ->
wp (psa_import_key (Some attributes) (Some data) true) (fun _ s' => typed_store s') s.
Proof.
intros [Hf Hi] Hwf Hfit. apply wp_import_key; [done|done|].
intros st id s' Hf' [(_ & _ & _ & a & Hval & Hid & Hv & Himp)|(_ & [Hc|(a & _ & _ & Hv & Hc)] & _)].
- split; [done|]. by eapply imported_inv.
- by apply (typed_calm s).
- apply (typed_calm (after_id a s)); [|done|done]. split; [unfold after_id; by case_match|by apply after_id_inv].
Qed.

Lemma imports_keep_typed attributes data r s s' :
typed_store s -> wf_attributes attributes -> fits data -> imports attributes data r s s' -> typed_store s'.
Proof.
intros Hi Hwf Hfit (s1 & Hf1 & Hc & Hrun).
exact (wp_run _ _ _ _ _ Hrun (import_keeps_typed _ _ _ (typed_calm _ _ Hi Hf1 Hc) Hwf Hfit)).
Qed.

Lemma removed_keeps_typed id s s' : typed_store s -> free s' -> removed id s s' -> typed_store s'.
Proof.
intros [_ [H1 H2 H3 H4]] Hf'. unfold removed. intros Hrm. split; [done|].
destruct (remove_node id (g_volatile_keys s)) as [l|] eqn:Hr.
- pose proof (remove_node_sublist _ _ _ Hr) as Hsub.
  split; rewrite ?(c_next _ _ Hrm), ?(c_keys _ _ Hrm), ?(c_records _ _ Hrm); simpl; try done.
  + eapply sublist_NoDup; [exact H2|]. by apply fmap_sublist.
  + apply Forall_forall. intros m Hm. rewrite Forall_forall in H3. by apply H3, (elem_of_sublist _ _ _ Hm).
- destruct Hrm as [_ [Hn Hk Hrec _]]. split; rewrite ?Hn, ?Hk, ?Hrec; try done. by apply map_Forall_delete.
Qed.

Lemma reads_keep_typed c s :
typed_store s ->
match c with
| CallExport _ _ | CallExportPublic _ _ | CallGetAttributes _ | CallPurge _
| CallCheckUsage _ _ _ | CallGetKeyData _ => True
| CallRandom size => 0 <= size
| _ => False
end ->
wp (run_call c) (fun _ s' => typed_store s') s.
Proof.
intros Hi Hc. pose proof (proj1 Hi) as Hf.
destruct c as [| |?|?|?|?|k0 size|k0 size|k0|k0|k0 al us|k0|size]; try done; apply wp_return.
- apply wp_export_key; [done|]. intros r s' Hf' Hc' _ _ _. by apply (typed_calm s).
- apply wp_export_public_key; [done|]. intros r s' Hf' Hc' _. by apply (typed_calm s).
- apply wp_get_key_attributes; [done|]. intros r s' Hf' Hc' _. by apply (typed_calm s).
- unfold psa_purge_key. wp_seq. apply wp_get_key_attributes; [done|]. intros r s' Hf' Hc' _. wp_seq.
  by apply (typed_calm s).
- unfold psa_check_key_usage. wp_seq. apply wp_get_key_attributes; [done|]. intros r s' Hf' Hc' _.
  destruct r; wp_seq; by apply (typed_calm s).
- apply wp_get_key_data; [done|]. intros st a d s' Hf' Hc' _. by apply (typed_calm s).
- apply wp_generate_random; [done|done|]. intros r s' Hf' Hc' _. by apply (typed_calm s).
Qed.

Lemma call_keeps_typed c s : typed_store s -> call_ok c -> wp (run_call c) (fun _ s' => typed_store s') s.
Proof.
intros Hi Hok. pose proof Hi as [Hf Hk]. destruct c; try (by apply reads_keep_typed); apply wp_return.
- apply wp_crypto_init; [done|]. intros st s' Hf' Hs. split; [done|by eapply key_inv_same].
- apply wp_crypto_cleanup; [done|]. intros s' Hf' [Hs|(Hn & Hl & Hr)].
  + split; [done|by eapply key_inv_same].
  + split; [done|]. destruct Hk. simpl in *. split; rewrite ?Hn, ?Hl, ?Hr; try done; constructor.
- destruct Hok as [Hwf Hfit]. by apply import_keeps_typed.
- apply wp_generate_key with (s := s); [apply Hok| |done].
  intros r s' [(_ & _ & Hf' & Hc)|(data & Hfit & Himp)]; [by apply (typed_calm s)|by eapply imports_keep_typed].
- apply wp_copy_key; [done|]. intros r s' [(_ & _ & Hf' & Hc)|(src & data & dst & Hlk & Hcp & Himp)];
    [by apply (typed_calm s)|].
  destruct (lookup_good _ _ _ _ _ Hk init_attributes_wf Hlk) as [Hv Hfit].
  eapply imports_keep_typed; [done| |exact Hfit|exact Himp].
  exact (copy_attributes_wf _ _ _ (vk_wf _ _ Hv) Hok Hcp).
- destruct (decide (key = PSA_KEY_ID_NULL)) as [->|Hne]; [done|].
  apply wp_destroy_key; [done|done|]. intros st s' Hf' [[_ Hrm]|(_ & Hc & _)];
    [by eapply removed_keeps_typed|by apply (typed_calm s)].
Qed.

Lemma run_calls_keep_typed cs s :
typed_store s -> Forall call_ok cs -> wp (run_calls cs) (fun _ s' => typed_store s') s.
Proof.
intros Hi Hcs. revert s Hi. induction Hcs as [|c cs Hok _ IH]; intros s Hi; [by apply wp_ret|].
apply wp_bind. eapply wp_mono; [by apply call_keeps_typed|]. intros r s1 Hi1.
apply wp_bind. eapply wp_mono; [by apply IH|]. intros rs s2 Hi2. by apply wp_ret.
Qed.

(** C14: keys keep their type: from a store whose keys passed the import checks
  ([typed_store]: a fresh library over records it wrote, say), after any sequence
  of calls, the key that an operation loads is a well-formed key of the type and
  size its attributes say, of a length that is an [int], with usage flags that
  are defined.  The calls have arguments of their C types ([call_ok]), any
  identifier of a persistent key included, and the data that is imported leaves
  room for the record header in an [int]: longer data is the subject of
  [import_overflow_leaks_key]. *)
Theorem keys_stay_typed cs s id a data s1 s2 :
typed_store s -> Forall call_ok cs ->
(run_calls cs s).2 = s1 ->
wolfpsa_get_key_data id (Some PSA_KEY_ATTRIBUTES_INIT) s1 = ((PSA_SUCCESS, Some a, Some data), s2) ->
well_formed_key a data /\ 0 < zlen data <= INT_MAX /\
wolfpsa_usage_flags_valid (psa_get_key_usage_flags a) = true.
Proof.
intros Hi Hcs <- Hget. pose proof (run_calls_keep_typed cs s Hi Hcs) as Hi1. unfold wp in Hi1.
set (s1 := (run_calls cs s).2) in *.
assert (Hwp : wp (wolfpsa_get_key_data id (Some PSA_KEY_ATTRIBUTES_INIT)) (fun r _ =>
  forall at' d, r = (PSA_SUCCESS, Some at', Some d) -> good_key at' d) s1).
{ apply wp_get_key_data; [apply Hi1|]. intros st at0 d0 s' _ _ Hcase at' d [= -> -> ->].
  destruct Hcase as [(_ & at1 & d1 & Hlk & [= ->] & [= ->])|[Hne _]]; [|done].
  exact (lookup_good _ _ _ _ _ (proj2 Hi1) init_attributes_wf Hlk). }
destruct (wp_run _ _ _ _ _ Hget Hwp a data eq_refl) as [Hv _].
split; [apply Hv|]. split; apply Hv.
Qed.

Lemma initial_store_inv st :
map_Forall (fun _ => good_record) (records st) ->
(forall id, 0 <= id -> vendor_id id -> records st !! Z.to_N id = None) ->
store_inv (initial_state st).
Proof.
intros Hrec Hap. split; [done| |exact Hap].
split; [|constructor|constructor|exact Hrec]. done.
Qed.
End Inv.
