(* ===== verification/KeyReaders.v ===== *)
(** Reading keys, for the operations that take a key identifier: the rules of
    [wolfpsa_get_key_data], [psa_get_key_attributes] and [psa_export_key] over
    the table of keys of [KeyStoreInv], and steps of an operation that only read
    keys and call wolfCrypt. *)

From stdpp Require Import base decidable list gmap.
From Stdlib Require Import ZArith Lia.
From Stdlib Require Import Strings.Byte.
From S2P Require Import Prelude.
From S2P Require Import Values.
From S2P Require Import Engine.
From S2P Require Import KeyPolicy.
From S2P Require Import KeyFormat.
From S2P Require Import StoreIface.
From S2P Require Import Library.
From S2P Require Import KeyStore.
From S2P Require Import KeyStoreRules.
From S2P Require Import Operation.
From S2P Require Import ImportRules.
From S2P Require Import KeyStoreSpec.
From S2P Require Import KeyStoreCalls.
From S2P Require Import KeyStoreInv.

#[local] Open Scope Z_scope.

(** * The mutex, once made, stays *)

Section LockReady.
Context {C : Config} {E : WolfCryptErr} {K : WolfCryptKeys} {R : WolfCryptRng}.
Context {O : StoreOps} {B : KeyBackend}.

Definition lock_ready (s : kstate O) : Prop := g_wolfpsa_lock_ready s = true.

Lemma ready_malloc n : keeps lock_ready (XMALLOC n).
Proof. intros s Hs. unfold XMALLOC. by destruct (next_outcome _). Qed.
Lemma ready_store {A} (m : M store_state A) : keeps lock_ready (store_op m).
Proof. intros s Hs. unfold store_op. by destruct (m _). Qed.
Lemma ready_lock : keeps lock_ready WOLFPSA_LOCK.
Proof. intros s Hs. unfold WOLFPSA_LOCK. by destruct WOLFPSA_THREAD_SAFE. Qed.
Lemma ready_unlock : keeps lock_ready WOLFPSA_UNLOCK.
Proof. intros s Hs. unfold WOLFPSA_UNLOCK. by destruct WOLFPSA_THREAD_SAFE. Qed.
Lemma ready_lock_init : keeps lock_ready WOLFPSA_LOCK_INIT.
Proof.
intros s Hs. unfold WOLFPSA_LOCK_INIT, wolfpsa_lock_ensure_init.
destruct WOLFPSA_THREAD_SAFE; [|done]. by rewrite Hs.
Qed.
Lemma ready_storage_init b : keeps lock_ready (mmodify (with_storage_init b)).
Proof. by intros s Hs. Qed.

Ltac ready_tac :=
repeat first [ apply keeps_ret | apply keeps_bind; [|intros] | apply keeps_gets
             | apply ready_malloc | apply ready_store | apply ready_lock | apply ready_unlock
             | apply ready_lock_init | apply ready_storage_init
             | progress cbv beta iota zeta | case_match ].

Lemma ready_check_init : keeps lock_ready psa_key_storage_check_init.
Proof. unfold psa_key_storage_check_init, psa_key_storage_init, wolfPSA_CryptoIsInitialized. ready_tac. Qed.

Lemma ready_get_key_data id a : keeps lock_ready (wolfpsa_get_key_data id a).
Proof.
unfold wolfpsa_get_key_data, wolfpsa_volatile_get, wolfpsa_volatile_find, open_record, read_record_data.
apply keeps_bind; [apply ready_check_init|intros]. ready_tac.
Qed.

Lemma ready_get_key_attributes id : keeps lock_ready (psa_get_key_attributes id).
Proof.
unfold psa_get_key_attributes, wolfpsa_volatile_get_attributes, wolfpsa_volatile_find, open_record.
apply keeps_bind; [apply ready_check_init|intros]. ready_tac.
Qed.

Lemma ready_export_key id d n l : keeps lock_ready (psa_export_key id d n l).
Proof.
unfold psa_export_key, wolfpsa_volatile_get, wolfpsa_volatile_find, open_record, export_record.
apply keeps_if; [apply keeps_ret|].
apply keeps_bind; [apply ready_check_init|intros]. ready_tac.
Qed.
End LockReady.
(** * Reading keys *)

(** The values of a [psa_key_id_t]. *)
Definition valid_id (id : Z) : Prop := 0 <= id < 2 ^ 32.

Section Reading.
Context {C : Config} {E : WolfCryptErr} {K : WolfCryptKeys} {R : WolfCryptRng}.
Context {O : StoreOps} {L : StoreLaws O} {B : KeyBackend}.
Context {ROK : WolfCryptRngOk R} {BOK : KeyBackendOk}.

Implicit Types k : kstate O.

(** The library is initialised and nothing is going to fail. *)
Definition serving k : Prop :=
good_environment k /\ idle k /\ g_psa_crypto_initialized k = true.

(** A step that reads keys. *)
Definition settled k k' : Prop :=
(free k -> free k') /\ calm k k' /\ (serving k -> serving k').

Lemma settled_refl k : settled k k.
Proof. split_and!; [done|apply calm_refl|done]. Qed.

Lemma settled_trans k1 k2 k3 : settled k1 k2 -> settled k2 k3 -> settled k1 k3.
Proof. intros (F1 & C1 & S1) (F2 & C2 & S2). split_and!; [auto|by eapply calm_trans|auto]. Qed.

Lemma settled_quiet k k' : quiet k k' -> lock_view k' = lock_view k -> settled k k'.
Proof.
intros Hq Hv. pose proof Hv as Hv'. unfold lock_view in Hv. injection Hv as Hh Hfa Hr. split_and!.
- unfold free. by rewrite Hh, Hfa.
- by apply quiet_calm.
- intros ([Hm Hhe] & Hi & Hc). split_and!.
  + split; [by apply Hq|by apply (c_healthy _ _ (quiet_calm _ _ Hq))].
  + by eapply idle_lock_view.
  + by rewrite (q_crypto _ _ Hq).
Qed.

Lemma settled_store_inv k k' :
store_inv k -> settled k k' -> store_inv k' /\ same_keys (table k) (table k').
Proof. intros Hi (Hf & Hc & _). by destruct (step_same _ _ Hi (Hf (si_free _ Hi)) Hc). Qed.

Lemma settled_table k k' id : settled k k' -> table k' id = table k id.
Proof. intros (_ & Hc & _). by apply key_lookup_calm. Qed.

(** A reader leaves the library settled. *)
Lemma wp_settled {A} (m : M (kstate O) A) (Q : A -> kstate O -> Prop) k :
keeps lock_ready m ->
wp m (fun a k' => free k' /\ calm k k' /\ (settled k k' -> Q a k')) k -> wp m Q k.
Proof.
intros Hm. unfold wp. intros (Hf & Hc & HQ). apply HQ. split_and!; [done|done|].
intros ([Hme Hhe] & [_ Hr] & Hi). split_and!; [split; by apply Hc| |by rewrite (c_crypto _ _ Hc)].
split; [done|]. intros Ht. by apply Hm, Hr.
Qed.

(** Every stored record parses, so that an absent key has no record. *)
Lemma table_none k id :
key_inv k -> table k id = None ->
find_node id (g_volatile_keys k) = None /\ record_of k id = None.
Proof.
intros Hk Ht. unfold table, key_lookup in Ht.
destruct (find_node id (g_volatile_keys k)); [done|]. split; [done|].
destruct (record_of k id) as [bs|] eqn:Hr; [|done]. simpl in Ht.
pose proof (map_Forall_lookup_1 _ _ _ _ (ki_records _ Hk) Hr) as (a & data & [Hv _] & _ & Hser).
by rewrite (parse_serialized _ _ _ _ _ (vk_wf _ _ Hv) (vk_len _ _ Hv) Hser) in Ht.
Qed.

Lemma table_good k id a data :
store_inv k -> table k id = Some (a, data) -> good_key a data.
Proof. intros Hi. by apply lookup_good, init_attributes_wf; apply Hi. Qed.

Lemma table_length k id a data :
store_inv k -> table k id = Some (a, data) -> 0 < zlen data <= INT_MAX.
Proof. intros Hi Ht. by destruct (table_good _ _ _ _ Hi Ht) as [[] _]. Qed.

Lemma wp_lookup_key id
  (Q : psa_status_t * option psa_key_attributes_t * option (list byte) -> kstate O -> Prop) k :
store_inv k ->
(forall st a d k', settled k k' ->
   (st = PSA_SUCCESS /\ exists a0 d0, table k id = Some (a0, d0) /\ a = Some a0 /\ d = Some d0) \/
   (st <> PSA_SUCCESS /\ d = None /\
    (serving k -> 0 <= id < 2 ^ 32 -> table k id = None /\ st = PSA_ERROR_INVALID_HANDLE)) ->
   Q (st, a, d) k') ->
wp (wolfpsa_get_key_data id (Some PSA_KEY_ATTRIBUTES_INIT)) Q k.
Proof.
intros Hi HQ. apply wp_settled; [apply ready_get_key_data|].
apply wp_get_key_data; [by apply Hi|]. intros st a d k' Hf Hc Hcase.
split_and!; [done|done|]. intros Hs. apply HQ; [done|].
destruct Hcase as [Hok|(Hne & Hd & _ & Hg)]; [by left|]. right. split_and!; [done|done|].
intros (Hge & Hid & Hcr) Hr. destruct (Hg Hge Hid Hcr) as [Hempty Hnone]; [by apply key_id_ulong|].
assert (Ht : table k id = None).
{ destruct (table k id) as [[a0 d0]|] eqn:Ht; [|done].
  pose proof (Hempty _ _ Ht). pose proof (table_length _ _ _ _ Hi Ht). lia. }
split; [done|]. destruct (table_none _ _ (si_keys _ Hi) Ht). auto.
Qed.

Lemma wp_lookup_attributes id (Q : psa_status_t + psa_key_attributes_t -> kstate O -> Prop) k :
store_inv k ->
(forall r k', settled k k' ->
   match r with
   | inr a => exists a0 d0, table k id = Some (a0, d0) /\ a = set_id a0 id
   | inl e => e <> PSA_SUCCESS /\
       (serving k -> 0 <= id < 2 ^ 32 -> table k id = None /\ e = PSA_ERROR_INVALID_HANDLE)
   end -> Q r k') ->
wp (psa_get_key_attributes id) Q k.
Proof.
intros Hi HQ. apply wp_settled; [apply ready_get_key_attributes|].
apply wp_get_key_attributes; [by apply Hi|]. intros r k' Hf Hc Hcase.
split_and!; [done|done|]. intros Hs. apply HQ; [done|]. destruct r as [e|a].
- destruct Hcase as [He Hg]. split; [done|]. intros (Hge & Hid & Hcr) Hr.
  destruct (Hg Hge Hid Hcr) as [Hnone Hh]; [by apply key_id_ulong|].
  assert (Ht : table k id = None).
  { destruct (table k id) as [[a0 d0]|] eqn:Ht; [|done].
    apply attributes_of_lookup in Ht. congruence. }
  split; [done|]. destruct (table_none _ _ (si_keys _ Hi) Ht). auto.
- destruct Hcase as (a0 & Ha & ->).
  destruct (attributes_of_table _ _ _ (si_keys _ Hi) Ha) as [d0 Hd]. by exists a0, d0.
Qed.

Lemma wp_export_table id size (Q : psa_status_t * list byte -> kstate O -> Prop) k :
store_inv k ->
(forall r k', settled k k' ->
   (r.1 = PSA_SUCCESS -> exists a d, table k id = Some (a, d) /\ r = export_verdict a d size) ->
   (r.1 <> PSA_SUCCESS -> r.2 = []) ->
   (serving k -> 0 <= id < 2 ^ 32 ->
    forall a d, table k id = Some (a, d) -> r = export_verdict a d size) -> Q r k') ->
wp (psa_export_key id true size true) Q k.
Proof.
intros Hi HQ. apply wp_settled; [apply ready_export_key|].
apply wp_export_key; [by apply Hi|]. intros r k' Hf Hc Hok Hno Hgood.
split_and!; [done|done|]. intros Hs. apply HQ; [done|done|done|].
intros (Hge & Hid & Hcr) Hr a d Ht. apply Hgood; [done..|by apply key_id_ulong|done|].
pose proof (table_length _ _ _ _ Hi Ht). lia.
Qed.
End Reading.

(** * Steps of an operation *)

Section Steps.
Context {C : Config} {E : WolfCryptErr} {EO : WolfCryptErrOk E} {K : WolfCryptKeys} {R : WolfCryptRng}.
Context {O : StoreOps} {L : StoreLaws O} {B : KeyBackend}.
Context {ROK : WolfCryptRngOk R} {BOK : KeyBackendOk} {Op : Type}.

Implicit Types s : opstate O Op.

(** Nothing is going to fail, and the library serves. *)
Definition ready s : Prop := op_rets s = [] /\ serving (op_lib s).

Lemma ready_smooth s : ready s -> smooth s.
Proof. intros (Hr & [Hm _] & _). done. Qed.

(** A step that reads keys and calls wolfCrypt. *)
Definition reads s s' : Prop :=
same_ctx s s' /\ settled (op_lib s) (op_lib s') /\ (ready s -> ready s').

Lemma reads_refl s : reads s s.
Proof. split_and!; [done|apply settled_refl|done]. Qed.

Lemma reads_trans s1 s2 s3 : reads s1 s2 -> reads s2 s3 -> reads s1 s3.
Proof.
intros (C1 & S1 & R1) (C2 & S2 & R2). split_and!; [by eapply same_ctx_trans|by eapply settled_trans|auto].
Qed.

Lemma reads_lib s k : settled (op_lib s) k -> reads s (with_lib k s).
Proof. intros Hs. split_and!; [done|done|]. intros [Hr Hse]. split; [done|]. by apply Hs. Qed.

Lemma reads_store_inv s s' : store_inv (op_lib s) -> reads s s' -> store_inv (op_lib s').
Proof. intros Hi (_ & Hs & _). by eapply settled_store_inv. Qed.

Lemma reads_table s s' id : reads s s' -> table (op_lib s') id = table (op_lib s) id.
Proof. intros (_ & Hs & _). by apply settled_table. Qed.

Lemma wp_reads {A} (m : M (opstate O Op) A) (Q : A -> opstate O Op -> Prop) s :
pure_calls m -> (forall a s', m s = (a, s') -> reads s s' -> Q a s') -> wp m Q s.
Proof.
intros Hm HQ. unfold wp. destruct (Hm s) as (Hc & Hq & Hv & Hr).
apply (HQ _ _ (surjective_pairing _)). pose proof (settled_quiet _ _ Hq Hv) as Hse.
split_and!; [done|done|]. intros [Hrs Hs]. split; [auto|]. by apply Hse.
Qed.

Lemma wp_alloc n (Q : bool -> opstate O Op -> Prop) s :
(forall b s', reads s s' -> (ready s -> b = true) -> Q b s') -> wp (lib (XMALLOC n)) Q s.
Proof.
intros HQ. apply wp_reads; [apply pure_malloc|]. intros b s' Hrun Hr. apply HQ; [done|].
intros (_ & [Hm _] & _). unfold lib, XMALLOC in Hrun. unfold mem_ok in Hm. rewrite Hm in Hrun.
simpl in Hrun. by simplify_eq.
Qed.

(** A wolfCrypt call: its code is 0 when nothing fails. *)
Lemma wp_code (Q : Z -> opstate O Op -> Prop) s :
(forall r s', reads s s' -> (ready s -> r = 0) -> Q r s') -> wp wc_call Q s.
Proof.
intros HQ. apply wp_reads; [apply pure_wc_call|]. intros r s' Hrun Hr. apply HQ; [done|].
intros Hs%ready_smooth. rewrite wc_call_smooth in Hrun by done. by simplify_eq.
Qed.

(** The next call of a chain. *)
Lemma wp_code_then r0 (Q : Z -> opstate O Op -> Prop) s :
(forall r s', reads s s' -> (r = 0 -> r0 = 0) -> (ready s -> r = r0) -> Q r s') ->
wp (wc_then r0) Q s.
Proof.
intros HQ. apply wp_reads; [apply pure_wc_then|]. intros r s' Hrun Hr. apply HQ; [done| |].
- intros ->. unfold wc_then in Hrun. destruct (Z.eqb_spec r0 0); [done|]. by injection Hrun as ->.
- intros Hs%ready_smooth. rewrite wc_then_smooth in Hrun by done. by simplify_eq.
Qed.

(** Key data by identifier. *)
Lemma wp_key_data id
  (Q : psa_status_t * option psa_key_attributes_t * option (list byte) -> opstate O Op -> Prop) s :
store_inv (op_lib s) ->
(forall st a d s', reads s s' ->
   (st = PSA_SUCCESS /\ exists a0 d0, table (op_lib s) id = Some (a0, d0) /\ a = Some a0 /\ d = Some d0) \/
   (st <> PSA_SUCCESS /\ d = None /\
    (ready s -> 0 <= id < 2 ^ 32 -> table (op_lib s) id = None /\ st = PSA_ERROR_INVALID_HANDLE)) ->
   Q (st, a, d) s') ->
wp (lib (wolfpsa_get_key_data id (Some PSA_KEY_ATTRIBUTES_INIT))) Q s.
Proof.
intros Hi HQ. apply wp_lib, wp_lookup_key; [done|]. intros st a d k Hs Hcase.
apply HQ; [by apply reads_lib|]. destruct Hcase as [H|(H1 & H2 & H3)]; [by left|right].
split_and!; [done|done|]. intros [_ Hse]. auto.
Qed.

Lemma wp_key_attributes id (Q : psa_status_t + psa_key_attributes_t -> opstate O Op -> Prop) s :
store_inv (op_lib s) ->
(forall r s', reads s s' ->
   match r with
   | inr a => exists a0 d0, table (op_lib s) id = Some (a0, d0) /\ a = set_id a0 id
   | inl e => e <> PSA_SUCCESS /\
       (ready s -> 0 <= id < 2 ^ 32 -> table (op_lib s) id = None /\ e = PSA_ERROR_INVALID_HANDLE)
   end -> Q r s') ->
wp (lib (psa_get_key_attributes id)) Q s.
Proof.
intros Hi HQ. apply wp_lib, wp_lookup_attributes; [done|]. intros r k Hs Hcase.
apply HQ; [by apply reads_lib|]. destruct r as [e|a]; [|done]. destruct Hcase as [H1 H2].
split; [done|]. intros [_ Hse]. auto.
Qed.

Lemma wp_key_export id size (Q : psa_status_t * list byte -> opstate O Op -> Prop) s :
store_inv (op_lib s) ->
(forall r s', reads s s' ->
   (r.1 = PSA_SUCCESS ->
    exists a d, table (op_lib s) id = Some (a, d) /\ r = export_verdict a d size) ->
   (r.1 <> PSA_SUCCESS -> r.2 = []) ->
   (ready s -> 0 <= id < 2 ^ 32 ->
    forall a d, table (op_lib s) id = Some (a, d) -> r = export_verdict a d size) -> Q r s') ->
wp (lib (psa_export_key id true size true)) Q s.
Proof.
intros Hi HQ. apply wp_lib, wp_export_table; [done|]. intros r k Hs H1 H2 H3.
apply HQ; [by apply reads_lib|done|done|]. intros [_ Hse]. auto.
Qed.
End Steps.
