(* ===== verification/AsymValues.v ===== *)
(** Values of asymmetric cryptography: the signature and encryption algorithms
    of [wolfpsa/psa/crypto_values.h] and [wolfpsa/psa/crypto-pqc.h], the output
    sizes of [wolfpsa/psa/crypto_sizes.h], the translations to wolfCrypt and the
    support checks of [src/psa_asymmetric.c], and those of [src/psa_pq.c]. *)

From stdpp Require Import base decidable list.
From Stdlib Require Import ZArith Lia.
From S2P Require Import Prelude.
From S2P Require Import Values.
From S2P Require Import Engine.
From S2P Require Import WolfCrypt.
From S2P Require Import KeyPolicy.
From S2P Require Import KeyFormat.

#[local] Open Scope Z_scope.

(** * Algorithms *)

Definition PSA_ALG_SHAKE128_256 : Z := 0x02000016.

Definition PSA_ALG_IS_RSA_PKCS1V15_SIGN (alg : Z) : bool :=
  Z.land alg (Z.lnot PSA_ALG_HASH_MASK) =? PSA_ALG_RSA_PKCS1V15_SIGN_BASE.
Definition PSA_ALG_RSA_PSS_BASE : Z := 0x06000300.
Definition PSA_ALG_RSA_PSS_ANY_SALT_BASE : Z := 0x06001300.
Definition PSA_ALG_RSA_PSS (hash_alg : Z) : Z :=
  Z.lor PSA_ALG_RSA_PSS_BASE (Z.land hash_alg PSA_ALG_HASH_MASK).
Definition PSA_ALG_IS_RSA_PSS_STANDARD_SALT (alg : Z) : bool :=
  Z.land alg (Z.lnot PSA_ALG_HASH_MASK) =? PSA_ALG_RSA_PSS_BASE.
Definition PSA_ALG_IS_RSA_PSS_ANY_SALT (alg : Z) : bool :=
  Z.land alg (Z.lnot PSA_ALG_HASH_MASK) =? PSA_ALG_RSA_PSS_ANY_SALT_BASE.
Definition PSA_ALG_IS_RSA_PSS (alg : Z) : bool :=
  PSA_ALG_IS_RSA_PSS_STANDARD_SALT alg || PSA_ALG_IS_RSA_PSS_ANY_SALT alg.

Definition PSA_ALG_ECDSA_IS_DETERMINISTIC (alg : Z) : bool :=
  negb (Z.land alg PSA_ALG_ECDSA_DETERMINISTIC_FLAG =? 0).
Definition PSA_ALG_IS_DETERMINISTIC_ECDSA (alg : Z) : bool :=
  PSA_ALG_IS_ECDSA alg && PSA_ALG_ECDSA_IS_DETERMINISTIC alg.

Definition PSA_ALG_HASH_EDDSA_BASE : Z := 0x06000900.
Definition PSA_ALG_ED25519PH : Z :=
  Z.lor PSA_ALG_HASH_EDDSA_BASE (Z.land PSA_ALG_SHA_512 PSA_ALG_HASH_MASK).
Definition PSA_ALG_ED448PH : Z :=
  Z.lor PSA_ALG_HASH_EDDSA_BASE (Z.land PSA_ALG_SHAKE256_512 PSA_ALG_HASH_MASK).

Definition PSA_ALG_IS_SIGN_MESSAGE (alg : Z) : bool :=
  PSA_ALG_IS_SIGN alg &&
  negb (alg =? PSA_ALG_ECDSA_ANY) && negb (alg =? PSA_ALG_RSA_PKCS1V15_SIGN_RAW).

Definition PSA_ALG_CATEGORY_ASYMMETRIC_ENCRYPTION : Z := 0x07000000.
Definition PSA_ALG_IS_ASYMMETRIC_ENCRYPTION (alg : Z) : bool :=
  Z.land alg PSA_ALG_CATEGORY_MASK =? PSA_ALG_CATEGORY_ASYMMETRIC_ENCRYPTION.
Definition PSA_ALG_RSA_PKCS1V15_CRYPT : Z := 0x07000200.
Definition PSA_ALG_RSA_OAEP_BASE : Z := 0x07000300.
Definition PSA_ALG_RSA_OAEP (hash_alg : Z) : Z :=
  Z.lor PSA_ALG_RSA_OAEP_BASE (Z.land hash_alg PSA_ALG_HASH_MASK).
Definition PSA_ALG_IS_RSA_OAEP (alg : Z) : bool :=
  Z.land alg (Z.lnot PSA_ALG_HASH_MASK) =? PSA_ALG_RSA_OAEP_BASE.
Definition PSA_ALG_RSA_OAEP_GET_HASH (alg : Z) : Z :=
  if PSA_ALG_IS_RSA_OAEP alg
  then Z.lor (Z.land alg PSA_ALG_HASH_MASK) PSA_ALG_CATEGORY_HASH else 0.

(** [~0x00000100U] and the like complement 32 bits; so does [Z.lnot] on the
    values of a [psa_algorithm_t]. *)
Definition PSA_ALG_ML_DSA : Z := 0x06004400.
Definition PSA_ALG_DETERMINISTIC_ML_DSA : Z := 0x06004500.
Definition PSA_ALG_HASH_ML_DSA (hash_alg : Z) : Z := Z.lor 0x06004600 (Z.land hash_alg 0xff).
Definition PSA_ALG_DETERMINISTIC_HASH_ML_DSA (hash_alg : Z) : Z :=
  Z.lor 0x06004700 (Z.land hash_alg 0xff).
Definition PSA_ALG_IS_ML_DSA (alg : Z) : bool := Z.land alg (Z.lnot 0x100) =? 0x06004400.
Definition PSA_ALG_IS_DETERMINISTIC_HASH_ML_DSA (alg : Z) : bool :=
  Z.land alg (Z.lnot 0xff) =? 0x06004700.
Definition PSA_ALG_IS_HEDGED_HASH_ML_DSA (alg : Z) : bool :=
  Z.land alg (Z.lnot 0xff) =? 0x06004600.

Definition PSA_ALG_LMS : Z := 0x06004800.
Definition PSA_ALG_HSS : Z := 0x06004900.
Definition PSA_ALG_XMSS : Z := 0x06004A00.
Definition PSA_ALG_XMSS_MT : Z := 0x06004B00.

(** * Key types *)

Definition TWISTED_EDWARDS_KEY_PAIR : Z := PSA_KEY_TYPE_ECC_KEY_PAIR PSA_ECC_FAMILY_TWISTED_EDWARDS.
Definition TWISTED_EDWARDS_PUBLIC_KEY : Z :=
  PSA_KEY_TYPE_ECC_PUBLIC_KEY PSA_ECC_FAMILY_TWISTED_EDWARDS.

Definition PSA_KEY_TYPE_IS_ASYMMETRIC (type : Z) : bool :=
  Z.land (Z.land type PSA_KEY_TYPE_CATEGORY_MASK) (Z.lnot PSA_KEY_TYPE_CATEGORY_FLAG_PAIR)
  =? PSA_KEY_TYPE_CATEGORY_PUBLIC_KEY.

Definition PSA_KEY_TYPE_IS_SLH_DSA (type : Z) : bool :=
  Z.land (PSA_KEY_TYPE_PUBLIC_KEY_OF_KEY_PAIR type) 0xff80 =? 0x4180.

(** * Output sizes *)

Definition PSA_ECDSA_SIGNATURE_SIZE (curve_bits : Z) : Z := PSA_BITS_TO_BYTES curve_bits * 2.
Definition PSA_VENDOR_ECC_SIGNATURE_SIZE (key_bits : Z) : Z :=
  if key_bits =? 448 then 114 else PSA_ECDSA_SIGNATURE_SIZE key_bits.

Definition PSA_SIGN_OUTPUT_SIZE (key_type key_bits alg : Z) : Z :=
  if PSA_KEY_TYPE_IS_RSA key_type then PSA_BITS_TO_BYTES key_bits
  else if PSA_KEY_TYPE_IS_ECC key_type then PSA_VENDOR_ECC_SIGNATURE_SIZE key_bits
  else if PSA_KEY_TYPE_IS_ML_DSA key_type then
    if key_bits =? 128 then 2420
    else if key_bits =? 192 then 3309
    else if key_bits =? 256 then 4627 else 0
  else 0.

Definition PSA_ASYMMETRIC_ENCRYPT_OUTPUT_SIZE (key_type key_bits alg : Z) : Z :=
  if PSA_KEY_TYPE_IS_RSA key_type then PSA_BITS_TO_BYTES key_bits else 0.

(** * Translations to wolfCrypt *)

Definition wc_psa_get_hash_type (alg : Z) : wc_HashType :=
  let hash_alg := if PSA_ALG_IS_RSA_OAEP alg then PSA_ALG_RSA_OAEP_GET_HASH alg
                  else PSA_ALG_SIGN_GET_HASH alg in
  if hash_alg =? PSA_ALG_MD5 then WC_HASH_TYPE_MD5
  else if hash_alg =? PSA_ALG_SHA_1 then WC_HASH_TYPE_SHA
  else if hash_alg =? PSA_ALG_SHA_224 then WC_HASH_TYPE_SHA224
  else if hash_alg =? PSA_ALG_SHA_256 then WC_HASH_TYPE_SHA256
  else if hash_alg =? PSA_ALG_SHA_384 then WC_HASH_TYPE_SHA384
  else if hash_alg =? PSA_ALG_SHA_512 then WC_HASH_TYPE_SHA512
  else if hash_alg =? PSA_ALG_SHA_512_224 then WC_HASH_TYPE_SHA512_224
  else if hash_alg =? PSA_ALG_SHA_512_256 then WC_HASH_TYPE_SHA512_256
  else WC_HASH_TYPE_NONE.

(** * Support checks

    Each [#ifdef] of a branch is [available], applied to its symbol. *)

Definition available (feature : bool) : psa_status_t :=
  if feature then PSA_SUCCESS else PSA_ERROR_NOT_SUPPORTED.

Section SupportChecks.
Context {C : Config}.

(** The [switch] on the hash, written out four times in the source. *)
Definition check_hash_alg_supported (hash_alg : Z) : psa_status_t :=
if hash_alg =? PSA_ALG_SHA_1 then available (negb NO_SHA)
else if hash_alg =? PSA_ALG_SHA_224 then available WOLFSSL_SHA224
else if hash_alg =? PSA_ALG_SHA_256 then available (negb NO_SHA256)
else if hash_alg =? PSA_ALG_SHA_384 then available WOLFSSL_SHA384
else if hash_alg =? PSA_ALG_SHA_512 then available WOLFSSL_SHA512
else PSA_ERROR_NOT_SUPPORTED.

Definition check_sign_alg_supported (alg : Z) : psa_status_t :=
if PSA_ALG_IS_RSA_PKCS1V15_SIGN alg then
  if negb NO_RSA then check_hash_alg_supported (PSA_ALG_SIGN_GET_HASH alg)
  else PSA_ERROR_NOT_SUPPORTED
else if PSA_ALG_IS_RSA_PSS alg then
  if negb NO_RSA && WC_RSA_PSS then check_hash_alg_supported (PSA_ALG_SIGN_GET_HASH alg)
  else PSA_ERROR_NOT_SUPPORTED
else if PSA_ALG_IS_ECDSA alg then
  if HAVE_ECC then check_hash_alg_supported (PSA_ALG_SIGN_GET_HASH alg)
  else PSA_ERROR_NOT_SUPPORTED
else if alg =? PSA_ALG_ED25519PH then available HAVE_ED25519
else if alg =? PSA_ALG_ED448PH then available HAVE_ED448
else PSA_ERROR_NOT_SUPPORTED.

Definition check_encryption_alg_supported (alg : Z) : psa_status_t :=
if alg =? PSA_ALG_RSA_PKCS1V15_CRYPT then available (negb NO_RSA)
else if PSA_ALG_IS_RSA_OAEP alg then
  if negb NO_RSA && WOLFSSL_RSA_OAEP
  then check_hash_alg_supported (PSA_ALG_RSA_OAEP_GET_HASH alg)
  else PSA_ERROR_NOT_SUPPORTED
else PSA_ERROR_NOT_SUPPORTED.

Definition psa_asymmetric_check_alg_supported (alg : Z) : psa_status_t :=
if PSA_ALG_IS_SIGN_HASH alg || PSA_ALG_IS_SIGN_MESSAGE alg
then check_sign_alg_supported alg
else if PSA_ALG_IS_ASYMMETRIC_ENCRYPTION alg then check_encryption_alg_supported alg
else PSA_ERROR_NOT_SUPPORTED.

Definition psa_pq_check_key_type_supported (type : Z) : psa_status_t :=
if PSA_KEY_TYPE_IS_SLH_DSA type then PSA_ERROR_NOT_SUPPORTED
else if WOLFSSL_HAVE_MLKEM &&
  ((type =? PSA_KEY_TYPE_ML_KEM_KEY_PAIR) || (type =? PSA_KEY_TYPE_ML_KEM_PUBLIC_KEY))
then PSA_SUCCESS
else if WOLFSSL_HAVE_MLDSA &&
  ((type =? PSA_KEY_TYPE_ML_DSA_KEY_PAIR) || (type =? PSA_KEY_TYPE_ML_DSA_PUBLIC_KEY))
then PSA_SUCCESS
else if WOLFSSL_HAVE_LMS &&
  ((type =? PSA_KEY_TYPE_LMS_PUBLIC_KEY) || (type =? PSA_KEY_TYPE_HSS_PUBLIC_KEY))
then PSA_SUCCESS
else if WOLFSSL_HAVE_XMSS &&
  ((type =? PSA_KEY_TYPE_XMSS_PUBLIC_KEY) || (type =? PSA_KEY_TYPE_XMSS_MT_PUBLIC_KEY))
then PSA_SUCCESS
else PSA_ERROR_NOT_SUPPORTED.

Definition one_of_sizes (bits : Z) (sizes : list Z) : psa_status_t :=
if existsb (Z.eqb bits) sizes then PSA_SUCCESS else PSA_ERROR_INVALID_ARGUMENT.

Definition psa_pq_check_key_size_valid (type bits : Z) : psa_status_t :=
if PSA_KEY_TYPE_IS_SLH_DSA type then PSA_ERROR_NOT_SUPPORTED
else if WOLFSSL_HAVE_MLKEM &&
  ((type =? PSA_KEY_TYPE_ML_KEM_KEY_PAIR) || (type =? PSA_KEY_TYPE_ML_KEM_PUBLIC_KEY))
then one_of_sizes bits [512; 768; 1024]
else if WOLFSSL_HAVE_MLDSA &&
  ((type =? PSA_KEY_TYPE_ML_DSA_KEY_PAIR) || (type =? PSA_KEY_TYPE_ML_DSA_PUBLIC_KEY))
then one_of_sizes bits [128; 192; 256]
else if WOLFSSL_HAVE_LMS &&
  ((type =? PSA_KEY_TYPE_LMS_PUBLIC_KEY) || (type =? PSA_KEY_TYPE_HSS_PUBLIC_KEY))
then one_of_sizes bits [192; 256]
else if WOLFSSL_HAVE_XMSS &&
  ((type =? PSA_KEY_TYPE_XMSS_PUBLIC_KEY) || (type =? PSA_KEY_TYPE_XMSS_MT_PUBLIC_KEY))
then one_of_sizes bits [192; 256]
else PSA_ERROR_NOT_SUPPORTED.

(** [is_pq]: the key-pair types of LMS and XMSS that the source tests under
    [#ifdef] are defined by no header. *)
Definition is_pq (type : Z) : bool :=
(type =? PSA_KEY_TYPE_ML_KEM_KEY_PAIR) || (type =? PSA_KEY_TYPE_ML_KEM_PUBLIC_KEY) ||
(type =? PSA_KEY_TYPE_ML_DSA_KEY_PAIR) || (type =? PSA_KEY_TYPE_ML_DSA_PUBLIC_KEY) ||
(type =? PSA_KEY_TYPE_LMS_PUBLIC_KEY) || (type =? PSA_KEY_TYPE_XMSS_PUBLIC_KEY).

Definition check_ecc_family_supported (curve : Z) : psa_status_t :=
if curve =? PSA_ECC_FAMILY_SECP_R1 then available HAVE_ECC
else if curve =? PSA_ECC_FAMILY_SECP_K1 then available (HAVE_ECC && HAVE_ECC_KOBLITZ)
else if curve =? PSA_ECC_FAMILY_BRAINPOOL_P_R1 then available (HAVE_ECC && HAVE_ECC_BRAINPOOL)
else if curve =? PSA_ECC_FAMILY_MONTGOMERY then available (HAVE_CURVE25519 || HAVE_CURVE448)
else if curve =? PSA_ECC_FAMILY_TWISTED_EDWARDS then available (HAVE_ED25519 || HAVE_ED448)
else PSA_ERROR_NOT_SUPPORTED.

Definition psa_asymmetric_check_key_type_supported (type : Z) : psa_status_t :=
if (type =? PSA_KEY_TYPE_RSA_KEY_PAIR) || (type =? PSA_KEY_TYPE_RSA_PUBLIC_KEY)
then available (negb NO_RSA)
else if PSA_KEY_TYPE_IS_ECC_KEY_PAIR type || PSA_KEY_TYPE_IS_ECC_PUBLIC_KEY type
then check_ecc_family_supported (PSA_KEY_TYPE_ECC_GET_FAMILY type)
else if is_pq type then psa_pq_check_key_type_supported type
else PSA_ERROR_NOT_SUPPORTED.

Definition check_ecc_size_valid (curve bits : Z) : psa_status_t :=
if curve =? PSA_ECC_FAMILY_SECP_R1 then
  if HAVE_ECC then
    if bits =? 192 then available HAVE_ECC192
    else if bits =? 224 then available HAVE_ECC224
    else if bits =? 256 then available HAVE_ECC256
    else if bits =? 384 then available HAVE_ECC384
    else if bits =? 521 then available HAVE_ECC521
    else PSA_ERROR_INVALID_ARGUMENT
  else PSA_ERROR_NOT_SUPPORTED
else if curve =? PSA_ECC_FAMILY_SECP_K1 then
  if HAVE_ECC && HAVE_ECC_KOBLITZ then
    if bits =? 192 then available HAVE_ECC192
    else if bits =? 224 then available HAVE_ECC224
    else if bits =? 256 then available HAVE_ECC256
    else PSA_ERROR_INVALID_ARGUMENT
  else PSA_ERROR_NOT_SUPPORTED
else if curve =? PSA_ECC_FAMILY_BRAINPOOL_P_R1 then
  if HAVE_ECC && HAVE_ECC_BRAINPOOL then one_of_sizes bits [256; 384; 512]
  else PSA_ERROR_NOT_SUPPORTED
else if curve =? PSA_ECC_FAMILY_MONTGOMERY then
  if HAVE_CURVE25519 || HAVE_CURVE448 then
    if bits =? 255 then available HAVE_CURVE25519
    else if bits =? 448 then available HAVE_CURVE448
    else PSA_ERROR_INVALID_ARGUMENT
  else PSA_ERROR_NOT_SUPPORTED
else if curve =? PSA_ECC_FAMILY_TWISTED_EDWARDS then
  if HAVE_ED25519 || HAVE_ED448 then
    if bits =? 255 then available HAVE_ED25519
    else if bits =? 448 then available HAVE_ED448
    else PSA_ERROR_INVALID_ARGUMENT
  else PSA_ERROR_NOT_SUPPORTED
else PSA_ERROR_NOT_SUPPORTED.

(** [bits] is a [size_t]. *)
Definition psa_asymmetric_check_key_size_valid (type bits : Z) : psa_status_t :=
if (type =? PSA_KEY_TYPE_RSA_KEY_PAIR) || (type =? PSA_KEY_TYPE_RSA_PUBLIC_KEY) then
  if negb NO_RSA then
    if (bits <? 2048) || (4096 <? bits) || negb (bits mod 8 =? 0)
    then PSA_ERROR_INVALID_ARGUMENT else PSA_SUCCESS
  else PSA_ERROR_NOT_SUPPORTED
else if PSA_KEY_TYPE_IS_ECC_KEY_PAIR type || PSA_KEY_TYPE_IS_ECC_PUBLIC_KEY type
then check_ecc_size_valid (PSA_KEY_TYPE_ECC_GET_FAMILY type) bits
else if is_pq type then psa_pq_check_key_size_valid type bits
else PSA_ERROR_NOT_SUPPORTED.

End SupportChecks.

(** * Facts *)

(** The two families of HashML-DSA: the first predicate admits both. *)
Lemma hash_ml_dsa_families alg :
  PSA_ALG_IS_HASH_ML_DSA alg
  = PSA_ALG_IS_HEDGED_HASH_ML_DSA alg || PSA_ALG_IS_DETERMINISTIC_HASH_ML_DSA alg.
Proof.
  unfold PSA_ALG_IS_HASH_ML_DSA, PSA_ALG_IS_HEDGED_HASH_ML_DSA, PSA_ALG_IS_DETERMINISTIC_HASH_ML_DSA.
  set (y := Z.land alg (Z.lnot 0xff)).
  assert (Hx : Z.land alg (Z.lnot 0x1ff) = Z.land y (Z.lnot 0x100)).
  { unfold y. by rewrite <- Z.land_assoc. }
  assert (Hy : y = Z.lor (Z.land y (Z.lnot 0x100)) (Z.land y 0x100)).
  { by rewrite <- Z.land_lor_distr_r, Z.land_m1_r. }
  rewrite Hx. destruct (Z.eqb_spec (Z.land y (Z.lnot 0x100)) 0x06004600) as [E|E].
  - rewrite E in Hy.
    assert (Hb : Z.land y 0x100 = 0 \/ Z.land y 0x100 = 0x100).
    { change 0x100 with (2 ^ 8). rewrite (Z.land_comm y). destruct (Z.testbit y 8) eqn:Hb.
      - right. apply Z.bits_inj'. intros n Hn. rewrite Z.land_spec, Z.pow2_bits_eqb by lia.
        destruct (Z.eqb_spec 8 n) as [<-|]; [by rewrite Hb|done].
      - left. apply Z.bits_inj'. intros n Hn. rewrite Z.land_spec, Z.pow2_bits_eqb, Z.bits_0 by lia.
        destruct (Z.eqb_spec 8 n) as [<-|]; [by rewrite Hb|done]. }
    destruct Hb as [Hb|Hb]; rewrite Hb in Hy; rewrite Hy; done.
  - symmetry. apply orb_false_intro; apply Z.eqb_neq; intros Ey; apply E; by rewrite Ey.
Qed.

(** ** Support checks *)

Section SupportFacts.
Context {C : Config}.

(** An ECC size that is valid is one of the curves of the import tables, and
    its family is supported. *)
Lemma check_ecc_size_valid_curve family bits :
check_ecc_size_valid family bits = PSA_SUCCESS ->
(family, bits) ∈ supported_curves /\ check_ecc_family_supported family = PSA_SUCCESS.
Proof.
unfold check_ecc_size_valid, check_ecc_family_supported, one_of_sizes, available. simpl.
intros H. repeat case_match; try done;
  repeat match goal with
  | H : (_ =? _) = true |- _ => apply Z.eqb_eq in H
  | H : _ || _ = true |- _ => apply orb_true_iff in H as [H|H]
  end; try done; subst;
  (split; [apply (bool_decide_unpack _); vm_compute; exact I|done]).
Qed.

Lemma psa_pq_size_valid_supported type bits :
psa_pq_check_key_size_valid type bits = PSA_SUCCESS ->
psa_pq_check_key_type_supported type = PSA_SUCCESS.
Proof.
unfold psa_pq_check_key_size_valid, psa_pq_check_key_type_supported.
by repeat case_match.
Qed.

(** A size is only valid for a key type that is supported. *)
Lemma key_size_valid_supported type bits :
psa_asymmetric_check_key_size_valid type bits = PSA_SUCCESS ->
psa_asymmetric_check_key_type_supported type = PSA_SUCCESS.
Proof.
unfold psa_asymmetric_check_key_size_valid, psa_asymmetric_check_key_type_supported.
repeat case_match; try done.
- by intros [_ H']%check_ecc_size_valid_curve.
- apply psa_pq_size_valid_supported.
Qed.

(** A size that is valid for a Weierstrass or Montgomery key has a curve of
    wolfCrypt: [wc_psa_get_ecc_curve_id] is total on the sizes the check
    accepts. *)
Lemma key_size_valid_curve_id {K : WolfCryptKeys} type bits :
ECC_CURVE_INVALID ∉ [ ECC_SECP192R1; ECC_SECP224R1; ECC_SECP256R1; ECC_SECP384R1;
  ECC_SECP521R1; ECC_SECP192K1; ECC_SECP224K1; ECC_SECP256K1; ECC_BRAINPOOLP256R1;
  ECC_BRAINPOOLP384R1; ECC_BRAINPOOLP512R1; ECC_X25519; ECC_X448 ] ->
PSA_KEY_TYPE_IS_ECC_KEY_PAIR type || PSA_KEY_TYPE_IS_ECC_PUBLIC_KEY type = true ->
psa_asymmetric_check_key_size_valid type bits = PSA_SUCCESS ->
PSA_KEY_TYPE_ECC_GET_FAMILY type <> PSA_ECC_FAMILY_TWISTED_EDWARDS ->
wc_psa_get_ecc_curve_id type bits <> ECC_CURVE_INVALID.
Proof.
rewrite !not_elem_of_cons. intros (?&?&?&?&?&?&?&?&?&?&?&?&?&_) Hecc Hok Hed.
assert (Hsize : check_ecc_size_valid (PSA_KEY_TYPE_ECC_GET_FAMILY type) bits = PSA_SUCCESS).
{ revert Hok. unfold psa_asymmetric_check_key_size_valid. rewrite Hecc.
  case_match eqn:Hrsa; [|done].
  by apply orb_true_iff in Hrsa as [->%Z.eqb_eq | ->%Z.eqb_eq]. }
clear Hok Hecc. unfold wc_psa_get_ecc_curve_id, check_ecc_size_valid, one_of_sizes, available in *. simpl in *.
repeat case_match; try done;
  rewrite ?andb_true_iff, ?andb_false_iff, ?orb_true_iff, ?orb_false_iff, ?Z.eqb_eq, ?Z.eqb_neq in *;
  intuition congruence.
Qed.

(** The size of P-256 hangs on a symbol of its own, the curve does not. *)
Lemma p256_size_needs_HAVE_ECC256 {K : WolfCryptKeys} type :
type = PSA_KEY_TYPE_ECC_KEY_PAIR PSA_ECC_FAMILY_SECP_R1 ->
wc_psa_get_ecc_curve_id type 256 = ECC_SECP256R1 /\
(psa_asymmetric_check_key_size_valid type 256 = PSA_SUCCESS <-> HAVE_ECC = true /\ HAVE_ECC256 = true).
Proof.
intros ->. split; [done|]. unfold psa_asymmetric_check_key_size_valid, check_ecc_size_valid, available.
simpl. destruct HAVE_ECC, HAVE_ECC256; intuition congruence.
Qed.

(** The dispatcher leaves out two of the public key types that
    [psa_pq_check_key_type_supported] accepts, and their sizes. *)
Lemma hss_and_xmss_mt_left_out type :
type = PSA_KEY_TYPE_HSS_PUBLIC_KEY \/ type = PSA_KEY_TYPE_XMSS_MT_PUBLIC_KEY ->
psa_asymmetric_check_key_type_supported type = PSA_ERROR_NOT_SUPPORTED /\
(forall bits, psa_asymmetric_check_key_size_valid type bits = PSA_ERROR_NOT_SUPPORTED) /\
(WOLFSSL_HAVE_LMS = true -> WOLFSSL_HAVE_XMSS = true ->
 psa_pq_check_key_type_supported type = PSA_SUCCESS /\
 psa_pq_check_key_size_valid type 256 = PSA_SUCCESS).
Proof.
intros [-> | ->]; (split; [done|]); (split; [done|]); intros HL HX;
  unfold psa_pq_check_key_type_supported, psa_pq_check_key_size_valid; rewrite ?HL, ?HX;
  by destruct WOLFSSL_HAVE_MLKEM, WOLFSSL_HAVE_MLDSA, WOLFSSL_HAVE_LMS.
Qed.

(** An algorithm that hashes and is supported names a hash of wolfCrypt. *)
Lemma check_hash_alg_type hash_alg :
check_hash_alg_supported hash_alg = PSA_SUCCESS ->
hash_alg ∈ [PSA_ALG_SHA_1; PSA_ALG_SHA_224; PSA_ALG_SHA_256; PSA_ALG_SHA_384; PSA_ALG_SHA_512].
Proof.
unfold check_hash_alg_supported, available. rewrite !elem_of_cons.
repeat case_match; try done; rewrite ?Z.eqb_eq in *; tauto.
Qed.

End SupportFacts.

(** With every feature on, a family and a size are valid exactly when the curve
    is in the import tables. *)
Lemma full_check_ecc_size_valid family bits :
  check_ecc_size_valid (C := full_config) family bits = PSA_SUCCESS <->
  (family, bits) ∈ supported_curves.
Proof.
  split; [by intros [H _]%check_ecc_size_valid_curve|].
  intros Hin. unfold supported_curves in Hin.
  repeat (apply elem_of_cons in Hin as [Hin|Hin]; [simplify_eq; reflexivity|]).
  by apply elem_of_nil in Hin.
Qed.
