(* ===== verification/WolfSign.v ===== *)
(** wolfCrypt's signature and asymmetric encryption primitives, as parameters
    with the laws that the theorems use, and the calls of a backend.

    A primitive is a function of what it is given: the encoded private key, a
    position of the random generator where it draws, the size of the output
    buffer.  It gives a return code (for RSA, a length or a negative code) and
    the bytes.  Validity of a signature is a predicate of each class of laws. *)

From stdpp Require Import base decidable list.
From Stdlib Require Import ZArith Lia.
From Stdlib Require Import Strings.Byte.
From S2P Require Import Prelude.
From S2P Require Import Values.
From S2P Require Import Engine.
From S2P Require Import WolfCrypt.
From S2P Require Import KeyFormat.
From S2P Require Import StoreIface.
From S2P Require Import Library.
From S2P Require Import KeyStore.
From S2P Require Import KeyStoreRules.
From S2P Require Import Operation.
From S2P Require Import KeyStoreInv.
From S2P Require Import KeyReaders.

#[local] Open Scope Z_scope.

(** * Calls *)

Section Calls.
Context {C : Config} {E : WolfCryptErr} {K : WolfCryptKeys} {R : WolfCryptRng}.
Context {O : StoreOps} {L : StoreLaws O} {B : KeyBackend} {Op : Type}.

Implicit Types s : opstate O Op.

(** A call with the result [r]; when it fails underneath, a negative code. *)
Definition wc_result {A} (r : Z * A) : M (opstate O Op) (Z * A) :=
ret ← wc_call;
mret (if ret <? 0 then (ret, r.2) else r).

(** A call that gives no more than its return code. *)
Definition wc_code (r : Z) : M (opstate O Op) Z :=
ret ← wc_call;
mret (if ret <? 0 then ret else r).
Definition wc_code_then (ret r : Z) : M (opstate O Op) Z :=
if ret =? 0 then wc_code r else mret ret.

(** [wc_InitRng_ex]: the return code, and where the generator stands. *)
Definition wc_rng : M (opstate O Op) (Z * nat) :=
n ← lib rng_draw;
mret (wc_InitRng_ex n, n).

Lemma wp_result {A} (r : Z * A) (Q : Z * A -> opstate O Op -> Prop) s :
(forall s', reads s s' -> Q r s') ->
(forall ret out s', reads s s' -> ret < 0 -> (ready s -> False) -> Q (ret, out) s') ->
wp (wc_result r) Q s.
Proof.
intros Hgood Hbad. unfold wc_result. apply wp_bind, wp_code. intros ret s' Hr Hz.
apply wp_ret. destruct (Z.ltb_spec ret 0); [|by apply Hgood].
apply Hbad; [done|done|]. intros Hs. specialize (Hz Hs). lia.
Qed.

Lemma wp_result_code (r : Z) (Q : Z -> opstate O Op -> Prop) s :
(forall s', reads s s' -> Q r s') ->
(forall ret s', reads s s' -> ret < 0 -> (ready s -> False) -> Q ret s') ->
wp (wc_code r) Q s.
Proof.
intros Hgood Hbad. unfold wc_code. apply wp_bind, wp_code. intros ret s' Hr Hz.
apply wp_ret. destruct (Z.ltb_spec ret 0); [|by apply Hgood].
apply Hbad; [done|done|]. intros Hs. specialize (Hz Hs). lia.
Qed.

Lemma wp_rng (Q : Z * nat -> opstate O Op -> Prop) s :
(forall n s', reads s s' -> Q (wc_InitRng_ex n, n) s') -> wp wc_rng Q s.
Proof.
intros HQ. unfold wc_rng. apply wp_bind, wp_lib. unfold wp, rng_draw. simpl.
apply HQ, reads_lib, settled_quiet; [by split|done].
Qed.

(** ** Rules

  [bwp m Post P]: from every state [m] reads only, and its result [r] meets
  [Post Q r], where [Q] says that nothing failed: [P] held before and the
  library served.  A failed call makes [Q] false. *)
Definition bwp {A} (m : M (opstate O Op) A) (Post : Prop -> A -> Prop) (P : Prop) : Prop :=
forall s, wp m (fun r s' => reads s s' /\ Post (P /\ ready s) r) s.

(** The less is promised, the less is due. *)
Definition lax {A} (Post : Prop -> A -> Prop) : Prop :=
forall (P P' : Prop) r, (P -> P') -> Post P' r -> Post P r.

Lemma bwp_ret {A} (r : A) (Post : Prop -> A -> Prop) (P : Prop) :
lax Post -> Post P r -> bwp (mret r) Post P.
Proof.
intros Hl Hp s. apply wp_ret. split; [apply reads_refl|]. eapply Hl; [|done]. by intros [? _].
Qed.

Lemma bwp_step {A A'} (m : M (opstate O Op) A') (k : A' -> M (opstate O Op) A)
  (Post : Prop -> A -> Prop) (P : Prop) :
lax Post ->
(forall s, wp m (fun a s1 => reads s s1 /\ exists Q, (P /\ ready s -> Q) /\ bwp (k a) Post Q) s) ->
bwp (a ← m; k a) Post P.
Proof.
intros Hl Hm s. apply wp_bind. eapply wp_mono; [apply Hm|]. intros a s1 (Hr & Q & HQ & Hk).
eapply wp_mono; [apply Hk|]. intros r s2 [Hr2 Hp]. split; [by eapply reads_trans|].
eapply Hl; [|done]. intros H. split; [auto|]. destruct Hr as (_ & _ & Hr). by apply Hr, H.
Qed.

Lemma bwp_bind {A A'} (m : M (opstate O Op) A') (k : A' -> M (opstate O Op) A)
  (Post1 : Prop -> A' -> Prop) (Post : Prop -> A -> Prop) (P : Prop) :
lax Post -> bwp m Post1 P -> (forall Q a, (Q -> P) -> Post1 Q a -> bwp (k a) Post Q) ->
bwp (a ← m; k a) Post P.
Proof.
intros Hl Hm Hk. apply bwp_step; [done|]. intros s. eapply wp_mono; [apply Hm|].
intros a s1 [Hr Hp]. split; [done|]. exists (P /\ ready s). split; [done|]. eapply Hk; [|done]. by intros [? _].
Qed.

Lemma bwp_mono {A} (m : M (opstate O Op) A) (Post Post' : Prop -> A -> Prop) (P : Prop) :
bwp m Post P -> (forall Q r, Post Q r -> Post' Q r) -> bwp m Post' P.
Proof. intros Hm Hp s. eapply wp_mono; [apply Hm|]. intros r s' [Hr H]. auto. Qed.

Lemma bwp_conseq {A} (m : M (opstate O Op) A) (Post Post' : Prop -> A -> Prop) (P : Prop) :
bwp m Post P -> (forall (Q : Prop) r, (Q -> P) -> Post Q r -> Post' Q r) -> bwp m Post' P.
Proof. intros Hm Hp s. eapply wp_mono; [apply Hm|]. intros r s' [Hr H]. split; [done|]. apply Hp; [by intros []|done]. Qed.

Lemma bwp_code {A} z (k : Z -> M (opstate O Op) A) (Post : Prop -> A -> Prop) (P : Prop) :
lax Post -> bwp (k z) Post P -> (forall ret, ret < 0 -> bwp (k ret) Post False) ->
bwp (ret ← wc_code z; k ret) Post P.
Proof.
intros Hl Hk Hf. apply bwp_step; [done|]. intros s. apply wp_result_code.
- intros s' Hr. split; [done|]. exists P. split; [by intros [? _]|done].
- intros ret s' Hr Hneg Hno. split; [done|]. exists False. split; [by intros [_ ?%Hno]|auto].
Qed.

Lemma bwp_result {A A'} (r : Z * A') (k : Z * A' -> M (opstate O Op) A) (Post : Prop -> A -> Prop) (P : Prop) :
lax Post -> bwp (k r) Post P -> (forall ret out, ret < 0 -> bwp (k (ret, out)) Post False) ->
bwp (r ← wc_result r; k r) Post P.
Proof.
intros Hl Hk Hf. apply bwp_step; [done|]. intros s. apply wp_result.
- intros s' Hr. split; [done|]. exists P. split; [by intros [? _]|done].
- intros ret out s' Hr Hneg Hno. split; [done|]. exists False. split; [by intros [_ ?%Hno]|auto].
Qed.

Lemma bwp_call {A} (k : Z -> M (opstate O Op) A) (Post : Prop -> A -> Prop) (P : Prop) :
lax Post -> bwp (k 0) Post P -> (forall ret, ret <> 0 -> bwp (k ret) Post False) ->
bwp (ret ← wc_call; k ret) Post P.
Proof.
intros Hl Hk Hf. apply bwp_step; [done|]. intros s. apply wp_code. intros ret s' Hr Hz.
split; [done|]. destruct (decide (ret = 0)) as [->|Hne].
- exists P. split; [by intros [? _]|done].
- exists False. split; [by intros [_ ?%Hz]|auto].
Qed.

Lemma bwp_rng {A} (k : Z * nat -> M (opstate O Op) A) (Post : Prop -> A -> Prop) (P : Prop) :
lax Post -> (forall n, bwp (k (wc_InitRng_ex n, n)) Post P) -> bwp (r ← wc_rng; k r) Post P.
Proof.
intros Hl Hk. apply bwp_step; [done|]. intros s. apply wp_rng. intros n s' Hr. split; [done|].
exists P. split; [by intros [? _]|done].
Qed.

Lemma bwp_alloc {A} n (k : bool -> M (opstate O Op) A) (Post : Prop -> A -> Prop) (P : Prop) :
lax Post -> bwp (k true) Post P -> bwp (k false) Post False ->
bwp (ok ← lib (XMALLOC n); k ok) Post P.
Proof.
intros Hl Hk Hf. apply bwp_step; [done|]. intros s. apply wp_alloc. intros b s' Hr Hb. split; [done|].
destruct b; [exists P; by split; [intros [? _]|]|]. exists False. split; [by intros [_ ?%Hb]|done].
Qed.

Lemma bwp_weaken {A} (m : M (opstate O Op) A) (Post : Prop -> A -> Prop) (P P' : Prop) :
lax Post -> bwp m Post P' -> (P -> P') -> bwp m Post P.
Proof.
intros Hl Hm Hp s. eapply wp_mono; [apply Hm|]. intros r s' [Hr H]. split; [done|].
eapply Hl; [|done]. intros [? ?]. auto.
Qed.

Lemma bwp_ret_bind {A A'} (a : A') (k : A' -> M (opstate O Op) A) (Post : Prop -> A -> Prop) (P : Prop) :
bwp (k a) Post P -> bwp (a ← mret a; k a) Post P.
Proof. intros Hk s. apply wp_bind, wp_ret, Hk. Qed.

Lemma bwp_assoc {A A1 A2} (m : M (opstate O Op) A1) (f : A1 -> M (opstate O Op) A2)
  (k : A2 -> M (opstate O Op) A) (Post : Prop -> A -> Prop) (P : Prop) :
bwp (a ← m; b ← f a; k b) Post P -> bwp (b ← (a ← m; f a); k b) Post P.
Proof. intros Hk s. unfold wp. rewrite bind_assoc. apply Hk. Qed.

Lemma bwp_code_then {A} ret r (k : Z -> M (opstate O Op) A) (Post : Prop -> A -> Prop) (P : Prop) :
lax Post -> (ret = 0 -> r = 0 -> bwp (k 0) Post P) ->
(forall ret' (Q : Prop), ret' <> 0 -> (Q -> P) -> (Q -> ret = 0 -> r = 0 -> False) -> bwp (k ret') Post Q) ->
bwp (ret' ← wc_code_then ret r; k ret') Post P.
Proof.
intros Hl Hgood Hbad. unfold wc_code_then. destruct (Z.eqb_spec ret 0) as [Hz|Hz].
- apply bwp_code; [done| |].
  + destruct (decide (r = 0)) as [->|Hne]; [by apply Hgood|]. by apply Hbad; [done|auto|].
  + intros ret' Hneg. apply Hbad; [lia|by intros []|by intros []].
- apply bwp_ret_bind. by apply Hbad; [done|auto|].
Qed.

(** The pattern [if (ret != 0) return wc_error_to_psa_status(ret);] after a call. *)
Context {EO : WolfCryptErrOk E}.

Lemma bwp_check_call {A} (fail : psa_status_t -> A) (k : M (opstate O Op) A)
  (Post : Prop -> A -> Prop) (P : Prop) :
lax Post -> (forall e, e <> PSA_SUCCESS -> Post False (fail e)) -> bwp k Post P ->
bwp (ret ← wc_call;
     if negb (ret =? 0) then mret (fail (wc_error_to_psa_status ret)) else k) Post P.
Proof.
intros Hl Hf Hk. apply bwp_call; [done|done|]. intros ret Hne.
rewrite (proj2 (Z.eqb_neq ret 0)) by done. apply bwp_ret; [done|]. apply Hf. by rewrite wc_error_success.
Qed.

Lemma bwp_check_code {A} (fail : psa_status_t -> A) z (k : M (opstate O Op) A)
  (Post : Prop -> A -> Prop) (P : Prop) :
lax Post -> (forall e, e <> PSA_SUCCESS -> Post False (fail e)) ->
(z <> 0 -> forall e, e <> PSA_SUCCESS -> Post P (fail e)) -> (z = 0 -> bwp k Post P) ->
bwp (ret ← wc_code z;
     if negb (ret =? 0) then mret (fail (wc_error_to_psa_status ret)) else k) Post P.
Proof.
intros Hl Hf Hz Hk. apply bwp_code; [done| |].
- destruct (Z.eqb_spec z 0) as [->|Hne]; cbn [negb]; [auto|]. apply bwp_ret; [done|].
  apply Hz; [done|]. by rewrite wc_error_success.
- intros ret Hneg. rewrite (proj2 (Z.eqb_neq ret 0)) by lia. apply bwp_ret; [done|].
  apply Hf. rewrite wc_error_success. lia.
Qed.

Lemma bwp_check_rng {A} (fail : psa_status_t -> A) (k : nat -> M (opstate O Op) A)
  (Post : Prop -> A -> Prop) (P : Prop) :
lax Post -> (forall e n, wc_InitRng_ex n <> 0 -> e <> PSA_SUCCESS -> Post P (fail e)) ->
(forall n, bwp (k n) Post P) ->
bwp ('(ret, n) ← wc_rng;
     if negb (ret =? 0) then mret (fail (wc_error_to_psa_status ret)) else k n) Post P.
Proof.
intros Hl Hf Hk. apply bwp_rng; [done|]. intros n.
destruct (Z.eqb_spec (wc_InitRng_ex n) 0) as [_|Hne]; cbn [negb]; [done|].
apply bwp_ret; [done|]. apply (Hf _ n); [done|]. by rewrite wc_error_success.
Qed.

Lemma wc_negative : BAD_FUNC_ARG < 0 /\ NOT_COMPILED_IN < 0 /\ SIG_VERIFY_E < 0 /\ BUFFER_E < 0.
Proof.
pose proof wc_codes_negative as H. unfold wc_codes in H. rewrite !Forall_cons in H. intuition lia.
Qed.

Lemma null_empty_length (i : input) :
(is_null i = true -> input_length i = 0) -> input_length i = zlen (input_bytes i).
Proof. destruct i; [|done]. intros H. by apply H. Qed.

(** What backends promise: a status, or a status with bytes. *)
Definition verdict_post (V A : Prop) (P : Prop) (st : psa_status_t) : Prop :=
(st = PSA_SUCCESS -> V) /\ (P -> A -> V -> st = PSA_SUCCESS).

Definition bytes_post (Good : list byte -> Prop) (Q : Prop) (r : psa_status_t * list byte) : Prop :=
(r.1 = PSA_SUCCESS -> Good r.2) /\ (r.1 <> PSA_SUCCESS -> r.2 = []).

Lemma verdict_lax V A : lax (verdict_post V A).
Proof. intros P P' st Hp [H1 H2]. split; auto. Qed.

Lemma verdict_no (V A P : Prop) e :
e <> PSA_SUCCESS -> (P -> A -> V -> False) -> verdict_post V A P e.
Proof. intros He Hno. split; [done|]. intros. by destruct Hno. Qed.

Lemma bytes_lax Good : lax (bytes_post Good).
Proof. intros P P' r _ H. exact H. Qed.

(** The end of a verification: a return code and a verdict. *)
Lemma bwp_check_verdict (r : Z * Z) (V A P : Prop) :
(r = (0, 1) <-> V) ->
bwp ('(ret, verify_res) ← wc_result r;
     mret (if negb (ret =? 0) then wc_error_to_psa_status ret
           else if negb (verify_res =? 1) then PSA_ERROR_INVALID_SIGNATURE
           else PSA_SUCCESS)) (verdict_post V A) P.
Proof.
intros Hr. assert (Hl : lax (verdict_post V A)) by apply verdict_lax.
assert (Hend : forall ret res (Q : Prop), (Q -> V -> (ret, res) = (0, 1)) -> ((ret, res) = (0, 1) -> V) ->
  bwp (mret (if negb (ret =? 0) then wc_error_to_psa_status ret
        else if negb (res =? 1) then PSA_ERROR_INVALID_SIGNATURE else PSA_SUCCESS)) (verdict_post V A) Q).
{ intros ret res Q Hc Hs. apply bwp_ret; [done|].
  destruct (Z.eqb_spec ret 0) as [->|Hne]; cbn [negb].
  2: { apply verdict_no; [by rewrite wc_error_success|]. intros HP _ Hv. by specialize (Hc HP Hv) as [= -> _]. }
  destruct (Z.eqb_spec res 1) as [->|Hne]; cbn [negb]; [by split; auto|].
  apply verdict_no; [done|]. intros HP _ Hv. by specialize (Hc HP Hv) as [= ->]. }
apply bwp_result; [done| |].
- destruct r as [ret res]. apply Hend; [intros _|]; apply Hr.
- intros ret res Hneg. apply Hend; [by intros []|]. intros [= -> _]. done.
Qed.

Lemma bytes_no Good P e : e <> PSA_SUCCESS -> bytes_post Good P (e, []).
Proof. by split. Qed.
End Calls.

(** * RSA *)

(** The mask generation functions that the code names. *)
Inductive wc_Mgf : Set :=
| WC_MGF1NONE
| WC_MGF1SHA1
| WC_MGF1SHA224
| WC_MGF1SHA256
| WC_MGF1SHA384
| WC_MGF1SHA512
| WC_MGF1SHA512_224
| WC_MGF1SHA512_256.

#[global] Instance wc_Mgf_eq_dec : EqDecision wc_Mgf.
Proof. solve_decision. Defined.

(** A public key is modulus and exponent; a private one, its encoding. *)
Class WolfCryptRsa (K : WolfCryptKeys) : Type := {
  PSS_SALTLEN_E : Z;
  RSA_OUT_OF_RANGE_E : Z;
  WC_RSA_PKCSV15_PAD : Z;
  WC_RSA_OAEP_PAD : Z;
  WC_RSA_PSS_PAD : Z;
  RSA_PSS_SALT_LEN_DEFAULT : Z;
  RSA_PSS_SALT_LEN_DISCOVER : Z;
  MAX_DER_DIGEST_ASN_SZ : Z;
  RSA_MAX_SIZE : Z;
  wc_GetCTC_HashOID : wc_HashType -> Z;
  (** digest, OID; nothing when it fails *)
  wc_EncodeSignature : list byte -> Z -> list byte;
  wc_RsaEncryptSize : mp_int * mp_int -> Z;
  wc_RsaSSL_Sign : nat -> list byte -> list byte -> Z -> Z * list byte;
  wc_RsaPSS_Sign : nat -> list byte -> list byte -> Z -> wc_HashType -> wc_Mgf -> Z * list byte;
  (** public key, signature, buffer size *)
  wc_RsaSSL_Verify_ex : mp_int * mp_int -> list byte -> Z -> Z * list byte;
  wc_RsaSSL_Verify_ex2 : mp_int * mp_int -> list byte -> Z -> wc_HashType -> Z * list byte;
  wc_RsaPSS_Verify_ex : mp_int * mp_int -> list byte -> Z -> wc_HashType -> wc_Mgf -> Z ->
    Z * list byte;
  (** hash, encoded message, hash type, salt length, bits of the modulus *)
  wc_RsaPSS_CheckPadding : list byte -> list byte -> wc_HashType -> Z -> Z -> Z;
  (** input, buffer size *)
  wc_RsaPublicEncrypt : nat -> mp_int * mp_int -> input -> Z -> Z * list byte;
  wc_RsaPublicEncrypt_ex : nat -> mp_int * mp_int -> input -> Z -> wc_HashType -> wc_Mgf -> input ->
    Z * list byte;
  wc_RsaPrivateDecrypt : list byte -> input -> Z -> Z * list byte;
  wc_RsaPrivateDecrypt_ex : list byte -> input -> Z -> wc_HashType -> wc_Mgf -> input ->
    Z * list byte }.

(** [pkcs1_sig pub m sig]: unpadded, [sig] is [m]; [pss_sig] with a salt length,
    and with any salt for [RSA_PSS_SALT_LEN_DISCOVER]. *)
Class WolfCryptRsaOk (K : WolfCryptKeys) (W : WolfCryptRsa K) : Type := {
  pkcs1_sig : mp_int * mp_int -> list byte -> list byte -> Prop;
  pss_sig : mp_int * mp_int -> wc_HashType -> wc_Mgf -> Z -> list byte -> list byte -> Prop;
  pkcs1_enc : mp_int * mp_int -> list byte -> list byte -> Prop;
  oaep_enc : mp_int * mp_int -> wc_HashType -> wc_Mgf -> list byte -> list byte -> list byte -> Prop;
  rsa_pads_distinct : NoDup [WC_RSA_PKCSV15_PAD; WC_RSA_OAEP_PAD; WC_RSA_PSS_PAD];
  rsa_size_positive der idx pub :
    wc_RsaPrivateKeyDecode der = (0, (idx, pub)) -> 0 < wc_RsaEncryptSize pub;
  rsa_ssl_sign n der idx pub m sz ret out :
    wc_RsaPrivateKeyDecode der = (0, (idx, pub)) ->
    wc_RsaSSL_Sign n der m sz = (ret, out) -> 0 <= ret ->
    ret = zlen out /\ ret = wc_RsaEncryptSize pub /\ 0 < ret <= sz /\ pkcs1_sig pub m out;
  rsa_pss_sign n der idx pub h sz ht mgf ret out :
    wc_RsaPrivateKeyDecode der = (0, (idx, pub)) ->
    wc_RsaPSS_Sign n der h sz ht mgf = (ret, out) -> 0 <= ret ->
    ret = zlen out /\ ret = wc_RsaEncryptSize pub /\ 0 < ret <= sz /\
    pss_sig pub ht mgf RSA_PSS_SALT_LEN_DEFAULT h out;
  pss_any_salt pub ht mgf h sig :
    pss_sig pub ht mgf RSA_PSS_SALT_LEN_DEFAULT h sig ->
    pss_sig pub ht mgf RSA_PSS_SALT_LEN_DISCOVER h sig;
  rsa_ssl_verify pub sig sz ret out :
    wc_RsaSSL_Verify_ex pub sig sz = (ret, out) -> 0 <= ret ->
    ret = zlen out /\ pkcs1_sig pub out sig;
  rsa_ssl_verify_complete pub m sig sz :
    pkcs1_sig pub m sig -> zlen sig = wc_RsaEncryptSize pub -> zlen sig <= sz ->
    wc_RsaSSL_Verify_ex pub sig sz = (zlen m, m);
  rsa_ssl_verify2 pub sig sz ht : wc_RsaSSL_Verify_ex2 pub sig sz ht = wc_RsaSSL_Verify_ex pub sig sz;
  rsa_pss_verify pub sig sz ht mgf salt h ret enc :
    wc_RsaPSS_Verify_ex pub sig sz ht mgf salt = (ret, enc) -> 0 < ret ->
    wc_RsaPSS_CheckPadding h (take (Z.to_nat ret) enc) ht salt (mp_count_bits pub.1) = 0 ->
    pss_sig pub ht mgf salt h sig;
  rsa_pss_verify_complete pub sig sz ht mgf salt h :
    pss_sig pub ht mgf salt h sig -> zlen sig = wc_RsaEncryptSize pub -> zlen sig <= sz ->
    exists enc, wc_RsaPSS_Verify_ex pub sig sz ht mgf salt = (zlen enc, enc) /\ 0 < zlen enc /\
      wc_RsaPSS_CheckPadding h enc ht salt (mp_count_bits pub.1) = 0;
  rsa_encrypt n pub m sz ret out :
    wc_RsaPublicEncrypt n pub m sz = (ret, out) -> 0 <= ret ->
    ret = zlen out /\ 0 < ret <= sz /\ pkcs1_enc pub (input_bytes m) out;
  rsa_encrypt_oaep n pub m sz ht mgf label ret out :
    wc_RsaPublicEncrypt_ex n pub m sz ht mgf label = (ret, out) -> 0 <= ret ->
    ret = zlen out /\ 0 < ret <= sz /\ oaep_enc pub ht mgf (input_bytes label) (input_bytes m) out;
  rsa_decrypt der idx pub c sz ret out :
    wc_RsaPrivateKeyDecode der = (0, (idx, pub)) ->
    wc_RsaPrivateDecrypt der c sz = (ret, out) -> 0 <= ret ->
    ret = zlen out /\ pkcs1_enc pub out (input_bytes c);
  rsa_decrypt_complete der idx pub m c :
    wc_RsaPrivateKeyDecode der = (0, (idx, pub)) -> pkcs1_enc pub m c ->
    wc_RsaPrivateDecrypt der (Bytes c) (wc_RsaEncryptSize pub) = (zlen m, m);
  rsa_decrypt_oaep der idx pub c sz ht mgf label ret out :
    wc_RsaPrivateKeyDecode der = (0, (idx, pub)) ->
    wc_RsaPrivateDecrypt_ex der c sz ht mgf label = (ret, out) -> 0 <= ret ->
    ret = zlen out /\ oaep_enc pub ht mgf (input_bytes label) out (input_bytes c);
  rsa_decrypt_oaep_complete der idx pub ht mgf label m c :
    wc_RsaPrivateKeyDecode der = (0, (idx, pub)) -> oaep_enc pub ht mgf (input_bytes label) m c ->
    (is_null label = true -> input_length label = 0) ->
    wc_RsaPrivateDecrypt_ex der (Bytes c) (wc_RsaEncryptSize pub) ht mgf label = (zlen m, m) }.
