(* ===== verification/WolfPkc.v ===== *)
(** wolfCrypt's elliptic-curve, Edwards-curve, ML-DSA, LMS and XMSS signatures, as
    parameters with the laws that the theorems use; conventions as in
    [WolfSign.v].  Each class of laws has its predicate of valid signatures. *)

From stdpp Require Import base decidable list.
From Stdlib Require Import ZArith Lia.
From Stdlib Require Import Strings.Byte.
From S2P Require Import Prelude.
From S2P Require Import Values.
From S2P Require Import Engine.
From S2P Require Import WolfCrypt.
From S2P Require Import KeyFormat.
From S2P Require Import Operation.

#[local] Open Scope Z_scope.

(** * ECDSA *)

(** A loaded [ecc_key] is its curve and its public point: of a private key
    ([wc_ecc_make_pub_ex]) or of an X9.63 encoding.  [wc_ecc_sign_hash] takes the
    hash of deterministic mode where that is set. *)
Class WolfCryptEcc : Type := {
  ecc_point : Type;
  ecc_private_point : list byte -> Z -> ecc_point;
  ecc_x963_point : list byte -> Z -> ecc_point;
  wc_ecc_make_pub_ex : list byte -> Z -> Z;
  wc_ecc_set_deterministic_ex : wc_HashType -> Z;
  wc_ecc_sig_size : Z -> Z;
  (** position, deterministic mode, private key, curve, hash, buffer size *)
  wc_ecc_sign_hash : nat -> option wc_HashType -> list byte -> Z -> list byte -> Z -> Z * list byte;
  (** DER signature, buffer sizes for r and s *)
  wc_ecc_sig_to_rs : list byte -> Z -> Z -> Z * (list byte * list byte);
  (** r, s, buffer size *)
  wc_ecc_rs_raw_to_sig : list byte -> list byte -> Z -> Z * list byte;
  (** DER signature, hash, curve, point: return code and verdict *)
  wc_ecc_verify_hash : list byte -> list byte -> Z -> ecc_point -> Z * Z }.

(** [der_rs der r s]: the bytes encode the two integers. *)
Class WolfCryptEccOk (K : WolfCryptKeys) (W : WolfCryptEcc) : Type := {
  ecdsa : Z -> ecc_point -> list byte -> Z -> Z -> Prop;
  der_rs : list byte -> Z -> Z -> Prop;
  ecc_sign n det key curve h sz der :
    wc_ecc_import_private_key_ex key curve = 0 ->
    wc_ecc_sign_hash n det key curve h sz = (0, der) ->
    exists r s, der_rs der r s /\ ecdsa curve (ecc_private_point key curve) h r s;
  ecc_split der r s rl sl rb sb :
    der_rs der r s -> wc_ecc_sig_to_rs der rl sl = (0, (rb, sb)) -> be_val rb = r /\ be_val sb = s;
  ecc_join rb sb sz der :
    wc_ecc_rs_raw_to_sig rb sb sz = (0, der) -> der_rs der (be_val rb) (be_val sb);
  ecc_join_complete curve p h rb sb :
    ecdsa curve p h (be_val rb) (be_val sb) ->
    (wc_ecc_rs_raw_to_sig rb sb (wc_ecc_sig_size curve)).1 = 0;
  ecc_verify der h curve p r s :
    der_rs der r s -> wc_ecc_verify_hash der h curve p = (0, 1) -> ecdsa curve p h r s;
  ecc_verify_complete der h curve p r s :
    der_rs der r s -> ecdsa curve p h r s -> wc_ecc_verify_hash der h curve p = (0, 1) }.

(** * Ed25519 and Ed448 *)

(** A loaded key is its public key, which [wc_ed25519_make_public] computes of a
    private one and [wc_ed25519_import_public] reads.  A context is NULL when it is
    empty. *)
Class WolfCryptEdwards : Type := {
  Ed25519 : Z;
  Ed25519ctx : Z;
  wc_ed25519_import_private_only : list byte -> Z;
  wc_ed25519_make_public : list byte -> Z * list byte;
  wc_ed25519_import_public : list byte -> Z * list byte;
  (** private key, message, buffer size, variant, context *)
  wc_ed25519_sign_msg_ex : list byte -> list byte -> Z -> Z -> list byte -> Z * list byte;
  wc_ed25519ph_sign_hash : list byte -> list byte -> Z -> list byte -> Z * list byte;
  (** public key, signature, message, variant, context *)
  wc_ed25519_verify_msg_ex : list byte -> list byte -> list byte -> Z -> list byte -> Z * Z;
  wc_ed25519ph_verify_hash : list byte -> list byte -> list byte -> list byte -> Z * Z;
  wc_ed448_import_private_only : list byte -> Z;
  wc_ed448_make_public : list byte -> Z * list byte;
  wc_ed448_import_public : list byte -> Z * list byte;
  wc_ed448_sign_msg : list byte -> list byte -> Z -> list byte -> Z * list byte;
  wc_ed448ph_sign_hash : list byte -> list byte -> Z -> list byte -> Z * list byte;
  wc_ed448_verify_msg : list byte -> list byte -> list byte -> list byte -> Z * Z;
  wc_ed448ph_verify_hash : list byte -> list byte -> list byte -> list byte -> Z * Z }.

(** The schemes of RFC 8032 that the code uses. *)
Inductive ed_scheme : Set :=
| SchemeEd25519
| SchemeEd25519ctx
| SchemeEd25519ph
| SchemeEd448
| SchemeEd448ph.

Definition ed_sign_call {W : WolfCryptEdwards} (v : ed_scheme) (key msg ctx : list byte) (size : Z)
  : Z * list byte :=
  match v with
  | SchemeEd25519 => wc_ed25519_sign_msg_ex key msg size Ed25519 ctx
  | SchemeEd25519ctx => wc_ed25519_sign_msg_ex key msg size Ed25519ctx ctx
  | SchemeEd25519ph => wc_ed25519ph_sign_hash key msg size ctx
  | SchemeEd448 => wc_ed448_sign_msg key msg size ctx
  | SchemeEd448ph => wc_ed448ph_sign_hash key msg size ctx
  end.
Definition ed_verify_call {W : WolfCryptEdwards} (v : ed_scheme) (pub sig msg ctx : list byte) : Z * Z :=
  match v with
  | SchemeEd25519 => wc_ed25519_verify_msg_ex pub sig msg Ed25519 ctx
  | SchemeEd25519ctx => wc_ed25519_verify_msg_ex pub sig msg Ed25519ctx ctx
  | SchemeEd25519ph => wc_ed25519ph_verify_hash pub sig msg ctx
  | SchemeEd448 => wc_ed448_verify_msg pub sig msg ctx
  | SchemeEd448ph => wc_ed448ph_verify_hash pub sig msg ctx
  end.
Definition ed_is_448 (v : ed_scheme) : bool :=
  match v with SchemeEd448 | SchemeEd448ph => true | _ => false end.
Definition ed_make_public {W : WolfCryptEdwards} (is_448 : bool) (key : list byte) : Z * list byte :=
  if is_448 then wc_ed448_make_public key else wc_ed25519_make_public key.

(** The laws are those of one scheme; [ed_valid] is RFC 8032's. *)
Class WolfCryptEdwardsOk (W : WolfCryptEdwards) : Type := {
  (** scheme, public key, context, message, signature *)
  ed_valid : ed_scheme -> list byte -> list byte -> list byte -> list byte -> Prop;
  ed_sign v key pub ctx msg size sig :
    ed_make_public (ed_is_448 v) key = (0, pub) -> ed_sign_call v key msg ctx size = (0, sig) ->
    ed_valid v pub ctx msg sig /\ 0 < zlen sig <= size;
  ed_verify v pub ctx msg sig :
    ed_verify_call v pub sig msg ctx = (0, 1) -> ed_valid v pub ctx msg sig;
  ed_verify_complete v pub ctx msg sig :
    ed_valid v pub ctx msg sig -> ed_verify_call v pub sig msg ctx = (0, 1);
  ed_valid_length v pub ctx msg sig :
    ed_valid v pub ctx msg sig -> zlen sig = if ed_is_448 v then 114 else 64 }.

(** * ML-DSA *)

(** A key is its level with the seed, or with the raw public key. *)
Class WolfCryptMlDsa : Type := {
  WC_ML_DSA_44 : Z;
  WC_ML_DSA_65 : Z;
  WC_ML_DSA_87 : Z;
  wc_MlDsaKey_SetParams : Z -> Z;
  wc_MlDsaKey_MakeKeyFromSeed : Z -> list byte -> Z * list byte;
  wc_MlDsaKey_SigSize : Z -> Z;
  wc_MlDsaKey_ImportPubRaw : Z -> list byte -> Z;
  (** position, level, seed, context, message, buffer size *)
  wc_MlDsaKey_SignCtx : nat -> Z -> list byte -> list byte -> list byte -> Z -> Z * list byte;
  wc_MlDsaKey_SignCtxHash : nat -> Z -> list byte -> list byte -> list byte -> wc_HashType -> Z ->
    Z * list byte;
  (** level, seed, context, message, randomness, buffer size *)
  wc_MlDsaKey_SignCtxWithSeed : Z -> list byte -> list byte -> list byte -> list byte -> Z -> Z * list byte;
  wc_MlDsaKey_SignCtxHashWithSeed : Z -> list byte -> list byte -> list byte -> wc_HashType -> list byte -> Z ->
    Z * list byte;
  (** level, public key, signature, context, message *)
  wc_MlDsaKey_VerifyCtx : Z -> list byte -> list byte -> list byte -> list byte -> Z * Z;
  wc_MlDsaKey_VerifyCtxHash : Z -> list byte -> list byte -> list byte -> list byte -> wc_HashType -> Z * Z }.

(** Valid by FIPS 204: level, public key, the hash of HashML-DSA, context,
    message or digest, signature. *)
Class WolfCryptMlDsaOk (W : WolfCryptMlDsa) : Type := {
  mldsa_valid : Z -> list byte -> option wc_HashType -> list byte -> list byte -> list byte -> Prop;
  mldsa_sign_ctx n lvl seed pub ctx m sz sig :
    wc_MlDsaKey_MakeKeyFromSeed lvl seed = (0, pub) ->
    wc_MlDsaKey_SignCtx n lvl seed ctx m sz = (0, sig) ->
    mldsa_valid lvl pub None ctx m sig /\ 0 < zlen sig <= sz;
  mldsa_sign_seed lvl seed pub ctx m rnd sz sig :
    wc_MlDsaKey_MakeKeyFromSeed lvl seed = (0, pub) ->
    wc_MlDsaKey_SignCtxWithSeed lvl seed ctx m rnd sz = (0, sig) ->
    mldsa_valid lvl pub None ctx m sig /\ 0 < zlen sig <= sz;
  mldsa_sign_hash n lvl seed pub ctx m h sz sig :
    wc_MlDsaKey_MakeKeyFromSeed lvl seed = (0, pub) ->
    wc_MlDsaKey_SignCtxHash n lvl seed ctx m h sz = (0, sig) ->
    mldsa_valid lvl pub (Some h) ctx m sig /\ 0 < zlen sig <= sz;
  mldsa_sign_hash_seed lvl seed pub ctx m h rnd sz sig :
    wc_MlDsaKey_MakeKeyFromSeed lvl seed = (0, pub) ->
    wc_MlDsaKey_SignCtxHashWithSeed lvl seed ctx m h rnd sz = (0, sig) ->
    mldsa_valid lvl pub (Some h) ctx m sig /\ 0 < zlen sig <= sz;
  mldsa_verify_ctx lvl pub sig ctx m :
    wc_MlDsaKey_VerifyCtx lvl pub sig ctx m = (0, 1) -> mldsa_valid lvl pub None ctx m sig;
  mldsa_verify_ctx_complete lvl pub sig ctx m :
    mldsa_valid lvl pub None ctx m sig -> wc_MlDsaKey_VerifyCtx lvl pub sig ctx m = (0, 1);
  mldsa_verify_hash lvl pub sig ctx m h :
    wc_MlDsaKey_VerifyCtxHash lvl pub sig ctx m h = (0, 1) -> mldsa_valid lvl pub (Some h) ctx m sig;
  mldsa_verify_hash_complete lvl pub sig ctx m h :
    mldsa_valid lvl pub (Some h) ctx m sig -> wc_MlDsaKey_VerifyCtxHash lvl pub sig ctx m h = (0, 1);
  mldsa_valid_length lvl pub h ctx m sig : mldsa_valid lvl pub h ctx m sig -> zlen sig <= 4627 }.

(** * LMS and XMSS *)

(** Verification takes the message with its size as an [int]. *)
Class WolfCryptStateful : Type := {
  wc_LmsKey_ImportPubRaw : list byte -> Z;
  (** public key, signature, message, size *)
  wc_LmsKey_Verify : list byte -> list byte -> list byte -> Z -> Z;
  (** public key, [is_xmssmt] *)
  wc_XmssKey_ImportPubRaw_ex : list byte -> bool -> Z;
  wc_XmssKey_Verify : list byte -> bool -> list byte -> list byte -> Z -> Z }.

Class WolfCryptStatefulOk (W : WolfCryptStateful) : Type := {
  lms_valid : list byte -> list byte -> list byte -> Prop;
  (** [is_xmssmt], public key, message, signature *)
  xmss_valid : bool -> list byte -> list byte -> list byte -> Prop;
  lms_valid_length pub m sig : lms_valid pub m sig -> zlen sig <= UINT32_MAX;
  xmss_valid_length mt pub m sig : xmss_valid mt pub m sig -> zlen sig <= UINT32_MAX;
  lms_verifies pub sig m : zlen m <= UINT32_MAX ->
    wc_LmsKey_Verify pub sig m (to_int (zlen m)) = 0 -> lms_valid pub m sig;
  lms_verify_complete pub sig m : zlen m <= INT_MAX ->
    lms_valid pub m sig -> wc_LmsKey_Verify pub sig m (to_int (zlen m)) = 0;
  xmss_verifies mt pub sig m : zlen m <= UINT32_MAX ->
    wc_XmssKey_Verify pub mt sig m (to_int (zlen m)) = 0 -> xmss_valid mt pub m sig;
  xmss_verify_complete mt pub sig m : zlen m <= INT_MAX ->
    xmss_valid mt pub m sig -> wc_XmssKey_Verify pub mt sig m (to_int (zlen m)) = 0;
  xmss_valid_imports mt pub m sig : xmss_valid mt pub m sig -> wc_XmssKey_ImportPubRaw_ex pub mt = 0 }.
