(* ===== verification/SignIface.v ===== *)
(** The interface between the asymmetric API ([src/psa_asymmetric_api.c]) and its
    backends: the class [SignBackend] of the operations that the API calls, and
    the class [SignBackendOk] of what it may rely on.

    A backend call works for a running operation ([opstate]); it may read nothing
    of the library but the random generator.  What a signature states is a
    [claim]: the public part of the key, the algorithm, the context and the input
    of the algorithm (a digest for a hash-and-sign algorithm, the message for the
    others). *)

From stdpp Require Import base decidable list.
From Stdlib Require Import ZArith Lia.
From Stdlib Require Import Strings.Byte.
From S2P Require Import Prelude.
From S2P Require Import Values.
From S2P Require Import Engine.
From S2P Require Import KeyFormat.
From S2P Require Import StoreIface.
From S2P Require Import Library.
From S2P Require Import KeyStore.
From S2P Require Import KeyStoreRules.
From S2P Require Import Operation.
From S2P Require Import KeyReaders.
From S2P Require Import AsymValues.

#[local] Open Scope Z_scope.

(** Key type, bits, key data and algorithm come first, as in the code; then the
    input; for a signing call, whether the buffer is not NULL and its size.  A
    signature to verify is never NULL or empty: the API answers that itself. *)
Class SignBackend (O : StoreOps) (Op : Type) : Type := {
  sign_rsa : Z -> Z -> list byte -> Z -> input -> bool -> Z ->
    M (opstate O Op) (psa_status_t * list byte);
  verify_rsa : Z -> Z -> list byte -> Z -> input -> list byte -> M (opstate O Op) psa_status_t;
  (** input, salt *)
  encrypt_rsa : Z -> Z -> list byte -> Z -> input -> input -> bool -> Z ->
    M (opstate O Op) (psa_status_t * list byte);
  decrypt_rsa : Z -> Z -> list byte -> Z -> input -> input -> bool -> Z ->
    M (opstate O Op) (psa_status_t * list byte);
  sign_ecc : Z -> Z -> list byte -> Z -> input -> bool -> Z ->
    M (opstate O Op) (psa_status_t * list byte);
  verify_ecc : Z -> Z -> list byte -> Z -> input -> list byte -> M (opstate O Op) psa_status_t;
  (** input, buffer, size, context *)
  sign_ed25519 : Z -> Z -> list byte -> Z -> input -> bool -> Z -> input ->
    M (opstate O Op) (psa_status_t * list byte);
  verify_ed25519 : Z -> Z -> list byte -> Z -> input -> list byte -> input ->
    M (opstate O Op) psa_status_t;
  sign_ed448 : Z -> Z -> list byte -> Z -> input -> bool -> Z -> input ->
    M (opstate O Op) (psa_status_t * list byte);
  verify_ed448 : Z -> Z -> list byte -> Z -> input -> list byte -> input ->
    M (opstate O Op) psa_status_t;
  (** bits, key, algorithm, context, input, whether it is a hash, buffer, size *)
  mldsa_sign : Z -> list byte -> Z -> input -> input -> bool -> bool -> Z ->
    M (opstate O Op) (psa_status_t * list byte);
  (** bits, type, key, algorithm, context, input, whether it is a hash, signature *)
  mldsa_verify : Z -> Z -> list byte -> Z -> input -> input -> bool -> list byte ->
    M (opstate O Op) psa_status_t;
  (** key, input, signature *)
  lms_verify : list byte -> input -> list byte -> M (opstate O Op) psa_status_t;
  xmss_verify : list byte -> input -> list byte -> M (opstate O Op) psa_status_t }.

(** * What a signature states *)

Record claim {P : Type} : Type := mkClaim {
  cl_type : Z;
  cl_bits : Z;
  cl_public : P;
  cl_alg : Z;
  cl_context : list byte;
  cl_input : list byte }.
Arguments claim : clear implicits.
Arguments mkClaim {P}.

(** The keys of the stateful hash-based signatures. *)
Definition is_lms_type (type : Z) : bool :=
  (type =? PSA_KEY_TYPE_LMS_PUBLIC_KEY) || (type =? PSA_KEY_TYPE_HSS_PUBLIC_KEY).
Definition is_xmss_type (type : Z) : bool :=
  (type =? PSA_KEY_TYPE_XMSS_PUBLIC_KEY) || (type =? PSA_KEY_TYPE_XMSS_MT_PUBLIC_KEY).

(** The keys of Ed25519 and Ed448, where these are compiled in. *)
Definition is_edwards_type {C : Config} (type : Z) : bool :=
  (HAVE_ED25519 || HAVE_ED448) &&
  ((type =? TWISTED_EDWARDS_KEY_PAIR) || (type =? TWISTED_EDWARDS_PUBLIC_KEY)).

Section Laws.
Context {C : Config} {E : WolfCryptErr} {K : WolfCryptKeys} {R : WolfCryptRng}.
Context {O : StoreOps} {L : StoreLaws O} {B : KeyBackend}.
Context {Op P : Type}.
Variable public_part : Z -> Z -> list byte -> P.
Variable valid_sig : claim P -> list byte -> Prop.
Variable verifier : Z -> Z -> list byte -> Z -> list byte -> list byte -> Prop.

(** The claim that a signature under a key makes. *)
Definition claim_of (type bits : Z) (key : list byte) (alg : Z) (ctx inp : list byte) : claim P :=
mkClaim (PSA_KEY_TYPE_PUBLIC_KEY_OF_KEY_PAIR type) bits (public_part type bits key) alg ctx inp.

(** A call that signs: a success gives a signature of the claim, made by a key
  pair, within the buffer; an error gives nothing. *)
Definition signs (m : M (opstate O Op) (psa_status_t * list byte))
  (type bits : Z) (key : list byte) (alg : Z) (ctx inp : list byte) (size : Z) : Prop :=
forall s, wp m (fun r s' => reads s s' /\
  (r.1 = PSA_SUCCESS ->
   valid_sig (claim_of type bits key alg ctx inp) r.2 /\ 0 < zlen r.2 <= size /\
   PSA_KEY_TYPE_IS_KEY_PAIR type = true) /\
  (r.1 <> PSA_SUCCESS -> r.2 = [])) s.

(** A call that verifies: a success means that the signature is valid; when
  nothing fails and the key can check the claim, a valid one is accepted. *)
Definition verifies (m : M (opstate O Op) psa_status_t)
  (type bits : Z) (key : list byte) (alg : Z) (ctx : list byte) (inp : input) (sig : list byte) : Prop :=
forall s, wp m (fun st s' => reads s s' /\
  (st = PSA_SUCCESS -> valid_sig (claim_of type bits key alg ctx (input_bytes inp)) sig) /\
  (ready s -> is_null inp = false -> verifier type bits key alg ctx (input_bytes inp) ->
   valid_sig (claim_of type bits key alg ctx (input_bytes inp)) sig -> st = PSA_SUCCESS)) s.

End Laws.

(** * Encryption *)

Section Encryption.
Context {C : Config} {E : WolfCryptErr} {K : WolfCryptKeys} {R : WolfCryptRng}.
Context {O : StoreOps} {L : StoreLaws O} {B : KeyBackend}.
Context {Op P : Type}.
Variable public_part : Z -> Z -> list byte -> P.
(** public key, algorithm, label, plain text, cipher text *)
Variable encrypts : P -> Z -> list byte -> list byte -> list byte -> Prop.
Variable decrypter : Z -> Z -> list byte -> Z -> Prop.

(** A call that encrypts: a success gives a cipher text of the input. *)
Definition encrypting (m : M (opstate O Op) (psa_status_t * list byte))
  (type bits : Z) (key : list byte) (alg : Z) (inp salt : input) (size : Z) : Prop :=
forall s, wp m (fun r s' => reads s s' /\
  (r.1 = PSA_SUCCESS ->
   encrypts (public_part type bits key) alg (input_bytes salt) (input_bytes inp) r.2 /\
   0 < zlen r.2 <= size) /\
  (r.1 <> PSA_SUCCESS -> r.2 = [])) s.

(** A call that decrypts: a success gives what the cipher text is one of; when
  nothing fails and the text fits, a key pair opens what was made for it. *)
Definition decrypting (m : M (opstate O Op) (psa_status_t * list byte))
  (type bits : Z) (key : list byte) (alg : Z) (inp salt : input) (size : Z) : Prop :=
forall s, wp m (fun r s' => reads s s' /\
  (r.1 = PSA_SUCCESS ->
   encrypts (public_part type bits key) alg (input_bytes salt) r.2 (input_bytes inp) /\
   zlen r.2 <= size /\ PSA_KEY_TYPE_IS_KEY_PAIR type = true) /\
  (r.1 <> PSA_SUCCESS -> r.2 = []) /\
  (forall plain, ready s -> is_null inp = false -> decrypter type bits key alg ->
   encrypts (public_part type bits key) alg (input_bytes salt) plain (input_bytes inp) ->
   zlen plain <= size -> r = (PSA_SUCCESS, plain))) s.
End Encryption.

(** A buffer that is NULL is empty. *)
Definition null_empty (ctx : input) : Prop := is_null ctx = true -> input_length ctx = 0.

(** [verifier] says of which claims a key can check signatures, [decrypter] under
    which algorithms it can decrypt. *)
Class SignBackendOk {C : Config} {E : WolfCryptErr} {K : WolfCryptKeys} {R : WolfCryptRng}
  {O : StoreOps} {L : StoreLaws O} {B : KeyBackend} {Op : Type} (SB : SignBackend O Op) : Type := {
  public_key : Type;
  public_part : Z -> Z -> list byte -> public_key;
  valid_sig : claim public_key -> list byte -> Prop;
  verifier : Z -> Z -> list byte -> Z -> list byte -> list byte -> Prop;
  signs_rsa type bits key alg h buf size :
    signs public_part valid_sig (sign_rsa type bits key alg (Bytes h) buf size)
      type bits key alg [] h size;
  verifies_rsa type bits key alg h sig :
    PSA_KEY_TYPE_IS_RSA type = true -> null_empty h ->
    verifies public_part valid_sig verifier (verify_rsa type bits key alg h sig)
      type bits key alg [] h sig;
  encrypts : public_key -> Z -> list byte -> list byte -> list byte -> Prop;
  decrypter : Z -> Z -> list byte -> Z -> Prop;
  encrypting_rsa type bits key alg inp salt buf size :
    null_empty salt ->
    encrypting public_part encrypts (encrypt_rsa type bits key alg inp salt buf size)
      type bits key alg inp salt size;
  decrypting_rsa type bits key alg inp salt buf size :
    null_empty salt ->
    decrypting public_part encrypts decrypter (decrypt_rsa type bits key alg inp salt buf size)
      type bits key alg inp salt size;
  signs_ecc type bits key alg h buf size :
    signs public_part valid_sig (sign_ecc type bits key alg (Bytes h) buf size)
      type bits key alg [] h size;
  verifies_ecc type bits key alg h sig :
    PSA_KEY_TYPE_IS_ECC type = true -> is_edwards_type type = false -> null_empty h ->
    verifies public_part valid_sig verifier (verify_ecc type bits key alg h sig)
      type bits key alg [] h sig;
  signs_ed25519 type bits key alg h buf size ctx :
    null_empty ctx ->
    signs public_part valid_sig (sign_ed25519 type bits key alg (Bytes h) buf size ctx)
      type bits key alg (input_bytes ctx) h size;
  verifies_ed25519 type bits key alg h sig ctx :
    is_edwards_type type = true -> bits = 255 -> null_empty h -> null_empty ctx ->
    verifies public_part valid_sig verifier (verify_ed25519 type bits key alg h sig ctx)
      type bits key alg (input_bytes ctx) h sig;
  signs_ed448 type bits key alg h buf size ctx :
    null_empty ctx ->
    signs public_part valid_sig (sign_ed448 type bits key alg (Bytes h) buf size ctx)
      type bits key alg (input_bytes ctx) h size;
  verifies_ed448 type bits key alg h sig ctx :
    is_edwards_type type = true -> bits = 448 -> null_empty h -> null_empty ctx ->
    verifies public_part valid_sig verifier (verify_ed448 type bits key alg h sig ctx)
      type bits key alg (input_bytes ctx) h sig;
  signs_mldsa bits key alg ctx h hashed buf size :
    null_empty ctx -> hashed = negb (PSA_ALG_IS_ML_DSA alg) ->
    signs public_part valid_sig (mldsa_sign bits key alg ctx (Bytes h) hashed buf size)
      PSA_KEY_TYPE_ML_DSA_KEY_PAIR bits key alg (input_bytes ctx) h size;
  verifies_mldsa bits type key alg ctx h hashed sig :
    PSA_KEY_TYPE_IS_ML_DSA type = true -> null_empty h -> null_empty ctx -> hashed = negb (PSA_ALG_IS_ML_DSA alg) ->
    verifies public_part valid_sig verifier (mldsa_verify bits type key alg ctx h hashed sig)
      type bits key alg (input_bytes ctx) h sig;
  verifies_lms type bits key alg h sig :
    null_empty h -> is_lms_type type = true ->
    verifies public_part valid_sig verifier (lms_verify key h sig) type bits key alg [] h sig;
  verifies_xmss type bits key alg h sig :
    null_empty h -> is_xmss_type type = true ->
    verifies public_part valid_sig verifier (xmss_verify key h sig) type bits key alg [] h sig }.
