(* ===== verification/Sign.v ===== *)
(** Signatures and asymmetric encryption: the entry points of
    [src/psa_asymmetric_api.c], against the interface [SignBackend].

    The operation object of the state is the local [psa_hash_operation_t] of
    [psa_hash_compute].  Key agreement, of the same file, is in [KeyAgreement]
    and [Kdf]. *)

From stdpp Require Import base decidable list.
From Stdlib Require Import ZArith Lia.
From Stdlib Require Import Strings.Byte.
From S2P Require Import Prelude.
From S2P Require Import Values.
From S2P Require Import Engine.
From S2P Require Import WolfCrypt.
From S2P Require Import KeyPolicy.
From S2P Require Import KeyFormat.
From S2P Require Import StoreIface.
From S2P Require Import Library.
From S2P Require Import KeyStore.
From S2P Require Import Operation.
From S2P Require Import KeyAgreement.
From S2P Require Import Hash.
From S2P Require Import AsymValues.
From S2P Require Import SignIface.

#[local] Open Scope Z_scope.

(** * Checks *)

Section Checks.
Context {C : Config}.

Definition wolfpsa_check_context (alg : Z) (context : input) : psa_status_t :=
if 255 <? input_length context then PSA_ERROR_INVALID_ARGUMENT
else if input_length context =? 0 then PSA_SUCCESS
else if (alg =? PSA_ALG_EDDSA_CTX) || (alg =? PSA_ALG_ED25519PH) || (alg =? PSA_ALG_ED448PH)
then PSA_SUCCESS
else if WOLFSSL_HAVE_MLDSA &&
        (PSA_ALG_IS_ML_DSA alg || PSA_ALG_IS_HASH_ML_DSA alg
         || PSA_ALG_IS_DETERMINISTIC_HASH_ML_DSA alg)
then PSA_SUCCESS
else PSA_ERROR_INVALID_ARGUMENT.

Definition wolfpsa_sign_output_size (key_type key_bits alg : Z) : Z :=
if negb HAVE_ECC && PSA_KEY_TYPE_IS_ECC key_type && negb (key_type =? TWISTED_EDWARDS_KEY_PAIR)
then 0
else PSA_SIGN_OUTPUT_SIZE key_type key_bits alg.

(** [sig_size != 0 && signature_size < sig_size] *)
Definition signature_too_large (a : psa_key_attributes_t) (alg signature_size : Z) : bool :=
let sig_size := wolfpsa_sign_output_size (attr_type a) (attr_bits a) alg in
negb (sig_size =? 0) && (signature_size <? sig_size).

(** LMS, HSS, XMSS and XMSS^MT keys, which do not sign here and whose
  signatures are of messages only. *)
Definition stateful_hash_type (type : Z) : bool :=
(WOLFSSL_HAVE_LMS && is_lms_type type) || (WOLFSSL_HAVE_XMSS && is_xmss_type type).

Definition is_mldsa_type (type : Z) : bool := WOLFSSL_HAVE_MLDSA && PSA_KEY_TYPE_IS_ML_DSA type.
Definition is_hash_mldsa_alg (alg : Z) : bool :=
PSA_ALG_IS_HASH_ML_DSA alg || PSA_ALG_IS_DETERMINISTIC_HASH_ML_DSA alg.
Definition is_pure_eddsa_alg (alg : Z) : bool :=
(alg =? PSA_ALG_PURE_EDDSA) || (alg =? PSA_ALG_EDDSA_CTX).
End Checks.

Section SignApi.
Context {C : Config} {E : WolfCryptErr} {K : WolfCryptKeys} {R : WolfCryptRng}.
Context {O : StoreOps} {B : KeyBackend}.
Context {WM : WolfCryptMisc} {WD : WolfCryptDigest} {W : WolfCryptHash}.
Context {SB : SignBackend O psa_hash_operation_ctx}.

Notation SM := (M (opstate O psa_hash_operation_ctx)).
Notation signed := (SM (psa_status_t * list byte)).

Definition refused (e : psa_status_t) : signed := mret (e, []).

(** * Encryption *)

(** What follows the key check, the same in both directions but for the backend. *)
Definition asymmetric_cipher (backend : Z -> Z -> list byte -> Z -> input -> input -> bool -> Z -> signed)
  (usage key alg : Z) (inp salt : input) (output : bool) (output_size : Z) (output_length : bool)
: signed :=
if negb output_length then refused PSA_ERROR_INVALID_ARGUMENT
else
  r ← lib (wolfpsa_asymmetric_check_key key usage alg);
  match r with
  | inl e => refused e
  | inr (attributes, key_data) =>
      if PSA_KEY_TYPE_IS_RSA (attr_type attributes) then
        if negb output && negb (output_size =? 0) then refused PSA_ERROR_INVALID_ARGUMENT
        else backend (attr_type attributes) (attr_bits attributes) key_data alg inp salt
               output output_size
      else refused (if PSA_KEY_TYPE_IS_ASYMMETRIC (attr_type attributes)
                    then PSA_ERROR_NOT_SUPPORTED else PSA_ERROR_INVALID_ARGUMENT)
  end.

Definition psa_asymmetric_encrypt (key alg : Z) (inp salt : input) (output : bool)
  (output_size : Z) (output_length : bool) : signed :=
asymmetric_cipher encrypt_rsa PSA_KEY_USAGE_ENCRYPT key alg inp salt output output_size output_length.

Definition psa_asymmetric_decrypt (key alg : Z) (inp salt : input) (output : bool)
  (output_size : Z) (output_length : bool) : signed :=
asymmetric_cipher decrypt_rsa PSA_KEY_USAGE_DECRYPT key alg inp salt output output_size output_length.

(** * Dispatch by key type *)

Definition sign_edwards (a : psa_key_attributes_t) (key : list byte) (alg : Z) (inp : input)
  (signature : bool) (size : Z) (context : input) : signed :=
if HAVE_ED25519 && (attr_bits a =? 255)
then sign_ed25519 (attr_type a) (attr_bits a) key alg inp signature size context
else if HAVE_ED448 && (attr_bits a =? 448)
then sign_ed448 (attr_type a) (attr_bits a) key alg inp signature size context
else refused PSA_ERROR_NOT_SUPPORTED.

Definition sign_dispatch (a : psa_key_attributes_t) (key : list byte) (alg : Z) (hash : input)
  (signature : bool) (size : Z) (context : input) : signed :=
if PSA_KEY_TYPE_IS_RSA (attr_type a)
then sign_rsa (attr_type a) (attr_bits a) key alg hash signature size
else if (HAVE_ED25519 || HAVE_ED448) && (attr_type a =? TWISTED_EDWARDS_KEY_PAIR)
then sign_edwards a key alg hash signature size context
else if HAVE_ECC && PSA_KEY_TYPE_IS_ECC (attr_type a)
then sign_ecc (attr_type a) (attr_bits a) key alg hash signature size
else refused PSA_ERROR_NOT_SUPPORTED.

Definition verify_edwards (a : psa_key_attributes_t) (key : list byte) (alg : Z) (inp : input)
  (signature : list byte) (context : input) : SM psa_status_t :=
if HAVE_ED25519 && (attr_bits a =? 255)
then verify_ed25519 (attr_type a) (attr_bits a) key alg inp signature context
else if HAVE_ED448 && (attr_bits a =? 448)
then verify_ed448 (attr_type a) (attr_bits a) key alg inp signature context
else mret PSA_ERROR_NOT_SUPPORTED.

Definition verify_dispatch (a : psa_key_attributes_t) (key : list byte) (alg : Z) (hash : input)
  (signature : list byte) (context : input) : SM psa_status_t :=
if PSA_KEY_TYPE_IS_RSA (attr_type a)
then verify_rsa (attr_type a) (attr_bits a) key alg hash signature
else if is_edwards_type (attr_type a)
then verify_edwards a key alg hash signature context
else if HAVE_ECC && PSA_KEY_TYPE_IS_ECC (attr_type a)
then verify_ecc (attr_type a) (attr_bits a) key alg hash signature
else mret PSA_ERROR_NOT_SUPPORTED.

(** * Hashes *)

(** The worker, once the key has been checked. *)
Definition sign_hash_with_key (a : psa_key_attributes_t) (key : list byte) (alg : Z)
  (hash context : input) (signature : bool) (size : Z) : signed :=
match wolfpsa_check_context alg context with
| PSA_SUCCESS =>
    if is_mldsa_type (attr_type a) then
      if PSA_ALG_IS_ML_DSA alg then refused PSA_ERROR_INVALID_ARGUMENT
      else if is_hash_mldsa_alg alg then
        if negb (attr_type a =? PSA_KEY_TYPE_ML_DSA_KEY_PAIR) then refused PSA_ERROR_INVALID_ARGUMENT
        else mldsa_sign (attr_bits a) key alg context hash true signature size
      else refused PSA_ERROR_INVALID_ARGUMENT
    else if negb (PSA_ALG_IS_SIGN_HASH alg) then refused PSA_ERROR_INVALID_ARGUMENT
    else if stateful_hash_type (attr_type a) then refused PSA_ERROR_INVALID_ARGUMENT
    else if signature_too_large a alg size then refused PSA_ERROR_BUFFER_TOO_SMALL
    else sign_dispatch a key alg hash signature size context
| e => refused e
end.

(** [signature] and [signature_length] say whether the pointers are not NULL. *)
Definition wolfpsa_sign_hash_worker (key alg : Z) (hash context : input)
  (signature : bool) (size : Z) (signature_length : bool) : signed :=
if negb signature_length then refused PSA_ERROR_INVALID_ARGUMENT
else if is_null hash then refused PSA_ERROR_INVALID_ARGUMENT
else if negb signature && negb (size =? 0) then refused PSA_ERROR_INVALID_ARGUMENT
else
  r ← lib (wolfpsa_asymmetric_check_key key PSA_KEY_USAGE_SIGN_HASH alg);
  match r with
  | inl e => refused e
  | inr (a, key_data) => sign_hash_with_key a key_data alg hash context signature size
  end.

Definition verify_hash_with_key (a : psa_key_attributes_t) (key : list byte) (alg : Z)
  (hash context signature : input) : SM psa_status_t :=
if input_length signature =? 0 then mret PSA_ERROR_INVALID_SIGNATURE
else
  match wolfpsa_check_context alg context with
  | PSA_SUCCESS =>
      if is_mldsa_type (attr_type a) then
        if PSA_ALG_IS_ML_DSA alg then mret PSA_ERROR_INVALID_ARGUMENT
        else if is_hash_mldsa_alg alg
        then mldsa_verify (attr_bits a) (attr_type a) key alg context hash true
               (input_bytes signature)
        else mret PSA_ERROR_INVALID_ARGUMENT
      else if negb (PSA_ALG_IS_SIGN_HASH alg) then mret PSA_ERROR_INVALID_ARGUMENT
      else if stateful_hash_type (attr_type a) then mret PSA_ERROR_INVALID_ARGUMENT
      else verify_dispatch a key alg hash (input_bytes signature) context
  | e => mret e
  end.

Definition wolfpsa_verify_hash_worker (key alg : Z) (hash context signature : input)
: SM psa_status_t :=
if is_null hash && negb (input_length hash =? 0) then mret PSA_ERROR_INVALID_ARGUMENT
else if is_null signature && negb (input_length signature =? 0)
then mret PSA_ERROR_INVALID_ARGUMENT
else
  r ← lib (wolfpsa_asymmetric_check_key key PSA_KEY_USAGE_VERIFY_HASH alg);
  match r with
  | inl e => mret e
  | inr (a, key_data) => verify_hash_with_key a key_data alg hash context signature
  end.

(** The public calls without a context pass a NULL one of length 0. *)
Definition no_context : input := Null 0.

Definition psa_sign_hash (key alg : Z) (hash : input) (signature : bool) (size : Z)
  (signature_length : bool) : signed :=
wolfpsa_sign_hash_worker key alg hash no_context signature size signature_length.
Definition psa_sign_hash_with_context (key alg : Z) (hash context : input) (signature : bool)
  (size : Z) (signature_length : bool) : signed :=
wolfpsa_sign_hash_worker key alg hash context signature size signature_length.
Definition psa_verify_hash (key alg : Z) (hash signature : input) : SM psa_status_t :=
wolfpsa_verify_hash_worker key alg hash no_context signature.
Definition psa_verify_hash_with_context (key alg : Z) (hash context signature : input)
: SM psa_status_t :=
wolfpsa_verify_hash_worker key alg hash context signature.

(** * Messages *)

(** [psa_hash_compute] into a local buffer of the largest size. *)
Definition local_digest (hash_alg : Z) (inp : input) : signed :=
'(status, out, hash_length) ← psa_hash_compute hash_alg inp true WOLFPSA_HASH_MAX_SIZE true;
mret match status with
     | PSA_SUCCESS => (PSA_SUCCESS, take (Z.to_nat hash_length) out)
     | e => (e, [])
     end.

(** What RSA, ECDSA and the prehashed EdDSA algorithms sign of a message. *)
Definition message_hash (alg : Z) (inp : input) : signed :=
if alg =? PSA_ALG_RSA_PKCS1V15_SIGN_RAW then
  if WOLFPSA_HASH_MAX_SIZE <? input_length inp then refused PSA_ERROR_INVALID_ARGUMENT
  else mret (PSA_SUCCESS, input_bytes inp)
else
  let hash_alg := PSA_ALG_SIGN_GET_HASH alg in
  if hash_alg =? 0 then refused PSA_ERROR_NOT_SUPPORTED else local_digest hash_alg inp.

Definition sign_message_with_key (a : psa_key_attributes_t) (key : list byte) (alg : Z)
  (inp context : input) (signature : bool) (size : Z) : signed :=
match wolfpsa_check_context alg context with
| PSA_SUCCESS =>
    if signature_too_large a alg size then refused PSA_ERROR_BUFFER_TOO_SMALL
    else if is_mldsa_type (attr_type a) then
      if negb (PSA_ALG_IS_ML_DSA alg) && negb (is_hash_mldsa_alg alg)
      then refused PSA_ERROR_INVALID_ARGUMENT
      else if negb (attr_type a =? PSA_KEY_TYPE_ML_DSA_KEY_PAIR)
      then refused PSA_ERROR_INVALID_ARGUMENT
      else if PSA_ALG_IS_ML_DSA alg
      then mldsa_sign (attr_bits a) key alg context inp false signature size
      else
        '(status, mldsa_hash) ← local_digest (PSA_ALG_GET_HASH alg) inp;
        match status with
        | PSA_SUCCESS => mldsa_sign (attr_bits a) key alg context (Bytes mldsa_hash) true signature size
        | e => refused e
        end
    else if stateful_hash_type (attr_type a) then refused PSA_ERROR_INVALID_ARGUMENT
    else if (HAVE_ED25519 || HAVE_ED448) && is_pure_eddsa_alg alg
            && (attr_type a =? TWISTED_EDWARDS_KEY_PAIR)
    then sign_edwards a key alg inp signature size context
    else
      '(status, hash) ← message_hash alg inp;
      match status with
      | PSA_SUCCESS => sign_dispatch a key alg (Bytes hash) signature size context
      | e => refused e
      end
| e => refused e
end.

Definition wolfpsa_sign_message_worker (key alg : Z) (inp context : input)
  (signature : bool) (size : Z) (signature_length : bool) : signed :=
if negb signature_length then refused PSA_ERROR_INVALID_ARGUMENT
else if is_null inp then refused PSA_ERROR_INVALID_ARGUMENT
else if negb signature && negb (size =? 0) then refused PSA_ERROR_INVALID_ARGUMENT
else
  r ← lib (wolfpsa_asymmetric_check_key key PSA_KEY_USAGE_SIGN_MESSAGE alg);
  match r with
  | inl e => refused e
  | inr (a, key_data) => sign_message_with_key a key_data alg inp context signature size
  end.

(** LMS, HSS, XMSS and XMSS^MT: each type has its one algorithm. *)
Definition verify_stateful (a : psa_key_attributes_t) (key : list byte) (alg : Z)
  (inp : input) (signature : list byte) : SM psa_status_t :=
let type := attr_type a in
if WOLFSSL_HAVE_LMS && (type =? PSA_KEY_TYPE_LMS_PUBLIC_KEY) then
  if negb (alg =? PSA_ALG_LMS) then mret PSA_ERROR_INVALID_ARGUMENT
  else lms_verify key inp signature
else if WOLFSSL_HAVE_LMS && (type =? PSA_KEY_TYPE_HSS_PUBLIC_KEY) then
  if negb (alg =? PSA_ALG_HSS) then mret PSA_ERROR_INVALID_ARGUMENT
  else lms_verify key inp signature
else if WOLFSSL_HAVE_XMSS && (type =? PSA_KEY_TYPE_XMSS_PUBLIC_KEY) then
  if negb (alg =? PSA_ALG_XMSS) then mret PSA_ERROR_INVALID_ARGUMENT
  else xmss_verify key inp signature
else
  if negb (alg =? PSA_ALG_XMSS_MT) then mret PSA_ERROR_INVALID_ARGUMENT
  else xmss_verify key inp signature.

Definition verify_message_with_key (a : psa_key_attributes_t) (key : list byte) (alg : Z)
  (inp context signature : input) : SM psa_status_t :=
if input_length signature =? 0 then mret PSA_ERROR_INVALID_SIGNATURE
else
  match wolfpsa_check_context alg context with
  | PSA_SUCCESS =>
      let sig := input_bytes signature in
      if is_mldsa_type (attr_type a) then
        if negb (PSA_ALG_IS_ML_DSA alg) && negb (is_hash_mldsa_alg alg)
        then mret PSA_ERROR_INVALID_ARGUMENT
        else if PSA_ALG_IS_ML_DSA alg
        then mldsa_verify (attr_bits a) (attr_type a) key alg context inp false sig
        else
          '(status, mldsa_hash) ← local_digest (PSA_ALG_GET_HASH alg) inp;
          match status with
          | PSA_SUCCESS =>
              mldsa_verify (attr_bits a) (attr_type a) key alg context (Bytes mldsa_hash) true sig
          | e => mret e
          end
      else if stateful_hash_type (attr_type a) then verify_stateful a key alg inp sig
      else if is_pure_eddsa_alg alg && is_edwards_type (attr_type a)
      then verify_edwards a key alg inp sig context
      else
        '(status, hash) ← message_hash alg inp;
        match status with
        | PSA_SUCCESS => verify_dispatch a key alg (Bytes hash) sig context
        | e => mret e
        end
  | e => mret e
  end.

Definition wolfpsa_verify_message_worker (key alg : Z) (inp context signature : input)
: SM psa_status_t :=
if is_null inp && negb (input_length inp =? 0) then mret PSA_ERROR_INVALID_ARGUMENT
else if is_null signature && negb (input_length signature =? 0)
then mret PSA_ERROR_INVALID_ARGUMENT
else
  r ← lib (wolfpsa_asymmetric_check_key key PSA_KEY_USAGE_VERIFY_MESSAGE alg);
  match r with
  | inl e => mret e
  | inr (a, key_data) => verify_message_with_key a key_data alg inp context signature
  end.

Definition psa_sign_message (key alg : Z) (inp : input) (signature : bool) (size : Z)
  (signature_length : bool) : signed :=
wolfpsa_sign_message_worker key alg inp no_context signature size signature_length.
Definition psa_sign_message_with_context (key alg : Z) (inp context : input) (signature : bool)
  (size : Z) (signature_length : bool) : signed :=
wolfpsa_sign_message_worker key alg inp context signature size signature_length.
Definition psa_verify_message (key alg : Z) (inp signature : input) : SM psa_status_t :=
wolfpsa_verify_message_worker key alg inp no_context signature.
Definition psa_verify_message_with_context (key alg : Z) (inp context signature : input)
: SM psa_status_t :=
wolfpsa_verify_message_worker key alg inp context signature.
End SignApi.
