(* ===== verification/SignRules.v ===== *)
(** Rules for the API of signatures: the key check over the table of keys, the
    frame of the hash operations, and the digest of a message. *)

From stdpp Require Import base decidable list gmap.
From Stdlib Require Import ZArith Lia.
From Stdlib Require Import Strings.Byte.
From S2P Require Import Prelude.
From S2P Require Import Values.
From S2P Require Import Engine.
From S2P Require Import WolfCrypt.
From S2P Require Import KeyPolicy.
From S2P Require Import KeyFormat.
From S2P Require Import StoreIface.
From S2P Require Import Library.
From S2P Require Import KeyStore.
From S2P Require Import KeyStoreRules.
From S2P Require Import Operation.
From S2P Require Import KeyAgreement.
From S2P Require Import Hash.
From S2P Require Import HashSpec.
From S2P Require Import ImportRules.
From S2P Require Import KeyStoreSpec.
From S2P Require Import KeyStoreCalls.
From S2P Require Import KeyStoreInv.
From S2P Require Import KeyReaders.
From S2P Require Import AsymValues.
From S2P Require Import SignIface.
From S2P Require Import Sign.

#[local] Open Scope Z_scope.

(** * The key check *)

(** The policy of a key lets [alg] be used so. *)
Definition key_permits (a : psa_key_attributes_t) (usage alg : Z) : bool :=
  (Z.land (psa_get_key_usage_flags a) usage =? usage) &&
  (wolfpsa_asymmetric_alg_permitted (psa_get_key_algorithm a) alg usage
   || wolfpsa_asymmetric_alg_permitted (psa_get_key_enrollment_algorithm a) alg usage).

(** The answer of the key check, by what the table has. *)
Definition key_verdict (entry : option (psa_key_attributes_t * list byte)) (usage alg : Z)
: psa_status_t + psa_key_attributes_t * list byte :=
  match entry with
  | None => inl PSA_ERROR_INVALID_HANDLE
  | Some (a, d) => if key_permits a usage alg then inr (a, d) else inl PSA_ERROR_NOT_PERMITTED
  end.

Section CheckKey.
Context {C : Config} {E : WolfCryptErr} {EO : WolfCryptErrOk E} {K : WolfCryptKeys} {R : WolfCryptRng}.
Context {O : StoreOps} {L : StoreLaws O} {B : KeyBackend}.
Context {ROK : WolfCryptRngOk R} {BOK : KeyBackendOk} {Op : Type}.

Implicit Types s : opstate O Op.

Lemma wp_check_key key usage alg
  (Q : psa_status_t + psa_key_attributes_t * list byte -> opstate O Op -> Prop) s :
store_inv (op_lib s) ->
(forall r s', reads s s' ->
   match r with
   | inl e => e <> PSA_SUCCESS
   | inr (a, d) => table (op_lib s) key = Some (a, d) /\ key_permits a usage alg = true
   end ->
   (ready s -> valid_id key -> r = key_verdict (table (op_lib s) key) usage alg) -> Q r s') ->
wp (lib (wolfpsa_asymmetric_check_key key usage alg)) Q s.
Proof.
intros Hi HQ. unfold wolfpsa_asymmetric_check_key. apply wp_lib, wp_bind.
apply wp_lookup_key; [done|]. intros st a d k Hk Hcase.
assert (Hr : reads s (with_lib k s)) by (by apply reads_lib).
destruct Hcase as [(-> & a0 & d0 & Ht & -> & ->)|(Hne & -> & Hg)]; cbv delta [from_option id] beta iota zeta.
- apply wp_ret. unfold key_verdict in HQ. rewrite Ht in HQ. unfold key_permits in HQ.
  destruct (Z.land _ usage =? usage) eqn:Hu; cbn [negb andb orb] in *.
  2: { by apply HQ. }
  rewrite <- negb_orb. destruct (_ || _) eqn:Hp; cbn [negb]; apply HQ; try done.
  split; [done|]. by rewrite Hu, Hp.
- assert (HQ' : Q (inl st) (with_lib k s)).
  { apply HQ; [done|done|]. intros [_ Hse] Hid. by destruct (Hg Hse Hid) as [-> ->]. }
  destruct st; [done|by apply wp_ret ..].
Qed.
End CheckKey.

(** * Steps of an operation with an object of its own *)

Section Steps.
Context {C : Config} {E : WolfCryptErr} {EO : WolfCryptErrOk E} {K : WolfCryptKeys} {R : WolfCryptRng}.
Context {O : StoreOps} {L : StoreLaws O} {B : KeyBackend}.
Context {ROK : WolfCryptRngOk R} {BOK : KeyBackendOk}.

Section Frame.
Context {Op : Type}.
Implicit Types s : opstate O Op.

(** A step that reads keys, calls wolfCrypt and may change the object. *)
Definition steps s s' : Prop :=
settled (op_lib s) (op_lib s') /\ (ready s -> ready s').

Lemma steps_refl s : steps s s.
Proof. split; [apply settled_refl|done]. Qed.

Lemma steps_trans s1 s2 s3 : steps s1 s2 -> steps s2 s3 -> steps s1 s3.
Proof. intros [S1 R1] [S2 R2]. split; [by eapply settled_trans|auto]. Qed.

Lemma reads_steps s s' : reads s s' -> steps s s'.
Proof. by intros (_ & Hs & Hr). Qed.

Lemma steps_store_inv s s' :
store_inv (op_lib s) -> steps s s' ->
store_inv (op_lib s') /\ same_keys (table (op_lib s)) (table (op_lib s')).
Proof. intros Hi [Hs _]. by apply settled_store_inv. Qed.

Definition only_steps {A} (m : M (opstate O Op) A) : Prop := forall s, steps s (m s).2.

Lemma only_ret {A} (a : A) : only_steps (mret a).
Proof. intros s. apply steps_refl. Qed.

Lemma only_bind {A B'} (m : M (opstate O Op) A) (f : A -> M (opstate O Op) B') :
only_steps m -> (forall a, only_steps (f a)) -> only_steps (mbind f m).
Proof. intros Hm Hf s. rewrite bind_run. eapply steps_trans; [apply Hm|apply Hf]. Qed.

Lemma only_pure {A} (m : M (opstate O Op) A) : pure_calls m -> only_steps m.
Proof. intros Hm s. apply reads_steps. by apply (wp_reads m (fun _ s' => reads s s')). Qed.

Lemma only_set_ctx c : only_steps (set_ctx c).
Proof. intros s. split; [apply settled_refl|done]. Qed.

Lemma only_get_ctx : only_steps get_ctx.
Proof. intros s. apply steps_refl. Qed.

Lemma only_modify_ctx f : only_steps (modify_ctx f).
Proof. intros s. unfold modify_ctx, mmodify. split; [|done]. apply settled_refl. Qed.

Lemma only_initialized : only_steps (lib wolfPSA_CryptoIsInitialized).
Proof.
intros s. change (wp (lib (Op := Op) wolfPSA_CryptoIsInitialized) (fun _ s' => steps s s') s).
apply wp_lib, wp_is_initialized. intros b k Hq Hf Hi _ _.
assert (Hs : serving (op_lib s) -> serving k).
{ intros ([Hm Hh] & Hidle & Hc). split_and!; [split|by apply Hi|by rewrite (q_crypto _ _ Hq)].
  - by apply Hq.
  - apply (c_healthy _ _ (quiet_calm _ _ Hq) Hh). }
split; [|intros [Hr Hse]; split; auto]. split_and!; [done|by apply quiet_calm|done].
Qed.

Lemma wp_steps {A} (m : M (opstate O Op) A) (Q : A -> opstate O Op -> Prop) s :
only_steps m -> wp m (fun a s' => steps s s' -> Q a s') s -> wp m Q s.
Proof. intros Hm HQ. apply HQ, Hm. Qed.
End Frame.

Context {WM : WolfCryptMisc} {WMO : WolfCryptMiscOk WM} {WD : WolfCryptDigest}.
Context {W : WolfCryptHash} {WO : WolfCryptHashOk W} {WS : WolfCryptHashSizes WO}.

Ltac only_tac :=
repeat first [ apply only_ret | apply only_bind; [|intros] | apply only_set_ctx
             | apply only_get_ctx | apply only_modify_ctx | apply only_initialized
             | apply only_pure; solve [eauto with wpsa]
             | progress cbv beta iota zeta | case_match ].

Lemma only_hash_compute alg data hash size len : only_steps (psa_hash_compute alg data hash size len).
Proof.
unfold psa_hash_compute, psa_hash_setup, psa_hash_update, psa_hash_finish, wolfpsa_hash_fail,
  psa_hash_abort. only_tac.
Qed.

(** * The digest of a message *)

Lemma hash_feasible_ready alg (s : opstate O psa_hash_operation_ctx) :
ready s -> PSA_ALG_IS_HASH alg = true -> psa_hash_get_size alg <> 0 -> hash_feasible alg s.
Proof.
intros Hs H1 H2. pose proof Hs as (Hr & [_ _] & Hidle & Hinit).
by split_and!; [..|by apply ready_smooth| |].
Qed.

Lemma wp_local_digest h inp (Q : psa_status_t * list byte -> opstate O psa_hash_operation_ctx -> Prop) s :
(forall e s', steps s s' -> e <> PSA_SUCCESS ->
   (ready s -> PSA_ALG_IS_HASH h = true -> psa_hash_get_size h <> 0 -> input_valid inp -> False) ->
   Q (e, []) s') ->
(forall s', steps s s' -> psa_hash_get_size h <> 0 ->
   Q (PSA_SUCCESS, digest h (input_bytes inp)) s') ->
wp (local_digest h inp) Q s.
Proof.
intros Hbad Hgood. unfold local_digest. apply wp_bind.
apply wp_steps; [apply only_hash_compute|]. apply wp_hash_compute.
- intros e out n s' He Hno Hst.
  assert (HQ : Q (e, []) s').
  { apply Hbad; [done|done|]. intros Hr H1 H2 Hv.
    apply Hno; [by apply hash_feasible_ready|done..|apply size_fits]. }
  destruct e; [done|by apply wp_ret ..].
- intros s' Hsz _ Hst. apply wp_ret.
  pose proof (digest_length h (input_bytes inp) Hsz) as Hl. unfold zlen in Hl.
  rewrite take_ge by lia. by apply Hgood.
Qed.
End Steps.
