(* ===== verification/SignSpec.v ===== *)
(** What the signature API promises ([src/psa_asymmetric_api.c]), over any
    backends that meet [SignBackendOk].

    [signed_input] is what an algorithm signs of the caller's data: the data
    itself for the calls on hashes, for the pure algorithms and for raw PKCS#1,
    and otherwise the digest that the algorithm names. *)

From stdpp Require Import base decidable list gmap.
From Stdlib Require Import ZArith Lia.
From Stdlib Require Import Strings.Byte.
From S2P Require Import Prelude.
From S2P Require Import Values.
From S2P Require Import Engine.
From S2P Require Import WolfCrypt.
From S2P Require Import KeyPolicy.
From S2P Require Import KeyFormat.
From S2P Require Import StoreIface.
From S2P Require Import Library.
From S2P Require Import KeyStore.
From S2P Require Import KeyStoreRules.
From S2P Require Import Operation.
From S2P Require Import ImportRules.
From S2P Require Import KeyStoreSpec.
From S2P Require Import KeyStoreCalls.
From S2P Require Import KeyAgreement.
From S2P Require Import Hash.
From S2P Require Import HashSpec.
From S2P Require Import KeyStoreInv.
From S2P Require Import KeyReaders.
From S2P Require Import AsymValues.
From S2P Require Import SignIface.
From S2P Require Import Sign.
From S2P Require Import SignRules.

#[local] Open Scope Z_scope.

(** Which pair of calls: on hashes or on messages. *)
Inductive mode : Set := OfHash | OfMessage.

(** * Key types *)

Section Types.
Context {C : Config}.

Lemma rsa_not_bound type :
PSA_KEY_TYPE_IS_RSA type = true -> is_mldsa_type type = false /\ is_edwards_type type = false.
Proof.
unfold PSA_KEY_TYPE_IS_RSA, is_mldsa_type, PSA_KEY_TYPE_IS_ML_DSA, is_edwards_type.
rewrite Z.eqb_eq. intros H. rewrite H, andb_false_r. split; [done|].
apply andb_false_intro2, orb_false_intro; apply Z.eqb_neq; intros ->; discriminate H.
Qed.

Lemma ecc_not_mldsa type : PSA_KEY_TYPE_IS_ECC type = true -> is_mldsa_type type = false.
Proof.
unfold PSA_KEY_TYPE_IS_ECC, is_mldsa_type, PSA_KEY_TYPE_IS_ML_DSA. rewrite Z.eqb_eq. intros H.
apply andb_false_intro2, Z.eqb_neq. intros E. by rewrite E in H.
Qed.

Lemma edwards_not_mldsa type : is_edwards_type type = true -> is_mldsa_type type = false.
Proof.
unfold is_edwards_type. rewrite andb_true_iff. intros [_ H]. unfold is_mldsa_type.
by apply orb_true_iff in H as [->%Z.eqb_eq| ->%Z.eqb_eq]; destruct WOLFSSL_HAVE_MLDSA.
Qed.

Lemma stateful_not_bound type :
stateful_hash_type type = true -> is_mldsa_type type = false /\ is_edwards_type type = false.
Proof.
unfold stateful_hash_type, is_lms_type, is_xmss_type, is_mldsa_type, is_edwards_type.
rewrite orb_true_iff, !andb_true_iff, !orb_true_iff, !Z.eqb_eq.
intros [[_ [->| ->]]|[_ [->| ->]]]; destruct WOLFSSL_HAVE_MLDSA, HAVE_ED25519, HAVE_ED448; done.
Qed.

(** The context that the signature covers: other key types take none. *)
Definition bound_context (type : Z) (ctx : input) : list byte :=
if is_mldsa_type type || is_edwards_type type then input_bytes ctx else [].

Lemma bound_none type ctx :
is_mldsa_type type = false -> is_edwards_type type = false -> bound_context type ctx = [].
Proof. unfold bound_context. by intros -> ->. Qed.
End Types.

(** A pure EdDSA algorithm names no hash. *)
Lemma pure_eddsa_no_hash alg :
is_pure_eddsa_alg alg = true ->
PSA_ALG_SIGN_GET_HASH alg = 0 /\ (alg =? PSA_ALG_RSA_PKCS1V15_SIGN_RAW) = false /\
PSA_ALG_IS_SIGN_HASH alg = false.
Proof. unfold is_pure_eddsa_alg. rewrite orb_true_iff, !Z.eqb_eq. by intros [->| ->]. Qed.

Section Spec.
Context {C : Config} {E : WolfCryptErr} {EO : WolfCryptErrOk E} {K : WolfCryptKeys} {R : WolfCryptRng}.
Context {O : StoreOps} {L : StoreLaws O} {B : KeyBackend}.
Context {ROK : WolfCryptRngOk R} {BOK : KeyBackendOk}.
Context {WM : WolfCryptMisc} {WMO : WolfCryptMiscOk WM} {WD : WolfCryptDigest}.
Context {W : WolfCryptHash} {WO : WolfCryptHashOk W} {WS : WolfCryptHashSizes WO}.
Context {SB : SignBackend O psa_hash_operation_ctx} {SBO : SignBackendOk SB}.

Implicit Types s : opstate O psa_hash_operation_ctx.
Implicit Types a : psa_key_attributes_t.

(** * What is signed *)

Definition signed_input (m : mode) (type alg : Z) (data : list byte) : list byte :=
match m with
| OfHash => data
| OfMessage =>
    if is_mldsa_type type then
      if PSA_ALG_IS_ML_DSA alg then data else digest (PSA_ALG_GET_HASH alg) data
    else if stateful_hash_type type then data
    else if is_pure_eddsa_alg alg && is_edwards_type type then data
    else if alg =? PSA_ALG_RSA_PKCS1V15_SIGN_RAW then data
    else digest (PSA_ALG_SIGN_GET_HASH alg) data
end.

(** The claim of a signature of [inp] under a key. *)
Definition key_claim a (key : list byte) (alg : Z) (ctx : input) (inp : list byte)
: claim public_key :=
claim_of public_part (attr_type a) (attr_bits a) key alg (bound_context (attr_type a) ctx) inp.

Definition can_verify a (key : list byte) (alg : Z) (ctx : input) (inp : list byte) : Prop :=
verifier (attr_type a) (attr_bits a) key alg (bound_context (attr_type a) ctx) inp.

(** After a signing call. *)
Definition sign_post a (key : list byte) (alg : Z) (ctx : input) (inp : list byte) (size : Z) s
  (r : psa_status_t * list byte) s' : Prop :=
steps s s' /\
(r.1 = PSA_SUCCESS ->
 valid_sig (key_claim a key alg ctx inp) r.2 /\ 0 < zlen r.2 <= size /\
 PSA_KEY_TYPE_IS_KEY_PAIR (attr_type a) = true) /\
(r.1 <> PSA_SUCCESS -> r.2 = []).

Lemma wp_refused a key alg ctx inp size e s :
e <> PSA_SUCCESS -> wp (refused e) (sign_post a key alg ctx inp size s) s.
Proof. intros He. apply wp_ret. split; [apply steps_refl|]. by split. Qed.

Lemma sign_post_steps a key alg ctx inp size s s1 r s' :
steps s s1 -> sign_post a key alg ctx inp size s1 r s' -> sign_post a key alg ctx inp size s r s'.
Proof. intros Hs [Hs' H]. split; [by eapply steps_trans|done]. Qed.

(** A backend that keeps its contract. *)
Lemma wp_signs m a key alg ctx inp size s :
signs public_part valid_sig m (attr_type a) (attr_bits a) key alg
  (bound_context (attr_type a) ctx) inp size ->
wp m (sign_post a key alg ctx inp size s) s.
Proof.
intros Hm. eapply wp_mono; [apply Hm|]. intros r s' (Hr & Hok & Hno).
split; [by apply reads_steps|]. by split.
Qed.

Lemma wp_sign_edwards a key alg h buf size ctx s :
null_empty ctx -> is_edwards_type (attr_type a) = true ->
wp (sign_edwards a key alg (Bytes h) buf size ctx) (sign_post a key alg ctx h size s) s.
Proof.
intros Hctx Hed. unfold sign_edwards.
assert (Hb : bound_context (attr_type a) ctx = input_bytes ctx).
{ unfold bound_context. by rewrite Hed, orb_true_r. }
destruct (HAVE_ED25519 && _); [|destruct (HAVE_ED448 && _)].
- apply wp_signs. rewrite Hb. by apply signs_ed25519.
- apply wp_signs. rewrite Hb. by apply signs_ed448.
- by apply wp_refused.
Qed.

Lemma pair_is_edwards type :
(HAVE_ED25519 || HAVE_ED448) && (type =? TWISTED_EDWARDS_KEY_PAIR) = true ->
is_edwards_type type = true.
Proof. unfold is_edwards_type. rewrite !andb_true_iff. intros [-> ->]. done. Qed.

Lemma wp_sign_dispatch a key alg h buf size ctx s :
null_empty ctx ->
wp (sign_dispatch a key alg (Bytes h) buf size ctx) (sign_post a key alg ctx h size s) s.
Proof.
intros Hctx. unfold sign_dispatch.
destruct (PSA_KEY_TYPE_IS_RSA (attr_type a)) eqn:Hrsa.
{ apply wp_signs. destruct (rsa_not_bound _ Hrsa). rewrite bound_none by done. apply signs_rsa. }
destruct ((HAVE_ED25519 || HAVE_ED448) && _) eqn:Hed.
{ apply wp_sign_edwards; [done|by apply pair_is_edwards]. }
destruct (HAVE_ECC && _) eqn:Hecc; [|by apply wp_refused].
apply andb_true_iff in Hecc as [_ Hecc].
eapply wp_mono; [apply signs_ecc|]. intros r s' (Hr & Hok & Hno).
split; [by apply reads_steps|]. split; [|done]. intros Hst.
destruct (Hok Hst) as (Hv & Hl & Hpair).
assert (Hb : bound_context (attr_type a) ctx = []).
{ apply bound_none; [by apply ecc_not_mldsa|]. unfold is_edwards_type in *.
  destruct (HAVE_ED25519 || HAVE_ED448); [|done]. cbn [andb] in *. rewrite Hed. cbn [orb].
  apply Z.eqb_neq. intros Ety. by rewrite Ety in Hpair. }
unfold key_claim. by rewrite Hb.
Qed.

(** * Signing *)

Lemma is_mldsa_alg_flag alg : PSA_ALG_IS_ML_DSA alg = false -> true = negb (PSA_ALG_IS_ML_DSA alg).
Proof. by intros ->. Qed.

Lemma wp_mldsa_sign a key alg ctx h hashed buf size s :
null_empty ctx -> is_mldsa_type (attr_type a) = true -> attr_type a = PSA_KEY_TYPE_ML_DSA_KEY_PAIR ->
hashed = negb (PSA_ALG_IS_ML_DSA alg) ->
wp (mldsa_sign (attr_bits a) key alg ctx (Bytes h) hashed buf size)
  (sign_post a key alg ctx h size s) s.
Proof.
intros Hctx Hm Hty Hh. apply wp_signs. unfold bound_context. rewrite Hm, Hty. by apply signs_mldsa.
Qed.

Lemma wp_sign_hash_with_key a key alg h ctx buf size s :
null_empty ctx ->
wp (sign_hash_with_key a key alg (Bytes h) ctx buf size) (sign_post a key alg ctx h size s) s.
Proof.
intros Hctx. unfold sign_hash_with_key.
destruct (wolfpsa_check_context alg ctx); try by apply wp_refused.
destruct (is_mldsa_type (attr_type a)) eqn:Hm.
- destruct (PSA_ALG_IS_ML_DSA alg) eqn:Hp; [by apply wp_refused|].
  destruct (is_hash_mldsa_alg alg); [|by apply wp_refused].
  destruct (Z.eqb_spec (attr_type a) PSA_KEY_TYPE_ML_DSA_KEY_PAIR) as [Hty|];
    cbn [negb]; [|by apply wp_refused].
  apply wp_mldsa_sign; [done..|by apply is_mldsa_alg_flag].
- destruct (PSA_ALG_IS_SIGN_HASH alg); cbn [negb]; [|by apply wp_refused].
  destruct (stateful_hash_type _); [by apply wp_refused|].
  destruct (signature_too_large _ _ _); [by apply wp_refused|]. by apply wp_sign_dispatch.
Qed.

(** A digest step in front of a signing call. *)
Lemma wp_digest_then a key alg ctx inp size h data
  (k : psa_status_t * list byte -> M _ (psa_status_t * list byte)) s :
inp = digest h data ->
(forall e s', e <> PSA_SUCCESS -> wp (k (e, [])) (sign_post a key alg ctx inp size s') s') ->
(forall s', wp (k (PSA_SUCCESS, digest h data)) (sign_post a key alg ctx inp size s') s') ->
wp (r ← local_digest h (Bytes data); k r) (sign_post a key alg ctx inp size s) s.
Proof.
intros -> Hbad Hgood. apply wp_bind, wp_local_digest.
- intros e s' Hs He _. eapply wp_mono; [by apply Hbad|]. intros r s2. by apply sign_post_steps.
- intros s' Hs _. eapply wp_mono; [apply Hgood|]. intros r s2. by apply sign_post_steps.
Qed.

Lemma wp_sign_message_with_key a key alg data ctx buf size s :
null_empty ctx ->
wp (sign_message_with_key a key alg (Bytes data) ctx buf size)
  (sign_post a key alg ctx (signed_input OfMessage (attr_type a) alg data) size s) s.
Proof.
intros Hctx. unfold sign_message_with_key, signed_input.
destruct (wolfpsa_check_context alg ctx); try by apply wp_refused.
destruct (signature_too_large _ _ _); [by apply wp_refused|].
destruct (is_mldsa_type (attr_type a)) eqn:Hm.
- destruct (negb _ && negb _); [by apply wp_refused|].
  destruct (Z.eqb_spec (attr_type a) PSA_KEY_TYPE_ML_DSA_KEY_PAIR) as [Hty|];
    cbn [negb]; [|by apply wp_refused].
  destruct (PSA_ALG_IS_ML_DSA alg) eqn:Hp.
  + apply wp_mldsa_sign; [done..|by rewrite Hp].
  + apply (wp_digest_then _ _ _ _ _ _ (PSA_ALG_GET_HASH alg) data); [done| |].
    * intros e s' He. destruct e; [done|by apply wp_refused ..].
    * intros s'. apply wp_mldsa_sign; [done..|by apply is_mldsa_alg_flag].
- destruct (stateful_hash_type _); [by apply wp_refused|].
  destruct ((HAVE_ED25519 || HAVE_ED448) && is_pure_eddsa_alg alg && _) eqn:Hed.
  + rewrite <- andb_assoc, (andb_comm (is_pure_eddsa_alg alg)), andb_assoc in Hed.
    apply andb_true_iff in Hed as [Hed Hpure]. apply pair_is_edwards in Hed.
    rewrite Hpure, Hed. by apply wp_sign_edwards.
  + unfold message_hash. destruct (alg =? PSA_ALG_RSA_PKCS1V15_SIGN_RAW) eqn:Hraw.
    * assert (Hp : is_pure_eddsa_alg alg = false).
      { destruct (is_pure_eddsa_alg alg) eqn:Hp; [|done].
        destruct (pure_eddsa_no_hash _ Hp) as (_ & Hn & _). congruence. }
      rewrite Hp. cbn [andb]. apply wp_bind.
      destruct (WOLFPSA_HASH_MAX_SIZE <? _); apply wp_ret; [by apply wp_refused|].
      by apply wp_sign_dispatch.
    * destruct (Z.eqb_spec (PSA_ALG_SIGN_GET_HASH alg) 0) as [|Hh].
      { apply wp_bind, wp_ret. by apply wp_refused. }
      assert (Hp : is_pure_eddsa_alg alg = false).
      { destruct (is_pure_eddsa_alg alg) eqn:Hp; [|done]. by destruct (pure_eddsa_no_hash _ Hp). }
      rewrite Hp. cbn [andb].
      apply (wp_digest_then _ _ _ _ _ _ (PSA_ALG_SIGN_GET_HASH alg) data); [done| |].
      -- intros e s' He. destruct e; [done|by apply wp_refused ..].
      -- intros s'. by apply wp_sign_dispatch.
Qed.

(** * Verifying *)

Definition edwards_bits (bits : Z) : bool :=
(HAVE_ED25519 && (bits =? 255)) || (HAVE_ED448 && (bits =? 448)).

(** A key type that some backend serves. *)
Definition dispatchable a : bool :=
if PSA_KEY_TYPE_IS_RSA (attr_type a) then true
else if is_edwards_type (attr_type a) then edwards_bits (attr_bits a)
else HAVE_ECC && PSA_KEY_TYPE_IS_ECC (attr_type a).

Definition hashable (h : Z) (data : list byte) : bool :=
PSA_ALG_IS_HASH h && negb (psa_hash_get_size h =? 0) && fits_word32 (zlen data).

(** The one algorithm of each stateful hash-based key type. *)
Definition stateful_alg (type : Z) : Z :=
if WOLFSSL_HAVE_LMS && (type =? PSA_KEY_TYPE_LMS_PUBLIC_KEY) then PSA_ALG_LMS
else if WOLFSSL_HAVE_LMS && (type =? PSA_KEY_TYPE_HSS_PUBLIC_KEY) then PSA_ALG_HSS
else if WOLFSSL_HAVE_XMSS && (type =? PSA_KEY_TYPE_XMSS_PUBLIC_KEY) then PSA_ALG_XMSS
else PSA_ALG_XMSS_MT.

(** Key, algorithm, context and data go together. *)
Definition accepts (m : mode) a (alg : Z) (ctx : input) (data : list byte) : bool :=
bool_decide (wolfpsa_check_context alg ctx = PSA_SUCCESS) &&
match m with
| OfHash =>
    if is_mldsa_type (attr_type a) then negb (PSA_ALG_IS_ML_DSA alg) && is_hash_mldsa_alg alg
    else PSA_ALG_IS_SIGN_HASH alg && negb (stateful_hash_type (attr_type a)) && dispatchable a
| OfMessage =>
    if is_mldsa_type (attr_type a) then
      PSA_ALG_IS_ML_DSA alg || (is_hash_mldsa_alg alg && hashable (PSA_ALG_GET_HASH alg) data)
    else if stateful_hash_type (attr_type a) then alg =? stateful_alg (attr_type a)
    else if is_pure_eddsa_alg alg && is_edwards_type (attr_type a) then edwards_bits (attr_bits a)
    else if alg =? PSA_ALG_RSA_PKCS1V15_SIGN_RAW
    then (zlen data <=? WOLFPSA_HASH_MAX_SIZE) && dispatchable a
    else hashable (PSA_ALG_SIGN_GET_HASH alg) data && dispatchable a
end.

(** After a verifying call; [ok] says that it cannot but reach the backend. *)
Definition verify_post a (key : list byte) (alg : Z) (ctx : input) (inp sig : list byte) (ok : Prop) s
  (st : psa_status_t) s' : Prop :=
steps s s' /\
(st = PSA_SUCCESS -> valid_sig (key_claim a key alg ctx inp) sig) /\
(ready s -> ok -> can_verify a key alg ctx inp -> valid_sig (key_claim a key alg ctx inp) sig ->
 st = PSA_SUCCESS).

Lemma wp_declined a key alg ctx inp sig (ok : Prop) e s :
e <> PSA_SUCCESS -> (ok -> False) -> wp (mret e) (verify_post a key alg ctx inp sig ok s) s.
Proof. intros He Hno. apply wp_ret. split; [apply steps_refl|]. split; [done|]. intros _ Hok. by destruct Hno. Qed.

Lemma verify_post_steps a key alg ctx inp sig (ok ok' : Prop) s s1 st s' :
steps s s1 -> (ready s -> ok -> ok') ->
verify_post a key alg ctx inp sig ok' s1 st s' -> verify_post a key alg ctx inp sig ok s st s'.
Proof.
intros [Hs Hrs] Hw (Hs' & Hok & Hgood). split; [by eapply steps_trans|]. split; [done|].
intros Hr Ho. apply Hgood; auto.
Qed.

Lemma wp_verifies m a key alg ctx inp sig (ok : Prop) s :
verifies public_part valid_sig verifier m (attr_type a) (attr_bits a) key alg
  (bound_context (attr_type a) ctx) inp sig -> (ok -> is_null inp = false) ->
wp m (verify_post a key alg ctx (input_bytes inp) sig ok s) s.
Proof.
intros Hm Hn. eapply wp_mono; [apply Hm|]. intros st s' (Hr & Hok & Hgood).
split; [by apply reads_steps|]. split; [done|]. auto.
Qed.

Lemma wp_verify_edwards a key alg h sig ctx (ok : Prop) s :
null_empty h -> null_empty ctx -> is_edwards_type (attr_type a) = true ->
(ok -> is_null h = false /\ edwards_bits (attr_bits a) = true) ->
wp (verify_edwards a key alg h sig ctx) (verify_post a key alg ctx (input_bytes h) sig ok s) s.
Proof.
intros Hin Hctx Hed Hk. unfold verify_edwards.
assert (Hb : bound_context (attr_type a) ctx = input_bytes ctx).
{ unfold bound_context. by rewrite Hed, orb_true_r. }
unfold edwards_bits in Hk.
destruct (HAVE_ED25519 && _) eqn:H255; [|destruct (HAVE_ED448 && _) eqn:H448].
- apply andb_true_iff in H255 as [_ H255%Z.eqb_eq].
  apply wp_verifies; [rewrite Hb; by apply verifies_ed25519|by intros [? _]%Hk].
- apply andb_true_iff in H448 as [_ H448%Z.eqb_eq].
  apply wp_verifies; [rewrite Hb; by apply verifies_ed448|by intros [? _]%Hk].
- apply wp_declined; [done|]. by intros [_ ?]%Hk.
Qed.

Lemma wp_verify_dispatch a key alg h sig ctx (ok : Prop) s :
null_empty h -> null_empty ctx -> is_mldsa_type (attr_type a) = false ->
(ok -> is_null h = false /\ dispatchable a = true) ->
wp (verify_dispatch a key alg h sig ctx) (verify_post a key alg ctx (input_bytes h) sig ok s) s.
Proof.
intros Hin Hctx Hm Hk. unfold verify_dispatch. unfold dispatchable in Hk.
destruct (PSA_KEY_TYPE_IS_RSA (attr_type a)) eqn:Hrsa.
{ apply wp_verifies; [|by intros [? _]%Hk].
  destruct (rsa_not_bound _ Hrsa). rewrite bound_none by done. by apply verifies_rsa. }
destruct (is_edwards_type (attr_type a)) eqn:Hed; [by apply wp_verify_edwards|].
destruct (HAVE_ECC && _) eqn:Hecc; [|apply wp_declined; [done|by intros [_ ?]%Hk]].
apply andb_true_iff in Hecc as [_ Hecc].
apply wp_verifies; [|by intros [? _]%Hk]. rewrite bound_none by done. by apply verifies_ecc.
Qed.

Lemma wp_mldsa_verify a key alg ctx h hashed sig (ok : Prop) s :
null_empty h -> null_empty ctx -> is_mldsa_type (attr_type a) = true -> hashed = negb (PSA_ALG_IS_ML_DSA alg) ->
(ok -> is_null h = false) ->
wp (mldsa_verify (attr_bits a) (attr_type a) key alg ctx h hashed sig)
  (verify_post a key alg ctx (input_bytes h) sig ok s) s.
Proof.
intros Hin Hctx Hm Hh Hk. apply wp_verifies; [|done]. unfold bound_context. rewrite Hm.
apply verifies_mldsa; [by apply andb_true_iff in Hm as [_ ?]|done..].
Qed.

(** What the caller promises, for a verification to be decided by the backend. *)
Definition acceptable (m : mode) a alg ctx (inp sig : input) : Prop :=
is_null inp = false /\ input_length sig <> 0 /\ accepts m a alg ctx (input_bytes inp) = true.

Lemma acceptable_checks m a alg ctx inp sig :
acceptable m a alg ctx inp sig -> wolfpsa_check_context alg ctx = PSA_SUCCESS.
Proof.
intros (_ & _ & Ha). unfold accepts in Ha. apply andb_true_iff in Ha as [Hc _].
by apply bool_decide_eq_true in Hc.
Qed.

Lemma wp_verify_hash_with_key a key alg h ctx sig s :
null_empty h -> null_empty ctx ->
wp (verify_hash_with_key a key alg h ctx sig)
  (verify_post a key alg ctx (input_bytes h) (input_bytes sig) (acceptable OfHash a alg ctx h sig) s) s.
Proof.
intros Hin Hctx. unfold verify_hash_with_key.
destruct (Z.eqb_spec (input_length sig) 0) as [H0|H0].
{ apply wp_declined; [done|]. by intros (_ & ? & _). }
destruct (wolfpsa_check_context alg ctx) eqn:Hcc;
  try (apply wp_declined; [done|]; intros Ha%acceptable_checks; congruence).
assert (Hn : acceptable OfHash a alg ctx h sig -> is_null h = false) by (by intros [? _]).
unfold acceptable, accepts in *. rewrite Hcc in *.
destruct (is_mldsa_type (attr_type a)) eqn:Hm.
- destruct (PSA_ALG_IS_ML_DSA alg) eqn:Hp; [apply wp_declined; [done|by intros (_ & _ & ?)]|].
  destruct (is_hash_mldsa_alg alg) eqn:Hh; [|apply wp_declined; [done|by intros (_ & _ & ?)]].
  apply wp_mldsa_verify; [done..|by apply is_mldsa_alg_flag|done].
- destruct (PSA_ALG_IS_SIGN_HASH alg); cbn [negb];
    [|apply wp_declined; [done|by intros (_ & _ & ?)]].
  destruct (stateful_hash_type _) eqn:Hst; [apply wp_declined; [done|by intros (_ & _ & ?)]|].
  apply wp_verify_dispatch; [done..|]. by intros (? & _ & ?).
Qed.

Lemma wp_verify_stateful a key alg h sig ctx (ok : Prop) s :
null_empty h -> stateful_hash_type (attr_type a) = true ->
(ok -> is_null h = false /\ (alg =? stateful_alg (attr_type a)) = true) ->
wp (verify_stateful a key alg h sig) (verify_post a key alg ctx (input_bytes h) sig ok s) s.
Proof.
intros Hin Hst Hk. destruct (stateful_not_bound _ Hst) as [Hm Hed].
unfold verify_stateful. cbv zeta. unfold stateful_alg in Hk.
assert (Hv : forall m,
  verifies public_part valid_sig verifier m (attr_type a) (attr_bits a) key alg [] h sig ->
  wp m (verify_post a key alg ctx (input_bytes h) sig ok s) s).
{ intros m Hv. apply wp_verifies; [by rewrite bound_none|by intros [? _]%Hk]. }
unfold stateful_hash_type in Hst. apply orb_true_iff in Hst.
assert (Hlms : WOLFSSL_HAVE_LMS = true -> is_lms_type (attr_type a) = true ->
  wp (lms_verify key h sig) (verify_post a key alg ctx (input_bytes h) sig ok s) s)
  by (intros _ Ht; by apply Hv, verifies_lms).
unfold is_lms_type, is_xmss_type in *.
destruct WOLFSSL_HAVE_LMS; cbn [andb] in *;
  [destruct (attr_type a =? PSA_KEY_TYPE_LMS_PUBLIC_KEY) eqn:E1;
   [|destruct (attr_type a =? PSA_KEY_TYPE_HSS_PUBLIC_KEY) eqn:E2]|].
1-2: (destruct (alg =? _); cbn [negb]; [by apply Hlms|apply wp_declined; [done|by intros [_ ?]%Hk]]).
all: destruct Hst as [Hst|Hst]; [done|]; apply andb_true_iff in Hst as [Hx Hst]; rewrite Hx in *; cbn [andb] in *;
  destruct (attr_type a =? PSA_KEY_TYPE_XMSS_PUBLIC_KEY) eqn:E3;
  (destruct (alg =? _); cbn [negb];
   [apply Hv, verifies_xmss; [done|unfold is_xmss_type; by rewrite E3]
   |apply wp_declined; [done|by intros [_ ?]%Hk]]).
Qed.

(** A digest step in front of a verifying call. *)
Lemma wp_digest_verify a key alg ctx inp sig h data (ok ok' : Prop)
  (k : psa_status_t * list byte -> M _ psa_status_t) s :
inp = digest h (input_bytes data) ->
(ok -> input_valid data /\ PSA_ALG_IS_HASH h = true /\ psa_hash_get_size h <> 0 /\ ok') ->
(forall e s', e <> PSA_SUCCESS -> wp (k (e, [])) (verify_post a key alg ctx inp sig False s') s') ->
(forall s', wp (k (PSA_SUCCESS, inp)) (verify_post a key alg ctx inp sig ok' s') s') ->
wp (r ← local_digest h data; k r) (verify_post a key alg ctx inp sig ok s) s.
Proof.
intros -> Hok Hbad Hgood. apply wp_bind, wp_local_digest.
- intros e s' Hs He Hno. eapply wp_mono; [by apply Hbad|]. intros r s2. apply verify_post_steps; [done|].
  intros Hr Ho. destruct (Hok Ho) as (H1 & H2 & H3 & _). by apply Hno.
- intros s' Hs _. eapply wp_mono; [apply Hgood|]. intros r s2. apply verify_post_steps; [done|].
  intros _ Ho. by destruct (Hok Ho) as (_ & _ & _ & ?).
Qed.

Lemma hashable_spec h inp :
is_null inp = false -> hashable h (input_bytes inp) = true ->
input_valid inp /\ PSA_ALG_IS_HASH h = true /\ psa_hash_get_size h <> 0.
Proof.
intros Hn. unfold hashable. rewrite !andb_true_iff, negb_true_iff, Z.eqb_neq. intros [[H1 H2] H3].
split_and!; [|done|done]. split; [congruence|]. by destruct inp.
Qed.

Lemma wp_verify_message_with_key a key alg inp ctx sig s :
null_empty inp -> null_empty ctx ->
wp (verify_message_with_key a key alg inp ctx sig)
  (verify_post a key alg ctx (signed_input OfMessage (attr_type a) alg (input_bytes inp))
     (input_bytes sig) (acceptable OfMessage a alg ctx inp sig) s) s.
Proof.
intros Hin Hctx. unfold verify_message_with_key, signed_input.
destruct (Z.eqb_spec (input_length sig) 0) as [H0|H0].
{ apply wp_declined; [done|]. by intros (_ & ? & _). }
destruct (wolfpsa_check_context alg ctx) eqn:Hcc;
  try (apply wp_declined; [done|]; intros Ha%acceptable_checks; congruence).
assert (Hn : acceptable OfMessage a alg ctx inp sig -> is_null inp = false) by (by intros [? _]).
unfold acceptable, accepts in *. rewrite Hcc in *.
change (bool_decide (PSA_SUCCESS = PSA_SUCCESS)) with true in *. cbn [andb] in *. cbv zeta.
destruct (is_mldsa_type (attr_type a)) eqn:Hm.
{ destruct (PSA_ALG_IS_ML_DSA alg) eqn:Hp; cbn [negb andb orb] in *.
  { apply wp_mldsa_verify; [done..|by rewrite Hp|done]. }
  destruct (is_hash_mldsa_alg alg) eqn:Hh; cbn [negb andb] in *;
    [|apply wp_declined; [done|by intros (_ & _ & ?)]].
  apply (wp_digest_verify _ _ _ _ _ _ _ _ _ True); [done| | |].
  - intros (Hnull & _ & Hha). by destruct (hashable_spec _ _ Hnull Hha) as (? & ? & ?).
  - intros e s' He. destruct e; [done|by apply wp_declined ..].
  - intros s'. apply (wp_mldsa_verify _ _ _ _ (Bytes _)); [done..|by apply is_mldsa_alg_flag|done]. }
destruct (stateful_hash_type _) eqn:Hst; [apply wp_verify_stateful; [done..|by intros (? & _ & ?)]|].
destruct (is_pure_eddsa_alg alg && is_edwards_type (attr_type a)) eqn:Hpe.
{ apply andb_true_iff in Hpe as [_ Hed]. apply wp_verify_edwards; [done..|]. by intros (? & _ & ?). }
unfold message_hash.
destruct (alg =? PSA_ALG_RSA_PKCS1V15_SIGN_RAW).
- apply wp_bind. destruct (Z.ltb_spec WOLFPSA_HASH_MAX_SIZE (input_length inp)) as [Hlen|Hlen]; apply wp_ret.
  { apply wp_declined; [done|]. intros (Hnull & _ & Ha). apply andb_true_iff in Ha as [Ha _].
    apply Z.leb_le in Ha. destruct inp; [done|]. simpl in *. lia. }
  apply (wp_verify_dispatch _ _ _ (Bytes (input_bytes inp))); [done..|].
  intros (_ & _ & Ha). apply andb_true_iff in Ha as [_ Ha]. done.
- cbv zeta. destruct (Z.eqb_spec (PSA_ALG_SIGN_GET_HASH alg) 0) as [Hz|Hh].
  { apply wp_bind, wp_ret. apply wp_declined; [done|]. intros (_ & _ & Ha).
    rewrite Hz in Ha. done. }
  apply (wp_digest_verify _ _ _ _ _ _ _ _ _ (dispatchable a = true)); [done| | |].
  + intros (Hnull & _ & Ha). apply andb_true_iff in Ha as [Hha Hd].
    by destruct (hashable_spec _ _ Hnull Hha) as (? & ? & ?).
  + intros e s' He. destruct e; [done|by apply wp_declined ..].
  + intros s'. by apply (wp_verify_dispatch _ _ _ (Bytes _)).
Qed.

(** * The entry points *)

Definition sign_usage (m : mode) : Z :=
match m with OfHash => PSA_KEY_USAGE_SIGN_HASH | OfMessage => PSA_KEY_USAGE_SIGN_MESSAGE end.
Definition verify_usage (m : mode) : Z :=
match m with OfHash => PSA_KEY_USAGE_VERIFY_HASH | OfMessage => PSA_KEY_USAGE_VERIFY_MESSAGE end.

Definition api_sign (m : mode) (key alg : Z) (inp ctx : input) (buf : bool) (size : Z) (len : bool) :=
match m with
| OfHash => psa_sign_hash_with_context key alg inp ctx buf size len
| OfMessage => psa_sign_message_with_context key alg inp ctx buf size len
end.
Definition api_verify (m : mode) (key alg : Z) (inp ctx sig : input) :=
match m with
| OfHash => psa_verify_hash_with_context key alg inp ctx sig
| OfMessage => psa_verify_message_with_context key alg inp ctx sig
end.

(** After a call that signs under a key identifier. *)
Definition api_sign_post (m : mode) (key alg : Z) (inp ctx : input) (size : Z) s
  (r : psa_status_t * list byte) s' : Prop :=
steps s s' /\
(r.1 = PSA_SUCCESS -> exists a d data, inp = Bytes data /\
   table (op_lib s) key = Some (a, d) /\ key_permits a (sign_usage m) alg = true /\
   PSA_KEY_TYPE_IS_KEY_PAIR (attr_type a) = true /\
   valid_sig (key_claim a d alg ctx (signed_input m (attr_type a) alg data)) r.2 /\
   0 < zlen r.2 <= size) /\
(r.1 <> PSA_SUCCESS -> r.2 = []).

Lemma wp_api_sign m key alg inp ctx buf size len s :
store_inv (op_lib s) -> null_empty ctx ->
wp (api_sign m key alg inp ctx buf size len) (api_sign_post m key alg inp ctx size s) s.
Proof.
intros Hi Hctx.
assert (Hno : forall e s', steps s s' -> e <> PSA_SUCCESS ->
  wp (refused e) (api_sign_post m key alg inp ctx size s) s').
{ intros e s' Hs He. apply wp_ret. split; [done|]. by split. }
assert (Hkey : forall data (k : psa_key_attributes_t -> list byte -> M _ (psa_status_t * list byte)),
  inp = Bytes data ->
  (forall a d s', wp (k a d) (sign_post a d alg ctx (signed_input m (attr_type a) alg data) size s') s') ->
  wp (r ← lib (wolfpsa_asymmetric_check_key key (sign_usage m) alg);
      match r with inl e => refused e | inr (a, d) => k a d end)
    (api_sign_post m key alg inp ctx size s) s).
{ intros data k -> Hk. apply wp_bind, wp_check_key; [done|]. intros r s1 Hr Hcase _.
  apply reads_steps in Hr. destruct r as [e|[a d]]; [by apply Hno|]. destruct Hcase as [Ht Hp].
  eapply wp_mono; [apply Hk|]. intros r s2 (Hs & Hok & Hbad). split; [by eapply steps_trans|].
  split; [|done]. intros Hst. destruct (Hok Hst) as (? & ? & ?). by exists a, d, data. }
destruct m; unfold api_sign, psa_sign_hash_with_context, psa_sign_message_with_context,
  wolfpsa_sign_hash_worker, wolfpsa_sign_message_worker;
  (destruct len; [|by apply Hno; [apply steps_refl|]]); cbn [negb];
  (destruct inp as [n|data]; [by apply Hno; [apply steps_refl|]|]); cbn [is_null];
  (destruct (negb buf && _); [by apply Hno; [apply steps_refl|]|]).
- apply (Hkey data (fun a d => sign_hash_with_key a d alg (Bytes data) ctx buf size)); [done|].
  intros. by apply wp_sign_hash_with_key.
- apply (Hkey data (fun a d => sign_message_with_key a d alg (Bytes data) ctx buf size)); [done|].
  intros. by apply wp_sign_message_with_key.
Qed.

(** After a call that verifies under a key identifier. *)
Definition api_verify_post (m : mode) (key alg : Z) (inp ctx sig : input) s (st : psa_status_t) s' : Prop :=
steps s s' /\
(st = PSA_SUCCESS -> exists a d, table (op_lib s) key = Some (a, d) /\
   key_permits a (verify_usage m) alg = true /\
   valid_sig (key_claim a d alg ctx (signed_input m (attr_type a) alg (input_bytes inp))) (input_bytes sig)) /\
(ready s -> valid_id key -> (is_null inp = true -> input_length inp = 0) ->
 (is_null sig = true -> input_length sig = 0) ->
 match key_verdict (table (op_lib s) key) (verify_usage m) alg with
 | inl e => st = e
 | inr (a, d) =>
     (input_length sig = 0 -> st = PSA_ERROR_INVALID_SIGNATURE) /\
     (acceptable m a alg ctx inp sig ->
      can_verify a d alg ctx (signed_input m (attr_type a) alg (input_bytes inp)) ->
      valid_sig (key_claim a d alg ctx (signed_input m (attr_type a) alg (input_bytes inp)))
        (input_bytes sig) -> st = PSA_SUCCESS)
 end).

Lemma verify_with_key_empty m a d alg inp ctx sig :
input_length sig = 0 ->
match m with
| OfHash => verify_hash_with_key a d alg inp ctx sig
| OfMessage => verify_message_with_key a d alg inp ctx sig
end = mret PSA_ERROR_INVALID_SIGNATURE.
Proof.
intros H0. destruct m; unfold verify_hash_with_key, verify_message_with_key; by rewrite H0.
Qed.

Lemma wp_verify_key m key alg inp ctx sig s :
store_inv (op_lib s) -> null_empty inp -> null_empty ctx ->
wp (r ← lib (wolfpsa_asymmetric_check_key key (verify_usage m) alg);
    match r with
    | inl e => mret e
    | inr (a, d) =>
        match m with
        | OfHash => verify_hash_with_key a d alg inp ctx sig
        | OfMessage => verify_message_with_key a d alg inp ctx sig
        end
    end) (api_verify_post m key alg inp ctx sig s) s.
Proof.
intros Hi Hin Hctx. apply wp_bind, wp_check_key; [done|]. intros r s1 Hr Hcase Hexact.
apply reads_steps in Hr. destruct r as [e|[a d]].
- apply wp_ret. split; [done|]. split; [by intros ->|]. intros Hrd Hid _ _.
  by rewrite <- (Hexact Hrd Hid).
- destruct Hcase as [Ht Hp].
  assert (Hwp : wp match m with
      | OfHash => verify_hash_with_key a d alg inp ctx sig
      | OfMessage => verify_message_with_key a d alg inp ctx sig
      end (verify_post a d alg ctx (signed_input m (attr_type a) alg (input_bytes inp))
             (input_bytes sig) (acceptable m a alg ctx inp sig) s1) s1).
  { destruct m; [by apply wp_verify_hash_with_key|by apply wp_verify_message_with_key]. }
  destruct (decide (input_length sig = 0)) as [H0|H0].
  { rewrite verify_with_key_empty by done. apply wp_ret. split; [done|]. split; [done|].
    intros Hrd Hid _ _. rewrite <- (Hexact Hrd Hid). split; [done|]. by intros (_ & ? & _). }
  eapply wp_mono; [apply Hwp|]. intros st s2 (Hs & Hok & Hgood).
  split; [by eapply steps_trans|]. split; [intros Hst; exists a, d; auto|].
  intros Hrd Hid _ _. rewrite <- (Hexact Hrd Hid). split; [done|].
  destruct Hr as [_ Hr]. auto.
Qed.

Lemma wp_api_verify m key alg inp ctx sig s :
store_inv (op_lib s) -> null_empty ctx ->
wp (api_verify m key alg inp ctx sig) (api_verify_post m key alg inp ctx sig s) s.
Proof.
intros Hi Hctx. pose proof (fun Hin => wp_verify_key m key alg inp ctx sig s Hi Hin Hctx) as Hwp.
assert (Hbad : forall i, is_null i && negb (input_length i =? 0) = true ->
  (is_null i = true -> input_length i = 0) -> False).
{ intros i [Hn Hl]%andb_true_iff H. by rewrite (H Hn) in Hl. }
assert (Hgood : forall i, is_null i && negb (input_length i =? 0) = false -> null_empty i).
{ intros i H Hn. rewrite Hn in H. apply negb_false_iff in H. lia. }
destruct m; unfold api_verify, psa_verify_hash_with_context, psa_verify_message_with_context,
  wolfpsa_verify_hash_worker, wolfpsa_verify_message_worker;
  (destruct (is_null inp && _) eqn:Hinp;
   [apply wp_ret; split; [apply steps_refl|]; split; [done|]; intros _ _ H _; by destruct (Hbad _ Hinp)|]);
  (destruct (is_null sig && _) eqn:Hsig;
   [apply wp_ret; split; [apply steps_refl|]; split; [done|]; intros _ _ _ H; by destruct (Hbad _ Hsig)|]);
  apply Hwp, Hgood, Hinp.
Qed.



(** What is signed verifies: a signature that one of the two signing calls
  gives is accepted by either verifying call, under a key of the same public part,
  on data of which the algorithm signs the same (the message or its digest), when
  that key permits it and nothing fails underneath. *)
Theorem sign_verify_roundtrip m m' key key2 alg data data2 ctx buf size s sig s1 a2 d2 :
store_inv (op_lib s) -> ready s -> null_empty ctx -> valid_id key2 ->
api_sign m key alg (Bytes data) ctx buf size true s = ((PSA_SUCCESS, sig), s1) ->
key_verdict (table (op_lib s) key2) (verify_usage m') alg = inr (a2, d2) ->
(forall a d, table (op_lib s) key = Some (a, d) ->
   signed_input m (attr_type a) alg data = signed_input m' (attr_type a2) alg data2 /\
   key_claim a2 d2 alg ctx (signed_input m (attr_type a) alg data)
   = key_claim a d alg ctx (signed_input m (attr_type a) alg data)) ->
can_verify a2 d2 alg ctx (signed_input m' (attr_type a2) alg data2) ->
accepts m' a2 alg ctx data2 = true ->
exists s2, api_verify m' key2 alg (Bytes data2) ctx (Bytes sig) s1 = (PSA_SUCCESS, s2).
Proof.
intros Hi Hr Hctx Hid Hrun Hkv Hsame Hcan Hacc.
pose proof (wp_run _ _ _ _ _ Hrun (wp_api_sign m key alg (Bytes data) ctx buf size true s Hi Hctx))
  as (Hs & Hok & _). cbn [fst snd] in *.
destruct (Hok eq_refl) as (a & d & x & [= <-] & Ht & _ & _ & Hv & Hlen).
destruct (Hsame _ _ Ht) as (Hinp & Hcl).
destruct (steps_store_inv _ _ Hi Hs) as [Hi1 _].
destruct (api_verify m' key2 alg (Bytes data2) ctx (Bytes sig) s1) as [st s2] eqn:Hver.
pose proof (wp_run _ _ _ _ _ Hver (wp_api_verify m' key2 alg (Bytes data2) ctx (Bytes sig) s1 Hi1 Hctx))
  as (_ & _ & Hgood).
assert (Hr1 : ready s1) by (by apply Hs).
specialize (Hgood Hr1 Hid). simpl is_null in Hgood.
destruct Hs as [Hs _]. rewrite (settled_table _ _ key2 Hs), Hkv in Hgood.
destruct Hgood as [_ Hgood]; [done..|]. exists s2. f_equal. apply Hgood.
- split_and!; [done|simpl; lia|done].
- done.
- simpl input_bytes. by rewrite <- Hinp, Hcl.
Qed.

(** * Encryption *)

(** The key check in front of the two calls. *)
Lemma wp_asymmetric_cipher backend usage key alg inp salt output size len
  (Q : psa_status_t * list byte -> opstate O psa_hash_operation_ctx -> Prop) s :
store_inv (op_lib s) ->
(forall e s', reads s s' -> e <> PSA_SUCCESS ->
   (ready s -> valid_id key -> len = true -> output = true \/ size = 0 ->
    match key_verdict (table (op_lib s) key) usage alg with
    | inl e' => e = e'
    | inr (a, _) => PSA_KEY_TYPE_IS_RSA (attr_type a) = false
    end) -> Q (e, []) s') ->
(forall a d s', reads s s' -> table (op_lib s) key = Some (a, d) ->
   key_permits a usage alg = true -> PSA_KEY_TYPE_IS_RSA (attr_type a) = true ->
   wp (backend (attr_type a) (attr_bits a) d alg inp salt output size) Q s') ->
wp (asymmetric_cipher backend usage key alg inp salt output size len) Q s.
Proof.
intros Hi Hbad Hgood. unfold asymmetric_cipher.
destruct len; cbn [negb].
2: { apply wp_ret, Hbad; [apply reads_refl|done|]. by intros _ _ ?. }
apply wp_bind, wp_check_key; [done|]. intros r s1 Hr Hcase Hex. destruct r as [e|[a d]].
- apply wp_ret, Hbad; [done|done|]. intros Hrd Hid _ _. by rewrite <- (Hex Hrd Hid).
- destruct Hcase as [Ht Hp].
  destruct (PSA_KEY_TYPE_IS_RSA (attr_type a)) eqn:Hrsa.
  + destruct (negb output && negb (size =? 0)) eqn:Hout; [|by apply Hgood].
    apply wp_ret, Hbad; [done|done|]. intros _ _ _ Ho.
    apply andb_true_iff in Hout as [Ho1 Ho2]. destruct output; [done|].
    destruct Ho as [?| ->]; done.
  + apply wp_ret, Hbad; [done|by destruct (PSA_KEY_TYPE_IS_ASYMMETRIC _)|].
    intros Hrd Hid _ _. by rewrite <- (Hex Hrd Hid).
Qed.

Lemma wp_encrypt key alg inp salt output size len s :
store_inv (op_lib s) -> null_empty salt ->
wp (psa_asymmetric_encrypt key alg inp salt output size len)
  (fun r s' => reads s s' /\
   (r.1 = PSA_SUCCESS -> exists a d, table (op_lib s) key = Some (a, d) /\
      key_permits a PSA_KEY_USAGE_ENCRYPT alg = true /\
      encrypts (public_part (attr_type a) (attr_bits a) d) alg (input_bytes salt) (input_bytes inp) r.2 /\
      0 < zlen r.2 <= size) /\
   (r.1 <> PSA_SUCCESS -> r.2 = [])) s.
Proof.
intros Hi Hsalt. apply wp_asymmetric_cipher; [done|by intros; split_and!|].
intros a d s1 Hr Ht Hp _. eapply wp_mono; [by apply encrypting_rsa|]. intros r s2 (Hr2 & Hok & Hno).
split; [by eapply reads_trans|]. split; [|done]. intros Hst. destruct (Hok Hst) as (? & ?). by exists a, d.
Qed.

(** C21: What [psa_asymmetric_encrypt] gives under a key, [psa_asymmetric_decrypt]
  turns back into the message under a key pair with that public part, whenever
  that key permits it, the buffer has room and nothing fails underneath. *)
Theorem asymmetric_roundtrip key key2 alg inp salt output size s c s1 out2 size2 a2 d2 :
store_inv (op_lib s) -> ready s -> null_empty salt -> valid_id key2 ->
psa_asymmetric_encrypt key alg inp salt output size true s = ((PSA_SUCCESS, c), s1) ->
key_verdict (table (op_lib s) key2) PSA_KEY_USAGE_DECRYPT alg = inr (a2, d2) ->
(forall a d, table (op_lib s) key = Some (a, d) ->
   public_part (attr_type a2) (attr_bits a2) d2 = public_part (attr_type a) (attr_bits a) d) ->
PSA_KEY_TYPE_IS_RSA (attr_type a2) = true -> decrypter (attr_type a2) (attr_bits a2) d2 alg ->
out2 = true \/ size2 = 0 -> zlen (input_bytes inp) <= size2 ->
exists s2, psa_asymmetric_decrypt key2 alg (Bytes c) salt out2 size2 true s1
           = ((PSA_SUCCESS, input_bytes inp), s2).
Proof.
intros Hi Hrd Hsalt Hid Hrun Hkv Hpub Hrsa Hdec Hout Hsize.
pose proof (wp_run _ _ _ _ _ Hrun (wp_encrypt key alg inp salt output size true s Hi Hsalt))
  as (Hr1 & Hok & _).
destruct (Hok eq_refl) as (a & d & Ht & _ & Henc & _). cbn [fst snd] in *.
rewrite <- (Hpub _ _ Ht) in Henc.
pose proof (reads_store_inv _ _ Hi Hr1) as Hi1. pose proof (reads_table _ _ key2 Hr1) as Ht1.
assert (Hrd1 : ready s1) by (by apply Hr1).
assert (Hwp : wp (psa_asymmetric_decrypt key2 alg (Bytes c) salt out2 size2 true)
                (fun r _ => r = (PSA_SUCCESS, input_bytes inp)) s1).
{ apply wp_asymmetric_cipher; [done| |].
  - intros e s2 _ He Hno. specialize (Hno Hrd1 Hid eq_refl Hout). rewrite Ht1, Hkv in Hno.
    congruence.
  - intros a3 d3 s2 Hr2 Ht2 Hp2 _. rewrite Ht1 in Ht2. unfold key_verdict in Hkv.
    rewrite Ht2, Hp2 in Hkv. injection Hkv as -> ->.
    eapply wp_mono; [by apply decrypting_rsa|]. intros r s3 (_ & _ & _ & Hgood).
    apply Hgood; [by apply Hr2|done..]. }
destruct (psa_asymmetric_decrypt _ _ _ _ _ _ _ s1) as [r s2] eqn:Hd.
apply (wp_run _ _ _ _ _ Hd) in Hwp as ->. by exists s2.
Qed.

(** * Deviations *)

(** A call that can never succeed reports a buffer problem: an RSA public key
  does not sign, and with a small buffer the answer is
  [PSA_ERROR_BUFFER_TOO_SMALL]. *)
Lemma public_key_small_buffer a d alg h size :
attr_type a = PSA_KEY_TYPE_RSA_PUBLIC_KEY -> PSA_ALG_IS_SIGN_HASH alg = true ->
0 <= size < PSA_BITS_TO_BYTES (attr_bits a) ->
sign_hash_with_key a d alg (Bytes h) no_context true size = refused PSA_ERROR_BUFFER_TOO_SMALL /\
PSA_KEY_TYPE_IS_KEY_PAIR (attr_type a) = false.
Proof.
intros Hty Halg Hsize. unfold sign_hash_with_key, signature_too_large, wolfpsa_sign_output_size.
rewrite Hty, Halg. split; [|done].
replace (is_mldsa_type PSA_KEY_TYPE_RSA_PUBLIC_KEY) with false
  by (symmetry; apply (rsa_not_bound PSA_KEY_TYPE_RSA_PUBLIC_KEY eq_refl)).
replace (stateful_hash_type PSA_KEY_TYPE_RSA_PUBLIC_KEY) with false
  by (unfold stateful_hash_type; by destruct WOLFSSL_HAVE_LMS, WOLFSSL_HAVE_XMSS).
rewrite andb_false_r. cbn [andb negb].
change (PSA_SIGN_OUTPUT_SIZE PSA_KEY_TYPE_RSA_PUBLIC_KEY (attr_bits a) alg)
  with (PSA_BITS_TO_BYTES (attr_bits a)).
rewrite (proj2 (Z.eqb_neq _ 0)), (proj2 (Z.ltb_lt size _)) by lia. done.
Qed.

(** The message calls take raw PKCS#1 v1.5, which is not an algorithm for
  messages, and sign the message in place of a hash. *)
Lemma raw_message_accepted a data :
PSA_KEY_TYPE_IS_RSA (attr_type a) = true -> zlen data <= WOLFPSA_HASH_MAX_SIZE ->
PSA_ALG_IS_SIGN_MESSAGE PSA_ALG_RSA_PKCS1V15_SIGN_RAW = false /\
accepts OfMessage a PSA_ALG_RSA_PKCS1V15_SIGN_RAW no_context data = true /\
signed_input OfMessage (attr_type a) PSA_ALG_RSA_PKCS1V15_SIGN_RAW data = data.
Proof.
intros Hrsa Hlen. destruct (rsa_not_bound _ Hrsa) as [Hm _]. split; [done|].
unfold accepts, signed_input, dispatchable. rewrite Hm, Hrsa, Z.eqb_refl.
replace (stateful_hash_type (attr_type a)) with false.
- rewrite (proj2 (Z.leb_le _ _) Hlen). done.
- symmetry. unfold stateful_hash_type, is_lms_type, is_xmss_type.
  unfold PSA_KEY_TYPE_IS_RSA in Hrsa. apply Z.eqb_eq in Hrsa.
  destruct (Z.eqb_spec (attr_type a) PSA_KEY_TYPE_LMS_PUBLIC_KEY) as [Eq|]; [by rewrite Eq in Hrsa|].
  destruct (Z.eqb_spec (attr_type a) PSA_KEY_TYPE_HSS_PUBLIC_KEY) as [Eq|]; [by rewrite Eq in Hrsa|].
  destruct (Z.eqb_spec (attr_type a) PSA_KEY_TYPE_XMSS_PUBLIC_KEY) as [Eq|]; [by rewrite Eq in Hrsa|].
  destruct (Z.eqb_spec (attr_type a) PSA_KEY_TYPE_XMSS_MT_PUBLIC_KEY) as [Eq|]; [by rewrite Eq in Hrsa|].
  by rewrite !andb_false_r.
Qed.
End Spec.
