(* ===== verification/Rsa.v ===== *)
(** RSA signatures and encryption: [src/psa_rsa.c] (key generation and export of
    the same file are parameters of the key store), with the paddings of
    [src/psa_asymmetric.c]. *)

From stdpp Require Import base decidable list.
From Stdlib Require Import ZArith Lia.
From Stdlib Require Import Strings.Byte.
From S2P Require Import Prelude.
From S2P Require Import Values.
From S2P Require Import Engine.
From S2P Require Import WolfCrypt.
From S2P Require Import KeyFormat.
From S2P Require Import StoreIface.
From S2P Require Import Library.
From S2P Require Import KeyStore.
From S2P Require Import Operation.
From S2P Require Import AsymValues.
From S2P Require Import WolfSign.

#[local] Open Scope Z_scope.

Section RsaDefs.
Context {C : Config} {E : WolfCryptErr} {K : WolfCryptKeys} {R : WolfCryptRng}.
Context {WM : WolfCryptMisc} {WD : WolfCryptDigest} {WR : WolfCryptRsa K}.

(** * Paddings *)

Definition wc_psa_get_rsa_padding (alg : Z) : Z :=
if NO_RSA then 0
else if PSA_ALG_IS_RSA_PKCS1V15_SIGN alg then WC_RSA_PKCSV15_PAD
else if PSA_ALG_IS_RSA_PSS alg then WC_RSA_PSS_PAD
else if alg =? PSA_ALG_RSA_PKCS1V15_CRYPT then WC_RSA_PKCSV15_PAD
else if PSA_ALG_IS_RSA_OAEP alg then WC_RSA_OAEP_PAD
else 0.

Definition wc_psa_get_mgf (hash_type : wc_HashType) : wc_Mgf :=
match hash_type with
| WC_HASH_TYPE_SHA => WC_MGF1SHA1
| WC_HASH_TYPE_SHA224 => WC_MGF1SHA224
| WC_HASH_TYPE_SHA256 => WC_MGF1SHA256
| WC_HASH_TYPE_SHA384 => WC_MGF1SHA384
| WC_HASH_TYPE_SHA512 => WC_MGF1SHA512
| WC_HASH_TYPE_SHA512_224 => WC_MGF1SHA512_224
| WC_HASH_TYPE_SHA512_256 => WC_MGF1SHA512_256
| _ => WC_MGF1NONE
end.

Definition wc_psa_rsa_hash_length_ok (alg hash_length : Z) : bool :=
if alg =? PSA_ALG_RSA_PKCS1V15_SIGN_RAW then true
else
  let expected := PSA_HASH_LENGTH (PSA_ALG_SIGN_GET_HASH alg) in
  negb (expected =? 0) && (hash_length =? expected).

Definition wc_psa_rsa_status (ret : Z) (bad_input : psa_status_t) : psa_status_t :=
if (ret =? BUFFER_E) || (ret =? RSA_BUFFER_E) || (ret =? BAD_PADDING_E) || (ret =? RSA_PAD_E)
   || (ret =? PSS_SALTLEN_E) || (ret =? RSA_OUT_OF_RANGE_E)
then bad_input
else wc_error_to_psa_status ret.

Definition WOLFPSA_RSA_DIGESTINFO_MAX : Z := WC_MAX_DIGEST_SIZE + MAX_DER_DIGEST_ASN_SZ.

(** [wc_RsaPublicKeyDecode] or [wc_RsaPrivateKeyDecode], by the type of the key. *)
Definition rsa_decode (key_type : Z) (key : list byte) : Z * (Z * (mp_int * mp_int)) :=
if key_type =? PSA_KEY_TYPE_RSA_PUBLIC_KEY then wc_RsaPublicKeyDecode key
else wc_RsaPrivateKeyDecode key.

Section Calls.
Context {O : StoreOps} {Op : Type}.

Notation RM := (M (opstate O Op)).

(** The DigestInfo of a hash: [wc_GetCTC_HashOID], the bound on the length and
  [wc_EncodeSignature], into a heap buffer when signing. *)
Definition rsa_digest_info (heap : bool) (hash_type : wc_HashType) (hash : list byte)
: RM (psa_status_t + list byte) :=
let hash_oid := wc_GetCTC_HashOID hash_type in
if hash_oid <=? 0 then mret (inl PSA_ERROR_NOT_SUPPORTED)
else if WC_MAX_DIGEST_SIZE <? zlen hash then mret (inl PSA_ERROR_INVALID_ARGUMENT)
else
  ok ← (if heap then lib (XMALLOC WOLFPSA_RSA_DIGESTINFO_MAX) else mret true);
  if negb ok then mret (inl PSA_ERROR_INSUFFICIENT_MEMORY)
  else
    ret ← wc_call;
    let encoded := if ret <? 0 then [] else wc_EncodeSignature hash hash_oid in
    mret (if zlen encoded =? 0 then inl PSA_ERROR_INSUFFICIENT_MEMORY else inr encoded).

(** * Signing *)

(** The padded signature: [ret] and the bytes, or an early return. *)
Definition rsa_sign_padded (n : nat) (key : list byte) (alg : Z) (hash : list byte) (signature_size : Z)
: RM (psa_status_t + Z * list byte) :=
let padding := wc_psa_get_rsa_padding alg in
let hash_type := wc_psa_get_hash_type alg in
if padding =? WC_RSA_PKCSV15_PAD then
  r ← (if alg =? PSA_ALG_RSA_PKCS1V15_SIGN_RAW then mret (inr hash)
       else rsa_digest_info true hash_type hash);
  match r with
  | inl e => mret (inl e)
  | inr sig_input => r ← wc_result (wc_RsaSSL_Sign n key sig_input signature_size); mret (inr r)
  end
else if padding =? WC_RSA_PSS_PAD then
  if WC_RSA_PSS
  then r ← wc_result (wc_RsaPSS_Sign n key hash signature_size hash_type (wc_psa_get_mgf hash_type));
       mret (inr r)
  else mret (inr (NOT_COMPILED_IN, []))
else mret (inr (BAD_FUNC_ARG, [])).

Definition psa_asymmetric_sign_rsa (key_type key_bits : Z) (key : list byte) (alg : Z)
  (hash : input) (signature : bool) (signature_size : Z) : RM (psa_status_t * list byte) :=
if NO_RSA then mret (PSA_ERROR_NOT_SUPPORTED, [])
else if negb (key_type =? PSA_KEY_TYPE_RSA_KEY_PAIR) then mret (PSA_ERROR_INVALID_ARGUMENT, [])
else if negb (fits_word32 (zlen key)) || negb (fits_word32 (input_length hash))
        || negb (fits_word32 signature_size)
        || negb (wc_psa_rsa_hash_length_ok alg (input_length hash))
then mret (PSA_ERROR_INVALID_ARGUMENT, [])
else
  ret ← wc_call; (* wc_InitRsaKey_ex *)
  if negb (ret =? 0) then mret (wc_error_to_psa_status ret, [])
  else
    ret ← wc_code (wc_RsaPrivateKeyDecode key).1;
    if negb (ret =? 0) then mret (wc_error_to_psa_status ret, [])
    else
      '(ret, n) ← wc_rng;
      if negb (ret =? 0) then mret (wc_error_to_psa_status ret, [])
      else
        r ← rsa_sign_padded n key alg (input_bytes hash) signature_size;
        mret match r with
             | inl e => (e, [])
             | inr (ret, out) =>
                 if ret <? 0 then (wc_psa_rsa_status ret PSA_ERROR_INVALID_ARGUMENT, [])
                 else (PSA_SUCCESS, take (Z.to_nat ret) out)
             end.

(** * Verifying *)

Definition sizeof_decoded : Z := RSA_MAX_SIZE / 8.

(** What PKCS#1 v1.5 recovers against what it should be: [ret] is [found] on a match. *)
Definition rsa_match (ret : Z) (decoded expected : list byte) (found : Z) : Z :=
if 0 <? ret then
  if negb (ret =? zlen expected)
     || negb (ConstantCompare (take (length expected) decoded) expected =? 0)
  then SIG_VERIFY_E else found
else ret.

Definition rsa_verify_padded (pub : mp_int * mp_int) (alg : Z) (hash signature : list byte)
: RM (psa_status_t + Z) :=
let padding := wc_psa_get_rsa_padding alg in
let hash_type := wc_psa_get_hash_type alg in
if padding =? WC_RSA_PKCSV15_PAD then
  if alg =? PSA_ALG_RSA_PKCS1V15_SIGN_RAW then
    '(ret, decoded) ← wc_result (wc_RsaSSL_Verify_ex pub signature sizeof_decoded);
    mret (inr (rsa_match ret decoded hash ret))
  else
    r ← rsa_digest_info false hash_type hash;
    match r with
    | inl e => mret (inl e)
    | inr encoded =>
        '(ret, decoded) ← wc_result (wc_RsaSSL_Verify_ex2 pub signature sizeof_decoded hash_type);
        mret (inr (rsa_match ret decoded encoded (zlen hash)))
    end
else if padding =? WC_RSA_PSS_PAD then
  if negb WC_RSA_PSS then mret (inr NOT_COMPILED_IN)
  else if PSA_ALG_IS_RSA_PSS_ANY_SALT alg && negb WOLFSSL_PSS_SALT_LEN_DISCOVER
  then mret (inl (wc_error_to_psa_status NOT_COMPILED_IN))
  else
    let salt_len := if PSA_ALG_IS_RSA_PSS_ANY_SALT alg then RSA_PSS_SALT_LEN_DISCOVER
                    else RSA_PSS_SALT_LEN_DEFAULT in
    '(ret, decoded) ← wc_result (wc_RsaPSS_Verify_ex pub signature sizeof_decoded hash_type
                                   (wc_psa_get_mgf hash_type) salt_len);
    if 0 <? ret then
      ret ← wc_code (wc_RsaPSS_CheckPadding hash (take (Z.to_nat ret) decoded) hash_type salt_len
                       (mp_count_bits pub.1));
      mret (inr (if ret =? 0 then zlen hash else SIG_VERIFY_E))
    else mret (inr ret)
else mret (inr BAD_FUNC_ARG).

Definition psa_asymmetric_verify_rsa (key_type key_bits : Z) (key : list byte) (alg : Z)
  (hash : input) (signature : list byte) : RM psa_status_t :=
if NO_RSA then mret PSA_ERROR_NOT_SUPPORTED
else if negb (key_type =? PSA_KEY_TYPE_RSA_PUBLIC_KEY) && negb (key_type =? PSA_KEY_TYPE_RSA_KEY_PAIR)
then mret PSA_ERROR_INVALID_ARGUMENT
else if negb (fits_word32 (zlen key)) || negb (fits_word32 (input_length hash))
        || negb (fits_word32 (zlen signature))
        || negb (wc_psa_rsa_hash_length_ok alg (input_length hash))
then mret PSA_ERROR_INVALID_ARGUMENT
else
  ret ← wc_call; (* wc_InitRsaKey_ex *)
  if negb (ret =? 0) then mret (wc_error_to_psa_status ret)
  else
    ret ← wc_code (rsa_decode key_type key).1;
    if negb (ret =? 0) then mret (wc_error_to_psa_status ret)
    else
      let pub := (rsa_decode key_type key).2.2 in
      if negb (zlen signature =? wc_RsaEncryptSize pub) then mret PSA_ERROR_INVALID_SIGNATURE
      else
        r ← rsa_verify_padded pub alg (input_bytes hash) signature;
        mret match r with
             | inl e => e
             | inr ret =>
                 if ret <? 0 then wc_psa_rsa_status ret PSA_ERROR_INVALID_SIGNATURE
                 else if negb (ret =? input_length hash) then PSA_ERROR_INVALID_SIGNATURE
                 else PSA_SUCCESS
             end.

(** * Encryption *)

Definition rsa_encrypt_padded (n : nat) (pub : mp_int * mp_int) (alg : Z) (inp salt : input)
  (output_size : Z) : RM (Z * list byte) :=
let padding := wc_psa_get_rsa_padding alg in
let hash_type := wc_psa_get_hash_type alg in
if padding =? WC_RSA_PKCSV15_PAD then wc_result (wc_RsaPublicEncrypt n pub inp output_size)
else if padding =? WC_RSA_OAEP_PAD then
  if WOLFSSL_RSA_OAEP then
    let mgf := wc_psa_get_mgf hash_type in
    if decide (mgf = WC_MGF1NONE) then mret (BAD_FUNC_ARG, [])
    else wc_result (wc_RsaPublicEncrypt_ex n pub inp output_size hash_type mgf salt)
  else mret (NOT_COMPILED_IN, [])
else mret (BAD_FUNC_ARG, []).

Definition psa_asymmetric_encrypt_rsa (key_type key_bits : Z) (key : list byte) (alg : Z)
  (inp salt : input) (output : bool) (output_size : Z) : RM (psa_status_t * list byte) :=
if NO_RSA then mret (PSA_ERROR_NOT_SUPPORTED, [])
else if negb (key_type =? PSA_KEY_TYPE_RSA_PUBLIC_KEY) && negb (key_type =? PSA_KEY_TYPE_RSA_KEY_PAIR)
then mret (PSA_ERROR_INVALID_ARGUMENT, [])
else if negb (fits_word32 (zlen key)) || negb (fits_word32 (input_length inp))
        || negb (fits_word32 output_size) || negb (fits_word32 (input_length salt))
then mret (PSA_ERROR_INVALID_ARGUMENT, [])
else if output_size <? PSA_ASYMMETRIC_ENCRYPT_OUTPUT_SIZE key_type key_bits alg
then mret (PSA_ERROR_BUFFER_TOO_SMALL, [])
else
  ret ← wc_call; (* wc_InitRsaKey_ex *)
  if negb (ret =? 0) then mret (wc_error_to_psa_status ret, [])
  else
    ret ← wc_code (rsa_decode key_type key).1;
    if negb (ret =? 0) then mret (wc_error_to_psa_status ret, [])
    else
      '(ret, n) ← wc_rng;
      if negb (ret =? 0) then mret (wc_error_to_psa_status ret, [])
      else
        '(ret, out) ← rsa_encrypt_padded n (rsa_decode key_type key).2.2 alg inp salt output_size;
        mret (if ret <? 0 then (wc_psa_rsa_status ret PSA_ERROR_INVALID_ARGUMENT, [])
              else (PSA_SUCCESS, take (Z.to_nat ret) out)).

Definition rsa_decrypt_padded (key : list byte) (alg : Z) (inp salt : input) (plain_len : Z)
: RM (Z * list byte) :=
let padding := wc_psa_get_rsa_padding alg in
let hash_type := wc_psa_get_hash_type alg in
if padding =? WC_RSA_PKCSV15_PAD then wc_result (wc_RsaPrivateDecrypt key inp plain_len)
else if padding =? WC_RSA_OAEP_PAD then
  if WOLFSSL_RSA_OAEP then
    let mgf := wc_psa_get_mgf hash_type in
    if decide (mgf = WC_MGF1NONE) then mret (BAD_FUNC_ARG, [])
    else wc_result (wc_RsaPrivateDecrypt_ex key inp plain_len hash_type mgf salt)
  else mret (NOT_COMPILED_IN, [])
else mret (BAD_FUNC_ARG, []).

(** The random generator that blinding needs. *)
Definition rsa_blinding : RM Z :=
if WC_RSA_BLINDING then '(ret, _) ← wc_rng; wc_then ret (* wc_RsaSetRNG *) else mret 0.

Definition psa_asymmetric_decrypt_rsa (key_type key_bits : Z) (key : list byte) (alg : Z)
  (inp salt : input) (output : bool) (output_size : Z) : RM (psa_status_t * list byte) :=
if NO_RSA then mret (PSA_ERROR_NOT_SUPPORTED, [])
else if negb (key_type =? PSA_KEY_TYPE_RSA_KEY_PAIR) then mret (PSA_ERROR_INVALID_ARGUMENT, [])
else if negb (fits_word32 (zlen key)) || negb (fits_word32 (input_length inp))
        || negb (fits_word32 (input_length salt))
then mret (PSA_ERROR_INVALID_ARGUMENT, [])
else
  ret ← wc_call; (* wc_InitRsaKey_ex *)
  if negb (ret =? 0) then mret (wc_error_to_psa_status ret, [])
  else
    ret ← wc_code (wc_RsaPrivateKeyDecode key).1;
    if negb (ret =? 0) then mret (wc_error_to_psa_status ret, [])
    else
      ret ← rsa_blinding;
      if negb (ret =? 0) then mret (wc_error_to_psa_status ret, [])
      else
        let plain_len := wc_RsaEncryptSize (wc_RsaPrivateKeyDecode key).2.2 in
        if plain_len <=? 0 then mret (PSA_ERROR_INVALID_ARGUMENT, [])
        else
          ok ← lib (XMALLOC plain_len);
          if negb ok then mret (PSA_ERROR_INSUFFICIENT_MEMORY, [])
          else
            '(ret, plain) ← rsa_decrypt_padded key alg inp salt plain_len;
            mret (if (0 <=? ret) && (output_size <? ret) then (PSA_ERROR_BUFFER_TOO_SMALL, [])
                  else if ret <? 0 then (wc_psa_rsa_status ret PSA_ERROR_INVALID_PADDING, [])
                  else (PSA_SUCCESS, take (Z.to_nat ret) plain)).
End Calls.
End RsaDefs.
