(* ===== verification/RsaSpec.v ===== *)
(** What the RSA backend promises ([src/psa_rsa.c]): its signatures and cipher
    texts are those of the padding that the algorithm names, and it accepts and
    opens exactly such ones. *)

From stdpp Require Import base decidable list.
From Stdlib Require Import ZArith Lia.
From Stdlib Require Import Strings.Byte.
From S2P Require Import Prelude.
From S2P Require Import Values.
From S2P Require Import Engine.
From S2P Require Import WolfCrypt.
From S2P Require Import KeyPolicy.
From S2P Require Import KeyFormat.
From S2P Require Import StoreIface.
From S2P Require Import Library.
From S2P Require Import KeyStore.
From S2P Require Import KeyStoreRules.
From S2P Require Import Operation.
From S2P Require Import KeyStoreInv.
From S2P Require Import KeyReaders.
From S2P Require Import AsymValues.
From S2P Require Import WolfSign.
From S2P Require Import Rsa.


#[local] Open Scope Z_scope.

Section Spec.
Context {C : Config} {E : WolfCryptErr} {EO : WolfCryptErrOk E} {K : WolfCryptKeys} {R : WolfCryptRng}.
Context {WM : WolfCryptMisc} {WMO : WolfCryptMiscOk WM} {WD : WolfCryptDigest}.
Context {WR : WolfCryptRsa K} {WRO : WolfCryptRsaOk K WR}.
Context {O : StoreOps} {L : StoreLaws O} {B : KeyBackend} {Op : Type}.

Notation RM := (M (opstate O Op)).
Notation bwp := (WolfSign.bwp (O := O) (Op := Op)).

(** * The reference *)

(** What PKCS#1 v1.5 signs: the hash as it is, or its DigestInfo. *)
Definition pkcs1_input (alg : Z) (hash : list byte) : list byte :=
if alg =? PSA_ALG_RSA_PKCS1V15_SIGN_RAW then hash
else wc_EncodeSignature hash (wc_GetCTC_HashOID (wc_psa_get_hash_type alg)).

Definition pss_salt (alg : Z) : Z :=
if PSA_ALG_IS_RSA_PSS_ANY_SALT alg then RSA_PSS_SALT_LEN_DISCOVER else RSA_PSS_SALT_LEN_DEFAULT.

Definition rsa_valid (pub : mp_int * mp_int) (alg : Z) (hash sig : list byte) : Prop :=
zlen sig = wc_RsaEncryptSize pub /\
(wc_psa_get_rsa_padding alg = WC_RSA_PKCSV15_PAD /\ pkcs1_sig pub (pkcs1_input alg hash) sig \/
 wc_psa_get_rsa_padding alg = WC_RSA_PSS_PAD /\
 pss_sig pub (wc_psa_get_hash_type alg) (wc_psa_get_mgf (wc_psa_get_hash_type alg)) (pss_salt alg) hash sig).

(** Hashes of which a DigestInfo can be made. *)
Definition digest_info_ok (alg : Z) (hash : list byte) : bool :=
(0 <? wc_GetCTC_HashOID (wc_psa_get_hash_type alg)) && (zlen hash <=? WC_MAX_DIGEST_SIZE) &&
negb (zlen (wc_EncodeSignature hash (wc_GetCTC_HashOID (wc_psa_get_hash_type alg))) =? 0).

(** What a verification needs, apart from the signature. *)
Definition rsa_verifier (type : Z) (key : list byte) (alg : Z) (hash : list byte) : Prop :=
NO_RSA = false /\ (type = PSA_KEY_TYPE_RSA_PUBLIC_KEY \/ type = PSA_KEY_TYPE_RSA_KEY_PAIR) /\
zlen key <= UINT32_MAX /\ zlen hash <= UINT32_MAX /\
wc_psa_rsa_hash_length_ok alg (zlen hash) = true /\ (rsa_decode type key).1 = 0 /\
wc_RsaEncryptSize (rsa_decode type key).2.2 <= sizeof_decoded /\ sizeof_decoded <= UINT32_MAX /\
(wc_psa_get_rsa_padding alg = WC_RSA_PKCSV15_PAD ->
 alg <> PSA_ALG_RSA_PKCS1V15_SIGN_RAW -> digest_info_ok alg hash = true) /\
(wc_psa_get_rsa_padding alg = WC_RSA_PSS_PAD ->
 WC_RSA_PSS = true /\ (PSA_ALG_IS_RSA_PSS_ANY_SALT alg = true -> WOLFSSL_PSS_SALT_LEN_DISCOVER = true)).

(** * The DigestInfo *)

Definition info_post (alg : Z) (hash : list byte) (P : Prop) (r : psa_status_t + list byte) : Prop :=
match r with
| inl e => e <> PSA_SUCCESS /\ (P -> digest_info_ok alg hash = true -> False)
| inr m => m = wc_EncodeSignature hash (wc_GetCTC_HashOID (wc_psa_get_hash_type alg)) /\ 0 < zlen m
end.

Lemma info_lax alg hash : lax (info_post alg hash).
Proof. intros P P' [e|m] Hp; [|done]. intros [H1 H2]. split; auto. Qed.

Lemma bwp_digest_info heap alg hash :
bwp (rsa_digest_info heap (wc_psa_get_hash_type alg) hash) (info_post alg hash) True.
Proof.
pose proof (info_lax alg hash) as Hl. unfold rsa_digest_info. cbv zeta.
assert (Hno : forall e (P : Prop), e <> PSA_SUCCESS -> (P -> digest_info_ok alg hash = true -> False) ->
  bwp (mret (inl e)) (info_post alg hash) P) by (intros; by apply bwp_ret).
unfold digest_info_ok in Hno.
destruct (Z.leb_spec (wc_GetCTC_HashOID (wc_psa_get_hash_type alg)) 0) as [H0|H0].
{ apply Hno; [done|]. intros _. by rewrite (proj2 (Z.ltb_ge 0 _)). }
destruct (Z.ltb_spec WC_MAX_DIGEST_SIZE (zlen hash)) as [H1|H1].
{ apply Hno; [done|]. intros _. rewrite (proj2 (Z.leb_gt _ _)) by done. by rewrite andb_false_r. }
assert (Henc : bwp (ret ← wc_call;
   let encoded := if ret <? 0 then [] else wc_EncodeSignature hash (wc_GetCTC_HashOID (wc_psa_get_hash_type alg)) in
   mret (if zlen encoded =? 0 then inl PSA_ERROR_INSUFFICIENT_MEMORY else inr encoded))
  (info_post alg hash) True).
{ set (enc := wc_EncodeSignature _ _) in *.
  assert (Hend : forall P : Prop, bwp (mret (if zlen enc =? 0 then inl PSA_ERROR_INSUFFICIENT_MEMORY else inr enc))
      (info_post alg hash) P).
  { intros P. destruct (Z.eqb_spec (zlen enc) 0) as [Hz|Hz];
      [|apply bwp_ret; [done|]; split; [done|]; pose proof (zlen_nonneg enc); lia].
    apply Hno; [done|]. intros _. by rewrite !andb_false_r. }
  apply bwp_call; [done|apply Hend|]. intros ret Hne. destruct (Z.ltb_spec ret 0); [|apply Hend].
  apply bwp_ret; [done|]. split; [done|by intros []]. }
destruct heap; [|intros s; apply wp_bind, wp_ret, Henc].
apply bwp_alloc; [done|exact Henc|]. apply Hno; [done|by intros []].
Qed.

(** * Signing *)

Lemma hash_length_word32 alg hash :
negb (fits_word32 (input_length hash)) || negb (wc_psa_rsa_hash_length_ok alg (input_length hash)) = false ->
fits_word32 (input_length hash) = true /\ wc_psa_rsa_hash_length_ok alg (input_length hash) = true.
Proof. by rewrite orb_false_iff, !negb_false_iff. Qed.

Definition sign_padded_post (pub : mp_int * mp_int) (alg : Z) (hash : list byte) (size : Z) (_ : Prop)
  (r : psa_status_t + Z * list byte) : Prop :=
match r with
| inl e => e <> PSA_SUCCESS
| inr (ret, out) => 0 <= ret -> rsa_valid pub alg hash (take (Z.to_nat ret) out) /\ 0 < ret <= size /\ ret = zlen out
end.

Lemma take_zlen (l : list byte) ret : ret = zlen l -> take (Z.to_nat ret) l = l.
Proof. intros ->. apply take_ge. unfold zlen. lia. Qed.

Lemma bwp_sign_padded n key idx pub alg hash size P :
wc_RsaPrivateKeyDecode key = (0, (idx, pub)) ->
bwp (rsa_sign_padded n key alg hash size) (sign_padded_post pub alg hash size) P.
Proof.
intros Hdec. assert (Hl : lax (sign_padded_post pub alg hash size)) by (intros ?????; done).
assert (Hneg : forall ret out (Q : Prop), ret < 0 -> bwp (mret (inr (ret, out))) (sign_padded_post pub alg hash size) Q).
{ intros. apply bwp_ret; [done|]. intros ?. lia. }
destruct wc_negative as (Hneg1 & Hneg2 & _). unfold rsa_sign_padded. cbv zeta.
destruct (Z.eqb_spec (wc_psa_get_rsa_padding alg) WC_RSA_PKCSV15_PAD) as [Hpad|Hpad].
- assert (Hsign : forall (Q : Prop), bwp (r ← wc_result (wc_RsaSSL_Sign n key (pkcs1_input alg hash) size); mret (inr r))
      (sign_padded_post pub alg hash size) Q).
  { intros Q. apply bwp_result; [done| |by intros; apply Hneg]. apply bwp_ret; [done|].
    destruct (wc_RsaSSL_Sign _ _ _ _) as [ret out] eqn:Hs. intros H0.
    destruct (rsa_ssl_sign _ _ _ _ _ _ _ _ Hdec Hs H0) as (Hlen & Hsz & Hr & Hsig).
    rewrite take_zlen by done. split_and!; [|lia..|done]. split; [congruence|]. by left. }
  unfold pkcs1_input in Hsign. destruct (alg =? PSA_ALG_RSA_PKCS1V15_SIGN_RAW).
  + intros s. apply wp_bind, wp_ret, Hsign.
  + eapply bwp_bind; [done|eapply bwp_weaken; [apply info_lax|apply bwp_digest_info|done]|].
    intros Q [e|m] _ Hi; [apply bwp_ret; [done|]; by destruct Hi|]. by destruct Hi as [-> _].
- destruct (Z.eqb_spec (wc_psa_get_rsa_padding alg) WC_RSA_PSS_PAD) as [Hpss|Hpss]; [|by apply Hneg].
  destruct WC_RSA_PSS; [|by apply Hneg].
  apply bwp_result; [done| |by intros; apply Hneg]. apply bwp_ret; [done|].
  destruct (wc_RsaPSS_Sign _ _ _ _ _ _) as [ret out] eqn:Hs. intros H0.
  destruct (rsa_pss_sign _ _ _ _ _ _ _ _ _ _ Hdec Hs H0) as (Hlen & Hsz & Hr & Hsig).
  rewrite take_zlen by done. split_and!; [|lia..|done]. split; [congruence|]. right. split; [done|].
  unfold pss_salt. destruct (PSA_ALG_IS_RSA_PSS_ANY_SALT alg); [by apply pss_any_salt|done].
Qed.

Lemma rsa_status_not_success ret bad : ret < 0 -> bad <> PSA_SUCCESS -> wc_psa_rsa_status ret bad <> PSA_SUCCESS.
Proof. intros Hr Hb. unfold wc_psa_rsa_status. destruct (_ || _); [done|]. rewrite wc_error_success. lia. Qed.

(** A signing call gives valid signatures only, made by a key pair. *)
Lemma rsa_signs type bits key alg hash buf size P :
bwp (psa_asymmetric_sign_rsa type bits key alg hash buf size)
  (bytes_post (fun sig => rsa_valid (rsa_decode type key).2.2 alg (input_bytes hash) sig /\
     0 < zlen sig <= size /\ type = PSA_KEY_TYPE_RSA_KEY_PAIR)) P.
Proof.
set (Post := bytes_post _). assert (Hl : lax Post) by apply bytes_lax.
assert (Hno : forall e Q, e <> PSA_SUCCESS -> Post Q (e, [])) by (intros; by apply bytes_no).
unfold psa_asymmetric_sign_rsa.
destruct NO_RSA; [by apply bwp_ret; auto|].
destruct (Z.eqb_spec type PSA_KEY_TYPE_RSA_KEY_PAIR) as [->|]; cbn [negb]; [|by apply bwp_ret; auto].
destruct (_ || _); [by apply bwp_ret; auto|].
apply (bwp_check_call (fun e => (e, []))); [done|auto|].
apply (bwp_check_code (fun e => (e, []))); [done|auto..|]. intros Hdec.
apply (bwp_check_rng (fun e => (e, []))); [done|auto|]. intros n.
destruct (wc_RsaPrivateKeyDecode key) as [code [idx pub]] eqn:Hd. cbn [fst] in Hdec. subst code.
eapply bwp_bind; [done|by eapply bwp_sign_padded|]. intros Q r _ Hr. apply bwp_ret; [done|].
destruct r as [e|[ret out]]; [by apply Hno|].
destruct (Z.ltb_spec ret 0) as [Hlt|Hge]; [by apply Hno, rsa_status_not_success|].
destruct (Hr Hge) as (Hv & Hsz & Hlen). split; [|done]. intros _. cbn [fst snd].
rewrite take_zlen in * by done. unfold rsa_decode. cbn [Z.eqb]. rewrite Hd. split_and!; [done|lia..|done].
Qed.

(** * Verifying *)

(** [ret]: it is [expected] when the signature is valid. *)
Definition ret_post (V A : Prop) (expected : Z) (P : Prop) (r : psa_status_t + Z) : Prop :=
match r with
| inl e => e <> PSA_SUCCESS /\ (P -> A -> V -> False)
| inr ret => (0 <= ret -> ret = expected -> V) /\ (P -> A -> V -> ret = expected)
end.

Lemma ret_lax V A expected : lax (ret_post V A expected).
Proof. intros P P' [e|ret] Hp [H1 H2]; split; auto. Qed.

(** A recovered input against the expected one. *)
Lemma match_post pub m sig found sz ret out (V A P : Prop) hash :
wc_RsaSSL_Verify_ex pub sig sz = (ret, out) ->
(V <-> pkcs1_sig pub m sig) ->
(A -> zlen sig = wc_RsaEncryptSize pub /\ zlen sig <= sz) ->
(0 < zlen m /\ 0 < zlen hash /\ found = zlen hash \/ m = hash /\ found = ret) ->
ret_post V A (zlen hash) P (inr (rsa_match ret out m found)).
Proof.
intros Hrun HV HA Hcase.
destruct wc_negative as (_ & _ & Hsv & _).
assert (Hcomplete : A -> V -> (ret, out) = (zlen m, m)).
{ intros [Ha1 Ha2]%HA Hv%HV. rewrite <- Hrun. by apply rsa_ssl_verify_complete. }
unfold rsa_match. destruct (Z.ltb_spec 0 ret) as [Hpos|Hneg].
- destruct (rsa_ssl_verify _ _ _ _ _ Hrun ltac:(lia)) as [Hlen Hsig].
  destruct (Z.eqb_spec ret (zlen m)) as [Heq|Hne]; cbn [negb orb].
  + assert (Htake : take (length m) out = out) by (apply take_ge; unfold zlen in *; lia).
    rewrite Htake. pose proof (constant_compare_spec out m ltac:(lia)) as Hcmp.
    destruct (Z.eqb_spec (ConstantCompare out m) 0) as [Hz|Hz]; cbn [negb].
    * apply Hcmp in Hz as ->. split; [intros; by apply HV|]. intros _ _ _.
      destruct Hcase as [(_ & _ & ->)|[-> ->]]; done.
    * split; [lia|]. intros _ Ha Hv. specialize (Hcomplete Ha Hv) as [= _ ->]. by destruct Hz; apply Hcmp.
  + split; [lia|]. intros _ Ha Hv. by specialize (Hcomplete Ha Hv) as [= -> _].
- split.
  + intros H0 ->. assert (Hz : zlen hash = 0) by lia.
    destruct (rsa_ssl_verify _ _ _ _ _ Hrun ltac:(lia)) as [Hlen Hsig]. apply HV.
    destruct Hcase as [(_ & Hm & _)|[-> _]]; [lia|].
    by rewrite (zlen_0_nil out), (zlen_0_nil hash) in * by lia.
  + intros _ Ha Hv. specialize (Hcomplete Ha Hv) as [= -> _].
    destruct Hcase as [(Hm & _)|[-> _]]; [lia|done].
Qed.

(** The part of [rsa_verifier] that concerns algorithm and hash. *)
Definition padding_ok (pub : mp_int * mp_int) (alg : Z) (hash : list byte) : Prop :=
wc_RsaEncryptSize pub <= sizeof_decoded /\
(wc_psa_get_rsa_padding alg = WC_RSA_PKCSV15_PAD ->
 alg <> PSA_ALG_RSA_PKCS1V15_SIGN_RAW -> digest_info_ok alg hash = true) /\
(wc_psa_get_rsa_padding alg = WC_RSA_PSS_PAD ->
 WC_RSA_PSS = true /\ (PSA_ALG_IS_RSA_PSS_ANY_SALT alg = true -> WOLFSSL_PSS_SALT_LEN_DISCOVER = true)).

Lemma digest_info_nonempty alg hash :
digest_info_ok alg hash = true ->
0 < zlen (wc_EncodeSignature hash (wc_GetCTC_HashOID (wc_psa_get_hash_type alg))).
Proof.
unfold digest_info_ok. rewrite !andb_true_iff, negb_true_iff, Z.eqb_neq. intros [_ Hne].
pose proof (zlen_nonneg (wc_EncodeSignature hash (wc_GetCTC_HashOID (wc_psa_get_hash_type alg)))). lia.
Qed.

Lemma pads_differ : WC_RSA_PKCSV15_PAD <> WC_RSA_PSS_PAD.
Proof.
pose proof rsa_pads_distinct as Hd. rewrite !NoDup_cons, !not_elem_of_cons in Hd. by destruct Hd as ((_ & ? & _) & _).
Qed.

(** Once the padding is PKCS#1 v1.5, or PSS, so is the signature. *)
Lemma rsa_valid_pkcs1 pub alg hash sig :
zlen sig = wc_RsaEncryptSize pub -> wc_psa_get_rsa_padding alg = WC_RSA_PKCSV15_PAD ->
rsa_valid pub alg hash sig <-> pkcs1_sig pub (pkcs1_input alg hash) sig.
Proof.
intros Hlen Hpad. unfold rsa_valid. pose proof pads_differ. rewrite Hpad. split.
- intros (_ & [[_ ?]|[? _]]); done.
- intros H1. split; [done|]. by left.
Qed.

Lemma rsa_valid_pss pub alg hash sig :
zlen sig = wc_RsaEncryptSize pub -> wc_psa_get_rsa_padding alg = WC_RSA_PSS_PAD ->
rsa_valid pub alg hash sig <->
pss_sig pub (wc_psa_get_hash_type alg) (wc_psa_get_mgf (wc_psa_get_hash_type alg)) (pss_salt alg) hash sig.
Proof.
intros Hlen Hpad. unfold rsa_valid. pose proof pads_differ. rewrite Hpad. split.
- intros (_ & [[? _]|[_ ?]]); [congruence|done].
- intros H1. split; [done|]. by right.
Qed.

Lemma bwp_verify_pss pub alg hash sig salt :
zlen sig = wc_RsaEncryptSize pub -> wc_psa_get_rsa_padding alg = WC_RSA_PSS_PAD ->
salt = pss_salt alg -> 0 < zlen hash ->
bwp ('(ret, decoded) ← wc_result (wc_RsaPSS_Verify_ex pub sig sizeof_decoded (wc_psa_get_hash_type alg)
        (wc_psa_get_mgf (wc_psa_get_hash_type alg)) salt);
     if 0 <? ret then
       ret ← wc_code (wc_RsaPSS_CheckPadding hash (take (Z.to_nat ret) decoded) (wc_psa_get_hash_type alg) salt
                        (mp_count_bits pub.1));
       mret (inr (if ret =? 0 then zlen hash else SIG_VERIFY_E))
     else mret (inr ret))
  (ret_post (rsa_valid pub alg hash sig) (wc_RsaEncryptSize pub <= sizeof_decoded) (zlen hash)) True.
Proof.
intros Hlen Hpad -> Hhash. set (Post := ret_post _ _ _). assert (Hl : lax Post) by apply ret_lax.
destruct wc_negative as (_ & _ & Hsv & _).
assert (Hno : forall ret, ret < 0 -> bwp (mret (inr ret)) Post False).
{ intros ret Hneg. apply bwp_ret; [done|]. split; [lia|by intros []]. }
assert (Hval := rsa_valid_pss pub alg hash sig Hlen Hpad).
apply bwp_result; [done| |].
2: { intros ret out Hneg. rewrite (proj2 (Z.ltb_ge 0 ret)) by lia. by apply Hno. }
destruct (wc_RsaPSS_Verify_ex _ _ _ _ _ _) as [ret enc] eqn:Hrun.
assert (Hcomplete : wc_RsaEncryptSize pub <= sizeof_decoded -> rsa_valid pub alg hash sig ->
  0 < ret /\ wc_RsaPSS_CheckPadding hash (take (Z.to_nat ret) enc) (wc_psa_get_hash_type alg) (pss_salt alg)
     (mp_count_bits pub.1) = 0).
{ intros Ha Hv%Hval. assert (Hsz : zlen sig <= sizeof_decoded) by lia.
  destruct (rsa_pss_verify_complete _ _ sizeof_decoded _ _ _ _ Hv Hlen Hsz) as (enc' & He & Hpos & Hz).
  rewrite Hrun in He. injection He as -> ->. split; [done|]. by rewrite take_zlen. }
destruct (Z.ltb_spec 0 ret) as [Hpos|Hneg].
- apply bwp_code; [done| |].
  + apply bwp_ret; [done|]. destruct (Z.eqb_spec (wc_RsaPSS_CheckPadding hash (take (Z.to_nat ret) enc)
      (wc_psa_get_hash_type alg) (pss_salt alg) (mp_count_bits pub.1)) 0) as [Hz|Hz].
    * split; [|done]. intros _ _. by apply Hval, (rsa_pss_verify _ _ _ _ _ _ _ _ _ Hrun Hpos Hz).
    * split; [lia|]. intros _ Ha Hv. by destruct (Hcomplete Ha Hv).
  + intros r Hr. rewrite (proj2 (Z.eqb_neq r 0)) by lia. by apply Hno.
- apply bwp_ret; [done|]. split; [lia|]. intros _ Ha Hv. destruct (Hcomplete Ha Hv). lia.
Qed.

Lemma bwp_verify_padded pub alg hash sig :
NO_RSA = false ->
zlen sig = wc_RsaEncryptSize pub ->
wc_psa_rsa_hash_length_ok alg (zlen hash) = true ->
bwp (rsa_verify_padded pub alg hash sig)
  (ret_post (rsa_valid pub alg hash sig) (padding_ok pub alg hash) (zlen hash)) True.
Proof.
intros Hrsa Hlen Hhash. set (Post := ret_post _ _ _). assert (Hl : lax Post) by apply ret_lax.
destruct wc_negative as (Hn1 & Hn2 & Hn3 & _).
assert (Hno : forall ret (P : Prop), ret < 0 -> (P -> padding_ok pub alg hash -> rsa_valid pub alg hash sig -> False) ->
  bwp (mret (inr ret)) Post P).
{ intros ret P Hneg Hf. apply bwp_ret; [done|]. split; [lia|]. intros HP Ha Hv. by destruct (Hf HP Ha Hv). }
assert (Hpos : alg <> PSA_ALG_RSA_PKCS1V15_SIGN_RAW -> 0 < zlen hash).
{ intros Hraw%Z.eqb_neq. unfold wc_psa_rsa_hash_length_ok in Hhash. rewrite Hraw in Hhash.
  apply andb_true_iff in Hhash as [Hne%negb_true_iff%Z.eqb_neq Heq%Z.eqb_eq].
  pose proof (zlen_nonneg hash). lia. }
unfold rsa_verify_padded. cbv zeta.
destruct (Z.eqb_spec (wc_psa_get_rsa_padding alg) WC_RSA_PKCSV15_PAD) as [Hpad|Hpad].
- assert (Hval := rsa_valid_pkcs1 pub alg hash sig Hlen Hpad). unfold pkcs1_input in Hval.
  destruct (Z.eqb_spec alg PSA_ALG_RSA_PKCS1V15_SIGN_RAW) as [Hraw|Hraw].
  + apply bwp_result; [done| |].
    2: { intros ret out Hneg. unfold rsa_match. rewrite (proj2 (Z.ltb_ge 0 ret)) by lia.
         apply Hno; [done|by intros []]. }
    destruct (wc_RsaSSL_Verify_ex pub sig sizeof_decoded) as [ret out] eqn:Hrun. apply bwp_ret; [done|].
    apply (match_post pub hash sig _ sizeof_decoded); [done..| |by right].
    intros (Ha & _ & _). split; [done|lia].
  + eapply bwp_bind; [done|apply bwp_digest_info|]. intros Q [e|m] _ Hi.
    { apply bwp_ret; [done|]. destruct Hi as [He Hf]. split; [done|].
      intros HP (_ & Ha & _) _. apply Hf; auto. }
    destruct Hi as [-> Hm].
    apply bwp_result; [done| |].
    2: { intros ret out Hneg. unfold rsa_match. rewrite (proj2 (Z.ltb_ge 0 ret)) by lia.
         apply Hno; [done|by intros []]. }
    rewrite rsa_ssl_verify2.
    destruct (wc_RsaSSL_Verify_ex pub sig sizeof_decoded) as [ret out] eqn:Hrun. apply bwp_ret; [done|].
    apply (match_post pub _ sig _ sizeof_decoded); [done..| |].
    * intros (Ha & _ & _). split; [done|lia].
    * left. by split_and!; auto.
- destruct (Z.eqb_spec (wc_psa_get_rsa_padding alg) WC_RSA_PSS_PAD) as [Hpss|Hpss].
  2: { apply Hno; [done|]. intros _ _ (_ & [[? _]|[? _]]); done. }
  destruct WC_RSA_PSS eqn:Hconf; cbn [negb].
  2: { apply Hno; [done|]. intros _ (_ & _ & Ha) _. destruct (Ha Hpss). congruence. }
  destruct (PSA_ALG_IS_RSA_PSS_ANY_SALT alg && negb WOLFSSL_PSS_SALT_LEN_DISCOVER) eqn:Hany.
  { apply andb_true_iff in Hany as [Hany Hd%negb_true_iff]. apply bwp_ret; [done|]. split.
    - rewrite wc_error_success. lia.
    - intros _ (_ & _ & Ha) _. destruct (Ha Hpss) as [_ Ha2]. specialize (Ha2 Hany). congruence. }
  assert (Hraw : alg <> PSA_ALG_RSA_PKCS1V15_SIGN_RAW).
  { intros ->. apply Hpad. unfold wc_psa_get_rsa_padding. by rewrite Hrsa. }
  eapply bwp_mono; [apply bwp_verify_pss; [done..|auto]|].
  intros Q [e|r] [H1 H2]; (split; [done|]); intros HP (Ha & _) Hv; auto.
Qed.

Lemma rsa_size_positive_type type key idx pub :
type = PSA_KEY_TYPE_RSA_KEY_PAIR -> rsa_decode type key = (0, (idx, pub)) -> 0 < wc_RsaEncryptSize pub.
Proof. intros ->. unfold rsa_decode. cbn [Z.eqb]. apply rsa_size_positive. Qed.

(** A verification accepts the valid signatures of an RSA key, and no others. *)
Lemma rsa_verifies type bits key alg hash sig :
(is_null hash = true -> input_length hash = 0) ->
bwp (psa_asymmetric_verify_rsa type bits key alg hash sig)
  (verdict_post (rsa_valid (rsa_decode type key).2.2 alg (input_bytes hash) sig)
     (rsa_verifier type key alg (input_bytes hash))) True.
Proof.
intros Hnull. set (V := rsa_valid _ _ _ _). set (A := rsa_verifier _ _ _ _).
assert (Hl : lax (verdict_post V A)) by apply verdict_lax.
assert (Hno : forall e (P : Prop), e <> PSA_SUCCESS -> (P -> A -> V -> False) ->
  bwp (mret e) (verdict_post V A) P).
{ intros e P He Hf. apply bwp_ret; [done|]. by apply verdict_no. }
unfold psa_asymmetric_verify_rsa. rewrite (null_empty_length _ Hnull).
destruct NO_RSA eqn:Hrsa; [apply Hno; [done|]; intros _ [H0 _] _; congruence|].
destruct (_ && _) eqn:Htype.
{ apply Hno; [done|]. intros _ (_ & [->| ->] & _) _; done. }
destruct (negb (fits_word32 (zlen key)) || _ || _ || _) eqn:Hw.
{ apply Hno; [done|]. intros _ (_ & _ & Hk & Hh & Hhl & _ & Hs & Hd & _) [Hsz _].
  by rewrite Hhl, (proj2 (fits_word32_spec (zlen key))), (proj2 (fits_word32_spec (zlen (input_bytes hash)))),
    (proj2 (fits_word32_spec (zlen sig))) in Hw by lia. }
apply orb_false_iff in Hw as [_ Hhl%negb_false_iff].
apply (bwp_check_call id); [done|by intros; apply verdict_no; [|intros []]|].
apply (bwp_check_code id); [done|by intros; apply verdict_no; [|intros []]| |].
{ intros Hz e He. apply verdict_no; [done|]. by intros _ (_ & _ & _ & _ & _ & ? & _). }
intros Hz. cbv zeta.
destruct (Z.eqb_spec (zlen sig) (wc_RsaEncryptSize (rsa_decode type key).2.2)) as [Hsig|Hsig]; cbn [negb].
2: { apply Hno; [done|]. by intros _ _ [? _]. }
eapply bwp_bind; [done|by apply bwp_verify_padded|]. intros Q r HQ Hr. apply bwp_ret; [done|].
assert (HA : A -> padding_ok (rsa_decode type key).2.2 alg (input_bytes hash)).
{ by intros (_ & _ & _ & _ & _ & _ & ? & _ & ? & ?). }
destruct r as [e|ret].
{ destruct Hr as [He Hf]. apply verdict_no; [done|]. eauto. }
destruct Hr as [Hsound Hcomplete].
destruct (Z.ltb_spec ret 0) as [Hneg|Hge].
{ apply verdict_no; [by apply rsa_status_not_success|]. intros Hq Ha%HA Hv.
  specialize (Hcomplete Hq Ha Hv). pose proof (zlen_nonneg (input_bytes hash)). lia. }
destruct (Z.eqb_spec ret (zlen (input_bytes hash))) as [Heq|Hne]; cbn [negb].
- split; [|done]. intros _. by apply Hsound.
- apply verdict_no; [done|]. eauto.
Qed.

(** * Encryption *)

Definition padded_enc (pub : mp_int * mp_int) (alg : Z) (label m c : list byte) : Prop :=
wc_psa_get_rsa_padding alg = WC_RSA_PKCSV15_PAD /\ pkcs1_enc pub m c \/
wc_psa_get_rsa_padding alg = WC_RSA_OAEP_PAD /\
oaep_enc pub (wc_psa_get_hash_type alg) (wc_psa_get_mgf (wc_psa_get_hash_type alg)) label m c.

(** Lengths are 32 bits wide in wolfCrypt. *)
Definition rsa_enc (pub : mp_int * mp_int) (alg : Z) (label m c : list byte) : Prop :=
padded_enc pub alg label m c /\ zlen label <= UINT32_MAX /\ zlen c <= UINT32_MAX.

Lemma pads_differ_oaep : WC_RSA_PKCSV15_PAD <> WC_RSA_OAEP_PAD.
Proof.
pose proof rsa_pads_distinct as Hd. rewrite !NoDup_cons, !not_elem_of_cons in Hd. by destruct Hd as ((? & _) & _).
Qed.

Lemma bwp_encrypt_padded n pub alg inp salt size P :
bwp (rsa_encrypt_padded n pub alg inp salt size)
  (fun _ r => 0 <= r.1 -> r.1 = zlen r.2 /\ 0 < r.1 <= size /\
     padded_enc pub alg (input_bytes salt) (input_bytes inp) r.2) P.
Proof.
set (Post := fun (_ : Prop) (r : Z * list byte) => _).
assert (Hl : lax Post) by (intros ?????; done).
assert (Hneg : forall ret out Q, ret < 0 -> Post Q (ret, out)) by (intros ret out Q ? ?; simpl in *; lia).
destruct wc_negative as (Hn1 & Hn2 & _). unfold rsa_encrypt_padded. cbv zeta.
assert (Hcall : forall (r : Z * list byte) Q, Post Q r -> bwp (wc_result r) Post Q).
{ intros r Q Hr s. apply wp_result; [by intros|]. intros ret out s' Hs Hlt _. split; [done|]. by apply Hneg. }
destruct (Z.eqb_spec (wc_psa_get_rsa_padding alg) WC_RSA_PKCSV15_PAD) as [Hp|Hp].
{ apply Hcall. destruct (wc_RsaPublicEncrypt _ _ _ _) as [ret out] eqn:He. intros H0. cbn [fst snd] in *.
  destruct (rsa_encrypt _ _ _ _ _ _ He H0) as (? & ? & ?). split_and!; [lia..|]. by left. }
destruct (Z.eqb_spec (wc_psa_get_rsa_padding alg) WC_RSA_OAEP_PAD) as [Ho|Ho]; [|by apply bwp_ret; auto].
destruct WOLFSSL_RSA_OAEP; [|by apply bwp_ret; auto].
destruct (decide _); [by apply bwp_ret; auto|].
apply Hcall. destruct (wc_RsaPublicEncrypt_ex _ _ _ _ _ _ _) as [ret out] eqn:He. intros H0. cbn [fst snd] in *.
destruct (rsa_encrypt_oaep _ _ _ _ _ _ _ _ _ He H0) as (? & ? & ?). split_and!; [lia..|]. by right.
Qed.

(** An encryption gives cipher texts of the input. *)
Lemma rsa_encrypts type bits key alg inp salt buf size P :
(is_null salt = true -> input_length salt = 0) ->
bwp (psa_asymmetric_encrypt_rsa type bits key alg inp salt buf size)
  (bytes_post (fun c => rsa_enc (rsa_decode type key).2.2 alg (input_bytes salt) (input_bytes inp) c /\
     0 < zlen c <= size /\ (type = PSA_KEY_TYPE_RSA_PUBLIC_KEY \/ type = PSA_KEY_TYPE_RSA_KEY_PAIR))) P.
Proof.
intros Hsalt. set (Good := fun c => _). assert (Hl : lax (bytes_post Good)) by apply bytes_lax.
assert (Hno : forall e Q, e <> PSA_SUCCESS -> bytes_post Good Q (e, [])) by (intros; by apply bytes_no).
unfold psa_asymmetric_encrypt_rsa. rewrite (null_empty_length _ Hsalt).
destruct NO_RSA; [by apply bwp_ret; auto|].
destruct (negb (type =? PSA_KEY_TYPE_RSA_PUBLIC_KEY) && _) eqn:Hty; [by apply bwp_ret; auto|].
rewrite andb_false_iff, !negb_false_iff, !Z.eqb_eq in Hty.
destruct (negb (fits_word32 (zlen key)) || _ || _ || _) eqn:Hw; [by apply bwp_ret; auto|].
rewrite !orb_false_iff, !negb_false_iff, !fits_word32_spec in Hw. destruct Hw as [[_ Hsize] Hlabel].
destruct (size <? _); [by apply bwp_ret; auto|].
apply (bwp_check_call (fun e => (e, []))); [done|auto|].
apply (bwp_check_code (fun e => (e, []))); [done|auto..|]. intros _.
apply (bwp_check_rng (fun e => (e, []))); [done|auto|]. intros n.
eapply bwp_bind; [done|apply bwp_encrypt_padded|]. intros Q [ret out] _ Hg. apply bwp_ret; [done|].
destruct (Z.ltb_spec ret 0) as [Hlt|Hge]; [by apply Hno, rsa_status_not_success|].
destruct (Hg Hge) as (Hlen & Hsz & Henc). cbn [fst snd] in *. split; [|done]. intros _. cbn [snd].
rewrite take_zlen by done. split; [|split; [lia|done]]. split; [done|]. lia.
Qed.

(** What a decryption needs. *)
Definition oaep_ok (alg : Z) : Prop :=
wc_psa_get_rsa_padding alg = WC_RSA_OAEP_PAD ->
WOLFSSL_RSA_OAEP = true /\ wc_psa_get_mgf (wc_psa_get_hash_type alg) <> WC_MGF1NONE.

Definition rsa_decrypter (type : Z) (key : list byte) (alg : Z) : Prop :=
NO_RSA = false /\ type = PSA_KEY_TYPE_RSA_KEY_PAIR /\ zlen key <= UINT32_MAX /\
(wc_RsaPrivateKeyDecode key).1 = 0 /\ (WC_RSA_BLINDING = true -> rng_works) /\ oaep_ok alg.

(** The plain text, or a negative code. *)
Definition plain_post (pub : mp_int * mp_int) (alg : Z) (label c : list byte) (A P : Prop)
  (r : Z * list byte) : Prop :=
(0 <= r.1 -> r.1 = zlen r.2 /\ padded_enc pub alg label r.2 c) /\
(forall m, P -> A -> padded_enc pub alg label m c -> r = (zlen m, m)).

Lemma plain_lax pub alg label c A : lax (plain_post pub alg label c A).
Proof. intros P P' r Hp [H1 H2]. split; auto. Qed.

Lemma bwp_decrypt_padded key alg inp salt idx pub :
wc_RsaPrivateKeyDecode key = (0, (idx, pub)) -> (is_null salt = true -> input_length salt = 0) ->
bwp (rsa_decrypt_padded key alg inp salt (wc_RsaEncryptSize pub))
  (plain_post pub alg (input_bytes salt) (input_bytes inp) (is_null inp = false /\ oaep_ok alg)) True.
Proof.
intros Hdec Hsalt. set (A := _ /\ _). set (Post := plain_post _ _ _ _ _).
assert (Hl : lax Post) by apply plain_lax. pose proof pads_differ_oaep as Hd.
assert (Hneg : forall ret out (P : Prop), ret < 0 ->
  (forall m, P -> A -> padded_enc pub alg (input_bytes salt) m (input_bytes inp) -> False) -> Post P (ret, out)).
{ intros ret out P Hlt Hf. split; [simpl; lia|]. intros m HP Ha Henc. by destruct (Hf m). }
destruct wc_negative as (Hn1 & Hn2 & _). unfold rsa_decrypt_padded. cbv zeta.
assert (Hcall : forall (r : Z * list byte), Post True r -> bwp (wc_result r) Post True).
{ intros r Hr s. apply wp_result.
  - intros s' Hs. split; [done|]. by eapply Hl; [|exact Hr].
  - intros ret out s' Hs Hlt Hno. split; [done|]. apply Hneg; [done|]. intros m [_ ?%Hno]. done. }
destruct (Z.eqb_spec (wc_psa_get_rsa_padding alg) WC_RSA_PKCSV15_PAD) as [Hp|Hp].
{ apply Hcall. split.
  - intros H0. destruct (wc_RsaPrivateDecrypt _ _ _) as [ret out] eqn:He.
    destruct (rsa_decrypt _ _ _ _ _ _ _ Hdec He H0) as (? & ?). split; [done|]. by left.
  - intros m _ [Hn _] [[_ Henc]|[Ho _]]; [|congruence]. destruct inp; [done|].
    by eapply rsa_decrypt_complete. }
destruct (Z.eqb_spec (wc_psa_get_rsa_padding alg) WC_RSA_OAEP_PAD) as [Ho|Ho].
2: { apply bwp_ret; [done|]. apply Hneg; [done|]. by intros m _ _ [[? _]|[? _]]. }
destruct WOLFSSL_RSA_OAEP eqn:Hoaep.
2: { apply bwp_ret; [done|]. apply Hneg; [done|]. intros m _ [_ Ha] _. destruct (Ha Ho). congruence. }
destruct (decide _) as [Hm|Hm].
{ apply bwp_ret; [done|]. apply Hneg; [done|]. intros m _ [_ Ha] _. by destruct (Ha Ho). }
apply Hcall. split.
- intros H0. destruct (wc_RsaPrivateDecrypt_ex _ _ _ _ _ _) as [ret out] eqn:He.
  destruct (rsa_decrypt_oaep _ _ _ _ _ _ _ _ _ _ Hdec He H0) as (? & ?). split; [done|]. by right.
- intros m _ [Hn _] [[? _]|[_ Henc]]; [congruence|]. destruct inp; [done|].
  by eapply rsa_decrypt_oaep_complete.
Qed.

(** The blinding step fails only when something underneath does. *)
Lemma bwp_blinding {A} (k : Z -> RM A) (Post : Prop -> A -> Prop) (P : Prop) :
lax Post -> bwp (k 0) Post P ->
(forall ret (Q : Prop), ret <> 0 -> (Q -> (WC_RSA_BLINDING = true -> rng_works) -> False) -> bwp (k ret) Post Q) ->
bwp (ret ← rsa_blinding; k ret) Post P.
Proof.
intros Hl Hk Hf. unfold rsa_blinding. destruct WC_RSA_BLINDING.
2: { intros s. apply wp_bind, wp_ret, Hk. }
eapply (bwp_bind _ _ (fun Q ret => ret = 0 \/ ret <> 0 /\ (Q -> (true = true -> rng_works) -> False))); [done| |].
- assert (Hlx : lax (fun Q ret => ret = 0 \/ ret <> 0 /\ (Q -> (true = true -> rng_works) -> False))).
  { intros Q Q' r Hq [?|[? H]]; [by left|]. right. split; auto. }
  apply bwp_rng; [done|]. intros n. unfold wc_then.
  destruct (Z.eqb_spec (wc_InitRng_ex n) 0) as [Hz|Hz].
  + intros s. apply wp_code. intros ret s' Hr Hz'. split; [done|].
    destruct (decide (ret = 0)) as [|Hne]; [by left|]. right. split; [done|]. by intros [_ ?%Hz'].
  + apply bwp_ret; [done|]. right. split; [done|]. intros _ H. by destruct (H eq_refl n).
- intros Q ret HQ [->|[Hne Hno]].
  + eapply bwp_weaken; [done|exact Hk|done].
  + by apply Hf.
Qed.

(** What a decryption promises: [enc m] holds of the texts that the cipher text is made of. *)
Definition opened_post (enc : list byte -> Prop) (size : Z) (A P : Prop) (r : psa_status_t * list byte) : Prop :=
(r.1 = PSA_SUCCESS -> enc r.2 /\ zlen r.2 <= size) /\
(r.1 <> PSA_SUCCESS -> r.2 = []) /\
(forall m, P -> A -> enc m -> zlen m <= size -> r = (PSA_SUCCESS, m)).

Lemma opened_lax enc size A : lax (opened_post enc size A).
Proof. intros P P' r Hp (H1 & H2 & H3). split_and!; auto. Qed.

Lemma opened_no enc size (A P : Prop) e :
e <> PSA_SUCCESS -> (forall m, P -> A -> enc m -> zlen m <= size -> False) -> opened_post enc size A P (e, []).
Proof. intros He Hno. split_and!; [done|done|]. intros m HP HA Hm Hs. by destruct (Hno m). Qed.

(** A decryption gives what the cipher text is made of, whenever it fits. *)
Lemma rsa_decrypts type bits key alg inp salt buf size :
(is_null salt = true -> input_length salt = 0) ->
bwp (psa_asymmetric_decrypt_rsa type bits key alg inp salt buf size)
  (opened_post (fun m => rsa_enc (rsa_decode type key).2.2 alg (input_bytes salt) m (input_bytes inp) /\
     type = PSA_KEY_TYPE_RSA_KEY_PAIR) size (is_null inp = false /\ rsa_decrypter type key alg)) True.
Proof.
intros Hsalt. set (enc := fun m => _). set (A := _ /\ _). set (Post := opened_post _ _ _).
assert (Hl : lax Post) by apply opened_lax.
assert (Hno : forall e (P : Prop), e <> PSA_SUCCESS -> (P -> A -> (exists m, enc m) -> False) -> Post P (e, [])).
{ intros e P He Hf. apply opened_no; [done|]. eauto. }
unfold psa_asymmetric_decrypt_rsa. rewrite (null_empty_length _ Hsalt).
destruct NO_RSA eqn:Hrsa.
{ apply bwp_ret; [done|]. apply Hno; [done|]. intros _ [_ [? _]]. congruence. }
destruct (Z.eqb_spec type PSA_KEY_TYPE_RSA_KEY_PAIR) as [->|Hty]; cbn [negb].
2: { apply bwp_ret; [done|]. apply Hno; [done|]. by intros _ (_ & _ & ? & _). }
destruct (_ || _) eqn:Hw.
{ apply bwp_ret; [done|]. apply Hno; [done|]. intros _ (Hn & _ & _ & Hk & _) (m & (_ & Hs & Hc) & _).
  rewrite (null_empty_length inp) in Hw by congruence.
  by rewrite (proj2 (fits_word32_spec (zlen key))), (proj2 (fits_word32_spec (zlen (input_bytes inp)))),
    (proj2 (fits_word32_spec (zlen (input_bytes salt)))) in Hw by lia. }
rewrite !orb_false_iff, !negb_false_iff, !fits_word32_spec in Hw. destruct Hw as [[_ Hin] Hlabel].
apply (bwp_check_call (fun e => (e, []))); [done|by intros; apply Hno|].
apply (bwp_check_code (fun e => (e, []))); [done|by intros; apply Hno| |].
{ intros Hz e He. apply Hno; [done|]. by intros _ (_ & _ & _ & _ & ? & _). }
intros Hz. destruct (wc_RsaPrivateKeyDecode key) as [code [idx pub]] eqn:Hdec. cbn [fst] in Hz. subst code.
assert (Henc : forall m, enc m <-> padded_enc pub alg (input_bytes salt) m (input_bytes inp)).
{ intros m. unfold enc, rsa_enc, rsa_decode. cbn [Z.eqb]. rewrite Hdec. cbn [snd].
  assert (Hc : zlen (input_bytes inp) <= UINT32_MAX) by (destruct inp; simpl in *; [done|lia]). tauto. }
apply bwp_blinding; [done| |].
2: { intros ret Q Hne Hf. rewrite (proj2 (Z.eqb_neq ret 0)) by done. apply bwp_ret; [done|].
     apply Hno; [by rewrite wc_error_success|]. intros Hq (_ & _ & _ & _ & _ & ? & _) _. auto. }
cbn [Z.eqb negb]. cbv zeta. cbn [snd].
pose proof (rsa_size_positive _ _ _ Hdec). rewrite (proj2 (Z.leb_gt _ 0)) by lia.
apply bwp_alloc; [done| |by apply bwp_ret; [done|]; apply Hno; [|intros []]]. cbn [negb].
eapply bwp_bind; [done|by eapply bwp_decrypt_padded|]. intros Q [ret plain] _ [Hsound Hgood].
apply bwp_ret; [done|]. cbn [fst snd] in *.
assert (Hfits : forall m, Q -> A -> enc m -> ret = zlen m /\ plain = m).
{ intros m Hq (Hn & _ & _ & _ & _ & _ & Ho) Hm%Henc. by injection (Hgood m Hq (conj Hn Ho) Hm). }
destruct (Z.ltb_spec ret 0) as [Hlt|Hge].
{ rewrite (proj2 (Z.leb_gt 0 ret)) by lia. cbn [andb]. apply Hno; [by apply rsa_status_not_success|].
  intros Hq Ha [m Hm]. destruct (Hfits m Hq Ha Hm) as [-> _]. pose proof (zlen_nonneg m). lia. }
rewrite (proj2 (Z.leb_le 0 ret)) by lia. cbn [andb]. destruct (Hsound Hge) as [Hlen Hp].
destruct (Z.ltb_spec size ret) as [Hbig|Hok].
{ apply opened_no; [done|]. intros m Hq Ha Hm Hs. destruct (Hfits m Hq Ha Hm) as [-> _]. lia. }
rewrite take_zlen by done. split_and!; [|done|].
- intros _. cbn [snd]. split; [by apply Henc|lia].
- intros m Hq Ha Hm Hs. by destruct (Hfits m Hq Ha Hm) as [_ ->].
Qed.
End Spec.
