(* ===== verification/Ecc.v ===== *)
(** ECDSA signatures: [src/psa_ecc.c] (key generation and export of the same
    file are parameters of the key store), and what the backend promises. *)

From stdpp Require Import base decidable list.
From Stdlib Require Import ZArith Lia.
From Stdlib Require Import Strings.Byte.
From S2P Require Import Prelude.
From S2P Require Import Values.
From S2P Require Import Engine.
From S2P Require Import WolfCrypt.
From S2P Require Import KeyPolicy.
From S2P Require Import KeyFormat.
From S2P Require Import StoreIface.
From S2P Require Import Library.
From S2P Require Import KeyStore.
From S2P Require Import KeyStoreRules.
From S2P Require Import Operation.
From S2P Require Import KeyStoreInv.
From S2P Require Import KeyReaders.
From S2P Require Import AsymValues.
From S2P Require Import WolfSign.
From S2P Require Import WolfPkc.

#[local] Open Scope Z_scope.

Section EccDefs.
Context {C : Config} {E : WolfCryptErr} {K : WolfCryptKeys} {R : WolfCryptRng} {WE : WolfCryptEcc}.
Context {O : StoreOps} {Op : Type}.

Notation EM := (M (opstate O Op)).

(** [wc_ecc_import_x963_ex], or the private key with [wc_ecc_make_pub_ex]: the
  return code. *)
Definition ecc_load (key_type : Z) (key : list byte) (curve_id : Z) : EM Z :=
if PSA_KEY_TYPE_IS_ECC_PUBLIC_KEY key_type then wc_code (wc_ecc_import_x963_ex key curve_id)
else
  ret ← wc_code (wc_ecc_import_private_key_ex key curve_id);
  wc_code_then ret (wc_ecc_make_pub_ex key curve_id).

Definition ecc_loaded_point (key_type : Z) (key : list byte) (curve_id : Z) : ecc_point :=
if PSA_KEY_TYPE_IS_ECC_PUBLIC_KEY key_type then ecc_x963_point key curve_id
else ecc_private_point key curve_id.

(** The switch to deterministic signatures: the mode, or an early return. *)
Definition ecc_deterministic (alg : Z) : EM (psa_status_t + option wc_HashType) :=
if PSA_ALG_IS_DETERMINISTIC_ECDSA alg then
  if WOLFSSL_ECDSA_DETERMINISTIC_K then
    let hash_type := wc_psa_get_hash_type alg in
    if decide (hash_type = WC_HASH_TYPE_NONE) then mret (inl PSA_ERROR_NOT_SUPPORTED)
    else
      ret ← wc_code (wc_ecc_set_deterministic_ex hash_type);
      mret (if negb (ret =? 0) then inl (wc_error_to_psa_status ret) else inr (Some hash_type))
  else mret (inl PSA_ERROR_NOT_SUPPORTED)
else mret (inr None).

(** r and s, right-aligned in their halves. *)
Definition ecc_layout (key_bytes : Z) (r s : list byte) : list byte :=
repeat x00 (Z.to_nat (key_bytes - zlen r)) ++ r ++ repeat x00 (Z.to_nat (key_bytes - zlen s)) ++ s.

(** [wc_ecc_sign_hash] into a DER buffer, and its conversion. *)
Definition ecc_sign_raw (n : nat) (mode : option wc_HashType) (key : list byte) (curve_id : Z)
  (hash : list byte) (key_bytes : Z) : EM (psa_status_t * list byte) :=
let sig_len := wc_ecc_sig_size curve_id in
ok ← lib (XMALLOC sig_len);
if negb ok then mret (PSA_ERROR_INSUFFICIENT_MEMORY, [])
else
  '(ret, der_sig) ← wc_result (wc_ecc_sign_hash n mode key curve_id hash sig_len);
  if negb (ret =? 0) then mret (wc_error_to_psa_status ret, [])
  else
    ok ← lib (XMALLOC (key_bytes * 2));
    if negb ok then mret (PSA_ERROR_INSUFFICIENT_MEMORY, [])
    else
      '(ret, (r, s)) ← wc_result (wc_ecc_sig_to_rs der_sig key_bytes key_bytes);
      if negb (ret =? 0) then mret (wc_error_to_psa_status ret, [])
      else if (key_bytes <? zlen r) || (key_bytes <? zlen s) then mret (PSA_ERROR_INVALID_SIGNATURE, [])
      else mret (PSA_SUCCESS, ecc_layout key_bytes r s).

Definition psa_asymmetric_sign_ecc (key_type key_bits : Z) (key : list byte) (alg : Z)
  (hash : input) (signature : bool) (signature_size : Z) : EM (psa_status_t * list byte) :=
if negb (PSA_KEY_TYPE_IS_ECC_KEY_PAIR key_type) then mret (PSA_ERROR_INVALID_ARGUMENT, [])
else if negb (PSA_ALG_IS_ECDSA alg) && negb (PSA_ALG_IS_DETERMINISTIC_ECDSA alg)
then mret (PSA_ERROR_NOT_SUPPORTED, [])
else if negb signature then mret (PSA_ERROR_INVALID_ARGUMENT, [])
else
  let curve_id := wc_psa_get_ecc_curve_id key_type key_bits in
  if curve_id =? ECC_CURVE_INVALID then mret (PSA_ERROR_NOT_SUPPORTED, [])
  else if negb (fits_word32 (zlen key)) || negb (fits_word32 (input_length hash))
  then mret (PSA_ERROR_INVALID_ARGUMENT, [])
  else if PSA_ALG_IS_DETERMINISTIC_ECDSA alg && WOLF_CRYPTO_CB_ONLY_ECC
  then mret (PSA_ERROR_NOT_SUPPORTED, [])
  else
    ret ← wc_call; (* wc_ecc_init_ex *)
    if negb (ret =? 0) then mret (wc_error_to_psa_status ret, [])
    else
      '(ret, n) ← wc_rng;
      if negb (ret =? 0) then mret (wc_error_to_psa_status ret, [])
      else
        ret ← wc_code (wc_ecc_import_private_key_ex key curve_id);
        if negb (ret =? 0) then mret (wc_error_to_psa_status ret, [])
        else
          let key_bytes := PSA_BITS_TO_BYTES key_bits in
          if signature_size <? key_bytes * 2 then mret (PSA_ERROR_BUFFER_TOO_SMALL, [])
          else
            m ← ecc_deterministic alg;
            match m with
            | inl e => mret (e, [])
            | inr mode => ecc_sign_raw n mode key curve_id (input_bytes hash) key_bytes
            end.

(** The DER signature of a raw one, and its verification. *)
Definition ecc_verify_raw (point : ecc_point) (curve_id : Z) (hash signature : list byte) (key_bytes : Z)
: EM psa_status_t :=
let der_len := wc_ecc_sig_size curve_id in
ok ← lib (XMALLOC der_len);
if negb ok then mret PSA_ERROR_INSUFFICIENT_MEMORY
else
  '(ret, der_sig) ← wc_result (wc_ecc_rs_raw_to_sig (take (Z.to_nat key_bytes) signature)
                                 (drop (Z.to_nat key_bytes) signature) der_len);
  if negb (ret =? 0) then mret PSA_ERROR_INVALID_SIGNATURE
  else
    '(ret, verify_res) ← wc_result (wc_ecc_verify_hash der_sig hash curve_id point);
    mret (if negb (ret =? 0) then wc_error_to_psa_status ret
          else if negb (verify_res =? 1) then PSA_ERROR_INVALID_SIGNATURE
          else PSA_SUCCESS).

Definition psa_asymmetric_verify_ecc (key_type key_bits : Z) (key : list byte) (alg : Z)
  (hash : input) (signature : list byte) : EM psa_status_t :=
if negb (PSA_KEY_TYPE_IS_ECC_PUBLIC_KEY key_type) && negb (PSA_KEY_TYPE_IS_ECC_KEY_PAIR key_type)
then mret PSA_ERROR_INVALID_ARGUMENT
else if negb (PSA_ALG_IS_ECDSA alg) && negb (PSA_ALG_IS_DETERMINISTIC_ECDSA alg)
then mret PSA_ERROR_NOT_SUPPORTED
else
  let curve_id := wc_psa_get_ecc_curve_id key_type key_bits in
  if curve_id =? ECC_CURVE_INVALID then mret PSA_ERROR_NOT_SUPPORTED
  else if negb (fits_word32 (zlen key)) || negb (fits_word32 (input_length hash))
  then mret PSA_ERROR_INVALID_ARGUMENT
  else
    ret ← wc_call; (* wc_ecc_init_ex *)
    if negb (ret =? 0) then mret (wc_error_to_psa_status ret)
    else
      ret ← ecc_load key_type key curve_id;
      if negb (ret =? 0) then mret (wc_error_to_psa_status ret)
      else
        let key_bytes := PSA_BITS_TO_BYTES key_bits in
        if negb (zlen signature =? key_bytes * 2) then mret PSA_ERROR_INVALID_SIGNATURE
        else ecc_verify_raw (ecc_loaded_point key_type key curve_id) curve_id (input_bytes hash)
               signature key_bytes.
End EccDefs.

(** * What the backend promises *)

Section Spec.
Context {C : Config} {E : WolfCryptErr} {EO : WolfCryptErrOk E} {K : WolfCryptKeys} {R : WolfCryptRng}.
Context {WE : WolfCryptEcc} {WEO : WolfCryptEccOk K WE}.
Context {O : StoreOps} {L : StoreLaws O} {B : KeyBackend} {Op : Type}.

Notation EM := (M (opstate O Op)).
Notation bwp := (WolfSign.bwp (O := O) (Op := Op)).

(** A raw signature: two integers of the size of the curve. *)
Definition ecc_valid (curve : Z) (point : ecc_point) (key_bits : Z) (hash sig : list byte) : Prop :=
zlen sig = PSA_BITS_TO_BYTES key_bits * 2 /\
ecdsa curve point hash (be_val (take (Z.to_nat (PSA_BITS_TO_BYTES key_bits)) sig))
  (be_val (drop (Z.to_nat (PSA_BITS_TO_BYTES key_bits)) sig)).

Lemma be_val_pad k l : be_val (repeat x00 k ++ l) = be_val l.
Proof. induction k as [|k IH]; [done|]. simpl. rewrite be_val_cons, IH. change (b2z x00) with 0. lia. Qed.

Lemma ecc_layout_spec kb r s :
zlen r <= kb -> zlen s <= kb ->
zlen (ecc_layout kb r s) = kb * 2 /\
be_val (take (Z.to_nat kb) (ecc_layout kb r s)) = be_val r /\
be_val (drop (Z.to_nat kb) (ecc_layout kb r s)) = be_val s.
Proof.
intros Hr Hs. pose proof (zlen_nonneg r). pose proof (zlen_nonneg s).
unfold ecc_layout. rewrite (assoc_L (++) (repeat _ _) r).
assert (Hh : length (repeat x00 (Z.to_nat (kb - zlen r)) ++ r) = Z.to_nat kb).
{ rewrite length_app, repeat_length. unfold zlen in *. lia. }
split_and!.
- unfold zlen in *. rewrite length_app, Hh, length_app, repeat_length. lia.
- rewrite take_app_length' by done. apply be_val_pad.
- rewrite drop_app_length' by done. apply be_val_pad.
Qed.

Lemma key_bytes_nonneg bits : 0 <= bits -> 0 <= PSA_BITS_TO_BYTES bits.
Proof. intros. unfold PSA_BITS_TO_BYTES. apply Z.div_pos; lia. Qed.

Section Signing.
Variables (key : list byte) (key_bits curve : Z) (hash : list byte) (size : Z).

Definition ecc_good (sig : list byte) : Prop :=
ecc_valid curve (ecc_private_point key curve) key_bits hash sig /\ zlen sig <= size.

Lemma bwp_ecc_sign_raw n mode P :
wc_ecc_import_private_key_ex key curve = 0 -> PSA_BITS_TO_BYTES key_bits * 2 <= size ->
bwp (ecc_sign_raw n mode key curve hash (PSA_BITS_TO_BYTES key_bits)) (bytes_post ecc_good) P.
Proof.
intros Himp Hsize. assert (Hl : lax (bytes_post ecc_good)) by apply bytes_lax.
assert (Hno : forall e (Q : Prop), e <> PSA_SUCCESS -> bwp (mret (e, [])) (bytes_post ecc_good) Q).
{ intros. apply bwp_ret; [done|]. by apply bytes_no. }
assert (Herr : forall ret (Q : Prop) m, ret <> 0 ->
  bwp (if negb (ret =? 0) then mret (wc_error_to_psa_status ret, []) else m) (bytes_post ecc_good) Q).
{ intros ret Q m Hne. rewrite (proj2 (Z.eqb_neq ret 0)) by done. apply Hno. by rewrite wc_error_success. }
unfold ecc_sign_raw. cbv zeta. apply bwp_alloc; [done| |by apply Hno]. cbn [negb].
apply bwp_result; [done| |intros; apply Herr; lia].
destruct (wc_ecc_sign_hash _ _ _ _ _ _) as [ret der] eqn:Hs.
destruct (decide (ret = 0)) as [->|]; [|by apply Herr]. cbn [Z.eqb negb].
destruct (ecc_sign _ _ _ _ _ _ _ Himp Hs) as (r & s & Hder & Hsig).
apply bwp_alloc; [done| |by apply Hno]. cbn [negb].
apply bwp_result; [done| |intros ret [rb sb] Hlt; apply Herr; lia].
destruct (wc_ecc_sig_to_rs _ _ _) as [ret [rb sb]] eqn:Hrs.
destruct (decide (ret = 0)) as [->|]; [|by apply Herr]. cbn [Z.eqb negb].
destruct (Z.ltb_spec (PSA_BITS_TO_BYTES key_bits) (zlen rb)); [by apply Hno|].
destruct (Z.ltb_spec (PSA_BITS_TO_BYTES key_bits) (zlen sb)); [by apply Hno|]. cbn [orb].
destruct (ecc_split _ _ _ _ _ _ _ Hder Hrs) as [<- <-].
destruct (ecc_layout_spec (PSA_BITS_TO_BYTES key_bits) rb sb) as (Hlen & Hr1 & Hs1); [done..|].
apply bwp_ret; [done|]. split; [|done]. intros _. cbn [snd]. unfold ecc_good, ecc_valid.
rewrite Hlen, Hr1, Hs1. done.
Qed.
End Signing.

(** A signing call gives valid signatures only, made by a key pair. *)
Lemma ecc_signs type bits key alg hash buf size P :
bwp (psa_asymmetric_sign_ecc type bits key alg hash buf size)
  (bytes_post (fun sig =>
     ecc_valid (wc_psa_get_ecc_curve_id type bits) (ecc_private_point key (wc_psa_get_ecc_curve_id type bits))
       bits (input_bytes hash) sig /\ zlen sig <= size /\ PSA_KEY_TYPE_IS_ECC_KEY_PAIR type = true /\
     PSA_ALG_IS_ECDSA alg || PSA_ALG_IS_DETERMINISTIC_ECDSA alg = true /\
     wc_psa_get_ecc_curve_id type bits <> ECC_CURVE_INVALID)) P.
Proof.
set (Post := bytes_post _). assert (Hl : lax Post) by apply bytes_lax.
assert (Hno : forall e Q, e <> PSA_SUCCESS -> Post Q (e, [])) by (intros; by apply bytes_no).
unfold psa_asymmetric_sign_ecc.
destruct (PSA_KEY_TYPE_IS_ECC_KEY_PAIR type) eqn:Hty; cbn [negb]; [|by apply bwp_ret; auto].
rewrite <- negb_orb. destruct (PSA_ALG_IS_ECDSA alg || _) eqn:Halg; cbn [negb]; [|by apply bwp_ret; auto].
destruct buf; cbn [negb]; [|by apply bwp_ret; auto]. cbv zeta.
destruct (Z.eqb_spec (wc_psa_get_ecc_curve_id type bits) ECC_CURVE_INVALID) as [|Hcurve]; [by apply bwp_ret; auto|].
destruct (negb (fits_word32 (zlen key)) || _); [by apply bwp_ret; auto|].
destruct (_ && WOLF_CRYPTO_CB_ONLY_ECC); [by apply bwp_ret; auto|].
apply (bwp_check_call (fun e => (e, []))); [done|auto|].
apply (bwp_check_rng (fun e => (e, []))); [done|auto|]. intros n.
apply (bwp_check_code (fun e => (e, []))); [done|auto..|]. intros Himp.
destruct (Z.ltb_spec size (PSA_BITS_TO_BYTES bits * 2)) as [|Hsize]; [by apply bwp_ret; auto|].
apply (bwp_bind _ _ (fun _ m => match m with inl e => e <> PSA_SUCCESS | inr _ => True end)); [done| |].
- assert (Hlm : lax (fun _ (m : psa_status_t + option wc_HashType) =>
    match m with inl e => e <> PSA_SUCCESS | inr _ => True end)) by (intros ?????; done).
  unfold ecc_deterministic. destruct (PSA_ALG_IS_DETERMINISTIC_ECDSA alg); [|by apply bwp_ret].
  destruct WOLFSSL_ECDSA_DETERMINISTIC_K; [|by apply bwp_ret]. cbv zeta.
  destruct (decide _); [by apply bwp_ret|].
  assert (Hret : forall ret (Q : Prop), bwp (mret (if negb (ret =? 0) then inl (wc_error_to_psa_status ret)
      else inr (Some (wc_psa_get_hash_type alg)))) (fun _ m => match m with inl e => e <> PSA_SUCCESS | inr _ => True end) Q).
  { intros ret Q. apply bwp_ret; [done|]. destruct (Z.eqb_spec ret 0); [done|]. cbn [negb]. by rewrite wc_error_success. }
  by apply bwp_code.
- intros Q [e|mode] _ Hm; [by apply bwp_ret; auto|].
  eapply bwp_mono; [by apply bwp_ecc_sign_raw|]. intros Q' r [Hg Hn]. split; [|done].
  intros Hst. by destruct (Hg Hst).
Qed.

(** A curve has a size. *)
Lemma curve_bits type bits :
wc_psa_get_ecc_curve_id type bits <> ECC_CURVE_INVALID -> 0 < PSA_BITS_TO_BYTES bits.
Proof.
intros Hc. assert (Hb : 192 <= bits).
{ destruct (Z.le_gt_cases 192 bits) as [|Hlt]; [done|]. destruct Hc. unfold wc_psa_get_ecc_curve_id.
  repeat match goal with |- context [bits =? ?n] => rewrite (proj2 (Z.eqb_neq bits n)) by lia end.
  repeat (match goal with |- context [if ?b then _ else _] => destruct b end; try done). }
unfold PSA_BITS_TO_BYTES. apply Z.div_str_pos. lia.
Qed.

(** Edwards curves are not of this backend. *)
Lemma edwards_no_curve type bits :
type = TWISTED_EDWARDS_KEY_PAIR \/ type = TWISTED_EDWARDS_PUBLIC_KEY ->
wc_psa_get_ecc_curve_id type bits = ECC_CURVE_INVALID.
Proof. by intros [->| ->]. Qed.

Definition ecc_loads (type : Z) (key : list byte) (curve : Z) : Prop :=
if PSA_KEY_TYPE_IS_ECC_PUBLIC_KEY type then wc_ecc_import_x963_ex key curve = 0
else wc_ecc_import_private_key_ex key curve = 0 /\ wc_ecc_make_pub_ex key curve = 0.

Lemma bwp_ecc_load {A} type key curve (k : Z -> EM A) (Post : Prop -> A -> Prop) (P : Prop) :
lax Post -> (ecc_loads type key curve -> bwp (k 0) Post P) ->
(forall ret (Q : Prop), ret <> 0 -> (Q -> ecc_loads type key curve -> False) -> bwp (k ret) Post Q) ->
bwp (ret ← ecc_load type key curve; k ret) Post P.
Proof.
intros Hl Hgood Hbad. unfold ecc_load, ecc_loads in *. destruct (PSA_KEY_TYPE_IS_ECC_PUBLIC_KEY type).
- apply bwp_code; [done| |].
  + destruct (decide (wc_ecc_import_x963_ex key curve = 0)) as [Hz|Hz]; [rewrite Hz; auto|]. by apply Hbad.
  + intros ret Hneg. apply Hbad; [lia|by intros []].
- apply bwp_assoc, bwp_code; [done| |].
  + apply bwp_code_then; [done|auto|]. intros ret Q Hne HQ Hno. apply Hbad; [done|]. intros Hq [H1 H2]. eauto.
  + intros ret Hneg. apply bwp_code_then; [done|lia|]. intros ret' Q Hne HQ _. apply Hbad; [done|].
    intros []%HQ.
Qed.

(** A verification accepts the valid signatures of a curve's key, and no others. *)
Definition ecc_verifier (type bits : Z) (key : list byte) (alg : Z) (hash : list byte) : Prop :=
PSA_KEY_TYPE_IS_ECC_PUBLIC_KEY type || PSA_KEY_TYPE_IS_ECC_KEY_PAIR type = true /\
wc_psa_get_ecc_curve_id type bits <> ECC_CURVE_INVALID /\ zlen key <= UINT32_MAX /\ zlen hash <= UINT32_MAX /\
ecc_loads type key (wc_psa_get_ecc_curve_id type bits).

Lemma bwp_ecc_verify_raw point curve bits hash sig (A : Prop) :
zlen sig = PSA_BITS_TO_BYTES bits * 2 ->
bwp (ecc_verify_raw point curve hash sig (PSA_BITS_TO_BYTES bits))
  (verdict_post (ecc_valid curve point bits hash sig) A) True.
Proof.
intros Hlen. set (V := ecc_valid _ _ _ _ _). assert (Hl : lax (verdict_post V A)) by apply verdict_lax.
assert (Hno : forall e (P : Prop), e <> PSA_SUCCESS -> (P -> A -> V -> False) -> bwp (mret e) (verdict_post V A) P).
{ intros e P He Hf. apply bwp_ret; [done|]. by apply verdict_no. }
unfold ecc_verify_raw. cbv zeta. set (kb := Z.to_nat _). unfold V, ecc_valid in *. fold kb in Hno |- *.
apply bwp_alloc; [done| |by apply Hno; [|intros []]]. cbn [negb].
apply bwp_result; [done| |].
2: { intros ret out Hneg. rewrite (proj2 (Z.eqb_neq ret 0)) by lia. by apply Hno; [|intros []]. }
destruct (wc_ecc_rs_raw_to_sig _ _ _) as [ret der] eqn:Hj.
destruct (Z.eqb_spec ret 0) as [->|Hne]; cbn [negb].
2: { apply Hno; [done|]. intros _ _ [_ Hv]. apply ecc_join_complete in Hv. by rewrite Hj in Hv. }
apply ecc_join in Hj.
apply bwp_check_verdict. split.
- intros Hver. split; [done|]. by eapply ecc_verify.
- intros [_ Hv]. by eapply ecc_verify_complete.
Qed.

Lemma ecc_verifies type bits key alg hash sig :
(is_null hash = true -> input_length hash = 0) ->
bwp (psa_asymmetric_verify_ecc type bits key alg hash sig)
  (verdict_post
     (ecc_valid (wc_psa_get_ecc_curve_id type bits)
        (ecc_loaded_point type key (wc_psa_get_ecc_curve_id type bits)) bits (input_bytes hash) sig /\
      PSA_ALG_IS_ECDSA alg || PSA_ALG_IS_DETERMINISTIC_ECDSA alg = true)
     (ecc_verifier type bits key alg (input_bytes hash))) True.
Proof.
intros Hnull. set (V := ecc_valid _ _ _ _ _ /\ _). set (A := ecc_verifier _ _ _ _ _).
assert (Hl : lax (verdict_post V A)) by apply verdict_lax.
assert (Hno : forall e (P : Prop), e <> PSA_SUCCESS -> (P -> A -> V -> False) -> bwp (mret e) (verdict_post V A) P).
{ intros e P He Hf. apply bwp_ret; [done|]. by apply verdict_no. }
unfold psa_asymmetric_verify_ecc. rewrite <- !negb_orb.
destruct (PSA_KEY_TYPE_IS_ECC_PUBLIC_KEY type || _) eqn:Hty; cbn [negb];
  [|apply Hno; [done|]; intros _ [? _]; congruence].
destruct (PSA_ALG_IS_ECDSA alg || _) eqn:Halg; cbn [negb]; [|apply Hno; [done|]; intros _ _ [_ ?]; congruence].
cbv zeta. destruct (Z.eqb_spec (wc_psa_get_ecc_curve_id type bits) ECC_CURVE_INVALID);
  [by apply Hno; [done|]; intros _ (_ & ? & _)|].
destruct (negb (fits_word32 (zlen key)) || _) eqn:Hw.
{ apply Hno; [done|]. intros _ (_ & _ & Hk & Hh & _) _. rewrite (null_empty_length _ Hnull) in Hw.
  by rewrite (proj2 (fits_word32_spec (zlen key))), (proj2 (fits_word32_spec (zlen (input_bytes hash)))) in Hw. }
apply (bwp_check_call id); [done|by intros; apply verdict_no; [|intros []]|].
apply bwp_ecc_load; [done| |].
2: { intros ret Q Hne Hf. rewrite (proj2 (Z.eqb_neq ret 0)) by done.
     apply Hno; [by rewrite wc_error_success|]. intros Hq (_ & _ & _ & _ & ?) _. eauto. }
intros Hload. cbn [Z.eqb negb].
destruct (Z.eqb_spec (zlen sig) (PSA_BITS_TO_BYTES bits * 2)) as [Hsig|Hsig]; cbn [negb].
2: { apply Hno; [done|]. by intros _ _ [[? _] _]. }
eapply bwp_mono; [by apply (bwp_ecc_verify_raw _ _ _ _ _ A)|]. intros Q st [H1 H2]. split.
- intros Hst. split; [by apply H1|done].
- intros Hq Ha [Hv _]. auto.
Qed.
(** Without a curve nothing verifies. *)
Lemma ecc_no_curve type bits key alg hash sig (V : Prop) P :
wc_psa_get_ecc_curve_id type bits = ECC_CURVE_INVALID ->
bwp (psa_asymmetric_verify_ecc type bits key alg hash sig) (verdict_post V False) P.
Proof.
intros Hc. assert (Hno : forall e, e <> PSA_SUCCESS -> bwp (mret e) (verdict_post V False) P).
{ intros e He. apply bwp_ret; [apply verdict_lax|]. by apply verdict_no. }
unfold psa_asymmetric_verify_ecc. rewrite Hc, Z.eqb_refl.
destruct (_ && _); [by apply Hno|]. destruct (_ && _); by apply Hno.
Qed.
End Spec.
