(* ===== verification/Edwards.v ===== *)
(** Ed25519 and Ed448 signatures: [src/psa_ed25519_ed448.c] (key generation and
    export of the same file are parameters of the key store), and what the
    backend promises. *)

From stdpp Require Import base decidable list.
From Stdlib Require Import ZArith Lia.
From Stdlib Require Import Strings.Byte.
From S2P Require Import Prelude.
From S2P Require Import Values.
From S2P Require Import Engine.
From S2P Require Import WolfCrypt.
From S2P Require Import KeyFormat.
From S2P Require Import StoreIface.
From S2P Require Import Library.
From S2P Require Import KeyStore.
From S2P Require Import KeyStoreRules.
From S2P Require Import Operation.
From S2P Require Import KeyStoreInv.
From S2P Require Import KeyReaders.
From S2P Require Import AsymValues.
From S2P Require Import WolfSign.
From S2P Require Import WolfPkc.

#[local] Open Scope Z_scope.

Section EdwardsDefs.
Context {C : Config} {E : WolfCryptErr} {R : WolfCryptRng} {WD : WolfCryptEdwards}.
Context {O : StoreOps} {Op : Type}.

Notation EM := (M (opstate O Op)).

(** * From the loaded key on: the two curves alike *)

(** The variant that an algorithm selects. *)
Definition ed25519_scheme (alg : Z) : ed_scheme :=
if alg =? PSA_ALG_ED25519PH then SchemeEd25519ph
else if alg =? PSA_ALG_EDDSA_CTX then SchemeEd25519ctx
else SchemeEd25519.
Definition ed448_scheme (alg : Z) : ed_scheme :=
if alg =? PSA_ALG_ED448PH then SchemeEd448ph else SchemeEd448.

Definition ed_import_private (is_448 : bool) (key : list byte) : Z :=
if is_448 then wc_ed448_import_private_only key else wc_ed25519_import_private_only key.
Definition ed_import_public (is_448 : bool) (key : list byte) : Z * list byte :=
if is_448 then wc_ed448_import_public key else wc_ed25519_import_public key.

(** The private seed, and the public key of it. *)
Definition ed_load_private (is_448 : bool) (key : list byte) : EM Z :=
ret ← wc_code (ed_import_private is_448 key);
wc_code_then ret (ed_make_public is_448 key).1.

Definition ed_load (is_448 : bool) (key_type : Z) (key : list byte) : EM Z :=
if key_type =? TWISTED_EDWARDS_KEY_PAIR then ed_load_private is_448 key
else wc_code (ed_import_public is_448 key).1.

Definition ed_public (is_448 : bool) (key_type : Z) (key : list byte) : list byte :=
if key_type =? TWISTED_EDWARDS_KEY_PAIR then (ed_make_public is_448 key).2
else (ed_import_public is_448 key).2.

Definition ed_sign_with (v : ed_scheme) (key msg ctx : list byte) (size : Z)
: EM (psa_status_t * list byte) :=
ret ← wc_call; (* wc_ed25519_init_ex *)
if negb (ret =? 0) then mret (wc_error_to_psa_status ret, [])
else
  ret ← ed_load_private (ed_is_448 v) key;
  if negb (ret =? 0) then mret (wc_error_to_psa_status ret, [])
  else
    '(ret, sig) ← wc_result (ed_sign_call v key msg ctx size);
    if negb (ret =? 0) then mret (wc_error_to_psa_status ret, [])
    else mret (PSA_SUCCESS, sig).

Definition ed_verify_with (v : ed_scheme) (key_type : Z) (key msg ctx sig : list byte)
: EM psa_status_t :=
ret ← wc_call; (* wc_ed25519_init_ex *)
if negb (ret =? 0) then mret (wc_error_to_psa_status ret)
else
  ret ← ed_load (ed_is_448 v) key_type key;
  if negb (ret =? 0) then mret (wc_error_to_psa_status ret)
  else
    '(ret, verify_res) ← wc_result (ed_verify_call v (ed_public (ed_is_448 v) key_type key) sig msg ctx);
    mret (if negb (ret =? 0) then wc_error_to_psa_status ret
          else if negb (verify_res =? 1) then PSA_ERROR_INVALID_SIGNATURE
          else PSA_SUCCESS).

(** * Ed25519 *)

Definition psa_asymmetric_sign_ed25519 (key_type key_bits : Z) (key : list byte) (alg : Z)
  (hash : input) (signature : bool) (signature_size : Z) (context : input)
: EM (psa_status_t * list byte) :=
if negb (alg =? PSA_ALG_PURE_EDDSA) && negb (alg =? PSA_ALG_EDDSA_CTX) && negb (alg =? PSA_ALG_ED25519PH)
then mret (PSA_ERROR_NOT_SUPPORTED, [])
else if (alg =? PSA_ALG_PURE_EDDSA) && negb (input_length context =? 0)
then mret (PSA_ERROR_INVALID_ARGUMENT, [])
else if 255 <? input_length context then mret (PSA_ERROR_INVALID_ARGUMENT, [])
else if negb (key_type =? TWISTED_EDWARDS_KEY_PAIR) || negb (key_bits =? 255)
then mret (PSA_ERROR_INVALID_ARGUMENT, [])
else if negb (fits_word32 (zlen key)) || negb (fits_word32 (input_length hash))
        || negb (fits_word32 signature_size)
then mret (PSA_ERROR_INVALID_ARGUMENT, [])
else if (alg =? PSA_ALG_ED25519PH) && negb (input_length hash =? PSA_HASH_LENGTH PSA_ALG_SHA_512)
then mret (PSA_ERROR_INVALID_ARGUMENT, [])
else ed_sign_with (ed25519_scheme alg) key (input_bytes hash) (input_bytes context) signature_size.

Definition psa_asymmetric_verify_ed25519 (key_type key_bits : Z) (key : list byte) (alg : Z)
  (hash : input) (signature : list byte) (context : input) : EM psa_status_t :=
if negb (alg =? PSA_ALG_PURE_EDDSA) && negb (alg =? PSA_ALG_EDDSA_CTX) && negb (alg =? PSA_ALG_ED25519PH)
then mret PSA_ERROR_NOT_SUPPORTED
else if (alg =? PSA_ALG_PURE_EDDSA) && negb (input_length context =? 0)
then mret PSA_ERROR_INVALID_ARGUMENT
else if 255 <? input_length context then mret PSA_ERROR_INVALID_ARGUMENT
else if negb (key_type =? TWISTED_EDWARDS_KEY_PAIR) && negb (key_type =? TWISTED_EDWARDS_PUBLIC_KEY)
        || negb (key_bits =? 255)
then mret PSA_ERROR_INVALID_ARGUMENT
else if negb (fits_word32 (zlen key)) || negb (fits_word32 (input_length hash))
        || negb (fits_word32 (zlen signature))
then mret PSA_ERROR_INVALID_ARGUMENT
else if (alg =? PSA_ALG_ED25519PH) && negb (input_length hash =? PSA_HASH_LENGTH PSA_ALG_SHA_512)
then mret PSA_ERROR_INVALID_ARGUMENT
else ed_verify_with (ed25519_scheme alg) key_type key (input_bytes hash) (input_bytes context) signature.

(** * Ed448 *)

Definition psa_asymmetric_sign_ed448 (key_type key_bits : Z) (key : list byte) (alg : Z)
  (hash : input) (signature : bool) (signature_size : Z) (context : input)
: EM (psa_status_t * list byte) :=
if negb (alg =? PSA_ALG_PURE_EDDSA) && negb (alg =? PSA_ALG_EDDSA_CTX) && negb (alg =? PSA_ALG_ED448PH)
then mret (PSA_ERROR_NOT_SUPPORTED, [])
else if 255 <? input_length context then mret (PSA_ERROR_INVALID_ARGUMENT, [])
else if negb (key_type =? TWISTED_EDWARDS_KEY_PAIR) || negb (key_bits =? 448)
then mret (PSA_ERROR_INVALID_ARGUMENT, [])
else if negb (fits_word32 (zlen key)) || negb (fits_word32 (input_length hash))
        || negb (fits_word32 signature_size)
then mret (PSA_ERROR_INVALID_ARGUMENT, [])
else if (alg =? PSA_ALG_ED448PH) && negb (input_length hash =? 64)
then mret (PSA_ERROR_INVALID_ARGUMENT, [])
else if (alg =? PSA_ALG_PURE_EDDSA) && negb (input_length context =? 0)
then mret (PSA_ERROR_INVALID_ARGUMENT, [])
else ed_sign_with (ed448_scheme alg) key (input_bytes hash) (input_bytes context) signature_size.

Definition psa_asymmetric_verify_ed448 (key_type key_bits : Z) (key : list byte) (alg : Z)
  (hash : input) (signature : list byte) (context : input) : EM psa_status_t :=
if negb (alg =? PSA_ALG_PURE_EDDSA) && negb (alg =? PSA_ALG_EDDSA_CTX) && negb (alg =? PSA_ALG_ED448PH)
then mret PSA_ERROR_NOT_SUPPORTED
else if 255 <? input_length context then mret PSA_ERROR_INVALID_ARGUMENT
else if negb (key_type =? TWISTED_EDWARDS_KEY_PAIR) && negb (key_type =? TWISTED_EDWARDS_PUBLIC_KEY)
        || negb (key_bits =? 448)
then mret PSA_ERROR_INVALID_ARGUMENT
else if negb (fits_word32 (zlen key)) || negb (fits_word32 (input_length hash))
        || negb (fits_word32 (zlen signature))
then mret PSA_ERROR_INVALID_ARGUMENT
else if (alg =? PSA_ALG_ED448PH) && negb (input_length hash =? 64)
then mret PSA_ERROR_INVALID_ARGUMENT
else if (alg =? PSA_ALG_PURE_EDDSA) && negb (input_length context =? 0)
then mret PSA_ERROR_INVALID_ARGUMENT
else ed_verify_with (ed448_scheme alg) key_type key (input_bytes hash) (input_bytes context) signature.
End EdwardsDefs.

(** * What the backend promises *)

Section Spec.
Context {C : Config} {E : WolfCryptErr} {EO : WolfCryptErrOk E} {K : WolfCryptKeys} {R : WolfCryptRng}.
Context {WD : WolfCryptEdwards} {WDO : WolfCryptEdwardsOk WD}.
Context {O : StoreOps} {L : StoreLaws O} {B : KeyBackend} {Op : Type}.

Notation EM := (M (opstate O Op)).
Notation bwp := (WolfSign.bwp (O := O) (Op := Op)).

Lemma bwp_ed_sign_with v key msg ctx size P :
bwp (ed_sign_with v key msg ctx size)
  (bytes_post (fun sig => ed_valid v (ed_make_public (ed_is_448 v) key).2 ctx msg sig /\ 0 < zlen sig <= size)) P.
Proof.
set (Post := bytes_post _). assert (Hl : lax Post) by apply bytes_lax.
assert (Hno : forall e Q, e <> PSA_SUCCESS -> Post Q (e, [])) by (intros; by apply bytes_no).
unfold ed_sign_with. apply (bwp_check_call (fun e => (e, []))); [done|auto|].
unfold ed_load_private. apply bwp_assoc.
assert (Hbad : forall ret (Q : Prop) m, ret <> 0 -> bwp (if negb (ret =? 0) then mret (wc_error_to_psa_status ret, []) else m) Post Q).
{ intros ret Q m Hne. rewrite (proj2 (Z.eqb_neq ret 0)) by done. apply bwp_ret; [done|]. apply Hno. by rewrite wc_error_success. }
assert (Hload : forall ret (Q : Prop), bwp (ret ← wc_code_then ret (ed_make_public (ed_is_448 v) key).1;
  if negb (ret =? 0) then mret (wc_error_to_psa_status ret, [])
  else
    '(ret, sig) ← wc_result (ed_sign_call v key msg ctx size);
    if negb (ret =? 0) then mret (wc_error_to_psa_status ret, []) else mret (PSA_SUCCESS, sig)) Post Q).
{ intros ret Q. apply bwp_code_then; [done| |by intros; apply Hbad]. intros _ Hz. cbn [Z.eqb negb].
  destruct (ed_make_public _ key) as [r pub] eqn:Hmk. cbn [fst snd] in *. subst r.
  apply bwp_result; [done| |by intros; apply Hbad; lia].
  destruct (ed_sign_call _ _ _ _ _) as [r sig] eqn:Hs. destruct (decide (r = 0)) as [->|]; [|by apply Hbad].
  apply bwp_ret; [done|]. split; [|done]. intros _. by eapply ed_sign. }
apply bwp_code; [done|apply Hload|]. intros. apply Hload.
Qed.

(** What a verification needs of the key. *)
Definition ed_loads (is_448 : bool) (type : Z) (key : list byte) : Prop :=
if type =? TWISTED_EDWARDS_KEY_PAIR
then ed_import_private is_448 key = 0 /\ (ed_make_public is_448 key).1 = 0
else (ed_import_public is_448 key).1 = 0.

Lemma bwp_ed_verify_with v type key msg ctx sig :
bwp (ed_verify_with v type key msg ctx sig)
  (verdict_post (ed_valid v (ed_public (ed_is_448 v) type key) ctx msg sig) (ed_loads (ed_is_448 v) type key)) True.
Proof.
set (V := ed_valid _ _ _ _ _). set (A := ed_loads _ _ _).
assert (Hl : lax (verdict_post V A)) by apply verdict_lax.
assert (Hno : forall ret (P : Prop) m, ret <> 0 -> (P -> A -> V -> False) ->
  bwp (if negb (ret =? 0) then mret (wc_error_to_psa_status ret) else m) (verdict_post V A) P).
{ intros ret P m He Hf. rewrite (proj2 (Z.eqb_neq ret 0)) by done. apply bwp_ret; [done|].
  apply verdict_no; [by rewrite wc_error_success|done]. }
unfold ed_verify_with. apply (bwp_check_call id); [done|by intros; apply verdict_no; [|intros []]|].
assert (Hk : bwp ('(ret, verify_res) ← wc_result (ed_verify_call v (ed_public (ed_is_448 v) type key) sig msg ctx);
    mret (if negb (ret =? 0) then wc_error_to_psa_status ret
          else if negb (verify_res =? 1) then PSA_ERROR_INVALID_SIGNATURE else PSA_SUCCESS)) (verdict_post V A) True).
{ apply bwp_check_verdict. split; [apply ed_verify|apply ed_verify_complete]. }
unfold ed_load, A, ed_loads in *. destruct (type =? TWISTED_EDWARDS_KEY_PAIR).
- unfold ed_load_private. apply bwp_assoc, bwp_code; [done| |].
  + apply bwp_code_then; [done|done|]. intros ret Q Hne _ Hf. apply Hno; [done|]. intros Hq [H1 H2] _. eauto.
  + intros ret Hneg. apply bwp_code_then; [done|lia|]. intros ret' Q Hne HQ _. apply Hno; [done|]. by intros []%HQ.
- apply (bwp_check_code id); [done|by intros; apply verdict_no; [|intros []]| |done].
  intros Hz e He. apply verdict_no; [done|]. by intros _ Ha.
Qed.

(** Both curves: the bits of the key select one. *)
Definition ed_scheme_of (bits alg : Z) : ed_scheme :=
if bits =? 448 then ed448_scheme alg else ed25519_scheme alg.
Definition ed_alg_ok (bits alg : Z) : bool :=
(alg =? PSA_ALG_PURE_EDDSA) || (alg =? PSA_ALG_EDDSA_CTX)
|| (alg =? if bits =? 448 then PSA_ALG_ED448PH else PSA_ALG_ED25519PH).
Definition ed_hash_ok (bits alg : Z) (hash : list byte) : bool :=
negb (alg =? if bits =? 448 then PSA_ALG_ED448PH else PSA_ALG_ED25519PH)
|| (zlen hash =? if bits =? 448 then 64 else PSA_HASH_LENGTH PSA_ALG_SHA_512).
Definition ed_context_ok (alg : Z) (ctx : list byte) : bool :=
(zlen ctx <=? 255) && (negb (alg =? PSA_ALG_PURE_EDDSA) || (zlen ctx =? 0)).

(** What an Edwards signature states. *)
Definition edwards_valid (bits alg : Z) (pub ctx hash sig : list byte) : Prop :=
ed_alg_ok bits alg = true /\ ed_hash_ok bits alg hash = true /\ ed_context_ok alg ctx = true /\
ed_valid (ed_scheme_of bits alg) pub ctx hash sig.

Definition edwards_verifier (type bits : Z) (key hash : list byte) : Prop :=
(type = TWISTED_EDWARDS_KEY_PAIR \/ type = TWISTED_EDWARDS_PUBLIC_KEY) /\
zlen key <= UINT32_MAX /\ zlen hash <= UINT32_MAX /\ ed_loads (bits =? 448) type key.

Lemma edwards_checks bits alg hash ctx :
zlen ctx <= 255 -> (alg =? PSA_ALG_PURE_EDDSA) && negb (zlen ctx =? 0) = false ->
(alg =? if bits =? 448 then PSA_ALG_ED448PH else PSA_ALG_ED25519PH) &&
 negb (zlen hash =? if bits =? 448 then 64 else PSA_HASH_LENGTH PSA_ALG_SHA_512) = false ->
ed_hash_ok bits alg hash = true /\ ed_context_ok alg ctx = true.
Proof.
intros Hc Hp%(f_equal negb) Hh%(f_equal negb). rewrite negb_andb, negb_involutive in Hp, Hh.
unfold ed_hash_ok, ed_context_ok. by rewrite (proj2 (Z.leb_le _ 255)), Hh, Hp.
Qed.

(** What both signing calls promise. *)
Definition edwards_good (bits alg : Z) (key ctx hash : list byte) (type size : Z) (sig : list byte) : Prop :=
edwards_valid bits alg (ed_make_public (bits =? 448) key).2 ctx hash sig /\ 0 < zlen sig <= size /\
type = TWISTED_EDWARDS_KEY_PAIR.

Lemma ed_scheme_curve bits alg : ed_is_448 (ed_scheme_of bits alg) = (bits =? 448).
Proof.
unfold ed_scheme_of, ed448_scheme, ed25519_scheme. destruct (bits =? 448); [by destruct (alg =? PSA_ALG_ED448PH)|].
destruct (alg =? PSA_ALG_ED25519PH); [done|]. by destruct (alg =? PSA_ALG_EDDSA_CTX).
Qed.

Lemma bwp_edwards_sign bits alg key ctx hash size P :
ed_alg_ok bits alg = true -> ed_hash_ok bits alg hash = true /\ ed_context_ok alg ctx = true ->
bwp (ed_sign_with (ed_scheme_of bits alg) key hash ctx size)
  (bytes_post (edwards_good bits alg key ctx hash TWISTED_EDWARDS_KEY_PAIR size)) P.
Proof.
intros Ha [Hh Hc]. eapply bwp_mono; [apply bwp_ed_sign_with|]. intros Q r [Hg Hn]. split; [|done]. intros Hst.
destruct (Hg Hst) as [Hv Hsz]. rewrite ed_scheme_curve in Hv. split; [by split_and!|done].
Qed.

Lemma alg_ok_spec alg ph :
negb (alg =? PSA_ALG_PURE_EDDSA) && negb (alg =? PSA_ALG_EDDSA_CTX) && negb (alg =? ph) = false ->
(alg =? PSA_ALG_PURE_EDDSA) || (alg =? PSA_ALG_EDDSA_CTX) || (alg =? ph) = true.
Proof. intros H%(f_equal negb). by rewrite !negb_andb, !negb_involutive in H. Qed.

Lemma ed25519_signs type bits key alg hash buf size ctx P :
(is_null hash = true -> input_length hash = 0) -> (is_null ctx = true -> input_length ctx = 0) ->
bwp (psa_asymmetric_sign_ed25519 type bits key alg hash buf size ctx)
  (bytes_post (edwards_good bits alg key (input_bytes ctx) (input_bytes hash) type size)) P.
Proof.
intros Hh Hc. set (Post := bytes_post _).
assert (Hno : forall e Q, e <> PSA_SUCCESS -> bwp (mret (e, [])) Post Q)
  by (intros; by apply bwp_ret, bytes_no; [apply bytes_lax|]).
unfold psa_asymmetric_sign_ed25519. rewrite (null_empty_length _ Hh), (null_empty_length _ Hc).
destruct (negb (alg =? PSA_ALG_PURE_EDDSA) && _ && _) eqn:Halg; [by apply Hno|].
destruct ((alg =? PSA_ALG_PURE_EDDSA) && _) eqn:Hpure; [by apply Hno|].
destruct (Z.ltb_spec 255 (zlen (input_bytes ctx))); [by apply Hno|].
destruct (Z.eqb_spec type TWISTED_EDWARDS_KEY_PAIR) as [->|]; cbn [negb orb]; [|by apply Hno].
destruct (Z.eqb_spec bits 255) as [->|]; cbn [negb orb]; [|by apply Hno].
destruct (_ || _); [by apply Hno|].
destruct ((alg =? PSA_ALG_ED25519PH) && _) eqn:Hph; [by apply Hno|].
apply (bwp_edwards_sign 255); [by apply alg_ok_spec|by apply edwards_checks].
Qed.

Lemma ed448_signs type bits key alg hash buf size ctx P :
(is_null hash = true -> input_length hash = 0) -> (is_null ctx = true -> input_length ctx = 0) ->
bwp (psa_asymmetric_sign_ed448 type bits key alg hash buf size ctx)
  (bytes_post (edwards_good bits alg key (input_bytes ctx) (input_bytes hash) type size)) P.
Proof.
intros Hh Hc. set (Post := bytes_post _).
assert (Hno : forall e Q, e <> PSA_SUCCESS -> bwp (mret (e, [])) Post Q)
  by (intros; by apply bwp_ret, bytes_no; [apply bytes_lax|]).
unfold psa_asymmetric_sign_ed448. rewrite (null_empty_length _ Hh), (null_empty_length _ Hc).
destruct (negb (alg =? PSA_ALG_PURE_EDDSA) && _ && _) eqn:Halg; [by apply Hno|].
destruct (Z.ltb_spec 255 (zlen (input_bytes ctx))); [by apply Hno|].
destruct (Z.eqb_spec type TWISTED_EDWARDS_KEY_PAIR) as [->|]; cbn [negb orb]; [|by apply Hno].
destruct (Z.eqb_spec bits 448) as [->|]; cbn [negb orb]; [|by apply Hno].
destruct (_ || _); [by apply Hno|].
destruct ((alg =? PSA_ALG_ED448PH) && _) eqn:Hph; [by apply Hno|].
destruct ((alg =? PSA_ALG_PURE_EDDSA) && _) eqn:Hpure; [by apply Hno|].
apply (bwp_edwards_sign 448); [by apply alg_ok_spec|by apply edwards_checks].
Qed.

(** ** Verifying *)

Definition edwards_verdict (bits alg : Z) (type : Z) (key ctx hash sig : list byte) (P : Prop) (st : psa_status_t) : Prop :=
verdict_post (edwards_valid bits alg (ed_public (bits =? 448) type key) ctx hash sig)
  (edwards_verifier type bits key hash) P st.

Lemma bwp_edwards_verify bits type alg key ctx hash sig :
ed_alg_ok bits alg = true -> ed_hash_ok bits alg hash = true /\ ed_context_ok alg ctx = true ->
bwp (ed_verify_with (ed_scheme_of bits alg) type key hash ctx sig)
  (edwards_verdict bits alg type key ctx hash sig) True.
Proof.
intros Ha [Hh Hc]. eapply bwp_mono; [apply bwp_ed_verify_with|]. intros Q st [H1 H2].
rewrite ed_scheme_curve in *. split.
- intros Hst. by split_and!; auto.
- intros HQ (_ & _ & _ & Hl) (_ & _ & _ & Hv). auto.
Qed.

Lemma bwp_edwards_no bits type alg key ctx hash sig e (P : Prop) :
e <> PSA_SUCCESS ->
(edwards_valid bits alg (ed_public (bits =? 448) type key) ctx hash sig ->
 edwards_verifier type bits key hash -> False) ->
bwp (mret e) (edwards_verdict bits alg type key ctx hash sig) P.
Proof.
intros He Hf. apply bwp_ret; [apply verdict_lax|]. apply verdict_no; [done|]. auto.
Qed.

(** The answers to what the checks refuse. *)
Lemma edwards_refused bits alg pub ctx hash sig ph n :
ph = (if bits =? 448 then PSA_ALG_ED448PH else PSA_ALG_ED25519PH) ->
n = (if bits =? 448 then 64 else PSA_HASH_LENGTH PSA_ALG_SHA_512) ->
edwards_valid bits alg pub ctx hash sig ->
negb (alg =? PSA_ALG_PURE_EDDSA) && negb (alg =? PSA_ALG_EDDSA_CTX) && negb (alg =? ph) = false /\
(alg =? PSA_ALG_PURE_EDDSA) && negb (zlen ctx =? 0) = false /\ zlen ctx <= 255 /\
(alg =? ph) && negb (zlen hash =? n) = false.
Proof.
intros -> -> (Ha & Hh & Hc & _). unfold ed_alg_ok, ed_hash_ok, ed_context_ok in *.
apply andb_true_iff in Hc as [Hc1%Z.leb_le Hc2].
apply (f_equal negb) in Ha, Hh, Hc2. rewrite !negb_orb, ?negb_involutive in *. done.
Qed.

Lemma edwards_words type bits alg pub ctx key hash sig :
edwards_valid bits alg pub ctx hash sig ->
edwards_verifier type bits key hash ->
negb (type =? TWISTED_EDWARDS_KEY_PAIR) && negb (type =? TWISTED_EDWARDS_PUBLIC_KEY) = false /\
negb (fits_word32 (zlen key)) || negb (fits_word32 (zlen hash)) || negb (fits_word32 (zlen sig)) = false.
Proof.
intros (_ & _ & _ & Hs%ed_valid_length) (Hty & Hk & Hh & _).
assert (zlen sig <= UINT32_MAX) by (unfold UINT32_MAX; destruct (ed_is_448 _); lia). rewrite !(proj2 (fits_word32_spec _)) by done.
split; [|done]. by destruct Hty as [->| ->].
Qed.

Lemma bwp_edwards_refused bits type alg key ctx hash sig ph n :
ph = (if bits =? 448 then PSA_ALG_ED448PH else PSA_ALG_ED25519PH) ->
n = (if bits =? 448 then 64 else PSA_HASH_LENGTH PSA_ALG_SHA_512) ->
forall e (P : Prop), e <> PSA_SUCCESS ->
(negb (alg =? PSA_ALG_PURE_EDDSA) && negb (alg =? PSA_ALG_EDDSA_CTX) && negb (alg =? ph) = false /\
 (alg =? PSA_ALG_PURE_EDDSA) && negb (zlen ctx =? 0) = false /\ zlen ctx <= 255 /\
 (alg =? ph) && negb (zlen hash =? n) = false ->
 negb (type =? TWISTED_EDWARDS_KEY_PAIR) && negb (type =? TWISTED_EDWARDS_PUBLIC_KEY) = false /\
 negb (fits_word32 (zlen key)) || negb (fits_word32 (zlen hash)) || negb (fits_word32 (zlen sig)) = false ->
 False) ->
bwp (mret e) (edwards_verdict bits alg type key ctx hash sig) P.
Proof.
intros Hph Hn e P He Hf. apply bwp_edwards_no; [done|]. intros Hv Ha.
apply Hf; [by eapply edwards_refused|by eapply edwards_words].
Qed.

Lemma ed25519_verifies type key alg hash sig ctx :
(is_null hash = true -> input_length hash = 0) -> (is_null ctx = true -> input_length ctx = 0) ->
bwp (psa_asymmetric_verify_ed25519 type 255 key alg hash sig ctx)
  (edwards_verdict 255 alg type key (input_bytes ctx) (input_bytes hash) sig) True.
Proof.
intros Hh Hc. unfold psa_asymmetric_verify_ed25519. rewrite (null_empty_length _ Hh), (null_empty_length _ Hc).
pose proof (bwp_edwards_refused 255 type alg key (input_bytes ctx) (input_bytes hash) sig _ _ eq_refl eq_refl) as Hno.
destruct (negb (alg =? PSA_ALG_PURE_EDDSA) && _ && _) eqn:Halg; [by apply Hno; [done|]; intros (? & _) _; congruence|].
destruct ((alg =? PSA_ALG_PURE_EDDSA) && _) eqn:Hpure; [by apply Hno; [done|]; intros (_ & ? & _) _; congruence|].
destruct (Z.ltb_spec 255 (zlen (input_bytes ctx))); [by apply Hno; [done|]; intros (_ & _ & ? & _) _; lia|].
destruct (negb (type =? TWISTED_EDWARDS_KEY_PAIR) && _) eqn:Hty; cbn [orb]; [by apply Hno; [done|]; intros _ [? _]; congruence|].
cbn [Z.eqb negb]. change (255 =? 255)%positive with true. cbn [negb].
destruct (negb (fits_word32 (zlen key)) || _ || _) eqn:Hw; [by apply Hno; [done|]; intros _ [_ ?]; congruence|].
destruct ((alg =? PSA_ALG_ED25519PH) && _) eqn:Hph; [by apply Hno; [done|]; intros (_ & _ & _ & ?) _; congruence|].
apply (bwp_edwards_verify 255); [by apply alg_ok_spec|by apply edwards_checks].
Qed.

Lemma ed448_verifies type key alg hash sig ctx :
(is_null hash = true -> input_length hash = 0) -> (is_null ctx = true -> input_length ctx = 0) ->
bwp (psa_asymmetric_verify_ed448 type 448 key alg hash sig ctx)
  (edwards_verdict 448 alg type key (input_bytes ctx) (input_bytes hash) sig) True.
Proof.
intros Hh Hc. unfold psa_asymmetric_verify_ed448. rewrite (null_empty_length _ Hh), (null_empty_length _ Hc).
pose proof (bwp_edwards_refused 448 type alg key (input_bytes ctx) (input_bytes hash) sig _ _ eq_refl eq_refl) as Hno.
destruct (negb (alg =? PSA_ALG_PURE_EDDSA) && _ && _) eqn:Halg; [by apply Hno; [done|]; intros (? & _) _; congruence|].
destruct (Z.ltb_spec 255 (zlen (input_bytes ctx))); [by apply Hno; [done|]; intros (_ & _ & ? & _) _; lia|].
destruct (negb (type =? TWISTED_EDWARDS_KEY_PAIR) && _) eqn:Hty; cbn [orb]; [by apply Hno; [done|]; intros _ [? _]; congruence|].
cbn [Z.eqb negb]. change (448 =? 448)%positive with true. cbn [negb].
destruct (negb (fits_word32 (zlen key)) || _ || _) eqn:Hw; [by apply Hno; [done|]; intros _ [_ ?]; congruence|].
destruct ((alg =? PSA_ALG_ED448PH) && _) eqn:Hph; [by apply Hno; [done|]; intros (_ & _ & _ & ?) _; congruence|].
destruct ((alg =? PSA_ALG_PURE_EDDSA) && _) eqn:Hpure; [by apply Hno; [done|]; intros (_ & ? & _) _; congruence|].
apply (bwp_edwards_verify 448); [by apply alg_ok_spec|by apply edwards_checks].
Qed.

End Spec.
