(* ===== verification/MlDsa.v ===== *)
(** ML-DSA signatures: [src/psa_mldsa.c] (seed generation and export of the same
    file are parameters of the key store), and what the backend promises. *)

From stdpp Require Import base decidable list.
From Stdlib Require Import ZArith Lia.
From Stdlib Require Import Strings.Byte.
From S2P Require Import Prelude.
From S2P Require Import Values.
From S2P Require Import Engine.
From S2P Require Import WolfCrypt.
From S2P Require Import KeyPolicy.
From S2P Require Import KeyFormat.
From S2P Require Import StoreIface.
From S2P Require Import Library.
From S2P Require Import KeyStore.
From S2P Require Import KeyStoreRules.
From S2P Require Import Operation.
From S2P Require Import KeyStoreInv.
From S2P Require Import KeyReaders.
From S2P Require Import AsymValues.
From S2P Require Import WolfSign.
From S2P Require Import WolfPkc.

#[local] Open Scope Z_scope.

Section MlDsaDefs.
Context {C : Config} {E : WolfCryptErr} {R : WolfCryptRng} {WM : WolfCryptMlDsa}.
Context {O : StoreOps} {Op : Type}.

Notation DM := (M (opstate O Op)).

Definition mldsa_bits_to_level (bits : Z) : Z :=
if bits =? 128 then WC_ML_DSA_44
else if bits =? 192 then WC_ML_DSA_65
else if bits =? 256 then WC_ML_DSA_87
else -1.

Definition mldsa_psa_hash_to_wc (hash_alg : Z) : wc_HashType :=
if hash_alg =? PSA_ALG_SHA_256 then WC_HASH_TYPE_SHA256
else if hash_alg =? PSA_ALG_SHA_384 then WC_HASH_TYPE_SHA384
else if hash_alg =? PSA_ALG_SHA_512 then WC_HASH_TYPE_SHA512
else if hash_alg =? PSA_ALG_SHA3_256 then WC_HASH_TYPE_SHA3_256
else if hash_alg =? PSA_ALG_SHA3_384 then WC_HASH_TYPE_SHA3_384
else if hash_alg =? PSA_ALG_SHA3_512 then WC_HASH_TYPE_SHA3_512
else if hash_alg =? PSA_ALG_SHAKE128_256 then WC_HASH_TYPE_SHAKE128
else if hash_alg =? PSA_ALG_SHAKE256_512 then WC_HASH_TYPE_SHAKE256
else WC_HASH_TYPE_NONE.

Definition mldsa_key_init (bits : Z) : DM psa_status_t :=
let level := mldsa_bits_to_level bits in
if level <? 0 then mret PSA_ERROR_NOT_SUPPORTED
else
  ret ← wc_call; (* wc_MlDsaKey_Init *)
  if negb (ret =? 0) then mret (wc_error_to_psa_status ret)
  else
    ret ← wc_code (wc_MlDsaKey_SetParams level);
    if negb (ret =? 0) then mret (wc_error_to_psa_status ret) else mret PSA_SUCCESS.

Definition mldsa_expand_seed (level : Z) (seed : list byte) : DM psa_status_t :=
ret ← wc_code (wc_MlDsaKey_MakeKeyFromSeed level seed).1;
if negb (ret =? 0) then mret (wc_error_to_psa_status ret) else mret PSA_SUCCESS.

(** * Signing *)

Definition zero32 : list byte := repeat x00 (Z.to_nat WOLFPSA_MLDSA_SEED_SIZE).

(** The end of both signing modes. *)
Definition mldsa_signed (r : Z * list byte) : DM (psa_status_t * list byte) :=
'(ret, sig) ← wc_result r;
if negb (ret =? 0) then mret (wc_error_to_psa_status ret, []) else mret (PSA_SUCCESS, sig).

(** The random generator of a hedged signature. *)
Definition mldsa_hedged (sign : nat -> Z * list byte) : DM (psa_status_t * list byte) :=
'(ret, n) ← wc_rng;
if negb (ret =? 0) then mret (wc_error_to_psa_status ret, []) else mldsa_signed (sign n).

Definition mldsa_sign_message (level : Z) (key ctx : list byte) (alg : Z) (inp : list byte) (size : Z)
: DM (psa_status_t * list byte) :=
if alg =? PSA_ALG_ML_DSA then mldsa_hedged (fun n => wc_MlDsaKey_SignCtx n level key ctx inp size)
else if alg =? PSA_ALG_DETERMINISTIC_ML_DSA
then mldsa_signed (wc_MlDsaKey_SignCtxWithSeed level key ctx inp zero32 size)
else if PSA_ALG_IS_HASH_ML_DSA alg || PSA_ALG_IS_DETERMINISTIC_HASH_ML_DSA alg
then mret (PSA_ERROR_INVALID_ARGUMENT, [])
else mret (PSA_ERROR_NOT_SUPPORTED, []).

Definition mldsa_sign_digest (level : Z) (key ctx : list byte) (alg : Z) (inp : list byte) (size : Z)
: DM (psa_status_t * list byte) :=
let wc_hash := mldsa_psa_hash_to_wc (PSA_ALG_GET_HASH alg) in
if PSA_ALG_IS_HEDGED_HASH_ML_DSA alg then
  if decide (wc_hash = WC_HASH_TYPE_NONE) then mret (PSA_ERROR_NOT_SUPPORTED, [])
  else mldsa_hedged (fun n => wc_MlDsaKey_SignCtxHash n level key ctx inp wc_hash size)
else if PSA_ALG_IS_DETERMINISTIC_HASH_ML_DSA alg then
  if decide (wc_hash = WC_HASH_TYPE_NONE) then mret (PSA_ERROR_NOT_SUPPORTED, [])
  else mldsa_signed (wc_MlDsaKey_SignCtxHashWithSeed level key ctx inp wc_hash zero32 size)
else mret (PSA_ERROR_INVALID_ARGUMENT, []).

Definition wolfpsa_mldsa_sign (bits : Z) (key_data : list byte) (alg : Z) (context inp : input)
  (input_is_hash signature : bool) (signature_size : Z) : DM (psa_status_t * list byte) :=
if negb (zlen key_data =? WOLFPSA_MLDSA_SEED_SIZE) then mret (PSA_ERROR_INVALID_ARGUMENT, [])
else if 255 <? input_length context then mret (PSA_ERROR_INVALID_ARGUMENT, [])
else if negb (fits_word32 (input_length inp)) || negb (fits_word32 signature_size)
then mret (PSA_ERROR_INVALID_ARGUMENT, [])
else
  status ← mldsa_key_init bits;
  match status with
  | PSA_SUCCESS =>
      let level := mldsa_bits_to_level bits in
      status ← mldsa_expand_seed level key_data;
      match status with
      | PSA_SUCCESS =>
          sig_size ← wc_code (wc_MlDsaKey_SigSize level);
          if sig_size <? 0 then mret (wc_error_to_psa_status sig_size, [])
          else if signature_size <? sig_size then mret (PSA_ERROR_BUFFER_TOO_SMALL, [])
          else if input_is_hash
          then mldsa_sign_digest level key_data (input_bytes context) alg (input_bytes inp) signature_size
          else mldsa_sign_message level key_data (input_bytes context) alg (input_bytes inp) signature_size
      | e => mret (e, [])
      end
  | e => mret (e, [])
  end.

(** * Verifying *)

(** The seed or the raw public key. *)
Definition mldsa_load (level key_type : Z) (key_data : list byte) : DM psa_status_t :=
if key_type =? PSA_KEY_TYPE_ML_DSA_KEY_PAIR then
  if negb (zlen key_data =? WOLFPSA_MLDSA_SEED_SIZE) then mret PSA_ERROR_INVALID_ARGUMENT
  else mldsa_expand_seed level key_data
else if key_type =? PSA_KEY_TYPE_ML_DSA_PUBLIC_KEY then
  ret ← wc_code (wc_MlDsaKey_ImportPubRaw level key_data);
  if negb (ret =? 0) then mret (wc_error_to_psa_status ret) else mret PSA_SUCCESS
else mret PSA_ERROR_INVALID_ARGUMENT.

Definition mldsa_public (level key_type : Z) (key_data : list byte) : list byte :=
if key_type =? PSA_KEY_TYPE_ML_DSA_KEY_PAIR then (wc_MlDsaKey_MakeKeyFromSeed level key_data).2
else key_data.

Definition mldsa_checked (r : Z * Z) : DM psa_status_t :=
'(ret, verify_res) ← wc_result r;
mret (if negb (ret =? 0) then wc_error_to_psa_status ret
      else if negb (verify_res =? 1) then PSA_ERROR_INVALID_SIGNATURE
      else PSA_SUCCESS).

Definition mldsa_verify_input (level : Z) (pub : list byte) (alg : Z) (ctx inp : list byte)
  (input_is_hash : bool) (signature : list byte) : DM psa_status_t :=
if negb input_is_hash then
  if (alg =? PSA_ALG_ML_DSA) || (alg =? PSA_ALG_DETERMINISTIC_ML_DSA)
  then mldsa_checked (wc_MlDsaKey_VerifyCtx level pub signature ctx inp)
  else if PSA_ALG_IS_HASH_ML_DSA alg || PSA_ALG_IS_DETERMINISTIC_HASH_ML_DSA alg
  then mret PSA_ERROR_INVALID_ARGUMENT
  else mret PSA_ERROR_NOT_SUPPORTED
else if PSA_ALG_IS_HASH_ML_DSA alg || PSA_ALG_IS_DETERMINISTIC_HASH_ML_DSA alg then
  let wc_hash := mldsa_psa_hash_to_wc (PSA_ALG_GET_HASH alg) in
  if decide (wc_hash = WC_HASH_TYPE_NONE) then mret PSA_ERROR_NOT_SUPPORTED
  else mldsa_checked (wc_MlDsaKey_VerifyCtxHash level pub signature ctx inp wc_hash)
else mret PSA_ERROR_INVALID_ARGUMENT.

Definition wolfpsa_mldsa_verify (bits key_type : Z) (key_data : list byte) (alg : Z)
  (context inp : input) (input_is_hash : bool) (signature : list byte) : DM psa_status_t :=
if 255 <? input_length context then mret PSA_ERROR_INVALID_ARGUMENT
else if negb (fits_word32 (zlen key_data)) || negb (fits_word32 (input_length inp))
        || negb (fits_word32 (zlen signature))
then mret PSA_ERROR_INVALID_ARGUMENT
else
  status ← mldsa_key_init bits;
  match status with
  | PSA_SUCCESS =>
      let level := mldsa_bits_to_level bits in
      status ← mldsa_load level key_type key_data;
      match status with
      | PSA_SUCCESS =>
          mldsa_verify_input level (mldsa_public level key_type key_data) alg (input_bytes context)
            (input_bytes inp) input_is_hash signature
      | e => mret e
      end
  | e => mret e
  end.
End MlDsaDefs.

(** * What the backend promises *)

Section Spec.
Context {C : Config} {E : WolfCryptErr} {EO : WolfCryptErrOk E} {K : WolfCryptKeys} {R : WolfCryptRng}.
Context {WM : WolfCryptMlDsa} {WMO : WolfCryptMlDsaOk WM}.
Context {O : StoreOps} {L : StoreLaws O} {B : KeyBackend} {Op : Type}.

Notation DM := (M (opstate O Op)).
Notation bwp := (WolfSign.bwp (O := O) (Op := Op)).

(** The hash of an algorithm: of pure ML-DSA none. *)
Definition mldsa_mode (alg : Z) : option (option wc_HashType) :=
if (alg =? PSA_ALG_ML_DSA) || (alg =? PSA_ALG_DETERMINISTIC_ML_DSA) then Some None
else if PSA_ALG_IS_HASH_ML_DSA alg then
  let h := mldsa_psa_hash_to_wc (PSA_ALG_GET_HASH alg) in
  if decide (h = WC_HASH_TYPE_NONE) then None else Some (Some h)
else None.

(** Valid by FIPS 204 for the level of the key and the variant of the algorithm. *)
Definition mldsa_sig_valid (bits alg : Z) (pub ctx inp sig : list byte) : Prop :=
exists h, mldsa_mode alg = Some h /\ zlen ctx <= 255 /\
  mldsa_valid (mldsa_bits_to_level bits) pub h ctx inp sig.

(** [PSA_ALG_IS_ML_DSA] is true of the two pure algorithms only. *)
Lemma is_ml_dsa_pure alg :
PSA_ALG_IS_ML_DSA alg = (alg =? PSA_ALG_ML_DSA) || (alg =? PSA_ALG_DETERMINISTIC_ML_DSA).
Proof.
unfold PSA_ALG_IS_ML_DSA. apply Bool.eq_iff_eq_true. rewrite orb_true_iff, !Z.eqb_eq. split.
- intros H. assert (Hx : alg = Z.lor (Z.land alg (Z.lnot 256)) (Z.land alg 256)).
  { apply Z.bits_inj'. intros n Hn. rewrite Z.lor_spec, !Z.land_spec, Z.lnot_spec by done.
    by destruct (Z.testbit alg n), (Z.testbit 256 n). }
  rewrite H in Hx. change 256 with (2 ^ 8) in Hx. rewrite <- (Z.shiftl_1_l 8) in Hx.
  destruct (Z.testbit alg 8) eqn:Hb.
  + right. rewrite Hx. replace (Z.land alg (Z.shiftl 1 8)) with 256; [done|].
    apply Z.bits_inj'. intros n Hn. rewrite Z.land_spec. change (Z.shiftl 1 8) with (2 ^ 8). change 256 with (2 ^ 8).
    rewrite Z.pow2_bits_eqb by lia. destruct (Z.eqb_spec 8 n) as [<-|]; [by rewrite Hb|by rewrite andb_false_r].
  + left. rewrite Hx. replace (Z.land alg (Z.shiftl 1 8)) with 0; [done|].
    apply Z.bits_inj'. intros n Hn. rewrite Z.land_spec, Z.bits_0. change (Z.shiftl 1 8) with (2 ^ 8).
    rewrite Z.pow2_bits_eqb by lia. destruct (Z.eqb_spec 8 n) as [<-|]; [by rewrite Hb|by rewrite andb_false_r].
- by intros [->| ->].
Qed.

Lemma mldsa_hash_mode alg (hashed : bool) :
hashed = negb (PSA_ALG_IS_ML_DSA alg) -> hashed = true ->
PSA_ALG_IS_HASH_ML_DSA alg = true ->
mldsa_mode alg = let h := mldsa_psa_hash_to_wc (PSA_ALG_GET_HASH alg) in
                 if decide (h = WC_HASH_TYPE_NONE) then None else Some (Some h).
Proof.
intros Hh -> Hf. rewrite is_ml_dsa_pure in Hh. unfold mldsa_mode. by apply (f_equal negb) in Hh as Hh'; rewrite negb_involutive in Hh'; rewrite <- Hh', Hf.
Qed.

(** The key is ready, or the status is an error. *)
Definition init_post (A P : Prop) (st : psa_status_t) : Prop := (P -> A -> st = PSA_SUCCESS).
Lemma init_lax A : lax (init_post A).
Proof. intros P P' st Hp H. unfold init_post in *. auto. Qed.

Definition mldsa_level_ok (bits : Z) : Prop :=
0 <= mldsa_bits_to_level bits /\ wc_MlDsaKey_SetParams (mldsa_bits_to_level bits) = 0.

Lemma bwp_mldsa_init bits : bwp (mldsa_key_init bits) (init_post (mldsa_level_ok bits)) True.
Proof.
pose proof (init_lax (mldsa_level_ok bits)) as Hl. unfold mldsa_key_init. cbv zeta.
destruct (Z.ltb_spec (mldsa_bits_to_level bits) 0); [apply bwp_ret; [done|]; intros _ [? _]; lia|].
apply (bwp_check_call id); [done|by intros e _ []|].
apply (bwp_check_code id); [done|by intros e _ []|by intros Hz e _ _ [_ ?]|]. intros _. by apply bwp_ret.
Qed.

(** A seed expands, and a success means that it did. *)
Lemma bwp_mldsa_expand level seed :
bwp (mldsa_expand_seed level seed)
  (fun P st => (st = PSA_SUCCESS -> (wc_MlDsaKey_MakeKeyFromSeed level seed).1 = 0) /\
     init_post ((wc_MlDsaKey_MakeKeyFromSeed level seed).1 = 0) P st) True.
Proof.
assert (Hl : lax (fun P st => (st = PSA_SUCCESS -> (wc_MlDsaKey_MakeKeyFromSeed level seed).1 = 0) /\
  init_post ((wc_MlDsaKey_MakeKeyFromSeed level seed).1 = 0) P st)).
{ intros P P' st Hp [H1 H2]. split; [done|]. by eapply init_lax. }
unfold mldsa_expand_seed. apply (bwp_check_code id); [done|by intros e He; split; [|intros []]| |].
- intros Hz e He. split; [done|]. by intros _ ?.
- intros Hz. apply bwp_ret; [done|]. by split.
Qed.

Section Signing.
Variables (bits : Z) (key pub ctx inp : list byte) (alg size : Z).
Hypothesis seed_ok : wc_MlDsaKey_MakeKeyFromSeed (mldsa_bits_to_level bits) key = (0, pub).
Hypothesis ctx_ok : zlen ctx <= 255.

Definition mldsa_good (sig : list byte) : Prop :=
mldsa_sig_valid bits alg pub ctx inp sig /\ 0 < zlen sig <= size.

Lemma bwp_mldsa_signed r P :
(forall sig, r = (0, sig) -> mldsa_good sig) -> bwp (mldsa_signed r) (bytes_post mldsa_good) P.
Proof.
intros Hg. assert (Hl : lax (bytes_post mldsa_good)) by apply bytes_lax.
assert (Hbad : forall ret (m : DM _) (Q : Prop), ret <> 0 ->
  bwp (if negb (ret =? 0) then mret (wc_error_to_psa_status ret, []) else m) (bytes_post mldsa_good) Q).
{ intros ret m Q Hne. rewrite (proj2 (Z.eqb_neq ret 0)) by done. apply bwp_ret; [done|].
  apply bytes_no. by rewrite wc_error_success. }
unfold mldsa_signed. apply bwp_result; [done| |by intros; apply Hbad; lia].
destruct r as [ret sig]. destruct (decide (ret = 0)) as [->|]; [|by apply Hbad]. cbn [Z.eqb negb].
apply bwp_ret; [done|]. split; [|done]. intros _. by apply Hg.
Qed.

Lemma bwp_mldsa_hedged sign P :
(forall n sig, sign n = (0, sig) -> mldsa_good sig) -> bwp (mldsa_hedged sign) (bytes_post mldsa_good) P.
Proof.
intros Hg. unfold mldsa_hedged. apply (bwp_check_rng (fun e => (e, []))); [apply bytes_lax| |].
- intros. by apply bytes_no.
- intros n. apply bwp_mldsa_signed. apply Hg.
Qed.

Lemma bwp_mldsa_sign_message P :
bwp (mldsa_sign_message (mldsa_bits_to_level bits) key ctx alg inp size) (bytes_post mldsa_good) P.
Proof.
assert (Hg : forall sig, (alg =? PSA_ALG_ML_DSA) || (alg =? PSA_ALG_DETERMINISTIC_ML_DSA) = true ->
  mldsa_valid (mldsa_bits_to_level bits) pub None ctx inp sig /\ 0 < zlen sig <= size -> mldsa_good sig).
{ intros sig Ha [Hv Hs]. split; [|done]. exists None. unfold mldsa_mode. by rewrite Ha. }
assert (Hno : forall e (Q : Prop), e <> PSA_SUCCESS -> bwp (mret (e, [])) (bytes_post mldsa_good) Q)
  by (intros; by apply bwp_ret, bytes_no; [apply bytes_lax|]).
unfold mldsa_sign_message. destruct (alg =? PSA_ALG_ML_DSA) eqn:H1.
{ apply bwp_mldsa_hedged. intros n sig Hs. apply Hg; [done|]. by eapply mldsa_sign_ctx. }
destruct (alg =? PSA_ALG_DETERMINISTIC_ML_DSA) eqn:H2.
{ apply bwp_mldsa_signed. intros sig Hs. apply Hg; [done|]. by eapply mldsa_sign_seed. }
destruct (PSA_ALG_IS_HASH_ML_DSA alg || _); by apply Hno.
Qed.

Lemma bwp_mldsa_sign_digest P :
PSA_ALG_IS_ML_DSA alg = false ->
bwp (mldsa_sign_digest (mldsa_bits_to_level bits) key ctx alg inp size) (bytes_post mldsa_good) P.
Proof.
intros Hm. set (h := mldsa_psa_hash_to_wc (PSA_ALG_GET_HASH alg)).
assert (Hg : forall sig, PSA_ALG_IS_HASH_ML_DSA alg = true -> h <> WC_HASH_TYPE_NONE ->
  mldsa_valid (mldsa_bits_to_level bits) pub (Some h) ctx inp sig /\ 0 < zlen sig <= size -> mldsa_good sig).
{ intros sig Ha Hh [Hv Hs]. split; [|done]. exists (Some h). split; [|done].
  rewrite (mldsa_hash_mode alg true) by (by rewrite ?Hm). cbv zeta. fold h. by rewrite decide_False. }
assert (Hno : forall e (Q : Prop), e <> PSA_SUCCESS -> bwp (mret (e, [])) (bytes_post mldsa_good) Q)
  by (intros; by apply bwp_ret, bytes_no; [apply bytes_lax|]).
pose proof (hash_ml_dsa_families alg) as Hfam.
unfold mldsa_sign_digest. cbv zeta. fold h. destruct (PSA_ALG_IS_HEDGED_HASH_ML_DSA alg).
{ destruct (decide _) as [|Hz]; [by apply Hno|].
  apply bwp_mldsa_hedged. intros n sig Hs. apply Hg; [done..|]. by eapply mldsa_sign_hash. }
destruct (PSA_ALG_IS_DETERMINISTIC_HASH_ML_DSA alg); [|by apply Hno].
destruct (decide _) as [|Hz]; [by apply Hno|].
apply bwp_mldsa_signed. intros sig Hs. apply Hg; [done..|]. by eapply mldsa_sign_hash_seed.
Qed.
End Signing.

(** A signing call gives valid signatures only. *)
Lemma mldsa_signs bits key alg ctx inp hashed buf size P :
(is_null ctx = true -> input_length ctx = 0) -> hashed = negb (PSA_ALG_IS_ML_DSA alg) ->
bwp (wolfpsa_mldsa_sign bits key alg ctx inp hashed buf size)
  (bytes_post (mldsa_good bits (wc_MlDsaKey_MakeKeyFromSeed (mldsa_bits_to_level bits) key).2
     (input_bytes ctx) (input_bytes inp) alg size)) P.
Proof.
intros Hc Hh. set (Post := bytes_post _). assert (Hl : lax Post) by apply bytes_lax.
assert (Hno : forall e (Q : Prop), e <> PSA_SUCCESS -> bwp (mret (e, [])) Post Q)
  by (intros; by apply bwp_ret, bytes_no).
unfold wolfpsa_mldsa_sign. rewrite (null_empty_length _ Hc).
destruct (negb (_ =? _)); [by apply Hno|].
destruct (Z.ltb_spec 255 (zlen (input_bytes ctx))); [by apply Hno|].
destruct (negb (fits_word32 (input_length inp)) || _); [by apply Hno|].
eapply bwp_bind; [done|eapply bwp_weaken; [apply init_lax|apply bwp_mldsa_init|done]|]. intros Q st _ _.
destruct st; try by apply Hno. cbv zeta.
eapply bwp_bind; [done|eapply bwp_weaken; [|apply bwp_mldsa_expand|done]|].
{ intros P1 P2 r Hp [H1 H2]. split; [done|]. by eapply init_lax. }
intros Q' st _ [Hmk _]. destruct st; try by apply Hno. specialize (Hmk eq_refl).
unfold Post. destruct (wc_MlDsaKey_MakeKeyFromSeed _ key) as [ret pub] eqn:Hseed. cbn [fst snd] in *. subst ret.
fold Post. cbn [snd] in *.
assert (Hsize : forall z (Q2 : Prop), bwp (
  if z <? 0 then mret (wc_error_to_psa_status z, [])
  else if size <? z then mret (PSA_ERROR_BUFFER_TOO_SMALL, [])
  else if hashed then mldsa_sign_digest (mldsa_bits_to_level bits) key (input_bytes ctx) alg (input_bytes inp) size
  else mldsa_sign_message (mldsa_bits_to_level bits) key (input_bytes ctx) alg (input_bytes inp) size) Post Q2).
{ intros z Q2. destruct (Z.ltb_spec z 0); [apply Hno; rewrite wc_error_success; lia|].
  destruct (size <? z); [by apply Hno|]. unfold Post. rewrite Hh. destruct (PSA_ALG_IS_ML_DSA alg) eqn:Hm; cbn [negb].
  - by apply bwp_mldsa_sign_message.
  - by apply bwp_mldsa_sign_digest. }
apply bwp_code; [done|apply Hsize|intros; apply Hsize].
Qed.

(** ** Verifying *)

Definition mldsa_loads (level type : Z) (key : list byte) : Prop :=
type = PSA_KEY_TYPE_ML_DSA_KEY_PAIR /\ zlen key = WOLFPSA_MLDSA_SEED_SIZE /\
(wc_MlDsaKey_MakeKeyFromSeed level key).1 = 0 \/
type = PSA_KEY_TYPE_ML_DSA_PUBLIC_KEY /\ wc_MlDsaKey_ImportPubRaw level key = 0.

Definition mldsa_verifier (type bits : Z) (key inp : list byte) : Prop :=
mldsa_level_ok bits /\ mldsa_loads (mldsa_bits_to_level bits) type key /\
zlen key <= UINT32_MAX /\ zlen inp <= UINT32_MAX.

Lemma bwp_mldsa_load level type key : bwp (mldsa_load level type key) (init_post (mldsa_loads level type key)) True.
Proof.
pose proof (init_lax (mldsa_loads level type key)) as Hl. unfold mldsa_load.
destruct (Z.eqb_spec type PSA_KEY_TYPE_ML_DSA_KEY_PAIR) as [->|Hp].
{ destruct (Z.eqb_spec (zlen key) WOLFPSA_MLDSA_SEED_SIZE) as [Hz|Hz]; cbn [negb].
  2: { apply bwp_ret; [done|]. by intros _ [(_ & ? & _)|[? _]]. }
  eapply bwp_mono; [apply bwp_mldsa_expand|]. intros Q st [_ H] HQ [(_ & _ & Hm)|[? _]]; [auto|done]. }
destruct (Z.eqb_spec type PSA_KEY_TYPE_ML_DSA_PUBLIC_KEY) as [->|Hq].
2: { apply bwp_ret; [done|]. by intros _ [(? & _)|[? _]]. }
apply (bwp_check_code id); [done|by intros e _ []| |].
- by intros Hz e _ _ [(? & _)|[_ ?]].
- intros _. by apply bwp_ret.
Qed.

Lemma bwp_mldsa_checked r (V A P : Prop) :
(r = (0, 1) <-> V) -> bwp (mldsa_checked r) (verdict_post V A) P.
Proof. apply bwp_check_verdict. Qed.

Lemma bwp_mldsa_verify_input bits pub alg ctx inp hashed sig (A P : Prop) :
zlen ctx <= 255 -> hashed = negb (PSA_ALG_IS_ML_DSA alg) ->
bwp (mldsa_verify_input (mldsa_bits_to_level bits) pub alg ctx inp hashed sig)
  (verdict_post (mldsa_sig_valid bits alg pub ctx inp sig) A) P.
Proof.
intros Hctx Hh. set (V := mldsa_sig_valid _ _ _ _ _ _). assert (Hl : lax (verdict_post V A)) by apply verdict_lax.
assert (Hno : forall e, e <> PSA_SUCCESS -> mldsa_mode alg = None -> bwp (mret e) (verdict_post V A) P).
{ intros e He Hm. apply bwp_ret; [done|]. apply verdict_no; [done|]. intros _ _ (h & Hs & _). congruence. }
assert (HV : forall h, mldsa_mode alg = Some h -> V <-> mldsa_valid (mldsa_bits_to_level bits) pub h ctx inp sig).
{ intros h Hm. split; [|by exists h]. intros (h' & Hs & _ & Hv). rewrite Hm in Hs. by injection Hs as <-. }
rewrite is_ml_dsa_pure in Hh. unfold mldsa_mode in Hno, HV. unfold mldsa_verify_input.
destruct ((alg =? PSA_ALG_ML_DSA) || _) eqn:Hpure; subst hashed; cbn [negb] in *.
{ apply bwp_mldsa_checked. rewrite (HV None) by done. split; [apply mldsa_verify_ctx|apply mldsa_verify_ctx_complete]. }
pose proof (hash_ml_dsa_families alg) as Hfam. rewrite Hfam in Hno, HV |- *.
assert (Hor : PSA_ALG_IS_HEDGED_HASH_ML_DSA alg || PSA_ALG_IS_DETERMINISTIC_HASH_ML_DSA alg
  || PSA_ALG_IS_DETERMINISTIC_HASH_ML_DSA alg
  = PSA_ALG_IS_HEDGED_HASH_ML_DSA alg || PSA_ALG_IS_DETERMINISTIC_HASH_ML_DSA alg).
{ by rewrite <- orb_assoc, orb_diag. }
rewrite Hor. destruct (PSA_ALG_IS_HEDGED_HASH_ML_DSA alg || _); [|by apply Hno]. cbv zeta.
destruct (decide (mldsa_psa_hash_to_wc (PSA_ALG_GET_HASH alg) = WC_HASH_TYPE_NONE)) as [Hz|Hz].
{ by apply Hno. }
apply bwp_mldsa_checked. rewrite (HV (Some (mldsa_psa_hash_to_wc (PSA_ALG_GET_HASH alg)))) by done.
split; [apply mldsa_verify_hash|apply mldsa_verify_hash_complete].
Qed.

Lemma mldsa_verifies bits type key alg ctx inp hashed sig :
(is_null ctx = true -> input_length ctx = 0) -> (is_null inp = true -> input_length inp = 0) ->
hashed = negb (PSA_ALG_IS_ML_DSA alg) ->
bwp (wolfpsa_mldsa_verify bits type key alg ctx inp hashed sig)
  (verdict_post
     (mldsa_sig_valid bits alg (mldsa_public (mldsa_bits_to_level bits) type key) (input_bytes ctx)
        (input_bytes inp) sig)
     (mldsa_verifier type bits key (input_bytes inp))) True.
Proof.
intros Hc Hi Hh. set (V := mldsa_sig_valid _ _ _ _ _ _). set (A := mldsa_verifier _ _ _ _).
assert (Hl : lax (verdict_post V A)) by apply verdict_lax.
assert (Hno : forall e (P : Prop), e <> PSA_SUCCESS -> (P -> A -> V -> False) -> bwp (mret e) (verdict_post V A) P).
{ intros e P He Hf. apply bwp_ret; [done|]. by apply verdict_no. }
unfold wolfpsa_mldsa_verify. rewrite (null_empty_length _ Hc), (null_empty_length _ Hi).
destruct (Z.ltb_spec 255 (zlen (input_bytes ctx))) as [Hbig|Hctx].
{ apply Hno; [done|]. intros _ _ (h & _ & ? & _). lia. }
destruct (negb (fits_word32 (zlen key)) || _ || _) eqn:Hw.
{ apply Hno; [done|]. intros _ (_ & _ & Hk & Hin) (h & _ & _ & Hs%mldsa_valid_length).
  assert (zlen sig <= UINT32_MAX) by (unfold UINT32_MAX; lia).
  by rewrite !(proj2 (fits_word32_spec _)) in Hw. }
eapply bwp_bind; [done|apply bwp_mldsa_init|]. intros Q st _ Hinit.
destruct (decide (st = PSA_SUCCESS)) as [->|He].
2: { destruct st; try done; (apply Hno; [done|]); intros Hq (Hlev & _) _; by specialize (Hinit Hq Hlev). }
cbv zeta. eapply bwp_bind; [done|eapply bwp_weaken; [apply init_lax|apply bwp_mldsa_load|done]|].
intros Q' st HQ Hload. destruct (decide (st = PSA_SUCCESS)) as [->|He].
2: { destruct st; try done; (apply Hno; [done|]); intros Hq (_ & Hld & _) _; by specialize (Hload Hq Hld). }
by apply bwp_mldsa_verify_input.
Qed.
End Spec.
