(* ===== verification/LmsXmss.v ===== *)
(** LMS/HSS and XMSS/XMSS^MT verification: [src/psa_lms_xmss.c], and what the
    backend promises. *)

From stdpp Require Import base decidable list.
From Stdlib Require Import ZArith Lia.
From Stdlib Require Import Strings.Byte.
From S2P Require Import Prelude.
From S2P Require Import Values.
From S2P Require Import Engine.
From S2P Require Import WolfCrypt.
From S2P Require Import KeyFormat.
From S2P Require Import StoreIface.
From S2P Require Import Library.
From S2P Require Import KeyStore.
From S2P Require Import KeyStoreRules.
From S2P Require Import Operation.
From S2P Require Import KeyStoreInv.
From S2P Require Import KeyReaders.
From S2P Require Import AsymValues.
From S2P Require Import WolfSign.
From S2P Require Import WolfPkc.

#[local] Open Scope Z_scope.

Section StatefulDefs.
Context {C : Config} {E : WolfCryptErr} {R : WolfCryptRng} {WS : WolfCryptStateful}.
Context {O : StoreOps} {Op : Type}.

Notation SM := (M (opstate O Op)).

(** The return code of a verification. *)
Definition stateful_status (ret : Z) : psa_status_t :=
if (ret =? SIG_VERIFY_E) || (ret =? -1) then PSA_ERROR_INVALID_SIGNATURE
else if negb (ret =? 0) then wc_error_to_psa_status ret
else PSA_SUCCESS.

Definition wolfpsa_lms_verify (pub : list byte) (msg : input) (sig : list byte) : SM psa_status_t :=
if negb (fits_word32 (zlen pub)) || negb (fits_word32 (input_length msg)) || negb (fits_word32 (zlen sig))
then mret PSA_ERROR_INVALID_ARGUMENT
else
  ret ← wc_call; (* wc_LmsKey_Init *)
  if negb (ret =? 0) then mret (wc_error_to_psa_status ret)
  else
    ret ← wc_code (wc_LmsKey_ImportPubRaw pub);
    if negb (ret =? 0) then mret (wc_error_to_psa_status ret)
    else
      ret ← wc_code (wc_LmsKey_Verify pub sig (input_bytes msg) (to_int (input_length msg)));
      mret (stateful_status ret).

(** The loop over [is_xmssmt]: the family that knows the key, or an early return. *)
Fixpoint xmss_import (families : list bool) (pub : list byte) : SM (psa_status_t + bool) :=
match families with
| [] => mret (inl PSA_ERROR_INVALID_ARGUMENT)
| is_xmssmt :: rest =>
    ret ← wc_call; (* wc_XmssKey_Init *)
    if negb (ret =? 0) then mret (inl (wc_error_to_psa_status ret))
    else
      ret ← wc_code (wc_XmssKey_ImportPubRaw_ex pub is_xmssmt);
      if (ret =? NOT_COMPILED_IN) || (ret =? BUFFER_E) then xmss_import rest pub
      else if negb (ret =? 0) then mret (inl (wc_error_to_psa_status ret))
      else mret (inr is_xmssmt)
end.

Definition wolfpsa_xmss_verify (pub : list byte) (msg : input) (sig : list byte) : SM psa_status_t :=
if negb (fits_word32 (zlen pub)) || negb (fits_word32 (input_length msg)) || negb (fits_word32 (zlen sig))
then mret PSA_ERROR_INVALID_ARGUMENT
else
  r ← xmss_import [false; true] pub;
  match r with
  | inl e => mret e
  | inr is_xmssmt =>
      ret ← wc_code (wc_XmssKey_Verify pub is_xmssmt sig (input_bytes msg) (to_int (input_length msg)));
      mret (stateful_status ret)
  end.
End StatefulDefs.

(** * What the backend promises *)

Section Spec.
Context {C : Config} {E : WolfCryptErr} {EO : WolfCryptErrOk E} {K : WolfCryptKeys} {R : WolfCryptRng}.
Context {WS : WolfCryptStateful} {WSO : WolfCryptStatefulOk WS}.
Context {O : StoreOps} {L : StoreLaws O} {B : KeyBackend} {Op : Type}.

Notation SM := (M (opstate O Op)).
Notation bwp := (WolfSign.bwp (O := O) (Op := Op)).

Lemma stateful_status_success ret : stateful_status ret = PSA_SUCCESS <-> ret = 0.
Proof.
destruct wc_negative as (_ & _ & Hv & _). unfold stateful_status. split.
- destruct (_ || _); [done|]. destruct (Z.eqb_spec ret 0); [done|]. cbn [negb]. by rewrite wc_error_success.
- intros ->. by rewrite (proj2 (Z.eqb_neq 0 SIG_VERIFY_E)) by lia.
Qed.

(** The end of both verifications. *)
Lemma bwp_stateful r (V A P : Prop) :
(r = 0 -> V) -> (P -> A -> V -> r = 0) -> bwp (ret ← wc_code r; mret (stateful_status ret)) (verdict_post V A) P.
Proof.
intros Hs Hc. assert (Hl : lax (verdict_post V A)) by apply verdict_lax.
apply bwp_code; [done| |].
- apply bwp_ret; [done|]. split; [by intros ?%stateful_status_success; auto|].
  intros HP Ha Hv. apply stateful_status_success. auto.
- intros ret Hneg. apply bwp_ret; [done|]. apply verdict_no; [|by intros []].
  rewrite stateful_status_success. lia.
Qed.

Definition words_ok (pub msg : list byte) : Prop := zlen pub <= UINT32_MAX /\ zlen msg <= INT_MAX.

Lemma words_fit (pub msg sig : list byte) :
words_ok pub msg -> zlen sig <= UINT32_MAX ->
negb (fits_word32 (zlen pub)) || negb (fits_word32 (zlen msg)) || negb (fits_word32 (zlen sig)) = false.
Proof.
intros [Hp Hm] Hs. assert (zlen msg <= UINT32_MAX) by (unfold INT_MAX, UINT32_MAX in *; lia).
by rewrite (proj2 (fits_word32_spec (zlen pub))), (proj2 (fits_word32_spec (zlen msg))),
  (proj2 (fits_word32_spec (zlen sig))).
Qed.

Definition lms_verifier (pub msg : list byte) : Prop :=
words_ok pub msg /\ wc_LmsKey_ImportPubRaw pub = 0.

Lemma lms_verify_spec pub msg sig :
(is_null msg = true -> input_length msg = 0) ->
bwp (wolfpsa_lms_verify pub msg sig)
  (verdict_post (lms_valid pub (input_bytes msg) sig) (lms_verifier pub (input_bytes msg))) True.
Proof.
intros Hm. set (V := lms_valid _ _ _). set (A := lms_verifier _ _).
assert (Hl : lax (verdict_post V A)) by apply verdict_lax.
unfold wolfpsa_lms_verify. rewrite (null_empty_length _ Hm).
destruct (negb (fits_word32 (zlen pub)) || _ || _) eqn:Hw.
{ apply bwp_ret; [done|]. apply verdict_no; [done|]. intros _ [Hwo _] Hs%lms_valid_length.
  pose proof (words_fit _ _ _ Hwo Hs). congruence. }
rewrite !orb_false_iff, !negb_false_iff, !fits_word32_spec in Hw. destruct Hw as [[_ Hmsg] _].
apply (bwp_check_call id); [done|by intros; apply verdict_no; [|intros []]|].
apply (bwp_check_code id); [done|by intros; apply verdict_no; [|intros []]| |].
{ intros Hz e He. apply verdict_no; [done|]. by intros _ [_ ?]. }
intros _. apply bwp_stateful; [by apply lms_verifies|]. intros _ [[_ Hi] _]. by apply lms_verify_complete.
Qed.

(** Of one family only the key is one of. *)
Definition xmss_verifier (pub msg : list byte) : Prop :=
words_ok pub msg /\
(wc_XmssKey_ImportPubRaw_ex pub false = 0 /\ wc_XmssKey_ImportPubRaw_ex pub true <> 0 \/
 (wc_XmssKey_ImportPubRaw_ex pub false = NOT_COMPILED_IN \/ wc_XmssKey_ImportPubRaw_ex pub false = BUFFER_E) /\
 wc_XmssKey_ImportPubRaw_ex pub true = 0).

(** The family found. *)
Definition family_post (pub : list byte) (A P : Prop) (r : psa_status_t + bool) : Prop :=
match r with
| inl e => e <> PSA_SUCCESS /\ (P -> A -> False)
| inr mt => P -> A -> wc_XmssKey_ImportPubRaw_ex pub mt = 0
end.

Lemma bwp_xmss_import_last pub (P : Prop) :
bwp (xmss_import [true] pub) (family_post pub (wc_XmssKey_ImportPubRaw_ex pub true = 0)) P.
Proof.
set (A := _ = 0). assert (Hl : lax (family_post pub A)).
{ intros Q Q' [e|mt] Hq; [intros [H1 H2]; split; auto|]. simpl. auto. }
destruct wc_negative as (Hn1 & _ & _ & Hn2). cbn [xmss_import].
apply (bwp_check_call inl); [done|by intros e He; split; [|intros []]|].
assert (Hk : forall ret (Q : Prop), (Q -> A -> ret = 0) -> bwp (
  if (ret =? NOT_COMPILED_IN) || (ret =? BUFFER_E) then mret (inl PSA_ERROR_INVALID_ARGUMENT)
  else if negb (ret =? 0) then mret (inl (wc_error_to_psa_status ret)) else mret (inr true)) (family_post pub A) Q).
{ intros ret Q Hz. destruct (_ || _) eqn:Hskip.
  { apply bwp_ret; [done|]. split; [done|]. intros Hq Ha. rewrite (Hz Hq Ha) in Hskip.
    rewrite orb_true_iff, !Z.eqb_eq in Hskip. destruct wc_negative as (_ & ? & _ & ?). lia. }
  destruct (Z.eqb_spec ret 0) as [->|Hne]; cbn [negb]; (apply bwp_ret; [done|]); [by intros _ Ha|].
  split; [by rewrite wc_error_success|]. intros Hq Ha. by specialize (Hz Hq Ha). }
apply bwp_code; [done|by apply Hk|]. intros ret Hneg. apply Hk. by intros [].
Qed.

Lemma bwp_xmss_import pub msg :
bwp (xmss_import [false; true] pub) (family_post pub (xmss_verifier pub msg)) True.
Proof.
set (A := xmss_verifier pub msg). assert (Hl : lax (family_post pub A)).
{ intros Q Q' [e|mt] Hq; [intros [H1 H2]; split; auto|]. simpl. auto. }
destruct wc_negative as (Hn1 & Hn3 & _ & Hn2). cbn [xmss_import].
apply (bwp_check_call inl); [done|by intros e He; split; [|intros []]|].
set (z := wc_XmssKey_ImportPubRaw_ex pub false).
assert (Hk : forall ret (Q : Prop), (Q -> ret = z) -> bwp (
  if (ret =? NOT_COMPILED_IN) || (ret =? BUFFER_E) then xmss_import [true] pub
  else if negb (ret =? 0) then mret (inl (wc_error_to_psa_status ret)) else mret (inr false)) (family_post pub A) Q).
{ intros ret Q Hz. destruct (_ || _) eqn:Hskip.
  - rewrite orb_true_iff, !Z.eqb_eq in Hskip. eapply bwp_conseq; [apply (bwp_xmss_import_last pub Q)|].
    assert (Hsel : Q -> A -> wc_XmssKey_ImportPubRaw_ex pub true = 0).
    { intros Hq%Hz (_ & [[H0 _]|[_ ?]]); [|done]. fold z in H0. lia. }
    intros Q' [e|mt] HQ; simpl; [|by auto]. intros [He Hf]. split; [done|]. auto.
  - destruct (Z.eqb_spec ret 0) as [->|Hne]; cbn [negb]; (apply bwp_ret; [done|]).
    + intros Hq _. symmetry. by apply Hz.
    + split; [by rewrite wc_error_success|]. intros Hq (_ & [[H0 _]|[H0 _]]); fold z in H0; rewrite <- (Hz Hq) in H0; [done|].
      rewrite orb_false_iff, !Z.eqb_neq in Hskip. by destruct Hskip, H0. }
apply bwp_code; [done|by apply Hk|]. intros ret Hneg. apply Hk. by intros [].
Qed.

(** Valid for the key: of one of the families. *)
Definition xmss_any_valid (pub msg sig : list byte) : Prop := exists mt, xmss_valid mt pub msg sig.

Lemma xmss_verify_spec pub msg sig :
(is_null msg = true -> input_length msg = 0) ->
bwp (wolfpsa_xmss_verify pub msg sig)
  (verdict_post (xmss_any_valid pub (input_bytes msg) sig) (xmss_verifier pub (input_bytes msg))) True.
Proof.
intros Hm. set (V := xmss_any_valid _ _ _). set (A := xmss_verifier _ _).
assert (Hl : lax (verdict_post V A)) by apply verdict_lax.
unfold wolfpsa_xmss_verify. rewrite (null_empty_length _ Hm).
destruct (negb (fits_word32 (zlen pub)) || _ || _) eqn:Hw.
{ apply bwp_ret; [done|]. apply verdict_no; [done|]. intros _ [Hwo _] [mt Hs%xmss_valid_length].
  pose proof (words_fit _ _ _ Hwo Hs). congruence. }
rewrite !orb_false_iff, !negb_false_iff, !fits_word32_spec in Hw. destruct Hw as [[_ Hmsg] _].
eapply bwp_bind; [done|apply (bwp_xmss_import pub (input_bytes msg))|]. intros Q [e|mt] _ Hr; simpl in Hr.
{ destruct Hr as [He Hf]. apply bwp_ret; [done|]. apply verdict_no; auto. }
apply bwp_stateful.
- intros H0. exists mt. by apply xmss_verifies.
- intros Hq Ha [mt' Hv]. specialize (Hr Hq Ha). apply xmss_verify_complete; [by destruct Ha as [[_ ?] _]|].
  pose proof (xmss_valid_imports _ _ _ _ Hv) as Hi. destruct Ha as (_ & Hone).
  destruct wc_negative as (_ & Hn & _ & Hn2).
  assert (mt' = mt) as <-; [|done]. destruct mt, mt'; try done; lia.
Qed.
End Spec.
