(* ===== verification/Kem.v ===== *)
(** Key encapsulation: ML-KEM, [src/psa_mlkem.c] over wolfCrypt's [MlKemKey], with
    what the backend promises; then the calls of [src/psa_kem.c].  The generation of
    seeds of [psa_mlkem.c] is in [KeyStore.v], its export of public keys in
    [KeyGen.v]. *)

From stdpp Require Import base decidable list.
From Stdlib Require Import ZArith Lia.
From Stdlib Require Import Strings.Byte.
From S2P Require Import Prelude.
From S2P Require Import Values.
From S2P Require Import Engine.
From S2P Require Import WolfCrypt.
From S2P Require Import KeyPolicy.
From S2P Require Import KeyFormat.
From S2P Require Import StoreIface.
From S2P Require Import Library.
From S2P Require Import KeyStore.
From S2P Require Import KeyStoreRules.
From S2P Require Import Operation.
From S2P Require Import KeyStoreInv.
From S2P Require Import KeyReaders.
From S2P Require Import WolfSign.

#[local] Open Scope Z_scope.

Definition WOLFPSA_MLKEM_SS_SIZE : Z := 32.

(** A key is its parameter set with the seed, or with the encoded public key. *)
Class WolfCryptMlKem : Type := {
  WC_ML_KEM_512 : Z;
  WC_ML_KEM_768 : Z;
  WC_ML_KEM_1024 : Z;
  wc_MlKemKey_MakeKeyWithRandom : Z -> list byte -> Z * list byte;
  wc_MlKemKey_PublicKeySize : Z -> Z * Z;
  wc_MlKemKey_CipherTextSize : Z -> Z * Z;
  wc_MlKemKey_DecodePublicKey : Z -> list byte -> Z;
  (** set, public key, buffer size *)
  wc_MlKemKey_EncodePublicKey : Z -> list byte -> Z -> Z * list byte;
  (** position, set, public key: cipher text and shared secret *)
  wc_MlKemKey_Encapsulate : nat -> Z -> list byte -> Z * (list byte * list byte);
  (** set, seed, cipher text *)
  wc_MlKemKey_Decapsulate : Z -> list byte -> list byte -> Z * list byte }.

Section MlKemDefs.
Context {C : Config} {E : WolfCryptErr} {R : WolfCryptRng} {WK : WolfCryptMlKem}.
Context {O : StoreOps} {Op : Type}.

Notation KM := (M (opstate O Op)).

Definition mlkem_bits_to_type (bits : Z) : Z :=
if bits =? 512 then WC_ML_KEM_512
else if bits =? 768 then WC_ML_KEM_768
else if bits =? 1024 then WC_ML_KEM_1024
else -1.

(** The public key, or the seed that is expanded to it. *)
Definition mlkem_load (type key_type : Z) (key_data : list byte) : KM psa_status_t :=
if key_type =? PSA_KEY_TYPE_ML_KEM_PUBLIC_KEY then
  '(ret, pubSz) ← wc_result (wc_MlKemKey_PublicKeySize type);
  if negb (ret =? 0) then mret (wc_error_to_psa_status ret)
  else if negb (zlen key_data =? pubSz) then mret PSA_ERROR_INVALID_ARGUMENT
  else if negb (fits_word32 (zlen key_data)) then mret PSA_ERROR_INVALID_ARGUMENT
  else
    ret ← wc_code (wc_MlKemKey_DecodePublicKey type key_data);
    mret (if negb (ret =? 0) then wc_error_to_psa_status ret else PSA_SUCCESS)
else if key_type =? PSA_KEY_TYPE_ML_KEM_KEY_PAIR then
  if negb (zlen key_data =? WOLFPSA_MLKEM_SEED_SIZE) then mret PSA_ERROR_INVALID_ARGUMENT
  else
    ret ← wc_code (wc_MlKemKey_MakeKeyWithRandom type key_data).1;
    mret (if negb (ret =? 0) then wc_error_to_psa_status ret else PSA_SUCCESS)
else mret PSA_ERROR_INVALID_ARGUMENT.

Definition mlkem_public (type key_type : Z) (key_data : list byte) : list byte :=
if key_type =? PSA_KEY_TYPE_ML_KEM_PUBLIC_KEY then key_data
else (wc_MlKemKey_MakeKeyWithRandom type key_data).2.

(** The cipher text and the shared secret come with the status. *)
Definition wolfpsa_mlkem_encapsulate (bits key_type : Z) (key_data : list byte) (ciphertext_size : Z)
: KM (psa_status_t * (list byte * list byte)) :=
let type := mlkem_bits_to_type bits in
if type <? 0 then mret (PSA_ERROR_NOT_SUPPORTED, ([], []))
else
  ret ← wc_call; (* wc_MlKemKey_Init *)
  if negb (ret =? 0) then mret (wc_error_to_psa_status ret, ([], []))
  else
    status ← mlkem_load type key_type key_data;
    match status with
    | PSA_SUCCESS =>
        '(ret, ctSz) ← wc_result (wc_MlKemKey_CipherTextSize type);
        if negb (ret =? 0) then mret (wc_error_to_psa_status ret, ([], []))
        else if ciphertext_size <? ctSz then mret (PSA_ERROR_BUFFER_TOO_SMALL, ([], []))
        else
          '(ret, n) ← wc_rng;
          if negb (ret =? 0) then mret (wc_error_to_psa_status ret, ([], []))
          else
            '(ret, (ct, ss)) ← wc_result (wc_MlKemKey_Encapsulate n type
                                            (mlkem_public type key_type key_data));
            mret (if negb (ret =? 0) then (wc_error_to_psa_status ret, ([], []))
                  else (PSA_SUCCESS, (take (Z.to_nat ctSz) ct, ss)))
    | e => mret (e, ([], []))
    end.

Definition wolfpsa_mlkem_decapsulate (bits : Z) (seed ciphertext : list byte)
: KM (psa_status_t * list byte) :=
let type := mlkem_bits_to_type bits in
if type <? 0 then mret (PSA_ERROR_NOT_SUPPORTED, [])
else if negb (fits_word32 (zlen ciphertext)) then mret (PSA_ERROR_INVALID_ARGUMENT, [])
else
  ret ← wc_call; (* wc_MlKemKey_Init *)
  if negb (ret =? 0) then mret (wc_error_to_psa_status ret, [])
  else
    ret ← wc_code (wc_MlKemKey_MakeKeyWithRandom type seed).1;
    if negb (ret =? 0) then mret (wc_error_to_psa_status ret, [])
    else
      '(ret, ctSz) ← wc_result (wc_MlKemKey_CipherTextSize type);
      if negb (ret =? 0) then mret (wc_error_to_psa_status ret, [])
      else if negb (to_u32 (zlen ciphertext) =? ctSz) then mret (PSA_ERROR_INVALID_ARGUMENT, [])
      else
        '(ret, ss) ← wc_result (wc_MlKemKey_Decapsulate type seed ciphertext);
        mret (if negb (ret =? 0) then (wc_error_to_psa_status ret, []) else (PSA_SUCCESS, ss)).
End MlKemDefs.

(** * What wolfCrypt promises *)

(** [mlkem_encaps]: set, public key, cipher text, shared secret.  FIPS 203 has a
  negligible chance that decapsulation misses the secret, which is left aside. *)
Class WolfCryptMlKemOk (W : WolfCryptMlKem) : Type := {
  mlkem_encaps : Z -> list byte -> list byte -> list byte -> Prop;
  mlkem_types : 0 <= WC_ML_KEM_512 /\ 0 <= WC_ML_KEM_768 /\ 0 <= WC_ML_KEM_1024;
  mlkem_cipher_sizes :
    wc_MlKemKey_CipherTextSize WC_ML_KEM_512 = (0, 768) /\
    wc_MlKemKey_CipherTextSize WC_ML_KEM_768 = (0, 1088) /\
    wc_MlKemKey_CipherTextSize WC_ML_KEM_1024 = (0, 1568);
  mlkem_encapsulates n type pub ct ss sz :
    wc_MlKemKey_CipherTextSize type = (0, sz) ->
    wc_MlKemKey_Encapsulate n type pub = (0, (ct, ss)) ->
    mlkem_encaps type pub ct ss /\ zlen ct = sz /\ zlen ss = WOLFPSA_MLKEM_SS_SIZE;
  mlkem_decaps_length type seed ct ss :
    wc_MlKemKey_Decapsulate type seed ct = (0, ss) -> zlen ss = WOLFPSA_MLKEM_SS_SIZE;
  mlkem_decapsulates type seed pub ct ss :
    wc_MlKemKey_MakeKeyWithRandom type seed = (0, pub) -> mlkem_encaps type pub ct ss ->
    wc_MlKemKey_Decapsulate type seed ct = (0, ss) }.

(** * What the backend promises *)

Section Spec.
Context {C : Config} {E : WolfCryptErr} {EO : WolfCryptErrOk E} {K : WolfCryptKeys} {R : WolfCryptRng}.
Context {WK : WolfCryptMlKem} {WKO : WolfCryptMlKemOk WK}.
Context {O : StoreOps} {L : StoreLaws O} {B : KeyBackend} {Op : Type}.

Notation KM := (M (opstate O Op)).
Notation bwp := (WolfSign.bwp (O := O) (Op := Op)).

Definition mlkem_bits (bits : Z) : Prop := bits = 512 \/ bits = 768 \/ bits = 1024.

(** The size of FIPS 203, as [PSA_ENCAPSULATE_CIPHERTEXT_SIZE] has it. *)
Definition mlkem_cipher_size (bits : Z) : Z :=
if bits =? 512 then 768 else if bits =? 768 then 1088 else if bits =? 1024 then 1568 else 0.

Lemma mlkem_type_spec bits :
if mlkem_bits_to_type bits <? 0 then ~ mlkem_bits bits
else mlkem_bits bits /\
     wc_MlKemKey_CipherTextSize (mlkem_bits_to_type bits) = (0, mlkem_cipher_size bits).
Proof.
destruct mlkem_types as (H1 & H2 & H3), mlkem_cipher_sizes as (S1 & S2 & S3).
unfold mlkem_bits_to_type, mlkem_cipher_size, mlkem_bits.
destruct (Z.eqb_spec bits 512) as [->|]; [by rewrite (proj2 (Z.ltb_ge _ 0)); auto|].
destruct (Z.eqb_spec bits 768) as [->|]; [by rewrite (proj2 (Z.ltb_ge _ 0)); auto|].
destruct (Z.eqb_spec bits 1024) as [->|]; [by rewrite (proj2 (Z.ltb_ge _ 0)); auto|].
simpl. lia.
Qed.

(** ** Encapsulation *)

Definition encaps_post (bits key_type : Z) (key : list byte) (size : Z) (P : Prop)
  (r : psa_status_t * (list byte * list byte)) : Prop :=
r.1 = PSA_SUCCESS ->
mlkem_encaps (mlkem_bits_to_type bits) (mlkem_public (mlkem_bits_to_type bits) key_type key) r.2.1 r.2.2 /\
zlen r.2.1 = mlkem_cipher_size bits /\ zlen r.2.1 <= size /\ zlen r.2.2 = WOLFPSA_MLKEM_SS_SIZE.

Lemma encaps_lax bits key_type key size : lax (encaps_post bits key_type key size).
Proof. by intros P P' r _. Qed.

Lemma encaps_no bits key_type key size P e x :
e <> PSA_SUCCESS -> encaps_post bits key_type key size P (e, x).
Proof. by intros He Hs. Qed.

(** A status of the loader, whatever it is. *)
Lemma bwp_mlkem_load type key_type key (P : Prop) :
bwp (mlkem_load type key_type key) (fun _ _ => True) P.
Proof.
assert (Hl : lax (A := psa_status_t) (fun _ _ => True)) by done.
unfold mlkem_load. destruct (key_type =? _).
- apply bwp_result; [done| |].
  + destruct (wc_MlKemKey_PublicKeySize type) as [ret sz].
    repeat case_match; try by apply bwp_ret. by apply bwp_code; [done|apply bwp_ret|intros; apply bwp_ret].
  + intros ret sz _. repeat case_match; try by apply bwp_ret.
    by apply bwp_code; [done|apply bwp_ret|intros; apply bwp_ret].
- repeat case_match; try by apply bwp_ret. by apply bwp_code; [done|apply bwp_ret|intros; apply bwp_ret].
Qed.

Lemma mlkem_encapsulate_spec bits key_type key size (P : Prop) :
bwp (wolfpsa_mlkem_encapsulate bits key_type key size) (encaps_post bits key_type key size) P.
Proof.
pose proof (encaps_lax bits key_type key size) as Hl.
assert (Hno : forall e x (Q : Prop), e <> PSA_SUCCESS -> bwp (mret (e, x)) (encaps_post bits key_type key size) Q).
{ intros. apply bwp_ret; [done|]. by apply encaps_no. }
assert (Herr : forall ret x (Q : Prop) m, ret <> 0 ->
  bwp (if negb (ret =? 0) then mret (wc_error_to_psa_status ret, x) else m) (encaps_post bits key_type key size) Q).
{ intros ret x Q m Hne. rewrite (proj2 (Z.eqb_neq ret 0)) by done. apply Hno. by rewrite wc_error_success. }
unfold wolfpsa_mlkem_encapsulate. cbv zeta. pose proof (mlkem_type_spec bits) as Ht.
destruct (mlkem_bits_to_type bits <? 0); [by apply Hno|]. destruct Ht as [_ Hsz].
apply (bwp_check_call (fun e => (e, ([], [])))); [done|by intros; apply encaps_no|].
eapply bwp_bind; [done|apply bwp_mlkem_load|]. intros Q st _ _.
destruct (decide (st = PSA_SUCCESS)) as [->|Hst].
2: { destruct st; try done; by apply Hno. }
apply bwp_result; [done| |intros; apply Herr; lia]. rewrite Hsz. cbn [Z.eqb negb].
destruct (Z.ltb_spec size (mlkem_cipher_size bits)); [by apply Hno|].
apply (bwp_check_rng (fun e => (e, ([], [])))); [done|by intros; apply encaps_no|]. intros n.
apply bwp_result; [done| |].
- destruct (wc_MlKemKey_Encapsulate n _ _) as [ret [ct ss]] eqn:He. apply bwp_ret; [done|].
  destruct (Z.eqb_spec ret 0) as [->|]; cbn [negb]; [|by apply encaps_no; rewrite wc_error_success].
  destruct (mlkem_encapsulates _ _ _ _ _ _ Hsz He) as (Henc & Hct & Hss). intros _. cbn [fst snd].
  rewrite take_ge by (unfold zlen in *; lia). split_and!; [done..|lia|done].
- intros ret [ct ss] Hneg. apply bwp_ret; [done|]. rewrite (proj2 (Z.eqb_neq ret 0)) by lia.
  apply encaps_no. rewrite wc_error_success. lia.
Qed.

(** ** Decapsulation *)

Definition decaps_post (bits : Z) (seed ct : list byte) (P : Prop) (r : psa_status_t * list byte) : Prop :=
(r.1 = PSA_SUCCESS ->
 mlkem_bits bits /\ zlen ct = mlkem_cipher_size bits /\ zlen r.2 = WOLFPSA_MLKEM_SS_SIZE /\
 wc_MlKemKey_Decapsulate (mlkem_bits_to_type bits) seed ct = (0, r.2)) /\
(P -> forall pub ss, mlkem_bits bits -> zlen ct = mlkem_cipher_size bits ->
 wc_MlKemKey_MakeKeyWithRandom (mlkem_bits_to_type bits) seed = (0, pub) ->
 mlkem_encaps (mlkem_bits_to_type bits) pub ct ss -> r = (PSA_SUCCESS, ss)).

Lemma decaps_lax bits seed ct : lax (decaps_post bits seed ct).
Proof. intros P P' r Hp [H1 H2]. split; [done|]. intros HP. by apply H2, Hp. Qed.

Lemma decaps_no bits seed ct (P : Prop) e x :
e <> PSA_SUCCESS ->
(P -> forall pub, mlkem_bits bits -> zlen ct = mlkem_cipher_size bits ->
 wc_MlKemKey_MakeKeyWithRandom (mlkem_bits_to_type bits) seed = (0, pub) -> False) ->
decaps_post bits seed ct P (e, x).
Proof. intros He Hno. split; [done|]. intros HP pub ss Hb Hc Hm _. by destruct (Hno HP _ Hb Hc Hm). Qed.

Lemma cipher_size_word bits : 0 <= mlkem_cipher_size bits <= 1568.
Proof. unfold mlkem_cipher_size. repeat case_match; lia. Qed.

Lemma mlkem_decapsulate_spec bits seed ct (P : Prop) :
bwp (wolfpsa_mlkem_decapsulate bits seed ct) (decaps_post bits seed ct) P.
Proof.
pose proof (decaps_lax bits seed ct) as Hl. set (Post := decaps_post bits seed ct) in *.
assert (Hfail : forall ret x, ret <> 0 -> Post False (wc_error_to_psa_status ret, x)).
{ intros ret x Hne. apply decaps_no; [by rewrite wc_error_success|by intros []]. }
unfold wolfpsa_mlkem_decapsulate. cbv zeta. pose proof (mlkem_type_spec bits) as Ht.
destruct (mlkem_bits_to_type bits <? 0).
{ apply bwp_ret; [done|]. apply decaps_no; [done|]. by intros _ pub ?%Ht. }
destruct Ht as [Hb Hsz]. pose proof (cipher_size_word bits) as Hw.
destruct (fits_word32 (zlen ct)) eqn:Hf; cbn [negb].
2: { apply bwp_ret; [done|]. apply decaps_no; [done|]. intros _ pub _ Hc _.
     apply not_true_iff_false in Hf. apply Hf, fits_word32_spec. unfold UINT32_MAX. lia. }
apply fits_word32_spec in Hf. pose proof (zlen_nonneg ct).
apply (bwp_check_call (fun e => (e, []))); [done|by intros e He; apply decaps_no; [|intros []]|].
destruct (wc_MlKemKey_MakeKeyWithRandom (mlkem_bits_to_type bits) seed) as [ret pub0] eqn:Hmk. cbn [fst].
apply (bwp_check_code (fun e => (e, []))); [done|by intros e He; apply decaps_no; [|intros []]| |].
{ intros Hne e He. apply decaps_no; [done|]. rewrite Hmk. by intros _ pub _ _ [= -> _]. }
intros ->. apply bwp_result; [done| |].
2: { intros ret x Hneg. rewrite (proj2 (Z.eqb_neq ret 0)) by lia. apply bwp_ret; [done|]. apply Hfail. lia. }
rewrite Hsz. cbn [Z.eqb negb]. rewrite to_u32_small by lia.
destruct (Z.eqb_spec (zlen ct) (mlkem_cipher_size bits)) as [Hlen|Hlen]; cbn [negb].
2: { apply bwp_ret; [done|]. by apply decaps_no. }
apply bwp_result; [done| |].
- destruct (wc_MlKemKey_Decapsulate _ seed ct) as [ret ss] eqn:Hd. apply bwp_ret; [done|]. split.
  + destruct (Z.eqb_spec ret 0) as [->|Hne]; cbn [negb fst snd]; [|by rewrite wc_error_success].
    intros _. split_and!; [done..| |done]. by eapply mlkem_decaps_length.
  + intros _ pub ss' _ _ Hm He. rewrite Hmk in Hm. injection Hm as <-.
    rewrite (mlkem_decapsulates _ _ _ _ _ Hmk He) in Hd. by injection Hd as <- <-.
- intros ret ss Hneg. apply bwp_ret; [done|]. rewrite (proj2 (Z.eqb_neq ret 0)) by lia. apply Hfail. lia.
Qed.
End Spec.

(** * The calls of the API *)

Definition PSA_ALG_ML_KEM : Z := 0x0c000200.
Definition PSA_ALG_IS_KEY_ENCAPSULATION (alg : Z) : bool := Z.land alg 0x7f000000 =? 0x0c000000.

Definition PSA_ENCAPSULATE_CIPHERTEXT_SIZE (key_type key_bits alg : Z) : Z :=
  if PSA_KEY_TYPE_IS_ML_KEM key_type && (alg =? PSA_ALG_ML_KEM) then
    if key_bits =? 512 then 768 else if key_bits =? 768 then 1088
    else if key_bits =? 1024 then 1568 else 0
  else 0.
Definition PSA_ENCAPSULATE_CIPHERTEXT_MAX_SIZE : Z := 1568.

(** The attributes of the key that the shared secret becomes. *)
Definition wolfpsa_kem_check_output_attributes (attributes : psa_key_attributes_t) : psa_status_t :=
  if negb (PSA_KEY_TYPE_IS_UNSTRUCTURED (attr_type attributes)) then PSA_ERROR_INVALID_ARGUMENT
  else if negb (attr_bits attributes =? 0) && negb (attr_bits attributes =? WOLFPSA_MLKEM_SS_SIZE * 8)
  then PSA_ERROR_INVALID_ARGUMENT
  else PSA_SUCCESS.

Definition wolfpsa_kem_check_alg (alg : Z) : psa_status_t :=
  if alg =? PSA_ALG_ML_KEM then PSA_SUCCESS
  else if PSA_ALG_IS_KEY_ENCAPSULATION alg then PSA_ERROR_NOT_SUPPORTED
  else PSA_ERROR_INVALID_ARGUMENT.

(** The checks before the key is loaded. *)
Definition kem_arguments (alg : Z) (attributes : psa_key_attributes_t) : psa_status_t :=
  match wolfpsa_kem_check_alg alg with
  | PSA_SUCCESS => wolfpsa_kem_check_output_attributes attributes
  | e => e
  end.

Definition kem_public_or_pair (type : Z) : bool :=
  (type =? PSA_KEY_TYPE_ML_KEM_KEY_PAIR) || (type =? PSA_KEY_TYPE_ML_KEM_PUBLIC_KEY).
Definition kem_pair (type : Z) : bool := type =? PSA_KEY_TYPE_ML_KEM_KEY_PAIR.

(** The checks of the loaded key: its type, the usage flag, the algorithm. *)
Definition kem_key_checks (type_ok : Z -> bool) (usage alg : Z) (key_attr : psa_key_attributes_t)
  : psa_status_t :=
  if negb (type_ok (attr_type key_attr)) then PSA_ERROR_INVALID_ARGUMENT
  else if Z.land (psa_get_key_usage_flags key_attr) usage =? 0 then PSA_ERROR_NOT_PERMITTED
  else if negb (wolfpsa_key_permits_alg key_attr alg) then PSA_ERROR_NOT_PERMITTED
  else PSA_SUCCESS.

Section Kem.
Context {C : Config} {E : WolfCryptErr} {K : WolfCryptKeys} {R : WolfCryptRng}.
Context {O : StoreOps} {B : KeyBackend} {WK : WolfCryptMlKem} {Op : Type}.

Notation KM := (M (opstate O Op)).

Definition load_kem_key (type_ok : Z -> bool) (usage key alg : Z)
: KM (psa_status_t + psa_key_attributes_t * list byte) :=
'(status, key_attr, key_data) ← lib (wolfpsa_get_key_data key (Some PSA_KEY_ATTRIBUTES_INIT));
mret match status with
     | PSA_SUCCESS =>
         let a := default PSA_KEY_ATTRIBUTES_INIT key_attr in
         match kem_key_checks type_ok usage alg a with
         | PSA_SUCCESS => inr (a, default [] key_data)
         | e => inl e
         end
     | e => inl e
     end.

(** The shared secret becomes the output key. *)
Definition import_secret (attributes : psa_key_attributes_t) (ss : list byte) : KM (psa_status_t * Z) :=
'(status, id) ← lib (psa_import_key (Some attributes) (Some ss) true);
mret (status, if bool_decide (status = PSA_SUCCESS) then id else PSA_KEY_ID_NULL).

(** [output_key], [ciphertext] and [ciphertext_length] say whether the pointers
  are not NULL; the identifier and the cipher text come with the status. *)
Definition psa_encapsulate (key alg : Z) (attributes : option psa_key_attributes_t) (output_key : bool)
  (ciphertext : bool) (ciphertext_size : Z) (ciphertext_length : bool)
: KM (psa_status_t * (Z * list byte)) :=
let refuse e := mret (e, (PSA_KEY_ID_NULL, [])) in
match attributes with
| None => refuse PSA_ERROR_INVALID_ARGUMENT
| Some attributes =>
    if negb output_key || negb ciphertext_length || (negb ciphertext && negb (ciphertext_size =? 0))
    then refuse PSA_ERROR_INVALID_ARGUMENT
    else
      match kem_arguments alg attributes with
      | PSA_SUCCESS =>
          r ← load_kem_key kem_public_or_pair PSA_KEY_USAGE_ENCRYPT key alg;
          match r with
          | inl e => refuse e
          | inr (a, key_data) =>
              if ciphertext_size <? PSA_ENCAPSULATE_CIPHERTEXT_SIZE (attr_type a) (attr_bits a) alg
              then refuse PSA_ERROR_BUFFER_TOO_SMALL
              else if negb WOLFSSL_HAVE_MLKEM then refuse PSA_ERROR_NOT_SUPPORTED
              else
                '(status, (ct, ss)) ← wolfpsa_mlkem_encapsulate (attr_bits a) (attr_type a) key_data
                                        PSA_ENCAPSULATE_CIPHERTEXT_MAX_SIZE;
                match status with
                | PSA_SUCCESS =>
                    '(status, id) ← import_secret attributes ss;
                    mret (status, (id, if bool_decide (status = PSA_SUCCESS) then ct else []))
                | e => refuse e
                end
          end
      | e => refuse e
      end
end.

Definition psa_decapsulate (key alg : Z) (ciphertext : input)
  (attributes : option psa_key_attributes_t) (output_key : bool) : KM (psa_status_t * Z) :=
let refuse e := mret (e, PSA_KEY_ID_NULL) in
match attributes, ciphertext, output_key with
| Some attributes, Bytes ciphertext, true =>
    match kem_arguments alg attributes with
    | PSA_SUCCESS =>
        r ← load_kem_key kem_pair PSA_KEY_USAGE_DECRYPT key alg;
        match r with
        | inl e => refuse e
        | inr (a, key_data) =>
            if negb (zlen key_data =? WOLFPSA_MLKEM_SEED_SIZE) then refuse PSA_ERROR_INVALID_ARGUMENT
            else if negb WOLFSSL_HAVE_MLKEM then refuse PSA_ERROR_NOT_SUPPORTED
            else
              '(status, ss) ← wolfpsa_mlkem_decapsulate (attr_bits a) key_data ciphertext;
              match status with
              | PSA_SUCCESS => import_secret attributes ss
              | e => refuse e
              end
        end
    | e => refuse e
    end
| _, _, _ => refuse PSA_ERROR_INVALID_ARGUMENT
end.
End Kem.
