(* ===== verification/KeyGen.v ===== *)
(** The generation of asymmetric keys and the computation of public keys:
    [psa_asymmetric_generate_key_*] and [psa_asymmetric_export_public_key_*] of
    [src/psa_rsa.c], [src/psa_ecc.c], [src/psa_ed25519_ed448.c] and
    [src/psa_montgomery.c], and the seeds of [src/psa_mldsa.c] and
    [src/psa_mlkem.c].  They are the [KeyBackend] of the key store.

    wolfCrypt's answers are functions of what it is given, failures included, as
    in [KeyFormat.v]: the key store has no list of codes to take them from. *)

From stdpp Require Import base decidable list.
From Stdlib Require Import ZArith Lia.
From Stdlib Require Import Strings.Byte.
From S2P Require Import Prelude.
From S2P Require Import Values.
From S2P Require Import Engine.
From S2P Require Import WolfCrypt.
From S2P Require Import KeyFormat.
From S2P Require Import StoreIface.
From S2P Require Import Library.
From S2P Require Import KeyStore.
From S2P Require Import KeyAgreement.
From S2P Require Import AsymValues.
From S2P Require Import WolfSign.
From S2P Require Import WolfPkc.
From S2P Require Import Rsa.
From S2P Require Import MlDsa.
From S2P Require Import Kem.

#[local] Open Scope Z_scope.

Definition ED25519_PUB_KEY_SIZE : Z := 32.
Definition ED448_PUB_KEY_SIZE : Z := 57.
Definition ED25519_KEY_SIZE : Z := 32.
Definition ED448_KEY_SIZE : Z := 57.

(** An Edwards or Montgomery key object: whether the private part is set, the
    private part and the public part. *)
Record generated : Type := mkGenerated {
  gen_private_set : bool;
  gen_private : list byte;
  gen_public : list byte }.

(** The calls on key objects.  A maker takes the position of the random
    generator; an exporter, the size of the buffer. *)
Class WolfCryptKeyGen (K : WolfCryptKeys) (WE : WolfCryptEcc) : Type := {
  LENGTH_ONLY_E : Z;
  rsa_object : Type;
  rsa_object_public : rsa_object -> mp_int * mp_int;
  (** bits, exponent *)
  wc_MakeRsaKey : nat -> Z -> Z -> Z * rsa_object;
  wc_RsaKeyToDer : rsa_object -> Z -> Z * list byte;
  wc_RsaKeyToPublicDer : mp_int * mp_int -> Z -> Z * list byte;
  wc_RsaFlatten : mp_int * mp_int -> Z * (list byte * list byte);
  wc_NewRsaKey_object : Z + unit;
  ecc_object : Type;
  ecc_object_private : ecc_object -> bool;
  ecc_object_scalar : ecc_object -> mp_int;
  ecc_object_point : ecc_object -> ecc_point;
  (** size, curve *)
  wc_ecc_make_key_ex : nat -> Z -> Z -> Z * ecc_object;
  mp_to_unsigned_bin_len : mp_int -> Z -> Z * list byte;
  (** point, whether the output pointer is not NULL *)
  wc_ecc_export_x963 : ecc_point -> bool -> Z -> Z * list byte;
  wc_ed25519_init_ex : Z;
  wc_ed25519_make_key : nat -> Z -> Z * generated;
  wc_ed25519_export_private_only : list byte -> Z -> Z * list byte;
  wc_ed25519_export_public : list byte -> Z -> Z * list byte;
  wc_ed448_init_ex : Z;
  wc_ed448_make_key : nat -> Z -> Z * generated;
  wc_ed448_export_private_only : list byte -> Z -> Z * list byte;
  wc_ed448_export_public : list byte -> Z -> Z * list byte;
  (** a private key that was generated or imported *)
  wc_curve25519_init_ex : Z;
  wc_curve25519_make_key : nat -> Z -> Z * generated;
  wc_curve25519_import_private_ex : list byte -> Z;
  wc_curve25519_export_private_raw_ex : list byte -> Z -> Z * list byte;
  wc_curve25519_export_public_ex : list byte -> Z -> Z * list byte;
  (** [wc_InitRng_ex] and [wc_curve25519_set_rng], for blinding *)
  curve25519_blinding_rng : Z;
  wc_curve448_init_ex : Z;
  wc_curve448_make_key : nat -> Z -> Z * generated;
  wc_curve448_import_private_ex : list byte -> Z;
  wc_curve448_export_private_raw_ex : list byte -> Z -> Z * list byte;
  wc_curve448_export_public_ex : list byte -> Z -> Z * list byte;
  wc_MlDsaKey_Init : Z;
  wc_MlDsaKey_PubSize : Z -> Z;
  (** level, public key *)
  wc_MlDsaKey_ExportPubRaw : Z -> list byte -> Z -> Z * list byte;
  wc_MlKemKey_Init : Z -> Z }.

(** The module keeps the names of the code apart from those of the interface. *)
Module Gen.

Definition MONTGOMERY_KEY_PAIR : Z := PSA_KEY_TYPE_ECC_KEY_PAIR PSA_ECC_FAMILY_MONTGOMERY.
Definition MONTGOMERY_PUBLIC_KEY : Z := PSA_KEY_TYPE_PUBLIC_KEY_OF_KEY_PAIR MONTGOMERY_KEY_PAIR.

Section Generation.
Context {C : Config} {E : WolfCryptErr} {K : WolfCryptKeys} {R : WolfCryptRng}.
Context {R1 : WolfCryptRsa K} {E1 : WolfCryptEcc} {W1 : WolfCryptEdwards} {Q1 : WolfCryptMlDsa}.
Context {WK : WolfCryptMlKem} {G : WolfCryptKeyGen K E1}.

(** The private key, or the exported key, with the status. *)
Notation output := (psa_status_t * list byte)%type.

Definition failed (ret : Z) : output := (wc_error_to_psa_status ret, []).
Definition checked (ret : Z) (k : output) : output := if negb (ret =? 0) then failed ret else k.

(** * RSA *)

(** [public] says whether both public pointers are not NULL. *)
Definition psa_asymmetric_generate_key_rsa (n : nat) (key_type key_bits private_key_size : Z)
  (public : bool) (public_key_size : Z) : output :=
if negb WOLFSSL_KEY_GEN then (PSA_ERROR_NOT_SUPPORTED, [])
else if negb (key_type =? PSA_KEY_TYPE_RSA_KEY_PAIR) then (PSA_ERROR_INVALID_ARGUMENT, [])
else if negb (fits_word32 private_key_size) || negb (fits_word32 public_key_size)
then (PSA_ERROR_INVALID_ARGUMENT, [])
else
  checked wc_InitRsaKey (checked (wc_InitRng_ex n) (
  let '(ret, rsa_key) := wc_MakeRsaKey n (to_int key_bits) 65537 in
  checked ret (
  let '(ret, private_key) := wc_RsaKeyToDer rsa_key private_key_size in
  if ret <? 0 then failed ret
  else
    let private_key := take (Z.to_nat ret) private_key in
    if public && (0 <? public_key_size) then
      let '(ret, _) := wc_RsaKeyToPublicDer (rsa_object_public rsa_key) public_key_size in
      if ret <? 0 then failed ret else (PSA_SUCCESS, private_key)
    else (PSA_SUCCESS, private_key)))).

Definition psa_asymmetric_export_public_key_rsa (key_type : Z) (key_buffer : list byte) (output_size : Z)
: output :=
if negb (key_type =? PSA_KEY_TYPE_RSA_KEY_PAIR) && negb (key_type =? PSA_KEY_TYPE_RSA_PUBLIC_KEY)
then (PSA_ERROR_INVALID_ARGUMENT, [])
else if negb (fits_word32 (zlen key_buffer)) || negb (fits_word32 output_size)
then (PSA_ERROR_INVALID_ARGUMENT, [])
else
  checked wc_InitRsaKey (
  let '(ret, (_, pub)) := rsa_decode key_type key_buffer in
  checked ret (
  let '(ret, out) := wc_RsaKeyToPublicDer pub output_size in
  if ret <? 0 then failed ret else (PSA_SUCCESS, take (Z.to_nat ret) out))).

(** * Weierstrass curves *)

(** [outputs] says whether the four output pointers are not NULL. *)
Definition psa_asymmetric_generate_key_ecc (n : nat) (key_type key_bits private_key_size : Z)
  (outputs : bool) (public_key_size : Z) : output :=
if negb (PSA_KEY_TYPE_IS_ECC_KEY_PAIR key_type) then (PSA_ERROR_INVALID_ARGUMENT, [])
else
  let curve_id := wc_psa_get_ecc_curve_id key_type key_bits in
  if curve_id =? ECC_CURVE_INVALID then (PSA_ERROR_NOT_SUPPORTED, [])
  else if negb (fits_word32 public_key_size) then (PSA_ERROR_INVALID_ARGUMENT, [])
  else
    checked wc_ecc_init_ex (checked (wc_InitRng_ex n) (
    let '(ret, ecc) := wc_ecc_make_key_ex n (to_int (PSA_BITS_TO_BYTES key_bits)) curve_id in
    checked ret (
    if negb outputs then (PSA_ERROR_INVALID_ARGUMENT, [])
    else
      let priv_len := to_u32 (PSA_BITS_TO_BYTES key_bits) in
      if private_key_size <? priv_len then (PSA_ERROR_BUFFER_TOO_SMALL, [])
      else if negb (ecc_object_private ecc) then (PSA_ERROR_HARDWARE_FAILURE, [])
      else
        let '(ret, private_key) := mp_to_unsigned_bin_len (ecc_object_scalar ecc) priv_len in
        checked ret (
        let '(ret, _) := wc_ecc_export_x963 (ecc_object_point ecc) true public_key_size in
        checked ret (PSA_SUCCESS, private_key))))).

Definition psa_asymmetric_export_public_key_ecc (key_type key_bits : Z) (key_buffer : list byte)
  (out : bool) (output_size : Z) : output :=
if negb (PSA_KEY_TYPE_IS_ECC_KEY_PAIR key_type) && negb (PSA_KEY_TYPE_IS_ECC_PUBLIC_KEY key_type)
then (PSA_ERROR_INVALID_ARGUMENT, [])
else
  let curve_id := wc_psa_get_ecc_curve_id key_type key_bits in
  if curve_id =? ECC_CURVE_INVALID then (PSA_ERROR_NOT_SUPPORTED, [])
  else if negb (fits_word32 (zlen key_buffer)) || negb (fits_word32 output_size)
  then (PSA_ERROR_INVALID_ARGUMENT, [])
  else
    checked wc_ecc_init_ex (
    let ret :=
      if PSA_KEY_TYPE_IS_ECC_KEY_PAIR key_type then
        let ret := wc_ecc_import_private_key_ex key_buffer curve_id in
        if ret =? 0 then wc_ecc_make_pub_ex key_buffer curve_id else ret
      else wc_ecc_import_x963_ex key_buffer curve_id in
    checked ret (
    if negb out && negb (output_size =? 0) then (PSA_ERROR_INVALID_ARGUMENT, [])
    else
      let point := if PSA_KEY_TYPE_IS_ECC_KEY_PAIR key_type then ecc_private_point key_buffer curve_id
                   else ecc_x963_point key_buffer curve_id in
      let '(ret, public_key) := wc_ecc_export_x963 point out output_size in
      let ret := if ret =? LENGTH_ONLY_E then BUFFER_E else ret in
      checked ret (PSA_SUCCESS, public_key))).

(** * Edwards curves *)

Definition psa_asymmetric_generate_key_ed25519 (n : nat) (key_type key_bits private_key_size : Z)
  (public_key_size : Z) : output :=
if negb (key_type =? TWISTED_EDWARDS_KEY_PAIR) || negb (key_bits =? 255)
then (PSA_ERROR_INVALID_ARGUMENT, [])
else if negb (fits_word32 private_key_size) || negb (fits_word32 public_key_size)
then (PSA_ERROR_INVALID_ARGUMENT, [])
else
  checked wc_ed25519_init_ex (checked (wc_InitRng_ex n) (
  let '(ret, ed_key) := wc_ed25519_make_key n ED25519_KEY_SIZE in
  checked ret (
  if negb (gen_private_set ed_key) then (PSA_ERROR_HARDWARE_FAILURE, [])
  else
    let '(ret, private_key) := wc_ed25519_export_private_only (gen_private ed_key) private_key_size in
    checked ret (
    let '(ret, _) := wc_ed25519_export_public (gen_public ed_key) public_key_size in
    checked ret (PSA_SUCCESS, private_key))))).

Definition psa_asymmetric_export_public_key_ed25519 (key_type key_bits : Z) (key_buffer : list byte)
  (out : bool) (output_size : Z) : output :=
if negb (key_type =? TWISTED_EDWARDS_KEY_PAIR) && negb (key_type =? TWISTED_EDWARDS_PUBLIC_KEY)
   || negb (key_bits =? 255)
then (PSA_ERROR_INVALID_ARGUMENT, [])
else if negb (fits_word32 (zlen key_buffer)) || negb (fits_word32 output_size)
then (PSA_ERROR_INVALID_ARGUMENT, [])
else if negb out && negb (output_size =? 0) then (PSA_ERROR_INVALID_ARGUMENT, [])
else if output_size <? ED25519_PUB_KEY_SIZE then (PSA_ERROR_BUFFER_TOO_SMALL, [])
else
  checked wc_ed25519_init_ex (
  let '(ret, pub) :=
    if key_type =? TWISTED_EDWARDS_KEY_PAIR then
      let ret := wc_ed25519_import_private_only key_buffer in
      if ret =? 0 then wc_ed25519_make_public key_buffer else (ret, [])
    else wc_ed25519_import_public key_buffer in
  checked ret (
  let '(ret, public_key) := wc_ed25519_export_public pub output_size in
  checked ret (PSA_SUCCESS, public_key))).

(** No check of the private part here: Ed448 keys are not made by a device. *)
Definition psa_asymmetric_generate_key_ed448 (n : nat) (key_type key_bits private_key_size : Z)
  (public_key_size : Z) : output :=
if negb (key_type =? TWISTED_EDWARDS_KEY_PAIR) || negb (key_bits =? 448)
then (PSA_ERROR_INVALID_ARGUMENT, [])
else if negb (fits_word32 private_key_size) || negb (fits_word32 public_key_size)
then (PSA_ERROR_INVALID_ARGUMENT, [])
else
  checked wc_ed448_init_ex (checked (wc_InitRng_ex n) (
  let '(ret, ed_key) := wc_ed448_make_key n ED448_KEY_SIZE in
  checked ret (
  let '(ret, private_key) := wc_ed448_export_private_only (gen_private ed_key) private_key_size in
  checked ret (
  let '(ret, _) := wc_ed448_export_public (gen_public ed_key) public_key_size in
  checked ret (PSA_SUCCESS, private_key))))).

Definition psa_asymmetric_export_public_key_ed448 (key_type key_bits : Z) (key_buffer : list byte)
  (out : bool) (output_size : Z) : output :=
if negb (key_type =? TWISTED_EDWARDS_KEY_PAIR) && negb (key_type =? TWISTED_EDWARDS_PUBLIC_KEY)
   || negb (key_bits =? 448)
then (PSA_ERROR_INVALID_ARGUMENT, [])
else if negb (fits_word32 (zlen key_buffer)) || negb (fits_word32 output_size)
then (PSA_ERROR_INVALID_ARGUMENT, [])
else if negb out && negb (output_size =? 0) then (PSA_ERROR_INVALID_ARGUMENT, [])
else if output_size <? ED448_PUB_KEY_SIZE then (PSA_ERROR_BUFFER_TOO_SMALL, [])
else
  checked wc_ed448_init_ex (
  let '(ret, pub) :=
    if key_type =? TWISTED_EDWARDS_KEY_PAIR then
      let ret := wc_ed448_import_private_only key_buffer in
      if ret =? 0 then wc_ed448_make_public key_buffer else (ret, [])
    else wc_ed448_import_public key_buffer in
  checked ret (
  let '(ret, public_key) := wc_ed448_export_public pub output_size in
  checked ret (PSA_SUCCESS, public_key))).

(** * Montgomery curves *)

Definition psa_asymmetric_generate_key_x25519 (n : nat) (key_type key_bits private_key_size : Z)
  (outputs : bool) (public_key_size : Z) : output :=
if negb (key_type =? MONTGOMERY_KEY_PAIR) || negb (key_bits =? 255) then (PSA_ERROR_INVALID_ARGUMENT, [])
else if negb outputs then (PSA_ERROR_INVALID_ARGUMENT, [])
else if negb (fits_word32 private_key_size) || negb (fits_word32 public_key_size)
then (PSA_ERROR_INVALID_ARGUMENT, [])
else
  checked wc_curve25519_init_ex (checked (wc_InitRng_ex n) (
  let '(ret, key) := wc_curve25519_make_key n CURVE25519_KEYSIZE in
  checked ret (
  if negb (gen_private_set key) then (PSA_ERROR_HARDWARE_FAILURE, [])
  else
    let '(ret, private_key) := wc_curve25519_export_private_raw_ex (gen_private key) private_key_size in
    checked ret (
    let '(ret, _) := wc_curve25519_export_public_ex (gen_private key) public_key_size in
    checked ret (PSA_SUCCESS, private_key))))).

Definition psa_asymmetric_export_public_key_x25519 (key_type key_bits : Z) (key_buffer : list byte)
  (out : bool) (output_size : Z) : output :=
if negb (key_type =? MONTGOMERY_KEY_PAIR) && negb (key_type =? MONTGOMERY_PUBLIC_KEY)
   || negb (key_bits =? 255)
then (PSA_ERROR_INVALID_ARGUMENT, [])
else if negb out && negb (output_size =? 0) then (PSA_ERROR_INVALID_ARGUMENT, [])
else if output_size <? CURVE25519_KEYSIZE then (PSA_ERROR_BUFFER_TOO_SMALL, [])
else if negb (zlen key_buffer =? CURVE25519_KEYSIZE) then (PSA_ERROR_INVALID_ARGUMENT, [])
else if key_type =? MONTGOMERY_KEY_PAIR then
  checked wc_curve25519_init_ex (checked (wc_curve25519_import_private_ex key_buffer) (
  checked (if WOLFSSL_CURVE25519_BLINDING then curve25519_blinding_rng else 0) (
  let '(ret, public_key) := wc_curve25519_export_public_ex key_buffer CURVE25519_KEYSIZE in
  checked ret (PSA_SUCCESS, public_key))))
else (PSA_SUCCESS, key_buffer).

Definition psa_asymmetric_generate_key_x448 (n : nat) (key_type key_bits private_key_size : Z)
  (outputs : bool) (public_key_size : Z) : output :=
if negb (key_type =? MONTGOMERY_KEY_PAIR) || negb (key_bits =? 448) then (PSA_ERROR_INVALID_ARGUMENT, [])
else if negb outputs then (PSA_ERROR_INVALID_ARGUMENT, [])
else if negb (fits_word32 private_key_size) || negb (fits_word32 public_key_size)
then (PSA_ERROR_INVALID_ARGUMENT, [])
else
  checked wc_curve448_init_ex (checked (wc_InitRng_ex n) (
  let '(ret, key) := wc_curve448_make_key n CURVE448_KEY_SIZE in
  checked ret (
  if negb (gen_private_set key) then (PSA_ERROR_HARDWARE_FAILURE, [])
  else
    let '(ret, private_key) := wc_curve448_export_private_raw_ex (gen_private key) private_key_size in
    checked ret (
    let '(ret, _) := wc_curve448_export_public_ex (gen_private key) public_key_size in
    checked ret (PSA_SUCCESS, private_key))))).

Definition psa_asymmetric_export_public_key_x448 (key_type key_bits : Z) (key_buffer : list byte)
  (out : bool) (output_size : Z) : output :=
if negb (key_type =? MONTGOMERY_KEY_PAIR) && negb (key_type =? MONTGOMERY_PUBLIC_KEY)
   || negb (key_bits =? 448)
then (PSA_ERROR_INVALID_ARGUMENT, [])
else if negb out && negb (output_size =? 0) then (PSA_ERROR_INVALID_ARGUMENT, [])
else if output_size <? CURVE448_KEY_SIZE then (PSA_ERROR_BUFFER_TOO_SMALL, [])
else if negb (zlen key_buffer =? CURVE448_KEY_SIZE) then (PSA_ERROR_INVALID_ARGUMENT, [])
else if key_type =? MONTGOMERY_KEY_PAIR then
  checked wc_curve448_init_ex (checked (wc_curve448_import_private_ex key_buffer) (
  let '(ret, public_key) := wc_curve448_export_public_ex key_buffer CURVE448_KEY_SIZE in
  checked ret (PSA_SUCCESS, public_key)))
else (PSA_SUCCESS, key_buffer).

(** * Post-quantum keys *)

(** [mldsa_key_init] and [mldsa_expand_seed] on a seed: the public key, or why
  not. *)
Definition mldsa_expanded (bits : Z) (seed : list byte) : psa_status_t + list byte :=
let level := mldsa_bits_to_level bits in
if level <? 0 then inl PSA_ERROR_NOT_SUPPORTED
else if negb (wc_MlDsaKey_Init =? 0) then inl (wc_error_to_psa_status wc_MlDsaKey_Init)
else
  let ret := wc_MlDsaKey_SetParams level in
  if negb (ret =? 0) then inl (wc_error_to_psa_status ret)
  else
    let '(ret, pub) := wc_MlDsaKey_MakeKeyFromSeed level seed in
    if negb (ret =? 0) then inl (wc_error_to_psa_status ret) else inr pub.

Definition mldsa_seed_check (bits : Z) (seed : list byte) : psa_status_t :=
match mldsa_expanded bits seed with inl e => e | inr _ => PSA_SUCCESS end.

Definition wolfpsa_mldsa_export_public (bits : Z) (seed : list byte) (out_size : Z) : output :=
if negb (fits_word32 out_size) then (PSA_ERROR_INVALID_ARGUMENT, [])
else
  match mldsa_expanded bits seed with
  | inl e => (e, [])
  | inr pub =>
      let level := mldsa_bits_to_level bits in
      let pub_size := wc_MlDsaKey_PubSize level in
      if pub_size <? 0 then failed pub_size
      else if out_size <? pub_size then (PSA_ERROR_BUFFER_TOO_SMALL, [])
      else
        let '(ret, out) := wc_MlDsaKey_ExportPubRaw level pub out_size in
        checked ret (PSA_SUCCESS, out)
  end.

(** wolfCrypt's expansion of a seed: the public key, or the return code. *)
Definition mlkem_expanded (type : Z) (seed : list byte) : Z + list byte :=
if negb (wc_MlKemKey_Init type =? 0) then inl (wc_MlKemKey_Init type)
else
  let '(ret, pub) := wc_MlKemKey_MakeKeyWithRandom type seed in
  if negb (ret =? 0) then inl ret else inr pub.

Definition mlkem_seed_check (bits : Z) (seed : list byte) : psa_status_t :=
match mlkem_expanded (mlkem_bits_to_type bits) seed with
| inl ret => wc_error_to_psa_status ret
| inr _ => PSA_SUCCESS
end.

Definition wolfpsa_mlkem_export_public (bits : Z) (seed : list byte) (out_size : Z) : output :=
let type := mlkem_bits_to_type bits in
if type <? 0 then (PSA_ERROR_NOT_SUPPORTED, [])
else
  match mlkem_expanded type seed with
  | inl ret => failed ret
  | inr pub =>
      let '(ret, pubSz) := wc_MlKemKey_PublicKeySize type in
      checked ret (
      if out_size <? pubSz then (PSA_ERROR_BUFFER_TOO_SMALL, [])
      else
        let '(ret, out) := wc_MlKemKey_EncodePublicKey type pub pubSz in
        checked ret (PSA_SUCCESS, take (Z.to_nat pubSz) out))
  end.
End Generation.
End Gen.

(** * The backend of the key store *)

Section Backend.
Context {C : Config} {E : WolfCryptErr} {K : WolfCryptKeys} {R : WolfCryptRng}.
Context {R1 : WolfCryptRsa K} {E1 : WolfCryptEcc} {W1 : WolfCryptEdwards} {Q1 : WolfCryptMlDsa}.
Context {WK : WolfCryptMlKem} {G : WolfCryptKeyGen K E1}.

(** The size of the buffer for the public key in [psa_generate_key]. *)
Definition ecc_pub_buf_size (key_type key_bits : Z) : Z :=
if PSA_KEY_TYPE_ECC_GET_FAMILY key_type =? PSA_ECC_FAMILY_MONTGOMERY then PSA_BITS_TO_BYTES key_bits
else PSA_KEY_EXPORT_ECC_PUBLIC_KEY_MAX_SIZE key_bits.

(** The key store passes buffers for both keys of a pair, but none for the public
  key of RSA. *)
#[global] Instance wolfcrypt_key_backend : KeyBackend := {|
  psa_asymmetric_generate_key_rsa := fun n t b sz => Gen.psa_asymmetric_generate_key_rsa n t b sz false 0;
  psa_asymmetric_generate_key_ecc := fun n t b sz =>
    Gen.psa_asymmetric_generate_key_ecc n t b sz true (ecc_pub_buf_size t b);
  psa_asymmetric_generate_key_ed25519 := fun n t b sz =>
    Gen.psa_asymmetric_generate_key_ed25519 n t b sz (ecc_pub_buf_size t b);
  psa_asymmetric_generate_key_ed448 := fun n t b sz =>
    Gen.psa_asymmetric_generate_key_ed448 n t b sz (ecc_pub_buf_size t b);
  psa_asymmetric_generate_key_x25519 := fun n t b sz =>
    Gen.psa_asymmetric_generate_key_x25519 n t b sz true (ecc_pub_buf_size t b);
  psa_asymmetric_generate_key_x448 := fun n t b sz =>
    Gen.psa_asymmetric_generate_key_x448 n t b sz true (ecc_pub_buf_size t b);
  mldsa_level := mldsa_bits_to_level;
  mldsa_seed_status := Gen.mldsa_seed_check;
  mlkem_set := mlkem_bits_to_type;
  mlkem_seed_status := Gen.mlkem_seed_check;
  psa_asymmetric_export_public_key_ecc := Gen.psa_asymmetric_export_public_key_ecc;
  psa_asymmetric_export_public_key_ed25519 := Gen.psa_asymmetric_export_public_key_ed25519;
  psa_asymmetric_export_public_key_ed448 := Gen.psa_asymmetric_export_public_key_ed448;
  psa_asymmetric_export_public_key_x25519 := Gen.psa_asymmetric_export_public_key_x25519;
  psa_asymmetric_export_public_key_x448 := Gen.psa_asymmetric_export_public_key_x448;
  wolfpsa_mldsa_export_public := fun b d _ sz => Gen.wolfpsa_mldsa_export_public b d sz;
  wolfpsa_mlkem_export_public := fun b d _ sz => Gen.wolfpsa_mlkem_export_public b d sz;
  wc_NewRsaKey := wc_NewRsaKey_object;
  wc_RsaPrivateKeyDecode_ret := fun d => (wc_RsaPrivateKeyDecode d).1;
  KeyStore.wc_RsaEncryptSize := fun d => WolfSign.wc_RsaEncryptSize (wc_RsaPrivateKeyDecode d).2.2;
  wc_RsaFlattenPublicKey := fun d => wc_RsaFlatten (wc_RsaPrivateKeyDecode d).2.2 |}.
End Backend.
