(* ===== verification/SignBackends.v ===== *)
(** The backends of the asymmetric API put together: they implement the interface
    of [SignIface.v], with the validity of RSA, ECDSA, Edwards-curve, ML-DSA, LMS
    and XMSS signatures as that of the claims.

    At the end the API on top of its backends: what a verified signature is, by the
    type of the key, down to the schemes of wolfCrypt. *)

From stdpp Require Import base decidable list.
From Stdlib Require Import ZArith Lia.
From Stdlib Require Import Strings.Byte.
From S2P Require Import Prelude.
From S2P Require Import Values.
From S2P Require Import Engine.
From S2P Require Import WolfCrypt.
From S2P Require Import KeyPolicy.
From S2P Require Import KeyFormat.
From S2P Require Import StoreIface.
From S2P Require Import Library.
From S2P Require Import KeyStore.
From S2P Require Import KeyStoreRules.
From S2P Require Import Operation.
From S2P Require Import Hash.
From S2P Require Import HashSpec.
From S2P Require Import ImportRules.
From S2P Require Import KeyStoreSpec.
From S2P Require Import KeyStoreCalls.
From S2P Require Import KeyStoreInv.
From S2P Require Import KeyReaders.
From S2P Require Import AsymValues.
From S2P Require Import WolfSign.
From S2P Require Import WolfPkc.
From S2P Require Import SignIface.
From S2P Require Import Sign.
From S2P Require Import SignRules.
From S2P Require Import SignSpec.
From S2P Require Import Rsa.
From S2P Require Import RsaSpec.
From S2P Require Import Ecc.
From S2P Require Import Edwards.
From S2P Require Import MlDsa.
From S2P Require Import LmsXmss.

#[local] Open Scope Z_scope.

Section Backends.
Context {C : Config} {E : WolfCryptErr} {EO : WolfCryptErrOk E} {K : WolfCryptKeys} {R : WolfCryptRng}.
Context {M1 : WolfCryptMisc} {M2 : WolfCryptMiscOk M1} {D1 : WolfCryptDigest}.
Context {R1 : WolfCryptRsa K} {R2 : WolfCryptRsaOk K R1} {E1 : WolfCryptEcc} {E2 : WolfCryptEccOk K E1}.
Context {W1 : WolfCryptEdwards} {W2 : WolfCryptEdwardsOk W1}.
Context {Q1 : WolfCryptMlDsa} {Q2 : WolfCryptMlDsaOk Q1} {S1 : WolfCryptStateful} {S2 : WolfCryptStatefulOk S1}.
Context {O : StoreOps} {L : StoreLaws O} {B : KeyBackend} {Op : Type}.

#[global] Instance wolfcrypt_backend : SignBackend O Op := {|
  sign_rsa := psa_asymmetric_sign_rsa;
  verify_rsa := psa_asymmetric_verify_rsa;
  encrypt_rsa := psa_asymmetric_encrypt_rsa;
  decrypt_rsa := psa_asymmetric_decrypt_rsa;
  sign_ecc := psa_asymmetric_sign_ecc;
  verify_ecc := psa_asymmetric_verify_ecc;
  sign_ed25519 := psa_asymmetric_sign_ed25519;
  verify_ed25519 := psa_asymmetric_verify_ed25519;
  sign_ed448 := psa_asymmetric_sign_ed448;
  verify_ed448 := psa_asymmetric_verify_ed448;
  mldsa_sign := wolfpsa_mldsa_sign;
  mldsa_verify := wolfpsa_mldsa_verify;
  lms_verify := wolfpsa_lms_verify;
  xmss_verify := wolfpsa_xmss_verify |}.

(** * Public keys *)

Inductive public : Type :=
| PubRsa (key : mp_int * mp_int)
| PubEcc (curve bits : Z) (point : ecc_point)
| PubEdwards (bits : Z) (key : list byte)
| PubMlDsa (bits : Z) (key : list byte)
| PubLms (key : list byte)
| PubXmss (key : list byte).

Definition twisted_edwards (type : Z) : bool :=
(type =? TWISTED_EDWARDS_KEY_PAIR) || (type =? TWISTED_EDWARDS_PUBLIC_KEY).

Definition public_of (type bits : Z) (key : list byte) : public :=
if PSA_KEY_TYPE_IS_RSA type then PubRsa (rsa_decode type key).2.2
else if twisted_edwards type then PubEdwards bits (ed_public (bits =? 448) type key)
else if PSA_KEY_TYPE_IS_ECC type then
  let curve := wc_psa_get_ecc_curve_id type bits in
  PubEcc curve bits (ecc_loaded_point type key curve)
else if PSA_KEY_TYPE_IS_ML_DSA type then PubMlDsa bits (mldsa_public (mldsa_bits_to_level bits) type key)
else if is_lms_type type then PubLms key else PubXmss key.

(** What a signature under each of them states. *)
Definition sig_valid (c : claim public) (sig : list byte) : Prop :=
match cl_public c with
| PubRsa pub => rsa_valid pub (cl_alg c) (cl_input c) sig
| PubEcc curve bits point =>
    ecc_valid curve point bits (cl_input c) sig /\
    PSA_ALG_IS_ECDSA (cl_alg c) || PSA_ALG_IS_DETERMINISTIC_ECDSA (cl_alg c) = true
| PubEdwards bits pub => edwards_valid bits (cl_alg c) pub (cl_context c) (cl_input c) sig
| PubMlDsa bits pub => mldsa_sig_valid bits (cl_alg c) pub (cl_context c) (cl_input c) sig
| PubLms pub => lms_valid pub (cl_input c) sig
| PubXmss pub => xmss_any_valid pub (cl_input c) sig
end.

(** Which signatures a key can check. *)
Definition key_verifier (type bits : Z) (key : list byte) (alg : Z) (ctx inp : list byte) : Prop :=
if PSA_KEY_TYPE_IS_RSA type then rsa_verifier type key alg inp
else if twisted_edwards type then is_edwards_type type = true /\ edwards_verifier type bits key inp
else if PSA_KEY_TYPE_IS_ECC type then ecc_verifier type bits key alg inp
else if PSA_KEY_TYPE_IS_ML_DSA type then mldsa_verifier type bits key inp
else if is_lms_type type then lms_verifier key inp else xmss_verifier key inp.

Definition text_encrypts (pub : public) (alg : Z) (label m c : list byte) : Prop :=
match pub with PubRsa pub => rsa_enc pub alg label m c | _ => False end.

(** * The kinds of key types exclude each other *)

Lemma ecc_not_rsa type : PSA_KEY_TYPE_IS_ECC type = true -> PSA_KEY_TYPE_IS_RSA type = false.
Proof.
unfold PSA_KEY_TYPE_IS_ECC, PSA_KEY_TYPE_IS_RSA. rewrite Z.eqb_eq. intros H.
apply Z.eqb_neq. intros Hr. by rewrite Hr in H.
Qed.

Lemma mldsa_not_others type :
PSA_KEY_TYPE_IS_ML_DSA type = true ->
PSA_KEY_TYPE_IS_RSA type = false /\ twisted_edwards type = false /\ PSA_KEY_TYPE_IS_ECC type = false.
Proof.
unfold PSA_KEY_TYPE_IS_ML_DSA, PSA_KEY_TYPE_IS_RSA, PSA_KEY_TYPE_IS_ECC, twisted_edwards.
rewrite Z.eqb_eq. intros H. rewrite H. split_and!; [done| |done].
apply orb_false_intro; apply Z.eqb_neq; intros ->; discriminate H.
Qed.

Lemma stateful_not_others type :
is_lms_type type = true \/ is_xmss_type type = true ->
PSA_KEY_TYPE_IS_RSA type = false /\ twisted_edwards type = false /\ PSA_KEY_TYPE_IS_ECC type = false /\
PSA_KEY_TYPE_IS_ML_DSA type = false.
Proof.
unfold is_lms_type, is_xmss_type. rewrite !orb_true_iff, !Z.eqb_eq.
by intros [[->| ->]|[->| ->]].
Qed.

(** The two base types share the bits outside the curve. *)
Lemma ecc_pair_type type :
PSA_KEY_TYPE_IS_ECC_KEY_PAIR type = true ->
PSA_KEY_TYPE_IS_ECC type = true /\ PSA_KEY_TYPE_IS_KEY_PAIR type = true /\
PSA_KEY_TYPE_IS_ECC_PUBLIC_KEY type = false.
Proof.
unfold PSA_KEY_TYPE_IS_ECC_KEY_PAIR, PSA_KEY_TYPE_IS_ECC, PSA_KEY_TYPE_IS_KEY_PAIR,
  PSA_KEY_TYPE_IS_ECC_PUBLIC_KEY, PSA_KEY_TYPE_PUBLIC_KEY_OF_KEY_PAIR.
rewrite !Z.eqb_eq. intros H. split_and!.
- rewrite <- Z.land_assoc, (Z.land_comm (Z.lnot _)), Z.land_assoc, H. done.
- transitivity (Z.land (Z.land type (Z.lnot PSA_KEY_TYPE_ECC_CURVE_MASK)) PSA_KEY_TYPE_CATEGORY_MASK).
  + by rewrite <- Z.land_assoc.
  + by rewrite H.
- by rewrite H.
Qed.

(** * From the promises of the backends to the laws *)

Notation signs := (SignIface.signs (O := O) (Op := Op) public_of sig_valid).
Notation verifies := (SignIface.verifies (O := O) (Op := Op) public_of sig_valid key_verifier).

Lemma signs_of m type bits key alg ctx inp size (Good : list byte -> Prop) :
WolfSign.bwp m (bytes_post Good) True ->
(forall sig, Good sig -> sig_valid (claim_of public_of type bits key alg ctx inp) sig /\ 0 < zlen sig <= size /\
   PSA_KEY_TYPE_IS_KEY_PAIR type = true) ->
signs m type bits key alg ctx inp size.
Proof.
intros Hm Hg s. eapply wp_mono; [apply Hm|]. intros r s' [Hr [H1 H2]]. split_and!; [done| |done].
intros Hst. by apply Hg, H1.
Qed.

Lemma verifies_of m type bits key alg ctx inp sig (V A : Prop) :
WolfSign.bwp m (verdict_post V A) True ->
(V <-> sig_valid (claim_of public_of type bits key alg ctx (input_bytes inp)) sig) ->
(key_verifier type bits key alg ctx (input_bytes inp) -> A) ->
verifies m type bits key alg ctx inp sig.
Proof.
intros Hm Hv Ha s. eapply wp_mono; [apply Hm|]. intros st s' [Hr [H1 H2]]. split_and!; [done| |].
- intros Hst. by apply Hv, H1.
- intros Hrd _ Hk%Ha Hs%Hv. auto.
Qed.

Lemma rsa_signs_law type bits key alg h buf size :
signs (psa_asymmetric_sign_rsa type bits key alg (Bytes h) buf size)
  type bits key alg [] h size.
Proof.
eapply signs_of; [apply rsa_signs|]. intros sig (Hv & Hs & ->). done.
Qed.

Lemma rsa_verifies_law type bits key alg h sig :
PSA_KEY_TYPE_IS_RSA type = true -> null_empty h ->
verifies (psa_asymmetric_verify_rsa type bits key alg h sig)
  type bits key alg [] h sig.
Proof.
intros Ht Hn. eapply verifies_of; [by apply rsa_verifies| |].
- unfold sig_valid, claim_of, public_of. cbn [cl_public cl_alg cl_input]. by rewrite Ht.
- unfold key_verifier. by rewrite Ht.
Qed.

Lemma ecc_signs_law type bits key alg h buf size :
signs (psa_asymmetric_sign_ecc type bits key alg (Bytes h) buf size)
  type bits key alg [] h size.
Proof.
eapply signs_of; [apply ecc_signs|]. intros sig (Hv & Hs & Hty & Halg & Hcurve).
destruct (ecc_pair_type _ Hty) as (Hecc & Hpair & Hpub).
unfold sig_valid, claim_of, public_of. cbn [cl_public cl_alg cl_input].
rewrite (ecc_not_rsa _ Hecc), Hecc.
replace (twisted_edwards type) with false.
2: { symmetry. apply orb_false_intro; apply Z.eqb_neq; intros ->; apply Hcurve, edwards_no_curve; auto. }
unfold ecc_loaded_point. rewrite Hpub. split_and!; [done|done| |done|done].
destruct Hv as [Hlen _]. pose proof (curve_bits _ _ Hcurve). lia.
Qed.

Lemma ecc_verifies_law type bits key alg h sig :
PSA_KEY_TYPE_IS_ECC type = true -> is_edwards_type type = false -> null_empty h ->
verifies (psa_asymmetric_verify_ecc type bits key alg h sig)
  type bits key alg [] h sig.
Proof.
intros Ht Hed Hn. destruct (twisted_edwards type) eqn:Htw.
- assert (Hc : wc_psa_get_ecc_curve_id type bits = ECC_CURVE_INVALID).
  { apply edwards_no_curve. unfold twisted_edwards in Htw. by rewrite orb_true_iff, !Z.eqb_eq in Htw. }
  apply (verifies_of _ _ _ _ _ _ _ _ (sig_valid (claim_of public_of type bits key alg [] (input_bytes h)) sig) False);
    [by apply ecc_no_curve|done|].
  unfold key_verifier. rewrite (ecc_not_rsa _ Ht), Htw. intros [? _]. congruence.
- eapply verifies_of; [by apply ecc_verifies| |].
  + unfold sig_valid, claim_of, public_of. cbn [cl_public cl_alg cl_input]. by rewrite (ecc_not_rsa _ Ht), Htw, Ht.
  + unfold key_verifier. by rewrite (ecc_not_rsa _ Ht), Htw, Ht.
Qed.

(** ** Edwards curves *)

Lemma twisted_public type bits key :
type = TWISTED_EDWARDS_KEY_PAIR \/ type = TWISTED_EDWARDS_PUBLIC_KEY ->
public_of type bits key = PubEdwards bits (ed_public (bits =? 448) type key).
Proof. by intros [->| ->]. Qed.

Lemma twisted_type type : is_edwards_type type = true -> type = TWISTED_EDWARDS_KEY_PAIR \/ type = TWISTED_EDWARDS_PUBLIC_KEY.
Proof. unfold is_edwards_type. rewrite andb_true_iff, !orb_true_iff, !Z.eqb_eq. by intros [_ ?]. Qed.

Lemma edwards_signs_of m type bits key alg h size ctx :
WolfSign.bwp m (bytes_post (edwards_good bits alg key (input_bytes ctx) h type size)) True ->
signs m type bits key alg (input_bytes ctx) h size.
Proof.
intros Hm. eapply signs_of; [exact Hm|]. intros sig (Hv & Hs & ->).
unfold sig_valid, claim_of. rewrite twisted_public by auto. cbn [cl_public cl_alg cl_input cl_context].
unfold ed_public. rewrite Z.eqb_refl. split; [done|]. by split.
Qed.

Lemma edwards_verifies_of m type bits key alg h sig ctx :
is_edwards_type type = true ->
WolfSign.bwp m (edwards_verdict bits alg type key (input_bytes ctx) (input_bytes h) sig) True ->
verifies m type bits key alg (input_bytes ctx) h sig.
Proof.
intros Ht Hm. pose proof (twisted_type _ Ht) as Htw. eapply verifies_of; [exact Hm| |].
- unfold sig_valid, claim_of. by rewrite twisted_public.
- unfold key_verifier. by destruct Htw as [->| ->]; intros [_ ?].
Qed.

Lemma ed25519_signs_law type bits key alg h buf size ctx :
null_empty ctx ->
signs (psa_asymmetric_sign_ed25519 type bits key alg (Bytes h) buf size ctx)
  type bits key alg (input_bytes ctx) h size.
Proof. intros Hc. by apply edwards_signs_of, ed25519_signs. Qed.

Lemma ed25519_verifies_law type bits key alg h sig ctx :
is_edwards_type type = true -> bits = 255 -> null_empty h -> null_empty ctx ->
verifies (psa_asymmetric_verify_ed25519 type bits key alg h sig ctx)
  type bits key alg (input_bytes ctx) h sig.
Proof. intros Ht -> Hn Hc. by apply edwards_verifies_of, ed25519_verifies. Qed.

Lemma ed448_signs_law type bits key alg h buf size ctx :
null_empty ctx ->
signs (psa_asymmetric_sign_ed448 type bits key alg (Bytes h) buf size ctx)
  type bits key alg (input_bytes ctx) h size.
Proof. intros Hc. by apply edwards_signs_of, ed448_signs. Qed.

Lemma ed448_verifies_law type bits key alg h sig ctx :
is_edwards_type type = true -> bits = 448 -> null_empty h -> null_empty ctx ->
verifies (psa_asymmetric_verify_ed448 type bits key alg h sig ctx)
  type bits key alg (input_bytes ctx) h sig.
Proof. intros Ht -> Hn Hc. by apply edwards_verifies_of, ed448_verifies. Qed.

(** ** ML-DSA *)

Lemma mldsa_public_of type bits key :
PSA_KEY_TYPE_IS_ML_DSA type = true ->
public_of type bits key = PubMlDsa bits (mldsa_public (mldsa_bits_to_level bits) type key).
Proof.
intros Ht. unfold public_of. destruct (mldsa_not_others _ Ht) as (-> & -> & ->). by rewrite Ht.
Qed.

Lemma mldsa_signs_law bits key alg ctx h hashed buf size :
null_empty ctx -> hashed = negb (PSA_ALG_IS_ML_DSA alg) ->
signs (wolfpsa_mldsa_sign bits key alg ctx (Bytes h) hashed buf size)
  PSA_KEY_TYPE_ML_DSA_KEY_PAIR bits key alg (input_bytes ctx) h size.
Proof.
intros Hc Hh. eapply signs_of; [by apply mldsa_signs|]. intros sig [Hv Hs].
unfold sig_valid, claim_of. by rewrite mldsa_public_of.
Qed.

Lemma mldsa_verifies_law bits type key alg ctx h hashed sig :
PSA_KEY_TYPE_IS_ML_DSA type = true -> null_empty h -> null_empty ctx ->
hashed = negb (PSA_ALG_IS_ML_DSA alg) ->
verifies (wolfpsa_mldsa_verify bits type key alg ctx h hashed sig) type bits key alg (input_bytes ctx) h sig.
Proof.
intros Ht Hn Hc Hh. eapply verifies_of; [by apply mldsa_verifies| |].
- unfold sig_valid, claim_of. by rewrite mldsa_public_of.
- unfold key_verifier. destruct (mldsa_not_others _ Ht) as (-> & -> & ->). by rewrite Ht.
Qed.

(** ** LMS and XMSS *)

Lemma lms_verifies_law type bits key alg h sig :
null_empty h -> is_lms_type type = true ->
verifies (wolfpsa_lms_verify key h sig) type bits key alg [] h sig.
Proof.
intros Hn Ht. destruct (stateful_not_others type (or_introl Ht)) as (H1 & H2 & H3 & H4).
eapply verifies_of; [by apply lms_verify_spec| |].
- unfold sig_valid, claim_of, public_of. by rewrite H1, H2, H3, H4, Ht.
- unfold key_verifier. by rewrite H1, H2, H3, H4, Ht.
Qed.

Lemma xmss_not_lms type : is_xmss_type type = true -> is_lms_type type = false.
Proof. unfold is_lms_type, is_xmss_type. rewrite orb_true_iff, !Z.eqb_eq. by intros [->| ->]. Qed.

Lemma xmss_verifies_law type bits key alg h sig :
null_empty h -> is_xmss_type type = true ->
verifies (wolfpsa_xmss_verify key h sig) type bits key alg [] h sig.
Proof.
intros Hn Ht. destruct (stateful_not_others type (or_intror Ht)) as (H1 & H2 & H3 & H4).
eapply verifies_of; [by apply xmss_verify_spec| |].
- unfold sig_valid, claim_of, public_of. by rewrite H1, H2, H3, H4, (xmss_not_lms _ Ht).
- unfold key_verifier. by rewrite H1, H2, H3, H4, (xmss_not_lms _ Ht).
Qed.

(** ** RSA encryption *)

Lemma rsa_encrypts_law type bits key alg inp salt buf size :
null_empty salt ->
encrypting (O := O) (Op := Op) public_of text_encrypts
  (psa_asymmetric_encrypt_rsa type bits key alg inp salt buf size) type bits key alg inp salt size.
Proof.
intros Hs s. eapply wp_mono; [by apply (rsa_encrypts type bits key alg inp salt buf size True)|].
intros r s' [Hr [H1 H2]]. split_and!; [done| |done]. intros Hst. destruct (H1 Hst) as (He & Hsz & Hty).
split; [|done]. by destruct Hty as [->| ->].
Qed.

Lemma rsa_decrypts_law type bits key alg inp salt buf size :
null_empty salt ->
decrypting (O := O) (Op := Op) public_of text_encrypts (fun type _ key alg => rsa_decrypter type key alg)
  (psa_asymmetric_decrypt_rsa type bits key alg inp salt buf size) type bits key alg inp salt size.
Proof.
intros Hs s. eapply wp_mono; [by apply (rsa_decrypts type bits key alg inp salt buf size)|].
intros r s' [Hr (H1 & H2 & H3)]. split_and!; [done| |done|].
- intros Hst. destruct (H1 Hst) as ([He ->] & Hsz). by split_and!.
- intros plain Hrd Hn Hd Henc Hsz. apply H3; [done|done| |done].
  destruct Hd as (Hno & -> & Hd). split; [exact Henc|done].
Qed.

#[global] Instance wolfcrypt_backend_ok : SignBackendOk wolfcrypt_backend := {|
  public_part := public_of;
  valid_sig := sig_valid;
  verifier := key_verifier;
  encrypts := text_encrypts;
  decrypter := fun type _ key alg => rsa_decrypter type key alg;
  signs_rsa := rsa_signs_law;
  verifies_rsa := rsa_verifies_law;
  encrypting_rsa := rsa_encrypts_law;
  decrypting_rsa := rsa_decrypts_law;
  signs_ecc := ecc_signs_law;
  verifies_ecc := ecc_verifies_law;
  signs_ed25519 := ed25519_signs_law;
  verifies_ed25519 := ed25519_verifies_law;
  signs_ed448 := ed448_signs_law;
  verifies_ed448 := ed448_verifies_law;
  signs_mldsa := mldsa_signs_law;
  verifies_mldsa := mldsa_verifies_law;
  verifies_lms := lms_verifies_law;
  verifies_xmss := xmss_verifies_law |}.
End Backends.

(** * The API on top of its backends *)

Section Props.
Context {C : Config} {E : WolfCryptErr} {EO : WolfCryptErrOk E} {K : WolfCryptKeys} {R : WolfCryptRng}.
Context {M1 : WolfCryptMisc} {M2 : WolfCryptMiscOk M1} {D1 : WolfCryptDigest}.
Context {H1 : WolfCryptHash} {H2 : WolfCryptHashOk H1}.
Context {R1 : WolfCryptRsa K} {R2 : WolfCryptRsaOk K R1} {E1 : WolfCryptEcc} {E2 : WolfCryptEccOk K E1}.
Context {W1 : WolfCryptEdwards} {W2 : WolfCryptEdwardsOk W1}.
Context {Q1 : WolfCryptMlDsa} {Q2 : WolfCryptMlDsaOk Q1} {S1 : WolfCryptStateful} {S2 : WolfCryptStatefulOk S1}.
Context {O : StoreOps} {L : StoreLaws O} {B : KeyBackend}.
Context {ROK : WolfCryptRngOk R} {BOK : KeyBackendOk} {HS : WolfCryptHashSizes H2}.

Implicit Types s : opstate O psa_hash_operation_ctx.

(** C20: A verification that succeeds has checked the scheme that the type of the
  stored key calls for, on exactly what the algorithm signs of the caller's data
  and context: PKCS#1 v1.5 or PSS by the padding of the algorithm for RSA, the
  variant of RFC 8032 that algorithm and curve select, ECDSA on r and s read as
  big-endian integers of the curve's size, the level and hash of FIPS 204, LMS,
  or XMSS of one of its two families. *)
Theorem verified_by_scheme m key alg inp ctx sig s s' :
store_inv (op_lib s) -> null_empty ctx ->
api_verify m key alg inp ctx (Bytes sig) s = (PSA_SUCCESS, s') ->
exists a d, table (op_lib s) key = Some (a, d) /\
let type := attr_type a in let bits := attr_bits a in
let signed := signed_input m type alg (input_bytes inp) in
(PSA_KEY_TYPE_IS_RSA type = true -> rsa_valid (rsa_decode type d).2.2 alg signed sig) /\
(is_edwards_type type = true ->
 edwards_valid bits alg (ed_public (bits =? 448) type d) (input_bytes ctx) signed sig) /\
(PSA_KEY_TYPE_IS_ECC type = true -> twisted_edwards type = false ->
 let curve := wc_psa_get_ecc_curve_id type bits in
 ecc_valid curve (ecc_loaded_point type d curve) bits signed sig /\ PSA_ALG_IS_ECDSA alg = true) /\
(is_mldsa_type type = true ->
 mldsa_sig_valid bits alg (mldsa_public (mldsa_bits_to_level bits) type d) (input_bytes ctx) signed sig) /\
(is_lms_type type = true -> lms_valid d signed sig) /\
(is_xmss_type type = true -> xmss_any_valid d signed sig).
Proof.
intros Hi Hctx Hrun.
destruct (wp_run _ _ _ _ _ Hrun (wp_api_verify m key alg inp ctx (Bytes sig) s Hi Hctx)) as (_ & Hok & _).
destruct (Hok eq_refl) as (a & d & Ht & _ & Hv). exists a, d. split; [done|]. cbv zeta.
set (signed := signed_input _ _ _ _) in *. set (type := attr_type a) in *.
unfold key_claim, claim_of in Hv. fold type in Hv.
change (sig_valid (mkClaim (PSA_KEY_TYPE_PUBLIC_KEY_OF_KEY_PAIR type) (attr_bits a)
  (public_of type (attr_bits a) d) alg (bound_context type ctx) signed) sig) in Hv.
unfold sig_valid in Hv. cbn [cl_public cl_alg cl_context cl_input] in Hv. split_and!.
- intros Hty. unfold public_of in Hv. by rewrite Hty in Hv.
- intros Hty. rewrite twisted_public in Hv by (by apply twisted_type). unfold bound_context in Hv.
  by rewrite Hty, orb_true_r in Hv.
- intros Hty Hed. unfold public_of in Hv. rewrite (ecc_not_rsa _ Hty), Hed, Hty in Hv.
  destruct Hv as [Hv Halg]. split; [done|]. unfold PSA_ALG_IS_DETERMINISTIC_ECDSA in Halg.
  by destruct (PSA_ALG_IS_ECDSA alg).
- intros Hty. unfold bound_context in Hv. rewrite Hty in Hv. apply andb_true_iff in Hty as [_ Hty].
  by rewrite mldsa_public_of in Hv.
- intros Hty. destruct (stateful_not_others type (or_introl Hty)) as (H3 & H4 & H5 & H6).
  unfold public_of in Hv. by rewrite H3, H4, H5, H6, Hty in Hv.
- intros Hty. destruct (stateful_not_others type (or_intror Hty)) as (H3 & H4 & H5 & H6).
  unfold public_of in Hv. by rewrite H3, H4, H5, H6, (xmss_not_lms _ Hty) in Hv.
Qed.

(** * Deviations *)

(** An algorithm of no RSA family is treated as PKCS#1 v1.5, because 0, which the
  code gives for such, is that padding's number in wolfCrypt: an RSA key whose
  policy has an ECDSA algorithm makes PKCS#1 v1.5 signatures. *)
Lemma ecdsa_alg_signs_pkcs1 n key hash size :
WC_RSA_PKCSV15_PAD = 0 ->
let alg := PSA_ALG_ECDSA PSA_ALG_SHA_256 in
PSA_ALG_IS_RSA_PKCS1V15_SIGN alg = false /\ wc_psa_get_rsa_padding alg = WC_RSA_PKCSV15_PAD /\
rsa_sign_padded (O := O) (Op := psa_hash_operation_ctx) n key alg hash size
= rsa_sign_padded n key (Z.lor 0x06000200 0x09) hash size.
Proof.
intros Hz. cbv zeta. assert (Hp : forall alg, (alg = PSA_ALG_ECDSA PSA_ALG_SHA_256 \/ alg = Z.lor 0x06000200 0x09) ->
  wc_psa_get_rsa_padding alg = WC_RSA_PKCSV15_PAD).
{ intros alg [->| ->]; unfold wc_psa_get_rsa_padding; destruct NO_RSA; rewrite ?Hz; done. }
split_and!; [done|by apply Hp; left|].
unfold rsa_sign_padded. by rewrite !Hp, Z.eqb_refl by auto.
Qed.

(** The type of the key does not select the family of XMSS: a key whose OID is
  known as one of XMSS, as the numbers of the two families overlap, is used as
  an XMSS key, and signatures of XMSS^MT under it do not verify. *)
Lemma xmss_mt_key_used_as_xmss pub msg sig :
wc_XmssKey_ImportPubRaw_ex pub false = 0 ->
bwp (O := O) (Op := psa_hash_operation_ctx) (wolfpsa_xmss_verify pub (Bytes msg) sig)
  (fun Q st => Q -> st = PSA_SUCCESS -> xmss_valid false pub msg sig) True.
Proof.
intros Hz. set (Post := fun (Q : Prop) (st : psa_status_t) => _).
assert (Hl : lax Post) by (unfold lax, Post; intros; auto).
unfold wolfpsa_xmss_verify. destruct (_ || _) eqn:Hw; [by apply bwp_ret|].
rewrite !orb_false_iff, !negb_false_iff, !fits_word32_spec in Hw. destruct Hw as [[_ Hm] _].
cbn [xmss_import]. apply bwp_assoc, bwp_call; [done| |].
2: { intros ret Hne. rewrite (proj2 (Z.eqb_neq ret 0)) by done. apply bwp_ret_bind, bwp_ret; [done|]. by intros []. }
cbn [Z.eqb negb]. apply bwp_assoc. rewrite Hz. destruct wc_negative as (_ & Hn1 & _ & Hn2).
apply bwp_code; [done| |].
2: { intros ret Hneg. assert (Hend : forall (r : psa_status_t + bool) (Q : Prop), (Q -> False) ->
       bwp (O := O) (Op := psa_hash_operation_ctx) (match r with
       | inl e => mret e
       | inr is_xmssmt =>
           ret ← wc_code (wc_XmssKey_Verify pub is_xmssmt sig msg (to_int (zlen msg)));
           mret (stateful_status ret)
       end) Post Q).
     { intros [e|mt] Q Hq; [by apply bwp_ret; [|intros ?%Hq]|].
       apply bwp_code; [done| |intros z Hneg']; (apply bwp_ret; [done|]); [by intros ?%Hq|by intros []]. }
     destruct ((ret =? NOT_COMPILED_IN) || _).
     - eapply bwp_bind; [done|apply bwp_xmss_import_last|]. intros Q r HQ _. by apply Hend.
     - rewrite (proj2 (Z.eqb_neq ret 0)) by lia. apply bwp_ret_bind. by apply (Hend (inl _)). }
rewrite (proj2 (Z.eqb_neq 0 NOT_COMPILED_IN)), (proj2 (Z.eqb_neq 0 BUFFER_E)) by lia. cbn [orb Z.eqb negb].
apply bwp_ret_bind, bwp_code; [done| |].
- apply bwp_ret; [done|]. intros _ Hst%stateful_status_success. by apply xmss_verifies.
- intros ret Hneg. apply bwp_ret; [done|]. by intros [].
Qed.
End Props.
