(* ===== verification/KeyWrap.v ===== *)
(** Key wrapping: [src/psa_key_wrap.c], with the size macros it takes from
    [wolfpsa/psa/crypto_sizes.h].

    The object of the running operation is not touched; [Op] is the type of
    whatever operation the caller runs.  The AES key wrap itself (RFC 3394) is
    wolfCrypt's, with its laws in [WolfCryptKeyWrapOk]. *)

From stdpp Require Import base decidable list.
From Stdlib Require Import ZArith Lia.
From Stdlib Require Import Strings.Byte.
From S2P Require Import Prelude.
From S2P Require Import Values.
From S2P Require Import Engine.
From S2P Require Import KeyPolicy.
From S2P Require Import KeyFormat.
From S2P Require Import StoreIface.
From S2P Require Import Library.
From S2P Require Import KeyStore.
From S2P Require Import Operation.

#[local] Open Scope Z_scope.

Definition PSA_ALG_KW : Z := 0x0B400100.
Definition PSA_ALG_KWP : Z := 0x0BC00200.
Definition PSA_ALG_IS_KEY_WRAP (alg : Z) : bool := Z.land alg 0x7f000000 =? 0x0b000000.

(** * Export sizes *)

Definition PSA_KEY_TYPE_DSA_PUBLIC_KEY : Z := 0x4005.
Definition PSA_KEY_TYPE_DSA_KEY_PAIR : Z := 0x7005.
Definition PSA_KEY_EXPORT_DSA_PUBLIC_KEY_MAX_SIZE (key_bits : Z) : Z :=
  PSA_KEY_EXPORT_ASN1_INTEGER_MAX_SIZE key_bits * 3 + 59.
Definition PSA_KEY_EXPORT_DSA_KEY_PAIR_MAX_SIZE (key_bits : Z) : Z :=
  PSA_KEY_EXPORT_ASN1_INTEGER_MAX_SIZE key_bits * 3 + 75.
Definition PSA_KEY_EXPORT_FFDH_KEY_PAIR_MAX_SIZE (key_bits : Z) : Z := PSA_BITS_TO_BYTES key_bits.
Definition PSA_KEY_EXPORT_FFDH_PUBLIC_KEY_MAX_SIZE (key_bits : Z) : Z := PSA_BITS_TO_BYTES key_bits.

(** [PSA_KEY_TYPE_ECC_KEY_PAIR(PSA_ECC_FAMILY_MONTGOMERY)] *)
Definition MONTGOMERY_KEY_PAIR : Z := Z.lor PSA_KEY_TYPE_ECC_KEY_PAIR_BASE PSA_ECC_FAMILY_MONTGOMERY.

(** The macro spells the lengths of the post-quantum public keys out again. *)
Definition PSA_EXPORT_KEY_OUTPUT_SIZE (key_type key_bits : Z) : Z :=
  if PSA_KEY_TYPE_IS_UNSTRUCTURED key_type then PSA_BITS_TO_BYTES key_bits
  else if PSA_KEY_TYPE_IS_DH key_type then PSA_BITS_TO_BYTES key_bits
  else if key_type =? PSA_KEY_TYPE_RSA_KEY_PAIR then PSA_KEY_EXPORT_RSA_KEY_PAIR_MAX_SIZE key_bits
  else if key_type =? PSA_KEY_TYPE_RSA_PUBLIC_KEY
  then PSA_KEY_EXPORT_RSA_PUBLIC_KEY_MAX_SIZE key_bits
  else if key_type =? PSA_KEY_TYPE_DSA_KEY_PAIR then PSA_KEY_EXPORT_DSA_KEY_PAIR_MAX_SIZE key_bits
  else if key_type =? PSA_KEY_TYPE_DSA_PUBLIC_KEY
  then PSA_KEY_EXPORT_DSA_PUBLIC_KEY_MAX_SIZE key_bits
  else if key_type =? MONTGOMERY_KEY_PAIR then PSA_BITS_TO_BYTES key_bits
  else if PSA_KEY_TYPE_IS_ECC_KEY_PAIR key_type then PSA_KEY_EXPORT_ECC_KEY_PAIR_MAX_SIZE key_bits
  else if PSA_KEY_TYPE_IS_ECC_PUBLIC_KEY key_type
  then PSA_KEY_EXPORT_ECC_PUBLIC_KEY_MAX_SIZE key_bits
  else if key_type =? PSA_KEY_TYPE_ML_DSA_KEY_PAIR then 32
  else if key_type =? PSA_KEY_TYPE_ML_DSA_PUBLIC_KEY then
    if key_bits =? 128 then 1312 else if key_bits =? 192 then 1952
    else if key_bits =? 256 then 2592 else 0
  else if key_type =? PSA_KEY_TYPE_ML_KEM_KEY_PAIR then 64
  else if key_type =? PSA_KEY_TYPE_ML_KEM_PUBLIC_KEY then
    if key_bits =? 512 then 800 else if key_bits =? 768 then 1184
    else if key_bits =? 1024 then 1568 else 0
  else 0.

(** The [PSA_WANT] symbols that the largest export size depends on, and the
    largest key sizes that they select. *)
Class WantKeyTypes : Set := {
  PSA_WANT_KEY_TYPE_ECC_KEY_PAIR_BASIC : bool;
  PSA_WANT_KEY_TYPE_RSA_KEY_PAIR_BASIC : bool;
  PSA_WANT_KEY_TYPE_DH_KEY_PAIR_BASIC : bool;
  PSA_WANT_KEY_TYPE_ML_KEM : bool;
  PSA_WANT_KEY_TYPE_ML_DSA : bool;
  PSA_WANT_KEY_TYPE_ECC_PUBLIC_KEY : bool;
  PSA_WANT_KEY_TYPE_RSA_PUBLIC_KEY : bool;
  PSA_WANT_KEY_TYPE_DH_PUBLIC_KEY : bool;
  PSA_VENDOR_ECC_MAX_CURVE_BITS : Z;
  PSA_VENDOR_FFDH_MAX_KEY_BITS : Z }.

Section Sizes.
Context {W : WantKeyTypes}.

(** [#if defined(want) && (size > MAX)], [#undef], [#define MAX size]. *)
Definition raise_to (want : bool) (size max : Z) : Z := if want && (max <? size) then size else max.

Definition PSA_EXPORT_KEY_PAIR_MAX_SIZE : Z :=
let m := raise_to PSA_WANT_KEY_TYPE_ECC_KEY_PAIR_BASIC
           (PSA_KEY_EXPORT_ECC_KEY_PAIR_MAX_SIZE PSA_VENDOR_ECC_MAX_CURVE_BITS) 1 in
let m := raise_to PSA_WANT_KEY_TYPE_RSA_KEY_PAIR_BASIC
           (PSA_KEY_EXPORT_RSA_KEY_PAIR_MAX_SIZE PSA_VENDOR_RSA_MAX_KEY_BITS) m in
let m := raise_to PSA_WANT_KEY_TYPE_DH_KEY_PAIR_BASIC
           (PSA_KEY_EXPORT_FFDH_KEY_PAIR_MAX_SIZE PSA_VENDOR_FFDH_MAX_KEY_BITS) m in
let m := raise_to PSA_WANT_KEY_TYPE_ML_KEM 64 m in
raise_to PSA_WANT_KEY_TYPE_ML_DSA 32 m.

Definition PSA_EXPORT_PUBLIC_KEY_MAX_SIZE : Z :=
let m := raise_to PSA_WANT_KEY_TYPE_ECC_PUBLIC_KEY
           (PSA_KEY_EXPORT_ECC_PUBLIC_KEY_MAX_SIZE PSA_VENDOR_ECC_MAX_CURVE_BITS) 1 in
let m := raise_to PSA_WANT_KEY_TYPE_RSA_PUBLIC_KEY
           (PSA_KEY_EXPORT_RSA_PUBLIC_KEY_MAX_SIZE PSA_VENDOR_RSA_MAX_KEY_BITS) m in
let m := raise_to PSA_WANT_KEY_TYPE_DH_PUBLIC_KEY
           (PSA_KEY_EXPORT_FFDH_PUBLIC_KEY_MAX_SIZE PSA_VENDOR_FFDH_MAX_KEY_BITS) m in
let m := raise_to PSA_WANT_KEY_TYPE_ML_DSA 2592 m in
raise_to PSA_WANT_KEY_TYPE_ML_KEM 1568 m.

Definition PSA_EXPORT_KEY_PAIR_OR_PUBLIC_MAX_SIZE : Z :=
if PSA_EXPORT_PUBLIC_KEY_MAX_SIZE <? PSA_EXPORT_KEY_PAIR_MAX_SIZE
then PSA_EXPORT_KEY_PAIR_MAX_SIZE else PSA_EXPORT_PUBLIC_KEY_MAX_SIZE.

(** [plain_max]: the buffer for the exported key. *)
Definition wrap_plain_max (target_attr : psa_key_attributes_t) : Z :=
let plain_max := PSA_EXPORT_KEY_OUTPUT_SIZE (attr_type target_attr) (attr_bits target_attr) in
if plain_max =? 0 then PSA_EXPORT_KEY_PAIR_OR_PUBLIC_MAX_SIZE else plain_max.
End Sizes.

(** * RFC 3394 in wolfCrypt

    Key, input, size of the output buffer; the return value (the number of bytes
    written, or a negative code) and the bytes.  The initial value is the
    default one. *)
Class WolfCryptKeyWrap : Type := {
  wc_AesKeyWrap : list byte -> list byte -> Z -> Z * list byte;
  wc_AesKeyUnWrap : list byte -> list byte -> Z -> Z * list byte;
  BAD_KEYWRAP_IV_E : Z }.

Definition aes_key_size (kek : list byte) : Prop := zlen kek = 16 \/ zlen kek = 24 \/ zlen kek = 32.
(** What RFC 3394 wraps: whole 64-bit blocks, at least two. *)
Definition wrappable (plain : list byte) : Prop := 16 <= zlen plain /\ zlen plain mod 8 = 0.

Class WolfCryptKeyWrapOk (W : WolfCryptKeyWrap) : Type := {
  aes_kw : list byte -> list byte -> list byte;
  key_wrap_sound kek plain sz ret out :
    wc_AesKeyWrap kek plain sz = (ret, out) -> 0 <= ret ->
    ret = zlen plain + 8 /\ ret <= sz /\ out = aes_kw kek plain;
  aes_kw_length kek plain : zlen (aes_kw kek plain) = zlen plain + 8;
  key_wrap_succeeds kek plain sz :
    aes_key_size kek -> wrappable plain -> zlen plain + 8 <= sz ->
    0 <= (wc_AesKeyWrap kek plain sz).1;
  key_unwrap_sound kek ct sz ret out :
    wc_AesKeyUnWrap kek ct sz = (ret, out) -> 0 <= ret ->
    ret = zlen out /\ ret <= sz /\ ct = aes_kw kek out;
  key_unwrap_succeeds kek plain sz :
    aes_key_size kek -> wrappable plain -> zlen plain <= sz ->
    wc_AesKeyUnWrap kek (aes_kw kek plain) sz = (zlen plain, plain);
  key_unwrap_refuses kek ct sz :
    aes_key_size kek -> 24 <= zlen ct -> zlen ct mod 8 = 0 -> zlen ct - 8 <= sz ->
    (forall plain, ct <> aes_kw kek plain) ->
    (wc_AesKeyUnWrap kek ct sz).1 = BAD_KEYWRAP_IV_E;
  bad_keywrap_negative : BAD_KEYWRAP_IV_E < 0 }.

(** * The entry points *)

(** The three checks of the algorithm, the same in both calls. *)
Definition key_wrap_check_alg (alg : Z) : psa_status_t :=
  if negb (PSA_ALG_IS_KEY_WRAP alg) then PSA_ERROR_INVALID_ARGUMENT
  else if alg =? PSA_ALG_KWP then PSA_ERROR_NOT_SUPPORTED
  else if negb (alg =? PSA_ALG_KW) then PSA_ERROR_INVALID_ARGUMENT
  else PSA_SUCCESS.

(** The checks of the wrapping key, once it is loaded. *)
Definition wrapping_key_checks (usage alg : Z) (wrap_attr : psa_key_attributes_t) : psa_status_t :=
  if negb (attr_type wrap_attr =? PSA_KEY_TYPE_AES) then PSA_ERROR_INVALID_ARGUMENT
  else if Z.land (psa_get_key_usage_flags wrap_attr) usage =? 0 then PSA_ERROR_NOT_PERMITTED
  else if negb (wolfpsa_key_permits_alg wrap_attr alg) then PSA_ERROR_NOT_PERMITTED
  else PSA_SUCCESS.

Section Wrap.
Context {C : Config} {E : WolfCryptErr} {K : WolfCryptKeys} {R : WolfCryptRng}.
Context {O : StoreOps} {B : KeyBackend} {W : WantKeyTypes} {KW : WolfCryptKeyWrap} {Op : Type}.

(** Load the wrapping key and check it. *)
Definition load_wrapping_key (wrapping_key usage alg : Z) : M (kstate O) (psa_status_t + list byte) :=
'(status, wrap_attr, kek) ← wolfpsa_get_key_data wrapping_key (Some PSA_KEY_ATTRIBUTES_INIT);
mret match status with
     | PSA_SUCCESS =>
         match wrapping_key_checks usage alg (default PSA_KEY_ATTRIBUTES_INIT wrap_attr) with
         | PSA_SUCCESS => inr (default [] kek)
         | e => inl e
         end
     | e => inl e
     end.

(** A call of wolfCrypt that returns a length or a negative code. *)
Definition wc_length_call (r : Z * list byte) : M (opstate O Op) (Z * list byte) :=
ret ← wc_call;
mret (if ret <? 0 then (ret, []) else r).

(** [data] and [data_length] say whether the pointers are not NULL; the bytes
  written come with the status. *)
Definition psa_wrap_key (wrapping_key alg key : Z) (data : bool) (data_size : Z) (data_length : bool)
: M (opstate O Op) (psa_status_t * list byte) :=
if negb data || negb data_length then mret (PSA_ERROR_INVALID_ARGUMENT, [])
else
  match key_wrap_check_alg alg with
  | PSA_SUCCESS =>
      if negb HAVE_AES_KEYWRAP then mret (PSA_ERROR_NOT_SUPPORTED, [])
      else
        r ← lib (load_wrapping_key wrapping_key PSA_KEY_USAGE_WRAP alg);
        match r with
        | inl e => mret (e, [])
        | inr kek =>
            r ← lib (psa_get_key_attributes key);
            match r with
            | inl e => mret (e, [])
            | inr target_attr =>
                let plain_max := wrap_plain_max target_attr in
                ok ← lib (XMALLOC plain_max);
                if negb ok then mret (PSA_ERROR_INSUFFICIENT_MEMORY, [])
                else
                  '(status, plaintext) ← lib (psa_export_key key true plain_max true);
                  match status with
                  | PSA_SUCCESS =>
                      let exported_len := zlen plaintext in
                      if (exported_len <? 16) || negb (exported_len mod 8 =? 0)
                      then mret (PSA_ERROR_INVALID_ARGUMENT, [])
                      else if data_size <? exported_len + 8
                      then mret (PSA_ERROR_BUFFER_TOO_SMALL, [])
                      else
                        '(wret, out) ← wc_length_call
                           (wc_AesKeyWrap (word32_buf kek) (word32_buf plaintext) (to_u32 data_size));
                        mret (if wret <? 0 then (wc_error_to_psa_status wret, [])
                              else (PSA_SUCCESS, take (Z.to_nat wret) out))
                  | e => mret (e, [])
                  end
            end
        end
  | e => mret (e, [])
  end.

(** [key] says whether the pointer is not NULL; [*key] comes with the status. *)
Definition psa_unwrap_key (attributes : option psa_key_attributes_t) (wrapping_key alg : Z)
  (data : input) (key : bool) : M (opstate O Op) (psa_status_t * Z) :=
match attributes, data, key with
| Some attributes, Bytes data, true =>
    let data_length := zlen data in
    match key_wrap_check_alg alg with
    | PSA_SUCCESS =>
        if (data_length <? 24) || negb (data_length mod 8 =? 0)
        then mret (PSA_ERROR_INVALID_ARGUMENT, PSA_KEY_ID_NULL)
        else if negb HAVE_AES_KEYWRAP then mret (PSA_ERROR_NOT_SUPPORTED, PSA_KEY_ID_NULL)
        else
          r ← lib (load_wrapping_key wrapping_key PSA_KEY_USAGE_UNWRAP alg);
          match r with
          | inl e => mret (e, PSA_KEY_ID_NULL)
          | inr kek =>
              let plain_len := data_length - 8 in
              ok ← lib (XMALLOC plain_len);
              if negb ok then mret (PSA_ERROR_INSUFFICIENT_MEMORY, PSA_KEY_ID_NULL)
              else
                '(wret, plaintext) ← wc_length_call
                   (wc_AesKeyUnWrap (word32_buf kek) (word32_buf data) (to_u32 plain_len));
                if wret <? 0 then
                  mret (if wret =? BAD_KEYWRAP_IV_E then PSA_ERROR_INVALID_SIGNATURE
                        else wc_error_to_psa_status wret, PSA_KEY_ID_NULL)
                else
                  '(status, id) ← lib (psa_import_key (Some attributes)
                                         (Some (take (Z.to_nat wret) plaintext)) true);
                  mret (status, if bool_decide (status = PSA_SUCCESS) then id else PSA_KEY_ID_NULL)
          end
    | e => mret (e, PSA_KEY_ID_NULL)
    end
| _, _, _ => mret (PSA_ERROR_INVALID_ARGUMENT, PSA_KEY_ID_NULL)
end.
End Wrap.
