(* ===== verification/KeyWrapSpec.v ===== *)
(** What key wrapping promises ([src/psa_key_wrap.c]): which key leaves the
    store and under which wrapping key, what an unwrapped key is, and that
    unwrapping undoes wrapping.

    [wrap_verdict] and [unwrap_verdict] are the answers of the two calls as
    functions of the table of keys; a success is as the verdict says whatever
    fails underneath, and when nothing fails every answer is.  The size of the
    output buffer reaches wolfCrypt as a [word32], and the verdict has that too:
    [wrap_size_wraps]. *)

From stdpp Require Import base decidable list gmap.
From Stdlib Require Import ZArith Lia.
From Stdlib Require Import Strings.Byte.
From S2P Require Import Prelude.
From S2P Require Import Values.
From S2P Require Import Engine.
From S2P Require Import KeyPolicy.
From S2P Require Import KeyFormat.
From S2P Require Import StoreIface.
From S2P Require Import Library.
From S2P Require Import KeyStore.
From S2P Require Import KeyStoreRules.
From S2P Require Import Operation.
From S2P Require Import ImportRules.
From S2P Require Import KeyStoreSpec.
From S2P Require Import KeyStoreCalls.
From S2P Require Import KeyStoreInv.
From S2P Require Import KeyReaders.
From S2P Require Import KeyWrap.

#[local] Open Scope Z_scope.

Section WrapSpec.
Context {C : Config} {E : WolfCryptErr} {EO : WolfCryptErrOk E} {K : WolfCryptKeys} {R : WolfCryptRng}.
Context {O : StoreOps} {L : StoreLaws O} {B : KeyBackend}.
Context {ROK : WolfCryptRngOk R} {BOK : KeyBackendOk}.
Context {W : WantKeyTypes} {KW : WolfCryptKeyWrap} {KWO : WolfCryptKeyWrapOk KW} {Op : Type}.

Implicit Types s : opstate O Op.
Implicit Types t : key_table.

(** * The wrapping key *)

Definition kek_verdict (usage alg : Z) (entry : option (psa_key_attributes_t * list byte))
: psa_status_t + list byte :=
match entry with
| None => inl PSA_ERROR_INVALID_HANDLE
| Some (a, kek) =>
    match wrapping_key_checks usage alg a with
    | PSA_SUCCESS => inr kek
    | e => inl e
    end
end.

Lemma kek_verdict_error usage alg entry : kek_verdict usage alg entry <> inl PSA_SUCCESS.
Proof. unfold kek_verdict. destruct entry as [[a d]|]; [|done]. by destruct (wrapping_key_checks _ _ _). Qed.

Lemma wp_load_wrapping_key wk usage alg (Q : psa_status_t + list byte -> opstate O Op -> Prop) s :
store_inv (op_lib s) ->
(forall r s', reads s s' ->
   (forall kek, r = inr kek -> kek_verdict usage alg (table (op_lib s) wk) = inr kek) ->
   r <> inl PSA_SUCCESS ->
   (ready s -> valid_id wk -> r = kek_verdict usage alg (table (op_lib s) wk)) -> Q r s') ->
wp (lib (load_wrapping_key wk usage alg)) Q s.
Proof.
intros Hi HQ. apply wp_lib. unfold load_wrapping_key. wp_seq. apply wp_lookup_key; [done|].
intros st a d k Hs Hcase. wp_seq. apply HQ; [by apply reads_lib|..].
- intros kek. destruct Hcase as [(-> & a0 & d0 & -> & -> & ->)|(Hne & _)]; [|by destruct st].
  simpl. by destruct (wrapping_key_checks usage alg a0).
- destruct Hcase as [(-> & a0 & d0 & _ & -> & ->)|(Hne & _)]; [|by destruct st].
  simpl. by destruct (wrapping_key_checks usage alg a0).
- intros [_ Hse] Hid. destruct Hcase as [(-> & a0 & d0 & -> & -> & ->)|(_ & _ & Hg)]; [done|].
  destruct (Hg Hse Hid) as [-> ->]. done.
Qed.

(** A key that passes the checks is an AES key of a size that AES has. *)
Lemma kek_is_aes k wk usage alg kek :
store_inv k -> kek_verdict usage alg (table k wk) = inr kek ->
aes_key_size kek /\ word32_buf kek = kek /\
exists a, table k wk = Some (a, kek) /\ attr_type a = PSA_KEY_TYPE_AES /\
  Z.land (psa_get_key_usage_flags a) usage <> 0 /\ wolfpsa_key_permits_alg a alg = true.
Proof.
intros Hi. unfold kek_verdict. destruct (table k wk) as [[a d]|] eqn:Ht; [|done].
unfold wrapping_key_checks.
destruct (Z.eqb_spec (attr_type a) PSA_KEY_TYPE_AES) as [Hty|]; [|done].
destruct (Z.eqb_spec (Z.land (psa_get_key_usage_flags a) usage) 0); [done|].
destruct (wolfpsa_key_permits_alg a alg) eqn:Hp; [|done]. intros [= <-]. simpl.
pose proof (table_length _ _ _ _ Hi Ht) as Hlen.
destruct (table_good _ _ _ _ Hi Ht) as [Hv _]. pose proof (vk_key _ _ Hv) as Hwf.
unfold well_formed_key in Hwf. rewrite Hty in Hwf.
change (key_class PSA_KEY_TYPE_AES) with CkAes in Hwf. cbv iota in Hwf.
split_and!; [unfold aes_key_size; lia|by apply fits_int; lia|by exists a].
Qed.

(** * Wrapping *)

(** The answer of [psa_wrap_key].  wolfCrypt is given the size modulo 2^32: a buffer
  of 4 GiB and a little more may be too small for it, which is then its error
  and not [PSA_ERROR_BUFFER_TOO_SMALL]. *)
Definition wrap_verdict t (wk alg key size : Z) : psa_status_t * list byte :=
match key_wrap_check_alg alg with
| PSA_SUCCESS =>
    if negb HAVE_AES_KEYWRAP then (PSA_ERROR_NOT_SUPPORTED, [])
    else
      match kek_verdict PSA_KEY_USAGE_WRAP alg (t wk), t key with
      | inl e, _ => (e, [])
      | inr _, None => (PSA_ERROR_INVALID_HANDLE, [])
      | inr kek, Some (a, plain) =>
          match export_verdict a plain (wrap_plain_max a) with
          | (PSA_SUCCESS, _) =>
              if (zlen plain <? 16) || negb (zlen plain mod 8 =? 0)
              then (PSA_ERROR_INVALID_ARGUMENT, [])
              else if size <? zlen plain + 8 then (PSA_ERROR_BUFFER_TOO_SMALL, [])
              else if to_u32 size <? zlen plain + 8
              then (wc_error_to_psa_status (wc_AesKeyWrap kek plain (to_u32 size)).1, [])
              else (PSA_SUCCESS, aes_kw kek plain)
          | (e, _) => (e, [])
          end
      end
| e => (e, [])
end.

Lemma wp_length_call (r : Z * list byte) (Q : Z * list byte -> opstate O Op -> Prop) s :
(forall ret out s', reads s s' -> (0 <= ret -> (ret, out) = r) -> (ready s -> (ret, out) = r) ->
   Q (ret, out) s') ->
wp (wc_length_call r) Q s.
Proof.
intros HQ. unfold wc_length_call. wp_seq. apply wp_code. intros c s1 Hr Hc. wp_seq.
destruct (Z.ltb_spec c 0).
- apply HQ; [done|lia|]. intros Hs. specialize (Hc Hs). lia.
- destruct r as [ret out]. by apply HQ.
Qed.

Lemma wrappable_spec plain :
((zlen plain <? 16) || negb (zlen plain mod 8 =? 0)) = false <-> wrappable plain.
Proof. unfold wrappable. rewrite orb_false_iff, negb_false_iff, Z.ltb_ge, Z.eqb_eq. done. Qed.

(** wolfCrypt refuses a buffer that is too small for it. *)
Lemma key_wrap_too_small kek plain sz :
sz < zlen plain + 8 -> (wc_AesKeyWrap kek plain sz).1 < 0.
Proof.
intros Hsz. destruct (wc_AesKeyWrap kek plain sz) as [ret out] eqn:Hw. cbn [fst].
destruct (Z.lt_ge_cases ret 0) as [|H0]; [done|].
destruct (key_wrap_sound _ _ _ _ _ Hw H0) as (-> & Hle & _). lia.
Qed.

(** The last part of the call: the wrapped key, or a failure of wolfCrypt. *)
Lemma wp_do_wrap kek plain size (Q : psa_status_t * list byte -> opstate O Op -> Prop) s :
aes_key_size kek -> word32_buf kek = kek -> wrappable plain -> zlen plain <= INT_MAX ->
(forall r s', let verdict := if to_u32 size <? zlen plain + 8
     then (wc_error_to_psa_status (wc_AesKeyWrap kek plain (to_u32 size)).1, [])
     else (PSA_SUCCESS, aes_kw kek plain) in
   reads s s' -> (r.1 = PSA_SUCCESS -> r = verdict) ->
   (r.1 <> PSA_SUCCESS -> r.2 = []) -> (ready s -> r = verdict) -> Q r s') ->
wp ('(wret, out) ← wc_length_call (wc_AesKeyWrap (word32_buf kek) (word32_buf plain) (to_u32 size));
    mret (if wret <? 0 then (wc_error_to_psa_status wret, [])
          else (PSA_SUCCESS, take (Z.to_nat wret) out))) Q s.
Proof.
intros Hk Hkw Hp Hlen HQ. rewrite Hkw, fits_int by done. cbv zeta in HQ.
wp_seq. apply wp_length_call. intros ret out s1 Hr Hout Hready. wp_seq.
destruct (Z.ltb_spec (to_u32 size) (zlen plain + 8)) as [Hsmall|Hroom].
- pose proof (key_wrap_too_small kek plain _ Hsmall) as Hneg.
  assert (Hret : ret < 0).
  { destruct (Z.lt_ge_cases ret 0) as [|H0]; [done|]. specialize (Hout H0).
    rewrite <- Hout in Hneg. cbn [fst] in Hneg. lia. }
  rewrite (proj2 (Z.ltb_lt ret 0)) by done. apply HQ; [done|..].
  + cbn [fst]. rewrite wc_error_success. lia.
  + done.
  + intros Hs. by rewrite <- (Hready Hs).
- assert (Hok : 0 <= ret -> take (Z.to_nat ret) out = aes_kw kek plain).
  { intros H0. specialize (Hout H0). destruct (key_wrap_sound kek plain (to_u32 size) ret out) as (-> & _ & ->);
      [done|done|].
    rewrite <- (aes_kw_length kek plain). apply take_ge. unfold zlen. lia. }
  apply HQ; [done|..].
  + destruct (Z.ltb_spec ret 0); cbn [fst]; [rewrite wc_error_success; lia|].
    intros _. by rewrite Hok.
  + by destruct (Z.ltb_spec ret 0).
  + intros Hs. specialize (Hready Hs).
    assert (0 <= ret).
    { apply (f_equal fst) in Hready. cbn [fst] in Hready. rewrite Hready.
      by apply key_wrap_succeeds. }
    rewrite (proj2 (Z.ltb_ge ret 0)) by done. by rewrite Hok.
Qed.

Lemma wp_wrap_key wk alg key size (Q : psa_status_t * list byte -> opstate O Op -> Prop) s :
store_inv (op_lib s) ->
(forall r s', reads s s' ->
   (r.1 = PSA_SUCCESS -> r = wrap_verdict (table (op_lib s)) wk alg key size) ->
   (r.1 <> PSA_SUCCESS -> r.2 = []) ->
   (ready s -> valid_id wk -> valid_id key ->
    r = wrap_verdict (table (op_lib s)) wk alg key size) -> Q r s') ->
wp (psa_wrap_key wk alg key true size true) Q s.
Proof.
intros Hi HQ. unfold psa_wrap_key. cbn [negb orb]. unfold wrap_verdict in HQ.
destruct (key_wrap_check_alg alg) eqn:Ha; try (wp_seq; apply HQ; [apply reads_refl|done|done|done]).
destruct (negb HAVE_AES_KEYWRAP); [wp_seq; apply HQ; [apply reads_refl|done|done|done]|].
wp_seq. apply wp_load_wrapping_key; [done|]. intros r1 s1 Hr1 Hok1 Hne1 Hg1.
destruct r1 as [e|kek].
{ wp_seq. apply HQ; [done|by intros [= ->]|done|]. intros Hs Hid _. by rewrite <- Hg1. }
specialize (Hok1 _ eq_refl). rewrite Hok1 in HQ.
destruct (kek_is_aes _ _ _ _ _ Hi Hok1) as (Hsize & Hkw & _).
pose proof (reads_store_inv _ _ Hi Hr1) as Hi1.
wp_seq. apply wp_key_attributes; [done|]. intros r2 s2 Hr2 Hcase.
rewrite (reads_table _ _ key Hr1) in Hcase. pose proof (reads_trans _ _ _ Hr1 Hr2) as Hr12.
destruct r2 as [e|target].
{ destruct Hcase as [He Hg]. wp_seq. apply HQ; [done|done|done|]. intros Hs _ Hid.
  destruct Hr1 as (_ & _ & Hs1). destruct (Hg (Hs1 Hs) Hid) as [-> ->]. done. }
destruct Hcase as (a & plain & Ht & ->). rewrite Ht in HQ.
change (wrap_plain_max (set_id a key)) with (wrap_plain_max a).
pose proof (reads_store_inv _ _ Hi Hr12) as Hi2.
wp_seq. apply wp_alloc. intros ok s3 Hr3 Hok3. pose proof (reads_trans _ _ _ Hr12 Hr3) as Hr13.
assert (Hready : ready s -> ready s2) by apply Hr12.
destruct ok; cbn [negb]; [|wp_seq; apply HQ; [done|done|done|by intros Hs; specialize (Hok3 (Hready Hs))]].
pose proof (reads_store_inv _ _ Hi Hr13) as Hi3.
wp_seq. apply wp_key_export; [done|]. intros r4 s4 Hr4 Hok4 Hno4 Hg4.
rewrite (reads_table _ _ key Hr13), Ht in Hok4, Hg4. pose proof (reads_trans _ _ _ Hr13 Hr4) as Hr14.
assert (Hverdict : ready s -> valid_id key -> r4 = export_verdict a plain (wrap_plain_max a)).
{ intros Hs Hid. apply Hg4; [by apply Hr13|done|done]. }
destruct r4 as [st out]. cbn [fst snd] in *. destruct (decide (st = PSA_SUCCESS)) as [->|Hst].
2:{ replace (match st with PSA_SUCCESS => _ | _ => _ end)
      with (mret (M := M (opstate O Op)) (st, [] : list byte)) by (by destruct st).
    wp_seq. apply HQ; [done|done|done|]. intros Hs _ Hid. rewrite <- Hverdict by done. by destruct st. }
destruct (Hok4 eq_refl) as (a' & d' & [= <- <-] & Hv). rewrite <- Hv in HQ.
assert (out = plain) as ->.
{ unfold export_verdict in Hv. repeat case_match; by simplify_eq. }
destruct ((zlen plain <? 16) || negb (zlen plain mod 8 =? 0)) eqn:Hw;
  [wp_seq; by apply HQ|]. apply wrappable_spec in Hw.
destruct (Z.ltb_spec size (zlen plain + 8)); [wp_seq; by apply HQ|].
pose proof (table_length _ _ _ _ Hi Ht).
apply wp_do_wrap; [done|done|done|lia|]. intros r5 s5 verdict Hr5 Hok5 Hno5 Hg5.
apply HQ; [by eapply reads_trans|done|done|]. intros Hs _ _. apply Hg5. by apply Hr14.
Qed.

Lemma wrap_verdict_success t wk alg key size out :
wrap_verdict t wk alg key size = (PSA_SUCCESS, out) ->
alg = PSA_ALG_KW /\ exists kek a plain,
  kek_verdict PSA_KEY_USAGE_WRAP alg (t wk) = inr kek /\ t key = Some (a, plain) /\
  Z.land (usage (attr_policy a)) PSA_KEY_USAGE_EXPORT <> 0 /\
  wrappable plain /\ zlen plain + 8 <= size /\ out = aes_kw kek plain.
Proof.
unfold wrap_verdict, key_wrap_check_alg.
destruct (negb (PSA_ALG_IS_KEY_WRAP alg)); [done|]. destruct (alg =? PSA_ALG_KWP); [done|].
destruct (Z.eqb_spec alg PSA_ALG_KW); [|done]. cbn [negb]. destruct (negb HAVE_AES_KEYWRAP); [done|].
destruct (kek_verdict PSA_KEY_USAGE_WRAP alg (t wk)) as [e'|kek] eqn:Hk.
{ intros [= -> _]. by apply kek_verdict_error in Hk. }
destruct (t key) as [[a plain]|]; [|done]. unfold export_verdict.
destruct (Z.eqb_spec (Z.land (usage (attr_policy a)) PSA_KEY_USAGE_EXPORT) 0); [done|].
destruct (wrap_plain_max a <? zlen plain); [done|].
destruct ((zlen plain <? 16) || negb (zlen plain mod 8 =? 0)) eqn:Hw; [done|].
apply wrappable_spec in Hw. destruct (Z.ltb_spec size (zlen plain + 8)); [done|].
destruct (Z.ltb_spec (to_u32 size) (zlen plain + 8)) as [Hsmall|].
{ pose proof (key_wrap_too_small kek plain _ Hsmall). intros [= Hst%wc_error_success _]. lia. }
intros [= <-]. split; [done|]. by exists kek, a, plain.
Qed.

(** C25: [psa_wrap_key] gives out a key only under RFC 3394, only for a target key
  whose usage flags hold EXPORT, and only under a stored AES key that has the
  WRAP usage and permits the algorithm; then the output is exactly the wrapping
  of the target's data and fits the caller's buffer.  A failed call gives no
  bytes.  When nothing fails underneath, status and output are those of
  [wrap_verdict], for every algorithm, every pair of key identifiers and every
  buffer size, the sizes that wolfCrypt gets modulo 2^32 included.  No key
  changes. *)
Theorem wrap_key_spec wk alg key size s st out s' :
store_inv (op_lib s) -> psa_wrap_key wk alg key true size true s = ((st, out), s') ->
(st = PSA_SUCCESS -> alg = PSA_ALG_KW /\ exists ka kek a plain,
   table (op_lib s) wk = Some (ka, kek) /\ attr_type ka = PSA_KEY_TYPE_AES /\
   Z.land (psa_get_key_usage_flags ka) PSA_KEY_USAGE_WRAP <> 0 /\
   wolfpsa_key_permits_alg ka alg = true /\
   table (op_lib s) key = Some (a, plain) /\
   Z.land (usage (attr_policy a)) PSA_KEY_USAGE_EXPORT <> 0 /\
   out = aes_kw kek plain /\ zlen out <= size) /\
(st <> PSA_SUCCESS -> out = []) /\
(ready s -> valid_id wk -> valid_id key ->
 (st, out) = wrap_verdict (table (op_lib s)) wk alg key size) /\
store_inv (op_lib s') /\ same_keys (table (op_lib s)) (table (op_lib s')).
Proof.
intros Hi Hrun.
assert (Hwp : wp (psa_wrap_key wk alg key true size true) (fun r s' => reads s s' /\
   (r.1 = PSA_SUCCESS -> r = wrap_verdict (table (op_lib s)) wk alg key size) /\
   (r.1 <> PSA_SUCCESS -> r.2 = []) /\
   (ready s -> valid_id wk -> valid_id key ->
    r = wrap_verdict (table (op_lib s)) wk alg key size)) s).
{ by apply wp_wrap_key. }
apply (wp_run _ _ _ _ _ Hrun) in Hwp as ((_ & Hr & _) & Hok & Hno & Hg). cbn [fst snd] in *.
split_and!; [|done|done|by eapply settled_store_inv|by eapply settled_store_inv].
intros ->. destruct (wrap_verdict_success _ _ _ _ _ _ (eq_sym (Hok eq_refl)))
  as (-> & kek & a & plain & Hk & Ht & He & Hw & Hsz & ->).
destruct (kek_is_aes _ _ _ _ _ Hi Hk) as (_ & _ & ka & Hka & Hty & Hus & Hp).
split; [done|]. exists ka, kek, a, plain. rewrite aes_kw_length. done.
Qed.

(** The truncation shows: a key that a buffer of 64 bytes receives is refused to a
  buffer of 2^32 bytes. *)
Lemma wrap_size_wraps t wk key kek a plain :
HAVE_AES_KEYWRAP = true -> kek_verdict PSA_KEY_USAGE_WRAP PSA_ALG_KW (t wk) = inr kek ->
t key = Some (a, plain) -> export_verdict a plain (wrap_plain_max a) = (PSA_SUCCESS, plain) ->
wrappable plain -> zlen plain + 8 <= 64 ->
wrap_verdict t wk PSA_ALG_KW key 64 = (PSA_SUCCESS, aes_kw kek plain) /\
(wrap_verdict t wk PSA_ALG_KW key (2 ^ 32)).1 <> PSA_SUCCESS.
Proof.
intros Hconf Hk Ht He Hw Hlen. unfold wrap_verdict.
change (key_wrap_check_alg PSA_ALG_KW) with PSA_SUCCESS. rewrite Hconf, Hk, Ht, He.
rewrite (proj2 (wrappable_spec _)) by done. cbn [negb]. destruct Hw as [Hlo _].
change (to_u32 64) with 64. change (to_u32 (2 ^ 32)) with 0.
rewrite (proj2 (Z.ltb_ge 64 _)), (proj2 (Z.ltb_ge (2 ^ 32) _)), (proj2 (Z.ltb_lt 0 _)) by lia.
split; [done|]. cbn [fst]. rewrite wc_error_success.
pose proof (key_wrap_too_small kek plain 0). lia.
Qed.

(** * Unwrapping *)

(** The plain text that the wrapped data holds, or why the call ends without an
  import. *)
Definition unwrap_verdict t (wk alg : Z) (ct : list byte) : psa_status_t + list byte :=
match key_wrap_check_alg alg with
| PSA_SUCCESS =>
    if (zlen ct <? 24) || negb (zlen ct mod 8 =? 0) then inl PSA_ERROR_INVALID_ARGUMENT
    else if negb HAVE_AES_KEYWRAP then inl PSA_ERROR_NOT_SUPPORTED
    else
      match kek_verdict PSA_KEY_USAGE_UNWRAP alg (t wk) with
      | inl e => inl e
      | inr kek =>
          let '(ret, plain) := wc_AesKeyUnWrap kek ct (zlen ct - 8) in
          if ret <? 0 then
            inl (if ret =? BAD_KEYWRAP_IV_E then PSA_ERROR_INVALID_SIGNATURE
                 else wc_error_to_psa_status ret)
          else inr plain
      end
| e => inl e
end.

Lemma unwrap_verdict_inr t wk alg ct plain :
unwrap_verdict t wk alg ct = inr plain ->
alg = PSA_ALG_KW /\ exists kek,
  kek_verdict PSA_KEY_USAGE_UNWRAP alg (t wk) = inr kek /\ ct = aes_kw kek plain.
Proof.
unfold unwrap_verdict, key_wrap_check_alg.
destruct (negb (PSA_ALG_IS_KEY_WRAP alg)); [done|]. destruct (alg =? PSA_ALG_KWP); [done|].
destruct (Z.eqb_spec alg PSA_ALG_KW); [|done]. cbn [negb].
destruct ((zlen ct <? 24) || negb (zlen ct mod 8 =? 0)); [done|].
destruct (negb HAVE_AES_KEYWRAP); [done|].
destruct (kek_verdict PSA_KEY_USAGE_UNWRAP alg (t wk)) as [e'|kek] eqn:Hk; [done|].
destruct (wc_AesKeyUnWrap kek ct (zlen ct - 8)) as [ret p] eqn:Hu.
destruct (Z.ltb_spec ret 0); [done|]. intros [= <-]. split; [done|]. exists kek.
split; [done|]. by eapply key_unwrap_sound.
Qed.

(** The call ends with a failure that changes no key, or goes on as the import of
  the plain text. *)
Lemma wp_unwrap_key attributes wk alg ct (Q : psa_status_t * Z -> opstate O Op -> Prop) s :
store_inv (op_lib s) -> zlen ct <= INT_MAX ->
(forall e s', reads s s' -> e <> PSA_SUCCESS ->
   (ready s -> valid_id wk -> unwrap_verdict (table (op_lib s)) wk alg ct = inl e) ->
   Q (e, PSA_KEY_ID_NULL) s') ->
(forall plain s1 st id k', reads s s1 ->
   unwrap_verdict (table (op_lib s)) wk alg ct = inr plain ->
   psa_import_key (Some attributes) (Some plain) true (op_lib s1) = ((st, id), k') ->
   Q (st, if bool_decide (st = PSA_SUCCESS) then id else PSA_KEY_ID_NULL) (with_lib k' s1)) ->
wp (psa_unwrap_key (Some attributes) wk alg (Bytes ct) true) Q s.
Proof.
intros Hi Hmax Hbad Hgood. unfold psa_unwrap_key. unfold unwrap_verdict in Hbad, Hgood.
pose proof (zlen_nonneg ct) as Hnn.
destruct (key_wrap_check_alg alg) eqn:Ha; try (wp_seq; by apply Hbad; [apply reads_refl|..]).
destruct ((zlen ct <? 24) || negb (zlen ct mod 8 =? 0)) eqn:Hct;
  [wp_seq; by apply Hbad; [apply reads_refl|..]|].
apply orb_false_iff in Hct as [Hct _]. apply Z.ltb_ge in Hct.
destruct (negb HAVE_AES_KEYWRAP); [wp_seq; by apply Hbad; [apply reads_refl|..]|].
wp_seq. apply wp_load_wrapping_key; [done|]. intros r1 s1 Hr1 Hok1 Hne1 Hg1.
destruct r1 as [e|kek].
{ wp_seq. apply Hbad; [done|congruence|]. intros Hs Hid. by rewrite <- Hg1. }
specialize (Hok1 _ eq_refl). rewrite Hok1 in Hbad, Hgood.
destruct (kek_is_aes _ _ _ _ _ Hi Hok1) as (Hsize & Hkw & _). rewrite Hkw.
rewrite fits_int, to_u32_small by (unfold UINT32_MAX, INT_MAX in *; lia).
wp_seq. apply wp_alloc. intros ok s2 Hr2 Hok2. pose proof (reads_trans _ _ _ Hr1 Hr2) as Hr12.
destruct ok; cbn [negb].
2:{ wp_seq. apply Hbad; [done|done|]. intros Hs. by specialize (Hok2 (proj2 (proj2 Hr1) Hs)). }
wp_seq. apply wp_length_call. intros ret out s3 Hr3 Hout Hready.
pose proof (reads_trans _ _ _ Hr12 Hr3) as Hr13.
destruct (wc_AesKeyUnWrap kek ct (zlen ct - 8)) as [ret' out'] eqn:Hu.
destruct (Z.ltb_spec ret 0) as [Hneg|Hpos].
- wp_seq. apply Hbad; [done| |].
  + destruct (ret =? BAD_KEYWRAP_IV_E); [done|]. rewrite wc_error_success. lia.
  + intros Hs _. specialize (Hready (proj2 (proj2 Hr12) Hs)). simplify_eq.
    by rewrite (proj2 (Z.ltb_lt _ _)).
- specialize (Hout Hpos). simplify_eq. rewrite (proj2 (Z.ltb_ge _ _)) in Hgood by done.
  destruct (key_unwrap_sound _ _ _ _ _ Hu Hpos) as (-> & _ & ->).
  rewrite (take_ge out') by (unfold zlen; lia).
  wp_seq. apply wp_lib. unfold wp.
  destruct (psa_import_key (Some attributes) (Some out') true (op_lib s3)) as [[st id] k'] eqn:Himp.
  cbn [fst snd]. wp_seq. by eapply (Hgood out').
Qed.

Lemma fits_plain kek plain : fits (aes_kw kek plain) -> fits plain /\ zlen (aes_kw kek plain) <= INT_MAX.
Proof.
unfold fits, attr_length, sizeof_size_t. pose proof (aes_kw_length kek plain). lia.
Qed.

(** With a usable wrapping key, data of a length that RFC 3394 has and that wraps
  nothing under the key is refused for its check value. *)
Lemma unwrap_verdict_refuses k wk kek ct :
store_inv k -> HAVE_AES_KEYWRAP = true -> 24 <= zlen ct -> zlen ct mod 8 = 0 ->
kek_verdict PSA_KEY_USAGE_UNWRAP PSA_ALG_KW (table k wk) = inr kek ->
(forall plain, ct <> aes_kw kek plain) ->
unwrap_verdict (table k) wk PSA_ALG_KW ct = inl PSA_ERROR_INVALID_SIGNATURE.
Proof.
intros Hi Hconf Hlen Hmod Hk Hbad.
unfold unwrap_verdict. change (key_wrap_check_alg PSA_ALG_KW) with PSA_SUCCESS.
rewrite (proj2 (Z.ltb_ge _ _)), Hmod, Hconf, Hk by lia. cbn.
destruct (kek_is_aes _ _ _ _ _ Hi Hk) as (Hsize & _ & _).
pose proof (key_unwrap_refuses kek ct (zlen ct - 8) Hsize Hlen Hmod (Z.le_refl _) Hbad) as Hr.
destruct (wc_AesKeyUnWrap kek ct (zlen ct - 8)) as [ret p]. cbn [fst] in Hr. subst ret.
by rewrite (proj2 (Z.ltb_lt _ 0) bad_keywrap_negative), Z.eqb_refl.
Qed.

(** The status of an unwrapping when nothing fails: the verdict's error, or the
  answer of the import. *)
Definition unwrap_answer s (wk alg : Z) (ct : list byte) (attributes : psa_key_attributes_t)
  (st : psa_status_t) : Prop :=
match unwrap_verdict (table (op_lib s)) wk alg ct with
| inl e => st = e
| inr plain => exists s1, reads s s1 /\
    st = (psa_import_key (Some attributes) (Some plain) true (op_lib s1)).1.1
end.

(** C26: [psa_unwrap_key] makes a key only from data that is the RFC 3394 wrapping,
  under a stored AES key that has the UNWRAP usage and permits the algorithm, of
  what becomes the key's data; the new key is as an import of that data with the
  caller's attributes.  A call that fails gives no identifier and changes no
  key.  When nothing fails underneath, the status is the error of
  [unwrap_verdict] or the answer of the import of what the data wraps; in
  particular, under a usable wrapping key, data of a length that is not a
  multiple of 8 or is below 24 is answered [PSA_ERROR_INVALID_ARGUMENT], and data
  of a right length that wraps nothing [PSA_ERROR_INVALID_SIGNATURE].  All this
  for data whose record length fits an [int], and for a persistent identifier
  that is not of the vendor range, see [user_id]. *)
Theorem unwrap_key_spec attributes wk alg ct s st id s' :
store_inv (op_lib s) -> wf_attributes attributes -> user_id attributes -> fits ct ->
psa_unwrap_key (Some attributes) wk alg (Bytes ct) true s = ((st, id), s') ->
store_inv (op_lib s') /\
(st = PSA_SUCCESS -> alg = PSA_ALG_KW /\ exists ka kek plain,
   table (op_lib s) wk = Some (ka, kek) /\ attr_type ka = PSA_KEY_TYPE_AES /\
   Z.land (psa_get_key_usage_flags ka) PSA_KEY_USAGE_UNWRAP <> 0 /\
   wolfpsa_key_permits_alg ka alg = true /\ ct = aes_kw kek plain /\
   import_step (table (op_lib s)) (table (op_lib s')) attributes plain id) /\
(st <> PSA_SUCCESS -> id = PSA_KEY_ID_NULL /\ same_keys (table (op_lib s)) (table (op_lib s'))) /\
(ready s -> valid_id wk -> unwrap_answer s wk alg ct attributes st) /\
(forall kek, ready s -> valid_id wk -> alg = PSA_ALG_KW -> HAVE_AES_KEYWRAP = true ->
   kek_verdict PSA_KEY_USAGE_UNWRAP alg (table (op_lib s) wk) = inr kek ->
   (zlen ct < 24 \/ zlen ct mod 8 <> 0 -> st = PSA_ERROR_INVALID_ARGUMENT) /\
   (24 <= zlen ct -> zlen ct mod 8 = 0 -> (forall plain, ct <> aes_kw kek plain) ->
    st = PSA_ERROR_INVALID_SIGNATURE)).
Proof.
intros Hi Hwf Hu Hfit Hrun.
assert (Hwp : wp (psa_unwrap_key (Some attributes) wk alg (Bytes ct) true) (fun r s' =>
store_inv (op_lib s') /\
(r.1 = PSA_SUCCESS -> exists plain, unwrap_verdict (table (op_lib s)) wk alg ct = inr plain /\
   import_step (table (op_lib s)) (table (op_lib s')) attributes plain r.2) /\
(r.1 <> PSA_SUCCESS ->
   r.2 = PSA_KEY_ID_NULL /\ same_keys (table (op_lib s)) (table (op_lib s'))) /\
(ready s -> valid_id wk -> unwrap_answer s wk alg ct attributes r.1)) s).
{ apply wp_unwrap_key; [done|unfold fits, attr_length, sizeof_size_t in Hfit; lia|..].
  - intros e s1 (_ & Hr & _) He Hg. pose proof (settled_store_inv _ _ Hi Hr) as [Hi1 Hk].
    split_and!; [done|done|done|]. intros Hs Hid. unfold unwrap_answer. by rewrite Hg.
  - intros plain s1 st1 id1 k' Hrd Hv Himp. pose proof Hrd as (_ & Hr & _).
    destruct (settled_store_inv _ _ Hi Hr) as [Hi1 Hk].
    destruct (unwrap_verdict_inr _ _ _ _ _ Hv) as (_ & kek & _ & ->).
    destruct (fits_plain _ _ Hfit) as [Hfp _].
    destruct (import_outcome attributes plain _ _ _ Hi1 Hwf Hfp Hu Himp) as [Hi2 Hstep].
    cbn [fst snd op_lib with_lib] in *.
    assert (Hsame : forall i, table (op_lib s1) i = table (op_lib s) i) by
      (intros; by apply settled_table).
    split_and!; [done|..].
    + intros ->. exists plain. split; [done|]. by eapply import_step_same.
    + intros Hst. rewrite bool_decide_eq_false_2 by done. split; [done|].
      rewrite decide_False in Hstep by done. intros i Hi0. rewrite Hstep by done. apply Hsame.
    + intros _ _. unfold unwrap_answer. rewrite Hv. exists s1. by rewrite Himp. }
apply (wp_run _ _ _ _ _ Hrun) in Hwp as (Hi' & Hok & Hno & Hg). cbn [fst snd] in *.
split_and!; [done| |done|done|].
- intros ->. destruct (Hok eq_refl) as (plain & Hv & Hstep).
  destruct (unwrap_verdict_inr _ _ _ _ _ Hv) as (-> & kek & Hk & ->).
  destruct (kek_is_aes _ _ _ _ _ Hi Hk) as (_ & _ & ka & Hka & Hty & Hus & Hp).
  split; [done|]. by exists ka, kek, plain.
- intros kek Hs Hid -> Hconf Hk. specialize (Hg Hs Hid). unfold unwrap_answer in Hg. split.
  + intros Hlen. unfold unwrap_verdict in Hg.
    change (key_wrap_check_alg PSA_ALG_KW) with PSA_SUCCESS in Hg. cbv iota in Hg.
    replace ((zlen ct <? 24) || negb (zlen ct mod 8 =? 0)) with true in Hg; [done|].
    symmetry. rewrite orb_true_iff, Z.ltb_lt, negb_true_iff, Z.eqb_neq. done.
  + intros Hlen Hmod Hbad. by rewrite (unwrap_verdict_refuses _ wk kek ct) in Hg.
Qed.

Lemma unwrap_verdict_wrapped t wk ka kek plain :
t wk = Some (ka, kek) -> attr_type ka = PSA_KEY_TYPE_AES ->
Z.land (psa_get_key_usage_flags ka) PSA_KEY_USAGE_UNWRAP <> 0 ->
wolfpsa_key_permits_alg ka PSA_ALG_KW = true -> HAVE_AES_KEYWRAP = true ->
aes_key_size kek -> wrappable plain ->
unwrap_verdict t wk PSA_ALG_KW (aes_kw kek plain) = inr plain.
Proof.
intros Ht Hty Hu Hp Hconf Hsize Hw. pose proof Hw as [Hlo Hmod].
unfold unwrap_verdict. change (key_wrap_check_alg PSA_ALG_KW) with PSA_SUCCESS.
rewrite aes_kw_length, (proj2 (Z.ltb_ge _ _)), Hconf by lia.
replace ((zlen plain + 8) mod 8) with 0 by (rewrite <- Zplus_mod_idemp_l, Hmod; done).
cbn [negb orb Z.eqb]. rewrite Ht. unfold kek_verdict, wrapping_key_checks.
rewrite Hty, Hp, Z.eqb_refl, (proj2 (Z.eqb_neq _ 0)) by done. cbn [negb].
rewrite key_unwrap_succeeds by (done || lia). rewrite (proj2 (Z.ltb_ge _ 0)); [done|lia].
Qed.

(** When nothing fails, the data that [ct] wraps becomes a key, if the import of it
  is not refused. *)
Lemma unwrap_makes_key attributes wk alg ct plain b s :
store_inv (op_lib s) -> ready s -> valid_id wk -> wf_attributes attributes -> user_id attributes ->
fits ct -> unwrap_verdict (table (op_lib s)) wk alg ct = inr plain ->
import_validate attributes plain = inr b ->
(caller_id b = PSA_KEY_ID_NULL -> vendor_id (g_next_key_id (op_lib s))) ->
~ id_taken b (assigned_id b (op_lib s)) (op_lib s) ->
wp (psa_unwrap_key (Some attributes) wk alg (Bytes ct) true)
  (fun r s' => r.1 = PSA_SUCCESS /\
     import_step (table (op_lib s)) (table (op_lib s')) attributes plain r.2) s.
Proof.
intros Hi Hs Hid Hwf Hu Hfit Hv Hval Hvend Hfree.
destruct (unwrap_verdict_inr _ _ _ _ _ Hv) as (_ & kek & _ & ->).
destruct (fits_plain _ _ Hfit) as [Hfp Hmax]. apply wp_unwrap_key; [done|done|..].
{ intros e s2 _ He Hg. rewrite Hv in Hg. by discriminate (Hg Hs Hid). }
intros plain' s2 st id k' Hr2 Hv' Himp. rewrite Hv in Hv'. injection Hv' as <-.
destruct (proj2 (proj2 Hr2) Hs) as (_ & Hge & Hidle & Hcr).
pose proof Hr2 as (_ & (_ & Hc & _) & _).
assert (Hsucc : st = PSA_SUCCESS).
{ pose proof (import_succeeds attributes plain (op_lib s2) b Hidle Hcr Hge Hwf Hfp Hval) as H.
  unfold assigned_id, id_taken in *. rewrite Himp in H.
  rewrite (c_next _ _ Hc), (c_keys _ _ Hc), (c_records _ _ Hc) in H.
  specialize (H Hvend Hfree). by injection H. }
destruct (import_outcome attributes plain _ _ _ (reads_store_inv _ _ Hi Hr2) Hwf Hfp Hu Himp) as [_ Hstep].
subst st. cbn [fst snd op_lib with_lib] in *. split; [done|].
eapply import_step_same; [|exact Hstep]. intros i. by apply reads_table.
Qed.

(** C27: unwrapping undoes wrapping.  What [psa_wrap_key] gives, [psa_unwrap_key]
  under the same wrapping key, if that has the UNWRAP usage too, makes a key with
  the data of the key that was wrapped, whenever the caller's attributes accept
  the data, an identifier is left and nothing fails underneath. *)
Theorem wrap_unwrap_roundtrip attributes wk key size s ct s1 b :
store_inv (op_lib s) -> ready s -> valid_id wk -> wf_attributes attributes -> user_id attributes ->
psa_wrap_key wk PSA_ALG_KW key true size true s = ((PSA_SUCCESS, ct), s1) -> fits ct ->
(forall ka kek, table (op_lib s) wk = Some (ka, kek) ->
   Z.land (psa_get_key_usage_flags ka) PSA_KEY_USAGE_UNWRAP <> 0) ->
(forall a plain, table (op_lib s) key = Some (a, plain) ->
   import_validate attributes plain = inr b) ->
(caller_id b = PSA_KEY_ID_NULL -> vendor_id (g_next_key_id (op_lib s))) ->
~ id_taken b (assigned_id b (op_lib s)) (op_lib s) ->
exists a plain id s2, table (op_lib s) key = Some (a, plain) /\
  psa_unwrap_key (Some attributes) wk PSA_ALG_KW (Bytes ct) true s1 = ((PSA_SUCCESS, id), s2) /\
  table (op_lib s2) id = Some (stored_view b PSA_KEY_ATTRIBUTES_INIT, plain) /\
  forall k, 0 <= k -> k <> id -> table (op_lib s2) k = table (op_lib s) k.
Proof.
intros Hi Hs Hid Hwf Hu Hrun Hfit Husage Hval Hvend Hfree.
assert (Hwp : wp (psa_wrap_key wk PSA_ALG_KW key true size true) (fun r s1 => reads s s1 /\
   (r.1 = PSA_SUCCESS -> r = wrap_verdict (table (op_lib s)) wk PSA_ALG_KW key size)) s).
{ by apply wp_wrap_key. }
apply (wp_run _ _ _ _ _ Hrun) in Hwp as (Hr1 & Hok). cbn [fst snd] in *.
assert (Hconf : HAVE_AES_KEYWRAP = true).
{ specialize (Hok eq_refl). unfold wrap_verdict in Hok. by destruct HAVE_AES_KEYWRAP. }
destruct (wrap_verdict_success _ _ _ _ _ _ (eq_sym (Hok eq_refl)))
  as (_ & kek & a & plain & Hk & Ht & _ & Hw & _ & ->).
destruct (kek_is_aes _ _ _ _ _ Hi Hk) as (Hsize & _ & ka & Hka & Hty & _ & Hp).
specialize (Hval _ _ Ht).
pose proof Hr1 as (_ & (_ & Hc & _) & Hs1). pose proof (reads_table _ _ wk Hr1) as Hka1. rewrite Hka in Hka1.
pose proof (unwrap_makes_key attributes wk PSA_ALG_KW _ plain b s1 (reads_store_inv _ _ Hi Hr1) (Hs1 Hs)
            Hid Hwf Hu Hfit
            (unwrap_verdict_wrapped _ _ _ _ _ Hka1 Hty (Husage _ _ Hka) Hp Hconf Hsize Hw) Hval) as Hun.
unfold assigned_id, id_taken in *. rewrite (c_next _ _ Hc), (c_keys _ _ Hc), (c_records _ _ Hc) in Hun.
specialize (Hun Hvend Hfree).
unfold wp in Hun. destruct (psa_unwrap_key _ _ _ _ _ s1) as [[st id] s2] eqn:Hrun2.
cbn [fst snd] in Hun. destruct Hun as (-> & b' & Hval' & _ & _ & Hnone & Hnew & Hothers).
rewrite Hval in Hval'. injection Hval' as <-.
exists a, plain, id, s2. split_and!; [done|done|done|].
intros i Hi0 Hne. rewrite Hothers by done. by apply reads_table.
Qed.
End WrapSpec.

(** * The export buffer *)

Section ExportSize.
Context {C : Config} {E : WolfCryptErr} {K : WolfCryptKeys}.

(** Which arm of [PSA_EXPORT_KEY_OUTPUT_SIZE] a key type takes.  Four values that
  are no key type pass for an ML-DSA or ML-KEM type. *)
Definition export_arm (type : Z) : bool :=
let later := negb (PSA_KEY_TYPE_IS_UNSTRUCTURED type) && negb (PSA_KEY_TYPE_IS_DH type) &&
  negb (type =? PSA_KEY_TYPE_RSA_KEY_PAIR) && negb (type =? PSA_KEY_TYPE_RSA_PUBLIC_KEY) &&
  negb (type =? PSA_KEY_TYPE_DSA_KEY_PAIR) && negb (type =? PSA_KEY_TYPE_DSA_PUBLIC_KEY) in
match key_class type with
| CkAes | CkDes | CkChacha | CkBytes => PSA_KEY_TYPE_IS_UNSTRUCTURED type
| CkMlDsa => bool_decide (type ∈ [PSA_KEY_TYPE_ML_DSA_KEY_PAIR; PSA_KEY_TYPE_ML_DSA_PUBLIC_KEY; 0x5002; 0x6002])
| CkMlKem => bool_decide (type ∈ [PSA_KEY_TYPE_ML_KEM_KEY_PAIR; PSA_KEY_TYPE_ML_KEM_PUBLIC_KEY; 0x5004; 0x6004])
| CkLms | CkHss | CkXmss =>
    bool_decide (type ∈ [PSA_KEY_TYPE_LMS_PUBLIC_KEY; PSA_KEY_TYPE_HSS_PUBLIC_KEY;
                         PSA_KEY_TYPE_XMSS_PUBLIC_KEY; PSA_KEY_TYPE_XMSS_MT_PUBLIC_KEY])
| CkEcc => later &&
    (if PSA_KEY_TYPE_IS_ECC_KEY_PAIR type then negb (PSA_KEY_TYPE_IS_ECC_PUBLIC_KEY type) &&
       implb (type =? MONTGOMERY_KEY_PAIR) (PSA_KEY_TYPE_ECC_GET_FAMILY type =? PSA_ECC_FAMILY_MONTGOMERY)
     else PSA_KEY_TYPE_IS_ECC_PUBLIC_KEY type && negb (type =? MONTGOMERY_KEY_PAIR))
| _ => true
end.

Lemma export_arm_true type : 0 <= type < 2 ^ 16 -> export_arm type = true.
Proof. intros Ht. revert type Ht. apply (all_bits_below 16). vm_compute. reflexivity. Qed.

Lemma bits_to_bytes_of n : PSA_BITS_TO_BYTES (8 * n) = n.
Proof. unfold PSA_BITS_TO_BYTES. symmetry. apply (Z.div_unique _ _ _ 7); lia. Qed.

(** The coordinate sizes of the supported curves against the size macros. *)
Lemma curve_sizes family bits :
(family, bits) ∈ supported_curves ->
coordinate_bytes family bits <= 2 * PSA_BITS_TO_BYTES bits + 1 /\
coordinate_bytes family bits <= PSA_KEY_EXPORT_ECC_KEY_PAIR_MAX_SIZE bits /\
(raw_point_family family = false \/ family = PSA_ECC_FAMILY_MONTGOMERY ->
 coordinate_bytes family bits = PSA_BITS_TO_BYTES bits).
Proof.
intros Hin.
assert (Hall : forallb (fun p =>
(coordinate_bytes p.1 p.2 <=? 2 * PSA_BITS_TO_BYTES p.2 + 1) &&
(coordinate_bytes p.1 p.2 <=? PSA_KEY_EXPORT_ECC_KEY_PAIR_MAX_SIZE p.2) &&
implb (negb (raw_point_family p.1) || (p.1 =? PSA_ECC_FAMILY_MONTGOMERY))
  (coordinate_bytes p.1 p.2 =? PSA_BITS_TO_BYTES p.2)) supported_curves = true)
by (vm_compute; reflexivity).
rewrite forallb_forall in Hall. specialize (Hall _ (proj1 (list_elem_of_In _ _) Hin)).
apply andb_prop in Hall as [[H1 H2]%andb_prop H3]. cbn [fst snd] in *.
split_and!; [lia|lia|]. intros Hf. apply Z.eqb_eq.
destruct Hf as [Hf| ->]; [by rewrite Hf in H3|]. by rewrite Z.eqb_refl, orb_true_r in H3.
Qed.

Lemma ecc_export_length type bits data :
ecc_data_shape type bits data -> PSA_KEY_TYPE_IS_ECC_PUBLIC_KEY type = true ->
zlen data <= PSA_KEY_EXPORT_ECC_PUBLIC_KEY_MAX_SIZE bits.
Proof.
intros [Hcur Hsh] Hpub. destruct (curve_sizes _ _ Hcur) as (Hmax & _ & Hraw).
unfold PSA_KEY_EXPORT_ECC_PUBLIC_KEY_MAX_SIZE. rewrite Hpub in Hsh. cbn [andb] in Hsh.
destruct (raw_point_family (PSA_KEY_TYPE_ECC_GET_FAMILY type)); cbn [negb] in Hsh; [lia|].
destruct Hsh as (x & y & -> & Hx & Hy). rewrite Hraw in Hx, Hy by (by left).
unfold zlen in *. simpl length. rewrite length_app. lia.
Qed.

Lemma ecc_pair_length type bits data :
ecc_data_shape type bits data -> PSA_KEY_TYPE_IS_ECC_PUBLIC_KEY type = false ->
zlen data <= PSA_KEY_EXPORT_ECC_KEY_PAIR_MAX_SIZE bits /\
(PSA_KEY_TYPE_ECC_GET_FAMILY type = PSA_ECC_FAMILY_MONTGOMERY -> zlen data = PSA_BITS_TO_BYTES bits).
Proof.
intros [Hcur Hsh] Hpub. destruct (curve_sizes _ _ Hcur) as (_ & Hmax & Hraw).
rewrite Hpub in Hsh. cbn [andb] in Hsh. rewrite Hsh. split; [done|]. intros Hf. apply Hraw. by right.
Qed.

Lemma pqc_size (l : list (Z * Z)) bits len n (f : Z -> Z) :
(bits, len) ∈ l -> forallb (fun p => f p.1 =? p.2) l = true -> f bits = n -> len <= n.
Proof.
intros Hin Hall <-. rewrite forallb_forall in Hall.
specialize (Hall _ (proj1 (list_elem_of_In _ _) Hin)). cbn in Hall. lia.
Qed.

Lemma hash_based_size type bits :
bool_decide (type ∈ [PSA_KEY_TYPE_LMS_PUBLIC_KEY; PSA_KEY_TYPE_HSS_PUBLIC_KEY;
                   PSA_KEY_TYPE_XMSS_PUBLIC_KEY; PSA_KEY_TYPE_XMSS_MT_PUBLIC_KEY]) = true ->
PSA_EXPORT_KEY_OUTPUT_SIZE type bits = 0.
Proof.
rewrite bool_decide_eq_true, !elem_of_cons, elem_of_nil.
by intros [->|[->|[->|[->|[]]]]].
Qed.

(** When [PSA_EXPORT_KEY_OUTPUT_SIZE] knows a key type and size at all, it is
  large enough for every well-formed key of them, so that the buffer that
  [psa_wrap_key] takes holds the key.  RSA and Diffie-Hellman keys are apart:
  their encodings have no length of their own. *)
Theorem export_size_suffices a data :
0 <= attr_type a < 2 ^ 16 -> well_formed_key a data ->
key_class (attr_type a) ∉ [CkRsa; CkDh; CkOther] ->
PSA_EXPORT_KEY_OUTPUT_SIZE (attr_type a) (attr_bits a) <> 0 ->
zlen data <= PSA_EXPORT_KEY_OUTPUT_SIZE (attr_type a) (attr_bits a).
Proof.
intros Hty Hwf Hcl Hnz. pose proof (export_arm_true _ Hty) as Harm.
unfold well_formed_key, export_arm in *.
destruct (key_class (attr_type a)) eqn:Hc; cbv iota zeta in *; try (by destruct Hcl; rewrite !elem_of_cons; auto).
1-4: unfold PSA_EXPORT_KEY_OUTPUT_SIZE; rewrite Harm.
- destruct Hwf as [-> _]. by rewrite bits_to_bytes_of.
- destruct Hwf as [-> ->]. done.
- destruct Hwf as [-> ->]. done.
- destruct Hwf as [-> _]. by rewrite bits_to_bytes_of.
- rewrite bool_decide_eq_true, !elem_of_cons, elem_of_nil in Harm.
  destruct Harm as [Hk|[Hk|[Hk|[Hk|[]]]]]; rewrite Hk in *.
  + destruct Hwf as [-> _]. done.
  + by apply (pqc_size [(128, 1312); (192, 1952); (256, 2592)] _ _ _ (PSA_EXPORT_KEY_OUTPUT_SIZE PSA_KEY_TYPE_ML_DSA_PUBLIC_KEY) Hwf).
  + by destruct (Hnz eq_refl).
  + by destruct (Hnz eq_refl).
- rewrite bool_decide_eq_true, !elem_of_cons, elem_of_nil in Harm.
  destruct Harm as [Hk|[Hk|[Hk|[Hk|[]]]]]; rewrite Hk in *.
  + destruct Hwf as [-> _]. done.
  + by apply (pqc_size [(512, 800); (768, 1184); (1024, 1568)] _ _ _ (PSA_EXPORT_KEY_OUTPUT_SIZE PSA_KEY_TYPE_ML_KEM_PUBLIC_KEY) Hwf).
  + by destruct (Hnz eq_refl).
  + by destruct (Hnz eq_refl).
- by destruct (hash_based_size _ (attr_bits a) Harm).
- by destruct (hash_based_size _ (attr_bits a) Harm).
- by destruct (hash_based_size _ (attr_bits a) Harm).
- destruct Hwf as [Hshape _]. apply andb_prop in Harm as [Hlater Harm].
  repeat (apply andb_prop in Hlater as [Hlater ?]).
  unfold PSA_EXPORT_KEY_OUTPUT_SIZE.
  repeat match goal with H : negb ?b = true |- _ => apply negb_true_iff in H; rewrite ?H end.
  destruct (PSA_KEY_TYPE_IS_ECC_KEY_PAIR (attr_type a)).
  + apply andb_prop in Harm as [Hpub%negb_true_iff Hmont].
    destruct (ecc_pair_length _ _ _ Hshape Hpub) as [Hle Hm].
    destruct (attr_type a =? MONTGOMERY_KEY_PAIR); [|done].
    apply Z.eqb_eq in Hmont. rewrite Hm by done. done.
  + apply andb_prop in Harm as [Hpub Hmont%negb_true_iff].
    rewrite Hmont, Hpub. by eapply ecc_export_length.
Qed.
End ExportSize.
