(* ===== verification/KemSpec.v ===== *)
(** What key encapsulation promises ([src/psa_kem.c]): under which key a secret is
    encapsulated or decapsulated, that it becomes the data of the output key, and
    that the two sides come to hold the same secret. *)

From stdpp Require Import base decidable list gmap.
From Stdlib Require Import ZArith Lia.
From Stdlib Require Import Strings.Byte.
From S2P Require Import Prelude.
From S2P Require Import Values.
From S2P Require Import Engine.
From S2P Require Import KeyPolicy.
From S2P Require Import KeyFormat.
From S2P Require Import StoreIface.
From S2P Require Import Library.
From S2P Require Import KeyStore.
From S2P Require Import KeyStoreRules.
From S2P Require Import Operation.
From S2P Require Import ImportRules.
From S2P Require Import KeyStoreSpec.
From S2P Require Import KeyStoreCalls.
From S2P Require Import KeyStoreInv.
From S2P Require Import KeyReaders.
From S2P Require Import WolfSign.
From S2P Require Import Kem.

#[local] Open Scope Z_scope.

Section KemSpec.
Context {C : Config} {E : WolfCryptErr} {EO : WolfCryptErrOk E} {K : WolfCryptKeys} {R : WolfCryptRng}.
Context {O : StoreOps} {L : StoreLaws O} {B : KeyBackend}.
Context {ROK : WolfCryptRngOk R} {BOK : KeyBackendOk}.
Context {WK : WolfCryptMlKem} {WKO : WolfCryptMlKemOk WK} {Op : Type}.

Implicit Types s : opstate O Op.
Implicit Types t : key_table.

(** * The key *)

Definition kem_verdict (type_ok : Z -> bool) (usage alg : Z)
  (entry : option (psa_key_attributes_t * list byte))
: psa_status_t + psa_key_attributes_t * list byte :=
match entry with
| None => inl PSA_ERROR_INVALID_HANDLE
| Some (a, d) =>
    match kem_key_checks type_ok usage alg a with
    | PSA_SUCCESS => inr (a, d)
    | e => inl e
    end
end.

Lemma kem_verdict_inr type_ok usage alg entry a d :
kem_verdict type_ok usage alg entry = inr (a, d) ->
entry = Some (a, d) /\ type_ok (attr_type a) = true /\
Z.land (psa_get_key_usage_flags a) usage <> 0 /\ wolfpsa_key_permits_alg a alg = true.
Proof.
unfold kem_verdict. destruct entry as [[a' d']|]; [|done]. unfold kem_key_checks.
destruct (type_ok (attr_type a')) eqn:Ht; [|done]. cbn [negb].
destruct (Z.eqb_spec (Z.land (psa_get_key_usage_flags a') usage) 0); [done|].
destruct (wolfpsa_key_permits_alg a' alg) eqn:Hp; [|done]. by intros [= <- <-].
Qed.

Lemma wp_load_kem_key type_ok usage key alg
  (Q : psa_status_t + psa_key_attributes_t * list byte -> opstate O Op -> Prop) s :
store_inv (op_lib s) ->
(forall r s', reads s s' ->
   (forall x, r = inr x -> kem_verdict type_ok usage alg (table (op_lib s) key) = inr x) ->
   r <> inl PSA_SUCCESS ->
   (ready s -> valid_id key -> r = kem_verdict type_ok usage alg (table (op_lib s) key)) -> Q r s') ->
wp (load_kem_key type_ok usage key alg) Q s.
Proof.
intros Hi HQ. unfold load_kem_key. wp_seq. apply wp_key_data; [done|].
intros st a d k Hr Hcase. wp_seq. apply HQ; [done|..].
- intros x. destruct Hcase as [(-> & a0 & d0 & -> & -> & ->)|(Hne & _)]; [|by destruct st].
  simpl. by destruct (kem_key_checks type_ok usage alg a0).
- destruct Hcase as [(-> & a0 & d0 & _ & -> & ->)|(Hne & _)]; [|by destruct st].
  simpl. by destruct (kem_key_checks type_ok usage alg a0).
- intros Hs Hid. destruct Hcase as [(-> & a0 & d0 & -> & -> & ->)|(_ & _ & Hg)]; [done|].
  destruct (Hg Hs Hid) as [-> ->]. done.
Qed.

(** A stored key pair holds a seed of a parameter set. *)
Lemma pair_well_formed s key a d :
store_inv (op_lib s) -> table (op_lib s) key = Some (a, d) -> attr_type a = PSA_KEY_TYPE_ML_KEM_KEY_PAIR ->
zlen d = WOLFPSA_MLKEM_SEED_SIZE /\ mlkem_bits (attr_bits a).
Proof.
intros Hi Ht Hty. destruct (table_good _ _ _ _ Hi Ht) as [Hv _]. pose proof (vk_key _ _ Hv) as Hwf.
unfold well_formed_key in Hwf. rewrite Hty in Hwf.
change (key_class PSA_KEY_TYPE_ML_KEM_KEY_PAIR) with CkMlKem in Hwf. cbv iota in Hwf.
by rewrite Z.eqb_refl in Hwf.
Qed.

(** * The output key *)

(** The secret becomes a key, or no key changes. *)
Lemma wp_import_secret attributes ss (Q : psa_status_t * Z -> opstate O Op -> Prop) s0 s :
store_inv (op_lib s0) -> reads s0 s -> wf_attributes attributes -> user_id attributes ->
zlen ss = WOLFPSA_MLKEM_SS_SIZE ->
(forall st id s', store_inv (op_lib s') ->
   (st = PSA_SUCCESS -> import_step (table (op_lib s0)) (table (op_lib s')) attributes ss id) ->
   (st <> PSA_SUCCESS -> id = PSA_KEY_ID_NULL /\ same_keys (table (op_lib s0)) (table (op_lib s'))) ->
   (ready s -> forall b, import_validate attributes ss = inr b ->
    (caller_id b = PSA_KEY_ID_NULL -> vendor_id (g_next_key_id (op_lib s))) ->
    ~ id_taken b (assigned_id b (op_lib s)) (op_lib s) -> st = PSA_SUCCESS) -> Q (st, id) s') ->
wp (import_secret attributes ss) Q s.
Proof.
intros Hi Hr Hwf Hu Hlen HQ.
assert (Hfit : fits ss) by (unfold fits, attr_length, sizeof_size_t; rewrite Hlen; by vm_compute).
pose proof (reads_store_inv _ _ Hi Hr) as Hi1.
unfold import_secret. wp_seq. apply wp_lib. unfold wp.
destruct (psa_import_key (Some attributes) (Some ss) true (op_lib s)) as [[st id] k'] eqn:Himp.
cbn [fst snd]. wp_seq.
destruct (import_outcome attributes ss _ _ _ Hi1 Hwf Hfit Hu Himp) as [Hi2 Hstep]. cbn [fst snd] in Hstep.
assert (Hsame : forall i, table (op_lib s) i = table (op_lib s0) i) by (intros; by apply reads_table).
apply HQ; [done|..].
- intros ->. by eapply import_step_same.
- intros Hst. rewrite bool_decide_eq_false_2 by done. split; [done|].
  rewrite decide_False in Hstep by done. intros i Hi0. cbn [op_lib with_lib]. rewrite Hstep by done. apply Hsame.
- intros (_ & Hge & Hidle & Hcr) b Hval Hvend Hfree.
  pose proof (import_succeeds attributes ss (op_lib s) b Hidle Hcr Hge Hwf Hfit Hval Hvend Hfree) as H.
  rewrite Himp in H. by injection H.
Qed.

(** * Encapsulation *)

(** The cipher text and the secret that a stored key encapsulates. *)
Definition encapsulated (a : psa_key_attributes_t) (d ct ss : list byte) : Prop :=
let set := mlkem_bits_to_type (attr_bits a) in
mlkem_encaps set (mlkem_public set (attr_type a) d) ct ss.

Lemma kem_arguments_success alg attributes :
kem_arguments alg attributes = PSA_SUCCESS ->
alg = PSA_ALG_ML_KEM /\ wolfpsa_kem_check_output_attributes attributes = PSA_SUCCESS.
Proof.
unfold kem_arguments, wolfpsa_kem_check_alg. destruct (Z.eqb_spec alg PSA_ALG_ML_KEM); [done|].
by destruct (PSA_ALG_IS_KEY_ENCAPSULATION alg).
Qed.

Lemma cipher_size_macro type bits :
kem_public_or_pair type = true ->
PSA_ENCAPSULATE_CIPHERTEXT_SIZE type bits PSA_ALG_ML_KEM = mlkem_cipher_size bits.
Proof.
unfold kem_public_or_pair, PSA_ENCAPSULATE_CIPHERTEXT_SIZE. intros H.
replace (PSA_KEY_TYPE_IS_ML_KEM type) with true; [done|].
by apply orb_true_iff in H as [->%Z.eqb_eq| ->%Z.eqb_eq].
Qed.

(** After an encapsulation: a success as the key permits it, a failure that changes
  nothing, and the reason of a refused key. *)
Definition encapsulate_post attributes key alg (ciphertext : bool) size s
  (r : psa_status_t * (Z * list byte)) s' : Prop :=
store_inv (op_lib s') /\
(r.1 = PSA_SUCCESS -> alg = PSA_ALG_ML_KEM /\ exists a d ss,
   kem_verdict kem_public_or_pair PSA_KEY_USAGE_ENCRYPT alg (table (op_lib s) key) = inr (a, d) /\
   encapsulated a d r.2.2 ss /\ zlen r.2.2 = mlkem_cipher_size (attr_bits a) /\ zlen r.2.2 <= size /\
   zlen ss = WOLFPSA_MLKEM_SS_SIZE /\ WOLFSSL_HAVE_MLKEM = true /\
   import_step (table (op_lib s)) (table (op_lib s')) attributes ss r.2.1) /\
(r.1 <> PSA_SUCCESS ->
   r.2 = (PSA_KEY_ID_NULL, []) /\ same_keys (table (op_lib s)) (table (op_lib s'))) /\
(ready s -> valid_id key -> ciphertext = true \/ size = 0 -> kem_arguments alg attributes = PSA_SUCCESS ->
 forall e, kem_verdict kem_public_or_pair PSA_KEY_USAGE_ENCRYPT alg (table (op_lib s) key) = inl e ->
 r.1 = e).

Lemma wp_encapsulate attributes key alg ciphertext size s :
store_inv (op_lib s) -> wf_attributes attributes -> user_id attributes ->
wp (psa_encapsulate key alg (Some attributes) true ciphertext size true)
  (encapsulate_post attributes key alg ciphertext size s) s.
Proof.
intros Hi Hwf Hu. unfold psa_encapsulate. cbv zeta. cbn [negb orb].
set (Post := encapsulate_post attributes key alg ciphertext size s).
set (verdict := kem_verdict kem_public_or_pair PSA_KEY_USAGE_ENCRYPT alg (table (op_lib s) key)).
assert (Hbad : forall e s', reads s s' -> e <> PSA_SUCCESS ->
  (ready s -> valid_id key -> ciphertext = true \/ size = 0 -> kem_arguments alg attributes = PSA_SUCCESS ->
   forall e', verdict = inl e' -> e = e') ->
  wp (mret (e, (PSA_KEY_ID_NULL, []))) Post s').
{ intros e s' (_ & Hr & _) He Hg. destruct (settled_store_inv _ _ Hi Hr). apply wp_ret. by split_and!. }
destruct (negb ciphertext && negb (size =? 0)) eqn:Hnull.
{ apply Hbad; [apply reads_refl|done|]. intros _ _ [->| ->]; [done|]. by rewrite andb_false_r in Hnull. }
destruct (kem_arguments alg attributes) eqn:Ha;
  try (apply Hbad; [apply reads_refl|done|by intros _ _ _ Hc]).
destruct (kem_arguments_success _ _ Ha) as [-> _].
wp_seq. apply wp_load_kem_key; [done|]. fold verdict. intros r s1 Hr1 Hok1 Hne1 Hg1.
destruct r as [e|[a d]].
{ apply Hbad; [done|congruence|]. intros Hs Hid _ _ e' He'. specialize (Hg1 Hs Hid). congruence. }
specialize (Hok1 _ eq_refl). assert (Hno : forall e', verdict = inl e' -> False) by congruence.
destruct (kem_verdict_inr _ _ _ _ _ _ Hok1) as (_ & Hty & _).
rewrite cipher_size_macro by done.
destruct (Z.ltb_spec size (mlkem_cipher_size (attr_bits a)));
  [apply Hbad; [done|done|by intros _ _ _ _ e' ?%Hno]|].
destruct WOLFSSL_HAVE_MLKEM eqn:Hconf; cbn [negb];
  [|apply Hbad; [done|done|by intros _ _ _ _ e' ?%Hno]].
wp_seq. eapply wp_mono; [apply (mlkem_encapsulate_spec _ _ _ _ True)|].
intros [st [ct ss]] s2 [Hr2 Henc]. pose proof (reads_trans _ _ _ Hr1 Hr2) as Hr12. cbv iota beta.
destruct (decide (st = PSA_SUCCESS)) as [->|Hst].
2: { destruct st; try done; (apply Hbad; [done|done|by intros _ _ _ _ e' ?%Hno]). }
destruct (Henc eq_refl) as (Henc' & Hct & _ & Hss). cbn [fst snd] in *.
wp_seq. apply (wp_import_secret _ _ _ s); [done..|]. intros st id s3 Hi3 Hyes Hno3 _. wp_seq.
destruct (decide (st = PSA_SUCCESS)) as [->|Hst].
- rewrite bool_decide_eq_true_2 by done. split_and!; [done| |done|by intros _ _ _ _ e' ?%Hno].
  intros _. split; [done|]. exists a, d, ss. cbn [fst snd]. fold verdict.
  split_and!; [done|done|done|lia|done|done|by apply Hyes].
- rewrite bool_decide_eq_false_2 by done. destruct (Hno3 Hst) as [-> Hsame].
  by split_and!; [..|intros _ _ _ _ e' ?%Hno].
Qed.

(** C22: [psa_encapsulate] succeeds only for ML-KEM and only under a stored ML-KEM key
  (a pair or a public key) that has the ENCRYPT usage and permits the algorithm;
  then cipher text and output key are an encapsulation to that key: the output
  key holds the 32-byte secret of the cipher text, imported with the caller's
  attributes, and the cipher text has the size of FIPS 203 and fits the caller's
  buffer.  A failed call gives neither and changes no key; a key that is missing
  or not permitted is reported as such when nothing fails underneath. *)
Theorem encapsulate_spec attributes key alg ciphertext size s st id ct s' :
store_inv (op_lib s) -> wf_attributes attributes -> user_id attributes ->
psa_encapsulate key alg (Some attributes) true ciphertext size true s = ((st, (id, ct)), s') ->
store_inv (op_lib s') /\
(st = PSA_SUCCESS -> alg = PSA_ALG_ML_KEM /\ exists a d ss,
   table (op_lib s) key = Some (a, d) /\ kem_public_or_pair (attr_type a) = true /\
   Z.land (psa_get_key_usage_flags a) PSA_KEY_USAGE_ENCRYPT <> 0 /\
   wolfpsa_key_permits_alg a alg = true /\
   encapsulated a d ct ss /\ zlen ct = mlkem_cipher_size (attr_bits a) /\ zlen ct <= size /\
   zlen ss = WOLFPSA_MLKEM_SS_SIZE /\
   import_step (table (op_lib s)) (table (op_lib s')) attributes ss id) /\
(st <> PSA_SUCCESS ->
   id = PSA_KEY_ID_NULL /\ ct = [] /\ same_keys (table (op_lib s)) (table (op_lib s'))) /\
(ready s -> valid_id key -> ciphertext = true \/ size = 0 -> kem_arguments alg attributes = PSA_SUCCESS ->
 forall e, kem_verdict kem_public_or_pair PSA_KEY_USAGE_ENCRYPT alg (table (op_lib s) key) = inl e ->
 st = e).
Proof.
intros Hi Hwf Hu Hrun.
destruct (wp_run _ _ _ _ _ Hrun (wp_encapsulate attributes key alg ciphertext size s Hi Hwf Hu))
  as (Hi' & Hok & Hno & Hg). cbn [fst snd] in *.
split_and!; [done| |intros Hst; by destruct (Hno Hst) as [[= -> ->] ?]|done].
intros Hst. destruct (Hok Hst) as (-> & a & d & ss & Hv & ? & ? & ? & ? & _ & ?). split; [done|].
destruct (kem_verdict_inr _ _ _ _ _ _ Hv) as (? & ? & ? & ?). by exists a, d, ss.
Qed.

(** * Decapsulation *)

Definition decapsulate_post attributes key alg ct s (r : psa_status_t * Z) s' : Prop :=
store_inv (op_lib s') /\
(r.1 = PSA_SUCCESS -> alg = PSA_ALG_ML_KEM /\ exists a d ss,
   kem_verdict kem_pair PSA_KEY_USAGE_DECRYPT alg (table (op_lib s) key) = inr (a, d) /\
   zlen d = WOLFPSA_MLKEM_SEED_SIZE /\ zlen ct = mlkem_cipher_size (attr_bits a) /\
   wc_MlKemKey_Decapsulate (mlkem_bits_to_type (attr_bits a)) d ct = (0, ss) /\
   zlen ss = WOLFPSA_MLKEM_SS_SIZE /\
   import_step (table (op_lib s)) (table (op_lib s')) attributes ss r.2) /\
(r.1 <> PSA_SUCCESS ->
   r.2 = PSA_KEY_ID_NULL /\ same_keys (table (op_lib s)) (table (op_lib s'))) /\
(ready s -> valid_id key -> kem_arguments alg attributes = PSA_SUCCESS ->
 match kem_verdict kem_pair PSA_KEY_USAGE_DECRYPT alg (table (op_lib s) key) with
 | inl e => r.1 = e
 | inr (a, d) =>
     forall pub ss b, WOLFSSL_HAVE_MLKEM = true -> zlen d = WOLFPSA_MLKEM_SEED_SIZE -> mlkem_bits (attr_bits a) ->
     zlen ct = mlkem_cipher_size (attr_bits a) ->
     wc_MlKemKey_MakeKeyWithRandom (mlkem_bits_to_type (attr_bits a)) d = (0, pub) ->
     mlkem_encaps (mlkem_bits_to_type (attr_bits a)) pub ct ss ->
     import_validate attributes ss = inr b ->
     (caller_id b = PSA_KEY_ID_NULL -> vendor_id (g_next_key_id (op_lib s))) ->
     ~ id_taken b (assigned_id b (op_lib s)) (op_lib s) ->
     r.1 = PSA_SUCCESS /\ import_step (table (op_lib s)) (table (op_lib s')) attributes ss r.2
 end).

Lemma wp_decapsulate attributes key alg ct s :
store_inv (op_lib s) -> wf_attributes attributes -> user_id attributes ->
wp (psa_decapsulate key alg (Bytes ct) (Some attributes) true)
  (decapsulate_post attributes key alg ct s) s.
Proof.
intros Hi Hwf Hu. unfold psa_decapsulate. cbv zeta.
set (Post := decapsulate_post attributes key alg ct s).
set (verdict := kem_verdict kem_pair PSA_KEY_USAGE_DECRYPT alg (table (op_lib s) key)).
assert (Hbad : forall e s', reads s s' -> e <> PSA_SUCCESS ->
  (ready s -> valid_id key -> kem_arguments alg attributes = PSA_SUCCESS ->
   match verdict with
   | inl e' => e = e'
   | inr (a, d) => WOLFSSL_HAVE_MLKEM = true -> zlen d = WOLFPSA_MLKEM_SEED_SIZE -> mlkem_bits (attr_bits a) ->
       forall pub ss, zlen ct = mlkem_cipher_size (attr_bits a) ->
       wc_MlKemKey_MakeKeyWithRandom (mlkem_bits_to_type (attr_bits a)) d = (0, pub) ->
       mlkem_encaps (mlkem_bits_to_type (attr_bits a)) pub ct ss -> False
   end) ->
  wp (mret (e, PSA_KEY_ID_NULL)) Post s').
{ intros e s' (_ & Hr & _) He Hg. destruct (settled_store_inv _ _ Hi Hr). apply wp_ret. split_and!; [done..|].
  intros Hs Hid Ha. specialize (Hg Hs Hid Ha). fold verdict. destruct verdict as [e'|[a d]]; [done|].
  intros pub ss b Hc Hz Hb Hl Hm He' _ _ _. by destruct (Hg Hc Hz Hb pub ss Hl Hm He'). }
destruct (kem_arguments alg attributes) eqn:Ha;
  try (apply Hbad; [apply reads_refl|done|by intros _ _ Hc]).
destruct (kem_arguments_success _ _ Ha) as [-> _].
wp_seq. apply wp_load_kem_key; [done|]. fold verdict. intros r s1 Hr1 Hok1 Hne1 Hg1.
destruct r as [e|[a d]].
{ apply Hbad; [done|congruence|]. intros Hs Hid _. by rewrite <- Hg1. }
specialize (Hok1 _ eq_refl).
destruct (Z.eqb_spec (zlen d) WOLFPSA_MLKEM_SEED_SIZE) as [Hseed|Hseed]; cbn [negb].
2: { apply Hbad; [done|done|]. intros _ _ _. by rewrite Hok1. }
destruct WOLFSSL_HAVE_MLKEM eqn:Hconf; cbn [negb].
2: { apply Hbad; [done|done|]. intros _ _ _. by rewrite Hok1. }
wp_seq. eapply wp_mono; [apply (mlkem_decapsulate_spec _ _ _ True)|].
intros [st ss] s2 (Hr2 & Hdec & Hgood). pose proof (reads_trans _ _ _ Hr1 Hr2) as Hr12. cbn [fst snd] in *.
destruct (decide (st = PSA_SUCCESS)) as [->|Hst].
2: { assert (Hf : wp (mret (st, PSA_KEY_ID_NULL)) Post s2); [|by destruct st].
     apply Hbad; [done|done|]. intros Hs _ _. rewrite Hok1. intros _ _ Hb pub ss' Hl Hm He.
     assert (Hs1 : ready s1) by apply Hr1, Hs. pose proof (Hgood (conj I Hs1) _ _ Hb Hl Hm He) as [= ? _]; done. }
destruct (Hdec eq_refl) as (Hb & Hct & Hss & Hd).
apply (wp_import_secret _ _ _ s); [done..|]. intros st id s3 Hi3 Hyes Hno Hsucc. split_and!; [done| |done|].
- intros Hst. split; [done|]. exists a, d, ss. cbn [fst snd] in *. by split_and!; [..|apply Hyes].
- intros Hs Hid _. fold verdict. rewrite Hok1. intros pub ss' b _ _ _ _ Hm He Hval Hvend Hfree. cbn [fst snd].
  assert (Hs1 : ready s1) by apply Hr1, Hs. pose proof (Hgood (conj I Hs1) _ _ Hb Hct Hm He) as [= <-].
  destruct Hr12 as (_ & (_ & Hc & _) & Hs2). unfold assigned_id, id_taken in *.
  rewrite (c_next _ _ Hc), (c_keys _ _ Hc), (c_records _ _ Hc) in Hsucc.
  assert (Hst : st = PSA_SUCCESS) by (by eapply Hsucc; [apply Hs2, Hs|..]). by split; [|apply Hyes].
Qed.

(** C23: [psa_decapsulate] succeeds only for ML-KEM and only under a stored ML-KEM key
  pair that has the DECRYPT usage and permits the algorithm, on a cipher text of
  the size that FIPS 203 gives to its parameter set; the output key holds the
  secret that the pair decapsulates, imported with the caller's attributes.  A
  failed call gives no key and changes none; a key that is missing or not
  permitted is reported as such when nothing fails underneath. *)
Theorem decapsulate_spec attributes key alg ct s st id s' :
store_inv (op_lib s) -> wf_attributes attributes -> user_id attributes ->
psa_decapsulate key alg (Bytes ct) (Some attributes) true s = ((st, id), s') ->
store_inv (op_lib s') /\
(st = PSA_SUCCESS -> alg = PSA_ALG_ML_KEM /\ exists a d ss,
   table (op_lib s) key = Some (a, d) /\ attr_type a = PSA_KEY_TYPE_ML_KEM_KEY_PAIR /\
   Z.land (psa_get_key_usage_flags a) PSA_KEY_USAGE_DECRYPT <> 0 /\
   wolfpsa_key_permits_alg a alg = true /\ zlen ct = mlkem_cipher_size (attr_bits a) /\
   wc_MlKemKey_Decapsulate (mlkem_bits_to_type (attr_bits a)) d ct = (0, ss) /\
   zlen ss = WOLFPSA_MLKEM_SS_SIZE /\
   import_step (table (op_lib s)) (table (op_lib s')) attributes ss id) /\
(st <> PSA_SUCCESS -> id = PSA_KEY_ID_NULL /\ same_keys (table (op_lib s)) (table (op_lib s'))) /\
(ready s -> valid_id key -> kem_arguments alg attributes = PSA_SUCCESS ->
 forall e, kem_verdict kem_pair PSA_KEY_USAGE_DECRYPT alg (table (op_lib s) key) = inl e -> st = e).
Proof.
intros Hi Hwf Hu Hrun.
destruct (wp_run _ _ _ _ _ Hrun (wp_decapsulate attributes key alg ct s Hi Hwf Hu)) as (Hi' & Hok & Hno & Hg).
cbn [fst snd] in *. split_and!; [done| |done|].
- intros Hst. destruct (Hok Hst) as (-> & a & d & ss & Hv & _ & ? & ? & ? & ?). split; [done|].
  destruct (kem_verdict_inr _ _ _ _ _ _ Hv) as (? & ?%Z.eqb_eq & ? & ?). by exists a, d, ss.
- intros Hs Hid Ha e Hv. specialize (Hg Hs Hid Ha). by rewrite Hv in Hg.
Qed.

(** * The two sides *)

(** The two sides agree.  When [psa_encapsulate] has given a cipher text and a key,
  [psa_decapsulate] of that cipher text, under a key pair that expands to the
  public key encapsulated to and that permits it, gives a key with the same data,
  whenever the caller's attributes accept a 32-byte secret, an identifier is
  left and nothing fails underneath. *)
Theorem kem_agreement attributes attributes2 key key2 ciphertext size s id ct s1 a d a2 d2 b :
store_inv (op_lib s) -> wf_attributes attributes -> user_id attributes ->
wf_attributes attributes2 -> user_id attributes2 -> kem_arguments PSA_ALG_ML_KEM attributes2 = PSA_SUCCESS ->
psa_encapsulate key PSA_ALG_ML_KEM (Some attributes) true ciphertext size true s = ((PSA_SUCCESS, (id, ct)), s1) ->
ready s1 -> valid_id key2 -> table (op_lib s) key = Some (a, d) ->
kem_verdict kem_pair PSA_KEY_USAGE_DECRYPT PSA_ALG_ML_KEM (table (op_lib s) key2) = inr (a2, d2) ->
attr_bits a2 = attr_bits a ->
wc_MlKemKey_MakeKeyWithRandom (mlkem_bits_to_type (attr_bits a2)) d2
= (0, mlkem_public (mlkem_bits_to_type (attr_bits a)) (attr_type a) d) ->
(forall ss, zlen ss = WOLFPSA_MLKEM_SS_SIZE -> import_validate attributes2 ss = inr b) ->
(caller_id b = PSA_KEY_ID_NULL -> vendor_id (g_next_key_id (op_lib s1))) ->
~ id_taken b (assigned_id b (op_lib s1)) (op_lib s1) ->
exists ss id2 s2, zlen ss = WOLFPSA_MLKEM_SS_SIZE /\
  option_map snd (table (op_lib s1) id) = Some ss /\
  psa_decapsulate key2 PSA_ALG_ML_KEM (Bytes ct) (Some attributes2) true s1 = ((PSA_SUCCESS, id2), s2) /\
  option_map snd (table (op_lib s2) id2) = Some ss.
Proof.
intros Hi Hwf Hu Hwf2 Hu2 Ha2 Hrun Hs1 Hid2 Ht Hk2 Hbits Hmk Hval Hvend Hfree.
destruct (wp_run _ _ _ _ _ Hrun (wp_encapsulate attributes key PSA_ALG_ML_KEM ciphertext size s Hi Hwf Hu))
  as (Hi1 & Hok & _). cbn [fst snd] in *.
destruct (Hok eq_refl) as (_ & a' & d' & ss & Hv & Henc & Hct & _ & Hss & Hconf & Himp).
destruct (kem_verdict_inr _ _ _ _ _ _ Hv) as (Ht' & _). rewrite Ht in Ht'. injection Ht' as <- <-.
destruct Himp as (b1 & _ & _ & _ & Hnone & Hnew & Hothers).
destruct (kem_verdict_inr _ _ _ _ _ _ Hk2) as (Ht2 & Hty2%Z.eqb_eq & _).
assert (Hk1 : table (op_lib s1) key2 = table (op_lib s) key2).
{ apply Hothers; [apply Hid2|]. intros ->. congruence. }
destruct (psa_decapsulate key2 PSA_ALG_ML_KEM (Bytes ct) (Some attributes2) true s1) as [[st id2] s2] eqn:Hdec.
destruct (wp_run _ _ _ _ _ Hdec (wp_decapsulate attributes2 key2 PSA_ALG_ML_KEM ct s1 Hi1 Hwf2 Hu2))
  as (_ & _ & _ & Hg). specialize (Hg Hs1 Hid2 Ha2). rewrite Hk1, Hk2 in Hg. cbn [fst snd] in Hg.
destruct (pair_well_formed s key2 a2 d2 Hi Ht2 Hty2) as [Hseed Hb].
set (pub := mlkem_public _ _ _) in Hmk.
destruct (Hg pub ss b Hconf Hseed Hb) as [-> Himp2]; [by rewrite Hbits|exact Hmk|rewrite Hbits; exact Henc|by apply Hval|exact Hvend|exact Hfree|].
destruct Himp2 as (b2 & _ & _ & _ & _ & Hnew2 & _).
exists ss, id2, s2. by rewrite Hnew, Hnew2.
Qed.
End KemSpec.
