(* ===== verification/PublicKeys.v ===== *)
(** Public keys end to end: what wolfCrypt promises of the calls of [KeyGen.v],
    that the key store may rely on that backend, that an exported public key is
    the public part of the stored key, and what follows for signatures. *)

From stdpp Require Import base decidable list.
From Stdlib Require Import ZArith Lia.
From Stdlib Require Import Strings.Byte.
From S2P Require Import Prelude.
From S2P Require Import Values.
From S2P Require Import Engine.
From S2P Require Import WolfCrypt.
From S2P Require Import KeyPolicy.
From S2P Require Import Der.
From S2P Require Import KeyFormat.
From S2P Require Import StoreIface.
From S2P Require Import Library.
From S2P Require Import KeyStore.
From S2P Require Import KeyStoreRules.
From S2P Require Import Operation.
From S2P Require Import ImportRules.
From S2P Require Import KeyStoreSpec.
From S2P Require Import KeyStoreCalls.
From S2P Require Import KeyStoreInv.
From S2P Require Import KeyReaders.
From S2P Require Import AsymValues.
From S2P Require Import WolfSign.
From S2P Require Import WolfPkc.
From S2P Require Import Hash.
From S2P Require Import HashSpec.
From S2P Require Import SignIface.
From S2P Require Import Sign.
From S2P Require Import SignRules.
From S2P Require Import SignSpec.
From S2P Require Import Rsa.
From S2P Require Import RsaSpec.
From S2P Require Import Ecc.
From S2P Require Import Edwards.
From S2P Require Import MlDsa.
From S2P Require Import LmsXmss.
From S2P Require Import SignBackends.
From S2P Require Import Kem.
From S2P Require Import KeyGen.
From S2P Require Import KemSpec.

#[local] Open Scope Z_scope.

(** * What wolfCrypt promises *)

(** Buffers are respected, and what is exported of a public key is read back as
  that key.  For RSA it is the library that writes the encoding, so the promise
  is about every DER encoding of the integers that [wc_RsaFlattenPublicKey]
  gave. *)
Class WolfCryptKeyGenOk (K : WolfCryptKeys) (E1 : WolfCryptEcc) (R1 : WolfCryptRsa K)
  (W1 : WolfCryptEdwards) (Q1 : WolfCryptMlDsa) (WK : WolfCryptMlKem) (G : WolfCryptKeyGen K E1) : Prop := {
  rsa_der_length k sz ret d : wc_RsaKeyToDer k sz = (ret, d) -> 0 <= ret -> ret <= sz;
  ecc_scalar_length k n d : mp_to_unsigned_bin_len k n = (0, d) -> zlen d = n;
  ed25519_private_length k sz d : wc_ed25519_export_private_only k sz = (0, d) -> zlen d <= sz;
  ed448_private_length k sz d : wc_ed448_export_private_only k sz = (0, d) -> zlen d <= sz;
  x25519_private_length k sz d : wc_curve25519_export_private_raw_ex k sz = (0, d) -> zlen d <= sz;
  x448_private_length k sz d : wc_curve448_export_private_raw_ex k sz = (0, d) -> zlen d <= sz;
  rsa_flatten_length pub n e : wc_RsaFlatten pub = (0, (n, e)) -> zlen n < INT_MAX /\ zlen e < INT_MAX;
  rsa_flatten_decodes der idx pub n e out :
    wc_RsaPrivateKeyDecode der = (0, (idx, pub)) -> wc_RsaFlatten pub = (0, (n, e)) ->
    der_read_rsa_public_key out = Some (be_val n, be_val e) ->
    exists idx', wc_RsaPublicKeyDecode out = (0, (idx', pub));
  ecc_export_import key curve out sz d :
    wc_ecc_import_private_key_ex key curve = 0 -> wc_ecc_make_pub_ex key curve = 0 ->
    wc_ecc_export_x963 (ecc_private_point key curve) out sz = (0, d) ->
    wc_ecc_import_x963_ex d curve = 0 /\ ecc_x963_point d curve = ecc_private_point key curve;
  ed25519_export_import key pub sz d :
    wc_ed25519_make_public key = (0, pub) -> wc_ed25519_export_public pub sz = (0, d) ->
    wc_ed25519_import_public d = (0, pub);
  ed448_export_import key pub sz d :
    wc_ed448_make_public key = (0, pub) -> wc_ed448_export_public pub sz = (0, d) ->
    wc_ed448_import_public d = (0, pub);
  mldsa_export_import level seed pub sz d :
    wc_MlDsaKey_MakeKeyFromSeed level seed = (0, pub) -> wc_MlDsaKey_ExportPubRaw level pub sz = (0, d) ->
    d = pub /\ wc_MlDsaKey_ImportPubRaw level pub = 0;
  mlkem_encode_decode type seed pub sz d :
    wc_MlKemKey_MakeKeyWithRandom type seed = (0, pub) -> wc_MlKemKey_PublicKeySize type = (0, sz) ->
    wc_MlKemKey_EncodePublicKey type pub sz = (0, d) ->
    d = pub /\ zlen pub = sz /\ wc_MlKemKey_DecodePublicKey type pub = 0 }.

(** * Key types *)

(** The type of the public key of a curve: the base and the family. *)
Lemma ecc_pair_family type :
PSA_KEY_TYPE_IS_ECC_KEY_PAIR type = true ->
exists c, 0 <= c < 256 /\ type = PSA_KEY_TYPE_ECC_KEY_PAIR_BASE + c.
Proof.
unfold PSA_KEY_TYPE_IS_ECC_KEY_PAIR. rewrite Z.eqb_eq.
change PSA_KEY_TYPE_ECC_CURVE_MASK with (Z.ones 8). rewrite <- Z.ldiff_land, Z.ldiff_ones_r by lia.
rewrite Z.shiftl_mul_pow2, Z.shiftr_div_pow2 by lia. change (2 ^ 8) with 256.
unfold PSA_KEY_TYPE_ECC_KEY_PAIR_BASE. intros H. exists (type mod 256).
pose proof (Z.div_mod type 256). pose proof (Z.mod_pos_bound type 256). lia.
Qed.

(** A test of the 256 families. *)
Lemma ecc_families (f : Z -> bool) :
forallb f (Z.of_nat <$> seq 0 256) = true -> forall c, 0 <= c < 256 -> f c = true.
Proof.
intros H c Hc. rewrite forallb_forall in H. apply H. apply list_elem_of_In, list_elem_of_fmap.
exists (Z.to_nat c). split; [lia|]. apply elem_of_seq. lia.
Qed.

Definition public_type_ok (c : Z) : bool :=
let t := PSA_KEY_TYPE_ECC_KEY_PAIR_BASE + c in
let p := PSA_KEY_TYPE_PUBLIC_KEY_OF_KEY_PAIR t in
PSA_KEY_TYPE_IS_ECC_PUBLIC_KEY p && PSA_KEY_TYPE_IS_ECC p && negb (PSA_KEY_TYPE_IS_ECC_KEY_PAIR p) &&
(PSA_KEY_TYPE_ECC_GET_FAMILY p =? c) && (PSA_KEY_TYPE_ECC_GET_FAMILY t =? c) &&
negb (PSA_KEY_TYPE_IS_RSA p) && (PSA_KEY_TYPE_PUBLIC_KEY_OF_KEY_PAIR p =? p) &&
Bool.eqb (p =? TWISTED_EDWARDS_PUBLIC_KEY) (t =? TWISTED_EDWARDS_KEY_PAIR) &&
negb (p =? TWISTED_EDWARDS_KEY_PAIR) && negb (t =? TWISTED_EDWARDS_PUBLIC_KEY) &&
Bool.eqb (t =? TWISTED_EDWARDS_KEY_PAIR) (c =? PSA_ECC_FAMILY_TWISTED_EDWARDS) &&
negb (is_lms_type p || is_xmss_type p) && negb (is_lms_type t || is_xmss_type t).

Lemma ecc_public_type type :
PSA_KEY_TYPE_IS_ECC_KEY_PAIR type = true ->
public_type_ok (type - PSA_KEY_TYPE_ECC_KEY_PAIR_BASE) = true.
Proof.
intros (c & Hc & ->)%ecc_pair_family. replace (_ - _) with c by lia. revert c Hc.
apply ecc_families. vm_compute. reflexivity.
Qed.

Lemma public_of_public type :
PSA_KEY_TYPE_PUBLIC_KEY_OF_KEY_PAIR (PSA_KEY_TYPE_PUBLIC_KEY_OF_KEY_PAIR type)
= PSA_KEY_TYPE_PUBLIC_KEY_OF_KEY_PAIR type.
Proof. unfold PSA_KEY_TYPE_PUBLIC_KEY_OF_KEY_PAIR. by rewrite <- Z.land_assoc, Z.land_diag. Qed.

Lemma pair_of_public type :
PSA_KEY_TYPE_IS_KEY_PAIR type = true ->
type = Z.lor (PSA_KEY_TYPE_PUBLIC_KEY_OF_KEY_PAIR type) PSA_KEY_TYPE_CATEGORY_FLAG_PAIR.
Proof.
unfold PSA_KEY_TYPE_IS_KEY_PAIR, PSA_KEY_TYPE_PUBLIC_KEY_OF_KEY_PAIR. rewrite Z.eqb_eq, <- Z.ldiff_land. intros H.
rewrite <- (Z.lor_ldiff_and type PSA_KEY_TYPE_CATEGORY_FLAG_PAIR) at 1. f_equal.
transitivity (Z.land (Z.land type PSA_KEY_TYPE_CATEGORY_MASK) PSA_KEY_TYPE_CATEGORY_FLAG_PAIR).
- by rewrite <- Z.land_assoc.
- by rewrite H.
Qed.

Lemma ecc_pair_base type :
PSA_KEY_TYPE_IS_KEY_PAIR type = true -> PSA_KEY_TYPE_IS_ECC type = true ->
PSA_KEY_TYPE_IS_ECC_KEY_PAIR type = true.
Proof.
unfold PSA_KEY_TYPE_IS_ECC, PSA_KEY_TYPE_IS_ECC_KEY_PAIR. rewrite !Z.eqb_eq. intros Hp He.
rewrite (pair_of_public _ Hp), Z.land_lor_distr_l, He. done.
Qed.

(** * The key store may rely on the backend *)

Section Backend.
Context {C : Config} {E : WolfCryptErr} {EO : WolfCryptErrOk E} {K : WolfCryptKeys} {R : WolfCryptRng}.
Context {R1 : WolfCryptRsa K} {E1 : WolfCryptEcc} {W1 : WolfCryptEdwards} {Q1 : WolfCryptMlDsa}.
Context {WK : WolfCryptMlKem} {G : WolfCryptKeyGen K E1} {GO : WolfCryptKeyGenOk K E1 R1 W1 Q1 WK G}.

Lemma checked_success ret (k : psa_status_t * list byte) d :
Gen.checked ret k = (PSA_SUCCESS, d) -> ret = 0 /\ k = (PSA_SUCCESS, d).
Proof.
unfold Gen.checked. destruct (Z.eqb_spec ret 0) as [->|Hne]; cbn [negb]; [done|].
unfold Gen.failed. intros [= He _]. by apply wc_error_success in He.
Qed.

(** A success went through every check in front of it. *)
Ltac checks H :=
repeat match type of H with
| Gen.checked _ _ = (PSA_SUCCESS, _) => apply checked_success in H as [? H]
| (let '(_, _) := ?p in _) = _ => let Hp := fresh "Hp" in destruct p as [? ?] eqn:Hp
| Gen.failed _ = (PSA_SUCCESS, _) => unfold Gen.failed in H; injection H as H _; apply wc_error_success in H
| (if ?b then _ else _) = _ => let Hb := fresh "Hb" in destruct b eqn:Hb; [try done|try done]
end; simplify_eq/=.

#[export] Instance wolfcrypt_key_backend_ok : KeyBackendOk.
Proof.
split; intros n t b sz d; cbn [psa_asymmetric_generate_key_rsa psa_asymmetric_generate_key_ecc
  psa_asymmetric_generate_key_ed25519 psa_asymmetric_generate_key_ed448 psa_asymmetric_generate_key_x25519
  psa_asymmetric_generate_key_x448 wolfcrypt_key_backend]; intros H.
- unfold Gen.psa_asymmetric_generate_key_rsa in H. checks H.
  apply Z.ltb_ge in Hb2. eapply rsa_der_length in Hp0; [|done]. unfold zlen. rewrite length_take. lia.
- unfold Gen.psa_asymmetric_generate_key_ecc in H. cbv zeta in H. checks H.
  apply Z.ltb_ge in Hb3. by apply ecc_scalar_length in Hp0 as ->.
- unfold Gen.psa_asymmetric_generate_key_ed25519 in H. checks H. by eapply ed25519_private_length.
- unfold Gen.psa_asymmetric_generate_key_ed448 in H. checks H. by eapply ed448_private_length.
- unfold Gen.psa_asymmetric_generate_key_x25519 in H. checks H. by eapply x25519_private_length.
- unfold Gen.psa_asymmetric_generate_key_x448 in H. checks H. by eapply x448_private_length.
Qed.
End Backend.

(** * An exported public key is the public part of the key *)

Definition montgomery (type : Z) : bool :=
PSA_KEY_TYPE_IS_ECC type && (PSA_KEY_TYPE_ECC_GET_FAMILY type =? PSA_ECC_FAMILY_MONTGOMERY).

Section Exported.
Context {C : Config} {E : WolfCryptErr} {EO : WolfCryptErrOk E} {K : WolfCryptKeys} {R : WolfCryptRng}.
Context {M1 : WolfCryptMisc} {M2 : WolfCryptMiscOk M1} {D1 : WolfCryptDigest}.
Context {H1 : WolfCryptHash} {H2 : WolfCryptHashOk H1}.
Context {R1 : WolfCryptRsa K} {R2 : WolfCryptRsaOk K R1} {E1 : WolfCryptEcc} {E2 : WolfCryptEccOk K E1}.
Context {W1 : WolfCryptEdwards} {W2 : WolfCryptEdwardsOk W1}.
Context {Q1 : WolfCryptMlDsa} {Q2 : WolfCryptMlDsaOk Q1} {S1 : WolfCryptStateful} {S2 : WolfCryptStatefulOk S1}.
Context {WK : WolfCryptMlKem} {G : WolfCryptKeyGen K E1} {GO : WolfCryptKeyGenOk K E1 R1 W1 Q1 WK G}.
Context {O : StoreOps} {L : StoreLaws O}.

Notation pub_type := PSA_KEY_TYPE_PUBLIC_KEY_OF_KEY_PAIR.

Lemma buffer_e_negative : BUFFER_E < -5.
Proof. pose proof wc_codes_negative as Hn. unfold wc_codes in Hn. by inversion_clear Hn as [|? ? _ Hm]; inversion_clear Hm. Qed.

(** [out] stands for the public part of a key, and checks what that key checks. *)
Definition same_public (type bits : Z) (d out : list byte) : Prop :=
public_of (pub_type type) bits out = public_of type bits d /\
forall alg ctx inp, zlen out <= UINT32_MAX ->
  key_verifier type bits d alg ctx inp -> key_verifier (pub_type type) bits out alg ctx inp.

Lemma export_rsa_part type bits d size out (s : kstate O) :
PSA_KEY_TYPE_IS_RSA type = true -> type <> PSA_KEY_TYPE_RSA_PUBLIC_KEY ->
(export_rsa_public d size s).1 = (PSA_SUCCESS, out) -> same_public type bits d out.
Proof.
intros Hty Hne Hx. destruct (export_rsa_public_success _ _ _ _ Hx) as (Hdec & n & e & len & Hfl & Hw).
cbn [wc_RsaPrivateKeyDecode_ret wc_RsaFlattenPublicKey wolfcrypt_key_backend] in *.
destruct (wc_RsaPrivateKeyDecode d) as [ret [idx pub]] eqn:Hd. cbn [fst snd] in *. subst ret.
destruct (rsa_flatten_length _ _ _ Hfl) as [Hn He].
destruct (rsa_write_read _ _ _ _ _ Hn He Hw) as [Hrd _].
destruct (rsa_flatten_decodes _ _ _ _ _ _ Hd Hfl Hrd) as [idx' Hp].
pose proof Hty as Hpt. unfold PSA_KEY_TYPE_IS_RSA in Hpt. apply Z.eqb_eq in Hpt.
assert (H1' : rsa_decode type d = (0, (idx, pub))).
{ unfold rsa_decode. by rewrite (proj2 (Z.eqb_neq _ _) Hne). }
assert (H2' : rsa_decode (pub_type type) out = (0, (idx', pub))) by (unfold rsa_decode; by rewrite Hpt).
assert (H3' : PSA_KEY_TYPE_IS_RSA (pub_type type) = true) by (by rewrite Hpt).
split.
- unfold public_of. by rewrite Hty, H3', H1', H2'.
- intros alg ctx inp Hlen. unfold key_verifier, rsa_verifier. rewrite Hty, H3', H1', H2'.
  cbn [fst snd]. intros (? & _ & _ & Hr). split_and!; try apply Hr; [done|by left|done].
Qed.

Ltac checks H :=
repeat match type of H with
| Gen.checked _ _ = (PSA_SUCCESS, _) => apply checked_success in H as [? H]
| (let '(_, _) := ?p in _) = _ => let Hp := fresh "Hp" in destruct p as [? ?] eqn:Hp
| Gen.failed _ = (PSA_SUCCESS, _) => unfold Gen.failed in H; injection H as H _; apply wc_error_success in H
| (if ?b then _ else _) = _ => let Hb := fresh "Hb" in destruct b eqn:Hb; [try done|try done]
end; simplify_eq/=.

Lemma import_then_make (a : Z) (m : Z * list byte) x :
(if a =? 0 then m else (a, [])) = (0, x) -> m = (0, x).
Proof. destruct (Z.eqb_spec a 0); [done|congruence]. Qed.

Lemma edwards_exported bits d size out :
export_ecc_public TWISTED_EDWARDS_KEY_PAIR bits d true size = (PSA_SUCCESS, out) ->
ed_import_public (bits =? 448) out = (0, (ed_make_public (bits =? 448) d).2).
Proof.
unfold export_ecc_public. cbv zeta.
change (PSA_KEY_TYPE_IS_ECC_PUBLIC_KEY _) with false. change (_ =? PSA_ECC_FAMILY_TWISTED_EDWARDS) with true.
cbv iota. unfold ed_import_public, ed_make_public.
destruct (HAVE_ED25519 && (bits =? 255)) eqn:H5.
{ apply andb_true_iff in H5 as [_ ->%Z.eqb_eq]. change (255 =? 448) with false. cbv iota.
  cbn [psa_asymmetric_export_public_key_ed25519 wolfcrypt_key_backend]. intros Hx.
  unfold Gen.psa_asymmetric_export_public_key_ed25519 in Hx.
  change (TWISTED_EDWARDS_KEY_PAIR =? TWISTED_EDWARDS_KEY_PAIR) with true in Hx. checks Hx.
  apply import_then_make in Hp. rewrite Hp. by eapply ed25519_export_import. }
destruct (HAVE_ED448 && (bits =? 448)) eqn:H4; [|done].
apply andb_true_iff in H4 as [_ ->%Z.eqb_eq]. change (448 =? 448) with true. cbv iota.
cbn [psa_asymmetric_export_public_key_ed448 wolfcrypt_key_backend]. intros Hx.
unfold Gen.psa_asymmetric_export_public_key_ed448 in Hx.
change (TWISTED_EDWARDS_KEY_PAIR =? TWISTED_EDWARDS_KEY_PAIR) with true in Hx. checks Hx.
apply import_then_make in Hp. rewrite Hp. by eapply ed448_export_import.
Qed.

Lemma edwards_part bits d size out :
export_ecc_public TWISTED_EDWARDS_KEY_PAIR bits d true size = (PSA_SUCCESS, out) ->
same_public TWISTED_EDWARDS_KEY_PAIR bits d out.
Proof.
intros Hx%edwards_exported. unfold same_public. change (pub_type TWISTED_EDWARDS_KEY_PAIR) with TWISTED_EDWARDS_PUBLIC_KEY. split.
- rewrite !twisted_public by auto. f_equal. unfold ed_public. by rewrite Hx.
- intros alg ctx inp Hlen. unfold key_verifier.
  change (PSA_KEY_TYPE_IS_RSA TWISTED_EDWARDS_KEY_PAIR) with false.
  change (PSA_KEY_TYPE_IS_RSA TWISTED_EDWARDS_PUBLIC_KEY) with false.
  change (twisted_edwards _) with true. change (twisted_edwards TWISTED_EDWARDS_PUBLIC_KEY) with true.
  cbv iota. unfold is_edwards_type, edwards_verifier, ed_loads. rewrite Hx.
  change (TWISTED_EDWARDS_PUBLIC_KEY =? TWISTED_EDWARDS_KEY_PAIR) with false. rewrite !orb_true_r, Z.eqb_refl.
  cbn [orb fst]. intros (He & _ & _ & Hi & _). split_and!; [done|by right|done..].
Qed.

Lemma ecc_exported type bits d size out :
PSA_KEY_TYPE_IS_ECC_KEY_PAIR type = true ->
PSA_KEY_TYPE_ECC_GET_FAMILY type <> PSA_ECC_FAMILY_TWISTED_EDWARDS ->
PSA_KEY_TYPE_ECC_GET_FAMILY type <> PSA_ECC_FAMILY_MONTGOMERY ->
export_ecc_public type bits d true size = (PSA_SUCCESS, out) ->
let curve := wc_psa_get_ecc_curve_id type bits in
wc_ecc_import_x963_ex out curve = 0 /\ ecc_x963_point out curve = ecc_private_point d curve.
Proof.
intros Hpair Hed Hmont. destruct (ecc_pair_type _ Hpair) as (_ & _ & Hpub).
unfold export_ecc_public. cbv zeta.
rewrite Hpub, (proj2 (Z.eqb_neq _ _) Hed), (proj2 (Z.eqb_neq _ _) Hmont).
destruct (HAVE_ECC && HAVE_ECC_KEY_IMPORT_EXPORT); [|done].
cbn [psa_asymmetric_export_public_key_ecc wolfcrypt_key_backend]. intros Hx.
unfold Gen.psa_asymmetric_export_public_key_ecc in Hx. rewrite Hpair in Hx. cbn [negb andb] in Hx. cbv zeta in Hx.
destruct (_ =? ECC_CURVE_INVALID); [done|]. destruct (negb _ || _); [done|].
apply checked_success in Hx as [_ Hx]. apply checked_success in Hx as [Hi Hx].
destruct (Z.eqb_spec (wc_ecc_import_private_key_ex d (wc_psa_get_ecc_curve_id type bits)) 0) as [Hi0|]; [|done].
destruct (wc_ecc_export_x963 _ _ _) as [ret o] eqn:Hexp. apply checked_success in Hx as [Hret Hx].
assert (ret = 0) as ->.
{ pose proof buffer_e_negative. destruct (ret =? LENGTH_ONLY_E) in Hret; lia. }
injection Hx as ->. by eapply ecc_export_import.
Qed.

Lemma ecc_part type bits d size out :
PSA_KEY_TYPE_IS_ECC_KEY_PAIR type = true -> montgomery type = false ->
export_ecc_public type bits d true size = (PSA_SUCCESS, out) -> same_public type bits d out.
Proof.
intros Hpair Hmont Hx. destruct (ecc_pair_type _ Hpair) as (Hecc & Hkp & Hnp).
destruct (ecc_pair_family _ Hpair) as (c & Hc & Hty). pose proof (ecc_public_type _ Hpair) as Hp.
replace (type - PSA_KEY_TYPE_ECC_KEY_PAIR_BASE) with c in Hp by lia. unfold public_type_ok in Hp. cbv zeta in Hp.
rewrite <- Hty, !andb_true_iff, !negb_true_iff, !Z.eqb_eq, !eqb_true_iff in Hp.
destruct Hp as ((((((((((((Hp1 & Hp2) & Hp3) & Hfp) & Hft) & Hr) & Hpp) & Hed) & Hpe) & Hte) & Htc) & _) & _).
unfold montgomery in Hmont. rewrite Hecc, Hft in Hmont. cbn [andb] in Hmont.
destruct (Z.eqb_spec type TWISTED_EDWARDS_KEY_PAIR) as [->|Hne]; [by eapply edwards_part|].
assert (Htw : twisted_edwards type = false) by (unfold twisted_edwards; by rewrite (proj2 (Z.eqb_neq _ _) Hne), Hte).
assert (Htp : twisted_edwards (pub_type type) = false) by (unfold twisted_edwards; by rewrite Hpe, Hed).
apply ecc_exported in Hx as [Hi Hpt]; [|done|by rewrite Hft; apply Z.eqb_neq|by rewrite Hft; apply Z.eqb_neq].
assert (Hcur : wc_psa_get_ecc_curve_id (pub_type type) bits = wc_psa_get_ecc_curve_id type bits).
{ unfold wc_psa_get_ecc_curve_id. by rewrite Hfp, Hft. }
pose proof (ecc_not_rsa _ Hecc) as Hnr. split.
- unfold public_of. rewrite Hr, Hnr, Htw, Htp, Hp2, Hecc, Hcur. cbv zeta. unfold ecc_loaded_point.
  by rewrite Hp1, Hnp, Hpt.
- intros alg ctx inp Hlen. unfold key_verifier. rewrite Hr, Hnr, Htw, Htp, Hp2, Hecc.
  unfold ecc_verifier, ecc_loads. rewrite Hcur, Hp1. intros (_ & Hcv & _ & Hil & _). by split_and!.
Qed.

Lemma mldsa_part bits d size out :
Gen.wolfpsa_mldsa_export_public bits d size = (PSA_SUCCESS, out) ->
same_public PSA_KEY_TYPE_ML_DSA_KEY_PAIR bits d out.
Proof.
unfold Gen.wolfpsa_mldsa_export_public. destruct (negb _); [done|].
destruct (Gen.mldsa_expanded bits d) as [e|pub] eqn:Hx; [|intros Hs].
{ intros [= -> _]. exfalso. revert Hx. unfold Gen.mldsa_expanded. cbv zeta.
  repeat (case_match; try done); intros [= He]; apply wc_error_success in He; by rewrite He in *. }
cbv zeta in Hs. destruct (Z.ltb_spec (wc_MlDsaKey_PubSize (mldsa_bits_to_level bits)) 0) as [Hneg|_].
{ unfold Gen.failed in Hs. injection Hs as Hs _. apply wc_error_success in Hs. lia. }
checks Hs. revert Hx. unfold Gen.mldsa_expanded. cbv zeta. set (level := mldsa_bits_to_level bits) in *.
destruct (level <? 0); [done|]. destruct (negb _); [done|]. destruct (negb _); [done|].
destruct (wc_MlDsaKey_MakeKeyFromSeed level d) as [ret p] eqn:Hmk.
destruct (Z.eqb_spec ret 0) as [->|]; cbn [negb]; [|done]. intros [= ->].
destruct (mldsa_export_import _ _ _ _ _ Hmk Hp) as [-> Hi].
unfold same_public. change (pub_type PSA_KEY_TYPE_ML_DSA_KEY_PAIR) with PSA_KEY_TYPE_ML_DSA_PUBLIC_KEY. split.
- rewrite !mldsa_public_of by done. f_equal. fold level. unfold mldsa_public.
  change (PSA_KEY_TYPE_ML_DSA_PUBLIC_KEY =? PSA_KEY_TYPE_ML_DSA_KEY_PAIR) with false. rewrite Z.eqb_refl. by rewrite Hmk.
- intros alg ctx inp Hlen. unfold key_verifier.
  destruct (mldsa_not_others PSA_KEY_TYPE_ML_DSA_KEY_PAIR eq_refl) as (-> & -> & ->).
  destruct (mldsa_not_others PSA_KEY_TYPE_ML_DSA_PUBLIC_KEY eq_refl) as (-> & -> & ->).
  change (PSA_KEY_TYPE_IS_ML_DSA _) with true. cbv iota. unfold mldsa_verifier. fold level.
  intros (Hlv & _ & _ & Hil). split_and!; [done| |done|done]. by right.
Qed.

Lemma mlkem_exported bits d size out :
Gen.wolfpsa_mlkem_export_public bits d size = (PSA_SUCCESS, out) ->
wc_MlKemKey_MakeKeyWithRandom (mlkem_bits_to_type bits) d = (0, out).
Proof.
unfold Gen.wolfpsa_mlkem_export_public, Gen.mlkem_expanded. cbv zeta. set (type := mlkem_bits_to_type bits).
destruct (type <? 0); [done|]. destruct (Z.eqb_spec (wc_MlKemKey_Init type) 0) as [_|Hi]; cbn [negb].
2: { unfold Gen.failed. intros [= He _]. by apply wc_error_success in He. }
destruct (wc_MlKemKey_MakeKeyWithRandom type d) as [ret pub] eqn:Hmk.
destruct (Z.eqb_spec ret 0) as [->|Hr]; cbn [negb].
2: { unfold Gen.failed. intros [= He _]. by apply wc_error_success in He. }
intros Hs. checks Hs. destruct (mlkem_encode_decode _ _ _ _ _ Hmk Hp Hp0) as (-> & <- & _).
by rewrite take_ge by (unfold zlen; lia).
Qed.

Lemma export_mlkem_part a d size out (s : kstate O) :
attr_type a = PSA_KEY_TYPE_ML_KEM_KEY_PAIR -> (export_public_data a d true size s).1 = (PSA_SUCCESS, out) ->
wc_MlKemKey_MakeKeyWithRandom (mlkem_bits_to_type (attr_bits a)) d = (0, out).
Proof.
intros Ht Hx. unfold export_public_data in Hx. rewrite Ht in Hx. cbv zeta in Hx.
change (PSA_KEY_TYPE_IS_RSA _) with false in Hx. change (PSA_KEY_TYPE_IS_ECC _) with false in Hx.
cbv iota in Hx. unfold export_pqc_public in Hx. change (PSA_KEY_TYPE_IS_ML_DSA _) with false in Hx.
rewrite andb_false_r in Hx. change (PSA_KEY_TYPE_IS_ML_KEM _) with true in Hx. rewrite andb_true_r in Hx.
destruct WOLFSSL_HAVE_MLKEM; [|discriminate Hx].
change (PSA_KEY_TYPE_ML_KEM_KEY_PAIR =? PSA_KEY_TYPE_ML_KEM_PUBLIC_KEY) with false in Hx. cbv iota in Hx.
cbn [fst mret M_ret] in Hx. destruct (negb _); [discriminate Hx|]. eapply mlkem_exported. exact Hx.
Qed.

(** The types of the keys that sign. *)
Definition signing_type (type : Z) : bool :=
PSA_KEY_TYPE_IS_RSA type || (PSA_KEY_TYPE_IS_ECC type && negb (montgomery type)) || PSA_KEY_TYPE_IS_ML_DSA type.

Lemma export_public_part a d size out (s : kstate O) :
PSA_KEY_TYPE_IS_KEY_PAIR (attr_type a) = true -> signing_type (attr_type a) = true ->
(export_public_data a d true size s).1 = (PSA_SUCCESS, out) ->
same_public (attr_type a) (attr_bits a) d out.
Proof.
unfold export_public_data, signing_type. cbv zeta. set (type := attr_type a). clearbody type. intros Hp Hty Hx.
destruct (PSA_KEY_TYPE_IS_RSA type) eqn:Hr.
{ destruct NO_RSA; [done|]. destruct (Z.eqb_spec type PSA_KEY_TYPE_RSA_PUBLIC_KEY) as [Ht|Hne].
  - by rewrite Ht in Hp.
  - by eapply export_rsa_part. }
destruct (PSA_KEY_TYPE_IS_ECC type) eqn:He.
{ destruct (montgomery type) eqn:Hm.
  - exfalso. destruct (PSA_KEY_TYPE_IS_ML_DSA type) eqn:Hd; [|done].
    apply mldsa_not_others in Hd as (_ & _ & Hd). congruence.
  - eapply ecc_part; [by apply ecc_pair_base|done|exact Hx]. }
simpl in Hty, Hx. unfold export_pqc_public in Hx.
assert (Ht : type = PSA_KEY_TYPE_ML_DSA_KEY_PAIR).
{ rewrite (pair_of_public _ Hp). apply Z.eqb_eq in Hty. by rewrite Hty. }
rewrite Hty, andb_true_r in Hx. rewrite Ht in Hx |- *.
change (PSA_KEY_TYPE_IS_ML_KEM _) with false in Hx. rewrite andb_false_r in Hx.
destruct WOLFSSL_HAVE_MLDSA; [|discriminate Hx].
change (PSA_KEY_TYPE_ML_DSA_KEY_PAIR =? PSA_KEY_TYPE_ML_DSA_PUBLIC_KEY) with false in Hx. cbv iota in Hx.
destruct (negb _); [done|]. eapply mldsa_part. exact Hx.
Qed.

(** The public type is treated as the type of the pair. *)
Lemma public_type_same type :
PSA_KEY_TYPE_IS_KEY_PAIR type = true -> signing_type type = true ->
is_mldsa_type (pub_type type) = is_mldsa_type type /\
is_edwards_type (pub_type type) = is_edwards_type type /\
stateful_hash_type (pub_type type) = stateful_hash_type type.
Proof.
intros Hp Hty. split.
{ unfold is_mldsa_type, PSA_KEY_TYPE_IS_ML_DSA. by rewrite public_of_public. }
unfold signing_type in Hty. destruct (PSA_KEY_TYPE_IS_RSA type) eqn:Hr.
{ unfold PSA_KEY_TYPE_IS_RSA in Hr. apply Z.eqb_eq in Hr. rewrite (pair_of_public _ Hp), Hr.
  unfold is_edwards_type, stateful_hash_type. split; [|by destruct WOLFSSL_HAVE_LMS, WOLFSSL_HAVE_XMSS].
  by destruct HAVE_ED25519, HAVE_ED448. }
destruct (PSA_KEY_TYPE_IS_ECC type) eqn:He.
- pose proof (ecc_pair_base _ Hp He) as Hb. pose proof (ecc_public_type _ Hb) as Hk.
  destruct (ecc_pair_family _ Hb) as (c & Hc & Ht). unfold public_type_ok in Hk. cbv zeta in Hk.
  replace (PSA_KEY_TYPE_ECC_KEY_PAIR_BASE + _) with type in Hk by lia.
  rewrite !andb_true_iff, !negb_true_iff, !orb_false_iff, !eqb_true_iff in Hk.
  destruct Hk as ((((((_ & Hed) & Hpe) & Hte) & _) & (Hl1 & Hx1)) & (Hl2 & Hx2)).
  unfold is_edwards_type, stateful_hash_type. by rewrite Hed, Hpe, Hte, Hl1, Hx1, Hl2, Hx2, orb_false_r.
- simpl in Hty. apply Z.eqb_eq in Hty. rewrite (pair_of_public _ Hp), Hty.
  unfold is_edwards_type, stateful_hash_type. split; [by destruct HAVE_ED25519, HAVE_ED448|].
  by destruct WOLFSSL_HAVE_LMS, WOLFSSL_HAVE_XMSS.
Qed.
End Exported.

(** * Signatures under exported keys *)

Section Verify.
Context {C : Config} {E : WolfCryptErr} {EO : WolfCryptErrOk E} {K : WolfCryptKeys} {R : WolfCryptRng}.
Context {M1 : WolfCryptMisc} {M2 : WolfCryptMiscOk M1} {D1 : WolfCryptDigest}.
Context {H1 : WolfCryptHash} {H2 : WolfCryptHashOk H1}.
Context {R1 : WolfCryptRsa K} {R2 : WolfCryptRsaOk K R1} {E1 : WolfCryptEcc} {E2 : WolfCryptEccOk K E1}.
Context {W1 : WolfCryptEdwards} {W2 : WolfCryptEdwardsOk W1}.
Context {Q1 : WolfCryptMlDsa} {Q2 : WolfCryptMlDsaOk Q1} {S1 : WolfCryptStateful} {S2 : WolfCryptStatefulOk S1}.
Context {WK : WolfCryptMlKem} {G : WolfCryptKeyGen K E1} {GO : WolfCryptKeyGenOk K E1 R1 W1 Q1 WK G}.
Context {O : StoreOps} {L : StoreLaws O}.
Context {ROK : WolfCryptRngOk R} {HS : WolfCryptHashSizes H2} {WKO : WolfCryptMlKemOk WK}.

Notation pub_type := PSA_KEY_TYPE_PUBLIC_KEY_OF_KEY_PAIR.

Implicit Types k : kstate O.
Implicit Types o : opstate O psa_hash_operation_ctx.

Lemma export_public_run id size pub k k' :
store_inv k -> psa_export_public_key id true size true k = ((PSA_SUCCESS, pub), k') ->
store_inv k' /\ (forall i, table k' i = table k i) /\
exists a d, table k id = Some (a, d) /\ public_output a d size (PSA_SUCCESS, pub).
Proof.
intros Hi Hrun. assert (Hin : wp (psa_export_public_key id true size true) (fun r s' => free s' /\ calm k s' /\
   (r.1 = PSA_SUCCESS -> exists a d, key_lookup PSA_KEY_ATTRIBUTES_INIT k id = Some (a, d) /\
      public_output a d size r)) k).
{ apply wp_export_public_key; [apply Hi|]. auto. }
apply (wp_run _ _ _ _ _ Hrun) in Hin as (Hf & Hc & Hok).
split; [|split; [intros i; by apply key_lookup_calm|by apply Hok]].
by apply (step_same _ _ Hi Hf Hc).
Qed.

(** The key that a caller makes of an exported public key. *)
Lemma imported_public key size pub k0 k1 pa key2 k2 :
store_inv k0 -> psa_export_public_key key true size true k0 = ((PSA_SUCCESS, pub), k1) ->
wf_attributes pa -> user_id pa -> fits pub -> attr_bits pa <> 0 ->
psa_import_key (Some pa) (Some pub) true k1 = ((PSA_SUCCESS, key2), k2) ->
store_inv k2 /\ valid_id key2 /\ table k2 key2 = Some (stored_view pa PSA_KEY_ATTRIBUTES_INIT, pub) /\
(0 <= key -> table k2 key = table k0 key) /\
(PSA_KEY_LIFETIME_IS_VOLATILE (attr_lifetime pa) = false -> alg2 (attr_policy pa) = PSA_ALG_NONE).
Proof.
intros Hi0 Hexp Hwf Hu Hfit Hnz Himp. destruct (export_public_run _ _ _ _ _ Hi0 Hexp) as (Hi1 & Ht & a & d & Hk & _).
destruct (import_outcome _ _ _ _ _ Hi1 Hwf Hfit Hu Himp) as [Hi2 Hst]. rewrite decide_True in Hst by done.
destruct Hst as (a' & Hval & Hvk & _ & Hnone & Hnew & Hold).
destruct (import_validate_valid _ _ _ Hwf Hval) as (_ & _ & Hsame). specialize (Hsame Hnz) as ->.
destruct (import_success _ _ _ _ _ (si_free _ Hi1) Hwf Hfit Himp) as (_ & _ & _ & Hid & _).
cbn [snd] in *. split_and!; [done|exact Hid|done| |exact (vk_alg2 _ _ Hvk)].
intros H0. rewrite <- Ht. apply Hold; [done|]. intros ->. rewrite Ht, Hk in Hnone. done.
Qed.

Lemma stored_view_permits pa a0 usage alg :
(PSA_KEY_LIFETIME_IS_VOLATILE (attr_lifetime pa) = false -> alg2 (attr_policy pa) = PSA_ALG_NONE) ->
key_permits (stored_view pa a0) usage alg = key_permits pa usage alg.
Proof.
intros Ha. unfold stored_view. destruct (PSA_KEY_LIFETIME_IS_VOLATILE _); [done|]. unfold key_permits,
  psa_get_key_enrollment_algorithm. by rewrite Ha.
Qed.

Lemma stored_view_fields pa a0 :
attr_type (stored_view pa a0) = attr_type pa /\ attr_bits (stored_view pa a0) = attr_bits pa.
Proof. unfold stored_view. by destruct (PSA_KEY_LIFETIME_IS_VOLATILE _). Qed.

(** C19: The life of a signature across two keys: the public key that
  psa_export_public_key gives of a stored key pair, imported again as a public key
  of its type and size with a policy for the verification, accepts what the pair
  signs, message or hash, when nothing fails underneath and the pair itself could
  check it. *)
Theorem exported_key_verifies m m' key size pub pa key2 k0 k1 alg data data2 ctx buf len o sig o1 a d :
store_inv k0 -> 0 <= key ->
psa_export_public_key key true size true k0 = ((PSA_SUCCESS, pub), k1) ->
psa_import_key (Some pa) (Some pub) true k1 = ((PSA_SUCCESS, key2), op_lib o) ->
ready o -> null_empty ctx ->
api_sign m key alg (Bytes data) ctx buf len true o = ((PSA_SUCCESS, sig), o1) ->
table k0 key = Some (a, d) -> signing_type (attr_type a) = true ->
wf_attributes pa -> user_id pa -> fits pub ->
attr_type pa = pub_type (attr_type a) -> attr_bits pa = attr_bits a -> attr_bits pa <> 0 ->
key_permits pa (verify_usage m') alg = true -> accepts m' pa alg ctx data2 = true ->
signed_input m (attr_type a) alg data = signed_input m' (attr_type a) alg data2 ->
can_verify a d alg ctx (signed_input m (attr_type a) alg data) ->
exists o2, api_verify m' key2 alg (Bytes data2) ctx (Bytes sig) o1 = (PSA_SUCCESS, o2).
Proof.
intros Hi0 Hkey Hexp Himp Hr Hctx Hsign Htab Hty Hwf Hu Hfit Hpt Hpb Hnz Hperm Hacc Hinp Hcan.
destruct (imported_public _ _ _ _ _ _ _ _ Hi0 Hexp Hwf Hu Hfit Hnz Himp) as (Hi2 & Hid & Hnew & Hold & Ha2).
destruct (export_public_run _ _ _ _ _ Hi0 Hexp) as (_ & _ & a' & d' & Htab' & _ & s1 & Hout).
rewrite Htab in Htab'. injection Htab' as <- <-.
specialize (Hold Hkey). rewrite Htab in Hold.
destruct (stored_view_fields pa PSA_KEY_ATTRIBUTES_INIT) as [Hst Hsb].
set (a2 := stored_view pa PSA_KEY_ATTRIBUTES_INIT) in *. rewrite Hpt in Hst. rewrite Hpb in Hsb.
destruct (wp_run _ _ _ _ _ Hsign (wp_api_sign m key alg (Bytes data) ctx buf len true o Hi2 Hctx)) as (_ & Hok & _).
destruct (Hok eq_refl) as (a' & d' & x & _ & Ht' & Hkp). cbn [fst snd] in *. rewrite Hold in Ht'. injection Ht' as <- <-.
destruct Hkp as (_ & Hkp & _).
destruct (export_public_part a d size pub s1 Hkp Hty (eq_sym Hout)) as [Hpub Hver].
destruct (public_type_same _ Hkp Hty) as (Hm & He & Hs).
assert (Hb : bound_context (attr_type a2) ctx = bound_context (attr_type a) ctx).
{ unfold bound_context. by rewrite Hst, Hm, He. }
assert (Hsi : signed_input m' (attr_type a2) alg data2 = signed_input m (attr_type a) alg data).
{ rewrite Hinp. unfold signed_input. by rewrite Hst, Hm, He, Hs. }
eapply (sign_verify_roundtrip m m' key key2 alg data data2 ctx buf len o sig o1 a2 pub); try done.
- unfold key_verdict. rewrite Hnew. subst a2. by rewrite stored_view_permits, Hperm.
- intros a' d'. rewrite Hold. intros [= <- <-]. split; [done|]. unfold key_claim, claim_of.
  rewrite Hb, Hst, Hsb, public_of_public. by f_equal.
- rewrite Hsi. unfold can_verify in *. rewrite Hb, Hst, Hsb. apply Hver; [|done].
  unfold fits, attr_length, sizeof_size_t, INT_MAX in Hfit. unfold UINT32_MAX. lia.
- unfold accepts, dispatchable. unfold accepts, dispatchable in Hacc. by rewrite Hst, Hsb, <- Hpt, <- Hpb.
Qed.

(** C24: The life of a shared secret: under the public key that
  psa_export_public_key gives of an ML-KEM key pair, imported again as a public
  key of the same parameter set, a successful psa_encapsulate makes a key and a
  cipher text from which psa_decapsulate makes a key of the same data under the
  pair, when nothing fails underneath. *)
Theorem exported_key_agreement {Op : Type} key size pub pa key2 k0 k1 attributes attributes2 ciphertext
  csize (o o1 : opstate O Op) id ct a d b :
store_inv k0 -> valid_id key ->
psa_export_public_key key true size true k0 = ((PSA_SUCCESS, pub), k1) ->
psa_import_key (Some pa) (Some pub) true k1 = ((PSA_SUCCESS, key2), op_lib o) ->
kem_verdict kem_pair PSA_KEY_USAGE_DECRYPT PSA_ALG_ML_KEM (table k0 key) = inr (a, d) ->
wf_attributes pa -> user_id pa -> fits pub ->
attr_type pa = PSA_KEY_TYPE_ML_KEM_PUBLIC_KEY -> attr_bits pa = attr_bits a -> attr_bits pa <> 0 ->
wf_attributes attributes -> user_id attributes ->
wf_attributes attributes2 -> user_id attributes2 -> kem_arguments PSA_ALG_ML_KEM attributes2 = PSA_SUCCESS ->
psa_encapsulate key2 PSA_ALG_ML_KEM (Some attributes) true ciphertext csize true o = ((PSA_SUCCESS, (id, ct)), o1) ->
ready o1 ->
(forall ss, zlen ss = WOLFPSA_MLKEM_SS_SIZE -> import_validate attributes2 ss = inr b) ->
(caller_id b = PSA_KEY_ID_NULL -> vendor_id (g_next_key_id (op_lib o1))) ->
~ id_taken b (assigned_id b (op_lib o1)) (op_lib o1) ->
exists ss id2 (o2 : opstate O Op), zlen ss = WOLFPSA_MLKEM_SS_SIZE /\
  option_map snd (table (op_lib o1) id) = Some ss /\
  psa_decapsulate key PSA_ALG_ML_KEM (Bytes ct) (Some attributes2) true o1 = ((PSA_SUCCESS, id2), o2) /\
  option_map snd (table (op_lib o2) id2) = Some ss.
Proof.
intros Hi0 Hkey Hexp Himp Hkv Hwf Hu Hfit Hpt Hpb Hnz Hwf1 Hu1 Hwf2 Hu2 Harg Henc Hr Hval Hvend Hfree.
destruct (imported_public _ _ _ _ _ _ _ _ Hi0 Hexp Hwf Hu Hfit Hnz Himp) as (Hi2 & Hid & Hnew & Hold & _).
destruct (export_public_run _ _ _ _ _ Hi0 Hexp) as (_ & _ & a' & d' & Htab & _ & s1 & Hout).
destruct (kem_verdict_inr _ _ _ _ _ _ Hkv) as (Htab' & Hty%Z.eqb_eq & _).
rewrite Htab in Htab'. injection Htab' as -> ->. specialize (Hold (proj1 Hkey)).
destruct (stored_view_fields pa PSA_KEY_ATTRIBUTES_INIT) as [Hst Hsb].
eapply (kem_agreement attributes attributes2 key2 key ciphertext csize o id ct o1
          (stored_view pa PSA_KEY_ATTRIBUTES_INIT) pub a d b); try done.
- by rewrite Hold.
- congruence.
- rewrite Hsb, Hst, Hpt, Hpb. unfold mlkem_public. rewrite Z.eqb_refl. by eapply export_mlkem_part.
Qed.
End Verify.
