(* ===== verification/KeyStoreExamples.v ===== *)
(** The key-store theorems at concrete inputs, over the file store of
    [Samples], and concrete runs that show where the code departs from what it
    says. *)

From stdpp Require Import base decidable list strings gmap.
From Stdlib Require Import ZArith Lia.
From Stdlib Require Import Strings.Byte.
From S2P Require Import Prelude.
From S2P Require Import Values.
From S2P Require Import Engine.
From S2P Require Import KeyPolicy.
From S2P Require Import Der.
From S2P Require Import KeyFormat.
From S2P Require Import StoreIface.
From S2P Require Import StorePath.
From S2P Require Import StorePosix.
From S2P Require Import StorePosixSpec.
From S2P Require Import Library.
From S2P Require Import KeyStore.
From S2P Require Import KeyStoreRules.
From S2P Require Import ImportRules.
From S2P Require Import KeyStoreSpec.
From S2P Require Import KeyStoreCalls.
From S2P Require Import KeyStoreInv.
From S2P Require Import Samples.

#[local] Open Scope Z_scope.

(** * The environment meets its assumptions *)

Lemma sample_rng_ok : WolfCryptRngOk sample_rng.
Proof.
  split. intros n size out. simpl. destruct (Z.ltb_spec size 0); [done|].
  intros [= <-]. unfold zlen. rewrite length_replicate. lia.
Qed.

Lemma sample_key_length n sz d : 0 <= n -> sample_key n sz = (PSA_SUCCESS, d) -> zlen d <= sz.
Proof.
  unfold sample_key. destruct (Z.leb_spec n sz); [|done]. intros Hn [= <-].
  unfold zlen. rewrite length_replicate. lia.
Qed.

Lemma sample_backend_ok : KeyBackendOk (B := sample_backend).
Proof.
  split; simpl; try (intros; by eapply sample_key_length; [|eassumption]); try done.
  - intros n t b sz d. apply sample_key_length. lia.
Qed.

#[local] Existing Instances sample_rng_ok sample_backend_ok.

Lemma sample_free : free sample_state.
Proof. by vm_compute. Qed.

Lemma sample_idle : idle sample_state.
Proof. by vm_compute. Qed.

Lemma sample_healthy : posix_healthy sample_disk.
Proof. by split. Qed.

Lemma sample_good : good_environment sample_state.
Proof. split; [done|]. exact sample_healthy. Qed.

Lemma sample_records : records (key_store sample_state) = ∅.
Proof. vm_compute. reflexivity. Qed.

Lemma sample_inv : store_inv sample_state.
Proof.
  split; [apply sample_free| |].
  - split; [done|constructor|constructor|]. rewrite sample_records. apply map_Forall_empty.
  - intros id _ _. unfold record_of. rewrite sample_records. apply lookup_empty.
Qed.

(** ** Import *)

Lemma sample_fits : fits sample_aes_data.
Proof. by vm_compute. Qed.

Lemma sample_wf : wf_attributes sample_aes_attr.
Proof. by split. Qed.

Lemma sample_persistent_wf : wf_attributes sample_persistent_attr.
Proof. by split. Qed.

(** The state after the import of [sample_persistent_attr]. *)
Definition after_persistent : kstate posix_store :=
  (psa_import_key (Some sample_persistent_attr) (Some sample_aes_data) true sample_state).2.

Lemma run_persistent :
  psa_import_key (Some sample_persistent_attr) (Some sample_aes_data) true sample_state =
    ((PSA_SUCCESS, 5), after_persistent).
Proof. refine (run_result _ sample_state (PSA_SUCCESS, 5) _). vm_compute. reflexivity. Qed.

Lemma after_persistent_idle : idle after_persistent.
Proof. by vm_compute. Qed.

(** A second import under the same identifier. *)
Definition after_again : kstate posix_store :=
  (psa_import_key (Some sample_persistent_attr) (Some sample_aes_data) true after_persistent).2.

Lemma run_again :
  psa_import_key (Some sample_persistent_attr) (Some sample_aes_data) true after_persistent =
    ((PSA_ERROR_ALREADY_EXISTS, PSA_KEY_ID_NULL), after_again).
Proof.
  refine (run_result _ after_persistent (PSA_ERROR_ALREADY_EXISTS, PSA_KEY_ID_NULL) _).
  vm_compute. reflexivity.
Qed.

Lemma import_then_get_witness :
  (wolfpsa_get_key_data 5 (Some PSA_KEY_ATTRIBUTES_INIT) after_persistent).1.2 = Some sample_aes_data.
Proof.
  destruct (import_then_get sample_persistent_attr sample_aes_data PSA_KEY_ATTRIBUTES_INIT
              sample_state 5 after_persistent sample_free sample_persistent_wf sample_fits
              sample_good eq_refl run_persistent) as (_ & (a & _ & Hget) & _).
  by rewrite Hget.
Defined.

Lemma import_error_keeps_keys_witness :
  key_lookup PSA_KEY_ATTRIBUTES_INIT after_again 5 =
  key_lookup PSA_KEY_ATTRIBUTES_INIT after_persistent 5.
Proof.
  apply (import_error_keeps_keys sample_persistent_attr sample_aes_data
            PSA_KEY_ATTRIBUTES_INIT after_persistent PSA_ERROR_ALREADY_EXISTS 0 after_again
            (idle_free _ after_persistent_idle) sample_fits run_again); discriminate.
Defined.

Lemma import_succeeds_witness :
  (import_sample sample_aes_attr sample_state).1 = (PSA_SUCCESS, PSA_KEY_ID_VENDOR_MIN).
Proof.
  refine (import_succeeds sample_aes_attr sample_aes_data sample_state (set_bits sample_aes_attr 128)
            sample_idle _ sample_good sample_wf sample_fits _ _ _).
  - reflexivity.
  - vm_compute. reflexivity.
  - intros _. vm_compute. split; discriminate.
  - vm_compute. intros H. by apply H.
Defined.

(** A Diffie-Hellman key one byte too long for its record's length to fit. *)
Definition huge_attr : psa_key_attributes_t :=
  mkAttributes PSA_KEY_TYPE_DH_KEY_PAIR_BASE 2048 PSA_KEY_LIFETIME_VOLATILE
    (mkPolicy PSA_KEY_USAGE_DERIVE 0 0) 0.
Definition huge_data : list byte := replicate (Z.to_nat (INT_MAX - 23)) x01.

Lemma zlen_huge : zlen huge_data = INT_MAX - 23.
Proof. unfold zlen, huge_data. rewrite length_replicate. apply Z2Nat.id. by vm_compute. Qed.

Lemma huge_valid : import_validate huge_attr huge_data = inr huge_attr.
Proof.
  unfold import_validate. rewrite zlen_huge. 
  change (import_check_params huge_attr (INT_MAX - 23)) with PSA_SUCCESS. cbv iota.
  pose proof zlen_huge as Hz. revert Hz. generalize huge_data. intros d Hz.
  change (import_key_bits huge_attr d) with (inr huge_attr : psa_status_t + psa_key_attributes_t).
  done.
Qed.

Lemma import_overflow_leaks_key_witness :
  let r := psa_import_key (Some huge_attr) (Some huge_data) true sample_state in
  r.1.1 <> PSA_SUCCESS /\
  find_node PSA_KEY_ID_VENDOR_MIN (g_volatile_keys r.2) =
    Some (mkNode PSA_KEY_ID_VENDOR_MIN huge_attr huge_data).
Proof.
  destruct (import_overflow_leaks_key huge_attr huge_data sample_state huge_attr sample_idle eq_refl
              eq_refl huge_valid) as (H1 & _ & H3).
  - unfold fits. rewrite zlen_huge. by vm_compute.
  - reflexivity.
  - vm_compute. split; discriminate.
  - reflexivity.
  - exact (conj H1 H3).
Defined.

(** ** Lookup, export, destruction *)

Lemma run_get : (wolfpsa_get_key_data 5 (Some PSA_KEY_ATTRIBUTES_INIT) after_persistent).1.1.1 = PSA_SUCCESS.
Proof. vm_compute. reflexivity. Qed.

Lemma after_persistent_good : good_environment after_persistent.
Proof.
  destruct (import_success _ _ _ _ _ sample_free sample_persistent_wf sample_fits run_persistent)
    as (_ & _ & _ & _ & a & _ & _ & Himp).
  exact (imported_good _ _ _ _ _ Himp (after_id_good _ _ sample_good)).
Qed.

(** The attributes that a reader of the key gets. *)
Definition stored_attr : psa_key_attributes_t := record_view (set_bits sample_persistent_attr 128) 0.

Lemma after_persistent_lookup :
  key_lookup PSA_KEY_ATTRIBUTES_INIT after_persistent 5 = Some (stored_attr, sample_aes_data).
Proof. vm_compute. reflexivity. Qed.

Lemma check_key_usage_spec_witness :
  (psa_check_key_usage 5 0x05500200 PSA_KEY_USAGE_EXPORT after_persistent).1 = PSA_SUCCESS.
Proof.
  refine (proj2 (check_key_usage_spec 5 0x05500200 PSA_KEY_USAGE_EXPORT after_persistent stored_attr
            sample_aes_data after_persistent_idle _ after_persistent_good _ after_persistent_lookup) _).
  - vm_compute. reflexivity.
  - split; [discriminate|reflexivity].
  - split; [reflexivity|right; reflexivity].
Defined.

Definition after_export : kstate posix_store := (psa_export_key 5 true 16 true after_persistent).2.

Lemma run_export :
  psa_export_key 5 true 16 true after_persistent = ((PSA_SUCCESS, sample_aes_data), after_export).
Proof. refine (run_result _ after_persistent (PSA_SUCCESS, sample_aes_data) _). vm_compute. reflexivity. Qed.

Lemma export_key_spec_witness :
  exists a, key_lookup PSA_KEY_ATTRIBUTES_INIT after_persistent 5 = Some (a, sample_aes_data) /\
    Z.land (usage (attr_policy a)) PSA_KEY_USAGE_EXPORT <> 0 /\ zlen sample_aes_data <= 16.
Proof.
  exact (proj1 (export_key_spec 5 16 after_persistent PSA_SUCCESS sample_aes_data after_export
           (idle_free _ after_persistent_idle) run_export) eq_refl).
Defined.

Definition after_destroy : kstate posix_store := (psa_destroy_key 5 after_persistent).2.

Lemma run_destroy : psa_destroy_key 5 after_persistent = (PSA_SUCCESS, after_destroy).
Proof. refine (run_result _ after_persistent PSA_SUCCESS _). vm_compute. reflexivity. Qed.

Lemma destroy_key_spec_witness :
  find_node 5 (g_volatile_keys after_destroy) = None /\ record_of after_destroy 5 = None.
Proof.
  destruct (destroy_key_spec PSA_KEY_ATTRIBUTES_INIT 5 after_persistent PSA_SUCCESS after_destroy
              (idle_free _ after_persistent_idle)) as (_ & _ & Hd & _).
  - split; [reflexivity|reflexivity].
  - constructor.
  - exact run_destroy.
  - destruct (Hd eq_refl) as [Hn Hr]. split; [exact Hn|]. exact (proj2 Hr).
Defined.

(** ** Public keys *)

Definition rsa_attr : psa_key_attributes_t :=
  mkAttributes PSA_KEY_TYPE_RSA_KEY_PAIR 0 PSA_KEY_LIFETIME_VOLATILE (mkPolicy 0 0 0) 0.
Definition rsa_data : list byte := [xc5; x01; x07].
Definition after_rsa : kstate posix_store :=
  (psa_import_key (Some rsa_attr) (Some rsa_data) true sample_state).2.
Definition after_rsa_export : kstate posix_store :=
  (psa_export_public_key PSA_KEY_ID_VENDOR_MIN true 64 true after_rsa).2.
Definition rsa_public : list byte := [x30; x0b; x02; x04; x00; xc5; x01; x07; x02; x03; x01; x00; x01].

Lemma run_rsa_export :
  psa_export_public_key PSA_KEY_ID_VENDOR_MIN true 64 true after_rsa =
    ((PSA_SUCCESS, rsa_public), after_rsa_export).
Proof. refine (run_result _ after_rsa (PSA_SUCCESS, rsa_public) _). vm_compute. reflexivity. Qed.

Lemma export_rsa_public_key_der_witness :
  der_read_rsa_public_key rsa_public = Some (0xc50107, 65537).
Proof.
  destruct (export_rsa_public_key_der PSA_KEY_ID_VENDOR_MIN 64 after_rsa rsa_public after_rsa_export
              (set_bits rsa_attr 2048) rsa_data) as ((n & e & Hfl & Hread & _) & _).
  - vm_compute. split; reflexivity.
  - exact run_rsa_export.
  - vm_compute. reflexivity.
  - reflexivity.
  - intros n e [= <- <-]. split; reflexivity.
  - injection Hfl as <- <-. rewrite Hread. vm_compute. reflexivity.
Defined.

(** ** The refinement, on a sequence of calls *)

(** A copy with fewer rights under another identifier. *)
Definition copy_attr : psa_key_attributes_t :=
  mkAttributes 0 0 PSA_KEY_LIFETIME_PERSISTENT (mkPolicy PSA_KEY_USAGE_EXPORT 0x05500200 0) 6.

Lemma after_persistent_inv : store_inv after_persistent.
Proof.
  refine (proj1 (import_outcome sample_persistent_attr sample_aes_data sample_state (PSA_SUCCESS, 5)
            after_persistent sample_inv sample_persistent_wf sample_fits _ run_persistent)).
  right. split; [discriminate|]. intros []. by vm_compute in H.
Qed.

Lemma copy_attr_wf : wf_attributes copy_attr.
Proof. by split. Qed.

Lemma copy_attr_user : user_id copy_attr.
Proof. right. split; [discriminate|]. intros []. by vm_compute in H. Qed.

Definition after_copy : kstate posix_store := (psa_copy_key 5 (Some copy_attr) true after_persistent).2.

Lemma run_copy : psa_copy_key 5 (Some copy_attr) true after_persistent = ((PSA_SUCCESS, 6), after_copy).
Proof. refine (run_result _ after_persistent (PSA_SUCCESS, 6) _). vm_compute. reflexivity. Qed.

Lemma copy_key_no_escalation_witness :
  exists b c data, table after_persistent 5 = Some (b, data) /\ table after_copy 6 = Some (c, data) /\
    usage (attr_policy c) = Z.land (usage (attr_policy b)) (usage (attr_policy copy_attr)) /\
    no_wider b c.
Proof.
  destruct (copy_key_no_escalation 5 copy_attr after_persistent 6 after_copy after_persistent_inv
              copy_attr_wf copy_attr_user run_copy) as (b & c & data & H1 & H2 & _ & H3 & H4 & _).
  exists b, c, data. exact (conj H1 (conj H2 (conj H3 H4))).
Defined.

Definition sample_call : api_call := CallImport sample_persistent_attr sample_aes_data.

Lemma sample_call_ok : call_ok sample_call /\ user_call sample_call.
Proof.
  split; [split; [apply sample_persistent_wf|apply sample_fits]|].
  right. split; [discriminate|]. intros []. by vm_compute in H.
Qed.

Lemma call_refines_witness :
  exists s', run_call sample_call sample_state = (RKey PSA_SUCCESS 5, s') /\
    import_step (table sample_state) (table s') sample_persistent_attr sample_aes_data 5.
Proof.
  exists (run_call sample_call sample_state).2.
  assert (Hrun : run_call sample_call sample_state =
                   (RKey PSA_SUCCESS 5, (run_call sample_call sample_state).2)).
  { refine (run_result _ sample_state (RKey PSA_SUCCESS 5) _). vm_compute. reflexivity. }
  split; [exact Hrun|].
  exact (proj2 (call_refines sample_call sample_state _ _ sample_inv (proj1 sample_call_ok)
           (proj2 sample_call_ok) Hrun)).
Defined.

Definition sample_calls : list api_call :=
  [sample_call; CallExport 5 16; CallImport sample_aes_attr sample_aes_data; CallCopy 5 copy_attr;
   CallDestroy 5; CallExport 5 16].
Definition sample_results : list api_result :=
  [RKey PSA_SUCCESS 5; RData PSA_SUCCESS sample_aes_data; RKey PSA_SUCCESS PSA_KEY_ID_VENDOR_MIN;
   RKey PSA_SUCCESS 6; RStatus PSA_SUCCESS; RData PSA_ERROR_INVALID_HANDLE []].

Lemma sample_calls_ok : Forall (fun c => call_ok c /\ user_call c) sample_calls.
Proof.
  repeat (apply Forall_cons; split); try apply Forall_nil; try (split; exact I).
  - exact sample_call_ok.
  - split; [split; [exact sample_wf|exact sample_fits]|by left].
  - split; [exact copy_attr_wf|exact copy_attr_user].
  - done.
Qed.

Lemma calls_refine_witness :
  abs_run (table sample_state) sample_calls sample_results (table (run_calls sample_calls sample_state).2).
Proof.
  refine (proj2 (calls_refine sample_calls sample_state sample_results _ sample_inv sample_calls_ok _)).
  refine (run_result _ sample_state sample_results _). vm_compute. reflexivity.
Defined.

(** A persistent key that the caller names with the first vendor identifier. *)
Definition squatter_attr : psa_key_attributes_t :=
  set_id sample_persistent_attr PSA_KEY_ID_VENDOR_MIN.

(** A sequence that breaks the rules of [calls_refine]; what is read of the copy
    that it leaves under identifier 6. *)
Definition typed_calls : list api_call := sample_calls ++ [CallImport squatter_attr sample_aes_data].

Lemma typed_calls_ok : Forall call_ok typed_calls.
Proof.
  apply Forall_app. split.
  - eapply Forall_impl; [exact sample_calls_ok|]. by intros c [].
  - apply Forall_singleton. split; [by split|exact sample_fits].
Qed.

Definition copied_attr : psa_key_attributes_t :=
  Eval vm_compute in
    default PSA_KEY_ATTRIBUTES_INIT
      (wolfpsa_get_key_data 6 (Some PSA_KEY_ATTRIBUTES_INIT) (run_calls typed_calls sample_state).2).1.1.2.

Lemma keys_stay_typed_witness : well_formed_key copied_attr sample_aes_data.
Proof.
  apply (keys_stay_typed typed_calls sample_state 6 copied_attr sample_aes_data _
           (wolfpsa_get_key_data 6 (Some PSA_KEY_ATTRIBUTES_INIT) (run_calls typed_calls sample_state).2).2
           (conj (si_free _ sample_inv) (si_keys _ sample_inv)) typed_calls_ok eq_refl).
  refine (run_result _ _ (PSA_SUCCESS, Some copied_attr, Some sample_aes_data) _). vm_compute. reflexivity.
Defined.

(** * The vendor range is not kept apart *)

(** Nothing keeps a caller's persistent key out of the vendor range, from
    which identifiers are assigned so that they cannot collide with it: the
    next volatile key gets the identifier of the persistent one and hides it,
    and destroying that identifier leaves the record behind. *)
Theorem vendor_range_collision :
  let s1 := (psa_import_key (Some squatter_attr) (Some sample_aes_data) true sample_state).2 in
  let r2 := psa_import_key (Some sample_aes_attr) (Some (replicate 32 x01)) true s1 in
  let r3 := psa_destroy_key PSA_KEY_ID_VENDOR_MIN r2.2 in
  r2.1 = (PSA_SUCCESS, PSA_KEY_ID_VENDOR_MIN) /\
  (wolfpsa_get_key_data PSA_KEY_ID_VENDOR_MIN None s1).1.2 = Some sample_aes_data /\
  (wolfpsa_get_key_data PSA_KEY_ID_VENDOR_MIN None r2.2).1.2 = Some (replicate 32 x01) /\
  r3.1 = PSA_SUCCESS /\
  (wolfpsa_get_key_data PSA_KEY_ID_VENDOR_MIN None r3.2).1.2 = Some sample_aes_data.
Proof. split_and!; vm_compute; reflexivity. Qed.

(** * Saving a record *)

(** Open, write, close. *)
Definition saved : Z * posix_state sample_dirs :=
  match posix_OpenSz WOLFPSA_STORE_KEY 5 0 false 0 sample_disk with
  | (inr h, s1) =>
      let '((_, h'), s2) := posix_Write h sample_aes_data (zlen sample_aes_data) s1 in posix_Close h' s2
  | (inl ret, s1) => (ret, s1)
  end.

Lemma saved_ret : saved.1 = WOLFPSA_STORE_OK.
Proof. vm_compute. reflexivity. Qed.

Lemma saved_run : save_run 5 sample_disk (Closed saved.1 sample_aes_data) saved.2.
Proof.
  pose proof saved_ret as Hret. unfold saved in *.
  destruct (posix_OpenSz WOLFPSA_STORE_KEY 5 0 false 0 sample_disk) as [[e|h] s1] eqn:Ho.
  { exfalso. revert Hret. pose proof (save_run_inv 5 sample_disk _ _ (save_open_error _ _ _ _ _ Ho)) as [Hneg _].
    simpl. unfold WOLFPSA_STORE_OK. lia. }
  pose proof (save_open 5 sample_disk 0 h s1 Ho) as Hopen.
  destruct (posix_Write h sample_aes_data (zlen sample_aes_data) s1) as [[ret h'] s2] eqn:Hw.
  pose proof (save_write 5 sample_disk h [] _ ret h' s1 s2 Hopen Hw) as Hwr.
  destruct (posix_Close h' s2) as [cret s3] eqn:Hc. simpl in *.
  destruct (ret =? zlen sample_aes_data).
  - by eapply save_close.
  - pose proof (save_run_inv _ _ _ _ (save_close_failed _ _ _ _ _ _ Hwr Hc)) as [[_ Hr]|[Hneg _]].
    + pose proof (save_run_inv _ _ _ _ Hwr) as [_ Hsp].
      pose proof (close_spoiled_law h' s2 Hsp) as [Hneg _]. simpl in Hneg. rewrite Hc in Hneg.
      simpl in Hneg. unfold WOLFPSA_STORE_OK in Hret. lia.
    + unfold WOLFPSA_STORE_OK in Hret. lia.
Qed.

(** The disks it leaves: the temporary file, the data in it, the rename. *)
Example saved_disks : length (disk_log saved.2) = 3%nat.
Proof. vm_compute. reflexivity. Qed.

Lemma posix_save_atomic_witness :
  exists past, passed sample_disk saved.2 past /\
    posix_records saved.2 = <[5%N := sample_aes_data]> (posix_records sample_disk) /\
    (exists before, past = disk_of saved.2 :: before /\
       Forall (fun d => disk_records d = posix_records sample_disk) before).
Proof.
  assert (Hrun : save_run 5 sample_disk (Closed 0 sample_aes_data) saved.2).
  { change 0 with WOLFPSA_STORE_OK. rewrite <- saved_ret. exact saved_run. }
  exact (posix_save_atomic 5 sample_disk (Closed 0 sample_aes_data) saved.2 Hrun).
Defined.
