(* ===== verification/CryptoExamples.v ===== *)
(** The theorems on key derivation, MACs, hashes and extendable output at
    concrete inputs, over the primitives of [CryptoSamples]. *)

From stdpp Require Import base decidable list.
From Stdlib Require Import ZArith Lia.
From Stdlib Require Import Strings.Byte.
From S2P Require Import Prelude.
From S2P Require Import Values.
From S2P Require Import Engine.
From S2P Require Import WolfCrypt.
From S2P Require Import StoreIface.
From S2P Require Import StorePosix.
From S2P Require Import Library.
From S2P Require Import KeyStore.
From S2P Require Import Samples.
From S2P Require Import KeyStoreRules.
From S2P Require Import Operation.
From S2P Require Import Kdf.
From S2P Require Import KdfStream.
From S2P Require Import KdfInv.
From S2P Require Import KdfSpec.
From S2P Require Import KdfProps.
From S2P Require Import Mac.
From S2P Require Import MacSpec.
From S2P Require Import Hash.
From S2P Require Import HashSpec.
From S2P Require Import Xof.
From S2P Require Import XofSpec.
From S2P Require Import CryptoSamples.

#[local] Open Scope Z_scope.

(** * Key derivation *)

(** HKDF with SHA-256: info, then a secret that is not a key. *)
Definition hkdf_sha256 : Z := Z.lor PSA_ALG_HKDF_BASE 0x09.

Definition hkdf_inputs : list kdf_call :=
  [KSetup hkdf_sha256;
   KInputBytes PSA_KEY_DERIVATION_INPUT_SALT (Bytes [x01; x02]);
   KInputBytes PSA_KEY_DERIVATION_INPUT_SECRET (Bytes (replicate 16 x0b));
   KInputBytes PSA_KEY_DERIVATION_INPUT_INFO (Bytes [xf0; xf1; xf2])].

Lemma hkdf_calls_ok : Forall kdf_call_ok hkdf_inputs.
Proof. by repeat constructor. Qed.

Lemma start_ok : kdf_ok (start (Op := wolfpsa_kdf_ctx)).
Proof. by intros c. Qed.

(** The operation once its inputs are complete. *)
Definition hkdf_state : opstate posix_store wolfpsa_kdf_ctx := (kdf_runs hkdf_inputs start).2.
Definition hkdf_ctx : wolfpsa_kdf_ctx.
Proof. let c := eval vm_compute in (op_ctx hkdf_state) in match c with Some ?c => exact c end. Defined.

Lemma hkdf_live : op_ctx hkdf_state = Some hkdf_ctx.
Proof. vm_compute. reflexivity. Qed.

Lemma hkdf_inv : kdf_inv hkdf_ctx.
Proof.
  assert (Hok : kdf_ok hkdf_state) by
    exact (proj1 (proj2 (runs_trace hkdf_inputs start start_ok hkdf_calls_ok))).
  exact (Hok _ hkdf_live).
Qed.

Lemma hkdf_smooth : smooth hkdf_state.
Proof. by split; vm_compute. Qed.

Lemma kdf_calls_refine_witness :
  map fst (kdf_runs hkdf_inputs start).1 = hkdf_inputs.
Proof. exact (proj1 (kdf_calls_refine hkdf_inputs start start_ok hkdf_calls_ok)). Defined.

Lemma kdf_calls_keep_invariant_witness : kdf_inv hkdf_ctx.
Proof.
  assert (H : forall c, op_ctx hkdf_state = Some c -> kdf_inv c) by
    exact (kdf_calls_keep_invariant hkdf_inputs start eq_refl hkdf_calls_ok).
  exact (H _ hkdf_live).
Defined.

Lemma hkdf_counters n : 0 <= n <= 65536 -> counters_ok hkdf_ctx n.
Proof.
  intros Hn. split; [|done]. unfold block_count, WC_AES_BLOCK_SIZE, UINT32_MAX.
  apply Z.le_trans with (n + 15); [apply Z.div_le_upper_bound; lia|lia].
Qed.

Lemma hkdf_feasible n : 0 <= n <= 8160 -> kdf_feasible hkdf_ctx n.
Proof. intros Hn. split; try done; unfold INT_MAX; (lia || done). Qed.

Lemma hkdf_output_feasible n : 0 <= n <= 8160 -> output_feasible hkdf_ctx n.
Proof.
  intros Hn. split.
  - done.
  - right. simpl. lia.
  - unfold SIZE_MAX. simpl. lia.
  - apply hkdf_counters. simpl. lia.
  - intros k [->|[_ ->]]; apply hkdf_feasible; simpl; lia.
Qed.

(** Outputs of five and seven bytes. *)
Definition hkdf_outs : list (list byte) :=
  [slice (kdf_stream hkdf_ctx 12) 0 5; slice (kdf_stream hkdf_ctx 12) 5 7].

Lemma hkdf_output_run :
  (kdf_runs (map (KOutputBytes true) [5; 7]) hkdf_state).1 = outputs [5; 7] hkdf_outs.
Proof. vm_compute. reflexivity. Qed.

Lemma kdf_outputs_consecutive_witness :
  concat hkdf_outs = slice (kdf_stream (kdf_snapshot_L hkdf_ctx) 12) 0 12.
Proof.
  refine (kdf_outputs_consecutive [5; 7] hkdf_outs hkdf_ctx hkdf_state hkdf_live eq_refl hkdf_inv
            _ _ _ _ hkdf_output_run).
  - done.
  - by repeat constructor.
  - done.
  - apply hkdf_counters. simpl. lia.
Defined.

Lemma kdf_output_succeeds_witness :
  wp (psa_key_derivation_output_bytes true 42) (fun r _ => r.1 = PSA_SUCCESS) hkdf_state.
Proof.
  eapply wp_mono.
  - apply (kdf_output_succeeds hkdf_ctx 42); [exact hkdf_live|done|exact hkdf_inv|done| |exact hkdf_smooth].
    by apply hkdf_output_feasible.
  - by intros r s' [-> _].
Defined.

(** The right 16 bytes are accepted. *)
Lemma kdf_verify_exact_witness :
  (psa_key_derivation_verify_bytes (Bytes (slice (kdf_stream hkdf_ctx 16) 0 16)) hkdf_state).1
    = PSA_SUCCESS.
Proof.
  rewrite (kdf_verify_exact hkdf_ctx _ hkdf_state hkdf_live eq_refl hkdf_inv).
  - vm_compute. reflexivity.
  - by vm_compute.
  - apply hkdf_output_feasible. by vm_compute.
  - exact hkdf_smooth.
Defined.

Lemma kdf_backends_compute_stream_witness :
  (wolfpsa_kdf_compute_output hkdf_ctx 42 hkdf_state).1.2 = kdf_stream hkdf_ctx 42.
Proof.
  destruct (kdf_backends_compute_stream hkdf_ctx 42 hkdf_state) as [H1 H2].
  - done.
  - by apply hkdf_counters.
  - done.
  - apply H1, H2; [by apply hkdf_feasible|exact hkdf_smooth].
Defined.

(** A second secret is refused, and nothing works afterwards. *)
Definition hkdf_broken : opstate posix_store wolfpsa_kdf_ctx :=
  (kdf_run (KInputBytes PSA_KEY_DERIVATION_INPUT_SECRET (Bytes [x01])) hkdf_state).2.
Definition hkdf_broken_ctx : wolfpsa_kdf_ctx.
Proof. let c := eval vm_compute in (op_ctx hkdf_broken) in match c with Some ?c => exact c end. Defined.

Lemma hkdf_broken_live : op_ctx hkdf_broken = Some hkdf_broken_ctx.
Proof. vm_compute. reflexivity. Qed.

Lemma hkdf_broken_inv : kdf_inv hkdf_broken_ctx.
Proof.
  assert (Hok : kdf_ok hkdf_broken).
  { refine (proj1 (kdf_call_refines (KInputBytes PSA_KEY_DERIVATION_INPUT_SECRET (Bytes [x01]))
                     hkdf_state _ I)).
    intros c Hc. rewrite hkdf_live in Hc. injection Hc as <-. apply hkdf_inv. }
  exact (Hok _ hkdf_broken_live).
Qed.

Lemma kdf_error_sticks_witness :
  exists c', op_ctx (kdf_runs [KGetCapacity; KOutputBytes true 4] hkdf_broken).2 = Some c' /\
    kdf_error_state c' = true.
Proof.
  refine (proj1 (kdf_error_sticks [KGetCapacity; KOutputBytes true 4] hkdf_broken_ctx hkdf_broken
                   hkdf_broken_live eq_refl hkdf_broken_inv _ _)).
  - by repeat constructor.
  - intros [H|[H|H]%elem_of_cons]%elem_of_cons; [done|done|by apply elem_of_nil in H].
Defined.

Lemma pbkdf2_cmac_counter_wraps_witness :
  (pbkdf2_blocks 1000 0 UINT32_MAX [] hkdf_ctx 16 [] hkdf_state).1 = None.
Proof.
  apply pbkdf2_cmac_counter_wraps; [done|by split|done|exact hkdf_smooth].
Defined.

(** ** Keys as inputs and outputs *)

Definition derive_start : opstate posix_store wolfpsa_kdf_ctx :=
  with_key PSA_KEY_TYPE_DERIVE PSA_KEY_USAGE_DERIVE hkdf_sha256.

Definition key_calls : list kdf_call :=
  [KSetup hkdf_sha256; KInputKey PSA_KEY_DERIVATION_INPUT_SECRET sample_id;
   KInputBytes PSA_KEY_DERIVATION_INPUT_INFO (Bytes [xf0])].

Definition aes128_attr : psa_key_attributes_t :=
  set_bits (volatile_attr PSA_KEY_TYPE_AES PSA_KEY_USAGE_ENCRYPT 0x05500200) 128.

Definition key_state : opstate posix_store wolfpsa_kdf_ctx := (kdf_runs key_calls derive_start).2.

Lemma key_output_run :
  (psa_key_derivation_output_key (Some aes128_attr) true key_state).1.1 = PSA_SUCCESS.
Proof. vm_compute. reflexivity. Qed.

Lemma kdf_output_key_needs_key_witness :
  Exists key_went_in (kdf_runs key_calls derive_start).1.
Proof.
  assert (H : (psa_key_derivation_output_key (Some aes128_attr) true key_state).1.1 = PSA_SUCCESS ->
              Exists key_went_in (kdf_runs key_calls derive_start).1).
  { refine (kdf_output_key_needs_key key_calls (Some aes128_attr) true derive_start eq_refl _ _);
      [by repeat constructor|done]. }
  exact (H key_output_run).
Defined.

Definition keyed_state : opstate posix_store wolfpsa_kdf_ctx :=
  (kdf_run (KSetup hkdf_sha256) derive_start).2.
Definition keyed_ctx : wolfpsa_kdf_ctx.
Proof. let c := eval vm_compute in (op_ctx keyed_state) in match c with Some ?c => exact c end. Defined.

Lemma keyed_live : op_ctx keyed_state = Some keyed_ctx.
Proof. vm_compute. reflexivity. Qed.

Lemma key_input_run :
  (psa_key_derivation_input_key PSA_KEY_DERIVATION_INPUT_SECRET sample_id keyed_state).1 = PSA_SUCCESS.
Proof. vm_compute. reflexivity. Qed.

Lemma kdf_input_key_checked_witness :
  exists a data, (wolfpsa_get_key_data sample_id (Some PSA_KEY_ATTRIBUTES_INIT) (op_lib keyed_state)).1
    = (PSA_SUCCESS, a, data).
Proof.
  destruct (kdf_input_key_checked PSA_KEY_DERIVATION_INPUT_SECRET sample_id keyed_ctx keyed_state
              keyed_live eq_refl key_input_run) as (a & data & H & _).
  exists a, data. exact H.
Defined.

(** * MACs *)

Definition hmac_sha256 : Z := Z.lor PSA_ALG_HMAC_BASE 0x09.

(** A key for signing, and one that can only verify. *)
Definition sign_state : opstate posix_store wolfpsa_mac_ctx :=
  with_key PSA_KEY_TYPE_HMAC PSA_KEY_USAGE_SIGN_MESSAGE hmac_sha256.
Definition verify_state : opstate posix_store wolfpsa_mac_ctx :=
  with_key PSA_KEY_TYPE_HMAC PSA_KEY_USAGE_VERIFY_MESSAGE hmac_sha256.

Definition mac_key_attr (usage : Z) : psa_key_attributes_t :=
  mkAttributes PSA_KEY_TYPE_HMAC 256 PSA_KEY_LIFETIME_VOLATILE (mkPolicy usage hmac_sha256 0) 0.

Lemma hmac_feasible usage :
  Z.land (psa_get_key_usage_flags (mac_key_attr usage)) usage = usage ->
  mac_key_feasible hmac_sha256 usage (mac_key_attr usage) (replicate 32 x4b).
Proof.
  intros Hu. split_and!; try done. unfold mac_key_checks. simpl.
  rewrite Hu. by rewrite Z.eqb_refl.
Qed.

Lemma sign_get :
  (wolfpsa_get_key_data sample_id (Some PSA_KEY_ATTRIBUTES_INIT) (op_lib sign_state)).1
    = (PSA_SUCCESS, Some (mac_key_attr PSA_KEY_USAGE_SIGN_MESSAGE), Some (replicate 32 x4b)).
Proof. vm_compute. reflexivity. Qed.

Lemma verify_get :
  (wolfpsa_get_key_data sample_id (Some PSA_KEY_ATTRIBUTES_INIT) (op_lib verify_state)).1
    = (PSA_SUCCESS, Some (mac_key_attr PSA_KEY_USAGE_VERIFY_MESSAGE), Some (replicate 32 x4b)).
Proof. vm_compute. reflexivity. Qed.

(** Setup is feasible with a key that this call finds. *)
Lemma feasible_with usage s :
  (wolfpsa_get_key_data sample_id (Some PSA_KEY_ATTRIBUTES_INIT) (op_lib s)).1
    = (PSA_SUCCESS, Some (mac_key_attr usage), Some (replicate 32 x4b)) ->
  Z.land (psa_get_key_usage_flags (mac_key_attr usage)) usage = usage -> op_rets s = [] ->
  mem_ok (wolfpsa_get_key_data sample_id (Some PSA_KEY_ATTRIBUTES_INIT) (op_lib s)).2 ->
  mac_setup_feasible sample_id hmac_sha256 usage s.
Proof.
  intros Hg Hu Hr Hm. split_and!; [done|done|].
  eexists _, _, _. split; [rewrite <- Hg; apply surjective_pairing|]. split; [done|].
  by apply hmac_feasible.
Qed.

Lemma sign_feasible : mac_setup_feasible sample_id hmac_sha256 PSA_KEY_USAGE_SIGN_MESSAGE sign_state.
Proof. apply feasible_with; [exact sign_get|done|done|by vm_compute]. Qed.

Lemma verify_feasible :
  mac_setup_feasible sample_id hmac_sha256 PSA_KEY_USAGE_VERIFY_MESSAGE verify_state.
Proof. apply feasible_with; [exact verify_get|done|done|by vm_compute]. Qed.

Lemma sample_input_valid l : zlen l <= UINT32_MAX -> input_valid (Bytes l).
Proof. split; [done|]. by apply fits_word32_spec. Qed.

(** "abc" in one piece and in two. *)
Lemma mac_oneshot_multipart_agree_witness :
  exists tag,
    (psa_mac_compute sample_id hmac_sha256 (Bytes [x61; x62; x63]) true 64 true sign_state).1
      = (PSA_SUCCESS, tag) /\
    (mac_multipart [] sample_id hmac_sha256 PSA_KEY_USAGE_SIGN_MESSAGE
       [Bytes [x61]; Bytes [x62; x63]] (psa_mac_sign_finish true 64 true) sign_state).1
      = (PSA_SUCCESS, tag).
Proof.
  apply mac_oneshot_multipart_agree; [exact sign_feasible|by apply sample_input_valid| |done|done].
  repeat apply Forall_cons_2; try by apply sample_input_valid. apply Forall_nil_2.
Defined.

(** A key that can only verify signs through an operation set up to verify. *)
Lemma mac_verify_operation_signs_witness :
  (psa_mac_compute sample_id hmac_sha256 (Bytes [x61; x62]) true 64 true verify_state).1
    = (PSA_ERROR_NOT_PERMITTED, []) /\
  (mac_multipart [] sample_id hmac_sha256 PSA_KEY_USAGE_VERIFY_MESSAGE [Bytes [x61; x62]]
     (psa_mac_sign_finish true 64 true) verify_state).1.1 = PSA_SUCCESS.
Proof.
  destruct (mac_verify_operation_signs sample_id hmac_sha256 [Bytes [x61; x62]] 64 verify_state
              (mac_key_attr PSA_KEY_USAGE_VERIFY_MESSAGE) (replicate 32 x4b)) as [H1 H2].
  - exact verify_feasible.
  - eexists _, _. split; [exact verify_get|]. by vm_compute.
  - by vm_compute.
  - apply Forall_cons_2; [by apply sample_input_valid|apply Forall_nil_2].
  - done.
  - split; [exact H1|by rewrite H2].
Defined.

(** The HMAC of the samples is not a real one: its tag of "ab" under the key of
    [verify_state], and another of the same length. *)
Definition sample_tag : list byte := full_tag hmac_sha256 (replicate 32 x4b) [x61; x62].

Definition verify_run (mac : list byte) : psa_status_t :=
  (mac_multipart tt sample_id hmac_sha256 PSA_KEY_USAGE_VERIFY_MESSAGE [Bytes [x61]; Bytes [x62]]
     (finish_status (psa_mac_verify_finish (Bytes mac))) verify_state).1.1.

Lemma two_inputs_valid a b : Forall input_valid [Bytes [a]; Bytes [b]].
Proof. repeat apply Forall_cons_2; try by apply sample_input_valid. apply Forall_nil_2. Qed.

(** The tag is accepted, a truncated one is not. *)
Lemma mac_verify_multipart_spec_witness :
  verify_run sample_tag = PSA_SUCCESS /\
  verify_run (take 16 sample_tag) = PSA_ERROR_INVALID_SIGNATURE.
Proof.
  split; [by vm_compute|].
  destruct (mac_verify_multipart_spec sample_id hmac_sha256 [Bytes [x61]; Bytes [x62]]
              (take 16 sample_tag) verify_state) as (_ & Hs & H).
  destruct (H verify_feasible (two_inputs_valid _ _)) as [H1|[H1 _]]; [|exact H1].
  destruct (Hs H1) as (a & d & (a' & d' & Hg & -> & -> & _) & Hacc & _).
  pose proof (eq_trans (eq_sym Hg) verify_get) as Ha. injection Ha as -> ->.
  exfalso. revert Hacc. vm_compute. discriminate.
Defined.

Lemma mac_sign_multipart_spec_witness :
  exists r s, mac_multipart [] sample_id hmac_sha256 PSA_KEY_USAGE_SIGN_MESSAGE
      [Bytes [x61]; Bytes [x62]] (psa_mac_sign_finish true 64 true) sign_state = (r, s) /\
    r.1 = PSA_SUCCESS /\ op_ctx s = None.
Proof.
  eexists _, _. split; [apply surjective_pairing|].
  destruct (mac_sign_multipart_spec sample_id hmac_sha256 [Bytes [x61]; Bytes [x62]] true 64 true
              sign_state) as (Hc & _ & H).
  split; [|exact Hc]. by apply H; [exact sign_feasible|exact (two_inputs_valid _ _)|..].
Defined.

(** * Hashes *)

Lemma hash_start_feasible : hash_feasible PSA_ALG_SHA_256 start.
Proof. by split_and!; [..|exact start_smooth| |]. Qed.

Lemma hash_multipart_spec_witness :
  exists r s, hash_multipart 0 [] PSA_ALG_SHA_256 [Bytes [x61]; Bytes [x62]] (finish_bytes true 32 true)
      start = (r, s) /\ r.1 = PSA_SUCCESS /\ r.2 = digest PSA_ALG_SHA_256 [x61; x62].
Proof.
  eexists _, _. split; [apply surjective_pairing|].
  destruct (hash_multipart_spec 0 PSA_ALG_SHA_256 [Bytes [x61]; Bytes [x62]] true 32 true start)
    as (_ & Hd & H).
  assert (Hs := H hash_start_feasible (two_inputs_valid _ _) eq_refl eq_refl ltac:(done)).
  split; [exact Hs|]. by destruct (Hd Hs) as (_ & _ & ->).
Defined.

Definition hash_verify_run (hash : list byte) : psa_status_t :=
  (hash_multipart 0 tt PSA_ALG_SHA_256 [Bytes [x61]; Bytes [x62]]
     (finish_status (psa_hash_verify (Bytes hash))) start).1.1.

(** A reference that is not the digest is refused as such. *)
Lemma hash_verify_exact_witness :
  hash_verify_run (digest PSA_ALG_SHA_256 [x61; x62]) = PSA_SUCCESS /\
  hash_verify_run (replicate 32 x00) = PSA_ERROR_INVALID_SIGNATURE.
Proof.
  split; [by vm_compute|].
  destruct (hash_verify_exact 0 PSA_ALG_SHA_256 [Bytes [x61]; Bytes [x62]] (replicate 32 x00) start)
    as (_ & Hs & H).
  destruct H as [H|[H _]]; [exact (conj hash_start_feasible (two_inputs_valid _ _))| |exact H].
  discriminate (Hs H).
Defined.

Lemma hash_compare_exact_witness :
  (psa_hash_compare PSA_ALG_SHA_256 (Bytes [x61]) (Bytes (replicate 32 x00)) start).1
    = PSA_ERROR_INVALID_SIGNATURE.
Proof.
  destruct (hash_compare_exact PSA_ALG_SHA_256 (Bytes [x61]) (replicate 32 x00) start) as (Hs & H).
  destruct H as [H|[H _]]; [split; [exact hash_start_feasible|by apply sample_input_valid]| |exact H].
  discriminate (Hs H).
Defined.

(** An object is cloned, and the two go on apart. *)
Definition no_objects : hash_heap := let s := start (Op := psa_hash_operation_ctx) in mkHeap (op_lib s) (op_rets s) ∅ ∅.

Lemma no_objects_ok : heap_ok ∅ no_objects.
Proof. by split. Qed.

Definition clone_calls (alg : Z) : list hash_call :=
  [HashSetup 0 alg; HashUpdate 0 (Bytes [x61]); HashClone 0 1; HashUpdate 0 (Bytes [x62]);
   HashClone 0 1; HashUpdate 1 (Bytes [x63]); HashFinish 0 true 64 true;
   HashUpdate 0 (Bytes [x64]); HashVerify 1 (Bytes (fit 32 [x61; x63]))].

Lemma hash_calls_refine_witness :
  exists rs T' h', run_hash_calls (clone_calls PSA_ALG_SHA_256) no_objects = (rs, h') /\
    hash_run (heap_undisturbed no_objects) ∅ (clone_calls PSA_ALG_SHA_256) rs T' /\ heap_ok T' h'.
Proof.
  destruct (hash_calls_refine ∅ (clone_calls PSA_ALG_SHA_256) no_objects no_objects_ok) as (T' & Hrun & Hok).
  exists (run_hash_calls (clone_calls PSA_ALG_SHA_256) no_objects).1, T',
    (run_hash_calls (clone_calls PSA_ALG_SHA_256) no_objects).2.
  exact (conj (surjective_pairing _) (conj Hrun Hok)).
Defined.

(** The second clone is refused, its target being in use; the finished object is
    idle; a clone of an Ascon context is a copy of its bytes. *)
Example clone_calls_sample :
  (run_hash_calls (clone_calls PSA_ALG_SHA_256) no_objects).1
    = [(PSA_SUCCESS, []); (PSA_SUCCESS, []); (PSA_SUCCESS, []); (PSA_SUCCESS, []);
       (PSA_ERROR_BAD_STATE, []); (PSA_SUCCESS, []); (PSA_SUCCESS, fit 32 [x61; x62]);
       (PSA_ERROR_BAD_STATE, []); (PSA_SUCCESS, [])] /\
  (run_hash_calls (clone_calls PSA_ALG_ASCON_HASH256) no_objects).1
    = (run_hash_calls (clone_calls PSA_ALG_SHA_256) no_objects).1.
Proof. split; vm_compute; reflexivity. Qed.

(** * Extendable output *)

Lemma xof_growth_terminates_witness :
  1000 <= grow_cap grow_fuel (grow_start 256) 1000 <= UINT32_MAX.
Proof. apply (xof_growth_terminates 256 1000 32); [by split|done|done]. Defined.

(** Runs of the specifications without hypotheses. *)
Example xof_run_sample :
  (xof_run PSA_ALG_SHAKE256 [Bytes [x61]; Bytes [x62]] [3%N; 200%N] start).1
    = (PSA_SUCCESS, [[x61; x62; x00]; replicate 200 x00]).
Proof. vm_compute. reflexivity. Qed.

(** Input after output is refused and ends the operation. *)
Definition xof_calls : list xof_call :=
  [XSetup PSA_ALG_SHAKE256; XUpdate (Bytes [x61]); XOutput true 3; XUpdate (Bytes [x62]);
   XOutput true 1].

Lemma xof_calls_refine_witness :
  exists l s v, (set_ctx None;; xof_runs xof_calls) start = (l, s) /\
    map fst l = [PSA_SUCCESS; PSA_SUCCESS; PSA_SUCCESS; PSA_ERROR_BAD_STATE; PSA_ERROR_BAD_STATE] /\
    xof_trace XIdle xof_calls l v.
Proof.
  destruct (xof_calls_refine xof_calls start) as (v & _ & H). revert H.
  assert (Hrun : map fst ((set_ctx None;; xof_runs xof_calls) start).1 =
    [PSA_SUCCESS; PSA_SUCCESS; PSA_SUCCESS; PSA_ERROR_BAD_STATE; PSA_ERROR_BAD_STATE]) by
    (vm_compute; reflexivity).
  revert Hrun. destruct ((set_ctx None;; xof_runs xof_calls) start) as [l s]. intros Hrun H.
  exists l, s, v. exact (conj eq_refl (conj Hrun H)).
Defined.

Lemma xof_start_feasible : xof_feasible PSA_ALG_SHAKE256 start.
Proof. by split_and!; [|exact start_smooth|..]. Qed.

Lemma xof_outputs_consecutive_witness :
  exists r, (xof_run PSA_ALG_SHAKE256 [Bytes [x61]; Bytes [x62]] [3%N; 200%N] start).1 = r /\
    r.1 = PSA_SUCCESS /\ concat r.2 = shake PSA_ALG_SHAKE256 [x61; x62] 203.
Proof.
  eexists. split; [reflexivity|].
  destruct (xof_outputs_consecutive PSA_ALG_SHAKE256 [Bytes [x61]; Bytes [x62]] [3%N; 200%N] start)
    as (Hd & H).
  assert (Hs := H xof_start_feasible (two_inputs_valid _ _) ltac:(done)).
  split; [exact Hs|exact (proj2 (Hd Hs))].
Defined.
