(* ===== verification/CipherExamples.v ===== *)
(** The theorems on cipher operations at concrete inputs, over a sample cipher
    that meets the laws of [WolfCipher]. *)

From stdpp Require Import base decidable list.
From Stdlib Require Import ZArith Lia.
From Stdlib Require Import Strings.Byte.
From S2P Require Import Prelude.
From S2P Require Import Values.
From S2P Require Import Engine.
From S2P Require Import WolfCipher.
From S2P Require Import KeyPolicy.
From S2P Require Import KeyFormat.
From S2P Require Import StoreIface.
From S2P Require Import StorePosix.
From S2P Require Import Library.
From S2P Require Import KeyStore.
From S2P Require Import Samples.
From S2P Require Import KeyStoreRules.
From S2P Require Import Operation.
From S2P Require Import Cipher.
From S2P Require Import CipherRules.
From S2P Require Import CipherPadding.
From S2P Require Import CipherOps.
From S2P Require Import CipherSpec.
From S2P Require Import CipherProps.
From S2P Require Import CipherOneShot.
From S2P Require Import CryptoSamples.
From S2P Require Import KeyStoreExamples.

#[local] Open Scope Z_scope.

(** * A sample cipher: a constant of key and vector minus each byte *)

Definition flip (k : Z) (b : byte) : byte := z2b (k - b2z b).

Lemma flip_flip k b : flip k (flip k b) = b.
Proof.
  unfold flip. apply b2z_inj. rewrite !b2z_z2b, Zminus_mod_idemp_r.
  replace (k - (k - b2z b)) with (b2z b) by lia. apply Z.mod_small, b2z_range.
Qed.

Definition key_sum (key iv : list byte) : Z := b2z (default x00 (head key)) + b2z (default x00 (head iv)).

Definition flip_text (key iv : list byte) (x : list byte) : list byte := map (flip (key_sum key iv)) x.

(** A context is a key and a vector. *)
Definition sample_ctx : Type := list byte * list byte.
Definition flip_run (a : sample_ctx) (x : list byte) : list byte * sample_ctx := (flip_text a.1 a.2 x, a).

Definition sample_cipher : WolfCryptCipher :=
  {| Aes := sample_ctx; Des3 := sample_ctx; ChaCha := sample_ctx;
     zero_Aes := ([], []); zero_Des3 := ([], []); zero_ChaCha := ([], []);
     wc_AesSetKey := fun key _ _ => (key, []);
     wc_AesCtrSetKey := fun key _ _ => (key, []);
     wc_AesSetIV := fun a iv => (a.1, iv);
     wc_AesCbcEncrypt := flip_run; wc_AesCbcDecrypt := flip_run;
     wc_AesEcbEncrypt := flip_run; wc_AesEcbDecrypt := flip_run;
     wc_AesCtrEncrypt := flip_run;
     wc_AesCfbEncrypt := flip_run; wc_AesCfbDecrypt := flip_run;
     wc_AesOfbEncrypt := flip_run; wc_AesOfbDecrypt := flip_run;
     wc_Des3_SetKey := fun key _ _ => (key, []);
     wc_Des3_SetIV := fun a iv => (a.1, iv);
     wc_Des3_CbcEncrypt := flip_run; wc_Des3_CbcDecrypt := flip_run;
     wc_Des3_EcbEncrypt := flip_run; wc_Des3_EcbDecrypt := flip_run;
     wc_Chacha_SetKey := fun key => (key, []);
     wc_Chacha_SetIV := fun a iv _ => (a.1, iv);
     wc_Chacha_Process := flip_run |}.

Lemma flip_step key iv x y (a : sample_ctx) :
  a = (key, iv) ->
  let '(out, a') := flip_run a y in
  a' = (key, iv) /\ flip_text key iv (x ++ y) = flip_text key iv x ++ out.
Proof. intros ->. simpl. split; [done|]. apply map_app. Qed.

Definition sample_cipher_ok : WolfCryptCipherOk sample_cipher.
Proof.
  refine {| crypt := fun _ _ => flip_text;
            aes_has := fun _ _ key iv (a : @Aes sample_cipher) _ => a = (key, iv);
            des3_has := fun _ _ key iv (a : @Des3 sample_cipher) _ => a = (key, iv);
            chacha_has := fun key iv (a : @ChaCha sample_cipher) _ => a = (key, iv) |}; try done.
  - intros m d key iv x _. unfold flip_text, zlen. by rewrite length_map.
  - intros m key iv x _. unfold flip_text. rewrite map_map.
    rewrite <- (map_id x) at 2. apply map_ext. intros b. apply flip_flip.
  - intros [] [] key iv a x y _; apply flip_step.
  - intros [] [] key iv a x y _; apply flip_step.
  - intros d key iv a x y; apply flip_step.
Defined.

Definition sample_ct : WolfCryptCt :=
  {| ctMaskEq := fun a b => if a =? b then 255 else 0;
     ctMaskGT := fun a b => if b <? a then 255 else 0;
     ctMaskLT := fun a b => if a <? b then 255 else 0 |}.

Lemma sample_ct_ok : WolfCryptCtOk sample_ct.
Proof. by split. Qed.

#[export] Existing Instances sample_cipher sample_cipher_ok sample_ct sample_ct_ok.

(** * The theorems *)

(** An AES key of 32 bytes that encrypts and decrypts with CBC-PKCS7. *)
Definition cipher_usage : Z := Z.lor PSA_KEY_USAGE_ENCRYPT PSA_KEY_USAGE_DECRYPT.
Definition cipher_start : opstate posix_store wolfpsa_cipher_ctx :=
  with_key PSA_KEY_TYPE_AES cipher_usage PSA_ALG_CBC_PKCS7.
Definition cipher_attr : psa_key_attributes_t :=
  set_bits (volatile_attr PSA_KEY_TYPE_AES cipher_usage PSA_ALG_CBC_PKCS7) 256.
Definition cipher_key : list byte := replicate 32 x4b.

Definition cipher_get_result : psa_status_t * option psa_key_attributes_t * option (list byte) :=
  (PSA_SUCCESS, Some cipher_attr, Some cipher_key).

Definition cipher_found (s : opstate posix_store wolfpsa_cipher_ctx) : Prop :=
  (wolfpsa_get_key_data sample_id (Some PSA_KEY_ATTRIBUTES_INIT) (op_lib s)).1 = cipher_get_result.

Lemma start_found : cipher_found cipher_start.
Proof. vm_compute. reflexivity. Qed.

Lemma cipher_usable usage s :
  cipher_found s -> cipher_key_checks usage PSA_ALG_CBC_PKCS7 cipher_attr 32 = PSA_SUCCESS ->
  cipher_key_usable sample_id PSA_ALG_CBC_PKCS7 usage s cipher_attr cipher_key.
Proof. intros Hf Hc. by eexists _, _. Qed.

Lemma cipher_feasible usage s :
  cipher_found s -> cipher_key_checks usage PSA_ALG_CBC_PKCS7 cipher_attr 32 = PSA_SUCCESS ->
  op_rets s = [] -> mem_ok (loaded_lib sample_id s) ->
  cipher_setup_feasible sample_id PSA_ALG_CBC_PKCS7 usage s.
Proof.
  intros Hf Hc Hr Hm. split_and!; [done|done|]. unfold cipher_found, loaded_lib in *.
  destruct (wolfpsa_get_key_data _ _ _) as [r k]. simpl in Hf, Hm. rewrite Hf.
  eexists _, _, _. split; [reflexivity|]. by split_and!.
Qed.

(** "abc" in and 64 bytes of room elsewhere. *)
Definition io_of (data : list byte) (addr : Z) : cipher_io := mkIo (Bytes data) addr true 4096 64 true.

Definition abc : list byte := [x61; x62; x63].

Lemma io_sample_valid data addr :
  zlen data <= 64 -> addr = 0 -> oneshot_valid (io_of data addr).
Proof.
  intros Hl ->. split_and!; try done.
  - split; [done|]. apply fits_word32_spec. simpl. unfold UINT32_MAX. pose proof (zlen_nonneg data). lia.
  - unfold io_overlap, io_of. simpl. apply andb_false_iff. right. apply Z.ltb_ge.
    pose proof (zlen_nonneg data). rewrite to_size_small; unfold SIZE_MAX; lia.
Qed.

Lemma oneshot_io_valid alg io : oneshot_valid io -> io_valid alg io.
Proof. intros (H1 & H2 & H3 & H4). split_and!; [exact H1|by left|exact H3|by intros]. Qed.

Definition sample_cipher_calls : list cipher_call :=
  [CSetup AES_ENCRYPTION sample_id PSA_ALG_CBC_PKCS7; CSetIv (Bytes (replicate 16 x01));
   CUpdate (io_of abc 0); CFinish true 64 true].

Lemma cipher_calls_refine_witness :
  exists v, cipher_trace CIdle sample_cipher_calls
    ((set_ctx None;; cipher_runs sample_cipher_calls) cipher_start).1 v.
Proof.
  destruct (cipher_calls_refine (ROK := sample_rng_ok) sample_cipher_calls cipher_start)
    as (v & _ & Htr); [|exists v; exact Htr].
  repeat apply Forall_cons_2; [done..|apply Forall_nil_2].
Defined.

Definition sample_chunks : list cipher_io := [io_of (replicate 20 x61) 0; io_of [x62] 0].

(** 21 bytes in two parts, padded to two blocks. *)
Lemma cipher_multipart_spec_witness :
  exists out, (cipher_multipart AES_ENCRYPTION sample_id PSA_ALG_CBC_PKCS7
       (Some (replicate 16 x01)) sample_chunks true 64 cipher_start).1 = (PSA_SUCCESS, out) /\
  zlen out = 32.
Proof.
  destruct (cipher_multipart_spec AES_ENCRYPTION sample_id PSA_ALG_CBC_PKCS7
       (Some (replicate 16 x01)) sample_chunks true 64 cipher_start) as [_ [_ H]].
  - by repeat apply Forall_cons_2.
  - done.
  - eexists. split.
    + apply (H cipher_attr cipher_key).
      * by apply cipher_feasible; [exact start_found|..].
      * by apply cipher_usable; [exact start_found|].
      * done.
      * repeat apply Forall_cons_2; [..|apply Forall_nil_2]; (split; [|done]);
          by apply oneshot_io_valid, io_sample_valid.
      * done.
      * by left.
    + by vm_compute.
Defined.

Lemma sample_rng_works : rng_works.
Proof.
  intros n. split; [done|]. intros size Hs. simpl. by rewrite (proj2 (Z.ltb_ge size 0)).
Qed.

Lemma sample_encrypt_feasible : encrypt_feasible sample_id PSA_ALG_CBC_PKCS7 cipher_start.
Proof.
  split_and!; [by apply cipher_feasible; [exact start_found|..]| |by vm_compute|exact sample_rng_works].
  vm_compute. repeat split.
Qed.

(** "abc" encrypts to a vector and one block. *)
Lemma psa_cipher_encrypt_spec_witness :
  (psa_cipher_encrypt sample_id PSA_ALG_CBC_PKCS7 (io_of abc 0) cipher_start).1.1 = PSA_SUCCESS /\
  encrypts_to sample_id PSA_ALG_CBC_PKCS7 cipher_start abc
    (psa_cipher_encrypt sample_id PSA_ALG_CBC_PKCS7 (io_of abc 0) cipher_start).1.2.
Proof.
  destruct (psa_cipher_encrypt_spec (ROK := sample_rng_ok) sample_id PSA_ALG_CBC_PKCS7 (io_of abc 0)
              cipher_start) as [_ [Hout Hok]]; [done|].
  assert (Hst : (psa_cipher_encrypt sample_id PSA_ALG_CBC_PKCS7 (io_of abc 0) cipher_start).1.1 = PSA_SUCCESS).
  { apply (Hok cipher_attr cipher_key); [exact sample_encrypt_feasible| |by apply io_sample_valid|done].
    by apply cipher_usable; [exact start_found|]. }
  split; [exact Hst|]. by apply Hout.
Defined.

Definition abc_encrypted : list byte :=
  Eval vm_compute in (psa_cipher_encrypt sample_id PSA_ALG_CBC_PKCS7 (io_of abc 0) cipher_start).1.2.

(** A message whose last byte is spoilt is refused. *)
Definition abc_spoilt : list byte := take 31 abc_encrypted ++ [x00].

Lemma psa_cipher_decrypt_spec_witness :
  (psa_cipher_decrypt sample_id PSA_ALG_CBC_PKCS7 (io_of abc_encrypted 0) cipher_start).1
    = (PSA_SUCCESS, abc) /\
  (psa_cipher_decrypt sample_id PSA_ALG_CBC_PKCS7 (io_of abc_spoilt 0) cipher_start).1
    = (PSA_ERROR_INVALID_PADDING, []).
Proof.
  assert (Hf : cipher_setup_feasible sample_id PSA_ALG_CBC_PKCS7 PSA_KEY_USAGE_DECRYPT cipher_start).
  { by apply cipher_feasible; [exact start_found|..]. }
  assert (Hu : cipher_key_usable sample_id PSA_ALG_CBC_PKCS7 PSA_KEY_USAGE_DECRYPT cipher_start
                 cipher_attr cipher_key).
  { by apply cipher_usable; [exact start_found|]. }
  destruct (psa_cipher_decrypt_spec sample_id PSA_ALG_CBC_PKCS7 (io_of abc_encrypted 0) cipher_start)
    as [_ [_ H1]]; [done|].
  destruct (psa_cipher_decrypt_spec sample_id PSA_ALG_CBC_PKCS7 (io_of abc_spoilt 0) cipher_start)
    as [_ [_ H2]]; [done|].
  rewrite (H1 cipher_attr cipher_key Hf Hu), (H2 cipher_attr cipher_key Hf Hu);
    [by vm_compute|by apply io_sample_valid|done|by apply io_sample_valid|done].
Defined.

Definition after_encrypt : opstate posix_store wolfpsa_cipher_ctx :=
  (psa_cipher_encrypt sample_id PSA_ALG_CBC_PKCS7 (io_of abc 0) cipher_start).2.

Lemma after_found : cipher_found after_encrypt.
Proof. vm_compute. reflexivity. Qed.

Lemma cipher_roundtrip_witness :
  (psa_cipher_decrypt sample_id PSA_ALG_CBC_PKCS7 (io_of abc_encrypted 0) after_encrypt).1
    = (PSA_SUCCESS, abc).
Proof.
  apply (cipher_roundtrip (ROK := sample_rng_ok) sample_id PSA_ALG_CBC_PKCS7 (io_of abc 0)
           (io_of abc_encrypted 0) cipher_start after_encrypt cipher_attr cipher_key abc_encrypted).
  - done.
  - by vm_compute.
  - done.
  - by apply io_sample_valid.
  - done.
  - by apply cipher_feasible; [exact after_found|..].
  - by apply cipher_usable; [exact start_found|].
  - by apply cipher_usable; [exact after_found|].
Defined.

(** Thirteen bytes of padding pass, twelve of value thirteen do not. *)
Lemma pkcs7_check_exact_witness :
  pkcs7_invalid (abc ++ replicate 13 x0d) 16 = 0 /\
  (exists plain n, 1 <= n <= 16 /\ abc ++ replicate 13 x0d = plain ++ replicate (Z.to_nat n) (z2b n)) /\
  pkcs7_invalid (abc ++ x00 :: replicate 12 x0d) 16 <> 0.
Proof.
  assert (H : exists plain n, 1 <= n <= 16 /\
    abc ++ replicate 13 x0d = plain ++ replicate (Z.to_nat n) (z2b n)) by (by exists abc, 13).
  split; [|split; [exact H|by vm_compute]].
  apply (pkcs7_check_exact (abc ++ replicate 13 x0d) 16); [done|done|exact H].
Defined.
