(* ===== verification/AeadExamples.v ===== *)
(** The theorems on authenticated encryption at concrete inputs, over sample
    ciphers that meet the laws of [Ccm] and [WolfAead]. *)

From stdpp Require Import base decidable list.
From Stdlib Require Import ZArith Lia.
From Stdlib Require Import Strings.Byte.
From S2P Require Import Prelude.
From S2P Require Import Values.
From S2P Require Import Engine.
From S2P Require Import WolfCrypt.
From S2P Require Import KeyPolicy.
From S2P Require Import KeyFormat.
From S2P Require Import StoreIface.
From S2P Require Import StorePosix.
From S2P Require Import Library.
From S2P Require Import KeyStore.
From S2P Require Import Samples.
From S2P Require Import KeyStoreRules.
From S2P Require Import Operation.
From S2P Require Import Ccm.
From S2P Require Import CcmSpec.
From S2P Require Import WolfAead.
From S2P Require Import Aead.
From S2P Require Import AeadOneShot.
From S2P Require Import AeadRules.
From S2P Require Import AeadFinal.
From S2P Require Import AeadOps.
From S2P Require Import AeadSpec.
From S2P Require Import AeadProps.
From S2P Require Import AeadOneShotSpec.
From S2P Require Import CryptoSamples.
From S2P Require Import KeyStoreExamples.

#[local] Open Scope Z_scope.

(** * Sample ciphers *)

(** A block is turned by the first byte of the key. *)
Definition key_byte (key : list byte) : Z := b2z (default x00 (head key)).

Definition sample_block : WolfCryptAesDirect :=
  {| AesDirect := list byte; zero_AesDirect := [];
     wc_AesSetKeyDirect := fun key => key;
     wc_AesEncryptDirect := fun key block => fit 16 (map (fun b => z2b (3 * b2z b + key_byte key)) block) |}.

Lemma sample_block_ok : WolfCryptAesDirectOk sample_block.
Proof.
  split. intros a block. pose proof (fit_length 16 (map (fun b => z2b (3 * b2z b + key_byte a)) block)).
  unfold zlen in *. simpl in *. lia.
Qed.

(** A keystream that counts, and a tag that begins with the additional data and
    the cipher text. *)
Definition sample_stream (key nonce : list byte) (i : nat) : byte :=
  z2b (key_byte key + key_byte nonce + Z.of_nat i).
Definition sample_mac (key nonce aad ct : list byte) : list byte := fit 16 (aad ++ ct ++ nonce ++ key).

Definition sample_seal (key nonce aad text : list byte) : list byte * list byte :=
  let ct := stream_xor (sample_stream key nonce) 0 text in (ct, sample_mac key nonce aad ct).
Definition sample_open (key nonce aad ct tag : list byte) : option (list byte) :=
  if bool_decide (tag = sample_mac key nonce aad ct)
  then Some (stream_xor (sample_stream key nonce) 0 ct) else None.

Lemma sample_mac_length key nonce aad ct : length (sample_mac key nonce aad ct) = 16%nat.
Proof. pose proof (fit_length 16 (aad ++ ct ++ nonce ++ key)). unfold sample_mac, zlen in *. lia. Qed.

Lemma sample_open_spec key nonce aad ct tag text :
  sample_open key nonce aad ct tag = Some text <-> sample_seal key nonce aad text = (ct, tag).
Proof.
  unfold sample_open, sample_seal. case_bool_decide as H; split.
  - intros [= <-]. by rewrite stream_xor_involutive, <- H.
  - intros [= <- _]. by rewrite stream_xor_involutive.
  - done.
  - intros [= <- <-]. done.
Qed.

(** The text with its tag at the end. *)
Definition sample_open_whole (key nonce aad ct : list byte) : option (list byte) :=
  let n := (length ct - 16)%nat in
  if (length ct <? 16)%nat then None else sample_open key nonce aad (take n ct) (drop n ct).

Lemma sample_open_whole_spec key nonce aad ct text :
  sample_open_whole key nonce aad ct = Some text <->
  ct = (sample_seal key nonce aad text).1 ++ (sample_seal key nonce aad text).2.
Proof.
  unfold sample_open_whole. destruct (Nat.ltb_spec (length ct) 16) as [Hl|Hl].
  - split; [done|]. intros ->. simpl in Hl. rewrite length_app, sample_mac_length in Hl. lia.
  - rewrite sample_open_spec. split; [intros ->; simpl; by rewrite take_drop|]. intros H.
    destruct (sample_seal key nonce aad text) as [x tag] eqn:Hs. simpl in H. subst ct.
    assert (Ht : length tag = 16%nat) by (injection Hs as <- <-; apply sample_mac_length).
    rewrite length_app, Ht. replace (length x + 16 - 16)%nat with (length x) by lia.
    by rewrite take_app_length, drop_app_length.
Qed.

(** A streaming context: direction, key, nonce, additional data, cipher text. *)
Record sample_aead_ctx : Set := mkSample {
  sa_encrypt : bool;
  sa_key : list byte;
  sa_nonce : list byte;
  sa_aad : list byte;
  sa_ct : list byte }.

Definition sample_update (g : sample_aead_ctx) (text aad : list byte) : list byte * sample_aead_ctx :=
  let out := stream_xor (sample_stream (sa_key g) (sa_nonce g)) (length (sa_ct g)) text in
  (out, mkSample (sa_encrypt g) (sa_key g) (sa_nonce g) (sa_aad g ++ aad)
          (sa_ct g ++ if sa_encrypt g then out else text)).

Definition sample_final (g : sample_aead_ctx) : list byte :=
  sample_mac (sa_key g) (sa_nonce g) (sa_aad g) (sa_ct g).

Definition sample_aead : WolfCryptAead :=
  {| AesGcm := sample_aead_ctx;
     zero_AesGcm := mkSample false [] [] [] [];
     wc_AesGcmEncryptInit := fun key nonce => mkSample true key nonce [] [];
     wc_AesGcmDecryptInit := fun key nonce => mkSample false key nonce [] [];
     wc_AesGcmEncryptUpdate := sample_update;
     wc_AesGcmDecryptUpdate := sample_update;
     wc_AesGcmEncryptFinal := fun g n => take (Z.to_nat n) (sample_final g);
     wc_AesGcmDecryptFinal := fun g tag => bool_decide (tag = take (length tag) (sample_final g));
     wc_AesGcmEncrypt := fun key text nonce n aad =>
       let '(ct, tag) := sample_seal key nonce aad text in (ct, take (Z.to_nat n) tag);
     wc_AesGcmDecrypt := fun key ct nonce tag aad =>
       if bool_decide (tag = take (length tag) (sample_mac key nonce aad ct))
       then Some (stream_xor (sample_stream key nonce) 0 ct) else None;
     wc_AesCcmCheckTagSize := fun n => if bool_decide (n ∈ [4; 6; 8; 10; 12; 14; 16]) then 0 else -173;
     wc_AesCcmEncrypt := fun key text nonce n aad =>
       let enc := @wc_AesEncryptDirect sample_block key in
       (ccm_crypt enc nonce text, ccm_tag enc nonce aad text n);
     wc_AesCcmDecrypt := fun key ct nonce tag aad =>
       let enc := @wc_AesEncryptDirect sample_block key in
       let text := ccm_crypt enc nonce ct in
       if bool_decide (tag = ccm_tag enc nonce aad text (zlen tag)) then Some text else None;
     ChaChaPoly_Aead := sample_aead_ctx;
     zero_ChaChaPoly := mkSample false [] [] [] [];
     wc_ChaCha20Poly1305_Init := fun key nonce d => mkSample d key nonce [] [];
     wc_ChaCha20Poly1305_UpdateAad := fun h aad => (sample_update h [] aad).2;
     wc_ChaCha20Poly1305_UpdateData := fun h text => sample_update h text [];
     wc_ChaCha20Poly1305_Final := sample_final;
     wc_ChaCha20Poly1305_CheckTag := fun a b => if bool_decide (a = b) then 0 else -213;
     wc_ChaCha20Poly1305_Encrypt := sample_seal;
     wc_ChaCha20Poly1305_Decrypt := sample_open;
     wc_XChaCha20Poly1305_Encrypt := fun text aad nonce key =>
       let '(ct, tag) := sample_seal key (input_bytes nonce) (input_bytes aad) (input_bytes text) in
       (0, ct ++ tag);
     wc_XChaCha20Poly1305_Decrypt := fun ct aad nonce key =>
       (0, sample_open_whole key (input_bytes nonce) (input_bytes aad) (input_bytes ct));
     wc_AsconAEAD128_Encrypt := fun key nonce aad text =>
       (0, sample_seal key (input_bytes nonce) (input_bytes aad) (input_bytes text));
     wc_AsconAEAD128_Decrypt := fun key nonce aad ct tag =>
       (0, sample_open key (input_bytes nonce) (input_bytes aad) (input_bytes ct) (input_bytes tag));
     ASCON_AUTH_E := -1001;
     WOLFSSL_MIN_AUTH_TAG_SZ := 12 |}.

Definition sample_aead_ok : WolfCryptAeadOk sample_aead sample_block.
Proof.
  refine {| gcm_stream := sample_stream; gcm_mac := sample_mac;
            gcm_has := fun d key nonce aad ct (g : @AesGcm sample_aead) => g = mkSample d key nonce aad ct;
            chacha_stream := sample_stream; chacha_mac := sample_mac;
            chacha_has := fun d key nonce aad ct (g : @ChaChaPoly_Aead sample_aead) =>
              g = mkSample d key nonce aad ct;
            xchacha_seal := fun key nonce aad text =>
              let '(ct, tag) := sample_seal key nonce aad text in ct ++ tag;
            ascon_seal := sample_seal |};
    try done; try apply sample_mac_length; try (intros; subst; done).
  - intros key nonce aad ct g text ->. simpl. by rewrite app_nil_r.
  - intros key nonce aad ct g text ->. simpl. by rewrite app_nil_r.
  - intros n. simpl. case_bool_decide; split; done.
  - intros d key nonce h aad ->. unfold wc_ChaCha20Poly1305_UpdateAad. simpl. by destruct d.
  - intros d key nonce aad ct h text ->. simpl. by rewrite app_nil_r.
  - intros a b _ _. simpl. case_bool_decide; split; done.
  - intros key nonce aad text. simpl. rewrite zlen_app. unfold zlen. rewrite stream_xor_length, sample_mac_length. lia.
  - intros key nonce aad ct. eexists. split; [reflexivity|]. intros text. rewrite sample_open_whole_spec. done.
  - intros key nonce aad text. simpl. unfold zlen. rewrite stream_xor_length, sample_mac_length. lia.
  - intros key nonce aad ct tag. eexists. split; [reflexivity|]. intros text. apply sample_open_spec.
Defined.

#[export] Existing Instances sample_block sample_block_ok sample_aead sample_aead_ok.

(** * The theorems *)

(** AES keys of 32 bytes, and one of each other type. *)
Definition aead_use : Z := Z.lor PSA_KEY_USAGE_ENCRYPT PSA_KEY_USAGE_DECRYPT.

Definition state_with (type alg : Z) : opstate posix_store wolfpsa_aead_ctx := with_key type aead_use alg.

Definition key_bytes : list byte := replicate 32 x4b.
Definition attr_with (type alg : Z) : psa_key_attributes_t :=
  set_bits (volatile_attr type aead_use alg) 256.

Definition loads (type alg : Z) (s : opstate posix_store wolfpsa_aead_ctx) : Prop :=
  (wolfpsa_get_key_data sample_id (Some PSA_KEY_ATTRIBUTES_INIT) (op_lib s)).1
    = (PSA_SUCCESS, Some (attr_with type alg), Some key_bytes).

Lemma loads_usable type alg usage s :
  loads type alg s -> aead_key_checks usage alg (attr_with type alg) = PSA_SUCCESS ->
  aead_key_usable sample_id alg usage s (attr_with type alg) key_bytes.
Proof. intros Hl Hc. by eexists _, _. Qed.

Lemma loads_feasible type alg usage multipart s :
  loads type alg s -> aead_key_checks usage alg (attr_with type alg) = PSA_SUCCESS ->
  aead_alg_check alg multipart = PSA_SUCCESS -> aead_tag_check alg (wolfpsa_aead_tag_length alg) = PSA_SUCCESS ->
  op_rets s = [] -> mem_ok (wolfpsa_get_key_data sample_id (Some PSA_KEY_ATTRIBUTES_INIT) (op_lib s)).2 ->
  aead_setup_feasible sample_id alg usage multipart s.
Proof.
  intros Hl Hc Ha Ht Hr Hm. split_and!; try done. unfold loads in Hl.
  destruct (wolfpsa_get_key_data _ _ _) as [r k]. simpl in Hl, Hm. rewrite Hl.
  eexists _, _, _. by split; [reflexivity|].
Qed.

Definition gcm_start := state_with PSA_KEY_TYPE_AES PSA_ALG_GCM.
Definition ccm_start := state_with PSA_KEY_TYPE_AES PSA_ALG_CCM.
Definition chacha_start := state_with PSA_KEY_TYPE_CHACHA20 PSA_ALG_CHACHA20_POLY1305.

Lemma gcm_loads : loads PSA_KEY_TYPE_AES PSA_ALG_GCM gcm_start.
Proof. vm_compute. reflexivity. Qed.
Lemma ccm_loads : loads PSA_KEY_TYPE_AES PSA_ALG_CCM ccm_start.
Proof. vm_compute. reflexivity. Qed.
Lemma chacha_loads : loads PSA_KEY_TYPE_CHACHA20 PSA_ALG_CHACHA20_POLY1305 chacha_start.
Proof. vm_compute. reflexivity. Qed.

Definition abc : list byte := [x61; x62; x63].
Definition nonce12 : list byte := replicate 12 x01.

(** Twenty bytes in three parts, with additional data. *)
Lemma ccm_stream_is_ccm_witness :
  let enc := wc_AesEncryptDirect (wc_AesSetKeyDirect key_bytes) in
  let text := replicate 20 x61 in
  (ccm_run (O := posix_store) (Op := wolfpsa_aead_ctx) true key_bytes nonce12 abc
     [replicate 3 x61; []; replicate 17 x61] 20 16 start).1
    = inr (ccm_crypt enc nonce12 text, ccm_tag enc nonce12 abc text 16).
Proof.
  intros enc text.
  destruct (ccm_stream_is_ccm (O := posix_store) (Op := wolfpsa_aead_ctx) true key_bytes nonce12 abc
     [replicate 3 x61; []; replicate 17 x61] 20 16 start) as [H1 H2]; [simpl; lia|done|done|done|].
  destruct (H1 start_smooth) as [x Hx].
  destruct (ccm_run _ _ _ _ _ _ _ _).1 as [e|y]; [done|]. injection Hx as ->.
  by rewrite (H2 x eq_refl).
Defined.

Definition sample_aead_calls : list aead_call :=
  [ASetup true sample_id PSA_ALG_GCM; ASetNonce (Bytes nonce12); AUpdateAd (Bytes abc);
   AUpdate (Bytes abc) true 64 true; AUpdateAd (Bytes abc); AFinish true 64 true true 16 true].

(** Additional data after the text is refused, and ends the operation. *)
Lemma aead_calls_refine_witness :
  exists v, aead_trace None sample_aead_calls
    ((set_ctx None;; aead_runs sample_aead_calls) gcm_start).1 v.
Proof.
  destruct (aead_calls_refine (ROK := sample_rng_ok) sample_aead_calls gcm_start) as (v & _ & Htr);
    [|exists v; exact Htr].
  by repeat apply Forall_cons_2.
Defined.

Definition text_parts : list (input * Z) := [(Bytes abc, 64); (Bytes [], 0); (Bytes [x64], 1)].

Lemma text_parts_ok : Forall part_ok text_parts.
Proof. repeat apply Forall_cons_2; [..|apply Forall_nil_2]; by repeat split. Qed.

(** CCM, with its lengths. *)
Lemma aead_encrypt_parts_spec_witness :
  exists out, (aead_encrypt_parts sample_id PSA_ALG_CCM (Some (3, 4)) nonce12 [Bytes abc] text_parts 0 16
    ccm_start).1 = (PSA_SUCCESS, out) /\
  out = aead_seal AES_CCM 16 key_bytes nonce12 abc (abc ++ [x64]).
Proof.
  destruct (aead_encrypt_parts_spec sample_id PSA_ALG_CCM (Some (3, 4)) nonce12 [Bytes abc] text_parts 0 16
    ccm_start) as [H1 H2]; [done|done|].
  destruct (aead_encrypt_parts _ _ _ _ _ _ _ _ _).1 as [st out]. simpl in H1.
  assert (Hu : aead_key_usable sample_id PSA_ALG_CCM PSA_KEY_USAGE_ENCRYPT ccm_start
                 (attr_with PSA_KEY_TYPE_AES PSA_ALG_CCM) key_bytes).
  { by apply loads_usable; [exact ccm_loads|]. }
  assert (Hs : st = PSA_SUCCESS).
  { apply (H2 (attr_with PSA_KEY_TYPE_AES PSA_ALG_CCM) key_bytes AES_CCM); [by apply (loads_feasible PSA_KEY_TYPE_AES); [exact ccm_loads|..]|exact Hu|done| |done|done].
    split; [done|done|by apply Forall_cons_2|done|exact text_parts_ok]. }
  subst st. exists out. split; [done|]. destruct (H1 eq_refl) as (a & kd & m & Hu' & Hm & Heq).
  destruct (aead_usable_unique _ _ _ _ _ _ _ _ Hu Hu') as [_ ->]. injection Hm as <-. exact Heq.
Defined.

(** ChaCha20-Poly1305: the right tag opens, another does not. *)
Definition chacha_sealed : list byte * list byte :=
  Eval vm_compute in aead_seal CHACHA_POLY 16 key_bytes nonce12 abc (abc ++ [x64]).
Definition sealed_parts : list (input * Z) := [(Bytes (take 3 chacha_sealed.1), 3); (Bytes (drop 3 chacha_sealed.1), 8)].

Lemma aead_decrypt_parts_spec_witness :
  (aead_decrypt_parts sample_id PSA_ALG_CHACHA20_POLY1305 None nonce12 [Bytes abc] sealed_parts 0
     chacha_sealed.2 chacha_start).1 = (PSA_SUCCESS, abc ++ [x64]) /\
  (aead_decrypt_parts sample_id PSA_ALG_CHACHA20_POLY1305 None nonce12 [Bytes abc] sealed_parts 0
     (replicate 16 x00) chacha_start).1 = (PSA_ERROR_INVALID_SIGNATURE, []).
Proof.
  assert (Hf : aead_setup_feasible sample_id PSA_ALG_CHACHA20_POLY1305 PSA_KEY_USAGE_DECRYPT true chacha_start).
  { by apply (loads_feasible PSA_KEY_TYPE_CHACHA20); [exact chacha_loads|..]. }
  assert (Hu : aead_key_usable sample_id PSA_ALG_CHACHA20_POLY1305 PSA_KEY_USAGE_DECRYPT chacha_start
                 (attr_with PSA_KEY_TYPE_CHACHA20 PSA_ALG_CHACHA20_POLY1305) key_bytes).
  { by apply loads_usable; [exact chacha_loads|]. }
  assert (Hok : feed_ok CHACHA_POLY PSA_ALG_CHACHA20_POLY1305 None nonce12 [Bytes abc] sealed_parts).
  { split; [done|done|by apply Forall_cons_2|done|]. by repeat apply Forall_cons_2. }
  destruct (aead_decrypt_parts_spec sample_id PSA_ALG_CHACHA20_POLY1305 None nonce12 [Bytes abc] sealed_parts 0
     chacha_sealed.2 chacha_start) as [_ H1]; [done|done|].
  destruct (aead_decrypt_parts_spec sample_id PSA_ALG_CHACHA20_POLY1305 None nonce12 [Bytes abc] sealed_parts 0
     (replicate 16 x00) chacha_start) as [_ H2]; [done|done|].
  specialize (H1 _ _ CHACHA_POLY Hf Hu eq_refl Hok (fun _ => eq_refl)).
  specialize (H2 _ _ CHACHA_POLY Hf Hu eq_refl Hok (fun _ => eq_refl)).
  split.
  - replace (aead_open CHACHA_POLY _ _ _ _ _ chacha_sealed.2) with (Some (abc ++ [x64])) in H1
      by (vm_compute; reflexivity). exact H1.
  - replace (aead_open CHACHA_POLY _ _ _ _ _ _) with (@None (list byte)) in H2
      by (vm_compute; reflexivity). exact H2.
Defined.

Lemma gcm_load_ok nonce aad text :
  zlen nonce = 12 -> zlen aad <= 64 -> zlen text <= 64 ->
  load_ok AES_GCM (Bytes nonce) (Bytes aad) (Bytes text).
Proof. intros H1 H2 H3. split; try done; simpl; unfold UINT32_MAX; lia. Qed.

Lemma gcm_can usage s text :
  loads PSA_KEY_TYPE_AES PSA_ALG_GCM s -> op_rets s = [] ->
  mem_ok (wolfpsa_get_key_data sample_id (Some PSA_KEY_ATTRIBUTES_INIT) (op_lib s)).2 ->
  aead_key_checks usage PSA_ALG_GCM (attr_with PSA_KEY_TYPE_AES PSA_ALG_GCM) = PSA_SUCCESS ->
  zlen text <= 64 ->
  oneshot_can sample_id PSA_ALG_GCM usage s (Bytes nonce12) (Bytes abc) (Bytes text)
    (attr_with PSA_KEY_TYPE_AES PSA_ALG_GCM) key_bytes AES_GCM.
Proof.
  intros Hl Hr Hm Hc Ht. split; [by apply (loads_feasible PSA_KEY_TYPE_AES)|].
  split; [by apply loads_usable|]. split; [done|]. split; [by apply gcm_load_ok|done].
Qed.

Lemma gcm_route : oneshot_only PSA_ALG_GCM = None.
Proof. reflexivity. Qed.

Lemma psa_aead_encrypt_spec_witness :
  (psa_aead_encrypt sample_id PSA_ALG_GCM (Bytes nonce12) (Bytes abc) (Bytes abc) true 19 true gcm_start).1.1
    = PSA_SUCCESS /\
  sealed_as sample_id PSA_ALG_GCM gcm_start nonce12 abc abc
    (psa_aead_encrypt sample_id PSA_ALG_GCM (Bytes nonce12) (Bytes abc) (Bytes abc) true 19 true gcm_start).1.2.
Proof.
  destruct (psa_aead_encrypt_spec sample_id PSA_ALG_GCM (Bytes nonce12) (Bytes abc) (Bytes abc) 19 gcm_start)
    as [_ H]; [done|]. rewrite gcm_route in H. destruct H as [H1 H2].
  assert (Hs : (psa_aead_encrypt sample_id PSA_ALG_GCM (Bytes nonce12) (Bytes abc) (Bytes abc) true 19 true
    gcm_start).1.1 = PSA_SUCCESS).
  { apply (H2 _ _ _ (gcm_can PSA_KEY_USAGE_ENCRYPT gcm_start abc gcm_loads eq_refl ltac:(vm_compute; split; reflexivity) eq_refl ltac:(done))). done. }
  split; [exact Hs|]. by apply H1.
Defined.

Definition gcm_sealed : list byte :=
  Eval vm_compute in
    (psa_aead_encrypt sample_id PSA_ALG_GCM (Bytes nonce12) (Bytes abc) (Bytes abc) true 19 true gcm_start).1.2.

(** A message whose first byte is spoilt is refused. *)
Lemma psa_aead_decrypt_spec_witness :
  (psa_aead_decrypt sample_id PSA_ALG_GCM (Bytes nonce12) (Bytes abc) (Bytes (x00 :: drop 1 gcm_sealed))
     true 3 true gcm_start).1 = (PSA_ERROR_INVALID_SIGNATURE, []).
Proof.
  destruct (psa_aead_decrypt_spec sample_id PSA_ALG_GCM (Bytes nonce12) (Bytes abc)
     (Bytes (x00 :: drop 1 gcm_sealed)) true 3 true gcm_start) as [_ H0]; [done|]. rewrite gcm_route in H0. destruct H0 as [_ H].
  specialize (H (attr_with PSA_KEY_TYPE_AES PSA_ALG_GCM) key_bytes AES_GCM
    (take 3 (x00 :: drop 1 gcm_sealed)) (drop 3 gcm_sealed)).
  assert (Ho : aead_open AES_GCM (wolfpsa_aead_tag_length PSA_ALG_GCM) key_bytes nonce12 abc
    (take 3 (x00 :: drop 1 gcm_sealed)) (drop 3 gcm_sealed) = None) by (vm_compute; reflexivity).
  cbn [input_bytes] in H. rewrite Ho in H. apply H; [|reflexivity|done|done|by left|done].
  apply gcm_can; [exact gcm_loads|done|vm_compute; split; reflexivity|done|done].
Defined.

Definition after_seal : opstate posix_store wolfpsa_aead_ctx :=
  (psa_aead_encrypt sample_id PSA_ALG_GCM (Bytes nonce12) (Bytes abc) (Bytes abc) true 19 true gcm_start).2.

Lemma after_loads : loads PSA_KEY_TYPE_AES PSA_ALG_GCM after_seal.
Proof. vm_compute. reflexivity. Qed.

(** * The one-shot only algorithms *)

Definition seal_start := state_with PSA_KEY_TYPE_XCHACHA20 PSA_ALG_XCHACHA20_POLY1305.
Definition nonce24 : list byte := replicate 24 x02.

Lemma seal_start_key usage :
  usage = PSA_KEY_USAGE_ENCRYPT \/ usage = PSA_KEY_USAGE_DECRYPT ->
  seal_key sample_id XCHACHA usage seal_start key_bytes.
Proof.
  intros Hu. exists (Some (attr_with PSA_KEY_TYPE_XCHACHA20 PSA_ALG_XCHACHA20_POLY1305)), (Some key_bytes).
  split; [vm_compute; reflexivity|]. split; [done|]. by destruct Hu as [-> | ->].
Qed.

Lemma aead_seal_spec_witness :
  (psa_aead_encrypt sample_id PSA_ALG_XCHACHA20_POLY1305 (Bytes nonce24) (Bytes abc) (Bytes abc) true 19 true
     seal_start).1 = (PSA_SUCCESS, seal_bytes XCHACHA key_bytes nonce24 abc abc).
Proof.
  destruct (aead_seal_spec sample_id XCHACHA nonce24 abc abc true 19 seal_start) as [H1 H2]; [done|].
  assert (Hk : seal_key sample_id XCHACHA PSA_KEY_USAGE_ENCRYPT seal_start key_bytes) by (apply seal_start_key; by left).
  specialize (H2 key_bytes Hk eq_refl ltac:(done) ltac:(done)).
  destruct (H1 H2) as (kd & Hkd & Hout & _). rewrite (seal_key_unique _ _ _ _ _ _ Hk Hkd) in Hout.
  apply injective_projections; [exact H2|exact Hout].
Defined.

Lemma aead_unseal_spec_witness :
  (psa_aead_decrypt sample_id PSA_ALG_XCHACHA20_POLY1305 (Bytes nonce24) (Bytes abc)
     (Bytes (seal_bytes XCHACHA key_bytes nonce24 abc abc)) true 3 true seal_start).1 = (PSA_SUCCESS, abc).
Proof.
  destruct (aead_unseal_spec sample_id XCHACHA nonce24 abc (seal_bytes XCHACHA key_bytes nonce24 abc abc) true 3
              seal_start) as [_ H]; [done|].
  destruct (H key_bytes) as [H1 _]; [apply seal_start_key; by right|done..|]. by apply H1.
Defined.

(** Both routes of a round trip: GCM through an operation, and XChaCha20-Poly1305. *)
Lemma aead_roundtrip_witness :
  (psa_aead_decrypt sample_id PSA_ALG_GCM (Bytes nonce12) (Bytes abc) (Bytes gcm_sealed) true 3 true
     after_seal).1 = (PSA_SUCCESS, abc) /\
  (psa_aead_decrypt sample_id PSA_ALG_XCHACHA20_POLY1305 (Bytes nonce24) (Bytes abc)
     (Bytes (seal_bytes XCHACHA key_bytes nonce24 abc abc)) true 3 true seal_start).1 = (PSA_SUCCESS, abc).
Proof.
  split.
  - apply (aead_roundtrip sample_id PSA_ALG_GCM (Bytes nonce12) (Bytes abc) (Bytes abc) 19 3 gcm_start
             after_seal gcm_sealed); [done|done|by vm_compute| |done].
    unfold roundtrip_can. rewrite gcm_route.
    exists (attr_with PSA_KEY_TYPE_AES PSA_ALG_GCM), key_bytes, AES_GCM. split.
    + apply gcm_can; [exact after_loads|done|vm_compute; split; reflexivity|done|done].
    + by apply loads_usable; [exact gcm_loads|].
  - apply (aead_roundtrip sample_id PSA_ALG_XCHACHA20_POLY1305 (Bytes nonce24) (Bytes abc) (Bytes abc) 19 3
             seal_start seal_start (seal_bytes XCHACHA key_bytes nonce24 abc abc));
      [done|done|by vm_compute| |done].
    exists nonce24, abc, abc, key_bytes. split_and!; try done; apply seal_start_key; auto.
Defined.
