(* ===== verification/KeyWrapExamples.v ===== *)
(** The theorems on key wrapping and key encapsulation at concrete inputs: a
    wrapping key and an exportable key in the store of [Samples], with a toy key wrap
    that meets the laws; an ML-KEM key pair and its public key, with a toy KEM. *)

From stdpp Require Import base decidable list strings gmap.
From Stdlib Require Import ZArith Lia.
From Stdlib Require Import Strings.Byte.
From S2P Require Import Prelude.
From S2P Require Import Values.
From S2P Require Import Engine.
From S2P Require Import KeyPolicy.
From S2P Require Import KeyFormat.
From S2P Require Import StoreIface.
From S2P Require Import StorePosix.
From S2P Require Import StorePosixSpec.
From S2P Require Import Library.
From S2P Require Import KeyStore.
From S2P Require Import Samples.
From S2P Require Import KeyStoreRules.
From S2P Require Import Operation.
From S2P Require Import CryptoSamples.
From S2P Require Import ImportRules.
From S2P Require Import KeyStoreSpec.
From S2P Require Import KeyStoreCalls.
From S2P Require Import KeyStoreInv.
From S2P Require Import KeyReaders.
From S2P Require Import Kem.
From S2P Require Import KeyWrap.
From S2P Require Import KeyWrapSpec.
From S2P Require Import KemSpec.
From S2P Require Import KeyStoreExamples.

#[local] Open Scope Z_scope.

#[local] Existing Instances sample_rng_ok sample_backend_ok.

(** * A toy key wrap: eight bytes of the key follow the text *)

Definition kw_mark (kek : list byte) : list byte := fit 8 kek.

Definition sample_kw : WolfCryptKeyWrap :=
  {| wc_AesKeyWrap := fun kek p sz =>
       if sz <? zlen p + 8 then (-132, []) else (zlen p + 8, p ++ kw_mark kek);
     wc_AesKeyUnWrap := fun kek ct sz =>
       let p := take (length ct - 8) ct in
       if bool_decide (ct = p ++ kw_mark kek) then if sz <? zlen p then (-132, []) else (zlen p, p)
       else (-240, []);
     BAD_KEYWRAP_IV_E := -240 |}.

Definition sample_kw_ok : WolfCryptKeyWrapOk sample_kw.
Proof.
  assert (Hm : forall kek, length (kw_mark kek) = 8%nat).
  { intros kek. pose proof (fit_length 8 kek). unfold kw_mark, zlen in *. lia. }
  assert (Hz : forall kek p, zlen (p ++ kw_mark kek) = zlen p + 8).
  { intros kek p. rewrite zlen_app. unfold zlen at 2. by rewrite Hm. }
  assert (Ht : forall kek p, take (length (p ++ kw_mark kek) - 8) (p ++ kw_mark kek) = p).
  { intros kek p. rewrite length_app, Hm. rewrite take_app_le by lia. apply take_ge. lia. }
  refine {| aes_kw := fun kek p => p ++ kw_mark kek |}; simpl.
  - intros kek p sz ret out. destruct (Z.ltb_spec sz (zlen p + 8)); [intros [= <- <-]; lia|].
    intros [= <- <-] _. done.
  - done.
  - intros kek p sz _ _ Hsz. rewrite (proj2 (Z.ltb_ge _ _)) by lia. pose proof (zlen_nonneg p). simpl. lia.
  - intros kek ct sz ret out. case_bool_decide as Hct; [|intros [= <- <-]; lia].
    destruct (Z.ltb_spec sz (zlen (take (length ct - 8) ct))); intros [= <- <-]; [lia|]. done.
  - intros kek p sz _ _ Hsz. rewrite Ht, bool_decide_eq_true_2 by done.
    by rewrite (proj2 (Z.ltb_ge _ _)) by lia.
  - intros kek ct sz _ Hlen _ _ Hno. by rewrite bool_decide_eq_false_2 by done.
  - done.
Defined.

(** Every key type. *)
Definition sample_want : WantKeyTypes :=
  {| PSA_WANT_KEY_TYPE_ECC_KEY_PAIR_BASIC := true; PSA_WANT_KEY_TYPE_RSA_KEY_PAIR_BASIC := true;
     PSA_WANT_KEY_TYPE_DH_KEY_PAIR_BASIC := true; PSA_WANT_KEY_TYPE_ML_KEM := true;
     PSA_WANT_KEY_TYPE_ML_DSA := true; PSA_WANT_KEY_TYPE_ECC_PUBLIC_KEY := true;
     PSA_WANT_KEY_TYPE_RSA_PUBLIC_KEY := true; PSA_WANT_KEY_TYPE_DH_PUBLIC_KEY := true;
     PSA_VENDOR_ECC_MAX_CURVE_BITS := 521; PSA_VENDOR_FFDH_MAX_KEY_BITS := 8192 |}.

#[local] Existing Instances sample_kw sample_kw_ok sample_want.

(** * The store: a wrapping key, and a key that may be exported *)

Definition kek_attr : psa_key_attributes_t :=
  volatile_attr PSA_KEY_TYPE_AES (Z.lor PSA_KEY_USAGE_WRAP PSA_KEY_USAGE_UNWRAP) PSA_ALG_KW.
Definition target_attr : psa_key_attributes_t :=
  volatile_attr PSA_KEY_TYPE_HMAC PSA_KEY_USAGE_EXPORT 0x03800009.
Definition kek_data : list byte := replicate 32 x4b.
Definition target_data : list byte := replicate 24 x17.

Definition wrap_calls : list api_call :=
  [CallImport kek_attr kek_data; CallImport target_attr target_data].
Definition wrap_lib : kstate posix_store := (run_calls wrap_calls sample_state).2.
Definition kek_id : Z := PSA_KEY_ID_VENDOR_MIN.
Definition target_id : Z := PSA_KEY_ID_VENDOR_MIN + 1.
Definition wrap_state : opstate posix_store unit := mkOp _ _ wrap_lib None [].

Lemma wrap_calls_ok : Forall (fun c => call_ok c /\ user_call c) wrap_calls.
Proof. repeat constructor; by vm_compute. Qed.

Lemma wrap_inv : store_inv (op_lib wrap_state).
Proof. exact (run_calls_keep_inv wrap_calls sample_state sample_inv wrap_calls_ok). Qed.

Lemma wrap_ready : ready wrap_state.
Proof.
  split; [done|]. split_and!; [|by vm_compute|by vm_compute].
  split; [by vm_compute|]. split; by vm_compute.
Qed.

Lemma kek_found : table (op_lib wrap_state) kek_id = Some (set_bits kek_attr 256, kek_data).
Proof. vm_compute. reflexivity. Qed.
Lemma target_found : table (op_lib wrap_state) target_id = Some (set_bits target_attr 192, target_data).
Proof. vm_compute. reflexivity. Qed.

(** The wrapped key, and the state after the call. *)
Definition wrapped : list byte := target_data ++ kw_mark kek_data.
Definition after_wrap : opstate posix_store unit :=
  (psa_wrap_key kek_id PSA_ALG_KW target_id true 64 true wrap_state).2.

Lemma run_wrap :
  psa_wrap_key kek_id PSA_ALG_KW target_id true 64 true wrap_state = ((PSA_SUCCESS, wrapped), after_wrap).
Proof. refine (run_result _ wrap_state (PSA_SUCCESS, wrapped) _). vm_compute. reflexivity. Qed.

Lemma wrap_key_spec_witness : zlen wrapped <= 64.
Proof.
  destruct (wrap_key_spec kek_id PSA_ALG_KW target_id 64 wrap_state PSA_SUCCESS wrapped after_wrap
              wrap_inv run_wrap) as (Hok & _).
  destruct (Hok eq_refl) as (_ & ka & kek & a & plain & _ & _ & _ & _ & _ & _ & _ & Hsz). exact Hsz.
Defined.

(** Unwrapped as an HMAC key that may derive, in the state that wrapping left. *)
Definition unwrapped_attr : psa_key_attributes_t :=
  volatile_attr PSA_KEY_TYPE_HMAC PSA_KEY_USAGE_SIGN_MESSAGE 0x03800009.

Lemma unwrapped_wf : wf_attributes unwrapped_attr.
Proof. by split. Qed.
Lemma unwrapped_user : user_id unwrapped_attr.
Proof. by left. Qed.

Lemma wrap_unwrap_roundtrip_witness :
  exists id s2,
    psa_unwrap_key (Some unwrapped_attr) kek_id PSA_ALG_KW (Bytes wrapped) true after_wrap
      = ((PSA_SUCCESS, id), s2) /\
    option_map snd (table (op_lib s2) id) = Some target_data.
Proof.
  destruct (wrap_unwrap_roundtrip unwrapped_attr kek_id target_id 64 wrap_state wrapped after_wrap
              (set_bits unwrapped_attr 192) wrap_inv wrap_ready)
    as (a & plain & id & s2 & Ht & Hrun & Hnew & _).
  - by split.
  - exact unwrapped_wf.
  - exact unwrapped_user.
  - exact run_wrap.
  - by vm_compute.
  - intros ka kek. rewrite kek_found. by intros [= <- <-].
  - intros a plain. rewrite target_found. intros [= <- <-]. vm_compute. reflexivity.
  - intros _. vm_compute. by split.
  - vm_compute. intros H. by apply H.
  - exists id, s2. split; [exact Hrun|]. rewrite Hnew. rewrite target_found in Ht. by injection Ht as _ <-.
Defined.

(** Data that was tampered with. *)
Definition tampered : list byte := target_data ++ replicate 8 x00.
Definition after_unwrap : (psa_status_t * Z) * opstate posix_store unit :=
  psa_unwrap_key (Some unwrapped_attr) kek_id PSA_ALG_KW (Bytes tampered) true wrap_state.

Lemma unwrap_key_spec_witness : after_unwrap.1.1 = PSA_ERROR_INVALID_SIGNATURE.
Proof.
  destruct (unwrap_key_spec unwrapped_attr kek_id PSA_ALG_KW tampered wrap_state after_unwrap.1.1
              after_unwrap.1.2 after_unwrap.2 wrap_inv unwrapped_wf unwrapped_user)
    as (_ & _ & _ & _ & Hbad).
  - by vm_compute.
  - unfold after_unwrap. by destruct (psa_unwrap_key _ _ _ _ _ _) as [[st id] s'].
  - apply (Hbad kek_data wrap_ready); try done.
    intros plain Hct. apply (f_equal (fun l => last l)) in Hct. revert Hct.
    change (aes_kw kek_data plain) with (plain ++ kw_mark kek_data). rewrite last_app.
    vm_compute. done.
Defined.

Lemma export_size_suffices_witness :
  zlen (replicate 57 x07) <= PSA_EXPORT_KEY_OUTPUT_SIZE 0x7142 448.
Proof.
  apply (export_size_suffices (mkAttributes 0x7142 448 0 (mkPolicy 0 0 0) 0)).
  - by vm_compute.
  - split; [split; [|by vm_compute]|by intros _ Hraw; vm_compute in Hraw].
    change ((PSA_ECC_FAMILY_TWISTED_EDWARDS, 448) ∈ supported_curves).
    unfold supported_curves. rewrite !elem_of_cons. tauto.
  - change (CkEcc ∉ [CkRsa; CkDh; CkOther]). rewrite !elem_of_cons, elem_of_nil.
    by intros [|[|[|[]]]].
  - by vm_compute.
Defined.

(** * Key encapsulation *)


(** * A toy KEM: the secret is the beginning of the public key *)

Definition toy_set (type small middle large : Z) : Z :=
  if type =? 1 then small else if type =? 2 then middle else large.
Definition toy_public (type : Z) (seed : list byte) : list byte := fit (toy_set type 800 1184 1568) seed.
Definition toy_cipher (type : Z) (pub : list byte) : list byte := fit (toy_set type 768 1088 1568) pub.

Definition toy_kem : WolfCryptMlKem :=
  {| WC_ML_KEM_512 := 1; WC_ML_KEM_768 := 2; WC_ML_KEM_1024 := 3;
     wc_MlKemKey_MakeKeyWithRandom := fun t seed => (0, toy_public t seed);
     wc_MlKemKey_PublicKeySize := fun t => (0, toy_set t 800 1184 1568);
     wc_MlKemKey_CipherTextSize := fun t => (0, toy_set t 768 1088 1568);
     wc_MlKemKey_DecodePublicKey := fun _ _ => 0;
     wc_MlKemKey_EncodePublicKey := fun _ pub _ => (0, pub);
     wc_MlKemKey_Encapsulate := fun _ t pub => (0, (toy_cipher t pub, fit 32 pub));
     wc_MlKemKey_Decapsulate := fun t seed _ => (0, fit 32 (toy_public t seed)) |}.

Definition toy_kem_ok : WolfCryptMlKemOk toy_kem.
Proof.
  assert (Hset : forall t a b c, 0 <= a -> 0 <= b -> 0 <= c -> 0 <= toy_set t a b c).
  { intros. unfold toy_set. repeat case_match; done. }
  refine {| mlkem_encaps := fun t pub ct ss => ct = toy_cipher t pub /\ ss = fit 32 pub |}; simpl.
  - done.
  - done.
  - intros n t pub ct ss sz [= <-] [= <- <-]. split_and!; [done|done|..]; apply fit_length; [by apply Hset|done].
  - intros t seed ct ss [= <-]. by apply fit_length.
  - intros t seed pub ct ss [= <-] [_ ->]. done.
Defined.

#[local] Existing Instances toy_kem toy_kem_ok.

(** * The store: a key pair, and its public key *)

Definition pair_attr : psa_key_attributes_t :=
  set_bits (volatile_attr PSA_KEY_TYPE_ML_KEM_KEY_PAIR PSA_KEY_USAGE_DECRYPT PSA_ALG_ML_KEM) 512.
Definition pub_attr : psa_key_attributes_t :=
  set_bits (volatile_attr PSA_KEY_TYPE_ML_KEM_PUBLIC_KEY PSA_KEY_USAGE_ENCRYPT PSA_ALG_ML_KEM) 512.
Definition pair_seed : list byte := replicate 64 x2a.
Definition pair_public : list byte := toy_public 1 pair_seed.

Definition kem_calls : list api_call := [CallImport pair_attr pair_seed; CallImport pub_attr pair_public].
Definition kem_state : opstate posix_store unit := mkOp _ _ (run_calls kem_calls sample_state).2 None [].
Definition pair_id : Z := PSA_KEY_ID_VENDOR_MIN.
Definition pub_id : Z := PSA_KEY_ID_VENDOR_MIN + 1.

Lemma kem_calls_ok : Forall (fun c => call_ok c /\ user_call c) kem_calls.
Proof. repeat constructor; by vm_compute. Qed.

Lemma kem_inv : store_inv (op_lib kem_state).
Proof. exact (run_calls_keep_inv kem_calls sample_state sample_inv kem_calls_ok). Qed.

Lemma kem_pub_found : table (op_lib kem_state) pub_id = Some (pub_attr, pair_public).
Proof. vm_compute. reflexivity. Qed.
Lemma kem_pair_found : table (op_lib kem_state) pair_id = Some (pair_attr, pair_seed).
Proof. vm_compute. reflexivity. Qed.

(** The secret becomes an HMAC key on both sides. *)
Definition secret_attr : psa_key_attributes_t :=
  volatile_attr PSA_KEY_TYPE_HMAC PSA_KEY_USAGE_SIGN_MESSAGE 0x03800009.

Lemma secret_wf : wf_attributes secret_attr.
Proof. by split. Qed.
Lemma secret_user : user_id secret_attr.
Proof. by left. Qed.

Lemma secret_import ss : zlen ss = 32 -> import_validate secret_attr ss = inr (set_bits secret_attr 256).
Proof.
  intros Hss. do 32 (destruct ss as [|? ss]; [discriminate Hss|]). destruct ss; [by vm_compute|].
  revert Hss. unfold zlen. simpl. lia.
Qed.

Definition sent : list byte := toy_cipher 1 pair_public.
Definition after_encaps : opstate posix_store unit :=
  (psa_encapsulate pub_id PSA_ALG_ML_KEM (Some secret_attr) true true 800 true kem_state).2.

Lemma run_encapsulate :
  psa_encapsulate pub_id PSA_ALG_ML_KEM (Some secret_attr) true true 800 true kem_state
  = ((PSA_SUCCESS, (PSA_KEY_ID_VENDOR_MIN + 2, sent)), after_encaps).
Proof. refine (run_result _ kem_state (PSA_SUCCESS, (PSA_KEY_ID_VENDOR_MIN + 2, sent)) _). vm_compute. reflexivity. Qed.

Lemma after_encaps_ready : ready after_encaps.
Proof.
  split; [by vm_compute|]. split_and!; [|by vm_compute|by vm_compute].
  split; [by vm_compute|]. split; by vm_compute.
Qed.

Lemma encapsulate_spec_witness : zlen sent = 768.
Proof.
  destruct (encapsulate_spec secret_attr pub_id PSA_ALG_ML_KEM true 800 kem_state PSA_SUCCESS _ sent after_encaps
              kem_inv secret_wf secret_user run_encapsulate) as (_ & Hok & _).
  destruct (Hok eq_refl) as (_ & a & d & ss & Ht & _ & _ & _ & _ & Hlen & _).
  rewrite kem_pub_found in Ht. injection Ht as <- _. exact Hlen.
Defined.

Definition after_decaps : (psa_status_t * Z) * opstate posix_store unit :=
  psa_decapsulate pair_id PSA_ALG_ML_KEM (Bytes sent) (Some secret_attr) true kem_state.

Lemma decapsulate_spec_witness : zlen sent = mlkem_cipher_size 512.
Proof.
  destruct (decapsulate_spec secret_attr pair_id PSA_ALG_ML_KEM sent kem_state after_decaps.1.1 after_decaps.1.2
              after_decaps.2 kem_inv secret_wf secret_user) as (_ & Hok & _).
  - unfold after_decaps. by destruct (psa_decapsulate _ _ _ _ _ _) as [[st id] s'].
  - destruct Hok as (_ & a & d & ss & Ht & _ & _ & _ & Hlen & _); [by vm_compute|].
    rewrite kem_pair_found in Ht. injection Ht as <- _. exact Hlen.
Defined.

Lemma kem_agreement_witness :
  exists ss id2 s2, zlen ss = 32 /\
    option_map snd (table (op_lib after_encaps) (PSA_KEY_ID_VENDOR_MIN + 2)) = Some ss /\
    psa_decapsulate pair_id PSA_ALG_ML_KEM (Bytes sent) (Some secret_attr) true after_encaps
      = ((PSA_SUCCESS, id2), s2) /\
    option_map snd (table (op_lib s2) id2) = Some ss.
Proof.
  apply (kem_agreement secret_attr secret_attr pub_id pair_id true 800 kem_state _ sent after_encaps
           pub_attr pair_public pair_attr pair_seed (set_bits secret_attr 256) kem_inv).
  - exact secret_wf.
  - exact secret_user.
  - exact secret_wf.
  - exact secret_user.
  - by vm_compute.
  - exact run_encapsulate.
  - exact after_encaps_ready.
  - by split.
  - exact kem_pub_found.
  - rewrite kem_pair_found. by vm_compute.
  - done.
  - by vm_compute.
  - intros ss Hss. apply secret_import, Hss.
  - intros _. by vm_compute.
  - vm_compute. intros H. by apply H.
Defined.
