(* ===== verification/SignExamples.v ===== *)
(** The theorems on signatures and asymmetric encryption at concrete inputs:
    Ed25519 and RSA keys in the store of [Samples], and toy primitives that meet
    the laws of [WolfSign.v] and [WolfPkc.v]. *)

From stdpp Require Import base decidable list strings gmap.
From Stdlib Require Import ZArith Lia.
From Stdlib Require Import Strings.Byte.
From S2P Require Import Prelude.
From S2P Require Import Values.
From S2P Require Import Engine.
From S2P Require Import WolfCrypt.
From S2P Require Import KeyPolicy.
From S2P Require Import KeyFormat.
From S2P Require Import StoreIface.
From S2P Require Import StorePosix.
From S2P Require Import StorePosixSpec.
From S2P Require Import Library.
From S2P Require Import KeyStore.
From S2P Require Import Samples.
From S2P Require Import KeyStoreRules.
From S2P Require Import Operation.
From S2P Require Import Hash.
From S2P Require Import HashSpec.
From S2P Require Import CryptoSamples.
From S2P Require Import ImportRules.
From S2P Require Import KeyStoreSpec.
From S2P Require Import KeyStoreCalls.
From S2P Require Import KeyStoreInv.
From S2P Require Import KeyReaders.
From S2P Require Import AsymValues.
From S2P Require Import WolfSign.
From S2P Require Import WolfPkc.
From S2P Require Import SignIface.
From S2P Require Import Sign.
From S2P Require Import SignRules.
From S2P Require Import SignSpec.
From S2P Require Import Rsa.
From S2P Require Import RsaSpec.
From S2P Require Import Ecc.
From S2P Require Import Edwards.
From S2P Require Import MlDsa.
From S2P Require Import LmsXmss.
From S2P Require Import SignBackends.
From S2P Require Import KeyStoreExamples.

#[local] Open Scope Z_scope.

#[local] Existing Instances sample_rng_ok sample_backend_ok sample_hash sample_hash_ok sample_digest.

(** * Toy RSA: the text with its length, in 256 bytes *)

Definition toy_enc (m : list byte) : list byte := be_bytes 2 (zlen m) ++ fit 254 m.
Definition toy_dec (c : list byte) : option (list byte) :=
  let m := take (Z.to_nat (be_val (take 2 c))) (drop 2 c) in
  if bool_decide (zlen m <= 245 /\ c = toy_enc m) then Some m else None.

Lemma toy_enc_length m : zlen (toy_enc m) = 256.
Proof. unfold toy_enc. rewrite zlen_app, fit_length by lia. unfold zlen. rewrite length_be_bytes. lia. Qed.

Lemma toy_dec_enc m : zlen m <= 245 -> toy_dec (toy_enc m) = Some m.
Proof.
  intros Hm. pose proof (zlen_nonneg m). unfold toy_dec.
  assert (Ht : take (Z.to_nat (be_val (take 2 (toy_enc m)))) (drop 2 (toy_enc m)) = m).
  { unfold toy_enc. rewrite take_app_length' by (by rewrite length_be_bytes).
    rewrite drop_app_length' by (by rewrite length_be_bytes).
    rewrite be_val_be_bytes, Z.mod_small by (simpl; lia).
    unfold fit. rewrite take_take, Nat.min_l by lia. rewrite take_app_length'; [done|]. unfold zlen. lia. }
  rewrite Ht. by rewrite bool_decide_eq_true_2.
Qed.

Lemma toy_dec_sound c m : toy_dec c = Some m -> zlen m <= 245 /\ c = toy_enc m.
Proof. unfold toy_dec. case_bool_decide as H; [|done]. by intros [= <-]. Qed.

(** The code of a call that gives bytes into a buffer. *)
Definition toy_put (m : list byte) (sz : Z) : Z * list byte :=
  if (zlen m <=? 245) && (256 <=? sz) then (256, toy_enc m) else (-132, []).
Definition toy_get (c : list byte) : Z * list byte :=
  match toy_dec c with Some m => (zlen m, m) | None => (-201, []) end.

Lemma toy_put_spec m sz ret out :
  toy_put m sz = (ret, out) -> 0 <= ret -> ret = 256 /\ 256 <= sz /\ zlen m <= 245 /\ out = toy_enc m.
Proof.
  unfold toy_put. destruct (Z.leb_spec (zlen m) 245); [|intros [= <- <-]; lia].
  destruct (Z.leb_spec 256 sz); intros [= <- <-]; [|lia]. done.
Qed.

Lemma toy_get_spec c ret out :
  toy_get c = (ret, out) -> 0 <= ret -> ret = zlen out /\ zlen out <= 245 /\ c = toy_enc out.
Proof.
  unfold toy_get. destruct (toy_dec c) as [m|] eqn:Hd; intros [= <- <-]; [|lia].
  intros _. apply toy_dec_sound in Hd. by destruct Hd.
Qed.

Definition toy_rsa : WolfCryptRsa sample_keys :=
  {| PSS_SALTLEN_E := -250; RSA_OUT_OF_RANGE_E := -200;
     WC_RSA_PKCSV15_PAD := 0; WC_RSA_OAEP_PAD := 1; WC_RSA_PSS_PAD := 2;
     RSA_PSS_SALT_LEN_DEFAULT := -1; RSA_PSS_SALT_LEN_DISCOVER := -2;
     MAX_DER_DIGEST_ASN_SZ := 36; RSA_MAX_SIZE := 4096;
     wc_GetCTC_HashOID := fun _ => 400;
     wc_EncodeSignature := fun d _ => d;
     WolfSign.wc_RsaEncryptSize := fun _ => 256;
     wc_RsaSSL_Sign := fun _ _ m sz => toy_put m sz;
     wc_RsaPSS_Sign := fun _ _ _ _ _ _ => (-173, []);
     wc_RsaSSL_Verify_ex := fun _ sig _ => toy_get sig;
     wc_RsaSSL_Verify_ex2 := fun _ sig _ _ => toy_get sig;
     wc_RsaPSS_Verify_ex := fun _ _ _ _ _ _ => (-173, []);
     wc_RsaPSS_CheckPadding := fun _ _ _ _ _ => -173;
     wc_RsaPublicEncrypt := fun _ _ m sz => toy_put (input_bytes m) sz;
     wc_RsaPublicEncrypt_ex := fun _ _ _ _ _ _ _ => (-173, []);
     wc_RsaPrivateDecrypt := fun _ c _ => toy_get (input_bytes c);
     wc_RsaPrivateDecrypt_ex := fun _ _ _ _ _ _ => (-173, []) |}.

Definition toy_rsa_ok : WolfCryptRsaOk sample_keys toy_rsa.
Proof.
  assert (Hput : forall m sz ret out, toy_put m sz = (ret, out) -> 0 <= ret ->
    ret = zlen out /\ ret = 256 /\ 0 < ret <= sz /\ zlen m <= 245 /\ out = toy_enc m).
  { intros m sz ret out Hp H0. destruct (toy_put_spec _ _ _ _ Hp H0) as (-> & Hsz & Hm & ->).
    rewrite toy_enc_length. split_and!; (done || lia). }
  assert (Hget : forall m, zlen m <= 245 -> toy_get (toy_enc m) = (zlen m, m)).
  { intros m Hm. unfold toy_get. by rewrite toy_dec_enc. }
  refine {| pkcs1_sig := fun _ m sig => zlen m <= 245 /\ sig = toy_enc m;
            pss_sig := fun _ _ _ _ _ _ => False;
            pkcs1_enc := fun _ m c => zlen m <= 245 /\ c = toy_enc m;
            oaep_enc := fun _ _ _ _ _ _ => False |}; simpl; try done;
    try (by intros; match goal with H : (-173, _) = _ |- _ => injection H; intros; lia end).
  - by apply (bool_decide_eq_true_1 _).
  - intros n der idx pub m sz ret out _ Hp H0. destruct (Hput _ _ _ _ Hp H0) as (? & ? & ? & ? & ?). split_and!; (done || lia).
  - intros pub sig sz ret out Hg H0. destruct (toy_get_spec _ _ _ Hg H0) as (? & ? & ?). done.
  - intros pub m sig sz [Hm ->] _ _. by apply Hget.
  - intros n pub m sz ret out Hp H0. destruct (Hput _ _ _ _ Hp H0) as (? & ? & ? & ? & ?). split_and!; (done || lia).
  - intros der idx pub c sz ret out _ Hg H0. destruct (toy_get_spec _ _ _ Hg H0) as (? & ? & ?). done.
  - intros der idx pub m c _ [Hm ->]. by apply Hget.
Defined.

(** * Toy Edwards curves: the public key is the private one, and a signature the
    beginning of context and message *)

Definition toy_len (v : ed_scheme) : Z := if ed_is_448 v then 114 else 64.
Definition toy_sig (v : ed_scheme) (ctx msg : list byte) : list byte := fit (toy_len v) (ctx ++ msg).
Definition toy_sign (v : ed_scheme) (msg ctx : list byte) (sz : Z) : Z * list byte :=
  if sz <? toy_len v then (-132, []) else (0, toy_sig v ctx msg).
Definition toy_check (v : ed_scheme) (sig msg ctx : list byte) : Z * Z :=
  (0, if bool_decide (sig = toy_sig v ctx msg) then 1 else 0).

Definition toy_edwards : WolfCryptEdwards :=
  {| Ed25519 := 255; Ed25519ctx := 0;
     wc_ed25519_import_private_only := fun _ => 0;
     wc_ed25519_make_public := fun k => (0, k);
     wc_ed25519_import_public := fun k => (0, k);
     wc_ed25519_sign_msg_ex := fun _ msg sz _ ctx => toy_sign SchemeEd25519 msg ctx sz;
     wc_ed25519ph_sign_hash := fun _ msg sz ctx => toy_sign SchemeEd25519ph msg ctx sz;
     wc_ed25519_verify_msg_ex := fun _ sig msg _ ctx => toy_check SchemeEd25519 sig msg ctx;
     wc_ed25519ph_verify_hash := fun _ sig msg ctx => toy_check SchemeEd25519ph sig msg ctx;
     wc_ed448_import_private_only := fun _ => 0;
     wc_ed448_make_public := fun k => (0, k);
     wc_ed448_import_public := fun k => (0, k);
     wc_ed448_sign_msg := fun _ msg sz ctx => toy_sign SchemeEd448 msg ctx sz;
     wc_ed448ph_sign_hash := fun _ msg sz ctx => toy_sign SchemeEd448ph msg ctx sz;
     wc_ed448_verify_msg := fun _ sig msg ctx => toy_check SchemeEd448 sig msg ctx;
     wc_ed448ph_verify_hash := fun _ sig msg ctx => toy_check SchemeEd448ph sig msg ctx |}.

Lemma toy_len_pos v : 0 < toy_len v.
Proof. unfold toy_len. by destruct (ed_is_448 v). Qed.

Lemma toy_calls v key msg ctx sz pub sig :
  @ed_sign_call toy_edwards v key msg ctx sz = toy_sign v msg ctx sz /\
  @ed_verify_call toy_edwards v pub sig msg ctx = toy_check v sig msg ctx.
Proof. by destruct v. Qed.

Definition toy_edwards_ok : WolfCryptEdwardsOk toy_edwards.
Proof.
  refine {| ed_valid := fun v _ ctx msg sig => sig = toy_sig v ctx msg |}.
  - intros v key pub ctx msg size sig _ Hs. destruct (toy_calls v key msg ctx size pub sig) as [Hc _].
    rewrite Hc in Hs. pose proof (toy_len_pos v). unfold toy_sign in Hs.
    destruct (Z.ltb_spec size (toy_len v)); [done|]. injection Hs as <-. split; [done|].
    unfold toy_sig. rewrite fit_length; lia.
  - intros v pub ctx msg sig Hs. destruct (toy_calls v [] msg ctx 0 pub sig) as [_ Hc].
    rewrite Hc in Hs. unfold toy_check in Hs. by case_bool_decide.
  - intros v pub ctx msg sig ->. destruct (toy_calls v [] msg ctx 0 pub (toy_sig v ctx msg)) as [_ Hc].
    rewrite Hc. unfold toy_check. by rewrite bool_decide_eq_true_2.
  - intros v pub ctx msg sig ->. destruct v; by apply fit_length.
Defined.

(** * Primitives that are not there: every call fails *)

Definition no_ecc : WolfCryptEcc :=
  {| ecc_point := unit; ecc_private_point := fun _ _ => tt; ecc_x963_point := fun _ _ => tt;
     wc_ecc_make_pub_ex := fun _ _ => -1; wc_ecc_set_deterministic_ex := fun _ => -1;
     wc_ecc_sig_size := fun _ => 0; wc_ecc_sign_hash := fun _ _ _ _ _ _ => (-1, []);
     wc_ecc_sig_to_rs := fun _ _ _ => (-1, ([], [])); wc_ecc_rs_raw_to_sig := fun _ _ _ => (-1, []);
     wc_ecc_verify_hash := fun _ _ _ _ => (-1, 0) |}.
Definition no_ecc_ok : WolfCryptEccOk sample_keys no_ecc.
Proof. by refine {| ecdsa := fun _ _ _ _ _ => False; der_rs := fun _ _ _ => False |}. Defined.

Definition no_mldsa : WolfCryptMlDsa :=
  {| WC_ML_DSA_44 := 2; WC_ML_DSA_65 := 3; WC_ML_DSA_87 := 5; wc_MlDsaKey_SetParams := fun _ => -1;
     wc_MlDsaKey_MakeKeyFromSeed := fun _ _ => (-1, []); wc_MlDsaKey_SigSize := fun _ => -1;
     wc_MlDsaKey_ImportPubRaw := fun _ _ => -1; wc_MlDsaKey_SignCtx := fun _ _ _ _ _ _ => (-1, []);
     wc_MlDsaKey_SignCtxHash := fun _ _ _ _ _ _ _ => (-1, []);
     wc_MlDsaKey_SignCtxWithSeed := fun _ _ _ _ _ _ => (-1, []);
     wc_MlDsaKey_SignCtxHashWithSeed := fun _ _ _ _ _ _ _ => (-1, []);
     wc_MlDsaKey_VerifyCtx := fun _ _ _ _ _ => (-1, 0);
     wc_MlDsaKey_VerifyCtxHash := fun _ _ _ _ _ _ => (-1, 0) |}.
Definition no_mldsa_ok : WolfCryptMlDsaOk no_mldsa.
Proof. by refine {| mldsa_valid := fun _ _ _ _ _ _ => False |}. Defined.

Definition no_stateful : WolfCryptStateful :=
  {| wc_LmsKey_ImportPubRaw := fun _ => -1; wc_LmsKey_Verify := fun _ _ _ _ => -1;
     wc_XmssKey_ImportPubRaw_ex := fun _ _ => -1; wc_XmssKey_Verify := fun _ _ _ _ _ => -1 |}.
Definition no_stateful_ok : WolfCryptStatefulOk no_stateful.
Proof. by refine {| lms_valid := fun _ _ _ => False; xmss_valid := fun _ _ _ _ => False |}. Defined.

#[local] Existing Instances toy_rsa toy_rsa_ok toy_edwards toy_edwards_ok no_ecc no_ecc_ok
  no_mldsa no_mldsa_ok no_stateful no_stateful_ok.

(** * The store: an Ed25519 key pair, its public key, and an RSA key pair *)

Definition ed_usage : Z := Z.lor PSA_KEY_USAGE_SIGN_MESSAGE PSA_KEY_USAGE_VERIFY_MESSAGE.
Definition pair_attr : psa_key_attributes_t :=
  volatile_attr TWISTED_EDWARDS_KEY_PAIR ed_usage PSA_ALG_PURE_EDDSA.
Definition pub_attr : psa_key_attributes_t :=
  volatile_attr TWISTED_EDWARDS_PUBLIC_KEY PSA_KEY_USAGE_VERIFY_MESSAGE PSA_ALG_PURE_EDDSA.
Definition rsa_attr : psa_key_attributes_t :=
  volatile_attr PSA_KEY_TYPE_RSA_KEY_PAIR (Z.lor PSA_KEY_USAGE_ENCRYPT PSA_KEY_USAGE_DECRYPT)
    PSA_ALG_RSA_PKCS1V15_CRYPT.
Definition ed_data : list byte := replicate 32 x1d.
Definition rsa_data : list byte := replicate 40 x33.

Definition sign_calls : list api_call :=
  [CallImport pair_attr ed_data; CallImport pub_attr ed_data; CallImport rsa_attr rsa_data].
Definition sign_lib : kstate posix_store := (run_calls sign_calls sample_state).2.
Definition pair_id : Z := PSA_KEY_ID_VENDOR_MIN.
Definition pub_id : Z := PSA_KEY_ID_VENDOR_MIN + 1.
Definition rsa_id : Z := PSA_KEY_ID_VENDOR_MIN + 2.
Definition sign_state : opstate posix_store psa_hash_operation_ctx := mkOp _ _ sign_lib None [].

Lemma sign_calls_ok : Forall (fun c => call_ok c /\ user_call c) sign_calls.
Proof. repeat constructor; by vm_compute. Qed.

Lemma sign_inv : store_inv (op_lib sign_state).
Proof. exact (run_calls_keep_inv sign_calls sample_state sample_inv sign_calls_ok). Qed.

Lemma sign_ready : ready sign_state.
Proof.
  split; [done|]. split_and!; [|by vm_compute|by vm_compute].
  split; [by vm_compute|]. split; by vm_compute.
Qed.

Lemma pair_found : table (op_lib sign_state) pair_id = Some (set_bits pair_attr 255, ed_data).
Proof. vm_compute. reflexivity. Qed.
Lemma pub_found : table (op_lib sign_state) pub_id = Some (set_bits pub_attr 255, ed_data).
Proof. vm_compute. reflexivity. Qed.
Lemma rsa_found : table (op_lib sign_state) rsa_id = Some (set_bits rsa_attr 2048, rsa_data).
Proof. vm_compute. reflexivity. Qed.

Definition msg : list byte := [x68; x69].
Definition signature : list byte := fit 64 msg.
Definition after_sign : opstate posix_store psa_hash_operation_ctx :=
  (api_sign OfMessage pair_id PSA_ALG_PURE_EDDSA (Bytes msg) (Null 0) true 64 true sign_state).2.

Lemma run_sign :
  api_sign OfMessage pair_id PSA_ALG_PURE_EDDSA (Bytes msg) (Null 0) true 64 true sign_state
  = ((PSA_SUCCESS, signature), after_sign).
Proof. refine (run_result _ sign_state (PSA_SUCCESS, signature) _). vm_compute. reflexivity. Qed.



Lemma pub_verdict :
  key_verdict (table (op_lib sign_state) pub_id) (verify_usage OfMessage) PSA_ALG_PURE_EDDSA
  = inr (set_bits pub_attr 255, ed_data).
Proof. rewrite pub_found. vm_compute. reflexivity. Qed.



(** The public key checks what the key pair has signed. *)
Lemma pub_can_verify : can_verify (set_bits pub_attr 255) ed_data PSA_ALG_PURE_EDDSA (Null 0) msg.
Proof.
  split; [done|]. split; [by right|]. split_and!; [by vm_compute..|]. done.
Qed.

Lemma sign_verify_roundtrip_witness :
  exists s2, api_verify OfMessage pub_id PSA_ALG_PURE_EDDSA (Bytes msg) (Null 0) (Bytes signature) after_sign
    = (PSA_SUCCESS, s2).
Proof.
  apply (sign_verify_roundtrip OfMessage OfMessage pair_id pub_id PSA_ALG_PURE_EDDSA msg msg (Null 0) true 64
           sign_state signature after_sign (set_bits pub_attr 255) ed_data sign_inv sign_ready).
  - done.
  - by vm_compute.
  - exact run_sign.
  - exact pub_verdict.
  - intros a d. rewrite pair_found. intros [= <- <-]. split; vm_compute; reflexivity.
  - exact pub_can_verify.
  - by vm_compute.
Defined.

Definition after_verify : opstate posix_store psa_hash_operation_ctx :=
  (api_verify OfMessage pub_id PSA_ALG_PURE_EDDSA (Bytes msg) (Null 0) (Bytes signature) sign_state).2.

Lemma run_verify :
  api_verify OfMessage pub_id PSA_ALG_PURE_EDDSA (Bytes msg) (Null 0) (Bytes signature) sign_state
  = (PSA_SUCCESS, after_verify).
Proof. refine (run_result _ sign_state PSA_SUCCESS _). vm_compute. reflexivity. Qed.

Lemma verified_by_scheme_witness : edwards_valid 255 PSA_ALG_PURE_EDDSA ed_data [] msg signature.
Proof.
  destruct (verified_by_scheme OfMessage pub_id PSA_ALG_PURE_EDDSA (Bytes msg) (Null 0) signature sign_state
              after_verify sign_inv ltac:(done) run_verify) as (a & d & Ht & _ & Hed & _).
  rewrite pub_found in Ht. injection Ht as <- <-. exact (Hed ltac:(by vm_compute)).
Defined.

(** * Encryption *)

Definition cipher_text : list byte := toy_enc msg.
Definition after_encrypt : opstate posix_store psa_hash_operation_ctx :=
  (psa_asymmetric_encrypt rsa_id PSA_ALG_RSA_PKCS1V15_CRYPT (Bytes msg) (Null 0) true 256 true sign_state).2.

Lemma run_encrypt :
  psa_asymmetric_encrypt rsa_id PSA_ALG_RSA_PKCS1V15_CRYPT (Bytes msg) (Null 0) true 256 true sign_state
  = ((PSA_SUCCESS, cipher_text), after_encrypt).
Proof. refine (run_result _ sign_state (PSA_SUCCESS, cipher_text) _). vm_compute. reflexivity. Qed.

Lemma rsa_can_decrypt : rsa_decrypter PSA_KEY_TYPE_RSA_KEY_PAIR rsa_data PSA_ALG_RSA_PKCS1V15_CRYPT.
Proof.
  split_and!; [by vm_compute..| |].
  - intros _ n. split; [done|]. intros size Hsz. unfold wc_RNG_GenerateBlock, sample_rng.
    by rewrite (proj2 (Z.ltb_ge size 0)).
  - intros Hp. vm_compute in Hp. done.
Qed.

Lemma asymmetric_roundtrip_witness :
  exists s2, psa_asymmetric_decrypt rsa_id PSA_ALG_RSA_PKCS1V15_CRYPT (Bytes cipher_text) (Null 0) true 16 true
    after_encrypt = ((PSA_SUCCESS, msg), s2).
Proof.
  apply (asymmetric_roundtrip rsa_id rsa_id PSA_ALG_RSA_PKCS1V15_CRYPT (Bytes msg) (Null 0) true 256 sign_state
           cipher_text after_encrypt true 16 (set_bits rsa_attr 2048) rsa_data sign_inv sign_ready).
  - done.
  - by vm_compute.
  - exact run_encrypt.
  - rewrite rsa_found. vm_compute. reflexivity.
  - intros a d. rewrite rsa_found. by intros [= <- <-].
  - by vm_compute.
  - exact rsa_can_decrypt.
  - by left.
  - by vm_compute.
Defined.
