(* ===== verification/PublicKeyExamples.v ===== *)
(** The theorems on exported public keys at concrete inputs: an Ed25519 and an
    ML-KEM key pair, whose public keys are exported and imported again, over the
    toy primitives of [SignExamples] and [KeyWrapExamples]. *)

From stdpp Require Import base decidable list strings gmap.
From Stdlib Require Import ZArith Lia.
From Stdlib Require Import Strings.Byte.
From S2P Require Import Prelude.
From S2P Require Import Values.
From S2P Require Import Engine.
From S2P Require Import KeyPolicy.
From S2P Require Import KeyFormat.
From S2P Require Import StoreIface.
From S2P Require Import StorePosix.
From S2P Require Import StorePosixSpec.
From S2P Require Import Library.
From S2P Require Import KeyStore.
From S2P Require Import Samples.
From S2P Require Import KeyStoreRules.
From S2P Require Import Operation.
From S2P Require Import Hash.
From S2P Require Import HashSpec.
From S2P Require Import CryptoSamples.
From S2P Require Import ImportRules.
From S2P Require Import KeyStoreSpec.
From S2P Require Import KeyStoreCalls.
From S2P Require Import KeyStoreInv.
From S2P Require Import KeyReaders.
From S2P Require Import AsymValues.
From S2P Require Import WolfSign.
From S2P Require Import WolfPkc.
From S2P Require Import SignIface.
From S2P Require Import Sign.
From S2P Require Import SignRules.
From S2P Require Import SignSpec.
From S2P Require Import Rsa.
From S2P Require Import Ecc.
From S2P Require Import Edwards.
From S2P Require Import Kem.
From S2P Require Import KeyGen.
From S2P Require Import SignBackends.
From S2P Require Import KemSpec.
From S2P Require Import PublicKeys.
From S2P Require Import KeyStoreExamples.
From S2P Require Import KeyWrapExamples.
From S2P Require Import SignExamples.

#[local] Open Scope Z_scope.

#[local] Existing Instances sample_rng_ok sample_hash sample_hash_ok sample_digest.
#[local] Existing Instances toy_rsa toy_rsa_ok toy_edwards toy_edwards_ok no_ecc no_ecc_ok
  no_mldsa no_mldsa_ok no_stateful no_stateful_ok toy_kem toy_kem_ok.

(** * Key generation: Edwards keys, whose public key is the private one *)

Definition toy_out (k : list byte) (sz : Z) : Z * list byte := if sz <? zlen k then (-132, []) else (0, k).
Definition toy_made (n : Z) : Z * generated :=
  (0, mkGenerated true (replicate (Z.to_nat n) x1d) (replicate (Z.to_nat n) x1d)).

Definition toy_keygen : WolfCryptKeyGen sample_keys no_ecc :=
  {| LENGTH_ONLY_E := -202; rsa_object := unit;
     rsa_object_public := fun _ => @pair mp_int mp_int 0 0;
     wc_MakeRsaKey := fun _ _ _ => (-1, tt); wc_RsaKeyToDer := fun _ _ => (-1, []);
     wc_RsaKeyToPublicDer := fun _ _ => (-1, []); wc_RsaFlatten := fun _ => (-1, ([], []));
     wc_NewRsaKey_object := inr tt; ecc_object := unit; ecc_object_private := fun _ => false;
     ecc_object_scalar := fun _ => (0 : @mp_int sample_keys); ecc_object_point := fun _ => tt;
     wc_ecc_make_key_ex := fun _ _ _ => (-1, tt); mp_to_unsigned_bin_len := fun _ _ => (-1, []);
     wc_ecc_export_x963 := fun _ _ _ => (-1, []);
     wc_ed25519_init_ex := 0; wc_ed25519_make_key := fun _ n => toy_made n;
     wc_ed25519_export_private_only := toy_out; wc_ed25519_export_public := toy_out;
     wc_ed448_init_ex := 0; wc_ed448_make_key := fun _ n => toy_made n;
     wc_ed448_export_private_only := toy_out; wc_ed448_export_public := toy_out;
     wc_curve25519_init_ex := 0; wc_curve25519_make_key := fun _ n => toy_made n;
     wc_curve25519_import_private_ex := fun _ => 0; wc_curve25519_export_private_raw_ex := toy_out;
     wc_curve25519_export_public_ex := toy_out; curve25519_blinding_rng := 0;
     wc_curve448_init_ex := 0; wc_curve448_make_key := fun _ n => toy_made n;
     wc_curve448_import_private_ex := fun _ => 0; wc_curve448_export_private_raw_ex := toy_out;
     wc_curve448_export_public_ex := toy_out;
     wc_MlDsaKey_Init := 0; wc_MlDsaKey_PubSize := fun _ => -1;
     wc_MlDsaKey_ExportPubRaw := fun _ _ _ => (-1, []); wc_MlKemKey_Init := fun _ => 0 |}.

Lemma toy_out_spec k sz d : toy_out k sz = (0, d) -> d = k /\ zlen k <= sz.
Proof. unfold toy_out. destruct (Z.ltb_spec sz (zlen k)); [done|]. by intros [= <-]. Qed.

Definition toy_keygen_ok :
  WolfCryptKeyGenOk sample_keys no_ecc toy_rsa toy_edwards no_mldsa toy_kem toy_keygen.
Proof.
  split; cbn; try (by intros); try (by intros ???? [= <- <-]).
  all: try (by intros k sz d [-> ?]%toy_out_spec).
  - intros k pub sz d [= <-] [-> _]%toy_out_spec. done.
  - intros k pub sz d [= <-] [-> _]%toy_out_spec. done.
  - intros t seed pub sz d [= <-] [= <-] [= <-]. split_and!; [done| |done].
    apply fit_length. unfold toy_set. repeat case_match; done.
Qed.

#[local] Existing Instances toy_keygen toy_keygen_ok.
#[local] Existing Instance wolfcrypt_key_backend | 0.
#[local] Existing Instance wolfcrypt_key_backend_ok | 0.

(** * An Ed25519 key pair *)

Definition signer : psa_key_attributes_t := SignExamples.pair_attr.
Definition verifier_attr : psa_key_attributes_t := set_bits SignExamples.pub_attr 255.
Definition signer_id : Z := PSA_KEY_ID_VENDOR_MIN.
Definition verifier_id : Z := PSA_KEY_ID_VENDOR_MIN + 1.

Definition with_signer : kstate posix_store := (run_calls [CallImport signer ed_data] sample_state).2.
Definition after_export : kstate posix_store := (psa_export_public_key signer_id true 32 true with_signer).2.
Definition with_verifier : opstate posix_store psa_hash_operation_ctx :=
  mkOp _ _ (psa_import_key (Some verifier_attr) (Some ed_data) true after_export).2 None [].

Lemma signer_call_ok : Forall (fun c => call_ok c /\ user_call c) [CallImport signer ed_data].
Proof. repeat constructor; by vm_compute. Qed.

Lemma signer_inv : store_inv with_signer.
Proof. exact (run_calls_keep_inv _ sample_state sample_inv signer_call_ok). Qed.

Lemma signer_found : table with_signer signer_id = Some (set_bits signer 255, ed_data).
Proof. vm_compute. reflexivity. Qed.

Lemma run_public_export :
  psa_export_public_key signer_id true 32 true with_signer = ((PSA_SUCCESS, ed_data), after_export).
Proof. refine (run_result _ with_signer (PSA_SUCCESS, ed_data) _). vm_compute. reflexivity. Qed.

Lemma run_import :
  psa_import_key (Some verifier_attr) (Some ed_data) true after_export
  = ((PSA_SUCCESS, verifier_id), op_lib with_verifier).
Proof. refine (run_result _ after_export (PSA_SUCCESS, verifier_id) _). vm_compute. reflexivity. Qed.

Lemma verifier_ready : ready with_verifier.
Proof.
  split; [by vm_compute|]. split_and!; [|by vm_compute|by vm_compute].
  split; [by vm_compute|]. split; by vm_compute.
Qed.

Definition after_signing : opstate posix_store psa_hash_operation_ctx :=
  (api_sign OfMessage signer_id PSA_ALG_PURE_EDDSA (Bytes msg) (Null 0) true 64 true with_verifier).2.

Lemma run_signing :
  api_sign OfMessage signer_id PSA_ALG_PURE_EDDSA (Bytes msg) (Null 0) true 64 true with_verifier
  = ((PSA_SUCCESS, signature), after_signing).
Proof. refine (run_result _ with_verifier (PSA_SUCCESS, signature) _). vm_compute. reflexivity. Qed.

Lemma signer_can_verify : can_verify (set_bits signer 255) ed_data PSA_ALG_PURE_EDDSA (Null 0) msg.
Proof.
  split; [done|]. split; [by left|]. split_and!; [by vm_compute..|]. done.
Qed.

Lemma exported_key_verifies_witness :
  exists o2, api_verify OfMessage verifier_id PSA_ALG_PURE_EDDSA (Bytes msg) (Null 0) (Bytes signature) after_signing
    = (PSA_SUCCESS, o2).
Proof.
  apply (exported_key_verifies OfMessage OfMessage signer_id 32 ed_data verifier_attr verifier_id with_signer
           after_export PSA_ALG_PURE_EDDSA msg msg (Null 0) true 64 with_verifier signature after_signing
           (set_bits signer 255) ed_data signer_inv).
  - by vm_compute.
  - exact run_public_export.
  - exact run_import.
  - exact verifier_ready.
  - done.
  - exact run_signing.
  - exact signer_found.
  - by vm_compute.
  - by split.
  - by left.
  - by vm_compute.
  - by vm_compute.
  - done.
  - done.
  - by vm_compute.
  - by vm_compute.
  - done.
  - exact signer_can_verify.
Defined.

(** * An ML-KEM key pair *)

Definition kem_pair_state : kstate posix_store :=
  (run_calls [CallImport KeyWrapExamples.pair_attr pair_seed] sample_state).2.
Definition kem_exported : kstate posix_store :=
  (psa_export_public_key signer_id true 800 true kem_pair_state).2.
Definition kem_both : opstate posix_store unit :=
  mkOp _ _ (psa_import_key (Some KeyWrapExamples.pub_attr) (Some pair_public) true kem_exported).2 None [].
Definition kem_sent : opstate posix_store unit :=
  (psa_encapsulate verifier_id PSA_ALG_ML_KEM (Some secret_attr) true true 800 true kem_both).2.

Lemma kem_pair_call_ok : Forall (fun c => call_ok c /\ user_call c) [CallImport KeyWrapExamples.pair_attr pair_seed].
Proof. repeat constructor; by vm_compute. Qed.

Lemma kem_pair_inv : store_inv kem_pair_state.
Proof. exact (run_calls_keep_inv _ sample_state sample_inv kem_pair_call_ok). Qed.

Lemma run_kem_export :
  psa_export_public_key signer_id true 800 true kem_pair_state = ((PSA_SUCCESS, pair_public), kem_exported).
Proof. refine (run_result _ kem_pair_state (PSA_SUCCESS, pair_public) _). vm_compute. reflexivity. Qed.

Lemma run_kem_import :
  psa_import_key (Some KeyWrapExamples.pub_attr) (Some pair_public) true kem_exported
  = ((PSA_SUCCESS, verifier_id), op_lib kem_both).
Proof. refine (run_result _ kem_exported (PSA_SUCCESS, verifier_id) _). vm_compute. reflexivity. Qed.

Lemma run_kem_encapsulate :
  psa_encapsulate verifier_id PSA_ALG_ML_KEM (Some secret_attr) true true 800 true kem_both
  = ((PSA_SUCCESS, (verifier_id + 1, sent)), kem_sent).
Proof. refine (run_result _ kem_both (PSA_SUCCESS, (verifier_id + 1, sent)) _). vm_compute. reflexivity. Qed.

Lemma kem_sent_ready : ready kem_sent.
Proof.
  split; [by vm_compute|]. split_and!; [|by vm_compute|by vm_compute].
  split; [by vm_compute|]. split; by vm_compute.
Qed.

Lemma exported_key_agreement_witness :
  exists ss id2 o2, zlen ss = 32 /\
    option_map snd (table (op_lib kem_sent) (verifier_id + 1)) = Some ss /\
    psa_decapsulate signer_id PSA_ALG_ML_KEM (Bytes sent) (Some secret_attr) true kem_sent
      = ((PSA_SUCCESS, id2), o2) /\
    option_map snd (table (op_lib o2) id2) = Some ss.
Proof.
  apply (exported_key_agreement signer_id 800 pair_public KeyWrapExamples.pub_attr verifier_id kem_pair_state
           kem_exported secret_attr secret_attr true 800 kem_both kem_sent (verifier_id + 1) sent
           KeyWrapExamples.pair_attr pair_seed (set_bits secret_attr 256) kem_pair_inv).
  - by split.
  - exact run_kem_export.
  - exact run_kem_import.
  - by vm_compute.
  - by split.
  - by left.
  - by vm_compute.
  - done.
  - done.
  - done.
  - exact secret_wf.
  - exact secret_user.
  - exact secret_wf.
  - exact secret_user.
  - by vm_compute.
  - exact run_kem_encapsulate.
  - exact kem_sent_ready.
  - intros ss Hss. apply secret_import, Hss.
  - intros _. by vm_compute.
  - vm_compute. intros H. by apply H.
Defined.
